(* ===== verification/_CoqProject ===== *)
-Q . S2P
Prelude.v
DeliveryTypes.v
Pressure.v
Reservation.v
MpscLane.v
Lanes.v
Admission.v
Mailbox.v
MailboxInv.v
MailboxSpec.v
TimingWheel.v
TimingWheelSpec.v
EdfQueue.v
EdfSpec.v
ReadyGate.v
Lifecycle.v
Supervision.v
Breakers.v
DeadLetters.v
EndpointQueue.v
Directory.v
Spawner.v
Bootstrap.v
Coordinator.v
Disruptor.v
DisruptorMailbox.v
DisruptorMailboxSpec.v
StreamBuffer.v
WireFrame.v
WireConn.v
Dedup.v
Receipts.v
Reliable.v
OutboundTracker.v
ActorCircuit.v
TraceText.v
Pipeline.v
Endpoint.v
GossipCodec.v
Gossip.v
GossipSpec.v
ClusterNode.v
HashRing.v
Singleton.v
SingletonSpec.v
Sharding.v
NameCodec.v
NameResolver.v
ClusterRegistry.v
RpcChannel.v
FrameProto.v
BackpressureWire.v
StreamRuntime.v
InboundRouter.v
ActorProxy.v
ChaseLev.v
InjectRing.v
WorkerPark.v
Placement.v
PlacementSpec.v
HybridScheduler.v
HybridSpec.v
StreamActors.v
AskManager.v
Routing.v
SlabSource.v
SlabCache.v
SlabHeap.v
FreeListSpec.v
Durable.v
TopologyBinary.v
TimerPlane.v
TimerPlaneSpec.v
CalendarQueue.v
ActorContext.v
EventActor.v
EventActorSpec.v
