(* ===== verification/Prelude.v ===== *)
(** * HPActor: a verification library for the actor runtime

    HPActor is a C++ actor runtime.  A message sent to an actor passes the
    delivery pipeline (duplicate cache, circuit of the actor) and is admitted
    into its mailbox (or refused, dropped, spilled) by an admission pipeline
    with capacity reservations and backpressure; the push that fills an empty
    mailbox notifies the scheduler through a ready gate; a worker takes the
    actor from a run queue (by priority or by earliest deadline), runs one
    message through its behavior and requeues or idles it.  The behavior of an
    event-based actor sees a context through which it replies, asks, links,
    monitors, drains and stops.  Timers come from a hierarchical timing wheel, from
    the sharded timer plane or from a calendar queue.  Memory comes from slab
    caches over mapped segments.  Actors have a lifecycle driven by supervisors;
    their state can be kept in a store of snapshots and events.
    Actors are spawned into a directory of ids and names, singly or as a
    topology in one transaction, and the runtime itself starts and stops in
    stages.  Messages to other nodes wait in per-endpoint queues behind a
    circuit breaker and travel as frames over stream connections; a tracked
    send is repeated until it is acknowledged or given up.  Nodes find each
    other by gossip, and the cluster layer keeps node states and quorums, names
    on a consistent hash ring, service registrations, topics, singletons with
    fencing leases and shards.

    ** Files

    Paths are below [src/include/hpactor] (headers) and [src/src] (sources).

    Local delivery:

    - [Prelude]: machine integers with their wrap-around, binary64 numbers
      (the Standard Library's executable [SpecFloat]), sequences of steps,
      list sums, the hint and rewrite databases [hpa], [hpa_rw] and the
      tactics [bcase], [bool_to_prop], [word_lia].
    - [DeliveryTypes]: [msg/enqueue_result.hpp], [msg/delivery_result.hpp],
      [msg/failure_reason.hpp]: result codes, configuration records and the
      classification functions.
    - [Pressure]: [mailbox/detail/pressure_state_machine.hpp] and
      [backpressure_signal_gate.hpp].
    - [Reservation]: [adt/reservation_manager.hpp], as functions and, in
      [ConcurrentReservation], as interleaved atomic accesses of threads.
    - [MpscLane]: [adt/mpsc_mailbox.hpp], the intrusive linked queue on an
      explicit heap, refined to a list; [ConcurrentLane] interleaves producers
      with the consumer.
    - [Lanes]: [mailbox/multi_lane_queue.hpp] and [mailbox/overflow_queue.hpp].
      Lanes are the lists that [MpscLane] implements.
    - [Admission]: [mailbox/actor_rate_limiter.hpp] and the policies of
      [mailbox/detail/policies].
    - [Mailbox]: [mailbox/mpsc_actor_mailbox.hpp] and the overflow handlers of
      [mailbox/detail/handlers]: the whole state and every operation.
      [MailboxInv] proves the invariant, [MailboxSpec] the properties.
    - [Disruptor]: [adt/disruptor_mpsc_ring.hpp], the methods and, as a step
      relation, any number of producers with the consumer and its leases.
    - [DisruptorMailbox]: [mailbox/disruptor_actor_mailbox.hpp] and its
      handlers, over [Disruptor], [Reservation] and [Lanes];
      [DisruptorMailboxSpec] proves its properties.
    - [Dedup], [DeadLetters], [ActorCircuit]: the duplicate cache, the dead
      letter queue and the circuit breaker of an actor ([mailbox], [actor]).
    - [Pipeline]: [mailbox/delivery_pipeline.cpp], the delivery of one message
      through the three and the mailbox of its target.

    Scheduling, lifecycle, spawning:

    - [TimingWheel], [TimingWheelSpec]: [timer/timing_wheel.cpp].
    - [EdfQueue], [EdfSpec]: [sched/edf_queue.cpp], the deadline heap.
    - [ReadyGate]: [sched/actor_ready_gate.cpp] and the behavior runner of
      [sched/actor_execution_engine.cpp]; the runner is written against the
      class [MailboxOps], which [Mailbox] implements.  [ConcurrentGate]
      interleaves notifiers and workers.
    - [ChaseLev]: [adt/chaselev_deque.hpp], the methods and the owner
      interleaved with any number of thieves, and
      [adt/multi_priority_work_queue.hpp]; [InjectRing]: the ring of
      [sched/work_placement_scheduler.hpp], simulated by [Disruptor];
      [WorkerPark]: [sched/worker_park.cpp] and how a worker of
      [sched/worker_thread.cpp] goes to sleep.
    - [Placement], [PlacementSpec]: [sched/work_placement_scheduler.cpp],
      [sched/a2ws.cpp] and [sched/dedicated_thread_pool.cpp], over the lists
      that these queues implement and [EdfQueue].
    - [HybridScheduler], [HybridSpec]: [sched/scheduler.cpp] over [Placement],
      [ReadyGate] and [Mailbox].
    - [Lifecycle]: [actor/lifecycle/lifecycle_state.hpp] and
      [lifecycle_actor.cpp], with [ConcurrentLifecycle].
    - [Supervision]: [supervision/supervision.cpp] over [Lifecycle].
    - [Breakers]: [net/endpoint_circuit_breaker.cpp] and
      [actor/lifecycle/failure_rate_tracker.hpp].
    - [Directory]: [actor/system/actor_directory.cpp] and
      [runtime/actor_spawn_lease.cpp].
    - [Spawner]: [runtime/actor_spawner.cpp] over [Directory] and [Lifecycle].
    - [Bootstrap]: [runtime/topology_bootstrap_transaction.cpp] against the
      class [ProviderLaws], the contract that
      [runtime/configured_actor_provider.hpp] documents.  The provider
      [runtime/configured_cpp_provider.cpp] is modelled and does not keep it
      ([cpp_port_never_commits]); a port over [Spawner], which is not part of the
      program, shows that it can be kept.
    - [Coordinator]: [runtime/runtime_coordinator.cpp].

    What actors are written with ([actor] unless another directory is named):

    - [ActorContext]: [actor_context.cpp], [abstract_actor.cpp] and
      [system/actor_ref_cache.hpp], references, lookups, replies and asks.
    - [EventActor], [EventActorSpec]: [event_based_actor.cpp] over [ActorContext]
      and [Lifecycle]: handling, links and monitors, drains, kill and stop.
    - [AskManager]: [request/ask_manager.cpp], [msg/request_handle.hpp] and
      [msg/request_timeout.hpp]; [ConcurrentHandle] interleaves the threads that
      settle and observe a handle.
    - [Routing]: [routing] (routing logics, pool and group routers) and
      [mailbox/stash_buffer.hpp].
    - [StreamActors]: [stream/stream_sender_actor.cpp],
      [stream_receiver_actor.cpp], [stream_handle.hpp], [stream_registry.cpp].
    - [Durable]: [durable]: the stores in memory and in files against the class
      of what the durable and event-sourced behaviors rely on, and the two
      behaviors.  The disk is keyed by the components of a path, so that
      identities which spell one path share a directory and a deletion takes
      what lies below.

    Memory, timers, configuration:

    - [SlabSource]: [mem/segment_provider.cpp], [mem/super_carrier.cpp], the
      size classes; [SlabCache]: [mem/slab_cache.cpp],
      [mem/thread_local_allocator.cpp], [adt/freelist.hpp], with the memory as
      cells at addresses; [SlabHeap] proves the heap of caches sound,
      [FreeListSpec] the free list under interleaving.
    - [TimerPlane], [TimerPlaneSpec]: [timer/timer_plane.cpp],
      [timer_plane_shard.cpp] and [timer_command_queue.hpp].
    - [CalendarQueue]: [timer/calendar_queue.cpp] and [adt/calendar_queue.hpp].
    - [TopologyBinary]: [config/binary_serializer.cpp] and
      [config/binary_loader.cpp], with the data of [config/topology_model.hpp].

    Between nodes:

    - [EndpointQueue]: [net/endpoint_outbound_queue.cpp] over [Pressure].
    - [StreamBuffer], [WireFrame], [WireConn]: the growable byte buffer, the
      frame format and the two halves of a framed connection ([net]); the
      frames are the bytes of the buffers.
    - [Receipts], [Reliable], [OutboundTracker]: delivery receipts, the tracker
      of unacknowledged sends with its retries, and the bounded outbound table
      of the mailbox layer.
    - [Endpoint]: [types/types.hpp] and [net/endpoint.cpp], addresses and their
      text; [GossipCodec], [Gossip], [GossipSpec]: [net/gossip_membership.cpp],
      its messages, its protocol and the properties.
    - [TraceText]: [tracing/trace_context_parser.cpp] and the trace contexts of
      [msg/frame_protobuf.cpp]; [FrameProto]: the records of
      [protos/hpactor/frame.proto] and the addresses of [frame_protobuf.cpp].
    - [RpcChannel]: [rpc/rpc_channel.cpp].
    - [BackpressureWire]: [mailbox/backpressure_coordinator.cpp] and
      [backpressure_signal_serialization.cpp].
    - [StreamRuntime]: [actor/stream/stream_runtime.cpp] and
      [mailbox/local_delivery_engine.cpp].
    - [InboundRouter]: [net/inbound_frame_router.cpp] over [Pipeline],
      [Reliable], [RpcChannel], [BackpressureWire], [StreamRuntime] and
      [NameCodec], with the acknowledgements of [net/reliable_ack.cpp],
      [net/reliable_ack_emission.cpp] and [actor/system/actor_system.cpp].
    - [ActorProxy]: [ref/actor_proxy.cpp] and [net/actor_location_cache.cpp],
      whose frames [InboundRouter] receives.

    Cluster ([cluster]):

    - [ClusterNode]: [cluster_failure_model.cpp] and the tables of node states
      and partition policies.
    - [HashRing]: [name/consistent_hash_ring.cpp].
    - [Singleton]: leases, elections, the in-memory leadership backend, the
      adapter and the manager of [singleton], against the class
      [LeadershipBackend]; [SingletonSpec] gives the class its laws
      ([FencingBackend]), discharges them and runs any number of nodes.
    - [Sharding]: [sharding]: table, placements, coordinator, handoff.
    - [NameCodec]: [name/name_directory_codec.hpp] and the readers of
      [net/inbound_frame_router.cpp]; [NameResolver]: [name/name_directory.cpp],
      [name_resolve_cache.cpp], [name_resolver.cpp] over [HashRing],
      [NameCodec] and [Endpoint].
    - [ClusterRegistry]: [receptionist] and [pubsub], the two cores.

    ** How code becomes definitions

    A class is a [Record], an enumeration an [Inductive], a method a function
    from the state to its result and the new state.  An operation that the
    code runs under a lock, or that its contract gives to one thread, is one
    function.  Where threads meet on atomics, a separate step relation has one
    step per atomic access, and invariants hold in every interleaving of any
    number of threads under sequential consistency; the memory orders of the
    C++ model are not represented.  [size_t] and [uint64_t] are [Z] with
    [u64], [uint32_t] with [u32], [int64_t] differences that can overflow with
    [i64] (the two's complement result that compilers produce; the language
    leaves it undefined).  Clock readings are arguments.  [double] is
    binary64 with rounding to nearest.

    What the sources only call is a parameter: the bytes of protobuf records,
    the growth of vectors, the pieces in which a socket reads and writes, the
    iteration orders of hash maps, shuffles and random jitter, the address
    functions of the C library, [std::hash], the callbacks of the user.  The
    laws a theorem needs of one are hypotheses of the theorem or of its
    section, and its witness has a concrete function for each.

    ** What the theorems show

    Mailbox: the counters account for the queued messages and the capacity
    bounds hold, but for the messages that a batch queues beyond the one slot it
    reserves; what every branch of [try_push] does; a mailbox is
    never non-empty with its wakeup edge still armed; what [dequeue] returns,
    and when it returns nothing.
    Below it, the reservation protocol is safe under interleaving (the bytes,
    when no request wraps the sum with the capacity) and the
    linked queue is a FIFO.  Disruptor mailbox: the ring delivers claimed
    values in order under any interleaving and never overwrites a lease; the
    mailbox loses nothing unless its policy drops or spills, each lane is a
    FIFO, and what a push, a consumption and a drain do.  Pipeline: a tracked
    message enters a mailbox once, a refused one leaves no trace in the
    duplicate cache, an open circuit admits one probe.

    Scheduling: at most one worker runs an actor, and an actor that is ready has
    an item queued or held, though not always only one; one run of the behavior runner; the stealing
    deque is an atomic deque in every interleaving; a sleeping worker with work
    has a producer that is about to wake it; placement neither loses nor
    duplicates work; and over all of it an actor is ready exactly when one item
    waits for it, so that no message waits for an actor that is not queued
    ([no_message_stranded], for messages below the number of levels and without
    a rate limiter; what happens otherwise is stated too).  The deadline
    heap is a priority queue; due timers fire exactly once and the wheel
    implements a map of timers, when an advance passes at most 255 ticks (a tick
    of 392157 ns or more).  Lifecycle: transitions linearize to a chain of
    legal steps.  Supervision: restart budgets and what a failure reaches.
    Spawning: adoption is all or nothing, names
    never dangle, bootstrap would be a transaction for a provider that keeps its
    contract, which none of the repository does.  Coordinator: startup order, reverse rollback, idempotent stop.

    Actors: a drain ends once, and a drained actor reaches its stop; an ask is
    answered once; a reference that the cache gives is the one that this or an
    earlier lookup gave, and the cache forgets the least recently used; an ask is pending with
    its timer running or settled, and its completion runs once in every
    interleaving; a router forwards to one of the routees it has now; a stream
    hands its target a prefix of what was written and keeps what is not
    acknowledged within its window, whatever the link loses or repeats; a
    snapshot is the old or the new one after a crash at any point, and the state
    of an event-sourced behavior that takes one snapshot, at its beginning, is
    that of its events, as long as they all apply.  Memory: live blocks never overlap and the allocator
    leaves their contents alone, for any number of caches that free each other's
    blocks; the free list is an atomic stack.  Timers: a shard of the timer plane
    implements a map of timers, for ticks between 392157 ns and 2^31 ns and
    commands whose push is over when they are drained; the calendar queue is never early.  Topologies:
    what the serializer writes the loader reads back.

    Network: accounting, admission and the control reserve of the outbound
    queue; the breaker's contract; the buffer is a list of bytes; frames are
    read back as written and nothing else is read; whatever pieces the socket
    makes of them the frames of one side arrive at the other in order, unless the
    reader finds nothing more to read inside a payload; the read
    handler ends on every input; a tracked send is settled exactly once and
    within its attempts, when it has a timeout and the ticks are far enough apart.
    Gossip: a silent member is suspected, declared dead and removed in bounded time,
    incarnations do not fall, messages are read back.  Between actors of two
    nodes: a message sent through a proxy reaches the pipeline of the other node
    with its type, bytes and identifier; every frame has one owner, to which it does what its
    kind says, and nothing else changes; how the sender of a tracked message learns of its fate; a call
    is settled once, within its retries; a stream delivers in order and is gone
    after its close; addresses, signals and acknowledgements are read back.

    Cluster: a consistent hash ring is the clockwise-nearest token and a node
    that leaves moves only its own names; singleton owners have different
    tokens and the holder of the lease the highest; elections agree; a
    rebalance gives every shard a live owner in a new epoch; quorums intersect;
    a registered name is found from every other node; receptionists converge
    in any order of delivery; topics and subscribers stay within their limits.
    Some theorems state what the code does where that differs from its
    comments: [dequeue_race_strands_messages], [batch_underflows_reservation],
    [oversized_spill_not_delivered], [small_tick_skips_due_timer],
    [edf_ties_are_lifo], [supervisor_restarts_without_bound],
    [failed_probe_skips_cooldown], [cpp_port_never_commits],
    [empty_hides_published_value], [full_with_free_slots],
    [spilled_message_lost], [spilled_messages_reordered],
    [split_frame_corrupted], [refused_probe_blocks_actor],
    [suspicion_never_withdrawn], [gossip_restarts_suspicion],
    [left_member_stays_out], [tombstone_suspected_again],
    [join_never_reported], [transport_only_start_fails], [ipv6_text_lost],
    [returning_node_refused], [active_node_keeps_stale_token],
    [epoch_reset_ignored], [static_rebalance_keeps_dead_owner],
    [one_answer_wakes_all], [unregister_removes_other_owner],
    [second_lookup_strands_first], [second_subscriber_replaces_first],
    [unsubscribe_not_announced], [remote_messages_expire],
    [tracked_send_reported], [acks_without_end], [answers_name_other_sends],
    [batch_entries_unacknowledged], [batch_stops_midway],
    [stream_tag_taken_for_name], [short_ipv6_reads_beyond],
    [retry_answer_unseen], [reopened_reservation_confused],
    [local_registration_unseen], [high_priority_strands_actor],
    [rate_limited_actor_stranded], [busy_actor_starves_others],
    [high_priority_work_lost], [injected_work_not_stolen], [steal_misses_work],
    [pinned_work_stolen], [odd_capacity_confuses], [first_event_refused],
    [second_snapshot_loses_event], [restart_loses_events],
    [refused_event_blocks_recovery], [checksum_is_not_crc32c],
    [file_sequences_restart], [args_shift_next_actor],
    [affinity_shifts_dispatcher], [cut_file_reads_outside],
    [shard_time_runs_ahead], [drain_reads_unwritten], [calendar_hangs],
    [cached_id_hides_endpoint], [ask_of_nobody_waits], [error_leaves_ask_open],
    [fast_reply_misdirected], [fast_ask_unanswered], [fast_tags_alias],
    [fast_tag_runs_when_stopped], [link_message_keeps_draining],
    [idle_stop_waits], [kill_tells_nobody], [quarantine_answer_wrong],
    [adapter_loses_sender], [second_stop_leaks_timer],
    [link_to_stopped_unreported], [pact_ignores_links],
    [eviction_reported_accepted], [wrapping_request_admitted],
    [recheck_queues_twice], [acknowledged_stream_stalls],
    [cached_reference_outlives_actor], [delete_erases_nested],
    [identities_share_directory], [untimed_send_waits].

    ** Bounds and fuel

    Heap sifting recurses on fuel equal to the number of items, which bounds
    the height.  The id allocation loop has 65536 retries, the size of the
    reserved range, and is proved to end.  The overflow drain has as many turns
    as the queue has messages, the ring drain one more than the ring has
    slots.  The read handler of a connection has fuel linear in the bytes it
    can see, which [read_handler_total] proves to be enough.  Port numbers have
    five digits and 32-bit numbers ten, varints ten groups; the scan of a
    message has its length as fuel ([scan_fuel]: more changes nothing).
    A timer of a call has as many turns as the call has retries, which
    [timeout_loop_effect] proves to be enough.
    The batch of a dispatch is bounded by the code's own limit, the loops over
    queues, workers and victims are structural.  The allocation of a block retries
    for each idle slab ([allocate] has two turns more than there are idle slabs), a
    drain handles one message per turn and has one turn more than the mailbox has
    messages.  The walks of the calendar queue have a number of turns as an
    argument because in the source they need not end ([calendar_hangs]).
    Ring sequences and deque indices are not wrapped at 2^64.  Theorems that need counters within the machine
    range say so in a hypothesis or in a boolean check on the configuration.

    ** What is not modelled

    Kernel I/O and the reactors over it, transport security, the registrar's
    etcd traffic, logging, metrics, the command line, generated protobuf code,
    coroutine frames, language bindings and fault injection (all sites are off);
    the etcd leadership backend, which the sources stub; the actors that only
    forward messages to a modelled core; memory telemetry, guard pages and
    regions; passivation, which nothing in the system starts; the TOML reader of
    the configuration; the applications and benchmarks.
    Threads themselves are not: what a worker does between two accesses to
    shared state is a function, its loop a sequence of turns. *)

From Stdlib Require Import ZArith Lia SpecFloat.
From stdpp Require Import base numbers list gmap strings sets fin_maps option.

#[local] Open Scope Z_scope.

(** ** Machine integers

    A [w]-bit unsigned integer is a [Z] in [0, 2^w); every operation of the
    source that can leave the range is followed by the wrap-around written
    out here. *)

Definition u8 (z : Z) : Z := z mod 256.
Definition u32 (z : Z) : Z := z mod 4294967296.
Definition u64 (z : Z) : Z := z mod 18446744073709551616.

(** Two's complement reading of the low 64 bits. *)
Definition i64 (z : Z) : Z :=
  (z + 9223372036854775808) mod 18446744073709551616 - 9223372036854775808.

Definition UINT32_MAX : Z := 4294967295.
Definition UINT64_MAX : Z := 18446744073709551615.
Definition INT64_MAX : Z := 9223372036854775807.
Definition INT64_MIN : Z := -9223372036854775808.

Create HintDb hpa discriminated.
Create Rewrite HintDb hpa_rw.

Lemma u8_range z : 0 <= u8 z < 256.
Proof. unfold u8. apply Z.mod_pos_bound. lia. Qed.
Lemma u32_range z : 0 <= u32 z < 4294967296.
Proof. unfold u32. apply Z.mod_pos_bound. lia. Qed.
Lemma u64_range z : 0 <= u64 z < 18446744073709551616.
Proof. unfold u64. apply Z.mod_pos_bound. lia. Qed.

Lemma u8_small z : 0 <= z < 256 -> u8 z = z.
Proof. apply Z.mod_small. Qed.
Lemma u32_small z : 0 <= z < 4294967296 -> u32 z = z.
Proof. apply Z.mod_small. Qed.
Lemma u64_small z : 0 <= z < 18446744073709551616 -> u64 z = z.
Proof. apply Z.mod_small. Qed.
Lemma i64_small z : INT64_MIN <= z <= INT64_MAX -> i64 z = z.
Proof. unfold i64, INT64_MIN, INT64_MAX. intros. rewrite Z.mod_small; lia. Qed.

Lemma u64_add_mod a b : u64 (u64 a + b) = u64 (a + b).
Proof. unfold u64. by rewrite Zplus_mod_idemp_l. Qed.
Lemma u64_sub_mod a b : u64 (u64 a - b) = u64 (a - b).
Proof. unfold u64. by rewrite Zminus_mod_idemp_l. Qed.
Lemma u32_add_mod a b : u32 (u32 a + b) = u32 (a + b).
Proof. unfold u32. by rewrite Zplus_mod_idemp_l. Qed.
Lemma u32_sub_mod a b : u32 (u32 a - b) = u32 (a - b).
Proof. unfold u32. by rewrite Zminus_mod_idemp_l. Qed.

#[export] Hint Rewrite u64_add_mod u64_sub_mod u32_add_mod u32_sub_mod : hpa_rw.

(** Two parts of a word that do not share bits. *)
Lemma lor_shiftl_add y x k : 0 <= k -> 0 <= y < 2 ^ k -> Z.lor y (Z.shiftl x k) = y + x * 2 ^ k.
Proof.
  intros Hk Hy. rewrite Z.shiftl_mul_pow2 by lia. symmetry. apply Z.add_nocarry_lor.
  apply Z.bits_inj'. intros n Hn. rewrite Z.land_spec, Z.bits_0.
  destruct (Z.lt_ge_cases n k).
  - rewrite Z.mul_pow2_bits_low by lia. apply andb_false_r.
  - rewrite <- (Z.mod_small y (2 ^ k)), Z.mod_pow2_bits_high by lia. done.
Qed.

(** Arithmetic with the wrap-around unfolded. *)
Ltac word_lia :=
  unfold u8, u32, u64, i64, UINT32_MAX, UINT64_MAX, INT64_MAX, INT64_MIN in *;
  Z.to_euclidean_division_equations; lia.

(** ** IEEE-754 binary64

    [double] is the Standard Library's executable specification of binary
    floating point; precision 53 and exponent bound 1024 give C++'s [double]
    with rounding to nearest, ties to even. *)

Definition double : Type := spec_float.
Definition double_of_Z (z : Z) : double := binary_normalize 53 1024 z 0 false.
Definition dadd (a b : double) : double := SFadd 53 1024 a b.
Definition dsub (a b : double) : double := SFsub 53 1024 a b.
Definition dmul (a b : double) : double := SFmul 53 1024 a b.
Definition ddiv (a b : double) : double := SFdiv 53 1024 a b.
Definition dlt (a b : double) : bool := SFltb a b.
Definition dle (a b : double) : bool := SFleb a b.
Definition dge (a b : double) : bool := SFleb b a.
Definition dgt (a b : double) : bool := SFltb b a.
(** A decimal literal [n/d] rounds once, as the compiler rounds it. *)
Definition dlit (n d : Z) : double := ddiv (double_of_Z n) (double_of_Z d).

(** [static_cast] to an unsigned integer: truncation toward zero of a finite
    value (the source only converts non-negative finite values). *)
Definition Z_of_double (x : double) : Z :=
  match x with
  | S754_finite s m e =>
      let v := if e <? 0 then Z.pos m / 2 ^ (- e) else Z.pos m * 2 ^ e in
      if s then - v else v
  | _ => 0
  end.

(** ** Tactics *)

(** Split a boolean condition of the code, keep the fact it decides. *)
Ltac bcase :=
  match goal with
  | |- context [if ?b then _ else _] =>
      lazymatch b with
      | context [if _ then _ else _] => fail
      | _ => let H := fresh "Hb" in destruct b eqn:H
      end
  end.

Ltac bool_to_prop :=
  repeat match goal with
  | H : (_ && _) = true |- _ => apply andb_true_iff in H; destruct H
  | H : (_ || _) = false |- _ => apply orb_false_iff in H; destruct H
  | H : (_ || _) = true |- _ => apply orb_true_iff in H
  | H : (_ && _) = false |- _ => apply andb_false_iff in H
  | H : negb _ = true |- _ => apply negb_true_iff in H
  | H : negb _ = false |- _ => apply negb_false_iff in H
  | H : (_ <? _) = true |- _ => apply Z.ltb_lt in H
  | H : (_ <? _) = false |- _ => apply Z.ltb_ge in H
  | H : (_ <=? _) = true |- _ => apply Z.leb_le in H
  | H : (_ <=? _) = false |- _ => apply Z.leb_gt in H
  | H : (_ =? _) = true |- _ => apply Z.eqb_eq in H
  | H : (_ =? _) = false |- _ => apply Z.eqb_neq in H
  | H : bool_decide _ = true |- _ => apply bool_decide_eq_true in H
  | H : bool_decide _ = false |- _ => apply bool_decide_eq_false in H
  end.

(** ** Finite sequences of steps *)

Section Star.
Context {A : Type} (R : A -> A -> Prop).

Inductive steps : A -> A -> Prop :=
| steps_refl a : steps a a
| steps_step a b c : R a b -> steps b c -> steps a c.

Lemma steps_trans a b c : steps a b -> steps b c -> steps a c.
Proof. induction 1; eauto using steps. Qed.

Lemma steps_inv (P : A -> Prop) :
  (forall a b, P a -> R a b -> P b) -> forall a b, steps a b -> P a -> P b.
Proof. intros Hstep a b Hs. induction Hs; eauto. Qed.
End Star.

(** ** Lists *)

(** Sum of a measure over a list. *)
Definition sum_by {A} (f : A -> Z) (l : list A) : Z := foldr (fun x s => f x + s) 0 l.
#[global] Arguments sum_by : simpl never.

Lemma sum_by_nil {A} (f : A -> Z) : sum_by f [] = 0.
Proof. done. Qed.
Lemma sum_by_cons {A} (f : A -> Z) x l : sum_by f (x :: l) = f x + sum_by f l.
Proof. done. Qed.
Lemma sum_by_app {A} (f : A -> Z) l k : sum_by f (l ++ k) = sum_by f l + sum_by f k.
Proof. induction l; [done|]. simpl. rewrite !sum_by_cons. lia. Qed.
Lemma sum_by_nonneg {A} (f : A -> Z) l : (forall x, 0 <= f x) -> 0 <= sum_by f l.
Proof. intros H. induction l as [|x l IH]; [done|]. rewrite sum_by_cons. specialize (H x). lia. Qed.
#[export] Hint Rewrite @sum_by_nil @sum_by_cons @sum_by_app : hpa_rw.

(** Length as an integer, and appending at the back. *)
Definition zlen {A} (l : list A) : Z := Z.of_nat (length l).
#[global] Arguments zlen : simpl never.
Lemma zlen_nil {A} : zlen (@nil A) = 0. Proof. done. Qed.
Lemma zlen_cons {A} (x : A) l : zlen (x :: l) = 1 + zlen l.
Proof. unfold zlen. simpl. lia. Qed.
Lemma zlen_app {A} (l k : list A) : zlen (l ++ k) = zlen l + zlen k.
Proof. unfold zlen. rewrite length_app. lia. Qed.
Lemma zlen_nonneg {A} (l : list A) : 0 <= zlen l.
Proof. unfold zlen. lia. Qed.
#[export] Hint Rewrite @zlen_nil @zlen_cons @zlen_app : hpa_rw.
#[export] Hint Resolve zlen_nonneg : hpa.

Lemma sum_by_insert {A} (f : A -> Z) (l : list A) (i : nat) (x y : A) :
  l !! i = Some x -> sum_by f (<[i:=y]> l) = sum_by f l - f x + f y.
Proof.
  revert i. induction l as [|a l IH]; intros [|i] H; simplify_eq/=.
  - rewrite !sum_by_cons. lia.
  - rewrite !sum_by_cons, (IH i H). lia.
Qed.

Lemma sum_by_lookup_le {A} (f : A -> Z) (l : list A) (i : nat) (x : A) :
  (forall y, 0 <= f y) -> l !! i = Some x -> f x <= sum_by f l.
Proof.
  intros Hf. revert i. induction l as [|a l IH]; intros [|i] H; simplify_eq/=; rewrite sum_by_cons.
  - pose proof (sum_by_nonneg f l Hf). lia.
  - specialize (IH i H). specialize (Hf a). lia.
Qed.

Lemma sum_by_alter {A} (f : A -> Z) (g : A -> A) (d : Z) (l : list A) (i : nat) :
  (forall x, f (g x) = f x + d) -> (i < length l)%nat ->
  sum_by f (alter g i l) = sum_by f l + d.
Proof.
  intros Hg. revert i. induction l as [|a l IH]; intros [|i] Hi; simpl in Hi; try lia.
  - change (alter g 0%nat (a :: l)) with (g a :: l). rewrite !sum_by_cons, Hg. lia.
  - change (alter g (S i) (a :: l)) with (a :: alter g i l).
    rewrite !sum_by_cons, IH by lia. lia.
Qed.

Lemma Forall_alter_snoc {A} (P : A -> Prop) (l : list (list A)) i (x : A) :
  Forall (Forall P) l -> P x -> Forall (Forall P) (alter (fun k => k ++ [x]) i l).
Proof.
  intros Hl Hx. apply Forall_alter; [done|]. intros k Hk _.
  apply Forall_app_2; [|by apply Forall_singleton]. done || (eapply Forall_lookup_1; eauto).
Qed.

Lemma omap_ext_elem {A B} (f g : A -> option B) (l : list A) :
  (forall x, x ∈ l -> f x = g x) -> omap f l = omap g l.
Proof.
  induction l as [|x l IH]; intros H; [done|].
  change (match f x with Some y => y :: omap f l | None => omap f l end
          = match g x with Some y => y :: omap g l | None => omap g l end).
  rewrite (H x) by apply list_elem_of_here. rewrite IH; [done|].
  intros y Hy. apply H. by apply list_elem_of_further.
Qed.

(** Replacing one of a list of queues. *)
Lemma concat_insert {A} (l : list (list A)) (i : nat) (q q' : list A) :
  l !! i = Some q -> q' ++ concat l ≡ₚ q ++ concat (<[i := q']> l).
Proof.
  revert i. induction l as [|q0 l IH]; intros i Hi; [done|]. destruct i as [|i]; simpl in *.
  - injection Hi as ->. rewrite !app_assoc. apply Permutation_app_tail, Permutation_app_comm.
  - rewrite (Permutation_app_swap_app q' q0), (Permutation_app_swap_app q q0). apply Permutation_app_head. by apply IH.
Qed.
