(* ===== verification/DeliveryTypes.v ===== *)
(** * Delivery vocabulary

    The enumerations, result records and classification functions every
    delivery path shares: [msg/enqueue_result.hpp], [msg/delivery_result.hpp],
    [msg/failure_reason.hpp] and their implementations.  Constructors carry a
    short prefix where C++ scopes them by [enum class]. *)

From S2P Require Import Prelude.
From stdpp Require Import base numbers list strings.

#[local] Open Scope string_scope.
#[local] Open Scope Z_scope.

(** ** Failure reasons *)

Inductive FailureReason :=
| FR_NoRoute | FR_NodeUnavailable | FR_RemoteUnavailable | FR_NodeQuarantined
| FR_NodeReplaced | FR_ActorDead | FR_ActorNotReady | FR_Quarantined
| FR_CircuitOpen | FR_MailboxFull | FR_OutboundQueueFull | FR_MemoryPressure
| FR_ResourceExhausted | FR_Expired | FR_Timeout | FR_RejectedByPolicy
| FR_Dropped | FR_MailboxClosed | FR_SerializationError | FR_TransportError
| FR_FrameRejected | FR_FencingTokenStale | FR_Duplicate | FR_Draining
| FR_ShuttingDown | FR_RetryExhausted | FR_Cancelled | FR_SpawnFailed
| FR_PassivationDrainTimeout | FR_PassivationSnapshotFailed
| FR_ReactivationFailed | FR_PassivationQueueFull | FR_SchemaVersionMismatch
| FR_RingFull | FR_RingClosed | FR_FixedMessageTooLarge | FR_SystemLaneFull
| FR_RingCapacityExceeded | FR_Unknown.

#[export] Instance FailureReason_eq_dec : EqDecision FailureReason.
Proof. solve_decision. Defined.

(** [retryable(FailureReason)] of failure_reason.hpp. *)
Definition retryable (reason : FailureReason) : bool :=
  match reason with
  | FR_NoRoute | FR_NodeUnavailable | FR_ActorNotReady | FR_CircuitOpen
  | FR_MailboxFull | FR_OutboundQueueFull | FR_MemoryPressure | FR_Timeout
  | FR_TransportError | FR_Draining | FR_ShuttingDown | FR_ResourceExhausted
  | FR_RemoteUnavailable | FR_PassivationDrainTimeout
  | FR_PassivationSnapshotFailed | FR_ReactivationFailed
  | FR_PassivationQueueFull | FR_NodeReplaced | FR_FencingTokenStale => true
  | FR_SchemaVersionMismatch | FR_NodeQuarantined => false
  | _ => false
  end.


(** [to_string(FailureReason)] of failure_reason.cpp. *)
Definition failure_reason_to_string (reason : FailureReason) : string :=
  match reason with
  | FR_NoRoute => "no_route"
  | FR_NodeUnavailable => "node_unavailable"
  | FR_NodeQuarantined => "node_quarantined"
  | FR_NodeReplaced => "node_replaced"
  | FR_ActorDead => "actor_dead"
  | FR_ActorNotReady => "actor_not_ready"
  | FR_Quarantined => "quarantined"
  | FR_CircuitOpen => "circuit_open"
  | FR_MailboxFull => "mailbox_full"
  | FR_OutboundQueueFull => "outbound_queue_full"
  | FR_MemoryPressure => "memory_pressure"
  | FR_ResourceExhausted => "resource_exhausted"
  | FR_RemoteUnavailable => "remote_unavailable"
  | FR_Expired => "expired"
  | FR_Timeout => "timeout"
  | FR_RejectedByPolicy => "rejected_by_policy"
  | FR_Dropped => "dropped"
  | FR_MailboxClosed => "mailbox_closed"
  | FR_SerializationError => "serialization_error"
  | FR_TransportError => "transport_error"
  | FR_FrameRejected => "frame_rejected"
  | FR_FencingTokenStale => "fencing_token_stale"
  | FR_Duplicate => "duplicate"
  | FR_Draining => "draining"
  | FR_ShuttingDown => "shutting_down"
  | FR_RetryExhausted => "retry_exhausted"
  | FR_Cancelled => "cancelled"
  | FR_SpawnFailed => "spawn_failed"
  | FR_PassivationDrainTimeout => "passivation_drain_timeout"
  | FR_PassivationSnapshotFailed => "passivation_snapshot_failed"
  | FR_ReactivationFailed => "reactivation_failed"
  | FR_PassivationQueueFull => "passivation_queue_full"
  | FR_SchemaVersionMismatch => "schema_version_mismatch"
  | FR_RingFull => "ring_full"
  | FR_RingClosed => "ring_closed"
  | FR_FixedMessageTooLarge => "fixed_message_too_large"
  | FR_SystemLaneFull => "system_lane_full"
  | FR_RingCapacityExceeded => "ring_capacity_exceeded"
  | FR_Unknown => "unknown"
  end.

(** ** Mailbox configuration and admission results *)

Record MailboxCapacity := mkCapacity {
  max_messages : Z;   (* uint32_t, 0 clamped to 1024 by the mailbox *)
  max_bytes : Z       (* uint64_t, 0 = unbounded *)
}.

Inductive OverflowPolicy :=
| OP_RejectNewest | OP_DropNewest | OP_DropOldest | OP_DropLowestPriority
| OP_DeadLetter | OP_SpillToOverflowQueue | OP_SignalOnly | OP_BlockWhenAllowed.

#[export] Instance OverflowPolicy_eq_dec : EqDecision OverflowPolicy.
Proof. solve_decision. Defined.

Inductive MailboxPressureState :=
| PS_Normal | PS_SoftPressure | PS_HardPressure | PS_Recovering.

#[export] Instance MailboxPressureState_eq_dec : EqDecision MailboxPressureState.
Proof. solve_decision. Defined.

(** The fields of [MailboxConfig] the mailbox reads; [backpressure_mode] and
    [default_backend] are read by its callers only. *)
Record MailboxConfig := mkConfig {
  capacity : MailboxCapacity;
  priority_levels : Z;               (* uint8_t *)
  overflow_policy : OverflowPolicy;
  high_watermark : double;
  low_watermark : double;
  critical_watermark : double;
  protected_system_messages : Z;     (* uint32_t *)
  max_overflow_depth : Z;            (* uint32_t, 0 = unlimited *)
  signal_min_interval_ms : Z;        (* uint32_t *)
  priority_aware : bool
}.

Inductive BackpressureReason :=
| BR_HighWatermark | BR_HardCapacity | BR_ByteCapacity | BR_OverflowPolicy
| BR_NodeMemoryPressure.

Inductive EnqueueResultCode :=
| EC_Accepted | EC_AcceptedWithSoftPressure | EC_Rejected | EC_DroppedNewest
| EC_DroppedExisting | EC_ReroutedToDeadLetter | EC_ReroutedToOverflow
| EC_MailboxClosed | EC_ActorNotFound | EC_EndpointBackpressure
| EC_EndpointCircuitOpen | EC_CircuitOpen.

#[export] Instance EnqueueResultCode_eq_dec : EqDecision EnqueueResultCode.
Proof. solve_decision. Defined.

(** [failure_reason(EnqueueResultCode)]. *)
Definition failure_reason (code : EnqueueResultCode) : FailureReason :=
  match code with
  | EC_Rejected => FR_RejectedByPolicy
  | EC_DroppedNewest | EC_DroppedExisting => FR_Dropped
  | EC_ReroutedToDeadLetter => FR_RejectedByPolicy
  | EC_ReroutedToOverflow => FR_RejectedByPolicy
  | EC_MailboxClosed => FR_MailboxClosed
  | EC_ActorNotFound => FR_NoRoute
  | EC_EndpointBackpressure => FR_ResourceExhausted
  | EC_EndpointCircuitOpen => FR_RemoteUnavailable
  | EC_CircuitOpen => FR_CircuitOpen
  | EC_Accepted | EC_AcceptedWithSoftPressure => FR_Unknown
  end.

Record EnqueueResult := mkEnqueueResult {
  er_code : EnqueueResultCode;
  er_target : Z;
  er_depth : Z;
  er_capacity : Z;
  er_bytes : Z;
  er_byte_capacity : Z;
  er_pressure_reason : BackpressureReason;
  er_pressure_state : MailboxPressureState;
  er_pressure_ratio : double;
  er_retry_after : Z                 (* milliseconds *)
}.

(** The default-constructed [EnqueueResult]. *)
Definition EnqueueResult_default : EnqueueResult :=
  mkEnqueueResult EC_Accepted 0 0 0 0 0 BR_HighWatermark PS_Normal (double_of_Z 0) 0.

Definition code_accepted (code : EnqueueResultCode) : bool :=
  match code with
  | EC_Accepted | EC_AcceptedWithSoftPressure | EC_ReroutedToOverflow => true
  | _ => false
  end.

(** [EnqueueResult::accepted] and [EnqueueResult::retryable]. *)
Definition er_accepted (r : EnqueueResult) : bool := code_accepted (er_code r).

Definition er_retryable (r : EnqueueResult) : bool :=
  match er_code r with
  | EC_Rejected | EC_MailboxClosed | EC_ReroutedToOverflow
  | EC_EndpointBackpressure | EC_CircuitOpen => true
  | _ => false
  end.

(** System tags are strictly between [Invalid] (0) and [User] (0x1000). *)
Definition TypeTag_User : Z := 4096.
Definition is_system_message (tag : Z) : bool := (0 <? tag) && (tag <? TypeTag_User).

(** [is_expired]: a negative deadline or INT64_MAX never expires. *)
Definition is_expired (deadline_ns now_ns : Z) : bool :=
  (0 <=? deadline_ns) && negb (deadline_ns =? INT64_MAX) && (deadline_ns <? now_ns).

Definition overflow_policy_to_string (policy : OverflowPolicy) : string :=
  match policy with
  | OP_RejectNewest => "reject_newest"
  | OP_DropNewest => "drop_newest"
  | OP_DropOldest => "drop_oldest"
  | OP_DropLowestPriority => "drop_lowest_priority"
  | OP_DeadLetter => "dead_letter"
  | OP_SpillToOverflowQueue => "spill_to_overflow_queue"
  | OP_SignalOnly => "signal_only"
  | OP_BlockWhenAllowed => "block_when_allowed"
  end.

(** ** Delivery results *)

Inductive TransportSendResult :=
| TS_Sent | TS_NotConnected | TS_QueueFull | TS_CircuitOpen | TS_EncodeError
| TS_ShuttingDown | TS_WriteError.

Inductive DeliveryStatus :=
| DS_Accepted | DS_AcceptedWithPressure | DS_NoRoute | DS_ActorDead
| DS_MailboxFull | DS_Expired | DS_Duplicate | DS_RemoteUnavailable
| DS_RejectedByPolicy | DS_SerializationError | DS_TransportError
| DS_ShuttingDown | DS_Cancelled.

#[export] Instance DeliveryStatus_eq_dec : EqDecision DeliveryStatus.
Proof. solve_decision. Defined.

Definition is_accepted (s : DeliveryStatus) : bool :=
  match s with DS_Accepted | DS_AcceptedWithPressure => true | _ => false end.

Definition is_retryable (s : DeliveryStatus) : bool :=
  match s with
  | DS_NoRoute | DS_ActorDead | DS_MailboxFull | DS_RemoteUnavailable
  | DS_TransportError => true
  | _ => false
  end.

Definition to_failure_reason (s : DeliveryStatus) : FailureReason :=
  match s with
  | DS_Accepted | DS_AcceptedWithPressure => FR_Unknown
  | DS_NoRoute => FR_NoRoute
  | DS_ActorDead => FR_ActorDead
  | DS_MailboxFull => FR_MailboxFull
  | DS_Expired => FR_Expired
  | DS_Duplicate => FR_Duplicate
  | DS_RemoteUnavailable => FR_RemoteUnavailable
  | DS_RejectedByPolicy => FR_RejectedByPolicy
  | DS_SerializationError => FR_SerializationError
  | DS_TransportError => FR_TransportError
  | DS_ShuttingDown => FR_ShuttingDown
  | DS_Cancelled => FR_Cancelled
  end.

(** Numeric values of the enumerators, as [detail_code] records them. *)
Definition enqueue_code_value (c : EnqueueResultCode) : Z :=
  match c with
  | EC_Accepted => 0 | EC_AcceptedWithSoftPressure => 1 | EC_Rejected => 2
  | EC_DroppedNewest => 3 | EC_DroppedExisting => 4 | EC_ReroutedToDeadLetter => 5
  | EC_ReroutedToOverflow => 6 | EC_MailboxClosed => 7 | EC_ActorNotFound => 8
  | EC_EndpointBackpressure => 9 | EC_EndpointCircuitOpen => 10 | EC_CircuitOpen => 11
  end.

Definition transport_value (t : TransportSendResult) : Z :=
  match t with
  | TS_Sent => 0 | TS_NotConnected => 1 | TS_QueueFull => 2 | TS_CircuitOpen => 3
  | TS_EncodeError => 4 | TS_ShuttingDown => 5 | TS_WriteError => 6
  end.

Record DeliveryResult (Addr : Type) := mkDeliveryResult {
  dr_status : DeliveryStatus;
  dr_target : Addr;
  dr_message_id : Z;
  dr_detail_code : Z
}.
Arguments mkDeliveryResult {Addr}.
Arguments dr_status {Addr}.
Arguments dr_target {Addr}.
Arguments dr_message_id {Addr}.
Arguments dr_detail_code {Addr}.

Definition status_of_enqueue (code : EnqueueResultCode) : DeliveryStatus :=
  match code with
  | EC_Accepted => DS_Accepted
  | EC_AcceptedWithSoftPressure => DS_AcceptedWithPressure
  | EC_Rejected => DS_MailboxFull
  | EC_DroppedNewest | EC_DroppedExisting => DS_MailboxFull
  | EC_ReroutedToDeadLetter => DS_RejectedByPolicy
  | EC_ReroutedToOverflow => DS_AcceptedWithPressure
  | EC_MailboxClosed => DS_ActorDead
  | EC_ActorNotFound => DS_NoRoute
  | EC_EndpointBackpressure => DS_RemoteUnavailable
  | EC_EndpointCircuitOpen => DS_RemoteUnavailable
  | EC_CircuitOpen => DS_RejectedByPolicy
  end.

(** [DeliveryResult::from_enqueue] and [from_transport]. *)
Definition from_enqueue {Addr} (er : EnqueueResult) (target : Addr) (msg_id : Z)
  : DeliveryResult Addr :=
  mkDeliveryResult (status_of_enqueue (er_code er)) target msg_id
    (enqueue_code_value (er_code er)).

Definition from_transport {Addr} (tsr : TransportSendResult) (target : Addr) (msg_id : Z)
  : DeliveryResult Addr :=
  mkDeliveryResult
    (match tsr with
     | TS_Sent => DS_Accepted
     | TS_NotConnected | TS_QueueFull | TS_CircuitOpen => DS_RemoteUnavailable
     | TS_EncodeError => DS_SerializationError
     | TS_ShuttingDown => DS_ShuttingDown
     | TS_WriteError => DS_TransportError
     end) target msg_id (transport_value tsr).

Definition delivery_status_to_string (s : DeliveryStatus) : string :=
  match s with
  | DS_Accepted => "accepted"
  | DS_AcceptedWithPressure => "accepted_with_pressure"
  | DS_NoRoute => "no_route"
  | DS_ActorDead => "actor_dead"
  | DS_MailboxFull => "mailbox_full"
  | DS_Expired => "expired"
  | DS_Duplicate => "duplicate"
  | DS_RemoteUnavailable => "remote_unavailable"
  | DS_RejectedByPolicy => "rejected_by_policy"
  | DS_SerializationError => "serialization_error"
  | DS_TransportError => "transport_error"
  | DS_ShuttingDown => "shutting_down"
  | DS_Cancelled => "cancelled"
  end.

(** ** Properties *)

(** The two layers agree on acceptance, a delivery status is a faithful image
    of the enqueue code through [detail_code], and the retry classifications
    of the two layers disagree on exactly [ActorDead] and [ShuttingDown]. *)
Theorem delivery_classification :
  (forall er {Addr} (a : Addr) m, is_accepted (dr_status (from_enqueue er a m)) = er_accepted er) /\
  (forall e1 e2 {Addr} (a : Addr) m,
      dr_detail_code (from_enqueue e1 a m) = dr_detail_code (from_enqueue e2 a m) ->
      er_code e1 = er_code e2) /\
  (forall s, is_retryable s <> retryable (to_failure_reason s) <->
      s = DS_ActorDead \/ s = DS_ShuttingDown) /\
  (forall r1 r2, failure_reason_to_string r1 = failure_reason_to_string r2 -> r1 = r2).
Proof.
  repeat split.
  - intros [[] ?] ? a m; done.
  - intros [[] ?] [[] ?] ? a m; done.
  - destruct s; cbn; intuition congruence.
  - intros [-> | ->]; done.
  - intros [] []; (done || discriminate).
Qed.
