(* ===== verification/Pressure.v ===== *)
(** * Mailbox pressure: the hysteresis machine and the signal gate

    [mailbox/detail/pressure_state_machine.hpp] and
    [mailbox/detail/backpressure_signal_gate.hpp].  Each method is one atomic
    step; the gate's compare-and-swap loop runs its successful iteration. *)

From S2P Require Import Prelude DeliveryTypes.
From stdpp Require Import base numbers list.

#[local] Open Scope Z_scope.

Module PressureStateMachine.

(** [PressureStateMachine::next_state], the static overload. *)
Definition next_state (ratio : double) (hard_failure : bool)
    (high low critical : double) (current : MailboxPressureState)
  : MailboxPressureState :=
  if hard_failure || dge ratio critical then PS_HardPressure
  else
    match current with
    | PS_HardPressure | PS_Recovering =>
        if dlt ratio low then PS_Normal else PS_Recovering
    | _ =>
        if dge ratio high then PS_SoftPressure
        else if dlt ratio low then PS_Normal
        else current
    end.

(** [code_after_accept]. *)
Definition code_after_accept (state : MailboxPressureState) : EnqueueResultCode :=
  match state with
  | PS_SoftPressure | PS_HardPressure | PS_Recovering => EC_AcceptedWithSoftPressure
  | PS_Normal => EC_Accepted
  end.

(** [severity]. *)
Definition severity (state : MailboxPressureState) : Z :=
  match state with
  | PS_Normal => 0 | PS_Recovering => 1 | PS_SoftPressure => 2 | PS_HardPressure => 3
  end.

(** One call of [update], and a sequence of calls. *)
Record Update := mkUpdate { u_ratio : double; u_hard : bool }.

Definition update (high low critical : double) (s : MailboxPressureState) (u : Update)
  : MailboxPressureState :=
  next_state (u_ratio u) (u_hard u) high low critical s.

Definition run (high low critical : double) (s : MailboxPressureState) (us : list Update)
  : MailboxPressureState := foldl (update high low critical) s us.

Definition under_hard (s : MailboxPressureState) : Prop :=
  s = PS_HardPressure \/ s = PS_Recovering.

Lemma update_under_hard high low critical s u :
  under_hard s -> dlt (u_ratio u) low = false -> under_hard (update high low critical s u).
Proof.
  intros Hs Hlow. unfold update, next_state.
  destruct (u_hard u || dge (u_ratio u) critical); [by left|].
  destruct Hs as [-> | ->]; rewrite Hlow; by right.
Qed.

(** Hysteresis.  Once the machine is under hard pressure it stays in
    [HardPressure] or [Recovering] through any sequence of updates whose
    ratio is not below the low watermark, so it neither clears nor falls
    back to [SoftPressure]; an update inside the band between the low and
    the high watermark changes no state but [HardPressure], which becomes
    [Recovering]; and a message is reported [Accepted] exactly in [Normal]. *)
Theorem hysteresis (high low critical : double) :
  (forall us s, under_hard s ->
     Forall (fun u => dlt (u_ratio u) low = false) us ->
     under_hard (run high low critical s us)) /\
  (forall s u, u_hard u = false -> dge (u_ratio u) critical = false ->
     dge (u_ratio u) high = false -> dlt (u_ratio u) low = false ->
     update high low critical s u =
       match s with PS_HardPressure => PS_Recovering | _ => s end) /\
  (forall s, code_after_accept s = EC_Accepted <-> s = PS_Normal).
Proof.
  repeat split.
  - induction us as [|u us IH]; intros s Hs Hall; [done|].
    inversion Hall; subst. apply IH; [|done]. by apply update_under_hard.
  - intros s u Hh Hc Hhi Hlo. unfold update, next_state. rewrite Hh, Hc, Hhi, Hlo.
    by destruct s.
  - by destruct s.
  - by intros ->.
Qed.

Lemma hysteresis_witness :
  under_hard (run (dlit 4 5) (dlit 1 2) (dlit 1 1) PS_Normal
                [mkUpdate (dlit 1 1) false; mkUpdate (dlit 3 5) false]).
Proof.
  apply (proj1 (hysteresis (dlit 4 5) (dlit 1 2) (dlit 1 1))
           [mkUpdate (dlit 3 5) false] PS_HardPressure).
  - by left.
  - repeat constructor.
Defined.

End PressureStateMachine.

Module BackpressureSignalGate.

Record Gate := mkGate {
  last_signal_ns : Z;
  last_severity : Z;
  sequence : Z
}.

Definition gate_init : Gate := mkGate 0 0 0.

(** [BackpressureSignalGate::try_acquire]. *)
Definition try_acquire (g : Gate) (now_ns : Z) (state : MailboxPressureState)
    (interval_ms : Z) (force : bool) : option Z * Gate :=
  let interval_ns := u64 (interval_ms * 1000000) in
  let severity := PressureStateMachine.severity state in
  let last := last_signal_ns g in
  let first := last =? 0 in
  let interval_elapsed := u64 (last + interval_ns) <=? now_ns in
  let escalation := last_severity g <? severity in
  if negb force && negb first && negb interval_elapsed && negb escalation
  then (None, g)
  else
    let seq' := u64 (sequence g + 1) in
    (Some seq', mkGate now_ns severity seq').

(** A sequence of unforced requests in one pressure state; the list of the
    times at which a signal went out. *)
Fixpoint emissions (g : Gate) (state : MailboxPressureState) (interval_ms : Z)
    (times : list Z) : list Z :=
  match times with
  | [] => []
  | t :: ts =>
      match try_acquire g t state interval_ms false with
      | (Some _, g') => t :: emissions g' state interval_ms ts
      | (None, g') => emissions g' state interval_ms ts
      end
  end.

(** Successive elements at least [d] apart. *)
Fixpoint spaced (d : Z) (l : list Z) : Prop :=
  match l with
  | a :: (b :: _) as tl => a + d <= b /\ spaced d tl
  | _ => True
  end.

Definition timestamps_ok (interval_ms : Z) (times : list Z) : Prop :=
  Forall (fun t => 0 < t /\ t + interval_ms * 1000000 <= UINT64_MAX) times.

Lemma emissions_spaced_from state interval_ms times g a :
  0 <= interval_ms <= UINT32_MAX -> 0 < a ->
  a + interval_ms * 1000000 <= UINT64_MAX ->
  last_signal_ns g = a -> last_severity g = PressureStateMachine.severity state ->
  timestamps_ok interval_ms times ->
  spaced (interval_ms * 1000000) (a :: emissions g state interval_ms times).
Proof.
  intros Hi. revert g a. induction times as [|t ts IH]; intros g a Ha Hb Hl Hs Hok; [done|].
  inversion Hok as [|? ? [Ht1 Ht2] Hok']; subst. simpl.
  unfold try_acquire. rewrite Hs, Z.ltb_irrefl. simpl.
  rewrite (u64_small (interval_ms * 1000000)) by (unfold UINT32_MAX in *; lia).
  rewrite (u64_small (last_signal_ns g + _)) by (unfold UINT64_MAX in *; lia).
  destruct (last_signal_ns g =? 0) eqn:E0; bool_to_prop; [lia|]. simpl.
  destruct (last_signal_ns g + interval_ms * 1000000 <=? t) eqn:E; bool_to_prop; simpl.
  - split; [lia|]. by apply (IH (mkGate t _ _) t).
  - by apply IH.
Qed.

(** Rate limit.  However often producers ask, the signals sent for one
    pressure state from a fresh gate are at least the configured interval
    apart. *)
Theorem emissions_rate_limited state interval_ms times :
  0 <= interval_ms <= UINT32_MAX -> timestamps_ok interval_ms times ->
  spaced (interval_ms * 1000000) (emissions gate_init state interval_ms times).
Proof.
  intros Hi. destruct times as [|t ts]; [done|]. intros Hok.
  inversion Hok as [|? ? [Ht1 Ht2] Hok']; subst. simpl.
  apply emissions_spaced_from; done.
Qed.

Lemma emissions_rate_limited_witness :
  spaced (100 * 1000000)
    (emissions gate_init PS_SoftPressure 100 [5; 50000005; 100000005; 150000000; 200000005]).
Proof.
  apply emissions_rate_limited; [done|].
  unfold timestamps_ok, UINT64_MAX; repeat (apply Forall_cons; split; [lia|]); apply Forall_nil; done.
Defined.

End BackpressureSignalGate.
