(* ===== verification/Reservation.v ===== *)
(** * Capacity reservation

    [adt/reservation_manager.hpp]: the two-phase reservation (message count
    first, then bytes, with the count rolled back when the bytes do not fit).
    [try_reserve], [release] and [inject_count] are the sequential reading;
    [rstep] is the concurrent one, in which every atomic load, compare-and-swap
    and fetch-and-add of every thread is a step of its own. *)

From S2P Require Import Prelude.
From stdpp Require Import base numbers list.

#[local] Open Scope Z_scope.

Inductive ReservationResult := RR_Reserved | RR_CountCapacity | RR_ByteCapacity.

#[export] Instance ReservationResult_eq_dec : EqDecision ReservationResult.
Proof. solve_decision. Defined.

Record ReservationManager := mkReservation {
  reserved_messages : Z;    (* std::atomic<uint32_t> *)
  queued_bytes : Z          (* std::atomic<uint64_t> *)
}.

Definition reservation_init : ReservationManager := mkReservation 0 0.

(** ** Sequential operations *)

(** [ReservationManager::try_reserve]. *)
Definition try_reserve (r : ReservationManager) (bytes max_messages max_bytes : Z)
  : ReservationResult * ReservationManager :=
  let count_phase :=
    if 0 <? max_messages then
      if max_messages <=? reserved_messages r then None
      else Some (mkReservation (u32 (reserved_messages r + 1)) (queued_bytes r))
    else Some r in
  match count_phase with
  | None => (RR_CountCapacity, r)
  | Some r1 =>
      if 0 <? max_bytes then
        if max_bytes <? u64 (queued_bytes r1 + bytes) then
          (RR_ByteCapacity,
           if 0 <? max_messages
           then mkReservation (u32 (reserved_messages r1 - 1)) (queued_bytes r1)
           else r1)
        else (RR_Reserved, mkReservation (reserved_messages r1) (u64 (queued_bytes r1 + bytes)))
      else (RR_Reserved, mkReservation (reserved_messages r1) (u64 (queued_bytes r1 + bytes)))
  end.

(** [ReservationManager::release]. *)
Definition release (r : ReservationManager) (bytes : Z) : ReservationManager :=
  mkReservation (u32 (reserved_messages r - 1))
    (if 0 <? bytes then u64 (queued_bytes r - bytes) else queued_bytes r).

(** [ReservationManager::inject_count]. *)
Definition inject_count (r : ReservationManager) (bytes : Z) : ReservationManager :=
  mkReservation (u32 (reserved_messages r + 1)) (u64 (queued_bytes r + bytes)).

(** Counter ranges. *)
Definition reservation_wf (r : ReservationManager) : Prop :=
  0 <= reserved_messages r <= UINT32_MAX /\ 0 <= queued_bytes r <= UINT64_MAX.

(** What [try_reserve] does, with a bounded count: it refuses without
    changing a counter, or takes one slot and the bytes. *)
Lemma try_reserve_spec r bytes mm mb res r' :
  reservation_wf r -> 0 < mm <= UINT32_MAX ->
  try_reserve r bytes mm mb = (res, r') ->
  match res with
  | RR_Reserved =>
      reserved_messages r < mm /\
      (0 < mb -> u64 (queued_bytes r + bytes) <= mb) /\
      reserved_messages r' = reserved_messages r + 1 /\
      queued_bytes r' = u64 (queued_bytes r + bytes)
  | RR_CountCapacity => r' = r /\ mm <= reserved_messages r
  | RR_ByteCapacity =>
      r' = r /\ reserved_messages r < mm /\ 0 < mb /\ mb < u64 (queued_bytes r + bytes)
  end.
Proof.
  intros [Hr Hq] Hmm. unfold try_reserve.
  replace (0 <? mm) with true by (symmetry; apply Z.ltb_lt; lia).
  destruct (mm <=? reserved_messages r) eqn:E; bool_to_prop; [intros; by simplify_eq|].
  assert (Hu : u32 (reserved_messages r + 1) = reserved_messages r + 1)
    by (apply u32_small; unfold UINT32_MAX in *; lia).
  rewrite Hu. simpl.
  destruct (0 <? mb) eqn:E0; bool_to_prop.
  - destruct (mb <? u64 (queued_bytes r + bytes)) eqn:E1; bool_to_prop; intros; simplify_eq/=.
    + rewrite u32_small by (unfold UINT32_MAX in *; lia).
      replace (reserved_messages r + 1 - 1) with (reserved_messages r) by lia.
      by destruct r.
    + repeat split; (done || lia).
  - intros; simplify_eq/=. repeat split; (done || lia).
Qed.

Lemma try_reserve_wf r bytes mm mb res r' :
  reservation_wf r -> 0 < mm <= UINT32_MAX ->
  try_reserve r bytes mm mb = (res, r') -> reservation_wf r'.
Proof.
  intros Hwf Hmm H. pose proof (try_reserve_spec _ _ _ _ _ _ Hwf Hmm H) as Hs.
  destruct Hwf as [Hr Hq].
  destruct res; [|destruct Hs as [-> _]; done|destruct Hs as [-> _]; done].
  destruct Hs as (Hlt & _ & Hc & Hb). split.
  - unfold UINT32_MAX in *. lia.
  - rewrite Hb. pose proof (u64_range (queued_bytes r + bytes)). unfold UINT64_MAX. lia.
Qed.

(** A release undoes a reservation of the same size. *)
Lemma release_after_reserve r bytes mm mb r' :
  reservation_wf r -> 0 < mm <= UINT32_MAX -> 0 <= bytes ->
  try_reserve r bytes mm mb = (RR_Reserved, r') -> release r' bytes = r.
Proof.
  intros Hwf Hmm Hb H. destruct (try_reserve_spec _ _ _ _ _ _ Hwf Hmm H) as (Hlt & _ & Hc & Hq).
  destruct Hwf as [Hr Hq0]. destruct r as [c q], r' as [c' q']; simpl in *; subst.
  unfold release; simpl. f_equal.
  - rewrite u32_small; unfold UINT32_MAX in *; lia.
  - destruct (0 <? bytes) eqn:E; bool_to_prop.
    + rewrite u64_sub_mod. rewrite u64_small; unfold UINT64_MAX in *; lia.
    + assert (bytes = 0) as -> by lia. rewrite u64_small; unfold UINT64_MAX in *; lia.
Qed.

(** ** Concurrent reading *)

Module ConcurrentReservation.
Section Config.
(** [limit] is the largest request: [UINT64_MAX] for the whole range of the
    argument. *)
Context (max_messages max_bytes limit : Z).

(** Where a thread is inside [try_reserve] or [release]. *)
Inductive Pc :=
| PIdle                               (* outside *)
| PCountLoaded (cur bytes : Z)        (* loaded reserved_messages_ *)
| PCounted (bytes : Z)                (* count CAS succeeded *)
| PBytesLoaded (cur bytes : Z)        (* loaded queued_bytes_ *)
| PUndo (bytes : Z)                   (* bytes refused, count still taken *)
| PHolding (bytes : Z)                (* returned Reserved *)
| PReleasing (bytes : Z).             (* released the count, not yet the bytes *)

Record State := mkState { mgr : ReservationManager; threads : list Pc }.

Definition set_thread (s : State) (m : ReservationManager) (i : nat) (p : Pc) : State :=
  mkState m (<[i:=p]> (threads s)).

(** One atomic access of thread [i].  A weak compare-and-swap may fail
    although the value matches; it then reloads, as the C++ loop does. *)
Inductive rstep : State -> State -> Prop :=
| r_load s i bytes :
    threads s !! i = Some PIdle ->
    0 <= bytes <= limit ->
    rstep s (set_thread s (mgr s) i (PCountLoaded (reserved_messages (mgr s)) bytes))
| r_count_full s i cur bytes :
    threads s !! i = Some (PCountLoaded cur bytes) -> max_messages <= cur ->
    rstep s (set_thread s (mgr s) i PIdle)
| r_count_cas s i cur bytes :
    threads s !! i = Some (PCountLoaded cur bytes) -> cur < max_messages ->
    reserved_messages (mgr s) = cur ->
    rstep s (set_thread s (mkReservation (u32 (cur + 1)) (queued_bytes (mgr s))) i
               (PCounted bytes))
| r_count_cas_fail s i cur bytes :
    threads s !! i = Some (PCountLoaded cur bytes) -> cur < max_messages ->
    rstep s (set_thread s (mgr s) i (PCountLoaded (reserved_messages (mgr s)) bytes))
| r_bytes_unbounded s i bytes :
    threads s !! i = Some (PCounted bytes) -> max_bytes = 0 ->
    rstep s (set_thread s (mkReservation (reserved_messages (mgr s))
               (u64 (queued_bytes (mgr s) + bytes))) i (PHolding bytes))
| r_bytes_load s i bytes :
    threads s !! i = Some (PCounted bytes) -> 0 < max_bytes ->
    rstep s (set_thread s (mgr s) i (PBytesLoaded (queued_bytes (mgr s)) bytes))
| r_bytes_full s i cur bytes :
    threads s !! i = Some (PBytesLoaded cur bytes) -> max_bytes < u64 (cur + bytes) ->
    rstep s (set_thread s (mgr s) i (PUndo bytes))
| r_undo s i bytes :
    threads s !! i = Some (PUndo bytes) ->
    rstep s (set_thread s (mkReservation (u32 (reserved_messages (mgr s) - 1))
               (queued_bytes (mgr s))) i PIdle)
| r_bytes_cas s i cur bytes :
    threads s !! i = Some (PBytesLoaded cur bytes) -> u64 (cur + bytes) <= max_bytes ->
    queued_bytes (mgr s) = cur ->
    rstep s (set_thread s (mkReservation (reserved_messages (mgr s)) (u64 (cur + bytes))) i
               (PHolding bytes))
| r_bytes_cas_fail s i cur bytes :
    threads s !! i = Some (PBytesLoaded cur bytes) -> u64 (cur + bytes) <= max_bytes ->
    rstep s (set_thread s (mgr s) i (PBytesLoaded (queued_bytes (mgr s)) bytes))
| r_release_count s i bytes :
    threads s !! i = Some (PHolding bytes) ->
    rstep s (set_thread s (mkReservation (u32 (reserved_messages (mgr s) - 1))
               (queued_bytes (mgr s))) i (PReleasing bytes))
| r_release_bytes s i bytes :
    threads s !! i = Some (PReleasing bytes) -> 0 < bytes ->
    rstep s (set_thread s (mkReservation (reserved_messages (mgr s))
               (u64 (queued_bytes (mgr s) - bytes))) i PIdle)
| r_release_no_bytes s i bytes :
    threads s !! i = Some (PReleasing bytes) -> bytes <= 0 ->
    rstep s (set_thread s (mgr s) i PIdle).

Definition initial (n : nat) : State := mkState reservation_init (replicate n PIdle).

(** Slots and bytes a thread accounts for. *)
Definition slots (p : Pc) : Z :=
  match p with
  | PCounted _ | PBytesLoaded _ _ | PUndo _ | PHolding _ => 1
  | _ => 0
  end.
Definition held (p : Pc) : Z :=
  match p with PHolding b | PReleasing b => b | _ => 0 end.
Definition holding (p : Pc) : Z := match p with PHolding _ => 1 | _ => 0 end.
Definition holding_bytes (p : Pc) : Z := match p with PHolding b => b | _ => 0 end.

(** The request a thread carries is in range. *)
Definition pc_ok (p : Pc) : Prop :=
  match p with
  | PIdle => True
  | PCountLoaded _ b | PCounted b | PUndo b | PHolding b | PReleasing b
  | PBytesLoaded _ b => 0 <= b <= limit
  end.

Record inv (s : State) : Prop := mkInv {
  inv_pcs : Forall pc_ok (threads s);
  inv_count : reserved_messages (mgr s) = sum_by slots (threads s);
  inv_count_max : reserved_messages (mgr s) <= max_messages;
  inv_bytes : queued_bytes (mgr s) = u64 (sum_by held (threads s));
  inv_bytes_max : 0 < max_bytes -> max_bytes + limit <= UINT64_MAX ->
                  sum_by held (threads s) <= max_bytes
}.

Hypothesis max_messages_range : 0 < max_messages <= UINT32_MAX.
Hypothesis max_bytes_range : 0 <= max_bytes <= UINT64_MAX.

Lemma slots_nonneg p : 0 <= slots p.
Proof. destruct p; simpl; lia. Qed.

Lemma held_nonneg s : Forall pc_ok (threads s) -> 0 <= sum_by held (threads s).
Proof.
  induction 1 as [|p l Hp _ IH]; [done|]. rewrite sum_by_cons.
  destruct p; simpl in *; lia.
Qed.

Lemma inv_initial n : inv (initial n).
Proof.
  assert (H : forall (f : Pc -> Z), f PIdle = 0 -> sum_by f (replicate n PIdle) = 0).
  { intros f Hf. induction n as [|m IH]; [done|]. simpl. rewrite sum_by_cons. lia. }
  constructor; simpl.
  - apply Forall_replicate. done.
  - by rewrite H.
  - lia.
  - by rewrite H.
  - rewrite H; [lia|done].
Qed.

Lemma slot_taken s i p :
  inv s -> threads s !! i = Some p -> slots p = 1 -> 1 <= reserved_messages (mgr s).
Proof.
  intros Hs Hi Hp. rewrite (inv_count _ Hs).
  pose proof (sum_by_lookup_le slots _ _ _ slots_nonneg Hi). lia.
Qed.

(** Re-establish the invariant after thread [i] moves from [p] to [q]. *)
Lemma inv_set s m i p q :
  inv s -> threads s !! i = Some p -> pc_ok q ->
  reserved_messages m = reserved_messages (mgr s) - slots p + slots q ->
  reserved_messages m <= max_messages ->
  queued_bytes m = u64 (queued_bytes (mgr s) - held p + held q) ->
  (0 < max_bytes -> max_bytes + limit <= UINT64_MAX ->
   sum_by held (threads s) - held p + held q <= max_bytes) ->
  inv (set_thread s m i q).
Proof.
  intros Hs Hi Hq Hr Hm Hb Hmax. constructor; simpl.
  - apply Forall_insert; [apply Hs|done].
  - rewrite (sum_by_insert _ _ _ _ _ Hi), <- (inv_count _ Hs). lia.
  - done.
  - rewrite (sum_by_insert _ _ _ _ _ Hi), Hb, (inv_bytes _ Hs).
    replace (u64 (sum_by held (threads s)) - held p + held q)
      with (u64 (sum_by held (threads s)) + (held q - held p)) by lia.
    rewrite u64_add_mod. f_equal. lia.
  - intros H H'. rewrite (sum_by_insert _ _ _ _ _ Hi). specialize (Hmax H H'). lia.
Qed.

Lemma queued_small s : inv s -> u64 (queued_bytes (mgr s)) = queued_bytes (mgr s).
Proof.
  intros Hs. apply u64_small. rewrite (inv_bytes _ Hs).
  apply u64_range.
Qed.

Lemma inv_step s s' : inv s -> rstep s s' -> inv s'.
Proof.
  intros Hs Hstep. pose proof (queued_small s Hs) as Hq.
  pose proof (held_nonneg s (inv_pcs _ Hs)) as Hnn.
  pose proof (inv_count_max _ Hs) as Hcm. pose proof (inv_bytes_max _ Hs) as Hbm.
  assert (Hr0 : 0 <= reserved_messages (mgr s))
    by (rewrite (inv_count _ Hs); apply sum_by_nonneg, slots_nonneg).
  inversion Hstep; subst;
    match goal with H : threads s !! _ = Some _ |- _ =>
      pose proof (proj1 (Forall_lookup _ _) (inv_pcs _ Hs) _ _ H) as Hok; simpl in Hok end;
    (eapply inv_set; [done|eassumption|simpl; intuition lia|simpl..]);
    rewrite ?Z.sub_0_r, ?Z.add_0_r, ?Hq; try done; try lia.
  - rewrite u32_small; unfold UINT32_MAX in *; lia.
  - rewrite u32_small; unfold UINT32_MAX in *; lia.
  - pose proof (slot_taken _ _ _ Hs ltac:(eassumption) eq_refl).
    rewrite u32_small; unfold UINT32_MAX in *; lia.
  - pose proof (slot_taken _ _ _ Hs ltac:(eassumption) eq_refl).
    rewrite u32_small; unfold UINT32_MAX in *; lia.
  - (* the bytes compare-and-swap *)
    intros Hpos Hlim. specialize (Hbm Hpos Hlim).
    match goal with H : u64 _ <= max_bytes |- _ => revert H end.
    rewrite (inv_bytes _ Hs), (u64_small (sum_by _ _)), u64_small;
      unfold UINT64_MAX in *; lia.
  - pose proof (slot_taken _ _ _ Hs ltac:(eassumption) eq_refl).
    rewrite u32_small; unfold UINT32_MAX in *; lia.
  - pose proof (slot_taken _ _ _ Hs ltac:(eassumption) eq_refl).
    rewrite u32_small; unfold UINT32_MAX in *; lia.
  - rewrite <- Hq at 1. f_equal. lia.
  - rewrite <- Hq at 1. f_equal. lia.
Qed.

(** C21. Admission under contention, with a bounded number of messages.  In every
    state any number of threads can reach by any interleaving of their atomic
    accesses, whatever they request, at most [max_messages] reservations are held,
    the counter of messages is the number of threads inside the protocol and the
    counter of bytes is, modulo 2^64, what they hold; nothing is left in either
    when all are outside.  When no request is so large that its sum with the byte
    capacity wraps, the bytes held fit in the capacity. *)
Theorem reservation_bounds n s :
  steps rstep (initial n) s ->
  sum_by holding (threads s) <= max_messages /\
  (0 < max_bytes -> max_bytes + limit <= UINT64_MAX ->
   sum_by holding_bytes (threads s) <= max_bytes) /\
  reserved_messages (mgr s) = sum_by slots (threads s) /\
  queued_bytes (mgr s) = u64 (sum_by held (threads s)) /\
  (Forall (fun p => p = PIdle) (threads s) -> mgr s = reservation_init).
Proof.
  intros Hs.
  assert (Hi : inv s) by (eapply (steps_inv rstep inv inv_step); [done|apply inv_initial]).
  assert (Hle : forall f g : Pc -> Z,
             (forall p, pc_ok p -> f p <= g p) ->
             forall l, Forall pc_ok l -> sum_by f l <= sum_by g l).
  { intros f g Hfg l. induction 1 as [|p l Hp _ IH]; [done|].
    rewrite !sum_by_cons. specialize (Hfg p Hp). lia. }
  assert (H1 : sum_by holding (threads s) <= sum_by slots (threads s))
    by (apply Hle; [by intros []|apply Hi]).
  assert (H2 : sum_by holding_bytes (threads s) <= sum_by held (threads s)).
  { apply Hle; [|apply Hi]. intros []; simpl; lia. }
  repeat split.
  - pose proof (inv_count _ Hi). pose proof (inv_count_max _ Hi). lia.
  - intros Hp Hl. pose proof (inv_bytes_max _ Hi Hp Hl). lia.
  - apply Hi.
  - apply Hi.
  - intros Hidle. assert (Hz : forall f : Pc -> Z, f PIdle = 0 -> sum_by f (threads s) = 0).
    { intros f Hf. clear -Hidle Hf. induction Hidle as [|p l -> _ IH]; [done|].
      rewrite sum_by_cons. lia. }
    pose proof (inv_count _ Hi) as Hc. pose proof (inv_bytes _ Hi) as Hb.
    rewrite Hz in Hc by done. rewrite Hz in Hb by done.
    destruct (mgr s); simpl in *. by subst.
Qed.
End Config.

(** The hypothesis on the requests is needed: [cur + bytes] is a sum of 64-bit
    words, so with 8 bytes held out of 16 a request of 2^64 - 1 bytes is admitted,
    and the counter then says 7. *)
Theorem wrapping_request_admitted :
  exists s, steps (rstep 2 16 UINT64_MAX) (initial 2) s /\
    threads s = [PHolding 8; PHolding UINT64_MAX] /\ mgr s = mkReservation 2 7.
Proof.
  exists (mkState (mkReservation 2 7) [PHolding 8; PHolding UINT64_MAX]). split; [|done].
  eapply steps_step; [eapply (r_load 2 16 _ _ 0%nat 8); done|].
  eapply steps_step; [eapply (r_count_cas 2 16 _ _ 0%nat 0 8); done|].
  eapply steps_step; [eapply (r_bytes_load 2 16 _ _ 0%nat 8); done|].
  eapply steps_step; [eapply (r_bytes_cas 2 16 _ _ 0%nat 0 8); done|].
  eapply steps_step; [eapply (r_load 2 16 _ _ 1%nat UINT64_MAX); done|].
  eapply steps_step; [eapply (r_count_cas 2 16 _ _ 1%nat 1 UINT64_MAX); done|].
  eapply steps_step; [eapply (r_bytes_load 2 16 _ _ 1%nat UINT64_MAX); done|].
  eapply steps_step; [eapply (r_bytes_cas 2 16 _ _ 1%nat 8 UINT64_MAX); done|].
  apply steps_refl.
Qed.

(** Two threads race for the only slot: one holds it, one is refused. *)
Lemma reservation_bounds_witness :
  sum_by holding [PHolding 8; PIdle] <= 1 /\ sum_by holding_bytes [PHolding 8; PIdle] <= 16.
Proof.
  assert (S : steps (rstep 1 16 64) (initial 2) (mkState (mkReservation 1 8) [PHolding 8; PIdle])).
  { eapply steps_step; [eapply (r_load 1 16 _ _ 0%nat 8); done|].
    eapply steps_step; [eapply (r_load 1 16 _ _ 1%nat 8); done|].
    eapply steps_step; [eapply (r_count_cas 1 16 _ _ 0%nat 0 8); done|].
    eapply steps_step; [eapply (r_count_cas_fail 1 16 _ _ 1%nat 0 8); done|].
    eapply steps_step; [eapply (r_count_full 1 16 _ _ 1%nat 1 8); done|].
    eapply steps_step; [eapply (r_bytes_load 1 16 _ _ 0%nat 8); done|].
    eapply steps_step; [eapply (r_bytes_cas 1 16 _ _ 0%nat 0 8); done|].
    apply steps_refl. }
  pose proof (reservation_bounds 1 16 64 ltac:(done) ltac:(done) 2 _ S) as (H1 & H2 & _).
  split; [exact H1|]. apply H2; done.
Defined.

End ConcurrentReservation.
