(* ===== verification/MpscLane.v ===== *)
(** * The intrusive MPSC queue

    [adt/mpsc_mailbox.hpp]: a linked list through [mpsc_next] behind a dummy
    stub.  [enqueue] and [dequeue] run alone are shown to implement a FIFO
    list; [qstep] interleaves the individual atomic accesses of many producers
    and one consumer. *)

From S2P Require Import Prelude.
From stdpp Require Import base numbers list gmap.

#[local] Open Scope Z_scope.

(** Nodes are addresses; the stub is address 0 and [tail_] always points to
    it.  [next_of] holds the non-null [mpsc_next] fields. *)
Definition stub : nat := 0%nat.

Record LaneHeap := mkLaneHeap {
  next_of : gmap nat nat;
  head : nat;
  count : Z                (* std::atomic<int64_t> *)
}.

Definition lane_init : LaneHeap := mkLaneHeap ∅ stub 0.

Definition store_next (m : gmap nat nat) (p : nat) (v : option nat) : gmap nat nat :=
  match v with Some n => <[p:=n]> m | None => delete p m end.

(** [MPSCMailbox::enqueue], uninterrupted. *)
Definition lane_enqueue (q : LaneHeap) (node : nat) : LaneHeap :=
  let m := delete node (next_of q) in
  let prev := head q in
  mkLaneHeap (<[prev:=node]> m) node (count q + 1).

(** [MPSCMailbox::dequeue], uninterrupted: the compare-and-swap on [head_]
    succeeds. *)
Definition lane_dequeue (q : LaneHeap) : option nat * LaneHeap :=
  match next_of q !! stub with
  | None => (None, q)
  | Some next =>
      let next_next := next_of q !! next in
      if bool_decide (next_next = None) && negb (bool_decide (head q = next))
      then (None, q)
      else
        let m1 := store_next (next_of q) stub next_next in
        let m2 := if bool_decide (next_next = Some stub) then delete stub m1 else m1 in
        let h := if bool_decide (head q = next) then stub else head q in
        (Some next, mkLaneHeap m2 h (count q - 1))
  end.

Definition lane_empty (q : LaneHeap) : bool := count q =? 0.

(** ** Sequential refinement: the heap holds the list [l] *)

Fixpoint linked (m : gmap nat nat) (p : nat) (l : list nat) : Prop :=
  match l with
  | [] => m !! p = None
  | x :: l' => m !! p = Some x /\ linked m x l'
  end.

Record represents (q : LaneHeap) (l : list nat) : Prop := mkRepresents {
  rep_linked : linked (next_of q) stub l;
  rep_head : head q = default stub (last l);
  rep_count : count q = zlen l;
  rep_nodup : NoDup (stub :: l)
}.

Lemma linked_ext m m' p l :
  (forall x, x ∈ p :: l -> m' !! x = m !! x) -> linked m p l -> linked m' p l.
Proof.
  revert p. induction l as [|x l IH]; intros p Hext; simpl.
  - intros H. rewrite Hext; [done|set_solver].
  - intros [H1 H2]. split; [rewrite Hext; [done|set_solver]|].
    apply IH; [|done]. intros y Hy. apply Hext. set_solver.
Qed.

Lemma linked_snoc m p l n :
  NoDup (p :: l ++ [n]) -> linked m p l ->
  linked (<[default p (last l) := n]> (delete n m)) p (l ++ [n]).
Proof.
  revert p. induction l as [|x l IH]; intros p Hnd; simpl.
  - intros _. rewrite lookup_insert_eq. split; [done|].
    rewrite lookup_insert_ne by (inversion Hnd; set_solver). by rewrite lookup_delete_eq.
  - intros [H1 H2]. inversion Hnd as [|? ? Hp Hnd']; subst.
    assert (Hlast : default p (last (x :: l)) = default x (last l))
      by (rewrite last_cons; by destruct (last l)).
    rewrite Hlast.
    split; [|by apply IH].
    assert (default x (last l) ∈ x :: l).
    { destruct (last l) eqn:E; simpl; [|apply list_elem_of_here].
      apply list_elem_of_further. by apply last_Some_elem_of. }
    rewrite lookup_insert_ne by set_solver. rewrite lookup_delete_ne by set_solver. done.
Qed.

Lemma lane_init_represents : represents lane_init [].
Proof. split; [done..|]. apply NoDup_singleton. Qed.

Lemma lane_enqueue_represents q l n :
  represents q l -> n <> stub -> n ∉ l -> represents (lane_enqueue q n) (l ++ [n]).
Proof.
  intros [Hl Hh Hc Hn] H1 H2.
  assert (Hnd : NoDup (stub :: l ++ [n])).
  { rewrite app_comm_cons. apply NoDup_app. split; [done|]. split; [set_solver|apply NoDup_singleton]. }
  split; simpl.
  - rewrite Hh. by apply linked_snoc.
  - by rewrite last_snoc.
  - rewrite Hc. autorewrite with hpa_rw. lia.
  - done.
Qed.

Lemma lane_dequeue_represents q x l :
  represents q (x :: l) ->
  exists q', lane_dequeue q = (Some x, q') /\ represents q' l.
Proof.
  intros [[Hs Hl] Hh Hc Hn]. unfold lane_dequeue. rewrite Hs.
  inversion Hn as [|? ? Hns Hn1]; inversion Hn1 as [|? ? Hnx Hn2]; subst.
  destruct l as [|y l]; simpl in *.
  - rewrite Hl, Hh. rewrite !bool_decide_true by done. simpl.
    eexists; split; [done|]. split; simpl; [|done|rewrite Hc; autorewrite with hpa_rw; lia|apply NoDup_singleton].
    by rewrite lookup_delete_eq.
  - destruct Hl as [Hl Hll]. rewrite Hl.
    rewrite (bool_decide_false (Some y = None)) by done. simpl.
    rewrite (bool_decide_false (Some y = Some stub)) by (intros [=]; set_solver).
    assert (Hhx : head q <> x).
    { rewrite Hh. intros Heq. assert (Hin : default stub (last (x :: y :: l)) ∈ y :: l).
      { change (last (x :: y :: l)) with (last (y :: l)).
        destruct (last (y :: l)) eqn:E; [by apply last_Some_elem_of in E|].
        by apply last_None in E. }
      simpl in *. congruence. }
    rewrite (bool_decide_false (head q = x)) by done.
    eexists; split; [done|]. split; simpl.
    + rewrite lookup_insert_eq. split; [done|].
      eapply linked_ext; [|done]. intros z Hz. rewrite lookup_insert_ne; [done|set_solver].
    + by rewrite Hh.
    + rewrite Hc. autorewrite with hpa_rw. lia.
    + apply NoDup_cons. split; [set_solver|done].
Qed.

Lemma lane_dequeue_nil q : represents q [] -> lane_dequeue q = (None, q).
Proof. intros [Hl _ _ _]. unfold lane_dequeue. simpl in Hl. by rewrite Hl. Qed.

(** Operations on the implementation and on its abstraction. *)
Inductive LaneOp := LEnqueue (n : nat) | LDequeue.

Definition lane_run1 (q : LaneHeap) (o : LaneOp) : option nat * LaneHeap :=
  match o with LEnqueue n => (None, lane_enqueue q n) | LDequeue => lane_dequeue q end.

Definition fifo_run1 (l : list nat) (o : LaneOp) : option nat * list nat :=
  match o, l with
  | LEnqueue n, _ => (None, l ++ [n])
  | LDequeue, [] => (None, [])
  | LDequeue, x :: l' => (Some x, l')
  end.

Fixpoint lane_run (q : LaneHeap) (os : list LaneOp) : list (option nat) :=
  match os with
  | [] => []
  | o :: os' => (lane_run1 q o).1 :: lane_run (lane_run1 q o).2 os'
  end.

Fixpoint fifo_run (l : list nat) (os : list LaneOp) : list (option nat) :=
  match os with
  | [] => []
  | o :: os' => (fifo_run1 l o).1 :: fifo_run (fifo_run1 l o).2 os'
  end.

(** Each enqueued node is a real node that is not queued already. *)
Fixpoint lane_legal (l : list nat) (os : list LaneOp) : Prop :=
  match os with
  | [] => True
  | o :: os' =>
      match o with LEnqueue n => n <> stub /\ n ∉ l | LDequeue => True end /\
      lane_legal (fifo_run1 l o).2 os'
  end.

Lemma lane_run_represents q l os :
  represents q l -> lane_legal l os -> lane_run q os = fifo_run l os.
Proof.
  revert q l. induction os as [|o os IH]; intros q l Hr Hleg; [done|].
  destruct o as [n|]; simpl in *.
  - destruct Hleg as [[H1 H2] Hleg]. f_equal. apply IH; [|done]. by apply lane_enqueue_represents.
  - destruct Hleg as [_ Hleg]. destruct l as [|x l].
    + rewrite (lane_dequeue_nil _ Hr). simpl in *. f_equal. by apply IH.
    + destruct (lane_dequeue_represents _ _ _ Hr) as (q' & -> & Hr'). simpl in *. f_equal. by apply IH.
Qed.

(** C22. Refinement.  Run by one thread at a time, the intrusive queue answers
    every sequence of enqueues and dequeues exactly as a FIFO list does. *)
Theorem lane_refines_fifo os : lane_legal [] os -> lane_run lane_init os = fifo_run [] os.
Proof. apply lane_run_represents, lane_init_represents. Qed.

Lemma lane_refines_fifo_witness :
  lane_run lane_init [LEnqueue 1; LEnqueue 2; LDequeue; LEnqueue 3; LDequeue; LDequeue; LDequeue]
  = [None; None; Some 1%nat; None; Some 2%nat; Some 3%nat; None].
Proof. rewrite lane_refines_fifo; [done|]. simpl. set_solver. Defined.

(** ** Interleavings of producers and the consumer *)

Module ConcurrentLane.

(** A producer between the [exchange] on [head_], the [mpsc_next] store and
    the [count_] increment. *)
Inductive Producer :=
| PReady
| PExchanged (node prev : nat)
| PLinked.

(** The consumer between two accesses of [dequeue]; [nn] is [next_next]. *)
Inductive Consumer :=
| CReady
| CNull                                   (* next == nullptr, head_ not read yet *)
| CNext (next : nat)
| CNextNext (next : nat) (nn : option nat)
| CStore (next : nat) (nn : option nat)   (* about to store t->mpsc_next *)
| CStored (next : nat) (nn : option nat)
| CFixStub (next : nat) (nn : option nat) (* the [next_next == t] test *)
| CReadHead (next : nat) (nn : option nat)
| CSwap (next : nat) (nn : option nat)    (* head_ was next: compare-and-swap *)
| CSwapFailed (next : nat) (nn : option nat)
| CWalk (next tail updated : nat)
| CDone (next : nat).                     (* about to decrement count_ *)

Record State := mkState {
  heap : LaneHeap;
  used : list nat;                  (* nodes handed to a producer so far *)
  producers : list Producer;
  consumer : Consumer;
  returned : list (option nat)      (* results of dequeue, latest first *)
}.

Definition with_heap (s : State) (q : LaneHeap) (c : Consumer) : State :=
  mkState q (used s) (producers s) c (returned s).
Definition with_consumer (s : State) (c : Consumer) : State := with_heap s (heap s) c.
Definition return_ (s : State) (q : LaneHeap) (r : option nat) : State :=
  mkState q (used s) (producers s) CReady (r :: returned s).
Definition with_producer (s : State) (q : LaneHeap) (i : nat) (p : Producer)
    (u : list nat) : State :=
  mkState q u (<[i:=p]> (producers s)) (consumer s) (returned s).
Definition set_next (q : LaneHeap) (p : nat) (v : option nat) : LaneHeap :=
  mkLaneHeap (store_next (next_of q) p v) (head q) (count q).
Definition set_head (q : LaneHeap) (h : nat) : LaneHeap :=
  mkLaneHeap (next_of q) h (count q).
Definition add_count (q : LaneHeap) (d : Z) : LaneHeap :=
  mkLaneHeap (next_of q) (head q) (count q + d).

Inductive qstep : State -> State -> Prop :=
(* producer *)
| q_exchange s i node :
    producers s !! i = Some PReady -> node <> stub -> node ∉ used s ->
    qstep s (with_producer s (set_head (set_next (heap s) node None) node) i
               (PExchanged node (head (heap s))) (node :: used s))
| q_link s i node prev :
    producers s !! i = Some (PExchanged node prev) ->
    qstep s (with_producer s (set_next (heap s) prev (Some node)) i PLinked (used s))
| q_count s i :
    producers s !! i = Some PLinked ->
    qstep s (with_producer s (add_count (heap s) 1) i PReady (used s))
(* consumer *)
| q_next_null s :
    consumer s = CReady -> next_of (heap s) !! stub = None ->
    qstep s (with_consumer s CNull)
| q_null_return s :
    consumer s = CNull -> qstep s (return_ s (heap s) None)
| q_next s next :
    consumer s = CReady -> next_of (heap s) !! stub = Some next ->
    qstep s (with_consumer s (CNext next))
| q_next_next s next :
    consumer s = CNext next ->
    qstep s (with_consumer s (CNextNext next (next_of (heap s) !! next)))
| q_first_check_skip s next nn :
    consumer s = CNextNext next (Some nn) ->
    qstep s (with_consumer s (CStore next (Some nn)))
| q_first_check_ok s next :
    consumer s = CNextNext next None -> head (heap s) = next ->
    qstep s (with_consumer s (CStore next None))
| q_first_check_return s next :
    consumer s = CNextNext next None -> head (heap s) <> next ->
    qstep s (return_ s (heap s) None)
| q_store s next nn :
    consumer s = CStore next nn ->
    qstep s (with_heap s (set_next (heap s) stub nn) (CStored next nn))
| q_second_check_skip s next nn :
    consumer s = CStored next (Some nn) ->
    qstep s (with_consumer s (CFixStub next (Some nn)))
| q_second_check_ok s next :
    consumer s = CStored next None -> head (heap s) = next ->
    qstep s (with_consumer s (CFixStub next None))
| q_second_check_return s next :
    consumer s = CStored next None -> head (heap s) <> next ->
    qstep s (return_ s (heap s) None)
| q_fix_stub s next :
    consumer s = CFixStub next (Some stub) ->
    qstep s (with_heap s (set_next (heap s) stub None) (CReadHead next (Some stub)))
| q_fix_stub_skip s next nn :
    consumer s = CFixStub next nn -> nn <> Some stub ->
    qstep s (with_consumer s (CReadHead next nn))
| q_head_other s next nn :
    consumer s = CReadHead next nn -> head (heap s) <> next ->
    qstep s (with_consumer s (CDone next))
| q_head_same s next nn :
    consumer s = CReadHead next nn -> head (heap s) = next ->
    qstep s (with_consumer s (CSwap next nn))
| q_swap s next nn :
    consumer s = CSwap next nn -> head (heap s) = next ->
    qstep s (with_heap s (set_head (heap s) stub) (CDone next))
| q_swap_fail s next nn :
    (* compare_exchange_strong writes the current head_ into [next] *)
    consumer s = CSwap next nn -> head (heap s) <> next ->
    qstep s (with_consumer s (CSwapFailed (head (heap s)) nn))
| q_failed_nothing s next nn :
    consumer s = CSwapFailed next nn ->
    (next_of (heap s) !! next = None \/ next_of (heap s) !! next = nn) ->
    qstep s (with_consumer s (CDone next))
| q_failed_relink s next updated :
    consumer s = CSwapFailed next None -> next_of (heap s) !! next = Some updated ->
    qstep s (with_heap s (set_next (heap s) stub (Some updated)) (CDone next))
| q_failed_walk s next nn updated :
    consumer s = CSwapFailed next (Some nn) -> next_of (heap s) !! next = Some updated ->
    updated <> nn ->
    qstep s (with_consumer s (CWalk next nn updated))
| q_walk s next tail updated tn :
    consumer s = CWalk next tail updated -> next_of (heap s) !! tail = Some tn ->
    qstep s (with_consumer s (CWalk next tn updated))
| q_walk_end s next tail updated :
    consumer s = CWalk next tail updated -> next_of (heap s) !! tail = None ->
    qstep s (with_heap s (set_next (heap s) tail (Some updated)) (CDone next))
| q_done s next :
    consumer s = CDone next ->
    qstep s (return_ s (add_count (heap s) (-1)) (Some next)).

Definition initial (n : nat) : State :=
  mkState lane_init [] (replicate n PReady) CReady [].

(** No producer holds the stub as its predecessor. *)
Definition no_stub_pred (p : Producer) : Prop :=
  match p with PExchanged n prev => n <> stub /\ prev <> stub | _ => True end.

(** The chain hanging off the stub is cut and nothing can reattach it. *)
Record severed (s : State) : Prop := mkSevered {
  sev_stub : next_of (heap s) !! stub = None;
  sev_head : head (heap s) <> stub;
  sev_consumer : consumer s = CReady \/ consumer s = CNull;
  sev_producers : Forall no_stub_pred (producers s)
}.

Lemma severed_step s s' :
  severed s -> qstep s s' ->
  severed s' /\ (returned s' = returned s \/ returned s' = None :: returned s).
Proof.
  intros Hsev. pose proof Hsev as [H1 H2 H3 H4]. intros Hstep.
  inversion Hstep; subst;
    try (exfalso; destruct H3; congruence).
  - (* exchange *)
    split; [|by left]. split; simpl; [|done|done|].
    + rewrite lookup_delete_ne; done.
    + apply Forall_insert; [done|]. simpl. done.
  - (* link *)
    match goal with H : producers s !! _ = Some _ |- _ =>
      pose proof (proj1 (Forall_lookup _ _) H4 _ _ H) as [Hn Hp] end.
    split; [|by left]. split; simpl; [|done|done|apply Forall_insert; done].
    rewrite lookup_insert_ne; done.
  - (* count *)
    split; [|by left]. split; simpl; [done..|]. apply Forall_insert; done.
  - split; [|by left]. split; simpl; auto.
  - split; [|by right]. split; simpl; auto.
Qed.

Lemma severed_forever s s' :
  steps qstep s s' -> severed s ->
  severed s' /\ exists k, returned s' = replicate k None ++ returned s.
Proof.
  induction 1 as [s|s s1 s2 Hstep _ IH]; intros Hsev; [split; [done|by exists 0%nat]|].
  destruct (severed_step _ _ Hsev Hstep) as [Hsev1 Hret].
  destruct (IH Hsev1) as [Hsev2 [k Hk]]. split; [done|].
  destruct Hret as [Hr|Hr]; rewrite Hr in Hk; [by exists k|].
  exists (S k). rewrite Hk. rewrite replicate_S_end. by rewrite <- app_assoc.
Qed.

(** The state after: node 1 is queued; the consumer reads it as the last
    node and cuts the chain; a second producer exchanges [head_]; the
    consumer's second check sees the new head and returns [nullptr]; the
    second producer finishes. *)
Definition stranded : State :=
  mkState (mkLaneHeap {[1%nat := 2%nat]} 2 2) [2; 1]%nat [PReady; PReady] CReady [None].

Lemma stranded_reachable : steps qstep (initial 2) stranded.
Proof.
  eapply steps_step; [eapply (q_exchange _ 0%nat 1%nat); set_solver|].
  eapply steps_step; [eapply (q_link _ 0%nat 1%nat 0%nat); done|].
  eapply steps_step; [eapply (q_count _ 0%nat); done|].
  eapply steps_step; [eapply (q_next _ 1%nat); done|].
  eapply steps_step; [eapply (q_next_next _ 1%nat); done|].
  eapply steps_step; [eapply (q_first_check_ok _ 1%nat); done|].
  eapply steps_step; [eapply (q_store _ 1%nat); done|].
  eapply steps_step; [eapply (q_exchange _ 1%nat 2%nat); set_solver|].
  eapply steps_step; [eapply (q_second_check_return _ 1%nat); done|].
  eapply steps_step; [eapply (q_link _ 1%nat 2%nat 1%nat); done|].
  eapply steps_step; [eapply (q_count _ 1%nat); done|].
  apply steps_refl.
Qed.

(** The early return of [dequeue] after it has overwritten the stub's link
    strands the queue: two messages are fully enqueued and counted, the
    queue does not report empty, and from that state no continuation
    whatever, with any further enqueues, ever makes [dequeue] return a
    message again. *)
Theorem dequeue_race_strands_messages :
  exists s, steps qstep (initial 2) s /\
    Forall (fun p => p = PReady) (producers s) /\ consumer s = CReady /\
    count (heap s) = 2 /\ lane_empty (heap s) = false /\
    Forall (fun r => r = None) (returned s) /\
    (forall s', steps qstep s s' -> Forall (fun r => r = None) (returned s')).
Proof.
  exists stranded. split; [exact stranded_reachable|].
  split; [repeat constructor|]. split; [done|]. split; [done|]. split; [done|].
  split; [repeat constructor|].
  intros s' Hs. destruct (severed_forever _ _ Hs) as [_ [k ->]].
  - split; simpl; [done|done|by left|repeat constructor].
  - apply Forall_app. split; [by apply Forall_replicate|repeat constructor].
Qed.

End ConcurrentLane.
