(* ===== verification/Lanes.v ===== *)
(** * Mailbox storage: priority lanes, deferred-free ring, overflow queue

    [mailbox/multi_lane_queue.hpp] and [mailbox/overflow_queue.hpp].  A lane is
    the FIFO list that [MpscLane.lane_refines_fifo] shows the intrusive queue
    to implement; [count()] is its length. *)

From S2P Require Import Prelude.
From stdpp Require Import base numbers list.

#[local] Open Scope Z_scope.

Section MultiLaneQueue.
Context {T : Type}.

Definition kSystemLaneSentinel : Z := 255.
Definition kMaxUserLanes : Z := 8.
Definition kPendingFreeRingSize : nat := 8.

Record PendingRing := mkPendingRing {
  ring : list (option T);        (* kPendingFreeRingSize slots *)
  write_idx : nat;
  pending_count : nat
}.

Record MultiLaneQueue := mkLanes {
  system_lane : list T;
  user_lanes : list (list T);    (* kMaxUserLanes lanes *)
  num_user_lanes : Z;            (* uint8_t *)
  pending : PendingRing
}.

Definition pending_init : PendingRing :=
  mkPendingRing (replicate kPendingFreeRingSize None) 0 0.
Definition lanes_init : MultiLaneQueue :=
  mkLanes [] (replicate (Z.to_nat kMaxUserLanes) []) 1 pending_init.

Definition set_lanes (q : MultiLaneQueue) (s : list T) (u : list (list T)) : MultiLaneQueue :=
  mkLanes s u (num_user_lanes q) (pending q).

(** [MultiLaneQueue::enqueue]. *)
Definition mlq_enqueue (q : MultiLaneQueue) (node : T) (lane_idx : Z) : MultiLaneQueue :=
  if lane_idx =? kSystemLaneSentinel then set_lanes q (system_lane q ++ [node]) (user_lanes q)
  else set_lanes q (system_lane q)
         (alter (fun l => l ++ [node]) (Z.to_nat lane_idx) (user_lanes q)).

(** Pop the head of the first non-empty lane in the given scan order. *)
Fixpoint pop_first (order : list nat) (lanes : list (list T)) : option (T * list (list T)) :=
  match order with
  | [] => None
  | i :: order' =>
      match lanes !! i with
      | Some (x :: l) => Some (x, <[i:=l]> lanes)
      | _ => pop_first order' lanes
      end
  end.

Definition user_order (q : MultiLaneQueue) : list nat := seq 0 (Z.to_nat (num_user_lanes q)).

(** [MultiLaneQueue::dequeue]: system lane, then user lanes 0..N-1. *)
Definition mlq_dequeue (q : MultiLaneQueue) : option (T * MultiLaneQueue) :=
  match system_lane q with
  | x :: s => Some (x, set_lanes q s (user_lanes q))
  | [] =>
      match pop_first (user_order q) (user_lanes q) with
      | Some (x, u) => Some (x, set_lanes q [] u)
      | None => None
      end
  end.

(** [try_drop_oldest_user_lane] and [try_drop_from_lowest_user_lane]. *)
Definition try_drop_oldest_user_lane (q : MultiLaneQueue) : option (T * MultiLaneQueue) :=
  match pop_first (user_order q) (user_lanes q) with
  | Some (x, u) => Some (x, set_lanes q (system_lane q) u)
  | None => None
  end.

Definition try_drop_from_lowest_user_lane (q : MultiLaneQueue) : option (T * MultiLaneQueue) :=
  match pop_first (reverse (user_order q)) (user_lanes q) with
  | Some (x, u) => Some (x, set_lanes q (system_lane q) u)
  | None => None
  end.

(** The lanes the scans visit. *)
Definition active_lanes (q : MultiLaneQueue) : list (list T) :=
  take (Z.to_nat (num_user_lanes q)) (user_lanes q).

Definition mlq_empty (q : MultiLaneQueue) : bool :=
  bool_decide (system_lane q = []) && forallb (fun l => bool_decide (l = [])) (active_lanes q).

Definition total_depth (q : MultiLaneQueue) : Z :=
  zlen (system_lane q) + sum_by zlen (active_lanes q).

Definition lane_depth (q : MultiLaneQueue) (lane_idx : Z) : Z :=
  if lane_idx =? kSystemLaneSentinel then zlen (system_lane q)
  else zlen (default [] (user_lanes q !! Z.to_nat lane_idx)).

Definition set_num_user_lanes (q : MultiLaneQueue) (n : Z) : MultiLaneQueue :=
  mkLanes (system_lane q) (user_lanes q)
    (if (1 <=? n) && (n <=? kMaxUserLanes) then n else 1) (pending q).

(** ** Deferred destruction *)

(** [set_pending_free]: the node destroyed, if any, and the new ring. *)
Definition set_pending_free (r : PendingRing) (node : T) : option T * PendingRing :=
  let w := write_idx r in
  let full := bool_decide (pending_count r = kPendingFreeRingSize) in
  (if full then mjoin (ring r !! w) else None,
   mkPendingRing (<[w := Some node]> (ring r)) ((w + 1) mod kPendingFreeRingSize)%nat
     (if full then pending_count r else S (pending_count r))).

(** The occupied slots, oldest first, as [drain_pending_free] visits them. *)
Definition pending_slots (r : PendingRing) : list (option T) :=
  (fun i => mjoin (ring r !!
     ((write_idx r + kPendingFreeRingSize - pending_count r + i) mod kPendingFreeRingSize)%nat))
  <$> seq 0 (pending_count r).

(** [drain_pending_free]: the nodes destroyed and the emptied ring. *)
Definition drain_pending_free (r : PendingRing) : list (option T) * PendingRing :=
  (pending_slots r, mkPendingRing (ring r) 0 0).

(** [release_pending_free]. *)
Definition release_pending_free (r : PendingRing) : option T * PendingRing :=
  match pending_count r with
  | O => (None, r)
  | S c =>
      (mjoin (ring r !!
         ((write_idx r + kPendingFreeRingSize - pending_count r) mod kPendingFreeRingSize)%nat),
       mkPendingRing (ring r) (write_idx r) c)
  end.

(** ** The ring is a FIFO of eight nodes *)

Definition ring_wf (r : PendingRing) : Prop :=
  length (ring r) = kPendingFreeRingSize /\ (write_idx r < kPendingFreeRingSize)%nat /\
  (pending_count r <= kPendingFreeRingSize)%nat.

Lemma set_pending_free_view r node d r' :
  ring_wf r -> set_pending_free r node = (d, r') ->
  ring_wf r' /\
  pending_slots r' =
    (if bool_decide (pending_count r = kPendingFreeRingSize)
     then tail (pending_slots r) else pending_slots r) ++ [Some node] /\
  d = (if bool_decide (pending_count r = kPendingFreeRingSize)
       then mjoin (head (pending_slots r)) else None).
Proof.
  intros (Hl & Hw & Hc) H. destruct r as [rg w c]. unfold set_pending_free in H; simpl in *.
  unfold kPendingFreeRingSize in *.
  do 8 (destruct rg as [|? rg]; [done|]). destruct rg; [|done]. clear Hl.
  do 8 (destruct w as [|w]; [do 9 (destruct c as [|c]; [simplify_eq/=; unfold ring_wf; simpl; repeat split; first [done|unfold kPendingFreeRingSize; lia]|]); lia|]).
  lia.
Qed.

(** Stage a sequence of nodes; the nodes destroyed on the way, in order. *)
Fixpoint stage (r : PendingRing) (nodes : list T) : list T * PendingRing :=
  match nodes with
  | [] => ([], r)
  | n :: ns =>
      let '(d, r1) := set_pending_free r n in
      let '(ds, r2) := stage r1 ns in
      (option_list d ++ ds, r2)
  end.

Lemma pending_slots_length r : length (pending_slots r) = pending_count r.
Proof. unfold pending_slots. by rewrite length_fmap, length_seq. Qed.

Lemma stage_view nodes r held :
  ring_wf r -> pending_slots r = Some <$> held ->
  let '(ds, r') := stage r nodes in
  ds = take (length held + length nodes - kPendingFreeRingSize) (held ++ nodes) /\
  pending_slots r' =
    Some <$> drop (length held + length nodes - kPendingFreeRingSize) (held ++ nodes).
Proof.
  revert r held. induction nodes as [|n ns IH]; intros r held Hwf Hv.
  - simpl. pose proof (pending_slots_length r) as Hlen. rewrite Hv, length_fmap in Hlen.
    destruct Hwf as (_ & _ & Hc). unfold kPendingFreeRingSize in *.
    replace (length held + 0 - 8)%nat with 0%nat by lia. rewrite app_nil_r. done.
  - destruct (set_pending_free r n) as [d r1] eqn:E. cbn [stage]. rewrite E.
    destruct (set_pending_free_view _ _ _ _ Hwf E) as (Hwf1 & Hv1 & Hd).
    pose proof (pending_slots_length r) as Hlen. rewrite Hv, length_fmap in Hlen.
    rewrite <- Hlen in *. destruct Hwf as (_ & _ & Hc). rewrite <- Hlen in Hc.
    case_bool_decide as Hfull.
    + destruct held as [|h held]; [done|]. rewrite Hv in *. simpl in *.
      specialize (IH r1 (held ++ [n]) Hwf1). rewrite fmap_app in IH. specialize (IH Hv1).
      destruct (stage r1 ns) as [ds r2]. simpl. destruct IH as [-> ->]. rewrite Hd. simpl.
      rewrite <- !app_assoc, length_app. simpl. unfold kPendingFreeRingSize in *.
      replace (length held + S (length ns) - 7)%nat
        with (S (length held + 1 + length ns - 8))%nat by lia. done.
    + specialize (IH r1 (held ++ [n]) Hwf1). rewrite fmap_app in IH.
      rewrite Hv in Hv1. specialize (IH Hv1).
      destruct (stage r1 ns) as [ds r2]. simpl. destruct IH as [-> ->]. rewrite Hd. simpl.
      rewrite <- !app_assoc, length_app. simpl.
      replace (length held + 1 + length ns)%nat with (length held + S (length ns))%nat by lia.
      done.
Qed.
End MultiLaneQueue.
Arguments PendingRing : clear implicits.
Arguments MultiLaneQueue : clear implicits.

(** Deferred destruction.  Staging any sequence of nodes in a fresh ring
    destroys exactly the nodes that have been followed by eight later ones, in
    staging order, and a final drain destroys the rest: every node is destroyed
    once, none earlier than eight stagings after its own. *)
Theorem pending_free_defers {T} (nodes : list T) :
  let '(destroyed, r) := stage pending_init nodes in
  destroyed = take (length nodes - kPendingFreeRingSize) nodes /\
  (drain_pending_free r).1 = Some <$> drop (length nodes - kPendingFreeRingSize) nodes.
Proof.
  pose proof (stage_view nodes pending_init []) as H.
  destruct (stage pending_init nodes) as [ds r]. apply H; [|done].
  unfold ring_wf. simpl. unfold kPendingFreeRingSize. lia.
Qed.

(** ** Scans *)

Section Scans.
Context {T : Type}.
Implicit Types lanes : list (list T).

Lemma pop_first_Some order lanes x lanes' :
  pop_first order lanes = Some (x, lanes') ->
  exists pre i post l, order = pre ++ i :: post /\ lanes !! i = Some (x :: l) /\
    lanes' = <[i:=l]> lanes /\
    Forall (fun j => default [] (lanes !! j) = []) pre.
Proof.
  induction order as [|i order IH]; [done|]. simpl.
  destruct (lanes !! i) as [[|y l]|] eqn:E; intros H.
  - destruct (IH H) as (pre & k & post & l & -> & ? & ? & ?).
    exists (i :: pre), k, post, l. repeat split; try done. constructor; [by rewrite E|done].
  - simplify_eq. exists [], i, order, l. repeat split; try done.
  - destruct (IH H) as (pre & k & post & l & -> & ? & ? & ?).
    exists (i :: pre), k, post, l. repeat split; try done. constructor; [by rewrite E|done].
Qed.

Lemma pop_first_None order lanes :
  pop_first order lanes = None -> Forall (fun j => default [] (lanes !! j) = []) order.
Proof.
  induction order as [|i order IH]; [done|]. simpl.
  destruct (lanes !! i) as [[|y l]|] eqn:E; intros H; try done;
    (constructor; [by rewrite E|by apply IH]).
Qed.

(** Popping removes one element from the sum of any measure. *)
Lemma pop_first_sum (f : list T -> Z) (g : T -> Z) order lanes x lanes' :
  (forall y l, f (y :: l) = g y + f l) ->
  pop_first order lanes = Some (x, lanes') -> sum_by f lanes' = sum_by f lanes - g x.
Proof.
  intros Hf H. destruct (pop_first_Some _ _ _ _ H) as (pre & i & post & l & _ & Hi & -> & _).
  rewrite (sum_by_insert _ _ _ _ _ Hi). rewrite Hf. lia.
Qed.

Lemma pop_first_Forall (P : T -> Prop) order lanes x lanes' :
  pop_first order lanes = Some (x, lanes') -> Forall (Forall P) lanes ->
  P x /\ Forall (Forall P) lanes'.
Proof.
  intros H HP. destruct (pop_first_Some _ _ _ _ H) as (pre & i & post & l & _ & Hi & -> & _).
  pose proof (proj1 (Forall_lookup _ _) HP _ _ Hi) as Hx. inversion Hx; subst.
  split; [done|]. by apply Forall_insert.
Qed.

Lemma pop_first_length order lanes x lanes' :
  pop_first order lanes = Some (x, lanes') -> length lanes' = length lanes.
Proof.
  intros H. destruct (pop_first_Some _ _ _ _ H) as (pre & i & post & l & _ & Hi & -> & _).
  apply length_insert.
Qed.
End Scans.

(** ** Overflow queue *)

Section OverflowQueue.
Context {T : Type}.

Record OverflowQueue := mkOverflow {
  oq_queue : list T;
  oq_max_depth : Z;        (* uint32_t, 0 = unlimited *)
  oq_total_pushed : Z;     (* uint64_t counters *)
  oq_total_popped : Z;
  oq_total_lost : Z
}.

Definition oq_init (max_depth : Z) : OverflowQueue := mkOverflow [] max_depth 0 0 0.

(** [OverflowQueue::set_max_depth]: existing elements are kept. *)
Definition oq_set_max_depth (q : OverflowQueue) (d : Z) : OverflowQueue :=
  mkOverflow (oq_queue q) d (oq_total_pushed q) (oq_total_popped q) (oq_total_lost q).

(** [OverflowQueue::try_push]: always succeeds, evicting the oldest. *)
Definition oq_try_push (q : OverflowQueue) (msg : T) : bool * OverflowQueue :=
  let evict := (0 <? oq_max_depth q) && (oq_max_depth q <=? zlen (oq_queue q))
               && negb (bool_decide (oq_queue q = [])) in
  let queue := if evict then tail (oq_queue q) else oq_queue q in
  let lost := if evict then u64 (oq_total_lost q + 1) else oq_total_lost q in
  (true, mkOverflow (queue ++ [msg]) (oq_max_depth q) (u64 (oq_total_pushed q + 1))
           (oq_total_popped q) lost).

(** [OverflowQueue::try_pop]. *)
Definition oq_try_pop (q : OverflowQueue) : option T * OverflowQueue :=
  match oq_queue q with
  | [] => (None, q)
  | x :: l =>
      (Some x, mkOverflow l (oq_max_depth q) (oq_total_pushed q)
                 (u64 (oq_total_popped q + 1)) (oq_total_lost q))
  end.

Inductive OqOp := OqPush (x : T) | OqPop.
Definition oq_run1 (q : OverflowQueue) (o : OqOp) : OverflowQueue :=
  match o with OqPush x => (oq_try_push q x).2 | OqPop => (oq_try_pop q).2 end.
Definition oq_run (q : OverflowQueue) (os : list OqOp) : OverflowQueue := foldl oq_run1 q os.

Definition oq_inv (d : Z) (q : OverflowQueue) : Prop :=
  oq_max_depth q = d /\ (0 < d -> zlen (oq_queue q) <= d) /\
  oq_total_pushed q = u64 (oq_total_popped q + oq_total_lost q + zlen (oq_queue q)).

Lemma oq_run1_inv d q o : oq_inv d q -> oq_inv d (oq_run1 q o).
Proof.
  intros (Hd & Hle & Hc). destruct o as [x|]; unfold oq_run1, oq_try_push, oq_try_pop; simpl.
  - set (evict := _ && _ && _). assert (Hev : evict = true ->
      exists y l, oq_queue q = y :: l).
    { unfold evict. intros; bool_to_prop. destruct (oq_queue q); [done|eauto]. }
    unfold oq_inv; simpl. repeat split; [done| |].
    + intros Hp. specialize (Hle Hp). destruct evict eqn:E.
      * destruct (Hev eq_refl) as (y & l & Hq). rewrite Hq in *. simpl.
        revert Hle. autorewrite with hpa_rw. lia.
      * autorewrite with hpa_rw. unfold evict in E. rewrite Hd in E.
        destruct (oq_queue q) as [|y l]; [rewrite zlen_nil in *; lia|].
        assert (Hne : bool_decide (y :: l = []) = false) by (by apply bool_decide_false).
        rewrite Hne, andb_true_r in E. bool_to_prop. destruct E; bool_to_prop; lia.
    + rewrite Hc. rewrite u64_add_mod. destruct evict.
      * destruct (Hev eq_refl) as (y & l & ->). simpl.
        replace (oq_total_popped q + u64 (oq_total_lost q + 1) + zlen (l ++ [x]))
          with (u64 (oq_total_lost q + 1) + (oq_total_popped q + zlen (l ++ [x]))) by lia.
        rewrite u64_add_mod. autorewrite with hpa_rw. f_equal. lia.
      * autorewrite with hpa_rw. f_equal. lia.
  - destruct (oq_queue q) as [|x l] eqn:E; simpl;
      [unfold oq_inv; rewrite E; by repeat split|].
    unfold oq_inv; simpl. repeat split; [done| |].
    + intros Hp. specialize (Hle Hp). revert Hle. autorewrite with hpa_rw. lia.
    + rewrite Hc.
      replace (u64 (oq_total_popped q + 1) + oq_total_lost q + zlen l)
        with (u64 (oq_total_popped q + 1) + (oq_total_lost q + zlen l)) by lia.
      rewrite u64_add_mod. autorewrite with hpa_rw. f_equal. lia.
Qed.
End OverflowQueue.
Arguments OverflowQueue : clear implicits.

(** The overflow queue keeps at most [max_depth] messages when it is bounded,
    and its counters account for every message pushed: popped, lost to
    eviction, or still queued. *)
Theorem overflow_accounting {T} (d : Z) (os : list (@OqOp T)) :
  let q := oq_run (oq_init d) os in
  (0 < d -> zlen (oq_queue q) <= d) /\
  oq_total_pushed q = u64 (oq_total_popped q + oq_total_lost q + zlen (oq_queue q)).
Proof.
  assert (H : oq_inv d (oq_run (oq_init d) os)).
  { unfold oq_run. assert (H0 : oq_inv d (@oq_init T d)).
    { unfold oq_inv, zlen; simpl. repeat split; try lia. }
    revert H0. generalize (@oq_init T d). induction os as [|o os IH]; intros q Hq; [done|].
    simpl. apply IH. by apply oq_run1_inv. }
  by destruct H as (_ & ? & ?).
Qed.

(** ** Emptiness *)

Section Emptiness.
Context {T : Type}.
Implicit Types q : MultiLaneQueue T.

Lemma mlq_empty_false q :
  mlq_empty q = false <-> system_lane q <> [] \/ exists l, l ∈ active_lanes q /\ l <> [].
Proof.
  unfold mlq_empty. rewrite andb_false_iff, bool_decide_eq_false.
  split; (intros [Hs|Hu]; [by left|right]).
  - induction (active_lanes q) as [|l k IH]; [done|]. simpl in Hu.
    apply andb_false_iff in Hu as [Hu|Hu].
    + apply bool_decide_eq_false in Hu. exists l. split; [apply list_elem_of_here|done].
    + destruct (IH Hu) as (l' & ? & ?). exists l'. split; [by apply list_elem_of_further|done].
  - destruct Hu as (l & Hl & Hne). apply not_true_iff_false. intros Hf.
    rewrite forallb_forall in Hf. apply Hne.
    specialize (Hf l). rewrite bool_decide_eq_true in Hf. apply Hf. by apply list_elem_of_In.
Qed.

(** An append to the system lane or to an active lane leaves a message. *)
Lemma mlq_enqueue_nonempty q x lane :
  length (user_lanes q) = 8%nat -> num_user_lanes q <= 8 ->
  lane = kSystemLaneSentinel \/ 0 <= lane < num_user_lanes q ->
  mlq_empty (mlq_enqueue q x lane) = false.
Proof.
  intros Hlen Hn Hlane. apply mlq_empty_false. unfold mlq_enqueue, kSystemLaneSentinel in *.
  destruct (lane =? 255) eqn:E; bool_to_prop; simpl.
  - left. by destruct (system_lane q).
  - right. unfold active_lanes; simpl. destruct Hlane as [->|Hlane]; [done|].
    destruct (lookup_lt_is_Some_2 (user_lanes q) (Z.to_nat lane)) as [l Hl]; [lia|].
    exists (l ++ [x]). split; [|by destruct l].
    apply list_elem_of_lookup. exists (Z.to_nat lane).
    rewrite lookup_take_lt by lia. by rewrite list_lookup_alter_eq, Hl.
Qed.

(** The scans visit the active lanes, so they fail on an empty mailbox. *)
Lemma pop_first_nonempty q order x u :
  Forall (fun i => (i < Z.to_nat (num_user_lanes q))%nat) order ->
  pop_first order (user_lanes q) = Some (x, u) -> mlq_empty q = false.
Proof.
  intros Ho Hp. destruct (pop_first_Some _ _ _ _ Hp) as (pre & i & post & l & -> & Hi & _ & _).
  apply mlq_empty_false. right. exists (x :: l). split; [|done].
  apply list_elem_of_lookup. exists i. unfold active_lanes. rewrite lookup_take_lt; [done|].
  apply Forall_app in Ho as [_ Ho]. by inversion Ho.
Qed.

Lemma user_order_active q :
  Forall (fun i => (i < Z.to_nat (num_user_lanes q))%nat) (user_order q) /\
  Forall (fun i => (i < Z.to_nat (num_user_lanes q))%nat) (reverse (user_order q)).
Proof.
  assert (Forall (fun i => (i < Z.to_nat (num_user_lanes q))%nat) (user_order q)).
  { apply Forall_forall. intros i Hi. apply elem_of_seq in Hi. lia. }
  split; [done|]. by apply Forall_reverse.
Qed.

Lemma mlq_dequeue_None q : mlq_dequeue q = None <-> mlq_empty q = true.
Proof.
  unfold mlq_dequeue. split.
  - destruct (system_lane q) eqn:Es; [|done].
    destruct (pop_first _ _) as [[x u]|] eqn:E; [done|]. intros _.
    apply not_false_iff_true. intros Hf. apply mlq_empty_false in Hf as [Hf|(l & Hl & Hne)]; [done|].
    apply pop_first_None in E. rewrite Forall_forall in E.
    apply list_elem_of_lookup in Hl as [i Hi]. unfold active_lanes in Hi.
    apply lookup_take_Some in Hi as [Hi Hlt].
    specialize (E i). rewrite Hi in E. apply Hne, E. apply elem_of_seq. lia.
  - intros He. destruct (system_lane q) eqn:Es.
    + destruct (pop_first _ _) as [[x u]|] eqn:E; [|done].
      apply pop_first_nonempty in E; [congruence|apply user_order_active].
    + exfalso. assert (mlq_empty q = false) by (apply mlq_empty_false; left; congruence). congruence.
Qed.
End Emptiness.
