(* ===== verification/Admission.v ===== *)
(** * Admission control: token bucket and admission policies

    [mailbox/actor_rate_limiter.hpp], [mailbox/admission_policy.hpp] and the
    five policies under [mailbox/detail/policies].  The clock is an argument;
    the iteration order of a [std::unordered_map] is a parameter. *)

From S2P Require Import Prelude DeliveryTypes.
From stdpp Require Import base numbers list gmap strings.

#[local] Open Scope string_scope.
#[local] Open Scope list_scope.
#[local] Open Scope Z_scope.

(** ** Token bucket *)

Record ActorRateLimiter := mkLimiter {
  tokens : double;
  last_refill_ns : Z;      (* uint64_t, 0 = never refilled *)
  rate_per_ns : double;
  burst : Z;               (* uint32_t *)
  max_tokens : double;
  limiter_enabled : bool
}.

Definition limiter_init : ActorRateLimiter :=
  mkLimiter (double_of_Z 0) 0 (double_of_Z 0) 0 (double_of_Z 0) false.

(** [ActorRateLimiter::configure]. *)
Definition configure (l : ActorRateLimiter) (rate_per_sec : double) (b : Z) : ActorRateLimiter :=
  if dle rate_per_sec (double_of_Z 0)
  then mkLimiter (tokens l) (last_refill_ns l) (double_of_Z 0) 0 (double_of_Z 0) false
  else mkLimiter (double_of_Z b) 0 (ddiv rate_per_sec (double_of_Z 1000000000)) b
         (double_of_Z b) true.

(** [ActorRateLimiter::refill]. *)
Definition refill (l : ActorRateLimiter) (now_ns : Z) : ActorRateLimiter :=
  if last_refill_ns l =? 0
  then mkLimiter (max_tokens l) now_ns (rate_per_ns l) (burst l) (max_tokens l) (limiter_enabled l)
  else if now_ns <=? last_refill_ns l then l
  else
    let elapsed := now_ns - last_refill_ns l in
    let earned := dmul (double_of_Z elapsed) (rate_per_ns l) in
    let new_tokens := dadd (tokens l) earned in
    let capped := if dgt new_tokens (max_tokens l) then max_tokens l else new_tokens in
    mkLimiter capped now_ns (rate_per_ns l) (burst l) (max_tokens l) (limiter_enabled l).

(** [ActorRateLimiter::try_consume]. *)
Definition try_consume (l : ActorRateLimiter) (now_ns : Z) : bool * ActorRateLimiter :=
  if negb (limiter_enabled l) then (true, l)
  else
    let l := refill l now_ns in
    if dge (tokens l) (double_of_Z 1)
    then (true, mkLimiter (dsub (tokens l) (double_of_Z 1)) (last_refill_ns l) (rate_per_ns l)
                  (burst l) (max_tokens l) (limiter_enabled l))
    else (false, l).

(** [ActorRateLimiter::time_until_next_token_ns]. *)
Definition time_until_next_token_ns (l : ActorRateLimiter) : Z :=
  if negb (limiter_enabled l) then UINT64_MAX
  else if dge (tokens l) (double_of_Z 1) then 0
  else if dle (rate_per_ns l) (double_of_Z 0) then UINT64_MAX
  else Z_of_double (ddiv (dsub (double_of_Z 1) (tokens l)) (rate_per_ns l)).

(** ** Admission policies *)

Inductive AdmissionDecision := AD_Accept | AD_Reject | AD_RerouteToDLQ.

#[export] Instance AdmissionDecision_eq_dec : EqDecision AdmissionDecision.
Proof. solve_decision. Defined.

Record AdmissionPolicyResult := mkAdmission {
  decision : AdmissionDecision;
  ap_reason : FailureReason;
  policy_name : option string;
  match_code : Z
}.

(** The default-constructed result accepts. *)
Definition admission_accept : AdmissionPolicyResult :=
  mkAdmission AD_Accept FR_RejectedByPolicy None 0.
Definition admission_refuse (d : AdmissionDecision) (name : string) (code : Z)
  : AdmissionPolicyResult :=
  mkAdmission d FR_RejectedByPolicy (Some name) code.

(** [MailboxEnvelopeMeta]: the fields the mailbox and the policies read. *)
Record MailboxEnvelopeMeta := mkMeta {
  meta_sender : Z;               (* sender.id.value() *)
  meta_type_tag : Z;
  meta_priority : Z;             (* uint8_t, 0 = highest *)
  meta_deadline_ns : Z;          (* int64_t *)
  meta_estimated_bytes : Z;
  meta_schedule_edf : bool
}.

Definition meta_default : MailboxEnvelopeMeta := mkMeta 0 0 0 INT64_MAX 0 false.
Definition meta_with_bytes (m : MailboxEnvelopeMeta) (bytes : Z) : MailboxEnvelopeMeta :=
  mkMeta (meta_sender m) (meta_type_tag m) (meta_priority m) (meta_deadline_ns m) bytes
    (meta_schedule_edf m).

Definition type_filter_evaluate (allowed blocked : gset Z) (meta : MailboxEnvelopeMeta)
  : AdmissionPolicyResult :=
  let tag := u32 (meta_type_tag meta) in
  if bool_decide (tag ∈ blocked) then admission_refuse AD_Reject "type_filter" 0
  else if negb (bool_decide (allowed = ∅)) && negb (bool_decide (tag ∈ allowed))
  then admission_refuse AD_Reject "type_filter" 0
  else admission_accept.

Definition sender_filter_evaluate (blocked : gset Z) (meta : MailboxEnvelopeMeta)
  : AdmissionPolicyResult :=
  if bool_decide (meta_sender meta ∈ blocked) then admission_refuse AD_Reject "sender_filter" 0
  else admission_accept.

Definition size_limit_evaluate (max_bytes : Z) (dlq_on_reject : bool)
    (meta : MailboxEnvelopeMeta) : AdmissionPolicyResult :=
  if max_bytes <? meta_estimated_bytes meta
  then admission_refuse (if dlq_on_reject then AD_RerouteToDLQ else AD_Reject) "size_limit" 0
  else admission_accept.

Definition priority_threshold_evaluate (min_priority : Z) (dlq_on_reject : bool)
    (meta : MailboxEnvelopeMeta) : AdmissionPolicyResult :=
  if meta_priority meta <? min_priority
  then admission_refuse (if dlq_on_reject then AD_RerouteToDLQ else AD_Reject)
         "priority_threshold" 0
  else admission_accept.

Record PerSenderRatePolicy := mkPerSender {
  ps_rate_per_sec : double;
  ps_burst : Z;
  ps_max_senders : Z;               (* uint32_t *)
  buckets : gmap Z ActorRateLimiter
}.

(** [max_purge_threshold_(max_senders * 2)], in 32 bits. *)
Definition max_purge_threshold (p : PerSenderRatePolicy) : Z := u32 (ps_max_senders p * 2).

Section Policies.
(** The order in which [buckets_] is iterated. *)
Context (iteration_order : gmap Z ActorRateLimiter -> list Z).

Definition set_buckets (p : PerSenderRatePolicy) (b : gmap Z ActorRateLimiter) :=
  mkPerSender (ps_rate_per_sec p) (ps_burst p) (ps_max_senders p) b.

Definition bucket_count (b : gmap Z ActorRateLimiter) : Z := Z.of_nat (size b).

(** [maybe_purge_stale]: erase a quarter of [max_senders], at least one, in
    iteration order. *)
Definition maybe_purge_stale (p : PerSenderRatePolicy) : PerSenderRatePolicy :=
  let q := ps_max_senders p / 4 in
  let target_remove := if q =? 0 then 1 else q in
  set_buckets p
    (foldl (fun b k => delete k b) (buckets p)
       (take (Z.to_nat target_remove) (iteration_order (buckets p)))).

(** [PerSenderRatePolicy::evaluate]. *)
Definition per_sender_evaluate (p : PerSenderRatePolicy) (now : Z) (meta : MailboxEnvelopeMeta)
  : AdmissionPolicyResult * PerSenderRatePolicy :=
  let key := meta_sender meta in
  let consume (p : PerSenderRatePolicy) (l : ActorRateLimiter) :=
    let '(ok, l') := try_consume l now in
    (if ok then admission_accept else admission_refuse AD_Reject "per_sender_rate" 2,
     set_buckets p (<[key:=l']> (buckets p))) in
  match buckets p !! key with
  | Some l => consume p l
  | None =>
      let p1 := if max_purge_threshold p <=? bucket_count (buckets p)
                then maybe_purge_stale p else p in
      if ps_max_senders p1 <=? bucket_count (buckets p1)
      then (admission_refuse AD_Reject "per_sender_rate" 1, p1)
      else consume p1 (configure limiter_init (ps_rate_per_sec p1) (ps_burst p1))
  end.

(** The policies of the repository behind [IAdmissionPolicy]. *)
Inductive IAdmissionPolicy :=
| TypeFilterPolicy (allowed blocked : gset Z)
| SenderFilterPolicy (blocked : gset Z)
| SizeLimitPolicy (max_bytes : Z) (dlq_on_reject : bool)
| PriorityThresholdPolicy (min_priority : Z) (dlq_on_reject : bool)
| PerSenderRate (p : PerSenderRatePolicy).

Definition evaluate (p : IAdmissionPolicy) (now : Z) (meta : MailboxEnvelopeMeta)
  : AdmissionPolicyResult * IAdmissionPolicy :=
  match p with
  | TypeFilterPolicy a b => (type_filter_evaluate a b meta, p)
  | SenderFilterPolicy b => (sender_filter_evaluate b meta, p)
  | SizeLimitPolicy n d => (size_limit_evaluate n d meta, p)
  | PriorityThresholdPolicy n d => (priority_threshold_evaluate n d meta, p)
  | PerSenderRate ps =>
      let '(r, ps') := per_sender_evaluate ps now meta in (r, PerSenderRate ps')
  end.

(** [MPSCActorMailbox::evaluate_policy_chain]. *)
Fixpoint evaluate_policy_chain (ps : list IAdmissionPolicy) (now : Z)
    (meta : MailboxEnvelopeMeta) : AdmissionPolicyResult * list IAdmissionPolicy :=
  match ps with
  | [] => (admission_accept, [])
  | p :: rest =>
      let '(r, p') := evaluate p now meta in
      if bool_decide (decision r = AD_Accept) then
        let '(r', rest') := evaluate_policy_chain rest now meta in (r', p' :: rest')
      else (r, p' :: rest)
  end.

(** A sequence of evaluations of one per-sender policy. *)
Definition per_sender_run (p : PerSenderRatePolicy) (reqs : list (Z * MailboxEnvelopeMeta))
  : PerSenderRatePolicy :=
  foldl (fun p '(now, meta) => (per_sender_evaluate p now meta).2) p reqs.

(** ** Chain *)

(** The chain accepts when every policy accepts; otherwise it returns the
    refusal of the first policy that refuses, and the policies behind it keep
    their state. *)
Lemma evaluate_policy_chain_spec ps now meta :
  let '(r, ps') := evaluate_policy_chain ps now meta in
  (r = admission_accept /\
   Forall2 (fun p p' => exists r0, evaluate p now meta = (r0, p') /\ decision r0 = AD_Accept)
     ps ps') \/
  (exists pre p post pre' p', ps = pre ++ p :: post /\ ps' = pre' ++ p' :: post /\
     evaluate p now meta = (r, p') /\ decision r <> AD_Accept /\
     Forall2 (fun p p' => exists r0, evaluate p now meta = (r0, p') /\ decision r0 = AD_Accept)
       pre pre').
Proof.
  induction ps as [|p ps IH]; simpl; [left; by split|].
  destruct (evaluate p now meta) as [r p'] eqn:E. case_bool_decide as Hd.
  - destruct (evaluate_policy_chain ps now meta) as [r' ps'].
    destruct IH as [[-> IH]|(pre & q & post & pre' & q' & -> & -> & He & Hne & Hf)].
    + left. split; [done|]. constructor; [eauto|done].
    + right. exists (p :: pre), q, post, (p' :: pre'), q'.
      repeat split; try done. constructor; [eauto|done].
  - right. exists [], p, ps, [], p'. repeat split; done.
Qed.

(** ** The per-sender table *)

Lemma foldl_delete_size (b : gmap Z ActorRateLimiter) ks :
  (size (foldl (fun b k => delete k b) b ks) <= size b)%nat.
Proof.
  revert b. induction ks as [|k ks IH]; intros b; simpl; [done|].
  etrans; [apply IH|]. destruct (b !! k) eqn:E.
  - rewrite map_size_delete_Some by eauto. lia.
  - by rewrite map_size_delete_None.
Qed.

Lemma per_sender_evaluate_size p now meta :
  bucket_count (buckets p) <= ps_max_senders p ->
  let p' := (per_sender_evaluate p now meta).2 in
  ps_max_senders p' = ps_max_senders p /\ bucket_count (buckets p') <= ps_max_senders p.
Proof.
  intros Hsz. unfold per_sender_evaluate, bucket_count in *.
  destruct (buckets p !! meta_sender meta) as [l|] eqn:E; simpl.
  - destruct (try_consume l now) as [ok l']. simpl. split; [done|].
    rewrite map_size_insert_Some by eauto. done.
  - set (p1 := if max_purge_threshold p <=? _ then maybe_purge_stale p else p).
    assert (Hp1 : ps_max_senders p1 = ps_max_senders p /\
                  (size (buckets p1) <= size (buckets p))%nat).
    { unfold p1. destruct (_ <=? _); simpl; [|done].
      split; [done|]. apply foldl_delete_size. }
    destruct Hp1 as [Hpm Hp1]. clearbody p1.
    destruct (_ <=? _) eqn:E1; bool_to_prop; simpl; [split; [done|lia]|].
    destruct (try_consume _ _) as [ok l']. simpl. split; [done|].
    destruct (buckets p1 !! meta_sender meta) eqn:E2.
    + rewrite map_size_insert_Some by eauto. lia.
    + rewrite map_size_insert_None by done. lia.
Qed.

(** Below twice the table size nothing is purged, so an evaluation touches
    the sender's own bucket only. *)
Lemma per_sender_evaluate_frame p now meta k :
  0 < ps_max_senders p < 2147483648 -> bucket_count (buckets p) <= ps_max_senders p ->
  k <> meta_sender meta ->
  buckets (per_sender_evaluate p now meta).2 !! k = buckets p !! k.
Proof.
  intros Hm Hsz Hk. unfold per_sender_evaluate, max_purge_threshold.
  rewrite u32_small by lia.
  destruct (ps_max_senders p * 2 <=? bucket_count (buckets p)) eqn:E0; bool_to_prop; [lia|].
  destruct (buckets p !! meta_sender meta) as [l|] eqn:E; simpl.
  - destruct (try_consume l now). simpl. by rewrite lookup_insert_ne.
  - destruct (_ <=? _); simpl; [done|]. destruct (try_consume _ _). simpl.
    by rewrite lookup_insert_ne.
Qed.

Lemma per_sender_evaluate_full p now meta :
  0 < ps_max_senders p < 2147483648 -> bucket_count (buckets p) = ps_max_senders p ->
  dom (buckets (per_sender_evaluate p now meta).2) = dom (buckets p) /\
  (buckets p !! meta_sender meta = None ->
   per_sender_evaluate p now meta = (admission_refuse AD_Reject "per_sender_rate" 1, p)).
Proof.
  intros Hm Hsz. unfold per_sender_evaluate, max_purge_threshold.
  rewrite u32_small by lia.
  destruct (ps_max_senders p * 2 <=? bucket_count (buckets p)) eqn:E0; bool_to_prop; [lia|].
  destruct (buckets p !! meta_sender meta) as [l|] eqn:E; simpl.
  - destruct (try_consume l now). simpl. split; [|done].
    rewrite dom_insert_L. apply elem_of_dom_2 in E. set_solver.
  - rewrite Hsz, Z.leb_refl. by split.
Qed.

Lemma per_sender_run_full p reqs :
  0 < ps_max_senders p < 2147483648 -> bucket_count (buckets p) = ps_max_senders p ->
  let p' := per_sender_run p reqs in
  ps_max_senders p' = ps_max_senders p /\ dom (buckets p') = dom (buckets p) /\
  bucket_count (buckets p') = ps_max_senders p.
Proof.
  revert p. induction reqs as [|[now meta] reqs IH]; intros p Hm Hsz; simpl; [done|].
  destruct (per_sender_evaluate_full p now meta Hm Hsz) as [Hd _].
  destruct (per_sender_evaluate_size p now meta ltac:(lia)) as [Hmx _].
  set (p1 := (per_sender_evaluate p now meta).2) in *.
  assert (Hc : bucket_count (buckets p1) = ps_max_senders p1).
  { unfold bucket_count in *. rewrite <- size_dom, Hd, size_dom. lia. }
  destruct (IH p1 ltac:(lia) Hc) as (-> & -> & ->). done.
Qed.
End Policies.

(** Per-sender rate limiting.  Whatever the requests, the table never holds
    more than [max_senders] buckets; an evaluation changes no other sender's
    bucket; and once the table is full it stays so: its key set never changes
    again and every sender outside it is refused with match code 1. *)
Theorem per_sender_policy (order : gmap Z ActorRateLimiter -> list Z)
    (rate : double) (b max : Z) (Hmax : 0 < max < 2147483648)
    (reqs : list (Z * MailboxEnvelopeMeta)) :
  let p := per_sender_run order (mkPerSender rate b max ∅) reqs in
  bucket_count (buckets p) <= max /\
  (forall now meta k, k <> meta_sender meta ->
     buckets (per_sender_evaluate order p now meta).2 !! k = buckets p !! k) /\
  (bucket_count (buckets p) = max ->
   forall later now meta, buckets p !! meta_sender meta = None ->
     let p' := per_sender_run order p later in
     dom (buckets p') = dom (buckets p) /\
     per_sender_evaluate order p' now meta
       = (admission_refuse AD_Reject "per_sender_rate" 1, p')).
Proof.
  assert (H : ps_max_senders (per_sender_run order (mkPerSender rate b max ∅) reqs) = max /\
              bucket_count (buckets (per_sender_run order (mkPerSender rate b max ∅) reqs)) <= max).
  { assert (H0 : ps_max_senders (mkPerSender rate b max ∅) = max /\
                 bucket_count (buckets (mkPerSender rate b max ∅)) <= max) 
      by (unfold bucket_count; simpl; rewrite map_size_empty; split; [done|lia]).
    revert H0. generalize (mkPerSender rate b max ∅).
    induction reqs as [|[now meta] reqs IH]; intros p [Hp Hs]; simpl; [done|].
    apply IH. rewrite <- Hp in *. by apply per_sender_evaluate_size. }
  intros p. destruct H as [Hp Hs]. fold p in Hp, Hs. split; [done|]. split.
  - intros. apply per_sender_evaluate_frame; [by rewrite Hp|by rewrite Hp|done].
  - intros Hfull later now meta Hnone.
    destruct (per_sender_run_full order p later) as (Hm' & Hd' & Hc'); [by rewrite Hp|by rewrite Hp|].
    split; [done|]. apply per_sender_evaluate_full; [lia|lia|].
    apply not_elem_of_dom. rewrite Hd'. by apply not_elem_of_dom.
Qed.

Lemma per_sender_policy_witness :
  per_sender_evaluate (fun _ => []) (per_sender_run (fun _ => [])
     (mkPerSender (double_of_Z 10) 5 1 ∅) [(1000, mkMeta 7 4096 0 INT64_MAX 0 false)])
     2000 (mkMeta 8 4096 0 INT64_MAX 0 false)
  = (admission_refuse AD_Reject "per_sender_rate" 1,
     per_sender_run (fun _ => [])
       (mkPerSender (double_of_Z 10) 5 1 ∅) [(1000, mkMeta 7 4096 0 INT64_MAX 0 false)]).
Proof.
  refine (proj2 (proj2 (proj2 (per_sender_policy (fun _ => []) (double_of_Z 10) 5 1 _
     [(1000, mkMeta 7 4096 0 INT64_MAX 0 false)])) _ [] 2000
     (mkMeta 8 4096 0 INT64_MAX 0 false) _)); [lia|vm_compute; reflexivity|vm_compute; reflexivity].
Defined.
