(* ===== verification/Mailbox.v ===== *)
(** * The actor mailbox

    [mailbox/mpsc_actor_mailbox.hpp] and the overflow handlers under
    [mailbox/detail/handlers].  The mailbox composes the reservation manager,
    the pressure machine, the priority lanes, the overflow queue, the rate
    limiter and the admission chain.  Every public operation is one function of
    the mailbox state; the calls it makes to the scheduler are appended to
    [wakeups].  The clock is an argument, [FAULT_INJECT] blocks are the
    disarmed branch, metric and log emission is omitted. *)

From S2P Require Import Prelude DeliveryTypes Pressure Reservation Lanes Admission.
From stdpp Require Import base numbers list gmap.

#[local] Open Scope Z_scope.

(** What the mailbox asks of its message type: whether [type_id()] is a system
    tag, and the byte estimate. *)
Class MailboxNode (T : Type) := {
  node_is_system : T -> bool;
  estimate_node_bytes : T -> Z
}.

(** [TypedMessage]: the estimate is the header plus the payload. *)
Record TypedMessage := mkTyped { type_id : Z; payload_size : Z; body : Z }.
Definition estimate_message_bytes (sizeof_TypedMessage : Z) (msg : TypedMessage) : Z :=
  u64 (sizeof_TypedMessage + payload_size msg).
Definition typed_node (sizeof_TypedMessage : Z) : MailboxNode TypedMessage := {|
  node_is_system m := is_system_message (type_id m);
  estimate_node_bytes := estimate_message_bytes sizeof_TypedMessage
|}.

(** The cumulative counters. *)
Inductive Counter :=
| total_enqueued | total_dequeued | total_rejected | total_dropped | total_dead_letters
| admission_rejected_total | delivery_accepted_total | delivery_rejected_total
| delivery_failed_total | delivery_retryable_total.

#[export] Instance Counter_eq_dec : EqDecision Counter.
Proof. solve_decision. Defined.

Definition Counters : Type := Counter -> Z.
Definition bump (c : Counters) (k : Counter) : Counters :=
  fun j => if bool_decide (j = k) then u64 (c j + 1) else c j.

(** The calls the mailbox makes on its empty to non-empty edge. *)
Inductive Wakeup :=
| ContinuationCallback
| NotifyReadyEdf (actor priority deadline_ns : Z)
| NotifyReadyFast (actor priority deadline_ns : Z)
| NotifyReady (actor : Z).

Section Mailbox.
Context {T : Type} `{MailboxNode T}.
Context (iteration_order : gmap Z ActorRateLimiter -> list Z).

Record Mailbox := mkMailbox {
  actor_id : Z;
  config : MailboxConfig;
  reservation : ReservationManager;
  pressure_state : MailboxPressureState;
  signal_gate : BackpressureSignalGate.Gate;
  lanes : MultiLaneQueue T;
  overflow_queue : @OverflowQueue T;
  mailbox_was_empty : bool;
  rate_limiter : option ActorRateLimiter;
  admission_policies : list IAdmissionPolicy;
  has_continuation : bool;
  counters : Counters;
  max_depth : Z;                    (* uint64_t *)
  system_lane_bytes : Z;            (* uint64_t *)
  system_lane_reserved : Z;         (* uint32_t *)
  wakeups : list Wakeup
}.

(** Field updates. *)
Definition set_mb_config m x := mkMailbox (actor_id m) x (reservation m) (pressure_state m) (signal_gate m) (lanes m) (overflow_queue m) (mailbox_was_empty m) (rate_limiter m) (admission_policies m) (has_continuation m) (counters m) (max_depth m) (system_lane_bytes m) (system_lane_reserved m) (wakeups m).
Definition set_reservation m x := mkMailbox (actor_id m) (config m) x (pressure_state m) (signal_gate m) (lanes m) (overflow_queue m) (mailbox_was_empty m) (rate_limiter m) (admission_policies m) (has_continuation m) (counters m) (max_depth m) (system_lane_bytes m) (system_lane_reserved m) (wakeups m).
Definition set_pressure m x := mkMailbox (actor_id m) (config m) (reservation m) x (signal_gate m) (lanes m) (overflow_queue m) (mailbox_was_empty m) (rate_limiter m) (admission_policies m) (has_continuation m) (counters m) (max_depth m) (system_lane_bytes m) (system_lane_reserved m) (wakeups m).
Definition set_gate m x := mkMailbox (actor_id m) (config m) (reservation m) (pressure_state m) x (lanes m) (overflow_queue m) (mailbox_was_empty m) (rate_limiter m) (admission_policies m) (has_continuation m) (counters m) (max_depth m) (system_lane_bytes m) (system_lane_reserved m) (wakeups m).
Definition set_mb_lanes m x := mkMailbox (actor_id m) (config m) (reservation m) (pressure_state m) (signal_gate m) x (overflow_queue m) (mailbox_was_empty m) (rate_limiter m) (admission_policies m) (has_continuation m) (counters m) (max_depth m) (system_lane_bytes m) (system_lane_reserved m) (wakeups m).
Definition set_overflow m x := mkMailbox (actor_id m) (config m) (reservation m) (pressure_state m) (signal_gate m) (lanes m) x (mailbox_was_empty m) (rate_limiter m) (admission_policies m) (has_continuation m) (counters m) (max_depth m) (system_lane_bytes m) (system_lane_reserved m) (wakeups m).
Definition set_was_empty m x := mkMailbox (actor_id m) (config m) (reservation m) (pressure_state m) (signal_gate m) (lanes m) (overflow_queue m) x (rate_limiter m) (admission_policies m) (has_continuation m) (counters m) (max_depth m) (system_lane_bytes m) (system_lane_reserved m) (wakeups m).
Definition set_limiter m x := mkMailbox (actor_id m) (config m) (reservation m) (pressure_state m) (signal_gate m) (lanes m) (overflow_queue m) (mailbox_was_empty m) x (admission_policies m) (has_continuation m) (counters m) (max_depth m) (system_lane_bytes m) (system_lane_reserved m) (wakeups m).
Definition set_policies m x := mkMailbox (actor_id m) (config m) (reservation m) (pressure_state m) (signal_gate m) (lanes m) (overflow_queue m) (mailbox_was_empty m) (rate_limiter m) x (has_continuation m) (counters m) (max_depth m) (system_lane_bytes m) (system_lane_reserved m) (wakeups m).
Definition set_counters m x := mkMailbox (actor_id m) (config m) (reservation m) (pressure_state m) (signal_gate m) (lanes m) (overflow_queue m) (mailbox_was_empty m) (rate_limiter m) (admission_policies m) (has_continuation m) x (max_depth m) (system_lane_bytes m) (system_lane_reserved m) (wakeups m).
Definition set_max_depth m x := mkMailbox (actor_id m) (config m) (reservation m) (pressure_state m) (signal_gate m) (lanes m) (overflow_queue m) (mailbox_was_empty m) (rate_limiter m) (admission_policies m) (has_continuation m) (counters m) x (system_lane_bytes m) (system_lane_reserved m) (wakeups m).
Definition set_system_lane m b r := mkMailbox (actor_id m) (config m) (reservation m) (pressure_state m) (signal_gate m) (lanes m) (overflow_queue m) (mailbox_was_empty m) (rate_limiter m) (admission_policies m) (has_continuation m) (counters m) (max_depth m) b r (wakeups m).
Definition set_wakeups m x := mkMailbox (actor_id m) (config m) (reservation m) (pressure_state m) (signal_gate m) (lanes m) (overflow_queue m) (mailbox_was_empty m) (rate_limiter m) (admission_policies m) (has_continuation m) (counters m) (max_depth m) (system_lane_bytes m) (system_lane_reserved m) x.

Definition count (m : Mailbox) (k : Counter) : Mailbox := set_counters m (bump (counters m) k).

(** ** Construction and configuration *)

Definition clamp_capacity (c : MailboxConfig) : MailboxConfig :=
  if max_messages (capacity c) =? 0
  then mkConfig (mkCapacity 1024 (max_bytes (capacity c))) (priority_levels c)
         (overflow_policy c) (high_watermark c) (low_watermark c) (critical_watermark c)
         (protected_system_messages c) (max_overflow_depth c) (signal_min_interval_ms c)
         (priority_aware c)
  else c.

Definition with_critical (c : MailboxConfig) (w : double) : MailboxConfig :=
  mkConfig (capacity c) (priority_levels c) (overflow_policy c) (high_watermark c)
    (low_watermark c) w (protected_system_messages c) (max_overflow_depth c)
    (signal_min_interval_ms c) (priority_aware c).

(** The constructor. *)
Definition mailbox_init (actor : Z) (c : MailboxConfig) (limiter : option ActorRateLimiter)
    (policies : list IAdmissionPolicy) (continuation : bool) : Mailbox :=
  let c := clamp_capacity c in
  mkMailbox actor c reservation_init PS_Normal BackpressureSignalGate.gate_init
    (set_num_user_lanes lanes_init (priority_levels c))
    (oq_init (max_overflow_depth c)) true limiter policies continuation
    (fun _ => 0) 0 0 0 [].

(** [set_config]. *)
Definition set_config (m : Mailbox) (cfg : MailboxConfig) : Mailbox :=
  let c := clamp_capacity cfg in
  let c := if dle (critical_watermark c) (double_of_Z 0)
           then with_critical c
                  (if dgt (high_watermark c) (double_of_Z 0)
                   then dmul (high_watermark c) (double_of_Z 2) else double_of_Z 1)
           else c in
  let c := if dlt (critical_watermark c) (high_watermark c)
           then with_critical c (high_watermark c) else c in
  set_mb_lanes
    (set_overflow (set_mb_config m c) (oq_set_max_depth (overflow_queue m) (max_overflow_depth c)))
    (set_num_user_lanes (lanes m) (priority_levels c)).

(** ** Pressure *)

Definition depth32 (m : Mailbox) : Z := u32 (total_depth (lanes m)).

(** [pressure_ratio]. *)
Definition pressure_ratio (m : Mailbox) : double :=
  let cap := max_messages (capacity (config m)) in
  let user_depth := total_depth (lanes m) - lane_depth (lanes m) kSystemLaneSentinel in
  let depth := u32 (if 0 <? user_depth then user_depth else 0) in
  let count_ratio := if 0 <? cap then ddiv (double_of_Z depth) (double_of_Z cap)
                     else double_of_Z 0 in
  let byte_cap := max_bytes (capacity (config m)) in
  let byte_ratio :=
    if 0 <? byte_cap
    then ddiv (double_of_Z (u64 (queued_bytes (reservation m) + system_lane_bytes m)))
           (double_of_Z byte_cap)
    else double_of_Z 0 in
  if dgt count_ratio byte_ratio then count_ratio else byte_ratio.

(** [update_pressure_state]. *)
Definition update_pressure_state (m : Mailbox) (hard_failure : bool) : Mailbox :=
  set_pressure m
    (PressureStateMachine.next_state (pressure_ratio m) hard_failure (high_watermark (config m))
       (low_watermark (config m)) (critical_watermark (config m)) (pressure_state m)).

(** [update_max_depth]. *)
Definition update_max_depth (m : Mailbox) : Mailbox :=
  let depth := u64 (total_depth (lanes m)) in
  if max_depth m <? depth then set_max_depth m depth else m.

(** [retry_after] as [make_result] and [try_push] derive it. *)
Definition retry_after_for (m : Mailbox) (state : MailboxPressureState) : Z :=
  let base := signal_min_interval_ms (config m) in
  match state with
  | PS_HardPressure => base * 2
  | PS_SoftPressure | PS_Recovering => base
  | PS_Normal => 0
  end.

(** [make_result]. *)
Definition make_result (m : Mailbox) (code : EnqueueResultCode) : EnqueueResult :=
  mkEnqueueResult code (actor_id m) (depth32 m) (max_messages (capacity (config m)))
    (queued_bytes (reservation m)) (max_bytes (capacity (config m))) BR_HighWatermark
    (pressure_state m) (pressure_ratio m) (retry_after_for m (pressure_state m)).

Definition accept_result (m : Mailbox) : EnqueueResult :=
  make_result m (PressureStateMachine.code_after_accept (pressure_state m)).

(** The rejection [try_push] builds for the admission chain and the system
    lane: no reason, no retry hint. *)
Definition plain_rejection (m : Mailbox) : EnqueueResult :=
  mkEnqueueResult EC_Rejected (actor_id m) (depth32 m) (max_messages (capacity (config m)))
    (queued_bytes (reservation m)) (max_bytes (capacity (config m))) BR_HighWatermark
    (pressure_state m) (pressure_ratio m) 0.

(** [route_lane]. *)
Definition route_lane (m : Mailbox) (meta : MailboxEnvelopeMeta) : Z :=
  if is_system_message (meta_type_tag meta) then kSystemLaneSentinel
  else if negb (priority_aware (config m)) then 0
  else Z.min (meta_priority meta) (u8 (num_user_lanes (lanes m) - 1)).

(** ** Enqueue *)

(** The edge-triggered wakeup of [enqueue_reserved]. *)
Definition claim_wakeup (m : Mailbox) (meta : MailboxEnvelopeMeta) : Mailbox :=
  if mailbox_was_empty m then
    let m := set_was_empty m false in
    let cb := if has_continuation m then [ContinuationCallback] else [] in
    let notify :=
      if meta_schedule_edf meta && negb (meta_deadline_ns meta =? INT64_MAX)
      then NotifyReadyEdf (actor_id m) (meta_priority meta) (meta_deadline_ns meta)
      else NotifyReadyFast (actor_id m) (meta_priority meta) (meta_deadline_ns meta) in
    set_wakeups m (wakeups m ++ cb ++ [notify])
  else m.

(** [enqueue_reserved]. *)
Definition enqueue_reserved (m : Mailbox) (node : T) (meta : MailboxEnvelopeMeta)
    (lane_idx : Z) (suppress_wakeup : bool) : Mailbox :=
  let m := set_mb_lanes m (mlq_enqueue (lanes m) node lane_idx) in
  let m := count m total_enqueued in
  let m := update_max_depth m in
  let m := update_pressure_state m false in
  if suppress_wakeup then m else claim_wakeup m meta.

(** ** Eviction *)

Definition mb_empty (m : Mailbox) : bool := mlq_empty (lanes m).

(** Common tail of the two drop functions: account for the evicted node and
    stage it for deferred destruction. *)
Definition finish_drop (m : Mailbox) (node : T) (q : MultiLaneQueue T) : Mailbox :=
  let m := set_mb_lanes m q in
  let m := set_reservation m (release (reservation m) (estimate_node_bytes node)) in
  let m := count m total_dropped in
  let m := update_pressure_state m false in
  let m := if mb_empty m then set_was_empty m true else m in
  let q := lanes m in
  set_mb_lanes m (mkLanes (system_lane q) (user_lanes q) (num_user_lanes q)
                    (set_pending_free (pending q) node).2).

Definition drop_one_oldest_global (m : Mailbox) : bool * Mailbox :=
  match try_drop_oldest_user_lane (lanes m) with
  | None => (false, m)
  | Some (node, q) => (true, finish_drop m node q)
  end.

Definition drop_one_lowest_priority (m : Mailbox) : bool * Mailbox :=
  match try_drop_from_lowest_user_lane (lanes m) with
  | None => (false, m)
  | Some (node, q) => (true, finish_drop m node q)
  end.

(** ** Overflow handlers *)

(** The values [OverflowContext] captures by copy. *)
Record OverflowContext := mkContext { current_depth : Z; current_bytes : Z }.

Definition reason_of (reason : ReservationResult) : BackpressureReason :=
  match reason with RR_ByteCapacity => BR_ByteCapacity | _ => BR_HardCapacity end.

Definition build_result (m : Mailbox) (ctx : OverflowContext) (code : EnqueueResultCode)
    (reason : BackpressureReason) (retry_after : Z) : EnqueueResult :=
  mkEnqueueResult code (actor_id m) (current_depth ctx) (max_messages (capacity (config m)))
    (current_bytes ctx) (max_bytes (capacity (config m))) reason PS_Normal (double_of_Z 0)
    retry_after.

Definition reject_newest_handle (m : Mailbox) (ctx : OverflowContext) (reason : ReservationResult)
  : EnqueueResult * Mailbox :=
  (build_result m ctx EC_Rejected (reason_of reason) 0, count m total_rejected).

Definition drop_newest_handle (m : Mailbox) (ctx : OverflowContext) : EnqueueResult * Mailbox :=
  (build_result m ctx EC_DroppedNewest BR_OverflowPolicy 0, count m total_dropped).

Definition drop_oldest_handle (m : Mailbox) (ctx : OverflowContext) (reason : ReservationResult)
  : EnqueueResult * Mailbox :=
  let '(dropped, m) := drop_one_oldest_global m in
  if dropped then (build_result m ctx EC_DroppedExisting BR_OverflowPolicy 0, m)
  else (build_result m ctx EC_Rejected (reason_of reason) 0, count m total_rejected).

Definition drop_lowest_priority_handle (m : Mailbox) (ctx : OverflowContext)
    (reason : ReservationResult) : EnqueueResult * Mailbox :=
  let '(dropped, m) := drop_one_lowest_priority m in
  if dropped then (build_result m ctx EC_DroppedExisting BR_OverflowPolicy 0, m)
  else (build_result m ctx EC_Rejected (reason_of reason) 0, count m total_rejected).

Definition dead_letter_handle (m : Mailbox) (ctx : OverflowContext) : EnqueueResult * Mailbox :=
  (build_result m ctx EC_ReroutedToDeadLetter BR_OverflowPolicy 0, count m total_dead_letters).

Definition signal_only_handle (m : Mailbox) (ctx : OverflowContext) (reason : ReservationResult)
  : EnqueueResult * Mailbox :=
  (build_result m ctx EC_Rejected (reason_of reason) (signal_min_interval_ms (config m)),
   count m total_rejected).

Definition spill_to_overflow_handle (m : Mailbox) (msg : T) (ctx : OverflowContext)
    (reason : ReservationResult) : EnqueueResult * Mailbox :=
  let '(pushed, oq) := oq_try_push (overflow_queue m) msg in
  if pushed then (build_result m ctx EC_ReroutedToOverflow (reason_of reason) 0, set_overflow m oq)
  else (build_result m ctx EC_Rejected (reason_of reason) 0, count m total_rejected).

(** [make_overflow_handler] followed by [handle]. *)
Definition overflow_handle (policy : OverflowPolicy) (m : Mailbox) (msg : T)
    (ctx : OverflowContext) (reason : ReservationResult) : EnqueueResult * Mailbox :=
  match policy with
  | OP_RejectNewest => reject_newest_handle m ctx reason
  | OP_DropNewest => drop_newest_handle m ctx
  | OP_DropOldest => drop_oldest_handle m ctx reason
  | OP_DeadLetter => dead_letter_handle m ctx
  | OP_SignalOnly => signal_only_handle m ctx reason
  | OP_SpillToOverflowQueue => spill_to_overflow_handle m msg ctx reason
  | OP_DropLowestPriority => drop_lowest_priority_handle m ctx reason
  | OP_BlockWhenAllowed => reject_newest_handle m ctx reason
  end.

(** ** Producer operations *)

Definition reserve (m : Mailbox) (bytes : Z) : ReservationResult * Mailbox :=
  let '(res, r) := try_reserve (reservation m) bytes (max_messages (capacity (config m)))
                     (max_bytes (capacity (config m))) in
  (res, set_reservation m r).

(** The system-lane branch of [try_push]. *)
Definition push_system (m : Mailbox) (msg : T) (meta : MailboxEnvelopeMeta)
  : EnqueueResult * Mailbox :=
  let cur := system_lane_reserved m in
  if protected_system_messages (config m) <=? cur then
    let m := update_pressure_state m true in
    let m := count m total_rejected in
    (plain_rejection m, m)
  else
    let m := set_system_lane m (u64 (system_lane_bytes m + meta_estimated_bytes meta))
               (u32 (cur + 1)) in
    let m := enqueue_reserved m msg meta kSystemLaneSentinel false in
    (accept_result m, m).

(** The result of a handler, completed by [try_push]. *)
Definition complete_result (m : Mailbox) (r : EnqueueResult) (code : EnqueueResultCode)
  : EnqueueResult :=
  mkEnqueueResult code (er_target r) (er_depth r) (er_capacity r) (er_bytes r)
    (er_byte_capacity r) (er_pressure_reason r) (pressure_state m) (pressure_ratio m)
    (if er_retry_after r =? 0 then retry_after_for m (pressure_state m) else er_retry_after r).

(** The overflow path of [try_push]: the handler, and one more reservation
    when it evicted a message. *)
Definition push_overflow (m : Mailbox) (msg : T) (meta : MailboxEnvelopeMeta) (lane : Z)
    (res : ReservationResult) : EnqueueResult * Mailbox :=
  let m := update_pressure_state m true in
  let ctx := mkContext (depth32 m) (queued_bytes (reservation m)) in
  let '(result, m) := overflow_handle (overflow_policy (config m)) m msg ctx res in
  match er_code result with
  | EC_DroppedExisting =>
      let '(res2, m2) := reserve m (meta_estimated_bytes meta) in
      match res2 with
      | RR_Reserved =>
          let m2 := enqueue_reserved m2 msg meta lane false in (accept_result m2, m2)
      | _ =>
          (complete_result m result EC_Rejected,
           update_pressure_state (count m2 total_rejected) true)
      end
  | code => (complete_result m result code, m)
  end.

(** The user branch of [try_push], from the reservation on. *)
Definition push_user (m : Mailbox) (msg : T) (meta : MailboxEnvelopeMeta) (lane : Z)
  : EnqueueResult * Mailbox :=
  let '(res, m) := reserve m (meta_estimated_bytes meta) in
  match res with
  | RR_Reserved =>
      let m := enqueue_reserved m msg meta lane false in (accept_result m, m)
  | _ => push_overflow m msg meta lane res
  end.

(** [try_push]. *)
Definition try_push (m : Mailbox) (now_ns : Z) (msg : T) (meta : MailboxEnvelopeMeta)
  : EnqueueResult * Mailbox :=
  let meta := meta_with_bytes meta (estimate_node_bytes msg) in
  let '(adm, policies) := evaluate_policy_chain iteration_order (admission_policies m) now_ns meta in
  let m := set_policies m policies in
  if negb (bool_decide (decision adm = AD_Accept)) then
    let m := count m admission_rejected_total in (plain_rejection m, m)
  else
    let lane := route_lane m meta in
    if lane =? kSystemLaneSentinel then push_system m msg meta
    else push_user m msg meta lane.

(** [push]: [try_push] with default metadata, the result discarded. *)
Definition push (m : Mailbox) (now_ns : Z) (msg : T) : Mailbox :=
  (try_push m now_ns msg meta_default).2.

(** The fallback loop of [try_push_batch]: push one by one, keep the last
    result. *)
Fixpoint push_each (m : Mailbox) (now_ns : Z) (msgs : list T) (meta : MailboxEnvelopeMeta)
    (last : EnqueueResult) : EnqueueResult * Mailbox :=
  match msgs with
  | [] => (last, m)
  | x :: xs => let '(r, m) := try_push m now_ns x meta in push_each m now_ns xs meta r
  end.

Fixpoint enqueue_batch (m : Mailbox) (msgs : list T) (meta : MailboxEnvelopeMeta) (lane : Z)
    (first : bool) : Mailbox :=
  match msgs with
  | [] => m
  | x :: xs => enqueue_batch (enqueue_reserved m x meta lane (negb first)) xs meta lane false
  end.

(** [try_push_batch]. *)
Definition try_push_batch (m : Mailbox) (now_ns : Z) (msgs : list T) (meta : MailboxEnvelopeMeta)
  : EnqueueResult * Mailbox :=
  let total_bytes := foldl (fun t x => u64 (t + estimate_node_bytes x)) 0 msgs in
  match msgs with
  | [] => (accept_result m, m)
  | _ =>
      let meta := meta_with_bytes meta total_bytes in
      let '(res, m) := reserve m total_bytes in
      match res with
      | RR_Reserved =>
          let m := enqueue_batch m msgs meta (route_lane m meta) true in (accept_result m, m)
      | _ =>
          let m := update_pressure_state m true in
          push_each m now_ns msgs meta EnqueueResult_default
      end
  end.

(** [enqueue(T* node)]. *)
Definition enqueue (m : Mailbox) (node : T) : Mailbox :=
  let bytes := estimate_node_bytes node in
  let '(res, m) := reserve m bytes in
  match res with
  | RR_Reserved => enqueue_reserved m node (meta_with_bytes meta_default bytes) 0 false
  | _ => count (update_pressure_state m true) total_rejected
  end.

(** ** Consumer operations *)

(** The loop of [drain_overflow]; one message leaves the overflow queue per
    iteration, so its length plus one bounds the iterations. *)
Fixpoint drain_loop (fuel : nat) (m : Mailbox) : Mailbox :=
  match fuel with
  | O => m
  | S fuel =>
      match oq_try_pop (overflow_queue m) with
      | (None, _) => m
      | (Some msg, oq) =>
          let m := set_overflow m oq in
          let bytes := estimate_node_bytes msg in
          let '(res, m) := reserve m bytes in
          match res with
          | RR_Reserved =>
              drain_loop fuel
                (enqueue_reserved m msg (meta_with_bytes meta_default bytes) 0 true)
          | _ =>
              let '(pushed, oq) := oq_try_push (overflow_queue m) msg in
              if pushed then set_overflow m oq else count m total_dropped
          end
      end
  end.

Definition drain_overflow (m : Mailbox) : Mailbox :=
  if bool_decide (overflow_policy (config m) = OP_SpillToOverflowQueue)
  then drain_loop (S (length (oq_queue (overflow_queue m)))) m
  else m.

(** The self-notification after the consumer lock is released. *)
Definition self_notify (m : Mailbox) : Mailbox :=
  if negb (mlq_empty (lanes m)) && mailbox_was_empty m
  then set_wakeups (set_was_empty m false) (wakeups m ++ [NotifyReady (actor_id m)])
  else m.

(** The part of [dequeue] after the rate-limiter gate, on a message. *)
Definition consume_node (m : Mailbox) (node : T) : Mailbox :=
  let bytes := estimate_node_bytes node in
  let m := if node_is_system node
           then set_system_lane m (u64 (system_lane_bytes m - bytes))
                  (u32 (system_lane_reserved m - 1))
           else set_reservation m (release (reservation m) bytes) in
  let m := count m total_dequeued in
  let m := update_pressure_state m false in
  let m := if negb (mb_empty m) then set_was_empty m false else m in
  self_notify (drain_overflow m).

(** The rate-limiter gate: [false] when the token is denied. *)
Definition rate_gate (m : Mailbox) (now_ns : Z) (node : T) : bool * Mailbox :=
  match rate_limiter m with
  | Some l =>
      if node_is_system node then (true, m)
      else let '(ok, l') := try_consume l now_ns in (ok, set_limiter m (Some l'))
  | None => (true, m)
  end.

(** [dequeue]. *)
Definition dequeue (m : Mailbox) (now_ns : Z) : option T * Mailbox :=
  let m := set_was_empty m true in
  match mlq_dequeue (lanes m) with
  | None => (None, self_notify m)
  | Some (node, q) =>
      let m := set_mb_lanes m q in
      let '(ok, m) := rate_gate m now_ns node in
      if ok then (Some node, consume_node m node)
      else (None, set_was_empty (enqueue_reserved m node meta_default 0 true) false)
  end.

(** [try_pop]: [dequeue], then stage the node for deferred destruction. *)
Definition try_pop (m : Mailbox) (now_ns : Z) : option T * Mailbox :=
  match dequeue m now_ns with
  | (None, m) => (None, m)
  | (Some node, m) =>
      let q := lanes m in
      (Some node, set_mb_lanes m (mkLanes (system_lane q) (user_lanes q) (num_user_lanes q)
                                    (set_pending_free (pending q) node).2))
  end.

(** [inject_for_test]. *)
Definition inject_for_test (m : Mailbox) (node : T) : Mailbox :=
  let bytes := estimate_node_bytes node in
  let sys := node_is_system node in
  let m := if sys then set_system_lane m (u64 (system_lane_bytes m + bytes)) (system_lane_reserved m)
           else set_reservation m (inject_count (reservation m) bytes) in
  let m := count m total_enqueued in
  let m := set_mb_lanes m (mlq_enqueue (lanes m) node (if sys then kSystemLaneSentinel else 0)) in
  set_was_empty m false.

(** [record_delivery_result]. *)
Definition record_delivery_result (m : Mailbox) (status : DeliveryStatus) : Mailbox :=
  if is_accepted status then count m delivery_accepted_total
  else count (count m delivery_rejected_total)
         (if is_retryable status then delivery_retryable_total else delivery_failed_total).

(** [try_acquire_backpressure_signal]. *)
Definition try_acquire_backpressure_signal (m : Mailbox) (now_ns : Z)
    (state : MailboxPressureState) (force : bool) : option Z * Mailbox :=
  let '(r, g) := BackpressureSignalGate.try_acquire (signal_gate m) now_ns state
                   (signal_min_interval_ms (config m)) force in
  (r, set_gate m g).
End Mailbox.
Arguments Mailbox : clear implicits.
