(* ===== verification/MailboxInv.v ===== *)
(** * The mailbox invariant

    The reservation counters, the system-lane counters and the wakeup flag of
    the mailbox account for the messages in its lanes, through every sequence of
    operations.  Two ghosts make the invariant hold with batches and after a new
    configuration: [extra] counts the messages that batches queued beyond the one
    slot they reserve, and [tight] says that the configuration is the one the
    mailbox was constructed with, so that its bounds hold and its lanes are the
    active ones. *)

From S2P Require Import Prelude DeliveryTypes Pressure Reservation Lanes Admission Mailbox.
From stdpp Require Import base numbers list gmap.

#[local] Open Scope Z_scope.

Section Messages.
Context {T : Type} `{MailboxNode T}.

Definition bytes_of (x : T) : Z := estimate_node_bytes x.
Definition sum_bytes (l : list T) : Z := sum_by bytes_of l.

(** A message whose estimate leaves room for 63-bit arithmetic. *)
Definition sized (x : T) : Prop := 0 <= bytes_of x < 9223372036854775808.
Definition user_msg (x : T) : Prop := node_is_system x = false /\ sized x.
Definition system_msg (x : T) : Prop := node_is_system x = true /\ sized x.

Record config_wf (c : MailboxConfig) : Prop := mkConfigWf {
  cw_messages : 0 < max_messages (capacity c) <= UINT32_MAX;
  cw_bytes : 0 <= max_bytes (capacity c) < 9223372036854775808;
  cw_system : 0 <= protected_system_messages c <= UINT32_MAX
}.

(** The counters [r], [sb], [sr] account for the lanes [q]. *)
Record ledger_ok (extra : Z) (tight : bool) (c : MailboxConfig) (r : ReservationManager) (q : MultiLaneQueue T)
    (oq : list T) (sb sr : Z) : Prop := mkLedger {
  led_lanes : length (user_lanes q) = 8%nat;
  led_num : 1 <= num_user_lanes q <= 8;
  led_user : Forall (Forall user_msg) (user_lanes q);
  led_sys : Forall system_msg (system_lane q);
  led_over : Forall user_msg oq;
  led_count : reserved_messages r = u32 (sum_by zlen (user_lanes q) - extra);
  led_count_max : tight = true ->
                  sum_by zlen (user_lanes q) - extra <= max_messages (capacity c);
  led_bytes : queued_bytes r = u64 (sum_by sum_bytes (user_lanes q));
  led_bytes_max : tight = true -> 0 < max_bytes (capacity c) ->
                  sum_by sum_bytes (user_lanes q) <= max_bytes (capacity c);
  led_sysn : sr = u32 (zlen (system_lane q));
  led_sysn_max : tight = true -> zlen (system_lane q) <= protected_system_messages c;
  led_sysb : sb = u64 (sum_bytes (system_lane q))
}.

Lemma sum_bytes_nonneg (P : T -> Prop) l :
  (forall x, P x -> sized x) -> Forall P l -> 0 <= sum_bytes l.
Proof.
  intros HP. unfold sum_bytes. induction 1 as [|x l Hx _ IH]; [done|]. rewrite sum_by_cons.
  apply HP in Hx. unfold sized in Hx. lia.
Qed.

Lemma user_bytes_nonneg lns : Forall (Forall user_msg) lns -> 0 <= sum_by sum_bytes lns.
Proof.
  induction 1 as [|l lns Hl _ IH]; [done|]. rewrite sum_by_cons.
  pose proof (sum_bytes_nonneg user_msg l ltac:(unfold user_msg; tauto) Hl). lia.
Qed.

(** What [msgs] appended to one user lane does to the sums over the lanes. *)
Lemma lanes_append (lns : list (list T)) (msgs : list T) lane :
  (lane < length lns)%nat ->
  let lns' := alter (fun l => l ++ msgs) lane lns in
  sum_by zlen lns' = sum_by zlen lns + zlen msgs /\
  sum_by sum_bytes lns' = sum_by sum_bytes lns + sum_bytes msgs /\
  (Forall (Forall user_msg) lns -> Forall user_msg msgs -> Forall (Forall user_msg) lns').
Proof.
  intros Hl. split; [|split].
  - apply sum_by_alter; [|done]. intros l. rewrite zlen_app. lia.
  - apply sum_by_alter; [|done]. intros l. unfold sum_bytes. rewrite sum_by_app. lia.
  - intros HU HM. apply Forall_alter; [done|]. intros l Hlk _. apply Forall_app_2; [|done].
    by eapply Forall_lookup_1.
Qed.
End Messages.

#[global] Arguments led_lanes {_ _ _ _ _ _ _ _ _ _}.
#[global] Arguments led_num {_ _ _ _ _ _ _ _ _ _}.
#[global] Arguments led_user {_ _ _ _ _ _ _ _ _ _}.
#[global] Arguments led_sys {_ _ _ _ _ _ _ _ _ _}.
#[global] Arguments led_over {_ _ _ _ _ _ _ _ _ _}.
#[global] Arguments led_count {_ _ _ _ _ _ _ _ _ _}.
#[global] Arguments led_count_max {_ _ _ _ _ _ _ _ _ _}.
#[global] Arguments led_bytes {_ _ _ _ _ _ _ _ _ _}.
#[global] Arguments led_bytes_max {_ _ _ _ _ _ _ _ _ _}.
#[global] Arguments led_sysn {_ _ _ _ _ _ _ _ _ _}.
#[global] Arguments led_sysn_max {_ _ _ _ _ _ _ _ _ _}.
#[global] Arguments led_sysb {_ _ _ _ _ _ _ _ _ _}.

Section Ledger.
Context {T : Type} `{MailboxNode T} {extra : Z} {tight : bool}.
#[local] Notation ledger_at := (ledger_ok extra tight).

Lemma reserved_wf c r q oq sb sr : ledger_at c r q oq sb sr -> reservation_wf r.
Proof.
  intros L. split; [rewrite (led_count L)|rewrite (led_bytes L)].
  - pose proof (u32_range (sum_by zlen (user_lanes q) - extra)). unfold UINT32_MAX. lia.
  - pose proof (u64_range (sum_by sum_bytes (user_lanes q))). unfold UINT64_MAX. lia.
Qed.

(** One slot and the bytes of [msgs] reserved, then all of [msgs] appended to a
    user lane: each message after the first is one that no slot stands for. *)
Lemma ledger_reserve_append c r q oq sb sr msgs r' lane :
  config_wf c -> ledger_at c r q oq sb sr -> Forall user_msg msgs ->
  sum_bytes msgs < 9223372036854775808 -> 0 <= lane < 8 ->
  try_reserve r (sum_bytes msgs) (max_messages (capacity c)) (max_bytes (capacity c))
    = (RR_Reserved, r') ->
  ledger_ok (extra + (zlen msgs - 1)) tight c r'
    (mkLanes (system_lane q) (alter (fun l => l ++ msgs) (Z.to_nat lane) (user_lanes q))
       (num_user_lanes q) (pending q)) oq sb sr.
Proof.
  intros Hc L Hm Hsz Hlane Hr.
  destruct (try_reserve_spec _ _ _ _ _ _ (reserved_wf _ _ _ _ _ _ L) (cw_messages _ Hc) Hr)
    as (Hlt & Hmb & Hcnt & Hq).
  pose proof (led_lanes L) as Hlen. pose proof (user_bytes_nonneg _ (led_user L)) as Hnn.
  pose proof (sum_bytes_nonneg user_msg msgs ltac:(unfold user_msg; tauto) Hm) as Hmn.
  destruct (lanes_append (user_lanes q) msgs (Z.to_nat lane) ltac:(lia)) as (HC & HB & HU).
  pose proof (cw_messages _ Hc) as Hmm. unfold UINT32_MAX in Hmm.
  rewrite (led_count L) in Hlt, Hcnt. set (n := sum_by zlen (user_lanes q) - extra) in *.
  assert (Hn : u32 (n + 1) = u32 n + 1).
  { rewrite <- u32_add_mod. apply u32_small. pose proof (u32_range n). lia. }
  split; cbn [system_lane user_lanes num_user_lanes]; try apply L.
  - by rewrite length_alter.
  - apply HU; [apply L|done].
  - rewrite Hcnt, HC, <- Hn. f_equal. unfold n. lia.
  - intros Ht. pose proof (led_count_max L Ht) as Hmax. fold n in Hmax. rewrite HC.
    enough (n < max_messages (capacity c)) by (unfold n in *; lia).
    destruct (Z.lt_ge_cases n 0); [lia|]. by rewrite u32_small in Hlt by lia.
  - rewrite HB, Hq, (led_bytes L), u64_add_mod. done.
  - intros Ht Hp. rewrite HB. specialize (Hmb Hp). revert Hmb.
    pose proof (led_bytes_max L Ht Hp). pose proof (cw_bytes _ Hc).
    rewrite (led_bytes L), u64_add_mod, u64_small by lia. lia.
Qed.

(** A successful reservation followed by the append to a user lane. *)
Lemma ledger_reserve_enqueue c r q oq sb sr x r' lane :
  config_wf c -> ledger_at c r q oq sb sr -> user_msg x -> 0 <= lane < 8 ->
  try_reserve r (bytes_of x) (max_messages (capacity c)) (max_bytes (capacity c))
    = (RR_Reserved, r') ->
  ledger_at c r' (mlq_enqueue q x lane) oq sb sr.
Proof.
  intros Hc L Hx Hlane Hr. pose proof (ledger_reserve_append c r q oq sb sr [x] r' lane Hc L) as HL.
  unfold mlq_enqueue, kSystemLaneSentinel.
  destruct (lane =? 255) eqn:E; bool_to_prop; [lia|].
  replace extra with (extra + (zlen [x] - 1)) by (unfold zlen; simpl; lia).
  assert (Hs : sum_bytes [x] = bytes_of x)
    by (unfold sum_bytes; rewrite sum_by_cons; unfold sum_by; simpl; lia).
  rewrite Hs in HL. apply HL; try done.
  - by constructor.
  - destruct Hx as [_ Hsz]. unfold sized in Hsz. lia.
Qed.

Lemma try_reserve_refused c r q oq sb sr b res r' :
  config_wf c -> ledger_at c r q oq sb sr ->
  try_reserve r b (max_messages (capacity c)) (max_bytes (capacity c)) = (res, r') ->
  res <> RR_Reserved -> r' = r.
Proof.
  intros Hc L Hr Hne.
  pose proof (try_reserve_spec _ _ _ _ _ _ (reserved_wf _ _ _ _ _ _ L) (cw_messages _ Hc) Hr).
  destruct res; tauto.
Qed.

(** Popping a user lane and releasing the node. *)
Lemma ledger_pop_user c r q oq sb sr order x u p :
  ledger_at c r q oq sb sr ->
  pop_first order (user_lanes q) = Some (x, u) ->
  user_msg x /\
  ledger_at c (release r (bytes_of x)) (mkLanes (system_lane q) u (num_user_lanes q) p) oq sb sr.
Proof.
  intros L Hp.
  destruct (pop_first_Forall _ _ _ _ _ Hp (led_user L)) as [Hx Hu].
  destruct Hx as [Hs Hsz]. split; [done|].
  pose proof (pop_first_sum zlen (fun _ => 1) _ _ _ _ (fun y l => zlen_cons y l) Hp) as HC; simpl in HC.
  pose proof (pop_first_sum sum_bytes bytes_of _ _ _ _ (fun y l => eq_refl) Hp) as HB.
  unfold sized in Hsz.
  unfold release. split; simpl; try apply L.
  - rewrite (pop_first_length _ _ _ _ Hp). apply L.
  - done.
  - rewrite (led_count L), u32_sub_mod. f_equal. lia.
  - intros Ht. pose proof (led_count_max L Ht). lia.
  - rewrite HB, (led_bytes L). destruct (0 <? bytes_of x) eqn:E; bool_to_prop.
    + by rewrite u64_sub_mod.
    + f_equal. lia.
  - intros Ht Hm. pose proof (led_bytes_max L Ht Hm). lia.
Qed.

(** Popping a user message and appending it again, the counters untouched. *)
Lemma ledger_requeue c r q oq sb sr order x u :
  ledger_at c r q oq sb sr ->
  pop_first order (user_lanes q) = Some (x, u) ->
  ledger_at c r (mlq_enqueue (set_lanes q (system_lane q) u) x 0) oq sb sr.
Proof.
  intros L Hp.
  destruct (pop_first_Forall _ _ _ _ _ Hp (led_user L)) as [Hx Hu].
  pose proof (pop_first_sum zlen (fun _ => 1) _ _ _ _ (fun y l => zlen_cons y l) Hp) as HC; simpl in HC.
  pose proof (pop_first_sum sum_bytes bytes_of _ _ _ _ (fun y l => eq_refl) Hp) as HB.
  pose proof (pop_first_length _ _ _ _ Hp) as Hlen. rewrite (led_lanes L) in Hlen.
  destruct (lanes_append u [x] (Z.to_nat 0) ltac:(lia)) as (HC' & HB' & HU').
  assert (HC2 : sum_by zlen (alter (fun l => l ++ [x]) (Z.to_nat 0) u)
                = sum_by zlen (user_lanes q)) by (rewrite HC'; unfold zlen at 2; simpl; lia).
  assert (HB2 : sum_by sum_bytes (alter (fun l => l ++ [x]) (Z.to_nat 0) u)
                = sum_by sum_bytes (user_lanes q)).
  { rewrite HB'. unfold sum_bytes at 2. rewrite sum_by_cons. unfold sum_by at 2. simpl. lia. }
  unfold mlq_enqueue. split; cbn; try apply L.
  - by rewrite length_alter.
  - apply HU'; [done|by constructor].
  - cbn in HC2. rewrite HC2. apply L.
  - cbn in HC2. rewrite HC2. apply L.
  - cbn in HB2. rewrite HB2. apply L.
  - cbn in HB2. rewrite HB2. apply L.
Qed.

(** The system lane. *)
Lemma ledger_push_system c r q oq sb sr x :
  config_wf c -> ledger_at c r q oq sb sr -> system_msg x ->
  (tight = true -> sr < protected_system_messages c) ->
  ledger_at c r (mlq_enqueue q x kSystemLaneSentinel) oq (u64 (sb + bytes_of x)) (u32 (sr + 1)).
Proof.
  intros Hc L Hx Hlt. pose proof (led_sysn L) as Hn.
  split; simpl; try apply L.
  - apply Forall_app_2; [apply L|by apply Forall_singleton].
  - rewrite Hn, u32_add_mod. autorewrite with hpa_rw. f_equal.
  - intros Ht. specialize (Hlt Ht). pose proof (led_sysn_max L Ht). pose proof (cw_system _ Hc).
    pose proof (zlen_nonneg (system_lane q)). unfold UINT32_MAX in *.
    rewrite Hn, u32_small in Hlt by lia. autorewrite with hpa_rw. lia.
  - rewrite (led_sysb L), u64_add_mod. unfold sum_bytes.
    autorewrite with hpa_rw. f_equal. lia.
Qed.

Lemma ledger_pop_system c r q oq sb sr x s :
  ledger_at c r q oq sb sr -> system_lane q = x :: s ->
  system_msg x /\
  ledger_at c r (set_lanes q s (user_lanes q)) oq (u64 (sb - bytes_of x)) (u32 (sr - 1)).
Proof.
  intros L Hq. pose proof (led_sys L) as Hs. rewrite Hq in Hs.
  inversion Hs as [|? ? Hx Hs']; subst. split; [done|].
  split; simpl; try apply L.
  - done.
  - rewrite (led_sysn L), Hq, u32_sub_mod, zlen_cons. f_equal. lia.
  - intros Ht. pose proof (led_sysn_max L Ht) as Hmax. rewrite Hq, zlen_cons in Hmax. lia.
  - rewrite (led_sysb L), Hq, u64_sub_mod. unfold sum_bytes.
    autorewrite with hpa_rw. f_equal. lia.
Qed.

Lemma ledger_pending c r q oq sb sr p :
  ledger_at c r q oq sb sr ->
  ledger_at c r (mkLanes (system_lane q) (user_lanes q) (num_user_lanes q) p) oq sb sr.
Proof. intros L. split; apply L. Qed.

Lemma ledger_overflow c r q oq oq' sb sr :
  ledger_at c r q oq sb sr -> Forall user_msg oq' -> ledger_at c r q oq' sb sr.
Proof. intros L Ho. split; try apply L. done. Qed.
End Ledger.

(** ** Operations *)

Section Operations.
Context {T : Type} `{MailboxNode T} {extra : Z} {tight : bool}.
Context (order : gmap Z ActorRateLimiter -> list Z).
Implicit Types m : Mailbox T.

Definition ledger m : Prop :=
  ledger_ok extra tight (config m) (reservation m) (lanes m) (oq_queue (overflow_queue m))
    (system_lane_bytes m) (system_lane_reserved m).

(** The counters account for the lanes and, while no lane was retired by a new
    configuration, the wakeup flag is armed exactly when the mailbox is empty. *)
Record mailbox_inv m : Prop := mkInv {
  mi_config : config_wf (config m);
  mi_ledger : ledger m;
  mi_flag : tight = true -> mailbox_was_empty m = mb_empty m
}.

(** What an operation does to the mailbox as a whole: it keeps the
    configuration and the invariant, and an empty mailbox that it fills has
    notified the scheduler. *)
Record preserves m m' : Prop := mkPreserves {
  pr_config : config m' = config m;
  pr_inv : mailbox_inv m';
  pr_notify : tight = true -> mb_empty m = true -> mb_empty m' = false ->
              (length (wakeups m) < length (wakeups m'))%nat
}.

Lemma max_depth_fields m :
  let m' := update_max_depth m in
  config m' = config m /\ reservation m' = reservation m /\ lanes m' = lanes m /\
  overflow_queue m' = overflow_queue m /\ system_lane_bytes m' = system_lane_bytes m /\
  system_lane_reserved m' = system_lane_reserved m /\
  mailbox_was_empty m' = mailbox_was_empty m /\ wakeups m' = wakeups m /\
  has_continuation m' = has_continuation m.
Proof. unfold update_max_depth. by destruct (_ <? _). Qed.

Lemma enqueue_reserved_fields m x meta lane s :
  let m' := enqueue_reserved m x meta lane s in
  config m' = config m /\ reservation m' = reservation m /\
  lanes m' = mlq_enqueue (lanes m) x lane /\
  overflow_queue m' = overflow_queue m /\ system_lane_bytes m' = system_lane_bytes m /\
  system_lane_reserved m' = system_lane_reserved m /\
  mailbox_was_empty m' = (if s then mailbox_was_empty m else false) /\
  (length (wakeups m) <= length (wakeups m'))%nat /\
  (mailbox_was_empty m = true -> s = false -> (length (wakeups m) < length (wakeups m'))%nat).
Proof.
  unfold enqueue_reserved.
  set (m1 := Mailbox.count _ _).
  destruct (max_depth_fields m1) as (E1 & E2 & E3 & E4 & E5 & E6 & E7 & E8 & E9).
  set (m2 := update_max_depth m1) in *. unfold claim_wakeup, update_pressure_state; simpl.
  rewrite E7, E8. destruct s; simpl; [by rewrite E1, E2, E3, E4, E5, E6, E7, E8|].
  destruct (mailbox_was_empty m) eqn:Ef; simpl; rewrite E1, E2, E3, E4, E5, E6, ?E7, ?E8;
    repeat split; try done; rewrite !length_app; simpl; lia.
Qed.

Lemma ledger_enqueue_reserved m x meta lane s :
  ledger_ok extra tight (config m) (reservation m) (mlq_enqueue (lanes m) x lane)
    (oq_queue (overflow_queue m)) (system_lane_bytes m) (system_lane_reserved m) ->
  ledger (enqueue_reserved m x meta lane s).
Proof.
  unfold ledger. destruct (enqueue_reserved_fields m x meta lane s)
    as (-> & -> & -> & -> & -> & -> & _). done.
Qed.

(** An unsuppressed enqueue into an active lane keeps the invariant. *)
Lemma enqueue_preserves m0 m x meta lane :
  config m = config m0 -> config_wf (config m0) ->
  ledger_ok extra tight (config m) (reservation m) (mlq_enqueue (lanes m) x lane)
    (oq_queue (overflow_queue m)) (system_lane_bytes m) (system_lane_reserved m) ->
  length (user_lanes (lanes m)) = 8%nat -> num_user_lanes (lanes m) <= 8 ->
  lane = kSystemLaneSentinel \/ 0 <= lane < num_user_lanes (lanes m) ->
  (tight = true -> mb_empty m0 = true -> mailbox_was_empty m = true) ->
  wakeups m = wakeups m0 ->
  preserves m0 (enqueue_reserved m x meta lane false).
Proof.
  intros Hc Hwf L Hlen Hn Hlane Hf Hw.
  pose proof (ledger_enqueue_reserved m x meta lane false L) as L'.
  destruct (enqueue_reserved_fields m x meta lane false)
    as (E1 & _ & E3 & _ & _ & _ & E7 & _ & E9).
  split; [by rewrite E1| |].
  - split; [by rewrite E1, Hc|done|]. intros _. rewrite E7. unfold mb_empty. rewrite E3.
    by rewrite mlq_enqueue_nonempty.
  - intros Ht He _. rewrite <- Hw. apply E9; [by apply Hf|done].
Qed.

Lemma inv_same m m' :
  config m' = config m -> reservation m' = reservation m -> lanes m' = lanes m ->
  overflow_queue m' = overflow_queue m -> system_lane_bytes m' = system_lane_bytes m ->
  system_lane_reserved m' = system_lane_reserved m ->
  mailbox_was_empty m' = mailbox_was_empty m -> mailbox_inv m -> preserves m m'.
Proof.
  intros E1 E2 E3 E4 E5 E6 E7 [Hc L Hf]. split; [done| |].
  - split; [by rewrite E1|unfold ledger; by rewrite E1, E2, E3, E4, E5, E6|].
    intros Ht. specialize (Hf Ht). unfold mb_empty in *. by rewrite E7, E3.
  - unfold mb_empty. rewrite E3. congruence.
Qed.

Lemma preserves_trans m1 m2 m3 :
  preserves m1 m2 -> preserves m2 m3 ->
  (length (wakeups m1) <= length (wakeups m2))%nat ->
  (length (wakeups m2) <= length (wakeups m3))%nat -> preserves m1 m3.
Proof.
  intros [C1 I1 N1] [C2 I2 N2] H1 H2. split; [congruence|done|].
  intros Ht He Hn. destruct (mb_empty m2) eqn:E;
    [specialize (N2 Ht eq_refl Hn)|specialize (N1 Ht He eq_refl)]; lia.
Qed.

(** The lane [route_lane] picks is the system lane or an active lane. *)
Lemma route_lane_active m meta :
  mailbox_inv m -> 0 <= meta_priority meta ->
  route_lane m meta = kSystemLaneSentinel \/
  0 <= route_lane m meta < num_user_lanes (lanes m).
Proof.
  intros [_ L _] Hp. unfold route_lane. destruct (is_system_message _); [by left|right].
  pose proof (led_num L). destruct (negb _); [lia|].
  rewrite u8_small by lia. lia.
Qed.

Lemma route_lane_system m meta :
  mailbox_inv m -> 0 <= meta_priority meta ->
  (route_lane m meta =? kSystemLaneSentinel) = is_system_message (meta_type_tag meta).
Proof.
  intros Hi Hp. pose proof (route_lane_active m meta Hi Hp) as Ha.
  destruct (is_system_message _) eqn:E; unfold route_lane in *; rewrite E in *; [done|].
  destruct Hi as [_ L _]. pose proof (led_num L).
  apply Z.eqb_neq. unfold kSystemLaneSentinel in *.
  destruct (negb _); [lia|]. rewrite u8_small by lia. lia.
Qed.

(** ** Eviction and the overflow handlers *)

Lemma finish_drop_inv m ord x u :
  mailbox_inv m -> Forall (fun i => (i < Z.to_nat (num_user_lanes (lanes m)))%nat) ord ->
  pop_first ord (user_lanes (lanes m)) = Some (x, u) ->
  let m' := finish_drop m x (set_lanes (lanes m) (system_lane (lanes m)) u) in
  mailbox_inv m' /\ config m' = config m /\ wakeups m' = wakeups m /\ mb_empty m = false /\
  num_user_lanes (lanes m') = num_user_lanes (lanes m).
Proof.
  intros [Hc L Hf] Ho Hp. pose proof (pop_first_nonempty _ _ _ _ Ho Hp) as Hne.
  destruct (ledger_pop_user _ _ _ _ _ _ _ _ _ (pending (lanes m)) L Hp) as [Hx L'].
  unfold finish_drop. set (m1 := update_pressure_state _ false).
  assert (Hm1 : config m1 = config m /\ wakeups m1 = wakeups m /\
                mailbox_was_empty m1 = mailbox_was_empty m /\
                num_user_lanes (lanes m1) = num_user_lanes (lanes m)) by done.
  assert (L1 : ledger m1) by exact L'. clearbody m1. destruct Hm1 as (C1 & W1 & F1 & N1).
  destruct (mb_empty m1) eqn:He;
    (split; [|repeat split; [exact C1|exact W1|exact Hne|exact N1]]);
    (split; [simpl; by rewrite C1|apply ledger_pending, L1|]).
  - intros _. exact (eq_sym He).
  - intros Ht. simpl. rewrite F1, (Hf Ht). unfold mb_empty at 1. rewrite Hne. exact (eq_sym He).
Qed.

(** Whatever the handler does, the invariant holds, nothing is notified, an
    empty mailbox stays empty, and [DroppedExisting] means it was not empty. *)
Definition handled m m' (code : EnqueueResultCode) : Prop :=
  mailbox_inv m' /\ config m' = config m /\ wakeups m' = wakeups m /\
  (mb_empty m = true -> mb_empty m' = true) /\
  (code = EC_DroppedExisting -> mb_empty m = false) /\
  num_user_lanes (lanes m') = num_user_lanes (lanes m).

Lemma handled_count m k code : mailbox_inv m -> code <> EC_DroppedExisting -> handled m (Mailbox.count m k) code.
Proof.
  intros Hi Hne. split; [|done]. apply (pr_inv m). by apply inv_same.
Qed.

Lemma oq_try_push_Forall (P : T -> Prop) oq x :
  Forall P (oq_queue oq) -> P x -> Forall P (oq_queue (oq_try_push oq x).2).
Proof.
  intros Hq Hx. unfold oq_try_push; simpl. apply Forall_app_2; [|by apply Forall_singleton].
  destruct (_ && _ && _); [|done]. destruct (oq_queue oq); [done|]. by inversion Hq.
Qed.

Lemma handled_overflow m oq code :
  mailbox_inv m -> Forall user_msg (oq_queue oq) -> code <> EC_DroppedExisting ->
  handled m (set_overflow m oq) code.
Proof.
  intros [Hc L Hf] Ho Hne. split; [|done]. split; [done| |done].
  unfold ledger; simpl. by eapply ledger_overflow.
Qed.

Lemma overflow_handle_spec policy m msg ctx res r m' :
  mailbox_inv m -> user_msg msg ->
  overflow_handle policy m msg ctx res = (r, m') -> handled m m' (er_code r).
Proof.
  intros Hi Hu. pose proof (user_order_active (lanes m)) as [Ho Hr].
  assert (Hdrop : forall ord x u reason,
    Forall (fun i => (i < Z.to_nat (num_user_lanes (lanes m)))%nat) ord ->
    pop_first ord (user_lanes (lanes m)) = Some (x, u) ->
    handled m (finish_drop m x (set_lanes (lanes m) (system_lane (lanes m)) u)) reason).
  { intros ord x u reason Hord Hp. destruct (finish_drop_inv m ord x u Hi Hord Hp) as (? & ? & ? & ? & ?).
    split; [done|]. repeat split; try done. congruence. }
  assert (Hspill : forall oq, oq_try_push (overflow_queue m) msg = (true, oq) ->
    handled m (set_overflow m oq) EC_ReroutedToOverflow).
  { intros oq Eo. apply handled_overflow; [done| |done].
    replace oq with (oq_try_push (overflow_queue m) msg).2 by (by rewrite Eo).
    apply oq_try_push_Forall; [apply Hi|done]. }
  unfold overflow_handle, drop_oldest_handle, drop_lowest_priority_handle,
    drop_one_oldest_global, drop_one_lowest_priority, try_drop_oldest_user_lane,
    try_drop_from_lowest_user_lane, spill_to_overflow_handle, dead_letter_handle,
    signal_only_handle, reject_newest_handle, drop_newest_handle.
  destruct (oq_try_push (overflow_queue m) msg) as [[] oq] eqn:Eo; [|done].
  destruct (pop_first (user_order _) _) as [[x u]|] eqn:Ep;
    destruct (pop_first (reverse _) _) as [[y v]|] eqn:Eq;
    destruct policy; intros E; injection E as <- <-;
    first [eapply Hdrop; [|eassumption]; done|by apply Hspill|by apply handled_count].
Qed.

(** ** Producers *)

Lemma reserve_spec m b res m' :
  mailbox_inv m -> reserve m b = (res, m') ->
  exists r, m' = set_reservation m r /\
    try_reserve (reservation m) b (max_messages (capacity (config m)))
      (max_bytes (capacity (config m))) = (res, r) /\
    (res <> RR_Reserved -> r = reservation m).
Proof.
  intros [Hc L _]. unfold reserve.
  destruct (try_reserve _ _ _ _) as [res' r] eqn:E. intros; simplify_eq.
  exists r. repeat split; try done. by eapply try_reserve_refused.
Qed.

(** Reserve, then enqueue: the accepting path shared by every producer. *)
Lemma reserve_enqueue m0 m b m1 x meta lane :
  mailbox_inv m -> config m = config m0 -> wakeups m = wakeups m0 ->
  (mb_empty m0 = true -> mb_empty m = true) ->
  reserve m b = (RR_Reserved, m1) -> user_msg x -> b = bytes_of x ->
  0 <= lane < num_user_lanes (lanes m) ->
  preserves m0 (enqueue_reserved m1 x meta lane false).
Proof.
  intros Hi Hc Hw He Hr Hx -> Hl. destruct (reserve_spec _ _ _ _ Hi Hr) as (r & -> & Hr' & _).
  destruct Hi as [Hwf L Hf]. pose proof (led_num L).
  apply enqueue_preserves; simpl; try done; [by rewrite <- Hc| |apply L|lia|by right|].
  - eapply ledger_reserve_enqueue; try done. lia.
  - intros Ht Hem. rewrite (Hf Ht). by apply He.
Qed.

Lemma push_overflow_preserves m msg meta lane res :
  mailbox_inv m -> user_msg msg -> meta_estimated_bytes meta = bytes_of msg ->
  0 <= lane < num_user_lanes (lanes m) ->
  preserves m (push_overflow m msg meta lane res).2.
Proof.
  intros Hi Hu Hb Hl. unfold push_overflow. rewrite Hb.
  set (m2 := update_pressure_state m true).
  assert (I2 : mailbox_inv m2) by (eapply pr_inv, (inv_same m m2); done).
  destruct (overflow_handle _ m2 msg _ res) as [r m3] eqn:Eh.
  destruct (overflow_handle_spec _ _ _ _ _ _ _ I2 Hu Eh) as (I3 & C3 & W3 & E3 & D3 & N3).
  assert (P3 : preserves m m3).
  { split; [done|done|]. intros _ He Hn. rewrite (E3 He) in Hn. done. }
  destruct (er_code r) eqn:Ec; try exact P3.
  destruct (reserve m3 (bytes_of msg)) as [res2 m4] eqn:Er.
  destruct (decide (res2 = RR_Reserved)) as [->|Hne].
  - eapply (reserve_enqueue m m3); try done. by rewrite N3.
  - destruct (reserve_spec _ _ _ _ I3 Er) as (r4 & -> & _ & Hr4). specialize (Hr4 Hne) as ->.
    assert (P4 : preserves m3 (update_pressure_state (Mailbox.count
                   (set_reservation m3 (reservation m3)) total_rejected) true))
      by (by apply inv_same).
    assert (preserves m (update_pressure_state (Mailbox.count
                   (set_reservation m3 (reservation m3)) total_rejected) true)).
    { apply (preserves_trans m m3); [done|done| |]; simpl; by rewrite W3. }
    by destruct res2.
Qed.

Lemma push_user_preserves m msg meta lane :
  mailbox_inv m -> user_msg msg -> meta_estimated_bytes meta = bytes_of msg ->
  0 <= lane < num_user_lanes (lanes m) ->
  preserves m (push_user m msg meta lane).2.
Proof.
  intros Hi Hu Hb Hl. unfold push_user. rewrite Hb.
  destruct (reserve m (bytes_of msg)) as [res m1] eqn:Er.
  destruct (decide (res = RR_Reserved)) as [->|Hne].
  { simpl. eapply reserve_enqueue; done. }
  destruct (reserve_spec _ _ _ _ Hi Er) as (r & -> & _ & Hr). specialize (Hr Hne) as ->.
  assert (P : preserves m (set_reservation m (reservation m))) by (apply inv_same; done).
  assert (Q : preserves (set_reservation m (reservation m))
                (push_overflow (set_reservation m (reservation m)) msg meta lane res).2)
    by (apply push_overflow_preserves; try done; apply P).
  destruct res; [done|..]; destruct Q as [QC QI QN]; split; try done.
Qed.

Lemma push_system_preserves m msg meta :
  mailbox_inv m -> system_msg msg -> meta_estimated_bytes meta = bytes_of msg ->
  preserves m (push_system m msg meta).2.
Proof.
  intros Hi Hx Hb. unfold push_system. rewrite Hb. destruct (_ <=? _) eqn:E; bool_to_prop.
  - by apply inv_same.
  - destruct Hi as [Hc L Hf]. apply enqueue_preserves; simpl; try done.
    + by apply ledger_push_system.
    + apply L.
    + apply L.
    + by left.
    + intros Ht He. by rewrite (Hf Ht).
Qed.

(** A well-formed request: the tag of the envelope agrees with the message. *)
Definition push_ok (msg : T) (meta : MailboxEnvelopeMeta) : Prop :=
  is_system_message (meta_type_tag meta) = node_is_system msg /\ sized msg /\
  0 <= meta_priority meta.

Lemma try_push_preserves m now msg meta :
  mailbox_inv m -> push_ok msg meta -> preserves m (try_push order m now msg meta).2.
Proof.
  intros Hi (Htag & Hsz & Hp). unfold try_push.
  set (meta' := meta_with_bytes meta (estimate_node_bytes msg)).
  destruct (evaluate_policy_chain _ _ _ _) as [adm ps].
  set (m1 := set_policies m ps).
  assert (I1 : mailbox_inv m1) by (eapply pr_inv, (inv_same m m1); done).
  destruct (negb _); [by apply inv_same|].
  pose proof (route_lane_active m1 meta' I1 Hp) as Hl.
  rewrite (route_lane_system m1 meta' I1 Hp). simpl. rewrite Htag.
  destruct (node_is_system msg) eqn:Es.
  - assert (Q : preserves m1 (push_system m1 msg meta').2) by (by apply push_system_preserves).
    destruct Q as [C I N]. by split.
  - destruct Hl as [Hl|Hl].
    { pose proof (route_lane_system m1 meta' I1 Hp) as Hr. rewrite Hl in Hr.
      simpl in Hr. congruence. }
    assert (Q : preserves m1 (push_user m1 msg meta' (route_lane m1 meta')).2)
      by (by apply push_user_preserves).
    destruct Q as [C I N]. by split.
Qed.

Lemma enqueue_node_preserves m x :
  mailbox_inv m -> user_msg x -> preserves m (enqueue m x).
Proof.
  intros Hi Hx. unfold enqueue.
  destruct (reserve m (estimate_node_bytes x)) as [res m1] eqn:Er.
  destruct (decide (res = RR_Reserved)) as [->|Hne].
  - eapply (reserve_enqueue m m); try done.
    destruct Hi as [_ L _]. pose proof (led_num L). lia.
  - destruct (reserve_spec _ _ _ _ Hi Er) as (r & -> & _ & Hr). specialize (Hr Hne) as ->.
    assert (P : preserves m (Mailbox.count (update_pressure_state
                  (set_reservation m (reservation m)) true) total_rejected))
      by (by apply inv_same).
    by destruct res.
Qed.

(** ** Consumer *)

(** What draining the overflow queue leaves alone. *)
Record drained m m' : Prop := mkDrained {
  dr_config : config m' = config m;
  dr_ledger : ledger m';
  dr_flag : mailbox_was_empty m' = mailbox_was_empty m;
  dr_wakeups : (length (wakeups m) <= length (wakeups m'))%nat;
  dr_empty : mb_empty m' = true -> mb_empty m = true
}.

Lemma drain_loop_drained fuel m :
  config_wf (config m) -> ledger m -> drained m (drain_loop fuel m).
Proof.
  revert m. induction fuel as [|fuel IH]; intros m Hc L; cbn [drain_loop]; [by split|].
  unfold oq_try_pop. destruct (oq_queue (overflow_queue m)) as [|x oq] eqn:Eq; [by split|].
  assert (Ho : user_msg x /\ Forall user_msg oq).
  { pose proof (led_over L) as Ho. rewrite Eq in Ho. by inversion Ho. }
  destruct Ho as [Hx Ho].
  set (m1 := set_overflow m _).
  assert (L1 : ledger m1) by (by eapply ledger_overflow).
  unfold reserve. destruct (try_reserve _ _ _ _) as [res r] eqn:Er.
  destruct (decide (res = RR_Reserved)) as [->|Hne].
  - cbv beta iota zeta. set (m2 := enqueue_reserved (set_reservation m1 r) x
                 (meta_with_bytes meta_default (estimate_node_bytes x)) 0 true).
    assert (L2 : ledger m2).
    { apply ledger_enqueue_reserved. eapply ledger_reserve_enqueue; try done. }
    destruct (enqueue_reserved_fields (set_reservation m1 r) x
                (meta_with_bytes meta_default (estimate_node_bytes x)) 0 true)
      as (C2 & _ & E2 & _ & _ & _ & F2 & W2 & _).
    fold m2 in C2, E2, F2, W2. clearbody m2. simpl in C2, F2, W2.
    destruct (IH m2) as [C L' F W E]; [by rewrite C2|done|].
    split; [congruence|done|congruence|lia|].
    intros He. specialize (E He). unfold mb_empty in E. rewrite E2 in E.
    rewrite mlq_enqueue_nonempty in E; [done|apply L|apply L|].
    right. pose proof (led_num L). simpl. lia.
  - pose proof (try_reserve_refused _ _ _ _ _ _ _ _ _ Hc L1 Er Hne) as ->.
    assert (drained m (set_overflow (set_reservation m1 (reservation m1))
              (oq_try_push (overflow_queue m1) x).2)).
    { split; try done. eapply ledger_overflow; [exact L1|].
      by apply oq_try_push_Forall. }
    by destruct res.
Qed.

Lemma self_notify_inv m :
  config_wf (config m) -> ledger m ->
  (tight = true -> mb_empty m = true -> mailbox_was_empty m = true) ->
  let m' := self_notify m in
  mailbox_inv m' /\ config m' = config m /\ mb_empty m' = mb_empty m.
Proof.
  intros Hc L Hf. unfold self_notify. change (mlq_empty (lanes m)) with (mb_empty m).
  destruct (mb_empty m) eqn:He, (mailbox_was_empty m) eqn:Ew; simpl;
    (split; [split; [done|done|intros Ht]|split; [done|exact He]]); simpl;
    rewrite ?He, ?Ew; try done;
    by specialize (Hf Ht eq_refl).
Qed.

Lemma consume_node_inv m node :
  config_wf (config m) ->
  ledger_ok extra tight (config m)
    (if node_is_system node then reservation m else release (reservation m) (bytes_of node))
    (lanes m) (oq_queue (overflow_queue m))
    (if node_is_system node then u64 (system_lane_bytes m - bytes_of node) else system_lane_bytes m)
    (if node_is_system node then u32 (system_lane_reserved m - 1) else system_lane_reserved m) ->
  mailbox_was_empty m = true ->
  mailbox_inv (consume_node m node) /\ config (consume_node m node) = config m.
Proof.
  intros Hc L Hf. unfold consume_node.
  set (m1 := if node_is_system node then _ else _).
  set (m2 := update_pressure_state (Mailbox.count m1 total_dequeued) false).
  assert (H2 : config m2 = config m /\ ledger m2 /\ mailbox_was_empty m2 = true).
  { unfold m2, m1, ledger, bytes_of in *. by destruct (node_is_system node). }
  clearbody m2. clear m1. destruct H2 as (C2 & L2 & F2).
  set (m3 := if negb (mb_empty m2) then _ else _).
  assert (H3 : config m3 = config m /\ ledger m3 /\
               (mb_empty m3 = true -> mailbox_was_empty m3 = true)).
  { unfold m3. destruct (mb_empty m2) eqn:E; simpl; [done|].
    split; [done|]. split; [done|]. intros He. change (mb_empty m2 = true) in He. congruence. }
  clearbody m3. destruct H3 as (C3 & L3 & F3).
  assert (D : drained m3 (drain_overflow m3)).
  { unfold drain_overflow. case_bool_decide; [|by split].
    apply drain_loop_drained; [by rewrite C3|done]. }
  destruct D as [C4 L4 F4 W4 E4].
  destruct (self_notify_inv (drain_overflow m3)) as (I & C & _);
    [by rewrite C4, C3|done| |split; [done|congruence]].
  intros _ He. rewrite F4. apply F3, E4, He.
Qed.

Lemma rate_gate_fields m now node :
  let m' := (rate_gate m now node).2 in
  config m' = config m /\ reservation m' = reservation m /\ lanes m' = lanes m /\
  overflow_queue m' = overflow_queue m /\ system_lane_bytes m' = system_lane_bytes m /\
  system_lane_reserved m' = system_lane_reserved m /\
  mailbox_was_empty m' = mailbox_was_empty m /\
  (node_is_system node = true -> (rate_gate m now node).1 = true).
Proof.
  unfold rate_gate. destruct (rate_limiter m) as [l|]; [|done].
  destruct (node_is_system node); [done|]. by destruct (try_consume l now).
Qed.

Lemma dequeue_preserves m now : mailbox_inv m -> preserves m (dequeue m now).2.
Proof.
  intros Hi. pose proof Hi as [Hc L Hf]. unfold dequeue. simpl.
  destruct (mlq_dequeue (lanes m)) as [[node q]|] eqn:Ed.
  2:{ apply mlq_dequeue_None in Ed. destruct (self_notify_inv (set_was_empty m true)) as (I & C & E);
        [done..|]. split; [done|done|]. intros _ _ Hn. simpl in Hn. rewrite E in Hn.
      change (mlq_empty (lanes m) = false) in Hn. congruence. }
  assert (Hne : mb_empty m = false).
  { unfold mb_empty. destruct (mlq_empty (lanes m)) eqn:E; [|done].
    apply mlq_dequeue_None in E. congruence. }
  set (m1 := set_mb_lanes (set_was_empty m true) q).
  destruct (rate_gate_fields m1 now node) as (G1 & G2 & G3 & G4 & G5 & G6 & G7 & G8).
  destruct (rate_gate m1 now node) as [ok m2]. simpl in G1, G2, G3, G4, G5, G6, G7, G8.
  cut (mailbox_inv (if ok then (Some node, consume_node m2 node)
         else (None, set_was_empty (enqueue_reserved m2 node meta_default 0 true) false)).2 /\
       config (if ok then (Some node, consume_node m2 node)
         else (None, set_was_empty (enqueue_reserved m2 node meta_default 0 true) false)).2 = config m).
  { intros [I C]. split; [done|done|]. congruence. }
  unfold mlq_dequeue in Ed. destruct (system_lane (lanes m)) as [|x s] eqn:Es.
  - destruct (pop_first _ _) as [[x u]|] eqn:Ep; [|done]. injection Ed as -> <-.
    destruct (ledger_pop_user _ _ _ _ _ _ _ _ _ (pending (lanes m)) L Ep) as [[Hu _] L'].
    destruct ok; cbn [snd].
    + rewrite <- G1. apply consume_node_inv; [by rewrite G1| |by rewrite G7].
      rewrite G1, G2, G3, G4, G5, G6, Hu. unfold set_lanes. by rewrite Es in L'.
    + pose proof (ledger_requeue _ _ _ _ _ _ _ _ _ L Ep) as Lq.
      destruct (enqueue_reserved_fields m2 node meta_default 0 true)
        as (C2 & R2 & E2 & O2 & B2 & N2 & _).
      set (m3 := enqueue_reserved m2 node meta_default 0 true) in *. clearbody m3.
      rewrite Es in Lq.
      split; [|cbn; by rewrite C2]. split.
      * cbn. by rewrite C2, G1.
      * unfold ledger. cbn. by rewrite C2, R2, E2, O2, B2, N2, G1, G2, G3, G4, G5, G6.
      * intros _. cbn. unfold mb_empty. cbn. rewrite E2, G3. symmetry.
        pose proof (led_num L).
        apply mlq_enqueue_nonempty; cbn; [|lia|right; lia].
        rewrite (pop_first_length _ _ _ _ Ep). apply L.
  - injection Ed as -> <-. destruct (ledger_pop_system _ _ _ _ _ _ _ _ L Es) as [[Hs _] L'].
    rewrite (G8 Hs) in *. cbn [snd]. rewrite <- G1.
    apply consume_node_inv; [by rewrite G1| |by rewrite G7].
    by rewrite G1, G2, G3, G4, G5, G6, Hs.
Qed.

Lemma try_pop_preserves m now : mailbox_inv m -> preserves m (try_pop m now).2.
Proof.
  intros Hi. unfold try_pop. pose proof (dequeue_preserves m now Hi) as P.
  destruct (dequeue m now) as [[node|] m']; [|exact P].
  destruct P as [C [I1 I2 I3] N]. split; [done| |exact N].
  split; [done|by apply ledger_pending|exact I3].
Qed.
End Operations.

(** ** Batches and new configurations *)

Section Batches.
Context {T : Type} `{MailboxNode T}.
Context (order : gmap Z ActorRateLimiter -> list Z).
Implicit Types m : Mailbox T.

Lemma batch_bytes (msgs : list T) t :
  Forall sized msgs ->
  foldl (fun t x => u64 (t + estimate_node_bytes x)) (u64 t) msgs = u64 (t + sum_bytes msgs).
Proof.
  intros Hs. revert t. induction Hs as [|x l _ _ IH]; intros t; simpl.
  - f_equal. unfold sum_bytes, sum_by. simpl. lia.
  - rewrite u64_add_mod, IH. unfold sum_bytes. rewrite sum_by_cons. f_equal. unfold bytes_of. lia.
Qed.

Lemma enqueue_batch_fields m msgs meta lane first :
  0 <= lane < 8 ->
  let m' := enqueue_batch m msgs meta lane first in
  config m' = config m /\ reservation m' = reservation m /\
  lanes m' = mkLanes (system_lane (lanes m))
    (alter (fun l => l ++ msgs) (Z.to_nat lane) (user_lanes (lanes m)))
    (num_user_lanes (lanes m)) (pending (lanes m)) /\
  overflow_queue m' = overflow_queue m /\ system_lane_bytes m' = system_lane_bytes m /\
  system_lane_reserved m' = system_lane_reserved m /\
  mailbox_was_empty m' = (if first then bool_decide (msgs = []) && mailbox_was_empty m
                          else mailbox_was_empty m).
Proof.
  intros Hl. revert m first. induction msgs as [|x l IH]; intros m first.
  - simpl. repeat split; [|by destruct first]. destruct (lanes m) as [s u n p]. f_equal. simpl.
    rewrite list_alter_id; [done|]. intros k. apply app_nil_r.
  - destruct (enqueue_reserved_fields m x meta lane (negb first))
      as (E1 & E2 & E3 & E4 & E5 & E6 & E7 & _).
    cbn [enqueue_batch]. destruct (IH (enqueue_reserved m x meta lane (negb first)) false)
      as (F1 & F2 & F3 & F4 & F5 & F6 & F7).
    cbv zeta. rewrite F1, F2, F3, F4, F5, F6, F7, E1, E2, E3, E4, E5, E6, E7.
    repeat split; [|by destruct first].
    unfold mlq_enqueue, kSystemLaneSentinel. destruct (lane =? 255) eqn:E; bool_to_prop; [lia|].
    cbn. f_equal. rewrite list_alter_alter_eq. apply list_alter_ext; [|done].
    intros k _. cbn. by rewrite <- app_assoc.
Qed.

Lemma push_each_inv extra tight m now msgs meta last :
  mailbox_inv (extra:=extra) (tight:=tight) m -> Forall (fun x => push_ok x meta) msgs ->
  let m' := (push_each order m now msgs meta last).2 in
  mailbox_inv (extra:=extra) (tight:=tight) m' /\ config m' = config m.
Proof.
  intros Hi Hm. revert m last Hi. induction Hm as [|x l Hx _ IH]; intros m last Hi; [done|].
  cbn [push_each]. pose proof (try_push_preserves order m now x meta Hi Hx) as [Hc Hi' _].
  destruct (try_push order m now x meta) as [r m']. cbn [snd] in *. rewrite <- Hc. by apply IH.
Qed.

(** A batch of user messages whose size is a machine word. *)
Definition batch_ok (msgs : list T) (meta : MailboxEnvelopeMeta) : Prop :=
  Forall (fun x => push_ok x meta) msgs /\ is_system_message (meta_type_tag meta) = false /\
  sum_bytes msgs < 9223372036854775808.

(** How many messages a batch queues beyond the slot it reserves: all but one
    when the reservation succeeds, none when the messages are pushed singly. *)
Definition batch_extra m (msgs : list T) : Z :=
  match msgs with
  | [] => 0
  | _ => match (reserve m (sum_bytes msgs)).1 with RR_Reserved => zlen msgs - 1 | _ => 0 end
  end.

Lemma try_push_batch_inv extra tight m now msgs meta :
  mailbox_inv (extra:=extra) (tight:=tight) m -> batch_ok msgs meta ->
  let m' := (try_push_batch order m now msgs meta).2 in
  mailbox_inv (extra:=extra + batch_extra m msgs) (tight:=tight) m' /\ config m' = config m.
Proof.
  intros Hi (Hm & Htag & Hsum).
  assert (Hsz : Forall sized msgs) by (eapply Forall_impl; [exact Hm|]; by intros x (_ & ? & _)).
  assert (Hu : Forall user_msg msgs).
  { eapply Forall_impl; [exact Hm|]. intros x (Ht & Hs & _). split; [congruence|done]. }
  pose proof (sum_bytes_nonneg user_msg msgs ltac:(unfold user_msg; tauto) Hu) as Hnn.
  assert (Hb : foldl (fun t x => u64 (t + estimate_node_bytes x)) 0 msgs = sum_bytes msgs).
  { change 0 with (u64 0). rewrite batch_bytes by done. apply u64_small. lia. }
  unfold try_push_batch, batch_extra. rewrite Hb.
  destruct msgs as [|x l]; [cbv zeta; by rewrite Z.add_0_r|].
  assert (Hp : 0 <= meta_priority meta) by (inversion Hm as [|? ? Hx _]; apply Hx).
  destruct (exists_last (l:=x :: l) ltac:(done)) as (init & y & Ey).
  set (msgs := x :: l) in *. clearbody msgs. clear Hb.
  set (meta' := meta_with_bytes meta (sum_bytes msgs)).
  destruct (reserve m (sum_bytes msgs)) as [res m1] eqn:Er.
  destruct (reserve_spec _ _ _ _ Hi Er) as (r & -> & Hr & Hne).
  destruct (decide (res = RR_Reserved)) as [->|Hres].
  - cbn [fst snd]. pose proof Hi as [Hc L Hf].
    set (m1 := set_reservation m r).
    assert (Hl : 0 <= route_lane m1 meta' < num_user_lanes (lanes m)).
    { destruct (route_lane_active m meta' Hi Hp) as [Hl|Hl]; [|exact Hl].
      pose proof (route_lane_system m meta' Hi Hp) as Hs. rewrite Hl in Hs. cbn in Hs. congruence. }
    pose proof (led_num L) as Hn.
    destruct (enqueue_batch_fields m1 msgs meta' (route_lane m1 meta') true ltac:(lia))
      as (E1 & E2 & E3 & E4 & E5 & E6 & E7).
    set (m' := enqueue_batch m1 msgs meta' (route_lane m1 meta') true) in *. clearbody m'.
    pose proof (ledger_reserve_append _ _ _ _ _ _ msgs r (route_lane m1 meta') Hc L Hu Hsum
                  ltac:(lia) Hr) as L'.
    split; [|by rewrite E1]. split; [by rewrite E1| |].
    + unfold ledger. rewrite E1, E2, E3, E4, E5, E6. exact L'.
    + intros _. rewrite E7, bool_decide_false by (subst; by destruct init). cbn [andb].
      unfold mb_empty. rewrite E3, Ey. symmetry.
      rewrite <- (mlq_enqueue_nonempty (mkLanes (system_lane (lanes m1))
        (alter (fun l => l ++ init) (Z.to_nat (route_lane m1 meta')) (user_lanes (lanes m1)))
        (num_user_lanes (lanes m1)) (pending (lanes m1))) y (route_lane m1 meta'));
        [|cbn; rewrite length_alter; apply L|cbn; lia|by right].
      unfold mlq_enqueue, kSystemLaneSentinel.
      destruct (route_lane m1 meta' =? 255) eqn:E; bool_to_prop; [lia|].
      unfold set_lanes. cbn. f_equal. f_equal. rewrite list_alter_alter_eq. apply list_alter_ext; [|done].
      intros k _. cbn. by rewrite <- app_assoc.
  - specialize (Hne Hres) as ->.
    assert (E : match res with RR_Reserved => zlen msgs - 1 | _ => 0 end = 0) by (by destruct res).
    cbn [fst]. rewrite E, Z.add_0_r.
    assert (I2 : mailbox_inv (extra:=extra) (tight:=tight)
              (update_pressure_state (set_reservation m (reservation m)) true))
      by (eapply pr_inv, (inv_same m); done).
    destruct res; [done|..];
      destruct (push_each_inv extra tight _ now msgs meta' EnqueueResult_default I2 Hm) as [? ->]; done.
Qed.
End Batches.
