(* ===== verification/MailboxSpec.v ===== *)
(** * What the mailbox promises

    Histories of mailbox operations, and the theorems over them: accounting
    and bounds, the wakeup edge, the outcome of a push on every branch, the
    order of delivery, and what a batch and an oversized spill do. *)

From S2P Require Import Prelude DeliveryTypes Pressure Reservation Lanes Admission Mailbox MailboxInv.
From stdpp Require Import base numbers list gmap.

#[local] Open Scope Z_scope.

Section Histories.
Context {T : Type} `{MailboxNode T}.
Context (order : gmap Z ActorRateLimiter -> list Z).
Implicit Types m : Mailbox T.

(** The public operations that change the mailbox, but the injection for
    tests. *)
Inductive MbOp :=
| OpTryPush (now : Z) (msg : T) (meta : MailboxEnvelopeMeta)
| OpPush (now : Z) (msg : T)
| OpEnqueue (node : T)
| OpDequeue (now : Z)
| OpTryPop (now : Z)
| OpRecord (status : DeliveryStatus)
| OpSignal (now : Z) (state : MailboxPressureState) (force : bool)
| OpBatch (now : Z) (msgs : list T) (meta : MailboxEnvelopeMeta)
| OpSetLimiter (limiter : option ActorRateLimiter)
| OpSetConfig (cfg : MailboxConfig).

Definition mb_apply m (o : MbOp) : Mailbox T :=
  match o with
  | OpTryPush now msg meta => (try_push order m now msg meta).2
  | OpPush now msg => push order m now msg
  | OpEnqueue node => enqueue m node
  | OpDequeue now => (dequeue m now).2
  | OpTryPop now => (try_pop m now).2
  | OpRecord status => record_delivery_result m status
  | OpSignal now state force => (try_acquire_backpressure_signal m now state force).2
  | OpBatch now msgs meta => (try_push_batch order m now msgs meta).2
  | OpSetLimiter limiter => set_limiter m limiter
  | OpSetConfig cfg => set_config m cfg
  end.

Definition mb_run m (os : list MbOp) : Mailbox T := foldl mb_apply m os.

(** The configuration a mailbox may be given. *)
Definition construction_ok (c : MailboxConfig) : Prop :=
  0 <= max_messages (capacity c) <= UINT32_MAX /\
  0 <= max_bytes (capacity c) < 9223372036854775808 /\
  0 <= protected_system_messages c <= UINT32_MAX.

(** The envelope tag agrees with the message; the default envelope and
    [enqueue] carry no tag, so they are for user messages. *)
Definition op_ok (o : MbOp) : Prop :=
  match o with
  | OpTryPush _ msg meta => push_ok msg meta
  | OpPush _ msg | OpEnqueue msg => user_msg msg
  | OpBatch _ msgs meta => batch_ok msgs meta
  | OpSetConfig cfg => construction_ok cfg
  | _ => True
  end.

(** The messages that the batches of a history queue beyond the slots they
    reserve. *)
Definition op_extra m (o : MbOp) : Z :=
  match o with OpBatch _ msgs _ => batch_extra m msgs | _ => 0 end.

Fixpoint unreserved m (os : list MbOp) : Z :=
  match os with [] => 0 | o :: os => op_extra m o + unreserved (mb_apply m o) os end.

(** The history does not give the mailbox a new configuration; none of its
    batches has two messages. *)
Definition keeps_config (o : MbOp) : bool := match o with OpSetConfig _ => false | _ => true end.
Definition small_batch (o : MbOp) : Prop :=
  match o with OpBatch _ msgs _ => zlen msgs <= 1 | _ => True end.

(** What an operation does to one mailbox, batches and new configurations
    apart. *)
Lemma mb_apply_preserves extra tight m o :
  mailbox_inv (extra:=extra) (tight:=tight) m -> op_ok o -> keeps_config o = true ->
  (forall now msgs meta, o <> OpBatch now msgs meta) ->
  preserves (extra:=extra) (tight:=tight) m (mb_apply m o).
Proof.
  intros Hi Ho Hk Hb.
  destruct o as [now msg meta|now msg|x|now|now|st|now st f|now msgs meta|l|c]; simpl in *.
  - by apply try_push_preserves.
  - destruct Ho as [Ho1 Ho2]. apply try_push_preserves; [done|]. by split.
  - by apply enqueue_node_preserves.
  - by apply dequeue_preserves.
  - by apply try_pop_preserves.
  - unfold record_delivery_result. destruct (is_accepted st); by apply inv_same.
  - unfold try_acquire_backpressure_signal.
    destruct (BackpressureSignalGate.try_acquire _ _ _ _ _) as [r g]. by apply inv_same.
  - by destruct (Hb now msgs meta).
  - by apply inv_same.
  - done.
Qed.

Lemma clamp_capacity_wf c : construction_ok c -> config_wf (clamp_capacity c).
Proof.
  intros (H1 & H2 & H3). unfold clamp_capacity, UINT32_MAX in *.
  destruct (max_messages (capacity c) =? 0) eqn:E; bool_to_prop; split; simpl;
    unfold UINT32_MAX; lia.
Qed.

(** A new configuration keeps the counters: only its bounds are not met by what
    was queued before. *)
Lemma set_config_inv extra tight m c :
  mailbox_inv (extra:=extra) (tight:=tight) m -> construction_ok c ->
  mailbox_inv (extra:=extra) (tight:=false) (set_config m c).
Proof.
  intros [Hc L _] Hok. apply clamp_capacity_wf in Hok as [C1 C2 C3].
  assert (Hw : config_wf (config (set_config m c)) /\ oq_queue (overflow_queue (set_config m c)) = oq_queue (overflow_queue m)).
  { unfold set_config. cbn. split; [|done]. set (c1 := clamp_capacity c) in *. clearbody c1.
    destruct (dle _ _); [|destruct (dlt _ _); by split].
    destruct (dlt _ _); by split. }
  destruct Hw as [Hw Ho]. split; [done| |done]. unfold ledger. rewrite Ho.
  split; try apply L; try done.
  unfold set_config, set_num_user_lanes. cbn [lanes set_mb_lanes num_user_lanes].
  destruct (_ && _) eqn:E; bool_to_prop; unfold kMaxUserLanes in *; lia.
Qed.

Lemma mb_apply_inv extra tight m o :
  mailbox_inv (extra:=extra) (tight:=tight) m -> op_ok o ->
  mailbox_inv (extra:=extra + op_extra m o) (tight:=tight && keeps_config o) (mb_apply m o).
Proof.
  intros Hi Ho. destruct (keeps_config o) eqn:Ek.
  - rewrite andb_true_r. destruct o; cbn [op_extra]; rewrite ?Z.add_0_r;
      try (eapply pr_inv, mb_apply_preserves; by eauto). by apply try_push_batch_inv.
  - destruct o; try done. rewrite andb_false_r. cbn [op_extra]. rewrite Z.add_0_r.
    by eapply set_config_inv.
Qed.

Lemma mailbox_init_inv actor c lim pol cb :
  construction_ok c -> mailbox_inv (extra:=0) (tight:=true) (mailbox_init (T:=T) actor c lim pol cb).
Proof.
  intros Hok. set (m := mailbox_init _ _ _ _ _).
  assert (Hc : config_wf (config m)) by (by apply clamp_capacity_wf).
  assert (Hz : forall (f : list T -> Z) n, f [] = 0 -> sum_by f (replicate n []) = 0).
  { intros f n Hf. induction n as [|n IH]; [done|]. simpl. rewrite sum_by_cons. lia. }
  pose proof (cw_messages _ Hc). pose proof (cw_system _ Hc).
  split; [done| |].
  - split; try (simpl; done).
    + unfold m; simpl. destruct (_ && _) eqn:E; bool_to_prop; unfold kMaxUserLanes in *; lia.
    + simpl. by repeat constructor.
    + intros _. change (0 <= max_messages (capacity (config m))). lia.
    + intros _ Hb. change (0 <= max_bytes (capacity (config m))). lia.
    + intros _. change (0 <= protected_system_messages (config m)). lia.
  - intros _. unfold m, mailbox_init, mb_empty, mlq_empty, active_lanes. simpl.
    symmetry. apply forallb_forall. intros l Hl. apply bool_decide_eq_true.
    apply list_elem_of_In in Hl. apply elem_of_take in Hl as (i & Hi & _).
    destruct i as [|[|[|[|[|[|[|[|i]]]]]]]]; by simplify_eq/=.
Qed.

Lemma mb_run_inv extra tight m os :
  mailbox_inv (extra:=extra) (tight:=tight) m -> Forall op_ok os ->
  mailbox_inv (extra:=extra + unreserved m os) (tight:=tight && forallb keeps_config os) (mb_run m os).
Proof.
  intros Hi Ho. revert extra tight m Hi. induction Ho as [|o os Ho _ IH]; intros extra tight m Hi.
  - cbn. by rewrite Z.add_0_r, andb_true_r.
  - cbn. rewrite Z.add_assoc, andb_assoc. apply IH. by apply mb_apply_inv.
Qed.

Lemma mb_run_config extra tight m os :
  mailbox_inv (extra:=extra) (tight:=tight) m -> Forall op_ok os -> forallb keeps_config os = true ->
  config (mb_run m os) = config m.
Proof.
  intros Hi Ho. revert extra tight m Hi. induction Ho as [|o os Ho _ IH]; intros extra tight m Hi Hk; [done|].
  cbn in Hk. apply andb_true_iff in Hk as [Hk Hks].
  change (mb_run m (o :: os)) with (mb_run (mb_apply m o) os).
  rewrite (IH _ _ _ (mb_apply_inv _ _ _ _ Hi Ho) Hks).
  destruct o; try (eapply pr_config, (mb_apply_preserves extra tight); by eauto).
  by apply (try_push_batch_inv order extra tight).
Qed.

(** From construction on. *)
Lemma mb_history_inv actor c lim pol cb os :
  construction_ok c -> Forall op_ok os ->
  let m0 := mailbox_init actor c lim pol cb in
  mailbox_inv (extra:=unreserved m0 os) (tight:=forallb keeps_config os) (mb_run m0 os).
Proof.
  intros Hc Ho m0. exact (mb_run_inv 0 true m0 os (mailbox_init_inv actor c lim pol cb Hc) Ho).
Qed.

Lemma op_extra_small m o : small_batch o -> op_extra m o = 0.
Proof.
  destruct o as [| | | | | | |now msgs meta| |]; try done. intros Hs. cbn in *.
  destruct msgs as [|x [|y l]]; [done| |].
  - unfold batch_extra. by destruct (reserve m _).1.
  - rewrite !zlen_cons in Hs. pose proof (zlen_nonneg l). lia.
Qed.

Lemma unreserved_small m os : Forall small_batch os -> unreserved m os = 0.
Proof.
  intros Hs. revert m. induction Hs as [|o os Ho _ IH]; intros m; [done|].
  cbn. by rewrite op_extra_small, IH.
Qed.

Lemma sum_by_zlen_app (l : list (list T)) : sum_by zlen l = zlen (concat l).
Proof. induction l as [|x l IH]; [done|]. simpl. rewrite sum_by_cons, zlen_app. lia. Qed.

(** C1. Accounting.  Through every history of pushes, batches of user messages,
    dequeues and new limiters and configurations from construction, with envelopes
    whose tag agrees with the message, no lane holds a message of the other kind;
    [queued_bytes] is the sum of the sizes in the user lanes and the system-lane
    counters account for the system lane, at their widths; the reservation counter
    is the number of messages in the user lanes less those that batches queued
    beyond the one slot they reserve, which are none when no batch has two
    messages.  While the mailbox keeps its configuration the user lanes hold at
    most [max_messages] messages more than those, within [max_bytes] when it is
    set, and the system lane at most its protected capacity. *)
Theorem mailbox_accounting actor c lim pol cb os :
  construction_ok c -> Forall op_ok os ->
  let m0 := mailbox_init actor c lim pol cb in
  let m := mb_run m0 os in
  let user := concat (user_lanes (lanes m)) in
  let system := system_lane (lanes m) in
  let cap := capacity (config m) in
  let extra := unreserved m0 os in
  Forall user_msg user /\ Forall system_msg system /\
  reserved_messages (reservation m) = u32 (zlen user - extra) /\
  queued_bytes (reservation m) = u64 (sum_bytes user) /\
  system_lane_reserved m = u32 (zlen system) /\
  system_lane_bytes m = u64 (sum_bytes system) /\
  (Forall small_batch os -> extra = 0) /\
  (forallb keeps_config os = true ->
    zlen user <= max_messages cap + extra /\
    (0 < max_bytes cap -> sum_bytes user <= max_bytes cap) /\
    zlen system <= protected_system_messages (config m)).
Proof.
  intros Hc Ho m0 m user system cap extra.
  destruct (mb_history_inv actor c lim pol cb os Hc Ho) as [_ L _]. fold m0 m in L.
  assert (Hb : sum_by sum_bytes (user_lanes (lanes m)) = sum_bytes user).
  { unfold user, sum_bytes. clear. induction (user_lanes (lanes m)) as [|l k IH]; [done|].
    simpl. rewrite sum_by_cons, sum_by_app. lia. }
  assert (Hn : sum_by zlen (user_lanes (lanes m)) = zlen user) by apply sum_by_zlen_app.
  rewrite <- Hb, <- Hn. split; [|split; [apply L|]].
  - pose proof (led_user L) as HU. unfold user. clear -HU.
    induction HU as [|l k Hl _ IH]; [constructor|]. simpl. by apply Forall_app.
  - split; [apply L|]. split; [apply L|]. split; [apply L|]. split; [apply L|].
    split; [apply unreserved_small|]. intros Ht.
    pose proof (led_count_max L Ht). split; [unfold cap, extra; lia|].
    split; [apply (led_bytes_max L Ht)|apply (led_sysn_max L Ht)].
Qed.

(** The wakeup edge.  In every mailbox that keeps its configuration the flag is
    armed exactly when no active lane holds a message, and an operation other than
    a batch that makes an empty mailbox non-empty has called the scheduler. *)
Theorem wakeup_edge actor c lim pol cb os o :
  construction_ok c -> Forall op_ok os -> op_ok o -> forallb keeps_config (o :: os) = true ->
  (forall now msgs meta, o <> OpBatch now msgs meta) ->
  let m := mb_run (mailbox_init actor c lim pol cb) os in
  let m' := mb_apply m o in
  mailbox_was_empty m = mb_empty m /\
  (mb_empty m = true -> mb_empty m' = false ->
   (length (wakeups m) < length (wakeups m'))%nat).
Proof.
  intros Hc Ho H1 Hk Hb m m'. cbn in Hk. apply andb_true_iff in Hk as [Hk1 Hk2].
  pose proof (mb_history_inv actor c lim pol cb os Hc Ho) as I. cbv zeta in I.
  split; [by apply I|]. by apply (mb_apply_preserves _ _ _ _ I H1 Hk1 Hb).
Qed.

(** ** Outcome of a push *)

(** [q] is what the configured drop policy leaves of the lanes of [m]. *)
Definition evicted m (q : MultiLaneQueue T) : Prop :=
  exists x u,
    pop_first (match overflow_policy (config m) with
               | OP_DropOldest => user_order (lanes m)
               | OP_DropLowestPriority => reverse (user_order (lanes m))
               | _ => [] end) (user_lanes (lanes m)) = Some (x, u) /\
    user_lanes q = u /\ system_lane q = system_lane (lanes m) /\
    num_user_lanes q = num_user_lanes (lanes m).

(** Why a push is refused: a policy of the admission chain, the protected capacity
    of the system lane, the reservation. *)
Definition admitted m (now : Z) (msg : T) (meta : MailboxEnvelopeMeta) : bool :=
  bool_decide (decision (evaluate_policy_chain order (admission_policies m) now
                 (meta_with_bytes meta (bytes_of msg))).1 = AD_Accept).
Definition system_full m : bool := protected_system_messages (config m) <=? system_lane_reserved m.
Definition has_room m (msg : T) : bool :=
  bool_decide ((reserve m (bytes_of msg)).1 = RR_Reserved).

(** What [try_push] has done when it answers [code] for [msg], routed to [lane]. *)
Definition outcome m (adm : bool) (lane : Z) (msg : T) (code : EnqueueResultCode) m' : Prop :=
  let system := lane =? kSystemLaneSentinel in
  let overflows := adm = true /\ system = false /\ has_room m msg = false in
  match code with
  | EC_Accepted | EC_AcceptedWithSoftPressure =>
      overflow_queue m' = overflow_queue m /\
      ((adm = true /\ (if system then system_full m = false else has_room m msg = true) /\
        lanes m' = mlq_enqueue (lanes m) msg lane) \/
       (overflows /\ exists q, evicted m q /\ lanes m' = mlq_enqueue q msg lane))
  | EC_Rejected =>
      overflow_queue m' = overflow_queue m /\
      ((adm = false /\ lanes m' = lanes m) \/
       (adm = true /\ system = true /\ system_full m = true /\ lanes m' = lanes m) \/
       (overflows /\ lanes m' = lanes m /\ ~ (exists q, evicted m q) /\
        overflow_policy (config m) ∉ [OP_DropNewest; OP_DeadLetter; OP_SpillToOverflowQueue]) \/
       (overflows /\ evicted m (lanes m') /\ has_room m' msg = false))
  | EC_DroppedExisting =>
      overflows /\ overflow_queue m' = overflow_queue m /\
      exists q, evicted m q /\ lanes m' = mlq_enqueue q msg lane
  | EC_DroppedNewest =>
      overflows /\ overflow_policy (config m) = OP_DropNewest /\ lanes m' = lanes m /\
      overflow_queue m' = overflow_queue m
  | EC_ReroutedToDeadLetter =>
      overflows /\ overflow_policy (config m) = OP_DeadLetter /\ lanes m' = lanes m /\
      overflow_queue m' = overflow_queue m
  | EC_ReroutedToOverflow =>
      overflows /\ overflow_policy (config m) = OP_SpillToOverflowQueue /\ lanes m' = lanes m /\
      overflow_queue m' = (oq_try_push (overflow_queue m) msg).2
  | _ => False
  end.

(** An accepted message that was appended to the lanes [q]. *)
Lemma accept_code m' : er_code (accept_result (T:=T) m') = EC_Accepted \/
                       er_code (accept_result m') = EC_AcceptedWithSoftPressure.
Proof. unfold accept_result, make_result. simpl er_code. destruct (pressure_state m'); auto. Qed.

Lemma enqueue_lanes m0 m q x meta lane :
  lanes m = q -> overflow_queue m = overflow_queue m0 ->
  let m' := enqueue_reserved m x meta lane false in
  lanes m' = mlq_enqueue q x lane /\ overflow_queue m' = overflow_queue m0.
Proof.
  intros Hl Ho m'. destruct (enqueue_reserved_fields m x meta lane false)
    as (_ & _ & E3 & E4 & _). unfold m'. by rewrite E3, E4, Hl, Ho.
Qed.

(** What the handlers do to the lanes and to the overflow queue. *)
Lemma overflow_handle_lanes m msg ctx res r m' :
  overflow_handle (overflow_policy (config m)) m msg ctx res = (r, m') ->
  match er_code r with
  | EC_DroppedExisting => evicted m (lanes m') /\ overflow_queue m' = overflow_queue m
  | EC_Rejected =>
      lanes m' = lanes m /\ overflow_queue m' = overflow_queue m /\ ~ (exists q, evicted m q) /\
      overflow_policy (config m) ∉ [OP_DropNewest; OP_DeadLetter; OP_SpillToOverflowQueue]
  | EC_DroppedNewest =>
      overflow_policy (config m) = OP_DropNewest /\ lanes m' = lanes m /\
      overflow_queue m' = overflow_queue m
  | EC_ReroutedToDeadLetter =>
      overflow_policy (config m) = OP_DeadLetter /\ lanes m' = lanes m /\
      overflow_queue m' = overflow_queue m
  | EC_ReroutedToOverflow =>
      overflow_policy (config m) = OP_SpillToOverflowQueue /\ lanes m' = lanes m /\
      overflow_queue m' = (oq_try_push (overflow_queue m) msg).2
  | _ => False
  end.
Proof.
  unfold overflow_handle, drop_oldest_handle, drop_lowest_priority_handle,
    drop_one_oldest_global, drop_one_lowest_priority, try_drop_oldest_user_lane,
    try_drop_from_lowest_user_lane, spill_to_overflow_handle, dead_letter_handle,
    signal_only_handle, reject_newest_handle, drop_newest_handle, evicted.
  destruct (overflow_policy (config m)) eqn:Ep; intros E;
    try (destruct (pop_first _ _) as [[x u]|] eqn:Epop);
    try (destruct (oq_try_push (overflow_queue m) msg) as [[] oq] eqn:Eo; [|done]);
    injection E as <- <-; cbn [er_code build_result]; try done;
    try (split; [done|]; split; [done|]; split; [by intros (? & ? & ? & ? & _)|set_solver]).
  - split; [|unfold finish_drop; by destruct (mb_empty _)].
    exists x, u. unfold finish_drop; by destruct (mb_empty _).
  - split; [|unfold finish_drop; by destruct (mb_empty _)].
    exists x, u. unfold finish_drop; by destruct (mb_empty _).
Qed.

Definition outcome_of m adm lane msg (p : EnqueueResult * Mailbox T) : Prop :=
  outcome m adm lane msg (er_code p.1) p.2.

Lemma accepted_outcome m0 m adm lane q msg meta :
  lanes m = q -> overflow_queue m = overflow_queue m0 ->
  (adm = true /\ (if lane =? kSystemLaneSentinel then system_full m0 = false
                  else has_room m0 msg = true) /\ q = lanes m0) \/
  (adm = true /\ (lane =? kSystemLaneSentinel) = false /\ has_room m0 msg = false /\ evicted m0 q) ->
  outcome_of m0 adm lane msg
    (let m' := enqueue_reserved m msg meta lane false in (accept_result m', m')).
Proof.
  intros Hl Ho Hq. destruct (enqueue_lanes m0 m q msg meta lane Hl Ho) as [E1 E2].
  cbv zeta in *. set (m' := enqueue_reserved m msg meta lane false) in *. clearbody m'.
  assert (H0 : outcome m0 adm lane msg EC_Accepted m').
  { split; [done|]. rewrite E1. destruct Hq as [(? & ? & ->)|(? & ? & ? & ?)]; [by left|right].
    split; [done|]. by exists q. }
  unfold outcome_of. cbn [fst snd]. by destruct (accept_code m') as [-> | ->].
Qed.

Lemma reserve_ext m m' b :
  config m = config m' -> reservation m = reservation m' -> (reserve m b).1 = (reserve m' b).1.
Proof. intros E1 E2. unfold reserve. rewrite E1, E2. by destruct (try_reserve _ _ _ _). Qed.

Lemma evicted_ext m m' q : config m = config m' -> lanes m = lanes m' -> evicted m q <-> evicted m' q.
Proof. intros E1 E2. unfold evicted. by rewrite E1, E2. Qed.

Lemma has_room_ext m m' x :
  config m = config m' -> reservation m = reservation m' -> has_room m x = has_room m' x.
Proof. intros E1 E2. unfold has_room. by rewrite (reserve_ext m m'). Qed.

Lemma outcome_ext m m2 adm lane msg p :
  config m2 = config m -> lanes m2 = lanes m -> overflow_queue m2 = overflow_queue m ->
  reservation m2 = reservation m -> system_lane_reserved m2 = system_lane_reserved m ->
  outcome_of m2 adm lane msg p -> outcome_of m adm lane msg p.
Proof.
  intros E1 E2 E3 E4 E5. unfold outcome_of, outcome, system_full, evicted.
  by rewrite (has_room_ext m2 m msg E1 E4), E1, E2, E3, E5.
Qed.

Section Reachable.
Context {extra : Z} {tight : bool}.
#[local] Notation reachable := (mailbox_inv (extra:=extra) (tight:=tight)).

Lemma push_overflow_outcome m msg meta lane res :
  reachable m -> user_msg msg -> meta_estimated_bytes meta = bytes_of msg ->
  lane <> kSystemLaneSentinel -> has_room m msg = false ->
  outcome_of m true lane msg (push_overflow m msg meta lane res).
Proof.
  intros Hi Hu Hb Hlane Hroom. unfold push_overflow. rewrite Hb.
  set (m2 := update_pressure_state m true).
  assert (I2 : reachable m2) by (eapply pr_inv, (inv_same m m2); done).
  assert (E2 : config m2 = config m /\ lanes m2 = lanes m /\ overflow_queue m2 = overflow_queue m) by done.
  clearbody m2. destruct E2 as (Ec2 & El2 & Eo2).
  assert (Hover : true = true /\ (lane =? kSystemLaneSentinel) = false /\ has_room m msg = false)
    by (split; [done|]; split; [by apply Z.eqb_neq|done]).
  destruct (overflow_handle _ m2 msg _ res) as [r3 m3] eqn:Eh.
  pose proof (overflow_handle_lanes _ _ _ _ _ _ Eh) as Ho.
  destruct (overflow_handle_spec _ _ _ _ _ _ _ I2 Hu Eh) as (I3 & _). clear Eh.
  rewrite Ec2, El2, Eo2 in Ho.
  assert (Hev : forall q, evicted m2 q <-> evicted m q) by (intros q; by apply evicted_ext).
  destruct (er_code r3) eqn:Ec; try done; try (split; [exact Hover|exact Ho]).
  - destruct Ho as (H1 & H2 & H3 & H4).
    split; [done|]. right. right. left. split; [exact Hover|]. split; [done|]. split; [|done].
    intros [q Hq]. apply H3. exists q. by apply Hev.
  - destruct Ho as [Hev3 Hov]. apply Hev in Hev3. clear Hev.
    destruct (reserve m3 (bytes_of msg)) as [res2 m4] eqn:Er.
    destruct (reserve_spec _ _ _ _ I3 Er) as (r4 & -> & _ & Hr4).
    destruct (decide (res2 = RR_Reserved)) as [->|Hne].
    + apply (accepted_outcome m _ true lane (lanes m3) msg meta); [done|exact Hov|].
      right. destruct Hover as (? & ? & ?). done.
    + set (m5 := update_pressure_state _ true).
      assert (E5 : config m5 = config m3 /\ reservation m5 = r4 /\ lanes m5 = lanes m3 /\
                   overflow_queue m5 = overflow_queue m3) by done.
      clearbody m5. destruct E5 as (F1 & F2 & F3 & F4). rewrite (Hr4 Hne) in F2.
      cut (outcome m true lane msg EC_Rejected m5); [by destruct res2|].
      split; [congruence|]. right. right. right. split; [exact Hover|]. rewrite F3. split; [done|].
      apply bool_decide_eq_false. by rewrite (reserve_ext m5 m3), Er.
Qed.

Lemma try_push_outcome_inv m now msg meta :
  reachable m -> push_ok msg meta ->
  outcome_of m (admitted m now msg meta) (route_lane m meta) msg (try_push order m now msg meta).
Proof.
  intros Hi (Htag & Hsz & Hp). unfold try_push, admitted.
  change (bytes_of msg) with (estimate_node_bytes msg).
  set (meta' := meta_with_bytes meta (estimate_node_bytes msg)).
  destruct (evaluate_policy_chain _ _ _ _) as [adm ps]. cbn [fst].
  set (m1 := set_policies m ps).
  assert (I1 : reachable m1) by (eapply pr_inv, (inv_same m m1); done).
  destruct (bool_decide (decision adm = AD_Accept)); cbn [negb];
    [|split; [done|]; by left].
  change (route_lane m meta) with (route_lane m1 meta').
  assert (Hsys : (route_lane m1 meta' =? kSystemLaneSentinel) = node_is_system msg)
    by (rewrite (route_lane_system m1 meta' I1 Hp); done).
  cbv zeta. destruct (route_lane m1 meta' =? kSystemLaneSentinel) eqn:El.
  - bool_to_prop. rewrite El. unfold push_system.
    change (_ <=? _) with (system_full m). destruct (system_full m) eqn:Ef.
    + split; [done|]. right. by left.
    + apply (accepted_outcome m _ true kSystemLaneSentinel (lanes m) msg meta'); [done|done|].
      by left.
  - unfold push_user. destruct (reserve m1 _) as [res m2] eqn:Er.
    destruct (reserve_spec _ _ _ _ I1 Er) as (r1 & -> & Ht & Hr).
    assert (Hroom : has_room m msg = bool_decide (res = RR_Reserved)).
    { unfold has_room. rewrite (reserve_ext m m1) by done.
      change (bytes_of msg) with (meta_estimated_bytes meta'). by rewrite Er. }
    destruct (decide (res = RR_Reserved)) as [->|Hne].
    { apply (accepted_outcome m _ true (route_lane m1 meta') (lanes m) msg meta'); [done|done|].
      left. rewrite El. by rewrite bool_decide_true in Hroom. }
    rewrite bool_decide_false in Hroom by done.
    specialize (Hr Hne) as ->.
    assert (I2 : reachable (set_reservation m1 (reservation m1)))
      by (eapply pr_inv, (inv_same m1); done).
    apply Z.eqb_neq in El.
    rewrite (has_room_ext m (set_reservation m1 (reservation m1))) in Hroom by done.
    destruct res; [done|..]; eapply (outcome_ext m (set_reservation m1 (reservation m1)));
      try done; by apply push_overflow_outcome.
Qed.
End Reachable.

(** C2. Outcome of [try_push] on every branch, at any point of any history.  An
    accepted message passed the admission chain and is appended to the lane it is
    routed to: when there is room, to the lanes as they were, and otherwise to what
    the drop policy left after it evicted one message.  A refusal says why: the
    admission chain, a full system lane, or no room, in which case the lanes are as
    they were and the policy had nothing to evict, or they are short of the message
    that was evicted in vain, since there is still no room.  A message that the
    policy drops, dead-letters or spills found no room, and only the spilled one is
    kept, at the end of the overflow queue. *)
Theorem try_push_outcome actor c lim pol cb os now msg meta :
  construction_ok c -> Forall op_ok os -> push_ok msg meta ->
  let m := mb_run (mailbox_init actor c lim pol cb) os in
  let r := (try_push order m now msg meta).1 in
  let m' := (try_push order m now msg meta).2 in
  outcome m (admitted m now msg meta) (route_lane m meta) msg (er_code r) m'.
Proof.
  intros Hc Ho Hp m. eapply try_push_outcome_inv; [|done]. by apply mb_history_inv.
Qed.

(** The header documents the code [DroppedExisting] for a push that evicted a
    message; the push is answered like one that found room. *)
Theorem eviction_reported_accepted m now msg meta :
  er_code (try_push order m now msg meta).1 <> EC_DroppedExisting.
Proof.
  assert (Ha : forall m', er_code (accept_result (T:=T) m') <> EC_DroppedExisting).
  { intros m'. by destruct (accept_code m') as [-> | ->]. }
  unfold try_push. destruct (evaluate_policy_chain _ _ _ _) as [adm ps].
  destruct (negb _); [done|]. cbv zeta. destruct (_ =? _).
  - unfold push_system. destruct (_ <=? _); [done|]. apply Ha.
  - unfold push_user. destruct (reserve _ _) as [[] m1]; [apply Ha|..];
      unfold push_overflow; destruct (overflow_handle _ _ _ _ _) as [r m2];
      destruct (er_code r) eqn:Ec; cbn; rewrite ?Ec; try done;
      destruct (reserve m2 _) as [[] m3]; try done; apply Ha.
Qed.

(** ** Order of delivery *)

(** [x] heads the system lane, or the first non-empty active user lane while
    the system lane is empty. *)
Definition highest_head (q : MultiLaneQueue T) (x : T) : Prop :=
  (exists s, system_lane q = x :: s) \/
  (system_lane q = [] /\
   exists i l, (i < Z.to_nat (num_user_lanes q))%nat /\ user_lanes q !! i = Some (x :: l) /\
     forall j, (j < i)%nat -> default [] (user_lanes q !! j) = []).

Lemma mlq_dequeue_highest q x q' : mlq_dequeue q = Some (x, q') -> highest_head q x.
Proof.
  unfold mlq_dequeue. destruct (system_lane q) as [|y s] eqn:Es.
  - destruct (pop_first _ _) as [[y u]|] eqn:Ep; [|done]. intros; simplify_eq.
    right. split; [done|].
    destruct (pop_first_Some _ _ _ _ Ep) as (pre & i & post & l & Ho & Hi & _ & Hpre).
    exists i, l. unfold user_order in Ho.
    assert (Hlt : i ∈ seq 0 (Z.to_nat (num_user_lanes q)))
      by (rewrite Ho; apply elem_of_app; right; apply list_elem_of_here).
    apply elem_of_seq in Hlt. split; [lia|]. split; [done|]. intros j Hj.
    assert (Hpl : seq 0 (Z.to_nat (num_user_lanes q)) !! length pre = Some i)
      by (rewrite Ho; by apply list_lookup_middle).
    apply lookup_seq in Hpl as [Hpl _]. simpl in Hpl.
    assert (Hjp : pre !! j = Some j).
    { assert (Hlk : (pre ++ i :: post) !! j = Some j).
      { rewrite <- Ho. apply lookup_seq. lia. }
      rewrite lookup_app_l in Hlk by lia. done. }
    by eapply Forall_lookup_1 in Hpre.
  - intros; simplify_eq. left. by exists s.
Qed.

(** The limiter lets [x] pass: there is none, [x] is a system message, or a token
    was taken. *)
Definition limiter_passes m (now : Z) (x : T) : bool :=
  match rate_limiter m with
  | Some l => node_is_system x || (try_consume l now).1
  | None => true
  end.

(** [dequeue] by the head of the lanes: nothing to take, taken, or held back by
    the limiter and put at the end of the first lane. *)
Definition dequeued m now (r : option T * Mailbox T) : Prop :=
  match r.1 with
  | Some x =>
      highest_head (lanes m) x /\ limiter_passes m now x = true /\
      (overflow_policy (config m) <> OP_SpillToOverflowQueue ->
       mlq_dequeue (lanes m) = Some (x, lanes r.2))
  | None =>
      (mb_empty m = true /\ lanes r.2 = lanes m) \/
      exists x q, highest_head (lanes m) x /\ mlq_dequeue (lanes m) = Some (x, q) /\
        node_is_system x = false /\ limiter_passes m now x = false /\
        lanes r.2 = mlq_enqueue q x 0
  end.

(** C17. Delivery order and progress of [dequeue], of any mailbox.  A message that
    is returned heads the highest-priority non-empty lane and the rate limiter let
    it pass, and unless the overflow queue refills the lanes exactly it leaves them.
    Nothing is returned only when the active lanes are empty, which are then left
    alone, or when the head is a user message for which the limiter has no token: it
    is put at the end of the first lane. *)
Theorem dequeue_order m now : dequeued m now (dequeue m now).
Proof.
  unfold dequeue. cbv zeta. change (lanes (set_was_empty m true)) with (lanes m).
  destruct (mlq_dequeue (lanes m)) as [[node q]|] eqn:Ed.
  2:{ left. apply mlq_dequeue_None in Ed. split; [done|]. cbn [snd]. unfold self_notify. by destruct (_ && _). }
  set (m1 := set_mb_lanes (set_was_empty m true) q).
  destruct (rate_gate_fields m1 now node) as (G1 & _ & G3 & _ & _ & _ & _ & G8).
  assert (Hpass : (rate_gate m1 now node).1 = limiter_passes m now node).
  { unfold rate_gate, limiter_passes. change (rate_limiter m1) with (rate_limiter m).
    destruct (rate_limiter m) as [l|]; [|done]. destruct (node_is_system node); [done|].
    by destruct (try_consume l now). }
  destruct (rate_gate m1 now node) as [ok m2]; cbn [fst snd] in *. destruct ok.
  - split; [by eapply mlq_dequeue_highest|]. split; [done|].
    intros Hp. cbn [snd]. rewrite Ed. do 2 f_equal. transitivity (lanes m2); [by rewrite G3|].
    change (config m) with (config m1) in Hp. rewrite <- G1 in Hp. clear -Hp. unfold consume_node.
    set (m3 := if negb (mb_empty _) then _ else _).
    assert (H3 : lanes m3 = lanes m2 /\ config m3 = config m2).
    { unfold m3. destruct (node_is_system node), (negb _); done. }
    clearbody m3. destruct H3 as [H3 H4].
    unfold drain_overflow. rewrite bool_decide_false by (by rewrite H4).
    unfold self_notify. by destruct (_ && _).
  - right. exists node, q. split; [by eapply mlq_dequeue_highest|]. split; [done|].
    split; [by destruct (node_is_system node); [specialize (G8 eq_refl)|]|]. split; [done|].
    cbn [snd]. destruct (enqueue_reserved_fields m2 node meta_default 0 true) as (_ & _ & E3 & _).
    change (lanes (enqueue_reserved m2 node meta_default 0 true) = mlq_enqueue q node 0). by rewrite E3, G3.
Qed.

(** ** Overflow drain *)

(** Enough fuel: past the length of the overflow queue the loop has stopped
    by itself, so more fuel changes nothing. *)
Lemma drain_loop_fuel fuel k m :
  (length (oq_queue (overflow_queue m)) < fuel)%nat ->
  drain_loop (fuel + k) m = drain_loop fuel m.
Proof.
  revert m. induction fuel as [|fuel IH]; intros m Hf; [lia|]. cbn [Nat.add drain_loop].
  unfold oq_try_pop. destruct (oq_queue (overflow_queue m)) as [|x oq] eqn:Eq; [done|].
  unfold reserve. destruct (try_reserve _ _ _ _) as [[] r]; try done.
  apply IH.
  match goal with |- context [enqueue_reserved ?m0 ?x0 ?me ?l ?s] =>
    destruct (enqueue_reserved_fields m0 x0 me l s) as (_ & _ & _ & -> & _) end.
  simpl in *. lia.
Qed.

Lemma sum_bytes_elem (P : T -> Prop) x l :
  (forall y, P y -> sized y) -> Forall P l -> x ∈ l -> bytes_of x <= sum_bytes l.
Proof.
  intros HP Hl Hx. unfold sum_bytes. induction Hl as [|y l Hy Hl IH]; [by inversion Hx|].
  rewrite sum_by_cons. pose proof (sum_bytes_nonneg P l HP Hl) as Hnn. unfold sum_bytes in Hnn.
  apply HP in Hy. unfold sized in Hy. apply elem_of_cons in Hx as [->|Hx]; [lia|].
  specialize (IH Hx). lia.
Qed.

(** No lane of a reachable mailbox holds a user message larger than its byte
    capacity. *)
Lemma oversized_not_in_lanes extra m msg :
  mailbox_inv (extra:=extra) (tight:=true) m -> node_is_system msg = false ->
  0 < max_bytes (capacity (config m)) < bytes_of msg ->
  ~ (msg ∈ concat (user_lanes (lanes m)) ++ system_lane (lanes m)).
Proof.
  intros [Hc L _] Hs [Hp Hb] Hin. apply elem_of_app in Hin as [Hin|Hin].
  - pose proof (led_bytes_max L eq_refl Hp) as Hmax.
    apply list_elem_of_In, in_concat in Hin as (l & Hl & Hx).
    apply list_elem_of_In in Hl, Hx. pose proof (led_user L) as HU.
    apply list_elem_of_lookup in Hl as [i Hi].
    pose proof (Forall_lookup_1 _ _ _ _ HU Hi) as Hl.
    pose proof (sum_bytes_elem user_msg msg l ltac:(unfold user_msg; tauto) Hl Hx).
    rewrite <- (take_drop_middle _ _ _ Hi), sum_by_app, sum_by_cons in Hmax.
    pose proof (user_bytes_nonneg _ (Forall_take _ i _ HU)).
    pose proof (user_bytes_nonneg _ (Forall_drop _ (S i) _ HU)). lia.
  - pose proof (led_sys L) as HS. rewrite Forall_forall in HS.
    destruct (HS _ Hin). congruence.
Qed.

Lemma push_user_spills extra tight m msg meta lane :
  mailbox_inv (extra:=extra) (tight:=tight) m -> sized msg -> meta_estimated_bytes meta = bytes_of msg ->
  reservation m = reservation_init ->
  overflow_policy (config m) = OP_SpillToOverflowQueue ->
  0 < max_bytes (capacity (config m)) < bytes_of msg ->
  er_code (push_user m msg meta lane).1 = EC_ReroutedToOverflow.
Proof.
  intros Hi Hsz Hb Hr Hpol [Hmb Hlt]. unfold push_user. rewrite Hb.
  destruct (reserve m (bytes_of msg)) as [res m1] eqn:Er.
  destruct (reserve_spec _ _ _ _ Hi Er) as (r & -> & Ht & _).
  pose proof (mi_config _ Hi) as Hc. unfold sized in Hsz.
  pose proof (try_reserve_spec _ _ _ _ _ _
    (reserved_wf _ _ _ _ _ _ (mi_ledger _ Hi)) (cw_messages _ Hc) Ht) as Hs.
  pose proof (cw_messages _ Hc). rewrite Hr in Hs. simpl in Hs.
  destruct res.
  - destruct Hs as (_ & Hs & _). specialize (Hs Hmb). rewrite u64_small in Hs by lia. lia.
  - lia.
  - unfold push_overflow. simpl. by rewrite Hpol.
Qed.

(** A message larger than the byte capacity is reported accepted by the
    spill policy, yet no later history of operations puts it in a lane. *)
Theorem oversized_spill_not_delivered actor c lim cb os now msg meta :
  construction_ok c -> Forall op_ok os -> forallb keeps_config os = true ->
  push_ok msg meta -> node_is_system msg = false ->
  overflow_policy c = OP_SpillToOverflowQueue ->
  0 < max_bytes (capacity c) < bytes_of msg ->
  let m := mailbox_init actor c lim [] cb in
  let r := (try_push order m now msg meta).1 in
  let m1 := mb_run (try_push order m now msg meta).2 os in
  (er_code r = EC_ReroutedToOverflow /\ er_accepted r = true) /\
  ~ (msg ∈ concat (user_lanes (lanes m1)) ++ system_lane (lanes m1)).
Proof.
  intros Hc Ho Hk Hp Hs Hpol Hb m r m1.
  pose proof (mailbox_init_inv actor c lim [] cb Hc) as Hi. fold m in Hi.
  assert (Hcap : max_bytes (capacity (config m)) = max_bytes (capacity c) /\
                 overflow_policy (config m) = overflow_policy c).
  { unfold m, mailbox_init, clamp_capacity. simpl. by destruct (_ =? 0). }
  destruct Hcap as [Hcap Hpo]. split.
  - assert (He : er_code r = EC_ReroutedToOverflow).
    { destruct Hp as (Htag & Hsz & Hprio). unfold r, try_push.
      change (admission_policies m) with (@nil IAdmissionPolicy).
      cbn [evaluate_policy_chain]. cbv zeta. rewrite bool_decide_true by done. cbn [negb].
      set (meta' := meta_with_bytes meta (estimate_node_bytes msg)).
      change (set_policies m []) with m.
      rewrite (route_lane_system m meta' Hi Hprio).
      change (meta_type_tag meta') with (meta_type_tag meta). rewrite Htag, Hs.
      apply (push_user_spills 0 true); try done; by rewrite ?Hpo, ?Hcap. }
    split; [done|]. unfold er_accepted. by rewrite He.
  - assert (Hops : Forall op_ok (OpTryPush now msg meta :: os)) by (by constructor).
    pose proof (mb_run_inv 0 true m _ Hi Hops) as I1. cbn [forallb keeps_config andb] in I1.
    rewrite Hk in I1. eapply oversized_not_in_lanes; [exact I1|done|].
    change m1 with (mb_run m (OpTryPush now msg meta :: os)).
    by rewrite (mb_run_config 0 true m _ Hi Hops), Hcap.
Qed.
End Histories.

(** ** Batches *)

(** A mailbox of four messages that rejects on overflow, with 64-byte
    messages of user type. *)
Definition demo_config (cap bytes : Z) (p : OverflowPolicy) : MailboxConfig :=
  mkConfig (mkCapacity cap bytes) 2 p (dlit 4 5) (dlit 1 2) (double_of_Z 1) 2 0 100 true.
Definition demo_msg (n : Z) : TypedMessage := mkTyped 4096 0 n.
Definition demo_meta : MailboxEnvelopeMeta := mkMeta 7 4096 0 INT64_MAX 0 false.
Definition demo_mailbox (cap bytes : Z) (p : OverflowPolicy) : Mailbox TypedMessage :=
  mailbox_init 1 (demo_config cap bytes p) None [] false.

(** [try_push_batch] reserves one slot for the whole batch while [dequeue]
    releases one per message.  After a batch of two and its two dequeues the
    mailbox of four is empty, its reservation counter has wrapped to
    [UINT32_MAX], and it refuses the next message. *)
Theorem batch_underflows_reservation :
  let node := typed_node 64 in
  let m := demo_mailbox 4 0 OP_RejectNewest in
  let '(r, m1) := try_push_batch (fun _ => []) m 0 [demo_msg 1; demo_msg 2] demo_meta in
  let '(x1, m2) := dequeue m1 0 in
  let '(x2, m3) := dequeue m2 0 in
  let '(r', m4) := try_push (fun _ => []) m3 0 (demo_msg 3) demo_meta in
  er_code r = EC_Accepted /\ x1 = Some (demo_msg 1) /\ x2 = Some (demo_msg 2) /\
  mb_empty m3 = true /\ reserved_messages (reservation m3) = UINT32_MAX /\
  er_code r' = EC_Rejected.
Proof. vm_compute. repeat split. Qed.

(** ** Witnesses *)

#[local] Instance demo_node : MailboxNode TypedMessage := typed_node 64.

Lemma demo_construction_ok cap bytes p :
  0 <= cap <= UINT32_MAX -> 0 <= bytes < 9223372036854775808 ->
  construction_ok (demo_config cap bytes p).
Proof. intros. unfold construction_ok, UINT32_MAX in *; simpl. lia. Qed.

Lemma demo_push_ok n : push_ok (demo_msg n) demo_meta.
Proof. split; [done|]. split; [by split|done]. Qed.

Lemma demo_ops_ok ns : Forall op_ok ((fun n => OpTryPush 0 (demo_msg n) demo_meta) <$> ns).
Proof. induction ns; constructor; [apply demo_push_ok|done]. Qed.

(** A push, a batch of two and a dequeue: two messages wait, one slot is taken. *)
Definition batch_history : list (MbOp (T:=TypedMessage)) :=
  [OpTryPush 0 (demo_msg 1) demo_meta; OpBatch 0 [demo_msg 2; demo_msg 3] demo_meta; OpDequeue 0].

Lemma batch_history_ok : Forall op_ok batch_history.
Proof.
  repeat constructor; try done; apply demo_push_ok.
Qed.

Lemma mailbox_accounting_witness :
  let m0 := demo_mailbox 4 200 OP_DropOldest in
  let m := mb_run (fun _ => []) m0 batch_history in
  concat (user_lanes (lanes m)) = [demo_msg 2; demo_msg 3] /\
  reserved_messages (reservation m) = u32 (2 - unreserved (fun _ => []) m0 batch_history) /\
  unreserved (fun _ => []) m0 batch_history = 1.
Proof.
  assert (Hc : construction_ok (demo_config 4 200 OP_DropOldest))
    by (apply demo_construction_ok; unfold UINT32_MAX; lia).
  pose proof (mailbox_accounting (fun _ => []) 1 (demo_config 4 200 OP_DropOldest)
    None [] false batch_history Hc batch_history_ok) as (_ & _ & H & _).
  cbv zeta in *. split; [vm_compute; reflexivity|]. split; [exact H|vm_compute; reflexivity].
Defined.

Lemma wakeup_edge_witness :
  mailbox_was_empty (demo_mailbox 4 200 OP_DropOldest)
  = mb_empty (demo_mailbox 4 200 OP_DropOldest).
Proof.
  refine (proj1 (wakeup_edge (fun _ => []) 1 (demo_config 4 200 OP_DropOldest)
    None [] false [] (OpTryPush 0 (demo_msg 1) demo_meta) _ _ _ _ _)).
  - apply demo_construction_ok; unfold UINT32_MAX; lia.
  - constructor.
  - apply demo_push_ok.
  - reflexivity.
  - done.
Defined.

Lemma try_push_outcome_witness :
  let m := demo_mailbox 4 200 OP_DropOldest in
  let r := (try_push (fun _ => []) m 0 (demo_msg 1) demo_meta).1 in
  outcome m (admitted (fun _ => []) m 0 (demo_msg 1) demo_meta) (route_lane m demo_meta) (demo_msg 1) (er_code r)
    (try_push (fun _ => []) m 0 (demo_msg 1) demo_meta).2.
Proof.
  refine (try_push_outcome (fun _ => []) 1 (demo_config 4 200 OP_DropOldest)
    None [] false [] 0 (demo_msg 1) demo_meta _ _ _).
  - apply demo_construction_ok; unfold UINT32_MAX; lia.
  - constructor.
  - apply demo_push_ok.
Defined.

Lemma oversized_spill_witness :
  let m := demo_mailbox 4 10 OP_SpillToOverflowQueue in
  er_accepted (try_push (fun _ => []) m 0 (demo_msg 1) demo_meta).1 = true.
Proof.
  refine (proj2 (proj1 (oversized_spill_not_delivered (fun _ => []) 1
    (demo_config 4 10 OP_SpillToOverflowQueue) None false [] 0 (demo_msg 1) demo_meta _ _ _ _ _ _ _))).
  - apply demo_construction_ok; unfold UINT32_MAX; lia.
  - constructor.
  - reflexivity.
  - apply demo_push_ok.
  - reflexivity.
  - reflexivity.
  - split; reflexivity.
Defined.
