(* ===== verification/TimingWheel.v ===== *)
(** * The hierarchical timing wheel

    [timer/timing_wheel.cpp].  A [Timer*] is named by the base id it was
    allocated with, so [timer_map_] is also the store of the timers and the
    buckets hold ids; [levels_[l].buckets[b]] is the list stored at [(l, b)],
    absent meaning empty.  [mutex_] makes every operation atomic; [advance]
    returns the callbacks it runs after releasing the lock. *)

From S2P Require Import Prelude.
From stdpp Require Import base numbers list gmap.

#[local] Open Scope Z_scope.

Definition kBuckets : Z := 256.
Definition kMaxAdvanceNs : Z := 100000000.
Definition base_id_mask : Z := 281474976710655.   (* 0xFFFFFFFFFFFF *)

Section Wheel.
Context {C : Type}.   (* callbacks *)

Record Timer := mkTimer {
  expire_ns : Z;
  timer_id : Z;      (* base id, level in the bits from 48 up *)
  callback : C;
  t_level : nat;
  t_bucket : Z
}.

Record TimingWheel := mkWheel {
  tick_ns : Z;
  num_levels : nat;
  level_ranges : list Z;
  buckets : gmap (nat * Z) (list Z);
  current_time : Z;
  next_timer_id : Z;
  min_deadline : Z;
  timer_map : gmap Z Timer
}.

Definition bget (B : gmap (nat * Z) (list Z)) (l : nat) (b : Z) : list Z := default [] (B !! (l, b)).
Definition bset (B : gmap (nat * Z) (list Z)) (l : nat) (b : Z) (ids : list Z) :=
  <[(l, b) := ids]> B.

(** [bucket.erase] of one pointer. *)
Fixpoint erase_ptr (id : Z) (ids : list Z) : list Z :=
  match ids with
  | [] => []
  | x :: l => if x =? id then l else x :: erase_ptr id l
  end.

Definition set_store (w : TimingWheel) (B : gmap (nat * Z) (list Z)) (M : gmap Z Timer) : TimingWheel :=
  mkWheel (tick_ns w) (num_levels w) (level_ranges w) B (current_time w) (next_timer_id w)
    (min_deadline w) M.
Definition set_min (w : TimingWheel) (m : Z) : TimingWheel :=
  mkWheel (tick_ns w) (num_levels w) (level_ranges w) (buckets w) (current_time w)
    (next_timer_id w) m (timer_map w).
Definition set_time (w : TimingWheel) (t : Z) : TimingWheel :=
  mkWheel (tick_ns w) (num_levels w) (level_ranges w) (buckets w) t (next_timer_id w)
    (min_deadline w) (timer_map w).

(** The constructor: level [l] spans [tick_ns * 256^(l+1)], in 64 bits. *)
Definition wheel_init (tick : Z) (levels : nat) (now : Z) : TimingWheel :=
  mkWheel tick levels ((fun l => Nat.iter (S l) (fun r => i64 (r * 256)) tick) <$> seq 0 levels) ∅ now 1
    INT64_MAX ∅.

(** The [for] loop that divides an offset down to a level. *)
Definition scale_down (level : nat) (offset : Z) : Z := Nat.iter level (fun x => x ÷ 256) offset.

(** Bucket of a time at a level: the cast to 32 bits, then the mask. *)
Definition bucket_of (w : TimingWheel) (level : nat) (t : Z) : Z :=
  Z.land (u32 (scale_down level (t ÷ tick_ns w))) (kBuckets - 1).

(** First level whose range exceeds [diff]; the last one otherwise. *)
Definition find_level (w : TimingWheel) (diff : Z) : nat :=
  match list_find (fun r => diff < r) (level_ranges w) with
  | Some (l, _) => l
  | None => num_levels w - 1
  end.

Definition with_slot (t : Timer) (id : Z) (level : nat) (bucket : Z) : Timer :=
  mkTimer (expire_ns t) id (callback t) level bucket.

(** [insert_timer]: the timer named [id] is not in a bucket yet. *)
Definition insert_timer (w : TimingWheel) (id : Z) (t : Timer) : TimingWheel :=
  let expire := Z.max (expire_ns t) (current_time w) in
  let level := find_level w (expire - current_time w) in
  let bucket := bucket_of w level expire in
  let tid := Z.lor (timer_id t) (Z.shiftl (Z.of_nat level) 48) in
  set_store w (bset (buckets w) level bucket (bget (buckets w) level bucket ++ [id]))
    (<[id := with_slot t tid level bucket]> (timer_map w)).

(** [add_timer_internal]: the returned id carries the level bits. *)
Definition add_timer_internal (w : TimingWheel) (expire : Z) (cb : C) : Z * TimingWheel :=
  let id := next_timer_id w in
  let t := mkTimer expire id cb 0 0 in
  let w := mkWheel (tick_ns w) (num_levels w) (level_ranges w) (buckets w) (current_time w)
             (u64 (id + 1)) (min_deadline w) (<[id := t]> (timer_map w)) in
  let w := if expire <? min_deadline w then set_min w expire else w in
  let w := insert_timer w id t in
  (default 0 (timer_id <$> (timer_map w !! id)), w).

Definition schedule_at (w : TimingWheel) (expire : Z) (cb : C) : Z * TimingWheel :=
  add_timer_internal w expire cb.

Definition schedule (w : TimingWheel) (delay : Z) (cb : C) : Z * TimingWheel :=
  schedule_at w (i64 (current_time w + delay)) cb.

(** Every bucket, level by level. *)
Definition all_ids (w : TimingWheel) : list Z :=
  l ← seq 0 (num_levels w); b ← Z.of_nat <$> seq 0 256; bget (buckets w) l b.

(** [recompute_min_deadline]. *)
Definition recompute_min_deadline (w : TimingWheel) : TimingWheel :=
  set_min w
    (foldl (fun m id => match timer_map w !! id with
                        | Some t => Z.min m (expire_ns t)
                        | None => m end) INT64_MAX (all_ids w)).

Definition wheel_empty (w : TimingWheel) : bool := bool_decide (all_ids w = []).
Definition wheel_size (w : TimingWheel) : nat := length (all_ids w).

(** [remove_timer]. *)
Definition remove_timer (w : TimingWheel) (tid : Z) : option Timer * TimingWheel :=
  let id := Z.land tid base_id_mask in
  match timer_map w !! id with
  | None => (None, w)
  | Some t =>
      let M := delete id (timer_map w) in
      let B := if bool_decide (t_level t < num_levels w)%nat && (t_bucket t <? kBuckets)
               then bset (buckets w) (t_level t) (t_bucket t)
                      (erase_ptr id (bget (buckets w) (t_level t) (t_bucket t)))
               else buckets w in
      (Some t, set_store w B M)
  end.

(** [cancel]. *)
Definition wheel_cancel (w : TimingWheel) (tid : Z) : bool * TimingWheel :=
  match remove_timer w tid with
  | (None, w) => (false, w)
  | (Some t, w) =>
      (true, if expire_ns t <=? min_deadline w then recompute_min_deadline w else w)
  end.

(** ** Advance *)

(** One timer of the bucket being scanned: fire, cascade to the level below,
    or leave. *)
Definition visit (now : Z) (level : nat) (bucket : Z) (s : TimingWheel * list C) (id : Z)
  : TimingWheel * list C :=
  let '(w, pending) := s in
  match timer_map w !! id with
  | None => s
  | Some t =>
      let erased := bset (buckets w) level bucket (erase_ptr id (bget (buckets w) level bucket)) in
      if expire_ns t <=? now then
        (set_store w erased (delete (Z.land (timer_id t) base_id_mask) (timer_map w)),
         pending ++ [callback t])
      else
        match level with
        | O => s
        | S lower =>
            let b := bucket_of w lower (expire_ns t) in
            let tid := Z.lor (Z.land (timer_id t) base_id_mask) (Z.shiftl (Z.of_nat lower) 48) in
            (set_store w (bset erased lower b (bget erased lower b ++ [id]))
               (<[id := with_slot t tid lower b]> (timer_map w)), pending)
        end
  end.

Definition scan_bucket (now : Z) (level : nat) (s : TimingWheel * list C) (bucket : Z)
  : TimingWheel * list C :=
  foldl (visit now level bucket) s (bget (buckets s.1) level bucket).

(** The buckets [advance] scans at a level. *)
Definition level_slots (w : TimingWheel) (old_time now : Z) (level : nat) : list Z :=
  let start_bucket := bucket_of w level old_time in
  let end_bucket := bucket_of w level now in
  let count := u32 (end_bucket - start_bucket + kBuckets) mod kBuckets + 1 in
  (fun i => (start_bucket + Z.of_nat i) mod kBuckets) <$> seq 0 (Z.to_nat count).

Definition scan_level (old_time now : Z) (s : TimingWheel * list C) (level : nat)
  : TimingWheel * list C :=
  foldl (scan_bucket now level) s (level_slots s.1 old_time now level).

(** The time an advance to [now_ns] reaches. *)
Definition capped (w : TimingWheel) (now_ns : Z) : Z :=
  if kMaxAdvanceNs <? now_ns - current_time w then current_time w + kMaxAdvanceNs else now_ns.

(** [advance]: the callbacks to run, and the wheel. *)
Definition advance (w : TimingWheel) (now_ns : Z) : list C * TimingWheel :=
  let old_time := current_time w in
  if now_ns <=? old_time then ([], w)
  else
    let now := capped w now_ns in
    let '(w, pending) :=
      foldl (scan_level old_time now) (set_time w now, []) (seq 0 (num_levels w)) in
    (pending, if bool_decide (pending = []) then w else recompute_min_deadline w).
End Wheel.
Arguments Timer : clear implicits.
Arguments TimingWheel : clear implicits.
