(* ===== verification/TimingWheelSpec.v ===== *)
(** * The timing wheel implements a set of timers

    The abstract state of the wheel is a finite map from timer ids to deadline
    and callback.  [schedule_at], [cancel] and [advance] refine insertion,
    deletion and "run exactly the timers that are due". *)

From S2P Require Import Prelude TimingWheel.
From stdpp Require Import base numbers list gmap.

#[local] Open Scope Z_scope.

(** ** Ids and buckets as numbers *)

Lemma base_id_of_lor id lv :
  0 <= id < 281474976710656 -> 0 <= lv ->
  Z.land (Z.lor id (Z.shiftl lv 48)) base_id_mask = id.
Proof.
  intros Hid Hlv. change base_id_mask with (Z.ones 48).
  rewrite Z.land_lor_distr_l, !Z.land_ones by lia.
  rewrite Z.shiftl_mul_pow2 by lia. rewrite Z.mod_mul by lia.
  rewrite Z.mod_small by (change (2 ^ 48) with 281474976710656; lia). apply Z.lor_0_r.
Qed.

Lemma scale_down_nonneg l x : 0 <= x -> 0 <= scale_down l x.
Proof.
  intros Hx. unfold scale_down. induction l as [|l IH]; simpl; [done|]. by apply Z.quot_pos.
Qed.

Lemma scale_down_mono l x y : 0 <= x <= y -> scale_down l x <= scale_down l y.
Proof.
  intros Hx. unfold scale_down. induction l as [|l IH]; simpl; [lia|].
  pose proof (scale_down_nonneg l x ltac:(lia)). unfold scale_down in *.
  apply Z.quot_le_mono; lia.
Qed.

(** Dividing two offsets brings them closer. *)
Lemma scale_down_gap l x y d :
  0 <= x <= y -> y - x <= d -> 0 <= d -> scale_down l y - scale_down l x <= d.
Proof.
  intros Hx Hd Hp. unfold scale_down. induction l as [|l IH]; simpl; [lia|].
  pose proof (scale_down_nonneg l x ltac:(lia)) as Hnx.
  pose proof (scale_down_mono l x y Hx) as Hm. unfold scale_down in *.
  rewrite !Z.quot_div_nonneg by lia.
  Z.to_euclidean_division_equations. lia.
Qed.

Section Spec.
Context {C : Type}.
Implicit Types w : TimingWheel C.
Implicit Types M : gmap Z (Timer C).

Definition idx w (l : nat) (t : Z) : Z := scale_down l (t ÷ tick_ns w).

Lemma bucket_of_idx w l t : 0 < tick_ns w -> 0 <= t -> bucket_of w l t = idx w l t mod 256.
Proof.
  intros Ht H0. unfold bucket_of, idx, kBuckets. change (256 - 1) with (Z.ones 8).
  rewrite Z.land_ones by lia. unfold u32. change (2 ^ 8) with 256.
  rewrite Z.mod_mod_divide; [done|]. exists 16777216. lia.
Qed.

(** The buckets scanned at a level hold every time the advance passes. *)
Lemma level_slots_cover w old now t l :
  0 < tick_ns w -> 0 <= old <= t -> t <= now -> now - old <= 255 * tick_ns w ->
  bucket_of w l t ∈ level_slots w old now l.
Proof.
  intros Ht Hot Htn Hgap. unfold level_slots, kBuckets.
  rewrite !bucket_of_idx by lia. unfold idx.
  assert (Hq : 0 <= old ÷ tick_ns w /\ old ÷ tick_ns w <= t ÷ tick_ns w /\
               t ÷ tick_ns w <= now ÷ tick_ns w /\ now ÷ tick_ns w - old ÷ tick_ns w <= 255).
  { rewrite !Z.quot_div_nonneg by lia. repeat split.
    - apply Z.div_pos; lia.
    - apply Z.div_le_mono; lia.
    - apply Z.div_le_mono; lia.
    - assert (now / tick_ns w <= (old + 255 * tick_ns w) / tick_ns w)
        by (apply Z.div_le_mono; lia).
      rewrite Z.div_add in H by lia. lia. }
  destruct Hq as (Hq0 & Hq1 & Hq2 & Hq3).
  pose proof (scale_down_nonneg l _ Hq0) as S0.
  pose proof (scale_down_mono l _ _ (conj Hq0 Hq1)) as S1.
  pose proof (scale_down_mono l (t ÷ tick_ns w) (now ÷ tick_ns w) ltac:(lia)) as S2.
  pose proof (scale_down_gap l (old ÷ tick_ns w) (now ÷ tick_ns w) 255 ltac:(lia) ltac:(lia) ltac:(lia)) as S3.
  set (a := scale_down l (old ÷ tick_ns w)) in *. set (x := scale_down l (t ÷ tick_ns w)) in *.
  set (z := scale_down l (now ÷ tick_ns w)) in *.
  assert (Hcount : u32 (z mod 256 - a mod 256 + 256) mod 256 + 1 = z - a + 1).
  { unfold u32. rewrite Z.mod_mod_divide by (exists 16777216; lia).
    Z.to_euclidean_division_equations. lia. }
  rewrite Hcount. apply list_elem_of_fmap. exists (Z.to_nat (x - a)).
  split; [|apply elem_of_seq; lia]. rewrite Z2Nat.id by lia.
  rewrite Zplus_mod_idemp_l. f_equal. lia.
Qed.

(** ** Lists of pointers *)

Lemma elem_of_erase id x ids : NoDup ids -> x ∈ erase_ptr id ids <-> x ∈ ids /\ x <> id.
Proof.
  induction 1 as [|y l Hy _ IH]; simpl; [set_solver|].
  destruct (y =? id) eqn:E; bool_to_prop; subst; set_solver.
Qed.

Lemma NoDup_erase id ids : NoDup ids -> NoDup (erase_ptr id ids).
Proof.
  induction 1 as [|y l Hy Hl IH]; simpl; [by apply NoDup_nil|].
  destruct (y =? id); [done|]. constructor; [|done].
  intros H. apply (elem_of_erase id y l Hl) in H. tauto.
Qed.

Lemma bget_bset B l b ids l' b' :
  bget (bset B l b ids) l' b' = if decide ((l', b') = (l, b)) then ids else bget B l' b'.
Proof.
  unfold bget, bset. destruct (decide _) as [E|E].
  - simplify_eq. by rewrite lookup_insert_eq.
  - by rewrite lookup_insert_ne.
Qed.

(** ** The invariant *)

(** Store and buckets agree, and every timer sits in the bucket of its deadline
    as of time [T] (a deadline already past counts as [T]). *)
Record store_ok w (T : Z) : Prop := mkStoreOk {
  so_tick : 0 < tick_ns w;
  so_levels : (0 < num_levels w)%nat;
  so_ranges : length (level_ranges w) = num_levels w;
  so_time : 0 <= T;
  so_next : 0 < next_timer_id w <= 281474976710656;
  so_ids : forall id t, timer_map w !! id = Some t ->
    0 < id < next_timer_id w /\ Z.land (timer_id t) base_id_mask = id /\
    (t_level t < num_levels w)%nat /\
    t_bucket t = bucket_of w (t_level t) (Z.max (expire_ns t) T);
  so_slots : forall l b id, id ∈ bget (buckets w) l b <->
    exists t, timer_map w !! id = Some t /\ t_level t = l /\ t_bucket t = b;
  so_nodup : forall l b, NoDup (bget (buckets w) l b)
}.

(** [m] is the least deadline of [M], [INT64_MAX] when there is none. *)
Definition least_deadline M (m : Z) : Prop :=
  (forall id t, M !! id = Some t -> m <= expire_ns t) /\
  (m = INT64_MAX \/ exists id t, M !! id = Some t /\ expire_ns t = m).

Record wheel_ok w : Prop := mkWheelOk {
  wo_store : store_ok w (current_time w);
  wo_min : least_deadline (timer_map w) (min_deadline w)
}.

(** The abstract state: deadline and callback of every timer. *)
Definition abs_timer (t : Timer C) : Z * C := (expire_ns t, callback t).
Definition timers w : gmap Z (Z * C) := abs_timer <$> timer_map w.

(** ** One visit *)

(** What scanning does: it fires the timers [F], all due at [now]; it keeps
    the deadline and callback of the others, and does not move a due timer. *)
Record scans (now : Z) (s s' : TimingWheel C * list C) : Prop := mkScans {
  sc_frame : tick_ns s'.1 = tick_ns s.1 /\ num_levels s'.1 = num_levels s.1 /\
             level_ranges s'.1 = level_ranges s.1 /\ current_time s'.1 = current_time s.1 /\
             next_timer_id s'.1 = next_timer_id s.1 /\ min_deadline s'.1 = min_deadline s.1;
  sc_due : forall id t, timer_map s'.1 !! id = Some t -> expire_ns t <= now ->
             timer_map s.1 !! id = Some t;
  sc_fired : exists F, NoDup F /\
    (forall id, id ∈ F -> exists e cb, timers s.1 !! id = Some (e, cb) /\ e <= now) /\
    s'.2 = s.2 ++ omap (fun id => snd <$> (timers s.1 !! id)) F /\
    (forall id, timers s'.1 !! id = if decide (id ∈ F) then None else timers s.1 !! id)
}.

Lemma scans_refl now s : scans now s s.
Proof.
  split; [done|done|]. exists []. split; [by apply NoDup_nil|].
  split; [set_solver|]. split; [by rewrite app_nil_r|].
  intros id. rewrite decide_False by set_solver. done.
Qed.

Lemma scans_trans now s1 s2 s3 : scans now s1 s2 -> scans now s2 s3 -> scans now s1 s3.
Proof.
  intros [F1 D1 (G1 & N1 & E1 & P1 & A1)] [F2 D2 (G2 & N2 & E2 & P2 & A2)].
  split.
  - destruct F1 as (?&?&?&?&?&?), F2 as (?&?&?&?&?&?). repeat split; congruence.
  - eauto.
  - assert (Hd : forall id, id ∈ G2 -> id ∉ G1 /\ timers s2.1 !! id = timers s1.1 !! id).
    { intros id Hid. destruct (E2 id Hid) as (e & cb & Hs & _). rewrite A1 in Hs.
      destruct (decide (id ∈ G1)) as [Hin|Hni] eqn:Ed; [done|]. split; [done|].
      rewrite A1, Ed. done. }
    exists (G1 ++ G2). repeat split.
    + apply NoDup_app. split; [done|]. split; [|done]. intros id H1 H2. by destruct (Hd id H2).
    + intros id [H1|H2]%elem_of_app; [by apply E1|].
      destruct (Hd id H2) as [_ Heq]. rewrite <- Heq. by apply E2.
    + rewrite P2, P1, <- app_assoc, omap_app. do 2 f_equal.
      apply omap_ext_elem. intros x Hx. by destruct (Hd x Hx) as [_ ->].
    + intros id. rewrite A2, A1. repeat destruct (decide _); set_solver.
Qed.

Lemma timers_lookup w id : timers w !! id = abs_timer <$> (timer_map w !! id).
Proof. apply lookup_fmap. Qed.

(** Firing removes the timer from the map and from its bucket. *)
Lemma fire_store_ok w T id t :
  store_ok w T -> timer_map w !! id = Some t ->
  store_ok (set_store w
    (bset (buckets w) (t_level t) (t_bucket t)
       (erase_ptr id (bget (buckets w) (t_level t) (t_bucket t))))
    (delete id (timer_map w))) T.
Proof.
  intros S Ht. split; simpl; try apply S.
  - intros y u Hy. rewrite lookup_delete_Some in Hy. exact (so_ids _ _ S _ _ (proj2 Hy)).
  - intros l b y. rewrite bget_bset. destruct (decide _) as [E|E].
    + simplify_eq. rewrite elem_of_erase by apply S. rewrite (so_slots _ _ S).
      split.
      * intros [(u & Hu & ? & ?) Hne]. exists u. by rewrite lookup_delete_ne.
      * intros (u & Hu & ? & ?). rewrite lookup_delete_Some in Hu. destruct Hu as [Hne Hu].
        split; [by exists u|done].
    + rewrite (so_slots _ _ S). split.
      * intros (u & Hu & <- & <-). exists u. rewrite lookup_delete_ne; [done|].
        intros <-. rewrite Ht in Hu. simplify_eq.
      * intros (u & Hu & ? & ?). rewrite lookup_delete_Some in Hu. exists u. tauto.
  - intros l b. rewrite bget_bset. destruct (decide _); [|apply S]. apply NoDup_erase, S.
Qed.

(** Moving a timer of the store to the bucket it belongs to at another level. *)
Lemma move_store_ok w T id t tid l :
  store_ok w T -> timer_map w !! id = Some t -> Z.land tid base_id_mask = id ->
  (l < num_levels w)%nat -> l <> t_level t ->
  let b := bucket_of w l (Z.max (expire_ns t) T) in
  let erased := bset (buckets w) (t_level t) (t_bucket t)
                  (erase_ptr id (bget (buckets w) (t_level t) (t_bucket t))) in
  store_ok (set_store w (bset erased l b (bget erased l b ++ [id]))
              (<[id := with_slot t tid l b]> (timer_map w))) T.
Proof.
  intros S Ht Hid Hl Hne b erased.
  assert (Her : forall l' b' y, y ∈ bget erased l' b' <->
            exists u, timer_map w !! y = Some u /\ y <> id /\ t_level u = l' /\ t_bucket u = b').
  { intros l' b' y. unfold erased. rewrite bget_bset. destruct (decide _) as [E|E].
    - simplify_eq. rewrite elem_of_erase by apply S. rewrite (so_slots _ _ S).
      split; [intros [(u & ? & ? & ?) ?]; by exists u|intros (u & ? & ? & ? & ?); split; [by exists u|done]].
    - rewrite (so_slots _ _ S). split; [|intros (u & ? & ? & ? & ?); by exists u].
      intros (u & Hu & <- & <-). exists u. repeat split; try done.
      intros ->. rewrite Ht in Hu. simplify_eq. }
  split; simpl; try apply S.
  - intros y u Hy. rewrite lookup_insert_Some in Hy. destruct Hy as [[<- <-]|[Hyne Hy]]; [|exact (so_ids _ _ S _ _ Hy)].
    destruct (so_ids _ _ S _ _ Ht) as (? & _ & _ & _). simpl. repeat split; try done; lia.
  - intros l' b' y. rewrite bget_bset. destruct (decide _) as [E|E].
    + simplify_eq. rewrite elem_of_app, Her, list_elem_of_singleton. split.
      * intros [(u & ? & ? & ? & ?)| ->].
        -- exists u. by rewrite lookup_insert_ne.
        -- eexists. by rewrite lookup_insert_eq.
      * intros (u & Hu & Hul & Hub). rewrite lookup_insert_Some in Hu.
        destruct Hu as [[<- <-]|[Hyne Hu]]; [by right|left; exists u; by repeat split].
    + rewrite Her. split.
      * intros (u & ? & ? & ? & ?). exists u. by rewrite lookup_insert_ne.
      * intros (u & Hu & <- & <-). rewrite lookup_insert_Some in Hu.
        destruct Hu as [[<- <-]|[Hyne Hu]]; [done|]. exists u. by repeat split.
  - intros l' b'. rewrite bget_bset.
    assert (Hnd : forall l b, NoDup (bget erased l b)).
    { intros ??. unfold erased. rewrite bget_bset. destruct (decide _); [|apply S]. apply NoDup_erase, S. }
    destruct (decide _); [|done]. apply NoDup_app. split; [done|].
    split; [|apply NoDup_singleton]. intros y Hy Hy2. apply list_elem_of_singleton in Hy2 as ->.
    apply Her in Hy as (u & _ & ? & _). done.
Qed.

Lemma visit_spec now T level bucket w p id :
  store_ok w T -> T <= now -> id ∈ bget (buckets w) level bucket ->
  let s' := visit now level bucket (w, p) id in
  store_ok s'.1 T /\ scans now (w, p) s' /\
  (forall t, timer_map s'.1 !! id = Some t -> now < expire_ns t) /\
  (forall y, y <> id -> timer_map s'.1 !! y = timer_map w !! y).
Proof.
  intros S HT Hin. apply (so_slots _ _ S) in Hin as (t & Ht & <- & <-).
  destruct (so_ids _ _ S _ _ Ht) as (Hid & Hbase & Hlev & Hbk).
  unfold visit. rewrite Ht, Hbase. destruct (expire_ns t <=? now) eqn:E; bool_to_prop.
  - split; [by apply fire_store_ok|]. simpl. split; [|split].
    + split; [done| |]; simpl.
      * intros y u Hy. rewrite lookup_delete_Some in Hy. tauto.
      * exists [id]. split; [apply NoDup_singleton|]. repeat split.
        -- intros y ->%list_elem_of_singleton. exists (expire_ns t), (callback t).
           by rewrite timers_lookup, Ht.
        -- simpl. by rewrite timers_lookup, Ht.
        -- intros y. rewrite !timers_lookup. simpl. destruct (decide _) as [Hy|Hy].
           ++ apply list_elem_of_singleton in Hy as ->. by rewrite lookup_delete_eq.
           ++ rewrite lookup_delete_ne; [done|set_solver].
    + intros u Hu. rewrite lookup_delete_eq in Hu. done.
    + intros y Hy. by rewrite lookup_delete_ne.
  - destruct (t_level t) as [|lower] eqn:El.
    + split; [done|]. split; [apply scans_refl|]. split; [|done]. simpl. intros u Hu. congruence.
    + assert (Hmax : expire_ns t = Z.max (expire_ns t) T) by lia.
      split.
      * pose proof (move_store_ok w T id t (Z.lor id (Z.shiftl (Z.of_nat lower) 48)) lower S Ht)
          as Hmv. rewrite El in Hmv. rewrite <- Hmax in Hmv. apply Hmv; [|lia|lia].
        apply base_id_of_lor; [|lia]. pose proof (so_next _ _ S). lia.
      * simpl. split; [|split].
        -- split; [done| |]; simpl.
           ++ intros y u Hy Hexp. rewrite lookup_insert_Some in Hy.
              destruct Hy as [[<- <-]|[_ Hy]]; [simpl in Hexp; lia|done].
           ++ exists []. split; [by apply NoDup_nil|].
  split; [set_solver|]. split; [by rewrite app_nil_r|].
              intros y. rewrite decide_False by set_solver. rewrite !timers_lookup. simpl.
              destruct (decide (y = id)) as [->|Hy];
                [by rewrite lookup_insert_eq, Ht|by rewrite lookup_insert_ne].
        -- intros u Hu. rewrite lookup_insert_eq in Hu. simplify_eq. simpl. lia.
        -- intros y Hy. by rewrite lookup_insert_ne.
Qed.

(** ** Scanning buckets and levels *)

(** No timer of the slot is due. *)
Definition slot_clear (now : Z) w (l : nat) (b : Z) : Prop :=
  forall id t, timer_map w !! id = Some t -> t_level t = l -> t_bucket t = b -> now < expire_ns t.

Lemma slot_clear_scans now s s' l b :
  scans now s s' -> slot_clear now s.1 l b -> slot_clear now s'.1 l b.
Proof.
  intros [_ D _] Hc id t Ht Hl Hb. destruct (Z.le_gt_cases (expire_ns t) now) as [Hle|]; [|lia].
  apply D in Ht; [|done]. by eapply Hc.
Qed.

Lemma visits_spec now T level bucket ids s :
  store_ok s.1 T -> T <= now -> NoDup ids ->
  (forall id, id ∈ ids -> id ∈ bget (buckets s.1) level bucket) ->
  let s' := foldl (visit now level bucket) s ids in
  store_ok s'.1 T /\ scans now s s' /\
  (forall id t, id ∈ ids -> timer_map s'.1 !! id = Some t -> now < expire_ns t).
Proof.
  intros S HT Hnd Hin. revert s S Hin. induction Hnd as [|x l Hx _ IH]; intros [w p] S Hin.
  { split; [done|]. split; [apply scans_refl|]. set_solver. }
  cbn [foldl].
  destruct (visit_spec now T level bucket w p x S HT (Hin x ltac:(apply list_elem_of_here)))
    as (S1 & R1 & X1 & Y1).
  set (s1 := visit now level bucket (w, p) x) in *.
  destruct (IH s1 S1) as (S2 & R2 & X2).
  { intros y Hy. apply (so_slots _ _ S1). rewrite Y1 by (intros ->; done).
    apply (so_slots _ _ S). apply Hin. by apply list_elem_of_further. }
  split; [done|]. split; [by eapply scans_trans|].
  intros y t Hy Ht. apply elem_of_cons in Hy as [->|Hy]; [|by eapply X2].
  destruct (Z.le_gt_cases (expire_ns t) now) as [Hle|]; [|lia].
  destruct R2 as [_ D2 _]. apply D2 in Ht; [|done]. by apply X1.
Qed.

Lemma scan_bucket_spec now T level s bucket :
  store_ok s.1 T -> T <= now ->
  let s' := scan_bucket now level s bucket in
  store_ok s'.1 T /\ scans now s s' /\ slot_clear now s'.1 level bucket.
Proof.
  intros S HT. unfold scan_bucket.
  destruct (visits_spec now T level bucket (bget (buckets s.1) level bucket) s S HT)
    as (S' & R & X); [apply S|done|].
  split; [done|]. split; [done|]. intros id t Ht Hl Hb.
  destruct (Z.le_gt_cases (expire_ns t) now) as [Hle|]; [|lia].
  apply (X id t); [|done]. apply (so_slots _ _ S). exists t. split; [|done].
  destruct R as [_ D _]. by apply D.
Qed.

Lemma scan_buckets_spec now T level slots s :
  store_ok s.1 T -> T <= now ->
  let s' := foldl (scan_bucket now level) s slots in
  store_ok s'.1 T /\ scans now s s' /\ (forall b, b ∈ slots -> slot_clear now s'.1 level b).
Proof.
  intros S HT. revert s S. induction slots as [|b slots IH]; intros s S; cbn [foldl].
  { split; [done|]. split; [apply scans_refl|]. set_solver. }
  destruct (scan_bucket_spec now T level s b S HT) as (S1 & R1 & X1).
  destruct (IH _ S1) as (S2 & R2 & X2).
  split; [done|]. split; [by eapply scans_trans|].
  intros b' [->|Hb]%elem_of_cons; [by eapply slot_clear_scans|by apply X2].
Qed.

Lemma scan_level_spec old now level s :
  store_ok s.1 old -> old <= now -> now - old <= 255 * tick_ns s.1 ->
  let s' := scan_level old now s level in
  store_ok s'.1 old /\ scans now s s' /\ (forall b, slot_clear now s'.1 level b).
Proof.
  intros S HT Hgap. unfold scan_level.
  destruct (scan_buckets_spec now old level (level_slots s.1 old now level) s S HT)
    as (S' & R & X).
  split; [done|]. split; [done|]. intros b id t Ht Hl Hb.
  destruct (Z.le_gt_cases (expire_ns t) now) as [Hle|]; [|lia].
  eapply (X b); [|done..]. destruct R as [_ D _]. apply D in Ht; [|done].
  destruct (so_ids _ _ S _ _ Ht) as (_ & _ & _ & Hbk). rewrite <- Hb, Hbk, Hl.
  pose proof (so_time _ _ S). apply level_slots_cover; [apply S|lia..].
Qed.

Lemma scan_levels_spec old now levels s :
  store_ok s.1 old -> old <= now -> now - old <= 255 * tick_ns s.1 ->
  let s' := foldl (scan_level old now) s levels in
  store_ok s'.1 old /\ scans now s s' /\
  (forall l b, l ∈ levels -> slot_clear now s'.1 l b).
Proof.
  intros S HT. revert s S. induction levels as [|l levels IH]; intros s S Hgap; cbn [foldl].
  { split; [done|]. split; [apply scans_refl|]. set_solver. }
  destruct (scan_level_spec old now l s S HT Hgap) as (S1 & R1 & X1).
  destruct (IH _ S1) as (S2 & R2 & X2).
  { destruct R1 as [(-> & _) _ _]. done. }
  split; [done|]. split; [by eapply scans_trans|].
  intros l' b [->|Hl]%elem_of_cons; [by eapply slot_clear_scans|by apply X2].
Qed.

(** ** The cached minimum *)

Lemma all_ids_spec w T id :
  store_ok w T -> id ∈ all_ids w <-> is_Some (timer_map w !! id).
Proof.
  intros S. unfold all_ids. split.
  - intros (l & (b & Hid & _)%list_elem_of_bind & _)%list_elem_of_bind.
    apply (so_slots _ _ S) in Hid as (t & Ht & _). eauto.
  - intros [t Ht]. destruct (so_ids _ _ S _ _ Ht) as (_ & _ & Hl & Hb).
    pose proof (so_time _ _ S). pose proof (so_tick _ _ S).
    rewrite bucket_of_idx in Hb by lia.
    apply list_elem_of_bind. exists (t_level t). split; [|apply elem_of_seq; lia].
    apply list_elem_of_bind. exists (t_bucket t). split.
    + apply (so_slots _ _ S). eauto.
    + apply list_elem_of_fmap. exists (Z.to_nat (t_bucket t)).
      assert (0 <= t_bucket t < 256) by (rewrite Hb; apply Z.mod_pos_bound; lia).
      split; [lia|apply elem_of_seq; lia].
Qed.

Lemma foldl_min_spec M ids m0 :
  let f := fun m id => match M !! id with Some t => Z.min m (expire_ns t) | None => m end in
  let r := foldl f m0 ids in
  r <= m0 /\ (forall id t, id ∈ ids -> M !! id = Some t -> r <= expire_ns t) /\
  (r = m0 \/ exists id t, M !! id = Some t /\ expire_ns t = r).
Proof.
  intros f. revert m0. induction ids as [|x ids IH]; intros m0; cbn [foldl].
  { split; [lia|]. split; [set_solver|by left]. }
  destruct (IH (f m0 x)) as (H1 & H2 & H3).
  assert (Hle : f m0 x <= m0 /\ (forall t, M !! x = Some t -> f m0 x <= expire_ns t) /\
          (f m0 x = m0 \/ exists t, M !! x = Some t /\ expire_ns t = f m0 x)).
  { unfold f. destruct (M !! x) as [t|]; [|split; [lia|split; [done|by left]]].
    split; [lia|]. split; [intros; simplify_eq; lia|].
    destruct (Z.min_spec m0 (expire_ns t)) as [[_ ->]|[_ ->]]; [by left|right; eauto]. }
  destruct Hle as (Ha & Hb & Hc). split; [lia|]. split.
  - intros id t [->|Hid]%elem_of_cons Ht; [specialize (Hb _ Ht); lia|by eapply H2].
  - destruct H3 as [H3|H3]; [|by right]. rewrite H3. destruct Hc as [Hc|(t & ? & ?)]; [by left|right; eauto].
Qed.

Lemma recompute_least w T :
  store_ok w T -> least_deadline (timer_map w) (min_deadline (recompute_min_deadline w)).
Proof.
  intros S. destruct (foldl_min_spec (timer_map w) (all_ids w) INT64_MAX) as (_ & H2 & H3).
  split; [|exact H3]. intros id t Ht. apply (H2 id t); [|done].
  apply (all_ids_spec w T id S). eauto.
Qed.

(** ** The operations *)

Lemma find_level_lt w d : length (level_ranges w) = num_levels w -> (0 < num_levels w)%nat ->
  (find_level w d < num_levels w)%nat.
Proof.
  intros Hl Hn. unfold find_level. destruct (list_find _ _) as [[l r]|] eqn:E; [|lia].
  apply list_find_Some in E as (E & _). apply lookup_lt_Some in E. lia.
Qed.

(** A fresh timer appended to the bucket of its deadline. *)
Lemma add_store_ok w w' T id t :
  store_ok w T -> id = next_timer_id w -> id < 281474976710656 ->
  tick_ns w' = tick_ns w -> num_levels w' = num_levels w ->
  level_ranges w' = level_ranges w -> next_timer_id w' = id + 1 ->
  Z.land (timer_id t) base_id_mask = id -> (t_level t < num_levels w)%nat ->
  t_bucket t = bucket_of w (t_level t) (Z.max (expire_ns t) T) ->
  buckets w' = bset (buckets w) (t_level t) (t_bucket t)
                 (bget (buckets w) (t_level t) (t_bucket t) ++ [id]) ->
  timer_map w' = <[id := t]> (timer_map w) -> store_ok w' T.
Proof.
  intros S Hid Hlt Et En Er Ex Hbase Hl Hb EB EM.
  assert (Hfresh : timer_map w !! id = None).
  { destruct (timer_map w !! id) as [u|] eqn:E; [|done].
    destruct (so_ids _ _ S _ _ E) as (? & _). lia. }
  pose proof (so_next _ _ S).
  assert (Hbo : forall l x, bucket_of w' l x = bucket_of w l x) by (intros; unfold bucket_of; by rewrite Et).
  split; rewrite ?Et, ?En, ?Er, ?Ex, ?EB, ?EM; try apply S; try lia.
  - intros y u Hy. rewrite Hbo. rewrite lookup_insert_Some in Hy. destruct Hy as [[<- <-]|[Hne Hy]].
    + repeat split; try done; lia.
    + destruct (so_ids _ _ S _ _ Hy) as (? & ? & ? & ?). repeat split; try done; lia.
  - intros l b y. rewrite bget_bset. destruct (decide _) as [E|E].
    + simplify_eq. rewrite elem_of_app, list_elem_of_singleton, (so_slots _ _ S). split.
      * intros [(u & Hu & ? & ?)| ->]; [|exists t; by rewrite lookup_insert_eq].
        exists u. rewrite lookup_insert_ne; [done|]. intros <-. congruence.
      * intros (u & Hu & ? & ?). rewrite lookup_insert_Some in Hu.
        destruct Hu as [[<- <-]|[Hne Hu]]; [by right|left; by exists u].
    + rewrite (so_slots _ _ S). split.
      * intros (u & Hu & ? & ?). exists u. rewrite lookup_insert_ne; [done|]. intros <-. congruence.
      * intros (u & Hu & <- & <-). rewrite lookup_insert_Some in Hu.
        destruct Hu as [[<- <-]|[Hne Hu]]; [done|by exists u].
  - intros l b. rewrite bget_bset. destruct (decide _); [|apply S].
    apply NoDup_app. split; [apply S|]. split; [|apply NoDup_singleton].
    intros y Hy ->%list_elem_of_singleton. apply (so_slots _ _ S) in Hy as (u & Hu & _). congruence.
Qed.

Lemma schedule_spec w e cb :
  wheel_ok w -> next_timer_id w < 281474976710656 ->
  let tid := (schedule_at w e cb).1 in
  let w' := (schedule_at w e cb).2 in
  let id := next_timer_id w in
  wheel_ok w' /\ Z.land tid base_id_mask = id /\
  timers w !! id = None /\ timers w' = <[id := (e, cb)]> (timers w) /\
  tick_ns w' = tick_ns w /\ next_timer_id w' = next_timer_id w + 1.
Proof.
  intros [S Hm] Hn. pose proof (so_next _ _ S) as Hid.
  unfold schedule_at, add_timer_internal. cbv zeta.
  set (w1 := if _ <? _ then _ else _).
  assert (W1 : tick_ns w1 = tick_ns w /\ num_levels w1 = num_levels w /\
    level_ranges w1 = level_ranges w /\ buckets w1 = buckets w /\
    current_time w1 = current_time w /\ next_timer_id w1 = next_timer_id w + 1 /\
    min_deadline w1 = Z.min e (min_deadline w) /\
    timer_map w1 = <[next_timer_id w := mkTimer e (next_timer_id w) cb 0 0]> (timer_map w)).
  { unfold w1. simpl. destruct (e <? min_deadline w) eqn:E; bool_to_prop; simpl;
      rewrite u64_small by lia; repeat split; lia. }
  clearbody w1. destruct W1 as (E1 & E2 & E3 & E4 & E5 & E6 & E7 & E8).
  set (w2 := insert_timer _ _ _).
  set (l := find_level w1 (Z.max e (current_time w1) - current_time w1)).
  set (t := mkTimer e (Z.lor (next_timer_id w) (Z.shiftl (Z.of_nat l) 48)) cb l
              (bucket_of w1 l (Z.max e (current_time w1)))).
  assert (Hl : (l < num_levels w)%nat).
  { unfold l. rewrite <- E2. apply find_level_lt; rewrite ?E2, ?E3; apply S. }
  assert (Hb : Z.land (timer_id t) base_id_mask = next_timer_id w) by (apply base_id_of_lor; lia).
  assert (HM : timer_map w2 = <[next_timer_id w := t]> (timer_map w)).
  { unfold w2, insert_timer. simpl. by rewrite E8, insert_insert_eq. }
  assert (S2 : store_ok w2 (current_time w2)).
  { change (current_time w2) with (current_time w1). rewrite E5.
    apply (add_store_ok w w2 _ (next_timer_id w) t); try done.
    - simpl. unfold bucket_of. by rewrite E1, E5.
    - unfold w2, insert_timer. simpl. by rewrite E4. }
  assert (Hfresh : timer_map w !! next_timer_id w = None).
  { destruct (timer_map w !! next_timer_id w) as [u|] eqn:E; [|done].
    destruct (so_ids _ _ S _ _ E) as (? & _). lia. }
  split; [|repeat split].
  - split; [exact S2|]. cbn [fst snd]. change (min_deadline w2) with (min_deadline w1).
    rewrite E7, HM. destruct Hm as [Hm1 Hm2]. split.
    + intros y u Hu. rewrite lookup_insert_Some in Hu. destruct Hu as [[_ <-]|[_ Hu]]; [simpl; lia|].
      specialize (Hm1 _ _ Hu). lia.
    + destruct (Z.min_spec e (min_deadline w)) as [[_ ->]|[_ ->]].
      * right. exists (next_timer_id w), t. by rewrite lookup_insert_eq.
      * destruct Hm2 as [->|(y & u & Hu & <-)]; [by left|right]. exists y, u.
        rewrite lookup_insert_ne; [done|]. intros <-. congruence.
  - cbn [fst snd]. rewrite HM, lookup_insert_eq. exact Hb.
  - by rewrite timers_lookup, Hfresh.
  - cbn [fst snd]. unfold timers. by rewrite HM, fmap_insert.
  - exact E1.
  - exact E6.
Qed.

Lemma least_deadline_delete M m id t :
  least_deadline M m -> M !! id = Some t -> m < expire_ns t -> least_deadline (delete id M) m.
Proof.
  intros [H1 H2] Ht Hlt. split.
  - intros y u Hu. rewrite lookup_delete_Some in Hu. exact (H1 y u (proj2 Hu)).
  - destruct H2 as [H2|(y & u & Hu & He)]; [by left|right]. exists y, u.
    rewrite lookup_delete_ne; [done|]. intros <-. simplify_eq. lia.
Qed.

Lemma set_min_store_ok w m T : store_ok w T -> store_ok (set_min w m) T.
Proof. intros S. split; apply S. Qed.

Lemma cancel_spec w tid :
  wheel_ok w ->
  let id := Z.land tid base_id_mask in
  let w' := (wheel_cancel w tid).2 in
  wheel_ok w' /\ (wheel_cancel w tid).1 = bool_decide (is_Some (timers w !! id)) /\
  timers w' = delete id (timers w) /\ tick_ns w' = tick_ns w /\
  next_timer_id w' = next_timer_id w.
Proof.
  intros [S Hm] id. unfold wheel_cancel, remove_timer. fold id. rewrite timers_lookup.
  destruct (timer_map w !! id) as [t|] eqn:Et.
  - destruct (so_ids _ _ S _ _ Et) as (_ & _ & Hl & Hb).
    pose proof (so_time _ _ S). pose proof (so_tick _ _ S).
    rewrite bucket_of_idx in Hb by lia.
    assert (Hb2 : 0 <= t_bucket t < 256) by (rewrite Hb; apply Z.mod_pos_bound; lia).
    rewrite bool_decide_true by done. unfold kBuckets.
    replace (t_bucket t <? 256) with true by (symmetry; apply Z.ltb_lt; lia). simpl andb. cbv iota.
    pose proof (fire_store_ok w _ id t S Et) as S'.
    set (w1 := set_store w _ _) in *.
    assert (Hab : timers w1 = delete id (timers w)) by (unfold timers; by rewrite <- fmap_delete).
    change (min_deadline w1) with (min_deadline w).
    cbn [fst snd]. destruct (expire_ns t <=? min_deadline w) eqn:E; bool_to_prop.
    + split; [|done]. split; [by apply set_min_store_ok|by apply (recompute_least w1 (current_time w))].
    + split; [|done]. split; [done|]. by eapply least_deadline_delete.
  - cbn [fst snd]. split; [done|]. split; [done|]. split; [|done].
    rewrite delete_id; [done|]. by rewrite timers_lookup, Et.
Qed.

(** The least deadline depends on the abstract timers only. *)
Lemma least_deadline_timers w w1 m :
  timers w1 = timers w -> least_deadline (timer_map w) m -> least_deadline (timer_map w1) m.
Proof.
  intros Hsame [Hm1 Hm2].
  assert (Hl : forall id, expire_ns <$> (timer_map w1 !! id) = expire_ns <$> (timer_map w !! id)).
  { intros id. assert (Hid : timers w1 !! id = timers w !! id) by (by rewrite Hsame).
    rewrite !timers_lookup in Hid.
    destruct (timer_map w1 !! id), (timer_map w !! id); simplify_eq/=; [|done].
    unfold abs_timer in *. congruence. }
  split.
  - intros id t Ht. specialize (Hl id). rewrite Ht in Hl.
    destruct (timer_map w !! id) as [u|] eqn:Eu; simplify_eq/=. specialize (Hm1 _ _ Eu). congruence.
  - destruct Hm2 as [->|(id & t & Ht & He)]; [by left|right]. specialize (Hl id). rewrite Ht in Hl.
    destruct (timer_map w1 !! id) as [u|] eqn:Eu; simplify_eq/=. exists id, u. split; [done|congruence].
Qed.

Lemma advance_spec w now :
  wheel_ok w -> kMaxAdvanceNs <= 255 * tick_ns w -> current_time w < now ->
  let t1 := capped w now in
  let fired := (advance w now).1 in
  let w' := (advance w now).2 in
  wheel_ok w' /\ current_time w' = t1 /\ tick_ns w' = tick_ns w /\
  next_timer_id w' = next_timer_id w /\
  timers w' = filter (fun p => t1 < p.2.1) (timers w) /\
  exists F, NoDup F /\
    (forall id, id ∈ F <-> exists e cb, timers w !! id = Some (e, cb) /\ e <= t1) /\
    fired = omap (fun id => snd <$> (timers w !! id)) F.
Proof.
  intros [S Hm] Htick Hnow t1. unfold advance.
  destruct (now <=? current_time w) eqn:E; bool_to_prop; [lia|]. fold t1. cbv zeta.
  assert (Ht1 : current_time w <= t1 /\ t1 - current_time w <= kMaxAdvanceNs).
  { unfold t1, capped, kMaxAdvanceNs in *. destruct (_ <? _) eqn:E1; bool_to_prop; lia. }
  assert (S0 : store_ok (set_time w t1) (current_time w)) by (split; apply S).
  destruct (scan_levels_spec (current_time w) t1 (seq 0 (num_levels w)) (set_time w t1, []) S0)
    as (S1 & [(F1 & F2 & F3 & F4 & F5 & F6) D (F & Nd & Edue & Ep & Ea)] & X); [lia|simpl; lia|].
  destruct (foldl _ _ _) as [w1 pending]. cbn [fst snd] in *.
  change (timers (set_time w t1)) with (timers w) in *.
  assert (Hlate : forall id t, timer_map w1 !! id = Some t -> t1 < expire_ns t).
  { intros id t Ht. destruct (so_ids _ _ S1 _ _ Ht) as (_ & _ & Hl & _).
    eapply (X (t_level t) (t_bucket t)); [|done..]. apply elem_of_seq. simpl in F2. lia. }
  assert (S2 : store_ok w1 (current_time w1)).
  { pose proof (so_time _ _ S). rewrite F4. simpl. split; try apply S1; [lia|]. intros id t Ht.
    destruct (so_ids _ _ S1 _ _ Ht) as (? & ? & ? & Hb). repeat split; try done; try lia.
    rewrite Hb. specialize (Hlate _ _ Ht). f_equal. lia. }
  assert (Hab : timers w1 = filter (fun p => t1 < p.2.1) (timers w)).
  { apply map_eq. intros id. rewrite map_lookup_filter, Ea.
    destruct (decide (id ∈ F)) as [Hin|Hni].
    - destruct (Edue id Hin) as (e & cb & -> & He). simpl.
      rewrite option_guard_False; [done|]. simpl. lia.
    - destruct (timers w !! id) as [[e cb]|] eqn:Eid; [|done]. simpl.
      rewrite option_guard_True; [done|]. simpl.
      assert (Hin1 : timers w1 !! id = Some (e, cb)) by (rewrite Ea; by rewrite decide_False).
      rewrite timers_lookup in Hin1. destruct (timer_map w1 !! id) as [t|] eqn:Et1; [|done].
      injection Hin1 as <- <-. exact (Hlate id t Et1). }
  assert (HF : forall id, id ∈ F <-> exists e cb, timers w !! id = Some (e, cb) /\ e <= t1).
  { intros id. split; [apply Edue|]. intros (e & cb & Hid & He).
    destruct (decide (id ∈ F)) as [|Hni]; [done|exfalso].
    assert (Hin : timers w1 !! id = Some (e, cb)) by (rewrite Ea; by rewrite decide_False).
    rewrite Hab, map_lookup_filter_Some in Hin. simpl in Hin. lia. }
  assert (Hw : forall w2, (w2 = w1 /\ pending = [] \/ w2 = recompute_min_deadline w1) ->
                least_deadline (timer_map w2) (min_deadline w2)).
  { intros w2 [[-> Hp]| ->]; [|by apply (recompute_least w1 (current_time w1))].
    rewrite F6. simpl. assert (F = []) as ->.
    { destruct F as [|x F]; [done|]. exfalso. rewrite Hp in Ep.
      destruct (Edue x ltac:(apply list_elem_of_here)) as (e & cb & Hx & _).
      simpl in Ep. rewrite Hx in Ep. done. }
    assert (Hsame : timers w1 = timers w).
    { apply map_eq. intros id. rewrite Ea. by rewrite decide_False by set_solver. }
    by apply (least_deadline_timers w). }
  cbn [app] in Ep. case_bool_decide as Hp.
  - split; [split; [done|apply Hw; by left]|]. repeat split; try done. by exists F.
  - split; [split; [by apply set_min_store_ok|apply Hw; by right]|]. repeat split; try done. by exists F.
Qed.

(** ** Histories *)

Inductive WheelOp :=
| WSchedule (expire : Z) (cb : C)
| WScheduleIn (delay : Z) (cb : C)
| WCancel (tid : Z)
| WAdvance (now : Z).

Definition wheel_apply w (o : WheelOp) : TimingWheel C :=
  match o with
  | WSchedule e cb => (schedule_at w e cb).2
  | WScheduleIn d cb => (schedule w d cb).2
  | WCancel tid => (wheel_cancel w tid).2
  | WAdvance now => (advance w now).2
  end.

Definition wheel_run w (os : list WheelOp) : TimingWheel C := foldl wheel_apply w os.

Lemma wheel_apply_ok w o :
  wheel_ok w -> kMaxAdvanceNs <= 255 * tick_ns w -> next_timer_id w < 281474976710656 ->
  wheel_ok (wheel_apply w o) /\ tick_ns (wheel_apply w o) = tick_ns w /\
  next_timer_id (wheel_apply w o) <= next_timer_id w + 1.
Proof.
  intros Hw Ht Hn. destruct o as [e cb|d cb|tid|now]; cbn [wheel_apply].
  - destruct (schedule_spec w e cb Hw Hn) as (? & _ & _ & _ & ? & ->). split; [done|]. split; [done|lia].
  - destruct (schedule_spec w (i64 (current_time w + d)) cb Hw Hn) as (? & _ & _ & _ & ? & Hnx).
    unfold schedule. rewrite Hnx. split; [done|]. split; [done|lia].
  - destruct (cancel_spec w tid Hw) as (? & _ & _ & ? & ->). split; [done|]. split; [done|lia].
  - destruct (Z.le_gt_cases now (current_time w)) as [Hle|Hgt].
    + unfold advance. apply Z.leb_le in Hle. rewrite Hle. split; [done|]. split; [done|simpl; lia].
    + destruct (advance_spec w now Hw Ht Hgt) as (? & _ & ? & -> & _). split; [done|]. split; [done|lia].
Qed.

Lemma wheel_init_ok tick levels now :
  0 < tick -> (0 < levels)%nat -> 0 <= now -> wheel_ok (wheel_init tick levels now : TimingWheel C).
Proof.
  intros Ht Hl Hn. split; [split|]; simpl; try done; try lia.
  - by rewrite length_fmap, length_seq.
  - intros l b id. unfold bget. rewrite lookup_empty. split; [set_solver|].
    intros (t & Ht' & _). by rewrite lookup_empty in Ht'.
  - intros l b. unfold bget. rewrite lookup_empty. by apply NoDup_nil.
  - split; [intros id t; by rewrite lookup_empty|by left].
Qed.

Lemma wheel_run_ok w os :
  wheel_ok w -> kMaxAdvanceNs <= 255 * tick_ns w ->
  next_timer_id w + zlen os < 281474976710656 ->
  let w' := wheel_run w os in
  wheel_ok w' /\ tick_ns w' = tick_ns w /\ next_timer_id w' <= next_timer_id w + zlen os.
Proof.
  revert w. induction os as [|o os IH]; intros w Hw Ht Hn; simpl.
  { rewrite zlen_nil. split; [done|]. split; [done|lia]. }
  rewrite zlen_cons in *. pose proof (zlen_nonneg os).
  destruct (wheel_apply_ok w o Hw Ht ltac:(lia)) as (H1 & H2 & H3).
  destruct (IH _ H1 ltac:(rewrite H2; lia) ltac:(lia)) as (H4 & H5 & H6).
  split; [done|]. split; [congruence|lia].
Qed.

(** A wheel whose tick lets an advance of 100 ms pass at most 255 ticks and whose
    levels do not overflow 64 bits, and fewer than [2^48] operations. *)
Definition history_ok (tick : Z) (levels : nat) (now0 : Z) (os : list WheelOp) : Prop :=
  kMaxAdvanceNs <= 255 * tick /\ tick * 256 ^ Z.of_nat levels <= INT64_MAX /\ (0 < levels)%nat /\ 0 <= now0 /\
  zlen os < 281474976710655.

Lemma history_wheel_ok tick levels now0 os :
  history_ok tick levels now0 os ->
  let w := wheel_run (wheel_init tick levels now0) os in
  wheel_ok w /\ tick_ns w = tick /\ next_timer_id w < 281474976710656.
Proof.
  intros (Ht & _ & Hl & Hn & Ho). unfold kMaxAdvanceNs in Ht.
  destruct (wheel_run_ok (wheel_init tick levels now0) os) as (H1 & H2 & H3);
    [apply wheel_init_ok; lia|simpl; unfold kMaxAdvanceNs; lia|simpl; lia|].
  split; [done|]. split; [done|]. simpl in H3. lia.
Qed.

(** Advance fires exactly the due timers.  After any history, advancing to a
    later time reaches that time or 100 ms ahead, runs the callbacks of exactly
    the timers whose deadline has passed by then, each once, and keeps all the
    others with their deadline and callback. *)
Theorem advance_fires_due tick levels now0 os now :
  history_ok tick levels now0 os ->
  let w := wheel_run (wheel_init tick levels now0) os in
  current_time w < now ->
  let t1 := Z.min now (current_time w + kMaxAdvanceNs) in
  let fired := (advance w now).1 in
  let w' := (advance w now).2 in
  current_time w' = t1 /\
  timers w' = filter (fun p => t1 < p.2.1) (timers w) /\
  exists F, NoDup F /\
    (forall id, id ∈ F <-> exists e cb, timers w !! id = Some (e, cb) /\ e <= t1) /\
    fired = omap (fun id => snd <$> (timers w !! id)) F.
Proof.
  intros Hh w Hnow t1. destruct (history_wheel_ok _ _ _ _ Hh) as (Hw & Ht & _). fold w in Hw, Ht.
  assert (Hc : capped w now = t1).
  { unfold capped, t1, kMaxAdvanceNs. destruct (_ <? _) eqn:E; bool_to_prop; lia. }
  destruct Hh as (Hk & _).
  destruct (advance_spec w now Hw ltac:(lia) Hnow) as (_ & H1 & _ & _ & H2 & H3).
  rewrite Hc in *. done.
Qed.

(** Callbacks looked up for the due ids are those of the due part of the map. *)
Lemma fired_callbacks (m : gmap Z (Z * C)) t1 F :
  NoDup F -> (forall id, id ∈ F <-> exists e cb, m !! id = Some (e, cb) /\ e <= t1) ->
  omap (fun id => snd <$> (m !! id)) F ≡ₚ (map_to_list (filter (fun p => p.2.1 <= t1) m)).*2.*2.
Proof.
  intros HF Hin. set (d := filter _ m).
  assert (Hp : F ≡ₚ (map_to_list d).*1).
  { apply NoDup_Permutation; [done|apply NoDup_fst_map_to_list|]. intros x. rewrite Hin, list_elem_of_fmap. split.
    - intros (e & cb & E & He). exists (x, (e, cb)). split; [done|]. apply elem_of_map_to_list. by apply map_lookup_filter_Some.
    - intros ([y [e cb]] & -> & Hy). apply elem_of_map_to_list, map_lookup_filter_Some in Hy as [Hy He]. by exists e, cb. }
  rewrite Hp. assert (Hsub : forall p, p ∈ map_to_list d -> m !! p.1 = Some p.2).
  { intros [y v] Hy. by apply elem_of_map_to_list, map_lookup_filter_Some in Hy as [? _]. }
  clear Hp. induction (map_to_list d) as [|[y v] l IH]; [done|]. simpl.
  pose proof (Hsub (y, v) ltac:(by left)) as E. simpl in E. rewrite E. simpl.
  f_equiv. apply IH. intros p Hp. apply Hsub. by right.
Qed.

(** The buckets hold every timer of the map exactly once. *)
Lemma all_ids_timers w : wheel_ok w -> all_ids w ≡ₚ (map_to_list (timers w)).*1.
Proof.
  intros [S _].
  apply NoDup_Permutation; [|apply NoDup_fst_map_to_list|].
  - unfold all_ids. apply NoDup_bind; [| |apply NoDup_seq].
    + intros l1 l2 x _ _ H1 H2. apply list_elem_of_bind in H1 as (b1 & H1 & _), H2 as (b2 & H2 & _).
      apply (so_slots _ _ S) in H1 as (t1 & E1 & <- & _), H2 as (t2 & E2 & <- & _). congruence.
    + intros l _. apply NoDup_bind; [|intros; apply (so_nodup _ _ S)|apply NoDup_fmap_2, NoDup_seq; intros ???; lia].
      intros b1 b2 x _ _ H1 H2. apply (so_slots _ _ S) in H1 as (t1 & E1 & _ & <-), H2 as (t2 & E2 & _ & <-). congruence.
  - intros x. rewrite (all_ids_spec w _ x S), list_elem_of_fmap. split.
    + intros [t Ht]. exists (x, abs_timer t). split; [done|]. apply elem_of_map_to_list. by rewrite timers_lookup, Ht.
    + intros ([y v] & -> & Hy). apply elem_of_map_to_list in Hy. rewrite timers_lookup in Hy. simpl.
      destruct (timer_map w !! y) eqn:E; [by eexists|done].
Qed.

(** C23. The wheel is a map from ids to deadline and callback.  With a tick of at
    least [kMaxAdvanceNs] over 255 (392157 ns; the default is 1 ms), so that an
    advance passes at most 255 ticks, and level ranges within 64 bits, after any
    history: the id returned by [schedule_at] names a fresh entry; [cancel]
    succeeds exactly for a pending timer and removes it alone; [advance] to a
    later time reaches that time or 100 ms ahead, removes exactly the entries due
    by then, and runs the callback of each of them once; [size] and [empty] count
    the entries; and the cached deadline is the least of them, [INT64_MAX] when
    there is none. *)
Theorem wheel_refines_map tick levels now0 os :
  history_ok tick levels now0 os ->
  let w := wheel_run (wheel_init tick levels now0) os in
  (forall e cb, let id := Z.land (schedule_at w e cb).1 base_id_mask in
     timers w !! id = None /\
     timers (schedule_at w e cb).2 = <[id := (e, cb)]> (timers w)) /\
  (forall tid, let id := Z.land tid base_id_mask in
     (wheel_cancel w tid).1 = bool_decide (is_Some (timers w !! id)) /\
     timers (wheel_cancel w tid).2 = delete id (timers w)) /\
  (forall now, current_time w < now ->
     let t1 := Z.min now (current_time w + kMaxAdvanceNs) in
     let '(fired, w') := advance w now in
     current_time w' = t1 /\
     timers w' = filter (fun p => t1 < p.2.1) (timers w) /\
     fired ≡ₚ (map_to_list (filter (fun p => p.2.1 <= t1) (timers w))).*2.*2) /\
  wheel_size w = size (timers w) /\ wheel_empty w = bool_decide (timers w = ∅) /\
  (forall id e cb, timers w !! id = Some (e, cb) -> min_deadline w <= e) /\
  (min_deadline w = INT64_MAX \/
   exists id cb, timers w !! id = Some (min_deadline w, cb)).
Proof.
  intros Hh w. destruct (history_wheel_ok _ _ _ _ Hh) as (Hw & _ & Hn). fold w in Hw, Hn.
  pose proof (all_ids_timers w Hw) as Hids.
  split; [|split; [|split; [|split; [|split; [|split]]]]].
  - intros e cb. destruct (schedule_spec w e cb Hw Hn) as (_ & -> & H1 & H2 & _). done.
  - intros tid. destruct (cancel_spec w tid Hw) as (_ & H1 & H2 & _). done.
  - intros now Hnow t1. pose proof (advance_fires_due tick levels now0 os now Hh Hnow) as H. fold w t1 in H.
    destruct (advance w now) as [fired w']. destruct H as (H1 & H2 & F & HF & Hin & H3). split; [done|]. split; [done|].
    simpl in H3. subst fired. by apply fired_callbacks.
  - unfold wheel_size. rewrite Hids, length_fmap. apply length_map_to_list.
  - unfold wheel_empty. apply bool_decide_ext. rewrite <- map_to_list_empty_iff. split; intros E.
    + rewrite E in Hids. by apply Permutation_nil_l, eq_sym, fmap_nil_inv in Hids.
    + rewrite E in Hids. by apply Permutation_nil_r in Hids.
  - intros id e cb Hid. rewrite timers_lookup in Hid.
    destruct (timer_map w !! id) as [t|] eqn:Et; simplify_eq/=. injection Hid as <- <-.
    exact (proj1 (wo_min _ Hw) id t Et).
  - destruct (proj2 (wo_min _ Hw)) as [->|(id & t & Ht & He)]; [by left|right].
    exists id, (callback t). rewrite timers_lookup, Ht. simpl. unfold abs_timer. by rewrite He.
Qed.
End Spec.

(** Three timers on a millisecond wheel: one cascades from level 1. *)
Definition demo_ops : list (@WheelOp nat) :=
  [WSchedule 5000000 1%nat; WSchedule 300000000 2%nat; WSchedule 90000000 3%nat; WAdvance 60000000].

Lemma advance_fires_due_witness :
  (advance (wheel_run (wheel_init 1000000 4 0) demo_ops) 95000000).1 = [3%nat] /\
  timers (advance (wheel_run (wheel_init 1000000 4 0) demo_ops) 95000000).2
  = filter (fun p => 95000000 < p.2.1) (timers (wheel_run (wheel_init 1000000 4 0) demo_ops)).
Proof.
  split; [vm_compute; reflexivity|].
  refine (proj1 (proj2 (advance_fires_due 1000000 4 0 demo_ops 95000000 _ _))).
  - unfold history_ok, kMaxAdvanceNs, INT64_MAX, zlen; simpl. lia.
  - vm_compute. reflexivity.
Defined.

Lemma wheel_refines_map_witness :
  let w := wheel_run (wheel_init 1000000 4 0) demo_ops in
  (wheel_cancel w 2).1 = bool_decide (is_Some (timers w !! Z.land 2 base_id_mask)).
Proof.
  refine (proj1 (proj1 (proj2 (wheel_refines_map 1000000 4 0 demo_ops _)) 2)).
  unfold history_ok, kMaxAdvanceNs, INT64_MAX, zlen; simpl. lia.
Defined.

(** The tick bound is needed.  On a wheel with a tick of 0.1 ms one advance of
    100 ms passes 1000 ticks but scans 233 buckets, and a timer that is due
    half way stays pending. *)
Theorem small_tick_skips_due_timer :
  let w := wheel_run (wheel_init 100000 4 0) [WSchedule 25000000 1%nat] in
  (advance w 100000000).1 = [] /\
  timers (advance w 100000000).2 = {[1 := (25000000, 1%nat)]} /\
  current_time (advance w 100000000).2 = 100000000.
Proof. vm_compute. repeat split. Qed.
