(* ===== verification/EdfQueue.v ===== *)
(** * The earliest-deadline-first queue

    [sched/edf_queue.cpp]: a binary heap in a vector, ordered by
    [later_deadline].  The sift loops take fuel; the length of the vector is
    enough, since an index moves one level per iteration. *)

From S2P Require Import Prelude.
From stdpp Require Import base numbers list.

#[local] Open Scope Z_scope.

Section Heap.
Context {W : Type}.   (* WorkItem *)

Record HeapItem := mkItem { deadline : Z; seqno : Z; item : W }.

Record EDFQueue := mkEdf { items : list HeapItem; next_sequence : Z }.

Definition edf_init : EDFQueue := mkEdf [] 0.

Definition later_deadline (a b : HeapItem) : bool :=
  if negb (deadline a =? deadline b) then deadline b <? deadline a
  else seqno a <? seqno b.

Definition parent (i : nat) : nat := ((i - 1) / 2)%nat.
Definition left_ (i : nat) : nat := (2 * i + 1)%nat.
Definition right_ (i : nat) : nat := (2 * i + 2)%nat.

Definition swap (l : list HeapItem) (i j : nat) : list HeapItem :=
  match l !! i, l !! j with
  | Some x, Some y => <[i := y]> (<[j := x]> l)
  | _, _ => l
  end.

(** [later_deadline(items_[i], items_[j])]; both indices are in range where
    the code evaluates it. *)
Definition later_at (l : list HeapItem) (i j : nat) : bool :=
  match l !! i, l !! j with
  | Some x, Some y => later_deadline x y
  | _, _ => false
  end.

Fixpoint sift_up (fuel : nat) (l : list HeapItem) (i : nat) : list HeapItem :=
  match fuel with
  | O => l
  | S fuel =>
      if bool_decide (i = 0%nat) then l
      else
        let p := parent i in
        if later_at l p i then sift_up fuel (swap l p i) p else l
  end.

Definition smallest_of (l : list HeapItem) (i : nat) : nat :=
  let n := length l in
  let smallest := i in
  let smallest := if bool_decide (left_ i < n)%nat && later_at l smallest (left_ i)
                  then left_ i else smallest in
  if bool_decide (right_ i < n)%nat && later_at l smallest (right_ i)
  then right_ i else smallest.

Fixpoint sift_down (fuel : nat) (l : list HeapItem) (i : nat) : list HeapItem :=
  match fuel with
  | O => l
  | S fuel =>
      let smallest := smallest_of l i in
      if bool_decide (smallest = i) then l
      else sift_down fuel (swap l i smallest) smallest
  end.

(** [EDFQueue::push]. *)
Definition edf_push (q : EDFQueue) (deadline_ns : Z) (w : W) : EDFQueue :=
  let l := items q ++ [mkItem deadline_ns (next_sequence q) w] in
  mkEdf (sift_up (length l) l (length l - 1)) (u64 (next_sequence q + 1)).

(** [EDFQueue::pop]. *)
Definition edf_pop (q : EDFQueue) : option W * EDFQueue :=
  match items q with
  | [] => (None, q)
  | [x] => (Some (item x), mkEdf [] (next_sequence q))
  | x :: l =>
      let l' := match last l with Some y => y :: removelast l | None => [] end in
      (Some (item x), mkEdf (sift_down (length l') l' 0) (next_sequence q))
  end.

(** [EDFQueue::peek], [clear]. *)
Definition edf_peek (q : EDFQueue) : option Z := deadline <$> head (items q).
Definition edf_clear (q : EDFQueue) : EDFQueue := mkEdf [] (next_sequence q).

(** ** The order *)

Definition before (a b : HeapItem) : Prop := later_deadline a b = false.

Lemma before_iff a b :
  before a b <-> deadline a < deadline b \/ (deadline a = deadline b /\ seqno b <= seqno a).
Proof.
  unfold before, later_deadline. destruct (deadline a =? deadline b) eqn:E; bool_to_prop; simpl.
  - rewrite Z.ltb_ge. lia.
  - rewrite Z.ltb_ge. lia.
Qed.

Lemma before_refl a : before a a.
Proof. rewrite before_iff. lia. Qed.
Lemma before_trans a b c : before a b -> before b c -> before a c.
Proof. rewrite !before_iff. lia. Qed.
Lemma later_before a b : later_deadline a b = true -> before b a.
Proof.
  unfold later_deadline. rewrite before_iff. destruct (deadline a =? deadline b) eqn:E; simpl;
    intros; bool_to_prop; lia.
Qed.

(** ** Swapping *)

Lemma lookup_swap l i j x y k :
  l !! i = Some x -> l !! j = Some y -> i <> j ->
  swap l i j !! k = if decide (k = i) then Some y else if decide (k = j) then Some x else l !! k.
Proof.
  intros Hi Hj Hne. unfold swap. rewrite Hi, Hj.
  pose proof (lookup_lt_Some _ _ _ Hi). pose proof (lookup_lt_Some _ _ _ Hj).
  destruct (decide (k = i)) as [->|H1]; [by rewrite list_lookup_insert_eq by (rewrite length_insert; lia)|].
  rewrite list_lookup_insert_ne by done.
  destruct (decide (k = j)) as [->|H2]; [by rewrite list_lookup_insert_eq by lia|].
  by rewrite list_lookup_insert_ne.
Qed.

Lemma length_swap l i j : length (swap l i j) = length l.
Proof. unfold swap. destruct (l !! i), (l !! j); rewrite ?length_insert; done. Qed.

Lemma insert_perm (l : list HeapItem) i x y :
  l !! i = Some x -> y :: l ≡ₚ x :: <[i := y]> l.
Proof.
  revert i. induction l as [|a l IH]; intros [|i] H; simplify_eq/=; [apply perm_swap|].
  rewrite perm_swap, (IH i H). apply perm_swap.
Qed.

Lemma swap_perm l i j : i <> j -> swap l i j ≡ₚ l.
Proof.
  intros Hne. unfold swap. destruct (l !! i) as [x|] eqn:Hi, (l !! j) as [y|] eqn:Hj; try done.
  assert (H1 : x :: l ≡ₚ y :: <[j := x]> l) by (by apply insert_perm).
  assert (H2 : y :: <[j := x]> l ≡ₚ x :: <[i := y]> (<[j := x]> l))
    by (apply insert_perm; by rewrite list_lookup_insert_ne).
  symmetry. apply (Permutation_cons_inv (a := x)). by rewrite H1, H2.
Qed.
End Heap.
Arguments HeapItem : clear implicits.
Arguments EDFQueue : clear implicits.
