(* ===== verification/EdfSpec.v ===== *)
(** * The EDF queue implements a priority queue

    Heap order is preserved by every operation, [pop] returns an item of
    earliest deadline, and nothing is lost or invented. *)

From S2P Require Import Prelude EdfQueue.
From stdpp Require Import base numbers list.

#[local] Open Scope Z_scope.

Lemma parent_lt i : (0 < i)%nat -> (parent i < i)%nat.
Proof. unfold parent. intros. assert ((i - 1) / 2 <= i - 1)%nat by (apply Nat.Div0.div_le_upper_bound; lia). lia. Qed.

Lemma parent_children i j : (0 < j)%nat -> parent j = i <-> j = left_ i \/ j = right_ i.
Proof.
  unfold parent, left_, right_. intros Hj.
  pose proof (Nat.div_mod_eq (j - 1) 2). pose proof (Nat.mod_upper_bound (j - 1) 2 ltac:(lia)). lia.
Qed.

Section Spec.
Context {W : Type}.
Implicit Types l : list (HeapItem W).

(** [before] between two positions, vacuous out of range. *)
Definition before_at l (i j : nat) : Prop :=
  forall x y, l !! i = Some x -> l !! j = Some y -> before x y.

Definition heap l : Prop := forall j, (0 < j)%nat -> before_at l (parent j) j.

(** Heap order but for the edge above [i], respectively below [i]; the edges
    around [i] are bridged. *)
Definition heap_but_up l i : Prop :=
  (forall j, (0 < j)%nat -> j <> i -> before_at l (parent j) j) /\
  (forall j, (0 < i)%nat -> (0 < j)%nat -> parent j = i -> before_at l (parent i) j).
Definition heap_but_down l i : Prop :=
  (forall j, (0 < j)%nat -> parent j <> i -> before_at l (parent j) j) /\
  (forall j, (0 < i)%nat -> (0 < j)%nat -> parent j = i -> before_at l (parent i) j).

Lemma later_at_false l i j : later_at l i j = false -> before_at l i j.
Proof. intros H x y Hx Hy. unfold later_at in H. rewrite Hx, Hy in H. done. Qed.

Lemma later_at_true l i j :
  later_at l i j = true -> exists x y, l !! i = Some x /\ l !! j = Some y /\ before y x.
Proof.
  unfold later_at. destruct (l !! i) as [x|], (l !! j) as [y|]; try done.
  intros H. exists x, y. repeat split; try done. by apply later_before.
Qed.

(** The edges of the swapped vector, read in the old one. *)
Ltac edge Hx Hy Hne :=
  let a := fresh "a" in let b := fresh "b" in
  let Ha := fresh "Ha" in let Hb := fresh "Hb" in
  intros a b; rewrite !(lookup_swap _ _ _ _ _ _ Hx Hy Hne);
  repeat destruct (decide _); intros Ha Hb;
  try injection Ha as <-; try injection Hb as <-; try done; try lia.

Lemma sift_up_heap fuel l i : (i <= fuel)%nat -> heap_but_up l i -> heap (sift_up fuel l i).
Proof.
  revert l i. induction fuel as [|fuel IH]; intros l i Hf [H1 H2]; simpl.
  { intros j Hj. apply H1; [done|]. lia. }
  case_bool_decide as Hi; [intros j Hj; apply H1; [done|lia]|].
  pose proof (parent_lt i ltac:(lia)) as Hp.
  destruct (later_at l (parent i) i) eqn:E.
  - destruct (later_at_true _ _ _ E) as (x & y & Hx & Hy & Hyx).
    apply IH; [lia|]. assert (Hne : parent i <> i) by lia. split.
    + intros j Hj Hjp. pose proof (parent_lt j Hj).
      destruct (decide (j = i)) as [->|Hji].
      { edge Hx Hy Hne. }
      destruct (decide (parent j = parent i)) as [Hpp|Hpp].
      { rewrite Hpp. edge Hx Hy Hne. eapply before_trans; [done|].
        apply (H1 j Hj Hji); [by rewrite Hpp|done]. }
      destruct (decide (parent j = i)) as [Hpi|Hpi].
      { rewrite Hpi. edge Hx Hy Hne. by apply (H2 j ltac:(lia) Hj Hpi). }
      edge Hx Hy Hne. by apply (H1 j Hj Hji).
    + intros j Hp0 Hj Hjp. pose proof (parent_lt (parent i) Hp0).
      destruct (decide (j = i)) as [->|Hji].
      * edge Hx Hy Hne. by apply (H1 (parent i) Hp0 ltac:(lia)).
      * assert (j <> parent i) by (pose proof (parent_lt j Hj); lia).
        edge Hx Hy Hne. eapply before_trans; [by apply (H1 (parent i) Hp0 ltac:(lia))|].
        apply (H1 j Hj Hji); [by rewrite Hjp|done].
  - intros j Hj. destruct (decide (j = i)) as [->|Hji]; [by apply later_at_false|by apply H1].
Qed.

Lemma smallest_of_spec l i (x : HeapItem W) :
  l !! i = Some x ->
  (smallest_of l i = i \/ (smallest_of l i = left_ i \/ smallest_of l i = right_ i) /\
     (smallest_of l i < length l)%nat /\
     exists y, l !! smallest_of l i = Some y /\ before y x) /\
  (forall j, j = left_ i \/ j = right_ i -> before_at l (smallest_of l i) j).
Proof.
  intros Hx. unfold smallest_of.
  set (s := if bool_decide (left_ i < length l)%nat && later_at l i (left_ i) then left_ i else i).
  assert (Hs : (s = i \/ s = left_ i) /\ (s < length l)%nat /\
               (exists y, l !! s = Some y /\ before y x) /\ before_at l s (left_ i)).
  { unfold s. pose proof (lookup_lt_Some _ _ _ Hx).
    destruct (bool_decide _ && _) eqn:E; bool_to_prop.
    - destruct (later_at_true _ _ _ H1) as (a & y & Ha & Hy & Hb). simplify_eq.
      repeat split; [by right|done|by exists y|]. intros u v Hu Hv. simplify_eq. apply before_refl.
    - split; [by left|]. split; [done|]. split; [exists x; split; [done|apply before_refl]|].
      destruct E as [E|E]; bool_to_prop; [|by apply later_at_false].
      intros u v _ Hv. apply lookup_lt_Some in Hv. lia. }
  clearbody s. destruct Hs as (Hs & Hlt & (y & Hy & Hyx) & Hl).
  destruct (bool_decide (right_ i < length l)%nat && later_at l s (right_ i)) eqn:E; bool_to_prop.
  - destruct (later_at_true _ _ _ H0) as (a & z & Ha & Hz & Hb). simplify_eq.
    split; [right; split; [by right|split; [done|]]; exists z; split; [done|by eapply before_trans]|].
    intros j [->| ->] u v Hu Hv; simplify_eq; [|apply before_refl].
    eapply before_trans; [done|]. by apply Hl.
  - split.
    + destruct Hs as [->| ->]; [by left|right]. split; [by left|]. split; [done|]. by exists y.
    + intros j [->| ->]; [done|]. destruct E as [E|E]; bool_to_prop; [|by apply later_at_false].
      intros u v _ Hv. apply lookup_lt_Some in Hv. lia.
Qed.

Lemma sift_down_heap fuel l i :
  (length l <= fuel + i)%nat -> heap_but_down l i -> heap (sift_down fuel l i).
Proof.
  revert l i. induction fuel as [|fuel IH]; intros l i Hf [H1 H2]; simpl.
  { intros j Hj. destruct (decide (parent j = i)) as [Hp|Hp]; [|by apply H1].
    pose proof (parent_lt j Hj). intros x y _ Hy. apply lookup_lt_Some in Hy. lia. }
  destruct (l !! i) as [x|] eqn:Hx.
  2:{ assert (Hs : smallest_of l i = i).
      { unfold smallest_of, later_at. rewrite Hx, andb_false_r, Hx. by rewrite andb_false_r. }
      rewrite Hs, bool_decide_true by done. apply lookup_ge_None in Hx.
      intros j Hj. destruct (decide (parent j = i)) as [Hp|Hp]; [|by apply H1].
      pose proof (parent_lt j Hj). intros a b _ Hb. apply lookup_lt_Some in Hb. lia. }
  destruct (smallest_of_spec l i x Hx) as [Hs Hmin].
  set (s := smallest_of l i) in *. case_bool_decide as Hsi.
  { intros j Hj. destruct (decide (parent j = i)) as [Hp|Hp]; [|by apply H1].
    rewrite Hp. apply (parent_children i j Hj) in Hp. rewrite <- Hsi. by apply Hmin. }
  destruct Hs as [Hs|(Hs & Hlt & y & Hy & Hyx)]; [done|].
  assert (Hs0 : (0 < s)%nat) by (unfold left_, right_ in Hs; lia).
  assert (Hps : parent s = i) by (by apply parent_children).
  assert (Hne : i <> s) by done. pose proof (parent_lt s Hs0).
  apply IH; [rewrite length_swap; lia|]. split.
  - intros j Hj Hjs. pose proof (parent_lt j Hj). destruct (decide (j = s)) as [->|Hjns].
    { rewrite Hps. edge Hx Hy Hne. }
    destruct (decide (parent j = i)) as [Hp|Hp].
    { rewrite Hp. edge Hx Hy Hne. apply (Hmin j); [by apply parent_children|done|done]. }
    destruct (decide (j = i)) as [->|Hji].
    { edge Hx Hy Hne. apply (H2 s); [done|done|done|done|done]. }
    edge Hx Hy Hne. by apply (H1 j Hj Hp).
  - intros j _ Hj Hjp. rewrite Hps. pose proof (parent_lt j Hj).
    edge Hx Hy Hne. apply (H1 j Hj); [lia|by rewrite Hjp|done].
Qed.

Lemma sift_up_perm fuel l i : sift_up fuel l i ≡ₚ l.
Proof.
  revert l i. induction fuel as [|fuel IH]; intros l i; simpl; [done|].
  case_bool_decide; [done|]. destruct (later_at _ _ _); [|done].
  rewrite IH. apply swap_perm. pose proof (parent_lt i ltac:(lia)). lia.
Qed.

Lemma sift_down_perm fuel l i : sift_down fuel l i ≡ₚ l.
Proof.
  revert l i. induction fuel as [|fuel IH]; intros l i; simpl; [done|].
  case_bool_decide; [done|]. rewrite IH. by apply swap_perm.
Qed.

(** The root of a heap comes before every element. *)
Lemma heap_root l i : heap l -> before_at l 0 i.
Proof.
  intros Hh. induction i as [i IH] using (well_founded_induction lt_wf).
  destruct (decide (i = 0%nat)) as [->|Hi].
  - intros x y Hx Hy. simplify_eq. apply before_refl.
  - intros x y Hx Hy. pose proof (parent_lt i ltac:(lia)).
    destruct (lookup_lt_is_Some_2 l (parent i)) as [z Hz]; [apply lookup_lt_Some in Hy; lia|].
    eapply before_trans; [by apply (IH (parent i))|]. by apply (Hh i ltac:(lia)).
Qed.

(** ** Operations *)

Lemma edf_push_heap q d (w : W) : heap (items q) -> heap (items (edf_push q d w)).
Proof.
  intros Hh. unfold edf_push. simpl. rewrite length_app. simpl.
  apply sift_up_heap; [lia|]. replace (length (items q) + 1 - 1)%nat with (length (items q)) by lia.
  split.
  - intros j Hj Hne x y Hx Hy. pose proof (parent_lt j Hj).
    assert (j < length (items q))%nat by (apply lookup_lt_Some in Hy; rewrite length_app in Hy; simpl in Hy; lia).
    rewrite lookup_app_l in Hx, Hy by lia. by apply (Hh j Hj).
  - intros j _ Hj Hp x y _ Hy. pose proof (parent_lt j Hj).
    apply lookup_lt_Some in Hy. rewrite length_app in Hy. simpl in Hy. lia.
Qed.

Lemma edf_pop_spec (q : EDFQueue W) :
  heap (items q) ->
  match items q with
  | [] => edf_pop q = (None, q)
  | hi :: _ =>
      exists q', edf_pop q = (Some (item hi), q') /\ heap (items q') /\
        items q ≡ₚ hi :: items q' /\ (forall x, x ∈ items q' -> before hi x)
  end.
Proof.
  intros Hh. destruct q as [[|hi l] nx]; simpl in *; [done|].
  destruct l as [|z l].
  { eexists. split; [done|]. split; [by intros j Hj x y Hx|]. split; [done|]. intros x Hx. by apply not_elem_of_nil in Hx. }
  unfold edf_pop; simpl items. set (k := z :: l) in *.
  destruct (exists_last (l := k)) as (k0 & y & Hk); [done|]. rewrite Hk in *.
  rewrite last_snoc, removelast_last.
  eexists. split; [by destruct k0|]. cbn [items].
  assert (Hperm : hi :: k0 ++ [y] ≡ₚ hi :: sift_down (length (y :: k0)) (y :: k0) 0).
  { rewrite sift_down_perm. apply Permutation_skip. by rewrite Permutation_app_comm. }
  split; [|split; [done|]].
  - apply sift_down_heap; [lia|]. split; [|intros; lia].
    intros j Hj Hp u v Hu Hv. destruct j as [|j]; [lia|].
    destruct (parent (S j)) as [|p] eqn:Ep; [done|]. simpl in Hu, Hv.
    pose proof (Hh (S j) ltac:(lia)) as Hb. rewrite Ep in Hb.
    apply Hb; simpl; by apply lookup_app_l_Some.
  - intros x Hx. assert (Hin : x ∈ hi :: k0 ++ [y]).
    { rewrite Hperm. by apply list_elem_of_further. }
    apply list_elem_of_lookup in Hin as [i Hi].
    by apply (heap_root _ i Hh).
Qed.

Inductive EdfOp := EdfPush (d : Z) (w : W) | EdfPop | EdfClear.
Definition edf_apply (q : EDFQueue W) (o : EdfOp) : EDFQueue W :=
  match o with
  | EdfPush d w => edf_push q d w
  | EdfPop => (edf_pop q).2
  | EdfClear => edf_clear q
  end.
Definition edf_run (os : list EdfOp) : EDFQueue W := foldl edf_apply edf_init os.

Lemma edf_run_heap os : heap (items (edf_run os)).
Proof.
  unfold edf_run. assert (H0 : heap (items (@edf_init W))) by (by intros j Hj x y Hx).
  revert H0. generalize (@edf_init W). induction os as [|o os IH]; intros q Hq; [done|].
  apply IH. destruct o as [d w| |]; simpl.
  - by apply edf_push_heap.
  - pose proof (edf_pop_spec q Hq) as Hp. destruct (items q) as [|hi l] eqn:E;
      [rewrite Hp; simpl; by rewrite E|].
    destruct Hp as (q' & -> & ? & _). done.
  - by intros j Hj x y Hx.
Qed.

(** The EDF queue is a priority queue.  After any operations: a push adds its
    item and nothing else; on an empty queue [pop] and [peek] report nothing;
    otherwise [pop] removes exactly one item [hi], no item left has an earlier
    deadline, [peek] shows its deadline, and among the items of equal deadline
    it is the one pushed last. *)
Theorem edf_priority_queue (os : list EdfOp) :
  let q := edf_run os in
  (forall d w, items (edf_push q d w) ≡ₚ mkItem d (next_sequence q) w :: items q) /\
  (items q = [] -> edf_pop q = (None, q) /\ edf_peek q = None) /\
  (items q <> [] ->
   exists hi q', edf_pop q = (Some (item hi), q') /\ edf_peek q = Some (deadline hi) /\
     items q ≡ₚ hi :: items q' /\
     forall x, x ∈ items q' ->
       deadline hi <= deadline x /\ (deadline x = deadline hi -> seqno x <= seqno hi)).
Proof.
  intros q. pose proof (edf_pop_spec q (edf_run_heap os)) as Hp. split; [|split].
  - intros d w. unfold edf_push. simpl. rewrite sift_up_perm. by rewrite Permutation_app_comm.
  - intros Hq. rewrite Hq in Hp. split; [done|]. unfold edf_peek. by rewrite Hq.
  - intros Hq. destruct (items q) as [|hi l] eqn:E; [done|].
    destruct Hp as (q' & H1 & _ & H3 & H4). exists hi, q'.
    split; [done|]. split; [unfold edf_peek; by rewrite E|]. split; [done|].
    intros x Hx. specialize (H4 x Hx). rewrite before_iff in H4. lia.
Qed.
End Spec.

(** Items pushed with one deadline leave in reverse order, though the comparator
    and the sequence counter are documented as a FIFO tie-break. *)
Theorem edf_ties_are_lifo :
  let q := edf_run [EdfPush 100 1; EdfPush 100 2; EdfPush 100 3] in
  let '(x, q1) := edf_pop q in
  let '(y, q2) := edf_pop q1 in
  let '(z, q3) := edf_pop q2 in
  x = Some 3 /\ y = Some 2 /\ z = Some 1 /\ items q3 = [].
Proof. vm_compute. repeat split. Qed.
