(* ===== verification/ReadyGate.v ===== *)
(** * Actor readiness and execution

    [actor/actor_state.hpp], [sched/actor_ready_gate.cpp] and the behaviour
    runner of [sched/actor_execution_engine.cpp].  The gate and the runner are
    first given as functions, run without interference; [gstep] then
    interleaves the loads, compare-and-swaps and stores of any number of
    notifiers and workers on one actor's state word. *)

From S2P Require Import Prelude DeliveryTypes Lanes Admission Mailbox.
From stdpp Require Import base numbers list gmap.

#[local] Open Scope Z_scope.

(** The state word. *)
Definition kIdle : Z := 1.
Definition kReady : Z := 2.
Definition kRunning : Z := 4.
Definition kIOWaiting : Z := 8.
Definition kTerminated : Z := 16.

Inductive ReadyAdmissionCode :=
| RA_Accepted | RA_MissingActor | RA_AlreadyReady | RA_AlreadyRunning | RA_Terminated
| RA_NotAdmissible.

#[export] Instance ReadyAdmissionCode_eq_dec : EqDecision ReadyAdmissionCode.
Proof. solve_decision. Defined.

(** What [ActorSystem::get_actor] finds. *)
Inductive ActorLookup := NoActor | OtherActor | EventBased (state : Z).

(** The answer of [try_mark_ready] to the state it loaded: [None] when it goes
    on to the compare-and-swap. *)
Definition mark_ready_answer (current : Z) : option ReadyAdmissionCode :=
  if (current =? kIdle) || (current =? kIOWaiting) then None
  else if current =? kReady then Some RA_AlreadyReady
  else if current =? kRunning then Some RA_AlreadyRunning
  else if current =? kTerminated then Some RA_Terminated
  else Some RA_NotAdmissible.

(** [ActorReadyGate::try_mark_ready], undisturbed. *)
Definition try_mark_ready (a : ActorLookup) : ReadyAdmissionCode * ActorLookup :=
  match a with
  | NoActor => (RA_MissingActor, a)
  | OtherActor => (RA_Accepted, a)
  | EventBased s =>
      match mark_ready_answer s with
      | None => (RA_Accepted, EventBased kReady)
      | Some code => (code, a)
      end
  end.

(** The same for [mark_ready_already_admitted], which also admits a running
    actor. *)
Definition readmit_answer (current : Z) : option ReadyAdmissionCode :=
  if (current =? kRunning) || (current =? kIdle) || (current =? kIOWaiting) then None
  else if current =? kReady then Some RA_AlreadyReady
  else if current =? kTerminated then Some RA_Terminated
  else Some RA_NotAdmissible.

Definition mark_ready_already_admitted (s : Z) : ReadyAdmissionCode * Z :=
  match readmit_answer s with
  | None => (RA_Accepted, kReady)
  | Some code => (code, s)
  end.

(** ** The behaviour runner *)

(** What the runner needs from a mailbox. *)
Class MailboxOps (M T : Type) := {
  box_try_pop : M -> Z -> option T * M;
  box_empty : M -> bool
}.

#[export] Instance mailbox_ops {T} `{MailboxNode T} : MailboxOps (Mailbox T) T := {|
  box_try_pop m now := Mailbox.try_pop m now;
  box_empty := mb_empty
|}.

Inductive ActorRunDisposition := RD_Terminated | RD_Skipped | RD_RequeueReady | RD_SuspendedOrIdle.

(** What happened to the message that was popped. *)
Inductive RunEvent (T : Type) := Received (msg : T) | ExpiredToDlq (msg : T) | ExitedDown.
Arguments Received {T}.
Arguments ExpiredToDlq {T}.
Arguments ExitedDown {T}.

Definition kLostWakeupRequeueBudget : Z := 1.
Definition kRequeueBudget : Z := 64.

Section Runner.
Context {M T : Type} `{MailboxOps M T}.
Context (msg_deadline_ns : T -> Z).
(** [actor.receive(msg)]: what the behavior does to the actor's own mailbox
    and state word, from the state word it finds. *)
Context (receive : M -> Z -> T -> M * Z).

Record RunState := mkRun { rs_state : Z; rs_box : option M; rs_events : list (RunEvent T) }.

Definition requeue_if_ready (code : ReadyAdmissionCode) : bool :=
  match code with RA_Accepted | RA_AlreadyReady => true | _ => false end.

(** The double check after the actor was set idle. *)
Definition recheck (s : RunState) (try : bool) : ActorRunDisposition * RunState :=
  if try then
    match try_mark_ready (EventBased (rs_state s)) with
    | (code, EventBased st) =>
        (if requeue_if_ready code then RD_RequeueReady else RD_SuspendedOrIdle,
         mkRun st (rs_box s) (rs_events s))
    | (_, _) => (RD_SuspendedOrIdle, s)
    end
  else (RD_SuspendedOrIdle, s).

(** [BehaviorActorRunner::run].  [seqno] is [item.sequence]. *)
Definition behavior_run (s : RunState) (seqno now_ns : Z) (workers_paused : bool)
  : ActorRunDisposition * RunState :=
  if negb (rs_state s =? kReady) then
    if rs_state s =? kTerminated
    then (RD_Terminated, mkRun (rs_state s) (rs_box s) (rs_events s ++ [ExitedDown]))
    else (RD_Skipped, s)
  else
    match rs_box s with
    | None => (RD_Skipped, mkRun kIdle None (rs_events s))
    | Some box =>
        match box_try_pop box now_ns with
        | (None, box) =>
            recheck (mkRun kIdle (Some box) (rs_events s))
              (negb (box_empty box) && (seqno <? kLostWakeupRequeueBudget))
        | (Some msg, box) =>
            let expired := is_expired (msg_deadline_ns msg) now_ns in
            let ev := if expired then ExpiredToDlq msg else Received msg in
            let '(box, st) := if expired then (box, kRunning) else receive box kRunning msg in
            let budget_exhausted := negb workers_paused && (kRequeueBudget <=? seqno) in
            if negb (box_empty box) && negb budget_exhausted then
              let '(code, st) := mark_ready_already_admitted st in
              (if requeue_if_ready code then RD_RequeueReady else RD_Skipped,
               mkRun st (Some box) (rs_events s ++ [ev]))
            else
              recheck (mkRun kIdle (Some box) (rs_events s ++ [ev])) (negb (box_empty box))
        end
    end.

(** Readmission after a run. *)
Lemma mark_ready_already_admitted_cases st :
  match mark_ready_already_admitted st with
  | (code, st') => if requeue_if_ready code then st' = kReady
                   else st' = st /\ st ∉ [kIdle; kReady; kRunning; kIOWaiting]
  end.
Proof.
  unfold mark_ready_already_admitted, readmit_answer.
  destruct ((st =? kRunning) || (st =? kIdle) || (st =? kIOWaiting)) eqn:E1; [done|].
  destruct (st =? kReady) eqn:E2; simpl; [by apply Z.eqb_eq in E2|].
  assert (Hn : st ∉ [kIdle; kReady; kRunning; kIOWaiting]) by (bool_to_prop; set_solver).
  by destruct (st =? kTerminated).
Qed.

(** One run of a ready actor with a mailbox: it handles exactly the message
    [try_pop] gave it, handing it to the actor unless it has expired.  When the
    mailbox, with what the behavior added to it, still has messages the actor
    ends ready and requeued (unless nothing could be popped on a second
    attempt in a row); when it has none the actor ends idle.  The run is
    skipped only when the behavior itself left a state word that admits no
    readiness, which is then kept. *)
Theorem behavior_run_handles box evs seqno now paused :
  let '(d, s') := behavior_run (mkRun kReady (Some box) evs) seqno now paused in
  let '(x, popped) := box_try_pop box now in
  let '(box', st) :=
    match x with
    | Some m => if is_expired (msg_deadline_ns m) now then (popped, kRunning)
                else receive popped kRunning m
    | None => (popped, kRunning)
    end in
  rs_box s' = Some box' /\
  rs_events s' = evs ++ match x with
                        | None => []
                        | Some m => [if is_expired (msg_deadline_ns m) now
                                     then ExpiredToDlq m else Received m]
                        end /\
  match d with
  | RD_RequeueReady => rs_state s' = kReady /\ box_empty box' = false
  | RD_SuspendedOrIdle =>
      rs_state s' = kIdle /\
      (box_empty box' = true \/ (x = None /\ kLostWakeupRequeueBudget <= seqno))
  | RD_Skipped =>
      x <> None /\ box_empty box' = false /\ rs_state s' = st /\
      st ∉ [kIdle; kReady; kRunning; kIOWaiting]
  | RD_Terminated => False
  end.
Proof.
  unfold behavior_run. cbn [rs_state rs_box rs_events]. change (negb (kReady =? kReady)) with false.
  cbv iota. destruct (box_try_pop box now) as [[m|] popped].
  - destruct (if is_expired (msg_deadline_ns m) now then _ else _) as [box' st].
    destruct (box_empty box') eqn:Ee; simpl; [by repeat split; try left|].
    destruct (negb (negb paused && (kRequeueBudget <=? seqno))); [|by repeat split].
    pose proof (mark_ready_already_admitted_cases st) as Hm.
    destruct (mark_ready_already_admitted st) as [code st']. simpl.
    destruct (requeue_if_ready code); simpl; [by repeat split|]. destruct Hm as [-> Hm].
    by repeat split.
  - unfold recheck. destruct (box_empty popped) eqn:Ee; simpl.
    { rewrite app_nil_r. repeat split. by left. }
    destruct (seqno <? kLostWakeupRequeueBudget) eqn:Es; bool_to_prop; simpl; rewrite app_nil_r.
    + by repeat split.
    + repeat split. by right.
Qed.

(** An actor that is not ready is not run. *)
Lemma behavior_run_not_ready s seqno now paused :
  rs_state s <> kReady ->
  rs_box (behavior_run s seqno now paused).2 = rs_box s /\
  rs_state (behavior_run s seqno now paused).2 = rs_state s.
Proof.
  intros Hs. unfold behavior_run. apply Z.eqb_neq in Hs. rewrite Hs. cbn [negb].
  by destruct (rs_state s =? kTerminated).
Qed.
End Runner.

(** ** Interleaving *)

Module ConcurrentGate.

(** A notifier inside [try_mark_ready] followed by the push of a work item. *)
Inductive Notifier :=
| NOut
| NLoaded (current : Z)
| NAdmitted.               (* compare-and-swap succeeded, item not queued yet *)

(** A worker that took an item and runs [BehaviorActorRunner::run]. *)
Inductive Worker :=
| WOut
| WPopped                  (* holds an item, before the Ready to Running swap *)
| WRunning                 (* inside the actor *)
| WReadmitLoaded (cur : Z) (* mark_ready_already_admitted, loaded the state *)
| WIdled                   (* stored Idle, before the double check *)
| WRecheckLoaded (cur : Z) (* try_mark_ready of the double check *)
| WRequeue.                (* will put the item back *)

Record GState := mkG {
  cell : Z;
  queue : Z;                 (* items for this actor in the run queues *)
  notifiers : list Notifier;
  workers : list Worker
}.

Definition set_n (g : GState) (c q : Z) (i : nat) (n : Notifier) : GState :=
  mkG c q (<[i:=n]> (notifiers g)) (workers g).
Definition set_w (g : GState) (c q : Z) (i : nat) (w : Worker) : GState :=
  mkG c q (notifiers g) (<[i:=w]> (workers g)).

(** One atomic access.  [compare_exchange_strong] fails only on a mismatch. *)
Inductive gstep : GState -> GState -> Prop :=
| n_load g i :
    notifiers g !! i = Some NOut ->
    gstep g (set_n g (cell g) (queue g) i (NLoaded (cell g)))
| n_refused g i cur code :
    notifiers g !! i = Some (NLoaded cur) -> mark_ready_answer cur = Some code ->
    gstep g (set_n g (cell g) (queue g) i NOut)
| n_cas g i cur :
    notifiers g !! i = Some (NLoaded cur) -> mark_ready_answer cur = None -> cell g = cur ->
    gstep g (set_n g kReady (queue g) i NAdmitted)
| n_cas_fail g i cur :
    notifiers g !! i = Some (NLoaded cur) -> mark_ready_answer cur = None -> cell g <> cur ->
    gstep g (set_n g (cell g) (queue g) i (NLoaded (cell g)))
| n_push g i :
    notifiers g !! i = Some NAdmitted ->
    gstep g (set_n g (cell g) (queue g + 1) i NOut)
| w_pop g i :
    workers g !! i = Some WOut -> 0 < queue g ->
    gstep g (set_w g (cell g) (queue g - 1) i WPopped)
| w_run g i :
    workers g !! i = Some WPopped -> cell g = kReady ->
    gstep g (set_w g kRunning (queue g) i WRunning)
| w_skip g i :
    workers g !! i = Some WPopped -> cell g <> kReady ->
    gstep g (set_w g (cell g) (queue g) i WOut)
| w_readmit_load g i :
    workers g !! i = Some WRunning ->
    gstep g (set_w g (cell g) (queue g) i (WReadmitLoaded (cell g)))
| w_readmit_cas g i cur :
    workers g !! i = Some (WReadmitLoaded cur) -> readmit_answer cur = None -> cell g = cur ->
    gstep g (set_w g kReady (queue g) i WRequeue)
| w_readmit_cas_fail g i cur :
    workers g !! i = Some (WReadmitLoaded cur) -> readmit_answer cur = None -> cell g <> cur ->
    gstep g (set_w g (cell g) (queue g) i (WReadmitLoaded (cell g)))
| w_readmit_answer g i cur code :
    workers g !! i = Some (WReadmitLoaded cur) -> readmit_answer cur = Some code ->
    gstep g (set_w g (cell g) (queue g) i (if requeue_if_ready code then WRequeue else WOut))
| w_idle g i :
    workers g !! i = Some WRunning ->
    gstep g (set_w g kIdle (queue g) i WIdled)
| w_leave g i :
    workers g !! i = Some WIdled ->
    gstep g (set_w g (cell g) (queue g) i WOut)
| w_recheck_load g i :
    workers g !! i = Some WIdled ->
    gstep g (set_w g (cell g) (queue g) i (WRecheckLoaded (cell g)))
| w_recheck_answer g i cur code :
    workers g !! i = Some (WRecheckLoaded cur) -> mark_ready_answer cur = Some code ->
    gstep g (set_w g (cell g) (queue g) i (if requeue_if_ready code then WRequeue else WOut))
| w_recheck_cas g i cur :
    workers g !! i = Some (WRecheckLoaded cur) -> mark_ready_answer cur = None -> cell g = cur ->
    gstep g (set_w g kReady (queue g) i WRequeue)
| w_recheck_cas_fail g i cur :
    workers g !! i = Some (WRecheckLoaded cur) -> mark_ready_answer cur = None -> cell g <> cur ->
    gstep g (set_w g (cell g) (queue g) i (WRecheckLoaded (cell g)))
| w_requeue g i :
    workers g !! i = Some WRequeue ->
    gstep g (set_w g (cell g) (queue g + 1) i WOut).

Definition initial (n w : nat) : GState := mkG kIdle 0 (replicate n NOut) (replicate w WOut).

(** Workers inside the actor: between the swap to Running and the store or
    swap that leaves it. *)
Definition inside (w : Worker) : Z :=
  match w with WRunning | WReadmitLoaded _ => 1 | _ => 0 end.

(** Tokens that will lead to a run: queued items, and threads that hold one or
    are about to queue one. *)
Definition n_token (n : Notifier) : Z := match n with NAdmitted => 1 | _ => 0 end.
Definition w_token (w : Worker) : Z := match w with WPopped | WRequeue => 1 | _ => 0 end.
Definition tokens (g : GState) : Z :=
  queue g + sum_by n_token (notifiers g) + sum_by w_token (workers g).

Record ginv (g : GState) : Prop := mkGinv {
  gi_queue : 0 <= queue g;
  gi_states : cell g = kIdle \/ cell g = kReady \/ cell g = kRunning;
  gi_inside : sum_by inside (workers g) = if cell g =? kRunning then 1 else 0;
  gi_loaded : Forall (fun w => match w with WReadmitLoaded c => c = kRunning | _ => True end) (workers g);
  gi_token : cell g = kReady -> 1 <= tokens g
}.

(** A step of worker [i] from [w0] to [w1] on the counts. *)
Lemma sum_worker (f : Worker -> Z) g i w0 w1 :
  workers g !! i = Some w0 ->
  sum_by f (<[i := w1]> (workers g)) = sum_by f (workers g) - f w0 + f w1.
Proof. apply sum_by_insert. Qed.

Lemma inside_nonneg ws : 0 <= sum_by inside ws.
Proof. apply sum_by_nonneg. by intros []. Qed.
Lemma n_token_nonneg ns : 0 <= sum_by n_token ns.
Proof. apply sum_by_nonneg. by intros []. Qed.
Lemma w_token_nonneg ws : 0 <= sum_by w_token ws.
Proof. apply sum_by_nonneg. by intros []. Qed.

Lemma gi_inside_cell g i w :
  ginv g -> workers g !! i = Some w -> inside w = 1 ->
  cell g = kRunning /\ sum_by inside (workers g) = 1.
Proof.
  intros Hg Hi Hw. pose proof (gi_inside _ Hg) as Hin.
  pose proof (sum_by_lookup_le inside (workers g) i w ltac:(by intros []) Hi).
  destruct (cell g =? kRunning) eqn:E; bool_to_prop; [done|lia].
Qed.

(** Notifier [i] moves, the workers stay. *)
Lemma ginv_notifier g c q i n0 n1 :
  ginv g -> notifiers g !! i = Some n0 -> 0 <= q ->
  (c = cell g \/ (c = kReady /\ cell g <> kRunning)) ->
  (c = kReady -> 1 <= tokens g - queue g + q - n_token n0 + n_token n1) ->
  ginv (set_n g c q i n1).
Proof.
  intros [H1 H2 H3 H4 H5] Hi Hq Hc Ht. split; simpl; try done.
  - destruct Hc as [->|[-> _]]; [done|tauto].
  - rewrite H3. destruct Hc as [->|[-> Hne]]; [done|].
    apply Z.eqb_neq in Hne. by rewrite Hne.
  - intros Hr. specialize (Ht Hr). unfold tokens in *. simpl.
    rewrite (sum_by_insert _ _ _ _ _ Hi). lia.
Qed.

(** Worker [i] moves. *)
Lemma ginv_worker g c q i w0 w1 :
  ginv g -> workers g !! i = Some w0 -> 0 <= q ->
  (c = kIdle \/ c = kReady \/ c = kRunning) ->
  sum_by inside (workers g) - inside w0 + inside w1 = (if c =? kRunning then 1 else 0) ->
  match w1 with WReadmitLoaded k => k = kRunning | _ => True end ->
  (c = kReady -> 1 <= tokens g - queue g + q - w_token w0 + w_token w1) ->
  ginv (set_w g c q i w1).
Proof.
  intros [H1 H2 H3 H4 H5] Hi Hq Hc Hin Hl Ht. split; simpl; try done.
  - by rewrite (sum_worker _ _ _ _ _ Hi).
  - by apply Forall_insert.
  - intros Hr. specialize (Ht Hr). unfold tokens in *. simpl.
    rewrite (sum_worker _ _ _ _ _ Hi). lia.
Qed.

Lemma ginv_step g g' : ginv g -> gstep g g' -> ginv g'.
Proof.
  intros Hg Hs. pose proof (gi_queue _ Hg) as Hq. pose proof (gi_states _ Hg) as Hst.
  pose proof (gi_inside _ Hg) as Hin. pose proof (gi_token _ Hg) as Htk.
  pose proof (n_token_nonneg (notifiers g)). pose proof (w_token_nonneg (workers g)).
  assert (Hidle : forall cur, mark_ready_answer cur = None -> cur <> kRunning /\ cur <> kReady).
  { intros cur. unfold mark_ready_answer, kIdle, kIOWaiting, kRunning, kReady.
    destruct (cur =? 1) eqn:E1, (cur =? 8) eqn:E2; simpl; bool_to_prop; intros Hn; try (split; lia).
    by repeat destruct (_ =? _). }
  inversion Hs; subst;
    try (match goal with H : notifiers g !! _ = Some _ |- _ => rename H into Hi end;
         eapply ginv_notifier; [done|exact Hi|lia| |]; simpl; unfold tokens in *; try lia; try (by left));
    try (match goal with H : workers g !! _ = Some _ |- _ => rename H into Hi end;
         pose proof (proj1 (Forall_lookup _ _) (gi_loaded _ Hg) _ _ Hi) as Hload; simpl in Hload;
         try (destruct (gi_inside_cell g _ _ Hg Hi eq_refl) as [Hrun Hone]);
         eapply ginv_worker; [done|exact Hi|lia|..]; simpl; unfold tokens in *).
  all: try done; try lia.
  - right. split; [done|]. by apply Hidle.
  - match goal with H : cell g = kReady |- _ => rewrite H in Hin end. simpl in Hin. lia.
  - by subst.
  - by destruct (requeue_if_ready code).
  - by subst.
  - rewrite <- Hin. destruct (requeue_if_ready code); simpl; lia.
  - by destruct (requeue_if_ready code).
  - intros Hr. specialize (Htk Hr). destruct (requeue_if_ready code); simpl; lia.
  - match goal with H : mark_ready_answer _ = None |- _ => apply Hidle in H as [Hne _] end.
    apply Z.eqb_neq in Hne. rewrite Hne in Hin. lia.
Qed.

Lemma ginv_initial n w : ginv (initial n w).
Proof.
  assert (Hz : forall {A} (f : A -> Z) k x, f x = 0 -> sum_by f (replicate k x) = 0).
  { intros A f k x Hx. induction k as [|k IH]; [done|]. simpl. rewrite sum_by_cons. lia. }
  split; simpl; try done; [by left|by apply Hz|by apply Forall_replicate].
Qed.

(** C20. Exclusive execution and no lost admission.  Whatever the interleaving of
    notifiers and workers, at most one worker is inside the actor, and exactly
    when the state word says [Running]; and an actor whose state word says
    [Ready] always has a work item queued, or held by a thread that is about to
    queue or to run it.  The item need not be the only one:
    [recheck_queues_twice] below. *)
Theorem gate_exclusive n w g :
  steps gstep (initial n w) g ->
  sum_by inside (workers g) <= 1 /\
  (sum_by inside (workers g) = 1 <-> cell g = kRunning) /\
  (cell g = kReady -> 1 <= tokens g).
Proof.
  intros Hs. assert (Hg : ginv g)
    by (eapply (steps_inv gstep ginv ginv_step); [done|apply ginv_initial]).
  pose proof (gi_inside _ Hg) as Hin. destruct (cell g =? kRunning) eqn:E; bool_to_prop.
  - split; [lia|]. split; [tauto|apply Hg].
  - split; [lia|]. split; [lia|apply Hg].
Qed.

(** An actor can be on two run queues at once: a worker that has set it idle loads
    the state in its double check after a notifier admitted it, takes the answer
    [AlreadyReady] for an admission of its own, and requeues the item that the
    notifier queues as well.  The second item finds the actor running or idle and
    is skipped, or gives it a run with nothing to do. *)
Lemma recheck_queues_twice :
  exists g, steps gstep (initial 1 1) g /\ cell g = kReady /\ queue g = 2.
Proof.
  exists (mkG kReady 2 [NOut] [WOut]). split; [|done].
  eapply steps_step; [eapply (n_load _ 0%nat); done|].
  eapply steps_step; [eapply (n_cas _ 0%nat kIdle); done|].
  eapply steps_step; [eapply (n_push _ 0%nat); done|].
  eapply steps_step; [eapply (w_pop _ 0%nat); done|].
  eapply steps_step; [eapply (w_run _ 0%nat); done|].
  eapply steps_step; [eapply (w_idle _ 0%nat); done|].
  eapply steps_step; [eapply (n_load _ 0%nat); done|].
  eapply steps_step; [eapply (n_cas _ 0%nat kIdle); done|].
  eapply steps_step; [eapply (w_recheck_load _ 0%nat); done|].
  eapply steps_step; [eapply (w_recheck_answer _ 0%nat kReady RA_AlreadyReady); done|].
  eapply steps_step; [eapply (w_requeue _ 0%nat); done|].
  eapply steps_step; [eapply (n_push _ 0%nat); done|].
  apply steps_refl.
Qed.

(** A notifier and a worker that meet: the item is admitted once and run. *)
Lemma gate_exclusive_witness :
  sum_by inside [WRunning; WOut] <= 1 /\
  (sum_by inside [WRunning; WOut] = 1 <-> kRunning = kRunning).
Proof.
  pose (g := mkG kRunning 0 [NOut] [WRunning; WOut]).
  assert (Hs : steps gstep (initial 1 2) g).
  { eapply steps_step; [eapply (n_load _ 0%nat); done|].
    eapply steps_step; [eapply (n_cas _ 0%nat kIdle); done|].
    eapply steps_step; [eapply (n_push _ 0%nat); done|].
    eapply steps_step; [eapply (w_pop _ 0%nat); done|].
    eapply steps_step; [eapply (w_run _ 0%nat); done|].
    apply steps_refl. }
  destruct (gate_exclusive 1 2 g Hs) as (H1 & H2 & _). exact (conj H1 H2).
Defined.
End ConcurrentGate.
