(* ===== verification/Lifecycle.v ===== *)
(** * Actor lifecycle

    [actor/lifecycle/lifecycle_state.hpp] and [lifecycle_actor.cpp].  A
    lifecycle transition is a table check, a compare-and-swap and a hook;
    [lstep] interleaves the transitions of any number of threads. *)

From S2P Require Import Prelude.
From stdpp Require Import base numbers list gmap strings.

#[local] Open Scope string_scope.
#[local] Open Scope list_scope.
#[local] Open Scope Z_scope.

Inductive LifecycleState :=
| kStarting | kActive | kDraining | kStopping | kStopped | kFailed | kRecovering
| kQuarantined | kPassivating | kPassivated.

#[export] Instance LifecycleState_eq_dec : EqDecision LifecycleState.
Proof. solve_decision. Defined.

Record StateDef := mkStateDef {
  sd_name : string;
  accepts_user_msgs : bool;
  accepts_system_msgs : bool;
  num_transitions : nat;
  transitions : list LifecycleState
}.

(** [kStateMachine], indexed by state. *)
Definition kStateMachine (s : LifecycleState) : StateDef :=
  match s with
  | kStarting => mkStateDef "starting" false true 1 [kActive; kFailed]
  | kActive => mkStateDef "active" true true 5
                 [kDraining; kStopping; kFailed; kQuarantined; kPassivating]
  | kDraining => mkStateDef "draining" false true 2 [kStopping; kFailed]
  | kStopping => mkStateDef "stopping" false true 2 [kStopped; kFailed]
  | kStopped => mkStateDef "stopped" false false 1 [kStarting]
  | kFailed => mkStateDef "failed" false true 4 [kStarting; kStopped; kRecovering; kQuarantined]
  | kRecovering => mkStateDef "recovering" false true 3 [kActive; kFailed; kQuarantined]
  | kQuarantined => mkStateDef "quarantined" false true 1 [kStopped]
  | kPassivating => mkStateDef "passivating" false true 2 [kPassivated; kFailed]
  | kPassivated => mkStateDef "passivated" false true 3 [kRecovering; kStopped; kFailed]
  end.

(** The legality loop: the first [num_transitions] entries. *)
Definition legal (from to : LifecycleState) : bool :=
  existsb (fun t => bool_decide (t = to))
    (take (num_transitions (kStateMachine from)) (transitions (kStateMachine from))).

Inductive Hook :=
| OnStart | OnDrain | OnStop | OnDeactivate | OnFail | OnRestart | OnRecover | OnQuarantined
| OnPassivating | OnPassivated.

(** The hook a completed transition runs. *)
Definition hook_of (from to : LifecycleState) : option Hook :=
  match to with
  | kActive => match from with kStarting | kRecovering => Some OnStart | _ => None end
  | kDraining => Some OnDrain
  | kStopping => Some OnStop
  | kStopped => Some OnDeactivate
  | kFailed => Some OnFail
  | kStarting => match from with kFailed | kStopped => Some OnRestart | _ => None end
  | kRecovering => Some OnRecover
  | kQuarantined => Some OnQuarantined
  | kPassivating => Some OnPassivating
  | kPassivated => Some OnPassivated
  end.

Record LifecycleActor := mkLifecycle {
  lc_state : LifecycleState;
  incarnation : Z;                (* uint64_t *)
  failure_code : Z;
  quarantine_reason : Z;
  quarantined_at : Z;
  hooks : list Hook               (* virtual hooks run so far *)
}.

Definition lifecycle_init : LifecycleActor := mkLifecycle kStarting 0 0 0 0 [].

(** [LifecycleActor::transition], undisturbed; [now] is read on quarantine. *)
Definition transition (a : LifecycleActor) (to : LifecycleState) (now : Z) : bool * LifecycleActor :=
  let from := lc_state a in
  if negb (legal from to) then (false, a)
  else
    let at_ := match to with kQuarantined => now | _ => quarantined_at a end in
    (true, mkLifecycle to (incarnation a) (failure_code a) (quarantine_reason a) at_
             (hooks a ++ option_list (hook_of from to))).

(** [transition_to_quarantined], [transition_from_quarantined], [bump_incarnation]. *)
Definition transition_to_quarantined (a : LifecycleActor) (reason now : Z) : bool * LifecycleActor :=
  transition (mkLifecycle (lc_state a) (incarnation a) (failure_code a) reason (quarantined_at a)
                (hooks a)) kQuarantined now.

Definition transition_from_quarantined (a : LifecycleActor) (now : Z) : bool * LifecycleActor :=
  if negb (bool_decide (lc_state a = kQuarantined)) then (false, a) else transition a kStopped now.

Definition bump_incarnation (a : LifecycleActor) : LifecycleActor :=
  mkLifecycle (lc_state a) (u64 (incarnation a + 1)) (failure_code a) (quarantine_reason a)
    (quarantined_at a) (hooks a).
Definition set_failure_reason (a : LifecycleActor) (code : Z) : LifecycleActor :=
  mkLifecycle (lc_state a) (incarnation a) code (quarantine_reason a) (quarantined_at a) (hooks a).

(** ** The table *)

Definition lifecycle_path : LifecycleState -> LifecycleState -> Prop :=
  steps (fun s t => legal s t = true).

(** Take the legal step to [s]. *)
Ltac via s := eapply (steps_step _ _ s); [done|].

Lemma stopped_reachable s : lifecycle_path s kStopped.
Proof.
  destruct s.
  - via kActive. via kStopping. via kStopped. apply steps_refl.
  - via kStopping. via kStopped. apply steps_refl.
  - via kStopping. via kStopped. apply steps_refl.
  - via kStopped. apply steps_refl.
  - apply steps_refl.
  - via kStopped. apply steps_refl.
  - via kFailed. via kStopped. apply steps_refl.
  - via kStopped. apply steps_refl.
  - via kPassivated. via kStopped. apply steps_refl.
  - via kStopped. apply steps_refl.
Qed.

Lemma active_reachable s : lifecycle_path s kActive.
Proof.
  eapply steps_trans; [apply stopped_reachable|].
  via kStarting. via kActive. apply steps_refl.
Qed.

(** The lifecycle table.  User messages are accepted in [Active] alone and
    system messages everywhere but in [Stopped]; every state can reach
    [Stopped] and can be brought back to [Active]; every legal transition runs
    a hook; the only way out of quarantine is [Stopped]; and a starting actor
    cannot fail, although the table lists [Failed] second for [Starting]. *)
Theorem lifecycle_table :
  (forall s, accepts_user_msgs (kStateMachine s) = true <-> s = kActive) /\
  (forall s, accepts_system_msgs (kStateMachine s) = false <-> s = kStopped) /\
  (forall s, lifecycle_path s kStopped /\ lifecycle_path s kActive) /\
  (forall s t, legal s t = true -> hook_of s t <> None) /\
  (forall t, legal kQuarantined t = true <-> t = kStopped) /\
  (legal kStarting kFailed = false /\ kFailed ∈ transitions (kStateMachine kStarting)).
Proof.
  split; [intros []; by split|]. split; [intros []; by split|].
  split; [intros s; split; [apply stopped_reachable|apply active_reachable]|].
  split; [by intros [] []|]. split; [intros []; by split|]. split; [done|].
  simpl. set_solver.
Qed.

(** ** Interleaved transitions *)

Module ConcurrentLifecycle.

(** A thread inside [transition]. *)
Inductive Thread :=
| TOut
| TLoaded (from to : LifecycleState)
| TSwapped (from to : LifecycleState).   (* swap done, hook not run yet *)

Record LState := mkL {
  l_cell : LifecycleState;
  l_history : list (LifecycleState * LifecycleState);  (* swaps so far, newest first *)
  l_threads : list Thread
}.

Definition set_t (s : LState) (c : LifecycleState) (h : list (LifecycleState * LifecycleState))
    (i : nat) (t : Thread) : LState := mkL c h (<[i:=t]> (l_threads s)).

Inductive lstep : LState -> LState -> Prop :=
| l_load s i to :
    l_threads s !! i = Some TOut ->
    lstep s (set_t s (l_cell s) (l_history s) i (TLoaded (l_cell s) to))
| l_illegal s i from to :
    l_threads s !! i = Some (TLoaded from to) -> legal from to = false ->
    lstep s (set_t s (l_cell s) (l_history s) i TOut)
| l_swap s i from to :
    l_threads s !! i = Some (TLoaded from to) -> legal from to = true -> l_cell s = from ->
    lstep s (set_t s to ((from, to) :: l_history s) i (TSwapped from to))
| l_lost s i from to :
    l_threads s !! i = Some (TLoaded from to) -> legal from to = true -> l_cell s <> from ->
    lstep s (set_t s (l_cell s) (l_history s) i TOut)
| l_hook s i from to :
    l_threads s !! i = Some (TSwapped from to) ->
    lstep s (set_t s (l_cell s) (l_history s) i TOut).

Definition initial (n : nat) : LState := mkL kStarting [] (replicate n TOut).

(** The swaps, newest first, chain back to [Starting] by legal transitions. *)
Fixpoint chained (c : LifecycleState) (h : list (LifecycleState * LifecycleState)) : Prop :=
  match h with
  | [] => c = kStarting
  | (from, to) :: h => c = to /\ legal from to = true /\ chained from h
  end.

(** Linearizability of transitions.  In every interleaving the successful
    transitions form one chain of legal steps from [Starting] to the current
    state: no two threads both leave the same state, and no state is skipped. *)
Theorem transitions_linearize n s :
  steps lstep (initial n) s ->
  chained (l_cell s) (l_history s) /\
  lifecycle_path kStarting (l_cell s).
Proof.
  intros Hs. assert (Hc : chained (l_cell s) (l_history s)).
  { eapply (steps_inv lstep (fun s => chained (l_cell s) (l_history s))); [|done|done].
    intros a b Ha Hab. inversion Hab; subst; simpl; try done. }
  split; [done|]. revert Hc. generalize (l_cell s). induction (l_history s) as [|[from to] h IH]; simpl.
  - intros c ->. apply steps_refl.
  - intros c (-> & Hl & Hc). eapply steps_trans; [by apply IH|].
    eapply steps_step; [exact Hl|apply steps_refl].
Qed.

Lemma transitions_linearize_witness :
  chained kActive [(kStarting, kActive)] /\ lifecycle_path kStarting kActive.
Proof.
  refine (transitions_linearize 2 (mkL kActive [(kStarting, kActive)] [TSwapped kStarting kActive; TOut]) _).
  eapply steps_step; [eapply (l_load _ 0%nat kActive); done|].
  eapply steps_step; [eapply (l_load _ 1%nat kActive); done|].
  eapply steps_step; [eapply (l_swap _ 0%nat kStarting kActive); done|].
  eapply steps_step; [eapply (l_lost _ 1%nat kStarting kActive); done|].
  apply steps_refl.
Defined.
End ConcurrentLifecycle.
