(* ===== verification/Supervision.v ===== *)
(** * Supervision

    [supervision/supervision.cpp].  A supervisor reacts to [DownMsg] of a
    child; parsing the protobuf payload is outside the repository's code and
    its result is an argument.  [steady_clock::time_point::min()] is the least
    64-bit count, and the subtraction from it wraps. *)

From S2P Require Import Prelude Lifecycle.
From stdpp Require Import base numbers list gmap.

#[local] Open Scope Z_scope.

Inductive SupervisionDirective := SD_Restart | SD_Stop | SD_Escalate | SD_Quarantine.

#[export] Instance SupervisionDirective_eq_dec : EqDecision SupervisionDirective.
Proof. solve_decision. Defined.

Record ChildFailure := mkFailure { cf_child : Z; cf_reason : Z; cf_directive : SupervisionDirective }.

Record SupervisionPolicy := mkPolicy {
  max_restarts : Z;                 (* uint32_t *)
  restart_interval_ns : Z;
  quarantine_enabled : bool;
  escalate_on_max_restarts : bool;
  exception_map : gmap Z SupervisionDirective
}.

(** The interface [Supervisor] and its two implementations. *)
Class Supervisor (S : Type) := on_child_failure : S -> ChildFailure -> SupervisionDirective.

Record OneForOneSupervisor := mkOneForOne { ofo_policy : SupervisionPolicy }.
Record AllForOneSupervisor := mkAllForOne { afo_policy : SupervisionPolicy }.

#[export] Instance one_for_one_on_child_failure : Supervisor OneForOneSupervisor :=
  fun _ f => cf_directive f.
#[export] Instance all_for_one_on_child_failure : Supervisor AllForOneSupervisor :=
  fun _ _ => SD_Restart.

(** ** SupervisorActor *)

Record SupervisorActor := mkSupervisor {
  children : list Z;
  restart_counts : gmap Z Z;        (* uint32_t counters *)
  first_failure_time : Z;           (* nanoseconds *)
  restarts_done : list Z            (* children whose lifecycle was driven *)
}.

Definition supervisor_init (cs : list Z) : SupervisorActor := mkSupervisor cs ∅ INT64_MIN [].

(** [now - first_failure_time_ > interval] on 64-bit durations. *)
Definition window_elapsed (now first interval : Z) : bool := interval <? i64 (now - first).

Definition drop_child (cs : list Z) (c : Z) : list Z := filter (fun a => a <> c) cs.

(** Driving the lifecycle of a failed child. *)
Definition drive_restart (a : LifecycleActor) (reason now : Z) : LifecycleActor :=
  let a := set_failure_reason a reason in
  let a := (transition a kFailed now).2 in
  let a := bump_incarnation a in
  (transition a kStarting now).2.

(** [SupervisorActor::restart_child]; [actors] holds the lifecycle actors the
    system knows. *)
Definition restart_child (s : SupervisorActor) (actors : gmap Z LifecycleActor)
    (child reason now : Z) : SupervisorActor * gmap Z LifecycleActor :=
  let count := default 0 (restart_counts s !! child) in
  let reset := window_elapsed now (first_failure_time s) 5000000000 in
  let count := if reset then 0 else count in
  let first := if reset then now else first_failure_time s in
  if 10 <=? count then
    (mkSupervisor (drop_child (children s) child) (delete child (restart_counts s)) first
       (restarts_done s), actors)
  else
    (mkSupervisor (children s) (<[child := u32 (count + 1)]> (restart_counts s)) first
       (restarts_done s ++ [child]),
     alter (fun a => drive_restart a reason now) child actors).

(** [SupervisorActor::handle_child_down]; [None] is a payload that does not
    parse. *)
Definition handle_child_down {S} `{Supervisor S} (strategy : S) (s : SupervisorActor)
    (actors : gmap Z LifecycleActor) (down : option (Z * Z)) (now : Z)
  : SupervisorActor * gmap Z LifecycleActor :=
  match down with
  | None => (s, actors)
  | Some (child, reason) =>
      match on_child_failure strategy (mkFailure child reason SD_Restart) with
      | SD_Restart => restart_child s actors child reason now
      | SD_Stop | SD_Quarantine =>
          (mkSupervisor (drop_child (children s) child) (restart_counts s) (first_failure_time s)
             (restarts_done s), actors)
      | SD_Escalate => (s, actors)
      end
  end.

(** [restart_all_children], which no code path calls. *)
Definition restart_all_children (s : SupervisorActor) (actors : gmap Z LifecycleActor) (now : Z)
  : SupervisorActor * gmap Z LifecycleActor :=
  foldl (fun '(s, actors) c => restart_child s actors c 0 now) (s, actors) (children s).

(** ** SelfSupervisingActor *)

Record SelfSupervisingActor := mkSelf {
  self_policy : SupervisionPolicy;
  self_children : list Z;
  self_counts : gmap Z Z;
  self_first_failure : Z
}.

Definition self_init (p : SupervisionPolicy) : SelfSupervisingActor := mkSelf p [] ∅ INT64_MIN.

Definition add_child (s : SelfSupervisingActor) (c : Z) : SelfSupervisingActor :=
  mkSelf (self_policy s) (self_children s ++ [c]) (self_counts s) (self_first_failure s).
Definition remove_child (s : SelfSupervisingActor) (c : Z) : SelfSupervisingActor :=
  mkSelf (self_policy s) (drop_child (self_children s) c) (self_counts s) (self_first_failure s).

(** [SelfSupervisingActor::decide_restart]. *)
Definition decide_restart (s : SelfSupervisingActor) (child now : Z)
  : SupervisionDirective * SelfSupervisingActor :=
  let p := self_policy s in
  let count := default 0 (self_counts s !! child) in
  let reset := window_elapsed now (self_first_failure s) (restart_interval_ns p) in
  let count := if reset then 0 else count in
  let first := if reset then now else self_first_failure s in
  if max_restarts p <=? count then
    (if quarantine_enabled p && escalate_on_max_restarts p then SD_Quarantine else SD_Stop,
     mkSelf p (self_children s) (<[child := count]> (self_counts s)) first)
  else
    (SD_Restart, mkSelf p (self_children s) (<[child := u32 (count + 1)]> (self_counts s)) first).

(** The base [on_failure]: the exception map, [Restart] by default. *)
Definition on_failure (s : SelfSupervisingActor) (code : Z) : SupervisionDirective :=
  default SD_Restart (exception_map (self_policy s) !! code).

(** [SelfSupervisingActor::handle_child_down]: the directive passed to the
    overridable [on_failure] is discarded. *)
Definition self_handle_child_down (s : SelfSupervisingActor) (down : option (Z * Z)) (now : Z)
  : SelfSupervisingActor :=
  match down with
  | None => s
  | Some (child, reason) =>
      let '(d, s) := decide_restart s child now in
      match d with
      | SD_Stop => if bool_decide (child ∈ self_children s) then remove_child s child else s
      | _ => s
      end
  end.

(** ** Restart budgets *)

(** The first failure time is the least time point until a window elapses, and
    no window elapses from there: the subtraction wraps to a negative number. *)
Lemma window_never_elapses now interval :
  0 <= now <= INT64_MAX -> 0 <= interval -> window_elapsed now INT64_MIN interval = false.
Proof.
  intros Hn Hi. unfold window_elapsed. apply Z.ltb_ge.
  unfold i64, INT64_MIN, INT64_MAX in *.
  replace (now - -9223372036854775808 + 9223372036854775808)
    with (now + 1 * 18446744073709551616) by lia.
  rewrite Z.mod_add by lia. rewrite Z.mod_small by lia. lia.
Qed.

Definition clock_ok (now : Z) : Prop := 0 <= now <= INT64_MAX.

(** A sequence of failures of one child. *)
Definition fail_times (child : Z) (s : SupervisorActor * gmap Z LifecycleActor) (times : list Z) :=
  foldl (fun '(s, actors) now => restart_child s actors child 0 now) s times.

Lemma fail_times_spec child s actors times n :
  Forall clock_ok times -> first_failure_time s = INT64_MIN ->
  default 0 (restart_counts s !! child) = Z.of_nat n mod 11 ->
  let s' := (fail_times child (s, actors) times).1 in
  first_failure_time s' = INT64_MIN /\
  default 0 (restart_counts s' !! child) = Z.of_nat (n + length times) mod 11 /\
  zlen (restarts_done s') = zlen (restarts_done s) +
    (Z.of_nat (n + length times) - Z.of_nat (n + length times) / 11)
    - (Z.of_nat n - Z.of_nat n / 11).
Proof.
  intros Hts. revert s actors n. induction Hts as [|now times Hnow _ IH]; intros s actors n Hf Hc.
  { simpl. rewrite Nat.add_0_r. split; [done|]. split; [done|lia]. }
  cbn [fail_times foldl].
  assert (Hstep : exists s1 actors1, restart_child s actors child 0 now = (s1, actors1) /\
    first_failure_time s1 = INT64_MIN /\
    default 0 (restart_counts s1 !! child) = Z.of_nat (S n) mod 11 /\
    zlen (restarts_done s1) = zlen (restarts_done s) +
      (Z.of_nat (S n) - Z.of_nat (S n) / 11) - (Z.of_nat n - Z.of_nat n / 11)).
  { unfold restart_child. rewrite Hf, window_never_elapses, Hc by (done || lia).
    destruct (10 <=? Z.of_nat n mod 11) eqn:E; bool_to_prop; eexists _, _; (split; [done|]); simpl.
    - rewrite lookup_delete_eq. simpl. split; [done|].
      rewrite Nat2Z.inj_succ. split; Z.to_euclidean_division_equations; lia.
    - rewrite lookup_insert_eq. simpl. split; [done|]. rewrite Nat2Z.inj_succ, zlen_app.
      split; [|change (zlen [child]) with 1; Z.to_euclidean_division_equations; lia].
      pose proof (Z.mod_pos_bound (Z.of_nat n) 11 ltac:(lia)).
      rewrite u32_small by lia.
      Z.to_euclidean_division_equations; lia. }
  destruct Hstep as (s1 & a1 & -> & Hf1 & Hc1 & Hz1).
  destruct (IH s1 a1 (S n) Hf1 Hc1) as (H1 & H2 & H3). unfold fail_times in *.
  replace (n + length (now :: times))%nat with (S n + length times)%nat by (simpl; lia).
  split; [done|]. split; [done|]. lia.
Qed.

(** The restart limit of [SupervisorActor].  Whenever they happen, [n]
    failures of one child lead to [n - n/11] restarts: the limit of ten per
    five seconds swallows every eleventh failure, its counter is erased with
    the child, and the window never resets since [now - time_point::min()]
    wraps. *)
Theorem supervisor_restarts_without_bound child cs actors times :
  Forall clock_ok times ->
  let s := (fail_times child (supervisor_init cs, actors) times).1 in
  let n := Z.of_nat (length times) in
  zlen (restarts_done s) = n - n / 11 /\ first_failure_time s = INT64_MIN.
Proof.
  intros Hts. destruct (fail_times_spec child (supervisor_init cs) actors times 0 Hts eq_refl eq_refl)
    as (H1 & _ & H3). split; [|done]. rewrite H3.
  rewrite Nat.add_0_l. change (zlen (restarts_done (supervisor_init cs))) with 0.
  change (Z.of_nat 0 - Z.of_nat 0 / 11) with 0. lia.
Qed.

Lemma supervisor_restarts_without_bound_witness :
  zlen (restarts_done (fail_times 7 (supervisor_init [7], ∅) (replicate 25 1000)).1) = 23.
Proof.
  rewrite (proj1 (supervisor_restarts_without_bound 7 [7] ∅ (replicate 25 1000)
    ltac:(apply Forall_replicate; unfold clock_ok, INT64_MAX; lia))).
  reflexivity.
Defined.

(** A sequence of decisions of a self-supervising actor. *)
Fixpoint decisions (s : SelfSupervisingActor) (fs : list (Z * Z)) : list (Z * SupervisionDirective) :=
  match fs with
  | [] => []
  | (child, now) :: fs =>
      let '(d, s) := decide_restart s child now in (child, d) :: decisions s fs
  end.

Definition restarts_of (child : Z) (ds : list (Z * SupervisionDirective)) : Z :=
  zlen (filter (fun d => d = (child, SD_Restart)) ds).

Lemma decisions_budget s fs child :
  Forall (fun f => clock_ok f.2) fs -> self_first_failure s = INT64_MIN ->
  0 <= max_restarts (self_policy s) <= UINT32_MAX -> 0 <= restart_interval_ns (self_policy s) ->
  (forall c, 0 <= default 0 (self_counts s !! c)) ->
  restarts_of child (decisions s fs) =
    Z.min (zlen (filter (fun f => f.1 = child) fs))
      (Z.max 0 (max_restarts (self_policy s) - default 0 (self_counts s !! child))).
Proof.
  intros Hfs. revert s. induction Hfs as [|[c now] fs Hnow _ IH]; intros s Hf Hm Hi Hc.
  { unfold restarts_of, zlen. simpl. lia. }
  cbn [decisions]. unfold decide_restart. simpl in Hnow.
  rewrite Hf, window_never_elapses by (done || lia).
  pose proof (zlen_nonneg (filter (fun f => f.1 = child) fs)).
  pose proof (Hc c). pose proof (Hc child).
  assert (Hpos : forall n, 0 <= n -> forall c', 0 <= default 0 (<[c := n]> (self_counts s) !! c')).
  { intros n Hn c'. destruct (decide (c = c')) as [->|Hne];
      [by rewrite lookup_insert_eq|rewrite lookup_insert_ne by done; apply Hc]. }
  destruct (max_restarts (self_policy s) <=? default 0 (self_counts s !! c)) eqn:E; bool_to_prop.
  - unfold restarts_of in *. rewrite filter_cons_False by (destruct (_ && _); intros [=]).
    rewrite (IH (mkSelf _ _ _ _)) by (simpl; auto). simpl. rewrite filter_cons. simpl.
    destruct (decide (c = child)) as [->|Hne].
    + rewrite lookup_insert_eq, zlen_cons. simpl. lia.
    + by rewrite lookup_insert_ne.
  - unfold UINT32_MAX in *. rewrite (u32_small (default 0 _ + 1)) by lia.
    unfold restarts_of in *. rewrite filter_cons. simpl.
    destruct (decide (c = child)) as [->|Hne].
    + rewrite decide_True, zlen_cons, (IH (mkSelf _ _ _ _)) by (simpl; auto with lia).
      simpl. rewrite filter_cons_True, zlen_cons, lookup_insert_eq by done. simpl. lia.
    + rewrite decide_False, (IH (mkSelf _ _ _ _)) by (simpl; try congruence; auto with lia).
      simpl. by rewrite filter_cons_False, lookup_insert_ne by done.
Qed.

(** The restart budget of [SelfSupervisingActor].  Of the failures of one
    child exactly the first [max_restarts] are answered by [Restart], whenever
    they happen and however the failures of other children interleave: the
    budget is one for the actor's lifetime and not one per
    [restart_interval]. *)
Theorem self_supervision_budget p fs child :
  Forall (fun f => clock_ok f.2) fs ->
  0 <= max_restarts p <= UINT32_MAX -> 0 <= restart_interval_ns p ->
  restarts_of child (decisions (self_init p) fs) =
    Z.min (zlen (filter (fun f => f.1 = child) fs)) (max_restarts p).
Proof.
  intros Hfs Hm Hi. rewrite decisions_budget; simpl; try done; rewrite ?lookup_empty; simpl.
  f_equal. lia.
Qed.

Lemma self_supervision_budget_witness :
  let p := mkPolicy 2 5000000000 false false ∅ in
  restarts_of 1 (decisions (self_init p) [(1, 0); (2, 10); (1, 100); (1, 10 ^ 18)]) = 2.
Proof.
  intros p. rewrite (self_supervision_budget p);
    [reflexivity| |unfold UINT32_MAX; simpl; lia|simpl; lia].
  repeat constructor; simpl; unfold INT64_MAX; lia.
Defined.

(** ** What a failure reaches *)

(** The lifecycle of a child a supervisor restarts: a starting or quarantined
    one stays put, every other one ends up starting. *)
Definition restarted_state (st : LifecycleState) : LifecycleState :=
  match st with kQuarantined => kQuarantined | _ => kStarting end.

Lemma drive_restart_state a reason now :
  lc_state (drive_restart a reason now) = restarted_state (lc_state a) /\
  incarnation (drive_restart a reason now) = u64 (incarnation a + 1) /\
  failure_code (drive_restart a reason now) = reason.
Proof. destruct a as [[] ? ? ? ? ?]; (split; [|split]); reflexivity. Qed.

Lemma restart_child_actors s actors child reason now :
  (restart_child s actors child reason now).2 = actors \/
  (restart_child s actors child reason now).2 =
    alter (fun a => drive_restart a reason now) child actors.
Proof. unfold restart_child. repeat case_match; simpl; auto. Qed.

(** What the failure of a child reaches.  Under either strategy the down
    message of one child changes no other actor: [AllForOneSupervisor] decides
    the same as [OneForOneSupervisor] and restarts the failing child alone.
    That child, when restarted, has a new incarnation and the reason recorded,
    and is starting unless it was quarantined. *)
Theorem failure_reaches_one_child p q s actors child reason now :
  let r := handle_child_down (mkAllForOne p) s actors (Some (child, reason)) now in
  r = handle_child_down (mkOneForOne q) s actors (Some (child, reason)) now /\
  (forall other, other <> child -> r.2 !! other = actors !! other) /\
  (forall a, actors !! child = Some a ->
     r.2 !! child = Some a \/
     exists a', r.2 !! child = Some a' /\ lc_state a' = restarted_state (lc_state a) /\
       incarnation a' = u64 (incarnation a + 1) /\ failure_code a' = reason).
Proof.
  intros r. split; [done|]. unfold r, handle_child_down. cbn [on_child_failure
    all_for_one_on_child_failure].
  destruct (restart_child_actors s actors child reason now) as [-> | ->]; split.
  - done.
  - auto.
  - intros other Hne. by rewrite lookup_alter_ne.
  - intros a Ha. right. exists (drive_restart a reason now).
    rewrite lookup_alter_eq, Ha. split; [done|]. apply drive_restart_state.
Qed.

(** ** Remote children

    Two vectors updated in lockstep: the references and, at the same index,
    their addresses. *)
Section RemoteChildren.
Context {Ref Addr : Type} `{EqDecision Addr} (address : Ref -> Addr).

Record RemoteChildren := mkRemote {
  remote_children : list Ref;
  remote_child_addresses : list Addr
}.

Definition add_remote_child (s : RemoteChildren) (r : Ref) : RemoteChildren :=
  mkRemote (remote_children s ++ [r]) (remote_child_addresses s ++ [address r]).

Definition has_remote_child (s : RemoteChildren) (a : Addr) : bool :=
  existsb (fun b => bool_decide (b = a)) (remote_child_addresses s).

(** The index loop shared by [get_remote_child] and [remove_remote_child]. *)
Fixpoint find_index (as_ : list Addr) (a : Addr) : option nat :=
  match as_ with
  | [] => None
  | b :: as_ => if bool_decide (b = a) then Some 0%nat else S <$> find_index as_ a
  end.

(** [None] is the empty reference. *)
Definition get_remote_child (s : RemoteChildren) (a : Addr) : option Ref :=
  i ← find_index (remote_child_addresses s) a; remote_children s !! i.

Definition remove_remote_child (s : RemoteChildren) (a : Addr) : RemoteChildren :=
  match find_index (remote_child_addresses s) a with
  | None => s
  | Some i => mkRemote (delete i (remote_children s)) (delete i (remote_child_addresses s))
  end.

Inductive RemoteOp := AddRemote (r : Ref) | RemoveRemote (a : Addr).

Definition remote_op (s : RemoteChildren) (o : RemoteOp) : RemoteChildren :=
  match o with AddRemote r => add_remote_child s r | RemoveRemote a => remove_remote_child s a end.

(** The reference: one list of references, from which the first with the
    address is removed. *)
Fixpoint remove_first (rs : list Ref) (a : Addr) : list Ref :=
  match rs with
  | [] => []
  | r :: rs => if bool_decide (address r = a) then rs else r :: remove_first rs a
  end.

Definition abstract_op (rs : list Ref) (o : RemoteOp) : list Ref :=
  match o with AddRemote r => rs ++ [r] | RemoveRemote a => remove_first rs a end.

Definition aligned (s : RemoteChildren) : Prop :=
  remote_child_addresses s = address <$> remote_children s.

Lemma find_index_remove rs a :
  match find_index (address <$> rs) a with
  | None => remove_first rs a = rs /\ list_find (fun r => address r = a) rs = None
  | Some i => delete i rs = remove_first rs a /\
      exists r, rs !! i = Some r /\ list_find (fun r => address r = a) rs = Some (i, r)
  end.
Proof.
  induction rs as [|r rs IH]; simpl; [done|].
  case_bool_decide as E; [rewrite decide_True by done; eauto|rewrite decide_False by done].
  change (list_fmap _ _ address rs) with (address <$> rs).
  destruct (find_index (address <$> rs) a) as [i|]; simpl.
  - destruct IH as (Hd & r' & Hr & ->). split; [by f_equal|]. eauto.
  - destruct IH as (-> & ->). done.
Qed.

Lemma remote_op_aligned s o :
  aligned s -> aligned (remote_op s o) /\
  remote_children (remote_op s o) = abstract_op (remote_children s) o.
Proof.
  intros Hs. destruct o as [r|a]; simpl.
  - unfold aligned; simpl. by rewrite Hs, fmap_app.
  - unfold remove_remote_child. pose proof (find_index_remove (remote_children s) a) as Hf.
    rewrite Hs. destruct (find_index _ a) as [i|]; [|by destruct Hf as [-> _]].
    destruct Hf as [Hd _]. unfold aligned. simpl. by rewrite <- Hd, list_fmap_delete.
Qed.

Lemma existsb_bool_decide (l : list Addr) a :
  existsb (fun b => bool_decide (b = a)) l = bool_decide (a ∈ l).
Proof.
  induction l as [|b l IH]; simpl; [done|]. rewrite IH.
  repeat case_bool_decide; set_solver.
Qed.

(** The two vectors of remote children stay aligned: after any additions and
    removals they hold what one list of references holds, membership is
    membership of an address in it, and a lookup returns the first reference
    with the address. *)
Theorem remote_children_aligned ops a :
  let s := foldl remote_op (mkRemote [] []) ops in
  let rs := foldl abstract_op [] ops in
  remote_children s = rs /\ remote_child_addresses s = address <$> rs /\
  has_remote_child s a = bool_decide (a ∈ address <$> rs) /\
  get_remote_child s a = snd <$> list_find (fun r => address r = a) rs.
Proof.
  intros s rs. assert (H : aligned s /\ remote_children s = rs).
  { unfold s, rs. induction ops as [|o ops [IHa IHe]] using rev_ind; [done|].
    rewrite !foldl_app. simpl. rewrite <- IHe. by apply remote_op_aligned. }
  destruct H as [Ha He]. rewrite <- He. split_and!; [done|done| |].
  - unfold has_remote_child. rewrite Ha. apply existsb_bool_decide.
  - unfold get_remote_child. rewrite Ha. pose proof (find_index_remove (remote_children s) a) as Hf.
    destruct (find_index _ a) as [i|]; simpl.
    + destruct Hf as (_ & r & -> & ->). done.
    + destruct Hf as [_ ->]. done.
Qed.
End RemoteChildren.
