(* ===== verification/Breakers.v ===== *)
(** * Failure detection: the endpoint circuit breaker and the failure-rate window

    [net/endpoint_circuit_breaker.cpp] and
    [actor/lifecycle/failure_rate_tracker.hpp].  Every method of the breaker is
    taken undisturbed; the tracker has one writer by contract.  A time point is
    a count of nanoseconds. *)

From S2P Require Import Prelude.
From stdpp Require Import base numbers list.

#[local] Open Scope Z_scope.

(** ** EndpointCircuitBreaker *)

Module CircuitBreaker.

Record EndpointCircuitBreakerConfig := mkBreakerConfig {
  failure_threshold : Z;       (* size_t *)
  cooldown_ns : Z;
  half_open_probe_limit : Z    (* size_t *)
}.

Inductive BreakerState := BS_Closed | BS_Open | BS_HalfOpen.

Record EndpointCircuitBreaker := mkBreaker {
  b_state : BreakerState;
  failure_count : Z;           (* size_t *)
  half_open_probes : Z;        (* size_t *)
  opened_at : Z
}.

Definition breaker_init : EndpointCircuitBreaker := mkBreaker BS_Closed 0 0 0.

Section Breaker.
Context (cfg : EndpointCircuitBreakerConfig).

Definition record_failure (b : EndpointCircuitBreaker) (now : Z) : EndpointCircuitBreaker :=
  match b_state b with
  | BS_Closed =>
      let count := u64 (failure_count b + 1) in
      if failure_threshold cfg <=? count
      then mkBreaker BS_Open count (half_open_probes b) now
      else mkBreaker BS_Closed count (half_open_probes b) (opened_at b)
  | BS_HalfOpen => mkBreaker BS_Open 0 0 (opened_at b)
  | BS_Open => b
  end.

Definition record_success (b : EndpointCircuitBreaker) : EndpointCircuitBreaker :=
  match b_state b with
  | BS_Closed => mkBreaker BS_Closed 0 (half_open_probes b) (opened_at b)
  | BS_HalfOpen => mkBreaker BS_Closed 0 0 (opened_at b)
  | BS_Open => b
  end.

(** The probe counter: [fetch_add] and the comparison with the limit. *)
Definition take_probe (b : EndpointCircuitBreaker) : bool * EndpointCircuitBreaker :=
  (half_open_probes b <? half_open_probe_limit cfg,
   mkBreaker (b_state b) (failure_count b) (u64 (half_open_probes b + 1)) (opened_at b)).

Definition allow_send (b : EndpointCircuitBreaker) (now : Z) : bool * EndpointCircuitBreaker :=
  match b_state b with
  | BS_Closed => (true, b)
  | BS_HalfOpen => take_probe b
  | BS_Open =>
      if cooldown_ns cfg <=? now - opened_at b
      then take_probe (mkBreaker BS_HalfOpen (failure_count b) 0 (opened_at b))
      else (false, b)
  end.

Definition reset (b : EndpointCircuitBreaker) : EndpointCircuitBreaker :=
  mkBreaker BS_Closed 0 0 (opened_at b).

(** *** Histories *)

Inductive BreakerOp := Failure (now : Z) | Success | Allow (now : Z) | Reset.

Definition breaker_op (b : EndpointCircuitBreaker) (o : BreakerOp) : EndpointCircuitBreaker :=
  match o with
  | Failure now => record_failure b now
  | Success => record_success b
  | Allow now => (allow_send b now).2
  | Reset => reset b
  end.

(** The answers of the [allow_send] calls of a history. *)
Fixpoint answers (b : EndpointCircuitBreaker) (os : list BreakerOp) : list bool :=
  match os with
  | [] => []
  | Allow now :: os => (allow_send b now).1 :: answers (allow_send b now).2 os
  | o :: os => answers (breaker_op b o) os
  end.

Definition breaker_run (b : EndpointCircuitBreaker) (os : list BreakerOp) : EndpointCircuitBreaker :=
  foldl breaker_op b os.

Definition op_before (t : Z) (o : BreakerOp) : Prop :=
  match o with Failure now | Allow now => now < t | Success => True | Reset => False end.

Lemma closed_failures ts b :
  b_state b = BS_Closed -> 0 <= failure_count b ->
  failure_count b + zlen ts <= UINT64_MAX ->
  failure_count b + zlen ts < failure_threshold cfg ->
  let b' := breaker_run b (Failure <$> ts) in
  b_state b' = BS_Closed /\ failure_count b' = failure_count b + zlen ts /\
  opened_at b' = opened_at b.
Proof.
  revert b. induction ts as [|t ts IH]; intros b Hs H0 Hmax Hlt.
  { rewrite zlen_nil in *. simpl. split; [done|]. split; [lia|done]. }
  rewrite zlen_cons in *. pose proof (zlen_nonneg ts).
  cbn [breaker_run fmap list_fmap foldl breaker_op]. unfold record_failure. rewrite Hs.
  rewrite u64_small by (unfold UINT64_MAX in *; lia).
  destruct (failure_threshold cfg <=? failure_count b + 1) eqn:E; bool_to_prop; [lia|].
  destruct (IH (mkBreaker BS_Closed (failure_count b + 1) (half_open_probes b) (opened_at b)))
    as (H1 & H2 & H3); simpl; try done; try lia.
  split; [done|]. split; [|done]. simpl in H2. unfold breaker_run in H2. rewrite H2. lia.
Qed.

Lemma open_blocks os b :
  b_state b = BS_Open -> Forall (op_before (opened_at b + cooldown_ns cfg)) os ->
  breaker_run b os = b /\ Forall (fun a => a = false) (answers b os).
Proof.
  intros Hs Hos. induction Hos as [|o os Ho _ IH]; [by split|].
  cbn [breaker_run foldl answers].
  assert (Hstep : breaker_op b o = b /\ (forall now, o = Allow now -> allow_send b now = (false, b))).
  { destruct o as [now| |now|]; simpl in *; unfold record_failure, record_success, allow_send;
      rewrite ?Hs; try done.
    destruct (_ <=? _) eqn:E; bool_to_prop; [lia|]. split; [done|]. intros now' [= <-].
    by rewrite (proj2 (Z.leb_gt _ _)) by lia. }
  destruct Hstep as [-> Ha]. fold (breaker_run b os). destruct IH as [-> IH]. split; [done|].
  destruct o as [now| |now|]; try done; simpl in *; unfold record_failure, record_success;
    rewrite ?Hs; try done. rewrite (Ha now) by done. by constructor.
Qed.

(** Sends granted in a row in the half-open state. *)
Lemma half_open_grants ts b :
  b_state b = BS_HalfOpen -> 0 <= half_open_probes b ->
  half_open_probes b + zlen ts <= UINT64_MAX ->
  answers b (Allow <$> ts) =
    imap (fun i _ => bool_decide (half_open_probes b + Z.of_nat i < half_open_probe_limit cfg)) ts.
Proof.
  revert b. induction ts as [|t ts IH]; intros b Hs H0 Hmax; [done|].
  rewrite zlen_cons in *. pose proof (zlen_nonneg ts).
  cbn [fmap list_fmap answers]. unfold allow_send. rewrite Hs. simpl. f_equal.
  - rewrite Z.add_0_r. destruct (_ <? _) eqn:E; bool_to_prop; symmetry;
      [by apply bool_decide_eq_true|apply bool_decide_eq_false; lia].
  - rewrite IH; simpl; rewrite ?u64_small by (unfold UINT64_MAX in *; lia); try done; try lia.
    apply imap_ext. intros i x _. apply bool_decide_ext. simpl. lia.
Qed.

(** The breaker's contract.  From a freshly closed breaker, fewer failures than
    the threshold with no success between leave it closed and the one that
    reaches the threshold opens it; while open, nothing but [reset] or the end
    of the cooldown changes it and every send is refused; from the end of the
    cooldown exactly the first [half_open_probe_limit] sends are let through;
    and a success of a probe closes it with a clean count. *)
Theorem breaker_contract :
  (forall b ts t, b_state b = BS_Closed -> failure_count b = 0 ->
     zlen ts + 1 = failure_threshold cfg -> failure_threshold cfg <= UINT64_MAX ->
     b_state (breaker_run b (Failure <$> ts)) = BS_Closed /\
     let b' := breaker_run b (Failure <$> ts ++ [t]) in
     b_state b' = BS_Open /\ opened_at b' = t) /\
  (forall b os, b_state b = BS_Open -> Forall (op_before (opened_at b + cooldown_ns cfg)) os ->
     b_state (breaker_run b os) = BS_Open /\ Forall (fun a => a = false) (answers b os)) /\
  (forall b t ts, b_state b = BS_Open -> opened_at b + cooldown_ns cfg <= t ->
     zlen (t :: ts) <= UINT64_MAX ->
     answers b (Allow <$> (t :: ts)) =
       imap (fun i _ => bool_decide (Z.of_nat i < half_open_probe_limit cfg)) (t :: ts)) /\
  (forall b, b_state b = BS_HalfOpen ->
     b_state (record_success b) = BS_Closed /\ failure_count (record_success b) = 0).
Proof.
  split; [|split; [|split]].
  - intros b ts t Hs H0 Hn Hmax.
    destruct (closed_failures ts b) as (H1 & H2 & H3); try done; try lia.
    split; [done|]. cbv zeta. unfold breaker_run in *. rewrite fmap_app, foldl_app. simpl.
    unfold record_failure. rewrite H1, H2, H0.
    rewrite u64_small by (unfold UINT64_MAX in *; pose proof (zlen_nonneg ts); lia).
    by rewrite (proj2 (Z.leb_le _ _)) by lia.
  - intros b os Hs Hos. destruct (open_blocks os b Hs Hos) as [-> H]. done.
  - intros b t ts Hs Ht Hmax. cbn [fmap list_fmap answers]. unfold allow_send. rewrite Hs.
    rewrite (proj2 (Z.leb_le _ _)) by lia.
    set (b0 := mkBreaker BS_HalfOpen (failure_count b) 0 (opened_at b)).
    change ((take_probe b0).1 :: answers (take_probe b0).2 (Allow <$> ts))
      with (answers b0 (Allow <$> (t :: ts))).
    by rewrite half_open_grants.
  - intros b Hs. unfold record_success. by rewrite Hs.
Qed.

(** A failed probe does not start a new cooldown: [record_failure] in the
    half-open state returns to [Open] without renewing [opened_at_], so that
    at one and the same instant any number of probes is let through, each
    after the failure of the one before. *)
Theorem failed_probe_skips_cooldown n b t :
  b_state b = BS_Open -> opened_at b + cooldown_ns cfg <= t -> 0 < half_open_probe_limit cfg ->
  answers b (concat (replicate n [Allow t; Failure t])) = replicate n true.
Proof.
  revert b. induction n as [|n IH]; intros b Hs Ht Hp; [done|].
  cbn [replicate concat app answers breaker_op]. unfold allow_send. rewrite Hs.
  rewrite (proj2 (Z.leb_le _ _)) by lia. cbn [take_probe fst snd half_open_probes].
  rewrite (proj2 (Z.ltb_lt _ _)) by lia. simpl. f_equal. by apply IH.
Qed.
End Breaker.

Lemma breaker_contract_witness :
  answers (mkBreakerConfig 5 30000000000 2) (mkBreaker BS_Open 5 0 1000)
    (Allow <$> [30000001000; 30000001001; 30000001002]) = [true; true; false].
Proof.
  rewrite (proj1 (proj2 (proj2 (breaker_contract (mkBreakerConfig 5 30000000000 2))))
    (mkBreaker BS_Open 5 0 1000)); done.
Defined.

Lemma failed_probe_skips_cooldown_witness :
  answers (mkBreakerConfig 5 30000000000 1) (mkBreaker BS_Open 5 0 1000)
    (concat (replicate 3 [Allow 30000001000; Failure 30000001000])) = [true; true; true].
Proof.
  apply (failed_probe_skips_cooldown (mkBreakerConfig 5 30000000000 1) 3
           (mkBreaker BS_Open 5 0 1000) 30000001000); done.
Defined.
End CircuitBreaker.

(** ** FailureRateTracker *)

Module FailureRate.

Definition kNumBuckets : nat := 10.

Record FailureRateTracker := mkTracker {
  failure_buckets : list Z;        (* uint32_t, kNumBuckets of them *)
  timeout_buckets : list Z;
  current_bucket : nat;
  bucket_interval_ms : Z;          (* uint32_t *)
  last_bucket_advance : Z          (* nanoseconds *)
}.

Definition tracker_init (interval : Z) : FailureRateTracker :=
  mkTracker (replicate kNumBuckets 0) (replicate kNumBuckets 0) 0 interval 0.

Definition bump (l : list Z) (i : nat) : list Z := alter (fun c => u32 (c + 1)) i l.

Definition tracker_record_failure (t : FailureRateTracker) : FailureRateTracker :=
  mkTracker (bump (failure_buckets t) (current_bucket t)) (timeout_buckets t) (current_bucket t)
    (bucket_interval_ms t) (last_bucket_advance t).
Definition tracker_record_timeout (t : FailureRateTracker) : FailureRateTracker :=
  mkTracker (failure_buckets t) (bump (timeout_buckets t) (current_bucket t)) (current_bucket t)
    (bucket_interval_ms t) (last_bucket_advance t).

(** One turn of the sliding loop. *)
Definition slide (s : list Z * list Z * nat) : list Z * list Z * nat :=
  let '(f, t, c) := s in
  let c := ((c + 1) mod kNumBuckets)%nat in
  (<[c := 0]> f, <[c := 0]> t, c).

Definition advance_buckets (t : FailureRateTracker) (now : Z) : FailureRateTracker :=
  if bucket_interval_ms t =? 0 then t
  else
    let elapsed := (now - last_bucket_advance t) ÷ 1000000 in
    if elapsed <=? 0 then t
    else
      let steps := elapsed / bucket_interval_ms t in
      if steps =? 0 then t
      else
        let '(f, o, c) :=
          if Z.of_nat kNumBuckets <=? steps
          then (replicate kNumBuckets 0, replicate kNumBuckets 0, 0%nat)
          else Nat.iter (Z.to_nat steps) slide
                 (failure_buckets t, timeout_buckets t, current_bucket t) in
        mkTracker f o c (bucket_interval_ms t) now.

(** [uint32_t] totals over the buckets, and the rates in events per second. *)
Definition total (l : list Z) : Z := foldl (fun s c => u32 (s + c)) 0 l.
Definition rate (l : list Z) (window_ms : Z) : double :=
  if window_ms =? 0 then double_of_Z 0
  else ddiv (dmul (double_of_Z (total l)) (double_of_Z 1000)) (double_of_Z window_ms).
Definition failure_rate (t : FailureRateTracker) (window_ms : Z) : double :=
  rate (failure_buckets t) window_ms.
Definition timeout_rate (t : FailureRateTracker) (window_ms : Z) : double :=
  rate (timeout_buckets t) window_ms.

(** *** The ring of buckets is a shift register *)

(** The buckets of the ring [l] by age, the current one [c] first. *)
Definition by_age (l : list Z) (c : nat) : list Z :=
  (fun i => nth ((c + kNumBuckets - i) mod kNumBuckets) l 0) <$> seq 0 kNumBuckets.

Record tracker_ok (t : FailureRateTracker) : Prop := mkTrackerOk {
  to_failures : length (failure_buckets t) = kNumBuckets;
  to_timeouts : length (timeout_buckets t) = kNumBuckets;
  to_current : (current_bucket t < kNumBuckets)%nat
}.

(** Everything about a ring of ten with an explicit position computes. *)
Ltac ring_cases l Hl c Hc :=
  unfold kNumBuckets in Hl, Hc;
  do 10 (destruct l as [|? l]; [discriminate Hl|]); destruct l; [|discriminate Hl];
  destruct c as [|[|[|[|[|[|[|[|[|[|c]]]]]]]]]]; [..|exfalso; lia].

Lemma by_age_bump l c :
  length l = kNumBuckets -> (c < kNumBuckets)%nat -> by_age (bump l c) c = bump (by_age l c) 0.
Proof. intros Hl Hc. ring_cases l Hl c Hc; reflexivity. Qed.

Lemma by_age_slide l c :
  length l = kNumBuckets -> (c < kNumBuckets)%nat ->
  by_age (<[((c + 1) mod kNumBuckets)%nat := 0]> l) ((c + 1) mod kNumBuckets) =
  take kNumBuckets (0 :: by_age l c).
Proof. intros Hl Hc. ring_cases l Hl c Hc; reflexivity. Qed.

Lemma by_age_total l c :
  length l = kNumBuckets -> (c < kNumBuckets)%nat -> total (by_age l c) = u32 (sum_by id l) /\
  total l = u32 (sum_by id l).
Proof.
  assert (Ht : forall k a, foldl (fun s c => u32 (s + c)) (u32 a) k = u32 (a + sum_by id k)).
  { induction k as [|x k IH]; intros a; simpl; [by rewrite sum_by_nil, Z.add_0_r|].
    rewrite u32_add_mod, IH, sum_by_cons. f_equal. unfold id. lia. }
  assert (Htot : forall k, total k = u32 (sum_by id k)) by (intros k; apply (Ht k 0)).
  intros Hl Hc. rewrite !Htot. split; [|done]. f_equal. ring_cases l Hl c Hc; cbn [by_age]; unfold sum_by, id; simpl; lia.
Qed.

(** Sliding [k] times. *)
Definition shift (k : nat) (l : list Z) : list Z := take kNumBuckets (replicate k 0 ++ l).

Lemma slide_iter k f o c :
  length f = kNumBuckets -> length o = kNumBuckets -> (c < kNumBuckets)%nat ->
  let '(f', o', c') := Nat.iter k slide (f, o, c) in
  length f' = kNumBuckets /\ length o' = kNumBuckets /\ (c' < kNumBuckets)%nat /\
  by_age f' c' = shift k (by_age f c) /\ by_age o' c' = shift k (by_age o c).
Proof.
  intros Hf Ho Hc. induction k as [|k IH]; simpl.
  { split_and!; try done; unfold shift; simpl; by rewrite take_ge. }
  destruct (Nat.iter k slide (f, o, c)) as [[f' o'] c'].
  destruct IH as (H1 & H2 & H3 & H4 & H5). unfold slide.
  rewrite !length_insert, !by_age_slide, H4, H5 by done. split_and!; try done.
  - apply Nat.mod_upper_bound. unfold kNumBuckets. lia.
  - unfold shift. simpl. f_equal. by rewrite take_take.
  - unfold shift. simpl. f_equal. by rewrite take_take.
Qed.

(** *** The sliding window *)

Inductive TrackerOp := RecordFailure | RecordTimeout | Advance (now : Z).

Definition tracker_op (t : FailureRateTracker) (o : TrackerOp) : FailureRateTracker :=
  match o with
  | RecordFailure => tracker_record_failure t
  | RecordTimeout => tracker_record_timeout t
  | Advance now => advance_buckets t now
  end.

(** The reference: two shift registers of ten counts and the time they were
    last shifted. *)
Record Window := mkWindow { w_failures : list Z; w_timeouts : list Z; w_last : Z }.

Definition window_op (interval : Z) (w : Window) (o : TrackerOp) : Window :=
  match o with
  | RecordFailure => mkWindow (bump (w_failures w) 0) (w_timeouts w) (w_last w)
  | RecordTimeout => mkWindow (w_failures w) (bump (w_timeouts w) 0) (w_last w)
  | Advance now =>
      let k := Z.to_nat (((now - w_last w) ÷ 1000000) / interval) in
      match k with
      | O => w
      | _ => mkWindow (shift k (w_failures w)) (shift k (w_timeouts w)) now
      end
  end.

Definition window_of (t : FailureRateTracker) : Window :=
  mkWindow (by_age (failure_buckets t) (current_bucket t))
    (by_age (timeout_buckets t) (current_bucket t)) (last_bucket_advance t).

Lemma shift_full k l : (kNumBuckets <= k)%nat -> shift k l = replicate kNumBuckets 0.
Proof.
  intros Hk. unfold shift. rewrite take_app_le by (by rewrite length_replicate).
  rewrite take_replicate. f_equal. lia.
Qed.

Lemma tracker_op_window t o :
  tracker_ok t -> 0 < bucket_interval_ms t ->
  tracker_ok (tracker_op t o) /\ bucket_interval_ms (tracker_op t o) = bucket_interval_ms t /\
  window_of (tracker_op t o) = window_op (bucket_interval_ms t) (window_of t) o.
Proof.
  intros [Hf Ho Hc] Hi. destruct o as [| |now]; simpl.
  1,2: split_and!; [split; simpl; unfold bump; by rewrite ?length_alter|done|];
    unfold window_of; simpl; by rewrite by_age_bump.
  unfold advance_buckets. rewrite (proj2 (Z.eqb_neq _ _)) by lia.
  set (e := (now - last_bucket_advance t) ÷ 1000000).
  destruct (e <=? 0) eqn:He; bool_to_prop.
  { replace (Z.to_nat (e / bucket_interval_ms t)) with 0%nat; [done|].
    assert (e / bucket_interval_ms t <= 0); [|lia].
    apply Z.div_le_upper_bound; lia. }
  pose proof (Z.div_pos e (bucket_interval_ms t) ltac:(lia) Hi).
  destruct (e / bucket_interval_ms t =? 0) eqn:E0; bool_to_prop; [by rewrite E0|].
  destruct (Z.to_nat (e / bucket_interval_ms t)) as [|k] eqn:Ek; [lia|]. rewrite <- Ek.
  destruct (Z.of_nat kNumBuckets <=? e / bucket_interval_ms t) eqn:Ef; bool_to_prop.
  { split_and!; [split; simpl; unfold kNumBuckets; (done || lia)|done|].
    unfold window_of. simpl failure_buckets. rewrite !shift_full by lia. done. }
  pose proof (slide_iter (Z.to_nat (e / bucket_interval_ms t)) _ _ _ Hf Ho Hc) as Hs.
  destruct (Nat.iter _ slide _) as [[f' o'] c']. destruct Hs as (H1 & H2 & H3 & H4 & H5).
  split_and!; [by split|done|]. unfold window_of. simpl. by rewrite H4, H5.
Qed.

(** The failure-rate window.  Through every history the ring of buckets holds,
    by age, what a shift register of ten counts holds: a record counts in the
    newest slot, an advance shifts by the whole intervals elapsed since the
    last shift, and the totals behind both rates are the sums over the
    register. *)
Theorem tracker_refines_window interval os :
  0 < interval ->
  let t := foldl tracker_op (tracker_init interval) os in
  let w := foldl (window_op interval)
             (mkWindow (replicate kNumBuckets 0) (replicate kNumBuckets 0) 0) os in
  window_of t = w /\
  total (failure_buckets t) = total (w_failures w) /\
  total (timeout_buckets t) = total (w_timeouts w).
Proof.
  intros Hi t w.
  assert (H : tracker_ok t /\ bucket_interval_ms t = interval /\ window_of t = w).
  { unfold t, w. induction os as [|o os (IH1 & IH2 & IH3)] using rev_ind;
      [split_and!; try done; split; simpl; unfold kNumBuckets; (done || lia)|].
    rewrite !foldl_app. cbn [foldl]. rewrite <- IH3. rewrite <- IH2 in Hi.
    destruct (tracker_op_window _ o IH1 Hi) as (H1 & H2 & H3). by rewrite H2, H3, IH2. }
  destruct H as (Hok & _ & Hw). split; [done|]. rewrite <- Hw. destruct Hok as [Hf Ho Hc]. simpl.
  destruct (by_age_total _ _ Hf Hc) as [-> ->]. by destruct (by_age_total _ _ Ho Hc) as [-> ->].
Qed.

Lemma tracker_refines_window_witness :
  total (failure_buckets
    (foldl tracker_op (tracker_init 1000)
       [RecordFailure; RecordFailure; Advance 3000000000; RecordFailure])) = 3.
Proof.
  rewrite (proj1 (proj2 (tracker_refines_window 1000
    [RecordFailure; RecordFailure; Advance 3000000000; RecordFailure] eq_refl))).
  reflexivity.
Defined.

(** The window of a tracker advanced off the interval is longer than
    configured: the remainder of each advance is dropped, and a failure is
    still counted 17.99 seconds later in a window of ten one-second slots. *)
Theorem window_stretches :
  let t := foldl (fun t k => advance_buckets t (Z.of_nat k * 1999000000))
             (tracker_record_failure (tracker_init 1000)) (seq 1 9) in
  last_bucket_advance t = 17991000000 /\ total (failure_buckets t) = 1.
Proof. by vm_compute. Qed.
End FailureRate.
