(* ===== verification/DeadLetters.v ===== *)
(** * Dead letters and delivery modes

    [msg/delivery_mode.hpp], [msg/dead_letter_record.hpp],
    [mailbox/dead_letter_queue.cpp]: the delivery guarantees, the reasons and
    sources of a dead letter with their mapping to the failure vocabulary, the
    routing policy, and the bounded queue of records.  Addresses are a
    parameter; a payload sample is the list of its readable bytes. *)

From S2P Require Import Prelude DeliveryTypes.
From stdpp Require Import base numbers list strings.

#[local] Open Scope Z_scope.

(** ** Delivery modes *)

Inductive DeliveryMode := DM_BestEffort | DM_ObservableBestEffort | DM_AtLeastOnce | DM_DurableAtLeastOnce.

#[export] Instance DeliveryMode_eq_dec : EqDecision DeliveryMode.
Proof. solve_decision. Defined.

Definition delivery_mode_value (m : DeliveryMode) : Z :=
  match m with DM_BestEffort => 0 | DM_ObservableBestEffort => 1 | DM_AtLeastOnce => 2 | DM_DurableAtLeastOnce => 3 end.

Definition delivery_mode_to_string (m : DeliveryMode) : string :=
  match m with
  | DM_BestEffort => "best_effort"
  | DM_ObservableBestEffort => "observable_best_effort"
  | DM_AtLeastOnce => "at_least_once"
  | DM_DurableAtLeastOnce => "durable_at_least_once"
  end.

Definition is_tracked_delivery (m : DeliveryMode) : bool := 2 <=? delivery_mode_value m.

(** ** Reasons, sources and routing *)

Inductive DeadLetterReason :=
| DLR_MailboxFull | DLR_MailboxClosed | DLR_ActorNotFound | DLR_ActorTerminated | DLR_MissingRoute
| DLR_RemoteNodeUnreachable | DLR_NetworkPartition | DLR_TransportSendFailed | DLR_DecodeFailed
| DLR_OverflowPolicy | DLR_NoDropRejected | DLR_DrainTimeout | DLR_DrainPolicyDrop | DLR_Expired
| DLR_EndpointBackpressure | DLR_EndpointCircuitOpen | DLR_AskTimeout | DLR_RetryExhausted | DLR_StreamClosed.

#[export] Instance DeadLetterReason_eq_dec : EqDecision DeadLetterReason.
Proof. solve_decision. Defined.

Inductive DeadLetterSource :=
| DLS_LocalDelivery | DLS_RemoteDelivery | DLS_ActorProxy | DLS_Transport | DLS_MailboxAdmission
| DLS_ServiceDiscovery | DLS_Replay.

Definition dead_letter_failure_reason (r : DeadLetterReason) : FailureReason :=
  match r with
  | DLR_MailboxFull => FR_MailboxFull
  | DLR_MailboxClosed => FR_MailboxClosed
  | DLR_ActorNotFound => FR_NoRoute
  | DLR_ActorTerminated => FR_ActorDead
  | DLR_MissingRoute => FR_NoRoute
  | DLR_RemoteNodeUnreachable => FR_NodeUnavailable
  | DLR_NetworkPartition => FR_NodeUnavailable
  | DLR_TransportSendFailed => FR_TransportError
  | DLR_DecodeFailed => FR_SerializationError
  | DLR_OverflowPolicy => FR_RejectedByPolicy
  | DLR_NoDropRejected => FR_RejectedByPolicy
  | DLR_DrainTimeout => FR_Timeout
  | DLR_DrainPolicyDrop => FR_Dropped
  | DLR_Expired => FR_Expired
  | DLR_AskTimeout => FR_Timeout
  | DLR_EndpointBackpressure => FR_ResourceExhausted
  | DLR_EndpointCircuitOpen => FR_RemoteUnavailable
  | DLR_RetryExhausted => FR_RetryExhausted
  | DLR_StreamClosed => FR_Dropped
  end.

Definition dead_letter_reason_to_string (r : DeadLetterReason) : string :=
  match r with
  | DLR_MailboxFull => "MailboxFull"
  | DLR_MailboxClosed => "MailboxClosed"
  | DLR_ActorNotFound => "ActorNotFound"
  | DLR_ActorTerminated => "ActorTerminated"
  | DLR_MissingRoute => "MissingRoute"
  | DLR_RemoteNodeUnreachable => "RemoteNodeUnreachable"
  | DLR_NetworkPartition => "NetworkPartition"
  | DLR_TransportSendFailed => "TransportSendFailed"
  | DLR_DecodeFailed => "DecodeFailed"
  | DLR_OverflowPolicy => "OverflowPolicy"
  | DLR_NoDropRejected => "NoDropRejected"
  | DLR_DrainTimeout => "DrainTimeout"
  | DLR_DrainPolicyDrop => "DrainPolicyDrop"
  | DLR_Expired => "Expired"
  | DLR_AskTimeout => "ask_timeout"
  | DLR_RetryExhausted => "RetryExhausted"
  | DLR_StreamClosed => "StreamClosed"
  | DLR_EndpointBackpressure => "EndpointBackpressure"
  | DLR_EndpointCircuitOpen => "EndpointCircuitOpen"
  end.

Inductive DeadLetterOverflowPolicy := DOP_DropOldestRecord | DOP_DropNewestRecord | DOP_MetadataOnly.
Inductive DeadLetterRoutingPolicy := DRP_Never | DRP_TrackedOnly | DRP_ObservableAndAbove | DRP_Always.

#[export] Instance DeadLetterRoutingPolicy_eq_dec : EqDecision DeadLetterRoutingPolicy.
Proof. solve_decision. Defined.

Definition routing_policy_to_string (p : DeadLetterRoutingPolicy) : string :=
  match p with
  | DRP_Never => "never"
  | DRP_TrackedOnly => "tracked_only"
  | DRP_ObservableAndAbove => "observable_and_above"
  | DRP_Always => "always"
  end.

Definition parse_routing_policy (s : string) : DeadLetterRoutingPolicy :=
  if bool_decide (s = "never") then DRP_Never
  else if bool_decide (s = "tracked_only") then DRP_TrackedOnly
  else if bool_decide (s = "observable_and_above") then DRP_ObservableAndAbove
  else DRP_Always.

Definition should_route_to_dlq (mode : DeliveryMode) (policy : DeadLetterRoutingPolicy) : bool :=
  match policy with
  | DRP_Never => false
  | DRP_Always => true
  | DRP_TrackedOnly => is_tracked_delivery mode
  | DRP_ObservableAndAbove => 1 <=? delivery_mode_value mode
  end.

(** The fields of [DeadLetterConfig] the queue and its callers read. *)
Record DeadLetterConfig := mkDlqConfig {
  dlq_enabled : bool;
  dlq_capacity : Z;                     (* uint32, 0 becomes 4096 *)
  max_payload_sample_bytes : Z;
  dlq_overflow_policy : DeadLetterOverflowPolicy;
  store_payload : bool;
  routing_policy : DeadLetterRoutingPolicy
}.
Definition dlq_default : DeadLetterConfig := mkDlqConfig true 4096 512 DOP_DropOldestRecord true DRP_Always.

(** ** The queue *)

Section Queue.
Context {Addr : Type}.

Record DeadLetterRecord := mkDeadLetter {
  dl_reason : DeadLetterReason;
  dl_source : DeadLetterSource;
  dl_sender : Addr;
  dl_target : Addr;
  dl_type_tag : Z;
  dl_message_id : Z;
  dl_frame_flags : Z;
  dl_priority : Z;
  dl_deadline_ns : Z;
  dl_trace_id_hi : Z;
  dl_trace_id_lo : Z;
  dl_span_id : Z;
  dl_payload_size : Z;
  dl_payload_sample : list Z;
  dl_mailbox_depth : Z;
  dl_mailbox_capacity : Z;
  dl_timestamp_ns : Z
}.

Definition with_sample (r : DeadLetterRecord) (size : Z) (sample : list Z) : DeadLetterRecord :=
  mkDeadLetter (dl_reason r) (dl_source r) (dl_sender r) (dl_target r) (dl_type_tag r) (dl_message_id r)
    (dl_frame_flags r) (dl_priority r) (dl_deadline_ns r) (dl_trace_id_hi r) (dl_trace_id_lo r) (dl_span_id r)
    size sample (dl_mailbox_depth r) (dl_mailbox_capacity r) (dl_timestamp_ns r).

Record DeadLetterQueue := mkDlq {
  dlq_config : DeadLetterConfig;
  dlq_records : list DeadLetterRecord;
  total_pushed : Z;
  total_popped : Z;
  total_lost : Z
}.

Definition clamp_dlq (c : DeadLetterConfig) : DeadLetterConfig :=
  mkDlqConfig (dlq_enabled c) (if dlq_capacity c =? 0 then 4096 else dlq_capacity c) (max_payload_sample_bytes c)
    (dlq_overflow_policy c) (store_payload c) (routing_policy c).

Definition dlq_init (c : DeadLetterConfig) : DeadLetterQueue := mkDlq (clamp_dlq c) [] 0 0 0.

(** The sample a configuration keeps of [s]. *)
Definition sample_of (c : DeadLetterConfig) (s : list Z) : list Z :=
  if negb (store_payload c) then []
  else if max_payload_sample_bytes c <? zlen s then take (Z.to_nat (max_payload_sample_bytes c)) s
  else s.

Definition trim_payload (c : DeadLetterConfig) (r : DeadLetterRecord) : DeadLetterRecord :=
  with_sample r (u32 (zlen (dl_payload_sample r))) (sample_of c (dl_payload_sample r)).

Definition lose_front (q : DeadLetterQueue) : DeadLetterQueue :=
  mkDlq (dlq_config q) (tail (dlq_records q)) (total_pushed q) (total_popped q) (u64 (total_lost q + 1)).
Definition store (q : DeadLetterQueue) (r : DeadLetterRecord) : DeadLetterQueue :=
  mkDlq (dlq_config q) (dlq_records q ++ [r]) (u64 (total_pushed q + 1)) (total_popped q) (total_lost q).

(** [try_push]. *)
Definition dlq_try_push (q : DeadLetterQueue) (record : DeadLetterRecord) : bool * DeadLetterQueue :=
  if negb (dlq_enabled (dlq_config q)) then (false, q)
  else
    let r := trim_payload (dlq_config q) record in
    if dlq_capacity (dlq_config q) <=? zlen (dlq_records q) then
      match dlq_overflow_policy (dlq_config q) with
      | DOP_DropOldestRecord => (true, store (lose_front q) r)
      | DOP_DropNewestRecord =>
          (false, mkDlq (dlq_config q) (dlq_records q) (total_pushed q) (total_popped q) (u64 (total_lost q + 1)))
      | DOP_MetadataOnly => (true, store (lose_front q) (with_sample r (dl_payload_size r) []))
      end
    else (true, store q r).

(** [reconfigure]: samples are cut again, then the oldest records go. *)
Definition dlq_reconfigure (q : DeadLetterQueue) (config : DeadLetterConfig) : DeadLetterQueue :=
  let c := clamp_dlq config in
  let rs := (fun r => with_sample r (dl_payload_size r) (sample_of c (dl_payload_sample r))) <$> dlq_records q in
  let extra := Z.max 0 (zlen rs - dlq_capacity c) in
  mkDlq c (drop (Z.to_nat extra) rs) (total_pushed q) (total_popped q) (u64 (total_lost q + extra)).

Definition dlq_try_pop (q : DeadLetterQueue) : option DeadLetterRecord * DeadLetterQueue :=
  match dlq_records q with
  | [] => (None, q)
  | r :: rs => (Some r, mkDlq (dlq_config q) rs (total_pushed q) (u64 (total_popped q + 1)) (total_lost q))
  end.

Definition dlq_try_pop_at (q : DeadLetterQueue) (index : Z) : option DeadLetterRecord * DeadLetterQueue :=
  if zlen (dlq_records q) <=? index then (None, q)
  else
    (dlq_records q !! Z.to_nat index,
     mkDlq (dlq_config q) (delete (Z.to_nat index) (dlq_records q)) (total_pushed q) (u64 (total_popped q + 1)) (total_lost q)).

Definition snapshot_records (q : DeadLetterQueue) : list DeadLetterRecord := dlq_records q.

(** ** Histories *)

Inductive DlqOp :=
| DPush (r : DeadLetterRecord)
| DPop
| DPopAt (index : Z)
| DReconfigure (c : DeadLetterConfig).

(** The queue with the number of pushes it took up while enabled and what was
    popped. *)
Record DlqHistory := mkDlqH { dh_queue : DeadLetterQueue; dh_offered : Z; dh_popped : list DeadLetterRecord }.

Definition dlq_step (h : DlqHistory) (op : DlqOp) : DlqHistory :=
  match op with
  | DPush r =>
      mkDlqH (dlq_try_push (dh_queue h) r).2
        (if dlq_enabled (dlq_config (dh_queue h)) then dh_offered h + 1 else dh_offered h) (dh_popped h)
  | DPop => let '(o, q) := dlq_try_pop (dh_queue h) in mkDlqH q (dh_offered h) (dh_popped h ++ option_list o)
  | DPopAt i => let '(o, q) := dlq_try_pop_at (dh_queue h) i in mkDlqH q (dh_offered h) (dh_popped h ++ option_list o)
  | DReconfigure c => mkDlqH (dlq_reconfigure (dh_queue h) c) (dh_offered h) (dh_popped h)
  end.
Definition dlq_run (h : DlqHistory) (ops : list DlqOp) : DlqHistory := fold_left dlq_step ops h.

(** ** Accounting *)

Definition sample_ok (c : DeadLetterConfig) (r : DeadLetterRecord) : Prop :=
  (store_payload c = false -> dl_payload_sample r = []) /\ zlen (dl_payload_sample r) <= max_payload_sample_bytes c.

Record dlq_inv (h : DlqHistory) : Prop := {
  qi_capacity : 1 <= dlq_capacity (dlq_config (dh_queue h));
  qi_max : 0 <= max_payload_sample_bytes (dlq_config (dh_queue h));
  qi_depth : zlen (dlq_records (dh_queue h)) <= dlq_capacity (dlq_config (dh_queue h));
  qi_lost : 0 <= total_lost (dh_queue h);
  qi_popped : total_popped (dh_queue h) = zlen (dh_popped h);
  qi_total : total_lost (dh_queue h) + zlen (dh_popped h) + zlen (dlq_records (dh_queue h)) = dh_offered h;
  qi_samples : Forall (sample_ok (dlq_config (dh_queue h))) (dlq_records (dh_queue h))
}.

Definition dlq_op_ok (op : DlqOp) : Prop :=
  match op with
  | DReconfigure c => 0 <= dlq_capacity c /\ 0 <= max_payload_sample_bytes c
  | DPopAt i => 0 <= i
  | _ => True
  end.

Lemma sample_of_ok c s : 0 <= max_payload_sample_bytes c ->
  (store_payload c = false -> sample_of c s = []) /\ zlen (sample_of c s) <= max_payload_sample_bytes c.
Proof.
  intros Hm. unfold sample_of. destruct (store_payload c); simpl; [|split; [done|change (zlen (@nil Z)) with 0; lia]].
  split; [done|]. destruct (_ <? _) eqn:E; bool_to_prop; [|lia]. unfold zlen in *. rewrite length_take. lia.
Qed.

Lemma clamp_capacity_pos c : 0 <= dlq_capacity c -> 1 <= dlq_capacity (clamp_dlq c).
Proof. intros Hc. simpl. destruct (_ =? 0) eqn:E; bool_to_prop; lia. Qed.

Lemma zlen_tail {A} (l : list A) : 0 < zlen l -> zlen (tail l) = zlen l - 1.
Proof. destruct l; [done|]. rewrite zlen_cons. simpl. lia. Qed.

Lemma push_inv h r :
  dlq_inv h -> dh_offered h < UINT64_MAX -> dlq_inv (dlq_step h (DPush r)).
Proof.
  intros [H1 H2 H3 H4 H5 H6 H7] Hn. unfold dlq_step. pose proof (zlen_nonneg (dh_popped h)) as P0.
  pose proof (zlen_nonneg (dlq_records (dh_queue h))) as R0. unfold UINT64_MAX in Hn.
  destruct (dh_queue h) as [c rs pushed popped lost]. unfold dlq_try_push. simpl in *.
  destruct (dlq_enabled c) eqn:Een; simpl; [|by split].
  assert (Htrim : sample_ok c (trim_payload c r)) by by apply sample_of_ok.
  assert (Hcut : sample_ok c (with_sample (trim_payload c r) (dl_payload_size (trim_payload c r)) []))
    by (split; [done|simpl; change (zlen (@nil Z)) with 0; lia]).
  destruct (dlq_capacity c <=? zlen rs) eqn:E; bool_to_prop.
  - assert (Ht : zlen (tail rs) = zlen rs - 1) by (apply zlen_tail; lia).
    assert (Hft : Forall (sample_ok c) (tail rs)) by (destruct rs; [done|by inversion H7]).
    destruct (dlq_overflow_policy c); (split; simpl; try done);
      rewrite ?zlen_app, ?Ht, ?u64_small by lia; change (zlen [?x]) with 1; try lia;
      by (apply Forall_app; split; [|constructor]).
  - split; simpl; try done; rewrite ?zlen_app; change (zlen [?x]) with 1; try lia.
    apply Forall_app. split; [done|by constructor].
Qed.

Lemma dlq_step_inv h op :
  dlq_inv h -> dlq_op_ok op -> dh_offered h < UINT64_MAX ->
  dlq_inv (dlq_step h op) /\ dh_offered h <= dh_offered (dlq_step h op) <= dh_offered h + 1.
Proof.
  intros Hinv Hop Hn. destruct op as [r| |i|c].
  - split; [by apply push_inv|]. simpl. destruct (dlq_enabled _); lia.
  - destruct Hinv as [H1 H2 H3 H4 H5 H6 H7]. pose proof (zlen_nonneg (dh_popped h)) as P0. simpl. unfold dlq_try_pop.
    destruct (dlq_records (dh_queue h)) as [|r rs] eqn:E.
    { split; [|simpl; lia]. split; simpl; rewrite ?E, ?app_nil_r; done. }
    pose proof (zlen_nonneg rs). rewrite zlen_cons in *. inversion H7. unfold UINT64_MAX in Hn.
    split; [|simpl; lia]. split; simpl; rewrite ?zlen_app; change (zlen [?x]) with 1; try done; try lia.
    rewrite u64_small by lia. lia.
  - destruct Hinv as [H1 H2 H3 H4 H5 H6 H7]. pose proof (zlen_nonneg (dh_popped h)) as P0. simpl in Hop |- *. unfold dlq_try_pop_at.
    destruct (zlen (dlq_records (dh_queue h)) <=? i) eqn:E; bool_to_prop.
    { split; [|simpl; lia]. split; simpl; rewrite ?app_nil_r; done. }
    destruct (lookup_lt_is_Some_2 (dlq_records (dh_queue h)) (Z.to_nat i)) as [r Hr]; [unfold zlen in E; lia|].
    rewrite Hr. unfold UINT64_MAX in Hn.
    assert (Hd : zlen (delete (Z.to_nat i) (dlq_records (dh_queue h))) = zlen (dlq_records (dh_queue h)) - 1).
    { unfold zlen in *. rewrite length_delete by (by exists r). lia. }
    split; [|simpl; lia]. split; simpl; rewrite ?zlen_app, ?Hd; change (zlen [?x]) with 1; try done; try lia.
    + rewrite u64_small by lia. lia.
    + by apply Forall_delete.
  - destruct Hinv as [H1 H2 H3 H4 H5 H6 H7]. destruct Hop as [Hc Hm]. split; [|simpl; lia].
    pose proof (zlen_nonneg (dh_popped h)) as P0. pose proof (zlen_nonneg (dlq_records (dh_queue h))) as R0.
    pose proof (clamp_capacity_pos c Hc) as Hcap. unfold UINT64_MAX in Hn. simpl. unfold dlq_reconfigure.
    set (c' := clamp_dlq c) in *. set (rs := _ <$> _). assert (Hrs : zlen rs = zlen (dlq_records (dh_queue h)))
      by (unfold rs, zlen; by rewrite length_fmap).
    assert (Hdrop : zlen (drop (Z.to_nat (Z.max 0 (zlen rs - dlq_capacity c'))) rs) = zlen rs - Z.max 0 (zlen rs - dlq_capacity c'))
      by (unfold zlen in *; rewrite length_drop; lia).
    assert (Hok : Forall (sample_ok c') rs).
    { unfold rs. apply Forall_fmap, Forall_true. intros r. by apply sample_of_ok. }
    assert (Hm' : 0 <= max_payload_sample_bytes c') by exact Hm. clearbody rs c'. split; simpl; rewrite ?Hdrop, ?u64_small by lia; try done; try lia. by apply Forall_drop.
Qed.

(** For every history the queue stays within its capacity, every record taken
    up is stored, was popped, or is counted as lost, and the samples obey the
    configuration in force. *)
Theorem dlq_accounting c ops :
  0 <= dlq_capacity c -> 0 <= max_payload_sample_bytes c -> Forall dlq_op_ok ops -> zlen ops < UINT64_MAX ->
  let h := dlq_run (mkDlqH (dlq_init c) 0 []) ops in
  zlen (dlq_records (dh_queue h)) <= dlq_capacity (dlq_config (dh_queue h)) /\
  total_lost (dh_queue h) + total_popped (dh_queue h) + zlen (dlq_records (dh_queue h)) = dh_offered h /\
  total_popped (dh_queue h) = zlen (dh_popped h) /\
  Forall (sample_ok (dlq_config (dh_queue h))) (dlq_records (dh_queue h)).
Proof.
  intros Hc Hm Hops Hlen. cbv zeta.
  assert (Hrun : forall h, dlq_inv h -> dh_offered h + zlen ops < UINT64_MAX -> dlq_inv (dlq_run h ops)).
  { clear Hlen. induction Hops as [|op ops Hop Hops IH]; intros h Hinv Hn; [done|]. rewrite zlen_cons in Hn.
    pose proof (zlen_nonneg ops). destruct (dlq_step_inv h op Hinv Hop) as [Hi Ho]; [lia|]. simpl. apply IH; [done|lia]. }
  destruct (Hrun (mkDlqH (dlq_init c) 0 [])) as [H1 H2 H3 H4 H5 H6 H7]; [|done|].
  { pose proof (clamp_capacity_pos c Hc). split; try done. simpl in *. change (zlen (@nil DeadLetterRecord)) with 0. lia. }
  split; [done|]. split; [lia|]. by split.
Qed.
End Queue.

(** ** The vocabulary *)

(** Routing policies parse back; a stronger policy routes every mode a weaker
    one routes, and a mode with stronger guarantees is routed whenever a weaker
    one is. *)
Theorem routing_monotone :
  (forall p, parse_routing_policy (routing_policy_to_string p) = p) /\
  (forall m p q, should_route_to_dlq m p = true ->
     match p, q with
     | DRP_Always, DRP_Always | DRP_ObservableAndAbove, (DRP_ObservableAndAbove | DRP_Always)
     | DRP_TrackedOnly, (DRP_TrackedOnly | DRP_ObservableAndAbove | DRP_Always) => should_route_to_dlq m q = true
     | _, _ => True
     end) /\
  (forall m m' p, delivery_mode_value m <= delivery_mode_value m' ->
     should_route_to_dlq m p = true -> should_route_to_dlq m' p = true).
Proof.
  split; [by intros []|]. split; [by intros [] [] []|]. intros m m' [] Hle; try done; by destruct m, m'.
Qed.

Definition demo_record (n : Z) : DeadLetterRecord :=
  mkDeadLetter DLR_Expired DLS_LocalDelivery 1 2 4096 n 0 0 0 0 0 0 0 [1; 2; 3] 0 0 n.

Lemma dlq_accounting_witness :
  let h := dlq_run (mkDlqH (dlq_init (mkDlqConfig true 2 2 DOP_DropOldestRecord true DRP_Always)) 0 [])
             [DPush (demo_record 1); DPush (demo_record 2); DPush (demo_record 3); DPop] in
  total_lost (dh_queue h) = 1 /\
  total_lost (dh_queue h) + total_popped (dh_queue h) + zlen (dlq_records (dh_queue h)) = dh_offered h.
Proof.
  split; [by vm_compute|].
  apply (dlq_accounting (mkDlqConfig true 2 2 DOP_DropOldestRecord true DRP_Always)
    [DPush (demo_record 1); DPush (demo_record 2); DPush (demo_record 3); DPop]); [by vm_compute|by vm_compute|by repeat constructor|by vm_compute].
Defined.
