(* ===== verification/EndpointQueue.v ===== *)
(** * The outbound queue of an endpoint

    [net/endpoint_outbound_queue.cpp]: a control lane and a data lane with
    admission by message and byte counts, run as functions of the state.  The
    ratios of the limits are binary64 numbers. *)

From S2P Require Import Prelude DeliveryTypes Pressure DeadLetters.
From stdpp Require Import base numbers list.

#[local] Open Scope Z_scope.

Section OutboundQueue.
Context {Addr : Type}.

Record PendingMessage := mkPending {
  pm_target : Addr;
  pm_data : list Z;        (* bytes *)
  pm_enqueued_at : Z
}.

Definition pm_size (m : PendingMessage) : Z := zlen (pm_data m).

Record EndpointOutboundLimits := mkLimits {
  max_messages : Z;
  max_bytes : Z;
  control_lane_reserve : Z;
  reliable_headroom_pct : double;
  high_watermark : double;
  critical_watermark : double;
  low_watermark : double;
  drain_rate_ema_alpha : double
}.

(** The defaults of the structure. *)
Definition default_limits : EndpointOutboundLimits :=
  mkLimits 1000 16777216 64 (dlit 20 100) (dlit 70 100) (dlit 90 100) (dlit 50 100) (dlit 20 100).

Record EndpointOutboundQueue := mkOutbound {
  control_messages : Z;    (* size_t *)
  control_bytes : Z;
  data_messages : Z;
  data_bytes : Z;
  control_lane : list PendingMessage;
  data_lane : list PendingMessage;
  pressure : MailboxPressureState;
  drain_rate_ema : double
}.

Definition outbound_init : EndpointOutboundQueue :=
  mkOutbound 0 0 0 0 [] [] PS_Normal (double_of_Z 0).

Context (lim : EndpointOutboundLimits).

Definition effective_messages : Z :=
  if control_lane_reserve lim <? max_messages lim
  then max_messages lim - control_lane_reserve lim else 0.

Definition byte_ratio : double :=
  if 0 <? max_messages lim
  then ddiv (double_of_Z effective_messages) (double_of_Z (max_messages lim))
  else double_of_Z 0.

Definition effective_bytes : Z :=
  Z_of_double (dmul (double_of_Z (max_bytes lim)) byte_ratio).

Definition is_reliable (mode : DeliveryMode) : bool :=
  match mode with DM_AtLeastOnce | DM_DurableAtLeastOnce => true | _ => false end.

Definition headroom (limit : Z) : Z :=
  Z_of_double (dmul (double_of_Z limit) (dsub (double_of_Z 1) (reliable_headroom_pct lim))).

Definition data_limit_messages (reliable : bool) : Z :=
  if reliable then effective_messages else headroom effective_messages.
Definition data_limit_bytes (reliable : bool) : Z :=
  if reliable then effective_bytes else headroom effective_bytes.

Definition total_messages (q : EndpointOutboundQueue) : Z :=
  u64 (control_messages q + data_messages q).
Definition total_bytes (q : EndpointOutboundQueue) : Z := u64 (control_bytes q + data_bytes q).

(** [check_admission]. *)
Definition check_admission (q : EndpointOutboundQueue) (msg_bytes : Z) (is_control : bool)
    (mode : DeliveryMode) : bool :=
  let fits := u64 (total_bytes q + msg_bytes) <=? max_bytes lim in
  if is_control then
    if control_messages q <? control_lane_reserve lim then fits
    else (total_messages q <? max_messages lim) && fits
  else
    (data_messages q <? data_limit_messages (is_reliable mode)) &&
    (u64 (data_bytes q + msg_bytes) <=? data_limit_bytes (is_reliable mode)).

Definition depth_ratio (q : EndpointOutboundQueue) : double :=
  if max_messages lim =? 0 then double_of_Z 0
  else ddiv (double_of_Z (total_messages q)) (double_of_Z (max_messages lim)).

(** [update_pressure_after_enqueue]. *)
Definition update_pressure (q : EndpointOutboundQueue) : EndpointOutboundQueue :=
  let ratio := depth_ratio q in
  let hard_failure := dge ratio (critical_watermark lim) in
  mkOutbound (control_messages q) (control_bytes q) (data_messages q) (data_bytes q)
    (control_lane q) (data_lane q)
    (PressureStateMachine.next_state ratio hard_failure (high_watermark lim) (low_watermark lim)
       (critical_watermark lim) (pressure q))
    (drain_rate_ema q).

(** [update_pressure_after_dequeue]: the pressure and the drain-rate average. *)
Definition update_pressure_after_dequeue (q : EndpointOutboundQueue) (bytes_dequeued : Z)
  : EndpointOutboundQueue :=
  let q := update_pressure q in
  let alpha := drain_rate_ema_alpha lim in
  mkOutbound (control_messages q) (control_bytes q) (data_messages q) (data_bytes q)
    (control_lane q) (data_lane q) (pressure q)
    (dadd (dmul alpha (double_of_Z bytes_dequeued))
          (dmul (dsub (double_of_Z 1) alpha) (drain_rate_ema q))).

Definition try_enqueue (q : EndpointOutboundQueue) (msg : PendingMessage) (mode : DeliveryMode)
    (type_tag : Z) : TransportSendResult * EndpointOutboundQueue :=
  let is_control := is_system_message type_tag in
  let msg_bytes := pm_size msg in
  if negb (check_admission q msg_bytes is_control mode) then (TS_QueueFull, update_pressure q)
  else
    (TS_Sent, update_pressure
      (if is_control
       then mkOutbound (u64 (control_messages q + 1)) (u64 (control_bytes q + msg_bytes))
              (data_messages q) (data_bytes q) (control_lane q ++ [msg]) (data_lane q)
              (pressure q) (drain_rate_ema q)
       else mkOutbound (control_messages q) (control_bytes q)
              (u64 (data_messages q + 1)) (u64 (data_bytes q + msg_bytes))
              (control_lane q) (data_lane q ++ [msg]) (pressure q) (drain_rate_ema q))).

Definition try_dequeue (q : EndpointOutboundQueue)
  : option PendingMessage * EndpointOutboundQueue :=
  match control_lane q with
  | msg :: rest =>
      let sz := pm_size msg in
      (Some msg, update_pressure_after_dequeue
        (mkOutbound (u64 (control_messages q - 1)) (u64 (control_bytes q - sz))
           (data_messages q) (data_bytes q) rest (data_lane q) (pressure q) (drain_rate_ema q)) sz)
  | [] =>
      match data_lane q with
      | msg :: rest =>
          let sz := pm_size msg in
          (Some msg, update_pressure_after_dequeue
            (mkOutbound (control_messages q) (control_bytes q)
               (u64 (data_messages q - 1)) (u64 (data_bytes q - sz)) [] rest
               (pressure q) (drain_rate_ema q)) sz)
      | [] => (None, q)
      end
  end.

(** [snapshot]: the four counters. *)
Definition snapshot (q : EndpointOutboundQueue) : Z * Z * Z * Z :=
  (control_messages q, control_bytes q, data_messages q, data_bytes q).

(** ** Histories *)

Inductive OutOp := OutPush (msg : PendingMessage) (mode : DeliveryMode) (tag : Z) | OutPop.

Definition out_op (q : EndpointOutboundQueue) (o : OutOp) : EndpointOutboundQueue :=
  match o with
  | OutPush msg mode tag => (try_enqueue q msg mode tag).2
  | OutPop => (try_dequeue q).2
  end.

Definition out_run (os : list OutOp) : EndpointOutboundQueue := foldl out_op outbound_init os.

(** Limits a deployment uses: byte counts far below the machine range, and
    ratios that scale down, both checked by computation. *)
Definition limits_sane : bool :=
  (0 <=? max_messages lim) && (max_messages lim <=? 2 ^ 62) &&
  (0 <=? control_lane_reserve lim) && (control_lane_reserve lim <=? 2 ^ 62) &&
  (0 <=? max_bytes lim) && (max_bytes lim <=? 2 ^ 62) &&
  (headroom effective_messages <=? effective_messages) &&
  (effective_bytes <=? max_bytes lim) && (headroom effective_bytes <=? max_bytes lim).

Definition op_sized (o : OutOp) : Prop :=
  match o with OutPush msg _ _ => pm_size msg <= 2 ^ 62 | OutPop => True end.

(** The invariant: counters account for the lanes, and the lanes are bounded. *)
Record out_ok (q : EndpointOutboundQueue) : Prop := mkOutOk {
  oo_control_messages : control_messages q = zlen (control_lane q);
  oo_data_messages : data_messages q = zlen (data_lane q);
  oo_control_bytes : control_bytes q = sum_by pm_size (control_lane q);
  oo_data_bytes : data_bytes q = sum_by pm_size (data_lane q);
  oo_control_bound : zlen (control_lane q) <= Z.max (control_lane_reserve lim) (max_messages lim);
  oo_data_bound : zlen (data_lane q) <= effective_messages;
  oo_control_bytes_bound : sum_by pm_size (control_lane q) <= max_bytes lim;
  oo_data_bytes_bound : sum_by pm_size (data_lane q) <= max_bytes lim
}.

Lemma pm_size_nonneg m : 0 <= pm_size m.
Proof. apply zlen_nonneg. Qed.

Lemma update_pressure_ok q : out_ok (update_pressure q) <-> out_ok q.
Proof. split; intros [H1 H2 H3 H4 H5 H6 H7 H8]; by split. Qed.
Lemma update_after_dequeue_ok q n : out_ok (update_pressure_after_dequeue q n) <-> out_ok q.
Proof. split; intros [H1 H2 H3 H4 H5 H6 H7 H8]; by split. Qed.

Ltac sane H :=
  unfold limits_sane in H; bool_to_prop; change (2 ^ 62) with 4611686018427387904 in *.

Lemma effective_messages_bound :
  limits_sane = true -> 0 <= effective_messages <= max_messages lim.
Proof. intros H. unfold effective_messages in *. sane H. bcase; bool_to_prop; lia. Qed.

Lemma data_limits_bound r :
  limits_sane = true ->
  data_limit_messages r <= effective_messages /\ data_limit_bytes r <= max_bytes lim.
Proof. intros H. sane H. destruct r; simpl; split; lia. Qed.

(** The counters are within the machine range. *)
Lemma out_ok_ranges q :
  limits_sane = true -> out_ok q ->
  0 <= control_messages q <= 2 ^ 62 /\ 0 <= data_messages q <= 2 ^ 62 /\
  0 <= control_bytes q <= 2 ^ 62 /\ 0 <= data_bytes q <= 2 ^ 62.
Proof.
  intros H [K1 K2 K3 K4 K5 K6 K7 K8]. pose proof (effective_messages_bound H).
  rewrite K1, K2, K3, K4.
  pose proof (zlen_nonneg (control_lane q)). pose proof (zlen_nonneg (data_lane q)).
  pose proof (sum_by_nonneg pm_size (control_lane q) pm_size_nonneg).
  pose proof (sum_by_nonneg pm_size (data_lane q) pm_size_nonneg).
  sane H. lia.
Qed.

Lemma total_messages_exact q :
  limits_sane = true -> out_ok q -> total_messages q = zlen (control_lane q) + zlen (data_lane q).
Proof.
  intros H Hq. pose proof (out_ok_ranges q H Hq) as (R1 & R2 & _ & _). destruct Hq as [K1 K2 _ _ _ _ _ _].
  change (2 ^ 62) with 4611686018427387904 in *. unfold total_messages.
  rewrite <- K1, <- K2. apply u64_small. lia.
Qed.

(** What admission means in terms of the lanes. *)
Lemma check_admission_exact q msg is_control mode :
  limits_sane = true -> out_ok q -> pm_size msg <= 2 ^ 62 ->
  check_admission q (pm_size msg) is_control mode = true <->
  if is_control then
    sum_by pm_size (control_lane q) + sum_by pm_size (data_lane q) + pm_size msg <= max_bytes lim /\
    (zlen (control_lane q) < control_lane_reserve lim \/
     zlen (control_lane q) + zlen (data_lane q) < max_messages lim)
  else
    zlen (data_lane q) < data_limit_messages (is_reliable mode) /\
    sum_by pm_size (data_lane q) + pm_size msg <= data_limit_bytes (is_reliable mode).
Proof.
  intros H Hq Hm. pose proof (out_ok_ranges q H Hq) as (R1 & R2 & R3 & R4).
  pose proof (total_messages_exact q H Hq) as Ht. pose proof (pm_size_nonneg msg).
  destruct Hq as [K1 K2 K3 K4 _ _ _ _]. change (2 ^ 62) with 4611686018427387904 in *.
  unfold check_admission, total_bytes. rewrite (u64_small (control_bytes q + _)) by lia.
  rewrite !u64_small by lia. rewrite Ht, K1, K2, K3, K4 in *.
  destruct is_control; [bcase|]; rewrite ?andb_true_iff, ?Z.leb_le, ?Z.ltb_lt; bool_to_prop; lia.
Qed.

(** [try_enqueue] on its two branches. *)
Lemma try_enqueue_cases q msg mode tag :
  let ctl := is_system_message tag in
  let r := try_enqueue q msg mode tag in
  if check_admission q (pm_size msg) ctl mode then
    r.1 = TS_Sent /\
    control_lane r.2 = (if ctl then control_lane q ++ [msg] else control_lane q) /\
    data_lane r.2 = (if ctl then data_lane q else data_lane q ++ [msg])
  else r.1 = TS_QueueFull /\ control_lane r.2 = control_lane q /\ data_lane r.2 = data_lane q.
Proof.
  simpl. unfold try_enqueue.
  destruct (check_admission _ _ _ _); destruct (is_system_message tag); done.
Qed.

Lemma out_op_ok q o :
  limits_sane = true -> out_ok q -> op_sized o -> out_ok (out_op q o).
Proof.
  intros H Hq Ho. pose proof (out_ok_ranges q H Hq) as (R1 & R2 & R3 & R4).
  pose proof (effective_messages_bound H) as He. destruct o as [msg mode tag|]; simpl in *.
  - pose proof (check_admission_exact q msg (is_system_message tag) mode H Hq Ho) as Ha.
    unfold try_enqueue. destruct (check_admission _ _ _ _); simpl; rewrite update_pressure_ok; [|done].
    apply proj1 in Ha. specialize (Ha eq_refl). pose proof (pm_size_nonneg msg).
    pose proof (data_limits_bound (is_reliable mode) H). destruct Hq as [K1 K2 K3 K4 K5 K6 K7 K8].
    change (2 ^ 62) with 4611686018427387904 in *.
    pose proof (sum_by_nonneg pm_size (data_lane q) pm_size_nonneg).
    destruct (is_system_message tag); split; simpl;
      rewrite ?u64_small by lia; autorewrite with hpa_rw; lia.
  - unfold try_dequeue. destruct Hq as [K1 K2 K3 K4 K5 K6 K7 K8].
    change (2 ^ 62) with 4611686018427387904 in *.
    destruct (control_lane q) as [|m rest] eqn:Ec.
    + destruct (data_lane q) as [|m rest] eqn:Ed; simpl;
        [split; by rewrite ?Ec, ?Ed|]. rewrite update_after_dequeue_ok.
      autorewrite with hpa_rw in *. pose proof (pm_size_nonneg m). pose proof (zlen_nonneg rest).
      pose proof (sum_by_nonneg pm_size rest pm_size_nonneg).
      split; simpl; rewrite ?u64_small by lia; autorewrite with hpa_rw; lia.
    + simpl. rewrite update_after_dequeue_ok. autorewrite with hpa_rw in *.
      pose proof (pm_size_nonneg m). pose proof (zlen_nonneg rest).
      pose proof (sum_by_nonneg pm_size rest pm_size_nonneg).
      split; simpl; rewrite ?u64_small by lia; autorewrite with hpa_rw; lia.
Qed.

Lemma out_run_ok os :
  limits_sane = true -> Forall op_sized os -> out_ok (out_run os).
Proof.
  intros H Hos. unfold out_run.
  assert (Hi : out_ok outbound_init).
  { pose proof (effective_messages_bound H). sane H. split; simpl; autorewrite with hpa_rw; lia. }
  revert Hi. generalize outbound_init. induction Hos as [|o os Ho _ IH]; intros q Hq; [done|].
  simpl. apply IH. by apply out_op_ok.
Qed.

(** The reference: two lists, served control first. *)
Definition lanes_pop (l : list PendingMessage * list PendingMessage) :=
  match l with
  | (m :: c, d) => (Some m, (c, d))
  | ([], m :: d) => (Some m, ([], d))
  | ([], []) => (None, ([], []))
  end.

(** The outbound queue.  Through every history the four counters are the
    message and byte counts of the two lanes; a push is admitted exactly when
    the limits say so and then goes to the back of its lane, and is otherwise
    [QueueFull] and changes no lane; a pop serves the control lane first, each
    lane in order. *)
Theorem outbound_queue_contract os msg mode tag :
  limits_sane = true -> Forall op_sized os -> pm_size msg <= 2 ^ 62 ->
  let q := out_run os in
  let ctl := is_system_message tag in
  let room :=
    if ctl then
      sum_by pm_size (control_lane q) + sum_by pm_size (data_lane q) + pm_size msg <= max_bytes lim /\
      (zlen (control_lane q) < control_lane_reserve lim \/
       zlen (control_lane q) + zlen (data_lane q) < max_messages lim)
    else
      zlen (data_lane q) < data_limit_messages (is_reliable mode) /\
      sum_by pm_size (data_lane q) + pm_size msg <= data_limit_bytes (is_reliable mode) in
  snapshot q = (zlen (control_lane q), sum_by pm_size (control_lane q),
                zlen (data_lane q), sum_by pm_size (data_lane q)) /\
  (let r := try_enqueue q msg mode tag in
   (room /\ r.1 = TS_Sent /\
      control_lane r.2 = (if ctl then control_lane q ++ [msg] else control_lane q) /\
      data_lane r.2 = (if ctl then data_lane q else data_lane q ++ [msg])) \/
   (~ room /\ r.1 = TS_QueueFull /\ control_lane r.2 = control_lane q /\
      data_lane r.2 = data_lane q)) /\
  (let r := try_dequeue q in
   (r.1, (control_lane r.2, data_lane r.2)) = lanes_pop (control_lane q, data_lane q)).
Proof.
  intros H Hos Hm q ctl room. pose proof (out_run_ok os H Hos) as Hq. fold q in Hq. split_and!.
  - destruct Hq as [K1 K2 K3 K4 _ _ _ _]. unfold snapshot. by rewrite K1, K2, K3, K4.
  - cbv zeta. pose proof (try_enqueue_cases q msg mode tag) as Hc.
    pose proof (check_admission_exact q msg ctl mode H Hq Hm) as Ha. cbv zeta in Hc. fold ctl in Hc.
    destruct (check_admission q (pm_size msg) ctl mode); [left|right]; (split; [|exact Hc]).
    + by apply Ha.
    + intros Hr. by apply Ha in Hr.
  - cbv zeta. unfold try_dequeue. destruct (control_lane q) as [|m c] eqn:Ec; [|done].
    destruct (data_lane q) as [|m d] eqn:Ed; simpl; [by rewrite Ec, Ed|done].
Qed.

(** The control reserve.  Whatever was pushed before, a control message that
    fits in bytes is admitted while fewer than [control_lane_reserve] control
    messages wait; data never takes more than the unreserved slots; and the
    queue as a whole holds at most the limit of one lane plus that of the
    other, which is more than [max_messages]. *)
Theorem control_reserve os msg mode tag :
  limits_sane = true -> Forall op_sized os -> pm_size msg <= 2 ^ 62 ->
  let q := out_run os in
  (is_system_message tag = true -> zlen (control_lane q) < control_lane_reserve lim ->
     sum_by pm_size (control_lane q) + sum_by pm_size (data_lane q) + pm_size msg <= max_bytes lim ->
     (try_enqueue q msg mode tag).1 = TS_Sent) /\
  zlen (data_lane q) <= effective_messages /\
  total_messages q <= Z.max (control_lane_reserve lim) (max_messages lim) + effective_messages.
Proof.
  intros H Hos Hm q. pose proof (out_run_ok os H Hos) as Hq. fold q in Hq. split_and!.
  - intros Ht Hc Hb. pose proof (try_enqueue_cases q msg mode tag) as Hcs. cbv zeta in Hcs.
    pose proof (check_admission_exact q msg true mode H Hq Hm) as Ha. rewrite Ht in Hcs.
    rewrite (proj2 Ha) in Hcs by (split; [lia|by left]). apply Hcs.
  - apply Hq.
  - rewrite total_messages_exact by done. pose proof (oo_control_bound q Hq).
    pose proof (oo_data_bound q Hq). lia.
Qed.
End OutboundQueue.

(** Small limits for the examples. *)
Definition tiny_limits : EndpointOutboundLimits :=
  mkLimits 4 1000 1 (dlit 20 100) (dlit 70 100) (dlit 90 100) (dlit 50 100) (dlit 20 100).
Definition tiny_message (n : nat) : @PendingMessage Z := mkPending 7 (replicate n 0) 0.
Definition kControlTag : Z := 1.
Definition kUserTag : Z := TypeTag_User.

Lemma outbound_queue_contract_witness :
  (try_dequeue default_limits
     (out_run default_limits
        [OutPush (tiny_message 3) DM_BestEffort kUserTag;
         OutPush (tiny_message 5) DM_BestEffort kControlTag])).1 = Some (tiny_message 5).
Proof.
  pose proof (outbound_queue_contract default_limits
    [OutPush (tiny_message 3) DM_BestEffort kUserTag;
     OutPush (tiny_message 5) DM_BestEffort kControlTag] (tiny_message 1) DM_BestEffort kUserTag
    ltac:(vm_compute; reflexivity) ltac:(repeat constructor; discriminate) ltac:(discriminate))
    as (_ & _ & Hp).
  refine (eq_trans (f_equal fst Hp) _). vm_compute. reflexivity.
Defined.

Lemma control_reserve_witness :
  (try_enqueue tiny_limits
     (out_run tiny_limits (replicate 3 (OutPush (tiny_message 1) DM_AtLeastOnce kUserTag)))
     (tiny_message 2) DM_BestEffort kControlTag).1 = TS_Sent.
Proof.
  pose proof (control_reserve tiny_limits
    (replicate 3 (OutPush (tiny_message 1) DM_AtLeastOnce kUserTag)) (tiny_message 2) DM_BestEffort
    kControlTag ltac:(vm_compute; reflexivity) ltac:(repeat constructor; discriminate)
    ltac:(discriminate)) as (Hc & _ & _).
  apply Hc; vm_compute; (reflexivity || discriminate).
Defined.

(** [max_messages] does not bound the queue: four control messages and three
    reliable ones are all accepted by a queue of four. *)
Theorem outbound_queue_exceeds_max :
  let q := out_run tiny_limits
    (replicate 4 (OutPush (tiny_message 1) DM_BestEffort kControlTag) ++
     replicate 3 (OutPush (tiny_message 1) DM_AtLeastOnce kUserTag)) in
  max_messages tiny_limits = 4 /\ total_messages q = 7.
Proof. by vm_compute. Qed.
