(* ===== verification/Directory.v ===== *)
(** * The actor directory, spawn leases and the spawner

    [actor/system/actor_directory.cpp], [runtime/actor_spawn_lease.cpp] and
    [runtime/actor_spawner.cpp].  Directory methods run under one mutex and are
    functions of the directory.  The name-registration port is a callback; the
    calls made to it are recorded.  Logging and metrics are left out. *)

From S2P Require Import Prelude Lifecycle.
From stdpp Require Import base numbers list gmap strings.

#[local] Open Scope Z_scope.

Record ActorAddress := mkAddress {
  addr_endpoint : string;
  addr_type : Z;
  addr_id : Z;               (* uint64_t *)
  addr_incarnation : Z
}.

#[export] Instance ActorAddress_eq_dec : EqDecision ActorAddress.
Proof. solve_decision. Defined.

Inductive MailboxKind := VariableMpsc | Disruptor.

(** ** ActorDirectory *)

Record ActorDirectoryEntry := mkEntry {
  de_id : Z;                 (* entry.actor.id() *)
  de_address : ActorAddress; (* entry.actor.address() *)
  de_kind : MailboxKind;
  de_mailbox : bool;         (* a variable mailbox is attached *)
  de_fixed_valid : bool      (* the fixed binding is valid *)
}.

Inductive PortCall := OnRegister (name : string) (a : ActorAddress) | OnUnregister (name : string).

Record ActorDirectory := mkDirectory {
  next_actor_id : Z;         (* uint64_t *)
  entries : gmap Z ActorDirectoryEntry;
  names : gmap string ActorAddress;
  port_installed : bool;
  port_calls : list PortCall
}.

Definition directory_init : ActorDirectory := mkDirectory 1 ∅ ∅ false [].

Definition set_maps (d : ActorDirectory) (es : gmap Z ActorDirectoryEntry)
    (ns : gmap string ActorAddress) : ActorDirectory :=
  mkDirectory (next_actor_id d) es ns (port_installed d) (port_calls d).

(** A call through the port, when one is installed. *)
Definition call_port (d : ActorDirectory) (c : PortCall) : ActorDirectory :=
  if port_installed d
  then mkDirectory (next_actor_id d) (entries d) (names d) true (port_calls d ++ [c])
  else d.

Definition allocate_id (d : ActorDirectory) : Z * ActorDirectory :=
  (next_actor_id d,
   mkDirectory (u64 (next_actor_id d + 1)) (entries d) (names d) (port_installed d) (port_calls d)).

Inductive PublishStatus := Published | DuplicateActorId | DuplicateName.

Definition publish (d : ActorDirectory) (e : ActorDirectoryEntry) (name : option string)
  : PublishStatus * ActorDirectory :=
  let id := de_id e in
  if bool_decide (is_Some (entries d !! id)) then (DuplicateActorId, d)
  else
    match name with
    | Some n =>
        if bool_decide (is_Some (names d !! n)) then (DuplicateName, d)
        else (Published, call_port
                (set_maps d (<[id := e]> (entries d)) (<[n := de_address e]> (names d)))
                (OnRegister n (de_address e)))
    | None => (Published, set_maps d (<[id := e]> (entries d)) (names d))
    end.

Definition dir_insert (d : ActorDirectory) (e : ActorDirectoryEntry) : bool * ActorDirectory :=
  match publish d e None with (Published, d') => (true, d') | (_, d') => (false, d') end.

Definition dir_find (d : ActorDirectory) (id : Z) : option ActorDirectoryEntry := entries d !! id.
Definition find_fixed_binding (d : ActorDirectory) (id : Z) : option bool :=
  match dir_find d id with
  | Some e => match de_kind e with Disruptor => Some (de_fixed_valid e) | _ => None end
  | None => None
  end.

(** [register_names_atomically]: validate the whole batch, then [emplace] every
    name, which leaves an existing binding alone. *)
Definition name_admissible (d : ActorDirectory) (item : string * Z) : bool :=
  bool_decide (names d !! item.1 = None) && bool_decide (is_Some (entries d !! item.2)).

Definition emplace (ns : gmap string ActorAddress) (n : string) (a : ActorAddress) :=
  match ns !! n with Some _ => ns | None => <[n := a]> ns end.

Definition commit_name (es : gmap Z ActorDirectoryEntry) (ns : gmap string ActorAddress)
    (item : string * Z) : gmap string ActorAddress :=
  match es !! item.2 with Some e => emplace ns item.1 (de_address e) | None => ns end.

Definition register_names_atomically (d : ActorDirectory) (batch : list (string * Z))
  : bool * ActorDirectory :=
  if forallb (name_admissible d) batch
  then (true, set_maps d (entries d) (foldl (commit_name (entries d)) (names d) batch))
  else (false, d).

Definition register_name (d : ActorDirectory) (n : string) (a : ActorAddress)
  : bool * ActorDirectory :=
  match names d !! n with
  | Some _ => (false, d)
  | None => (true, call_port (set_maps d (entries d) (<[n := a]> (names d))) (OnRegister n a))
  end.

Definition unregister_name (d : ActorDirectory) (n : string) : bool * ActorDirectory :=
  (bool_decide (is_Some (names d !! n)), set_maps d (entries d) (delete n (names d))).

Definition resolve_name (d : ActorDirectory) (n : string) : option ActorAddress := names d !! n.
Definition resolve_actor (d : ActorDirectory) (n : string) : option ActorDirectoryEntry :=
  a ← resolve_name d n; dir_find d (addr_id a).

(** [erase]: the entry and every name whose address has its id.  The order of
    the port calls is the iteration order of the hash table. *)
Definition erase (d : ActorDirectory) (id : Z) : bool * ActorDirectory :=
  let gone := filter (fun p : string * ActorAddress => addr_id p.2 = id) (names d) in
  let kept := filter (fun p : string * ActorAddress => addr_id p.2 <> id) (names d) in
  (bool_decide (is_Some (entries d !! id)),
   foldl call_port (set_maps d (delete id (entries d)) kept)
     (OnUnregister ∘ fst <$> map_to_list gone)).

Definition dir_size (d : ActorDirectory) : nat := size (entries d).

(** ** ActorSpawnLease *)

Record ActorSpawnLease := mkLease {
  lease_handle_id : Z;       (* actor_handle_.id(), 0 for an empty handle *)
  lease_actor_id : Z;
  lease_directory : bool;    (* the directory pointer is set *)
  lease_committed : bool
}.

Definition empty_lease : ActorSpawnLease := mkLease 0 0 false false.
Definition lease_empty (l : ActorSpawnLease) : bool := lease_actor_id l =? 0.

Definition set_committed (l : ActorSpawnLease) : ActorSpawnLease :=
  mkLease (lease_handle_id l) (lease_actor_id l) (lease_directory l) true.

Definition lease_commit (l : ActorSpawnLease) : ActorSpawnLease :=
  if lease_committed l || lease_empty l then l else set_committed l.

Definition lease_rollback (l : ActorSpawnLease) (d : ActorDirectory)
  : ActorSpawnLease * ActorDirectory :=
  if lease_committed l || lease_empty l then (l, d)
  else (set_committed l,
        if lease_directory l && negb (lease_actor_id l =? 0) then (erase d (lease_actor_id l)).2 else d).

(** Move construction: the new lease and what is left of the source. *)
Definition lease_move (l : ActorSpawnLease) : ActorSpawnLease * ActorSpawnLease :=
  (l, mkLease 0 (lease_actor_id l) false true).

(** The destructor. *)
Definition lease_destroy (l : ActorSpawnLease) (d : ActorDirectory) : ActorDirectory :=
  (lease_rollback l d).2.

(** ** Properties of the directory *)

(** The part of a directory that lookups see. *)
Definition same_view (d d' : ActorDirectory) : Prop :=
  entries d = entries d' /\ names d = names d'.

#[export] Instance same_view_equivalence : Equivalence same_view.
Proof.
  split; [by intros ?|by intros ? ? [? ?]|].
  intros d1 d2 d3 [H1 H2] [H3 H4]. split; congruence.
Qed.

Lemma call_port_view d c : same_view (call_port d c) d.
Proof. unfold call_port. by destruct (port_installed d). Qed.

Lemma call_ports_view cs d : same_view (foldl call_port d cs) d.
Proof.
  revert d. induction cs as [|c cs IH]; intros d; [done|].
  simpl. transitivity (call_port d c); [apply IH|apply call_port_view].
Qed.

Lemma erase_entries d id : entries (erase d id).2 = delete id (entries d).
Proof. unfold erase. simpl. by destruct (call_ports_view (OnUnregister ∘ fst <$>
  map_to_list (filter (fun p : string * ActorAddress => addr_id p.2 = id) (names d)))
  (set_maps d (delete id (entries d))
    (filter (fun p : string * ActorAddress => addr_id p.2 <> id) (names d)))) as [-> _]. Qed.

Lemma erase_names d id :
  names (erase d id).2 = filter (fun p : string * ActorAddress => addr_id p.2 <> id) (names d).
Proof. unfold erase. simpl. by destruct (call_ports_view (OnUnregister ∘ fst <$>
  map_to_list (filter (fun p : string * ActorAddress => addr_id p.2 = id) (names d)))
  (set_maps d (delete id (entries d))
    (filter (fun p : string * ActorAddress => addr_id p.2 <> id) (names d)))) as [_ ->]. Qed.

#[export] Instance erase_proper id : Proper (same_view ==> same_view) (fun d => (erase d id).2).
Proof.
  intros d d' [He Hn]. split; [by rewrite !erase_entries, He|by rewrite !erase_names, Hn].
Qed.

(** Entries are stored under their own id, whose address carries it. *)
Definition entry_ok (id : Z) (e : ActorDirectoryEntry) : Prop :=
  de_id e = id /\ addr_id (de_address e) = id.

Record dir_ok (d : ActorDirectory) : Prop := mkDirOk {
  do_entries : map_Forall entry_ok (entries d);
  do_names : forall n a, names d !! n = Some a ->
    exists e, entries d !! addr_id a = Some e /\ de_address e = a
}.

Lemma dir_ok_view d d' : same_view d d' -> dir_ok d -> dir_ok d'.
Proof. intros [He Hn] [H1 H2]. split; [by rewrite <- He|]. rewrite <- He, <- Hn. exact H2. Qed.

(** *** Batches of names *)

Lemma commit_name_other es ns item n :
  n <> item.1 -> commit_name es ns item !! n = ns !! n.
Proof.
  intros Hne. unfold commit_name, emplace. repeat case_match; try done.
  by rewrite lookup_insert_ne.
Qed.

(** The binding a batch gives to a name: the one it had, or the address of the
    first item with the name. *)
Lemma commit_names_lookup es batch ns n :
  Forall (fun item => is_Some (es !! item.2)) batch ->
  foldl (commit_name es) ns batch !! n =
    match ns !! n with
    | Some a => Some a
    | None => p ← list_find (fun item => item.1 = n) batch; de_address <$> (es !! p.2.2)
    end.
Proof.
  intros Hb. revert ns. induction Hb as [|item batch [e He] _ IH]; intros ns; simpl.
  { by destruct (ns !! n). }
  rewrite IH. destruct (decide (item.1 = n)) as [<-|Hne]; simpl.
  - unfold commit_name, emplace. rewrite He. destruct (ns !! item.1) as [a|] eqn:En.
    + by rewrite En.
    + rewrite lookup_insert_eq. simpl. done.
  - rewrite commit_name_other by done. destruct (ns !! n); [done|].
    by destruct (list_find _ batch) as [[i x]|].
Qed.

Lemma name_admissible_true d item :
  name_admissible d item = true <-> names d !! item.1 = None /\ is_Some (entries d !! item.2).
Proof.
  unfold name_admissible. by rewrite andb_true_iff, !bool_decide_eq_true.
Qed.

Lemma forallb_admissible d batch :
  forallb (name_admissible d) batch = true <->
  Forall (fun item => names d !! item.1 = None /\ is_Some (entries d !! item.2)) batch.
Proof.
  rewrite forallb_forall, Forall_forall. setoid_rewrite name_admissible_true.
  setoid_rewrite list_elem_of_In. done.
Qed.

Lemma names_batch_lookup d batch :
  let r := register_names_atomically d batch in
  r.1 = true ->
  entries r.2 = entries d /\ forall n, resolve_name r.2 n =
    match list_find (fun item => item.1 = n) batch with
    | Some (_, (_, id)) => de_address <$> (entries d !! id)
    | None => resolve_name d n
    end.
Proof.
  unfold register_names_atomically. pose proof (forallb_admissible d batch) as Hf.
  destruct (forallb _ batch); simpl; [|done]. intros _. split; [done|].
  intros n. unfold resolve_name. simpl.
  apply proj1 in Hf. specialize (Hf eq_refl). rewrite commit_names_lookup.
  - destruct (list_find _ batch) as [[i [m id]]|] eqn:E; simpl.
    + apply list_find_Some in E as (Hi & Hm & _). simpl in Hm. subst m.
      rewrite Forall_lookup in Hf. destruct (Hf _ _ Hi) as [Hn _]. simpl in Hn. by rewrite Hn.
    + by destruct (names d !! n).
  - eapply Forall_impl; [exact Hf|]. by intros item [_ ?].
Qed.

(** Batch registration is all or nothing.  It succeeds exactly when every name
    is free and every actor is present; it changes nothing otherwise.  On
    success each name of the batch resolves to the first actor listed with it,
    and every other name as before; the name-registration port is not told. *)
Theorem names_registered_atomically d batch :
  let r := register_names_atomically d batch in
  (r.1 = true <-> Forall (fun item => names d !! item.1 = None /\ is_Some (entries d !! item.2)) batch) /\
  (r.1 = false -> r.2 = d) /\
  (r.1 = true ->
     entries r.2 = entries d /\ port_calls r.2 = port_calls d /\
     forall n, resolve_name r.2 n =
       match list_find (fun item => item.1 = n) batch with
       | Some (_, (_, id)) => de_address <$> (entries d !! id)
       | None => resolve_name d n
       end).
Proof.
  pose proof (names_batch_lookup d batch) as Hl. unfold register_names_atomically in *.
  pose proof (forallb_admissible d batch) as Hf.
  destruct (forallb _ batch); simpl in *; (split; [by rewrite <- Hf|]); (split; [done|]); [|done].
  intros _. split; [done|]. split; [done|]. by apply Hl.
Qed.

Lemma names_registered_atomically_witness :
  let e := mkEntry 5 (mkAddress "n"%string 1 5 0) VariableMpsc true false in
  let d := (publish directory_init e None).2 in
  resolve_name (register_names_atomically d [("a"%string, 5); ("b"%string, 5)]).2 "b"%string =
    Some (de_address e).
Proof.
  intros e d.
  rewrite (proj2 (proj2 (proj2 (proj2 (names_registered_atomically d
    [("a"%string, 5); ("b"%string, 5)])) ltac:(vm_compute; reflexivity)))).
  reflexivity.
Defined.

(** *** Names never dangle *)

Inductive DirOp :=
| DPublish (e : ActorDirectoryEntry) (name : option string)
| DBatch (batch : list (string * Z))
| DUnregister (n : string)
| DErase (id : Z)
| DAllocate.

Definition dir_op (d : ActorDirectory) (o : DirOp) : ActorDirectory :=
  match o with
  | DPublish e name => (publish d e name).2
  | DBatch batch => (register_names_atomically d batch).2
  | DUnregister n => (unregister_name d n).2
  | DErase id => (erase d id).2
  | DAllocate => (allocate_id d).2
  end.

(** An actor published by the spawner: [set_address] writes the id into the
    address. *)
Definition op_addressed (o : DirOp) : Prop :=
  match o with DPublish e _ => addr_id (de_address e) = de_id e | _ => True end.

Lemma publish_entries_ok d e name :
  dir_ok d -> addr_id (de_address e) = de_id e -> dir_ok (publish d e name).2.
Proof.
  intros [He Hn] Ha. unfold publish.
  case_bool_decide as Hid; [done|]. rewrite <- eq_None_not_Some in Hid.
  assert (Hnew : forall ns, (forall n a, ns !! n = Some a -> names d !! n = Some a \/ a = de_address e) ->
    dir_ok (set_maps d (<[de_id e := e]> (entries d)) ns)).
  { intros ns Hns. split; simpl.
    - apply map_Forall_insert_2; [|done]. split; [done|by rewrite Ha].
    - intros n a Ea. destruct (Hns n a Ea) as [Ho | ->].
      + destruct (Hn n a Ho) as (e' & He' & Haddr). exists e'. split; [|done].
        rewrite lookup_insert_ne; [done|]. intros Heq. rewrite Heq in Hid. congruence.
      + exists e. rewrite Ha, lookup_insert_eq. done. }
  destruct name as [n|]; [case_bool_decide; [done|]|]; simpl.
  - eapply dir_ok_view; [symmetry; apply call_port_view|]. apply Hnew.
    intros m a. destruct (decide (n = m)) as [->|Hne].
    + rewrite lookup_insert_eq. intros [= <-]. by right.
    + rewrite lookup_insert_ne by done. by left.
  - apply Hnew. by left.
Qed.

Lemma erase_ok d id : dir_ok d -> dir_ok (erase d id).2.
Proof.
  intros [He Hn]. split.
  - rewrite erase_entries. by apply map_Forall_delete.
  - intros n a. rewrite erase_names, map_lookup_filter_Some. intros [Ha Hne]. simpl in Hne.
    destruct (Hn n a Ha) as (e & Hl & Hd). exists e. split; [|done].
    rewrite erase_entries, lookup_delete_ne; [done|]. congruence.
Qed.

Lemma dir_op_ok d o : dir_ok d -> op_addressed o -> dir_ok (dir_op d o).
Proof.
  intros Hd Ho. destruct o as [e name|batch|n|id|]; simpl in *.
  - by apply publish_entries_ok.
  - unfold register_names_atomically. destruct (forallb _ batch) eqn:Ef; [|done]. simpl.
    apply forallb_admissible in Ef. destruct Hd as [He Hn]. split; simpl; [done|].
    intros n a. rewrite commit_names_lookup
      by (eapply Forall_impl; [exact Ef|]; by intros ? [_ ?]).
    destruct (names d !! n) as [a'|] eqn:En; [intros [= <-]; eauto|].
    intros (p & _ & Hp)%bind_Some. apply fmap_Some in Hp as (e & Hl & ->).
    destruct (He _ _ Hl) as [_ Hid]. exists e. by rewrite Hid.
  - destruct Hd as [He Hn]. split; simpl; [done|]. intros m a.
    destruct (decide (n = m)) as [->|Hne]; [by rewrite lookup_delete_eq|].
    rewrite lookup_delete_ne by done. apply Hn.
  - by apply erase_ok.
  - by eapply dir_ok_view; [|exact Hd].
Qed.

(** Names never dangle.  Through every history of publications, batch
    registrations, removals and erasures, a name that resolves at all resolves
    to the address of an actor present in the directory. *)
Theorem names_never_dangle os n a :
  Forall op_addressed os ->
  let d := foldl dir_op directory_init os in
  resolve_name d n = Some a -> exists e, resolve_actor d n = Some e /\ de_address e = a.
Proof.
  intros Hos d Hn.
  assert (Hd : dir_ok d).
  { unfold d. clear Hn. induction os as [|o os IH] using rev_ind.
    - split; [apply map_Forall_empty|]. intros ? ? H. simpl in H. by rewrite lookup_empty in H.
    - apply Forall_app in Hos as [Hos Ho]. rewrite foldl_app. simpl.
      apply dir_op_ok; [by apply IH|]. by rewrite Forall_singleton in Ho. }
  unfold resolve_actor. rewrite Hn. simpl. apply (do_names d Hd n a Hn).
Qed.

Lemma names_never_dangle_witness :
  let a := mkAddress "n"%string 1 5 0 in
  exists e, resolve_actor
    (foldl dir_op directory_init [DPublish (mkEntry 5 a VariableMpsc true false) (Some "svc"%string)])
    "svc"%string = Some e /\ de_address e = a.
Proof.
  intros a. apply (names_never_dangle
    [DPublish (mkEntry 5 a VariableMpsc true false) (Some "svc"%string)]);
    [by apply Forall_singleton|reflexivity].
Defined.

(** A name registered for an actor of another node goes away when a local
    actor with the same numeric id is erased: [erase] compares ids alone. *)
Theorem erase_drops_foreign_name :
  let local := mkAddress "here"%string 1 5 0 in
  let remote := mkAddress "there"%string 1 5 0 in
  let d := (publish directory_init (mkEntry 5 local VariableMpsc true false) None).2 in
  let d := (register_name d "peer"%string remote).2 in
  resolve_name d "peer"%string = Some remote /\
  resolve_name (erase d 5).2 "peer"%string = None.
Proof. done. Qed.
