(* ===== verification/Spawner.v ===== *)
(** * The actor spawner

    [runtime/actor_spawner.cpp]: [adopt] and [adopt_unpublished] give an actor
    an id, an address, a context and a mailbox, publish it and register it with
    the scheduler.  The virtual methods of the actor that the spawner queries
    are fields of the model; logging and metrics are left out. *)

From S2P Require Import Prelude Lifecycle Directory.
From stdpp Require Import base numbers list gmap strings.

#[local] Open Scope Z_scope.

Definition kFirstReservedId : Z := 4294901760.   (* 0xFFFF0000 *)
Definition kLastReservedId : Z := 4294967295.    (* 0xFFFFFFFF *)
Definition is_reserved_id (id : Z) : bool := (kFirstReservedId <=? id) && (id <=? kLastReservedId).

Inductive DispatchPolicy := Cooperative | DedicatedThread | DedicatedPool.

Record SpawnSpec := mkSpec {
  reserved_id : option Z;
  actor_type_override : option Z;
  spec_type_name : string;
  prefers_disruptor : bool;          (* mailbox.default_backend == Disruptor *)
  spec_quarantine : option Z;
  registered_name : option string;
  dispatch_policy : DispatchPolicy
}.

(** The actor object: answers of its virtual methods, and what spawning sets. *)
Record NewActor := mkActor {
  is_system_actor : bool;
  actor_type : Z;
  can_bind_context : bool;
  mailbox_kind : MailboxKind;
  disruptor_valid : bool;            (* create_disruptor_mailbox().valid() *)
  is_event_based : bool;
  address : option ActorAddress;
  type_name : string;
  has_context : bool;
  has_scheduler : bool;
  has_mailbox : bool;
  quarantine : option Z;
  activated : bool;
  lifecycle : option LifecycleActor
}.

Definition with_address (a : NewActor) (addr : ActorAddress) (tn : string) : NewActor :=
  mkActor (is_system_actor a) (addr_type addr) (can_bind_context a) (mailbox_kind a)
    (disruptor_valid a) (is_event_based a) (Some addr) tn (has_context a) (has_scheduler a)
    (has_mailbox a) (quarantine a) (activated a) (lifecycle a).
Definition with_context (a : NewActor) : NewActor :=
  mkActor (is_system_actor a) (actor_type a) (can_bind_context a) (mailbox_kind a)
    (disruptor_valid a) (is_event_based a) (address a) (type_name a) true true
    (has_mailbox a) (quarantine a) (activated a) (lifecycle a).
Definition with_mailbox (a : NewActor) (b : bool) : NewActor :=
  mkActor (is_system_actor a) (actor_type a) (can_bind_context a) (mailbox_kind a)
    (disruptor_valid a) (is_event_based a) (address a) (type_name a) (has_context a)
    (has_scheduler a) (b || has_mailbox a) (quarantine a) (activated a) (lifecycle a).
Definition with_quarantine (a : NewActor) (q : option Z) : NewActor :=
  mkActor (is_system_actor a) (actor_type a) (can_bind_context a) (mailbox_kind a)
    (disruptor_valid a) (is_event_based a) (address a) (type_name a) (has_context a)
    (has_scheduler a) (has_mailbox a)
    (match q with Some _ => if is_event_based a then q else quarantine a | None => quarantine a end)
    (activated a) (lifecycle a).
(** [activate_after_spawn] and the transition to [Active]. *)
Definition with_activation (a : NewActor) (now : Z) : NewActor :=
  mkActor (is_system_actor a) (actor_type a) (can_bind_context a) (mailbox_kind a)
    (disruptor_valid a) (is_event_based a) (address a) (type_name a) (has_context a)
    (has_scheduler a) (has_mailbox a) (quarantine a) true
    ((fun l => (transition l kActive now).2) <$> lifecycle a).

Record World := mkWorld {
  w_dir : ActorDirectory;
  w_dispatch : list (Z * DispatchPolicy)   (* registrations with the scheduler *)
}.

Inductive SpawnError :=
| NullActor | ReservedNeedsSystem | ReservedOutsideRange | CannotBind | BadFixedBinding
| ErrDuplicateName | ErrDuplicateId.

(** The guard around automatic allocation; [fuel] counts retries. *)
Fixpoint allocate_unreserved (fuel : nat) (d : ActorDirectory) : option (Z * ActorDirectory) :=
  let '(id, d) := allocate_id d in
  if is_reserved_id id
  then match fuel with O => None | S fuel => allocate_unreserved fuel d end
  else Some (id, d).

(** More retries than there are reserved ids. *)
Definition kAllocFuel : nat := Z.to_nat 65536.

(** Validation and the choice of the id; [None] is the retry loop not ending. *)
Definition choose_id (d : ActorDirectory) (a : NewActor) (spec : SpawnSpec)
  : option ((SpawnError + Z) * ActorDirectory) :=
  match reserved_id spec with
  | Some rid =>
      Some (if negb (is_system_actor a) then inl ReservedNeedsSystem
            else if negb (is_reserved_id rid) then inl ReservedOutsideRange
            else inr rid, d)
  | None =>
      match allocate_unreserved kAllocFuel d with
      | Some (id, d) => Some (inr id, d)
      | None => None
      end
  end.

(** The backend: the actor's own, upgraded by the configuration when the
    actor has a valid binding.  [None]: a fixed mailbox without one. *)
Definition choose_backend (a : NewActor) (spec : SpawnSpec) : option MailboxKind :=
  let kind :=
    match mailbox_kind a with
    | VariableMpsc => if prefers_disruptor spec && disruptor_valid a then Disruptor else VariableMpsc
    | Disruptor => Disruptor
    end in
  match kind with
  | Disruptor => if disruptor_valid a then Some Disruptor else None
  | VariableMpsc => Some VariableMpsc
  end.

Definition is_mpsc (k : MailboxKind) : bool := match k with VariableMpsc => true | _ => false end.

(** From the address to the quarantine configuration: the actor as it is left,
    and the directory entry. *)
Definition equip (endpoint : string) (a : NewActor) (spec : SpawnSpec) (id : Z)
  : (SpawnError + ActorDirectoryEntry) * NewActor :=
  let ty := default (actor_type a) (actor_type_override spec) in
  let addr := mkAddress endpoint ty id 0 in
  let a := with_address a addr (spec_type_name spec) in
  if negb (can_bind_context a) then (inl CannotBind, a)
  else
    let a := with_context a in
    match choose_backend a spec with
    | None => (inl BadFixedBinding, a)
    | Some kind =>
        let a := with_quarantine (with_mailbox a (is_mpsc kind)) (spec_quarantine spec) in
        (inr (mkEntry id addr kind (is_mpsc kind) (negb (is_mpsc kind))), a)
    end.

(** Publish under a name, activate and register dispatch; shared by both
    entry points, which differ in the name they publish and in what they
    return. *)
Definition adopt_as (name : option string) (endpoint : string) (w : World) (actor : option NewActor)
    (spec : SpawnSpec) (now : Z) : option ((SpawnError + Z) * World * option NewActor) :=
  match actor with
  | None => Some (inl NullActor, w, None)
  | Some a =>
      match choose_id (w_dir w) a spec with
      | None => None
      | Some (inl err, d) => Some (inl err, mkWorld d (w_dispatch w), Some a)
      | Some (inr id, d) =>
          match equip endpoint a spec id with
          | (inl err, a) => Some (inl err, mkWorld d (w_dispatch w), Some a)
          | (inr e, a) =>
              match publish d e name with
              | (Published, d) =>
                  Some (inr id, mkWorld d (w_dispatch w ++ [(id, dispatch_policy spec)]),
                        Some (with_activation a now))
              | (DuplicateName, d) => Some (inl ErrDuplicateName, mkWorld d (w_dispatch w), Some a)
              | (DuplicateActorId, d) => Some (inl ErrDuplicateId, mkWorld d (w_dispatch w), Some a)
              end
          end
      end
  end.

(** [ActorSpawner::adopt]. *)
Definition adopt (endpoint : string) (w : World) (actor : option NewActor) (spec : SpawnSpec) (now : Z)
  : option ((SpawnError + Z) * World * option NewActor) :=
  adopt_as (registered_name spec) endpoint w actor spec now.

(** [ActorSpawner::adopt_unpublished]: no name, and a lease. *)
Definition adopt_unpublished (endpoint : string) (w : World) (actor : option NewActor)
    (spec : SpawnSpec) (now : Z) : option ((SpawnError + ActorSpawnLease) * World * option NewActor) :=
  match adopt_as None endpoint w actor spec now with
  | Some (inr id, w, a) => Some (inr (mkLease id id true false), w, a)
  | Some (inl err, w, a) => Some (inl err, w, a)
  | None => None
  end.

Definition rollback_publication (w : World) (id : Z) : World :=
  mkWorld (erase (w_dir w) id).2 (w_dispatch w).

(** ** Ids *)

Definition with_next (d : ActorDirectory) (n : Z) : ActorDirectory :=
  mkDirectory n (entries d) (names d) (port_installed d) (port_calls d).

Definition next_unreserved (n : Z) : Z := if is_reserved_id n then 4294967296 else n.

Lemma is_reserved_spec id : is_reserved_id id = true <-> 4294901760 <= id <= 4294967295.
Proof.
  unfold is_reserved_id, kFirstReservedId, kLastReservedId.
  rewrite andb_true_iff, !Z.leb_le. lia.
Qed.
Lemma not_reserved_spec id : is_reserved_id id = false <-> id < 4294901760 \/ 4294967295 < id.
Proof.
  unfold is_reserved_id, kFirstReservedId, kLastReservedId.
  rewrite andb_false_iff, !Z.leb_gt. lia.
Qed.

(** The retry loop ends, on the first id outside the reserved range. *)
Lemma allocate_unreserved_ends fuel d :
  4294967295 - next_actor_id d < Z.of_nat fuel ->
  allocate_unreserved fuel d =
    Some (next_unreserved (next_actor_id d),
          with_next d (u64 (next_unreserved (next_actor_id d) + 1))).
Proof.
  revert d. induction fuel as [|fuel IH]; intros d Hf; cbn [allocate_unreserved allocate_id];
    unfold next_unreserved; destruct (is_reserved_id (next_actor_id d)) eqn:E; try done.
  - apply is_reserved_spec in E. lia.
  - apply is_reserved_spec in E. rewrite IH; simpl; rewrite (u64_small (next_actor_id d + 1)) by lia;
      [|lia]. unfold next_unreserved. destruct (is_reserved_id (next_actor_id d + 1)) eqn:E'; [done|].
    apply not_reserved_spec in E'. by replace (next_actor_id d + 1) with 4294967296 by lia.
Qed.

Lemma allocate_unreserved_outside fuel d :
  is_reserved_id (next_actor_id d) = false ->
  allocate_unreserved fuel d =
    Some (next_unreserved (next_actor_id d),
          with_next d (u64 (next_unreserved (next_actor_id d) + 1))).
Proof. intros E. unfold next_unreserved. destruct fuel; simpl; by rewrite E. Qed.

Lemma allocate_unreserved_total d :
  allocate_unreserved kAllocFuel d =
    Some (next_unreserved (next_actor_id d),
          with_next d (u64 (next_unreserved (next_actor_id d) + 1))).
Proof.
  destruct (is_reserved_id (next_actor_id d)) eqn:E; [|by apply allocate_unreserved_outside].
  apply allocate_unreserved_ends. unfold kAllocFuel. rewrite Z2Nat.id by lia.
  apply is_reserved_spec in E. lia.
Qed.

(** Automatic ids stay above every id in use. *)
Record ids_ok (d : ActorDirectory) : Prop := mkIdsOk {
  io_next : 0 < next_actor_id d <= 18446744073709551614;
  io_used : forall id e, entries d !! id = Some e ->
    is_reserved_id id = true \/ 0 < id < next_actor_id d
}.

Lemma next_unreserved_spec n :
  0 < n <= 18446744073709551614 ->
  n <= next_unreserved n <= Z.max n 4294967296 /\ is_reserved_id (next_unreserved n) = false.
Proof.
  intros Hn. unfold next_unreserved. destruct (is_reserved_id n) eqn:E.
  - apply is_reserved_spec in E. split; [lia|]. apply not_reserved_spec. lia.
  - split; [lia|done].
Qed.

(** What [equip] gives the directory. *)
Lemma equip_entry ep a spec id e a' :
  equip ep a spec id = (inr e, a') ->
  de_id e = id /\ addr_id (de_address e) = id /\ addr_endpoint (de_address e) = ep /\
  address a' = Some (de_address e).
Proof.
  unfold equip. destruct (negb _); [done|]. destruct (choose_backend _ _); [|done].
  by intros [= <- <-].
Qed.

Definition backend_ok (a : NewActor) (spec : SpawnSpec) : bool :=
  match mailbox_kind a with
  | VariableMpsc => true
  | Disruptor => disruptor_valid a
  end.

Lemma equip_succeeds ep a spec id :
  can_bind_context a = true -> backend_ok a spec = true -> exists e a', equip ep a spec id = (inr e, a').
Proof.
  intros Hb Hk. unfold equip. simpl. rewrite Hb. simpl.
  unfold choose_backend, backend_ok in *. simpl.
  destruct (mailbox_kind a); [destruct (prefers_disruptor spec), (disruptor_valid a)|rewrite Hk];
    simpl; eauto.
Qed.

(** [publish] on its branches. *)
Lemma publish_cases d e name :
  match publish d e name with
  | (Published, d') =>
      entries d !! de_id e = None /\ next_actor_id d' = next_actor_id d /\
      entries d' = <[de_id e := e]> (entries d) /\
      match name with
      | Some n => names d !! n = None /\ names d' = <[n := de_address e]> (names d)
      | None => names d' = names d
      end
  | (DuplicateActorId, d') => is_Some (entries d !! de_id e) /\ d' = d
  | (DuplicateName, d') => (exists n, name = Some n /\ is_Some (names d !! n)) /\ d' = d
  end.
Proof.
  unfold publish. case_bool_decide as Hid; [done|]. rewrite <- eq_None_not_Some in Hid.
  destruct name as [n|]; [case_bool_decide as Hn; [eauto|]|done].
  rewrite <- eq_None_not_Some in Hn. unfold call_port. by destruct (port_installed _).
Qed.

(** What a spawn under [name] did to the world. *)
Definition spawned (name : option string) (ep : string) (spec : SpawnSpec) (w w' : World)
    (id : Z) (a' : option NewActor) : Prop :=
  entries (w_dir w) !! id = None /\ id <> 0 /\
  (reserved_id spec = None -> is_reserved_id id = false) /\
  (exists e, entries (w_dir w') = <[id := e]> (entries (w_dir w)) /\ entry_ok id e /\
     (exists a, a' = Some a /\ activated a = true /\ address a = Some (de_address e)) /\
     names (w_dir w') = match name with
                        | Some n => <[n := de_address e]> (names (w_dir w))
                        | None => names (w_dir w)
                        end) /\
  match name with Some n => names (w_dir w) !! n = None | None => True end /\
  w_dispatch w' = w_dispatch w ++ [(id, dispatch_policy spec)].

(** A spawn that succeeds or is refused. *)
Lemma adopt_as_cases name ep w actor spec now :
  ids_ok (w_dir w) ->
  exists r w' a', adopt_as name ep w actor spec now = Some (r, w', a') /\
  match r with
  | inl _ => same_view (w_dir w) (w_dir w') /\ w_dispatch w' = w_dispatch w
  | inr id => spawned name ep spec w w' id a'
  end.
Proof.
  intros [Hn Hu]. unfold adopt_as. destruct actor as [a|]; [|eexists _, _, _; by split].
  assert (Hid : exists r d, choose_id (w_dir w) a spec = Some (r, d) /\
    entries d = entries (w_dir w) /\ names d = names (w_dir w) /\
    match r with inl _ => True
    | inr id => id <> 0 /\ (reserved_id spec = None -> is_reserved_id id = false) end).
  { unfold choose_id. destruct (reserved_id spec) as [rid|].
    - eexists _, _. split; [done|]. split; [done|]. split; [done|].
      destruct (negb (is_system_actor a)); [done|].
      destruct (is_reserved_id rid) eqn:E; simpl; [|done]. apply is_reserved_spec in E. split; [lia|done].
    - rewrite allocate_unreserved_total. eexists _, _. split; [done|]. split; [done|]. split; [done|].
      destruct (next_unreserved_spec (next_actor_id (w_dir w)) Hn) as [H1 H2]. split; [lia|done]. }
  destruct Hid as (r & d & -> & He & Hns & Hr).
  destruct r as [err|id]; [eexists _, _, _; (split; [done|]); by split|].
  destruct Hr as [Hz Hres]. destruct (equip ep a spec id) as [[err|e] a'] eqn:Eq.
  { eexists _, _, _; (split; [done|]); by split. }
  destruct (equip_entry _ _ _ _ _ _ Eq) as (Hde & Hda & _ & Haddr).
  pose proof (publish_cases d e name) as Hp. destruct (publish d e name) as [[] d'].
  - destruct Hp as (Hfree & _ & He' & Hn'). rewrite Hde, He in *. eexists _, _, _. split; [done|].
    split; [done|]. split; [done|]. split; [done|]. split; [|split; [|done]].
    + exists e. split; [done|]. split; [by split|]. split; [by exists (with_activation a' now)|].
      simpl. rewrite <- Hns. destruct name; [apply Hn'|exact Hn'].
    + destruct name; [|done]. rewrite <- Hns. apply Hn'.
  - destruct Hp as (_ & ->). eexists _, _, _; (split; [done|]); by split.
  - destruct Hp as (_ & ->). eexists _, _, _; (split; [done|]); by split.
Qed.

(** An actor that can bind, with a usable backend, an automatic id and a free
    name, is always adopted. *)
Lemma adopt_as_succeeds name ep w a spec now :
  ids_ok (w_dir w) -> reserved_id spec = None -> can_bind_context a = true ->
  backend_ok a spec = true ->
  match name with Some n => names (w_dir w) !! n = None | None => True end ->
  exists id w' a', adopt_as name ep w (Some a) spec now = Some (inr id, w', a').
Proof.
  intros [Hn Hu] Hr Hb Hk Hname. unfold adopt_as, choose_id. rewrite Hr, allocate_unreserved_total.
  set (id := next_unreserved _). destruct (equip_succeeds ep a spec id Hb Hk) as (e & a' & Heq).
  rewrite Heq. destruct (equip_entry _ _ _ _ _ _ Heq) as (Hde & _).
  pose proof (publish_cases (with_next (w_dir w) (u64 (id + 1))) e name) as Hp.
  destruct (publish _ e name) as [[] d'].
  - eauto.
  - destruct Hp as ([e' He'] & _). rewrite Hde in He'. simpl in He'.
    destruct (next_unreserved_spec _ Hn) as [H1 H2]. fold id in H1, H2.
    destruct (Hu _ _ He') as [H3|H3]; [congruence|lia].
  - destruct Hp as ((n & -> & [x Hx]) & _). simpl in Hx. congruence.
Qed.

(** Adoption.  It terminates; when it refuses, directory lookups and the
    scheduler are as before; when it succeeds, one fresh entry was added under
    a non-zero id which is outside the reserved range unless it was asked for,
    its name is bound, the actor is active under the published address and is
    registered with the scheduler; and an actor that binds, has a usable
    backend, an automatic id and a free name is not refused. *)
Theorem adopt_contract ep w a spec now :
  ids_ok (w_dir w) ->
  exists r w' a', adopt ep w (Some a) spec now = Some (r, w', a') /\
  match r with
  | inl _ => same_view (w_dir w) (w_dir w') /\ w_dispatch w' = w_dispatch w
  | inr id => spawned (registered_name spec) ep spec w w' id a'
  end /\
  (reserved_id spec = None -> can_bind_context a = true -> backend_ok a spec = true ->
   match registered_name spec with Some n => names (w_dir w) !! n = None | None => True end ->
   exists id, r = inr id).
Proof.
  intros Hw. destruct (adopt_as_cases (registered_name spec) ep w (Some a) spec now Hw)
    as (r & w' & a' & Heq & Hr).
  exists r, w', a'. split; [done|]. split; [done|]. intros H1 H2 H3 H4.
  destruct (adopt_as_succeeds _ ep w a spec now Hw H1 H2 H3 H4) as (id & ? & ? & Hs).
  exists id. congruence.
Qed.

Definition sample_actor : NewActor :=
  mkActor false 7 true VariableMpsc false true None EmptyString false false false None false
    (Some lifecycle_init).
Definition sample_spec : SpawnSpec :=
  mkSpec None None "worker"%string false None (Some "svc"%string) Cooperative.

Lemma adopt_contract_witness :
  exists id, option_map (fun x => x.1.1) (adopt "n"%string (mkWorld directory_init []) (Some sample_actor) sample_spec 0) =
    Some (inr id).
Proof.
  destruct (adopt_contract "n"%string (mkWorld directory_init []) sample_actor sample_spec 0)
    as (r & w' & a' & Heq & _ & Hs).
  { split; [simpl; lia|]. intros id e H. simpl in H. by rewrite lookup_empty in H. }
  destruct Hs as [id ->]; try done. exists id. by rewrite Heq.
Defined.
