(* ===== verification/Bootstrap.v ===== *)
(** * Topology bootstrap

    [runtime/topology_bootstrap_transaction.cpp]: spawn every configured actor
    through a provider port, register all names at once, commit the leases, or
    undo everything in reverse order.  The port is the interface
    [ConfiguredActorProviderPort]: [ProviderLaws] is what its documentation
    asks of an implementation, a valid lease above all, and the transaction is
    right against it.  The providers of the repository do not keep it: the
    built-in C++ port of [runtime/configured_cpp_provider.cpp] answers an empty
    lease, and what the transaction then does is [cpp_port_never_commits].  That
    the documented contract can be kept is shown by a port built from the spawner
    of [Spawner.v], which is not part of the program. *)

From S2P Require Import Prelude Lifecycle Directory Spawner.
From stdpp Require Import base numbers list gmap strings.

#[local] Open Scope Z_scope.

Record ActorDef := mkDef { def_id : string; def_behavior : string }.

Inductive ConfiguredActorProviderKind := BuiltinCpp | External.

Record ConfiguredActorPlan := mkPlan {
  topology_index : nat;
  provider : ConfiguredActorProviderKind;
  provider_token : Z;
  args_fingerprint : Z
}.

(** A port over the state [S] of the providers and the directory. *)
Record ConfiguredActorProviderPort (S : Type) := mkPort {
  matches_set : bool;                 (* matches != nullptr *)
  spawn_unpublished : S -> ActorDirectory -> ActorDef -> ConfiguredActorPlan ->
    option ActorSpawnLease * S * ActorDirectory;
  await_ready : S -> ActorDirectory -> Z -> ConfiguredActorPlan -> Z -> bool * S * ActorDirectory;
  rollback_actor : S -> ActorDirectory -> Z -> ConfiguredActorPlan -> bool * S * ActorDirectory
}.
Arguments mkPort {S}.
Arguments matches_set {S}.
Arguments spawn_unpublished {S}.
Arguments await_ready {S}.
Arguments rollback_actor {S}.

(** What a successful spawn did: one fresh actor, and a lease that owns it. *)
Definition fresh_spawn (l : ActorSpawnLease) (d d' : ActorDirectory) : Prop :=
  let id := lease_actor_id l in
  lease_handle_id l = id /\ id <> 0 /\ lease_directory l = true /\ lease_committed l = false /\
  entries d !! id = None /\
  (exists e, entries d' = <[id := e]> (entries d) /\ entry_ok id e) /\ names d' = names d.

(** The documented obligations of a port.  [ready_for k] says that the
    directory has room for [k] more actors. *)
Class ProviderLaws {S} (ready_for : nat -> ActorDirectory -> Prop)
    (p : ConfiguredActorProviderPort S) := {
  spawn_valid s d def pl l s' d' k :
    ready_for (Datatypes.S k) d -> spawn_unpublished p s d def pl = (Some l, s', d') ->
    fresh_spawn l d d' /\ ready_for k d';
  spawn_refused s d def pl s' d' :
    spawn_unpublished p s d def pl = (None, s', d') -> same_view d d';
  await_keeps s d id pl t b s' d' k :
    await_ready p s d id pl t = (b, s', d') -> same_view d d' /\ (ready_for k d -> ready_for k d');
  rollback_only s d id pl b s' d' :
    rollback_actor p s d id pl = (b, s', d') -> same_view (erase d' id).2 (erase d id).2
}.

(** ** The transaction *)

Record JournalEntry := mkJournal {
  je_lease : ActorSpawnLease;
  je_name : string;
  je_actor_id : Z;
  je_topology_index : nat;
  je_spawned : bool
}.

Definition kRollbackNameBit : Z := 1.
Definition kRollbackProviderBit : Z := 2.
Definition kRollbackLeaseBit : Z := 4.

Inductive BootstrapResult :=
| BootOk (fingerprint actor_count rollback_error_bits : Z)
| BootInvalid                 (* spec count != actor count *)
| BootFailed                  (* topology bootstrap failed *)
| BootUndefined.              (* an index outside the model is read *)

Section Transaction.
Context {S : Type} (cpp ext : ConfiguredActorProviderPort S).

Definition choose_provider (pl : ConfiguredActorPlan) : option (ConfiguredActorProviderPort S) :=
  match provider pl with
  | External => if matches_set ext then Some ext else None
  | BuiltinCpp => if matches_set cpp then Some cpp else None
  end.

(** How phase 2 ends. *)
Inductive Phase2 := AllSpawned | SomeFailed | OutOfModel.

(** Phase 2: one actor per plan; the journal grows at the back. *)
Fixpoint spawn_all (actors : list ActorDef) (timeout : Z) (specs : list ConfiguredActorPlan)
    (s : S) (d : ActorDirectory) (journal : list JournalEntry)
  : Phase2 * S * ActorDirectory * list JournalEntry :=
  match specs with
  | [] => (AllSpawned, s, d, journal)
  | spec :: specs =>
      match actors !! topology_index spec with
      | None => (OutOfModel, s, d, journal)
      | Some def =>
          match choose_provider spec with
          | None => (SomeFailed, s, d, journal)
          | Some p =>
              match spawn_unpublished p s d def spec with
              | (None, s, d) => (SomeFailed, s, d, journal)
              | (Some l, s, d) =>
                  let entry := mkJournal l (def_id def) (lease_handle_id l)
                                 (topology_index spec) true in
                  match await_ready p s d (je_actor_id entry) spec timeout with
                  | (false, s, d) => (SomeFailed, s, d, journal ++ [entry])
                  | (true, s, d) => spawn_all actors timeout specs s d (journal ++ [entry])
                  end
              end
          end
      end
  end.

(** Phase 3: the batch of names. *)
Definition name_batch (journal : list JournalEntry) : list (string * Z) :=
  (fun j => (je_name j, je_actor_id j)) <$>
    filter (fun j => je_name j <> EmptyString) journal.

Definition register_batch (d : ActorDirectory) (batch : list (string * Z)) : bool * ActorDirectory :=
  match batch with [] => (true, d) | _ => register_names_atomically d batch end.

(** Rollback of one journal entry: the provider of the first plan with its
    index, then the lease. *)
Definition rollback_one (specs : list ConfiguredActorPlan)
    (st : S * ActorDirectory * Z * list ActorSpawnLease) (j : JournalEntry)
  : S * ActorDirectory * Z * list ActorSpawnLease :=
  let '(s, d, bits, leases) := st in
  if negb (je_spawned j) then (s, d, bits, je_lease j :: leases)
  else
    let '(s, d, bits) :=
      match list_find (fun p => topology_index p = je_topology_index j) specs with
      | None => (s, d, bits)
      | Some (_, spec) =>
          match choose_provider spec with
          | None => (s, d, bits)
          | Some p =>
              let '(ok, s, d) := rollback_actor p s d (je_actor_id j) spec in
              (s, d, if ok : bool then bits else Z.lor bits kRollbackProviderBit)
          end
      end in
    let '(l, d) := lease_rollback (je_lease j) d in
    (s, d, bits, l :: leases).

(** The journal is destroyed on the way out. *)
Definition destroy_all (leases : list ActorSpawnLease) (d : ActorDirectory) : ActorDirectory :=
  foldl (fun d l => lease_destroy l d) d leases.

Definition rollback_all (specs : list ConfiguredActorPlan) (s : S) (d : ActorDirectory) (bits : Z)
    (journal : list JournalEntry) : BootstrapResult * S * ActorDirectory :=
  let '(s, d, _, leases) := foldl (rollback_one specs) (s, d, bits, []) (reverse journal) in
  (BootFailed, s, destroy_all leases d).

(** [TopologyBootstrapTransaction::execute]. *)
Definition execute (actors : list ActorDef) (specs : list ConfiguredActorPlan) (effective_fp timeout : Z)
    (s : S) (d : ActorDirectory) : BootstrapResult * S * ActorDirectory :=
  if negb (bool_decide (length specs = length actors)) then (BootInvalid, s, d)
  else
    let '(phase, s, d, journal) := spawn_all actors timeout specs s d [] in
    match phase with
    | OutOfModel => (BootUndefined, s, d)
    | SomeFailed => rollback_all specs s d 0 journal
    | AllSpawned =>
        let '(named, d) := register_batch d (name_batch journal) in
        if named : bool then
          (BootOk effective_fp (u32 (zlen specs)) 0, s,
           destroy_all ((lease_commit ∘ je_lease) <$> journal) d)
        else rollback_all specs s d kRollbackNameBit journal
    end.
End Transaction.

(** ** Undoing *)

(** [d] is [d0] after the spawns of a journal, newest first. *)
Inductive grown (d0 : ActorDirectory) : list JournalEntry -> ActorDirectory -> Prop :=
| grown_nil d : same_view d0 d -> grown d0 [] d
| grown_cons js d j d' :
    grown d0 js d -> je_spawned j = true -> je_actor_id j = lease_actor_id (je_lease j) ->
    fresh_spawn (je_lease j) d d' -> grown d0 (j :: js) d'.

Lemma fresh_spawn_view l d d1 d' : fresh_spawn l d d1 -> same_view d1 d' -> fresh_spawn l d d'.
Proof.
  intros (H1 & H2 & H3 & H4 & H5 & (e & He & Hok) & Hn) [Ve Vn].
  repeat split; try done; [|congruence]. exists e. split; [congruence|done].
Qed.

Lemma grown_view d0 js d d' : grown d0 js d -> same_view d d' -> grown d0 js d'.
Proof.
  intros Hg Hv. destruct Hg as [d Hd|js d j d1 Hg Hs Hi Hf].
  - constructor. by transitivity d.
  - econstructor; [exact Hg|done|done|by eapply fresh_spawn_view].
Qed.

Lemma grown_ok d0 js d : grown d0 js d -> dir_ok d0 -> dir_ok d /\ names d = names d0.
Proof.
  induction 1 as [d Hd|js d j d' Hg IH Hs Hi (_ & _ & _ & _ & Hfr & (e & He & Hok) & Hn)];
    intros H0.
  - split; [by eapply dir_ok_view|]. by destruct Hd as [_ ->].
  - destruct (IH H0) as [[H1 H2] H3]. split; [|congruence]. split.
    + rewrite He. by apply map_Forall_insert_2.
    + intros n a Hl. rewrite Hn in Hl. destruct (H2 n a Hl) as (e' & Hl' & Ha). exists e'.
      split; [|done]. rewrite He, lookup_insert_ne; [done|]. intros Heq. rewrite Heq in Hfr. congruence.
Qed.

(** Erasing a freshly spawned actor restores the view. *)
Lemma erase_fresh l d d' :
  dir_ok d -> fresh_spawn l d d' -> same_view (erase d' (lease_actor_id l)).2 d.
Proof.
  intros [_ Hn] (_ & _ & _ & _ & Hfr & (e & He & _) & Hns). split.
  - by rewrite erase_entries, He, delete_insert_id.
  - rewrite erase_names, Hns. apply map_filter_id. intros n a Hl Heq. simpl in Heq.
    destruct (Hn n a Hl) as (e' & He' & _). rewrite Heq in He'. congruence.
Qed.

Lemma lease_destroy_committed l d : lease_committed l = true -> lease_destroy l d = d.
Proof. intros H. unfold lease_destroy, lease_rollback. by rewrite H. Qed.

Lemma destroy_committed ls d : Forall (fun l => lease_committed l = true) ls -> destroy_all ls d = d.
Proof.
  intros H. revert d. induction H as [|l ls Hl _ IH]; intros d; [done|].
  unfold destroy_all in *. simpl. by rewrite lease_destroy_committed.
Qed.

Section Atomicity.
Context {S : Type} (cpp ext : ConfiguredActorProviderPort S) (ready_for : nat -> ActorDirectory -> Prop).
Context `{Lcpp : !ProviderLaws ready_for cpp} `{Lext : !ProviderLaws ready_for ext}.

Lemma choose_provider_laws pl p : choose_provider cpp ext pl = Some p -> ProviderLaws ready_for p.
Proof. unfold choose_provider. repeat case_match; intros [= <-]; done. Qed.

Lemma rollback_one_undoes specs s d bits ls j js d0 :
  dir_ok d0 -> grown d0 (j :: js) d ->
  exists s' d' bits' l',
    rollback_one cpp ext specs (s, d, bits, ls) j = (s', d', bits', l' :: ls) /\
    lease_committed l' = true /\ grown d0 js d'.
Proof.
  intros H0 Hg. inversion Hg as [|js' d1 j' d' Hg1 Hs Hi Hf]; subst js' j' d'.
  pose proof (proj1 (grown_ok _ _ _ Hg1 H0)) as Hok1.
  pose proof (erase_fresh _ _ _ Hok1 Hf) as Hrest.
  destruct Hf as (_ & Hz & Hdir & Hcom & _ & _ & _).
  assert (Hstep : exists s2 d2 bits2,
    (match list_find (fun p => topology_index p = je_topology_index j) specs with
      | None => (s, d, bits)
      | Some (_, spec) =>
          match choose_provider cpp ext spec with
          | None => (s, d, bits)
          | Some p =>
              let '(ok, s, d) := rollback_actor p s d (je_actor_id j) spec in
              (s, d, if ok : bool then bits else Z.lor bits kRollbackProviderBit)
          end
      end) = (s2, d2, bits2) /\
    same_view (erase d2 (je_actor_id j)).2 (erase d (je_actor_id j)).2).
  { destruct (list_find _ specs) as [[i spec]|]; [|by eexists _, _, _].
    destruct (choose_provider cpp ext spec) as [p|] eqn:Ep; [|by eexists _, _, _].
    destruct (rollback_actor p s d (je_actor_id j) spec) as [[ok s2] d2] eqn:Er.
    pose proof (choose_provider_laws _ _ Ep). eexists s2, d2, _. split; [done|].
    by eapply rollback_only. }
  destruct Hstep as (s2 & d2 & bits2 & Heq & Hv). unfold rollback_one. rewrite Hs. simpl negb.
  cbv iota. rewrite Heq. unfold lease_rollback, lease_empty. rewrite Hcom, Hdir.
  rewrite (proj2 (Z.eqb_neq _ _)) by done. simpl.
  eexists s2, _, bits2, (set_committed (je_lease j)). split; [done|]. split; [done|].
  eapply grown_view; [exact Hg1|]. rewrite Hi in Hv. symmetry. by etransitivity.
Qed.

Lemma rollback_all_undoes specs s d bits journal d0 :
  dir_ok d0 -> grown d0 (reverse journal) d ->
  exists s' d', rollback_all cpp ext specs s d bits journal = (BootFailed, s', d') /\ same_view d0 d'.
Proof.
  intros H0. unfold rollback_all.
  assert (Hfold : forall js s d bits ls, Forall (fun l => lease_committed l = true) ls ->
    grown d0 js d -> exists s' d' bits' ls',
      foldl (rollback_one cpp ext specs) (s, d, bits, ls) js = (s', d', bits', ls') /\
      Forall (fun l => lease_committed l = true) ls' /\ same_view d0 d').
  { clear -H0 Lcpp Lext. induction js as [|j js IH]; intros s d bits ls Hls Hg.
    - inversion Hg; subst. simpl. eauto 10.
    - destruct (rollback_one_undoes specs s d bits ls j js d0 H0 Hg) as (s1 & d1 & b1 & l1 & Heq & Hl & Hg1).
      cbn [foldl]. rewrite Heq. apply IH; [by constructor|done]. }
  intros Hg. destruct (Hfold _ s d bits [] ltac:(constructor) Hg) as (s' & d' & b' & ls' & -> & Hls & Hv).
  eexists _, _. split; [done|]. by rewrite destroy_committed.
Qed.

Lemma spawn_all_grows actors timeout specs s d journal d0 :
  Forall (fun pl => topology_index pl < length actors)%nat specs ->
  ready_for (length specs) d -> grown d0 (reverse journal) d ->
  exists phase s' d' new,
    spawn_all cpp ext actors timeout specs s d journal = (phase, s', d', journal ++ new) /\
    phase <> OutOfModel /\ grown d0 (reverse (journal ++ new)) d' /\
    (phase = AllSpawned ->
       Forall2 (fun pl j => exists def, actors !! topology_index pl = Some def /\ je_name j = def_id def)
         specs new).
Proof.
  intros Hix. revert s d journal. induction Hix as [|pl specs Hpl _ IH]; intros s d journal Hr Hg.
  { eexists _, _, _, []. rewrite app_nil_r. done. }
  simpl. destruct (lookup_lt_is_Some_2 _ _ Hpl) as [def Hdef]. rewrite Hdef.
  assert (Hfail : forall (s' : S) d', same_view d d' -> exists phase s'' d'' new,
    (SomeFailed, s', d', journal) = (phase, s'', d'', journal ++ new) /\ phase <> OutOfModel /\
    grown d0 (reverse (journal ++ new)) d'' /\ (phase = AllSpawned ->
      Forall2 (fun pl j => exists def, actors !! topology_index pl = Some def /\ je_name j = def_id def)
         (pl :: specs) new)).
  { intros s' d' Hv. eexists _, _, _, []. rewrite app_nil_r. split_and!; try done. by eapply grown_view. }
  destruct (choose_provider cpp ext pl) as [p|] eqn:Ep; [|by apply Hfail].
  pose proof (choose_provider_laws _ _ Ep) as Lp.
  destruct (spawn_unpublished p s d def pl) as [[[l|] s1] d1] eqn:Es;
    [|apply Hfail; by eapply spawn_refused].
  destruct (spawn_valid _ _ _ _ _ _ _ _ Hr Es) as [Hf Hr1]. simpl.
  set (entry := mkJournal l (def_id def) (lease_handle_id l) (topology_index pl) true).
  destruct (await_ready p s1 d1 (lease_handle_id l) pl timeout) as [[b s2] d2] eqn:Ea.
  destruct (await_keeps _ _ _ _ _ _ _ _ (length specs) Ea) as [Hv Hr2].
  assert (Hg2 : grown d0 (reverse (journal ++ [entry])) d2).
  { rewrite reverse_app. simpl. econstructor; [exact Hg|done|apply Hf|by eapply fresh_spawn_view]. }
  destruct b.
  - destruct (IH s2 d2 (journal ++ [entry]) (Hr2 Hr1) Hg2) as (ph & s3 & d3 & new & Heq & H1 & H2 & H3).
    exists ph, s3, d3, (entry :: new). rewrite Heq, <- app_assoc in *. split; [done|].
    split; [done|]. split; [done|]. intros Hall. constructor; [by exists def|auto].
  - eexists _, _, _, [entry]. split_and!; try done.
Qed.

(** The actors a grown directory has gained. *)
Definition gained (d0 d : ActorDirectory) (ids : list Z) : Prop :=
  NoDup ids /\ Forall (fun id => entries d0 !! id = None /\ is_Some (entries d !! id)) ids /\
  entries d0 ⊆ entries d /\ dom (entries d) = dom (entries d0) ∪ list_to_set ids.

Lemma grown_gained d0 js d : grown d0 js d -> gained d0 d (je_actor_id <$> js).
Proof.
  induction 1 as [d [He Hn]|js d j d' Hg (IH1 & IH2 & IH3 & IH4) Hs Hi (_ & _ & _ & _ & Hfr & (e & He & _) & _)].
  - split_and!; simpl; [by apply NoDup_nil|by apply Forall_nil|by rewrite He|rewrite He; set_solver].
  - rewrite <- Hi in *. unfold gained. rewrite fmap_cons. split_and!.
    + apply NoDup_cons. split; [|done]. intros Hin. rewrite Forall_forall in IH2.
      destruct (IH2 _ Hin) as [_ [x Hx]]. congruence.
    + constructor.
      * split; [by eapply lookup_weaken_None|]. rewrite He, lookup_insert_eq. eauto.
      * eapply Forall_impl; [exact IH2|]. intros id [H1 [x Hx]]. split; [done|].
        rewrite He. destruct (decide (je_actor_id j = id)) as [<-|Hne];
          [rewrite lookup_insert_eq|rewrite lookup_insert_ne by done]; eauto.
    + rewrite He. etransitivity; [exact IH3|]. by apply insert_subseteq.
    + rewrite He, dom_insert_L, IH4. set_solver.
Qed.

(** Bootstrap is a transaction.  Against any providers that keep the documented
    contract, which the built-in one does not, with plans inside the model and ids to spare, [execute] either
    succeeds or leaves every directory lookup as it was.  On success one fresh
    actor per plan was added, in order, and each named one resolves under its
    name; every other name is as before. *)
Theorem bootstrap_atomic actors specs fp timeout s d :
  dir_ok d -> ready_for (length specs) d ->
  Forall (fun pl => topology_index pl < length actors)%nat specs ->
  exists r s' d', execute cpp ext actors specs fp timeout s d = (r, s', d') /\
  match r with
  | BootOk fp' n _ => fp' = fp /\ n = u32 (zlen specs) /\
      exists journal, length journal = length specs /\
        Forall2 (fun pl j => exists def, actors !! topology_index pl = Some def /\ je_name j = def_id def)
          specs journal /\
        gained d d' (reverse (je_actor_id <$> journal)) /\
        (forall n, resolve_name d' n =
           match list_find (fun item => item.1 = n) (name_batch journal) with
           | Some (_, (_, id)) => de_address <$> (entries d' !! id)
           | None => resolve_name d n
           end)
  | BootInvalid => length specs <> length actors /\ same_view d d'
  | BootFailed => same_view d d'
  | BootUndefined => False
  end.
Proof.
  intros Hok Hr Hix. unfold execute. case_bool_decide as Hlen; simpl; [|by eexists _, _, _].
  destruct (spawn_all_grows actors timeout specs s d [] d Hix Hr) as (ph & s1 & d1 & js & -> & Hph & Hg & Hnm).
  { by constructor. }
  simpl in *. destruct ph; [|destruct (rollback_all_undoes specs s1 d1 0 js d Hok Hg) as (s2 & d2 & -> & Hv);
    by eexists _, _, _|done].
  destruct (register_batch d1 (name_batch js)) as [[] d2] eqn:Eb.
  2: { assert (d2 = d1) as ->.
       { unfold register_batch in Eb. destruct (name_batch js) as [|b bs]; [done|].
         unfold register_names_atomically in Eb. destruct (forallb _ _); congruence. }
       destruct (rollback_all_undoes specs s1 d1 kRollbackNameBit js d Hok Hg) as (s2 & d2 & -> & Hv).
       by eexists _, _, _. }
  eexists _, _, _. split; [done|]. split; [done|]. split; [done|]. exists js.
  assert (Hcom : forall d, destroy_all ((lease_commit ∘ je_lease) <$> js) d = d).
  { intros d3. apply destroy_committed. clear -Hg. remember (reverse js) as rs eqn:Ers.
    assert (Hall : Forall (fun j => lease_committed (lease_commit (je_lease j)) = true) rs).
    { clear Ers. induction Hg as [|rs d1 j d2 _ IH _ _ (_ & Hz & _ & Hc & _)]; constructor; [|done].
      unfold lease_commit, lease_empty. rewrite Hc, (proj2 (Z.eqb_neq _ _)) by done. done. }
    rewrite Forall_fmap. subst rs. by rewrite Forall_reverse in Hall. }
  rewrite Hcom. pose proof (Hnm eq_refl) as H2. split; [symmetry; by eapply Forall2_length|].
  split; [done|]. pose proof (grown_gained _ _ _ Hg) as Hgain. rewrite fmap_reverse in Hgain.
  pose proof (proj2 (grown_ok _ _ _ Hg Hok)) as Hns.
  assert (Hd2 : entries d2 = entries d1 /\ forall n, resolve_name d2 n =
    match list_find (fun item => item.1 = n) (name_batch js) with
    | Some (_, (_, id)) => de_address <$> (entries d1 !! id)
    | None => resolve_name d1 n end).
  { unfold register_batch in Eb. destruct (name_batch js) as [|b bs] eqn:En; [by injection Eb as <-|].
    pose proof (names_batch_lookup d1 (b :: bs)) as Hb. rewrite Eb in Hb. by apply Hb. }
  destruct Hd2 as [He2 Hn2]. split.
  - unfold gained in *. by rewrite He2.
  - intros n. rewrite Hn2, He2. destruct (list_find _ _) as [[? []]|]; [done|].
    unfold resolve_name. by rewrite Hns.
Qed.
End Atomicity.

(** ** The contract can be kept *)

(** Room for [k] more automatic ids below the end of the range. *)
Definition ids_budget (k : nat) (d : ActorDirectory) : Prop :=
  0 < next_actor_id d /\
  Z.max (next_actor_id d) 4294967296 + Z.of_nat k <= 18446744073709551614.

Section SpawnerPort.
Context (endpoint : string) (make : ActorDef -> option NewActor) (spec_of : ActorDef -> SpawnSpec)
  (starts : Z -> bool).

(** A provider that is not in the program, to show that the contract can be kept: it
    spawns through [adopt_unpublished] with automatic ids, answers readiness by [starts], and leaves the undoing to the lease. *)
Definition spawner_port : ConfiguredActorProviderPort (list (Z * DispatchPolicy)) :=
  mkPort true
    (fun s d def _ =>
       let spec := spec_of def in
       let spec := mkSpec None (actor_type_override spec) (spec_type_name spec)
                     (prefers_disruptor spec) (spec_quarantine spec) None (dispatch_policy spec) in
       match adopt_unpublished endpoint (mkWorld d s) (make def) spec 0 with
       | Some (inr l, w, _) => (Some l, w_dispatch w, w_dir w)
       | Some (inl _, w, _) => (None, w_dispatch w, w_dir w)
       | None => (None, s, d)
       end)
    (fun s d id _ _ => (starts id, s, d))
    (fun s d _ _ => (true, s, d)).

Lemma adopt_as_budget name ep w actor spec now r w' a' k :
  reserved_id spec = None -> ids_budget (S k) (w_dir w) ->
  adopt_as name ep w actor spec now = Some (r, w', a') ->
  ids_budget k (w_dir w').
Proof.
  intros Hr [Hn Hb] Heq. unfold adopt_as in Heq.
  destruct actor as [a|]; [|injection Heq as <- <- <-; split; simpl; lia].
  unfold choose_id in Heq. rewrite Hr, allocate_unreserved_total in Heq.
  assert (Hnext : ids_budget k (with_next (w_dir w)
    (u64 (next_unreserved (next_actor_id (w_dir w)) + 1)))).
  { destruct (next_unreserved_spec (next_actor_id (w_dir w)) ltac:(lia)) as [H1 H2].
    unfold ids_budget. simpl. rewrite u64_small by lia. lia. }
  destruct (equip _ _ _ _) as [[err|e] a1]; [by injection Heq as <- <- <-|].
  pose proof (publish_cases (with_next (w_dir w)
    (u64 (next_unreserved (next_actor_id (w_dir w)) + 1))) e name) as Hp.
  destruct (publish _ e name) as [[] d']; injection Heq as <- <- <-; simpl.
  - destruct Hp as (_ & Hnx & _). unfold ids_budget in *. by rewrite Hnx.
  - by destruct Hp as [_ ->].
  - by destruct Hp as [_ ->].
Qed.

(** The same without the assumption that ids in use lie below: [publish]
    itself refuses a duplicate. *)
Lemma adopt_as_fresh ep w actor spec now id w' a' :
  reserved_id spec = None -> 0 < next_actor_id (w_dir w) <= 18446744073709551614 ->
  adopt_as None ep w actor spec now = Some (inr id, w', a') ->
  fresh_spawn (mkLease id id true false) (w_dir w) (w_dir w').
Proof.
  intros Hr Hn Heq. unfold adopt_as in Heq. destruct actor as [a|]; [|done].
  unfold choose_id in Heq. rewrite Hr, allocate_unreserved_total in Heq.
  destruct (next_unreserved_spec (next_actor_id (w_dir w)) Hn) as [H1 H2].
  set (nid := next_unreserved _) in *. destruct (equip _ _ _ _) as [[err|e] a1] eqn:Eq; [done|].
  destruct (equip_entry _ _ _ _ _ _ Eq) as (Hde & Hda & _ & _).
  pose proof (publish_cases (with_next (w_dir w) (u64 (nid + 1))) e None) as Hp.
  destruct (publish _ e None) as [[] d']; [|done|done]; injection Heq as <- <- <-; simpl.
  destruct Hp as (Hfr & _ & He & Hns). rewrite Hde in *. simpl in *.
  unfold fresh_spawn; simpl. repeat split; try done; [lia|]. by exists e.
Qed.

Lemma adopt_as_refused ep w actor spec now err w' a' :
  reserved_id spec = None ->
  adopt_as None ep w actor spec now = Some (inl err, w', a') -> same_view (w_dir w) (w_dir w').
Proof.
  intros Hr Heq. unfold adopt_as in Heq.
  destruct actor as [a|]; [|by injection Heq as <- <- <-].
  unfold choose_id in Heq. rewrite Hr, allocate_unreserved_total in Heq.
  destruct (equip _ _ _ _) as [[err'|e] a1]; [by injection Heq as <- <- <-|].
  set (d1 := with_next _ _) in *. pose proof (publish_cases d1 e None) as Hp.
  destruct (publish d1 e None) as [[] d2]; [done| |]; injection Heq as <- <- <-;
    by destruct Hp as [_ ->].
Qed.

#[export] Instance spawner_port_laws : ProviderLaws ids_budget spawner_port.
Proof.
  split.
  - intros s d def pl l s' d' k [Hn Hb]. cbn [spawn_unpublished spawner_port]. unfold adopt_unpublished. cbv zeta.
    set (spec := mkSpec _ _ _ _ _ _ _).
    destruct (adopt_as None endpoint (mkWorld d s) (make def) spec 0) as [[[[err|id] w] a]|] eqn:E;
      intros [= <- <- <-].
    split; [|exact (adopt_as_budget None endpoint (mkWorld d s) (make def) spec 0 (inr id) w a k
                      eq_refl (conj Hn Hb) E)].
    apply (adopt_as_fresh endpoint (mkWorld d s) (make def) spec 0 id w a eq_refl ltac:(simpl; lia) E).
  - intros s d def pl s' d'. cbn [spawn_unpublished spawner_port]. unfold adopt_unpublished. cbv zeta. set (spec := mkSpec _ _ _ _ _ _ _).
    destruct (adopt_as None endpoint (mkWorld d s) (make def) spec 0) as [[[[err|id] w] a]|] eqn:E;
      intros [= <- <-]; [|done].
    exact (adopt_as_refused endpoint (mkWorld d s) (make def) spec 0 err w a eq_refl E).
  - intros s d id pl t b s' d' k [= <- <- <-]. by split.
  - by intros s d id pl b s' d' [= <- <- <-].
Qed.
End SpawnerPort.

(** *** Concrete runs *)

Definition demo_port (starts : Z -> bool) : ConfiguredActorProviderPort (list (Z * DispatchPolicy)) :=
  spawner_port "node"%string (fun _ => Some sample_actor) (fun _ => sample_spec) starts.
Definition demo_actors : list ActorDef := [mkDef "a"%string "x"%string; mkDef "b"%string "y"%string].
Definition demo_plans : list ConfiguredActorPlan := [mkPlan 0 External 0 0; mkPlan 1 External 0 0].

Lemma bootstrap_atomic_witness :
  exists r s' d', execute (demo_port (fun id => id <? 2)) (demo_port (fun id => id <? 2))
    demo_actors demo_plans 99 100 [] directory_init = (r, s', d') /\
  r = BootFailed /\ same_view directory_init d'.
Proof.
  destruct (bootstrap_atomic (demo_port (fun id => id <? 2)) (demo_port (fun id => id <? 2))
    ids_budget demo_actors demo_plans 99 100 [] directory_init) as (r & s' & d' & Heq & Hr).
  - split; [apply map_Forall_empty|]. intros n a H. simpl in H. by rewrite lookup_empty in H.
  - split; simpl; lia.
  - repeat constructor.
  - assert (r = BootFailed) as ->.
    { change r with ((r, s', d').1.1). rewrite <- Heq. vm_compute. reflexivity. }
    eauto 10.
Defined.

(** ** The built-in C++ port *)

Section CppPort.
Context (endpoint : string)
  (registry : string -> option (option NewActor)).   (* factories; a factory may return null *)

Record CppState := mkCpp {
  cs_dispatch : list (Z * DispatchPolicy);
  cs_drained : list Z;               (* drain configured to drop *)
  cs_failed : list Z                 (* transitioned to Failed *)
}.

(** The directory and scheduler part of [ActorSystem::spawn_configured]: the
    result of [insert] is not looked at. *)
Definition spawn_configured (s : CppState) (d : ActorDirectory) (a : NewActor) (def : ActorDef)
    (policy : DispatchPolicy) : Z * CppState * ActorDirectory :=
  let '(id, d) := allocate_id d in
  let addr := mkAddress endpoint (actor_type a) id 0 in
  let d := (dir_insert d (mkEntry id addr VariableMpsc true false)).2 in
  (id, mkCpp (cs_dispatch s ++ [(id, policy)]) (cs_drained s) (cs_failed s), d).

(** [cpp_spawn_unpublished]: the actor is published and the lease is empty. *)
Definition cpp_spawn_unpublished (s : CppState) (d : ActorDirectory) (def : ActorDef)
    (pl : ConfiguredActorPlan) : option ActorSpawnLease * CppState * ActorDirectory :=
  match registry (def_behavior def) with
  | None => (None, s, d)
  | Some None => (None, s, d)
  | Some (Some a) =>
      let '(_, s, d) := spawn_configured s d a def Cooperative in (Some empty_lease, s, d)
  end.

Definition cpp_await_ready (s : CppState) (d : ActorDirectory) (id : Z) (pl : ConfiguredActorPlan)
    (timeout : Z) : bool * CppState * ActorDirectory := (true, s, d).

(** [cpp_rollback_actor]: drain and fail the actor the id names, if any; the
    directory keeps it. *)
Definition cpp_rollback_actor (s : CppState) (d : ActorDirectory) (id : Z) (pl : ConfiguredActorPlan)
  : bool * CppState * ActorDirectory :=
  match dir_find d id with
  | None => (true, s, d)
  | Some _ => (true, mkCpp (cs_dispatch s) (cs_drained s ++ [id]) (cs_failed s ++ [id]), d)
  end.

Definition cpp_port : ConfiguredActorProviderPort CppState :=
  mkPort true cpp_spawn_unpublished cpp_await_ready cpp_rollback_actor.

(** A directory whose ids all lie below the next one. *)
Record plain_ids (k : nat) (d : ActorDirectory) : Prop := mkPlainIds {
  pi_next : 0 < next_actor_id d /\ next_actor_id d + Z.of_nat k <= 18446744073709551615;
  pi_used : forall id e, entries d !! id = Some e -> 0 < id < next_actor_id d
}.

Lemma cpp_spawn_adds s d def pl a k :
  registry (def_behavior def) = Some (Some a) -> plain_ids (S k) d ->
  exists s' d', cpp_spawn_unpublished s d def pl = (Some empty_lease, s', d') /\
    plain_ids k d' /\ size (entries d') = S (size (entries d)) /\
    cs_drained s' = cs_drained s /\ cs_failed s' = cs_failed s.
Proof.
  intros Hr [[Hn Hk] Hu]. unfold cpp_spawn_unpublished. rewrite Hr. unfold spawn_configured.
  cbn [allocate_id]. unfold dir_insert, publish. cbn [de_id entries].
  destruct (entries d !! next_actor_id d) as [e|] eqn:E; [apply Hu in E; lia|].
  rewrite bool_decide_eq_false_2 by (intros [? ?]; congruence).
  eexists _, _. split; [done|]. simpl. split; [|by rewrite map_size_insert_None].
  split; simpl; rewrite u64_small by lia; [lia|]. intros id e.
  destruct (decide (next_actor_id d = id)) as [<-|Hne].
  - intros _. lia.
  - rewrite lookup_insert_ne by done. intros H. apply Hu in H. lia.
Qed.

Definition cpp_entry (actors : list ActorDef) (pl : ConfiguredActorPlan) (j : JournalEntry) : Prop :=
  je_lease j = empty_lease /\ je_actor_id j = 0 /\
  exists def, actors !! topology_index pl = Some def /\ je_name j = def_id def.

Lemma cpp_spawn_all (ext : ConfiguredActorProviderPort CppState) actors timeout specs s d journal k :
  Forall (fun pl => provider pl = BuiltinCpp /\ exists def a, actors !! topology_index pl = Some def /\
            registry (def_behavior def) = Some (Some a)) specs ->
  plain_ids (length specs + k) d ->
  exists s' d' new, spawn_all cpp_port ext actors timeout specs s d journal =
    (AllSpawned, s', d', journal ++ new) /\ plain_ids k d' /\
    size (entries d') = (length specs + size (entries d))%nat /\
    Forall2 (cpp_entry actors) specs new /\
    cs_drained s' = cs_drained s /\ cs_failed s' = cs_failed s.
Proof.
  intros Hsp. revert s d journal. induction Hsp as [|pl specs (Hpl & def & a & Hdef & Hreg) _ IH];
    intros s d journal Hd.
  { eexists s, d, []. rewrite app_nil_r. done. }
  destruct (cpp_spawn_adds s d def pl a (length specs + k) Hreg Hd) as (s1 & d1 & Heq & Hp & Hsz & Hdr & Hfl).
  cbn [spawn_all]. rewrite Hdef. unfold choose_provider. rewrite Hpl. cbn [matches_set cpp_port].
  cbn [spawn_unpublished cpp_port]. rewrite Heq. cbn [await_ready cpp_port]. unfold cpp_await_ready.
  destruct (IH s1 d1 (journal ++ [mkJournal empty_lease (def_id def) 0 (topology_index pl) true]) Hp)
    as (s2 & d2 & new & Heq2 & Hp2 & Hsz2 & H2 & Hdr2 & Hfl2).
  eexists s2, d2, (_ :: new). split; [|split; [exact Hp2|split; [|split; [|split; congruence]]]].
  - rewrite <- app_assoc in Heq2. exact Heq2.
  - simpl. lia.
  - constructor; [|done]. split; [done|]. split; [done|]. by exists def.
Qed.

(** A rollback of empty leases leaves the directory as it is. *)
Lemma cpp_rollback_all ext specs actors0 new s d bits :
  entries d !! 0 = None -> Forall (fun pl => provider pl = BuiltinCpp) specs ->
  Forall2 (cpp_entry actors0) specs new ->
  rollback_all cpp_port ext specs s d bits new = (BootFailed, s, d).
Proof.
  intros H0 Hb H2. unfold rollback_all.
  assert (Hall : Forall (fun j => je_lease j = empty_lease /\ je_actor_id j = 0) (reverse new)).
  { rewrite Forall_reverse. clear Hb. induction H2 as [|pl j specs' new' (H1 & H3 & _) _ IH];
      constructor; done. }
  assert (Hfold : forall js bits ls,
    Forall (fun j => je_lease j = empty_lease /\ je_actor_id j = 0) js ->
    Forall (fun l => l = empty_lease) ls ->
    exists bits' ls', foldl (rollback_one cpp_port ext specs) (s, d, bits, ls) js = (s, d, bits', ls') /\
      Forall (fun l => l = empty_lease) ls').
  { clear -H0 Hb. induction js as [|j js IH]; intros bits ls Hjs Hls; [by eexists _, _|].
    inversion Hjs as [|? ? [Hl Hi] Hjs']; subst. cbn [foldl].
    assert (Hone : exists b', rollback_one cpp_port ext specs (s, d, bits, ls) j = (s, d, b', empty_lease :: ls)).
    { unfold rollback_one. destruct (negb (je_spawned j)); [rewrite Hl; by eexists|].
      destruct (list_find _ specs) as [[i pl]|] eqn:Ef.
      - apply list_find_Some in Ef as (Hi' & _). rewrite Forall_lookup in Hb.
        unfold choose_provider. rewrite (Hb _ _ Hi'). cbn [matches_set cpp_port rollback_actor].
        unfold cpp_rollback_actor, dir_find. rewrite Hi, H0, Hl. by eexists.
      - rewrite Hl. by eexists. }
    destruct Hone as [b' ->]. apply IH; [done|by constructor]. }
  destruct (Hfold (reverse new) bits [] Hall ltac:(constructor)) as (b' & ls' & -> & Hls).
  f_equal. clear -Hls. unfold destroy_all. induction Hls as [|l ls -> _ IH]; [done|]. simpl. exact IH.
Qed.

(** The built-in port cannot bootstrap.  A topology of C++ actors whose
    factories all succeed, with at least one named actor, always fails: the
    empty lease makes the transaction register the name for actor 0.  And
    nothing is undone: every spawned actor is still in the directory, and none
    was drained or failed. *)
Theorem cpp_port_never_commits ext actors specs fp timeout s d :
  length specs = length actors -> plain_ids (length specs) d ->
  Forall (fun pl => provider pl = BuiltinCpp /\ exists def a, actors !! topology_index pl = Some def /\
            registry (def_behavior def) = Some (Some a)) specs ->
  Exists (fun pl => exists def, actors !! topology_index pl = Some def /\ def_id def <> EmptyString) specs ->
  exists s' d', execute cpp_port ext actors specs fp timeout s d = (BootFailed, s', d') /\
    size (entries d') = (length specs + size (entries d))%nat /\
    cs_drained s' = cs_drained s /\ cs_failed s' = cs_failed s.
Proof.
  intros Hlen Hd Hsp Hex. unfold execute. rewrite bool_decide_eq_true_2 by done. simpl negb. cbv iota.
  rewrite <- (Nat.add_0_r (length specs)) in Hd.
  destruct (cpp_spawn_all ext actors timeout specs s d [] 0 Hsp Hd) as (s1 & d1 & new & Heq & Hp & Hsz & H2 & Hdr).
  rewrite Heq. simpl. assert (H0 : entries d1 !! 0 = None).
  { destruct (entries d1 !! 0) eqn:E; [|done]. apply (pi_used _ _ Hp) in E. lia. }
  assert (Hreg : register_batch d1 (name_batch new) = (false, d1)).
  { assert (Hj : exists j, j ∈ new /\ je_name j <> EmptyString /\ je_actor_id j = 0).
    { clear -H2 Hex. induction H2 as [|pl j specs new (Hl & Hi & def & Hdef & Hn) _ IH];
        [by apply Exists_nil in Hex|]. apply Exists_cons in Hex as [(def' & Hdef' & Hne)|Hex].
      - exists j. split; [apply list_elem_of_here|]. split; [congruence|done].
      - destruct (IH Hex) as (j' & Hin & ?). exists j'. split; [by apply list_elem_of_further|done]. }
    destruct Hj as (j & Hin & Hne & Hz).
    assert (Hb : (je_name j, 0) ∈ name_batch new).
    { unfold name_batch. apply list_elem_of_fmap. exists j. split; [by rewrite Hz|].
      by apply list_elem_of_filter. }
    unfold register_batch. destruct (name_batch new) as [|b bs] eqn:En; [by apply not_elem_of_nil in Hb|].
    unfold register_names_atomically. destruct (forallb _ (b :: bs)) eqn:Ef; [|done].
    apply forallb_admissible in Ef. rewrite Forall_forall in Ef.
    destruct (Ef _ Hb) as [_ [x Hx]]. simpl in Hx. congruence. }
  rewrite Hreg. eexists s1, d1. split; [|by split].
  eapply cpp_rollback_all; [done| |exact H2]. eapply Forall_impl; [exact Hsp|]. by intros ? [? _].
Qed.
End CppPort.

Lemma cpp_port_never_commits_witness :
  let registry := fun _ : string => Some (Some sample_actor) in
  let port := cpp_port "node"%string registry in
  exists s' d', execute port port demo_actors [mkPlan 0 BuiltinCpp 0 0; mkPlan 1 BuiltinCpp 0 0] 99 100
    (mkCpp [] [] []) directory_init = (BootFailed, s', d') /\ size (entries d') = 2%nat /\
    cs_drained s' = [] /\ cs_failed s' = [].
Proof.
  intros registry port.
  apply (cpp_port_never_commits "node"%string registry port demo_actors
    [mkPlan 0 BuiltinCpp 0 0; mkPlan 1 BuiltinCpp 0 0] 99 100 (mkCpp [] [] []) directory_init).
  - done.
  - split; [simpl; lia|]. intros id e H. simpl in H. by rewrite lookup_empty in H.
  - repeat constructor; [by eexists _, _|by eexists _, _].
  - constructor. by eexists.
Defined.
