(* ===== verification/Coordinator.v ===== *)
(** * The runtime coordinator

    [runtime/runtime_coordinator.cpp]: startup stages run in order, completed
    ones rolled back in reverse on failure, and the stop sequence.  A stage's
    actions are function pointers over a context: they are arguments of the
    model, functions of a world [W].  The calls made are recorded. *)

From S2P Require Import Prelude.
From stdpp Require Import base numbers list strings.

#[local] Open Scope Z_scope.

Inductive RuntimeLifecycleState :=
| RS_Built | RS_Preflighting | RS_Starting | RS_Running | RS_RollingBack | RS_Failed
| RS_Draining | RS_Stopping | RS_Stopped.

#[export] Instance RuntimeLifecycleState_eq_dec : EqDecision RuntimeLifecycleState.
Proof. solve_decision. Defined.

Inductive Call := CStart (i : nat) | CRollback (i : nat) | CDestroy (i : nat).

#[export] Instance Call_eq_dec : EqDecision Call.
Proof. solve_decision. Defined.

Inductive StartResult := StartOk | AlreadyStarted | StageFailed.

Section Coordinator.
Context {W : Type}.

Record RuntimeLifecycleStage := mkStage {
  stage_name : string;
  stage_start : option (W -> bool * W);
  stage_rollback : option (W -> bool * W);
  stage_destroy : option (W -> W)
}.

Record RuntimeCoordinator := mkCoord {
  stages : list RuntimeLifecycleStage;
  rc_state : RuntimeLifecycleState;
  epoch : Z;                   (* uint64_t *)
  ready : bool;
  primary_error : Z;
  last_stage : option string;
  world : W;
  calls : list Call
}.

Definition coord_init (w : W) : RuntimeCoordinator := mkCoord [] RS_Built 0 false 0 None w [].

Definition add_stage (c : RuntimeCoordinator) (st : RuntimeLifecycleStage) : RuntimeCoordinator :=
  mkCoord (stages c ++ [st]) (rc_state c) (epoch c) (ready c) (primary_error c) (last_stage c)
    (world c) (calls c).

Definition transition_to (c : RuntimeCoordinator) (s : RuntimeLifecycleState) : RuntimeCoordinator :=
  mkCoord (stages c) s (u64 (epoch c + 1)) (bool_decide (s = RS_Running)) (primary_error c)
    (last_stage c) (world c) (calls c).

Definition set_error (c : RuntimeCoordinator) (e : Z) : RuntimeCoordinator :=
  mkCoord (stages c) (rc_state c) (epoch c) (ready c) e (last_stage c) (world c) (calls c).
Definition clear_ready (c : RuntimeCoordinator) : RuntimeCoordinator :=
  mkCoord (stages c) (rc_state c) (epoch c) false (primary_error c) (last_stage c) (world c) (calls c).
Definition after_call (c : RuntimeCoordinator) (w : W) (k : Call) : RuntimeCoordinator :=
  mkCoord (stages c) (rc_state c) (epoch c) (ready c) (primary_error c) (last_stage c) w (calls c ++ [k]).
Definition set_last (c : RuntimeCoordinator) (n : string) : RuntimeCoordinator :=
  mkCoord (stages c) (rc_state c) (epoch c) (ready c) (primary_error c) (Some n) (world c) (calls c).

(** The rollback action of stage [i], whose result is ignored. *)
Definition rollback_stage (c : RuntimeCoordinator) (i : nat) : RuntimeCoordinator :=
  match st ← stages c !! i; stage_rollback st with
  | Some act => after_call c (act (world c)).2 (CRollback i)
  | None => c
  end.

(** Stages [completed - 1] down to 0. *)
Fixpoint rollback (c : RuntimeCoordinator) (completed : nat) : RuntimeCoordinator :=
  match completed with
  | O => c
  | S i => rollback (rollback_stage c i) i
  end.

(** The start loop from stage [i] on; [todo] stages are left. *)
Fixpoint start_stages (c : RuntimeCoordinator) (i todo : nat) : StartResult * RuntimeCoordinator :=
  match todo with
  | O => (StartOk, transition_to c RS_Running)
  | S todo =>
      match stages c !! i with
      | None => (StartOk, c)             (* not reached: todo counts the stages left *)
      | Some st =>
          let c := set_last c (stage_name st) in
          let '(ok, c) :=
            match stage_start st with
            | Some act => let '(ok, w) := act (world c) in (ok, after_call c w (CStart i))
            | None => (true, c)
            end in
          if ok : bool then start_stages c (S i) todo
          else (StageFailed, set_error (transition_to (rollback c i) RS_Failed) 1)
      end
  end.

Definition start (c : RuntimeCoordinator) : StartResult * RuntimeCoordinator :=
  match rc_state c with
  | RS_Built | RS_Failed => start_stages (transition_to c RS_Starting) 0 (length (stages c))
  | _ => (AlreadyStarted, c)
  end.

Definition stop (c : RuntimeCoordinator) : RuntimeCoordinator :=
  match rc_state c with
  | RS_Stopped => c
  | st =>
      let c := match st with
               | RS_Running => transition_to (transition_to c RS_Draining) RS_Stopping
               | _ => transition_to c RS_Stopping
               end in
      transition_to (rollback c (length (stages c))) RS_Stopped
  end.

Definition shutdown (c : RuntimeCoordinator) : RuntimeCoordinator :=
  match rc_state c with
  | RS_Stopped => c
  | RS_Built | RS_Failed => stop c
  | st =>
      let c := match st with
               | RS_Running => transition_to (transition_to (clear_ready c) RS_Draining) RS_Stopping
               | _ => transition_to c RS_Stopping
               end in
      transition_to (rollback c (length (stages c))) RS_Stopped
  end.

(** The destructor: every rollback action, then every context. *)
Definition destroy_stage (c : RuntimeCoordinator) (i : nat) : RuntimeCoordinator :=
  match st ← stages c !! i; stage_destroy st with
  | Some act => after_call c (act (world c)) (CDestroy i)
  | None => c
  end.
Definition destruct_coordinator (c : RuntimeCoordinator) : RuntimeCoordinator :=
  foldl destroy_stage (rollback c (length (stages c))) (seq 0 (length (stages c))).

(** ** What is called, and in which order *)

Definition has_start (sts : list RuntimeLifecycleStage) (i : nat) : bool :=
  match sts !! i with Some st => match stage_start st with Some _ => true | None => false end | None => false end.
Definition has_rollback (sts : list RuntimeLifecycleStage) (i : nat) : bool :=
  match sts !! i with Some st => match stage_rollback st with Some _ => true | None => false end | None => false end.

(** The start calls of stages [i .. i + k - 1], and the rollback calls of
    stages [k - 1 .. 0]. *)
Definition starts (sts : list RuntimeLifecycleStage) (i k : nat) : list Call :=
  CStart <$> filter (fun j => has_start sts j = true) (seq i k).
Definition rollbacks (sts : list RuntimeLifecycleStage) (k : nat) : list Call :=
  CRollback <$> filter (fun j => has_rollback sts j = true) (reverse (seq 0 k)).

Lemma rollback_stage_calls c i :
  stages (rollback_stage c i) = stages c /\ rc_state (rollback_stage c i) = rc_state c /\
  ready (rollback_stage c i) = ready c /\
  calls (rollback_stage c i) =
    calls c ++ (if has_rollback (stages c) i then [CRollback i] else []).
Proof.
  unfold rollback_stage, has_rollback. destruct (stages c !! i) as [st|]; simpl;
    [destruct (stage_rollback st)|]; simpl; by rewrite ?app_nil_r.
Qed.

Lemma rollbacks_S sts k :
  rollbacks sts (S k) = (if has_rollback sts k then [CRollback k] else []) ++ rollbacks sts k.
Proof.
  unfold rollbacks. rewrite seq_S, reverse_app. simpl. rewrite filter_cons.
  destruct (has_rollback sts k); [by rewrite decide_True|by rewrite decide_False].
Qed.

Lemma rollback_calls c k :
  stages (rollback c k) = stages c /\ rc_state (rollback c k) = rc_state c /\
  ready (rollback c k) = ready c /\ calls (rollback c k) = calls c ++ rollbacks (stages c) k.
Proof.
  revert c. induction k as [|k IH]; intros c; [by rewrite app_nil_r|].
  cbn [rollback]. destruct (rollback_stage_calls c k) as (H1 & H2 & H3 & H4).
  destruct (IH (rollback_stage c k)) as (I1 & I2 & I3 & I4).
  rewrite rollbacks_S, app_assoc, <- H4, I4, H1. repeat split; congruence.
Qed.

Lemma starts_S sts i k :
  starts sts i (S k) = (if has_start sts i then [CStart i] else []) ++ starts sts (S i) k.
Proof.
  unfold starts. cbn [seq]. rewrite filter_cons.
  destruct (has_start sts i); [by rewrite decide_True|by rewrite decide_False].
Qed.

(** How the start loop ends. *)
Definition started (c c' : RuntimeCoordinator) (i n : nat) : Prop :=
  rc_state c' = RS_Running /\ ready c' = true /\
  calls c' = calls c ++ starts (stages c) i n.
Definition start_failed (c c' : RuntimeCoordinator) (i n : nat) : Prop :=
  exists k, (k < n)%nat /\ has_start (stages c) (i + k) = true /\
    rc_state c' = RS_Failed /\ ready c' = false /\ primary_error c' = 1 /\
    calls c' = calls c ++ starts (stages c) i (S k) ++ rollbacks (stages c) (i + k).

Lemma start_stages_cases c i n :
  (i + n = length (stages c))%nat ->
  let '(r, c') := start_stages c i n in
  stages c' = stages c /\ (r = StartOk /\ started c c' i n \/ r = StageFailed /\ start_failed c c' i n).
Proof.
  revert c i. induction n as [|n IH]; intros c i Hlen.
  { simpl. split; [done|]. left. repeat split. simpl. unfold starts. simpl. by rewrite app_nil_r. }
  cbn [start_stages]. destruct (stages c !! i) as [st|] eqn:Est.
  2: { apply lookup_ge_None in Est. lia. }
  set (c0 := set_last c (stage_name st)).
  destruct (match stage_start st with
            | Some act => let '(ok, w) := act (world c0) in (ok, after_call c0 w (CStart i))
            | None => (true, c0) end) as [ok c1] eqn:E1.
  assert (H1 : stages c1 = stages c /\
    calls c1 = calls c ++ (if has_start (stages c) i then [CStart i] else []) /\
    (ok = false -> has_start (stages c) i = true)).
  { unfold has_start. rewrite Est. destruct (stage_start st) as [act|].
    - destruct (act (world c0)) as [ok' w]. by injection E1 as <- <-.
    - injection E1 as <- <-. by rewrite app_nil_r. }
  destruct H1 as (Hst & Hcalls & Hfalse). destruct ok.
  - specialize (IH c1 (S i)). rewrite Hst in IH. specialize (IH ltac:(lia)).
    destruct (start_stages c1 (S i) n) as [r c']. destruct IH as (Hs & Hr). split; [done|].
    destruct Hr as [(-> & Ha & Hb & Hc)|(-> & k & Hk & Hha & Ha & Hb & Hc & Hd)]; [left|right].
    + split; [done|]. split; [done|]. split; [done|].
      by rewrite Hc, Hcalls, Hst, starts_S, app_assoc.
    + split; [done|]. exists (S k). rewrite <- Nat.add_succ_comm, <- Hst. split_and!; try done; [lia|].
      rewrite Hd, Hcalls, (starts_S _ i), <- !app_assoc, Hst. done.
  - specialize (Hfalse eq_refl). destruct (rollback_calls c1 i) as (R1 & R2 & R3 & R4).
    split; [simpl; congruence|]. right. split; [done|]. exists 0%nat.
    rewrite Nat.add_0_r. split_and!; try done; [lia|]. simpl. rewrite R4, Hcalls, Hst, Hfalse.
    rewrite starts_S, Hfalse. unfold starts. simpl. by rewrite <- app_assoc.
Qed.

(** Startup.  From [Built] or [Failed], either every stage was started once,
    in order, and the coordinator is running and ready; or a stage's action
    failed, the stages before it were rolled back in reverse order and the
    failed one was not, and the coordinator is [Failed] and not ready.  From
    any other state nothing happens. *)
Theorem start_contract c :
  let '(r, c') := start c in
  stages c' = stages c /\
  match r with
  | StartOk => (rc_state c = RS_Built \/ rc_state c = RS_Failed) /\ started c c' 0 (length (stages c))
  | StageFailed => (rc_state c = RS_Built \/ rc_state c = RS_Failed) /\
      start_failed c c' 0 (length (stages c))
  | AlreadyStarted => rc_state c <> RS_Built /\ rc_state c <> RS_Failed /\ c' = c
  end.
Proof.
  pose proof (start_stages_cases (transition_to c RS_Starting) 0 (length (stages c)) eq_refl) as H.
  unfold start. destruct (rc_state c) eqn:Es; try done;
    (destruct (start_stages _ 0 _) as [r c']; destruct H as (Hs & [(-> & Hr)|(-> & Hr)]);
     (split; [exact Hs|]); (split; [auto|exact Hr])).
Qed.

(** ** Stopping *)

(** Stop and shutdown end in [Stopped], not ready, having called every
    rollback action in reverse order; both are idempotent; readiness is the
    [Running] state. *)
Lemma stop_calls c :
  rc_state c <> RS_Stopped ->
  stages (stop c) = stages c /\ rc_state (stop c) = RS_Stopped /\ ready (stop c) = false /\
  calls (stop c) = calls c ++ rollbacks (stages c) (length (stages c)).
Proof.
  intros Hs. unfold stop.
  assert (H : forall d, stages d = stages c -> calls d = calls c ->
    let c' := transition_to (rollback d (length (stages d))) RS_Stopped in
    stages c' = stages c /\ rc_state c' = RS_Stopped /\ ready c' = false /\
    calls c' = calls c ++ rollbacks (stages c) (length (stages c))).
  { intros d H1 H2. destruct (rollback_calls d (length (stages d))) as (R1 & _ & _ & R4). simpl.
    rewrite R1, R4, H1, H2. done. }
  destruct (rc_state c) eqn:E; try done; by apply H.
Qed.

Lemma shutdown_is_stop c :
  shutdown c = stop c \/ rc_state c = RS_Running.
Proof. unfold shutdown, stop. destruct (rc_state c) eqn:E; rewrite ?E; auto. Qed.

Lemma destroy_stage_calls c i :
  stages (destroy_stage c i) = stages c /\
  exists ks, calls (destroy_stage c i) = calls c ++ ks /\ Forall (fun k => exists j, k = CDestroy j) ks.
Proof.
  unfold destroy_stage. destruct (st ← stages c !! i; stage_destroy st); (split; [done|]).
  - exists [CDestroy i]. split; [done|]. constructor; eauto.
  - exists []. by rewrite app_nil_r.
Qed.

Lemma destroy_all_calls ids c :
  exists ks, calls (foldl destroy_stage c ids) = calls c ++ ks /\
    Forall (fun k => exists j, k = CDestroy j) ks.
Proof.
  revert c. induction ids as [|i ids IH]; intros c; [exists []; by rewrite app_nil_r|].
  simpl. destruct (IH (destroy_stage c i)) as (ks & -> & Hks).
  destruct (destroy_stage_calls c i) as (_ & ks1 & -> & H1).
  exists (ks1 ++ ks). rewrite <- app_assoc. split; [done|]. by apply Forall_app.
Qed.

(** Number of calls of one kind. *)
Definition count (k : Call) (l : list Call) : nat := length (filter (fun x => x = k) l).

Lemma count_app k l1 l2 : count k (l1 ++ l2) = (count k l1 + count k l2)%nat.
Proof. unfold count. by rewrite filter_app, length_app. Qed.

Lemma count_rollbacks sts i n :
  count (CRollback i) (rollbacks sts n) =
    if decide (i < n)%nat then if has_rollback sts i then 1%nat else 0%nat else 0%nat.
Proof.
  induction n as [|n IH]; [done|]. rewrite rollbacks_S, count_app, IH.
  destruct (decide (i = n)) as [->|Hne].
  - rewrite (decide_False (P := (n < n)%nat)), (decide_True (P := (n < S n)%nat)) by lia.
    destruct (has_rollback sts n); [|done]. unfold count. by rewrite filter_cons_True.
  - assert (Hz : count (CRollback i) (if has_rollback sts n then [CRollback n] else []) = 0%nat).
    { destruct (has_rollback sts n); [|done]. unfold count.
      rewrite filter_cons_False by congruence. done. }
    rewrite Hz. simpl. repeat case_decide; try done; lia.
Qed.

Lemma count_starts sts i j n : count (CRollback i) (starts sts j n) = 0%nat.
Proof.
  unfold starts, count. generalize (filter (fun k => has_start sts k = true) (seq j n)) as l.
  induction l as [|x l IH]; [done|].
  rewrite fmap_cons, filter_cons_False by congruence. exact IH.
Qed.

Lemma count_destroys i ks : Forall (fun k => exists j, k = CDestroy j) ks -> count (CRollback i) ks = 0%nat.
Proof.
  induction 1 as [|k ks [j ->] _ IH]; [done|]. unfold count in *.
  rewrite filter_cons_False by congruence. exact IH.
Qed.

(** The stop sequence.  Stopping from any state ends in [Stopped], calls every
    rollback action once in reverse order, is idempotent, and shutdown differs
    from it only in clearing readiness earlier.  But the destructor runs all
    rollback actions again: a stage of a coordinator that started, stopped and
    was destroyed has been rolled back twice. *)
Theorem stop_contract c :
  (rc_state c <> RS_Stopped ->
     rc_state (stop c) = RS_Stopped /\ ready (stop c) = false /\
     calls (stop c) = calls c ++ rollbacks (stages c) (length (stages c))) /\
  stop (stop c) = stop c /\
  (shutdown c = stop c \/ rc_state c = RS_Running /\ shutdown c = stop (clear_ready c)) /\
  (forall i, rc_state c <> RS_Stopped -> has_rollback (stages c) i = true ->
     count (CRollback i) (calls (destruct_coordinator (stop c))) =
     (count (CRollback i) (calls c) + 2)%nat).
Proof.
  split; [|split; [|split]].
  - intros H. by destruct (stop_calls c H) as (_ & H2 & H3 & H4).
  - destruct (decide (rc_state c = RS_Stopped)) as [E|E].
    + assert (Hs : stop c = c) by (unfold stop; by rewrite E). by rewrite !Hs.
    + destruct (stop_calls c E) as (_ & H2 & _). unfold stop at 1. by rewrite H2.
  - destruct (shutdown_is_stop c) as [H|H]; [by left|right]. split; [done|].
    unfold shutdown, stop. by rewrite H, (eq_refl : rc_state (clear_ready c) = rc_state c), H.
  - intros i Hs Hi. destruct (stop_calls c Hs) as (H1 & _ & _ & H4).
    unfold destruct_coordinator. destruct (rollback_calls (stop c) (length (stages (stop c)))) as (_ & _ & _ & R4).
    destruct (destroy_all_calls (seq 0 (length (stages (stop c)))) (rollback (stop c) (length (stages (stop c)))))
      as (ks & -> & Hks).
    rewrite R4, H4, H1, !count_app, !count_rollbacks, Hi, (count_destroys _ _ Hks).
    rewrite decide_True; [lia|]. unfold has_rollback in Hi.
    destruct (stages c !! i) eqn:E; [|done]. by eapply lookup_lt_Some.
Qed.
End Coordinator.

Lemma stop_contract_witness :
  let st := mkStage "io"%string (Some (fun n : nat => (true, S n))) (Some (fun n => (true, pred n))) None in
  let c := (start (add_stage (coord_init 0%nat) st)).2 in
  count (CRollback 0) (calls (destruct_coordinator (stop c))) = 2%nat.
Proof.
  intros st c. rewrite (proj2 (proj2 (proj2 (stop_contract c))) 0%nat); [reflexivity|discriminate|reflexivity].
Defined.
