(* ===== verification/Disruptor.v ===== *)
(** * The disruptor ring

    [adt/disruptor_mpsc_ring.hpp]: a bounded ring with one sequence number per
    slot, many producers and one consumer.  The methods are given as functions,
    run without interference; [dstep] interleaves their atomic accesses for any
    number of producers and a consumer that may hold several read leases.
    Sequences are numbered without the wrap at 2^64, which takes that many
    publications. *)

From S2P Require Import Prelude.
From stdpp Require Import base numbers list sets.

#[local] Open Scope Z_scope.

Definition kMaxDisruptorRingCapacity : Z := 1048576.

Definition valid_disruptor_ring_capacity (capacity : Z) : bool :=
  (2 <=? capacity) && (capacity <=? kMaxDisruptorRingCapacity) &&
  (Z.land capacity (capacity - 1) =? 0).

Lemma mask_mod capacity s :
  valid_disruptor_ring_capacity capacity = true -> Z.land s (capacity - 1) = s mod capacity.
Proof.
  unfold valid_disruptor_ring_capacity. intros H. bool_to_prop.
  set (k := Z.log2 capacity). pose proof (Z.log2_nonneg capacity) as Hk. fold k in Hk.
  destruct (Z.log2_spec capacity) as [Hlo Hhi]; [lia|]. fold k in Hlo, Hhi.
  assert (Hpow : capacity = 2 ^ k).
  { destruct (decide (capacity = 2 ^ k)) as [|Hne]; [done|]. exfalso.
    assert (Hb1 : Z.testbit capacity k = true) by (apply Z.bit_log2; lia).
    assert (Hb2 : Z.testbit (capacity - 1) k = true).
    { replace k with (Z.log2 (capacity - 1)); [apply Z.bit_log2; lia|].
      apply Z.log2_unique; [done|]. lia. }
    assert (Hb : Z.testbit (Z.land capacity (capacity - 1)) k = true) by by rewrite Z.land_spec, Hb1, Hb2.
    match goal with H0 : Z.land capacity _ = 0 |- _ => rewrite H0, Z.bits_0 in Hb end. done. }
  rewrite Hpow, <- Z.land_ones by done. f_equal. rewrite Z.ones_equiv. lia.
Qed.

Inductive RingPublishCode := RP_Published | RP_Full | RP_Closed.

Section Ring.
Context {V : Type} (capacity : Z).

(** A slot: its sequence number and its value, default-constructed at first. *)
Record Slot := mkSlot { sequence : Z; value : option V }.

Record DisruptorMpscRing := mkRing {
  claim_cursor : Z;
  consumer_mirror : Z;
  published_cursor : Z;
  max_depth : Z;
  claim_retries : Z;
  gap_observations : Z;
  closed : bool;
  slots : list Slot
}.

Definition ring_init : DisruptorMpscRing :=
  mkRing 0 0 0 0 0 0 false ((fun i => mkSlot (Z.of_nat i) None) <$> seq 0 (Z.to_nat capacity)).

(** [slots_[s & kMask]]. *)
Definition slot_index (s : Z) : nat := Z.to_nat (Z.land s (capacity - 1)).
Definition slot_at (l : list Slot) (s : Z) : Slot := nth (slot_index s) l (mkSlot (-1) None).
Definition set_slot (l : list Slot) (s : Z) (x : Slot) : list Slot := <[slot_index s := x]> l.

Definition set_slots (r : DisruptorMpscRing) (l : list Slot) : DisruptorMpscRing :=
  mkRing (claim_cursor r) (consumer_mirror r) (published_cursor r) (max_depth r) (claim_retries r)
    (gap_observations r) (closed r) l.
Definition set_claim (r : DisruptorMpscRing) (c : Z) : DisruptorMpscRing :=
  mkRing c (consumer_mirror r) (published_cursor r) (max_depth r) (claim_retries r)
    (gap_observations r) (closed r) (slots r).
Definition count_retry (r : DisruptorMpscRing) : DisruptorMpscRing :=
  mkRing (claim_cursor r) (consumer_mirror r) (published_cursor r) (max_depth r)
    (claim_retries r + 1) (gap_observations r) (closed r) (slots r).
Definition set_mirror (r : DisruptorMpscRing) (c : Z) : DisruptorMpscRing :=
  mkRing (claim_cursor r) c (published_cursor r) (max_depth r) (claim_retries r)
    (gap_observations r) (closed r) (slots r).

(** [update_max_depth] after the store of the published cursor; the depth is
    an unsigned difference. *)
Definition publish_cursor (r : DisruptorMpscRing) (c : Z) : DisruptorMpscRing :=
  mkRing (claim_cursor r) (consumer_mirror r) c
    (Z.max (max_depth r) (u64 (c - consumer_mirror r)))
    (claim_retries r) (gap_observations r) (closed r) (slots r).

(** [try_publish], undisturbed. *)
Definition try_publish (r : DisruptorMpscRing) (v : V) : RingPublishCode * Z * DisruptorMpscRing :=
  if closed r then (RP_Closed, 0, r)
  else
    let s := claim_cursor r in
    if negb (sequence (slot_at (slots r) s) =? s) then (RP_Full, s, r)
    else
      let r := set_claim r (s + 1) in
      let r := set_slots r (set_slot (slots r) s (mkSlot (s + 1) (Some v))) in
      (RP_Published, s, publish_cursor r (s + 1)).

(** [ring_try_acquire]: the sequence leased, if any. *)
Definition ring_try_acquire (r : DisruptorMpscRing) : option Z * DisruptorMpscRing :=
  let c := consumer_mirror r in
  if negb (sequence (slot_at (slots r) c) =? c + 1) then
    (None,
     if c + 1 <? published_cursor r
     then mkRing (claim_cursor r) c (published_cursor r) (max_depth r) (claim_retries r)
            (gap_observations r + 1) (closed r) (slots r)
     else r)
  else (Some c, set_mirror r (c + 1)).

(** The value behind a lease, and its release. *)
Definition lease_value (r : DisruptorMpscRing) (s : Z) : option V := value (slot_at (slots r) s).
Definition release_slot (r : DisruptorMpscRing) (s : Z) : DisruptorMpscRing :=
  set_slots r (set_slot (slots r) s (mkSlot (s + capacity) (lease_value r s))).

Definition ring_close (r : DisruptorMpscRing) : DisruptorMpscRing :=
  mkRing (claim_cursor r) (consumer_mirror r) (published_cursor r) (max_depth r) (claim_retries r)
    (gap_observations r) true (slots r).

Definition ring_empty (r : DisruptorMpscRing) : bool := consumer_mirror r =? published_cursor r.

(** ** Interleaving *)

(** A producer inside [try_publish] with its value. *)
Inductive RingProducer :=
| RPOut
| RPLoaded (v : V) (s : Z)      (* sequence read from the cursor *)
| RPChecked (v : V) (s : Z)     (* slot sequence matched *)
| RPClaimed (v : V) (s : Z)     (* compare-and-swap won *)
| RPWritten (s : Z)             (* value stored *)
| RPStored (s : Z).             (* slot published *)

Record DState := mkD {
  ring : DisruptorMpscRing;
  d_producers : list RingProducer;
  leases : list Z;
  claimed_values : list V;      (* in claim order *)
  delivered : list (option V)   (* what the leases showed when taken *)
}.

Definition set_p (d : DState) (r : DisruptorMpscRing) (i : nat) (p : RingProducer) : DState :=
  mkD r (<[i := p]> (d_producers d)) (leases d) (claimed_values d) (delivered d).

(** Remove one occurrence. *)
Fixpoint remove_one (s : Z) (l : list Z) : list Z :=
  match l with [] => [] | x :: l => if x =? s then l else x :: remove_one s l end.

Inductive dstep : DState -> DState -> Prop :=
| d_closed d i (v : V) :
    d_producers d !! i = Some RPOut -> closed (ring d) = true -> dstep d d
| d_load d i v :
    d_producers d !! i = Some RPOut -> closed (ring d) = false ->
    dstep d (set_p d (ring d) i (RPLoaded v (claim_cursor (ring d))))
| d_full d i v s :
    d_producers d !! i = Some (RPLoaded v s) -> sequence (slot_at (slots (ring d)) s) <> s ->
    dstep d (set_p d (ring d) i RPOut)
| d_check d i v s :
    d_producers d !! i = Some (RPLoaded v s) -> sequence (slot_at (slots (ring d)) s) = s ->
    dstep d (set_p d (ring d) i (RPChecked v s))
| d_cas d i v s :
    d_producers d !! i = Some (RPChecked v s) -> claim_cursor (ring d) = s ->
    dstep d (mkD (set_claim (ring d) (s + 1)) (<[i := RPClaimed v s]> (d_producers d)) (leases d)
               (claimed_values d ++ [v]) (delivered d))
| d_cas_fail d i v s :
    d_producers d !! i = Some (RPChecked v s) ->
    dstep d (set_p d (count_retry (ring d)) i (RPLoaded v (claim_cursor (ring d))))
| d_write d i v s :
    d_producers d !! i = Some (RPClaimed v s) ->
    dstep d (set_p d (set_slots (ring d) (set_slot (slots (ring d)) s
               (mkSlot (sequence (slot_at (slots (ring d)) s)) (Some v)))) i (RPWritten s))
| d_store d i s :
    d_producers d !! i = Some (RPWritten s) ->
    dstep d (set_p d (set_slots (ring d) (set_slot (slots (ring d)) s
               (mkSlot (s + 1) (lease_value (ring d) s)))) i (RPStored s))
| d_cursor d i s :
    d_producers d !! i = Some (RPStored s) ->
    dstep d (set_p d (publish_cursor (ring d) (s + 1)) i RPOut)
| d_acquire d :
    sequence (slot_at (slots (ring d)) (consumer_mirror (ring d))) = consumer_mirror (ring d) + 1 ->
    dstep d (mkD (set_mirror (ring d) (consumer_mirror (ring d) + 1)) (d_producers d)
               (leases d ++ [consumer_mirror (ring d)]) (claimed_values d)
               (delivered d ++ [lease_value (ring d) (consumer_mirror (ring d))]))
| d_release d s :
    s ∈ leases d ->
    dstep d (mkD (release_slot (ring d) s) (d_producers d) (remove_one s (leases d))
               (claimed_values d) (delivered d))
| d_close d :
    dstep d (mkD (ring_close (ring d)) (d_producers d) (leases d) (claimed_values d) (delivered d)).

Definition d_initial (n : nat) : DState := mkD ring_init (replicate n RPOut) [] [] [].

(** ** The invariant *)

Context (Hvalid : valid_disruptor_ring_capacity capacity = true).
Notation cap := capacity.

Let Hcap : 2 <= cap.
Proof. unfold valid_disruptor_ring_capacity in Hvalid. bool_to_prop. lia. Qed.

(** The mask of a power of two is the remainder. *)
Lemma slot_index_mod s : slot_index s = Z.to_nat (s mod cap).
Proof. unfold slot_index. by rewrite mask_mod. Qed.

Lemma slot_index_lt s : (slot_index s < Z.to_nat cap)%nat.
Proof. rewrite slot_index_mod. pose proof (Z.mod_pos_bound s cap ltac:(lia)). lia. Qed.

Lemma slot_index_shift s : slot_index (s + cap) = slot_index s.
Proof. rewrite !slot_index_mod. f_equal. rewrite <- (Z.mul_1_l cap) at 1. by rewrite Z.mod_add by lia. Qed.

Lemma slot_at_shift l s : slot_at l (s + cap) = slot_at l s.
Proof. unfold slot_at. by rewrite slot_index_shift. Qed.

Lemma slot_at_set_eq l s x : length l = Z.to_nat cap -> slot_at (set_slot l s x) s = x.
Proof.
  intros Hl. unfold slot_at, set_slot. apply nth_lookup_Some.
  rewrite list_lookup_insert_eq; [done|]. rewrite Hl. apply slot_index_lt.
Qed.

(** Two sequences of one window of [cap] have different slots. *)
Lemma slot_index_inj b s s' :
  b - cap <= s < b -> b - cap <= s' < b -> slot_index s = slot_index s' -> s = s'.
Proof.
  rewrite !slot_index_mod. intros H1 H2 H.
  pose proof (Z.mod_pos_bound s cap ltac:(lia)). pose proof (Z.mod_pos_bound s' cap ltac:(lia)).
  pose proof (Z.div_mod s cap ltac:(lia)). pose proof (Z.div_mod s' cap ltac:(lia)).
  assert (s mod cap = s' mod cap) by lia. assert (s / cap = s' / cap) by nia. lia.
Qed.

Lemma slot_at_set_ne b l s s' x :
  b - cap <= s < b -> b - cap <= s' < b -> s <> s' ->
  slot_at (set_slot l s x) s' = slot_at l s'.
Proof.
  intros H1 H2 Hne. unfold slot_at, set_slot.
  assert (slot_index s <> slot_index s') by (intros He; by apply Hne, (slot_index_inj b)).
  unfold nth_default. rewrite !nth_lookup. by rewrite list_lookup_insert_ne.
Qed.

Lemma set_slot_length l s x : length (set_slot l s x) = length l.
Proof. apply length_insert. Qed.

Definition writes (p : RingProducer) : option Z :=
  match p with RPClaimed _ s | RPWritten s => Some s | _ => None end.
Definition writing (d : DState) (s : Z) : Prop :=
  exists i p, d_producers d !! i = Some p /\ writes p = Some s.
Definition live (d : DState) (s : Z) : Prop :=
  consumer_mirror (ring d) <= s < claim_cursor (ring d) \/ s ∈ leases d.
Definition claimed_at (d : DState) (s : Z) : option V := claimed_values d !! Z.to_nat s.

Definition producer_ok (d : DState) (p : RingProducer) : Prop :=
  let c := claim_cursor (ring d) in
  match p with
  | RPLoaded _ s => s <= c
  | RPChecked _ s => s <= c /\ (s = c -> ~ live d (s - cap))
  | RPClaimed v s => consumer_mirror (ring d) <= s < c /\ claimed_at d s = Some v
  | RPWritten s => consumer_mirror (ring d) <= s < c /\ lease_value (ring d) s = claimed_at d s
  | _ => True
  end.

Definition slot_ok (d : DState) (s : Z) : Prop :=
  let x := slot_at (slots (ring d)) s in
  (writing d s -> sequence x = s) /\
  (~ writing d s -> live d s -> sequence x = s + 1 /\ value x = claimed_at d s) /\
  (~ live d s -> sequence x = s + cap).

Record dinv (d : DState) : Prop := mkDinv {
  di_length : length (slots (ring d)) = Z.to_nat cap;
  di_mirror : 0 <= consumer_mirror (ring d) <= claim_cursor (ring d);
  di_window : claim_cursor (ring d) - cap <= consumer_mirror (ring d);
  di_claimed : zlen (claimed_values d) = claim_cursor (ring d);
  di_delivered : delivered d = Some <$> take (Z.to_nat (consumer_mirror (ring d))) (claimed_values d);
  di_leases : forall s, s ∈ leases d ->
    0 <= s /\ claim_cursor (ring d) - cap <= s < consumer_mirror (ring d);
  di_nodup : NoDup (leases d);
  di_producers : forall i p, d_producers d !! i = Some p -> producer_ok d p;
  di_exclusive : forall i j p q s, d_producers d !! i = Some p -> d_producers d !! j = Some q ->
    writes p = Some s -> writes q = Some s -> i = j;
  di_slots : forall s, claim_cursor (ring d) - cap <= s < claim_cursor (ring d) -> slot_ok d s
}.

Lemma writing_live d s : dinv d -> writing d s -> live d s.
Proof.
  intros Hd (i & p & Hi & Hw). pose proof (di_producers d Hd i p Hi) as Hp. left.
  destruct p; simplify_eq/=; apply Hp.
Qed.

Lemma live_window d s :
  dinv d -> live d s -> claim_cursor (ring d) - cap <= s < claim_cursor (ring d).
Proof.
  intros Hd [H|H].
  - pose proof (di_window d Hd). lia.
  - pose proof (di_leases d Hd s H). pose proof (di_mirror d Hd). lia.
Qed.

Lemma writing_stable d s : ~ ~ writing d s -> writing d s.
Proof.
  intros Hn. destruct (decide (Exists (fun p => writes p = Some s) (d_producers d))) as [He|He].
  - apply Exists_exists in He as (p & Hin & Hp). apply list_elem_of_lookup in Hin as [i Hi]. by exists i, p.
  - exfalso. apply Hn. intros (i & p & Hi & Hp). apply He, Exists_exists. exists p.
    split; [by eapply list_elem_of_lookup_2|done].
Qed.

(** The slot of the next sequence to claim. *)
Lemma next_slot d :
  dinv d ->
  sequence (slot_at (slots (ring d)) (claim_cursor (ring d))) = claim_cursor (ring d) <->
  ~ live d (claim_cursor (ring d) - cap).
Proof.
  intros Hd. set (c := claim_cursor (ring d)).
  destruct (di_slots d Hd (c - cap)) as (H1 & H2 & H3); [fold c; lia|].
  rewrite <- (slot_at_shift _ (c - cap)) in H1, H2, H3. replace (c - cap + cap) with c in * by lia.
  split.
  - intros Heq Hl. assert (~ writing d (c - cap)) as Hnw by (intros Hw; apply H1 in Hw; lia).
    destruct (H2 Hnw Hl). lia.
  - auto.
Qed.

(** A producer step that touches neither the slots nor the cursors that the
    invariant speaks of. *)
Lemma producer_step_inv d i p q r :
  dinv d -> d_producers d !! i = Some p -> writes q = writes p ->
  claim_cursor r = claim_cursor (ring d) -> consumer_mirror r = consumer_mirror (ring d) ->
  slots r = slots (ring d) -> producer_ok d q -> dinv (set_p d r i q).
Proof.
  intros Hd Hi Hw Hc Hm Hs Hq. pose proof (lookup_lt_Some _ _ _ Hi) as Hlt.
  assert (Hprod : forall j x, <[i := q]> (d_producers d) !! j = Some x ->
    exists y, d_producers d !! j = Some y /\ writes x = writes y).
  { intros j x Hj. destruct (decide (i = j)) as [<-|Hne].
    - rewrite list_lookup_insert_eq in Hj by done. injection Hj as <-. eauto.
    - rewrite list_lookup_insert_ne in Hj by done. eauto. }
  assert (Hback : forall j y, d_producers d !! j = Some y ->
    exists x, <[i := q]> (d_producers d) !! j = Some x /\ writes x = writes y).
  { intros j y Hj. destruct (decide (i = j)) as [<-|Hne].
    - exists q. rewrite list_lookup_insert_eq by done. split; congruence.
    - exists y. by rewrite list_lookup_insert_ne. }
  assert (Hwr : forall s, writing (set_p d r i q) s <-> writing d s).
  { intros s. split; intros (j & x & Hj & Hx); simpl in Hj.
    - destruct (Hprod j x Hj) as (y & Hy & E). exists j, y. split; congruence.
    - destruct (Hback j x Hj) as (y & Hy & E). exists j, y. split; [done|congruence]. }
  destruct Hd as [D1 D2 D3 D4 D5 D6 D7 D8 D9 D10].
  assert (Hpok : forall x, producer_ok d x -> producer_ok (set_p d r i q) x).
  { intros x. unfold producer_ok, live, lease_value, claimed_at. simpl. rewrite Hc, Hm, Hs. done. }
  split; simpl; rewrite ?Hc, ?Hm, ?Hs; try done.
  - intros j x Hj. apply Hpok. destruct (decide (i = j)) as [<-|Hne].
    + rewrite list_lookup_insert_eq in Hj by done. by injection Hj as <-.
    + rewrite list_lookup_insert_ne in Hj by done. eauto.
  - intros j k x y s Hj Hk Hx Hy. destruct (Hprod j x Hj) as (x' & Hj' & Ex).
    destruct (Hprod k y Hk) as (y' & Hk' & Ey). apply (D9 j k x' y' s Hj' Hk'); congruence.
  - intros s Hr. destruct (D10 s Hr) as (S1 & S2 & S3). unfold slot_ok. rewrite Hwr. simpl.
    unfold live, claimed_at in *. simpl. rewrite Hc, Hm, Hs. done.
Qed.

Lemma writing_set_p d r i q s :
  (i < length (d_producers d))%nat ->
  writing (set_p d r i q) s ->
  writes q = Some s \/ exists j p, j <> i /\ d_producers d !! j = Some p /\ writes p = Some s.
Proof.
  intros Hlt (j & p & Hj & Hp). simpl in Hj. destruct (decide (i = j)) as [<-|Hne].
  - rewrite list_lookup_insert_eq in Hj by done. left. congruence.
  - rewrite list_lookup_insert_ne in Hj by done. right. eauto.
Qed.

(** Winning the compare-and-swap. *)
Section Cas.
Context (d : DState) (i : nat) (v : V) (Hd : dinv d).
Notation c := (claim_cursor (ring d)).
Notation d' := (mkD (set_claim (ring d) (c + 1)) (<[i := RPClaimed v c]> (d_producers d)) (leases d)
                  (claimed_values d ++ [v]) (delivered d)).
Context (Hi : d_producers d !! i = Some (RPChecked v c)).

Lemma cas_free : ~ live d (c - cap).
Proof. by apply (di_producers d Hd i _ Hi). Qed.

Lemma cas_room : c - cap < consumer_mirror (ring d) /\ forall s, s ∈ leases d -> c - cap < s.
Proof.
  pose proof cas_free as Hfree. pose proof (di_mirror d Hd). split.
  - destruct (decide (c - cap < consumer_mirror (ring d))); [done|]. exfalso. apply Hfree. left. lia.
  - intros s Hs. pose proof (di_leases d Hd s Hs). destruct (decide (s = c - cap)) as [->|]; [|lia].
    exfalso. apply Hfree. by right.
Qed.

Lemma cas_claimed :
  claimed_at d' c = Some v /\ forall s, 0 <= s < c -> claimed_at d' s = claimed_at d s.
Proof.
  pose proof (di_claimed d Hd) as D4. unfold claimed_at, zlen in *. simpl. split.
  - replace (Z.to_nat c) with (length (claimed_values d)) by lia. by apply list_lookup_middle.
  - intros s Hs. apply lookup_app_l. lia.
Qed.

(** Producers after the step. *)
Lemma cas_lookup j p :
  d_producers d' !! j = Some p ->
  (j = i /\ p = RPClaimed v c) \/ (j <> i /\ d_producers d !! j = Some p).
Proof.
  simpl. destruct (decide (i = j)) as [<-|Hne].
  - rewrite list_lookup_insert_eq by by eapply lookup_lt_Some. intros [= <-]. by left.
  - rewrite list_lookup_insert_ne by done. by right.
Qed.

Lemma cas_others s : s <> c -> (live d' s <-> live d s) /\ (writing d' s <-> writing d s).
Proof.
  intros Hs. split.
  - unfold live; simpl. split; (intros [H|H]; [left; lia|by right]).
  - split; intros (j & p & Hj & Hp).
    + apply cas_lookup in Hj as [[-> ->]|[_ Hj]]; [simpl in Hp; congruence|by exists j, p].
    + exists j, p. split; [|done]. simpl. rewrite list_lookup_insert_ne; [done|].
      intros <-. rewrite Hi in Hj. injection Hj as <-. done.
Qed.

Lemma cas_producers j p : d_producers d' !! j = Some p -> producer_ok d' p.
Proof.
  destruct cas_claimed as [Hnew Hat]. pose proof (di_mirror d Hd). intros [[-> ->]|[_ Hj]]%cas_lookup.
  - simpl. split; [lia|exact Hnew].
  - pose proof (di_producers d Hd j p Hj) as Hp.
    destruct p as [|u s|u s|u s|s|s]; simpl in *; try done; try lia;
      destruct Hp as [H1 H2]; (split; [lia|]); by rewrite Hat by lia.
Qed.

Lemma cas_exclusive j k p q s :
  d_producers d' !! j = Some p -> d_producers d' !! k = Some q ->
  writes p = Some s -> writes q = Some s -> j = k.
Proof.
  assert (Hold : forall j p, d_producers d !! j = Some p -> writes p = Some s -> s < c).
  { intros j0 p0 Hj Hp. pose proof (di_producers d Hd j0 p0 Hj) as Hok.
    destruct p0; try discriminate Hp; injection Hp as ->; apply Hok. }
  intros [[-> ->]|[Hj1 Hj2]]%cas_lookup [[-> ->]|[Hk1 Hk2]]%cas_lookup Hp Hq; [done|..].
  - injection Hp as <-. specialize (Hold _ _ Hk2 Hq). lia.
  - injection Hq as <-. specialize (Hold _ _ Hj2 Hp). lia.
  - by eapply (di_exclusive d Hd).
Qed.

Lemma cas_slots s : c - cap < s <= c -> slot_ok d' s.
Proof.
  intros Hs. destruct (decide (s = c)) as [->|Hne].
  - split; [intros _; apply (next_slot d Hd), cas_free|]. split.
    + intros Hnw. exfalso. apply Hnw. exists i, (RPClaimed v c). simpl.
      by rewrite list_lookup_insert_eq by by eapply lookup_lt_Some.
    + intros Hn. exfalso. apply Hn. left. simpl. pose proof (di_mirror d Hd). lia.
  - destruct (cas_others s Hne) as [Hl Hw]. destruct (di_slots d Hd s ltac:(lia)) as (S1 & S2 & S3).
    unfold slot_ok. rewrite Hl, Hw. split; [done|]. split; [|done]. intros Hnw Hlive.
    destruct (S2 Hnw Hlive) as [? Hv]. split; [done|]. rewrite (proj2 cas_claimed); [exact Hv|].
    pose proof (di_mirror d Hd). destruct Hlive as [Hr|Hr]; [lia|]. pose proof (di_leases d Hd s Hr). lia.
Qed.

Lemma cas_step_inv : dinv d'.
Proof.
  destruct cas_room as [Hm Hnl]. pose proof Hd as [D1 D2 D3 D4 D5 D6 D7 _ _ _].
  split; simpl; try done; try lia.
  - rewrite zlen_app, D4. done.
  - rewrite D5. f_equal. symmetry. apply take_app_le. unfold zlen in D4. lia.
  - intros s Hs. pose proof (D6 s Hs). pose proof (Hnl s Hs). lia.
  - exact cas_producers.
  - exact cas_exclusive.
  - intros s Hs. apply cas_slots. lia.
Qed.
End Cas.

(** Writing the value of a claimed slot, and publishing it. *)
Lemma slot_step_inv d i p q s x :
  dinv d -> d_producers d !! i = Some p -> writes p = Some s ->
  (q = RPWritten s /\ sequence x = s) \/ (q = RPStored s /\ sequence x = s + 1) ->
  value x = claimed_at d s ->
  dinv (set_p d (set_slots (ring d) (set_slot (slots (ring d)) s x)) i q).
Proof.
  intros Hd Hi Hp Hq Hx. pose proof (lookup_lt_Some _ _ _ Hi) as Hlt.
  assert (Hws : writing d s) by by exists i, p.
  pose proof (live_window d s Hd (writing_live d s Hd Hws)) as Hwin.
  pose proof (di_producers d Hd i p Hi) as Hpok.
  assert (Hms : consumer_mirror (ring d) <= s < claim_cursor (ring d))
    by (destruct p; try discriminate Hp; injection Hp as ->; apply Hpok).
  pose proof Hd as [D1 D2 D3 D4 D5 D6 D7 D8 D9 D10].
  assert (Hother : forall j y s', j <> i -> d_producers d !! j = Some y -> writes y = Some s' -> s' <> s).
  { intros j y s' Hne Hj Hy ->. by eapply Hne, D9. }
  set (d' := set_p _ _ _ _).
  assert (Hwr : forall s', s' <> s -> writing d' s' <-> writing d s').
  { intros s' Hne. split.
    - intros Hw. destruct (writing_set_p _ _ _ _ _ Hlt Hw) as [Hq'|(j & y & _ & Hj & Hy)]; [|by exists j, y].
      destruct Hq as [[-> _]|[-> _]]; simpl in Hq'; congruence.
    - intros (j & y & Hj & Hy). exists j, y. split; [|done]. simpl. rewrite list_lookup_insert_ne; [done|].
      intros <-. rewrite Hi in Hj. injection Hj as <-. congruence. }
  split; simpl; try done.
  - by rewrite set_slot_length.
  - intros j y Hj. destruct (decide (i = j)) as [<-|Hne].
    + rewrite list_lookup_insert_eq in Hj by done. injection Hj as <-.
      destruct Hq as [[-> _]|[-> _]]; simpl; [|done]. split; [done|].
      unfold lease_value, claimed_at in *. simpl. by rewrite slot_at_set_eq.
    + rewrite list_lookup_insert_ne in Hj by done. pose proof (D8 j y Hj) as Hy.
      destruct y as [|u s'|u s'|u s'|s'|s']; try done. destruct Hy as [Hy1 Hy2]. split; [done|].
      unfold lease_value in *. simpl.
      rewrite (slot_at_set_ne (claim_cursor (ring d))); [done|lia|lia|].
      apply not_eq_sym. by eapply Hother.
  - assert (Hinv : forall j y s', <[i := q]> (d_producers d) !! j = Some y -> writes y = Some s' ->
      exists z, d_producers d !! j = Some z /\ writes z = Some s').
    { intros j y s' Hj Hy. destruct (decide (i = j)) as [<-|Hne].
      - rewrite list_lookup_insert_eq in Hj by done. injection Hj as <-.
        destruct Hq as [[-> _]|[-> _]]; [|done]. simpl in Hy. exists p. split; [done|congruence].
      - rewrite list_lookup_insert_ne in Hj by done. eauto. }
    intros j k y z s' Hj Hk Hy Hz. destruct (Hinv j y s' Hj Hy) as (y' & ? & ?).
    destruct (Hinv k z s' Hk Hz) as (z' & ? & ?). by eapply D9.
  - intros s' Hs'. destruct (D10 s' Hs') as (S1 & S2 & S3). destruct (decide (s' = s)) as [->|Hne].
    + unfold slot_ok. simpl. rewrite slot_at_set_eq by done. unfold claimed_at in *. simpl. split_and!.
      * intros Hw. destruct Hq as [[_ H]|[-> _]]; [done|].
        destruct (writing_set_p _ _ _ _ _ Hlt Hw) as [Hq'|(j & y & Hne & Hj & Hy)]; [done|].
        exfalso. by eapply Hother.
      * intros Hnw _. destruct Hq as [[-> _]|[_ H]]; [|done]. exfalso. apply Hnw. exists i, (RPWritten s).
        split; [|done]. simpl. by rewrite list_lookup_insert_eq.
      * intros Hn. exfalso. apply Hn. by left.
    + unfold slot_ok. rewrite Hwr by done. simpl.
      by rewrite (slot_at_set_ne (claim_cursor (ring d))) by (done || lia).
Qed.

(** Taking the next slot. *)
Lemma acquire_ready d :
  dinv d ->
  sequence (slot_at (slots (ring d)) (consumer_mirror (ring d))) = consumer_mirror (ring d) + 1 ->
  consumer_mirror (ring d) < claim_cursor (ring d) /\ ~ writing d (consumer_mirror (ring d)) /\
  lease_value (ring d) (consumer_mirror (ring d)) = claimed_at d (consumer_mirror (ring d)).
Proof.
  intros Hd Hseq. set (c := consumer_mirror (ring d)) in *. pose proof (di_mirror d Hd) as D2.
  pose proof (di_window d Hd) as D3. fold c in D2, D3.
  assert (Hlt : c < claim_cursor (ring d)).
  { destruct (decide (c = claim_cursor (ring d))) as [E|]; [|lia]. exfalso.
    destruct (di_slots d Hd (c - cap)) as (S1 & S2 & S3); [lia|].
    rewrite <- (slot_at_shift _ (c - cap)) in S1, S2, S3. replace (c - cap + cap) with c in * by lia.
    assert (Hl : live d (c - cap)) by (apply dec_stable; intros Hn; apply S3 in Hn; lia).
    assert (Hnw : ~ writing d (c - cap)) by (intros Hw; apply S1 in Hw; lia).
    destruct (S2 Hnw Hl). lia. }
  destruct (di_slots d Hd c) as (S1 & S2 & _); [lia|].
  assert (Hnw : ~ writing d c) by (intros Hw; apply S1 in Hw; lia).
  split; [done|]. split; [done|]. apply S2; [done|]. left. fold c. lia.
Qed.

Lemma acquire_step_inv d :
  dinv d ->
  sequence (slot_at (slots (ring d)) (consumer_mirror (ring d))) = consumer_mirror (ring d) + 1 ->
  dinv (mkD (set_mirror (ring d) (consumer_mirror (ring d) + 1)) (d_producers d)
          (leases d ++ [consumer_mirror (ring d)]) (claimed_values d)
          (delivered d ++ [lease_value (ring d) (consumer_mirror (ring d))])).
Proof.
  intros Hd Hseq. destruct (acquire_ready d Hd Hseq) as (Hlt & Hnw & Hval).
  set (c := consumer_mirror (ring d)) in *. pose proof Hd as [D1 D2 D3 D4 D5 D6 D7 D8 D9 D10].
  fold c in D2, D3, D5, D6. set (d' := mkD _ _ _ _ _).
  assert (Hlive : forall s, live d' s <-> live d s).
  { intros s. unfold live. simpl. fold c. rewrite elem_of_app, list_elem_of_singleton.
    split; [intros [?|[?| ->]]|intros [?|?]]; (by auto) || (left; lia) ||
      (destruct (decide (s = c)); [right; by right|left; lia]). }
  split; simpl; try done.
  - lia.
  - lia.
  - rewrite D5, Hval. replace (Z.to_nat (c + 1)) with (S (Z.to_nat c)) by lia. unfold claimed_at.
    destruct (lookup_lt_is_Some_2 (claimed_values d) (Z.to_nat c)) as [v Hv]; [unfold zlen in D4; lia|].
    rewrite Hv. by rewrite (take_S_r _ _ _ Hv), fmap_app.
  - intros s Hs. apply elem_of_app in Hs as [Hs|Hs].
    + pose proof (D6 s Hs). lia.
    + apply list_elem_of_singleton in Hs as ->. lia.
  - apply NoDup_app. split; [done|]. split; [|apply NoDup_singleton].
    intros s Hs Hin. apply list_elem_of_singleton in Hin as ->. pose proof (D6 c Hs). lia.
  - intros i p Hi. pose proof (D8 i p Hi) as Hp.
    assert (Hwc : writes p <> Some c) by (intros Hw; apply Hnw; by exists i, p).
    destruct p as [|u s|u s|u s|s|s]; simpl in *; fold c in Hp; try done.
    + destruct Hp as [H1 H2]. split; [done|]. intros He Hl. apply (H2 He). by apply Hlive.
    + destruct Hp as [H1 H2]. split; [|done]. assert (s <> c) by congruence. lia.
    + destruct Hp as [H1 H2]. split; [|done]. assert (s <> c) by congruence. lia.
  - intros s Hs. destruct (D10 s Hs) as (S1 & S2 & S3). unfold slot_ok. rewrite Hlive. done.
Qed.

Lemma remove_one_elem s x l : NoDup l -> x ∈ remove_one s l <-> x ∈ l /\ x <> s.
Proof.
  induction 1 as [|y l Hy _ IH]; simpl; [set_solver|].
  destruct (y =? s) eqn:E; bool_to_prop; set_solver.
Qed.
Lemma remove_one_nodup s l : NoDup l -> NoDup (remove_one s l).
Proof.
  intros Hl. induction Hl as [|y l Hy Hl IH]; simpl; [by apply NoDup_nil|].
  destruct (y =? s); [done|]. apply NoDup_cons. split; [|done]. rewrite remove_one_elem by done. tauto.
Qed.

(** Giving a slot back. *)
Lemma release_step_inv d s :
  dinv d -> s ∈ leases d ->
  dinv (mkD (release_slot (ring d) s) (d_producers d) (remove_one s (leases d))
          (claimed_values d) (delivered d)).
Proof.
  intros Hd Hs. pose proof Hd as [D1 D2 D3 D4 D5 D6 D7 D8 D9 D10].
  pose proof (D6 s Hs) as Hsr. set (d' := mkD _ _ _ _ _).
  assert (Hlive : forall s', live d' s' <-> live d s' /\ s' <> s).
  { intros s'. unfold live. simpl. rewrite remove_one_elem by done. split.
    - intros [H|[H1 H2]]; [split; [by left|lia]|split; [by right|done]].
    - intros [[H|H] H2]; [by left|right; done]. }
  assert (Hkeep : forall s', claim_cursor (ring d) - cap <= s' < claim_cursor (ring d) -> s' <> s ->
    slot_at (slots (release_slot (ring d) s)) s' = slot_at (slots (ring d)) s').
  { intros s' Hr Hne. simpl. apply (slot_at_set_ne (claim_cursor (ring d))); [lia|done|done]. }
  split; simpl; try done.
  - by rewrite set_slot_length.
  - intros x Hx. apply remove_one_elem in Hx as [Hx _]; auto.
  - by apply remove_one_nodup.
  - intros i p Hi. pose proof (D8 i p Hi) as Hp. destruct p as [|u x|u x|u x|x|x]; try done; simpl in *.
    + destruct Hp as [H1 H2]. split; [done|]. intros He Hl. apply Hlive in Hl as [Hl _]. by apply (H2 He).
    + destruct Hp as [H1 H2]. split; [done|]. unfold lease_value in *. by rewrite Hkeep by lia.
  - intros x Hx. destruct (D10 x Hx) as (S1 & S2 & S3). unfold slot_ok. rewrite Hlive. simpl.
    destruct (decide (x = s)) as [->|Hne].
    + rewrite slot_at_set_eq by done. simpl. split_and!; [|tauto|done].
      intros (i & p & Hi & Hw). simpl in Hi. pose proof (D8 i p Hi) as Hp.
      destruct p; try discriminate Hw; injection Hw as ->; destruct Hp; lia.
    + rewrite <- (Hkeep x Hx Hne) in S1, S2, S3. simpl in S1, S2, S3. split_and!; [done| |].
      * intros Hnw [Hl _]. by apply S2.
      * intros Hn. apply S3. intros Hl. by apply Hn.
Qed.

Lemma dstep_inv d d' : dinv d -> dstep d d' -> dinv d'.
Proof.
  intros Hd Hs. destruct Hs as [d i v Hi Hc|d i v Hi Hc|d i v s Hi Hne|d i v s Hi He|d i v s Hi He|
    d i v s Hi|d i v s Hi|d i s Hi|d i s Hi|d Hseq|d s Hs|d].
  - done.
  - eapply producer_step_inv; [done|exact Hi|done..|]. simpl. lia.
  - by eapply producer_step_inv; [done|exact Hi|..].
  - eapply producer_step_inv; [done|exact Hi|done..|]. split; [apply (di_producers d Hd i _ Hi)|].
    intros ->. by apply next_slot.
  - subst s. by apply cas_step_inv.
  - eapply producer_step_inv; [done|exact Hi|done..|]. simpl. lia.
  - pose proof (di_producers d Hd i _ Hi) as [Hr Hv].
    eapply slot_step_inv; [done|exact Hi|done| |by rewrite Hv]. left. split; [done|]. simpl.
    destruct (di_slots d Hd s) as (S1 & _); [pose proof (di_window d Hd); lia|]. apply S1.
    by exists i, (RPClaimed v s).
  - pose proof (di_producers d Hd i _ Hi) as [Hr Hv].
    eapply slot_step_inv; [done|exact Hi|done| |done]. by right.
  - by eapply producer_step_inv; [done|exact Hi|..].
  - by apply acquire_step_inv.
  - by apply release_step_inv.
  - destruct Hd as [D1 D2 D3 D4 D5 D6 D7 D8 D9 D10]. by split.
Qed.

Lemma d_initial_inv n : dinv (d_initial n).
Proof.
  assert (Hlen : length (slots ring_init) = Z.to_nat cap)
    by (simpl; by rewrite length_fmap, length_seq).
  assert (Hout : forall i p, replicate n RPOut !! i = Some p -> p = RPOut).
  { intros i p Hi. by apply lookup_replicate in Hi as [-> _]. }
  split; simpl; try done; try lia.
  - intros s Hs. by apply not_elem_of_nil in Hs.
  - by apply NoDup_nil.
  - intros i p Hi. by rewrite (Hout i p Hi).
  - intros i j p q s Hi _ Hp. by rewrite (Hout i p Hi) in Hp.
  - intros s Hs. assert (Hnl : ~ live (d_initial n) s).
    { intros [H|H]; simpl in H; [lia|by apply not_elem_of_nil in H]. }
    assert (Hnw : ~ writing (d_initial n) s).
    { intros (i & p & Hi & Hp). simpl in Hi. by rewrite (Hout i p Hi) in Hp. }
    split_and!; [done|done|]. intros _. simpl. rewrite <- slot_at_shift. unfold slot_at. rewrite slot_index_mod.
    rewrite Z.mod_small by lia. rewrite (nth_lookup_Some _ _ _ (mkSlot (s + cap) None)); [done|].
    rewrite list_lookup_fmap, lookup_seq_lt by lia. simpl. do 2 f_equal. lia.
Qed.

(** C18. The ring under any interleaving of producers and the consumer.  The values
    the consumer leases are the claimed values in claim order, none lost, none
    twice; at most [capacity] sequences are claimed or leased and not given
    back; while a lease is held its slot keeps the value; and no two producers
    ever write the same slot. *)
Theorem ring_fifo n d :
  steps dstep (d_initial n) d ->
  delivered d = Some <$> take (Z.to_nat (consumer_mirror (ring d))) (claimed_values d) /\
  claim_cursor (ring d) <= consumer_mirror (ring d) + cap /\
  (forall s, s ∈ leases d -> lease_value (ring d) s = claimed_at d s /\
     claim_cursor (ring d) <= s + cap) /\
  (forall i j p q s s', d_producers d !! i = Some p -> d_producers d !! j = Some q ->
     writes p = Some s -> writes q = Some s' -> slot_index s = slot_index s' -> i = j).
Proof.
  intros Hs. assert (Hd : dinv d) by (eapply steps_inv; [exact dstep_inv|exact Hs|apply d_initial_inv]).
  split; [apply Hd|]. split; [pose proof (di_window d Hd); lia|]. split.
  - intros s Hl. pose proof (di_leases d Hd s Hl). pose proof (di_mirror d Hd).
    destruct (di_slots d Hd s) as (S1 & S2 & _); [lia|]. split; [|lia]. apply S2; [|by right].
    intros (i & p & Hi & Hw). pose proof (di_producers d Hd i p Hi) as Hp.
    destruct p; try discriminate Hw; injection Hw as ->; destruct Hp; lia.
  - intros i j p q s s' Hi Hj Hp Hq Hix.
    assert (s = s') as <-; [|by eapply (di_exclusive d Hd)].
    eapply slot_index_inj; [| |exact Hix]; eapply live_window; try done; apply writing_live; try done;
      eexists _, _; eauto.
Qed.

(** The methods are undisturbed runs of the steps. *)
Lemma try_publish_steps d i v s r :
  dinv d -> d_producers d !! i = Some RPOut ->
  try_publish (ring d) v = (RP_Published, s, r) ->
  steps dstep d (mkD r (d_producers d) (leases d) (claimed_values d ++ [v]) (delivered d)).
Proof.
  intros Hd Hi. unfold try_publish. destruct (closed (ring d)) eqn:Ec; [done|].
  set (c := claim_cursor (ring d)).
  destruct (negb (sequence (slot_at (slots (ring d)) c) =? c)) eqn:E; [done|].
  bool_to_prop. intros [= <- <-].
  assert (Hlt : (i < length (d_producers d))%nat) by by eapply lookup_lt_Some.
  eapply steps_step; [by apply (d_load d i v Hi Ec)|]. fold c. unfold set_p.
  eapply steps_step; [eapply (d_check _ i v c); simpl; [by rewrite list_lookup_insert_eq|done]|].
  unfold set_p. simpl. rewrite list_insert_insert_eq.
  eapply steps_step; [eapply (d_cas _ i v c); simpl; [by rewrite list_lookup_insert_eq|done]|]. simpl.
  rewrite list_insert_insert_eq.
  eapply steps_step; [eapply (d_write _ i v c); simpl; by rewrite list_lookup_insert_eq|].
  unfold set_p. simpl. rewrite list_insert_insert_eq.
  eapply steps_step; [eapply (d_store _ i c); simpl; by rewrite list_lookup_insert_eq|].
  unfold set_p. simpl. rewrite list_insert_insert_eq.
  eapply steps_step; [eapply (d_cursor _ i c); simpl; by rewrite list_lookup_insert_eq|].
  unfold set_p, lease_value. simpl. rewrite list_insert_insert_eq, list_insert_id by done.
  unfold set_slots, set_claim, publish_cursor. simpl.
  rewrite slot_at_set_eq by apply Hd. simpl. unfold set_slot.
  rewrite list_insert_insert_eq. apply steps_refl.
Qed.

(** *** One caller at a time

    [ring_is r o l]: between calls the ring [r] holds the values [l], with the
    lease [o] outstanding, if any. *)
Definition ring_is (r : DisruptorMpscRing) (o : option Z) (l : list V) : Prop :=
  exists vs ds, dinv (mkD r [RPOut] (option_list o) vs ds) /\
    published_cursor r = claim_cursor r /\ closed r = false /\
    l = drop (Z.to_nat (consumer_mirror r)) vs.

Lemma ring_is_init : ring_is ring_init None [].
Proof. exists [], []. split; [apply (d_initial_inv 1)|]. done. Qed.

Lemma ring_is_depth r o l : ring_is r o l -> zlen l = claim_cursor r - consumer_mirror r.
Proof.
  intros (vs & ds & Hd & _ & _ & ->). pose proof (di_claimed _ Hd). pose proof (di_mirror _ Hd).
  unfold zlen in *. simpl in *. rewrite length_drop. lia.
Qed.

(** Publishing: refused exactly when values and lease fill the ring. *)
Lemma ring_is_publish r l v :
  ring_is r None l ->
  (zlen l < cap -> exists s r', try_publish r v = (RP_Published, s, r') /\ ring_is r' None (l ++ [v])) /\
  (cap <= zlen l -> exists s, try_publish r v = (RP_Full, s, r)).
Proof.
  intros Hr. pose proof (ring_is_depth _ _ _ Hr) as Hdep. destruct Hr as (vs & ds & Hd & Hp & Hc & Hl).
  pose proof (next_slot _ Hd) as Hn. simpl in Hn. pose proof (di_window _ Hd) as Hw. simpl in Hw.
  pose proof (di_mirror _ Hd) as Hm. simpl in Hm. split.
  - intros Hlt.
    assert (Hs : sequence (slot_at (slots r) (claim_cursor r)) = claim_cursor r).
    { apply Hn. intros [H|H]; simpl in H; [lia|by apply not_elem_of_nil in H]. }
    destruct (try_publish r v) as [[code s] r'] eqn:E. pose proof E as E'. unfold try_publish in E'.
    rewrite Hc, Hs, Z.eqb_refl in E'. simpl in E'. injection E' as <- <- <-.
    eexists _, _. split; [done|].
    pose proof (try_publish_steps _ 0%nat v _ _ Hd eq_refl E) as Hst.
    exists (vs ++ [v]), ds. split; [eapply steps_inv; [exact dstep_inv|exact Hst|exact Hd]|].
    simpl. split; [done|]. split; [done|]. rewrite Hl. symmetry. apply drop_app_le.
    pose proof (di_claimed _ Hd). unfold zlen in *. simpl in *. lia.
  - intros Hge. unfold try_publish. rewrite Hc.
    assert (Hs : sequence (slot_at (slots r) (claim_cursor r)) <> claim_cursor r).
    { rewrite Hn. intros Hnl. apply Hnl. left. simpl. lia. }
    rewrite (proj2 (Z.eqb_neq _ _) Hs). by eexists.
Qed.

(** Acquiring: the oldest value, and nothing from an empty ring. *)
Lemma ring_is_acquire r l :
  ring_is r None l ->
  match l with
  | [] => exists r', ring_try_acquire r = (None, r') /\ ring_is r' None [] /\
            ring_empty r' = true
  | x :: l => exists s r', ring_try_acquire r = (Some s, r') /\ ring_is r' (Some s) l /\
            lease_value r' s = Some x
  end.
Proof.
  intros Hr. pose proof (ring_is_depth _ _ _ Hr) as Hdep. destruct Hr as (vs & ds & Hd & Hp & Hc & Hl).
  pose proof (di_mirror _ Hd) as Hm. pose proof (di_window _ Hd) as Hw. simpl in Hm, Hw.
  set (d := mkD r [RPOut] [] vs ds) in *.
  assert (Hnw : forall s, ~ writing d s).
  { intros s (i & p & Hi & Hs). destruct i as [|i]; simpl in Hi; [injection Hi as <-|]; done. }
  destruct l as [|x l]; autorewrite with hpa_rw in Hdep.
  - assert (Hne : sequence (slot_at (slots r) (consumer_mirror r)) <> consumer_mirror r + 1).
    { intros Heq. destruct (acquire_ready d Hd Heq) as (H & _). simpl in H. lia. }
    unfold ring_try_acquire. rewrite (proj2 (Z.eqb_neq _ _) Hne). simpl.
    rewrite (proj2 (Z.ltb_ge _ _)) by lia. exists r. split; [done|]. split.
    + exists vs, ds. auto.
    + unfold ring_empty. apply Z.eqb_eq. lia.
  - pose proof (zlen_nonneg l).
    destruct (di_slots _ Hd (consumer_mirror r)) as (_ & S2 & _); [simpl; lia|].
    destruct (S2 (Hnw _)) as [Hs Hv]; [left; simpl; lia|]. simpl in Hs, Hv.
    unfold ring_try_acquire. rewrite Hs, Z.eqb_refl. simpl. eexists _, _. split; [done|]. split.
    + exists vs, (ds ++ [lease_value r (consumer_mirror r)]). split; [|split; [done|split; [done|]]].
      * apply (acquire_step_inv d Hd Hs).
      * simpl. replace (Z.to_nat (consumer_mirror r + 1)) with (S (Z.to_nat (consumer_mirror r))) by lia.
        rewrite <- Nat.add_1_r, <- drop_drop, <- Hl. done.
    + unfold lease_value. simpl. rewrite Hv. unfold claimed_at. simpl.
      assert (Hh : drop (Z.to_nat (consumer_mirror r)) vs !! 0%nat = Some x) by (by rewrite <- Hl).
      rewrite lookup_drop, Nat.add_0_r in Hh. exact Hh.
Qed.

Lemma ring_is_release r s l : ring_is r (Some s) l -> ring_is (release_slot r s) None l.
Proof.
  intros (vs & ds & Hd & Hp & Hc & Hl). exists vs, ds. split; [|done].
  pose proof (release_step_inv _ s Hd) as Hr. simpl in Hr. rewrite Z.eqb_refl in Hr.
  apply Hr. apply list_elem_of_here.
Qed.

(** Publishing while a lease is held, which takes one slot more. *)
Lemma ring_is_publish_leased r s0 l v :
  ring_is r (Some s0) l ->
  (exists s r', try_publish r v = (RP_Published, s, r') /\ ring_is r' (Some s0) (l ++ [v])) \/
  (exists s, try_publish r v = (RP_Full, s, r)).
Proof.
  intros Hr. pose proof (ring_is_depth _ _ _ Hr) as Hdep. destruct Hr as (vs & ds & Hd & Hp & Hc & Hl).
  destruct (try_publish r v) as [[code s] r'] eqn:E. pose proof E as E'. unfold try_publish in E'.
  rewrite Hc in E'. destruct (negb _); injection E' as <- <- <-; [right; by eexists|left].
  eexists _, _. split; [done|].
  pose proof (try_publish_steps _ 0%nat v _ _ Hd eq_refl E) as Hst.
  exists (vs ++ [v]), ds. split; [eapply steps_inv; [exact dstep_inv|exact Hst|exact Hd]|].
  simpl. split; [done|]. split; [done|]. rewrite Hl. symmetry. apply drop_app_le.
  pose proof (di_claimed _ Hd). pose proof (di_mirror _ Hd). unfold zlen in *. simpl in *. lia.
Qed.

(** The operations in any reachable state.  A publication is refused as closed,
    or as full exactly when the sequence [capacity] places back is still
    claimed or leased, and otherwise takes the next sequence by a run of steps;
    an acquisition leases the next sequence with its claimed value, and
    returns nothing only when every claimed value was consumed or the producer
    of the next one has not published it yet. *)
Theorem ring_operations n d v :
  steps dstep (d_initial n) d ->
  match try_publish (ring d) v with
  | (RP_Closed, _, r) => closed (ring d) = true /\ r = ring d
  | (RP_Full, _, r) => closed (ring d) = false /\ live d (claim_cursor (ring d) - cap) /\ r = ring d
  | (RP_Published, s, r) =>
      closed (ring d) = false /\ ~ live d (claim_cursor (ring d) - cap) /\ s = claim_cursor (ring d) /\
      forall i, d_producers d !! i = Some RPOut ->
        steps dstep d (mkD r (d_producers d) (leases d) (claimed_values d ++ [v]) (delivered d))
  end /\
  match ring_try_acquire (ring d) with
  | (Some c, r) => c = consumer_mirror (ring d) /\ lease_value (ring d) c = claimed_at d c /\
      dstep d (mkD r (d_producers d) (leases d ++ [c]) (claimed_values d)
                 (delivered d ++ [lease_value (ring d) c]))
  | (None, _) => consumer_mirror (ring d) = claim_cursor (ring d) \/ writing d (consumer_mirror (ring d))
  end.
Proof.
  intros Hs. assert (Hd : dinv d) by (eapply steps_inv; [exact dstep_inv|exact Hs|apply d_initial_inv]).
  split.
  - destruct (try_publish (ring d) v) as [[code s] r] eqn:E. pose proof E as E'. unfold try_publish in E'.
    pose proof (next_slot d Hd) as Hn. destruct (closed (ring d)); [by injection E' as <- <- <-|].
    destruct (sequence _ =? _) eqn:Eq; bool_to_prop; injection E' as <- <- <-.
    + split; [done|]. split; [by apply Hn|]. split; [done|]. intros i Hi. by eapply try_publish_steps.
    + split; [done|]. split; [|done]. apply dec_stable. by rewrite <- Hn.
  - unfold ring_try_acquire. destruct (sequence _ =? _) eqn:Eq; bool_to_prop; simpl.
    + destruct (acquire_ready d Hd Eq) as (_ & _ & Hv). split; [done|]. split; [done|]. by apply d_acquire.
    + destruct (decide (consumer_mirror (ring d) = claim_cursor (ring d))) as [|Hne]; [by left|right].
      pose proof (di_mirror d Hd). pose proof (di_window d Hd).
      destruct (di_slots d Hd (consumer_mirror (ring d))) as (_ & S2 & _); [lia|].
      apply writing_stable. intros Hnw. destruct S2 as [S2 _]; [done|left; lia|done].
Qed.
End Ring.

(** ** Concrete interleavings *)

(** Take one step, its side conditions by computation. *)
Tactic Notation "dgo" uconstr(c) := eapply steps_step; [eapply c; (apply list_elem_of_here || (vm_compute; done))|cbv].

Lemma ring_fifo_witness :
  let d := mkD (mkRing 1 1 0 0 0 0 false [mkSlot 1 (Some 7%nat); mkSlot 1 None])
             [RPStored 0] [0] [7%nat] [Some 7%nat] in
  delivered d = Some <$> take (Z.to_nat (consumer_mirror (ring d))) (claimed_values d).
Proof.
  refine (proj1 (ring_fifo 2 eq_refl 1 (mkD (mkRing 1 1 0 0 0 0 false [mkSlot 1 (Some 7%nat); mkSlot 1 None])
             [RPStored 0] [0] [7%nat] [Some 7%nat]) _)).
  cbv. dgo (d_load 2 _ 0%nat 7%nat). dgo (d_check 2 _ 0%nat 7%nat 0). dgo (d_cas 2 _ 0%nat 7%nat 0).
  dgo (d_write 2 _ 0%nat 7%nat 0). dgo (d_store 2 _ 0%nat 0). dgo (d_acquire 2). apply steps_refl.
Defined.

Lemma ring_operations_witness :
  (try_publish 2 (ring (d_initial 2 1)) 7%nat).1.1 = RP_Published.
Proof.
  pose proof (ring_operations 2 eq_refl 1 (d_initial 2 1) 7%nat (steps_refl _ _)) as [H _].
  vm_compute in H. destruct H as (_ & _ & H & _). vm_compute. reflexivity.
Defined.

(** [published_cursor_] is stored, not advanced to a maximum: when a later
    producer publishes first, the earlier one moves the cursor back.  The
    queue then has nobody at work and a value to take, and [empty()] says it
    is empty. *)
Theorem empty_hides_published_value :
  exists d, steps (dstep 4) (d_initial 4 2) d /\
    d_producers d = [RPOut; RPOut] /\ leases d = [] /\
    ring_empty (ring d) = true /\ (ring_try_acquire 4 (ring d)).1 = Some 1 /\
    lease_value 4 (ring d) 1 = Some 20%nat.
Proof.
  eexists. split. {
  cbv. dgo (d_load 4 _ 0%nat 10%nat). dgo (d_check 4 _ 0%nat 10%nat 0). dgo (d_cas 4 _ 0%nat 10%nat 0).
  dgo (d_load 4 _ 1%nat 20%nat). dgo (d_check 4 _ 1%nat 20%nat 1). dgo (d_cas 4 _ 1%nat 20%nat 1).
  dgo (d_write 4 _ 1%nat 20%nat 1). dgo (d_store 4 _ 1%nat 1). dgo (d_cursor 4 _ 1%nat 1).
  dgo (d_write 4 _ 0%nat 10%nat 0). dgo (d_store 4 _ 0%nat 0). dgo (d_cursor 4 _ 0%nat 0).
  dgo (d_acquire 4 (V := nat)). dgo (d_release 4 (V := nat) _ 0). apply steps_refl. }
  by vm_compute.
Qed.

(** [Full] is also answered when the cursor moved between its load and the
    slot check: a ring of four slots with one claimed refuses a value. *)
Theorem full_with_free_slots :
  exists d, steps (dstep 4) (d_initial 4 2) d /\
    claim_cursor (ring d) - consumer_mirror (ring d) = 1 /\
    d_producers d !! 1%nat = Some (RPLoaded 20%nat 0) /\
    sequence (slot_at 4 (slots (ring d)) 0) <> 0.
Proof.
  eexists. split. {
  cbv. dgo (d_load 4 _ 0%nat 10%nat). dgo (d_load 4 _ 1%nat 20%nat).
  dgo (d_check 4 _ 0%nat 10%nat 0). dgo (d_cas 4 _ 0%nat 10%nat 0).
  dgo (d_write 4 _ 0%nat 10%nat 0). dgo (d_store 4 _ 0%nat 0). apply steps_refl. }
  by vm_compute.
Qed.
