(* ===== verification/DisruptorMailbox.v ===== *)
(** * The disruptor mailbox

    [mailbox/disruptor_actor_mailbox.hpp] and the overflow handlers
    [mailbox/detail/handlers/disruptor_*]: up to eight rings of [Disruptor.v],
    a dynamic and a system queue, one reservation manager, and the overflow
    queue of [Lanes.v].  Each operation is taken undisturbed; the publisher
    guard, which counts calls in progress, is then back where it was.  The
    dispatch target is set, and its callbacks are recorded as events.  A
    blocked producer is a result of its own. *)

From S2P Require Import Prelude DeliveryTypes Pressure Reservation Lanes Mailbox Disruptor.
From stdpp Require Import base numbers list.

#[local] Open Scope Z_scope.

Definition kMaxPriorityLanes : Z := 8.

Section DisruptorMailbox.
Context {E T : Type}.
Context (Capacity : Z) (envelope_bytes : Z)              (* template arguments and sizeof *)
  (priority_of : E -> Z) (deadline_of : E -> Z)
  (preflight : E -> option FailureReason).               (* a refusal, if any *)

Inductive DEvent :=
| WorkAvailable
| OnSystemMessage (m : T)
| OnUserMessage (e : option E)
| RecordAccepted (sequence : Z)
| RecordRejected (reason : FailureReason)
| NotifyBlocked.

Record DStats := mkStats {
  total_accepted : Z; total_rejected_d : Z; total_dropped_d : Z; total_dead_letters_d : Z
}.

Record DMailbox := mkDMailbox {
  dm_actor : Z;
  dm_rings : list (@DisruptorMpscRing E);
  dm_num_lanes : Z;
  dm_dynamic : list T;
  dm_system : list T;
  dm_protected : Z;
  dm_reservation : ReservationManager;
  dm_config : MailboxConfig;
  dm_pressure : MailboxPressureState;
  dm_accepting : bool;
  dm_signaled : bool;
  dm_overflow : @OverflowQueue E;
  dm_stats : DStats;
  dm_events : list DEvent
}.

Definition set_rings m x := mkDMailbox (dm_actor m) x (dm_num_lanes m) (dm_dynamic m) (dm_system m) (dm_protected m) (dm_reservation m) (dm_config m) (dm_pressure m) (dm_accepting m) (dm_signaled m) (dm_overflow m) (dm_stats m) (dm_events m).
Definition set_queues m d s := mkDMailbox (dm_actor m) (dm_rings m) (dm_num_lanes m) d s (dm_protected m) (dm_reservation m) (dm_config m) (dm_pressure m) (dm_accepting m) (dm_signaled m) (dm_overflow m) (dm_stats m) (dm_events m).
Definition set_res m x := mkDMailbox (dm_actor m) (dm_rings m) (dm_num_lanes m) (dm_dynamic m) (dm_system m) (dm_protected m) x (dm_config m) (dm_pressure m) (dm_accepting m) (dm_signaled m) (dm_overflow m) (dm_stats m) (dm_events m).
Definition set_press m x := mkDMailbox (dm_actor m) (dm_rings m) (dm_num_lanes m) (dm_dynamic m) (dm_system m) (dm_protected m) (dm_reservation m) (dm_config m) x (dm_accepting m) (dm_signaled m) (dm_overflow m) (dm_stats m) (dm_events m).
Definition set_accepting m x := mkDMailbox (dm_actor m) (dm_rings m) (dm_num_lanes m) (dm_dynamic m) (dm_system m) (dm_protected m) (dm_reservation m) (dm_config m) (dm_pressure m) x (dm_signaled m) (dm_overflow m) (dm_stats m) (dm_events m).
Definition set_signal m x es := mkDMailbox (dm_actor m) (dm_rings m) (dm_num_lanes m) (dm_dynamic m) (dm_system m) (dm_protected m) (dm_reservation m) (dm_config m) (dm_pressure m) (dm_accepting m) x (dm_overflow m) (dm_stats m) (dm_events m ++ es).
Definition set_oq m x := mkDMailbox (dm_actor m) (dm_rings m) (dm_num_lanes m) (dm_dynamic m) (dm_system m) (dm_protected m) (dm_reservation m) (dm_config m) (dm_pressure m) (dm_accepting m) (dm_signaled m) x (dm_stats m) (dm_events m).
Definition set_stats m x := mkDMailbox (dm_actor m) (dm_rings m) (dm_num_lanes m) (dm_dynamic m) (dm_system m) (dm_protected m) (dm_reservation m) (dm_config m) (dm_pressure m) (dm_accepting m) (dm_signaled m) (dm_overflow m) x (dm_events m).
Definition set_cfg m x lanes := mkDMailbox (dm_actor m) (dm_rings m) lanes (dm_dynamic m) (dm_system m) (dm_protected m) (dm_reservation m) x (dm_pressure m) (dm_accepting m) (dm_signaled m) (dm_overflow m) (dm_stats m) (dm_events m).
Definition emit m e := set_signal m (dm_signaled m) [e].

Definition count_accepted m := set_stats m (let s := dm_stats m in mkStats (u64 (total_accepted s + 1)) (total_rejected_d s) (total_dropped_d s) (total_dead_letters_d s)).
Definition count_rejected m := set_stats m (let s := dm_stats m in mkStats (total_accepted s) (u64 (total_rejected_d s + 1)) (total_dropped_d s) (total_dead_letters_d s)).
Definition count_dropped m := set_stats m (let s := dm_stats m in mkStats (total_accepted s) (total_rejected_d s) (u64 (total_dropped_d s + 1)) (total_dead_letters_d s)).
Definition count_dead m := set_stats m (let s := dm_stats m in mkStats (total_accepted s) (total_rejected_d s) (total_dropped_d s) (u64 (total_dead_letters_d s + 1))).

(** ** Construction and configuration *)

Definition clamp_messages (n : Z) : Z := if (n =? 0) || (Capacity <? n) then Capacity else n.

Definition with_max_messages (c : MailboxConfig) (n : Z) : MailboxConfig :=
  mkConfig (mkCapacity n (max_bytes (capacity c))) (priority_levels c) (overflow_policy c)
    (high_watermark c) (low_watermark c) (critical_watermark c) (protected_system_messages c)
    (max_overflow_depth c) (signal_min_interval_ms c) (priority_aware c).

Definition clamp_config (c : MailboxConfig) : MailboxConfig :=
  with_max_messages c (clamp_messages (max_messages (capacity c))).

(** The overflow queue starts without a depth limit. *)
Definition dm_init (actor : Z) (c : MailboxConfig) (protected_system_msgs : Z) : DMailbox :=
  mkDMailbox actor (replicate (Z.to_nat kMaxPriorityLanes) (ring_init Capacity))
    (if priority_aware c && (1 <? priority_levels c) then Z.min (priority_levels c) kMaxPriorityLanes else 1)
    [] [] protected_system_msgs reservation_init (clamp_config c) PS_Normal true false
    (oq_init 0) (mkStats 0 0 0 0) [].

Definition dm_set_config (m : DMailbox) (c : MailboxConfig) : DMailbox :=
  set_oq (set_cfg m (clamp_config c) (dm_num_lanes m))
    (oq_set_max_depth (dm_overflow m) (max_overflow_depth c)).

Definition dm_resize (m : DMailbox) (n : Z) : Z * DMailbox :=
  (clamp_messages n, set_cfg m (with_max_messages (dm_config m) (clamp_messages n)) (dm_num_lanes m)).

Definition dm_set_num_user_lanes (m : DMailbox) (n : Z) : DMailbox :=
  set_cfg m (dm_config m) (if n <? 1 then 1 else if kMaxPriorityLanes <? n then kMaxPriorityLanes else n).

(** ** Pressure and results *)

Definition dm_pressure_ratio (m : DMailbox) : double :=
  let mx := max_messages (capacity (dm_config m)) in
  if mx =? 0 then double_of_Z 0
  else ddiv (double_of_Z (reserved_messages (dm_reservation m))) (double_of_Z mx).

Definition dm_update_pressure (m : DMailbox) (hard_failure : bool) : DMailbox :=
  let c := dm_config m in
  set_press m (PressureStateMachine.next_state (dm_pressure_ratio m) hard_failure
                 (high_watermark c) (low_watermark c) (critical_watermark c) (dm_pressure m)).

Definition dm_result (m : DMailbox) (code : EnqueueResultCode) (retry : Z) : EnqueueResult :=
  mkEnqueueResult code (dm_actor m) (reserved_messages (dm_reservation m))
    (max_messages (capacity (dm_config m))) (queued_bytes (dm_reservation m))
    (max_bytes (capacity (dm_config m))) BR_HighWatermark (dm_pressure m) (dm_pressure_ratio m) retry.

Definition make_accepted (m : DMailbox) : EnqueueResult * DMailbox :=
  let m := count_accepted m in (dm_result m EC_Accepted 0, m).
Definition make_rejected (m : DMailbox) : EnqueueResult * DMailbox :=
  let m := count_rejected m in (dm_result m EC_Rejected (signal_min_interval_ms (dm_config m)), m).

(** [make_rejected], [record_reject], [update_pressure_on_rejection]. *)
Definition refuse (m : DMailbox) (reason : FailureReason) : EnqueueResult * DMailbox :=
  let '(r, m) := make_rejected m in (r, dm_update_pressure (emit m (RecordRejected reason)) true).

Definition signal_work (m : DMailbox) : DMailbox :=
  if dm_signaled m then m else set_signal m true [WorkAvailable].

(** ** Rings *)

Definition ring_for (m : DMailbox) (priority : Z) : nat :=
  Z.to_nat (Z.min priority (u8 (dm_num_lanes m - 1))).

Definition get_ring (m : DMailbox) (i : nat) : @DisruptorMpscRing E :=
  nth i (dm_rings m) (ring_init Capacity).

Definition lane_order (m : DMailbox) : list nat := seq 0 (Z.to_nat (dm_num_lanes m)).

(** Publish into the ring of the envelope's priority. *)
Definition ring_publish (m : DMailbox) (e : E) : RingPublishCode * Z * DMailbox :=
  let i := ring_for m (priority_of e) in
  let '(code, s, r) := try_publish Capacity (get_ring m i) e in
  (code, s, set_rings m (<[i := r]> (dm_rings m))).

(** The first ring of [order] that yields a lease, with the sequence leased;
    the rings tried before count a gap at most. *)
Fixpoint acquire_first (order : list nat) (m : DMailbox) : option (nat * Z) * DMailbox :=
  match order with
  | [] => (None, m)
  | i :: order =>
      let '(lease, r) := ring_try_acquire Capacity (get_ring m i) in
      let m := set_rings m (<[i := r]> (dm_rings m)) in
      match lease with
      | Some s => (Some (i, s), m)
      | None => acquire_first order m
      end
  end.

Definition release_lease (m : DMailbox) (i : nat) (s : Z) : DMailbox :=
  set_rings m (<[i := release_slot Capacity (get_ring m i) s]> (dm_rings m)).

(** [drop_one_oldest_ring], [drop_one_lowest_priority_ring]. *)
Definition drop_from (m : DMailbox) (order : list nat) : bool * DMailbox :=
  match acquire_first order m with
  | (Some (i, s), m) =>
      let m := release_lease m i s in
      (true, count_dropped (set_res m (release (dm_reservation m) envelope_bytes)))
  | (None, m) => (false, m)
  end.
Definition drop_one_oldest_ring (m : DMailbox) : bool * DMailbox := drop_from m (lane_order m).
Definition drop_one_lowest_priority_ring (m : DMailbox) : bool * DMailbox :=
  drop_from m (reverse (lane_order m)).

(** One turn of the drain loop moves a message; [fuel] bounds the turns. *)
Fixpoint dm_drain_loop (fuel : nat) (m : DMailbox) : DMailbox :=
  match fuel with
  | O => m
  | S fuel =>
      match oq_try_pop (dm_overflow m) with
      | (None, _) => m
      | (Some e, oq) =>
          let m := set_oq m oq in
          let c := capacity (dm_config m) in
          match try_reserve (dm_reservation m) envelope_bytes (max_messages c) (max_bytes c) with
          | (RR_Reserved, res) =>
              let '(code, _, m) := ring_publish (set_res m res) e in
              match code with
              | RP_Published => dm_drain_loop fuel m
              | _ => count_dropped (set_res m (release (dm_reservation m) envelope_bytes))
              end
          | (_, res) =>
              let m := set_res m res in
              let '(ok, oq) := oq_try_push (dm_overflow m) e in
              if ok then set_oq m oq else count_dropped m
          end
      end
  end.

Definition dm_drain_overflow (m : DMailbox) : DMailbox :=
  match overflow_policy (dm_config m) with
  | OP_SpillToOverflowQueue => dm_drain_loop (S (length (oq_queue (dm_overflow m)))) m
  | _ => m
  end.

(** ** Overflow handlers *)

(** The result a handler builds: depth and bytes as they were on entry. *)
Record DContext := mkDCtx { dc_depth : Z; dc_bytes : Z }.

Definition handler_result (m : DMailbox) (ctx : DContext) (code : EnqueueResultCode)
    (reason : BackpressureReason) : EnqueueResult :=
  mkEnqueueResult code (dm_actor m) (dc_depth ctx) (max_messages (capacity (dm_config m)))
    (dc_bytes ctx) (max_bytes (capacity (dm_config m))) reason PS_Normal (double_of_Z 0) 0.

Definition dh_reject_newest (m : DMailbox) (ctx : DContext) (reason : ReservationResult) :=
  (handler_result m ctx EC_Rejected (reason_of reason), count_rejected m).
Definition dh_drop_newest (m : DMailbox) (ctx : DContext) :=
  (handler_result m ctx EC_DroppedNewest BR_OverflowPolicy, count_dropped m).
Definition dh_dead_letter (m : DMailbox) (ctx : DContext) :=
  (handler_result m ctx EC_ReroutedToDeadLetter BR_OverflowPolicy, count_dead m).
Definition dh_drop (m : DMailbox) (ctx : DContext) (reason : ReservationResult)
    (drop : DMailbox -> bool * DMailbox) :=
  match drop m with
  | (true, m) => (handler_result m ctx EC_DroppedExisting BR_OverflowPolicy, m)
  | (false, m) => (handler_result m ctx EC_Rejected (reason_of reason), count_rejected m)
  end.
Definition dh_spill (m : DMailbox) (ctx : DContext) (reason : ReservationResult) (e : E) :=
  match oq_try_push (dm_overflow m) e with
  | (true, oq) => (handler_result m ctx EC_ReroutedToOverflow (reason_of reason), set_oq m oq)
  | (false, oq) => (handler_result m ctx EC_Rejected (reason_of reason), count_rejected (set_oq m oq))
  end.

(** [BlockWhenAllowed]: [None] is the wait for the consumer. *)
Definition dh_block (m : DMailbox) (ctx : DContext) (reason : ReservationResult) (e : E) (now : Z)
  : option (EnqueueResult * DMailbox) :=
  let c := capacity (dm_config m) in
  match try_reserve (dm_reservation m) envelope_bytes (max_messages c) (max_bytes c) with
  | (RR_Reserved, res) =>
      Some (handler_result m ctx EC_DroppedExisting BR_OverflowPolicy,
            set_res m (release res envelope_bytes))
  | (_, res) =>
      let m := set_res m res in
      if negb (deadline_of e =? INT64_MAX) && (u64 (deadline_of e) <=? now)
      then Some (handler_result m ctx EC_Rejected (reason_of reason), count_rejected m)
      else None
  end.

Definition disruptor_overflow_handle (m : DMailbox) (ctx : DContext) (reason : ReservationResult)
    (e : E) (now : Z) : option (EnqueueResult * DMailbox) :=
  match overflow_policy (dm_config m) with
  | OP_RejectNewest => Some (dh_reject_newest m ctx reason)
  | OP_DropNewest => Some (dh_drop_newest m ctx)
  | OP_DropOldest => Some (dh_drop m ctx reason drop_one_oldest_ring)
  | OP_DeadLetter => Some (dh_dead_letter m ctx)
  | OP_SignalOnly => Some (dh_reject_newest m ctx reason)
  | OP_SpillToOverflowQueue => Some (dh_spill m ctx reason e)
  | OP_DropLowestPriority => Some (dh_drop m ctx reason drop_one_lowest_priority_ring)
  | OP_BlockWhenAllowed => dh_block m ctx reason e now
  end.

(** ** Producers *)

(** Publication after a reservation: shared by the direct and the retry path. *)
Definition publish_reserved (m : DMailbox) (e : E) : EnqueueResult * DMailbox :=
  let '(code, s, m) := ring_publish m e in
  match code with
  | RP_Published =>
      make_accepted (signal_work (dm_update_pressure (emit m (RecordAccepted s)) false))
  | RP_Closed => refuse (set_res m (release (dm_reservation m) envelope_bytes)) FR_MailboxClosed
  | RP_Full => refuse (set_res m (release (dm_reservation m) envelope_bytes)) FR_MailboxFull
  end.

(** Pressure and retry time filled in after the handler. *)
Definition dm_complete_result (m : DMailbox) (r : EnqueueResult) : EnqueueResult :=
  let retry :=
    if er_retry_after r =? 0 then
      match dm_pressure m with
      | PS_HardPressure => signal_min_interval_ms (dm_config m) * 2
      | PS_SoftPressure | PS_Recovering => signal_min_interval_ms (dm_config m)
      | PS_Normal => 0
      end
    else er_retry_after r in
  mkEnqueueResult (er_code r) (er_target r) (er_depth r) (er_capacity r) (er_bytes r)
    (er_byte_capacity r) (er_pressure_reason r) (dm_pressure m) (dm_pressure_ratio m) retry.

Definition with_code (r : EnqueueResult) (code : EnqueueResultCode) : EnqueueResult :=
  mkEnqueueResult code (er_target r) (er_depth r) (er_capacity r) (er_bytes r)
    (er_byte_capacity r) (er_pressure_reason r) (er_pressure_state r) (er_pressure_ratio r)
    (er_retry_after r).

(** After the handler: an eviction retries the reservation. *)
Definition after_handler (m : DMailbox) (r : EnqueueResult) (e : E) : EnqueueResult * DMailbox :=
  let reject r m := if er_accepted r then (r, m) else (r, emit m (RecordRejected FR_MailboxFull)) in
  match er_code r with
  | EC_DroppedExisting =>
      let c := capacity (dm_config m) in
      match try_reserve (dm_reservation m) envelope_bytes (max_messages c) (max_bytes c) with
      | (RR_Reserved, res) => publish_reserved (set_res m res) e
      | (_, res) =>
          reject (with_code r EC_Rejected) (dm_update_pressure (count_rejected (set_res m res)) true)
      end
  | _ => reject r m
  end.

(** [try_push_user]. *)
Definition try_push_user (m : DMailbox) (e : E) (now : Z) : option (EnqueueResult * DMailbox) :=
  if negb (dm_accepting m) then Some (refuse m FR_MailboxClosed)
  else if is_expired (deadline_of e) now then Some (refuse m FR_Expired)
  else
    match preflight e with
    | Some reason => Some (refuse m reason)
    | None =>
        let c := capacity (dm_config m) in
        match try_reserve (dm_reservation m) envelope_bytes (max_messages c) (max_bytes c) with
        | (RR_Reserved, res) => Some (publish_reserved (set_res m res) e)
        | (reason, res) =>
            let m := dm_update_pressure (set_res m res) true in
            let ctx := mkDCtx (reserved_messages (dm_reservation m)) (queued_bytes (dm_reservation m)) in
            match disruptor_overflow_handle m ctx reason e now with
            | None => None
            | Some (r, m) => Some (after_handler m (dm_complete_result m r) e)
            end
        end
    end.

Definition try_push_control (m : DMailbox) (msg : T) : EnqueueResult * DMailbox :=
  if dm_protected m <=? zlen (dm_system m) then make_rejected m
  else make_accepted (signal_work (set_queues m (dm_dynamic m) (dm_system m ++ [msg]))).

Definition try_push_dynamic (m : DMailbox) (msg : T) : EnqueueResult * DMailbox :=
  if dm_protected m <=? zlen (dm_dynamic m) then make_rejected m
  else make_accepted (signal_work (set_queues m (dm_dynamic m ++ [msg]) (dm_system m))).

Definition try_push_dynamic_force (m : DMailbox) (msg : T) : EnqueueResult * DMailbox :=
  make_accepted (signal_work (set_queues m (dm_dynamic m ++ [msg]) (dm_system m))).

(** ** The consumer *)

Definition rings_empty (m : DMailbox) : bool :=
  forallb (fun i => ring_empty (get_ring m i)) (lane_order m).

Definition dm_empty (m : DMailbox) : bool :=
  rings_empty m && bool_decide (length (dm_dynamic m) = 0%nat) &&
  bool_decide (length (dm_system m) = 0%nat).

(** [consume_one]: the lease of a user message is released when the function
    returns, after the overflow queue was drained. *)
Definition consume_one (m : DMailbox) : bool * DMailbox :=
  match dm_system m with
  | x :: rest => (true, emit (set_queues m (dm_dynamic m) rest) (OnSystemMessage x))
  | [] =>
      match dm_dynamic m with
      | x :: rest => (true, emit (set_queues m rest (dm_system m)) (OnSystemMessage x))
      | [] =>
          match acquire_first (lane_order m) m with
          | (Some (i, s), m) =>
              let m := emit m (OnUserMessage (lease_value Capacity (get_ring m i) s)) in
              let m := set_res m (release (dm_reservation m) envelope_bytes) in
              let m := emit (dm_drain_overflow m) NotifyBlocked in
              (true, release_lease m i s)
          | (None, m) =>
              let m := set_signal m false [] in
              (false, if negb (dm_empty m) then signal_work m else m)
          end
      end
  end.

(** ** Lifecycle *)

Definition begin_drain (m : DMailbox) : DMailbox := set_accepting m false.

Definition dm_close (m : DMailbox) : DMailbox :=
  let m := set_accepting m false in
  set_rings m (imap (fun i r => if (i <? Z.to_nat (dm_num_lanes m))%nat then ring_close r else r)
                 (dm_rings m)).

(** Acquire and release until nothing is published. *)
Fixpoint drain_ring (fuel : nat) (r : @DisruptorMpscRing E) : @DisruptorMpscRing E :=
  match fuel with
  | O => r
  | S fuel =>
      match ring_try_acquire Capacity r with
      | (Some s, r) => drain_ring fuel (release_slot Capacity r s)
      | (None, r) => r
      end
  end.

Definition drain_all_now (m : DMailbox) : DMailbox :=
  let m := begin_drain m in
  let m := set_rings m (imap (fun i r => if (i <? Z.to_nat (dm_num_lanes m))%nat
                                       then drain_ring (S (Z.to_nat Capacity)) r else r) (dm_rings m)) in
  set_queues m [] [].
End DisruptorMailbox.
