(* ===== verification/DisruptorMailboxSpec.v ===== *)
(** * Properties of the disruptor mailbox

    The invariant behind [DisruptorMailbox.v] (the reservation counter accounts
    for the values in the rings), what a push and a consumption do in every
    reachable state, and a spilled message that is lost. *)

From S2P Require Import Prelude DeliveryTypes Pressure Reservation Lanes Mailbox Disruptor DisruptorMailbox.
From stdpp Require Import base numbers list.

#[local] Open Scope Z_scope.

Section Spec.
Context {E T : Type}.
Context (Capacity envelope_bytes : Z) (priority_of deadline_of : E -> Z)
  (preflight : E -> option FailureReason).
Context (Hcap : valid_disruptor_ring_capacity Capacity = true) (Hbytes : 0 <= envelope_bytes)
  (Hprio : forall e, 0 <= priority_of e).

Notation DMailbox := (@DMailbox E T).
Notation push := (try_push_user Capacity envelope_bytes priority_of deadline_of preflight).
Notation consume := (consume_one Capacity envelope_bytes priority_of).
Notation publish_ring := (ring_publish Capacity priority_of).

Lemma cap_bounds : 2 <= Capacity <= 1048576.
Proof. unfold valid_disruptor_ring_capacity, kMaxDisruptorRingCapacity in Hcap. bool_to_prop. lia. Qed.

Definition lease_of (o : option (nat * Z)) (i : nat) : option Z :=
  match o with Some (j, s) => if decide (i = j) then Some s else None | None => None end.

(** The rings hold the lists [ls], with at most one lease [o] outstanding, and
    the reservations count their values. *)
Record dm_inv (o : option (nat * Z)) (ls : list (list E)) (m : DMailbox) : Prop := mkDmInv {
  dv_rings : length (dm_rings m) = 8%nat;
  dv_lists : length ls = 8%nat;
  dv_hold : forall i r l, dm_rings m !! i = Some r -> ls !! i = Some l ->
    ring_is Capacity r (lease_of o i) l;
  dv_lanes : 1 <= dm_num_lanes m <= 8;
  dv_max : 1 <= max_messages (DeliveryTypes.capacity (dm_config m)) <= Capacity;
  dv_wf : reservation_wf (dm_reservation m);
  dv_count : reserved_messages (dm_reservation m) = sum_by zlen ls
}.

(** The user messages dispatched so far. *)
Definition dispatched (ev : @DEvent E T) : option E :=
  match ev with OnUserMessage e => e | _ => None end.
Definition deliveries (m : DMailbox) : list E := omap dispatched (dm_events m).

(** What publishing and evicting leave alone. *)
Definition frame (m : DMailbox) :=
  (dm_system m, dm_dynamic m, dm_config m, dm_num_lanes m, dm_accepting m, deliveries m).

Lemma deliveries_signal (m : DMailbox) b es :
  deliveries (set_signal m b es) = deliveries m ++ omap dispatched es.
Proof. unfold deliveries. simpl. by rewrite omap_app. Qed.

(** The fields the invariant speaks of. *)
Definition core (m : DMailbox) := (dm_rings m, dm_num_lanes m, dm_reservation m, dm_config m).

Lemma core_inv o ls m m' : core m' = core m -> dm_inv o ls m -> dm_inv o ls m'.
Proof.
  intros [= H1 H2 H3 H4] [D1 D2 D3 D4 D5 D6 D7].
  split; rewrite ?H1, ?H2, ?H3, ?H4; done.
Qed.

Lemma signal_work_core (m : DMailbox) :
  core (signal_work m) = core m /\ frame (signal_work m) = frame m /\
  dm_overflow (signal_work m) = dm_overflow m.
Proof.
  unfold signal_work. destruct (dm_signaled m); [done|]. split; [done|]. split; [|done].
  unfold frame. rewrite deliveries_signal, app_nil_r. done.
Qed.

Lemma sum_zlen_le (ls : list (list E)) i l : ls !! i = Some l -> zlen l <= sum_by zlen ls.
Proof. apply (sum_by_lookup_le zlen). intros. apply zlen_nonneg. Qed.

Lemma ring_for_lt o ls m p : dm_inv o ls m -> 0 <= p -> (ring_for m p < 8)%nat.
Proof.
  intros [_ _ _ H _ _ _] Hp. unfold ring_for. rewrite u8_small by lia. lia.
Qed.

Lemma lane_order_lt o ls m i : dm_inv o ls m -> i ∈ lane_order m -> (i < 8)%nat.
Proof. intros [_ _ _ H _ _ _] Hi. unfold lane_order in Hi. apply elem_of_seq in Hi. lia. Qed.

(** Giving back one of at least one reservations. *)
Lemma release_count r :
  reservation_wf r -> 1 <= reserved_messages r ->
  reservation_wf (release r envelope_bytes) /\
  reserved_messages (release r envelope_bytes) = reserved_messages r - 1.
Proof.
  intros [Hr Hq] Hge. unfold release, reservation_wf. simpl.
  rewrite u32_small by (unfold UINT32_MAX in *; lia). split; [|done]. split; [lia|].
  destruct (0 <? envelope_bytes); [|done].
  pose proof (u64_range (queued_bytes r - envelope_bytes)). unfold UINT64_MAX. lia.
Qed.

(** A reservation by the mailbox. *)
Definition reserve_of (m : DMailbox) : ReservationResult * ReservationManager :=
  let c := DeliveryTypes.capacity (dm_config m) in
  try_reserve (dm_reservation m) envelope_bytes (max_messages c) (max_bytes c).

Lemma reserve_of_spec o ls m res r' :
  dm_inv o ls m -> reserve_of m = (res, r') ->
  match res with
  | RR_Reserved => reservation_wf r' /\ reserved_messages r' = reserved_messages (dm_reservation m) + 1 /\
      reserved_messages (dm_reservation m) < Capacity /\
      release r' envelope_bytes = dm_reservation m
  | _ => r' = dm_reservation m
  end.
Proof.
  intros Hm H. pose proof (dv_wf _ _ _ Hm) as Hwf. pose proof (dv_max _ _ _ Hm) as Hmax.
  pose proof cap_bounds as Hc.
  assert (Hmm : 0 < max_messages (DeliveryTypes.capacity (dm_config m)) <= UINT32_MAX)
    by (unfold UINT32_MAX; lia).
  pose proof (try_reserve_spec _ _ _ _ _ _ Hwf Hmm H) as Hs.
  pose proof (try_reserve_wf _ _ _ _ _ _ Hwf Hmm H) as Hw.
  destruct res; [|by destruct Hs|by destruct Hs]. destruct Hs as (Hlt & _ & Hcnt & _).
  split; [done|]. split; [done|]. split; [lia|]. by eapply release_after_reserve.
Qed.

(** *** Rings of the mailbox *)

Lemma inv_ring o ls m i :
  dm_inv o ls m -> (i < 8)%nat ->
  exists l, ls !! i = Some l /\ dm_rings m !! i = Some (get_ring Capacity m i) /\
    ring_is Capacity (get_ring Capacity m i) (lease_of o i) l.
Proof.
  intros Hm Hi. destruct (lookup_lt_is_Some_2 ls i) as [l Hl]; [rewrite (dv_lists _ _ _ Hm); lia|].
  destruct (lookup_lt_is_Some_2 (dm_rings m) i) as [r Hr]; [rewrite (dv_rings _ _ _ Hm); lia|].
  assert (Hg : get_ring Capacity m i = r) by by apply nth_lookup_Some.
  exists l. rewrite Hg. split; [done|]. split; [done|]. by eapply dv_hold.
Qed.

(** Replacing ring [i], its list and the lease. *)
Lemma inv_set_ring o o' ls m i r l :
  dm_inv o ls m -> (i < 8)%nat -> ring_is Capacity r (lease_of o' i) l ->
  (forall j, j <> i -> lease_of o' j = lease_of o j) ->
  forall res, reservation_wf res -> reserved_messages res = sum_by zlen (<[i := l]> ls) ->
  dm_inv o' (<[i := l]> ls) (set_res (set_rings m (<[i := r]> (dm_rings m))) res).
Proof.
  intros [D1 D2 D3 D4 D5 D6 D7] Hi Hr Ho res Hwf Hc. split; simpl; try done.
  - by rewrite length_insert.
  - by rewrite length_insert.
  - intros j r' l' Hj Hl. destruct (decide (i = j)) as [<-|Hne].
    + rewrite list_lookup_insert_eq in Hj by (rewrite D1; lia).
      rewrite list_lookup_insert_eq in Hl by (rewrite D2; lia). by simplify_eq.
    + rewrite list_lookup_insert_ne in Hj by done. rewrite list_lookup_insert_ne in Hl by done.
      rewrite Ho by done. eauto.
Qed.

(** Appending to a lane. *)
Definition append_lane (m : DMailbox) (ls : list (list E)) (e : E) : list (list E) :=
  alter (fun l => l ++ [e]) (ring_for m (priority_of e)) ls.

Lemma append_lane_insert m ls e l :
  ls !! ring_for m (priority_of e) = Some l ->
  append_lane m ls e = <[ring_for m (priority_of e) := l ++ [e]]> ls.
Proof.
  unfold append_lane. generalize (ring_for m (priority_of e)). induction ls as [|k ls IH]; intros [|i] H;
    simplify_eq/=; [done|]. f_equal. by apply IH.
Qed.

(** Publishing under a fresh reservation: it succeeds when no lease is out;
    under a lease it may find the ring full, and then nothing changes. *)
Lemma publish_spec o ls m e res :
  dm_inv o ls m -> reservation_wf res ->
  reserved_messages res = reserved_messages (dm_reservation m) + 1 ->
  (exists s rs, publish_ring (set_res m res) e = (RP_Published, s, set_rings (set_res m res) rs) /\
     dm_inv o (append_lane m ls e) (set_rings (set_res m res) rs)) \/
  (exists s rs, publish_ring (set_res m res) e = (RP_Full, s, set_rings (set_res m res) rs) /\
     dm_inv o ls (set_rings m rs) /\
     (o = None -> Capacity <= reserved_messages (dm_reservation m))).
Proof.
  intros Hm Hwf Hres. set (i := ring_for m (priority_of e)).
  pose proof (ring_for_lt _ _ _ _ Hm (Hprio e)) as Hi. fold i in Hi.
  destruct (inv_ring _ _ _ i Hm Hi) as (l & Hl & Hr & Hring). pose proof cap_bounds.
  unfold ring_publish. change (ring_for (set_res m res) (priority_of e)) with i.
  change (get_ring Capacity (set_res m res) i) with (get_ring Capacity m i).
  assert (Hp : (exists s r', try_publish Capacity (get_ring Capacity m i) e = (RP_Published, s, r') /\
      ring_is Capacity r' (lease_of o i) (l ++ [e])) \/
    (exists s, try_publish Capacity (get_ring Capacity m i) e = (RP_Full, s, get_ring Capacity m i) /\
       (o = None -> Capacity <= zlen l))).
  { destruct (lease_of o i) as [s0|] eqn:Eo.
    - destruct (ring_is_publish_leased Capacity Hcap _ _ _ e Hring) as [?|[s Hs]]; [by left|right].
      exists s. split; [done|]. intros ->. done.
    - destruct (ring_is_publish Capacity Hcap _ _ e Hring) as [H1 H2].
      destruct (decide (zlen l < Capacity)); [left; auto|right].
      destruct H2 as [s Hs]; [lia|]. exists s. split; [done|lia]. }
  pose proof (sum_zlen_le ls i l Hl) as Hle. pose proof (dv_count _ _ _ Hm) as Hcnt.
  destruct Hp as [(s & r' & -> & Hr')|(s & -> & Hfull)]; [left|right]; eexists _, _; (split; [done|]).
  - unfold append_lane. fold i. change (alter _ i ls) with (append_lane m ls e).
    rewrite (append_lane_insert _ _ _ l) by done. fold i.
    refine (inv_set_ring o o ls m i r' _ Hm Hi Hr' _ res Hwf _); [done|]. rewrite (sum_by_insert _ _ _ _ _ Hl).
    autorewrite with hpa_rw. lia.
  - assert (Hid : <[i := get_ring Capacity m i]> (dm_rings m) = dm_rings m) by by apply list_insert_id.
    simpl. rewrite Hid. split; [by destruct m|]. intros ->. specialize (Hfull eq_refl). lia.
Qed.

(** *** Taking the next message *)

(** The head of the first busy lane of [order]. *)
Fixpoint take_first (order : list nat) (ls : list (list E)) : option (nat * E * list (list E)) :=
  match order with
  | [] => None
  | i :: order =>
      match ls !! i with
      | Some (x :: l) => Some (i, x, <[i := l]> ls)
      | _ => take_first order ls
      end
  end.

Lemma acquire_first_spec order : forall ls m,
  dm_inv None ls m -> (forall i, i ∈ order -> (i < 8)%nat) ->
  match take_first order ls with
  | Some (i, x, ls') => exists s rs, acquire_first Capacity order m = (Some (i, s), set_rings m rs) /\
      lease_value Capacity (get_ring Capacity (set_rings m rs) i) s = Some x /\ (i < 8)%nat /\
      dm_inv (Some (i, s)) ls' (set_res (set_rings m rs) (release (dm_reservation m) envelope_bytes))
  | None => exists rs, acquire_first Capacity order m = (None, set_rings m rs) /\
      dm_inv None ls (set_rings m rs)
  end.
Proof.
  induction order as [|i order IH]; intros ls m Hm Hlt.
  { exists (dm_rings m). by destruct m. }
  assert (Hi : (i < 8)%nat) by apply Hlt, list_elem_of_here. pose proof cap_bounds.
  destruct (inv_ring _ _ _ i Hm Hi) as (l & Hl & Hr & Hring).
  pose proof (ring_is_acquire Capacity Hcap _ _ Hring) as Hacq.
  cbn [take_first acquire_first]. rewrite Hl. destruct l as [|x l].
  - destruct Hacq as (r' & -> & Hr' & _).
    assert (Hm' : dm_inv None ls (set_rings m (<[i := r']> (dm_rings m)))).
    { pose proof (inv_set_ring None None ls m i r' [] Hm Hi Hr' ltac:(done) (dm_reservation m)
        (dv_wf _ _ _ Hm)) as Hset. rewrite list_insert_id in Hset by done.
      apply Hset, Hm. }
    specialize (IH ls _ Hm' ltac:(intros j Hj; by apply Hlt, list_elem_of_further)).
    destruct (take_first order ls) as [[[j x] ls']|]; [|exact IH].
    exact IH.
  - destruct Hacq as (s & r' & -> & Hr' & Hv). eexists _, _. split; [done|].
    pose proof (sum_zlen_le ls i _ Hl) as Hle. rewrite zlen_cons in Hle. pose proof (zlen_nonneg l).
    pose proof (dv_count _ _ _ Hm) as Hcnt.
    destruct (release_count _ (dv_wf _ _ _ Hm)) as [Hw Hc]; [lia|]. split; [|split; [done|]].
    + assert (Hg : get_ring Capacity (set_rings m (<[i := r']> (dm_rings m))) i = r'); [|by rewrite Hg].
      apply nth_lookup_Some, list_lookup_insert_eq. rewrite (dv_rings _ _ _ Hm). lia.
    + refine (inv_set_ring None (Some (i, s)) ls m i r' l Hm Hi _ _ _ Hw _).
      * simpl. by rewrite decide_True.
      * intros j Hj. simpl. by rewrite decide_False.
      * rewrite Hc, (sum_by_insert _ _ _ _ _ Hl). autorewrite with hpa_rw. lia.
Qed.

Lemma release_lease_inv i s ls m :
  (i < 8)%nat -> dm_inv (Some (i, s)) ls m -> dm_inv None ls (release_lease Capacity m i s).
Proof.
  intros Hi Hm. pose proof cap_bounds.
  destruct (inv_ring _ _ _ i Hm Hi) as (l & Hl & Hr & Hring). simpl in Hring.
  rewrite decide_True in Hring by done. apply ring_is_release in Hring; [|done].
  unfold release_lease.
  pose proof (inv_set_ring (Some (i, s)) None ls m i _ l Hm Hi Hring) as Hset.
  rewrite list_insert_id in Hset by done. apply (Hset ltac:(intros j Hj; simpl; by rewrite decide_False)
    (dm_reservation m)); apply Hm.
Qed.

(** Eviction removes the head of the first busy lane of the order. *)
Lemma drop_from_spec order ls m :
  dm_inv None ls m -> (forall i, i ∈ order -> (i < 8)%nat) ->
  match take_first order ls with
  | Some (_, _, ls') => exists m', drop_from Capacity envelope_bytes m order = (true, m') /\
      dm_inv None ls' m' /\ frame m' = frame m /\ dm_overflow m' = dm_overflow m
  | None => exists m', drop_from Capacity envelope_bytes m order = (false, m') /\
      dm_inv None ls m' /\ frame m' = frame m /\ dm_overflow m' = dm_overflow m
  end.
Proof.
  intros Hm Hlt. pose proof (acquire_first_spec order ls m Hm Hlt) as H. unfold drop_from.
  destruct (take_first order ls) as [[[i x] ls']|].
  - destruct H as (s & rs & -> & _ & Hi & Hinv). eexists. split; [done|].
    apply release_lease_inv in Hinv; [|done]. split; [|done].
    eapply core_inv; [|exact Hinv]. done.
  - destruct H as (rs & -> & Hinv). eexists. by split.
Qed.

(** *** Draining the overflow queue *)

(** What the drain does: a prefix [ms] moves to the rings in order, at most
    one message [ds] is lost, and the others stay. *)
Definition dm_drained o (ls : list (list E)) (m m' : DMailbox) : Prop :=
  exists ms rest ds, oq_queue (dm_overflow m) = ms ++ rest /\
    rest ≡ₚ ds ++ oq_queue (dm_overflow m') /\ (length ds <= 1)%nat /\
    dm_inv o (foldl (append_lane m) ls ms) m' /\
    dm_system m' = dm_system m /\ dm_dynamic m' = dm_dynamic m /\ dm_config m' = dm_config m /\
    dm_accepting m' = dm_accepting m /\ dm_num_lanes m' = dm_num_lanes m /\
    dm_events m' = dm_events m.

(** Pushing on the overflow queue loses at most its head. *)
Lemma oq_push_spec (q : OverflowQueue E) e :
  exists q' ds, oq_try_push q e = (true, q') /\ oq_queue q ++ [e] = ds ++ oq_queue q' /\
    (length ds <= 1)%nat.
Proof.
  unfold oq_try_push. destruct (_ && _ && _) eqn:Eb.
  - bool_to_prop. destruct (oq_queue q) as [|y l] eqn:Eq; [done|]. eexists _, [y].
    split; [done|]. simpl. by split; [|lia].
  - eexists _, []. split; [done|]. simpl. by split; [|lia].
Qed.

Lemma drain_loop_spec fuel : forall o ls m,
  dm_inv o ls m -> dm_drained o ls m (dm_drain_loop Capacity envelope_bytes priority_of fuel m).
Proof.
  induction fuel as [|fuel IH]; intros o ls m Hm.
  { exists [], (oq_queue (dm_overflow m)), []. simpl. split_and!; (done || lia). }
  cbn [dm_drain_loop]. unfold oq_try_pop. destruct (oq_queue (dm_overflow m)) as [|e q] eqn:Eq.
  { exists [], [], []. rewrite Eq. simpl. split_and!; (done || lia). }
  set (oq := mkOverflow q _ _ _ _). set (m1 := set_oq m oq).
  assert (Hm1 : dm_inv o ls m1) by by apply (core_inv o ls m).
  fold (reserve_of m1). destruct (reserve_of m1) as [res r] eqn:Er.
  pose proof (reserve_of_spec _ _ _ _ _ Hm1 Er) as Hres.
  assert (Hback : r = dm_reservation m1 -> dm_drained o ls m (let '(ok, oq) :=
      oq_try_push (dm_overflow (set_res m1 r)) e in
      if ok then set_oq (set_res m1 r) oq else count_dropped (set_res m1 r))).
  { intros ->. destruct (oq_push_spec oq e) as (q' & ds & Hp & Hq & Hds).
    change (dm_overflow (set_res m1 (dm_reservation m1))) with oq. rewrite Hp.
    exists [], (e :: q), ds. rewrite Eq. simpl. split_and!; try done.
    - simpl in Hq. rewrite <- Hq. by rewrite Permutation_cons_append.
    - by apply (core_inv o ls m). }
  destruct res.
  - destruct Hres as (Hwf & Hcnt & _ & Hrel).
    destruct (publish_spec o ls m1 e r Hm1 Hwf Hcnt) as [(s & rs & -> & Hinv)|(s & rs & -> & Hinv & _)].
    + destruct (IH o _ _ Hinv) as (ms & rest & ds & H1 & H2 & H3 & H4 & H5).
      exists (e :: ms), rest, ds. simpl in H1. rewrite Eq, H1. by split_and!; try apply H5.
    + exists [], (e :: q), [e]. rewrite Eq. simpl. rewrite Hrel. split_and!; try done.
      by apply (core_inv o ls (set_rings m1 rs)).
  - exact (Hback Hres).
  - exact (Hback Hres).
Qed.

Lemma dm_drain_loop_fuel f : forall g (m : DMailbox),
  (length (oq_queue (dm_overflow m)) < f)%nat -> (length (oq_queue (dm_overflow m)) < g)%nat ->
  dm_drain_loop Capacity envelope_bytes priority_of f m =
  dm_drain_loop Capacity envelope_bytes priority_of g m.
Proof.
  induction f as [|f IH]; intros [|g] m Hf Hg; try lia. cbn [dm_drain_loop].
  unfold oq_try_pop. destruct (oq_queue (dm_overflow m)) as [|e q] eqn:Eq; [done|].
  simpl in Hf, Hg. destruct (try_reserve _ _ _ _) as [[] r]; [|done|done].
  unfold ring_publish. destruct (try_publish _ _ _) as [[[] s] r']; [|done|done].
  apply IH; simpl; lia.
Qed.

(** *** Producers *)

(** Steps that only emit events which dispatch nothing. *)
Lemma frame_emit (m : DMailbox) ev : dispatched ev = None -> frame (emit m ev) = frame m.
Proof. intros H. unfold frame, emit. rewrite deliveries_signal. simpl. by rewrite H, app_nil_r. Qed.

Definition untouched (ls : list (list E)) (m m' : DMailbox) : Prop :=
  dm_inv None ls m' /\ frame m' = frame m /\ dm_overflow m' = dm_overflow m.

Lemma refuse_spec ls m reason :
  dm_inv None ls m -> er_code (refuse m reason).1 = EC_Rejected /\ untouched ls m (refuse m reason).2.
Proof.
  intros Hm. split; [done|]. split; [by apply (core_inv None ls m)|]. split; [|done].
  by rewrite <- (frame_emit m (RecordRejected reason)).
Qed.

Lemma publish_reserved_spec ls m e res :
  dm_inv None ls m -> reserve_of m = (RR_Reserved, res) ->
  exists r m', publish_reserved Capacity envelope_bytes priority_of (set_res m res) e = (r, m') /\
    er_code r = EC_Accepted /\ untouched (append_lane m ls e) m m'.
Proof.
  intros Hm Hres. destruct (reserve_of_spec _ _ _ _ _ Hm Hres) as (Hwf & Hcnt & Hlt & _).
  unfold publish_reserved.
  destruct (publish_spec None ls m e res Hm Hwf Hcnt) as [(s & rs & -> & Hinv)|(s & rs & -> & _ & Hf)];
    [|specialize (Hf eq_refl); lia].
  eexists _, _. split; [done|]. split; [done|].
  set (m1 := dm_update_pressure _ _). destruct (signal_work_core m1) as (Hc & Hfr & Ho).
  split; [by eapply core_inv; [|exact Hinv]; etransitivity; [|exact Hc]|]. split; [|done].
  etransitivity; [exact Hfr|]. by rewrite <- (frame_emit m (RecordAccepted s)).
Qed.

(** The eviction of a policy: the head of the first, or last, busy lane. *)
Definition evicts (m : DMailbox) (ls ls' : list (list E)) : Prop :=
  exists i x, take_first (match overflow_policy (dm_config m) with
                          | OP_DropOldest => lane_order m
                          | OP_DropLowestPriority => reverse (lane_order m)
                          | _ => []
                          end) ls = Some (i, x, ls').

(** What a push of each outcome does to the lanes and the overflow queue. *)
Definition push_effect (m : DMailbox) (ls : list (list E)) (e : E) (code : EnqueueResultCode)
    (ls' : list (list E)) (m' : DMailbox) : Prop :=
  match code with
  | EC_Accepted => dm_overflow m' = dm_overflow m /\
      exists ls1, (ls1 = ls \/ evicts m ls ls1) /\ ls' = append_lane m ls1 e
  | EC_ReroutedToOverflow => overflow_policy (dm_config m) = OP_SpillToOverflowQueue /\ ls' = ls /\
      exists ds, oq_queue (dm_overflow m) ++ [e] = ds ++ oq_queue (dm_overflow m') /\
        (length ds <= 1)%nat
  | EC_Rejected => dm_overflow m' = dm_overflow m /\ (ls' = ls \/ evicts m ls ls')
  | EC_DroppedNewest | EC_ReroutedToDeadLetter => dm_overflow m' = dm_overflow m /\ ls' = ls
  | _ => False
  end.

(** The handlers: an eviction leaves the lanes as the policy says. *)
Definition handler_effect (m : DMailbox) (ls : list (list E)) (e : E) (code : EnqueueResultCode)
    (ls' : list (list E)) (m' : DMailbox) : Prop :=
  match code with
  | EC_DroppedExisting => dm_overflow m' = dm_overflow m /\ (ls' = ls \/ evicts m ls ls')
  | _ => code <> EC_Accepted /\ push_effect m ls e code ls' m'
  end.

Lemma dh_drop_spec ls m ctx reason e drop order :
  dm_inv None ls m -> drop m = drop_from Capacity envelope_bytes m order -> (forall i, i ∈ order -> (i < 8)%nat) ->
  (forall i x ls', take_first order ls = Some (i, x, ls') -> evicts m ls ls') ->
  let '(r, m') := dh_drop m ctx reason drop in
  exists ls', dm_inv None ls' m' /\ frame m' = frame m /\ handler_effect m ls e (er_code r) ls' m'.
Proof.
  intros Hm Hdrop Hlt Hev. pose proof (drop_from_spec order ls m Hm Hlt) as H. unfold dh_drop. rewrite Hdrop.
  destruct (take_first order ls) as [[[i x] ls']|] eqn:Et; destruct H as (m' & -> & Hinv & Hf & Ho).
  - exists ls'. split; [done|]. split; [done|]. simpl. eauto.
  - exists ls. split; [by apply (core_inv None ls m')|]. split; [done|]. simpl. by eauto.
Qed.

Lemma handler_spec ls m ctx reason e now :
  dm_inv None ls m ->
  match disruptor_overflow_handle Capacity envelope_bytes deadline_of m ctx reason e now with
  | None => overflow_policy (dm_config m) = OP_BlockWhenAllowed /\ (reserve_of m).1 <> RR_Reserved
  | Some (r, m') => exists ls', dm_inv None ls' m' /\ frame m' = frame m /\
      handler_effect m ls e (er_code r) ls' m'
  end.
Proof.
  intros Hm. unfold disruptor_overflow_handle. destruct (overflow_policy (dm_config m)) eqn:Ep.
  - exists ls. split; [by apply (core_inv None ls m)|]. simpl. by eauto.
  - exists ls. split; [by apply (core_inv None ls m)|]. simpl. by eauto.
  - apply (dh_drop_spec ls m ctx reason e _ (lane_order m) Hm eq_refl).
    + intros i. by apply (lane_order_lt None ls).
    + intros i x ls' H. exists i, x. by rewrite Ep.
  - apply (dh_drop_spec ls m ctx reason e _ (reverse (lane_order m)) Hm eq_refl).
    + intros i. rewrite elem_of_reverse. by apply (lane_order_lt None ls).
    + intros i x ls' H. exists i, x. by rewrite Ep.
  - exists ls. split; [by apply (core_inv None ls m)|]. simpl. by eauto.
  - unfold dh_spill. destruct (oq_push_spec (dm_overflow m) e) as (q' & ds & -> & Hq & Hd).
    exists ls. split; [by apply (core_inv None ls m)|]. split; [done|]. simpl.
    split; [done|]. split; [done|]. split; [done|]. by exists ds.
  - exists ls. split; [by apply (core_inv None ls m)|]. simpl. by eauto.
  - unfold dh_block. fold (reserve_of m). destruct (reserve_of m) as [res r] eqn:Er.
    pose proof (reserve_of_spec _ _ _ _ _ Hm Er) as Hres. destruct res.
    + destruct Hres as (_ & _ & _ & Hrel). exists ls. rewrite Hrel.
      split; [by apply (core_inv None ls m)|]. split; [done|]. simpl. by eauto.
    + subst r. destruct (_ && _); [|done]. exists ls. split; [by apply (core_inv None ls m)|]. simpl. by eauto.
    + subst r. destruct (_ && _); [|done]. exists ls. split; [by apply (core_inv None ls m)|]. simpl. by eauto.
Qed.

Lemma after_handler_spec ls ls' m0 m r e :
  dm_inv None ls' m -> frame m = frame m0 -> handler_effect m0 ls e (er_code r) ls' m ->
  let p := after_handler Capacity envelope_bytes priority_of m r e in
  exists ls2, dm_inv None ls2 p.2 /\ frame p.2 = frame m0 /\ push_effect m0 ls e (er_code p.1) ls2 p.2.
Proof.
  intros Hm Hf Heff. unfold after_handler.
  assert (Hlane : append_lane m = append_lane m0).
  { unfold append_lane, ring_for. injection Hf as _ _ _ -> _ _. done. }
  assert (Hother : forall r' m', core m' = core m -> frame m' = frame m ->
    dm_overflow m' = dm_overflow m -> push_effect m0 ls e (er_code r') ls' m ->
    let p := if er_accepted r' then (r', m') else (r', emit m' (RecordRejected FR_MailboxFull)) in
    exists ls2, dm_inv None ls2 p.2 /\ frame p.2 = frame m0 /\ push_effect m0 ls e (er_code p.1) ls2 p.2).
  { intros r' m' Hc' Hf' Ho' He. exists ls'.
    assert (He' : push_effect m0 ls e (er_code r') ls' m').
    { unfold push_effect in *. by rewrite Ho'. }
    destruct (er_accepted r'); simpl.
    - split; [by apply (core_inv None ls' m)|]. split; [congruence|done].
    - split; [by apply (core_inv None ls' m)|]. rewrite frame_emit by done. split; [congruence|]. done. }
  destruct (er_code r) eqn:Ec; try by (apply Hother; rewrite ?Ec; try done; apply Heff).
  destruct Heff as [Ho Hev]. fold (reserve_of m). destruct (reserve_of m) as [res rm] eqn:Er.
  pose proof (reserve_of_spec _ _ _ _ _ Hm Er) as Hres. destruct res.
  - destruct (publish_reserved_spec ls' m e rm Hm Er) as (r' & m' & -> & Hcode & Hi & Hf' & Ho').
    exists (append_lane m ls' e). split; [done|]. split; [simpl; congruence|]. simpl. rewrite Hcode.
    split; [congruence|]. exists ls'. by rewrite Hlane.
  - subst rm. by apply Hother.
  - subst rm. by apply Hother.
Qed.

(** A push in any state: what each result code means for the lanes, the
    overflow queue and the rest of the mailbox. *)
Lemma push_spec ls m e now :
  dm_inv None ls m ->
  match push m e now with
  | None => overflow_policy (dm_config m) = OP_BlockWhenAllowed
  | Some (r, m') => exists ls', dm_inv None ls' m' /\ frame m' = frame m /\
      push_effect m ls e (er_code r) ls' m'
  end.
Proof.
  intros Hm.
  assert (Hr : forall reason, exists ls', dm_inv None ls' (refuse m reason).2 /\
    frame (refuse m reason).2 = frame m /\
    push_effect m ls e (er_code (refuse m reason).1) ls' (refuse m reason).2).
  { intros reason. destruct (refuse_spec ls m reason Hm) as (Hc & Hi & Hf & Ho).
    exists ls. split; [done|]. split; [done|]. rewrite Hc. split; [done|]. by left. }
  unfold try_push_user. destruct (negb (dm_accepting m)); [apply Hr|].
  destruct (is_expired _ _); [apply Hr|]. destruct (preflight e); [apply Hr|].
  fold (reserve_of m). destruct (reserve_of m) as [res rm] eqn:Er.
  pose proof (reserve_of_spec _ _ _ _ _ Hm Er) as Hres.
  assert (Hover : rm = dm_reservation m -> forall reason ctx,
    match (match disruptor_overflow_handle Capacity envelope_bytes deadline_of
      (dm_update_pressure (set_res m rm) true) ctx reason e now with
    | None => None
    | Some (r, m) => Some (after_handler Capacity envelope_bytes priority_of m (dm_complete_result m r) e)
    end) with
    | None => overflow_policy (dm_config m) = OP_BlockWhenAllowed
    | Some (r, m') => exists ls', dm_inv None ls' m' /\ frame m' = frame m /\
        push_effect m ls e (er_code r) ls' m'
    end).
  { intros -> reason ctx. set (m1 := dm_update_pressure _ _).
    assert (Hm1 : dm_inv None ls m1) by by apply (core_inv None ls m).
    pose proof (handler_spec ls m1 ctx reason e now Hm1) as Hh.
    destruct (disruptor_overflow_handle _ _ _ _ _ _ _ _) as [[r m']|]; [|apply Hh].
    destruct Hh as (ls' & Hi & Hf & He).
    destruct (after_handler_spec ls ls' m1 m' (dm_complete_result m' r) e Hi Hf He) as (ls2 & H1 & H2 & H3).
    destruct (after_handler _ _ _ _ _ _) as [r2 m2]. by exists ls2. }
  destruct res; [|by apply Hover|by apply Hover].
  destruct (publish_reserved_spec ls m e rm Hm Er) as (r & m' & -> & Hc & Hi & Hf & Ho).
  eexists. split; [done|]. split; [done|]. rewrite Hc. split; [done|]. exists ls. eauto.
Qed.

(** *** The consumer *)

Lemma take_first_none order ls :
  take_first order ls = None <-> forall i l, i ∈ order -> ls !! i = Some l -> l = [].
Proof.
  induction order as [|i order IH]; simpl.
  - split; [intros _ i l Hi; by apply not_elem_of_nil in Hi|done].
  - split.
    + intros H j l Hj Hl. apply elem_of_cons in Hj as [->|Hj].
      * rewrite Hl in H. by destruct l.
      * destruct (ls !! i) as [[|]|]; [|done|]; by eapply IH.
    + intros H. destruct (ls !! i) as [[|x l]|] eqn:El.
      * apply IH. intros j l Hj. apply H. by apply list_elem_of_further.
      * by specialize (H i _ (list_elem_of_here _ _) El).
      * apply IH. intros j l Hj. apply H. by apply list_elem_of_further.
Qed.

Lemma ring_empty_spec r (l : list E) : ring_is Capacity r None l -> ring_empty r = true <-> l = [].
Proof.
  intros Hr. pose proof cap_bounds. pose proof (ring_is_depth Capacity _ _ _ Hr) as Hd.
  destruct Hr as (vs & ds & _ & Hp & _). unfold ring_empty. rewrite Hp, Z.eqb_eq. split.
  - intros He. destruct l as [|x l]; [done|]. rewrite zlen_cons in Hd. pose proof (zlen_nonneg l). lia.
  - intros ->. rewrite zlen_nil in Hd. lia.
Qed.

(** [empty()] is exact between calls. *)
Lemma dm_empty_spec ls m :
  dm_inv None ls m ->
  dm_empty Capacity m = true <->
  dm_system m = [] /\ dm_dynamic m = [] /\ take_first (lane_order m) ls = None.
Proof.
  intros Hm. assert (Hr : rings_empty Capacity m = true <-> take_first (lane_order m) ls = None).
  { unfold rings_empty. rewrite forallb_forall, take_first_none. split.
    - intros H i l Hi Hl. pose proof (lane_order_lt _ _ _ _ Hm Hi) as Hlt.
      destruct (inv_ring _ _ _ i Hm Hlt) as (l' & Hl' & _ & Hring). simplify_eq.
      apply (ring_empty_spec _ _ Hring), H. by apply list_elem_of_In.
    - intros H i Hi. apply list_elem_of_In in Hi. pose proof (lane_order_lt _ _ _ _ Hm Hi) as Hlt.
      destruct (inv_ring _ _ _ i Hm Hlt) as (l' & Hl' & _ & Hring).
      apply (ring_empty_spec _ _ Hring). eauto. }
  unfold dm_empty. rewrite !andb_true_iff, !bool_decide_eq_true, Hr, !length_zero_iff_nil. tauto.
Qed.

Lemma drain_overflow_spec o ls m :
  dm_inv o ls m ->
  dm_drained o ls m (dm_drain_overflow Capacity envelope_bytes priority_of m) /\
  (overflow_policy (dm_config m) <> OP_SpillToOverflowQueue ->
   dm_drain_overflow Capacity envelope_bytes priority_of m = m).
Proof.
  intros Hm. unfold dm_drain_overflow.
  assert (Hid : dm_drained o ls m m)
    by (exists [], (oq_queue (dm_overflow m)), []; simpl; split_and!; (done || lia)).
  destruct (overflow_policy (dm_config m)); try done. split; [by apply drain_loop_spec|done].
Qed.

(** Consumption of a user message: the head of the first busy lane is
    dispatched, then the overflow queue moves up. *)
Lemma consume_user_spec ls m :
  dm_inv None ls m -> dm_system m = [] -> dm_dynamic m = [] ->
  match take_first (lane_order m) ls with
  | Some (i, x, ls1) => exists m' ms rest ds, consume m = (true, m') /\
      oq_queue (dm_overflow m) = ms ++ rest /\ rest ≡ₚ ds ++ oq_queue (dm_overflow m') /\
      (length ds <= 1)%nat /\ dm_inv None (foldl (append_lane m) ls1 ms) m' /\
      deliveries m' = deliveries m ++ [x] /\ dm_config m' = dm_config m /\
      dm_num_lanes m' = dm_num_lanes m /\ dm_accepting m' = dm_accepting m /\
      dm_system m' = [] /\ dm_dynamic m' = [] /\
      (overflow_policy (dm_config m) <> OP_SpillToOverflowQueue -> ms = [] /\ ds = [])
  | None => exists m', consume m = (false, m') /\ untouched ls m m' /\ dm_signaled m' = false /\
      dm_events m' = dm_events m
  end.
Proof.
  intros Hm Hs Hd. unfold consume_one. rewrite Hs, Hd.
  pose proof (acquire_first_spec (lane_order m) ls m Hm
    (fun i Hi => lane_order_lt _ _ _ _ Hm Hi)) as Hacq.
  destruct (take_first (lane_order m) ls) as [[[i x] ls1]|] eqn:Et.
  - destruct Hacq as (s & rs & -> & Hv & Hi & Hinv). rewrite Hv.
    set (m1 := set_res _ _).
    assert (Hm1 : dm_inv (Some (i, s)) ls1 m1) by (eapply core_inv; [|exact Hinv]; done).
    destruct (drain_overflow_spec _ _ _ Hm1) as [(ms & rest & ds & H1 & H2 & H3 & H4 & H5 & H6 & H7 & H8 & H9 & H10) Hid].
    set (m2 := dm_drain_overflow Capacity envelope_bytes priority_of m1) in *.
    assert (Hdel : deliveries m2 = deliveries m ++ [x]).
    { unfold deliveries. rewrite H10. simpl. rewrite omap_app. done. }
    assert (Hfin : deliveries (release_lease Capacity (emit m2 NotifyBlocked) i s) = deliveries m ++ [x]).
    { rewrite <- Hdel. unfold emit. etransitivity; [apply (deliveries_signal m2)|]. by rewrite app_nil_r. }
    destruct (decide (overflow_policy (dm_config m) = OP_SpillToOverflowQueue)) as [Hp|Hp].
    + exists (release_lease Capacity (emit m2 NotifyBlocked) i s), ms, rest, ds.
      split_and!; try done; [|exact (eq_trans H5 Hs)|exact (eq_trans H6 Hd)].
      apply release_lease_inv; [done|]. eapply core_inv; [|exact H4]. done.
    + exists (release_lease Capacity (emit m2 NotifyBlocked) i s), [], (oq_queue (dm_overflow m)), [].
      specialize (Hid Hp). simpl. split_and!; try done; try lia;
        [..|exact (eq_trans H5 Hs)|exact (eq_trans H6 Hd)].
      * by rewrite Hid.
      * apply release_lease_inv; [done|]. rewrite Hid. eapply core_inv; [|exact Hm1]. done.
  - destruct Hacq as (rs & -> & Hinv). set (m1 := set_signal _ _ _).
    assert (Hm1 : dm_inv None ls m1) by (eapply core_inv; [|exact Hinv]; done).
    assert (He : dm_empty Capacity m1 = true) by (apply (dm_empty_spec ls m1 Hm1); done).
    rewrite He. exists m1. simpl. rewrite app_nil_r.
    split; [done|]. split; [|done]. split; [done|]. split; [|done].
    unfold frame, m1. by rewrite deliveries_signal, app_nil_r.
Qed.

(** ** Histories *)

(** The calls of a mailbox in service: [close] and [drain_all_now] end it. *)
Inductive DOp :=
| PushUser (e : E) (now : Z)
| PushControl (t : T)
| PushDynamic (t : T)
| PushDynamicForce (t : T)
| Consume
| SetConfig (c : MailboxConfig)
| Resize (n : Z)
| SetLanes (n : Z)
| BeginDrain.

(** The message a push let into the mailbox. *)
Definition entered (e : E) (r : EnqueueResult) : list E :=
  match er_code r with EC_Accepted | EC_ReroutedToOverflow => [e] | _ => [] end.

(** [None] while a producer is blocked. *)
Definition dm_apply (m : DMailbox) (op : DOp) : option (list E * DMailbox) :=
  match op with
  | PushUser e now =>
      match push m e now with Some (r, m') => Some (entered e r, m') | None => None end
  | PushControl t => Some ([], (try_push_control m t).2)
  | PushDynamic t => Some ([], (try_push_dynamic m t).2)
  | PushDynamicForce t => Some ([], (try_push_dynamic_force m t).2)
  | Consume => Some ([], (consume m).2)
  | SetConfig c => Some ([], dm_set_config Capacity m c)
  | Resize n => Some ([], (dm_resize Capacity m n).2)
  | SetLanes n => Some ([], dm_set_num_user_lanes m n)
  | BeginDrain => Some ([], begin_drain m)
  end.

Fixpoint dm_run (m : DMailbox) (ops : list DOp) : option (list E * DMailbox) :=
  match ops with
  | [] => Some ([], m)
  | op :: ops =>
      match dm_apply m op with
      | Some (es, m) =>
          match dm_run m ops with Some (es', m) => Some (es ++ es', m) | None => None end
      | None => None
      end
  end.

Definition config_ok (c : MailboxConfig) : Prop :=
  0 <= max_messages (DeliveryTypes.capacity c) <= UINT32_MAX.
Definition dop_ok (op : DOp) : Prop :=
  match op with
  | SetConfig c => config_ok c
  | Resize n => 0 <= n <= UINT32_MAX
  | SetLanes n => 0 <= n <= 255
  | _ => True
  end.

(** Policies under which no message that was let in is given up. *)
Definition lossless (p : OverflowPolicy) : bool :=
  match p with
  | OP_DropOldest | OP_DropLowestPriority | OP_SpillToOverflowQueue => false
  | _ => true
  end.
Definition op_lossless (op : DOp) : Prop :=
  match op with SetConfig c => lossless (overflow_policy c) = true | _ => True end.

Lemma clamp_range n : 0 <= n -> 1 <= clamp_messages Capacity n <= Capacity.
Proof.
  intros Hn. pose proof cap_bounds. unfold clamp_messages.
  destruct ((n =? 0) || (Capacity <? n)) eqn:Eb; bool_to_prop; lia.
Qed.

Lemma dm_init_inv actor c prot :
  config_ok c -> 0 <= priority_levels c -> dm_inv None (replicate 8 []) (dm_init Capacity actor c prot).
Proof.
  intros [Hc _] Hp. pose proof cap_bounds. split; try done.
  - intros i r l Hr Hl. change (replicate 8 (ring_init Capacity) !! i = Some r) in Hr.
    apply lookup_replicate in Hr as [-> _].
    apply lookup_replicate in Hl as [-> _]. by apply ring_is_init.
  - simpl. unfold kMaxPriorityLanes. destruct (_ && _) eqn:Eb; bool_to_prop; lia.
  - by apply clamp_range.
Qed.

(** *** Lanes as a bag of messages *)

Lemma concat_append m ls e :
  (ring_for m (priority_of e) < length ls)%nat -> concat (append_lane m ls e) ≡ₚ concat ls ++ [e].
Proof.
  intros Hlt. destruct (lookup_lt_is_Some_2 _ _ Hlt) as [l Hl].
  rewrite (append_lane_insert _ _ _ _ Hl). apply (Permutation_app_inv_l l).
  rewrite <- (concat_insert _ _ _ _ Hl). rewrite <- !(assoc_L (++)).
  by rewrite (Permutation_app_comm [e]).
Qed.

Lemma concat_append_list m ms : forall ls,
  length ls = 8%nat -> (forall e, (ring_for m (priority_of e) < 8)%nat) ->
  concat (foldl (append_lane m) ls ms) ≡ₚ concat ls ++ ms.
Proof.
  induction ms as [|e ms IH]; intros ls Hl Hr; simpl; [by rewrite app_nil_r|].
  rewrite IH; [|by unfold append_lane; rewrite length_alter|done].
  rewrite concat_append by (rewrite Hl; apply Hr). by rewrite <- (assoc_L (++)).
Qed.

Lemma take_first_concat order ls i x ls' :
  take_first order ls = Some (i, x, ls') ->
  concat ls ≡ₚ x :: concat ls' /\ length ls' = length ls /\ i ∈ order /\
  exists l, ls !! i = Some (x :: l) /\ ls' = <[i := l]> ls.
Proof.
  induction order as [|j order IH]; simpl; [done|]. intros H.
  assert (Hrec : take_first order ls = Some (i, x, ls') ->
    concat ls ≡ₚ x :: concat ls' /\ length ls' = length ls /\ i ∈ j :: order /\
    exists l, ls !! i = Some (x :: l) /\ ls' = <[i := l]> ls).
  { intros H'. destruct (IH H') as (H1 & H2 & H3 & H4). split_and!; try done.
    by apply list_elem_of_further. }
  destruct (ls !! j) as [[|y l]|] eqn:El; [by apply Hrec| |by apply Hrec]. injection H as <- <- <-.
  split_and!; [|by apply length_insert|by apply list_elem_of_here|by exists l].
  apply (Permutation_app_inv_l l). rewrite (concat_insert _ _ _ l El). simpl.
  by rewrite Permutation_middle.
Qed.

Lemma evicts_bag m ls ls' :
  evicts m ls ls' -> lossless (overflow_policy (dm_config m)) = false /\
  exists x, concat ls ≡ₚ x :: concat ls' /\ length ls' = length ls.
Proof.
  intros (i & x & H). split; [by destruct (overflow_policy _)|]. exists x.
  destruct (take_first_concat _ _ _ _ _ H) as (H1 & H2 & _). done.
Qed.

(** What a call does to the bag of messages it has let in. *)
Definition accounts (m : DMailbox) (ls : list (list E)) (es : list E) (m' : DMailbox)
    (ls' : list (list E)) (lost : list E) : Prop :=
  deliveries m ++ concat ls ++ oq_queue (dm_overflow m) ++ es ≡ₚ
  deliveries m' ++ concat ls' ++ oq_queue (dm_overflow m') ++ lost.

Lemma push_accounts m ls e r ls' m' :
  dm_inv None ls m -> frame m' = frame m -> push_effect m ls e (er_code r) ls' m' ->
  exists lost, accounts m ls (entered e r) m' ls' lost /\
    (lossless (overflow_policy (dm_config m)) = true -> lost = []).
Proof.
  intros Hm [= _ _ _ _ _ Hd] He. unfold accounts, entered. rewrite Hd.
  pose proof (dv_lists _ _ _ Hm) as Hl. pose proof (ring_for_lt _ _ _ (priority_of e) Hm (Hprio e)) as Hr.
  unfold push_effect in He. destruct (er_code r); try done.
  - destruct He as (-> & ls1 & Hev & ->). destruct Hev as [->|Hev].
    + exists []. split; [|done]. rewrite concat_append by (rewrite Hl; done). solve_Permutation.
    + destruct (evicts_bag _ _ _ Hev) as (Hp & x & Hx & Hlen). exists [x]. split; [|congruence].
      rewrite concat_append by (rewrite Hlen, Hl; done). rewrite Hx. solve_Permutation.
  - destruct He as (-> & [->|Hev]); [by exists []|].
    destruct (evicts_bag _ _ _ Hev) as (Hp & x & Hx & Hlen). exists [x]. split; [|congruence].
    rewrite Hx. solve_Permutation.
  - destruct He as (-> & ->). by exists [].
  - destruct He as (-> & ->). by exists [].
  - destruct He as (Hp & -> & ds & Hq & _). exists ds. split; [|by rewrite Hp].
    rewrite Hq. solve_Permutation.
Qed.

Lemma consume_accounts m ls :
  dm_inv None ls m ->
  let m' := (consume m).2 in
  dm_config m' = dm_config m /\ dm_num_lanes m' = dm_num_lanes m /\
  exists ls' lost, dm_inv None ls' m' /\ accounts m ls [] m' ls' lost /\
    (lossless (overflow_policy (dm_config m)) = true -> lost = []).
Proof.
  intros Hm. destruct (dm_system m) as [|t sys] eqn:Es; [destruct (dm_dynamic m) as [|t dyn] eqn:Ed|].
  - pose proof (consume_user_spec ls m Hm Es Ed) as Hc.
    destruct (take_first (lane_order m) ls) as [[[i x] ls1]|] eqn:Et.
    + destruct Hc as (m' & ms & rest & ds & -> & Hq & Hrest & _ & Hinv & Hdel & Hcfg & Hln & _ & _ & _ & Hns).
      split; [done|]. split; [done|]. exists (foldl (append_lane m) ls1 ms), ds. split; [done|].
      split; [|by intros Hp; apply Hns; intros Hs; rewrite Hs in Hp].
      destruct (take_first_concat _ _ _ _ _ Et) as (Hb & Hlen & _). unfold accounts. simpl. rewrite Hdel, Hq, Hrest, Hb.
      rewrite concat_append_list; [solve_Permutation|by rewrite Hlen; apply Hm|].
      intros e. by apply (ring_for_lt None ls).
    + destruct Hc as (m' & -> & (Hinv & Hf & Ho) & _). simpl. injection Hf as _ _ Hcfg Hln _ Hd.
      split; [done|]. split; [done|]. exists ls, []. split; [done|]. split; [|done].
      unfold accounts. by rewrite Hd, Ho.
  - unfold consume_one. rewrite Es, Ed. split; [done|]. split; [done|]. exists ls, [].
    split; [by apply (core_inv None ls m)|]. split; [|done]. unfold accounts, emit. simpl.
    rewrite deliveries_signal. simpl. by rewrite !app_nil_r.
  - unfold consume_one. rewrite Es. split; [done|]. split; [done|]. exists ls, [].
    split; [by apply (core_inv None ls m)|]. split; [|done]. unfold accounts, emit. simpl.
    rewrite deliveries_signal. simpl. by rewrite !app_nil_r.
Qed.

Lemma accounts_same m ls m' :
  deliveries m' = deliveries m -> oq_queue (dm_overflow m') = oq_queue (dm_overflow m) ->
  accounts m ls [] m' ls [].
Proof. intros H1 H2. unfold accounts. by rewrite H1, H2. Qed.

(** A call that only signals work. *)
Lemma signal_accounts m m0 ls :
  dm_inv None ls m -> core m0 = core m -> dm_overflow m0 = dm_overflow m -> dm_events m0 = dm_events m ->
  forall m', core m' = core (signal_work m0) -> frame m' = frame (signal_work m0) ->
    dm_overflow m' = dm_overflow (signal_work m0) ->
  dm_inv None ls m' /\ accounts m ls [] m' ls [] /\ dm_config m' = dm_config m.
Proof.
  intros Hm Hc Ho He m' Hc' Hf' Ho'. destruct (signal_work_core m0) as (Sc & Sf & So).
  split; [apply (core_inv None ls m); [congruence|done]|].
  rewrite Sf in Hf'. injection Hf' as _ _ Hcfg _ _ Hd. injection Hc as _ _ _ Hcfg0.
  split; [|congruence]. unfold accounts. rewrite Ho', So, Ho, Hd. unfold deliveries. by rewrite He.
Qed.

Lemma apply_accounts m ls op es m' :
  dm_inv None ls m -> dop_ok op -> dm_apply m op = Some (es, m') ->
  exists ls' lost, dm_inv None ls' m' /\ accounts m ls es m' ls' lost /\
    (lossless (overflow_policy (dm_config m)) = true -> lost = []) /\
    (lossless (overflow_policy (dm_config m)) = true -> op_lossless op ->
     lossless (overflow_policy (dm_config m')) = true).
Proof.
  intros Hm Hok Hap. pose proof Hm as [D1 D2 D3 D4 D5 D6 D7].
  assert (Hq : forall m0, core m0 = core m -> dm_overflow m0 = dm_overflow m -> dm_events m0 = dm_events m ->
    es = [] -> m' = (make_accepted (signal_work m0)).2 \/ m' = (make_rejected m).2 ->
    exists ls' lost, dm_inv None ls' m' /\ accounts m ls es m' ls' lost /\
      (lossless (overflow_policy (dm_config m)) = true -> lost = []) /\
      (lossless (overflow_policy (dm_config m)) = true -> op_lossless op ->
       lossless (overflow_policy (dm_config m')) = true)).
  { intros m0 Hc Ho He -> [->| ->]; exists ls, [].
    - destruct (signal_accounts m m0 ls Hm Hc Ho He (make_accepted (signal_work m0)).2) as (H1 & H2 & H3);
        try done. rewrite H3. done.
    - split; [by apply (core_inv None ls m)|]. split; [by apply accounts_same|done]. }
  destruct op; simpl in Hap.
  - pose proof (push_spec ls m e now Hm) as Hp. destruct (push m e now) as [[r m1]|]; [|done].
    injection Hap as <- <-. destruct Hp as (ls' & Hi & Hf & He). exists ls'.
    destruct (push_accounts _ _ _ _ _ _ Hm Hf He) as (lost & Ha & Hl). exists lost.
    injection Hf as _ _ -> _ _ _. done.
  - injection Hap as <- <-. apply (Hq (set_queues m (dm_dynamic m) (dm_system m ++ [t]))); try done.
    unfold try_push_control. destruct (_ <=? _); [by right|by left].
  - injection Hap as <- <-. apply (Hq (set_queues m (dm_dynamic m ++ [t]) (dm_system m))); try done.
    unfold try_push_dynamic. destruct (_ <=? _); [by right|by left].
  - injection Hap as <- <-. apply (Hq (set_queues m (dm_dynamic m ++ [t]) (dm_system m))); try done. by left.
  - injection Hap as <- <-. destruct (consume_accounts m ls Hm) as (-> & _ & ls' & lost & H1 & H2 & H3).
    exists ls', lost. done.
  - injection Hap as <- <-. exists ls, []. split; [|split; [by apply accounts_same|done]]. split; try done. apply clamp_range, Hok.
  - injection Hap as <- <-. exists ls, []. split; [|split; [by apply accounts_same|done]]. split; try done. apply clamp_range, Hok.
  - injection Hap as <- <-. exists ls, []. split; [|split; [by apply accounts_same|done]]. split; try done. simpl in Hok |- *.
    unfold kMaxPriorityLanes. destruct (n <? 1) eqn:E1; [|destruct (8 <? n) eqn:E2]; bool_to_prop; lia.
  - injection Hap as <- <-. exists ls, []. split; [|split; [by apply accounts_same|done]].
    by apply (core_inv None ls m).
Qed.

Lemma run_accounts ops : forall m ls es m',
  dm_inv None ls m -> Forall dop_ok ops -> dm_run m ops = Some (es, m') ->
  exists ls' lost, dm_inv None ls' m' /\ accounts m ls es m' ls' lost /\
    (lossless (overflow_policy (dm_config m)) = true -> Forall op_lossless ops -> lost = []).
Proof.
  induction ops as [|op ops IH]; intros m ls es m' Hm Hok Hrun; simpl in Hrun.
  { injection Hrun as <- <-. exists ls, []. split; [done|]. split; [by apply accounts_same|done]. }
  inversion_clear Hok as [|? ? Hop Hops]. destruct (dm_apply m op) as [[es1 m1]|] eqn:Ea; [|done].
  destruct (dm_run m1 ops) as [[es2 m2]|] eqn:Er; [|done]. injection Hrun as <- <-.
  destruct (apply_accounts _ _ _ _ _ Hm Hop Ea) as (ls1 & lost1 & Hm1 & Ha1 & Hl1 & Hp1).
  destruct (IH _ _ _ _ Hm1 Hops Er) as (ls2 & lost2 & Hm2 & Ha2 & Hl2).
  exists ls2, (lost2 ++ lost1). split; [done|]. split.
  - unfold accounts in *. transitivity ((deliveries m1 ++ concat ls1 ++ oq_queue (dm_overflow m1) ++ es2) ++ lost1).
    + transitivity ((deliveries m ++ concat ls ++ oq_queue (dm_overflow m) ++ es1) ++ es2);
        [solve_Permutation|]. rewrite Ha1. solve_Permutation.
    + rewrite Ha2. solve_Permutation.
  - intros Hp Hall. inversion_clear Hall. by rewrite Hl1, Hl2 by auto.
Qed.

(** A ring holds one list. *)
Lemma sum_zlen_unique (ls ls' : list (list E)) (m : DMailbox) :
  length ls = 8%nat -> length ls' = 8%nat -> length (dm_rings m) = 8%nat ->
  (forall i r l, dm_rings m !! i = Some r -> ls !! i = Some l -> ring_is Capacity r None l) ->
  (forall i r l, dm_rings m !! i = Some r -> ls' !! i = Some l -> ring_is Capacity r None l) ->
  sum_by zlen ls = sum_by zlen ls'.
Proof.
  intros H1 H2 H3 Ha Hb. pose proof cap_bounds.
  assert (Hmap : zlen <$> ls = zlen <$> ls').
  { apply list_eq. intros i. rewrite !list_lookup_fmap.
    destruct (ls !! i) as [l|] eqn:El.
    - pose proof (lookup_lt_Some _ _ _ El) as Hlt.
      destruct (lookup_lt_is_Some_2 ls' i) as [l' El']; [lia|].
      destruct (lookup_lt_is_Some_2 (dm_rings m) i) as [r Er]; [lia|]. rewrite El'. simpl. f_equal.
      rewrite (ring_is_depth Capacity _ _ _ (Ha _ _ _ Er El)).
      by rewrite (ring_is_depth Capacity _ _ _ (Hb _ _ _ Er El')).
    - apply lookup_ge_None in El. rewrite (proj2 (lookup_ge_None ls' i)) by lia. done. }
  assert (Hsum : forall k : list (list E), sum_by zlen k = foldr Z.add 0 (zlen <$> k)).
  { induction k as [|x k IH]; [done|]. rewrite sum_by_cons, fmap_cons. simpl. by rewrite IH. }
  by rewrite !Hsum, Hmap.
Qed.

(** *** Order within a lane *)

(** The messages of a list that belong to lane [i]. *)
Definition of_lane (m : DMailbox) (i : nat) (es : list E) : list E :=
  filter (fun e => ring_for m (priority_of e) = i) es.

(** Each lane holds what it let in and has not dispatched, in order. *)
Definition lane_fifo (m : DMailbox) (ls : list (list E)) (es : list E) : Prop :=
  forall i l, ls !! i = Some l -> of_lane m i es = of_lane m i (deliveries m) ++ l.

Lemma of_lane_snoc m i es e :
  of_lane m i (es ++ [e]) = of_lane m i es ++ (if decide (ring_for m (priority_of e) = i) then [e] else []).
Proof.
  unfold of_lane. by rewrite filter_app.
Qed.

Lemma lane_fifo_append m ls es e :
  lane_fifo m ls es -> (ring_for m (priority_of e) < length ls)%nat ->
  lane_fifo m (append_lane m ls e) (es ++ [e]).
Proof.
  intros Hf Hlt i l Hl. destruct (lookup_lt_is_Some_2 _ _ Hlt) as [l0 Hl0].
  rewrite (append_lane_insert _ _ _ _ Hl0) in Hl. rewrite of_lane_snoc. case_decide as Hd.
  - subst i. rewrite list_lookup_insert_eq in Hl by done. injection Hl as <-.
    rewrite (Hf _ _ Hl0). by rewrite <- (assoc_L (++)).
  - rewrite list_lookup_insert_ne in Hl by done. rewrite app_nil_r. by apply Hf.
Qed.

(** The invariant only reads the lane count and the dispatched messages. *)
Lemma lane_fifo_frame m m' ls es :
  dm_num_lanes m' = dm_num_lanes m -> deliveries m' = deliveries m ->
  lane_fifo m ls es -> lane_fifo m' ls es.
Proof.
  intros Hn Hd Hf i l Hl. specialize (Hf i l Hl). unfold of_lane, ring_for in *. by rewrite Hn, Hd.
Qed.

Lemma lane_fifo_take m m' ls es order i x ls' :
  lane_fifo m ls es -> take_first order ls = Some (i, x, ls') ->
  dm_num_lanes m' = dm_num_lanes m -> deliveries m' = deliveries m ++ [x] -> lane_fifo m' ls' es.
Proof.
  intros Hf Ht Hn Hd. destruct (take_first_concat _ _ _ _ _ Ht) as (_ & _ & _ & l0 & Hl0 & ->).
  assert (Hx : ring_for m (priority_of x) = i).
  { assert (Hin : x ∈ of_lane m i es) by (rewrite (Hf _ _ Hl0); apply elem_of_app; right; apply list_elem_of_here).
    by apply list_elem_of_filter in Hin as [? _]. }
  assert (Hsame : forall j k, of_lane m' j k = of_lane m j k) by (intros; unfold of_lane, ring_for; by rewrite Hn).
  intros j l Hl. rewrite !Hsame, Hd, of_lane_snoc. destruct (decide (i = j)) as [<-|Hne].
  - rewrite decide_True by done. rewrite list_lookup_insert_eq in Hl by by eapply lookup_lt_Some.
    injection Hl as <-. rewrite (Hf _ _ Hl0). by rewrite <- (assoc_L (++)).
  - rewrite decide_False by congruence. rewrite list_lookup_insert_ne in Hl by done.
    rewrite app_nil_r. by apply Hf.
Qed.

Lemma push_fifo m ls es e r ls' m' :
  dm_inv None ls m -> lane_fifo m ls es -> lossless (overflow_policy (dm_config m)) = true ->
  frame m' = frame m -> push_effect m ls e (er_code r) ls' m' -> lane_fifo m' ls' (es ++ entered e r).
Proof.
  intros Hm Hf Hp [= _ _ _ Hn _ Hd] He.
  assert (Hnev : forall k, ~ evicts m ls k) by (intros k Hk; apply evicts_bag in Hk as [Hk _]; congruence).
  apply (lane_fifo_frame m); [done|done|]. unfold entered, push_effect in *.
  destruct (er_code r); try done; rewrite ?app_nil_r.
  - destruct He as (_ & ls1 & [->|Hev] & ->); [|by apply Hnev in Hev].
    apply lane_fifo_append; [done|]. rewrite (dv_lists _ _ _ Hm). by apply (ring_for_lt None ls).
  - destruct He as (_ & [->|Hev]); [done|by apply Hnev in Hev].
  - by destruct He as (_ & ->).
  - by destruct He as (_ & ->).
  - destruct He as (Hs & _). by rewrite Hs in Hp.
Qed.

Lemma consume_fifo m ls es :
  dm_inv None ls m -> lane_fifo m ls es -> lossless (overflow_policy (dm_config m)) = true ->
  exists ls', dm_inv None ls' (consume m).2 /\ lane_fifo (consume m).2 ls' es.
Proof.
  intros Hm Hf Hp. destruct (dm_system m) as [|t sys] eqn:Es; [destruct (dm_dynamic m) as [|t dyn] eqn:Ed|].
  - pose proof (consume_user_spec ls m Hm Es Ed) as Hc.
    destruct (take_first (lane_order m) ls) as [[[i x] ls1]|] eqn:Et.
    + destruct Hc as (m' & ms & rest & ds & -> & _ & _ & _ & Hinv & Hdel & _ & Hln & _ & _ & _ & Hns).
      destruct Hns as [-> ->]; [by intros Hs; rewrite Hs in Hp|]. exists ls1. split; [done|].
      by eapply lane_fifo_take.
    + destruct Hc as (m' & -> & (Hinv & [= _ _ _ Hn _ Hd] & _) & _). exists ls. split; [done|].
      by apply (lane_fifo_frame m).
  - unfold consume_one. rewrite Es, Ed. exists ls. split; [by apply (core_inv None ls m)|].
    apply (lane_fifo_frame m); [done| |done]. simpl. unfold emit. rewrite deliveries_signal. apply app_nil_r.
  - unfold consume_one. rewrite Es. exists ls. split; [by apply (core_inv None ls m)|].
    apply (lane_fifo_frame m); [done| |done]. simpl. unfold emit. rewrite deliveries_signal. apply app_nil_r.
Qed.

(** A call that leaves the lanes as they are. *)
Definition keeps_lanes (op : DOp) : bool :=
  match op with SetLanes _ => false | _ => true end.

Lemma signal_keeps (m m0 : DMailbox) :
  dm_num_lanes m0 = dm_num_lanes m -> dm_events m0 = dm_events m ->
  dm_num_lanes (make_accepted (signal_work m0)).2 = dm_num_lanes m /\
  deliveries (make_accepted (signal_work m0)).2 = deliveries m.
Proof.
  intros Hn He. destruct (signal_work_core m0) as (_ & [= _ _ _ H1 _ H2] & _).
  split; [by simpl; rewrite H1|]. change (deliveries (signal_work m0) = deliveries m).
  rewrite H2. unfold deliveries. by rewrite He.
Qed.

(** The calls other than pushes of user messages and consumption. *)
Lemma other_fifo m op es m' :
  match op with PushUser _ _ | Consume | SetLanes _ => False | _ => True end ->
  dm_apply m op = Some (es, m') ->
  es = [] /\ dm_rings m' = dm_rings m /\ dm_num_lanes m' = dm_num_lanes m /\ deliveries m' = deliveries m.
Proof.
  assert (Hq : forall m0, dm_rings m0 = dm_rings m -> dm_num_lanes m0 = dm_num_lanes m ->
    dm_events m0 = dm_events m ->
    let m2 := (make_accepted (signal_work m0)).2 in
    dm_rings m2 = dm_rings m /\ dm_num_lanes m2 = dm_num_lanes m /\ deliveries m2 = deliveries m).
  { intros m0 Hr Hn He. destruct (signal_keeps m m0 Hn He) as [H1 H2]. split; [|done].
    destruct (signal_work_core m0) as ([= H3 _ _ _] & _). simpl. congruence. }
  intros Hop Hap. destruct op; try done; injection Hap as <- <-; (split; [done|]); try done.
  - unfold try_push_control. destruct (_ <=? _); [done|by apply Hq].
  - unfold try_push_dynamic. destruct (_ <=? _); [done|by apply Hq].
  - unfold try_push_dynamic_force. by apply Hq.
Qed.

Lemma apply_fifo m ls es0 op es m' :
  dm_inv None ls m -> lane_fifo m ls es0 -> lossless (overflow_policy (dm_config m)) = true ->
  dop_ok op -> keeps_lanes op = true -> dm_apply m op = Some (es, m') ->
  exists ls', dm_inv None ls' m' /\ lane_fifo m' ls' (es0 ++ es).
Proof.
  intros Hm Hf Hp Hok Hk Hap.
  assert (Hother : match op with PushUser _ _ | Consume | SetLanes _ => False | _ => True end ->
    exists ls', dm_inv None ls' m' /\ lane_fifo m' ls' (es0 ++ es)).
  { intros Hop. destruct (other_fifo _ _ _ _ Hop Hap) as (-> & Hr & Hn & Hd).
    destruct (apply_accounts _ _ _ _ _ Hm Hok Hap) as (ls' & lost & Hm' & _). exists ls.
    rewrite app_nil_r. split; [|by apply (lane_fifo_frame m)].
    assert (Hhold : forall i r l, dm_rings m' !! i = Some r -> ls !! i = Some l ->
      ring_is Capacity r (lease_of None i) l) by (intros i r l; rewrite Hr; apply Hm).
    destruct Hm' as [D1 D2 D3 D4 D5 D6 D7]. split; try done; [apply Hm|].
    rewrite D7. apply (sum_zlen_unique ls' ls m'); try done; apply Hm. }
  destruct op; try by apply Hother; simpl.
  - simpl in Hap. pose proof (push_spec ls m e now Hm) as Hs. destruct (push m e now) as [[r m1]|]; [|done].
    injection Hap as <- <-. destruct Hs as (ls' & Hi & Hfr & He). exists ls'. split; [done|].
    by apply (push_fifo m ls).
  - simpl in Hap. injection Hap as <- <-. rewrite app_nil_r. by apply (consume_fifo m ls).
Qed.

Lemma run_fifo ops : forall m ls es0 es m',
  dm_inv None ls m -> lane_fifo m ls es0 -> lossless (overflow_policy (dm_config m)) = true ->
  Forall dop_ok ops -> Forall op_lossless ops -> forallb keeps_lanes ops = true ->
  dm_run m ops = Some (es, m') ->
  exists ls', dm_inv None ls' m' /\ lane_fifo m' ls' (es0 ++ es).
Proof.
  induction ops as [|op ops IH]; intros m ls es0 es m' Hm Hf Hp Hok Hl Hk Hrun; simpl in Hrun.
  { injection Hrun as <- <-. exists ls. by rewrite app_nil_r. }
  inversion_clear Hok as [|? ? Hop Hops]. inversion_clear Hl as [|? ? Hlo Hls]. simpl in Hk. bool_to_prop.
  destruct (dm_apply m op) as [[es1 m1]|] eqn:Ea; [|done].
  destruct (dm_run m1 ops) as [[es2 m2]|] eqn:Er; [|done]. injection Hrun as <- <-.
  destruct (apply_accounts _ _ _ _ _ Hm Hop Ea) as (_ & _ & _ & _ & _ & Hp1).
  destruct (apply_fifo m ls es0 op es1 m1) as (ls1 & Hm1 & Hf1); try done.
  rewrite (assoc_L (++)). eapply IH; eauto.
Qed.

(** *** Draining at once *)

Lemma drain_ring_spec fuel : forall r (l : list E),
  ring_is Capacity r None l -> (length l < fuel)%nat -> ring_is Capacity (drain_ring Capacity fuel r) None [].
Proof.
  pose proof cap_bounds. induction fuel as [|fuel IH]; intros r l Hr Hl; [lia|]. cbn [drain_ring].
  pose proof (ring_is_acquire Capacity Hcap _ _ Hr) as Ha. destruct l as [|x l].
  - by destruct Ha as (r' & -> & Hr' & _).
  - destruct Ha as (s & r' & -> & Hr' & _). apply (IH _ l); [|simpl in Hl; lia].
    by apply ring_is_release.
Qed.

Lemma ring_is_bounded r (l : list E) : ring_is Capacity r None l -> zlen l <= Capacity.
Proof.
  intros Hr. rewrite (ring_is_depth Capacity _ _ _ Hr). destruct Hr as (vs & ds & Hd & _).
  pose proof (di_window _ _ Hd) as H. simpl in H. lia.
Qed.

Lemma drain_all_spec ls m i :
  dm_inv None ls m -> i ∈ lane_order m ->
  ring_is Capacity (get_ring Capacity (drain_all_now Capacity m) i) None [].
Proof.
  intros Hm Hi. pose proof (lane_order_lt _ _ _ _ Hm Hi) as Hlt. pose proof cap_bounds.
  destruct (inv_ring _ _ _ i Hm Hlt) as (l & Hl & Hr & Hring).
  unfold lane_order in Hi. apply elem_of_seq in Hi.
  assert (Hg : get_ring Capacity (drain_all_now Capacity m) i =
               drain_ring Capacity (S (Z.to_nat Capacity)) (get_ring Capacity m i)).
  { apply nth_lookup_Some. cbn [drain_all_now dm_rings set_rings set_queues begin_drain set_accepting].
    rewrite list_lookup_imap, Hr. change (dm_num_lanes (begin_drain m)) with (dm_num_lanes m).
    cbn [fmap option_fmap option_map]. by rewrite (proj2 (Nat.ltb_lt _ _)) by lia. }
  rewrite Hg. apply (drain_ring_spec _ _ l); [done|].
  pose proof (ring_is_bounded _ _ Hring). unfold zlen in *. lia.
Qed.

(** ** The theorems *)

Section Reachable.
Context (actor prot : Z) (c : MailboxConfig) (ops : list DOp) (es : list E) (m : DMailbox).
Context (Hc : config_ok c) (Hlev : 0 <= priority_levels c) (Hops : Forall dop_ok ops).
Context (Hrun : dm_run (dm_init Capacity actor c prot) ops = Some (es, m)).

Lemma reachable_inv : exists ls, dm_inv None ls m.
Proof.
  destruct (run_accounts _ _ _ _ _ (dm_init_inv actor c prot Hc Hlev) Hops Hrun) as (ls & _ & H & _). eauto.
Qed.

(** The books of the mailbox.  After any sequence of calls the rings hold
    lists [ls], the reservation counter is the number of their messages,
    [empty] answers whether anything is left to take, and the messages let in
    are, as a bag, those dispatched, those in the rings, those in the overflow
    queue and those given up; nothing is given up unless a dropping or
    spilling policy was configured. *)
Theorem mailbox_history :
  exists ls lost, dm_inv None ls m /\
    es ≡ₚ deliveries m ++ concat ls ++ oq_queue (dm_overflow m) ++ lost /\
    reserved_messages (dm_reservation m) = sum_by zlen ls /\
    (dm_empty Capacity m = true <-> dm_system m = [] /\ dm_dynamic m = [] /\
       take_first (lane_order m) ls = None) /\
    (lossless (overflow_policy c) = true -> Forall op_lossless ops -> lost = []).
Proof.
  destruct (run_accounts _ _ _ _ _ (dm_init_inv actor c prot Hc Hlev) Hops Hrun) as (ls & lost & H & Ha & Hl).
  exists ls, lost. split; [done|]. split; [|split; [apply H|split; [by apply dm_empty_spec|done]]].
  exact Ha.
Qed.

(** Order.  With a policy that neither drops nor spills and a fixed number of
    lanes, each lane dispatches exactly the messages it let in, in that order:
    what was let in is what was dispatched followed by what the ring holds. *)
Theorem mailbox_lane_fifo :
  lossless (overflow_policy c) = true -> Forall op_lossless ops -> forallb keeps_lanes ops = true ->
  exists ls, dm_inv None ls m /\
    forall i l, ls !! i = Some l -> of_lane m i es = of_lane m i (deliveries m) ++ l.
Proof.
  intros Hp Hl Hk.
  destruct (run_fifo ops _ (replicate 8 []) [] es m (dm_init_inv actor c prot Hc Hlev)) as (ls & H1 & H2);
    try done; [|by exists ls].
  intros i l Hi. by apply lookup_replicate in Hi as [-> _].
Qed.

(** A push, in every reachable state.  The result code says what happened to
    the lanes and the overflow queue; only the blocking policy does not
    return; and a push to an open mailbox with room is accepted and goes to
    the end of the lane of its priority. *)
Theorem mailbox_push e now :
  exists ls, dm_inv None ls m /\
    match push m e now with
    | None => overflow_policy (dm_config m) = OP_BlockWhenAllowed
    | Some (r, m') => exists ls', dm_inv None ls' m' /\ frame m' = frame m /\
        push_effect m ls e (er_code r) ls' m'
    end /\
    (dm_accepting m = true -> is_expired (deadline_of e) now = false -> preflight e = None ->
     (reserve_of m).1 = RR_Reserved ->
     exists r m', push m e now = Some (r, m') /\ er_code r = EC_Accepted /\
       dm_inv None (append_lane m ls e) m').
Proof.
  destruct reachable_inv as [ls Hm]. exists ls. split; [done|]. split; [by apply push_spec|].
  intros Ha He Hp Hr. destruct (reserve_of m) as [res rm] eqn:Er. simpl in Hr. subst res.
  destruct (publish_reserved_spec ls m e rm Hm Er) as (r & m' & Hpub & Hcode & Hi & _).
  exists r, m'. split; [|done]. unfold try_push_user. rewrite Ha, He, Hp. simpl. fold (reserve_of m).
  by rewrite Er, Hpub.
Qed.

(** A consumption, in every reachable state.  System messages come first,
    then dynamic ones, then the head of the first busy lane, after which
    messages spilled earlier move into the rings; [false] is answered exactly
    when nothing is left. *)
Theorem mailbox_consume :
  exists ls, dm_inv None ls m /\
    match dm_system m, dm_dynamic m with
    | t :: rest, _ => consume m = (true, emit (set_queues m (dm_dynamic m) rest) (OnSystemMessage t))
    | [], t :: rest => consume m = (true, emit (set_queues m rest []) (OnSystemMessage t))
    | [], [] =>
        match take_first (lane_order m) ls with
        | Some (i, x, ls1) => exists m' ms rest ds, consume m = (true, m') /\
            deliveries m' = deliveries m ++ [x] /\ dm_inv None (foldl (append_lane m) ls1 ms) m' /\
            oq_queue (dm_overflow m) = ms ++ rest /\ rest ≡ₚ ds ++ oq_queue (dm_overflow m') /\
            (length ds <= 1)%nat /\
            (overflow_policy (dm_config m) <> OP_SpillToOverflowQueue -> ms = [] /\ ds = [])
        | None => exists m', consume m = (false, m') /\ dm_inv None ls m' /\
            deliveries m' = deliveries m /\ dm_overflow m' = dm_overflow m /\ dm_signaled m' = false
        end
    end.
Proof.
  destruct reachable_inv as [ls Hm]. exists ls. split; [done|].
  destruct (dm_system m) as [|t sys] eqn:Es; [destruct (dm_dynamic m) as [|t dyn] eqn:Ed|].
  - pose proof (consume_user_spec ls m Hm Es Ed) as H.
    destruct (take_first (lane_order m) ls) as [[[i x] ls1]|].
    + destruct H as (m' & ms & rest & ds & H1 & H2 & H3 & H4 & H5 & H6 & _ & _ & _ & _ & _ & H7).
      exists m', ms, rest, ds. done.
    + destruct H as (m' & H1 & (H2 & [= _ _ _ _ _ H3] & H4) & H5 & _). exists m'. done.
  - unfold consume_one. by rewrite Es, Ed.
  - unfold consume_one. by rewrite Es.
Qed.

(** [drain_all_now], in every reachable state: the loops end with every lane
    in use empty, the queues are cleared, nothing was dispatched and no push is
    taken any more; the reservations of the discarded messages stay. *)
Theorem drain_all_empties :
  let m' := drain_all_now Capacity m in
  dm_empty Capacity m' = true /\ deliveries m' = deliveries m /\
  dm_reservation m' = dm_reservation m /\
  forall e now, exists r m2, push m' e now = Some (r, m2) /\ er_code r = EC_Rejected.
Proof.
  destruct reachable_inv as [ls Hm]. split; [|split; [done|split; [done|]]].
  - unfold dm_empty. rewrite !andb_true_iff. split; [|done]. split; [|done].
    apply forallb_forall. intros i Hi. apply list_elem_of_In in Hi.
    apply (proj2 (ring_empty_spec _ [] (drain_all_spec ls m i Hm Hi))). done.
  - intros e now. eexists _, _. by split.
Qed.
End Reachable.
End Spec.

(** ** Concrete mailboxes *)

Definition sample_config (p : OverflowPolicy) (n : Z) : MailboxConfig :=
  mkConfig (mkCapacity n 0) 2 p (dlit 4 5) (dlit 1 2) (double_of_Z 1) 2 0 100 true.

(** Messages are a priority and a number. *)
Notation sample_run cap c ops :=
  (dm_run cap 64 (fun e => Z.abs e.1) (fun _ => INT64_MAX) (fun _ => None) (dm_init cap 1 c 32) ops).

Definition sample_ops : list (@DOp (Z * Z) unit) :=
  [PushUser (1, 10) 0; PushUser (0, 20) 0; PushControl tt; Consume; Consume; PushUser (1, 30) 0].

Definition sample_state p : @DMailbox (Z * Z) unit :=
  match sample_run 4 (sample_config p 4) sample_ops with
  | Some (_, m) => m
  | None => dm_init 4 1 (sample_config p 4) 32
  end.

Lemma sample_prio : forall e : Z * Z, 0 <= (fun e => Z.abs e.1) e.
Proof. intros e. apply Z.abs_nonneg. Qed.

Ltac sample :=
  repeat match goal with
  | |- config_ok _ => unfold config_ok, UINT32_MAX; simpl; lia
  | |- Forall _ _ => repeat constructor
  | |- _ <= _ => simpl; lia
  | |- _ = _ => vm_compute; reflexivity
  end.

Lemma mailbox_history_witness :
  let m := sample_state OP_RejectNewest in
  reserved_messages (dm_reservation m) = 2 /\
  exists ls lost, dm_inv 4 None ls m /\
    [(1, 10); (0, 20); (1, 30)] ≡ₚ deliveries m ++ concat ls ++ oq_queue (dm_overflow m) ++ lost.
Proof.
  intros m. split; [vm_compute; reflexivity|].
  destruct (mailbox_history 4 64 (fun e => Z.abs e.1) (fun _ => INT64_MAX) (fun _ => None) eq_refl
    ltac:(lia) sample_prio 1 32 (sample_config OP_RejectNewest 4) sample_ops
    [(1, 10); (0, 20); (1, 30)] m) as (ls & lost & H1 & H2 & _); sample.
  exists ls, lost. split; assumption.
Defined.

Lemma mailbox_lane_fifo_witness :
  let m := sample_state OP_RejectNewest in
  deliveries m = [(0, 20)] /\
  exists ls, dm_inv 4 None ls m /\
    forall i l, ls !! i = Some l ->
      of_lane (fun e => Z.abs e.1) m i [(1, 10); (0, 20); (1, 30)] =
      of_lane (fun e => Z.abs e.1) m i (deliveries m) ++ l.
Proof.
  intros m. split; [vm_compute; reflexivity|].
  apply (mailbox_lane_fifo 4 64 (fun e => Z.abs e.1) (fun _ => INT64_MAX) (fun _ => None) eq_refl
    ltac:(lia) sample_prio 1 32 (sample_config OP_RejectNewest 4) sample_ops
    [(1, 10); (0, 20); (1, 30)] m); sample.
Defined.

Lemma mailbox_push_witness :
  let m := sample_state OP_DropOldest in
  exists ls, dm_inv 4 None ls m /\
    exists r m', try_push_user 4 64 (fun e => Z.abs e.1) (fun _ => INT64_MAX) (fun _ => None) m (0, 40) 5 = Some (r, m') /\
      er_code r = EC_Accepted.
Proof.
  intros m.
  destruct (mailbox_push 4 64 (fun e => Z.abs e.1) (fun _ => INT64_MAX) (fun _ => None) eq_refl
    ltac:(lia) sample_prio 1 32 (sample_config OP_DropOldest 4) sample_ops
    [(1, 10); (0, 20); (1, 30)] m) with (e := (0, 40)) (now := 5) as (ls & H1 & _ & H2); sample.
  destruct H2 as (r & m' & H3 & H4 & _); sample. exists ls. split; [assumption|]. exists r, m'. split; assumption.
Defined.

Lemma mailbox_consume_witness :
  let m := sample_state OP_RejectNewest in
  (consume_one 4 64 (fun e => Z.abs e.1) m).1 = true /\ exists ls, dm_inv 4 None ls m.
Proof.
  intros m.
  destruct (mailbox_consume 4 64 (fun e => Z.abs e.1) (fun _ => INT64_MAX) (fun _ => None) eq_refl
    ltac:(lia) sample_prio 1 32 (sample_config OP_RejectNewest 4) sample_ops
    [(1, 10); (0, 20); (1, 30)] m) as (ls & H & _); sample.
  split; [vm_compute; reflexivity|]. exists ls. exact H.
Defined.

Lemma drain_all_empties_witness :
  let m := drain_all_now 4 (sample_state OP_RejectNewest) in
  dm_empty 4 m = true /\ reserved_messages (dm_reservation m) = 2.
Proof.
  intros m.
  destruct (drain_all_empties 4 64 (fun e => Z.abs e.1) (fun _ => INT64_MAX) (fun _ => None) eq_refl
    ltac:(lia) sample_prio 1 32 (sample_config OP_RejectNewest 4) sample_ops
    [(1, 10); (0, 20); (1, 30)] (sample_state OP_RejectNewest)) as (H1 & _ & H2 & _); sample.
  split; [exact H1|]. unfold m. rewrite H2. vm_compute. reflexivity.
Defined.

(** A full ring of two with one spilled message: the consumption releases its
    reservation and drains the overflow queue while it still leases the slot,
    the ring refuses, and the spilled message is gone. *)
Theorem spilled_message_lost :
  exists m, sample_run 2 (sample_config OP_SpillToOverflowQueue 2)
      [PushUser (0, 1) 0; PushUser (0, 2) 0; PushUser (0, 3) 0; Consume; Consume; Consume]
    = Some ([(0, 1); (0, 2); (0, 3)], m) /\
  @deliveries _ unit m = [(0, 1); (0, 2)] /\ dm_empty 2 m = true /\
  oq_queue (dm_overflow m) = [] /\ total_dropped_d (dm_stats m) = 1.
Proof. eexists. vm_compute. repeat split. Qed.

(** A message that finds no reservation goes to the back of the overflow
    queue: three spilled messages of one lane come out of order. *)
Theorem spilled_messages_reordered :
  exists m, sample_run 4 (sample_config OP_SpillToOverflowQueue 1)
      [PushUser (0, 1) 0; PushUser (0, 2) 0; PushUser (0, 3) 0; PushUser (0, 4) 0;
       Consume; Consume; Consume; Consume]
    = Some ([(0, 1); (0, 2); (0, 3); (0, 4)], m) /\
  @deliveries _ unit m = [(0, 1); (0, 2); (0, 4); (0, 3)].
Proof. eexists. vm_compute. repeat split. Qed.
