(* ===== verification/StreamBuffer.v ===== *)
(** * Byte buffers

    [adt/stream_buffer.hpp] and [adt/stream_buffer.cpp]: a vector with an offset
    of consumed bytes.  Compaction and growth move bytes and do not show: the
    operations refine those of a list, the readable bytes.  How far the vector
    grows when it must is the standard library's choice, the parameter [grow]. *)

From S2P Require Import Prelude.
From stdpp Require Import base numbers list.

#[local] Open Scope Z_scope.

Definition kDefaultInitialCapacity : Z := 65536.
Definition kCompactThreshold : Z := 65536.
Definition PTRDIFF_MAX : Z := 9223372036854775807.

Record StreamBuffer := mkSB {
  buf : list Z;                (* std::vector<uint8_t> *)
  buf_capacity : Z;
  read_pos : Z;
  reserve_tail_amount : Z
}.

Section StreamBuffer.
Context (grow : Z -> Z -> Z).   (* old capacity, size needed *)

(** ** The vector underneath *)

Definition vec_fit (cap n : Z) : Z := if n <=? cap then cap else grow cap n.
Definition set_buf (sb : StreamBuffer) (l : list Z) : StreamBuffer :=
  mkSB l (vec_fit (buf_capacity sb) (zlen l)) (read_pos sb) (reserve_tail_amount sb).
Definition set_read_pos (sb : StreamBuffer) (p : Z) : StreamBuffer :=
  mkSB (buf sb) (buf_capacity sb) p (reserve_tail_amount sb).
Definition set_reserve_amount (sb : StreamBuffer) (n : Z) : StreamBuffer :=
  mkSB (buf sb) (buf_capacity sb) (read_pos sb) n.
Definition vec_reserve (sb : StreamBuffer) (n : Z) : StreamBuffer :=
  mkSB (buf sb) (vec_fit (buf_capacity sb) n) (read_pos sb) (reserve_tail_amount sb).

(** [std::vector::resize]: truncates or appends copies of [v]. *)
Definition vec_resize (l : list Z) (n v : Z) : list Z :=
  take (Z.to_nat n) l ++ replicate (Z.to_nat n - length l) v.

(** ** Construction *)

Definition sb_empty : StreamBuffer := mkSB [] 0 0 0.
Definition sb_of (l : list Z) : StreamBuffer := set_buf sb_empty l.
Definition sb_filled (count v : Z) : StreamBuffer := sb_of (replicate (Z.to_nat count) v).
Definition with_capacity (cap : Z) : StreamBuffer := vec_reserve sb_empty cap.
(** The copy constructor: the reserved tail is not copied. *)
Definition sb_copy (sb : StreamBuffer) : StreamBuffer :=
  mkSB (buf sb) (vec_fit 0 (zlen (buf sb))) (read_pos sb) 0.

(** ** Queries *)

Definition sb_size (sb : StreamBuffer) : Z := u64 (zlen (buf sb) - read_pos sb).
Definition sb_is_empty (sb : StreamBuffer) : bool := sb_size sb =? 0.
(** [operator[]] reads the vector unchecked. *)
Definition sb_at (sb : StreamBuffer) (i : Z) : Z := nth (Z.to_nat (read_pos sb + i)) (buf sb) 0.
Definition sb_readable (sb : StreamBuffer) : list Z := drop (Z.to_nat (read_pos sb)) (buf sb).

(** ** Compaction and capacity *)

Definition sb_clear (sb : StreamBuffer) : StreamBuffer := set_read_pos (set_buf sb []) 0.

Definition compact (sb : StreamBuffer) : StreamBuffer :=
  if read_pos sb =? 0 then sb
  else
    let readable := sb_size sb in
    if readable =? 0 then sb_clear sb
    else
      (* memmove, then resize *)
      let moved := take (Z.to_nat readable) (sb_readable sb) ++ drop (Z.to_nat readable) (buf sb) in
      set_read_pos (set_buf sb (vec_resize moved readable 0)) 0.

Definition maybe_compact (sb : StreamBuffer) : StreamBuffer :=
  if read_pos sb =? 0 then sb
  else if (sb_size sb <? read_pos sb) || (kCompactThreshold <? read_pos sb) then compact sb
  else sb.

Definition ensure_capacity (sb : StreamBuffer) (additional_bytes : Z) : StreamBuffer :=
  let sb :=
    if 0 <? read_pos sb then
      if u64 (buf_capacity sb - zlen (buf sb)) <? additional_bytes then compact sb else sb
    else sb in
  if u64 (buf_capacity sb - zlen (buf sb)) <? additional_bytes then
    let new_cap := Z.max (u64 (buf_capacity sb * 2)) (u64 (zlen (buf sb) + additional_bytes)) in
    vec_reserve sb (Z.max new_cap kDefaultInitialCapacity)
  else sb.

Definition sb_reserve (sb : StreamBuffer) (n : Z) : StreamBuffer :=
  if buf_capacity sb <? n then vec_reserve sb n else sb.
Definition sb_resize (sb : StreamBuffer) (n v : Z) : StreamBuffer :=
  let sb := compact sb in set_buf sb (vec_resize (buf sb) n v).

(** ** Modifiers *)

Definition append (sb : StreamBuffer) (data : list Z) : StreamBuffer :=
  let sb := ensure_capacity sb (zlen data) in set_buf sb (buf sb ++ data).
Definition push_back (sb : StreamBuffer) (v : Z) : StreamBuffer :=
  let sb := ensure_capacity sb 1 in set_buf sb (buf sb ++ [v]).
Definition from_data (data : list Z) : StreamBuffer :=
  let sb := with_capacity (zlen data) in if 0 <? zlen data then append sb data else sb.
Definition assign (sb : StreamBuffer) (data : list Z) : StreamBuffer :=
  set_buf (sb_clear sb) data.

(** Positions are offsets from the first readable byte. *)
Definition sb_insert (sb : StreamBuffer) (offset : Z) (data : list Z) : StreamBuffer :=
  let sb := compact sb in
  set_buf sb (take (Z.to_nat offset) (buf sb) ++ data ++ drop (Z.to_nat offset) (buf sb)).

Definition consume (sb : StreamBuffer) (n : Z) : StreamBuffer :=
  set_read_pos sb (u64 (read_pos sb + n)).

(** [erase]: the iterator it returns is taken with [begin()], which may compact. *)
Definition sb_erase (sb : StreamBuffer) (first last : Z) : StreamBuffer :=
  if last <=? first then maybe_compact sb
  else if first =? 0 then maybe_compact (consume sb (last - first))
  else
    let sb := compact sb in
    set_buf sb (take (Z.to_nat first) (buf sb) ++ drop (Z.to_nat last) (buf sb)).

(** ** Direct writes *)

(** [reserve_tail] returns the position of the tail; the caller writes there. *)
Definition reserve_tail (sb : StreamBuffer) (n : Z) : StreamBuffer :=
  let sb := ensure_capacity sb n in
  set_reserve_amount (set_buf sb (vec_resize (buf sb) (u64 (zlen (buf sb) + n)) 0)) n.
Definition tail_position (sb : StreamBuffer) : Z := zlen (buf sb) - reserve_tail_amount sb.
Definition write_at (sb : StreamBuffer) (pos : Z) (data : list Z) : StreamBuffer :=
  set_buf sb (take (Z.to_nat pos) (buf sb) ++ data ++ drop (Z.to_nat pos + length data) (buf sb)).

Definition commit_tail (sb : StreamBuffer) (n : Z) : StreamBuffer :=
  if 0 <? reserve_tail_amount sb then
    set_reserve_amount
      (if n <? reserve_tail_amount sb
       then set_buf sb (vec_resize (buf sb) (u64 (zlen (buf sb) - u64 (reserve_tail_amount sb - n))) 0)
       else sb) 0
  else set_buf sb (vec_resize (buf sb) (u64 (zlen (buf sb) + n)) 0).

(** ** Comparison *)

Definition sb_eqb (a b : StreamBuffer) : bool :=
  if negb (sb_size a =? sb_size b) then false
  else if sb_size a =? 0 then true
  else bool_decide (take (Z.to_nat (sb_size a)) (sb_readable a) = take (Z.to_nat (sb_size a)) (sb_readable b)).

(** ** The readable bytes *)

Definition sb_ok (sb : StreamBuffer) : Prop :=
  0 <= read_pos sb <= zlen (buf sb) /\ zlen (buf sb) <= UINT64_MAX /\ 0 <= reserve_tail_amount sb.

(** [sb] holds the bytes [l]. *)
Definition sb_holds (sb : StreamBuffer) (l : list Z) : Prop := sb_ok sb /\ sb_readable sb = l.

Lemma sb_size_holds sb l : sb_holds sb l -> sb_size sb = zlen l.
Proof.
  intros [(H1 & H2 & _) <-]. unfold sb_size, sb_readable, zlen in *. rewrite length_drop.
  rewrite u64_small by (unfold UINT64_MAX in *; lia). lia.
Qed.

Lemma sb_at_holds sb l i : sb_holds sb l -> 0 <= i < zlen l -> l !! Z.to_nat i = Some (sb_at sb i).
Proof.
  intros [(H1 & H2 & _) <-] Hi. unfold sb_readable, zlen in *. rewrite length_drop in Hi.
  rewrite lookup_drop. unfold sb_at. replace (Z.to_nat (read_pos sb + i)) with (Z.to_nat (read_pos sb) + Z.to_nat i)%nat by lia.
  destruct (lookup_lt_is_Some_2 (buf sb) (Z.to_nat (read_pos sb) + Z.to_nat i)) as [x Hx]; [lia|].
  by rewrite Hx, (nth_lookup_Some _ _ _ _ Hx).
Qed.

Lemma zlen_take (l : list Z) n : 0 <= n <= zlen l -> zlen (take (Z.to_nat n) l) = n.
Proof. unfold zlen. rewrite length_take. lia. Qed.

Lemma vec_resize_shrink l n v : 0 <= n <= zlen l -> vec_resize l n v = take (Z.to_nat n) l.
Proof.
  intros Hn. unfold vec_resize, zlen in *. replace (Z.to_nat n - length l)%nat with 0%nat by lia. apply app_nil_r.
Qed.
Lemma vec_resize_grow l n v : 0 <= n -> vec_resize l (zlen l + n) v = l ++ replicate (Z.to_nat n) v.
Proof.
  intros Hn. unfold vec_resize, zlen. rewrite take_ge by lia. do 2 f_equal. lia.
Qed.
Lemma vec_resize_length l n v : 0 <= n -> zlen (vec_resize l n v) = n.
Proof. intros Hn. unfold vec_resize, zlen. rewrite length_app, length_take, length_replicate. lia. Qed.

(** A buffer whose vector is all readable. *)
Lemma holds_at_zero sb l :
  read_pos sb = 0 -> buf sb = l -> zlen l <= UINT64_MAX -> 0 <= reserve_tail_amount sb -> sb_holds sb l.
Proof.
  intros H1 H2 H3 H4. unfold sb_holds, sb_ok, sb_readable. rewrite H1, H2. pose proof (zlen_nonneg l).
  split; [lia|done].
Qed.

Lemma holds_buf sb l : sb_holds sb l -> read_pos sb = 0 -> buf sb = l.
Proof. intros [_ H] H0. unfold sb_readable in H. by rewrite H0 in H. Qed.

Lemma compact_holds sb l :
  sb_holds sb l -> sb_holds (compact sb) l /\ read_pos (compact sb) = 0 /\
  reserve_tail_amount (compact sb) = reserve_tail_amount sb.
Proof.
  intros Hl. pose proof (sb_size_holds _ _ Hl) as Hs. pose proof Hl as [(H1 & H2 & H3) Hr].
  assert (Hle : zlen l <= zlen (buf sb)) by (rewrite <- Hr; unfold sb_readable, zlen; rewrite length_drop; lia).
  pose proof (zlen_nonneg l). unfold compact.
  destruct (read_pos sb =? 0) eqn:E0; bool_to_prop; [by split|]. rewrite Hs.
  destruct (zlen l =? 0) eqn:E1; bool_to_prop; (split; [|split; done]); apply holds_at_zero; try done; try lia.
  - destruct l; [done|]. by rewrite zlen_cons in *; pose proof (zlen_nonneg l); lia.
  - simpl. rewrite Hr. rewrite (take_ge l) by (unfold zlen; lia).
    rewrite vec_resize_shrink by (rewrite zlen_app; pose proof (zlen_nonneg (drop (Z.to_nat (zlen l)) (buf sb))); lia).
    unfold zlen. rewrite Nat2Z.id. by rewrite take_app_length.
Qed.

Lemma maybe_compact_holds sb l : sb_holds sb l -> sb_holds (maybe_compact sb) l.
Proof.
  intros Hl. unfold maybe_compact. destruct (_ =? 0); [done|].
  destruct (_ || _); [by apply compact_holds|done].
Qed.

Lemma reserve_holds sb l n : sb_holds sb l -> sb_holds (vec_reserve sb n) l.
Proof. done. Qed.

Lemma ensure_capacity_holds sb l n :
  sb_holds sb l -> sb_holds (ensure_capacity sb n) l /\
  reserve_tail_amount (ensure_capacity sb n) = reserve_tail_amount sb.
Proof.
  intros Hl. unfold ensure_capacity. destruct (compact_holds sb l Hl) as (Hc & _ & Ht).
  destruct (0 <? read_pos sb); [destruct (_ <? n)|]; destruct (_ <? n); done.
Qed.

(** Appending behind the readable bytes. *)
Lemma snoc_holds sb l d :
  sb_holds sb l -> zlen (buf sb) + zlen d <= UINT64_MAX -> sb_holds (set_buf sb (buf sb ++ d)) (l ++ d).
Proof.
  intros [(H1 & H2 & H3) <-] Hd. pose proof (zlen_nonneg d). split.
  - unfold sb_ok. simpl. rewrite zlen_app. lia.
  - unfold sb_readable. simpl. rewrite drop_app_le; [done|]. unfold zlen in *. lia.
Qed.

(** ** Operations against lists *)

Inductive SbOp :=
| SAppend (d : list Z)
| SPushBack (v : Z)
| SReserve (n : Z)
| SResize (n v : Z)
| SAssign (d : list Z)
| SInsert (offset : Z) (d : list Z)
| SErase (first last : Z)
| SClear
| SConsume (n : Z)
| SCompact
| SData                          (* data(), begin(): may compact *)
| SReserveTail (n : Z)           (* a tail that is never committed *)
| SFill (n : Z) (d : list Z).    (* reserve_tail, write, commit_tail *)

(** [fill]: reserve [n] bytes, write [d] there, commit its length. *)
Definition fill (sb : StreamBuffer) (n : Z) (d : list Z) : StreamBuffer :=
  let sb := reserve_tail sb n in
  commit_tail (write_at sb (tail_position sb) d) (zlen d).

Definition sb_apply (sb : StreamBuffer) (op : SbOp) : StreamBuffer :=
  match op with
  | SAppend d => append sb d
  | SPushBack v => push_back sb v
  | SReserve n => sb_reserve sb n
  | SResize n v => sb_resize sb n v
  | SAssign d => assign sb d
  | SInsert o d => sb_insert sb o d
  | SErase a b => sb_erase sb a b
  | SClear => sb_clear sb
  | SConsume n => consume sb n
  | SCompact => compact sb
  | SData => maybe_compact sb
  | SReserveTail n => reserve_tail sb n
  | SFill n d => fill sb n d
  end.

(** The reference: the operations of a list. *)
Definition list_apply (l : list Z) (op : SbOp) : list Z :=
  match op with
  | SAppend d => l ++ d
  | SPushBack v => l ++ [v]
  | SReserve _ | SCompact | SData => l
  | SResize n v => vec_resize l n v
  | SAssign d => d
  | SInsert o d => take (Z.to_nat o) l ++ d ++ drop (Z.to_nat o) l
  | SErase a b => if b <=? a then l else take (Z.to_nat a) l ++ drop (Z.to_nat b) l
  | SClear => []
  | SConsume n => drop (Z.to_nat n) l
  | SReserveTail n => l ++ replicate (Z.to_nat n) 0
  | SFill _ d => l ++ d
  end.

(** Positions lie in the readable bytes. *)
Definition sb_op_ok (l : list Z) (op : SbOp) : Prop :=
  match op with
  | SResize n _ | SReserveTail n => 0 <= n
  | SInsert o _ => 0 <= o <= zlen l
  | SErase a b => 0 <= a /\ b <= zlen l
  | SConsume n => 0 <= n <= zlen l
  | SFill n d => zlen d <= n
  | _ => True
  end.

(** The bytes an operation may add to the vector. *)
Definition sb_added (op : SbOp) : Z :=
  match op with
  | SAppend d | SAssign d | SInsert _ d => zlen d
  | SPushBack _ => 1
  | SResize n _ | SReserveTail n | SFill n _ => n
  | _ => 0
  end.

(** The vector stays within its old size and what is added. *)
Definition sb_step_ok (sb sb' : StreamBuffer) (l' : list Z) (added : Z) : Prop :=
  sb_holds sb' l' /\ zlen (buf sb') <= zlen (buf sb) + added.

Lemma compact_shrinks sb l : sb_holds sb l -> zlen (buf (compact sb)) <= zlen (buf sb).
Proof.
  intros Hl. destruct (compact_holds sb l Hl) as (Hc & H0 & _). rewrite (holds_buf _ _ Hc H0).
  destruct Hl as [_ <-]. unfold sb_readable, zlen. rewrite length_drop. lia.
Qed.

Lemma maybe_compact_step sb l : sb_holds sb l -> sb_step_ok sb (maybe_compact sb) l 0.
Proof.
  intros Hl. split; [by apply maybe_compact_holds|]. unfold maybe_compact.
  destruct (_ =? 0); [lia|]. destruct (_ || _); [|lia]. pose proof (compact_shrinks sb l Hl). lia.
Qed.

Lemma ensure_capacity_step sb l n : sb_holds sb l -> sb_step_ok sb (ensure_capacity sb n) l 0.
Proof.
  intros Hl. split; [by apply ensure_capacity_holds|]. pose proof (compact_shrinks sb l Hl).
  unfold ensure_capacity. destruct (0 <? read_pos sb); [destruct (_ <? n)|]; destruct (_ <? n); simpl; lia.
Qed.

Lemma append_step sb l d :
  sb_holds sb l -> zlen (buf sb) + zlen d <= UINT64_MAX -> sb_step_ok sb (append sb d) (l ++ d) (zlen d).
Proof.
  intros Hl Hd. destruct (ensure_capacity_step sb l (zlen d) Hl) as [He Hb]. split.
  - apply snoc_holds; [done|lia].
  - simpl. rewrite zlen_app. lia.
Qed.

(** After a compaction the vector is the readable bytes. *)
Lemma compact_step sb l f :
  sb_holds sb l -> zlen (f l) <= UINT64_MAX ->
  let sb' := set_buf (compact sb) (f (buf (compact sb))) in sb_holds sb' (f l) /\ zlen (buf sb') = zlen (f l).
Proof.
  intros Hl Hf. destruct (compact_holds sb l Hl) as ([(_ & _ & Ha) Hc] & H0 & _).
  assert (Hb : buf (compact sb) = l) by (apply holds_buf; [by apply compact_holds|done]).
  simpl. rewrite Hb. split; [|done]. by apply holds_at_zero.
Qed.

Lemma reserve_tail_step sb l n :
  sb_holds sb l -> 0 <= n -> zlen (buf sb) + n <= UINT64_MAX ->
  sb_step_ok sb (reserve_tail sb n) (l ++ replicate (Z.to_nat n) 0) n /\
  reserve_tail_amount (reserve_tail sb n) = n /\
  buf (reserve_tail sb n) = buf (ensure_capacity sb n) ++ replicate (Z.to_nat n) 0.
Proof.
  intros Hl Hn Hb. destruct (ensure_capacity_step sb l n Hl) as [He Hle].
  unfold reserve_tail. set (sb1 := ensure_capacity sb n) in *.
  assert (Hr : zlen (replicate (Z.to_nat n) 0) = n) by (unfold zlen; rewrite length_replicate; lia).
  rewrite u64_small by (pose proof (zlen_nonneg (buf sb1)); unfold UINT64_MAX in *; lia).
  rewrite vec_resize_grow by done.
  destruct (snoc_holds sb1 l (replicate (Z.to_nat n) 0) He) as [Hok Hrd]; [rewrite Hr; lia|].
  split; [|done]. split; [split; [|exact Hrd]|].
  - destruct Hok as (O1 & O2 & _). split; [exact O1|]. split; [exact O2|]. simpl. lia.
  - simpl. rewrite zlen_app, Hr. lia.
Qed.

(** Committing [k] of [n] reserved bytes keeps the first [k]. *)
Lemma commit_tail_buf sb pre d n :
  buf sb = pre ++ d ++ replicate (Z.to_nat (n - zlen d)) 0 -> zlen d <= n ->
  zlen pre + n <= UINT64_MAX -> reserve_tail_amount sb = n ->
  buf (commit_tail sb (zlen d)) = pre ++ d /\ reserve_tail_amount (commit_tail sb (zlen d)) = 0 /\
  read_pos (commit_tail sb (zlen d)) = read_pos sb.
Proof.
  intros Hw Hd Hb Ha. pose proof (zlen_nonneg d). pose proof (zlen_nonneg pre).
  assert (Hlen : zlen (buf sb) = zlen pre + n).
  { rewrite Hw, !zlen_app. unfold zlen at 3. rewrite length_replicate. lia. }
  unfold commit_tail. rewrite Ha, Hlen. destruct (0 <? n) eqn:En; bool_to_prop.
  - split; [|split; [done|by destruct (zlen d <? n)]]. destruct (zlen d <? n) eqn:Ed; bool_to_prop; simpl.
    + rewrite (u64_small (n - zlen d)), u64_small by (unfold UINT64_MAX in *; lia).
      rewrite vec_resize_shrink by lia. rewrite Hw, (assoc_L (++)).
      rewrite take_app_le, take_ge; [done|..]; rewrite length_app; unfold zlen in *; lia.
    + rewrite Hw. replace (n - zlen d) with 0 by lia. by rewrite app_nil_r.
  - assert (n = 0) as -> by lia. assert (Hz : zlen d = 0) by lia.
    destruct d; [|rewrite zlen_cons in Hz; pose proof (zlen_nonneg d); lia].
    split; [|done]. cbn [buf set_buf]. rewrite Hz, u64_small by (unfold UINT64_MAX in *; lia).
    rewrite vec_resize_shrink by lia. rewrite take_ge; [|unfold zlen in *; lia]. rewrite Hw.
    by rewrite Hz.
Qed.

Lemma write_tail_buf sb pre d n :
  buf sb = pre ++ replicate (Z.to_nat n) 0 -> zlen d <= n -> reserve_tail_amount sb = n ->
  buf (write_at sb (tail_position sb) d) = pre ++ d ++ replicate (Z.to_nat (n - zlen d)) 0.
Proof.
  intros Hbuf Hd Ha. pose proof (zlen_nonneg d). unfold write_at, tail_position. cbn [buf set_buf].
  rewrite Ha, Hbuf, zlen_app. replace (zlen (replicate (Z.to_nat n) 0)) with n
    by (unfold zlen; rewrite length_replicate; lia).
  replace (Z.to_nat (zlen pre + n - n)) with (length pre) by (unfold zlen; lia).
  rewrite take_app_length, drop_app_add' by done. do 2 f_equal. rewrite drop_replicate. f_equal.
  unfold zlen. lia.
Qed.

Lemma fill_step sb l n d :
  sb_holds sb l -> zlen d <= n -> zlen (buf sb) + n <= UINT64_MAX ->
  sb_step_ok sb (fill sb n d) (l ++ d) (zlen d) /\ reserve_tail_amount (fill sb n d) = 0.
Proof.
  intros Hl Hd Hb. pose proof (zlen_nonneg d).
  destruct (ensure_capacity_step sb l n Hl) as [[(O1 & O2 & O3) Hrd] Hle].
  destruct (reserve_tail_step sb l n Hl) as (_ & Ha & Hbuf); [lia|lia|].
  destruct (commit_tail_buf (write_at (reserve_tail sb n) (tail_position (reserve_tail sb n)) d)
    (buf (ensure_capacity sb n)) d n) as (C1 & C2 & C3); [by apply write_tail_buf|done|lia|done|].
  unfold fill. set (sb' := commit_tail _ _) in *. split; [|done]. split.
  - split; [unfold sb_ok|unfold sb_readable]; rewrite C1, C3.
    + rewrite C2, zlen_app. change (read_pos (write_at _ _ _)) with (read_pos (ensure_capacity sb n)). lia.
    + change (read_pos (write_at _ _ _)) with (read_pos (ensure_capacity sb n)).
      rewrite drop_app_le; [|unfold zlen in *; lia]. f_equal. exact Hrd.
  - rewrite C1, zlen_app. lia.
Qed.

Lemma zlen_drop_le {A} (l : list A) n : zlen (drop n l) <= zlen l.
Proof. unfold zlen. rewrite length_drop. lia. Qed.
Lemma zlen_take_le {A} (l : list A) n : zlen (take n l) <= zlen l.
Proof. unfold zlen. rewrite length_take. lia. Qed.

Lemma holds_le sb l : sb_holds sb l -> zlen l <= zlen (buf sb).
Proof. intros [_ <-]. apply zlen_drop_le. Qed.

Lemma consume_step sb l n :
  sb_holds sb l -> 0 <= n <= zlen l -> sb_step_ok sb (consume sb n) (drop (Z.to_nat n) l) 0.
Proof.
  intros Hl Hn. pose proof Hl as [(O1 & O2 & O3) Hrd].
  assert (Hlen : zlen l = zlen (buf sb) - read_pos sb)
    by (rewrite <- Hrd; unfold sb_readable, zlen in *; rewrite length_drop; lia).
  assert (Hpos : read_pos (consume sb n) = read_pos sb + n)
    by (simpl; apply u64_small; unfold UINT64_MAX in *; lia).
  split; [|simpl; lia]. split; [unfold sb_ok; rewrite Hpos; simpl; lia|].
  unfold sb_readable. rewrite Hpos. simpl. rewrite Z2Nat.inj_add by lia. rewrite <- drop_drop.
  by rewrite <- Hrd.
Qed.

Lemma sb_apply_step sb l op :
  sb_holds sb l -> sb_op_ok l op -> zlen (buf sb) + sb_added op <= UINT64_MAX ->
  sb_step_ok sb (sb_apply sb op) (list_apply l op) (sb_added op).
Proof.
  intros Hl Hok Hb. pose proof (holds_le sb l Hl) as Hle.
  assert (Hcompact : forall f, zlen (f l) <= zlen (buf sb) + sb_added op ->
    sb_step_ok sb (set_buf (compact sb) (f (buf (compact sb)))) (f l) (sb_added op)).
  { intros f Hf. destruct (compact_step sb l f Hl) as [H1 H2]; [lia|]. split; [done|]. rewrite H2. done. }
  destruct op as [d|v|n|n v|d|o d|a b| |n| | |n|n d]; simpl in Hok, Hb |- *.
  - by apply append_step.
  - by apply (append_step sb l [v]).
  - unfold sb_reserve. split; destruct (_ <? n); simpl; (done || lia).
  - apply (Hcompact (fun l => vec_resize l n v)). rewrite vec_resize_length by done. simpl. pose proof (zlen_nonneg (buf sb)). lia.
  - split; [apply holds_at_zero; try done; [pose proof (zlen_nonneg (buf sb)); lia|apply Hl]|].
    simpl. pose proof (zlen_nonneg (buf sb)). lia.
  - apply (Hcompact (fun l => take (Z.to_nat o) l ++ d ++ drop (Z.to_nat o) l)). simpl.
    rewrite !zlen_app. unfold zlen in *. rewrite length_take, length_drop. lia.
  - unfold sb_erase. destruct (b <=? a) eqn:E1; bool_to_prop; [by apply maybe_compact_step|].
    destruct (a =? 0) eqn:E2; bool_to_prop.
    + subst a. destruct (consume_step sb l (b - 0) Hl) as [H1 H2]; [lia|].
      destruct (maybe_compact_step _ _ H1) as [H3 H4]. rewrite Z.sub_0_r in *. split; [exact H3|lia].
    + apply (Hcompact (fun l => take (Z.to_nat a) l ++ drop (Z.to_nat b) l)). simpl.
      rewrite zlen_app. unfold zlen in *. rewrite length_take, length_drop. lia.
  - split; [apply holds_at_zero; try done; apply Hl|]. simpl. pose proof (zlen_nonneg (buf sb)). change (zlen (@nil Z)) with 0. lia.
  - by apply consume_step.
  - split; [by apply compact_holds|]. pose proof (compact_shrinks sb l Hl). lia.
  - by apply maybe_compact_step.
  - by apply reserve_tail_step.
  - destruct (fill_step sb l n d Hl Hok Hb) as [[H1 H2] _]. split; [done|lia].
Qed.

(** A run whose positions are in range, and its reference. *)
Fixpoint sb_run_ok (l : list Z) (ops : list SbOp) : Prop :=
  match ops with
  | [] => True
  | op :: ops => sb_op_ok l op /\ 0 <= sb_added op /\ sb_run_ok (list_apply l op) ops
  end.

Lemma sb_run_holds ops : forall sb l,
  sb_holds sb l -> sb_run_ok l ops -> zlen (buf sb) + sum_by sb_added ops <= UINT64_MAX ->
  sb_holds (foldl sb_apply sb ops) (foldl list_apply l ops).
Proof.
  induction ops as [|op ops IH]; intros sb l Hl Hok Hb; [done|]. destruct Hok as (Hop & Ha & Hok).
  rewrite sum_by_cons in Hb.
  assert (Hnn : forall ops l, sb_run_ok l ops -> 0 <= sum_by sb_added ops).
  { clear. induction ops as [|op ops IH]; intros l; [done|]. intros (_ & H & Hr). rewrite sum_by_cons.
    specialize (IH _ Hr). lia. }
  pose proof (Hnn _ _ Hok). destruct (sb_apply_step sb l op Hl Hop) as [H1 H2]; [lia|].
  simpl. apply IH; [done|done|lia].
Qed.

(** A buffer behaves as the list of its readable bytes under any sequence of
    operations that stay in range: compaction, growth and the reserved tail do
    not show, the size, the elements and the comparison are those of the lists. *)
Theorem stream_buffer_refines_list ops ops' :
  sb_run_ok [] ops -> sum_by sb_added ops <= UINT64_MAX ->
  sb_run_ok [] ops' -> sum_by sb_added ops' <= UINT64_MAX ->
  let sb := foldl sb_apply sb_empty ops in let l := foldl list_apply [] ops in
  let sb' := foldl sb_apply sb_empty ops' in let l' := foldl list_apply [] ops' in
  sb_readable sb = l /\ sb_size sb = zlen l /\
  (forall i, 0 <= i < zlen l -> l !! Z.to_nat i = Some (sb_at sb i)) /\
  (sb_eqb sb sb' = true <-> l = l').
Proof.
  intros H1 H2 H3 H4 sb l sb' l'.
  assert (H0 : sb_holds sb_empty []) by by apply holds_at_zero.
  assert (Hl : sb_holds sb l) by by apply sb_run_holds.
  assert (Hl' : sb_holds sb' l') by by apply sb_run_holds.
  pose proof (sb_size_holds _ _ Hl) as Hs. pose proof (sb_size_holds _ _ Hl') as Hs'.
  split; [apply Hl|]. split; [done|]. split; [by intros; apply sb_at_holds|].
  destruct Hl as [_ Hl], Hl' as [_ Hl']. unfold sb_eqb. rewrite Hs, Hs', Hl, Hl'.
  destruct (zlen l =? zlen l') eqn:E; simpl; bool_to_prop.
  - rewrite (take_ge l), (take_ge l') by (unfold zlen in *; lia). destruct (zlen l =? 0) eqn:E0; bool_to_prop.
    + assert (Hn : forall k : list Z, zlen k = 0 -> k = []) by (intros [|]; [done|unfold zlen; simpl; lia]).
      by rewrite (Hn l), (Hn l') by lia.
    + by rewrite bool_decide_eq_true.
  - split; [done|]. intros ->. done.
Qed.
End StreamBuffer.

Lemma stream_buffer_refines_list_witness :
  let ops := [SAppend [1; 2; 3; 4]; SConsume 3; SData; SFill 4 [5; 6]; SInsert 1 [7]; SErase 1 2] in
  let sb := foldl (sb_apply (fun _ n => n)) sb_empty ops in
  sb_readable sb = [4; 5; 6].
Proof.
  pose proof (stream_buffer_refines_list (fun _ n => n)
    [SAppend [1; 2; 3; 4]; SConsume 3; SData; SFill 4 [5; 6]; SInsert 1 [7]; SErase 1 2] []) as H.
  destruct H as [H _]; [by vm_compute; repeat split; discriminate..|]. exact H.
Defined.
