(* ===== verification/WireFrame.v ===== *)
(** * Wire frames

    [msg/frame.hpp], [msg/frame.cpp]: a frame is the magic [HPAC], the length of
    the payload in network byte order, and the payload, a serialized protobuf
    envelope; the protobuf library is the pair [serialize], [parse].  The
    theorems are the round trip and what each outcome of a decode says about
    the bytes. *)

From S2P Require Import Prelude StreamBuffer.
From stdpp Require Import base numbers list.

#[local] Open Scope Z_scope.

(** ** Frames *)

Definition HeaderSize : Z := 8.
Definition magic_bytes : list Z := [72; 80; 65; 67].     (* "HPAC" *)

(** [htonl] and [ntohl] on the bytes in memory. *)
Definition be32 (n : Z) : list Z :=
  [u8 (Z.shiftr n 24); u8 (Z.shiftr n 16); u8 (Z.shiftr n 8); u8 n].
Definition be32_decode (a b c d : Z) : Z :=
  Z.lor (Z.lor (Z.lor (Z.shiftl a 24) (Z.shiftl b 16)) (Z.shiftl c 8)) d.

Inductive FrameDecodeError :=
| FDE_None | FDE_HeaderTooShort | FDE_InvalidMagic | FDE_FrameTooLarge | FDE_LengthMismatch
| FDE_TrailingBytes | FDE_InvalidProtobuf.

#[export] Instance FrameDecodeError_eq_dec : EqDecision FrameDecodeError.
Proof. solve_decision. Defined.

Record FrameDecodeLimits := mkLimits { max_payload_bytes : Z; reject_trailing_bytes : bool }.
Definition frame_default_limits : FrameDecodeLimits := mkLimits 16777216 true.

Section Frame.
Context {Env : Type} (serialize : Env -> list Z) (parse : list Z -> option Env).
Context (grow : Z -> Z -> Z).

Record FrameDecodeResult := mkDecoded {
  fd_frame : option Env;
  fd_error : FrameDecodeError;
  declared_payload_bytes : Z
}.
Definition decode_ok (r : FrameDecodeResult) : bool := bool_decide (fd_error r = FDE_None).

(** [WireFrame::encode]. *)
Definition encode (e : Env) : StreamBuffer :=
  let serialized := serialize e in
  let result := sb_reserve grow sb_empty (HeaderSize + zlen serialized) in
  let result := append grow result magic_bytes in
  let payload_len := u32 (zlen serialized) in
  let result := append grow result (be32 payload_len) in
  append grow result serialized.

(** [try_decode_wireframe]. *)
Definition try_decode_wireframe (data : StreamBuffer) (limits : FrameDecodeLimits) : FrameDecodeResult :=
  let fail err len := mkDecoded None err len in
  if sb_size data <? HeaderSize then fail FDE_HeaderTooShort 0
  else if negb (bool_decide (take 4 (sb_readable data) = magic_bytes)) then fail FDE_InvalidMagic 0
  else
    let payload_len := be32_decode (sb_at data 4) (sb_at data 5) (sb_at data 6) (sb_at data 7) in
    if (0 <? max_payload_bytes limits) && (max_payload_bytes limits <? payload_len)
    then fail FDE_FrameTooLarge payload_len
    else
      let expected_size := HeaderSize + payload_len in
      if sb_size data <? expected_size then fail FDE_LengthMismatch payload_len
      else if reject_trailing_bytes limits && (expected_size <? sb_size data)
      then fail FDE_TrailingBytes payload_len
      else
        match parse (take (Z.to_nat payload_len) (drop (Z.to_nat HeaderSize) (sb_readable data))) with
        | None => fail FDE_InvalidProtobuf payload_len
        | Some e => mkDecoded (Some e) FDE_None payload_len
        end.

(** [WireFrame::decode]: the empty frame on failure. *)
Definition decode (data : StreamBuffer) : option Env :=
  let decoded := try_decode_wireframe data frame_default_limits in
  if decode_ok decoded then fd_frame decoded else None.
End Frame.

(** ** Byte order *)

Lemma u8_testbit n k : 0 <= k -> Z.testbit (u8 n) k = (k <? 8) && Z.testbit n k.
Proof.
  intros Hk. unfold u8. change 256 with (2 ^ 8). destruct (k <? 8) eqn:E; bool_to_prop.
  - by rewrite Z.mod_pow2_bits_low by lia.
  - by rewrite Z.mod_pow2_bits_high by lia.
Qed.

Lemma be32_roundtrip n a b c d :
  0 <= n < 4294967296 -> be32 n = [a; b; c; d] -> be32_decode a b c d = n.
Proof.
  intros Hn [= <- <- <- <-]. apply Z.bits_inj'. intros k Hk. unfold be32_decode.
  rewrite !Z.lor_spec, !Z.shiftl_spec, (u8_testbit n k) by lia.
  assert (Hsh : forall s, 0 <= s -> Z.testbit (u8 (Z.shiftr n s)) (k - s) =
    (s <=? k) && (k <? s + 8) && Z.testbit n k).
  { intros s Hs. destruct (s <=? k) eqn:E; bool_to_prop.
    - rewrite u8_testbit, Z.shiftr_spec by lia. replace (k - s + s) with k by lia.
      simpl. f_equal. destruct (k - s <? 8) eqn:E1, (k <? s + 8) eqn:E2; bool_to_prop; lia.
    - by rewrite Z.testbit_neg_r by lia. }
  rewrite !Hsh by lia.
  destruct (decide (k < 32)) as [Hlt|Hge].
  - destruct (Z.testbit n k); [|by rewrite !andb_false_r]. rewrite !andb_true_r.
    destruct (24 <=? k) eqn:E1, (16 <=? k) eqn:E2, (8 <=? k) eqn:E3, (k <? 24 + 8) eqn:E4,
      (k <? 16 + 8) eqn:E5, (k <? 8 + 8) eqn:E6, (k <? 8) eqn:E7; bool_to_prop; (done || lia).
  - assert (Hz : Z.testbit n k = false).
    { rewrite <- (Z.mod_small n (2 ^ 32)) by (change (2 ^ 32) with 4294967296; lia).
      apply Z.mod_pow2_bits_high. lia. }
    by rewrite Hz, !andb_false_r.
Qed.

Definition is_byte (b : Z) : Prop := 0 <= b < 256.

Lemma be32_inverse a b c d :
  is_byte a -> is_byte b -> is_byte c -> is_byte d ->
  be32 (be32_decode a b c d) = [a; b; c; d] /\ 0 <= be32_decode a b c d < 4294967296.
Proof.
  unfold is_byte. intros Ha Hb Hc Hd.
  assert (Hn : be32_decode a b c d = a * 16777216 + b * 65536 + c * 256 + d).
  { assert (Hlor : forall x y k, 0 <= k -> 0 <= y < 2 ^ k -> Z.lor (Z.shiftl x k) y = x * 2 ^ k + y).
    { intros x y k Hk Hy. rewrite Z.shiftl_mul_pow2 by lia. symmetry. apply Z.add_nocarry_lor.
      apply Z.bits_inj'. intros i Hi. rewrite Z.land_spec, Z.bits_0, Z.mul_pow2_bits by lia.
      destruct (decide (i < k)); [by rewrite Z.testbit_neg_r by lia|].
      rewrite <- (Z.mod_small y (2 ^ k)) by lia. rewrite Z.mod_pow2_bits_high by lia. apply andb_false_r. }
    unfold be32_decode. rewrite <- !Z.lor_assoc.
    rewrite (Hlor c d 8), (Hlor b (c * 2 ^ 8 + d) 16), (Hlor a (b * 2 ^ 16 + (c * 2 ^ 8 + d)) 24) by lia. lia. }
  rewrite Hn. split; [|lia]. unfold be32, u8. rewrite !Z.shiftr_div_pow2 by lia.
  change (2 ^ 24) with 16777216. change (2 ^ 16) with 65536. change (2 ^ 8) with 256.
  repeat f_equal; Z.to_euclidean_division_equations; lia.
Qed.

(** ** The codec *)

Definition frame_bytes (payload : list Z) : list Z := magic_bytes ++ be32 (zlen payload) ++ payload.

Lemma frame_bytes_length p : zlen (frame_bytes p) = 8 + zlen p.
Proof. unfold frame_bytes. rewrite !zlen_app. change (zlen magic_bytes) with 4. change (zlen (be32 _)) with 4. lia. Qed.

(** A list that begins with a header. *)
Lemma header_at sb l n rest :
  sb_holds sb l -> l = magic_bytes ++ be32 n ++ rest -> 0 <= n <= UINT32_MAX ->
  take 4 (sb_readable sb) = magic_bytes /\
  (sb_at sb 0 =? 72) && (sb_at sb 1 =? 80) && (sb_at sb 2 =? 65) && (sb_at sb 3 =? 67) = true /\
  be32_decode (sb_at sb 4) (sb_at sb 5) (sb_at sb 6) (sb_at sb 7) = n /\
  drop (Z.to_nat HeaderSize) (sb_readable sb) = rest.
Proof.
  intros Hl Heq Hn.
  assert (Hlen : 8 <= zlen l).
  { rewrite Heq, !zlen_app. pose proof (zlen_nonneg rest). change (zlen magic_bytes) with 4.
    change (zlen (be32 n)) with 4. lia. }
  assert (Hat : forall i, 0 <= i < 8 -> l !! Z.to_nat i = Some (sb_at sb i))
    by (intros; apply sb_at_holds; [done|lia]).
  destruct (be32 n) as [|b4 [|b5 [|b6 [|b7 [|]]]]] eqn:Eb; try discriminate Eb.
  change (l = [72; 80; 65; 67; b4; b5; b6; b7] ++ rest) in Heq.
  pose proof (Hat 0 ltac:(lia)) as A0. pose proof (Hat 1 ltac:(lia)) as A1. pose proof (Hat 2 ltac:(lia)) as A2.
  pose proof (Hat 3 ltac:(lia)) as A3. pose proof (Hat 4 ltac:(lia)) as A4. pose proof (Hat 5 ltac:(lia)) as A5.
  pose proof (Hat 6 ltac:(lia)) as A6. pose proof (Hat 7 ltac:(lia)) as A7.
  rewrite Heq in A0, A1, A2, A3, A4, A5, A6, A7. injection A0 as <-. injection A1 as <-. injection A2 as <-.
  injection A3 as <-. injection A4 as <-. injection A5 as <-. injection A6 as <-. injection A7 as <-.
  destruct Hl as [_ ->]. rewrite Heq. split; [done|]. split; [done|]. split; [|done].
  apply (be32_roundtrip _ _ _ _ _); [unfold UINT32_MAX in *; lia|done].
Qed.

Section Codec.
Context {Env : Type} (serialize : Env -> list Z) (parse : list Z -> option Env) (grow : Z -> Z -> Z).
Context (Hproto : forall e, parse (serialize e) = Some e).

Lemma encode_holds e :
  zlen (serialize e) <= UINT32_MAX -> sb_holds (encode serialize grow e) (frame_bytes (serialize e)).
Proof.
  intros Hs. pose proof (zlen_nonneg (serialize e)).
  assert (H0 : sb_holds (sb_reserve grow sb_empty (HeaderSize + zlen (serialize e))) []).
  { unfold sb_reserve. destruct (_ <? _); by apply holds_at_zero. }
  assert (B0 : zlen (buf (sb_reserve grow sb_empty (HeaderSize + zlen (serialize e)))) = 0).
  { unfold sb_reserve. by destruct (_ <? _). }
  destruct (append_step grow _ [] magic_bytes H0) as [H1 B1]; [rewrite B0; done|].
  unfold encode. rewrite u32_small by (unfold UINT32_MAX in *; lia).
  change (zlen magic_bytes) with 4 in B1.
  destruct (append_step grow _ _ (be32 (zlen (serialize e))) H1) as [H2 B2];
    [change (zlen (be32 _)) with 4; unfold UINT64_MAX; lia|].
  change (zlen (be32 _)) with 4 in B2.
  destruct (append_step grow _ _ (serialize e) H2) as [H3 _]; [unfold UINT32_MAX, UINT64_MAX in *; lia|].
  simpl in H3. exact H3.
Qed.

(** Decoding an encoded envelope. *)
Lemma decode_frame e data rest limits :
  zlen (serialize e) <= UINT32_MAX ->
  (max_payload_bytes limits = 0 \/ zlen (serialize e) <= max_payload_bytes limits) ->
  (rest = [] \/ reject_trailing_bytes limits = false) ->
  sb_holds data (sb_readable (encode serialize grow e) ++ rest) ->
  try_decode_wireframe parse data limits = mkDecoded (Some e) FDE_None (zlen (serialize e)).
Proof.
  intros Hs Hmax Hrest Hd. destruct (encode_holds e Hs) as [_ He]. rewrite He in Hd.
  pose proof (zlen_nonneg (serialize e)). pose proof (zlen_nonneg rest).
  destruct (header_at data _ (zlen (serialize e)) (serialize e ++ rest) Hd) as (H1 & _ & H3 & H5);
    [unfold frame_bytes; by rewrite <- !(assoc_L (++))|lia|].
  pose proof (sb_size_holds _ _ Hd) as Hsz. rewrite zlen_app, frame_bytes_length in Hsz.
  unfold try_decode_wireframe. rewrite Hsz, H1, H3, H5. unfold HeaderSize.
  rewrite (proj2 (Z.ltb_ge _ _)) by lia. rewrite bool_decide_eq_true_2 by done. simpl.
  rewrite (proj2 (Z.ltb_ge (8 + zlen (serialize e) + zlen rest) _)) by lia.
  replace ((0 <? max_payload_bytes limits) && (max_payload_bytes limits <? zlen (serialize e))) with false
    by (symmetry; apply andb_false_iff; rewrite !Z.ltb_ge; lia).
  replace (reject_trailing_bytes limits && (8 + zlen (serialize e) <? 8 + zlen (serialize e) + zlen rest)) with false.
  - rewrite take_app_length' by (unfold zlen; lia). by rewrite Hproto.
  - symmetry. apply andb_false_iff. rewrite Z.ltb_ge. destruct Hrest as [->|]; [right|by left].
    change (zlen (@nil Z)) with 0. lia.
Qed.

(** C16. An encoded envelope that fits the length field decodes to the envelope
    under every limit that admits it; in particular with [decode] when it has
    at most 16 MiB. *)
Theorem frame_roundtrip e limits :
  zlen (serialize e) <= UINT32_MAX ->
  (max_payload_bytes limits = 0 \/ zlen (serialize e) <= max_payload_bytes limits) ->
  try_decode_wireframe parse (encode serialize grow e) limits =
    mkDecoded (Some e) FDE_None (zlen (serialize e)) /\
  (zlen (serialize e) <= 16777216 -> decode parse (encode serialize grow e) = Some e).
Proof.
  intros Hs Hmax. pose proof (encode_holds e Hs) as [Hok Hr].
  assert (Hd : sb_holds (encode serialize grow e) (sb_readable (encode serialize grow e) ++ []))
    by (split; [done|by rewrite app_nil_r]).
  split; [by apply (decode_frame e _ []); [| |left|]|].
  intros Hmib. unfold decode. rewrite (decode_frame e _ [] frame_default_limits); try done; [by right|by left].
Qed.

(** Any eight bytes that start with the magic are a header. *)
Lemma header_split data l :
  sb_holds data l -> Forall is_byte l -> 8 <= zlen l -> take 4 l = magic_bytes ->
  exists n rest, l = magic_bytes ++ be32 n ++ rest /\ 0 <= n <= UINT32_MAX /\
    be32_decode (sb_at data 4) (sb_at data 5) (sb_at data 6) (sb_at data 7) = n /\
    drop (Z.to_nat HeaderSize) l = rest.
Proof.
  intros Hd Hb Hlen Hm.
  assert (Hat : forall i, 0 <= i < 8 -> l !! Z.to_nat i = Some (sb_at data i))
    by (intros; apply sb_at_holds; [done|lia]).
  pose proof (Hat 4 ltac:(lia)) as A4. pose proof (Hat 5 ltac:(lia)) as A5.
  pose proof (Hat 6 ltac:(lia)) as A6. pose proof (Hat 7 ltac:(lia)) as A7.
  destruct l as [|a0 [|a1 [|a2 [|a3 [|b4 [|b5 [|b6 [|b7 rest]]]]]]]]; try (unfold zlen in Hlen; simpl in Hlen; lia).
  injection A4 as <-. injection A5 as <-. injection A6 as <-. injection A7 as <-. injection Hm as -> -> -> ->.
  rewrite !Forall_cons in Hb. destruct Hb as (_ & _ & _ & _ & B4 & B5 & B6 & B7 & _).
  destruct (be32_inverse b4 b5 b6 b7 B4 B5 B6 B7) as [Hinv Hr].
  exists (be32_decode b4 b5 b6 b7), rest. rewrite Hinv. split; [done|].
  split; [unfold UINT32_MAX; lia|]. split; done.
Qed.

(** The reference decoder: the first reason, in this order, for which a frame with
    declared length [n] and the bytes [rest] after its header is refused.  Every
    reason excludes the ones before it, so that the outcome is determined. *)
Definition frame_outcome (limits : FrameDecodeLimits) (n : Z) (rest : list Z) (r : FrameDecodeResult) : Prop :=
  let too_large := 0 < max_payload_bytes limits < n in
  let too_short := zlen rest < n in
  let trailing := reject_trailing_bytes limits = true /\ n < zlen rest in
  let payload := take (Z.to_nat n) rest in
  match fd_error r with
  | FDE_HeaderTooShort | FDE_InvalidMagic => False
  | FDE_FrameTooLarge => too_large
  | FDE_LengthMismatch => ~ too_large /\ too_short
  | FDE_TrailingBytes => ~ too_large /\ ~ too_short /\ trailing
  | FDE_InvalidProtobuf => ~ too_large /\ ~ too_short /\ ~ trailing /\ parse payload = None
  | FDE_None => ~ too_large /\ ~ too_short /\ ~ trailing /\ exists e, parse payload = Some e /\ fd_frame r = Some e
  end.

(** C24. The outcome of a strict decode is determined by the bytes.  Fewer than eight
    bytes are refused as a short header, and eight that do not start with the magic
    for that; otherwise the bytes are the magic, a length [n] of 32 bits and the
    rest, [n] is the declared length of the result, and the frame is refused as too
    large exactly when [n] is above a limit that is set, else as cut off exactly when
    fewer than [n] bytes follow, else for trailing bytes exactly when more follow and
    the limits forbid them, else as malformed exactly when the parser refuses the [n]
    bytes; else it is what the parser answers.  A refused frame has no envelope. *)
Theorem frame_decode_exact data l limits :
  sb_holds data l -> Forall is_byte l ->
  let r := try_decode_wireframe parse data limits in
  (decode_ok r = false -> fd_frame r = None) /\
  (fd_error r = FDE_HeaderTooShort <-> zlen l < 8) /\
  (fd_error r = FDE_InvalidMagic <-> 8 <= zlen l /\ take 4 l <> magic_bytes) /\
  (8 <= zlen l -> take 4 l = magic_bytes ->
   exists n rest, l = magic_bytes ++ be32 n ++ rest /\ 0 <= n <= UINT32_MAX /\
     declared_payload_bytes r = n /\ frame_outcome limits n rest r).
Proof.
  clear Hproto grow.
  intros Hd Hb. pose proof (sb_size_holds _ _ Hd) as Hsz. pose proof Hd as [_ Hr].
  unfold try_decode_wireframe. cbv zeta. rewrite Hsz, Hr. unfold HeaderSize.
  destruct (zlen l <? 8) eqn:E0; bool_to_prop; [simpl; naive_solver lia|].
  case_bool_decide as Hm; [|simpl; naive_solver lia]. simpl.
  destruct (header_split data l Hd Hb E0 Hm) as (n & rest & Hl & Hn & -> & Hdrop). unfold HeaderSize in Hdrop. rewrite Hdrop.
  assert (Hzl : zlen l = 8 + zlen rest).
  { rewrite Hl, !zlen_app. change (zlen magic_bytes) with 4. change (zlen (be32 n)) with 4. lia. }
  set (r := if _ && _ then _ else _).
  cut (fd_error r <> FDE_HeaderTooShort /\ fd_error r <> FDE_InvalidMagic /\ (decode_ok r = false -> fd_frame r = None) /\
       declared_payload_bytes r = n /\ frame_outcome limits n rest r).
  { intros (H1 & H2 & H3 & H4 & H5). split; [done|]. split; [split; [done|lia]|]. split; [tauto|]. intros _ _. by exists n, rest. }
  unfold frame_outcome, r. clear r. rewrite Hzl.
  destruct (_ && (max_payload_bytes limits <? n)) eqn:E1; bool_to_prop; [by split_and!|].
  assert (~ 0 < max_payload_bytes limits < n) by (destruct E1; bool_to_prop; lia).
  destruct (8 + zlen rest <? 8 + n) eqn:E2; bool_to_prop; [split_and!; simpl; try done; lia|].
  destruct (reject_trailing_bytes limits && _) eqn:E3; bool_to_prop.
  { split_and!; simpl; try done. split_and!; try done; lia. }
  assert (~ (reject_trailing_bytes limits = true /\ n < zlen rest)) by (intros [Ht ?]; destruct E3; bool_to_prop; [congruence|lia]).
  destruct (parse (take (Z.to_nat n) rest)) as [e|] eqn:Ep; split_and!; simpl; try done; split_and!; try done; try lia. by exists e.
Qed.
End Codec.

(** ** Witnesses: envelopes are byte strings *)

Definition grow_double (cap n : Z) : Z := Z.max (2 * cap) n.
Definition id_parse (p : list Z) : option (list Z) := Some p.

Lemma frame_roundtrip_witness :
  try_decode_wireframe id_parse (encode id grow_double [1; 2; 3]) frame_default_limits = mkDecoded (Some [1; 2; 3]) FDE_None 3 /\
  (zlen (id [1; 2; 3]) <= 16777216 -> decode id_parse (encode id grow_double [1; 2; 3]) = Some [1; 2; 3]).
Proof.
  apply (frame_roundtrip id id_parse grow_double (fun _ => eq_refl) [1; 2; 3] frame_default_limits).
  - by vm_compute.
  - right. by vm_compute.
Defined.

Lemma frame_decode_exact_witness :
  let l := [72; 80; 65; 67; 0; 0; 0; 9; 1] in
  let r := try_decode_wireframe id_parse (sb_of grow_double l) frame_default_limits in
  fd_error r = FDE_LengthMismatch /\
  exists n rest, l = magic_bytes ++ be32 n ++ rest /\ 0 <= n <= UINT32_MAX /\ declared_payload_bytes r = n /\
    frame_outcome id_parse frame_default_limits n rest r.
Proof.
  intros l r. split; [by vm_compute|].
  apply (frame_decode_exact id_parse (sb_of grow_double l) l frame_default_limits).
  - by apply holds_at_zero.
  - repeat (constructor; [by split; vm_compute|]). constructor.
  - by vm_compute.
  - by vm_compute.
Defined.
