(* ===== verification/WireConn.v ===== *)
(** * Framed connections

    [net/wireframe_connection.cpp]: the receiving state machine over
    [StreamBuffer.v], fed by [read] calls, and the sending side.  What the
    kernel has for the connection is a list of segments, taken in pieces of any
    size, and the answer once they are used up.  The theorems: the read handler
    returns on every input, a stream of frames arrives however it is cut, the
    sending side keeps the bytes in order, and the two together deliver the
    envelopes; and what happens to a frame the reads interrupt. *)

From S2P Require Import Prelude StreamBuffer WireFrame.
From stdpp Require Import base numbers list.

#[local] Open Scope Z_scope.

(** ** Connections *)

Inductive ConnectionState := CS_Disconnected | CS_Connecting | CS_Handshake | CS_Connected | CS_Error.

(** What [read] answers when no byte is left. *)
Inductive ReadEnd := RE_WouldBlock | RE_Eof | RE_Failed.

Inductive ConnEvent :=
| FrameHandler (frame : list Z)
| FrameErrorHandler (err : FrameDecodeError) (n : Z)
| ErrorHandler
| SendCompletion (result : Z)
| AsyncSend (bytes : list Z).

Record Connection := mkConn {
  c_open : bool;                 (* fd_ >= 0 and a loop is set *)
  c_state : ConnectionState;
  read_buffer : StreamBuffer;
  write_buffer : StreamBuffer;
  is_sending : bool;
  max_inbound_frame_bytes : Z;
  c_events : list ConnEvent
}.

Definition set_read (c : Connection) (b : StreamBuffer) : Connection :=
  mkConn (c_open c) (c_state c) b (write_buffer c) (is_sending c) (max_inbound_frame_bytes c) (c_events c).
Definition set_cstate (c : Connection) (st : ConnectionState) : Connection :=
  mkConn (c_open c) st (read_buffer c) (write_buffer c) (is_sending c) (max_inbound_frame_bytes c) (c_events c).
Definition set_write (c : Connection) (b : StreamBuffer) (s : bool) : Connection :=
  mkConn (c_open c) (c_state c) (read_buffer c) b s (max_inbound_frame_bytes c) (c_events c).
Definition cemit (c : Connection) (e : ConnEvent) : Connection :=
  mkConn (c_open c) (c_state c) (read_buffer c) (write_buffer c) (is_sending c)
    (max_inbound_frame_bytes c) (c_events c ++ [e]).

(** [close]. *)
Definition conn_close (c : Connection) : Connection :=
  set_cstate (mkConn false (c_state c) (read_buffer c) (write_buffer c) (is_sending c)
                (max_inbound_frame_bytes c) (c_events c)) CS_Disconnected.

(** One [read] of at most [n] bytes. *)
Definition read_fd (n : Z) (rx : list (list Z)) : option (list Z * list (list Z)) :=
  match rx with
  | [] => None
  | seg :: rest =>
      let got := take (Z.to_nat n) seg in
      let left := drop (Z.to_nat n) seg in
      Some (got, if bool_decide (left = []) then rest else left :: rest)
  end.

Section Connection.
Context (grow : Z -> Z -> Z) (at_end : ReadEnd).

Definition kWriteChunkSize : Z := 65536.
Definition conn_init (st : ConnectionState) : Connection :=
  mkConn true st sb_empty (sb_reserve grow sb_empty kWriteChunkSize) false 16777216 [].

(** [reserve_tail(remaining)], [read], [commit_tail]: [inr] when the handler
    returns.  When nothing can be read the reserved tail stays. *)
Definition fill_from_fd (c : Connection) (remaining : Z) (rx : list (list Z))
  : (Connection * list (list Z)) + Connection :=
  let b := reserve_tail grow (read_buffer c) remaining in
  match read_fd remaining rx with
  | Some (got, rx) =>
      inl (set_read c (commit_tail grow (write_at grow b (tail_position b) got) (zlen got)), rx)
  | None =>
      let c := set_read c b in
      inr match at_end with
          | RE_Eof => cemit (set_cstate (set_read c (sb_clear grow b)) CS_Disconnected) ErrorHandler
          | RE_WouldBlock => c
          | RE_Failed => cemit (set_cstate (set_read c (sb_clear grow b)) CS_Error) ErrorHandler
          end
  end.

(** Phase 2: exactly [total] bytes. *)
Fixpoint read_payload (fuel : nat) (total : Z) (c : Connection) (rx : list (list Z))
  : option ((Connection * list (list Z)) + Connection) :=
  match fuel with
  | O => None
  | S fuel =>
      if sb_size (read_buffer c) <? total then
        match fill_from_fd c (total - sb_size (read_buffer c)) rx with
        | inl (c, rx) => read_payload fuel total c rx
        | inr c => Some (inr c)
        end
      else Some (inl (c, rx))
  end.

(** The loop of [handle_read]; [None] when [fuel] runs out. *)
Fixpoint handle_read_loop (fuel frames_left : nat) (c : Connection) (rx : list (list Z))
  : option (Connection * list (list Z)) :=
  match fuel, frames_left with
  | O, _ => None
  | _, O => Some (c, rx)
  | S fuel, S frames =>
      let header :=
        if sb_size (read_buffer c) <? HeaderSize then
          match fill_from_fd c (HeaderSize - sb_size (read_buffer c)) rx with
          | inl (c, rx) =>
              if sb_size (read_buffer c) <? HeaderSize then inr (c, rx) else inl (c, rx)
          | inr c => inr (c, rx)
          end
        else inl (c, rx) in
      match header with
      | inr done => Some done
      | inl (c, rx) =>
          let b := read_buffer c in
          if negb ((sb_at b 0 =? 72) && (sb_at b 1 =? 80) && (sb_at b 2 =? 65) && (sb_at b 3 =? 67)) then
            handle_read_loop fuel frames_left
              (cemit (set_read c (consume b 1)) (FrameErrorHandler FDE_InvalidMagic 1)) rx
          else
            let payload_len := be32_decode (sb_at b 4) (sb_at b 5) (sb_at b 6) (sb_at b 7) in
            if (0 <? max_inbound_frame_bytes c) && (max_inbound_frame_bytes c <? payload_len) then
              Some (conn_close (set_read (cemit c (FrameErrorHandler FDE_FrameTooLarge (u32 payload_len)))
                                  (sb_clear grow b)), rx)
            else
              let total := HeaderSize + payload_len in
              match read_payload fuel total c rx with
              | None => None
              | Some (inr c) => Some (c, [])   (* the reads ran dry *)
              | Some (inl (c, rx)) =>
                  let b := maybe_compact grow (read_buffer c) in
                  let frame := take (Z.to_nat total) (sb_readable b) in
                  let c := cemit (set_read c (consume b total)) (FrameHandler frame) in
                  if sb_size (read_buffer c) <? HeaderSize then Some (c, rx)
                  else handle_read_loop fuel frames c rx
              end
      end
  end.

Definition kMaxFramesPerTurn : nat := 64.

(** Every turn of either loop takes a byte from the buffer or the socket. *)
Definition handle_read (c : Connection) (rx : list (list Z)) : option (Connection * list (list Z)) :=
  handle_read_loop (2 + 2 * Z.to_nat (sb_size (read_buffer c)) + 2 * length (concat rx)) kMaxFramesPerTurn c rx.

(** ** Sending *)

Definition flush_write_buffer (c : Connection) : Connection :=
  if negb (c_open c) || sb_is_empty (write_buffer c) then c
  else
    let b := maybe_compact grow (write_buffer c) in
    cemit (set_write c b true) (AsyncSend (sb_readable b)).

Definition send_raw (c : Connection) (data : StreamBuffer) : Connection :=
  if negb (c_open c) then c
  else
    let c := set_write c (append grow (write_buffer c) (sb_readable data)) (is_sending c) in
    if is_sending c then c else flush_write_buffer c.

Definition send (c : Connection) (data : StreamBuffer) : Connection :=
  match c_state c with CS_Connected => send_raw c data | _ => c end.

Definition handle_send_completion (c : Connection) (result : Z) : Connection :=
  let c := cemit c (SendCompletion result) in
  let c := set_write c (write_buffer c) false in
  if result <? 0 then cemit (set_cstate c CS_Error) ErrorHandler
  else
    let b := if sb_size (write_buffer c) <=? result then sb_clear grow (write_buffer c)
             else consume (write_buffer c) result in
    let c := set_write c b false in
    if negb (sb_is_empty b) then flush_write_buffer c else c.
End Connection.

(** ** Receiving *)

Section Receive.
Context (grow : Z -> Z -> Z) (at_end : ReadEnd).

Definition segments_ok (rx : list (list Z)) : Prop := Forall (fun s => s <> []) rx.

(** Bytes the connection can still buffer without wrapping a size. *)
Definition room (c : Connection) (rx : list (list Z)) : Z := zlen (buf (read_buffer c)) + zlen (concat rx).
Definition fits (c : Connection) (rx : list (list Z)) : Prop := room c rx + 2 * 4294967296 <= UINT64_MAX.
Lemma fits_room c rx c' rx' : room c' rx' <= room c rx -> fits c rx -> fits c' rx'.
Proof. unfold fits. lia. Qed.

Definition with_read (c : Connection) (b : StreamBuffer) (l : list Z) (rx rx' : list (list Z)) : Prop :=
  sb_holds b l /\ segments_ok rx' /\ room (set_read c b) rx' <= room c rx.

Lemma read_fd_spec n rx :
  segments_ok rx -> 0 < n -> rx <> [] ->
  exists got rx', read_fd n rx = Some (got, rx') /\ got <> [] /\ zlen got <= n /\
    concat rx = got ++ concat rx' /\ segments_ok rx'.
Proof.
  intros Hrx Hn Hne. destruct rx as [|seg rest]; [done|]. inversion_clear Hrx as [|? ? Hseg Hrest].
  simpl. eexists _, _. split; [done|]. split_and!.
  - destruct seg; [done|]. destruct (Z.to_nat n) eqn:E; [lia|done].
  - unfold zlen. rewrite length_take. lia.
  - rewrite <- (take_drop (Z.to_nat n) seg) at 1. rewrite <- (assoc_L (++)). f_equal.
    case_bool_decide as Hd; [by rewrite Hd|done].
  - case_bool_decide; [done|by constructor].
Qed.

Lemma fill_from_fd_spec c l rx n :
  sb_holds (read_buffer c) l -> segments_ok rx -> rx <> [] -> 0 < n <= 4294967304 -> fits c rx ->
  exists got b rx', fill_from_fd grow at_end c n rx = inl (set_read c b, rx') /\
    got <> [] /\ zlen got <= n /\ concat rx = got ++ concat rx' /\ with_read c b (l ++ got) rx rx'.
Proof.
  intros Hl Hrx Hne Hn Hfit. destruct (read_fd_spec n rx Hrx ltac:(lia) Hne) as (got & rx' & Hr & Hg & Hle & Hc & Hs).
  unfold fits, room in Hfit. pose proof (zlen_nonneg (concat rx)). unfold UINT64_MAX in Hfit.
  destruct (fill_step grow (read_buffer c) l n got Hl Hle) as [[H1 H2] _]; [unfold UINT64_MAX; lia|].
  exists got, (fill grow (read_buffer c) n got), rx'. unfold fill_from_fd. rewrite Hr. split; [done|].
  split_and!; try done. split; [done|]. split; [done|]. unfold room. simpl.
  rewrite Hc, zlen_app. lia.
Qed.

Lemma concat_nonempty (rx : list (list Z)) : 0 < zlen (concat rx) -> rx <> [].
Proof. by destruct rx. Qed.

Lemma nonempty_zlen {A} (l : list A) : l <> [] -> 0 < zlen l.
Proof. destruct l; [done|]. intros _. rewrite zlen_cons. pose proof (zlen_nonneg l). lia. Qed.

(** With the bytes of the frame available, phase 2 ends with exactly them. *)
Lemma read_payload_spec fuel : forall c l rx total,
  sb_holds (read_buffer c) l -> segments_ok rx -> fits c rx ->
  zlen l <= total <= 4294967304 -> total <= zlen l + zlen (concat rx) -> zlen (concat rx) < Z.of_nat fuel ->
  exists b l' rx', read_payload grow at_end fuel total c rx = Some (inl (set_read c b, rx')) /\
    l' ++ concat rx' = l ++ concat rx /\ zlen l' = total /\ with_read c b l' rx rx'.
Proof.
  induction fuel as [|fuel IH]; intros c l rx total Hl Hrx Hfit Ht Hav Hfuel.
  { pose proof (zlen_nonneg (concat rx)). lia. }
  cbn [read_payload]. rewrite (sb_size_holds _ _ Hl). pose proof (zlen_nonneg l).
  destruct (zlen l <? total) eqn:E; bool_to_prop.
  - destruct (fill_from_fd_spec c l rx (total - zlen l) Hl Hrx) as (got & b & rx1 & -> & Hg & Hle & Hc & H1 & H2 & H3);
      [apply concat_nonempty; lia|lia|done|]. pose proof (nonempty_zlen got Hg) as Hpos.
    rewrite Hc, zlen_app in Hav, Hfuel.
    destruct (IH (set_read c b) (l ++ got) rx1 total) as (b' & l' & rx' & -> & A1 & A2 & A3);
      [done|done|by eapply fits_room|rewrite zlen_app; lia|rewrite zlen_app; lia|lia|].
    exists b', l', rx'. split; [done|]. split; [by rewrite A1, Hc, (assoc_L (++))|]. split; [done|].
    destruct A3 as (? & ? & ?). split; [done|]. split; [done|]. unfold room in *. simpl in *. lia.
  - exists (read_buffer c), l, rx. destruct c. simpl. split; [done|]. split; [done|]. split; [lia|]. by split.
Qed.

(** A frame the connection accepts. *)
Definition payload_ok (max : Z) (p : list Z) : Prop :=
  zlen p <= UINT32_MAX /\ (max <= 0 \/ zlen p <= max).
Definition stream_of (ps : list (list Z)) : list Z := concat (frame_bytes <$> ps).

Lemma stream_of_cons p ps : zlen (stream_of (p :: ps)) = 8 + zlen p + zlen (stream_of ps).
Proof. unfold stream_of. rewrite fmap_cons. cbn [concat]. by rewrite zlen_app, frame_bytes_length. Qed.

Lemma stream_of_length p ps : 8 <= zlen (stream_of (p :: ps)).
Proof. rewrite stream_of_cons. pose proof (zlen_nonneg p). pose proof (zlen_nonneg (stream_of ps)). lia. Qed.

(** One call of the read handler on a stream of frames of which the next is
    there: it stores part of the header, or it delivers that frame. *)
Definition turn_ok (c c' : Connection) (l : list Z) (rx rx' : list (list Z)) (p rest : list Z) : Prop :=
  segments_ok rx' /\ room c' rx' <= room c rx /\ max_inbound_frame_bytes c' = max_inbound_frame_bytes c /\
  zlen (concat rx') < zlen (concat rx) /\
  ((exists l', sb_holds (read_buffer c') l' /\ zlen l' < 8 /\ c_events c' = c_events c /\
      l' ++ concat rx' = l ++ concat rx) \/
   (sb_holds (read_buffer c') [] /\ c_events c' = c_events c ++ [FrameHandler (frame_bytes p)] /\
      concat rx' = rest)).

(** From a complete header on. *)
Lemma frame_turn fuel frames c l rx p rest :
  sb_holds (read_buffer c) l -> segments_ok rx -> fits c rx -> 8 <= zlen l <= 8 + zlen p ->
  l ++ concat rx = frame_bytes p ++ rest -> payload_ok (max_inbound_frame_bytes c) p ->
  zlen (concat rx) < Z.of_nat fuel ->
  exists c' rx', handle_read_loop grow at_end (S fuel) (S frames) c rx = Some (c', rx') /\
    segments_ok rx' /\ room c' rx' <= room c rx /\ max_inbound_frame_bytes c' = max_inbound_frame_bytes c /\
    sb_holds (read_buffer c') [] /\ c_events c' = c_events c ++ [FrameHandler (frame_bytes p)] /\
    concat rx' = rest.
Proof.
  intros Hl Hrx Hfit H8 Hst [Hp Hmax] Hfuel. pose proof (zlen_nonneg p) as Hp0.
  assert (Hlh : l = magic_bytes ++ be32 (zlen p) ++ drop 8 l).
  { rewrite <- (take_drop 8 l) at 1. rewrite (assoc_L (++)). f_equal.
    assert (Ht : take 8 (l ++ concat rx) = magic_bytes ++ be32 (zlen p)) by by rewrite Hst.
    rewrite take_app_le in Ht; [done|]. unfold zlen in H8. lia. }
  destruct (header_at (read_buffer c) l (zlen p) (drop 8 l) Hl Hlh) as (_ & Hm & Hlen & _); [lia|].
  cbn [handle_read_loop]. rewrite (sb_size_holds _ _ Hl). unfold HeaderSize at 1.
  rewrite (proj2 (Z.ltb_ge _ _)) by lia. cbv iota. rewrite Hm. simpl negb. cbv iota. rewrite Hlen.
  replace ((0 <? max_inbound_frame_bytes c) && (max_inbound_frame_bytes c <? zlen p)) with false
    by (symmetry; apply andb_false_iff; rewrite !Z.ltb_ge; lia).
  assert (Htot : zlen l + zlen (concat rx) = 8 + zlen p + zlen rest).
  { apply (f_equal zlen) in Hst. rewrite !zlen_app, frame_bytes_length in Hst. lia. }
  pose proof (zlen_nonneg rest).
  destruct (read_payload_spec fuel c l rx (HeaderSize + zlen p)) as (b & l' & rx' & -> & A1 & A2 & A3 & A4 & A5);
    try done; [unfold HeaderSize, UINT32_MAX in *; lia|unfold HeaderSize; lia|].
  assert (Hl' : l' = frame_bytes p /\ concat rx' = rest).
  { rewrite Hst in A1. apply app_inj_1 in A1; [done|]. pose proof (frame_bytes_length p).
    unfold zlen, HeaderSize in *. lia. }
  destruct Hl' as [-> Hrx']. cbn [read_buffer set_read].
  destruct (maybe_compact_step grow b _ A3) as [B1 B2].
  destruct (consume_step _ _ (HeaderSize + zlen p) B1) as [C1 C2];
    [rewrite frame_bytes_length; unfold HeaderSize; lia|].
  assert (Hall : drop (Z.to_nat (HeaderSize + zlen p)) (frame_bytes p) = []).
  { apply drop_ge. pose proof (frame_bytes_length p). unfold zlen, HeaderSize in *. lia. }
  rewrite Hall in C1. cbn [read_buffer set_read cemit]. rewrite (sb_size_holds _ _ C1).
  change (zlen (@nil Z) <? HeaderSize) with true. cbv iota.
  eexists _, rx'. split; [done|]. split; [done|]. split; [unfold room in *; simpl in *; lia|].
  split; [done|]. split; [done|]. split; [|done]. simpl. do 3 f_equal. destruct B1 as [_ ->].
  apply take_ge. pose proof (frame_bytes_length p). unfold zlen, HeaderSize in *. lia.
Qed.

(** A turn that starts by reading the header is a turn on the filled buffer. *)
Lemma header_turn fuel frames c rx c1 rx1 :
  sb_size (read_buffer c) < HeaderSize ->
  fill_from_fd grow at_end c (HeaderSize - sb_size (read_buffer c)) rx = inl (c1, rx1) ->
  handle_read_loop grow at_end (S fuel) (S frames) c rx =
  if sb_size (read_buffer c1) <? HeaderSize then Some (c1, rx1)
  else handle_read_loop grow at_end (S fuel) (S frames) c1 rx1.
Proof.
  intros Hlt Hf. cbn [handle_read_loop]. rewrite (proj2 (Z.ltb_lt _ _) Hlt), Hf.
  by destruct (sb_size (read_buffer c1) <? HeaderSize) eqn:E.
Qed.

Lemma handle_read_turn c l rx p rest :
  sb_holds (read_buffer c) l -> segments_ok rx -> fits c rx -> zlen l < 8 -> rx <> [] ->
  l ++ concat rx = frame_bytes p ++ rest -> payload_ok (max_inbound_frame_bytes c) p ->
  exists c' rx', handle_read grow at_end c rx = Some (c', rx') /\ turn_ok c c' l rx rx' p rest.
Proof.
  intros Hl Hrx Hfit Hlt Hne Hst Hp. pose proof (zlen_nonneg l).
  destruct (fill_from_fd_spec c l rx (HeaderSize - sb_size (read_buffer c)) Hl Hrx Hne)
    as (got & b & rx1 & Hfill & Hg & Hle & Hc & A1 & A2 & A3); [rewrite (sb_size_holds _ _ Hl); unfold HeaderSize; lia|done|].
  pose proof (nonempty_zlen got Hg) as Hpos. unfold handle_read.
  change (2 + 2 * Z.to_nat (sb_size (read_buffer c)) + 2 * length (concat rx))%nat with
    (S (1 + 2 * Z.to_nat (sb_size (read_buffer c)) + 2 * length (concat rx)))%nat.
  change kMaxFramesPerTurn with (S 63)%nat.
  rewrite (header_turn _ _ _ _ _ _ ltac:(rewrite (sb_size_holds _ _ Hl); unfold HeaderSize; lia) Hfill).
  cbn [read_buffer set_read]. rewrite (sb_size_holds _ _ A1), zlen_app.
  rewrite (sb_size_holds _ _ Hl) in Hle. unfold HeaderSize in Hle |- *.
  assert (Hshort : zlen (concat rx1) < zlen (concat rx)) by (rewrite Hc, zlen_app; lia).
  destruct (zlen l + zlen got <? 8) eqn:E; bool_to_prop.
  - eexists _, _. split; [done|]. split; [done|]. split; [done|]. split; [done|]. split; [done|]. left.
    exists (l ++ got). rewrite zlen_app. split; [done|]. split; [lia|]. split; [done|].
    by rewrite Hc, (assoc_L (++)).
  - destruct (frame_turn (1 + 2 * Z.to_nat (sb_size (read_buffer c)) + 2 * length (concat rx)) 63 (set_read c b)
      (l ++ got) rx1 p rest) as (c' & rx' & Hr & B1 & B2 & B3 & B4 & B5 & B6); try done.
    { by eapply fits_room. }
    { rewrite zlen_app. pose proof (zlen_nonneg p). lia. }
    { rewrite <- (assoc_L (++)), <- Hc. done. }
    { unfold zlen in *. lia. }
    eexists _, _. split; [exact Hr|]. split; [done|]. split; [lia|]. split; [done|].
    split; [|right; done]. rewrite B6.
    assert (Hlen : zlen l + zlen (concat rx) = zlen (frame_bytes p ++ rest)) by (rewrite <- Hst, zlen_app; lia).
    rewrite zlen_app, frame_bytes_length in Hlen. pose proof (zlen_nonneg p). lia.
Qed.

(** The event loop calls the handler while there is something to read. *)
Fixpoint serve (calls : nat) (c : Connection) (rx : list (list Z)) : option Connection :=
  match calls, rx with
  | _, [] => Some c
  | O, _ => None
  | S calls, _ =>
      match handle_read grow at_end c rx with
      | Some (c, rx) => serve calls c rx
      | None => None
      end
  end.

(** Fewer bytes than a header are left: they are kept. *)
Lemma handle_read_short c l rx :
  sb_holds (read_buffer c) l -> segments_ok rx -> fits c rx -> rx <> [] -> zlen l + zlen (concat rx) < 8 ->
  exists c' l' rx', handle_read grow at_end c rx = Some (c', rx') /\ segments_ok rx' /\ room c' rx' <= room c rx /\
    max_inbound_frame_bytes c' = max_inbound_frame_bytes c /\ zlen (concat rx') < zlen (concat rx) /\
    sb_holds (read_buffer c') l' /\ c_events c' = c_events c /\ l' ++ concat rx' = l ++ concat rx.
Proof.
  intros Hl Hrx Hfit Hne Hlt. pose proof (zlen_nonneg l). pose proof (zlen_nonneg (concat rx)).
  destruct (fill_from_fd_spec c l rx (HeaderSize - sb_size (read_buffer c)) Hl Hrx Hne)
    as (got & b & rx1 & Hfill & Hg & Hle & Hc & A1 & A2 & A3); [rewrite (sb_size_holds _ _ Hl); unfold HeaderSize; lia|done|].
  pose proof (nonempty_zlen got Hg) as Hpos. unfold handle_read.
  change (2 + 2 * Z.to_nat (sb_size (read_buffer c)) + 2 * length (concat rx))%nat with
    (S (1 + 2 * Z.to_nat (sb_size (read_buffer c)) + 2 * length (concat rx)))%nat.
  change kMaxFramesPerTurn with (S 63)%nat.
  rewrite (header_turn _ _ _ _ _ _ ltac:(rewrite (sb_size_holds _ _ Hl); unfold HeaderSize; lia) Hfill).
  cbn [read_buffer set_read]. rewrite (sb_size_holds _ _ A1), zlen_app. rewrite Hc, zlen_app in Hlt |- *.
  pose proof (zlen_nonneg (concat rx1)). rewrite (proj2 (Z.ltb_lt _ _)) by (unfold HeaderSize; lia).
  eexists _, (l ++ got), _. split; [done|]. split; [done|]. split; [done|]. split; [done|]. split; [lia|].
  split; [done|]. split; [done|]. by rewrite (assoc_L (++)).
Qed.

(** The bytes of whole frames and of less than a header, after [l] of them have
    been kept: the frames are delivered and the rest is kept. *)
Lemma serve_delivers calls : forall c l rx ps part,
  sb_holds (read_buffer c) l -> segments_ok rx -> fits c rx -> zlen l < 8 -> zlen part < 8 ->
  l ++ concat rx = stream_of ps ++ part -> Forall (payload_ok (max_inbound_frame_bytes c)) ps ->
  zlen (concat rx) <= Z.of_nat calls ->
  exists c', serve calls c rx = Some c' /\ sb_holds (read_buffer c') part /\ room c' [] <= room c rx /\
    max_inbound_frame_bytes c' = max_inbound_frame_bytes c /\
    c_events c' = c_events c ++ ((fun p => FrameHandler (frame_bytes p)) <$> ps).
Proof.
  induction calls as [|calls IH]; intros c l rx ps part Hl Hrx Hfit Hlt Hpt Hst Hps Hcalls;
    (destruct (decide (rx = [])) as [->|Hne]).
  1, 3: (destruct ps as [|p ps]; [simpl in Hst; rewrite app_nil_r in Hst; subst l; exists c; split; [done|]; split; [done|]; split; [lia|]; split; [done|]; by rewrite app_nil_r|]; exfalso;
    pose proof (stream_of_length p ps) as Hlen; apply (f_equal zlen) in Hst; rewrite !zlen_app in Hst;
    change (zlen (concat [])) with 0 in Hst; pose proof (zlen_nonneg part); lia).
  - exfalso. destruct rx as [|seg rx]; [done|]. inversion_clear Hrx as [|? ? Hs _]. simpl in Hcalls.
    rewrite zlen_app in Hcalls. pose proof (nonempty_zlen seg Hs). pose proof (zlen_nonneg (concat rx)). lia.
  - assert (Hserve : forall c1 rx1, handle_read grow at_end c rx = Some (c1, rx1) -> serve (S calls) c rx = serve calls c1 rx1).
    { intros c1 rx1 Hr. destruct rx; [done|]. cbn [serve]. by rewrite Hr. }
    destruct ps as [|p qs].
    + assert (Hshort : zlen l + zlen (concat rx) < 8) by (rewrite <- zlen_app, Hst; simpl; lia).
      destruct (handle_read_short c l rx Hl Hrx Hfit Hne Hshort) as (c1 & l1 & rx1 & Hr & T1 & T2 & T3 & T4 & T5 & T6 & T7).
      rewrite (Hserve _ _ Hr). destruct (IH c1 l1 rx1 [] part) as (c' & V1 & V2 & V3 & V4 & V5); try done;
        [by eapply fits_room|apply (f_equal zlen) in T7; rewrite !zlen_app in T7; pose proof (zlen_nonneg (concat rx1)); lia|by rewrite T7|lia|].
      exists c'. split; [done|]. split; [done|]. split; [lia|]. split; [congruence|]. by rewrite V5, T6.
    + inversion_clear Hps as [|? ? Hp Hqs].
      assert (Hst' : l ++ concat rx = frame_bytes p ++ (stream_of qs ++ part)).
      { rewrite Hst. unfold stream_of. rewrite fmap_cons. cbn [concat]. by rewrite <- (assoc_L (++)). }
      destruct (handle_read_turn c l rx p _ Hl Hrx Hfit Hlt Hne Hst' Hp) as (c1 & rx1 & Hr & T1 & T2 & T3 & T4 & T5).
      rewrite (Hserve _ _ Hr). destruct T5 as [(l' & U1 & U2 & U3 & U4)|(U1 & U2 & U3)].
      * destruct (IH c1 l' rx1 (p :: qs) part) as (c' & V1 & V2 & V3 & V4 & V5); try done;
          [by eapply fits_room|by rewrite U4|by rewrite T3; constructor|lia|].
        exists c'. split; [done|]. split; [done|]. split; [lia|]. split; [congruence|]. by rewrite V5, U3.
      * destruct (IH c1 [] rx1 qs part) as (c' & V1 & V2 & V3 & V4 & V5); try done; [by eapply fits_room|by rewrite T3|lia|].
        exists c'. split; [done|]. split; [done|]. split; [lia|]. split; [congruence|].
        rewrite V5, U2, fmap_cons, <- (assoc_L (++)). done.
Qed.

(** A stream of frames, cut into segments of any size, is delivered frame by
    frame to a fresh connection within one call of the handler per byte. *)
Theorem every_frame_arrives rx ps :
  segments_ok rx -> zlen (concat rx) <= 9223372036854775807 -> concat rx = stream_of ps ->
  Forall (payload_ok (max_inbound_frame_bytes (conn_init grow CS_Connected))) ps ->
  exists c, serve (length (concat rx)) (conn_init grow CS_Connected) rx = Some c /\
    c_events c = ((fun p => FrameHandler (frame_bytes p)) <$> ps).
Proof.
  intros Hrx Hlen Hst Hps.
  destruct (serve_delivers (length (concat rx)) (conn_init grow CS_Connected) [] rx ps []) as (c & Hs & _ & _ & _ & He);
    try done; [unfold fits, room, UINT64_MAX; simpl; change (zlen (@nil Z)) with 0; lia|by rewrite app_nil_r|by exists c].
Qed.

(** When the reads run dry inside a frame the reserved tail is left in the
    buffer, filled with zeros. *)
Lemma read_payload_dry fuel : forall c l rx total,
  at_end = RE_WouldBlock ->
  sb_holds (read_buffer c) l -> segments_ok rx -> fits c rx ->
  zlen l + zlen (concat rx) < total <= 4294967304 -> zlen (concat rx) < Z.of_nat fuel ->
  exists b, read_payload grow at_end fuel total c rx = Some (inr (set_read c b)) /\
    sb_holds b (l ++ concat rx ++ replicate (Z.to_nat (total - zlen l - zlen (concat rx))) 0).
Proof.
  induction fuel as [|fuel IH]; intros c l rx total Hend Hl Hrx Hfit Ht Hfuel.
  { pose proof (zlen_nonneg (concat rx)). lia. }
  cbn [read_payload]. rewrite (sb_size_holds _ _ Hl). pose proof (zlen_nonneg l). pose proof (zlen_nonneg (concat rx)).
  rewrite (proj2 (Z.ltb_lt _ _)) by lia. destruct (decide (rx = [])) as [->|Hne].
  - unfold fill_from_fd. simpl. rewrite Hend. eexists. split; [done|].
    destruct (reserve_tail_step grow (read_buffer c) l (total - zlen l) Hl) as ((H1 & _) & _);
      [change (zlen (concat [])) with 0 in *; lia|unfold fits, room, UINT64_MAX in *; change (zlen (concat [])) with 0 in *; lia|].
    simpl. rewrite Z.sub_0_r. exact H1.
  - destruct (fill_from_fd_spec c l rx (total - zlen l) Hl Hrx Hne) as (got & b & rx1 & -> & Hg & Hle & Hc & H1 & H2 & H3);
      [lia|done|]. pose proof (nonempty_zlen got Hg) as Hpos. rewrite Hc, zlen_app in Ht, Hfuel.
    destruct (IH (set_read c b) (l ++ got) rx1 total) as (b' & -> & A1); [done|done|done|by eapply fits_room|rewrite zlen_app; lia|lia|].
    exists b'. split; [done|]. rewrite Hc, zlen_app in *. rewrite <- !(assoc_L (++)) in *.
    replace (total - zlen l - (zlen got + zlen (concat rx1))) with (total - (zlen l + zlen got) - zlen (concat rx1)) by lia.
    exact A1.
Qed.

(** A buffer that holds a whole frame gives it up without a read. *)
Lemma buffered_frame_turn fuel frames c p rx :
  sb_holds (read_buffer c) (frame_bytes p) -> payload_ok (max_inbound_frame_bytes c) p ->
  exists b, handle_read_loop grow at_end (S (S fuel)) (S frames) c rx =
    Some (cemit (set_read c b) (FrameHandler (frame_bytes p)), rx) /\ sb_holds b [].
Proof.
  intros Hl [Hp Hmax]. pose proof (zlen_nonneg p) as Hp0. pose proof (frame_bytes_length p) as Hfl.
  destruct (header_at (read_buffer c) _ (zlen p) p Hl eq_refl) as (_ & Hm & Hlen & _); [lia|].
  cbn [handle_read_loop]. rewrite (sb_size_holds _ _ Hl), Hfl. unfold HeaderSize at 1.
  rewrite (proj2 (Z.ltb_ge _ _)) by lia. cbv iota. rewrite Hm. simpl negb. cbv iota. rewrite Hlen.
  replace ((0 <? max_inbound_frame_bytes c) && (max_inbound_frame_bytes c <? zlen p)) with false
    by (symmetry; apply andb_false_iff; rewrite !Z.ltb_ge; lia).
  cbn [read_payload]. rewrite (sb_size_holds _ _ Hl), Hfl. unfold HeaderSize at 1. rewrite Z.ltb_irrefl.
  destruct (maybe_compact_step grow _ _ Hl) as [B1 B2].
  destruct (consume_step _ _ (HeaderSize + zlen p) B1) as [C1 C2]; [rewrite Hfl; unfold HeaderSize; lia|].
  rewrite drop_ge in C1 by (unfold zlen, HeaderSize in *; lia).
  cbn [read_buffer set_read cemit]. rewrite (sb_size_holds _ _ C1).
  change (zlen (@nil Z) <? HeaderSize) with true. cbv iota.
  eexists. split; [|exact C1]. destruct B1 as [_ ->]. rewrite take_ge by (unfold zlen, HeaderSize in *; lia).
  by destruct c.
Qed.

(** A handler that has the header and runs dry inside the payload. *)
Lemma dry_turn fuel frames c l n p1 rx c1 :
  sb_holds (read_buffer c) l -> l = magic_bytes ++ be32 n ++ p1 -> 0 <= n <= UINT32_MAX ->
  (max_inbound_frame_bytes c <= 0 \/ n <= max_inbound_frame_bytes c) ->
  read_payload grow at_end fuel (HeaderSize + n) c rx = Some (inr c1) ->
  handle_read_loop grow at_end (S fuel) (S frames) c rx = Some (c1, []).
Proof.
  intros Hl Heq Hn Hmax Hdry. destruct (header_at (read_buffer c) l n p1 Hl Heq Hn) as (_ & Hm & Hlen & _).
  assert (H8 : 8 <= zlen l).
  { rewrite Heq, !zlen_app. change (zlen magic_bytes) with 4. change (zlen (be32 _)) with 4.
    pose proof (zlen_nonneg p1). lia. }
  cbn [handle_read_loop]. rewrite (sb_size_holds _ _ Hl). unfold HeaderSize at 1.
  rewrite (proj2 (Z.ltb_ge _ _)) by lia. cbv iota. rewrite Hm. simpl negb. cbv iota. rewrite Hlen.
  replace ((0 <? max_inbound_frame_bytes c) && (max_inbound_frame_bytes c <? n)) with false
    by (symmetry; apply andb_false_iff; rewrite !Z.ltb_ge; lia).
  by rewrite Hdry.
Qed.

(** A frame that reaches the connection in two parts is delivered wrong: when
    the first part is used up the handler returns with the missing bytes
    already in its buffer as zeros, and the next call, whatever has arrived,
    delivers the header, the first part and zeros, and leaves the rest of the
    frame to be taken for the next header. *)
Theorem split_frame_corrupted c p1 p2 rx2 :
  at_end = RE_WouldBlock -> sb_holds (read_buffer c) [] -> zlen (buf (read_buffer c)) <= UINT32_MAX ->
  p1 <> [] -> p2 <> [] -> payload_ok (max_inbound_frame_bytes c) (p1 ++ p2) ->
  exists c1 c2,
    handle_read grow at_end c [magic_bytes ++ be32 (zlen (p1 ++ p2)) ++ p1] = Some (c1, []) /\
    c_events c1 = c_events c /\
    handle_read grow at_end c1 rx2 = Some (c2, rx2) /\
    c_events c2 = c_events c ++
      [FrameHandler (magic_bytes ++ be32 (zlen (p1 ++ p2)) ++ p1 ++ replicate (length p2) 0)].
Proof.
  intros Hend Hl Hcap Hp1 Hp2 [Hp Hmax].
  pose proof (nonempty_zlen _ Hp1). pose proof (nonempty_zlen _ Hp2). pose proof Hp as Hp'. rewrite zlen_app in Hp'.
  set (hdr := magic_bytes ++ be32 (zlen (p1 ++ p2))).
  set (rx := [magic_bytes ++ be32 (zlen (p1 ++ p2)) ++ p1]).
  assert (Hrx : segments_ok rx) by (constructor; [done|constructor]).
  assert (Hc : concat rx = hdr ++ p1) by (unfold rx, hdr; simpl; by rewrite app_nil_r).
  assert (Hh : zlen hdr = 8) by done.
  assert (Hfit : fits c rx) by (unfold fits, room; rewrite Hc, zlen_app, Hh; unfold UINT32_MAX, UINT64_MAX in *; lia).
  pose proof (sb_size_holds _ _ Hl) as Hsz. change (zlen (@nil Z)) with 0 in Hsz.
  assert (Hread : read_fd 8 rx = Some (hdr, [p1])) by (simpl; by rewrite bool_decide_eq_false_2).
  destruct (fill_step grow (read_buffer c) [] 8 hdr Hl) as [[H1 H2] _]; [done|unfold UINT32_MAX, UINT64_MAX in *; lia|].
  change ([] ++ hdr) with hdr in H1.
  set (b := fill grow (read_buffer c) 8 hdr) in *. set (c0 := set_read c b).
  assert (Hfill : fill_from_fd grow at_end c (HeaderSize - sb_size (read_buffer c)) rx = inl (c0, [p1]))
    by (rewrite Hsz; change (HeaderSize - 0) with 8; unfold fill_from_fd; by rewrite Hread).
  assert (Hf0 : fits c0 [p1]).
  { unfold fits, room. change (read_buffer c0) with b. change (concat [p1]) with (p1 ++ []). rewrite app_nil_r.
    change (zlen (@nil Z)) with 0 in *. unfold UINT32_MAX, UINT64_MAX in *. lia. }
  destruct (read_payload_dry (1 + 2 * length (concat rx)) c0 hdr [p1] (HeaderSize + zlen (p1 ++ p2)))
    as (b1 & Hdry & Hb1); try done;
    [by constructor|change (concat [p1]) with (p1 ++ []); rewrite app_nil_r, Hh, zlen_app; unfold HeaderSize, UINT32_MAX in *; lia
    |change (concat [p1]) with (p1 ++ []); rewrite Hc, app_nil_r, length_app; unfold zlen; lia|].
  set (p := p1 ++ replicate (length p2) 0).
  assert (Hpl : zlen p = zlen (p1 ++ p2)) by (unfold p, zlen; by rewrite !length_app, length_replicate).
  assert (Hb1' : sb_holds b1 (frame_bytes p)).
  { unfold frame_bytes. rewrite Hpl, (assoc_L (++)). fold hdr. unfold p. change (concat [p1]) with (p1 ++ []) in Hb1.
    rewrite app_nil_r, Hh, zlen_app in Hb1.
    replace (Z.to_nat _) with (length p2) in Hb1 by (unfold HeaderSize, zlen; lia). exact Hb1. }
  exists (set_read c b1).
  destruct (buffered_frame_turn (2 * Z.to_nat (sb_size b1) + 2 * length (concat rx2)) 63 (set_read c b1) p rx2)
    as (b2 & Hr & Hb2); [done|split; by rewrite Hpl|].
  exists (cemit (set_read (set_read c b1) b2) (FrameHandler (frame_bytes p))).
  split; [|split; [done|split; [exact Hr|]]].
  - unfold handle_read. rewrite Hsz. change (2 + 2 * Z.to_nat 0 + ?n)%nat with (S (S n)).
    change kMaxFramesPerTurn with (S 63).
    rewrite (header_turn _ _ _ _ _ _ ltac:(rewrite Hsz; done) Hfill).
    change (read_buffer c0) with b. rewrite (sb_size_holds _ _ H1), Hh. change (8 <? HeaderSize) with false.
    cbv iota. apply (dry_turn _ _ c0 hdr (zlen (p1 ++ p2)) []); [done|by rewrite app_nil_r|pose proof (zlen_nonneg (p1 ++ p2)); lia|done|exact Hdry].
  - simpl. unfold frame_bytes. by rewrite Hpl.
Qed.

(** ** Any input

    What the peer sends need not be frames.  On any bytes the handler returns,
    with at most [kMaxFramesPerTurn] frames, each well formed and within the
    limit. *)

Definition is_frame_event (e : ConnEvent) : bool := match e with FrameHandler _ => true | _ => false end.
Definition n_frames (evs : list ConnEvent) : nat := length (List.filter is_frame_event evs).
Definition event_ok (max : Z) (e : ConnEvent) : Prop :=
  match e with FrameHandler f => exists p, f = frame_bytes p /\ payload_ok max p | _ => True end.

(** The outcome of a turn that may deliver [frames] frames. *)
Definition turn_safe (frames : nat) (c : Connection) (r : option (Connection * list (list Z))) : Prop :=
  exists c' rx' evs, r = Some (c', rx') /\ c_events c' = c_events c ++ evs /\
    Forall (event_ok (max_inbound_frame_bytes c)) evs /\ (n_frames evs <= frames)%nat.

(** What a turn may start from. *)
Definition turn_pre (fuel : nat) (c : Connection) (l : list Z) (rx : list (list Z)) : Prop :=
  sb_holds (read_buffer c) l /\ segments_ok rx /\ fits c rx /\ Forall is_byte (l ++ concat rx) /\
  zlen l + zlen (concat rx) < Z.of_nat fuel.

Lemma turn_done frames c c' rx e :
  c_events c' = c_events c ++ e -> e = [] \/ (exists x, e = [x] /\ is_frame_event x = false) ->
  turn_safe frames c (Some (c', rx)).
Proof.
  intros He Hx. exists c', rx, e. split; [done|]. split; [done|].
  destruct Hx as [->|(x & -> & Hx)]; [split; [constructor|unfold n_frames; simpl; lia]|]. split.
  - constructor; [by destruct x|constructor].
  - unfold n_frames. simpl. rewrite Hx. simpl. lia.
Qed.

Lemma turn_prepend frames n c c1 e r :
  c_events c1 = c_events c ++ [e] -> max_inbound_frame_bytes c1 = max_inbound_frame_bytes c ->
  event_ok (max_inbound_frame_bytes c) e -> (n_frames [e] + frames <= n)%nat ->
  turn_safe frames c1 r -> turn_safe n c r.
Proof.
  intros He Hm Hok Hn (c' & rx' & evs & Hr & Hev & Hall & Hc). exists c', rx', (e :: evs).
  split; [done|]. split; [rewrite Hev, He, <- (assoc_L (++)); done|]. rewrite Hm in Hall.
  split; [by constructor|]. unfold n_frames in *. simpl in *. destruct (is_frame_event e); simpl in *; lia.
Qed.

Lemma turn_safe_ext frames c c1 r :
  c_events c1 = c_events c -> max_inbound_frame_bytes c1 = max_inbound_frame_bytes c ->
  turn_safe frames c1 r -> turn_safe frames c r.
Proof. intros He Hm. unfold turn_safe. by rewrite He, Hm. Qed.

Lemma fill_from_fd_dry c n :
  exists c' e, fill_from_fd grow at_end c n [] = inr c' /\ c_events c' = c_events c ++ e /\
    (e = [] \/ exists x, e = [x] /\ is_frame_event x = false).
Proof.
  unfold fill_from_fd. simpl. destruct at_end; (eexists _, _; split; [reflexivity|]).
  - split; [by rewrite app_nil_r|by left].
  - split; [done|]. right. by eexists.
  - split; [done|]. right. by eexists.
Qed.

(** Phase 2 on any input. *)
Lemma read_payload_total fuel : forall c l rx total,
  sb_holds (read_buffer c) l -> segments_ok rx -> fits c rx -> 0 <= total <= 4294967304 ->
  zlen (concat rx) < Z.of_nat fuel ->
  (exists b l' rx', read_payload grow at_end fuel total c rx = Some (inl (set_read c b, rx')) /\
     l' ++ concat rx' = l ++ concat rx /\ total <= zlen l' /\ with_read c b l' rx rx') \/
  (exists c' e, read_payload grow at_end fuel total c rx = Some (inr c') /\ c_events c' = c_events c ++ e /\
     (e = [] \/ exists x, e = [x] /\ is_frame_event x = false)).
Proof.
  induction fuel as [|fuel IH]; intros c l rx total Hl Hrx Hfit Ht Hfuel.
  { pose proof (zlen_nonneg (concat rx)). lia. }
  cbn [read_payload]. rewrite (sb_size_holds _ _ Hl). pose proof (zlen_nonneg l).
  destruct (zlen l <? total) eqn:E; bool_to_prop.
  - destruct (decide (rx = [])) as [->|Hne].
    { destruct (fill_from_fd_dry c (total - zlen l)) as (c' & e & -> & He & Hx). right. by exists c', e. }
    destruct (fill_from_fd_spec c l rx (total - zlen l) Hl Hrx Hne)
      as (got & b & rx1 & -> & Hg & Hle & Hc & H1 & H2 & H3); [lia|done|].
    pose proof (nonempty_zlen got Hg). rewrite Hc, zlen_app in Hfuel.
    destruct (IH (set_read c b) (l ++ got) rx1 total) as [(b' & l' & rx' & -> & A1 & A2)|(c' & e & -> & A)];
      [done|done|by eapply fits_room|lia|lia| |right; by exists c', e].
    left. exists b', l', rx'. split; [done|]. split; [by rewrite A1, Hc, (assoc_L (++))|].
    destruct A2 as (? & ? & ? & ?). split; [done|]. split; [done|]. split; [done|]. unfold room in *. simpl in *. lia.
  - left. exists (read_buffer c), l, rx. destruct c. simpl. split; [done|]. split; [done|]. split; [lia|]. by split.
Qed.

Lemma magic_seen sb l :
  sb_holds sb l -> 8 <= zlen l ->
  (sb_at sb 0 =? 72) && (sb_at sb 1 =? 80) && (sb_at sb 2 =? 65) && (sb_at sb 3 =? 67) = true ->
  take 4 l = magic_bytes.
Proof.
  intros Hl H8 Hm. bool_to_prop.
  assert (Hat : forall i, 0 <= i < 8 -> l !! Z.to_nat i = Some (sb_at sb i))
    by (intros; apply sb_at_holds; [done|lia]).
  pose proof (Hat 0 ltac:(lia)) as A0. pose proof (Hat 1 ltac:(lia)) as A1.
  pose proof (Hat 2 ltac:(lia)) as A2. pose proof (Hat 3 ltac:(lia)) as A3.
  destruct l as [|a0 [|a1 [|a2 [|a3 l]]]]; try done. simpl in *. injection A0 as A0. injection A1 as A1.
  injection A2 as A2. injection A3 as A3. unfold magic_bytes. repeat f_equal; lia.
Qed.

Definition loop_safe_at (fuel : nat) : Prop := forall frames c l rx,
  turn_pre fuel c l rx -> turn_safe frames c (handle_read_loop grow at_end fuel frames c rx).

(** The frame at the head of a buffer that holds it. *)
Lemma head_frame l l' n rest x y :
  l = magic_bytes ++ be32 n ++ rest -> l' ++ x = l ++ y -> 0 <= n -> HeaderSize + n <= zlen l' ->
  exists p, take (Z.to_nat (HeaderSize + n)) l' = frame_bytes p /\ zlen p = n.
Proof.
  intros -> Heq Hn Hlen. exists (drop 8 (take (Z.to_nat (HeaderSize + n)) l')).
  assert (Hz : zlen (drop 8 (take (Z.to_nat (HeaderSize + n)) l')) = n)
    by (unfold zlen, HeaderSize in *; rewrite length_drop, length_take; lia).
  split; [|done]. unfold frame_bytes. rewrite Hz, (assoc_L (++)).
  rewrite <- (take_drop 8 (take _ l')) at 1. f_equal. rewrite take_take.
  rewrite Nat.min_l by (unfold HeaderSize; lia). apply (f_equal (take 8)) in Heq.
  rewrite take_app_le in Heq by (unfold zlen, HeaderSize in *; lia). rewrite Heq.
  by rewrite <- !(assoc_L (++)).
Qed.

Lemma full_header_safe fuel frames c l rx :
  loop_safe_at fuel -> 8 <= zlen l -> turn_pre (S fuel) c l rx ->
  turn_safe (S frames) c (handle_read_loop grow at_end (S fuel) (S frames) c rx).
Proof.
  intros IH H8 (Hl & Hrx & Hfit & Hb & Hfuel). pose proof (zlen_nonneg (concat rx)) as Hrx0.
  pose proof Hb as Hbb. apply Forall_app in Hbb as [Hbl Hbrx].
  cbn [handle_read_loop]. rewrite (sb_size_holds _ _ Hl). unfold HeaderSize at 1.
  rewrite (proj2 (Z.ltb_ge _ _)) by lia. cbv iota.
  destruct ((sb_at (read_buffer c) 0 =? 72) && _ && _ && _) eqn:Em; simpl negb; cbv iota.
  - destruct (header_split (read_buffer c) l Hl Hbl H8 (magic_seen _ _ Hl H8 Em)) as (n & rest & Heq & Hn & -> & _).
    destruct ((0 <? _) && _) eqn:Emax; bool_to_prop.
    { eapply turn_done; [reflexivity|right; by eexists]. }
    destruct (read_payload_total fuel c l rx (HeaderSize + n)) as [(b & l' & rx' & -> & A1 & A2 & A3 & A4 & A5)|(c' & e & -> & He)];
      try done; [unfold HeaderSize, UINT32_MAX in *; lia|lia| |destruct He; by eapply turn_done].
    cbn [read_buffer set_read cemit]. destruct (maybe_compact_step grow b _ A3) as [B1 B2].
    assert (Htot : 0 <= HeaderSize + n <= zlen l') by (unfold HeaderSize in *; lia).
    destruct (consume_step _ _ _ B1 Htot) as [C1 C2]. rewrite (proj2 B1).
    destruct (head_frame l l' n rest (concat rx') (concat rx) Heq A1) as (p & Hp & Hpn); [lia|lia|].
    rewrite Hp. set (c1 := cemit _ _).
    assert (Hok : event_ok (max_inbound_frame_bytes c) (FrameHandler (frame_bytes p))).
    { exists p. split; [done|]. unfold payload_ok. rewrite Hpn. split; [lia|]. destruct Emax; bool_to_prop; lia. }
    apply (turn_prepend frames (S frames) c c1 (FrameHandler (frame_bytes p))); try done.
    destruct (_ <? HeaderSize); [by eapply (turn_done _ _ _ _ []); [rewrite app_nil_r|left]|].
    eapply IH. split; [exact C1|]. apply (f_equal zlen) in A1 as Hlen. rewrite !zlen_app in Hlen.
    split; [done|]. split; [unfold fits, room in *; simpl in *; lia|]. split.
    + rewrite <- A1 in Hb. apply Forall_app in Hb as [Hb1 Hb2]. apply Forall_app. split; [by apply Forall_drop|done].
    + assert (zlen (drop (Z.to_nat (HeaderSize + n)) l') = zlen l' - (HeaderSize + n))
        by (unfold zlen, HeaderSize in *; rewrite length_drop; lia).
      unfold HeaderSize in *. lia.
  - apply (turn_prepend (S frames) _ c (cemit (set_read c (consume (read_buffer c) 1)) (FrameErrorHandler FDE_InvalidMagic 1))
      (FrameErrorHandler FDE_InvalidMagic 1)); try done.
    destruct (consume_step _ _ 1 Hl) as [C1 C2]; [lia|].
    eapply IH. split; [exact C1|]. split; [done|]. split; [unfold fits, room in *; simpl in *; lia|]. split.
    + apply Forall_app. split; [by apply Forall_drop|done].
    + assert (zlen (drop (Z.to_nat 1) l) = zlen l - 1) by (unfold zlen in *; rewrite length_drop; lia). lia.
Qed.

Lemma loop_safe fuel : loop_safe_at fuel.
Proof.
  induction fuel as [|fuel IH]; intros frames c l rx Hpre.
  { destruct Hpre as (_ & _ & _ & _ & Hf). pose proof (zlen_nonneg l). pose proof (zlen_nonneg (concat rx)). lia. }
  destruct frames as [|frames].
  { eapply (turn_done _ _ _ _ []); [by rewrite app_nil_r|by left]. }
  destruct (decide (8 <= zlen l)) as [H8|H8]; [by eapply full_header_safe|].
  pose proof Hpre as (Hl & Hrx & Hfit & Hb & Hfuel). pose proof (zlen_nonneg l).
  assert (Hlt : sb_size (read_buffer c) < HeaderSize) by (rewrite (sb_size_holds _ _ Hl); unfold HeaderSize; lia).
  destruct (decide (rx = [])) as [->|Hne].
  - destruct (fill_from_fd_dry c (HeaderSize - sb_size (read_buffer c))) as (c' & e & Hf & He & Hx).
    cbn [handle_read_loop]. rewrite (proj2 (Z.ltb_lt _ _) Hlt), Hf. by eapply turn_done.
  - destruct (fill_from_fd_spec c l rx (HeaderSize - sb_size (read_buffer c)) Hl Hrx Hne)
      as (got & b & rx1 & Hf & Hg & Hle & Hc & A1 & A2 & A3); [rewrite (sb_size_holds _ _ Hl); unfold HeaderSize; lia|done|].
    rewrite (header_turn _ _ _ _ _ _ Hlt Hf). cbn [read_buffer set_read]. rewrite (sb_size_holds _ _ A1).
    destruct (zlen (l ++ got) <? HeaderSize) eqn:E; bool_to_prop.
    { eapply (turn_done _ _ _ _ []); [by rewrite app_nil_r|by left]. }
    apply (turn_safe_ext _ c (set_read c b)); try done.
    eapply full_header_safe; [done|exact E|]. split; [done|]. split; [done|]. split; [by eapply fits_room|].
    split; [by rewrite <- (assoc_L (++)), <- Hc|]. rewrite Hc, zlen_app in Hfuel. rewrite zlen_app. lia.
Qed.

(** C25. The read handler returns on every input: it delivers at most 64 frames,
    and every one is a complete frame whose payload is within the limit. *)
Theorem read_handler_total c l rx :
  sb_holds (read_buffer c) l -> segments_ok rx -> fits c rx -> Forall is_byte (l ++ concat rx) ->
  turn_safe kMaxFramesPerTurn c (handle_read grow at_end c rx).
Proof.
  intros Hl Hrx Hfit Hb. eapply loop_safe. split; [exact Hl|]. split; [done|]. split; [done|]. split; [done|].
  rewrite (sb_size_holds _ _ Hl). pose proof (zlen_nonneg l). unfold zlen in *. lia.
Qed.
End Receive.

(** ** Sending

    The kernel takes the bytes of an [async_send] in one or more pieces: a
    completion with [k] says that the first [k] bytes of the block in flight
    are on the wire. *)

Section Sending.
Context (grow : Z -> Z -> Z).

Definition last_submitted (b : list Z) (e : ConnEvent) : list Z :=
  match e with AsyncSend bytes => bytes | _ => b end.
Definition in_flight (c : Connection) : list Z := fold_left last_submitted (c_events c) [].

Inductive LinkOp := LSend (data : StreamBuffer) | LDone (k : Z).

Record Link := mkLink { l_conn : Connection; l_wire : list Z }.

(** The block in flight is the last one submitted, so a completion is only
    for it. *)
Definition link_step (s : Link) (op : LinkOp) : option Link :=
  match op with
  | LSend data => Some (mkLink (send grow (l_conn s) data) (l_wire s))
  | LDone k =>
      if is_sending (l_conn s) && (0 <=? k) && (k <=? zlen (in_flight (l_conn s)))
      then Some (mkLink (handle_send_completion grow (l_conn s) k)
                   (l_wire s ++ take (Z.to_nat k) (in_flight (l_conn s))))
      else None
  end.

Fixpoint link_run (s : Link) (ops : list LinkOp) : option Link :=
  match ops with
  | [] => Some s
  | op :: ops => match link_step s op with Some s => link_run s ops | None => None end
  end.

Definition sent_by (op : LinkOp) : list Z := match op with LSend d => sb_readable d | LDone _ => [] end.
Definition sent (ops : list LinkOp) : list Z := concat (sent_by <$> ops).

(** The bytes accepted are those on the wire and those in the buffer; the
    block in flight is at the head of the buffer, and there is one exactly
    while the buffer has bytes. *)
Definition link_inv (s : Link) (accepted : list Z) : Prop :=
  exists l, sb_holds (write_buffer (l_conn s)) l /\ l_wire s ++ l = accepted /\
    c_open (l_conn s) = true /\ c_state (l_conn s) = CS_Connected /\
    match is_sending (l_conn s) with
    | true => l <> [] /\ exists more, l = in_flight (l_conn s) ++ more
    | false => l = []
    end.

Lemma in_flight_emit c e : in_flight (cemit c e) = last_submitted (in_flight c) e.
Proof. unfold in_flight. simpl. by rewrite fold_left_app. Qed.

(** Submitting what the buffer holds. *)
Lemma flush_link c l w :
  sb_holds (write_buffer c) l -> c_open c = true -> c_state c = CS_Connected -> l <> [] ->
  link_inv (mkLink (flush_write_buffer grow c) w) (w ++ l) /\
  zlen (buf (write_buffer (flush_write_buffer grow c))) <= zlen (buf (write_buffer c)).
Proof.
  intros Hl Ho Hs Hne. unfold flush_write_buffer, sb_is_empty. rewrite Ho, (sb_size_holds _ _ Hl).
  pose proof (nonempty_zlen l Hne). rewrite (proj2 (Z.eqb_neq _ _)) by lia. simpl orb. cbv iota.
  destruct (maybe_compact_step grow _ _ Hl) as [B1 B2]. split; [|simpl; lia].
  exists l. split; [done|]. split; [done|]. split; [done|]. split; [done|]. cbn [is_sending cemit set_write l_conn].
  split; [done|]. exists []. rewrite app_nil_r, in_flight_emit. simpl. by rewrite (proj2 B1).
Qed.

Lemma link_send s a d :
  link_inv s a -> zlen (buf (write_buffer (l_conn s))) + zlen (sb_readable d) <= UINT64_MAX ->
  link_inv (mkLink (send grow (l_conn s) d) (l_wire s)) (a ++ sb_readable d) /\
  zlen (buf (write_buffer (send grow (l_conn s) d))) <=
    zlen (buf (write_buffer (l_conn s))) + zlen (sb_readable d).
Proof.
  intros (l & Hl & Ha & Ho & Hs & Hfl) Hb. unfold send, send_raw. rewrite Hs, Ho. simpl negb. cbv iota.
  destruct (append_step grow _ _ (sb_readable d) Hl Hb) as [A1 A2]. set (c1 := set_write (l_conn s) _ _).
  change (is_sending c1) with (is_sending (l_conn s)). destruct (is_sending (l_conn s)) eqn:Es.
  - split; [|done]. exists (l ++ sb_readable d). split; [done|]. split; [by rewrite <- Ha, (assoc_L (++))|].
    split; [done|]. split; [done|]. change (is_sending (l_conn (mkLink c1 (l_wire s)))) with true. cbv iota.
    change (in_flight (l_conn (mkLink c1 (l_wire s)))) with (in_flight (l_conn s)). destruct Hfl as (Hne & more & ->). split; [by destruct (in_flight (l_conn s)), more|].
    exists (more ++ sb_readable d). by rewrite <- (assoc_L (++)).
  - rewrite Hfl in *. rewrite app_nil_r in Ha. destruct (decide (sb_readable d = [])) as [Hd|Hd].
    + assert (Hfl1 : flush_write_buffer grow c1 = c1).
      { unfold flush_write_buffer, sb_is_empty. change (write_buffer c1) with (append grow (write_buffer (l_conn s)) (sb_readable d)).
        rewrite (sb_size_holds _ _ A1), Hd. by rewrite orb_true_r. }
      rewrite Hfl1. split; [|exact A2]. exists []. rewrite Hd in A1 |- *. rewrite !app_nil_r.
      split; [unfold c1; rewrite Hd; exact A1|]. split; [done|]. split; [done|]. split; [done|].
      unfold c1. simpl. done.
    + destruct (flush_link c1 ([] ++ sb_readable d) (l_wire s)) as [F1 F2]; try done. rewrite <- Ha.
      split; [exact F1|]. change (write_buffer c1) with (append grow (write_buffer (l_conn s)) (sb_readable d)) in F2. lia.
Qed.

Lemma link_done s a k :
  link_inv s a -> is_sending (l_conn s) = true -> 0 <= k <= zlen (in_flight (l_conn s)) ->
  link_inv (mkLink (handle_send_completion grow (l_conn s) k) (l_wire s ++ take (Z.to_nat k) (in_flight (l_conn s)))) a /\
  zlen (buf (write_buffer (handle_send_completion grow (l_conn s) k))) <= zlen (buf (write_buffer (l_conn s))).
Proof.
  intros (l & Hl & Ha & Ho & Hs & Hfl) Hsend Hk. rewrite Hsend in Hfl. destruct Hfl as (Hne & more & Hmore).
  assert (Hzl : zlen l = zlen (in_flight (l_conn s)) + zlen more) by (rewrite Hmore; apply zlen_app).
  pose proof (zlen_nonneg more).
  assert (Htake : take (Z.to_nat k) (in_flight (l_conn s)) = take (Z.to_nat k) l)
    by (rewrite Hmore, take_app_le; [done|unfold zlen in *; lia]).
  rewrite Htake. unfold handle_send_completion. rewrite (proj2 (Z.ltb_ge k 0)) by lia.
  set (b := if _ <=? k then _ else _).
  assert (Hb : sb_holds b (drop (Z.to_nat k) l) /\ zlen (buf b) <= zlen (buf (write_buffer (l_conn s)))).
  { unfold b. cbn [write_buffer set_write cemit]. rewrite (sb_size_holds _ _ Hl).
    destruct (zlen l <=? k) eqn:E; bool_to_prop.
    - rewrite drop_ge by (unfold zlen in *; lia). split; [apply holds_at_zero; try done; apply (proj1 Hl)|].
      change (zlen (buf (sb_clear grow (write_buffer (l_conn s))))) with 0. apply zlen_nonneg.
    - destruct (consume_step _ _ k Hl) as [C1 C2]; [lia|]. split; [exact C1|lia]. }
  clearbody b. destruct Hb as [Hb Hlen]. set (c1 := set_write _ b false).
  assert (Hacc : (l_wire s ++ take (Z.to_nat k) l) ++ drop (Z.to_nat k) l = a)
    by (rewrite <- (assoc_L (++)), take_drop; done).
  unfold sb_is_empty. rewrite (sb_size_holds _ _ Hb). destruct (decide (drop (Z.to_nat k) l = [])) as [Hd|Hd].
  - rewrite Hd. simpl. split; [|exact Hlen]. exists []. rewrite <- Hd.
    split; [exact Hb|]. split; [exact Hacc|]. split; [exact Ho|]. split; [exact Hs|]. reflexivity.
  - pose proof (nonempty_zlen _ Hd). rewrite (proj2 (Z.eqb_neq _ _)) by lia. simpl negb. cbv iota.
    destruct (flush_link c1 (drop (Z.to_nat k) l) (l_wire s ++ take (Z.to_nat k) l)) as [F1 F2]; try done.
    rewrite Hacc in F1. split; [exact F1|]. etransitivity; [exact F2|exact Hlen].
Qed.

Lemma link_run_inv ops : forall s a s',
  link_inv s a -> zlen (buf (write_buffer (l_conn s))) + zlen (sent ops) <= UINT64_MAX ->
  link_run s ops = Some s' -> link_inv s' (a ++ sent ops).
Proof.
  induction ops as [|op ops IH]; intros s a s' Hinv Hb Hrun.
  { injection Hrun as <-. unfold sent. by rewrite app_nil_r. }
  unfold sent in Hb |- *. rewrite fmap_cons in Hb |- *. cbn [concat] in Hb |- *. rewrite zlen_app in Hb.
  pose proof (zlen_nonneg (concat (sent_by <$> ops))).
  rewrite (assoc_L (++)). fold (sent ops) in *. simpl in Hrun. destruct op as [d|k]; simpl in Hrun, Hb |- *.
  - destruct (link_send s a d Hinv) as [I1 I2]; [lia|]. apply (IH _ _ _ I1); [simpl; lia|done].
  - destruct (is_sending (l_conn s)) eqn:Es; [|done]. simpl in Hrun.
    destruct ((0 <=? k) && (k <=? _)) eqn:E; [|done]. bool_to_prop.
    destruct (link_done s a k Hinv Es) as [I1 I2]; [lia|]. rewrite app_nil_r. apply (IH _ _ _ I1); [|done].
    change (zlen (@nil Z)) with 0 in Hb. simpl. lia.
Qed.

Lemma conn_init_link : link_inv (mkLink (conn_init grow CS_Connected) []) [] /\
  zlen (buf (write_buffer (conn_init grow CS_Connected))) = 0.
Proof.
  split; [|reflexivity]. exists []. split; [|done]. by apply holds_at_zero.
Qed.

(** Whatever the sends and however the kernel splits the blocks, the wire has
    a prefix of the bytes handed to [send], in order; and all of them as soon
    as nothing is in flight. *)
Theorem sends_keep_order ops s :
  zlen (sent ops) <= UINT64_MAX -> link_run (mkLink (conn_init grow CS_Connected) []) ops = Some s ->
  (exists pending, l_wire s ++ pending = sent ops) /\
  (is_sending (l_conn s) = false -> l_wire s = sent ops).
Proof.
  intros Hb Hrun. destruct conn_init_link as [Hi H0].
  destruct (link_run_inv ops _ [] s Hi) as (l & _ & Ha & _ & _ & Hfl); [cbn [l_conn]; rewrite H0; done|done|].
  simpl in Ha. split; [by exists l|]. intros Hn. rewrite Hn in Hfl. subst l. by rewrite app_nil_r in Ha.
Qed.
End Sending.

(** ** A link: sender, wire and receiver *)

Section EndToEnd.
Context {Env : Type} (serialize : Env -> list Z) (parse : list Z -> option Env) (grow : Z -> Z -> Z).
Context (Hproto : forall e, parse (serialize e) = Some e).

(** What the receiving side makes of the events of its connection. *)
Definition received (evs : list ConnEvent) : list (option Env) :=
  (fun e => match e with
            | FrameHandler f => fd_frame (try_decode_wireframe parse (sb_of grow f) frame_default_limits)
            | _ => None
            end) <$> evs.

Lemma sent_frames es ops :
  Forall (fun e => zlen (serialize e) <= UINT32_MAX) es ->
  omap (fun op => match op with LSend d => Some d | LDone _ => None end) ops = (encode serialize grow <$> es) ->
  sent ops = stream_of (serialize <$> es).
Proof.
  intros Hes. revert ops. induction Hes as [|e es He Hes IH]; intros ops; induction ops as [|[d|k] ops IHo]; try done.
  intros [= -> Ho]. unfold sent, stream_of. rewrite !fmap_cons. cbn [concat].
  fold (sent ops) (stream_of (serialize <$> es)). rewrite (IH _ Ho). simpl.
  by rewrite (proj2 (encode_holds serialize grow e He)).
Qed.

(** The bytes reach the receiving side in bursts: the handler is called while a
    burst lasts, then the socket has nothing to read until the next. *)
Fixpoint serve_bursts (c : Connection) (bursts : list (list (list Z))) : option Connection :=
  match bursts with
  | [] => Some c
  | rx :: bursts =>
      match serve grow RE_WouldBlock (length (concat rx)) c rx with
      | Some c => serve_bursts c bursts
      | None => None
      end
  end.

(** After every burst there are bytes of [ps] whole frames and less than a header
    of the next; [l] of them are there before. *)
Fixpoint cut_between_frames (l : list Z) (bursts : list (list (list Z))) (ps : list (list Z)) : Prop :=
  match bursts with
  | [] => l = [] /\ ps = []
  | rx :: bursts =>
      exists qs rs part, ps = qs ++ rs /\ zlen part < 8 /\ l ++ concat rx = stream_of qs ++ part /\
        cut_between_frames part bursts rs
  end.

Lemma serve_bursts_delivers bursts : forall c l ps,
  sb_holds (read_buffer c) l -> Forall segments_ok bursts -> zlen l < 8 -> cut_between_frames l bursts ps ->
  zlen (buf (read_buffer c)) + zlen (concat (concat bursts)) + 2 * 4294967296 <= UINT64_MAX ->
  Forall (payload_ok (max_inbound_frame_bytes c)) ps ->
  exists c', serve_bursts c bursts = Some c' /\
    c_events c' = c_events c ++ ((fun p => FrameHandler (frame_bytes p)) <$> ps).
Proof.
  induction bursts as [|rx bursts IH]; intros c l ps Hl Hb Hlt Hcut Hfit Hps.
  - destruct Hcut as [-> ->]. exists c. split; [done|]. by rewrite app_nil_r.
  - destruct Hcut as (qs & rs & part & -> & Hpt & Hst & Hcut). inversion_clear Hb as [|? ? Hrx Hbs].
    apply Forall_app in Hps as [Hq Hr]. cbn [concat] in Hfit. rewrite concat_app, zlen_app in Hfit.
    pose proof (zlen_nonneg (concat (concat bursts))).
    destruct (serve_delivers grow RE_WouldBlock (length (concat rx)) c l rx qs part)
      as (c1 & Hs & S1 & S2 & S3 & S4); try done; [unfold fits, room; lia|].
    unfold room in S2. change (zlen (concat (@nil (list Z)))) with 0 in S2.
    cbn [serve_bursts]. rewrite Hs. destruct (IH c1 part rs) as (c' & V1 & V2); try done; [lia|by rewrite S3|].
    exists c'. split; [done|]. by rewrite V2, S4, fmap_app, (assoc_L (++)).
Qed.

(** C12. Envelopes encoded and sent on one connection come out of the other: the
    same envelopes, in the same order.  The kernel takes the blocks of the sender
    in pieces of any size and gives the receiver pieces of any size, in bursts
    between which there is nothing to read, as long as no burst ends inside a
    payload: where one does, [split_frame_corrupted] says what is delivered. *)
Theorem link_delivers es ops s bursts :
  Forall (fun e => zlen (serialize e) <= max_payload_bytes frame_default_limits) es ->
  omap (fun op => match op with LSend d => Some d | LDone _ => None end) ops = (encode serialize grow <$> es) ->
  zlen (sent ops) <= 9223372036854775807 ->
  link_run grow (mkLink (conn_init grow CS_Connected) []) ops = Some s -> is_sending (l_conn s) = false ->
  Forall segments_ok bursts -> concat (concat bursts) = l_wire s ->
  cut_between_frames [] bursts (serialize <$> es) ->
  exists c, serve_bursts (conn_init grow CS_Connected) bursts = Some c /\
    received (c_events c) = (Some <$> es).
Proof.
  intros Hes Hops Hlen Hrun Hidle Hrx Hwire Hcut.
  assert (Hes' : Forall (fun e => zlen (serialize e) <= UINT32_MAX) es).
  { eapply Forall_impl; [exact Hes|]. simpl. unfold UINT32_MAX. lia. }
  destruct (conn_init_link grow) as [Hi H0].
  destruct (link_run_inv grow ops _ [] s Hi) as (l & _ & Ha & _ & _ & Hfl);
    [cbn [l_conn]; rewrite H0; unfold UINT64_MAX; lia|done|].
  rewrite Hidle in Hfl. subst l. rewrite app_nil_r in Ha. simpl in Ha.
  rewrite (sent_frames es ops Hes' Hops) in Ha, Hlen. rewrite <- Ha, <- Hwire in Hlen.
  destruct (serve_bursts_delivers bursts (conn_init grow CS_Connected) [] (serialize <$> es))
    as (c & Hs & He); try done; [unfold UINT64_MAX; simpl; change (zlen (@nil Z)) with 0; lia| |].
  { apply Forall_fmap. eapply Forall_impl; [exact Hes|]. simpl. intros e He. split; [|right]; unfold UINT32_MAX; lia. }
  exists c. split; [done|]. rewrite He. unfold received. simpl. rewrite <- !list_fmap_compose.
  apply Forall_fmap_ext_1. eapply Forall_impl; [exact Hes|]. intros e He1. cbn [compose]. simpl in He1.
  assert (Hh : sb_holds (sb_of grow (frame_bytes (serialize e))) (frame_bytes (serialize e))).
  { apply holds_at_zero; try done. rewrite frame_bytes_length. unfold UINT64_MAX. lia. }
  assert (Hr : sb_readable (encode serialize grow e) = frame_bytes (serialize e))
    by (apply encode_holds; unfold UINT32_MAX; lia).
  cbn. rewrite (decode_frame serialize parse grow Hproto e _ [] frame_default_limits); try done; [unfold UINT32_MAX; lia|by right|by left|].
  by rewrite Hr, app_nil_r.
Qed.
End EndToEnd.

(** ** Witnesses *)

Lemma every_frame_arrives_witness :
  exists c, serve grow_double RE_WouldBlock 19 (conn_init grow_double CS_Connected)
      [[72; 80]; [65; 67; 0; 0; 0]; [1; 7; 72; 80; 65]; [67; 0; 0; 0; 2; 8; 9]] = Some c /\
    c_events c = ((fun p => FrameHandler (frame_bytes p)) <$> [[7]; [8; 9]]).
Proof.
  apply (every_frame_arrives grow_double RE_WouldBlock
           [[72; 80]; [65; 67; 0; 0; 0]; [1; 7; 72; 80; 65]; [67; 0; 0; 0; 2; 8; 9]] [[7]; [8; 9]]).
  - by repeat constructor.
  - by vm_compute.
  - by vm_compute.
  - repeat constructor; try (by vm_compute); right; by vm_compute.
Defined.

Lemma split_frame_corrupted_witness :
  exists c1 c2,
    handle_read grow_double RE_WouldBlock (conn_init grow_double CS_Connected) [[72; 80; 65; 67; 0; 0; 0; 4; 1; 2]] = Some (c1, []) /\
    c_events c1 = [] /\
    handle_read grow_double RE_WouldBlock c1 [[3; 4]] = Some (c2, [[3; 4]]) /\
    c_events c2 = [FrameHandler [72; 80; 65; 67; 0; 0; 0; 4; 1; 2; 0; 0]].
Proof.
  apply (split_frame_corrupted grow_double RE_WouldBlock (conn_init grow_double CS_Connected) [1; 2] [3; 4] [[3; 4]]); try done.
  split; [|right]; by vm_compute.
Defined.

Lemma read_handler_total_witness :
  turn_safe kMaxFramesPerTurn (conn_init grow_double CS_Connected)
    (handle_read grow_double RE_Eof (conn_init grow_double CS_Connected) [[1; 72; 80]; [65; 67; 0; 0; 0; 1; 5]]).
Proof.
  apply (read_handler_total grow_double RE_Eof (conn_init grow_double CS_Connected) []
           [[1; 72; 80]; [65; 67; 0; 0; 0; 1; 5]]).
  - by apply holds_at_zero.
  - by repeat constructor.
  - by vm_compute.
  - repeat (constructor; [by split; vm_compute|]). constructor.
Defined.

(** Two sends, the second while the first is in flight, and partial completions. *)
Definition two_sends : list LinkOp :=
  [LSend (encode id grow_double [1; 2]); LDone 4; LSend (encode id grow_double [3]); LDone 6; LDone 9].

Lemma sends_keep_order_witness :
  exists s, link_run grow_double (mkLink (conn_init grow_double CS_Connected) []) two_sends = Some s /\
    (is_sending (l_conn s) = false -> l_wire s = sent two_sends).
Proof.
  destruct (link_run grow_double (mkLink (conn_init grow_double CS_Connected) []) two_sends) as [s|] eqn:E;
    [|vm_compute in E; discriminate E].
  exists s. split; [reflexivity|]. apply (sends_keep_order grow_double two_sends s); [by vm_compute|exact E].
Defined.

Lemma link_delivers_witness :
  exists s, link_run grow_double (mkLink (conn_init grow_double CS_Connected) []) two_sends = Some s /\
  exists c, serve_bursts grow_double (conn_init grow_double CS_Connected)
      [[take 3 (l_wire s); take 10 (drop 3 (l_wire s))]; [drop 13 (l_wire s)]] = Some c /\
    received id_parse grow_double (c_events c) = (Some <$> [[1; 2]; [3]]).
Proof.
  destruct (link_run grow_double (mkLink (conn_init grow_double CS_Connected) []) two_sends) as [s|] eqn:E;
    [|vm_compute in E; discriminate E].
  exists s. split; [reflexivity|].
  assert (Hw : l_wire s = sent two_sends /\ is_sending (l_conn s) = false)
    by (vm_compute in E; injection E as <-; by vm_compute).
  destruct Hw as [Hw Hi]. rewrite Hw.
  apply (link_delivers id id_parse grow_double (fun _ => eq_refl) [[1; 2]; [3]] two_sends s
           [[take 3 (sent two_sends); take 10 (drop 3 (sent two_sends))]; [drop 13 (sent two_sends)]]).
  - constructor; [by vm_compute|]. constructor; [by vm_compute|constructor].
  - by vm_compute.
  - by vm_compute.
  - exact E.
  - exact Hi.
  - apply Forall_cons. split; [constructor; [by vm_compute|]; constructor; [by vm_compute|constructor]|].
    apply Forall_cons. split; [constructor; [by vm_compute|constructor]|constructor].
  - rewrite Hw. by vm_compute.
  - exists [[1; 2]], [[3]], [72; 80; 65]. split; [done|]. split; [by vm_compute|]. split; [by vm_compute|].
    exists [[3]], [], []. split; [done|]. split; [by vm_compute|]. split; [vm_compute; reflexivity|]. split; reflexivity.
Defined.
