(* ===== verification/Dedup.v ===== *)
(** * The receiver's duplicate cache

    [adt/dedup_cache.hpp], [adt/dedup_cache.cpp]: a hash map from (source
    endpoint, source actor, message id) to the time stamp of the first purge
    that saw the entry.  The hash map is a [gmap]; the order in which its
    iterators visit it, which decides what an eviction removes, is an argument
    of the operation.  The theorem: within the time to live of an entry, and
    while the cache is not over its capacity, a message is admitted once. *)

From S2P Require Import Prelude.
From stdpp Require Import base numbers list gmap.

#[local] Open Scope Z_scope.

Record DedupConfig := mkDedupConfig { max_entries : Z; ttl_ns : Z }.
Definition dedup_default : DedupConfig := mkDedupConfig (1024 * 64) 300000000000.

Section Dedup.
Context {EndPoint : Type} `{Countable EndPoint}.

(** Source endpoint, source actor, message id. *)
Definition DedupKey : Type := (EndPoint * Z * Z)%type.

Record DedupCache := mkDedup {
  dd_cfg : DedupConfig;
  dd_entries : gmap DedupKey Z;
  dd_hits : Z;
  dd_inserts : Z
}.

Definition dedup_init (cfg : DedupConfig) : DedupCache := mkDedup cfg ∅ 0 0.
Definition dedup_size (d : DedupCache) : Z := Z.of_nat (size (dd_entries d)).

(** [it2 = erase(it2)], at most [n] times. *)
Fixpoint erase_front (n : nat) (order : list DedupKey) (m : gmap DedupKey Z) : gmap DedupKey Z :=
  match n, order with
  | S n, k :: order => erase_front n order (delete k m)
  | _, _ => m
  end.

Definition evict_count (max : Z) : Z := let n := Z.quot max 10 in if n =? 0 then 1 else n.

(** [is_duplicate]; [order] lists the entries after the insertion in the
    order of the iterators. *)
Definition is_duplicate (key : DedupKey) (order : list DedupKey) (d : DedupCache) : bool * DedupCache :=
  match dd_entries d !! key with
  | Some _ => (true, mkDedup (dd_cfg d) (dd_entries d) (u64 (dd_hits d + 1)) (dd_inserts d))
  | None =>
      let entries := <[key := 0]> (dd_entries d) in
      let entries :=
        if max_entries (dd_cfg d) <? Z.of_nat (size entries)
        then erase_front (Z.to_nat (evict_count (max_entries (dd_cfg d)))) order entries
        else entries in
      (false, mkDedup (dd_cfg d) entries (dd_hits d) (u64 (dd_inserts d + 1)))
  end.

(** One step of the loop of [purge_expired]: the entry's new stamp, [None]
    when it is erased. *)
Definition purge_entry (ttl now ts : Z) : option Z :=
  if ts =? 0 then Some now
  else if ttl <? u64 (now - ts) then None
  else Some ts.

Definition dedup_purge (now : Z) (d : DedupCache) : DedupCache :=
  mkDedup (dd_cfg d) (omap (purge_entry (ttl_ns (dd_cfg d)) now) (dd_entries d)) (dd_hits d) (dd_inserts d).

Definition dedup_remove (key : DedupKey) (d : DedupCache) : DedupCache :=
  mkDedup (dd_cfg d) (delete key (dd_entries d)) (dd_hits d) (dd_inserts d).

(** ** Histories *)

Inductive DedupOp :=
| DCheck (key : DedupKey) (order : list DedupKey)
| DPurge (now : Z)
| DRemove (key : DedupKey).

Definition dedup_step (d : DedupCache) (op : DedupOp) : DedupCache :=
  match op with
  | DCheck key order => (is_duplicate key order d).2
  | DPurge now => dedup_purge now d
  | DRemove key => dedup_remove key d
  end.
Definition dedup_run (d : DedupCache) (ops : list DedupOp) : DedupCache := fold_left dedup_step ops d.

(** The iterators visit every entry once. *)
Definition order_ok (order : list DedupKey) (m : gmap DedupKey Z) : Prop := order ≡ₚ (map_to_list m).*1.
Definition dedup_op_ok (d : DedupCache) (op : DedupOp) : Prop :=
  match op with
  | DCheck key order => order_ok order (<[key := 0]> (dd_entries d))
  | _ => True
  end.
Fixpoint dedup_ops_ok (d : DedupCache) (ops : list DedupOp) : Prop :=
  match ops with
  | [] => True
  | op :: ops => dedup_op_ok d op /\ dedup_ops_ok (dedup_step d op) ops
  end.

(** ** Capacity *)

Lemma erase_front_size n : forall order m,
  NoDup order -> (forall k, k ∈ order -> is_Some (m !! k)) ->
  size (erase_front n order m) = (size m - Nat.min n (length order))%nat.
Proof.
  induction n as [|n IH]; intros [|k order] m Hnd Hin; simpl; try lia.
  apply NoDup_cons in Hnd as [Hk Hnd]. destruct (Hin k) as [v Hv]; [left|].
  rewrite IH; [| done |].
  - rewrite map_size_delete, Hv. lia.
  - intros k' Hk'. rewrite lookup_delete_ne by (intros ->; done). apply Hin. by right.
Qed.

Lemma order_ok_spec order m :
  order_ok order m -> NoDup order /\ (forall k, k ∈ order -> is_Some (m !! k)) /\ length order = size m.
Proof.
  intros Ho. unfold order_ok in Ho. split; [rewrite Ho; apply NoDup_fst_map_to_list|]. split.
  - intros k Hk. rewrite Ho in Hk. apply list_elem_of_fmap in Hk as ([k' v] & -> & Hk).
    apply elem_of_map_to_list in Hk. simpl. by rewrite Hk.
  - rewrite Ho, length_fmap. apply length_map_to_list.
Qed.

Lemma evict_count_pos max : 0 <= max -> 1 <= evict_count max.
Proof.
  intros Hm. unfold evict_count. cbv zeta. destruct (Z.quot max 10 =? 0) eqn:E; bool_to_prop; [lia|].
  pose proof (Z.quot_pos max 10). lia.
Qed.

Lemma check_size key order d :
  0 <= max_entries (dd_cfg d) -> order_ok order (<[key := 0]> (dd_entries d)) ->
  dedup_size d <= max_entries (dd_cfg d) ->
  dedup_size (is_duplicate key order d).2 <= max_entries (dd_cfg d).
Proof.
  intros Hmax Ho Hsz. unfold is_duplicate. destruct (dd_entries d !! key) eqn:Ek; [done|].
  unfold dedup_size in *. cbn [dd_entries snd]. destruct (order_ok_spec _ _ Ho) as (Hnd & Hin & Hlen).
  destruct (max_entries (dd_cfg d) <? Z.of_nat (size (<[key:=0]> (dd_entries d)))) eqn:E; bool_to_prop; [|lia].
  rewrite erase_front_size by done. pose proof (evict_count_pos _ Hmax).
  assert (Hs : size (<[key:=0]> (dd_entries d)) = S (size (dd_entries d))) by by rewrite map_size_insert, Ek.
  lia.
Qed.

Lemma purge_size now d : dedup_size (dedup_purge now d) <= dedup_size d.
Proof.
  unfold dedup_size, dedup_purge. cbn [dd_entries]. apply Nat2Z.inj_le.
  rewrite <- !size_dom. apply subseteq_size. intros k Hk.
  apply elem_of_dom in Hk as [v Hv]. apply lookup_omap_Some in Hv as (x & _ & Hx). apply elem_of_dom. by exists x.
Qed.

Lemma remove_size k d : dedup_size (dedup_remove k d) <= dedup_size d.
Proof.
  unfold dedup_size, dedup_remove. cbn [dd_entries]. rewrite map_size_delete.
  destruct (dd_entries d !! k); unfold id; lia.
Qed.

Lemma step_cfg d op : dd_cfg (dedup_step d op) = dd_cfg d.
Proof. destruct op; simpl; [|done..]. unfold is_duplicate. by destruct (_ !! _). Qed.

Lemma run_bounded ops : forall d,
  0 <= max_entries (dd_cfg d) -> dedup_size d <= max_entries (dd_cfg d) -> dedup_ops_ok d ops ->
  dedup_size (dedup_run d ops) <= max_entries (dd_cfg d).
Proof.
  induction ops as [|op ops IH]; intros d Hmax Hsz Hok; [done|]. destruct Hok as [Hop Hok]. simpl.
  rewrite <- (step_cfg d op). apply IH; [by rewrite step_cfg| |done]. rewrite step_cfg.
  destruct op as [key order|now|key]; [by apply check_size| |]; simpl.
  - pose proof (purge_size now d). lia.
  - pose proof (remove_size key d). lia.
Qed.

(** ** The window *)

(** Purges from [lo] to [hi], each not earlier than the one before. *)
Fixpoint purges_within (lo hi : Z) (ops : list DedupOp) : Prop :=
  match ops with
  | [] => True
  | DPurge now :: ops => lo <= now <= hi /\ purges_within now hi ops
  | _ :: ops => purges_within lo hi ops
  end.

Definition checks (ops : list DedupOp) : Z :=
  sum_by (fun op => match op with DCheck _ _ => 1 | _ => 0 end) ops.

(** The entry is there, not yet stamped or stamped since [t0]. *)
Definition entry_live (t0 lo : Z) (k : DedupKey) (d : DedupCache) : Prop :=
  exists ts, dd_entries d !! k = Some ts /\ (ts = 0 \/ t0 <= ts <= lo).

Lemma check_live t0 lo k key order d :
  entry_live t0 lo k d -> dedup_size d < max_entries (dd_cfg d) ->
  entry_live t0 lo k (is_duplicate key order d).2 /\
  dedup_size (is_duplicate key order d).2 <= dedup_size d + 1.
Proof.
  intros (ts & Hk & Hts) Hsz. unfold is_duplicate, dedup_size in *.
  destruct (dd_entries d !! key) eqn:Ekey; [split; [by exists ts|simpl; lia]|].
  assert (Hs : size (<[key:=0]> (dd_entries d)) = S (size (dd_entries d))) by by rewrite map_size_insert, Ekey.
  cbn [dd_entries snd]. rewrite Hs. rewrite (proj2 (Z.ltb_ge _ _)) by lia. split; [|rewrite Hs; lia].
  exists ts. split; [|done]. cbn [dd_entries]. rewrite lookup_insert_ne; [done|]. intros ->. congruence.
Qed.

Lemma purge_live t0 lo hi now k d :
  entry_live t0 lo k d -> 0 < t0 <= lo -> lo <= now <= hi -> hi <= t0 + ttl_ns (dd_cfg d) -> hi <= UINT64_MAX ->
  entry_live t0 now k (dedup_purge now d).
Proof.
  intros (ts & Hk & Hts) Ht0 Hnow Hhi Hmax. unfold entry_live, dedup_purge. cbn [dd_entries].
  rewrite lookup_omap, Hk. simpl. unfold purge_entry. destruct (ts =? 0) eqn:E; bool_to_prop.
  - exists now. split; [done|]. right. lia.
  - rewrite u64_small by (unfold UINT64_MAX in *; lia). rewrite (proj2 (Z.ltb_ge _ _)) by lia.
    exists ts. split; [done|]. right. lia.
Qed.

Lemma run_live ops : forall t0 lo hi k d,
  entry_live t0 lo k d -> 0 < t0 <= lo -> lo <= hi -> purges_within lo hi ops ->
  hi <= t0 + ttl_ns (dd_cfg d) -> hi <= UINT64_MAX ->
  dedup_size d + checks ops <= max_entries (dd_cfg d) -> DRemove k ∉ ops ->
  exists lo', entry_live t0 lo' k (dedup_run d ops).
Proof.
  induction ops as [|op ops IH]; intros t0 lo hi k d Hl Ht0 Hlo Hw Hhi Hmax Hsz Hrm; [by exists lo|].
  apply not_elem_of_cons in Hrm as [Hne Hrm]. unfold checks in Hsz. rewrite sum_by_cons in Hsz. fold (checks ops) in Hsz.
  assert (0 <= checks ops) by (unfold checks; apply sum_by_nonneg; intros []; lia).
  simpl. destruct op as [key order|now|key]; simpl in Hw, Hsz.
  - destruct (check_live t0 lo k key order d Hl) as [H1 H2]; [lia|].
    pose proof (step_cfg d (DCheck key order)) as Hcfg. simpl in Hcfg.
    apply (IH t0 lo hi k _ H1); rewrite ?Hcfg; try done; lia.
  - destruct Hw as [Hn Hw]. apply (IH t0 now hi k); try done; [by eapply purge_live|lia|lia|].
    pose proof (purge_size now d). simpl. lia.
  - apply (IH t0 lo hi k); try done.
    + destruct Hl as (ts & Hk & Hts). exists ts. split; [|done]. simpl. rewrite lookup_delete_ne; [done|congruence].
    + pose proof (remove_size key d). simpl. lia.
Qed.

Lemma run_cfg ops : forall d, dd_cfg (dedup_run d ops) = dd_cfg d.
Proof. induction ops as [|op ops IH]; intros d; [done|]. simpl. by rewrite IH, step_cfg. Qed.

(** After a message was admitted, every later check of it within the time to
    live of the first purge says duplicate, as long as the cache has room and
    the entry is not rolled back; and a purge past that time forgets it. *)
Theorem dedup_window d k order ops order' t0 :
  (is_duplicate k order d).1 = false -> 0 < t0 -> 0 <= ttl_ns (dd_cfg d) -> t0 + ttl_ns (dd_cfg d) <= UINT64_MAX ->
  dedup_size d + 1 + checks ops <= max_entries (dd_cfg d) ->
  purges_within t0 (t0 + ttl_ns (dd_cfg d)) ops -> DRemove k ∉ ops ->
  let d' := dedup_run (is_duplicate k order d).2 ops in
  (is_duplicate k order' d').1 = true /\
  (forall ts now, dd_entries d' !! k = Some ts -> ts <> 0 -> ts + ttl_ns (dd_cfg d) < now <= UINT64_MAX ->
     (is_duplicate k order' (dedup_purge now d')).1 = false).
Proof.
  intros Hnew Ht0 Httl Hmax Hsz Hw Hrm. cbv zeta.
  pose proof (step_cfg d (DCheck k order)) as Hcfg. simpl in Hcfg.
  assert (0 <= checks ops) by (unfold checks; apply sum_by_nonneg; intros []; lia).
  assert (Hd1 : entry_live t0 t0 k (is_duplicate k order d).2 /\
    dedup_size (is_duplicate k order d).2 = dedup_size d + 1).
  { unfold is_duplicate in *. destruct (dd_entries d !! k) eqn:Ek; [done|]. unfold dedup_size in *. cbn [dd_entries snd].
    assert (Hs : size (<[k:=0]> (dd_entries d)) = S (size (dd_entries d))) by by rewrite map_size_insert, Ek.
    rewrite Hs. rewrite (proj2 (Z.ltb_ge _ _)) by lia. split; [|rewrite Hs; lia].
    exists 0. split; [|by left]. apply lookup_insert_eq. }
  destruct Hd1 as [Hl Hs1].
  destruct (run_live ops t0 t0 (t0 + ttl_ns (dd_cfg d)) k _ Hl) as (lo & ts & Hk & Hts); rewrite ?Hcfg; try done; try lia.
  assert (Hcfg' : ttl_ns (dd_cfg (dedup_run (is_duplicate k order d).2 ops)) = ttl_ns (dd_cfg d)) by by rewrite run_cfg, Hcfg.
  set (d' := dedup_run _ ops) in *. clearbody d'.
  split; [unfold is_duplicate; by rewrite Hk|]. intros ts' now Hk' Hne Hnow. rewrite Hk in Hk'. injection Hk' as <-.
  unfold is_duplicate, dedup_purge. cbn [dd_entries]. rewrite lookup_omap, Hk. simpl. unfold purge_entry.
  rewrite (proj2 (Z.eqb_neq ts 0)) by done.
  rewrite Hcfg', u64_small by (unfold UINT64_MAX in *; lia). rewrite (proj2 (Z.ltb_lt _ _)) by lia. done.
Qed.

(** The number of entries never exceeds the configured maximum. *)
Theorem dedup_bounded cfg ops :
  0 <= max_entries cfg -> dedup_ops_ok (dedup_init cfg) ops ->
  dedup_size (dedup_run (dedup_init cfg) ops) <= max_entries cfg.
Proof. intros Hmax Hok. apply (run_bounded ops (dedup_init cfg)); [done|by vm_compute|done]. Qed.
End Dedup.

(** ** Witnesses and examples; endpoints are numbers *)

Lemma dedup_window_witness :
  let ops := [DCheck (1, 2, 8) [(1, 2, 7); (1, 2, 8)]; DPurge 100; DRemove (1, 2, 8); DPurge 120] in
  let d' := dedup_run (is_duplicate (1, 2, 7) [(1, 2, 7)] (dedup_init (mkDedupConfig 10 50))).2 ops in
  (is_duplicate (1, 2, 7) [] d').1 = true /\
  (is_duplicate (1, 2, 7) [] (dedup_purge 151 d')).1 = false.
Proof.
  destruct (dedup_window (dedup_init (mkDedupConfig 10 50)) (1, 2, 7) [(1, 2, 7)]
    [DCheck (1, 2, 8) [(1, 2, 7); (1, 2, 8)]; DPurge 100; DRemove (1, 2, 8); DPurge 120] [] 100) as [H1 H2].
  - by vm_compute.
  - lia.
  - simpl; lia.
  - simpl. unfold UINT64_MAX. lia.
  - by vm_compute.
  - simpl. lia.
  - set_solver.
  - split; [exact H1|]. apply (H2 100 151); [by vm_compute|lia|simpl; unfold UINT64_MAX; lia].
Defined.

Lemma dedup_bounded_witness :
  dedup_size (dedup_run (dedup_init (mkDedupConfig 1 50))
    [DCheck (1, 2, 8) [(1, 2, 8)]; DCheck (1, 2, 9) [(1, 2, 9); (1, 2, 8)]]) <= 1.
Proof.
  apply (dedup_bounded (mkDedupConfig 1 50) [DCheck (1, 2, 8) [(1, 2, 8)]; DCheck (1, 2, 9) [(1, 2, 9); (1, 2, 8)]]).
  - by vm_compute.
  - unfold dedup_ops_ok, dedup_op_ok, order_ok. split; [by vm_compute|]. split; [|done].
    apply (bool_decide_unpack _). by vm_compute.
Defined.

(** The eviction takes what the iterators meet first, which may be the message
    just admitted: it is then admitted again. *)
Lemma eviction_may_drop_newest :
  let d := (is_duplicate (1, 2, 8) [(1, 2, 8)] (dedup_init (mkDedupConfig 1 50))).2 in
  let d' := (is_duplicate (1, 2, 9) [(1, 2, 9); (1, 2, 8)] d).2 in
  order_ok [(1, 2, 9); (1, 2, 8)] (<[(1, 2, 9) := 0]> (dd_entries d)) /\
  (is_duplicate (1, 2, 9) [(1, 2, 9); (1, 2, 8)] d').1 = false.
Proof. unfold order_ok. split; [apply (bool_decide_unpack _); by vm_compute|by vm_compute]. Qed.

(** A purge whose clock was read before the entry was stamped wraps around and
    drops the entry at once. *)
Lemma late_purge_forgets :
  let d := (is_duplicate (1, 2, 7) [(1, 2, 7)] (dedup_init dedup_default)).2 in
  dd_entries (dedup_purge 999 (dedup_purge 1000 d)) !! (1, 2, 7) = None.
Proof. by vm_compute. Qed.
