(* ===== verification/Receipts.v ===== *)
(** * Delivery receipts

    [msg/delivery_receipt.hpp], [msg/delivery_receipt.cpp],
    [msg/completion_port.hpp]: the state a receipt shares with the tracker.  It
    is resolved once; a callback or a fixed port registered on it is invoked
    with the result.  Callbacks and ports are identified by numbers, [None]
    being the empty function and the null port, and an invocation is an entry
    of a list. *)

From S2P Require Import Prelude DeliveryTypes.
From stdpp Require Import base numbers list.

#[local] Open Scope Z_scope.

(** The underlying value of [DeliveryStatus]; a status read from the wire may
    be any byte. *)
Definition ds_value (s : DeliveryStatus) : Z :=
  match s with
  | DS_Accepted => 0 | DS_AcceptedWithPressure => 1 | DS_NoRoute => 2 | DS_ActorDead => 3
  | DS_MailboxFull => 4 | DS_Expired => 5 | DS_Duplicate => 6 | DS_RemoteUnavailable => 7
  | DS_RejectedByPolicy => 8 | DS_SerializationError => 9 | DS_TransportError => 10
  | DS_ShuttingDown => 11 | DS_Cancelled => 12
  end.

(** Status and message id; the other fields keep their defaults. *)
Record Outcome := mkOutcome { oc_status : Z; oc_message_id : Z }.

#[export] Instance Outcome_eq_dec : EqDecision Outcome.
Proof. solve_decision. Defined.

Inductive Listener := LCallback (f : Z) | LPort (p : Z).

#[export] Instance Listener_eq_dec : EqDecision Listener.
Proof. solve_decision. Defined.

Definition Invocations : Type := list (Listener * Outcome).

Record SharedState := mkShared {
  ss_result : option Outcome;
  ss_callback : option Z;
  ss_fixed_port : option Z;
  ss_fixed_port_set : bool;
  ss_msg_id : Z
}.

Definition shared_init (msg_id : Z) : SharedState := mkShared None None None false msg_id.
Definition receipt_of (r : Outcome) : SharedState := mkShared (Some r) None None false (oc_message_id r).

Definition receipt_ready (st : SharedState) : bool := bool_decide (is_Some (ss_result st)).
Definition receipt_try_get (st : SharedState) : option Outcome := ss_result st.

Definition fire_port (p : option Z) (r : Outcome) : Invocations :=
  match p with Some p => [(LPort p, r)] | None => [] end.
Definition fire_callback (f : option Z) (r : Outcome) : Invocations :=
  match f with Some f => [(LCallback f, r)] | None => [] end.

(** [SharedState::resolve]; moving a port out copies its two pointers, moving
    a function out empties it. *)
Definition ss_resolve (r : Outcome) (st : SharedState) : SharedState * Invocations :=
  match ss_result st with
  | Some _ => (st, [])
  | None =>
      (mkShared (Some r) None (ss_fixed_port st) false (oc_message_id r),
       fire_port (ss_fixed_port st) r ++ fire_callback (ss_callback st) r)
  end.

(** [DeliveryReceipt::cancel]. *)
Definition receipt_cancel (st : SharedState) : SharedState * Invocations :=
  match ss_result st with
  | Some _ => (st, [])
  | None =>
      let r := mkOutcome (ds_value DS_Cancelled) (ss_msg_id st) in
      (mkShared (Some r) None (ss_fixed_port st) false (ss_msg_id st),
       fire_port (ss_fixed_port st) r ++ fire_callback (ss_callback st) r)
  end.

(** [on_complete] with a function. *)
Definition on_complete_callback (f : option Z) (st : SharedState) : SharedState * Invocations :=
  if ss_fixed_port_set st then (st, [])
  else
    match ss_result st with
    | Some r => (st, fire_callback f r)
    | None => (mkShared None f (ss_fixed_port st) (ss_fixed_port_set st) (ss_msg_id st), [])
    end.

(** [on_complete] with a port. *)
Definition on_complete_port (p : option Z) (st : SharedState) : bool * SharedState * Invocations :=
  if ss_fixed_port_set st || bool_decide (is_Some (ss_callback st)) then (false, st, [])
  else
    match ss_result st with
    | Some r => (true, st, fire_port p r)
    | None => (true, mkShared None (ss_callback st) p true (ss_msg_id st), [])
    end.

(** ** Histories of one receipt *)

Inductive ReceiptOp :=
| RResolve (r : Outcome)
| RCancel
| RCallback (f : option Z)
| RPort (p : option Z).

Definition receipt_step (st : SharedState) (op : ReceiptOp) : SharedState * Invocations :=
  match op with
  | RResolve r => ss_resolve r st
  | RCancel => receipt_cancel st
  | RCallback f => on_complete_callback f st
  | RPort p => let '(_, st, inv) := on_complete_port p st in (st, inv)
  end.

Fixpoint receipt_run (st : SharedState) (ops : list ReceiptOp) : SharedState * Invocations :=
  match ops with
  | [] => (st, [])
  | op :: ops =>
      let '(st, inv) := receipt_step st op in
      let '(st, inv') := receipt_run st ops in (st, inv ++ inv')
  end.

(** What settles the receipt: its first resolution or cancellation. *)
Fixpoint settled_by (msg_id : Z) (ops : list ReceiptOp) : option Outcome :=
  match ops with
  | [] => None
  | RResolve r :: _ => Some r
  | RCancel :: _ => Some (mkOutcome (ds_value DS_Cancelled) msg_id)
  | _ :: ops => settled_by msg_id ops
  end.

(** Registrations of a port that [on_complete] accepted, and registrations of a
    callback that were not refused. *)
Definition accepts (st : SharedState) (l : Listener) (op : ReceiptOp) : bool :=
  match op, l with
  | RPort (Some p), LPort q => (p =? q) && (on_complete_port (Some p) st).1.1
  | RCallback (Some f), LCallback g => (f =? g) && negb (ss_fixed_port_set st)
  | _, _ => false
  end.
Fixpoint registered (l : Listener) (st : SharedState) (ops : list ReceiptOp) : nat :=
  match ops with
  | [] => 0
  | op :: ops => Nat.b2n (accepts st l op) + registered l (receipt_step st op).1 ops
  end.

Definition calls_of (l : Listener) (inv : Invocations) : nat :=
  length (List.filter (fun e => bool_decide (e.1 = l)) inv).

(** A listener waits for the result. *)
Definition waiting (st : SharedState) (l : Listener) : nat :=
  Nat.b2n (match ss_result st, l with
           | Some _, _ => false
           | None, LPort p => ss_fixed_port_set st && bool_decide (ss_fixed_port st = Some p)
           | None, LCallback f => bool_decide (ss_callback st = Some f)
           end).

(** At most one kind of listener is installed, and none on a settled receipt. *)
Definition shared_ok (st : SharedState) : Prop :=
  match ss_result st with
  | Some _ => ss_callback st = None /\ ss_fixed_port_set st = false
  | None =>
      if ss_fixed_port_set st then ss_callback st = None else ss_fixed_port st = None
  end.

Lemma calls_of_app l a b : calls_of l (a ++ b) = (calls_of l a + calls_of l b)%nat.
Proof. unfold calls_of. by rewrite List.filter_app, length_app. Qed.

Lemma receipt_step_ok st op : shared_ok st -> shared_ok (receipt_step st op).1.
Proof.
  destruct st as [[r0|] [c|] port [|] mid], op as [r| |f|p]; unfold shared_ok; simpl; naive_solver.
Qed.

Lemma calls_port q p r : calls_of (LPort q) (fire_port p r) = Nat.b2n (bool_decide (p = Some q)).
Proof. destruct p as [p|]; [|done]. unfold calls_of. simpl. repeat case_bool_decide; naive_solver. Qed.
Lemma calls_back g f r : calls_of (LCallback g) (fire_callback f r) = Nat.b2n (bool_decide (f = Some g)).
Proof. destruct f as [f|]; [|done]. unfold calls_of. simpl. repeat case_bool_decide; naive_solver. Qed.
Lemma calls_port_back q f r : calls_of (LPort q) (fire_callback f r) = 0%nat.
Proof. by destruct f. Qed.
Lemma calls_back_port g p r : calls_of (LCallback g) (fire_port p r) = 0%nat.
Proof. by destruct p. Qed.
Lemma calls_nil l : calls_of l [] = 0%nat.
Proof. done. Qed.
#[local] Hint Rewrite calls_nil calls_of_app calls_port calls_back calls_port_back calls_back_port : calls.

Lemma bool_decide_Some_eqb (x y : Z) : bool_decide (Some x = Some y) = (x =? y).
Proof. case_bool_decide; destruct (x =? y) eqn:E; bool_to_prop; naive_solver. Qed.

#[local] Arguments fire_callback : simpl never.
#[local] Arguments fire_port : simpl never.

(** Each step: what was waiting or is accepted now has been called or waits;
    a callback that is replaced is dropped. *)
Lemma receipt_step_calls st op l :
  shared_ok st ->
  match l with
  | LPort _ => (waiting st l + Nat.b2n (accepts st l op) =
      calls_of l (receipt_step st op).2 + waiting (receipt_step st op).1 l)%nat
  | LCallback _ => (calls_of l (receipt_step st op).2 + waiting (receipt_step st op).1 l <=
      waiting st l + Nat.b2n (accepts st l op))%nat
  end.
Proof.
  destruct st as [res cb port set mid]. unfold shared_ok, waiting. simpl. intros Hok.
  destruct op as [r| |f|p].
  - unfold receipt_step, ss_resolve. simpl. destruct l as [g|q], res as [r0|]; simpl; autorewrite with calls; try lia;
      destruct set; simpl; subst; simpl; lia.
  - unfold receipt_step, receipt_cancel. simpl. destruct l as [g|q], res as [r0|]; simpl; autorewrite with calls; try lia;
      destruct set; simpl; subst; simpl; lia.
  - unfold receipt_step, on_complete_callback. simpl. destruct set; simpl; [destruct l, f; simpl; autorewrite with calls; rewrite ?andb_false_r; simpl; lia|].
    destruct l as [g|q], res as [r0|], f as [f|]; simpl; autorewrite with calls; rewrite ?bool_decide_Some_eqb, ?andb_true_r; simpl; lia.
  - unfold receipt_step, accepts, on_complete_port. simpl. destruct set; simpl.
    { destruct l, p; simpl; autorewrite with calls; rewrite ?andb_false_r; simpl; lia. }
    destruct cb as [c|]; simpl; [destruct l, p; simpl; autorewrite with calls; rewrite ?andb_false_r; simpl; lia|].
    destruct l as [g|q], res as [r0|], p as [p|]; simpl; autorewrite with calls; rewrite ?bool_decide_Some_eqb, ?andb_true_r; simpl; lia.
Qed.

(** ** The contract *)

Lemma receipt_step_settles st op :
  ss_result (receipt_step st op).1 =
    match ss_result st with Some r => Some r | None => settled_by (ss_msg_id st) [op] end /\
  (ss_result st = None -> ss_result (receipt_step st op).1 = None ->
     ss_msg_id (receipt_step st op).1 = ss_msg_id st) /\
  Forall (fun e => Some e.2 = ss_result (receipt_step st op).1) (receipt_step st op).2.
Proof.
  destruct st as [res cb port set mid], op as [r| |f|p]; simpl.
  - unfold ss_resolve. simpl. destruct res; simpl; (split; [done|]; split; [done|]); [constructor|].
    apply Forall_app. destruct port, cb; simpl; by repeat constructor.
  - unfold receipt_cancel. simpl. destruct res; simpl; (split; [done|]; split; [done|]); [constructor|].
    apply Forall_app. destruct port, cb; simpl; by repeat constructor.
  - unfold on_complete_callback. simpl. destruct set, res, f; simpl; (split; [done|]; split; [done|]); by repeat constructor.
  - unfold on_complete_port. simpl. destruct set, cb, res, p; simpl; (split; [done|]; split; [done|]); by repeat constructor.
Qed.

Lemma settled_by_step mid op ops :
  settled_by mid (op :: ops) = match settled_by mid [op] with Some r => Some r | None => settled_by mid ops end.
Proof. by destruct op. Qed.

Lemma receipt_run_settles ops : forall st,
  ss_result (receipt_run st ops).1 =
    match ss_result st with Some r => Some r | None => settled_by (ss_msg_id st) ops end /\
  Forall (fun e => Some e.2 = ss_result (receipt_run st ops).1) (receipt_run st ops).2.
Proof.
  induction ops as [|op ops IH]; intros st; [simpl; by destruct (ss_result st)|].
  cbn [receipt_run]. rewrite settled_by_step.
  destruct (receipt_step_settles st op) as (H1 & H2 & H3). specialize (IH (receipt_step st op).1).
  destruct (receipt_step st op) as [st1 inv1]. cbn [fst snd] in *. destruct IH as [I1 I2].
  destruct (receipt_run st1 ops) as [st2 inv2]. cbn [fst snd] in *.
  assert (Hr : ss_result st2 = match ss_result st with Some r => Some r | None =>
    match settled_by (ss_msg_id st) [op] with Some r => Some r | None => settled_by (ss_msg_id st) ops end end).
  { rewrite I1, H1. destruct (ss_result st) eqn:Er; [done|]. rewrite H1 in H2.
    destruct (settled_by (ss_msg_id st) [op]) eqn:Es; [done|]. rewrite H2 by done. done. }
  split; [done|]. apply Forall_app. split; [|done]. eapply Forall_impl; [exact H3|]. intros e He.
  rewrite I1, <- He. done.
Qed.

Lemma receipt_run_calls ops l : forall st,
  shared_ok st ->
  match l with
  | LPort _ => (waiting st l + registered l st ops =
      calls_of l (receipt_run st ops).2 + waiting (receipt_run st ops).1 l)%nat
  | LCallback _ => (calls_of l (receipt_run st ops).2 + waiting (receipt_run st ops).1 l <=
      waiting st l + registered l st ops)%nat
  end.
Proof.
  induction ops as [|op ops IH]; intros st Hok; simpl.
  { destruct l; change (calls_of _ []) with 0%nat; lia. }
  pose proof (receipt_step_calls st op l Hok) as Hs. pose proof (IH _ (receipt_step_ok st op Hok)) as Hi. clear IH.
  destruct (receipt_step st op) as [st1 inv1]. simpl in *.
  destruct (receipt_run st1 ops) as [st2 inv2]. simpl in *. rewrite calls_of_app. destruct l; lia.
Qed.

(** A receipt has the result of its first resolution or cancellation, for
    good; every invocation carries that result; once it is settled every port
    that was accepted has been invoked exactly once per registration, and a
    callback at most once per registration. *)
Theorem receipt_settles_once msg_id ops :
  let '(st, inv) := receipt_run (shared_init msg_id) ops in
  ss_result st = settled_by msg_id ops /\
  Forall (fun e => Some e.2 = settled_by msg_id ops) inv /\
  (is_Some (settled_by msg_id ops) ->
     forall p, calls_of (LPort p) inv = registered (LPort p) (shared_init msg_id) ops) /\
  (forall f, (calls_of (LCallback f) inv <= registered (LCallback f) (shared_init msg_id) ops)%nat).
Proof.
  destruct (receipt_run_settles ops (shared_init msg_id)) as [H1 H2].
  pose proof (fun l => receipt_run_calls ops l (shared_init msg_id) eq_refl) as Hc.
  destruct (receipt_run (shared_init msg_id) ops) as [st inv]. simpl in *. rewrite H1 in H2.
  split; [done|]. split; [done|]. split.
  - intros [r Hr] p. specialize (Hc (LPort p)). simpl in Hc. unfold waiting in Hc. rewrite H1, Hr in Hc. simpl in Hc.
    lia.
  - intros f. specialize (Hc (LCallback f)). simpl in Hc. change (waiting (shared_init msg_id) (LCallback f)) with 0%nat in Hc. lia.
Qed.

(** Not vacuous: a port registered twice, the second time refused, fires once. *)
Example receipt_port_once :
  receipt_run (shared_init 7) [RPort (Some 1); RPort (Some 2); RCallback (Some 3); RCancel; RResolve (mkOutcome 0 7); RPort (Some 4)] =
  (mkShared (Some (mkOutcome 12 7)) None (Some 1) false 7, [(LPort 1, mkOutcome 12 7); (LPort 4, mkOutcome 12 7)]).
Proof. reflexivity. Qed.
