(* ===== verification/Reliable.v ===== *)
(** * Tracked sends: retry policy and outbound delivery tracker

    [msg/retry_policy.hpp], [msg/outbound_delivery_tracker.hpp],
    [msg/outbound_delivery_tracker.cpp]: the sends that wait for an
    acknowledgement, their receipts and the retry loop.  The hash map of pending
    sends is a [gmap]; the order of its iterators is an argument of the
    operations that walk it.  The receipts' shared states are a heap keyed by
    the message id, which both the tracker and the holder of a receipt reach.
    The percentage the jitter draws is an argument as well. *)

From S2P Require Import Prelude DeliveryTypes Receipts.
From stdpp Require Import base numbers list gmap.

#[local] Open Scope Z_scope.

(** ** Retry policy *)

Inductive RetryBackoff := RB_Fixed | RB_Linear | RB_Exponential.

Record RetryPolicy := mkRetryPolicy {
  max_attempts : Z;               (* uint8 *)
  per_attempt_timeout : Z;        (* milliseconds, int64 *)
  initial_backoff : Z;
  max_backoff : Z;
  rp_backoff : RetryBackoff;
  jitter : bool
}.
Definition retry_default : RetryPolicy := mkRetryPolicy 1 5000 100 30000 RB_Exponential true.
Definition retry_enabled (p : RetryPolicy) : bool := 1 <? max_attempts p.

(** The delay before the cap.  Shifting by 64 or more and overflowing the
    product are undefined in C++; the machine shifts modulo 64 and wraps. *)
Definition backoff_base (p : RetryPolicy) (attempt : Z) : Z :=
  match rp_backoff p with
  | RB_Fixed => initial_backoff p
  | RB_Linear => i64 (initial_backoff p * attempt)
  | RB_Exponential => i64 (initial_backoff p * i64 (Z.shiftl 1 ((attempt - 1) mod 64)))
  end.

(** [backoff_delay]; [pct] is the jitter drawn, from -25 to 25. *)
Definition backoff_delay (p : RetryPolicy) (attempt pct : Z) : Z :=
  let base := backoff_base p attempt in
  let base := if max_backoff p <? base then max_backoff p else base in
  if jitter p && (0 <? base) then
    let base := i64 (base + Z.quot (i64 (base * pct)) 100) in
    if base <? 1 then 1 else base
  else base.

(** The delay in exact arithmetic. *)
Definition backoff_exact (p : RetryPolicy) (attempt : Z) : Z :=
  match rp_backoff p with
  | RB_Fixed => initial_backoff p
  | RB_Linear => initial_backoff p * attempt
  | RB_Exponential => initial_backoff p * 2 ^ (attempt - 1)
  end.

(** As long as the uncapped delay fits an int64, the delay is that value capped,
    give or take a quarter with jitter. *)
Theorem backoff_bounds p attempt pct :
  0 <= initial_backoff p -> 0 <= max_backoff p <= 2 ^ 57 -> 1 <= attempt <= 255 -> -25 <= pct <= 25 ->
  (rp_backoff p = RB_Exponential -> attempt <= 63) -> backoff_exact p attempt <= INT64_MAX ->
  let base := Z.min (backoff_exact p attempt) (max_backoff p) in
  base - base / 4 <= backoff_delay p attempt pct <= base + base / 4 /\
  (jitter p = false -> backoff_delay p attempt pct = base) /\
  (0 < base -> 0 < backoff_delay p attempt pct).
Proof.
  intros Hi Hm Ha Hpct Hexp Hfit. cbv zeta.
  assert (Hb : backoff_base p attempt = backoff_exact p attempt).
  { unfold backoff_base, backoff_exact in *. destruct (rp_backoff p); [done|apply i64_small; unfold INT64_MAX, INT64_MIN in *; nia|].
    specialize (Hexp eq_refl). rewrite Z.mod_small, Z.shiftl_1_l by lia.
    assert (0 < 2 ^ (attempt - 1) <= 2 ^ 62) by (split; [lia|apply Z.pow_le_mono_r; lia]).
    rewrite (i64_small (2 ^ _)) by (unfold INT64_MAX, INT64_MIN in *; lia).
    apply i64_small. unfold INT64_MAX, INT64_MIN in *. nia. }
  assert (Hnn : 0 <= backoff_exact p attempt).
  { unfold backoff_exact. destruct (rp_backoff p); [done|nia|]. assert (0 < 2 ^ (attempt - 1)) by lia. nia. }
  unfold backoff_delay. rewrite Hb. cbv zeta.
  replace (if max_backoff p <? _ then _ else _) with (Z.min (backoff_exact p attempt) (max_backoff p))
    by (destruct (max_backoff p <? backoff_exact p attempt) eqn:E; bool_to_prop; lia).
  set (base := Z.min _ _). assert (Hbase : 0 <= base <= 2 ^ 57) by lia.
  destruct (jitter p) eqn:Ej; simpl andb; [|split; [Z.to_euclidean_division_equations; lia|split; [done|lia]]].
  destruct (0 <? base) eqn:E0; bool_to_prop; [|split; [Z.to_euclidean_division_equations; lia|split; [done|lia]]].
  rewrite (i64_small (base * pct)) by (unfold INT64_MAX, INT64_MIN; nia).
  assert (Hq : - (base / 4) <= Z.quot (base * pct) 100 <= base / 4).
  { assert (- (base * 25) <= base * pct <= base * 25) by nia. Z.to_euclidean_division_equations; lia. }
  assert (base / 4 < base) by (Z.to_euclidean_division_equations; lia).
  rewrite i64_small by (unfold INT64_MAX, INT64_MIN; lia). rewrite (proj2 (Z.ltb_ge _ 1)) by lia.
  split; [lia|]. split; [done|lia].
Qed.

Lemma backoff_bounds_witness : backoff_delay retry_default 3 10 = 440 /\ 300 <= backoff_delay retry_default 3 (-25) <= 500.
Proof.
  split; [by vm_compute|].
  destruct (backoff_bounds retry_default 3 (-25)) as [H _]; [by vm_compute|by vm_compute|lia|lia|lia|by vm_compute|].
  exact H.
Defined.

(** Past that the product wraps: the delay of the 58th retry is negative. *)
Lemma backoff_overflows : backoff_delay retry_default 58 0 < 0.
Proof. by vm_compute. Qed.

(** ** The tracker *)

Section Tracker.
Context {EndPoint Frame : Type} `{EqDecision EndPoint}.

Record PendingSend := mkPending {
  ps_msg_id : Z;
  ps_frame : Frame;
  ps_remote : EndPoint;
  ps_policy : RetryPolicy;
  ps_retry_count : Z;       (* uint8 *)
  ps_deadline_ns : Z;
  ps_next_retry_ns : Z;     (* 0: waiting for the first timeout *)
  ps_retry_after_ms : Z
}.

Inductive ReliableMetric :=
| kReliableTracked | kReliableAckReceived | kReliableNackReceived | kReliableRetry | kReliableExhausted
| kReliableCancelled.

(** The tracker, the receipts it shares, and what happened: resends in order,
    invocations of completion listeners, metric events. *)
Record Tracker := mkTracker {
  pending : gmap Z PendingSend;
  next_msg_id : Z;
  receipts : gmap Z SharedState;
  resent : list Z;
  invoked : list (Z * Invocations);
  t_metrics : list (ReliableMetric * Z)
}.

Definition rt_init : Tracker := mkTracker ∅ 1 ∅ [] [] [].

Definition set_pending (t : Tracker) (m : gmap Z PendingSend) : Tracker :=
  mkTracker m (next_msg_id t) (receipts t) (resent t) (invoked t) (t_metrics t).
Definition emit_metric (t : Tracker) (m : ReliableMetric) (code : Z) : Tracker :=
  mkTracker (pending t) (next_msg_id t) (receipts t) (resent t) (invoked t) (t_metrics t ++ [(m, code)]).
Definition resend_callback (t : Tracker) (ps : PendingSend) : Tracker :=
  mkTracker (pending t) (next_msg_id t) (receipts t) (resent t ++ [ps_msg_id ps]) (invoked t) (t_metrics t).

(** An operation on the shared state of a receipt. *)
Definition on_receipt (t : Tracker) (id : Z) (op : ReceiptOp) : Tracker :=
  match receipts t !! id with
  | None => t
  | Some st =>
      let '(st, inv) := receipt_step st op in
      mkTracker (pending t) (next_msg_id t) (<[id := st]> (receipts t)) (resent t)
        (invoked t ++ [(id, inv)]) (t_metrics t)
  end.

(** [track]. *)
Definition track (t : Tracker) (frame : Frame) (remote : EndPoint) (policy : RetryPolicy) (deadline_ns : Z)
  : Z * Tracker :=
  let raw_id := next_msg_id t in
  let ps := mkPending raw_id frame remote policy 0 deadline_ns 0 0 in
  (* [emplace] keeps an entry that is already there *)
  let pend := match pending t !! raw_id with Some _ => pending t | None => <[raw_id := ps]> (pending t) end in
  let t := mkTracker pend (u64 (raw_id + 1)) (<[raw_id := shared_init raw_id]> (receipts t))
             (resent t) (invoked t) (t_metrics t) in
  (raw_id, emit_metric t kReliableTracked 0).

(** [resolve]. *)
Definition t_resolve (t : Tracker) (id : Z) (status : Z) : Tracker :=
  match pending t !! id with
  | None => t
  | Some _ => on_receipt (set_pending t (delete id (pending t))) id (RResolve (mkOutcome status id))
  end.

Definition on_ack (t : Tracker) (id : Z) : Tracker :=
  emit_metric (t_resolve t id (ds_value DS_Accepted)) kReliableAckReceived (ds_value DS_Accepted).

Definition is_retryable_nack (status : Z) : bool := status =? ds_value DS_MailboxFull.

(** [on_nack]; the reason is truncated to the byte of the enumeration. *)
Definition on_nack (t : Tracker) (id reason_code retry_after_ms : Z) : Tracker :=
  let status := u8 reason_code in
  if status =? ds_value DS_Duplicate then on_ack t id
  else
    match pending t !! id with
    | None => t
    | Some ps =>
        let t := emit_metric t kReliableNackReceived status in
        if is_retryable_nack status then
          set_pending t (<[id := mkPending (ps_msg_id ps) (ps_frame ps) (ps_remote ps) (ps_policy ps)
                                   (ps_retry_count ps) (ps_deadline_ns ps) 1 retry_after_ms]> (pending t))
        else on_receipt (set_pending t (delete id (pending t))) id (RResolve (mkOutcome status id))
    end.

(** What the retry loop does with one entry. *)
Inductive Verdict := VGiveUp (status : Z) | VResend (ps : PendingSend) | VKeep (ps : PendingSend).

Definition retry_verdict (now : Z) (pct : Z) (ps : PendingSend) : Verdict :=
  let expired := (0 <? ps_deadline_ns ps) && (ps_deadline_ns ps <=? now) in
  let with_next ps count next :=
    mkPending (ps_msg_id ps) (ps_frame ps) (ps_remote ps) (ps_policy ps) count (ps_deadline_ns ps) next
      (ps_retry_after_ms ps) in
  if (0 <? ps_next_retry_ns ps) && (ps_next_retry_ns ps <=? now) then
    if (max_attempts (ps_policy ps) <=? ps_retry_count ps + 1) || expired then
      VGiveUp (if expired then ds_value DS_Expired else ds_value DS_TransportError)
    else
      let count := u8 (ps_retry_count ps + 1) in
      let delay_ns :=
        if 0 <? ps_retry_after_ms ps then u64 (ps_retry_after_ms ps * 1000000)
        else u64 (u64 (backoff_delay (ps_policy ps) count pct) * 1000000) in
      VResend (with_next ps count (u64 (now + delay_ns)))
  else if (ps_next_retry_ns ps =? 0) && (0 <? per_attempt_timeout (ps_policy ps)) then
    if expired then VGiveUp (ds_value DS_Expired)
    else VKeep (with_next ps (ps_retry_count ps)
                  (u64 (now + u64 (u64 (per_attempt_timeout (ps_policy ps)) * 1000000))))
  else VKeep ps.

(** The body of the loop for the entry [id]; the second component collects what
    is resolved after the lock is released. *)
Definition retry_one (now : Z) (pct : Z -> Z) (s : Tracker * list (Z * Z)) (id : Z) : Tracker * list (Z * Z) :=
  let '(t, to_resolve) := s in
  match pending t !! id with
  | None => s
  | Some ps =>
      match retry_verdict now (pct id) ps with
      | VGiveUp status =>
          (set_pending (emit_metric t kReliableExhausted (ps_retry_count ps)) (delete id (pending t)),
           to_resolve ++ [(id, status)])
      | VResend ps' =>
          (resend_callback (emit_metric (set_pending t (<[id := ps']> (pending t))) kReliableRetry (ps_retry_count ps')) ps',
           to_resolve)
      | VKeep ps' => (set_pending t (<[id := ps']> (pending t)), to_resolve)
      end
  end.

Definition resolve_all (t : Tracker) (l : list (Z * Z)) : Tracker :=
  fold_left (fun t e => on_receipt t e.1 (RResolve (mkOutcome e.2 e.1))) l t.

(** [process_retries]. *)
Definition process_retries (t : Tracker) (now : Z) (pct : Z -> Z) (order : list Z) : Tracker :=
  let '(t, to_resolve) := fold_left (retry_one now pct) order (t, []) in
  resolve_all t to_resolve.

(** [cancel_endpoint]. *)
Definition cancel_one (ep : EndPoint) (reason : Z) (s : Tracker * list (Z * Z)) (id : Z) : Tracker * list (Z * Z) :=
  let '(t, to_resolve) := s in
  match pending t !! id with
  | None => s
  | Some ps =>
      if bool_decide (ps_remote ps = ep)
      then (set_pending t (delete id (pending t)), to_resolve ++ [(id, reason)])
      else s
  end.

Definition cancel_endpoint (t : Tracker) (ep : EndPoint) (reason : Z) (order : list Z) : Tracker :=
  let '(t, to_resolve) := fold_left (cancel_one ep reason) order (t, []) in
  let t := resolve_all t to_resolve in
  if 0 <? zlen to_resolve then emit_metric t kReliableCancelled (Z.min 255 (zlen to_resolve)) else t.

(** [cancel]. *)
Definition t_cancel (t : Tracker) (id : Z) : Tracker :=
  emit_metric (t_resolve t id (ds_value DS_Cancelled)) kReliableCancelled 0.

Definition t_pending (t : Tracker) : Z := Z.of_nat (size (pending t)).

(** ** Histories *)

Inductive TOp :=
| TTrack (frame : Frame) (remote : EndPoint) (policy : RetryPolicy) (deadline_ns : Z)
| TAck (id : Z)
| TNack (id reason_code retry_after_ms : Z)
| TTick (now : Z) (pct : Z -> Z) (order : list Z)
| TCancelEndpoint (ep : EndPoint) (reason : Z) (order : list Z)
| TCancel (id : Z)
| TReceipt (id : Z) (op : ReceiptOp).

Definition t_step (t : Tracker) (op : TOp) : Tracker :=
  match op with
  | TTrack frame remote policy deadline_ns => (track t frame remote policy deadline_ns).2
  | TAck id => on_ack t id
  | TNack id code after => on_nack t id code after
  | TTick now pct order => process_retries t now pct order
  | TCancelEndpoint ep reason order => cancel_endpoint t ep reason order
  | TCancel id => t_cancel t id
  | TReceipt id op => on_receipt t id op
  end.
Definition t_run (t : Tracker) (ops : list TOp) : Tracker := fold_left t_step ops t.

(** ** What holds in every reachable state *)

Definition resends (t : Tracker) (id : Z) : Z := zlen (List.filter (Z.eqb id) (resent t)).

Definition policy_ok (p : RetryPolicy) : Prop := 0 <= max_attempts p <= 255.
Definition budget (p : RetryPolicy) : Z := Z.max 0 (max_attempts p - 1).

(** The policies of the tracked sends, in order: send [i] has the id [i + 1]. *)
Definition policies_of (ops : list TOp) : list RetryPolicy :=
  omap (fun op => match op with TTrack _ _ policy _ => Some policy | _ => None end) ops.
Definition policy_at (pols : list RetryPolicy) (id : Z) : option RetryPolicy :=
  if 1 <=? id then pols !! Z.to_nat (id - 1) else None.

Definition pending_ok (pols : list RetryPolicy) (t : Tracker) (id : Z) (ps : PendingSend) : Prop :=
  ps_msg_id ps = id /\ policy_at pols id = Some (ps_policy ps) /\ 0 <= ps_retry_count ps <= budget (ps_policy ps) /\
  resends t id = ps_retry_count ps.

(** [open]: the ids whose receipt the running operation is about to resolve. *)
Record tracker_inv (pols : list RetryPolicy) (open : list Z) (t : Tracker) : Prop := {
  ti_next : next_msg_id t = 1 + zlen pols;
  ti_pending : forall id ps, pending t !! id = Some ps -> pending_ok pols t id ps;
  ti_budget : forall id p, policy_at pols id = Some p -> resends t id <= budget p;
  ti_fresh : forall id, policy_at pols id = None -> resends t id = 0;
  ti_receipt : forall id p, policy_at pols id = Some p ->
    exists st, receipts t !! id = Some st /\ (pending t !! id = None -> id ∈ open \/ is_Some (ss_result st))
}.

Lemma policy_at_app pols p id :
  policy_at (pols ++ [p]) id =
  if id =? 1 + zlen pols then Some p else policy_at pols id.
Proof.
  unfold policy_at, zlen. destruct (id =? 1 + Z.of_nat (length pols)) eqn:E; bool_to_prop.
  - subst id. rewrite (proj2 (Z.leb_le _ _)) by lia. replace (Z.to_nat _) with (length pols) by lia.
    by rewrite list_lookup_middle.
  - destruct (1 <=? id) eqn:E1; bool_to_prop; [|done].
    destruct (decide (id - 1 < Z.of_nat (length pols))).
    + by rewrite lookup_app_l by lia.
    + rewrite !lookup_ge_None_2; [done| |rewrite length_app; simpl]; lia.
Qed.

Lemma policy_at_range pols id p : policy_at pols id = Some p -> 1 <= id <= zlen pols.
Proof.
  unfold policy_at. destruct (1 <=? id) eqn:E; [|done]. bool_to_prop. intros Hl.
  apply lookup_lt_Some in Hl. unfold zlen. lia.
Qed.

Lemma receipt_step_keeps st op : is_Some (ss_result st) -> ss_result (receipt_step st op).1 = ss_result st.
Proof. intros [r Hr]. destruct (receipt_step_settles st op) as (-> & _). by rewrite Hr. Qed.

(** Operations on receipts leave the rest of the tracker alone. *)
Lemma on_receipt_frame t id op :
  pending (on_receipt t id op) = pending t /\ next_msg_id (on_receipt t id op) = next_msg_id t /\
  resent (on_receipt t id op) = resent t.
Proof. unfold on_receipt. destruct (_ !! _); [|done]. by destruct (receipt_step _ _). Qed.

Lemma on_receipt_lookup t id op k st :
  receipts t !! k = Some st ->
  receipts (on_receipt t id op) !! k = Some (if decide (k = id) then (receipt_step st op).1 else st).
Proof.
  intros Hk. unfold on_receipt. destruct (receipts t !! id) eqn:Hid; case_decide; try congruence.
  - subst k. rewrite Hk in Hid. injection Hid as <-. destruct (receipt_step st op) eqn:E. apply lookup_insert_eq.
  - destruct (receipt_step s op) eqn:E. simpl. by rewrite lookup_insert_ne.
Qed.

Lemma on_receipt_inv pols open t id op : tracker_inv pols open t -> tracker_inv pols open (on_receipt t id op).
Proof.
  intros [H1 H2 H3 H4 H5]. destruct (on_receipt_frame t id op) as (Fp & Fn & Fr).
  split; unfold pending_ok, resends in *; rewrite ?Fp, ?Fn, ?Fr; try done.
  intros k p Hp. destruct (H5 k p Hp) as (st & Hst & Hres). eexists. split; [by apply on_receipt_lookup|].
  intros Hn. destruct (Hres Hn) as [|Hs]; [by left|right]. case_decide; [|done]. by rewrite receipt_step_keeps.
Qed.

(** Resolving closes the id. *)
Lemma resolve_inv pols open t id status :
  tracker_inv pols (id :: open) t -> tracker_inv pols open (on_receipt t id (RResolve (mkOutcome status id))).
Proof.
  intros Hinv. pose proof (on_receipt_inv _ _ _ id (RResolve (mkOutcome status id)) Hinv) as [H1 H2 H3 H4 H5].
  split; try done. intros k p Hp. destruct (H5 k p Hp) as (st & Hst & Hres). exists st. split; [done|].
  intros Hn. destruct (Hres Hn) as [[->|]%elem_of_cons|]; [|by left|by right]. right.
  destruct (ti_receipt _ _ _ Hinv id p Hp) as (st0 & Hst0 & _).
  rewrite (on_receipt_lookup _ _ _ _ _ Hst0) in Hst. rewrite decide_True in Hst by done. injection Hst as <-.
  cbn. unfold ss_resolve. destruct (ss_result st0) eqn:E; simpl; rewrite ?E; by eexists.
Qed.

Lemma resolve_all_inv l : forall pols open t,
  tracker_inv pols (l.*1 ++ open) t -> tracker_inv pols open (resolve_all t l).
Proof.
  induction l as [|[id status] l IH]; intros pols open t Hinv; [done|].
  apply IH. by apply resolve_inv.
Qed.

(** Dropping a pending send opens its id. *)
Lemma drop_inv pols open t id :
  tracker_inv pols open t -> tracker_inv pols (id :: open) (set_pending t (delete id (pending t))).
Proof.
  intros [H1 H2 H3 H4 H5]. split; try done.
  - intros k ps Hk. apply H2. simpl in Hk. by apply lookup_delete_Some in Hk as [_ Hk].
  - intros k p Hp. destruct (H5 k p Hp) as (st & Hst & Hres). exists st. split; [done|]. simpl.
    intros Hn. destruct (decide (k = id)) as [->|Hne]; [left; left|].
    rewrite lookup_delete_ne in Hn by done. destruct (Hres Hn); [left; by right|by right].
Qed.

Lemma emit_inv pols open t m c : tracker_inv pols open t -> tracker_inv pols open (emit_metric t m c).
Proof. intros [H1 H2 H3 H4 H5]. by split. Qed.

Lemma open_perm pols open open' t : open ≡ₚ open' -> tracker_inv pols open t -> tracker_inv pols open' t.
Proof.
  intros Hp [H1 H2 H3 H4 H5]. split; try done. intros k p Hk. destruct (H5 k p Hk) as (st & Hst & Hres).
  exists st. split; [done|]. by setoid_rewrite <- Hp.
Qed.

(** The verdict keeps the identity of the send and stays in its budget. *)
Lemma verdict_ok now pct ps :
  policy_ok (ps_policy ps) -> 0 <= ps_retry_count ps <= budget (ps_policy ps) ->
  match retry_verdict now pct ps with
  | VGiveUp _ => True
  | VResend ps' => ps_msg_id ps' = ps_msg_id ps /\ ps_policy ps' = ps_policy ps /\
      ps_retry_count ps' = ps_retry_count ps + 1 /\ ps_retry_count ps + 1 <= budget (ps_policy ps)
  | VKeep ps' => ps_msg_id ps' = ps_msg_id ps /\ ps_policy ps' = ps_policy ps /\
      ps_retry_count ps' = ps_retry_count ps
  end.
Proof.
  unfold policy_ok, budget. intros Hp Hc. unfold retry_verdict. cbv zeta.
  destruct ((0 <? ps_next_retry_ns ps) && _).
  - destruct ((max_attempts (ps_policy ps) <=? _) || _) eqn:E; [done|]. bool_to_prop. simpl.
    rewrite u8_small by lia. repeat split; lia.
  - destruct ((ps_next_retry_ns ps =? 0) && _); [|done]. by destruct ((0 <? ps_deadline_ns ps) && _).
Qed.

(** Updating a pending send in place. *)
Lemma keep_inv pols open t id ps ps' :
  tracker_inv pols open t -> pending t !! id = Some ps -> ps_msg_id ps' = ps_msg_id ps ->
  ps_policy ps' = ps_policy ps -> ps_retry_count ps' = ps_retry_count ps ->
  tracker_inv pols open (set_pending t (<[id := ps']> (pending t))).
Proof.
  intros [H1 H2 H3 H4 H5] Hid Hm Hp Hc. split; try done.
  - intros k q Hk. simpl in Hk. apply lookup_insert_Some in Hk as [[<- <-]|[_ Hk]]; [|by apply H2].
    destruct (H2 id ps Hid) as (A1 & A2 & A3 & A4). unfold pending_ok. rewrite Hm, Hp, Hc. done.
  - intros k p Hk. destruct (H5 k p Hk) as (st & Hst & Hres). exists st. split; [done|]. simpl. intros Hn.
    apply Hres. by apply lookup_insert_None in Hn as [Hn _].
Qed.

Lemma resends_resend t ps id :
  resends (resend_callback t ps) id = resends t id + (if ps_msg_id ps =? id then 1 else 0).
Proof.
  unfold resends. simpl. rewrite List.filter_app, zlen_app. simpl. rewrite (Z.eqb_sym id).
  by destruct (ps_msg_id ps =? id).
Qed.

Lemma resend_inv pols open t id ps ps' :
  tracker_inv pols open t -> pending t !! id = Some ps -> ps_msg_id ps' = ps_msg_id ps ->
  ps_policy ps' = ps_policy ps -> ps_retry_count ps' = ps_retry_count ps + 1 ->
  ps_retry_count ps + 1 <= budget (ps_policy ps) ->
  tracker_inv pols open (resend_callback (set_pending t (<[id := ps']> (pending t))) ps').
Proof.
  intros [H1 H2 H3 H4 H5] Hid Hm Hp Hc Hb. destruct (H2 id ps Hid) as (A1 & A2 & A3 & A4).
  assert (Hr : forall k, resends (resend_callback (set_pending t (<[id := ps']> (pending t))) ps') k =
    resends t k + (if id =? k then 1 else 0)) by (intros k; rewrite resends_resend, Hm, A1; done).
  split; try done.
  - intros k q Hk. simpl in Hk. unfold pending_ok. rewrite Hr.
    apply lookup_insert_Some in Hk as [[<- <-]|[Hne Hk]].
    + rewrite Z.eqb_refl, Hm, Hp, Hc, A4. split_and!; try done; lia.
    + rewrite (proj2 (Z.eqb_neq _ _)) by done. destruct (H2 k q Hk) as (B1 & B2 & B3 & B4). split_and!; try done; lia.
  - intros k p Hk. rewrite Hr. destruct (id =? k) eqn:E; bool_to_prop; [|pose proof (H3 k p Hk); lia].
    subst k. rewrite A2 in Hk. injection Hk as <-. lia.
  - intros k Hk. rewrite Hr. destruct (id =? k) eqn:E; bool_to_prop; [congruence|]. rewrite (H4 k Hk). lia.
  - intros k p Hk. destruct (H5 k p Hk) as (st & Hst & Hres). exists st. split; [done|]. simpl. intros Hn.
    apply Hres. by apply lookup_insert_None in Hn as [Hn _].
Qed.

Lemma retry_one_inv pols now pct s id :
  Forall policy_ok pols -> tracker_inv pols s.2.*1 s.1 ->
  tracker_inv pols (retry_one now pct s id).2.*1 (retry_one now pct s id).1.
Proof.
  intros Hpols Hinv. destruct s as [t res]. simpl in *. destruct (pending t !! id) as [ps|] eqn:Hid; [|done].
  destruct (ti_pending _ _ _ Hinv id ps Hid) as (A1 & A2 & A3 & A4).
  assert (Hpol : policy_ok (ps_policy ps)).
  { unfold policy_at in A2. destruct (1 <=? id); [|done]. by apply (Forall_lookup_1 _ _ _ _ Hpols A2). }
  pose proof (verdict_ok now (pct id) ps Hpol A3) as Hv. destruct (retry_verdict now (pct id) ps) as [st|ps'|ps']; simpl.
  - rewrite fmap_app. eapply open_perm; [symmetry; apply Permutation_app_comm|]. simpl.
    apply (drop_inv _ _ (emit_metric t _ _)). by apply emit_inv.
  - destruct Hv as (V1 & V2 & V3 & V4). apply (resend_inv pols _ (emit_metric t kReliableRetry (ps_retry_count ps')) id ps);
      [by apply emit_inv|done..].
  - destruct Hv as (V1 & V2 & V3). by apply (keep_inv _ _ _ _ ps).
Qed.

Lemma cancel_one_inv pols ep reason s id :
  tracker_inv pols s.2.*1 s.1 -> tracker_inv pols (cancel_one ep reason s id).2.*1 (cancel_one ep reason s id).1.
Proof.
  intros Hinv. destruct s as [t res]. simpl in *. destruct (pending t !! id) as [ps|]; [|done].
  case_bool_decide; [|done]. simpl. rewrite fmap_app.
  eapply open_perm; [symmetry; apply Permutation_app_comm|]. by apply drop_inv.
Qed.

Lemma walk_inv pols (f : Tracker * list (Z * Z) -> Z -> Tracker * list (Z * Z)) order :
  (forall s id, tracker_inv pols s.2.*1 s.1 -> tracker_inv pols (f s id).2.*1 (f s id).1) ->
  forall s, tracker_inv pols s.2.*1 s.1 -> tracker_inv pols (fold_left f order s).2.*1 (fold_left f order s).1.
Proof. intros Hf. induction order as [|id order IH]; intros s Hs; [done|]. apply IH. by apply Hf. Qed.

Lemma t_resolve_inv pols t id status : tracker_inv pols [] t -> tracker_inv pols [] (t_resolve t id status).
Proof.
  intros Hinv. unfold t_resolve. destruct (pending t !! id); [|done]. by apply resolve_inv, drop_inv.
Qed.

Lemma track_inv pols t frame remote policy deadline :
  tracker_inv pols [] t -> zlen pols < UINT64_MAX - 1 ->
  tracker_inv (pols ++ [policy]) [] (track t frame remote policy deadline).2.
Proof.
  intros [H1 H2 H3 H4 H5] Hlen. unfold track. cbn [snd]. apply emit_inv.
  assert (Hfree : policy_at pols (next_msg_id t) = None).
  { destruct (policy_at pols (next_msg_id t)) eqn:E; [|done]. apply policy_at_range in E. lia. }
  assert (Hnone : pending t !! next_msg_id t = None).
  { destruct (pending t !! next_msg_id t) eqn:E; [|done]. apply H2 in E as (_ & E & _). congruence. }
  rewrite Hnone. pose proof (zlen_nonneg pols). pose proof (H4 _ Hfree) as Hz. split; cbn [next_msg_id pending receipts].
  - rewrite u64_small by (unfold UINT64_MAX in *; lia). rewrite zlen_app. change (zlen [policy]) with 1. lia.
  - intros k ps Hk. unfold pending_ok, resends in *. cbn [resent]. rewrite policy_at_app, <- H1.
    apply lookup_insert_Some in Hk as [[<- <-]|[Hne Hk]].
    + rewrite Z.eqb_refl. simpl. rewrite Hz. split_and!; try done. unfold budget. lia.
    + rewrite (proj2 (Z.eqb_neq k _)) by done. by apply H2.
  - intros k p Hk. unfold resends in *. cbn [resent]. rewrite policy_at_app, <- H1 in Hk.
    destruct (k =? next_msg_id t) eqn:E; bool_to_prop; [|by apply H3]. subst k. rewrite Hz. unfold budget. lia.
  - intros k Hk. unfold resends in *. cbn [resent]. rewrite policy_at_app, <- H1 in Hk.
    destruct (k =? next_msg_id t) eqn:E; [done|]. by apply H4.
  - intros k p Hk. rewrite policy_at_app, <- H1 in Hk. destruct (k =? next_msg_id t) eqn:E; bool_to_prop.
    + subst k. exists (shared_init (next_msg_id t)). split; [apply lookup_insert_eq|]. by rewrite lookup_insert_eq.
    + rewrite !lookup_insert_ne by done. by apply (H5 k p).
Qed.

Lemma t_step_inv pols t op :
  Forall policy_ok pols -> tracker_inv pols [] t -> zlen (pols ++ policies_of [op]) < UINT64_MAX ->
  tracker_inv (pols ++ policies_of [op]) [] (t_step t op).
Proof.
  intros Hpols Hinv Hlen.
  destruct op as [frame remote policy deadline|id|id code after|now pct order|ep reason order|id|id rop];
    [rewrite zlen_app in Hlen; change (zlen (policies_of [_])) with 1 in Hlen; apply track_inv; [done|lia]|..]; (simpl; rewrite app_nil_r).
  - by apply emit_inv, t_resolve_inv.
  - unfold on_nack. cbv zeta. destruct (_ =? ds_value DS_Duplicate); [by apply emit_inv, t_resolve_inv|].
    destruct (pending t !! id) as [ps|] eqn:Hid; [|done]. destruct (is_retryable_nack _).
    + by eapply (keep_inv _ _ (emit_metric t _ _)); [apply emit_inv|exact Hid|..].
    + apply resolve_inv, (drop_inv _ _ (emit_metric t _ _)). by apply emit_inv.
  - unfold process_retries. pose proof (walk_inv pols (retry_one now pct) order
      (fun s id => retry_one_inv pols now pct s id Hpols) (t, []) Hinv) as Hw.
    destruct (fold_left _ _ _) as [t' res]. apply resolve_all_inv. by rewrite app_nil_r.
  - unfold cancel_endpoint. pose proof (walk_inv pols (cancel_one ep reason) order
      (fun s id => cancel_one_inv pols ep reason s id) (t, []) Hinv) as Hw.
    destruct (fold_left _ _ _) as [t' res]. simpl in Hw.
    assert (Hr : tracker_inv pols [] (resolve_all t' res)) by (apply resolve_all_inv; by rewrite app_nil_r).
    destruct (0 <? zlen res); [by apply emit_inv|done].
  - by apply emit_inv, t_resolve_inv.
  - by apply on_receipt_inv.
Qed.

Lemma rt_init_inv : tracker_inv [] [] rt_init.
Proof. by split; try done; intros id p Hp; apply policy_at_range in Hp; change (zlen (@nil RetryPolicy)) with 0 in Hp; lia. Qed.

Lemma t_run_inv ops : forall pols t,
  Forall policy_ok (pols ++ policies_of ops) -> tracker_inv pols [] t -> zlen (pols ++ policies_of ops) < UINT64_MAX ->
  tracker_inv (pols ++ policies_of ops) [] (t_run t ops).
Proof.
  induction ops as [|op ops IH]; intros pols t Hok Hinv Hlen; [by rewrite app_nil_r|].
  assert (Hsplit : policies_of (op :: ops) = policies_of [op] ++ policies_of ops) by by destruct op.
  rewrite Hsplit, (assoc_L (++)) in *. apply IH; try done. apply Forall_app in Hok as [Hok _].
  apply Forall_app in Hok as [Hok _]. rewrite zlen_app in Hlen. pose proof (zlen_nonneg (policies_of ops)).
  apply t_step_inv; [done|done|lia].
Qed.

(** C13. Whatever happens to the tracker, every tracked send is resent at most as
    often as its policy allows, its receipt is not lost, and once it is no
    longer pending its receipt has a result. *)
Theorem tracked_sends ops i p :
  Forall policy_ok (policies_of ops) -> zlen (policies_of ops) < UINT64_MAX -> policies_of ops !! i = Some p ->
  let t := t_run rt_init ops in
  let id := Z.of_nat i + 1 in
  resends t id <= Z.max 0 (max_attempts p - 1) /\
  exists st, receipts t !! id = Some st /\
    (pending t !! id = None -> is_Some (ss_result st)) /\
    (forall ps, pending t !! id = Some ps -> ps_policy ps = p /\ ps_retry_count ps = resends t id).
Proof.
  intros Hok Hlen Hi. cbv zeta.
  pose proof (t_run_inv ops [] rt_init Hok rt_init_inv Hlen) as [H1 H2 H3 H4 H5]. simpl in *.
  assert (Hp : policy_at (policies_of ops) (Z.of_nat i + 1) = Some p).
  { unfold policy_at. rewrite (proj2 (Z.leb_le _ _)) by lia. by replace (Z.to_nat _) with i by lia. }
  split; [by apply H3|]. destruct (H5 _ _ Hp) as (st & Hst & Hres). exists st. split; [done|]. split.
  - intros Hn. destruct (Hres Hn) as [Hin|]; [by apply not_elem_of_nil in Hin|done].
  - intros ps Hps. destruct (H2 _ _ Hps) as (_ & A2 & _ & A4). split; [congruence|done].
Qed.

(** ** The retry loop ends *)

Lemma retry_one_other now pct s id k :
  k <> id -> pending (retry_one now pct s id).1 !! k = pending s.1 !! k.
Proof.
  intros Hne. destruct s as [t res]. simpl. destruct (pending t !! id); [|done].
  destruct (retry_verdict _ _ _); simpl; by rewrite ?lookup_delete_ne, ?lookup_insert_ne by done.
Qed.

Definition after_tick (now pct : Z) (o : option PendingSend) : option PendingSend :=
  ps ← o; match retry_verdict now pct ps with VGiveUp _ => None | VResend ps' | VKeep ps' => Some ps' end.

Lemma retry_one_self now pct s id :
  pending (retry_one now pct s id).1 !! id = after_tick now (pct id) (pending s.1 !! id).
Proof.
  destruct s as [t res]. simpl. destruct (pending t !! id) as [ps|] eqn:Hid; simpl; [|by rewrite Hid].
  destruct (retry_verdict now (pct id) ps); simpl; [apply lookup_delete_eq|apply lookup_insert_eq..].
Qed.

Lemma retry_walk_lookup now pct id order : forall s,
  NoDup order ->
  pending (fold_left (retry_one now pct) order s).1 !! id =
  if decide (id ∈ order) then after_tick now (pct id) (pending s.1 !! id) else pending s.1 !! id.
Proof.
  induction order as [|k order IH]; intros s Hnd; [done|]. apply NoDup_cons in Hnd as [Hk Hnd].
  simpl. rewrite IH by done. destruct (decide (k = id)) as [->|Hne].
  - rewrite decide_False by done. rewrite decide_True by (by left). apply retry_one_self.
  - rewrite retry_one_other by done. destruct (decide (id ∈ order)) as [Hin|Hin].
    + by rewrite decide_True by (by right).
    + rewrite decide_False; [done|]. intros [?|?]%elem_of_cons; [congruence|done].
Qed.

Lemma resolve_all_pending l : forall t, pending (resolve_all t l) = pending t.
Proof.
  induction l as [|e l IH]; intros t; [done|]. unfold resolve_all in *. simpl. rewrite IH.
  by apply on_receipt_frame.
Qed.

Lemma tick_lookup t now pct order id :
  NoDup order -> id ∈ order ->
  pending (process_retries t now pct order) !! id = after_tick now (pct id) (pending t !! id).
Proof.
  intros Hnd Hin. unfold process_retries. pose proof (retry_walk_lookup now pct id order (t, []) Hnd) as Hw.
  destruct (fold_left _ _ _) as [t' res]. simpl in Hw. rewrite decide_True in Hw by done.
  by rewrite resolve_all_pending.
Qed.

(** Every delay of the send is at most [D] ns. *)
Definition delays_ok (D : Z) (ps : PendingSend) : Prop :=
  0 < per_attempt_timeout (ps_policy ps) * 1000000 <= D /\ 0 <= ps_retry_after_ms ps * 1000000 <= D /\
  (forall count pct, 1 <= count < max_attempts (ps_policy ps) -> -25 <= pct <= 25 ->
     0 <= backoff_delay (ps_policy ps) count pct * 1000000 <= D).

(** Ticks at least [D] ns apart that reach the send. *)
Definition Tick : Type := (Z * (Z -> Z) * list Z)%type.
Fixpoint ticks_ok (id D from : Z) (ticks : list Tick) : Prop :=
  match ticks with
  | [] => True
  | (now, pct, order) :: ticks =>
      0 < now /\ from <= now /\ now + D <= UINT64_MAX /\ -25 <= pct id <= 25 /\ NoDup order /\ id ∈ order /\
      ticks_ok id D (now + D) ticks
  end.
Definition tick_op (k : Tick) : TOp := let '(now, pct, order) := k in TTick now pct order.

(** Ticks until the send is given up at the latest. *)
Definition ticks_left (ps : PendingSend) : Z :=
  (if ps_next_retry_ns ps =? 0 then 1 else 0) + Z.max 1 (max_attempts (ps_policy ps)) - ps_retry_count ps.

Lemma tick_progress now pct D ps :
  policy_ok (ps_policy ps) -> 0 <= ps_retry_count ps <= budget (ps_policy ps) -> delays_ok D ps ->
  0 < now -> 0 <= ps_next_retry_ns ps <= now -> now + D <= UINT64_MAX -> -25 <= pct <= 25 ->
  match retry_verdict now pct ps with
  | VGiveUp _ => True
  | VResend ps' | VKeep ps' => delays_ok D ps' /\ 0 <= ps_next_retry_ns ps' <= now + D /\
      ps_policy ps' = ps_policy ps /\ 0 <= ps_retry_count ps' <= budget (ps_policy ps) /\
      ticks_left ps' = ticks_left ps - 1
  end.
Proof.
  intros Hp Hc Hd Hnow Hnext HD Hpct. pose proof Hd as (D1 & D2 & D3). unfold policy_ok, budget in *. unfold UINT64_MAX in HD.
  unfold retry_verdict, delays_ok, ticks_left in *. cbv zeta.
  destruct ((0 <? ps_next_retry_ns ps) && _) eqn:E1.
  - destruct ((max_attempts (ps_policy ps) <=? _) || _) eqn:E2; [done|]. bool_to_prop. simpl.
    rewrite u8_small by lia.
    set (delay := if 0 <? ps_retry_after_ms ps then _ else _).
    assert (Hdelay : 0 <= delay <= D).
    { unfold delay. destruct (0 <? ps_retry_after_ms ps) eqn:E3; bool_to_prop; [rewrite u64_small; lia|].
      specialize (D3 (ps_retry_count ps + 1) pct ltac:(lia) Hpct). rewrite (u64_small (backoff_delay _ _ _)) by lia.
      rewrite u64_small; lia. }
    clearbody delay. rewrite u64_small by lia. rewrite (proj2 (Z.eqb_neq (ps_next_retry_ns ps) 0)) by lia.
    rewrite (proj2 (Z.eqb_neq (now + delay) 0)) by lia. split_and!; try done; lia.
  - assert (Hz : ps_next_retry_ns ps = 0) by (bool_to_prop; destruct E1; bool_to_prop; lia).
    rewrite Hz, (proj2 (Z.ltb_lt 0 (per_attempt_timeout _))) by lia. simpl.
    destruct ((0 <? ps_deadline_ns ps) && _); [done|]. simpl.
    rewrite (u64_small (per_attempt_timeout _)), (u64_small (per_attempt_timeout _ * _)), u64_small by lia.
    rewrite (proj2 (Z.eqb_neq _ 0)) by lia. split_and!; try done; lia.
Qed.

Lemma ticks_none id D ticks : forall t from,
  pending t !! id = None -> ticks_ok id D from ticks -> pending (t_run t (tick_op <$> ticks)) !! id = None.
Proof.
  induction ticks as [|[[now pct] order] ticks IH]; intros t from Hn Hok; [done|].
  destruct Hok as (_ & _ & _ & _ & Hnd & Hin & Hok). simpl. eapply IH; [|exact Hok].
  rewrite tick_lookup by done. by rewrite Hn.
Qed.

Lemma ticks_exhaust id D ticks : forall t ps from,
  pending t !! id = Some ps -> policy_ok (ps_policy ps) -> 0 <= ps_retry_count ps <= budget (ps_policy ps) ->
  delays_ok D ps -> 0 <= ps_next_retry_ns ps <= from -> ticks_ok id D from ticks ->
  ticks_left ps <= zlen ticks -> pending (t_run t (tick_op <$> ticks)) !! id = None.
Proof.
  induction ticks as [|[[now pct] order] ticks IH]; intros t ps from Hid Hp Hc Hd Hnext Hok Hlen.
  { exfalso. unfold ticks_left, budget in *. change (zlen (@nil Tick)) with 0 in Hlen.
    destruct (_ =? 0); lia. }
  destruct Hok as (H1 & H2 & H3 & H4 & Hnd & Hin & Hok).
  pose proof (tick_progress now (pct id) D ps Hp Hc Hd H1 ltac:(lia) H3 H4) as Hv.
  pose proof (tick_lookup t now pct order id Hnd Hin) as Hl. rewrite Hid in Hl. simpl in Hl.
  rewrite zlen_cons in Hlen. simpl.
  destruct (retry_verdict now (pct id) ps) as [st|ps'|ps']; [by eapply ticks_none|..];
    (destruct Hv as (V1 & V2 & V3 & V4 & V5); apply (IH _ ps' (now + D)); rewrite ?V3; try done; lia).
Qed.

(** C14. A pending send whose acknowledgement never comes is settled: with a timeout
    per attempt that is not zero, after at most one tick of the retry loop more than
    its attempts, the ticks being spaced at least as far apart as its longest delay
    (its timeout, backoff or retry hint), its receipt has a result.  Without a
    timeout it is not: [untimed_send_waits]. *)
Theorem retries_settle ops i ps D ticks :
  Forall policy_ok (policies_of ops) -> zlen (policies_of ops) < UINT64_MAX ->
  let t := t_run rt_init ops in
  let id := Z.of_nat i + 1 in
  pending t !! id = Some ps -> delays_ok D ps -> 0 <= ps_next_retry_ns ps ->
  ticks_ok id D (ps_next_retry_ns ps) ticks -> Z.max 1 (max_attempts (ps_policy ps)) + 1 <= zlen ticks ->
  exists st, receipts (t_run t (tick_op <$> ticks)) !! id = Some st /\ is_Some (ss_result st).
Proof.
  intros Hok Hlen t id Hps Hd Hnext Hticks Hn.
  pose proof (t_run_inv ops [] rt_init Hok rt_init_inv Hlen) as Hinv. simpl in Hinv. fold t in Hinv.
  destruct (ti_pending _ _ _ Hinv _ _ Hps) as (_ & A2 & A3 & _).
  assert (Hpol : policy_ok (ps_policy ps)).
  { unfold policy_at in A2. destruct (1 <=? id); [|done]. by apply (Forall_lookup_1 _ _ _ _ Hok A2). }
  assert (Hnone : pending (t_run t (tick_op <$> ticks)) !! id = None).
  { eapply ticks_exhaust; try done. unfold ticks_left. destruct (_ =? 0); lia. }
  assert (Hpt : policies_of (tick_op <$> ticks) = []).
  { clear. induction ticks as [|[[now pct] order] ticks IH]; [done|]. exact IH. }
  pose proof (t_run_inv (tick_op <$> ticks) (policies_of ops) t) as Hinv2. rewrite Hpt, app_nil_r in Hinv2.
  destruct (ti_receipt _ _ _ (Hinv2 Hok Hinv Hlen) _ _ A2) as (st & Hst & Hres). exists st. split; [done|].
  destruct (Hres Hnone) as [Hin|]; [by apply not_elem_of_nil in Hin|done].
Qed.

(** ** Answers *)

(** An acknowledgement settles a pending receipt as accepted, a refusal that is
    not about a full mailbox settles it with its reason, and a full mailbox
    leaves it pending and due at once. *)
Theorem answers_settle t id ps st code after :
  pending t !! id = Some ps -> receipts t !! id = Some st -> ss_result st = None -> 0 <= code < 256 ->
  (exists st', receipts (on_ack t id) !! id = Some st' /\ ss_result st' = Some (mkOutcome (ds_value DS_Accepted) id) /\
     pending (on_ack t id) !! id = None) /\
  (code = ds_value DS_Duplicate -> on_nack t id code after = on_ack t id) /\
  (code = ds_value DS_MailboxFull -> receipts (on_nack t id code after) !! id = Some st /\
     exists ps', pending (on_nack t id code after) !! id = Some ps' /\ ps_next_retry_ns ps' = 1 /\
       ps_retry_after_ms ps' = after /\ ps_retry_count ps' = ps_retry_count ps) /\
  (code <> ds_value DS_Duplicate -> code <> ds_value DS_MailboxFull ->
     exists st', receipts (on_nack t id code after) !! id = Some st' /\ ss_result st' = Some (mkOutcome code id) /\
       pending (on_nack t id code after) !! id = None).
Proof.
  intros Hps Hst Hres Hcode.
  assert (Hdone : forall t0 s, receipts t0 !! id = Some st -> pending t0 !! id = None ->
    exists st', receipts (on_receipt t0 id (RResolve (mkOutcome s id))) !! id = Some st' /\
      ss_result st' = Some (mkOutcome s id) /\ pending (on_receipt t0 id (RResolve (mkOutcome s id))) !! id = None).
  { intros t0 s Hs Hn. exists (receipt_step st (RResolve (mkOutcome s id))).1.
    rewrite (on_receipt_lookup _ _ _ _ _ Hs), decide_True by done. destruct (on_receipt_frame t0 id (RResolve (mkOutcome s id))) as (-> & _).
    split; [done|]. split; [|done]. simpl. unfold ss_resolve. by rewrite Hres. }
  split_and!.
  - unfold on_ack, t_resolve. rewrite Hps. apply Hdone; [done|apply lookup_delete_eq].
  - intros ->. unfold on_nack. by rewrite u8_small by lia.
  - intros ->. unfold on_nack. rewrite u8_small by lia. rewrite Hps. simpl. split; [done|].
    eexists. split; [apply lookup_insert_eq|done].
  - intros H1 H2. unfold on_nack, is_retryable_nack. rewrite u8_small by lia. rewrite (proj2 (Z.eqb_neq _ _)) by done.
    rewrite Hps, (proj2 (Z.eqb_neq _ _)) by done. apply Hdone; [done|apply lookup_delete_eq].
Qed.
End Tracker.

(** ** Witnesses and examples; endpoints are numbers, frames their names *)

Definition three_attempts : RetryPolicy := mkRetryPolicy 3 5000 100 30000 RB_Exponential true.
Definition send_one : list (@TOp Z Z) := [TTrack 11 5 three_attempts 0; TTrack 12 5 retry_default 0].
Definition no_jitter (_ : Z) : Z := 0.
Definition four_ticks : list Tick :=
  [(1000000000, no_jitter, [1; 2]); (40000000000, no_jitter, [1; 2]); (80000000000, no_jitter, [2; 1]);
   (120000000000, no_jitter, [1])].

Lemma tracked_sends_witness :
  let t := t_run rt_init (send_one ++ (tick_op <$> four_ticks)) in
  resends t 1 <= 2 /\ exists st, receipts t !! 1 = Some st /\
    (pending t !! 1 = None -> is_Some (ss_result st)) /\
    (forall ps, pending t !! 1 = Some ps -> ps_policy ps = three_attempts /\ ps_retry_count ps = resends t 1).
Proof.
  apply (tracked_sends (send_one ++ (tick_op <$> four_ticks)) 0 three_attempts).
  - repeat constructor; by vm_compute.
  - by vm_compute.
  - reflexivity.
Defined.

Lemma retries_settle_witness :
  exists st, receipts (t_run (t_run rt_init send_one) (tick_op <$> four_ticks)) !! 1 = Some st /\ is_Some (ss_result st).
Proof.
  apply (retries_settle send_one 0 (mkPending 1 11 5 three_attempts 0 0 0 0) 37500000000 four_ticks).
  - repeat constructor; by vm_compute.
  - by vm_compute.
  - by vm_compute.
  - split; [by vm_compute|]. split; [by vm_compute|]. intros count pct Hc Hp. simpl in Hc |- *.
    assert (Hpow : 1 <= 2 ^ (count - 1) <= 2 ^ 1) by (split; [apply (Z.pow_le_mono_r 2 0); lia|apply Z.pow_le_mono_r; lia]).
    destruct (backoff_bounds three_attempts count pct) as [Hb _]; simpl; try lia; [unfold backoff_exact, INT64_MAX; simpl; lia|].
    unfold backoff_exact in Hb. simpl in Hb. Z.to_euclidean_division_equations. lia.
  - by vm_compute.
  - cbn [ticks_ok four_ticks ps_next_retry_ns]. unfold no_jitter, UINT64_MAX.
    split_and!; first [exact I | apply (bool_decide_unpack _); by vm_compute | lia].
  - by vm_compute.
Defined.

Lemma answers_settle_witness :
  exists st', receipts (on_ack (t_run rt_init send_one) 2) !! 2 = Some st' /\
    ss_result st' = Some (mkOutcome (ds_value DS_Accepted) 2) /\ pending (on_ack (t_run rt_init send_one) 2) !! 2 = None.
Proof.
  destruct (answers_settle (t_run rt_init send_one) 2 (mkPending 2 12 5 retry_default 0 0 0 0) (shared_init 2) 0 0) as [H _].
  - by vm_compute.
  - by vm_compute.
  - by vm_compute.
  - by vm_compute.
  - exact H.
Defined.

(** Cancelling a receipt settles it, and the tracker goes on resending. *)
Lemma cancelled_send_is_resent :
  let t := t_run rt_init (send_one ++ [TReceipt 1 RCancel]) in
  (exists st, receipts t !! 1 = Some st /\ ss_result st = Some (mkOutcome (ds_value DS_Cancelled) 1)) /\
  resent (t_run t (tick_op <$> four_ticks)) = [1; 1].
Proof. split; [eexists; split|]; by vm_compute. Qed.

(** The hint of a refusal is not waited for: the next tick resends at once. *)
Lemma nack_hint_not_awaited :
  let t := t_run rt_init (send_one ++ [TNack 1 (ds_value DS_MailboxFull) 60000]) in
  resent (process_retries t 2 no_jitter [1; 2]) = [1].
Proof. by vm_compute. Qed.

(** Without a timeout per attempt a send that gets no answer is never given
    up, also past its deadline. *)
Lemma untimed_send_waits now pct (ps : @PendingSend Z Z) :
  ps_next_retry_ns ps = 0 -> per_attempt_timeout (ps_policy ps) <= 0 -> retry_verdict now pct ps = VKeep ps.
Proof.
  intros H0 Ht. unfold retry_verdict. rewrite H0. simpl. by rewrite (proj2 (Z.ltb_ge _ _)) by lia.
Qed.
