(* ===== verification/OutboundTracker.v ===== *)
(** * The mailbox's outbound tracker

    [mailbox/outbound_tracker.hpp], [mailbox/outbound_tracker.cpp],
    [mailbox/reliable_retry_policy.hpp]: pending outbound messages with a bound
    per destination node, retries after a refusal, deadlines, and a list of the
    entries given up.  Times are nanoseconds of the steady clock; the backoff is
    computed in doubles.  The theorems: as long as message ids are not reused
    while pending, the counter of a node is the number of its entries, at most
    1024, and every message accepted is pending, acknowledged or handed back
    as expired, exactly once. *)

From S2P Require Import Prelude.
From stdpp Require Import base numbers list gmap.

#[local] Open Scope Z_scope.

(** ** Retry policy *)

Record ReliableRetryPolicy := mkReliablePolicy {
  max_retries : Z;
  rr_initial_backoff : Z;     (* ms *)
  rr_max_backoff : Z;         (* ms *)
  backoff_multiplier : double
}.
Definition reliable_default : ReliableRetryPolicy := mkReliablePolicy 3 100 10000 (double_of_Z 2).

Fixpoint dmul_times (n : nat) (x k : double) : double :=
  match n with O => x | S n => dmul_times n (dmul x k) k end.

(** [backoff_for_attempt]: the loop multiplies [attempt - 1] times. *)
Definition backoff_for_attempt (p : ReliableRetryPolicy) (attempt : Z) : Z :=
  if attempt =? 0 then 0
  else
    let ms := dmul_times (Z.to_nat (attempt - 1)) (double_of_Z (rr_initial_backoff p)) (backoff_multiplier p) in
    let dur := Z_of_double ms in
    if rr_max_backoff p <? dur then rr_max_backoff p else dur.

Definition should_retry (p : ReliableRetryPolicy) (attempt : Z) : bool := attempt <? max_retries p.

(** ** The tracker *)

Section OutboundTracker.
Context {NodeId Addr Payload : Type} `{Countable NodeId}.

Record OutboundTrackerEntry := mkEntry {
  oe_message_id : Z;
  oe_node : NodeId;          (* target.node_id() *)
  oe_target : Addr;
  oe_payload : Payload;
  oe_retry_count : Z;
  oe_next_retry_at : Z;
  oe_deadline : Z
}.

Definition TIME_MAX : Z := INT64_MAX.
Definition kMaxPendingPerDestination : Z := 1024.

Record OTracker := mkOT {
  ot_policy : ReliableRetryPolicy;
  ot_entries : gmap Z OutboundTrackerEntry;
  per_dest_count : gmap NodeId Z;
  ot_expired : list OutboundTrackerEntry
}.

Definition ot_init (p : ReliableRetryPolicy) : OTracker := mkOT p ∅ ∅ [].

(** [track]. *)
Definition ot_track (t : OTracker) (msg_id : Z) (node : NodeId) (target : Addr) (payload : Payload) (deadline : Z)
  : bool * OTracker :=
  let dest_count := default 0 (per_dest_count t !! node) in
  if kMaxPendingPerDestination <=? dest_count then (false, t)
  else
    (true, mkOT (ot_policy t)
       (<[msg_id := mkEntry msg_id node target payload 0 TIME_MAX deadline]> (ot_entries t))
       (<[node := dest_count + 1]> (per_dest_count t)) (ot_expired t)).

(** The decrement shared by the removals. *)
Definition decr_dest (node : NodeId) (m : gmap NodeId Z) : gmap NodeId Z :=
  match m !! node with
  | Some c => if 0 <? c then if c - 1 =? 0 then delete node m else <[node := c - 1]> m else m
  | None => m
  end.

(** Erase an entry after giving its slot back. *)
Definition ot_remove (t : OTracker) (id : Z) (e : OutboundTrackerEntry) : OTracker :=
  mkOT (ot_policy t) (delete id (ot_entries t)) (decr_dest (oe_node e) (per_dest_count t)) (ot_expired t).
Definition ot_expire (t : OTracker) (id : Z) (e : OutboundTrackerEntry) : OTracker :=
  mkOT (ot_policy t) (delete id (ot_entries t)) (decr_dest (oe_node e) (per_dest_count t)) (ot_expired t ++ [e]).
Definition ot_reschedule (t : OTracker) (id : Z) (e : OutboundTrackerEntry) (at_ns : Z) : OTracker :=
  mkOT (ot_policy t)
    (<[id := mkEntry (oe_message_id e) (oe_node e) (oe_target e) (oe_payload e)
               (u32 (oe_retry_count e + 1)) at_ns (oe_deadline e)]> (ot_entries t))
    (per_dest_count t) (ot_expired t).

Definition ot_on_ack (t : OTracker) (msg_id : Z) : OTracker :=
  match ot_entries t !! msg_id with
  | None => t
  | Some e => ot_remove t msg_id e
  end.

(** [on_nack]; [now] is [MonotonicClock::now()], [retry_after] in ms. *)
Definition ot_on_nack (t : OTracker) (msg_id retry_after now : Z) : OTracker :=
  match ot_entries t !! msg_id with
  | None => t
  | Some e =>
      if negb (should_retry (ot_policy t) (oe_retry_count e)) then ot_expire t msg_id e
      else ot_reschedule t msg_id e (now + retry_after * 1000000)
  end.

(** One entry of [tick]. *)
Definition tick_one (now : Z) (t : OTracker) (id : Z) : OTracker :=
  match ot_entries t !! id with
  | None => t
  | Some e =>
      if negb (oe_deadline e =? TIME_MAX) && (oe_deadline e <=? now) then ot_expire t id e
      else if (oe_next_retry_at e <=? now) && negb (oe_next_retry_at e =? TIME_MAX) then
        if should_retry (ot_policy t) (oe_retry_count e)
        then ot_reschedule t id e
               (now + backoff_for_attempt (ot_policy t) (u32 (oe_retry_count e + 1)) * 1000000)
        else ot_expire t id e
      else t
  end.
Definition ot_tick (t : OTracker) (now : Z) (order : list Z) : OTracker := fold_left (tick_one now) order t.

(** [fail_pending_for_node]. *)
Definition fail_one (node : NodeId) (t : OTracker) (id : Z) : OTracker :=
  match ot_entries t !! id with
  | None => t
  | Some e =>
      if bool_decide (oe_node e = node)
      then mkOT (ot_policy t) (delete id (ot_entries t)) (per_dest_count t) (ot_expired t ++ [e])
      else t
  end.
Definition fail_pending_for_node (t : OTracker) (node : NodeId) (order : list Z) : OTracker :=
  let t := fold_left (fail_one node) order t in
  mkOT (ot_policy t) (ot_entries t) (delete node (per_dest_count t)) (ot_expired t).

Definition ot_pending_count (t : OTracker) : Z := Z.of_nat (size (ot_entries t)).
Definition drain_expired (t : OTracker) : list OutboundTrackerEntry * OTracker :=
  (ot_expired t, mkOT (ot_policy t) (ot_entries t) (per_dest_count t) []).

(** ** Histories *)

Inductive OOp :=
| OTrack (msg_id : Z) (node : NodeId) (target : Addr) (payload : Payload) (deadline : Z)
| OAck (msg_id : Z)
| ONack (msg_id retry_after now : Z)
| OTick (now : Z) (order : list Z)
| OFail (node : NodeId) (order : list Z)
| ODrain.

(** The tracker with what the callers got back: ids accepted, acknowledged, and
    handed back by [drain_expired]. *)
Record OHistory := mkOH { oh : OTracker; oh_tracked : list Z; oh_acked : list Z; oh_drained : list Z }.

Definition o_step (h : OHistory) (op : OOp) : OHistory :=
  match op with
  | OTrack id node target payload deadline =>
      let '(ok, t) := ot_track (oh h) id node target payload deadline in
      mkOH t (if ok then oh_tracked h ++ [id] else oh_tracked h) (oh_acked h) (oh_drained h)
  | OAck id =>
      mkOH (ot_on_ack (oh h) id) (oh_tracked h)
        (if bool_decide (is_Some (ot_entries (oh h) !! id)) then oh_acked h ++ [id] else oh_acked h) (oh_drained h)
  | ONack id after now => mkOH (ot_on_nack (oh h) id after now) (oh_tracked h) (oh_acked h) (oh_drained h)
  | OTick now order => mkOH (ot_tick (oh h) now order) (oh_tracked h) (oh_acked h) (oh_drained h)
  | OFail node order => mkOH (fail_pending_for_node (oh h) node order) (oh_tracked h) (oh_acked h) (oh_drained h)
  | ODrain =>
      let '(l, t) := drain_expired (oh h) in
      mkOH t (oh_tracked h) (oh_acked h) (oh_drained h ++ (oe_message_id <$> l))
  end.
Definition o_run (h : OHistory) (ops : list OOp) : OHistory := fold_left o_step ops h.

(** A message id is not tracked again while it is pending, and the walk over
    the entries for a failed node visits all of them. *)
Definition o_op_ok (h : OHistory) (op : OOp) : Prop :=
  match op with
  | OTrack id _ _ _ _ => ot_entries (oh h) !! id = None
  | OFail _ order => forall id, is_Some (ot_entries (oh h) !! id) -> id ∈ order
  | _ => True
  end.
Fixpoint o_ops_ok (h : OHistory) (ops : list OOp) : Prop :=
  match ops with
  | [] => True
  | op :: ops => o_op_ok h op /\ o_ops_ok (o_step h op) ops
  end.

(** ** Invariant *)

Definition node_count (m : gmap Z OutboundTrackerEntry) (node : NodeId) : Z :=
  Z.of_nat (size (filter (fun kv => oe_node kv.2 = node) m)).

Record ot_inv (t : OTracker) : Prop := {
  oi_count : forall node, per_dest_count t !! node =
    (if node_count (ot_entries t) node =? 0 then None else Some (node_count (ot_entries t) node));
  oi_bound : forall node, node_count (ot_entries t) node <= kMaxPendingPerDestination;
  oi_id : forall id e, ot_entries t !! id = Some e -> oe_message_id e = id;
  oi_retry : forall id e, ot_entries t !! id = Some e -> 0 <= oe_retry_count e <= Z.max 0 (max_retries (ot_policy t))
}.

Lemma node_count_nonneg m node : 0 <= node_count m node.
Proof. unfold node_count. lia. Qed.

Lemma node_count_delete m id e node :
  m !! id = Some e ->
  node_count (delete id m) node = node_count m node - (if bool_decide (oe_node e = node) then 1 else 0).
Proof.
  intros Hid. unfold node_count. rewrite map_filter_delete. case_bool_decide as Hn.
  - rewrite map_size_delete_Some by (exists e; by apply map_lookup_filter_Some).
    assert (Hs : is_Some (filter (fun kv => oe_node kv.2 = node) m !! id)) by (exists e; by apply map_lookup_filter_Some).
    destruct Hs as [x Hx]. assert (size (filter (fun kv => oe_node kv.2 = node) m) <> 0%nat).
    { intros Hz%map_size_empty_inv. rewrite Hz in Hx. by rewrite lookup_empty in Hx. }
    lia.
  - rewrite map_size_delete_None; [lia|]. apply map_lookup_filter_None. right. intros x Hx. simpl. congruence.
Qed.

Lemma node_count_insert m id e node :
  m !! id = None ->
  node_count (<[id := e]> m) node = node_count m node + (if bool_decide (oe_node e = node) then 1 else 0).
Proof.
  intros Hid. pose proof (node_count_delete (<[id := e]> m) id e node (lookup_insert_eq _ _ _)) as Hd.
  rewrite delete_insert_id in Hd by done. lia.
Qed.

Lemma node_count_update m id e e' node :
  m !! id = Some e -> oe_node e' = oe_node e -> node_count (<[id := e']> m) node = node_count m node.
Proof.
  intros Hid Hn. rewrite <- insert_delete_eq, node_count_insert by apply lookup_delete_eq.
  rewrite (node_count_delete m id e) by done. rewrite Hn. lia.
Qed.

(** What the tracker answers for: pending ids and expired ones. *)
Definition entry_ids (m : gmap Z OutboundTrackerEntry) : list Z := (map_to_list m).*1.
Definition ot_held (t : OTracker) : list Z := entry_ids (ot_entries t) ++ (oe_message_id <$> ot_expired t).

Lemma entry_ids_delete m id e : m !! id = Some e -> entry_ids m ≡ₚ id :: entry_ids (delete id m).
Proof. intros Hid. unfold entry_ids. by rewrite <- (map_to_list_delete m id e Hid). Qed.
Lemma entry_ids_insert m id e : m !! id = None -> entry_ids (<[id := e]> m) ≡ₚ id :: entry_ids m.
Proof. intros Hid. unfold entry_ids. by rewrite map_to_list_insert. Qed.
Lemma entry_ids_update m id e e' : m !! id = Some e -> entry_ids (<[id := e']> m) ≡ₚ entry_ids m.
Proof.
  intros Hid. rewrite <- insert_delete_eq, entry_ids_insert by apply lookup_delete_eq. symmetry. by apply (entry_ids_delete _ _ e).
Qed.

(** Giving a slot back keeps the counters exact. *)
Lemma decr_dest_exact m (counts : gmap NodeId Z) id e :
  m !! id = Some e ->
  (forall node, counts !! node = if node_count m node =? 0 then None else Some (node_count m node)) ->
  forall node, decr_dest (oe_node e) counts !! node =
    if node_count (delete id m) node =? 0 then None else Some (node_count (delete id m) node).
Proof.
  intros Hid Hc node. rewrite (node_count_delete m id e node Hid). pose proof (node_count_nonneg (delete id m) (oe_node e)) as Hnn.
  rewrite (node_count_delete m id e (oe_node e) Hid), bool_decide_eq_true_2 in Hnn by done.
  unfold decr_dest. rewrite (Hc (oe_node e)). rewrite (proj2 (Z.eqb_neq _ 0)) by lia.
  rewrite (proj2 (Z.ltb_lt 0 _)) by lia. destruct (decide (oe_node e = node)) as [<-|Hne].
  - rewrite bool_decide_eq_true_2 by done. destruct (_ - 1 =? 0); [apply lookup_delete_eq|apply lookup_insert_eq].
  - rewrite bool_decide_eq_false_2, Z.sub_0_r by done.
    destruct (_ - 1 =? 0); [rewrite lookup_delete_ne by done|rewrite lookup_insert_ne by done]; apply Hc.
Qed.

Lemma drop_entry_inv t id e expired :
  ot_inv t -> ot_entries t !! id = Some e ->
  ot_inv (mkOT (ot_policy t) (delete id (ot_entries t)) (decr_dest (oe_node e) (per_dest_count t)) expired).
Proof.
  intros [H1 H2 H3 H4] Hid. split; simpl.
  - by apply decr_dest_exact.
  - intros node. rewrite (node_count_delete _ _ e) by done. pose proof (H2 node). destruct (bool_decide _); lia.
  - intros k x Hk. apply lookup_delete_Some in Hk as [_ Hk]. by apply H3.
  - intros k x Hk. apply lookup_delete_Some in Hk as [_ Hk]. by apply (H4 k).
Qed.

(** One entry, changed by an operation that keeps what is held. *)
Definition keeps (t t' : OTracker) : Prop := ot_inv t' /\ ot_held t' ≡ₚ ot_held t /\ ot_policy t' = ot_policy t.

Lemma keeps_refl t : ot_inv t -> keeps t t.
Proof. done. Qed.

Lemma expire_keeps t id e : ot_inv t -> ot_entries t !! id = Some e -> keeps t (ot_expire t id e).
Proof.
  intros Hinv Hid. split; [by apply drop_entry_inv|]. split; [|done]. unfold ot_held. simpl.
  rewrite (entry_ids_delete (ot_entries t) id e Hid), fmap_app. simpl. rewrite (oi_id _ Hinv id e Hid). solve_Permutation.
Qed.

Lemma reschedule_keeps t id e at_ns :
  ot_inv t -> max_retries (ot_policy t) <= UINT32_MAX -> ot_entries t !! id = Some e ->
  should_retry (ot_policy t) (oe_retry_count e) = true -> keeps t (ot_reschedule t id e at_ns).
Proof.
  intros Hinv Hmax Hid Hretry. unfold should_retry in Hretry. bool_to_prop. pose proof (oi_retry _ Hinv id e Hid).
  split; [|split; [unfold ot_held; simpl; by rewrite (entry_ids_update _ _ e)|done]]. destruct Hinv as [H1 H2 H3 H4].
  split; simpl.
  - intros node. rewrite (node_count_update _ _ e) by done. apply H1.
  - intros node. by rewrite (node_count_update _ _ e).
  - intros k x Hk. apply lookup_insert_Some in Hk as [[<- <-]|[_ Hk]]; [simpl; by apply H3|by apply H3].
  - intros k x Hk. apply lookup_insert_Some in Hk as [[<- <-]|[_ Hk]]; [|by apply (H4 k)].
    simpl. rewrite u32_small by (unfold UINT32_MAX in *; lia). lia.
Qed.

Lemma tick_one_keeps now t id : ot_inv t -> max_retries (ot_policy t) <= UINT32_MAX -> keeps t (tick_one now t id).
Proof.
  intros Hinv Hmax. unfold tick_one. destruct (ot_entries t !! id) as [e|] eqn:Hid; [|by apply keeps_refl].
  destruct (negb _ && _); [by apply expire_keeps|]. destruct (_ && negb _); [|by apply keeps_refl].
  destruct (should_retry _ _) eqn:Er; [by apply reschedule_keeps|by apply expire_keeps].
Qed.

Lemma tick_keeps now order : forall t,
  ot_inv t -> max_retries (ot_policy t) <= UINT32_MAX -> keeps t (ot_tick t now order).
Proof.
  induction order as [|id order IH]; intros t Hinv Hmax; [by apply keeps_refl|].
  destruct (tick_one_keeps now t id Hinv Hmax) as (K1 & K2 & K3).
  destruct (IH (tick_one now t id) K1) as (L1 & L2 & L3); [by rewrite K3|]. simpl. split; [done|]. split; [by rewrite L2|by rewrite L3].
Qed.

(** Walking the entries of a failed node. *)
Lemma fail_walk node order : forall t,
  (forall id e, ot_entries t !! id = Some e -> oe_message_id e = id) ->
  let t' := fold_left (fail_one node) order t in
  ot_policy t' = ot_policy t /\ per_dest_count t' = per_dest_count t /\ ot_held t' ≡ₚ ot_held t /\
  (forall id e, ot_entries t' !! id = Some e -> ot_entries t !! id = Some e /\ (id ∈ order -> oe_node e <> node)) /\
  (forall n, n <> node -> node_count (ot_entries t') n = node_count (ot_entries t) n).
Proof.
  induction order as [|id order IH]; intros t Hid; cbv zeta; simpl.
  { split; [done|]. split; [done|]. split; [done|]. split; [|done]. intros k e Hk. split; [done|]. by intros ?%not_elem_of_nil. }
  assert (Hstep : ot_policy (fail_one node t id) = ot_policy t /\ per_dest_count (fail_one node t id) = per_dest_count t /\
    ot_held (fail_one node t id) ≡ₚ ot_held t /\
    (forall k e, ot_entries (fail_one node t id) !! k = Some e -> ot_entries t !! k = Some e /\ (k = id -> oe_node e <> node)) /\
    (forall n, n <> node -> node_count (ot_entries (fail_one node t id)) n = node_count (ot_entries t) n)).
  { unfold fail_one. destruct (ot_entries t !! id) as [e|] eqn:He; [case_bool_decide as Hn|].
    - simpl. split; [done|]. split; [done|]. split; [|split].
      + unfold ot_held. simpl. rewrite (entry_ids_delete (ot_entries t) id e He), fmap_app. simpl.
        rewrite (Hid id e He). solve_Permutation.
      + intros k x Hk. apply lookup_delete_Some in Hk as [Hne Hk]. split; [done|]. congruence.
      + intros n Hne. rewrite (node_count_delete _ _ e) by done. rewrite bool_decide_eq_false_2 by congruence. lia.
    - split; [done|]. split; [done|]. split; [done|]. split; [|done]. intros k x Hk. split; [done|]. intros ->. congruence.
    - split; [done|]. split; [done|]. split; [done|]. split; [|done]. intros k x Hk. split; [done|]. intros ->. congruence. }
  destruct Hstep as (S1 & S2 & S3 & S4 & S5).
  destruct (IH (fail_one node t id)) as (I1 & I2 & I3 & I4 & I5).
  { intros k e Hk. apply S4 in Hk as [Hk _]. by apply Hid. }
  split; [by rewrite I1|]. split; [by rewrite I2|]. split; [by rewrite I3|]. split.
  - intros k e Hk. apply I4 in Hk as [Hk Ho]. apply S4 in Hk as [Hk Hs]. split; [done|].
    intros [->|Hin]%elem_of_cons; [by apply Hs|by apply Ho].
  - intros n Hn. rewrite I5, S5 by done. done.
Qed.

Lemma node_count_zero m node : (forall id e, m !! id = Some e -> oe_node e <> node) -> node_count m node = 0.
Proof.
  intros Hno. unfold node_count. rewrite map_empty_filter_2; [by rewrite map_size_empty|].
  intros id e He. simpl. by apply (Hno id).
Qed.

Lemma fail_keeps t node order :
  ot_inv t -> (forall id, is_Some (ot_entries t !! id) -> id ∈ order) -> keeps t (fail_pending_for_node t node order).
Proof.
  intros [H1 H2 H3 H4] Hall. destruct (fail_walk node order t H3) as (W1 & W2 & W3 & W4 & W5).
  unfold fail_pending_for_node. set (t' := fold_left _ _ _) in *. clearbody t'.
  assert (Hz : node_count (ot_entries t') node = 0).
  { apply node_count_zero. intros id e He. apply W4 in He as [He Hn]. apply Hn, Hall. by exists e. }
  split; [|done]. split; simpl.
  - intros n. destruct (decide (n = node)) as [->|Hn]; [by rewrite Hz, lookup_delete_eq|].
    rewrite lookup_delete_ne, W2, W5 by done. apply H1.
  - intros n. destruct (decide (n = node)) as [->|Hn]; [rewrite Hz; unfold kMaxPendingPerDestination; lia|by rewrite W5].
  - intros id e He. apply W4 in He as [He _]. by apply H3.
  - intros id e He. apply W4 in He as [He _]. rewrite W1. by apply (H4 id).
Qed.

(** ** Histories *)

Definition o_inv (h : OHistory) : Prop :=
  ot_inv (oh h) /\ oh_tracked h ≡ₚ ot_held (oh h) ++ oh_drained h ++ oh_acked h.

Lemma o_keeps h t' : o_inv h -> keeps (oh h) t' -> o_inv (mkOH t' (oh_tracked h) (oh_acked h) (oh_drained h)).
Proof. intros [H1 H2] (K1 & K2 & _). split; [done|]. simpl. by rewrite H2, K2. Qed.

Lemma o_track_inv h id node target payload deadline :
  o_inv h -> ot_entries (oh h) !! id = None -> 
  o_inv (o_step h (OTrack id node target payload deadline)).
Proof.
  intros [Hinv Hp] Hfree. pose proof Hinv as [H1 H2 H3 H4]. unfold o_step, ot_track.
  assert (Hcnt : default 0 (per_dest_count (oh h) !! node) = node_count (ot_entries (oh h)) node).
  { rewrite H1. destruct (_ =? 0) eqn:E; bool_to_prop; [by rewrite E|done]. }
  rewrite Hcnt. destruct (kMaxPendingPerDestination <=? _) eqn:E; bool_to_prop; [by split|].
  set (e := mkEntry id node target payload 0 TIME_MAX deadline). split; simpl.
  - pose proof (node_count_nonneg (ot_entries (oh h))) as Hnn. split; simpl.
    + intros n. rewrite node_count_insert by done. unfold e at 1 2. simpl. destruct (decide (node = n)) as [->|Hn].
      * rewrite lookup_insert_eq, bool_decide_eq_true_2 by done. by rewrite (proj2 (Z.eqb_neq _ 0)) by (specialize (Hnn n); lia).
      * rewrite lookup_insert_ne, bool_decide_eq_false_2, Z.add_0_r by done. apply H1.
    + intros n. rewrite node_count_insert by done. unfold e. simpl. pose proof (H2 n). case_bool_decide; subst; lia.
    + intros k x Hk. apply lookup_insert_Some in Hk as [[<- <-]|[_ Hk]]; [done|by apply H3].
    + intros k x Hk. apply lookup_insert_Some in Hk as [[<- <-]|[_ Hk]]; [simpl; lia|by apply (H4 k)].
  - rewrite Hp. unfold ot_held. simpl. rewrite entry_ids_insert by done. solve_Permutation.
Qed.

Lemma o_step_inv h op :
  o_inv h -> max_retries (ot_policy (oh h)) <= UINT32_MAX -> o_op_ok h op ->
  o_inv (o_step h op) /\ ot_policy (oh (o_step h op)) = ot_policy (oh h).
Proof.
  intros Hinv Hmax Hop. pose proof Hinv as [Hi Hp]. destruct op as [id node target payload deadline|id|id after now|now order|node order|].
  - split; [by apply o_track_inv|]. simpl. unfold ot_track. by destruct (_ <=? _).
  - simpl. unfold ot_on_ack. destruct (ot_entries (oh h) !! id) as [e|] eqn:Hid; [|done].
    rewrite bool_decide_eq_true_2 by (by exists e). split; [|done].
    split; [by apply drop_entry_inv|]. simpl. rewrite Hp. unfold ot_held. simpl. rewrite (entry_ids_delete (ot_entries (oh h)) id e Hid). solve_Permutation.
  - assert (Hk : keeps (oh h) (ot_on_nack (oh h) id after now)).
    { unfold ot_on_nack. destruct (ot_entries (oh h) !! id) as [e|] eqn:Hid; [|by apply keeps_refl].
      destruct (should_retry _ _) eqn:Er; simpl; [by apply reschedule_keeps|by apply expire_keeps]. }
    split; [by apply o_keeps|apply Hk].
  - pose proof (tick_keeps now order (oh h) Hi Hmax) as Hk. split; [by apply o_keeps|apply Hk].
  - pose proof (fail_keeps (oh h) node order Hi Hop) as Hk. split; [by apply o_keeps|apply Hk].
  - split; [|done]. destruct Hi as [H1 H2 H3 H4]. split; [by split|]. simpl. rewrite Hp. unfold ot_held. simpl. solve_Permutation.
Qed.

Lemma o_run_inv ops : forall h,
  o_inv h -> max_retries (ot_policy (oh h)) <= UINT32_MAX -> o_ops_ok h ops -> o_inv (o_run h ops).
Proof.
  induction ops as [|op ops IH]; intros h Hinv Hmax Hok; [done|]. destruct Hok as [Hop Hok].
  destruct (o_step_inv h op Hinv Hmax Hop) as [H1 H2]. simpl. apply IH; [done|by rewrite H2|done].
Qed.

Definition o_init (p : ReliableRetryPolicy) : OHistory := mkOH (ot_init p) [] [] [].

Lemma o_init_inv p : o_inv (o_init p).
Proof.
  split; [split|]; simpl; try done; intros; try (by rewrite node_count_zero).
Qed.

(** After any history in which an id is not tracked twice at a time: the
    counter of a node is the number of its pending messages, at most 1024, so
    a message is refused exactly when 1024 are pending for its node; and every
    message accepted is, exactly once, pending, expired, handed back or
    acknowledged. *)
Theorem outbound_accounting p ops :
  max_retries p <= UINT32_MAX -> o_ops_ok (o_init p) ops ->
  let h := o_run (o_init p) ops in
  (forall node, default 0 (per_dest_count (oh h) !! node) = node_count (ot_entries (oh h)) node /\
     node_count (ot_entries (oh h)) node <= kMaxPendingPerDestination) /\
  (forall id node target payload deadline,
     (ot_track (oh h) id node target payload deadline).1 = false <->
     node_count (ot_entries (oh h)) node = kMaxPendingPerDestination) /\
  oh_tracked h ≡ₚ ot_held (oh h) ++ oh_drained h ++ oh_acked h.
Proof.
  intros Hmax Hok. cbv zeta. pose proof (o_run_inv ops (o_init p) (o_init_inv p) Hmax Hok) as [[H1 H2 H3 H4] Hp].
  assert (Hcnt : forall node, default 0 (per_dest_count (oh (o_run (o_init p) ops)) !! node) =
    node_count (ot_entries (oh (o_run (o_init p) ops))) node).
  { intros node. rewrite H1. destruct (_ =? 0) eqn:E; bool_to_prop; [by rewrite E|done]. }
  split; [|split; [|done]]; [by intros node; split|].
  intros id node target payload deadline. unfold ot_track. rewrite Hcnt. pose proof (H2 node).
  destruct (kMaxPendingPerDestination <=? _) eqn:E; bool_to_prop; simpl; split; intros; try done; lia.
Qed.
End OutboundTracker.

(** ** Witness and example; nodes, addresses and payloads are numbers *)

Definition o_history : list (@OOp Z Z Z) :=
  [OTrack 1 7 70 0 TIME_MAX; OTrack 2 7 70 0 50; OTrack 3 8 80 0 TIME_MAX; OAck 1; ONack 3 5 10; OTick 60 [3; 2];
   ODrain; OFail 8 [3]].

Lemma outbound_accounting_witness :
  let h := o_run (o_init reliable_default) o_history in
  oh_tracked h = [1; 2; 3] /\ oh_acked h = [1] /\ oh_drained h = [2] /\
  oh_tracked h ≡ₚ ot_held (oh h) ++ oh_drained h ++ oh_acked h.
Proof.
  split; [by vm_compute|]. split; [by vm_compute|]. split; [by vm_compute|].
  apply (outbound_accounting reliable_default o_history).
  - by vm_compute.
  - cbn [o_ops_ok o_history o_op_ok]. split_and!; try exact I; try (by vm_compute).
    intros id [e He]. vm_compute in He. destruct id as [|[[]|[]|]|]; try discriminate He. by left.
Defined.

(** Tracking a pending id again replaces its entry but counts it twice; the
    acknowledgement gives back one slot, and the other is lost. *)
Lemma retracked_id_leaks_slot :
  let h := o_run (o_init reliable_default) [OTrack 1 (7 : Z) 70 0 TIME_MAX; OTrack 1 7 70 0 TIME_MAX; OAck 1] in
  ot_pending_count (oh (Addr := Z) (Payload := Z) h) = 0 /\ per_dest_count (oh h) !! 7 = Some 1.
Proof. by vm_compute. Qed.
