(* ===== verification/ActorCircuit.v ===== *)
(** * The circuit breaker of an actor

    [actor/lifecycle/circuit_breaker.hpp], [actor/lifecycle/quarantine_policy.hpp],
    the recording side in [actor/event_based_actor.cpp] and the admission gate
    [DeliveryPipeline::check_circuit_breaker] of [mailbox/delivery_pipeline.cpp].
    Times are nanoseconds of the steady clock; the moving average is computed in
    doubles.  The theorem: while the circuit is not closed, at most one user
    message is let through until an outcome is recorded, and none before the
    cooldown is over. *)

From S2P Require Import Prelude DeliveryTypes Breakers.
From stdpp Require Import base numbers list.

#[local] Open Scope Z_scope.

Inductive CircuitBreakerState := kClosed | kOpen | kHalfOpen.

#[export] Instance CircuitBreakerState_eq_dec : EqDecision CircuitBreakerState.
Proof. solve_decision. Defined.

(** The fields the breaker reads. *)
Record QuarantinePolicy := mkQuarantine {
  q_enabled : bool;
  failure_rate_threshold : Z;      (* uint32 *)
  timeout_rate_threshold : Z;
  cooldown_period : Z;             (* ms *)
  observation_window : Z;          (* ms *)
  max_circuit_trips : Z
}.
Definition quarantine_default : QuarantinePolicy := mkQuarantine false 0 0 30000 10000 3.

Record ActorCircuit := mkCircuit {
  cb_state : CircuitBreakerState;
  trip_count : Z;
  half_open_probe_in_flight : bool;
  opened_at : Z;
  failure_ema : double;
  failure_rate_tracker : FailureRate.FailureRateTracker
}.

Definition circuit_init (interval : Z) : ActorCircuit :=
  mkCircuit kClosed 0 false 0 (double_of_Z 0) (FailureRate.tracker_init interval).

(** ** Recording outcomes *)

Definition trip_circuit (c : ActorCircuit) (now : Z) : ActorCircuit :=
  mkCircuit kOpen (u32 (trip_count c + 1)) false now (failure_ema c) (failure_rate_tracker c).

Definition trip_unless_open (c : ActorCircuit) (now : Z) : ActorCircuit :=
  match cb_state c with kClosed | kHalfOpen => trip_circuit c now | kOpen => c end.

Definition kAlpha : double := ddiv (double_of_Z 2) (double_of_Z 11).

(** [record_circuit_breaker_result]; the boolean says that the actor is put
    into quarantine. *)
Definition record_circuit_breaker_result (p : QuarantinePolicy) (c : ActorCircuit) (success : bool) (now : Z)
  : bool * ActorCircuit :=
  if negb (q_enabled p) then (false, c)
  else if success then
    match cb_state c with
    | kHalfOpen => (false, mkCircuit kClosed 0 false (opened_at c) (failure_ema c) (failure_rate_tracker c))
    | _ => (false, c)
    end
  else
    let threshold := double_of_Z (failure_rate_threshold p) in
    if dle threshold (double_of_Z 0) then (false, c)
    else
      let rates := FailureRate.tracker_record_failure (FailureRate.advance_buckets (failure_rate_tracker c) now) in
      let ema := dadd (dmul kAlpha (FailureRate.failure_rate rates (u32 (observation_window p))))
                   (dmul (dsub (double_of_Z 1) kAlpha) (failure_ema c)) in
      let c := mkCircuit (cb_state c) (trip_count c) (half_open_probe_in_flight c) (opened_at c) ema rates in
      if dle ema threshold then (false, c)
      else
        let c := trip_unless_open c now in
        ((0 <? max_circuit_trips p) && (max_circuit_trips p <=? trip_count c), c).

(** [record_circuit_breaker_timeout]. *)
Definition record_circuit_breaker_timeout (p : QuarantinePolicy) (c : ActorCircuit) (now : Z) : ActorCircuit :=
  if negb (q_enabled p) then c
  else if timeout_rate_threshold p =? 0 then c
  else
    let rates := FailureRate.tracker_record_timeout (FailureRate.advance_buckets (failure_rate_tracker c) now) in
    let c := mkCircuit (cb_state c) (trip_count c) (half_open_probe_in_flight c) (opened_at c) (failure_ema c) rates in
    if dgt (FailureRate.timeout_rate rates (u32 (observation_window p))) (double_of_Z (timeout_rate_threshold p))
    then trip_unless_open c now else c.

(** ** The gate *)

(** [check_circuit_breaker] of an event-based actor: [true] when the message is
    refused with [CircuitOpen]. *)
Definition circuit_gate (p : QuarantinePolicy) (c : ActorCircuit) (type_tag : Z) (now : Z) : bool * ActorCircuit :=
  if negb (q_enabled p) then (false, c)
  else if is_system_message type_tag then (false, c)
  else
    match cb_state c with
    | kOpen =>
        let elapsed := Z.quot (now - opened_at c) 1000000 in
        if cooldown_period p <=? elapsed
        then (false, mkCircuit kHalfOpen (trip_count c) true (opened_at c) (failure_ema c) (failure_rate_tracker c))
        else (true, c)
    | kHalfOpen =>
        if half_open_probe_in_flight c then (true, c)
        else (false, mkCircuit kHalfOpen (trip_count c) true (opened_at c) (failure_ema c) (failure_rate_tracker c))
    | kClosed => (false, c)
    end.

(** A sequence of arrivals (type tag, time) with no outcome in between: the
    answers and the last state. *)
Fixpoint gate_run (p : QuarantinePolicy) (c : ActorCircuit) (arrivals : list (Z * Z)) : list bool * ActorCircuit :=
  match arrivals with
  | [] => ([], c)
  | (tag, now) :: rest =>
      let '(blocked, c) := circuit_gate p c tag now in
      let '(answers, c) := gate_run p c rest in (blocked :: answers, c)
  end.

Definition let_through (answers : list bool) : nat := length (List.filter negb answers).

Definition probing (c : ActorCircuit) : Prop := cb_state c = kHalfOpen /\ half_open_probe_in_flight c = true.

Lemma gate_probing p c arrivals :
  q_enabled p = true -> probing c -> Forall (fun a => is_system_message a.1 = false) arrivals ->
  let_through (gate_run p c arrivals).1 = 0%nat /\ (gate_run p c arrivals).2 = c.
Proof.
  intros He [Hs Hp]. induction 1 as [|[tag now] rest Htag Hrest IH]; [done|].
  cbn [gate_run]. unfold circuit_gate. simpl in Htag. rewrite He, Htag, Hs, Hp. simpl negb. cbv iota.
  destruct (gate_run p c rest) as [answers c']. simpl in *. done.
Qed.

(** While the circuit is open or half open at most one user message passes the
    gate until an outcome is recorded; it is let through only once the cooldown
    is over, and it leaves the circuit half open with its probe in flight.
    Whether it passes or not, no later message does. *)
Theorem circuit_probes_once p c arrivals :
  q_enabled p = true -> cb_state c <> kClosed -> Forall (fun a => is_system_message a.1 = false) arrivals ->
  (let_through (gate_run p c arrivals).1 <= 1)%nat /\
  (let_through (gate_run p c arrivals).1 = 1%nat -> probing (gate_run p c arrivals).2) /\
  (cb_state c = kOpen -> Forall (fun a => Z.quot (a.2 - opened_at c) 1000000 < cooldown_period p) arrivals ->
     let_through (gate_run p c arrivals).1 = 0%nat).
Proof.
  intros He Hnc Hsys. induction Hsys as [|[tag now] rest Htag Hrest IH]; [split; [unfold let_through; simpl; lia|done]|].
  cbn [gate_run]. simpl in Htag.
  assert (Hgate : (circuit_gate p c tag now = (true, c)) \/
    (exists c', circuit_gate p c tag now = (false, c') /\ probing c' /\
       (cb_state c = kOpen -> cooldown_period p <= Z.quot (now - opened_at c) 1000000))).
  { unfold circuit_gate. rewrite He, Htag. simpl. destruct (cb_state c) eqn:Es; [done|..].
    - destruct (cooldown_period p <=? _) eqn:E; bool_to_prop; [right|by left]. eexists. split; [done|]. by split.
    - destruct (half_open_probe_in_flight c); [by left|right]. eexists. split; [done|]. by split. }
  destruct Hgate as [->|(c' & -> & Hpr & Hcool)].
  - destruct (gate_run p c rest) as [answers c1]. simpl in *. destruct IH as (I1 & I2 & I3). split; [exact I1|].
    split; [exact I2|]. intros Ho Hall. inversion Hall. by apply I3.
  - destruct (gate_probing p c' rest He Hpr Hrest) as [G1 G2]. destruct (gate_run p c' rest) as [answers c1].
    unfold let_through in *. simpl in *. rewrite G1. split; [lia|]. split; [by subst c1|].
    intros Ho Hall. inversion Hall as [|? ? Hlt _]. specialize (Hcool Ho). simpl in Hlt. lia.
Qed.

Definition demo_policy : QuarantinePolicy := mkQuarantine true 2 0 30000 10000 3.
Definition open_circuit (ema : double) : ActorCircuit := mkCircuit kOpen 1 false 0 ema (FailureRate.tracker_init 1000).

Definition demo_arrivals : list (Z * Z) := [(4096, 1); (4096, 30000000000); (5000, 40000000000)].

Lemma circuit_probes_once_witness :
  (gate_run demo_policy (open_circuit (double_of_Z 3)) demo_arrivals).1 = [true; false; true] /\
  (let_through (gate_run demo_policy (open_circuit (double_of_Z 3)) demo_arrivals).1 <= 1)%nat.
Proof.
  split; [by vm_compute|].
  apply (circuit_probes_once demo_policy (open_circuit (double_of_Z 3)) demo_arrivals); [done|done|].
  by repeat constructor.
Defined.

(** A probe that fails after the cooldown, when the failures have left the
    window, may bring the moving average from 2.2 below the threshold of 2 per
    second: the circuit stays half open with the probe still in flight, and
    from then on every user message is refused. *)
Lemma failed_probe_jams_circuit :
  exists c, circuit_gate demo_policy (open_circuit (dlit 11 5)) 4096 40000000000 = (false, c) /\
  exists c', record_circuit_breaker_result demo_policy c false 40000001000 = (false, c') /\ probing c' /\
    forall arrivals, Forall (fun a => is_system_message a.1 = false) arrivals ->
      let_through (gate_run demo_policy c' arrivals).1 = 0%nat.
Proof.
  eexists. split; [by vm_compute|]. eexists. split; [by vm_compute|]. split; [done|].
  intros arrivals Hall. by apply gate_probing.
Qed.
