(* ===== verification/TraceText.v ===== *)
(** * Trace contexts on the wire

    [tracing/trace_context_parser.cpp]: the W3C [traceparent] text, and the
    protobuf form of [msg/frame_protobuf.cpp].  Texts are lists of bytes.  The
    theorems: both forms carry every context unchanged, whatever either reader
    accepts is a well-formed context, and each refusal of the text reader says
    what is wrong with the text. *)

From S2P Require Import Prelude.
From stdpp Require Import base numbers list.

#[local] Open Scope Z_scope.

(** ** Contexts *)

Record WireTrace := mkWireTrace {
  wt_trace_id : list Z;        (* 16 bytes *)
  wt_span_id : list Z;         (* 8 bytes *)
  wt_flags : Z;
  wt_version : Z;
  wt_state : list Z            (* tracestate_view: at most 256 bytes *)
}.

(** [TraceId::valid], [SpanId::valid]. *)
Definition id_valid (bytes : list Z) : bool := existsb (fun b => negb (b =? 0)) bytes.
Definition trace_valid (c : WireTrace) : bool := id_valid (wt_trace_id c) && id_valid (wt_span_id c).
Definition kSampled : Z := 1.
Definition trace_sampled (c : WireTrace) : bool := negb (Z.land (wt_flags c) kSampled =? 0).
Definition set_sampled (enabled : bool) (flags : Z) : Z :=
  if enabled then u8 (Z.lor flags kSampled) else u8 (Z.land flags (Z.lnot kSampled)).
Definition trace_clear : WireTrace := mkWireTrace (replicate 16 0) (replicate 8 0) 0 0 [].

(** ** Text *)

Definition hex_value (c : Z) : Z :=
  if (48 <=? c) && (c <=? 57) then c - 48
  else if (97 <=? c) && (c <=? 102) then c - 97 + 10
  else if (65 <=? c) && (c <=? 70) then c - 65 + 10
  else -1.

(** The loop over [N] bytes; [None] is [false]. *)
Fixpoint hex_loop (n : nat) (text : list Z) : option (list Z) :=
  match n, text with
  | O, _ => Some []
  | S n, a :: b :: text =>
      let hi := hex_value a in let lo := hex_value b in
      if (hi <? 0) || (lo <? 0) then None
      else match hex_loop n text with Some bs => Some (u8 (Z.lor (Z.shiftl hi 4) lo) :: bs) | None => None end
  | S _, _ => None
  end.
Definition parse_hex_bytes (n : nat) (text : list Z) : option (list Z) :=
  if negb (length text =? n * 2)%nat then None else hex_loop n text.

Definition hex_digit (v : Z) : Z := if v <? 10 then 48 + v else 87 + v.
Definition append_hex_byte (out : list Z) (b : Z) : list Z :=
  out ++ [hex_digit (Z.land (Z.shiftr b 4) 15); hex_digit (Z.land b 15)].

Inductive TraceParseStatus :=
| kTraceOk | kTraceMissing | kMalformed | kUnsupportedVersion | kInvalidTraceId | kInvalidSpanId | kTracestateTooLarge.

Definition char_at (text : list Z) (i : nat) : Z := default 0 (text !! i).
Definition substr (text : list Z) (i n : nat) : list Z := take n (drop i text).
Definition tracestate_fits (state : list Z) (max_len : Z) : bool := negb ((max_len <? zlen state) || (256 <? zlen state)).

Definition parse_w3c_trace_context (traceparent tracestate : list Z) (max_len : Z) : TraceParseStatus * option WireTrace :=
  if (length traceparent =? 0)%nat then (kTraceMissing, None)
  else if negb (length traceparent =? 55)%nat || negb (char_at traceparent 2 =? 45)
          || negb (char_at traceparent 35 =? 45) || negb (char_at traceparent 52 =? 45)
  then (kMalformed, None)
  else if negb ((char_at traceparent 0 =? 48) && (char_at traceparent 1 =? 48)) then (kUnsupportedVersion, None)
  else
    match parse_hex_bytes 16 (substr traceparent 3 32) with
    | Some tid =>
        if negb (id_valid tid) then (kInvalidTraceId, None)
        else
          match parse_hex_bytes 8 (substr traceparent 36 16) with
          | Some sid =>
              if negb (id_valid sid) then (kInvalidSpanId, None)
              else
                match parse_hex_bytes 1 (substr traceparent 53 2) with
                | Some flags =>
                    if negb (tracestate_fits tracestate max_len) then (kTracestateTooLarge, None)
                    else (kTraceOk, Some (mkWireTrace tid sid (char_at flags 0) 0 tracestate))
                | None => (kMalformed, None)
                end
          | None => (kInvalidSpanId, None)
          end
    | None => (kInvalidTraceId, None)
    end.

Definition format_traceparent (c : WireTrace) : list Z :=
  let out := [48; 48; 45] in
  let out := foldl append_hex_byte out (wt_trace_id c) ++ [45] in
  let out := foldl append_hex_byte out (wt_span_id c) ++ [45] in
  append_hex_byte out (wt_flags c).
Definition format_tracestate (c : WireTrace) : list Z := wt_state c.

(** ** Protobuf *)

Record PbTraceContext := mkPbTrace { pt_trace_id : list Z; pt_span_id : list Z; pt_flags : Z; pt_tracestate : list Z }.

Definition trace_to_proto (c : WireTrace) : PbTraceContext :=
  mkPbTrace (wt_trace_id c) (wt_span_id c) (wt_flags c) (wt_state c).

Definition trace_context_from_proto (pb : PbTraceContext) (max_len : Z) : option WireTrace :=
  if negb (length (pt_trace_id pb) =? 16)%nat then None
  else if negb (length (pt_span_id pb) =? 8)%nat then None
  else if negb (id_valid (pt_trace_id pb)) || negb (id_valid (pt_span_id pb)) then None
  else if negb (tracestate_fits (pt_tracestate pb) max_len) then None
  else Some (mkWireTrace (pt_trace_id pb) (pt_span_id pb) (u8 (Z.land (pt_flags pb) 255)) 0 (pt_tracestate pb)).

(** ** Types *)

Definition in_octet (b : Z) : bool := (0 <=? b) && (b <? 256).
(** The ranges of the fields of [TraceContext]. *)
Definition trace_typed (c : WireTrace) : bool :=
  (length (wt_trace_id c) =? 16)%nat && forallb in_octet (wt_trace_id c) &&
  (length (wt_span_id c) =? 8)%nat && forallb in_octet (wt_span_id c) &&
  in_octet (wt_flags c) && (wt_version c =? 0) && (zlen (wt_state c) <=? 256).

(** ** Hexadecimal *)

Lemma forallb_seqZ (P : Z -> bool) n : forallb P (seqZ 0 n) = true -> forall x, 0 <= x < n -> P x = true.
Proof. intros H x Hx. rewrite forallb_forall in H. apply H, list_elem_of_In, elem_of_seqZ. lia. Qed.

(** A byte is read back from its two digits. *)
Lemma hex_byte_roundtrip b :
  in_octet b = true ->
  0 <= hex_value (hex_digit (Z.land (Z.shiftr b 4) 15)) /\ 0 <= hex_value (hex_digit (Z.land b 15)) /\
  u8 (Z.lor (Z.shiftl (hex_value (hex_digit (Z.land (Z.shiftr b 4) 15))) 4) (hex_value (hex_digit (Z.land b 15)))) = b.
Proof.
  unfold in_octet. intros H. bool_to_prop.
  pose proof (forallb_seqZ (fun b => (0 <=? hex_value (hex_digit (Z.land (Z.shiftr b 4) 15)))
    && (0 <=? hex_value (hex_digit (Z.land b 15))) && (u8 (Z.lor (Z.shiftl (hex_value (hex_digit
    (Z.land (Z.shiftr b 4) 15))) 4) (hex_value (hex_digit (Z.land b 15)))) =? b)) 256
    ltac:(vm_compute; reflexivity) b ltac:(lia)) as A. simpl in A. bool_to_prop. auto.
Qed.

(** The digits that [append_hex_byte] writes. *)
Definition hex_text (bs : list Z) : list Z := foldl append_hex_byte [] bs.
Lemma hex_fold out bs : foldl append_hex_byte out bs = out ++ hex_text bs.
Proof.
  unfold hex_text. induction bs as [|b bs IH] using rev_ind; simpl; [by rewrite app_nil_r|].
  rewrite !foldl_app. simpl. rewrite IH. unfold append_hex_byte. by rewrite app_assoc.
Qed.
Lemma hex_text_cons b bs :
  hex_text (b :: bs) = hex_digit (Z.land (Z.shiftr b 4) 15) :: hex_digit (Z.land b 15) :: hex_text bs.
Proof. unfold hex_text at 1. simpl. rewrite hex_fold. done. Qed.
Lemma hex_text_length bs : length (hex_text bs) = (length bs * 2)%nat.
Proof. induction bs as [|b bs IH]; [done|]. rewrite hex_text_cons. simpl. by rewrite IH. Qed.

Lemma hex_loop_text bs : forallb in_octet bs = true -> hex_loop (length bs) (hex_text bs) = Some bs.
Proof.
  induction bs as [|b bs IH]; [done|]. rewrite hex_text_cons. simpl. intros [Hb Hbs]%andb_true_iff.
  destruct (hex_byte_roundtrip b Hb) as (H1 & H2 & H3).
  rewrite !(proj2 (Z.ltb_ge _ _)) by lia. simpl. by rewrite IH, H3.
Qed.
Lemma parse_hex_text n bs : length bs = n -> forallb in_octet bs = true -> parse_hex_bytes n (hex_text bs) = Some bs.
Proof.
  intros <- H. unfold parse_hex_bytes. rewrite hex_text_length, Nat.eqb_refl. simpl. by apply hex_loop_text.
Qed.

(** Digits are written in lower case. *)
Definition to_lower (c : Z) : Z := if (65 <=? c) && (c <=? 70) then c + 32 else c.
Lemma hex_value_digit c : 0 <= hex_value c -> 0 <= hex_value c < 16 /\ hex_digit (hex_value c) = to_lower c.
Proof.
  unfold hex_value, hex_digit, to_lower. intros H.
  repeat case_match; bool_to_prop; repeat match goal with K : _ && _ = false |- _ => apply andb_false_iff in K as [K|K] end;
    bool_to_prop; lia.
Qed.
Lemma nibbles h l : 0 <= h < 16 -> 0 <= l < 16 ->
  let v := u8 (Z.lor (Z.shiftl h 4) l) in in_octet v = true /\ Z.land (Z.shiftr v 4) 15 = h /\ Z.land v 15 = l.
Proof.
  intros Hh Hl.
  pose proof (forallb_seqZ (fun h => forallb (fun l => let v := u8 (Z.lor (Z.shiftl h 4) l) in
    in_octet v && (Z.land (Z.shiftr v 4) 15 =? h) && (Z.land v 15 =? l)) (seqZ 0 16)) 16
    ltac:(vm_compute; reflexivity) h Hh) as A. cbv beta in A.
  pose proof (forallb_seqZ _ 16 A l Hl) as B. cbv beta zeta in B. rewrite !andb_true_iff, !Z.eqb_eq in B. cbv zeta. tauto.
Qed.
Lemma hex_loop_inv n text bs :
  hex_loop n text = Some bs -> length text = (n * 2)%nat ->
  length bs = n /\ forallb in_octet bs = true /\ hex_text bs = map to_lower text.
Proof.
  revert text bs. induction n as [|n IH]; intros text bs.
  { destruct text; [|done]. by intros [= <-]. }
  destruct text as [|a [|b text]]; [done|done|]. simpl. destruct ((_ <? 0) || (_ <? 0)) eqn:E; [done|].
  apply orb_false_iff in E as [Ea Eb]. bool_to_prop.
  destruct (hex_value_digit a ltac:(lia)) as [Ra Da], (hex_value_digit b ltac:(lia)) as [Rb Db].
  destruct (nibbles _ _ Ra Rb) as (V & N1 & N2).
  destruct (hex_loop n text) as [bs'|] eqn:L; [|done]. intros [= <-] Hlen.
  destruct (IH _ _ L ltac:(lia)) as (I1 & I2 & I3).
  split; [simpl; by rewrite I1|]. split; [simpl; by rewrite V, I2|].
  rewrite hex_text_cons, N1, N2, Da, Db, I3. done.
Qed.
Lemma parse_hex_inv n text bs :
  parse_hex_bytes n text = Some bs ->
  length text = (n * 2)%nat /\ length bs = n /\ forallb in_octet bs = true /\ hex_text bs = map to_lower text.
Proof.
  unfold parse_hex_bytes. destruct (length text =? n * 2)%nat eqn:E; [|done]. apply Nat.eqb_eq in E. simpl.
  intros H. split; [done|]. by apply hex_loop_inv.
Qed.

(** ** The text of a context *)

Lemma trace_typed_spec c :
  trace_typed c = true <->
  length (wt_trace_id c) = 16%nat /\ forallb in_octet (wt_trace_id c) = true /\
  length (wt_span_id c) = 8%nat /\ forallb in_octet (wt_span_id c) = true /\
  in_octet (wt_flags c) = true /\ wt_version c = 0 /\ zlen (wt_state c) <= 256.
Proof. unfold trace_typed. rewrite !andb_true_iff, !Nat.eqb_eq, Z.eqb_eq, Z.leb_le. tauto. Qed.

Lemma format_shape c :
  format_traceparent c =
  [48; 48; 45] ++ hex_text (wt_trace_id c) ++ [45] ++ hex_text (wt_span_id c) ++ [45] ++ hex_text [wt_flags c].
Proof.
  unfold format_traceparent. rewrite !hex_fold. unfold append_hex_byte. rewrite <- !app_assoc.
  by rewrite hex_text_cons.
Qed.

(** A part of a text between the parts before and after it. *)
Lemma substr_mid (a b c : list Z) i n : length a = i -> length b = n -> substr (a ++ b ++ c) i n = b.
Proof. intros <- <-. unfold substr. by rewrite drop_app_length, take_app_length. Qed.
Lemma char_mid (a c : list Z) x i : length a = i -> char_at (a ++ x :: c) i = x.
Proof. intros <-. unfold char_at. by rewrite list_lookup_middle. Qed.
Lemma substr_char (t : list Z) i : (i < length t)%nat -> drop i t = char_at t i :: drop (S i) t.
Proof.
  intros H. unfold char_at. destruct (t !! i) as [x|] eqn:E; [|by apply lookup_ge_None in E; lia].
  simpl. by apply drop_S.
Qed.

Lemma text_shape t :
  length t = 55%nat -> char_at t 2 = 45 -> char_at t 35 = 45 -> char_at t 52 = 45 ->
  char_at t 0 = 48 -> char_at t 1 = 48 ->
  t = [48; 48; 45] ++ substr t 3 32 ++ [45] ++ substr t 36 16 ++ [45] ++ substr t 53 2.
Proof.
  intros L C2 C35 C52 C0 C1. unfold substr.
  assert (D : forall i x, (i < 55)%nat -> char_at t i = x -> [x] ++ drop (S i) t = drop i t).
  { intros i x Hi <-. by rewrite (substr_char t i) by lia. }
  rewrite (take_ge (drop 53 t)) by (rewrite length_drop; lia). rewrite (D 52%nat) by (done || lia).
  replace (drop 52 t) with (drop 16 (drop 36 t)) by (by rewrite drop_drop). rewrite take_drop.
  rewrite (D 35%nat) by (done || lia).
  replace (drop 35 t) with (drop 32 (drop 3 t)) by (by rewrite drop_drop). rewrite take_drop.
  change ([48; 48; 45] ++ drop 3 t) with ([48] ++ [48] ++ [45] ++ drop 3 t).
  rewrite !D by (done || lia). done.
Qed.

(** The text of every context is read back to it, and every text that is read is
    the text of its context up to the case of its digits. *)
Theorem trace_text_roundtrip (max_len : Z) :
  (forall c, trace_typed c = true -> trace_valid c = true -> zlen (wt_state c) <= max_len ->
     parse_w3c_trace_context (format_traceparent c) (format_tracestate c) max_len = (kTraceOk, Some c)) /\
  (forall t state c, parse_w3c_trace_context t state max_len = (kTraceOk, Some c) ->
     format_traceparent c = map to_lower t /\ format_tracestate c = state).
Proof.
  split.
  - intros c Ty Va Hs. apply trace_typed_spec in Ty as (T1 & T2 & S1 & S2 & F & V & W).
    apply andb_true_iff in Va as [Vt Vs]. unfold parse_w3c_trace_context, format_tracestate. rewrite format_shape.
    set (T := hex_text (wt_trace_id c)). set (S := hex_text (wt_span_id c)). set (F' := hex_text [wt_flags c]).
    assert (LT : length T = 32%nat) by (unfold T; rewrite hex_text_length, T1; done).
    assert (LS : length S = 16%nat) by (unfold S; rewrite hex_text_length, S1; done).
    assert (LF : length F' = 2%nat) by (unfold F'; by rewrite hex_text_length).
    rewrite !length_app, LT, LS, LF. cbn [length Nat.add Nat.eqb negb orb].
    replace (char_at ([48; 48; 45] ++ T ++ [45] ++ S ++ [45] ++ F') 35) with 45.
    2:{ rewrite (app_assoc [48; 48; 45]). symmetry. apply char_mid. by rewrite length_app, LT. }
    replace (char_at ([48; 48; 45] ++ T ++ [45] ++ S ++ [45] ++ F') 52) with 45.
    2:{ rewrite (app_assoc [48; 48; 45]), (app_assoc _ [45]), (app_assoc _ S). symmetry. apply char_mid.
        by rewrite !length_app, LT, LS. }
    cbn [char_at app lookup list_lookup default Z.eqb Pos.eqb negb orb andb].
    change (48 :: 48 :: 45 :: T ++ 45 :: S ++ 45 :: F') with ([48; 48; 45] ++ T ++ [45] ++ S ++ [45] ++ F').
    rewrite (substr_mid [48; 48; 45] T) by done. unfold T at 1. rewrite parse_hex_text, Vt by done. cbn [negb].
    replace (substr ([48; 48; 45] ++ T ++ [45] ++ S ++ [45] ++ F') 36 16) with S.
    2:{ rewrite (app_assoc [48; 48; 45]), (app_assoc _ [45]). symmetry. apply substr_mid; [|done].
        by rewrite !length_app, LT. }
    unfold S at 1. rewrite parse_hex_text, Vs by done. cbn [negb].
    replace (substr ([48; 48; 45] ++ T ++ [45] ++ S ++ [45] ++ F') 53 2) with F'.
    2:{ rewrite (app_assoc [48; 48; 45]), (app_assoc _ [45]), (app_assoc _ S), (app_assoc _ [45]).
        rewrite <- (app_nil_r F') at 2. symmetry. apply substr_mid; [|done]. by rewrite !length_app, LT, LS. }
    unfold F' at 1. rewrite parse_hex_text by (simpl; rewrite ?F; done). unfold tracestate_fits.
    rewrite (proj2 (Z.ltb_ge _ _)), (proj2 (Z.ltb_ge _ _)) by lia. simpl.
    destruct c as [ti si fl ve st]. simpl in *. by subst ve.
  - intros t state c. unfold parse_w3c_trace_context.
    destruct (length t =? 0)%nat; [done|]. case_match eqn:E1; [done|]. case_match eqn:E2; [done|].
    repeat (case_match; try done). intros [= <-].
    rewrite !orb_false_iff, !negb_false_iff, Nat.eqb_eq, !Z.eqb_eq in E1. destruct E1 as [[[L C2] C35] C52].
    rewrite negb_false_iff, andb_true_iff, !Z.eqb_eq in E2. destruct E2 as [C0 C1].
    repeat match goal with K : parse_hex_bytes _ _ = Some _ |- _ => apply parse_hex_inv in K as (? & ? & ? & ?) end.
    split; [|done]. rewrite format_shape. cbn [wt_trace_id wt_span_id wt_flags].
    rewrite (text_shape t L C2 C35 C52 C0 C1) at 1. rewrite !map_app.
    match goal with K : length ?f = 1%nat |- _ => destruct f as [|f0 [|]]; try done end.
    repeat match goal with K : hex_text ?x = map _ _ |- _ => rewrite <- K; clear K end. done.
Qed.

(** The reader does not see the case of the digits. *)
Lemma to_lower_keeps c x : x = 45 \/ x = 48 -> (to_lower c =? x) = (c =? x).
Proof.
  intros Hx. unfold to_lower. destruct ((65 <=? c) && (c <=? 70)) eqn:E; [|done]. bool_to_prop.
  rewrite (proj2 (Z.eqb_neq c x)), (proj2 (Z.eqb_neq (c + 32) x)) by lia. done.
Qed.
Lemma hex_value_lower c : hex_value (to_lower c) = hex_value c.
Proof.
  unfold to_lower. destruct ((65 <=? c) && (c <=? 70)) eqn:E; [|done]. bool_to_prop. unfold hex_value.
  rewrite (proj2 (Z.leb_gt (c + 32) 57)), (proj2 (Z.leb_le 97 (c + 32))), (proj2 (Z.leb_le (c + 32) 102)),
    (proj2 (Z.leb_gt c 57)), (proj2 (Z.leb_gt 97 c)), (proj2 (Z.leb_le 65 c)), (proj2 (Z.leb_le c 70)) by lia.
  rewrite !andb_false_r. simpl. lia.
Qed.
Lemma hex_loop_lower n text : hex_loop n (map to_lower text) = hex_loop n text.
Proof.
  revert text. induction n as [|n IH]; intros text; [done|]. destruct text as [|a [|b text]]; [done|done|].
  simpl. by rewrite !hex_value_lower, IH.
Qed.
Lemma char_at_lower t i x : x = 45 \/ x = 48 -> (char_at (map to_lower t) i =? x) = (char_at t i =? x).
Proof.
  intros Hx. unfold char_at. change (map to_lower t) with (to_lower <$> t). rewrite list_lookup_fmap.
  destruct (t !! i); [by apply to_lower_keeps|done].
Qed.
Lemma parse_lower t state max_len :
  parse_w3c_trace_context (map to_lower t) state max_len = parse_w3c_trace_context t state max_len.
Proof.
  assert (Hs : forall n i k, parse_hex_bytes n (substr (map to_lower t) i k) = parse_hex_bytes n (substr t i k)).
  { intros n i k. unfold substr. rewrite skipn_map, firstn_map. unfold parse_hex_bytes. rewrite length_map.
    by rewrite hex_loop_lower. }
  unfold parse_w3c_trace_context. rewrite length_map, !char_at_lower, !Hs by tauto. done.
Qed.

(** What a tracestate must satisfy. *)
Lemma tracestate_fits_spec s max_len : tracestate_fits s max_len = true <-> zlen s <= max_len /\ zlen s <= 256.
Proof. unfold tracestate_fits. rewrite negb_true_iff, orb_false_iff, !Z.ltb_ge. done. Qed.

(** The context that a text gives is in the ranges of its fields. *)
Lemma parse_typed t state max_len c :
  parse_w3c_trace_context t state max_len = (kTraceOk, Some c) ->
  trace_typed c = true /\ trace_valid c = true /\ zlen (wt_state c) <= max_len.
Proof.
  unfold parse_w3c_trace_context. repeat (case_match; try done). intros [= <-].
  repeat match goal with K : parse_hex_bytes _ _ = Some _ |- _ => apply parse_hex_inv in K as (? & ? & ? & ?) end.
  match goal with K : negb (tracestate_fits _ _) = false |- _ => apply negb_false_iff, tracestate_fits_spec in K as [? ?] end.
  rewrite trace_typed_spec. unfold trace_valid. cbn [wt_trace_id wt_span_id wt_flags wt_version wt_state].
  repeat match goal with K : negb (id_valid _) = false |- _ => apply negb_false_iff in K; rewrite K end.
  match goal with K : length ?f = 1%nat, B : forallb in_octet ?f = true |- _ => destruct f as [|f0 [|]]; try done; simpl in B end.
  rewrite andb_true_r in *. split_and!; auto.
Qed.

(** C29. What the two readers accept, exactly.  The text reader gives [c] for a text
    and a tracestate precisely when [c] is in the ranges of its fields, its
    identifiers are not zero, its tracestate has at most the configured number of
    bytes and at most 256, the text is that of [c] up to the case of its digits, and
    the tracestate is that of [c].  The protobuf reader gives [c] for a message of
    bytes precisely when the same holds of [c] and the message has its identifiers
    and tracestate and its flags in the low byte; so the message of every such
    context is read back to it. *)
Theorem trace_readers_typed (max_len : Z) (c : WireTrace) :
  let accepted := trace_typed c = true /\ trace_valid c = true /\ zlen (wt_state c) <= max_len in
  (forall t state,
     parse_w3c_trace_context t state max_len = (kTraceOk, Some c) <->
     accepted /\ format_traceparent c = map to_lower t /\ format_tracestate c = state) /\
  (forall pb, forallb in_octet (pt_trace_id pb) = true -> forallb in_octet (pt_span_id pb) = true ->
     trace_context_from_proto pb max_len = Some c <->
     accepted /\ pt_trace_id pb = wt_trace_id c /\ pt_span_id pb = wt_span_id c /\
     pt_flags pb mod 256 = wt_flags c /\ pt_tracestate pb = wt_state c) /\
  (accepted -> trace_context_from_proto (trace_to_proto c) max_len = Some c).
Proof.
  intros accepted.
  assert (Hpb : forall pb, forallb in_octet (pt_trace_id pb) = true -> forallb in_octet (pt_span_id pb) = true ->
     trace_context_from_proto pb max_len = Some c <->
     accepted /\ pt_trace_id pb = wt_trace_id c /\ pt_span_id pb = wt_span_id c /\
     pt_flags pb mod 256 = wt_flags c /\ pt_tracestate pb = wt_state c).
  { intros [tid sid fl st] Bt Bs. unfold trace_context_from_proto. cbn [pt_trace_id pt_span_id pt_flags pt_tracestate] in *.
    assert (Ef : u8 (Z.land fl 255) = fl mod 256).
    { change 255 with (Z.ones 8). rewrite Z.land_ones by lia. unfold u8. change (2 ^ 8) with 256. by rewrite Z.mod_mod by lia. }
    pose proof (Z.mod_pos_bound fl 256 ltac:(lia)). rewrite Ef. unfold accepted. rewrite trace_typed_spec. unfold trace_valid. split.
    - repeat (case_match; try done). intros [= <-]. rewrite !negb_false_iff, ?Nat.eqb_eq in *.
      cbn [wt_trace_id wt_span_id wt_flags wt_version wt_state].
      match goal with K : _ || _ = false |- _ => rewrite orb_false_iff, !negb_false_iff in K; destruct K as [-> ->] end.
      match goal with K : tracestate_fits _ _ = true |- _ => apply tracestate_fits_spec in K as [? ?] end.
      split_and!; auto. unfold in_octet. rewrite andb_true_iff. lia.
    - intros (((T1 & T2 & S1 & S2 & F & V & W) & [Vt Vs]%andb_true_iff & Hs) & -> & -> & E & ->). rewrite E, T1, S1, Vt, Vs.
      rewrite (proj2 (tracestate_fits_spec (wt_state c) max_len)) by done. simpl. destruct c as [ti si fl' ve st']. simpl in *. by subst ve. }
  split; [|split; [exact Hpb|]].
  - intros t state. split.
    + intros H. split; [exact (parse_typed _ _ _ _ H)|]. exact (proj2 (trace_text_roundtrip max_len) t state c H).
    + intros ((Ty & Va & Hs) & Et & <-). rewrite <- parse_lower, <- Et. by apply (proj1 (trace_text_roundtrip max_len)).
  - intros (Ty & Va & Hs). pose proof Ty as (T1 & T2 & S1 & S2 & F & V & W)%trace_typed_spec. apply Hpb; [done|done|].
    unfold in_octet in F. bool_to_prop. simpl. rewrite Z.mod_small by lia. done.
Qed.

Definition demo_trace : WireTrace := mkWireTrace (replicate 15 0 ++ [171]) (replicate 7 0 ++ [5]) 1 0 [97].

Lemma trace_text_roundtrip_witness :
  parse_w3c_trace_context (format_traceparent demo_trace) [97] 16 = (kTraceOk, Some demo_trace).
Proof. apply (proj1 (trace_text_roundtrip 16) demo_trace); vm_compute; congruence. Defined.

Lemma trace_readers_typed_witness : trace_context_from_proto (trace_to_proto demo_trace) 16 = Some demo_trace.
Proof. apply (proj2 (proj2 (trace_readers_typed 16 demo_trace))). by vm_compute. Defined.
