(* ===== verification/Pipeline.v ===== *)
(** * The delivery pipeline

    [mailbox/delivery_pipeline.hpp], [mailbox/delivery_pipeline.cpp]: actor
    lookup, circuit breaker, default TTL, expiry, duplicate check, mailbox
    admission, rejection records and backpressure signals, over the mailbox of
    [Mailbox.v], the cache of [Dedup.v], the queue of [DeadLetters.v] and the
    breaker of [ActorCircuit.v].  The function pointers of a fixed mailbox are
    parameters.  Each read of the steady clock is a field of [Clock].  The
    theorems: a tracked message enters the mailbox at most once while its key
    is cached, a refusal leaves the cache as it was, and where every message
    that is not enqueued ends up. *)

From S2P Require Import Prelude DeliveryTypes Pressure Reservation Lanes Admission Mailbox MailboxInv MailboxSpec Dedup DeadLetters ActorCircuit TraceText.
From stdpp Require Import base numbers list gmap.

#[local] Open Scope Z_scope.

(** ** Data *)

Inductive BackpressureMode := BM_Disabled | BM_LocalSignal | BM_RemoteSignal | BM_LocalAndRemoteSignal.

Definition local_signal_enabled (m : BackpressureMode) : bool :=
  match m with BM_LocalSignal | BM_LocalAndRemoteSignal => true | _ => false end.
Definition remote_signal_enabled (m : BackpressureMode) : bool :=
  match m with BM_RemoteSignal | BM_LocalAndRemoteSignal => true | _ => false end.

Definition pressure_result_should_signal (r : EnqueueResult) : bool :=
  bool_decide (er_code r = EC_AcceptedWithSoftPressure) || (negb (er_accepted r) && er_retryable r).

Definition fold_bytes (l : list Z) : Z := fold_left (fun acc b => Z.lor (u64 (Z.shiftl acc 8)) b) l 0.

(** The clock reads of one delivery. *)
Record Clock := mkClock { ck_breaker : Z; ck_ttl : Z; ck_expiry : Z; ck_admission : Z; ck_record : Z; ck_signal : Z }.

Section Pipeline.
Context {EndPoint : Type} `{Countable EndPoint}.

Record MsgAddress := mkAddr { a_endpoint : EndPoint; a_type : Z; a_id : Z; a_node : Z }.

Record Message := mkMessage {
  m_type_id : Z;
  m_payload : list Z;
  m_sender : MsgAddress;
  m_trace : option WireTrace;
  m_deadline_ns : Z;
  m_priority : Z;
  m_flags : Z;
  m_message_id : Z;
  m_ack_requested : bool
}.

Definition set_deadline (m : Message) (d : Z) : Message :=
  mkMessage (m_type_id m) (m_payload m) (m_sender m) (m_trace m) d (m_priority m) (m_flags m) (m_message_id m) (m_ack_requested m).
Definition set_delivery (m : Message) (priority flags : Z) : Message :=
  mkMessage (m_type_id m) (m_payload m) (m_sender m) (m_trace m) (m_deadline_ns m) priority flags (m_message_id m) (m_ack_requested m).

Record DeliveryOptions := mkOptions {
  o_no_drop : bool;
  o_emit_backpressure : bool;
  o_mode : DeliveryMode;
  o_message_id : Z;
  o_flags : Z;
  o_schedule_edf : bool
}.

Record BackpressureSignal := mkSignal {
  s_target : MsgAddress; s_sender : MsgAddress; s_reason : BackpressureReason; s_depth : Z; s_capacity : Z;
  s_bytes : Z; s_byte_capacity : Z; s_retry_after : Z; s_sequence : Z; s_remote : bool
}.

Inductive DeliveryMetric :=
| MFailure (r : FailureReason) | MDuplicate | MExpired | MResult (s : DeliveryStatus) | MHalfOpen (trips : Z).

Context (sizeof_message : Z) (iteration_order : gmap Z ActorRateLimiter -> list Z).

#[local] Instance message_node : MailboxNode Message := {|
  node_is_system m := is_system_message (m_type_id m);
  estimate_node_bytes m := u64 (sizeof_message + zlen (m_payload m))
|}.

(** A fixed mailbox reached through its control port. *)
Context {Fixed : Type}.
Context (control_try_push : Fixed -> Message -> EnqueueResult * Fixed).
Context (control_try_push_dynamic : option (Fixed -> Message -> EnqueueResult * Fixed)).

(** What the pipeline reaches through its [Config]: a null pointer is [None]. *)
Record Pipeline := mkPipeline {
  p_endpoint : EndPoint;
  p_default_ttl_ms : Z;
  p_has_metrics : bool;
  p_has_backpressure : bool;
  p_mailboxes : gmap Z (Mailbox Message);
  p_backpressure_mode : gmap Z BackpressureMode;
  p_fixed : gmap Z Fixed;
  p_breakers : gmap Z (QuarantinePolicy * ActorCircuit);     (* event-based actors *)
  p_dlq : option (DeadLetterQueue (Addr := MsgAddress));
  p_dedup : option (DedupCache (EndPoint := EndPoint));
  p_metrics : list (Z * DeliveryMetric);
  p_signals : list BackpressureSignal
}.

Definition set_mailbox p id x := mkPipeline (p_endpoint p) (p_default_ttl_ms p) (p_has_metrics p) (p_has_backpressure p) (<[id := x]> (p_mailboxes p)) (p_backpressure_mode p) (p_fixed p) (p_breakers p) (p_dlq p) (p_dedup p) (p_metrics p) (p_signals p).
Definition set_fixed p id x := mkPipeline (p_endpoint p) (p_default_ttl_ms p) (p_has_metrics p) (p_has_backpressure p) (p_mailboxes p) (p_backpressure_mode p) (<[id := x]> (p_fixed p)) (p_breakers p) (p_dlq p) (p_dedup p) (p_metrics p) (p_signals p).
Definition set_breaker p id x := mkPipeline (p_endpoint p) (p_default_ttl_ms p) (p_has_metrics p) (p_has_backpressure p) (p_mailboxes p) (p_backpressure_mode p) (p_fixed p) (<[id := x]> (p_breakers p)) (p_dlq p) (p_dedup p) (p_metrics p) (p_signals p).
Definition set_dlq p x := mkPipeline (p_endpoint p) (p_default_ttl_ms p) (p_has_metrics p) (p_has_backpressure p) (p_mailboxes p) (p_backpressure_mode p) (p_fixed p) (p_breakers p) x (p_dedup p) (p_metrics p) (p_signals p).
Definition set_dedup p x := mkPipeline (p_endpoint p) (p_default_ttl_ms p) (p_has_metrics p) (p_has_backpressure p) (p_mailboxes p) (p_backpressure_mode p) (p_fixed p) (p_breakers p) (p_dlq p) x (p_metrics p) (p_signals p).
Definition emit_signal p x := mkPipeline (p_endpoint p) (p_default_ttl_ms p) (p_has_metrics p) (p_has_backpressure p) (p_mailboxes p) (p_backpressure_mode p) (p_fixed p) (p_breakers p) (p_dlq p) (p_dedup p) (p_metrics p) (p_signals p ++ [x]).
Definition metric (p : Pipeline) (target : Z) (e : DeliveryMetric) : Pipeline :=
  if p_has_metrics p
  then mkPipeline (p_endpoint p) (p_default_ttl_ms p) (p_has_metrics p) (p_has_backpressure p) (p_mailboxes p) (p_backpressure_mode p) (p_fixed p) (p_breakers p) (p_dlq p) (p_dedup p) (p_metrics p ++ [(target, e)]) (p_signals p)
  else p.

(** ** Stages *)

Definition should_dead_letter (p : Pipeline) (mode : DeliveryMode) : bool :=
  match p_dlq p with
  | None => false
  | Some q => dlq_enabled (dlq_config q) && should_route_to_dlq mode (routing_policy (dlq_config q))
  end.

Definition target_address (p : Pipeline) (target : Z) : MsgAddress := mkAddr (p_endpoint p) 0 target 0.

(** [set_dlq_trace_fields]. *)
Definition trace_fields (t : option WireTrace) : Z * Z * Z :=
  match t with
  | None => (0, 0, 0)
  | Some tc => (fold_bytes (take 8 (wt_trace_id tc)), fold_bytes (take 8 (drop 8 (wt_trace_id tc))), fold_bytes (take 8 (wt_span_id tc)))
  end.

Definition push_dead_letter (p : Pipeline) (mode : DeliveryMode) (r : DeadLetterRecord) : Pipeline :=
  if should_dead_letter p mode then
    match p_dlq p with Some q => set_dlq p (Some (dlq_try_push q r).2) | None => p end
  else p.

(** The record the early stages build. *)
Definition local_record (p : Pipeline) (reason : DeadLetterReason) (target : Z) (m : Message) (o : DeliveryOptions)
    (priority deadline_ns now : Z) : DeadLetterRecord :=
  let '(hi, lo, sp) := trace_fields (m_trace m) in
  mkDeadLetter reason DLS_LocalDelivery (m_sender m) (target_address p target) (m_type_id m) (o_message_id o) (o_flags o)
    priority deadline_ns hi lo sp 0 (m_payload m) 0 0 now.

Definition result_of (code : EnqueueResultCode) (target : Z) : EnqueueResult :=
  mkEnqueueResult code target 0 0 0 0 BR_HighWatermark PS_Normal (double_of_Z 0) 0.

Definition reject_missing_actor (p : Pipeline) (ck : Clock) (target : Z) (m : Message) (o : DeliveryOptions)
    (priority deadline_ns : Z) : EnqueueResult * Pipeline :=
  let p := push_dead_letter p (o_mode o) (local_record p DLR_ActorNotFound target m o priority deadline_ns (ck_record ck)) in
  (result_of EC_ActorNotFound target, metric p target (MFailure FR_NoRoute)).

(** [check_circuit_breaker]; the move to half open is reported by the actor's
    own ring buffer, here the same list. *)
Definition check_circuit_breaker (p : Pipeline) (ck : Clock) (target : Z) (m : Message) (o : DeliveryOptions)
    (priority deadline_ns : Z) : option EnqueueResult * Pipeline :=
  match p_breakers p !! target with
  | None => (None, p)
  | Some (pol, c) =>
      let '(blocked, c') := circuit_gate pol c (m_type_id m) (ck_breaker ck) in
      let p := set_breaker p target (pol, c') in
      if blocked then
        (Some (result_of EC_CircuitOpen target),
         push_dead_letter p (o_mode o) (local_record p DLR_EndpointCircuitOpen target m o priority deadline_ns (ck_record ck)))
      else
        (None, if bool_decide (cb_state c = kOpen /\ cb_state c' = kHalfOpen)
               then metric p target (MHalfOpen (trip_count c')) else p)
  end.

Definition apply_default_ttl (p : Pipeline) (ck : Clock) (deadline_ns : Z) : Z :=
  if negb (deadline_ns =? INT64_MAX) || (p_default_ttl_ms p =? 0) then deadline_ns
  else
    let ttl_ns := u64 (u64 (p_default_ttl_ms p) * 1000000) in
    if u64 (INT64_MAX - ck_ttl ck) <? ttl_ns then INT64_MAX - 1
    else i64 (ck_ttl ck + ttl_ns).

Definition check_expired (p : Pipeline) (ck : Clock) (target : Z) (m : Message) (o : DeliveryOptions)
    (priority deadline_ns : Z) : option EnqueueResult * Pipeline :=
  if negb (is_expired deadline_ns (ck_expiry ck)) then (None, p)
  else
    let p := metric p target MExpired in
    (Some (result_of EC_Rejected target),
     push_dead_letter p (o_mode o) (local_record p DLR_Expired target m o priority deadline_ns (ck_expiry ck))).

Definition dedup_key (m : Message) (o : DeliveryOptions) : DedupKey :=
  (a_endpoint (m_sender m), a_id (m_sender m), o_message_id o).
Definition dedup_applies (p : Pipeline) (o : DeliveryOptions) : bool :=
  is_tracked_delivery (o_mode o) && bool_decide (is_Some (p_dedup p)) && negb (o_message_id o =? 0).

(** [check_duplicate]; [order] is the iteration order of the cache. *)
Definition check_duplicate (p : Pipeline) (order : list DedupKey) (target : Z) (m : Message) (o : DeliveryOptions)
  : option EnqueueResult * Pipeline :=
  match p_dedup p with
  | Some d =>
      if dedup_applies p o then
        let '(dup, d) := is_duplicate (dedup_key m o) order d in
        let p := set_dedup p (Some d) in
        if dup then (Some (result_of EC_Accepted target), metric p target MDuplicate) else (None, p)
      else (None, p)
  | None => (None, p)
  end.

Definition emit_rejection_observability (p : Pipeline) (ck : Clock) (target : Z) (m : Message) (meta_flags : Z)
    (priority deadline_ns : Z) (r : EnqueueResult) (o : DeliveryOptions) (policy : OverflowPolicy) : Pipeline :=
  if er_accepted r then p
  else
    let p :=
      if bool_decide (policy = OP_DeadLetter) then
        let '(hi, lo, sp) := trace_fields (m_trace m) in
        push_dead_letter p (o_mode o)
          (mkDeadLetter DLR_OverflowPolicy DLS_MailboxAdmission (m_sender m) (target_address p target) (m_type_id m)
             (o_message_id o) meta_flags priority deadline_ns hi lo sp 0 (m_payload m) (er_depth r) (er_capacity r) (ck_record ck))
      else p in
    metric p target (MFailure (failure_reason (er_code r))).

Definition maybe_emit_backpressure (p : Pipeline) (ck : Clock) (target : Z) (m : Message) (r : EnqueueResult)
    (emit_requested : bool) (mode : BackpressureMode) (sender_is_remote : bool) : Pipeline :=
  match p_mailboxes p !! target with
  | None => p
  | Some mb =>
      if negb emit_requested || negb (pressure_result_should_signal r) then p
      else if sender_is_remote && negb (remote_signal_enabled mode) then p
      else if negb sender_is_remote && negb (local_signal_enabled mode) then p
      else
        let '(sequence, mb) := try_acquire_backpressure_signal mb (ck_signal ck) (er_pressure_state r) (negb (er_accepted r)) in
        let p := set_mailbox p target mb in
        match sequence with
        | None => p
        | Some seq =>
            if p_has_backpressure p then
              emit_signal p (mkSignal (target_address p (er_target r)) (m_sender m) (er_pressure_reason r) (er_depth r)
                (er_capacity r) (er_bytes r) (er_byte_capacity r) (er_retry_after r) seq sender_is_remote)
            else p
        end
  end.

Definition NoDrop : Z := 2.

(** From the mailbox on: enqueue, roll back the cache on refusal, report. *)
Definition deliver_to_mailbox (p : Pipeline) (ck : Clock) (mb : Mailbox Message) (target : Z) (m : Message)
    (priority deadline_ns : Z) (o : DeliveryOptions) (dedup_inserted : bool) : EnqueueResult * Pipeline :=
  let flags := if o_no_drop o then Z.lor (o_flags o) NoDrop else o_flags o in
  let meta := mkMeta (a_id (m_sender m)) (m_type_id m) priority deadline_ns 0 (o_schedule_edf o) in
  let m := set_delivery m priority flags in
  let mode := default BM_Disabled (p_backpressure_mode p !! target) in
  let sender_is_remote := negb (bool_decide (a_endpoint (m_sender m) = p_endpoint p)) && negb (a_id (m_sender m) =? 0) in
  let '(result, mb) := try_push iteration_order mb (ck_admission ck) m meta in
  let p := set_mailbox p target mb in
  let p :=
    if negb (er_accepted result) then
      let p := if dedup_inserted then
                 match p_dedup p with Some d => set_dedup p (Some (dedup_remove (dedup_key m o) d)) | None => p end
               else p in
      emit_rejection_observability p ck target m flags priority deadline_ns result o (overflow_policy (config mb))
    else p in
  (result, maybe_emit_backpressure p ck target m result (o_emit_backpressure o) mode sender_is_remote).

(** [try_deliver]. *)
Definition try_deliver (p : Pipeline) (ck : Clock) (order : list DedupKey) (target : Z) (m : Message)
    (priority deadline_ns : Z) (o : DeliveryOptions) : EnqueueResult * Pipeline :=
  match p_mailboxes p !! target with
  | None =>
      match p_fixed p !! target with
      | Some f =>
          if is_system_message (m_type_id m) then
            let '(r, f) := control_try_push f m in (r, set_fixed p target f)
          else
            match control_try_push_dynamic with
            | Some push => let '(r, f) := push f m in (r, set_fixed p target f)
            | None => (result_of EC_Rejected target, p)
            end
      | None => reject_missing_actor p ck target m o priority deadline_ns
      end
  | Some mb =>
      let '(blocked, p) := check_circuit_breaker p ck target m o priority deadline_ns in
      match blocked with
      | Some r => (r, p)
      | None =>
          let deadline_ns := apply_default_ttl p ck deadline_ns in
          let m := set_deadline m deadline_ns in
          let '(expired, p) := check_expired p ck target m o priority deadline_ns in
          match expired with
          | Some r => (r, p)
          | None =>
              let '(dup, p') := check_duplicate p order target m o in
              match dup with
              | Some r => (r, p')
              | None => deliver_to_mailbox p' ck mb target m priority deadline_ns o (dedup_applies p o)
              end
          end
      end
  end.

(** [deliver_with_result]. *)
Definition deliver_with_result (p : Pipeline) (ck : Clock) (order : list DedupKey) (target : Z) (m : Message)
    (priority deadline_ns : Z) (o : DeliveryOptions) : DeliveryStatus * Pipeline :=
  let '(er, p) := try_deliver p ck order target m priority deadline_ns o in
  let status := status_of_enqueue (er_code er) in
  let p := match p_mailboxes p !! target with
           | Some mb => set_mailbox p target (record_delivery_result mb status)
           | None => p
           end in
  (status, metric p target (MResult status)).

(** ** What a delivery does to the cache and the mailboxes *)

Definition untouched (p p' : Pipeline) : Prop := p_mailboxes p' = p_mailboxes p /\ p_dedup p' = p_dedup p.

Lemma untouched_trans p q r : untouched p q -> untouched q r -> untouched p r.
Proof. intros [H1 H2] [H3 H4]. split; congruence. Qed.

Lemma metric_untouched p t e : untouched p (metric p t e) /\ p_breakers (metric p t e) = p_breakers p.
Proof. unfold metric. by destruct (p_has_metrics p). Qed.

Lemma push_dead_letter_untouched p mode r :
  untouched p (push_dead_letter p mode r) /\ p_breakers (push_dead_letter p mode r) = p_breakers p.
Proof. unfold push_dead_letter. destruct (should_dead_letter p mode); [|done]. by destruct (p_dlq p). Qed.

Lemma check_circuit_untouched p ck t m o pr dl : untouched p (check_circuit_breaker p ck t m o pr dl).2.
Proof.
  unfold check_circuit_breaker. destruct (p_breakers p !! t) as [[pol c]|]; [|done].
  destruct (circuit_gate pol c (m_type_id m) (ck_breaker ck)) as [[] c']; simpl.
  - apply (untouched_trans _ (set_breaker p t (pol, c'))); [done|apply push_dead_letter_untouched].
  - case_bool_decide; [|done]. apply (untouched_trans _ (set_breaker p t (pol, c'))); [done|apply metric_untouched].
Qed.

Lemma check_expired_untouched p ck t m o pr dl : untouched p (check_expired p ck t m o pr dl).2.
Proof.
  unfold check_expired. destruct (negb _); [done|]. simpl. eapply untouched_trans; [apply metric_untouched|apply push_dead_letter_untouched].
Qed.

Lemma reject_untouched p ck t m o pr dl : untouched p (reject_missing_actor p ck t m o pr dl).2.
Proof.
  unfold reject_missing_actor. simpl. eapply untouched_trans; [apply push_dead_letter_untouched|apply metric_untouched].
Qed.

Lemma rejection_untouched p ck t m fl pr dl r o pol :
  untouched p (emit_rejection_observability p ck t m fl pr dl r o pol).
Proof.
  unfold emit_rejection_observability. destruct (er_accepted r); [done|].
  case_bool_decide; [|apply metric_untouched]. destruct (trace_fields (m_trace m)) as [[hi lo] sp].
  eapply untouched_trans; [apply push_dead_letter_untouched|apply metric_untouched].
Qed.

Lemma backpressure_dedup p ck t m r e mode rem : p_dedup (maybe_emit_backpressure p ck t m r e mode rem) = p_dedup p.
Proof.
  unfold maybe_emit_backpressure. destruct (p_mailboxes p !! t) as [mb|]; [|done].
  destruct (_ || _); [done|]. destruct (rem && _); [done|]. destruct (negb rem && _); [done|].
  destruct (try_acquire_backpressure_signal _ _ _ _) as [[seq|] mb']; simpl; [|done]. by destruct (p_has_backpressure p).
Qed.

(** The mailbox stage keeps the cache when the message is accepted and drops the
    key it inserted when it is refused. *)
Lemma mailbox_dedup p ck mb t m pr dl o ins r p' :
  deliver_to_mailbox p ck mb t m pr dl o ins = (r, p') ->
  p_dedup p' = (if negb (er_accepted r) && ins then dedup_remove (dedup_key m o) <$> p_dedup p else p_dedup p).
Proof.
  unfold deliver_to_mailbox. destruct (try_push _ _ _ _ _) as [res mb'] eqn:Et. intros [= <- <-].
  rewrite backpressure_dedup. destruct (er_accepted res); [done|]. simpl.
  destruct ins; simpl; [|by rewrite (proj2 (rejection_untouched _ _ _ _ _ _ _ _ _ _))].
  destruct (p_dedup p) as [d|] eqn:Ed; by rewrite (proj2 (rejection_untouched _ _ _ _ _ _ _ _ _ _)).
Qed.

(** The four ways a delivery can end, for the cache and the mailboxes. *)
Inductive effect (p : Pipeline) (order : list DedupKey) (m : Message) (o : DeliveryOptions) (r : EnqueueResult)
  : Pipeline -> Prop :=
| effect_none p' : untouched p p' -> effect p order m o r p'
| effect_plain p' : dedup_applies p o = false -> p_dedup p' = p_dedup p -> effect p order m o r p'
| effect_duplicate d p' :
    p_dedup p = Some d -> dedup_applies p o = true -> (is_duplicate (dedup_key m o) order d).1 = true ->
    p_mailboxes p' = p_mailboxes p -> p_dedup p' = Some (is_duplicate (dedup_key m o) order d).2 ->
    effect p order m o r p'
| effect_pushed d p' :
    p_dedup p = Some d -> dedup_applies p o = true -> (is_duplicate (dedup_key m o) order d).1 = false ->
    p_dedup p' = Some (if er_accepted r then (is_duplicate (dedup_key m o) order d).2
                       else dedup_remove (dedup_key m o) (is_duplicate (dedup_key m o) order d).2) ->
    effect p order m o r p'.

Lemma try_deliver_effect p ck order t m pr dl o r p' :
  try_deliver p ck order t m pr dl o = (r, p') -> effect p order m o r p'.
Proof.
  unfold try_deliver. destruct (p_mailboxes p !! t) as [mb|].
  - pose proof (check_circuit_untouched p ck t m o pr dl) as U1.
    destruct (check_circuit_breaker p ck t m o pr dl) as [[b|] p1]; simpl in U1.
    { intros [= <- <-]. by apply effect_none. }
    set (dl' := apply_default_ttl p1 ck dl). set (m' := set_deadline m dl').
    pose proof (check_expired_untouched p1 ck t m' o pr dl') as U2.
    destruct (check_expired p1 ck t m' o pr dl') as [[e|] p2]; simpl in U2.
    { intros [= <- <-]. apply effect_none. by eapply untouched_trans. }
    pose proof (untouched_trans _ _ _ U1 U2) as [Um Ud].
    assert (Ha : dedup_applies p2 o = dedup_applies p o) by (unfold dedup_applies; by rewrite Ud).
    change (dedup_key m o) with (dedup_key m' o).
    unfold check_duplicate. destruct (p_dedup p2) as [d|] eqn:Ed; [destruct (dedup_applies p2 o) eqn:Eapp|].
    + destruct (is_duplicate (dedup_key m' o) order d) as [[] d'] eqn:Edup.
      * intros [= <- <-]. destruct (metric_untouched (set_dedup p2 (Some d')) t MDuplicate) as [[M1 M2] _].
        apply (effect_duplicate _ _ _ _ _ d); change (dedup_key m o) with (dedup_key m' o); rewrite ?Edup;
          [congruence|congruence|done|rewrite M1; done|rewrite M2; done].
      * intros Hd. apply (effect_pushed _ _ _ _ _ d); change (dedup_key m o) with (dedup_key m' o); rewrite ?Edup; try done; try congruence.
        rewrite (mailbox_dedup _ _ _ _ _ _ _ _ _ _ _ Hd). simpl. by destruct (er_accepted r).
    + intros Hd. apply effect_plain; [congruence|]. rewrite (mailbox_dedup _ _ _ _ _ _ _ _ _ _ _ Hd), andb_false_r. congruence.
    + assert (Hf : dedup_applies p2 o = false) by (unfold dedup_applies; rewrite Ed; by destruct (is_tracked_delivery _)).
      intros Hd. apply effect_plain; [congruence|]. rewrite (mailbox_dedup _ _ _ _ _ _ _ _ _ _ _ Hd), Hf, andb_false_r. congruence.
  - destruct (p_fixed p !! t) as [f|].
    + destruct (is_system_message (m_type_id m)).
      { destruct (control_try_push f m) as [r0 f']. intros [= <- <-]. by apply effect_none. }
      destruct control_try_push_dynamic as [push|]; [|intros [= <- <-]; by apply effect_none].
      destruct (push f m) as [r0 f']. intros [= <- <-]. by apply effect_none.
    + intros Hr. apply effect_none. pose proof (reject_untouched p ck t m o pr dl) as U. by rewrite Hr in U.
Qed.

(** ** Deliveries in sequence *)

Record Delivery := mkDelivery {
  d_clock : Clock; d_order : list (DedupKey (EndPoint := EndPoint)); d_target : Z; d_msg : Message; d_priority : Z;
  d_deadline : Z; d_options : DeliveryOptions
}.
Definition deliver (p : Pipeline) (d : Delivery) : EnqueueResult * Pipeline :=
  try_deliver p (d_clock d) (d_order d) (d_target d) (d_msg d) (d_priority d) (d_deadline d) (d_options d).
Definition deliver_all (p : Pipeline) (ds : list Delivery) : Pipeline := fold_left (fun p d => (deliver p d).2) ds p.

(** The key is cached and the cache has room for [n] more. *)
Definition cached_room (k : DedupKey) (n : Z) (p : Pipeline) : Prop :=
  exists d, p_dedup p = Some d /\ is_Some (dd_entries d !! k) /\ dedup_size d + n <= max_entries (dd_cfg d).

Lemma is_duplicate_new (k : DedupKey (EndPoint := EndPoint)) order (d : DedupCache (EndPoint := EndPoint)) :
  (is_duplicate k order d).1 = false -> dedup_size d < max_entries (dd_cfg d) ->
  dd_entries d !! k = None /\ dd_entries (is_duplicate k order d).2 = <[k := 0]> (dd_entries d) /\
  dd_cfg (is_duplicate k order d).2 = dd_cfg d.
Proof.
  unfold is_duplicate, dedup_size. destruct (dd_entries d !! k) eqn:Ek; [done|]. intros _ Hsz. split; [done|]. simpl.
  assert (Hs : size (<[k:=0]> (dd_entries d)) = S (size (dd_entries d))) by by rewrite map_size_insert, Ek.
  rewrite Hs, (proj2 (Z.ltb_ge _ _)) by lia. done.
Qed.

Lemma is_duplicate_seen (k : DedupKey (EndPoint := EndPoint)) order (d : DedupCache (EndPoint := EndPoint)) :
  (is_duplicate k order d).1 = true ->
  dd_entries (is_duplicate k order d).2 = dd_entries d /\ dd_cfg (is_duplicate k order d).2 = dd_cfg d.
Proof. unfold is_duplicate. by destruct (dd_entries d !! k). Qed.

Lemma effect_cached k n p order m o r p' :
  0 <= n -> effect p order m o r p' -> cached_room k (n + 1) p -> cached_room k n p'.
Proof.
  intros Hn Heff (d & Hd & Hk & Hsz). destruct Heff as [p' [_ Hu]|p' _ Hu|d' p' Hd' _ Hdup _ Hu|d' p' Hd' _ Hnew Hu].
  - exists d. rewrite Hu. split; [done|]. split; [done|lia].
  - exists d. rewrite Hu. split; [done|]. split; [done|lia].
  - rewrite Hd in Hd'. injection Hd' as <-. destruct (is_duplicate_seen _ _ _ Hdup) as [He Hc].
    eexists. split; [exact Hu|]. unfold dedup_size in *. rewrite He, Hc. split; [done|lia].
  - rewrite Hd in Hd'. injection Hd' as <-. destruct (is_duplicate_new _ _ _ Hnew ltac:(lia)) as (Hf & He & Hc).
    assert (Hne : dedup_key m o <> k) by (intros <-; rewrite Hf in Hk; by destruct Hk).
    assert (Hs : size (<[dedup_key m o:=0]> (dd_entries d)) = S (size (dd_entries d))) by by rewrite map_size_insert, Hf.
    eexists. split; [exact Hu|]. unfold dedup_size in *. destruct (er_accepted r).
    + rewrite He, Hc. split; [by rewrite lookup_insert_ne by done|]. rewrite Hs. lia.
    + cbn [dedup_remove dd_entries dd_cfg]. rewrite He, Hc, delete_insert_id by done. split; [done|lia].
Qed.

Lemma deliver_all_cached k ds : forall n p,
  0 <= n -> cached_room k (n + zlen ds) p -> cached_room k n (deliver_all p ds).
Proof.
  induction ds as [|d ds IH]; intros n p Hn Hc.
  { change (zlen (@nil Delivery)) with 0 in Hc. by rewrite Z.add_0_r in Hc. }
  rewrite zlen_cons in Hc. simpl. apply IH; [done|]. destruct (deliver p d) as [r p'] eqn:E.
  pose proof (zlen_nonneg ds). eapply effect_cached; [lia|by eapply try_deliver_effect|].
  by replace (n + zlen ds + 1) with (n + (1 + zlen ds)) by lia.
Qed.

(** C7. Once a tracked message has been accepted, no later delivery of it reaches a
    mailbox, whatever was delivered in between, as long as the cache has room:
    it is answered without changing any mailbox. *)
Theorem tracked_delivered_once p d r p1 ds d' :
  deliver p d = (r, p1) -> er_accepted r = true -> dedup_applies p (d_options d) = true ->
  p_mailboxes p1 <> p_mailboxes p ->
  (forall c, p_dedup p = Some c -> dedup_size c + 1 + zlen ds <= max_entries (dd_cfg c)) ->
  dedup_key (d_msg d') (d_options d') = dedup_key (d_msg d) (d_options d) ->
  is_tracked_delivery (o_mode (d_options d')) = true ->
  p_mailboxes (deliver (deliver_all p1 ds) d').2 = p_mailboxes (deliver_all p1 ds).
Proof.
  intros Hd Hacc Happ Hchg Hroom Hkey Htr. set (k := dedup_key (d_msg d) (d_options d)) in *.
  pose proof (zlen_nonneg ds) as Hds.
  assert (H1 : cached_room k (0 + zlen ds) p1).
  { pose proof (try_deliver_effect _ _ _ _ _ _ _ _ _ _ Hd) as Heff.
    destruct Heff as [p' [Hu _]|p' Hna _|c p' _ _ _ Hu _|c p' Hc _ Hnew Hu]; [congruence|congruence|congruence|].
    specialize (Hroom c Hc). destruct (is_duplicate_new _ _ _ Hnew ltac:(lia)) as (Hf & He & Hcf).
    rewrite Hacc in Hu. eexists. split; [exact Hu|]. fold k in He, Hf, Hcf |- *. unfold dedup_size in *. rewrite He, Hcf.
    split; [by rewrite lookup_insert_eq|]. rewrite map_size_insert, Hf. lia. }
  apply deliver_all_cached in H1 as (c & Hc & Hk & _); [|done]. destruct (deliver (deliver_all p1 ds) d') as [r' p'] eqn:E.
  pose proof (try_deliver_effect _ _ _ _ _ _ _ _ _ _ E) as Heff. simpl.
  destruct Heff as [p' [Hu _]|p' Hna _|c' p' _ _ _ Hu _|c' p' Hc' _ Hnew _]; try done.
  - exfalso. unfold dedup_applies in Hna, Happ. rewrite Hc, Htr in Hna. injection Hkey as _ _ Hid. rewrite Hid in Hna.
    rewrite bool_decide_eq_true_2 in Hna by done. simpl in Hna.
    destruct (is_tracked_delivery _), (bool_decide _); try done. simpl in Happ. congruence.
  - exfalso. rewrite Hc in Hc'. injection Hc' as <-. unfold is_duplicate in Hnew. rewrite Hkey in Hnew. fold k in Hnew.
    destruct Hk as [ts Hk]. by rewrite Hk in Hnew.
Qed.

(** A delivery that is refused leaves the cache's entries as they were, so that a
    retry of the same message is not suppressed. *)
Theorem refusal_keeps_cache p d r p1 :
  deliver p d = (r, p1) -> er_accepted r = false ->
  (forall c, p_dedup p = Some c -> dedup_size c < max_entries (dd_cfg c)) ->
  (dd_entries <$> p_dedup p1) = (dd_entries <$> p_dedup p).
Proof.
  intros Hd Hacc Hroom. pose proof (try_deliver_effect _ _ _ _ _ _ _ _ _ _ Hd) as Heff.
  destruct Heff as [p' [_ Hu]|p' _ Hu|c p' Hc _ Hdup _ Hu|c p' Hc _ Hnew Hu]; rewrite Hu; try done; rewrite Hc; simpl; f_equal.
  - by apply is_duplicate_seen.
  - rewrite Hacc. destruct (is_duplicate_new _ _ _ Hnew (Hroom c Hc)) as (Hf & He & _). simpl. rewrite He.
    by apply delete_insert_id.
Qed.

(** A user message to a fixed mailbox goes to its dynamic lane whatever its
    deadline, its breaker and the cache say. *)
Lemma fixed_mailbox_unchecked p ck order t m pr dl o f push :
  p_mailboxes p !! t = None -> p_fixed p !! t = Some f -> control_try_push_dynamic = Some push ->
  is_system_message (m_type_id m) = false ->
  try_deliver p ck order t m pr dl o = ((push f m).1, set_fixed p t (push f m).2).
Proof. intros Hm Hf Hd Hs. unfold try_deliver. rewrite Hm, Hf, Hs, Hd. by destruct (push f m). Qed.

(** ** A probe that does not reach the mailbox *)

Lemma probing_blocks p ck order t m pr dl o mb pol c :
  p_mailboxes p !! t = Some mb -> p_breakers p !! t = Some (pol, c) -> q_enabled pol = true -> probing c ->
  is_system_message (m_type_id m) = false ->
  er_code (try_deliver p ck order t m pr dl o).1 = EC_CircuitOpen /\
  p_mailboxes (try_deliver p ck order t m pr dl o).2 = p_mailboxes p /\
  p_breakers (try_deliver p ck order t m pr dl o).2 !! t = Some (pol, c).
Proof.
  intros Hmb Hb He [Hs Hp] Hsys. unfold try_deliver. rewrite Hmb. unfold check_circuit_breaker. rewrite Hb.
  unfold circuit_gate. rewrite He, Hsys, Hs, Hp. simpl.
  destruct (push_dead_letter_untouched (set_breaker p t (pol, c)) (o_mode o)
    (local_record (set_breaker p t (pol, c)) DLR_EndpointCircuitOpen t m o pr dl (ck_record ck))) as [[U1 U2] U3].
  split; [done|]. split; [by rewrite U1|]. rewrite U3. apply lookup_insert_eq.
Qed.

(** The message that is let through as the probe may be refused after the gate,
    here because it is expired.  No outcome will be recorded for it, the probe
    stays in flight, and every user message that follows is refused. *)
Theorem refused_probe_blocks_actor p d mb pol c ds :
  p_mailboxes p !! d_target d = Some mb -> p_breakers p !! d_target d = Some (pol, c) -> q_enabled pol = true ->
  cb_state c = kOpen -> cooldown_period pol <= Z.quot (ck_breaker (d_clock d) - opened_at c) 1000000 ->
  is_system_message (m_type_id (d_msg d)) = false -> d_deadline d <> INT64_MAX ->
  is_expired (d_deadline d) (ck_expiry (d_clock d)) = true ->
  Forall (fun d' => d_target d' = d_target d /\ is_system_message (m_type_id (d_msg d')) = false) ds ->
  forall d', d_target d' = d_target d -> is_system_message (m_type_id (d_msg d')) = false ->
    er_code (deliver p d).1 = EC_Rejected /\
    er_code (deliver (deliver_all (deliver p d).2 ds) d').1 = EC_CircuitOpen.
Proof.
  intros Hmb Hb He Hs Hcool Hsys Hdl Hexp Hds d' Ht' Hsys'.
  set (c' := mkCircuit kHalfOpen (trip_count c) true (opened_at c) (failure_ema c) (failure_rate_tracker c)).
  assert (Hfirst : er_code (deliver p d).1 = EC_Rejected /\ p_mailboxes (deliver p d).2 !! d_target d = Some mb /\
    p_breakers (deliver p d).2 !! d_target d = Some (pol, c')).
  { unfold deliver, try_deliver. rewrite Hmb. unfold check_circuit_breaker. rewrite Hb. unfold circuit_gate.
    rewrite He, Hsys, Hs, (proj2 (Z.leb_le _ _) Hcool). simpl. fold c'.
    set (p0 := metric _ _ _).
    assert (Hp0 : p_mailboxes p0 !! d_target d = Some mb /\ p_breakers p0 !! d_target d = Some (pol, c')).
    { unfold p0. destruct (metric_untouched (set_breaker p (d_target d) (pol, c')) (d_target d) (MHalfOpen (trip_count c)))
        as [[M1 _] M2]. rewrite M1, M2. split; [done|apply lookup_insert_eq]. }
    clearbody p0. assert (Httl : apply_default_ttl p0 (d_clock d) (d_deadline d) = d_deadline d)
      by (unfold apply_default_ttl; by rewrite (proj2 (Z.eqb_neq _ _) Hdl)).
    rewrite Httl. unfold check_expired. rewrite Hexp. simpl.
    match goal with |- context [push_dead_letter ?q ?md ?rc] =>
      destruct (push_dead_letter_untouched q md rc) as [[U1 _] U2] end.
    destruct (metric_untouched p0 (d_target d) MExpired) as [[M1 _] M2].
    rewrite U1, U2, M1, M2. done. }
  destruct Hfirst as (F1 & F2 & F3). split; [done|].
  assert (Hall : forall q, p_mailboxes q !! d_target d = Some mb -> p_breakers q !! d_target d = Some (pol, c') ->
    p_mailboxes (deliver_all q ds) !! d_target d = Some mb /\ p_breakers (deliver_all q ds) !! d_target d = Some (pol, c')).
  { induction Hds as [|x ds [Hx1 Hx2] Hds IH]; intros q Hq1 Hq2; [done|]. cbn [deliver_all fold_left].
    unfold deliver_all in IH. destruct (probing_blocks q (d_clock x) (d_order x) (d_target d) (d_msg x) (d_priority x) (d_deadline x)
      (d_options x) mb pol c') as (_ & B2 & B3); try done. apply IH; unfold deliver; rewrite Hx1; [by rewrite B2|done]. }
  destruct (Hall _ F2 F3) as [A1 A2]. unfold deliver at 1. rewrite Ht'. by eapply probing_blocks.
Qed.
End Pipeline.

(** ** Witnesses: endpoints are numbers, there is no fixed mailbox *)

Definition no_push (f : unit) (m : Message (EndPoint := Z)) : EnqueueResult * unit := (EnqueueResult_default, f).
Definition first_keys (m : gmap Z ActorRateLimiter) : list Z := (map_to_list m).*1.
Definition demo_circuit : QuarantinePolicy * ActorCircuit := (demo_policy, open_circuit (double_of_Z 3)).
Definition demo_pipeline (breakers : gmap Z (QuarantinePolicy * ActorCircuit)) : Pipeline (EndPoint := Z) (Fixed := unit) :=
  mkPipeline 1 0 true true {[5 := mailbox_init 5 (demo_config 10 1000 OP_RejectNewest) None [] false]}
    {[5 := BM_LocalSignal]} ∅ breakers (Some (dlq_init dlq_default)) (Some (dedup_init dedup_default)) [] [].
Definition demo_clock (t : Z) : Clock := mkClock t t t t t t.
Definition demo_message (n : Z) : Message (EndPoint := Z) := mkMessage 4096 [n] (mkAddr 2 0 9 0) None INT64_MAX 0 0 0 false.
Definition demo_delivery (n id t deadline : Z) : Delivery :=
  mkDelivery (demo_clock t) [] 5 (demo_message n) 0 deadline (mkOptions false true DM_AtLeastOnce id 0 false).
Definition demo_deliver := deliver (EndPoint := Z) 64 first_keys no_push None.
Definition demo_deliver_all := deliver_all (EndPoint := Z) 64 first_keys no_push None.

Lemma tracked_delivered_once_witness :
  let p1 := (demo_deliver (demo_pipeline ∅) (demo_delivery 1 7 0 INT64_MAX)).2 in
  let p2 := demo_deliver_all p1 [demo_delivery 2 8 0 INT64_MAX] in
  p_mailboxes (demo_deliver p2 (demo_delivery 1 7 5 INT64_MAX)).2 = p_mailboxes p2.
Proof.
  destruct (demo_deliver (demo_pipeline ∅) (demo_delivery 1 7 0 INT64_MAX)) as [r p1] eqn:E.
  apply (tracked_delivered_once 64 first_keys no_push None (demo_pipeline ∅) (demo_delivery 1 7 0 INT64_MAX) r p1
    [demo_delivery 2 8 0 INT64_MAX] (demo_delivery 1 7 5 INT64_MAX) E).
  - apply (f_equal (fun x => er_accepted x.1)) in E. vm_compute in E. by symmetry.
  - by vm_compute.
  - intros Heq. apply (f_equal snd) in E. simpl in E. rewrite <- E in Heq.
    apply (f_equal (fun m => (fun mb => total_depth (lanes mb)) <$> m !! 5)) in Heq. vm_compute in Heq. discriminate Heq.
  - intros c [= <-]. by vm_compute.
  - reflexivity.
  - reflexivity.
Defined.

Lemma refusal_keeps_cache_witness :
  let p1 := (demo_deliver (demo_pipeline ∅) (demo_delivery 1 7 100 50)).2 in
  er_accepted (demo_deliver (demo_pipeline ∅) (demo_delivery 1 7 100 50)).1 = false /\
  (dd_entries <$> p_dedup p1) = (dd_entries <$> p_dedup (demo_pipeline ∅)).
Proof.
  destruct (demo_deliver (demo_pipeline ∅) (demo_delivery 1 7 100 50)) as [r p1] eqn:E.
  assert (Hr : er_accepted r = false) by (apply (f_equal (fun x => er_accepted x.1)) in E; vm_compute in E; by symmetry).
  split; [exact Hr|].
  apply (refusal_keeps_cache 64 first_keys no_push None (demo_pipeline ∅) (demo_delivery 1 7 100 50) r p1 E Hr).
  intros c [= <-]. by vm_compute.
Defined.

Lemma refused_probe_blocks_actor_witness :
  let p := demo_pipeline {[5 := demo_circuit]} in
  let d := demo_delivery 1 0 40000000000 50 in
  er_code (demo_deliver p d).1 = EC_Rejected /\
  er_code (demo_deliver (demo_deliver_all (demo_deliver p d).2 [demo_delivery 2 0 50000000000 INT64_MAX])
             (demo_delivery 3 0 90000000000 INT64_MAX)).1 = EC_CircuitOpen.
Proof.
  apply (refused_probe_blocks_actor 64 first_keys no_push None (demo_pipeline {[5 := demo_circuit]})
    (demo_delivery 1 0 40000000000 50) (mailbox_init 5 (demo_config 10 1000 OP_RejectNewest) None [] false)
    demo_policy (open_circuit (double_of_Z 3)) [demo_delivery 2 0 50000000000 INT64_MAX]).
  - reflexivity.
  - reflexivity.
  - reflexivity.
  - reflexivity.
  - by vm_compute.
  - reflexivity.
  - by vm_compute.
  - reflexivity.
  - by constructor.
  - reflexivity.
  - reflexivity.
Defined.
