(* ===== verification/Endpoint.v ===== *)
(** * Endpoints

    [types/types.hpp] and [net/endpoint.cpp]: a node's address, a variant over
    IPv4 and IPv6, with its byte orders (the host is little-endian), its textual
    form and the parser of that form.  The resolver functions of the C library
    ([inet_ntoa], [inet_ntop], [inet_pton], [getaddrinfo]) are arguments.  The
    theorems: an IPv4 endpoint survives printing and parsing, an IPv6 endpoint
    never does. *)

From S2P Require Import Prelude.
From Stdlib Require Import String Ascii.
From stdpp Require Import base numbers list gmap strings countable.

#[local] Open Scope Z_scope.

(** ** Byte order *)

Definition u16 (z : Z) : Z := z mod 65536.

(** [__builtin_bswap16], which is [net_to_host_u16] and [htons] here. *)
Definition net_to_host_u16 (v : Z) : Z := (v mod 256) * 256 + (v / 256) mod 256.
Definition htons (v : Z) : Z := net_to_host_u16 v.
Definition bswap32 (v : Z) : Z :=
  (v mod 256) * 16777216 + ((v / 256) mod 256) * 65536 + ((v / 65536) mod 256) * 256
  + (v / 16777216) mod 256.

(** ** Endpoints *)

Inductive EndPoint :=
| Ipv4Endpoint (addr port_nw : Z)
| Ipv6Endpoint (addr : list Z) (port_nw : Z).

#[export] Instance EndPoint_eq_dec : EqDecision EndPoint.
Proof. solve_decision. Defined.

#[export] Instance EndPoint_countable : Countable EndPoint.
Proof.
  apply (inj_countable'
    (fun e => match e with Ipv4Endpoint a p => inl (a, p) | Ipv6Endpoint a p => inr (a, p) end)
    (fun s => match s with inl (a, p) => Ipv4Endpoint a p | inr (a, p) => Ipv6Endpoint a p end)).
  by intros [].
Defined.

(** The ranges of the C++ fields. *)
Definition endpoint_wf (e : EndPoint) : bool :=
  match e with
  | Ipv4Endpoint a p => (0 <=? a) && (a <? 4294967296) && (0 <=? p) && (p <? 65536)
  | Ipv6Endpoint a p =>
      bool_decide (length a = 16%nat) && forallb (fun b => (0 <=? b) && (b <? 256)) a
      && (0 <=? p) && (p <? 65536)
  end.

Definition port (e : EndPoint) : Z :=
  match e with Ipv4Endpoint _ p | Ipv6Endpoint _ p => net_to_host_u16 p end.

Definition addr_at (a : list Z) (i : nat) : Z := default 0 (a !! i).

Definition is_loopback (e : EndPoint) : bool :=
  match e with
  | Ipv4Endpoint a _ => Z.shiftr a 24 =? 127
  | Ipv6Endpoint a _ => forallb (fun i => addr_at a i =? 0) (seq 0 15) && (addr_at a 15 =? 1)
  end.

Definition is_private_network (e : EndPoint) : bool :=
  match e with
  | Ipv4Endpoint a _ =>
      let b1 := u8 (Z.land (Z.shiftr a 24) 255) in
      let b2 := u8 (Z.land (Z.shiftr a 16) 255) in
      (b1 =? 10) || ((b1 =? 172) && (Z.land b2 240 =? 16)) || ((b1 =? 192) && (b2 =? 168))
  | Ipv6Endpoint a _ => Z.land (addr_at a 0) 254 =? 252
  end.

Definition is_unspecified (e : EndPoint) : bool :=
  match e with
  | Ipv4Endpoint a _ => a =? 0
  | Ipv6Endpoint a _ => forallb (fun i => addr_at a i =? 0) (seq 0 16)
  end.

Definition LocalEndpoint : EndPoint := Ipv4Endpoint 2130706433 0.      (* 0x7F000001 *)

(** ** Text *)

Inductive Protocol := IPv4 | IPv6.
Definition protocol (e : EndPoint) : Protocol :=
  match e with Ipv4Endpoint _ _ => IPv4 | Ipv6Endpoint _ _ => IPv6 end.

Definition digit (d : Z) : ascii := ascii_of_nat (48 + Z.to_nat d).
Definition is_digit (c : ascii) : bool := ((48 <=? nat_of_ascii c) && (nat_of_ascii c <=? 57))%nat.
Definition digit_value (c : ascii) : Z := Z.of_nat (nat_of_ascii c) - 48.

(** [%u], most significant digit first; five digits are enough for a port. *)
Fixpoint print_digits (fuel : nat) (n : Z) (acc : string) : string :=
  match fuel with
  | O => acc
  | S fuel =>
      let acc := String (digit (n mod 10)) acc in
      if n <? 10 then acc else print_digits fuel (n / 10) acc
  end.
Definition print_u (n : Z) : string := print_digits 5 n EmptyString.

(** The loop over [port_str]; [None] is the early return. *)
Fixpoint parse_port (s : string) (port : Z) : option Z :=
  match s with
  | EmptyString => Some port
  | String c s =>
      if is_digit c
      then let port := u32 (port * 10 + digit_value c) in
           if 65535 <? port then None else parse_port s port
      else None
  end.

(** [find(':')] with the two [substr]s: the text before the first colon and
    the text after it. *)
Fixpoint split_colon (s : string) : option (string * string) :=
  match s with
  | EmptyString => None
  | String c s =>
      if bool_decide (c = ":"%char) then Some (EmptyString, s)
      else match split_colon s with
           | Some (h, p) => Some (String c h, p)
           | None => None
           end
  end.

Section Text.
(** The C library: addresses are [s_addr] values and 16 bytes. *)
Context (inet_ntoa : Z -> string) (inet_ntop6 : list Z -> string).
Context (inet_pton4 : string -> option Z) (inet_pton6 : string -> option (list Z)).
Context (getaddrinfo4 : string -> option Z) (getaddrinfo6 : string -> option (list Z)).

Definition to_string (e : EndPoint) : string :=
  match e with
  | Ipv4Endpoint a p => (inet_ntoa (bswap32 a) +:+ ":" +:+ print_u (port e))%string
  | Ipv6Endpoint a p => ("[" +:+ inet_ntop6 a +:+ "]:" +:+ print_u (port e))%string
  end.

Definition parse_endpoint (node_id : string) : EndPoint :=
  if bool_decide (node_id = EmptyString) then LocalEndpoint
  else
    match split_colon node_id with
    | None => Ipv4Endpoint 0 0
    | Some (host, port_str) =>
        match parse_port port_str 0 with
        | None => Ipv4Endpoint 0 0
        | Some port =>
            match inet_pton4 host with
            | Some s_addr => Ipv4Endpoint (bswap32 s_addr) (htons (u16 port))
            | None =>
                match inet_pton6 host with
                | Some a => Ipv6Endpoint a (htons (u16 port))
                | None =>
                    match getaddrinfo4 host with
                    | Some s_addr => Ipv4Endpoint (bswap32 s_addr) (htons (u16 port))
                    | None =>
                        match getaddrinfo6 host with
                        | Some a => Ipv6Endpoint a (htons (u16 port))
                        | None => Ipv4Endpoint 0 0
                        end
                    end
                end
            end
        end
    end.
End Text.

(** ** Lemmas *)

Lemma u16_small z : 0 <= z < 65536 -> u16 z = z.
Proof. apply Z.mod_small. Qed.

Lemma htons_port v : 0 <= v < 65536 -> htons (u16 (net_to_host_u16 v)) = v.
Proof. unfold htons, net_to_host_u16, u16. intros. Z.to_euclidean_division_equations. lia. Qed.

Lemma port_htons v : 0 <= v < 65536 -> net_to_host_u16 (htons v) = v.
Proof. unfold htons, net_to_host_u16. intros. Z.to_euclidean_division_equations. lia. Qed.

Lemma port_range v : 0 <= net_to_host_u16 v < 65536.
Proof. unfold net_to_host_u16. Z.to_euclidean_division_equations. lia. Qed.

Lemma bswap32_involutive v : 0 <= v < 4294967296 -> bswap32 (bswap32 v) = v.
Proof.
  intros Hv. unfold bswap32.
  set (a := v mod 256). set (b := (v / 256) mod 256). set (c := (v / 65536) mod 256).
  set (d := (v / 16777216) mod 256).
  assert (Ha : 0 <= a < 256) by (apply Z.mod_pos_bound; lia).
  assert (Hb : 0 <= b < 256) by (apply Z.mod_pos_bound; lia).
  assert (Hc : 0 <= c < 256) by (apply Z.mod_pos_bound; lia).
  assert (Hd : 0 <= d < 256) by (apply Z.mod_pos_bound; lia).
  assert (E : v = d * 16777216 + c * 65536 + b * 256 + a).
  { subst a b c d. Z.to_euclidean_division_equations. lia. }
  set (w := a * 16777216 + b * 65536 + c * 256 + d).
  assert (E1 : w / 256 = a * 65536 + b * 256 + c) by (subst w; Z.to_euclidean_division_equations; lia).
  assert (E2 : w / 65536 = a * 256 + b) by (subst w; Z.to_euclidean_division_equations; lia).
  assert (E3 : w / 16777216 = a) by (subst w; Z.to_euclidean_division_equations; lia).
  assert (M0 : w mod 256 = d) by (subst w; Z.to_euclidean_division_equations; lia).
  rewrite E1, E2, E3, M0, (Z.mod_small a) by done.
  replace ((a * 65536 + b * 256 + c) mod 256) with c by (Z.to_euclidean_division_equations; lia).
  replace ((a * 256 + b) mod 256) with b by (Z.to_euclidean_division_equations; lia).
  lia.
Qed.

Lemma digit_roundtrip d : 0 <= d < 10 -> is_digit (digit d) = true /\ digit_value (digit d) = d.
Proof.
  intros Hd. unfold is_digit, digit_value, digit. rewrite nat_ascii_embedding by lia.
  split; [apply andb_true_iff; split; apply Nat.leb_le; lia | lia].
Qed.

(** Parsing the digits of [n] in front of [acc] is parsing [acc] from [n]. *)
Lemma parse_print_digits fuel n acc :
  0 <= n < 10 ^ Z.of_nat fuel -> n <= 65535 -> (0 < fuel)%nat ->
  parse_port (print_digits fuel n acc) 0 = parse_port acc n.
Proof.
  revert n acc. induction fuel as [|fuel IH]; intros n acc Hn Hmax Hf; [lia|]. cbn [print_digits].
  assert (Hpow : 10 ^ Z.of_nat (S fuel) = 10 * 10 ^ Z.of_nat fuel)
    by (rewrite Nat2Z.inj_succ, Z.pow_succ_r by lia; done).
  assert (Hq : 0 <= n / 10 < 10 ^ Z.of_nat fuel) by (Z.to_euclidean_division_equations; lia).
  assert (Hd : 0 <= n mod 10 < 10) by (apply Z.mod_pos_bound; lia).
  destruct (digit_roundtrip _ Hd) as [Hdig Hval].
  assert (Hstep : forall m, 0 <= m -> m * 10 + n mod 10 = n ->
    parse_port (String (digit (n mod 10)) acc) m = parse_port acc n).
  { intros m Hm E. cbn [parse_port]. rewrite Hdig, Hval, E, u32_small by lia.
    by rewrite (proj2 (Z.ltb_ge 65535 n)) by lia. }
  clear Hdig Hval.
  destruct (n <? 10) eqn:E10; bool_to_prop.
  - apply Hstep; [lia|]. rewrite Z.mod_small by lia. lia.
  - destruct (decide (fuel = 0%nat)) as [->|Hf0]; [simpl in Hq; Z.to_euclidean_division_equations; lia|].
    rewrite IH by (try lia; Z.to_euclidean_division_equations; lia).
    apply Hstep; [lia|]. Z.to_euclidean_division_equations; lia.
Qed.

Lemma parse_print_u n : 0 <= n < 65536 -> parse_port (print_u n) 0 = Some n.
Proof.
  intros Hn. unfold print_u. assert (10 ^ Z.of_nat 5 = 100000) as E by done.
  rewrite parse_print_digits; [done| |lia|lia]. rewrite E. lia.
Qed.

(** A text without a colon. *)
Fixpoint no_colon (s : string) : bool :=
  match s with
  | EmptyString => true
  | String c s => negb (bool_decide (c = ":"%char)) && no_colon s
  end.

Lemma split_colon_app h p :
  no_colon h = true -> split_colon (h +:+ String ":" p) = Some (h, p).
Proof.
  induction h as [|c h IH]; intros Hn; [done|]. simpl in *.
  apply andb_true_iff in Hn as [Hc Hh]. apply negb_true_iff in Hc. change (String.append h (String ":" p)) with (h +:+ String ":" p). rewrite Hc. by rewrite (IH Hh).
Qed.

(** What follows the first colon of a text that has one still ends with the
    same suffix. *)
Lemma split_colon_suffix s t :
  no_colon s = false -> exists h p, split_colon (s +:+ t) = Some (h, p +:+ t).
Proof.
  induction s as [|c s IH]; intros Hn; [done|]. simpl in *.
  change (String.append s t) with (s +:+ t).
  destruct (bool_decide (c = ":"%char)) eqn:E.
  - exists EmptyString, s. done.
  - destruct (IH Hn) as (h & p & ->). by exists (String c h), p.
Qed.

Lemma string_app_assoc (s t u : string) : (s +:+ t) +:+ u = s +:+ (t +:+ u).
Proof. induction s as [|c s IH]; [done|]. exact (f_equal (String c) IH). Qed.

Lemma parse_port_bad p t c n : is_digit c = false -> parse_port (p +:+ String c t) n = None.
Proof.
  intros Hc. revert n. induction p as [|d p IH]; intros n; simpl; [by rewrite Hc|].
  destruct (is_digit d); [|done]. change (String.append p (String c t)) with (p +:+ String c t).
  destruct (65535 <? _); [done|]. apply IH.
Qed.

Lemma endpoint_wf_port e :
  endpoint_wf e = true ->
  match e with Ipv4Endpoint _ p | Ipv6Endpoint _ p => 0 <= p < 65536 end.
Proof. destruct e; simpl; intros H; bool_to_prop; lia. Qed.

(** ** Theorems *)

Section Roundtrip.
Context (inet_ntoa : Z -> string) (inet_ntop6 : list Z -> string).
Context (inet_pton4 : string -> option Z) (inet_pton6 : string -> option (list Z)).
Context (getaddrinfo4 : string -> option Z) (getaddrinfo6 : string -> option (list Z)).

(** the text of an IPv4 endpoint parses back to the endpoint, for every
    address the C library prints without a colon and reads back. *)
Theorem endpoint_text_roundtrip (a p : Z) :
  endpoint_wf (Ipv4Endpoint a p) = true ->
  no_colon (inet_ntoa (bswap32 a)) = true ->
  inet_pton4 (inet_ntoa (bswap32 a)) = Some (bswap32 a) ->
  parse_endpoint inet_pton4 inet_pton6 getaddrinfo4 getaddrinfo6
    (to_string inet_ntoa inet_ntop6 (Ipv4Endpoint a p)) = Ipv4Endpoint a p.
Proof.
  intros Hwf Hcolon Hpton. simpl in Hwf. bool_to_prop. unfold parse_endpoint, to_string.
  change (":" +:+ print_u (port (Ipv4Endpoint a p)))%string
    with (String ":" (print_u (net_to_host_u16 p))).
  rewrite bool_decide_eq_false_2 by (by destruct (inet_ntoa (bswap32 a))).
  rewrite split_colon_app by done. rewrite parse_print_u by apply port_range.
  rewrite Hpton, bswap32_involutive, htons_port by lia. done.
Qed.

(** The text of an IPv6 endpoint parses to the unspecified IPv4 endpoint: the
    first colon is inside the brackets, so what is taken for the port has the
    closing bracket in it.  [ConnectionPool] reconnects through exactly this
    pair of calls. *)
Theorem ipv6_text_lost (a : list Z) (p : Z) :
  no_colon (inet_ntop6 a) = false ->
  parse_endpoint inet_pton4 inet_pton6 getaddrinfo4 getaddrinfo6
    (to_string inet_ntoa inet_ntop6 (Ipv6Endpoint a p)) = Ipv4Endpoint 0 0.
Proof.
  intros Hc. unfold parse_endpoint, to_string. rewrite bool_decide_eq_false_2 by done.
  destruct (split_colon_suffix ("[" +:+ inet_ntop6 a) ("]:" +:+ print_u (port (Ipv6Endpoint a p))))
    as (h & q & E); [done|].
  rewrite string_app_assoc in E. rewrite E. change ("]:" +:+ print_u (port (Ipv6Endpoint a p)))%string
    with (String "]" (String ":" (print_u (port (Ipv6Endpoint a p))))).
  by rewrite parse_port_bad.
Qed.
End Roundtrip.

(** 127.0.0.1:8080 with a library that knows one address. *)
Lemma endpoint_text_roundtrip_witness :
  parse_endpoint (fun s => if bool_decide (s = "127.0.0.1"%string) then Some (bswap32 2130706433) else None)
    (fun _ => None) (fun _ => None) (fun _ => None)
    (to_string (fun _ => "127.0.0.1"%string) (fun _ => "::1"%string) (Ipv4Endpoint 2130706433 (htons 8080)))
  = Ipv4Endpoint 2130706433 (htons 8080).
Proof. apply endpoint_text_roundtrip; by vm_compute. Defined.

Lemma ipv6_text_lost_witness :
  parse_endpoint (fun _ => None) (fun _ => None) (fun _ => None) (fun _ => None)
    (to_string (fun _ => "127.0.0.1"%string) (fun _ => "::1"%string)
      (Ipv6Endpoint (replicate 15 0 ++ [1]) (htons 8080))) = Ipv4Endpoint 0 0.
Proof. apply ipv6_text_lost. by vm_compute. Defined.
