(* ===== verification/GossipCodec.v ===== *)
(** * Gossip messages

    [net/service_discovery.hpp], [net/gossip_membership.hpp] (the data types)
    and the codec half of [net/gossip_membership.cpp].  The protobuf messages
    are the records of [protos/hpactor/gossip.proto]; their bytes are the
    library's, given by [serialize] and [parse] pairs.  The theorem says for
    every message type what a receiver reads back. *)

From S2P Require Import Prelude Endpoint.
From Stdlib Require Import String.
From stdpp Require Import base numbers list strings countable.

#[local] Open Scope Z_scope.

(** ** Members *)

(** Enumerations with a fixed underlying type hold any of its values: a
    received number outside the enumerators is kept as it is. *)
Inductive MemberStatus := Alive | Suspicious | Dead | Left | OtherStatus (raw : Z).
Inductive PiggybackType := PAlive | PSuspicious | PDead | PMetadata | POther (raw : Z).
Inductive GossipMessageType := Ping | Ack | PingReq | IndirectAck | Join | SyncRsp | Leave.

#[export] Instance MemberStatus_eq_dec : EqDecision MemberStatus.
Proof. solve_decision. Defined.
#[export] Instance PiggybackType_eq_dec : EqDecision PiggybackType.
Proof. solve_decision. Defined.
#[export] Instance GossipMessageType_eq_dec : EqDecision GossipMessageType.
Proof. solve_decision. Defined.

Definition status_code (s : MemberStatus) : Z :=
  match s with Alive => 0 | Suspicious => 1 | Dead => 2 | Left => 3 | OtherStatus r => r end.
Definition status_of_code (z : Z) : MemberStatus :=
  if z =? 0 then Alive else if z =? 1 then Suspicious else if z =? 2 then Dead
  else if z =? 3 then Left else OtherStatus z.
Definition piggyback_code (t : PiggybackType) : Z :=
  match t with PAlive => 1 | PSuspicious => 2 | PDead => 3 | PMetadata => 4 | POther r => r end.
Definition piggyback_of_code (z : Z) : PiggybackType :=
  if z =? 1 then PAlive else if z =? 2 then PSuspicious else if z =? 3 then PDead
  else if z =? 4 then PMetadata else POther z.
Definition message_code (t : GossipMessageType) : Z :=
  match t with
  | Ping => 1 | Ack => 2 | PingReq => 3 | IndirectAck => 4 | Join => 5 | SyncRsp => 6 | Leave => 7
  end.
(** [None]: no [case] of the receiver's switch matches. *)
Definition message_of_code (z : Z) : option GossipMessageType :=
  if z =? 1 then Some Ping else if z =? 2 then Some Ack else if z =? 3 then Some PingReq
  else if z =? 4 then Some IndirectAck else if z =? 5 then Some Join
  else if z =? 6 then Some SyncRsp else if z =? 7 then Some Leave else None.

Record AcceptorInfo := mkAcceptor {
  acc_port : Z; handshake_version : Z; protocol_version : Z; tls_required : bool
}.

Record NodeIdentity := mkIdentity {
  endpoint : EndPoint; host : string; uds_path : string; acceptors : list AcceptorInfo
}.

Record Member := mkMember {
  identity : NodeIdentity;
  actor_types : list string;
  status : MemberStatus;
  incarnation : Z;
  last_seen : Z
}.

Record PiggybackEntry := mkPiggyback {
  pb_type : PiggybackType;
  pb_identity : NodeIdentity;
  pb_incarnation : Z;
  pb_actor_types : list string;
  pb_load : Z
}.

Definition identity_default : NodeIdentity := mkIdentity (Ipv4Endpoint 0 0) "" "" [].
Definition identity_of (e : EndPoint) : NodeIdentity := mkIdentity e "" "" [].
(** [Member m; m.identity.endpoint = e;] and the fields that follow. *)
Definition member_of (e : EndPoint) (inc : Z) (s : MemberStatus) (now : Z) : Member :=
  mkMember (identity_of e) [] s inc now.

(** ** Protobuf messages *)

Inductive PbEndpoint :=
| PbUnset
| PbIpv4 (addr port : Z)
| PbIpv6 (addr : list Z) (port : Z).

Record PbAcceptorInfo := mkPbAcceptor {
  pba_port : Z; pba_handshake : Z; pba_protocol : Z; pba_tls : bool
}.

Record PbPiggybackEntry := mkPbPiggyback {
  pbp_type : Z; pbp_endpoint : PbEndpoint; pbp_incarnation : Z;
  pbp_actor_types : list string; pbp_load : Z; pbp_acceptors : list PbAcceptorInfo
}.

Record PbGossipMember := mkPbMember {
  pbm_endpoint : PbEndpoint; pbm_host : string; pbm_uds_path : string; pbm_incarnation : Z;
  pbm_status : Z; pbm_actor_types : list string; pbm_acceptors : list PbAcceptorInfo
}.

Record PbGossipSyncRsp := mkPbSyncRsp {
  pbs_sender : PbEndpoint; pbs_incarnation : Z; pbs_members : list PbGossipMember
}.

(** The [oneof] of the envelope. *)
Inductive PbPayload :=
| PbNoPayload
| PbPing (sender : PbEndpoint) (inc seq_no : Z) (piggyback : list PbPiggybackEntry)
| PbAck (sender : PbEndpoint) (inc : Z) (piggyback : list PbPiggybackEntry)
| PbPingReq (sender target : PbEndpoint) (inc : Z)
| PbIndirectAck (sender original_requester : PbEndpoint) (inc : Z)
| PbJoin (sender : PbEndpoint) (inc : Z) (host uds_path : string) (actor_types : list string)
    (acceptors : list PbAcceptorInfo)
| PbSyncRspPayload (rsp : PbGossipSyncRsp)
| PbLeave (sender : PbEndpoint) (inc : Z).

Record PbGossipEnvelope := mkPbEnvelope {
  pbe_magic : Z; pbe_version : Z; pbe_type : Z; pbe_flags : Z; pbe_payload : PbPayload
}.

(** ** Conversions *)

Definition GossipMagic : Z := 1213220675.      (* 0x48504743, "HPGC" *)
Definition GossipVersion : Z := 1.

Definition ep_to_pb_endpoint (e : EndPoint) : PbEndpoint :=
  match e with
  | Ipv4Endpoint a _ => PbIpv4 a (port e)
  | Ipv6Endpoint a _ => PbIpv6 a (port e)
  end.

Definition pb_endpoint_to_ep (pb : PbEndpoint) : EndPoint :=
  match pb with
  | PbIpv4 a p => Ipv4Endpoint a (htons (u16 p))
  | PbIpv6 a p =>
      let addr := if bool_decide (length a = 16%nat) then a else replicate 16 0 in
      Ipv6Endpoint addr (htons (u16 p))
  | PbUnset => Ipv4Endpoint 0 0
  end.

Definition acceptor_to_pb (a : AcceptorInfo) : PbAcceptorInfo :=
  mkPbAcceptor (acc_port a) (handshake_version a) (protocol_version a) (tls_required a).
Definition acceptor_from_pb (a : PbAcceptorInfo) : AcceptorInfo :=
  mkAcceptor (u16 (pba_port a)) (u8 (pba_handshake a)) (u8 (pba_protocol a)) (pba_tls a).

Definition to_pb_piggyback (e : PiggybackEntry) : PbPiggybackEntry :=
  mkPbPiggyback (piggyback_code (pb_type e)) (ep_to_pb_endpoint (endpoint (pb_identity e)))
    (pb_incarnation e) (pb_actor_types e) (pb_load e) (map acceptor_to_pb (acceptors (pb_identity e))).

Definition from_pb_piggyback (pb : PbPiggybackEntry) : PiggybackEntry :=
  mkPiggyback (piggyback_of_code (u8 (pbp_type pb)))
    (mkIdentity (pb_endpoint_to_ep (pbp_endpoint pb)) "" "" (map acceptor_from_pb (pbp_acceptors pb)))
    (pbp_incarnation pb) (pbp_actor_types pb) (pbp_load pb).

Definition to_pb_member (m : Member) : PbGossipMember :=
  mkPbMember (ep_to_pb_endpoint (endpoint (identity m))) (host (identity m)) (uds_path (identity m))
    (incarnation m) (status_code (status m)) (actor_types m)
    (map acceptor_to_pb (acceptors (identity m))).

(** [last_seen] is a clock reading of the caller's. *)
Definition from_pb_member (pb : PbGossipMember) (now : Z) : Member :=
  mkMember
    (mkIdentity (pb_endpoint_to_ep (pbm_endpoint pb)) (pbm_host pb) (pbm_uds_path pb)
       (map acceptor_from_pb (pbm_acceptors pb)))
    (pbm_actor_types pb) (status_of_code (u8 (pbm_status pb))) (pbm_incarnation pb) now.

(** ** Messages *)

(** The out parameters of [decode_message]. *)
Record Decoded := mkDecodedMsg {
  d_type : option GossipMessageType;
  d_sender : EndPoint;
  d_inc : Z;
  d_seq : Z;
  d_target : EndPoint;
  d_pb : list PiggybackEntry
}.

Section Codec.
Context (serialize_envelope : PbGossipEnvelope -> list Z) (parse_envelope : list Z -> option PbGossipEnvelope).
Context (serialize_sync_rsp : PbGossipSyncRsp -> list Z) (parse_sync_rsp : list Z -> option PbGossipSyncRsp).

(** The payload [encode_message] builds: the switch over the type. *)
Definition message_payload (self : Member) (type : GossipMessageType) (inc seq : Z) (ping_target : EndPoint)
    (pb : list PiggybackEntry) : PbPayload :=
  let me := ep_to_pb_endpoint (endpoint (identity self)) in
  match type with
  | Ping => PbPing me inc seq (map to_pb_piggyback pb)
  | Ack => PbAck me inc (map to_pb_piggyback pb)
  | PingReq => PbPingReq me (ep_to_pb_endpoint ping_target) inc
  | IndirectAck => PbIndirectAck me (ep_to_pb_endpoint ping_target) inc
  | Join => PbJoin me inc (host (identity self)) (uds_path (identity self)) (actor_types self)
              (map acceptor_to_pb (acceptors (identity self)))
  | Leave => PbLeave me inc
  | SyncRsp => PbNoPayload
  end.

Definition encode_message (self : Member) (type : GossipMessageType) (inc seq : Z) (ping_target : EndPoint)
    (pb : list PiggybackEntry) : list Z :=
  serialize_envelope
    (mkPbEnvelope GossipMagic GossipVersion (message_code type) 0
       (message_payload self type inc seq ping_target pb)).

(** [decode_message]; [out] holds the out parameters as the caller passes
    them, [None] is [false]. *)
Definition decode_message (data : list Z) (out : Decoded) : option Decoded :=
  match parse_envelope data with
  | None => None
  | Some env =>
      if negb (pbe_magic env =? GossipMagic) || negb (pbe_version env =? GossipVersion) then None
      else
        let type := message_of_code (u8 (pbe_type env)) in
        match type, pbe_payload env with
        | Some Ping, PbPing s inc seq pb =>
            Some (mkDecodedMsg type (pb_endpoint_to_ep s) inc seq (d_target out) (map from_pb_piggyback pb))
        | Some Ack, PbAck s inc pb =>
            Some (mkDecodedMsg type (pb_endpoint_to_ep s) inc 0 (d_target out) (map from_pb_piggyback pb))
        | Some PingReq, PbPingReq s t inc =>
            Some (mkDecodedMsg type (pb_endpoint_to_ep s) inc 0 (pb_endpoint_to_ep t) [])
        | Some IndirectAck, PbIndirectAck s r inc =>
            Some (mkDecodedMsg type (pb_endpoint_to_ep s) inc 0 (pb_endpoint_to_ep r) [])
        | Some Join, PbJoin s inc _ _ _ _ =>
            Some (mkDecodedMsg type (pb_endpoint_to_ep s) inc 0 (d_target out) [])
        | Some Leave, PbLeave s inc =>
            Some (mkDecodedMsg type (pb_endpoint_to_ep s) inc 0 (d_target out) [])
        | None, _ => Some (mkDecodedMsg None (d_sender out) (d_inc out) (d_seq out) (d_target out) [])
        | _, _ => None
        end
  end.

Definition encode_sync_rsp (self : Member) (inc : Z) (members : list Member) : list Z :=
  serialize_sync_rsp
    (mkPbSyncRsp (ep_to_pb_endpoint (endpoint (identity self))) inc (map to_pb_member members)).

Definition decode_sync_rsp (data : list Z) (now : Z) : option (list Member) :=
  match parse_sync_rsp data with
  | None => None
  | Some rsp => Some (map (fun m => from_pb_member m now) (pbs_members rsp))
  end.
End Codec.

(** ** Round trips *)

(** The ranges of the C++ fields. *)
Definition acceptor_wf (a : AcceptorInfo) : bool :=
  (u16 (acc_port a) =? acc_port a) && (u8 (handshake_version a) =? handshake_version a)
  && (u8 (protocol_version a) =? protocol_version a).
Definition identity_wf (i : NodeIdentity) : bool :=
  endpoint_wf (endpoint i) && forallb acceptor_wf (acceptors i).
Definition status_wf (s : MemberStatus) : bool := bool_decide (status_of_code (u8 (status_code s)) = s).
Definition piggyback_wf (e : PiggybackEntry) : bool :=
  identity_wf (pb_identity e) && bool_decide (piggyback_of_code (u8 (piggyback_code (pb_type e))) = pb_type e).
Definition member_wf (m : Member) : bool := identity_wf (identity m) && status_wf (status m).

Lemma endpoint_pb_roundtrip e : endpoint_wf e = true -> pb_endpoint_to_ep (ep_to_pb_endpoint e) = e.
Proof.
  intros H. pose proof (endpoint_wf_port e H). destruct e as [a p|a p]; simpl in *; rewrite htons_port by lia; [done|].
  bool_to_prop. by rewrite bool_decide_eq_true_2.
Qed.

Lemma acceptor_pb_roundtrip a : acceptor_wf a = true -> acceptor_from_pb (acceptor_to_pb a) = a.
Proof.
  destruct a as [p h v t]. unfold acceptor_wf, acceptor_from_pb, acceptor_to_pb. simpl. intros H.
  bool_to_prop. congruence.
Qed.

Lemma map_wf_roundtrip {A B} (wf : A -> bool) (f : A -> B) (g : B -> A) l :
  (forall x, wf x = true -> g (f x) = x) -> forallb wf l = true -> map g (map f l) = l.
Proof.
  intros Hgf. induction l as [|x l IH]; [done|]. simpl. intros H. bool_to_prop.
  rewrite Hgf, IH by done. done.
Qed.

(** What a piggyback entry carries: the host and the socket path stay behind. *)
Definition on_wire (e : PiggybackEntry) : PiggybackEntry :=
  mkPiggyback (pb_type e) (mkIdentity (endpoint (pb_identity e)) "" "" (acceptors (pb_identity e)))
    (pb_incarnation e) (pb_actor_types e) (pb_load e).

Lemma piggyback_pb_roundtrip e : piggyback_wf e = true -> from_pb_piggyback (to_pb_piggyback e) = on_wire e.
Proof.
  destruct e as [t [ep h u acc] inc ty ld]. unfold piggyback_wf, identity_wf. simpl. intros H. bool_to_prop.
  unfold from_pb_piggyback, to_pb_piggyback, on_wire. simpl.
  rewrite endpoint_pb_roundtrip, (map_wf_roundtrip acceptor_wf) by eauto using acceptor_pb_roundtrip.
  by f_equal.
Qed.

Lemma member_pb_roundtrip m now :
  member_wf m = true ->
  from_pb_member (to_pb_member m) now = mkMember (identity m) (actor_types m) (status m) (incarnation m) now.
Proof.
  destruct m as [[ep h u acc] ty st inc ls]. unfold member_wf, identity_wf, status_wf. simpl. intros H. bool_to_prop.
  unfold from_pb_member, to_pb_member. simpl.
  rewrite endpoint_pb_roundtrip, (map_wf_roundtrip acceptor_wf) by eauto using acceptor_pb_roundtrip.
  by f_equal.
Qed.

Lemma map_on_wire l :
  forallb piggyback_wf l = true -> map from_pb_piggyback (map to_pb_piggyback l) = map on_wire l.
Proof.
  induction l as [|e l IH]; [done|]. simpl. intros H. bool_to_prop.
  rewrite piggyback_pb_roundtrip, IH by done. done.
Qed.

Lemma map_synced l now :
  forallb member_wf l = true ->
  map (fun m => from_pb_member m now) (map to_pb_member l)
  = map (fun m => mkMember (identity m) (actor_types m) (status m) (incarnation m) now) l.
Proof.
  induction l as [|m l IH]; [done|]. simpl. intros H. bool_to_prop.
  rewrite member_pb_roundtrip, IH by done. done.
Qed.

(** What the receiver of a message reads: only a Ping carries its sequence
    number, only a Ping and an Ack carry piggyback entries, only the two probe
    messages name a target; a SyncRsp is not an envelope. *)
Definition read_back (self : Member) (type : GossipMessageType) (inc seq : Z) (target : EndPoint)
    (pb : list PiggybackEntry) (out : Decoded) : option Decoded :=
  let me := endpoint (identity self) in
  match type with
  | Ping => Some (mkDecodedMsg (Some Ping) me inc seq (d_target out) (map on_wire pb))
  | Ack => Some (mkDecodedMsg (Some Ack) me inc 0 (d_target out) (map on_wire pb))
  | PingReq => Some (mkDecodedMsg (Some PingReq) me inc 0 target [])
  | IndirectAck => Some (mkDecodedMsg (Some IndirectAck) me inc 0 target [])
  | Join => Some (mkDecodedMsg (Some Join) me inc 0 (d_target out) [])
  | Leave => Some (mkDecodedMsg (Some Leave) me inc 0 (d_target out) [])
  | SyncRsp => None
  end.

Section Roundtrip.
Context (serialize_envelope : PbGossipEnvelope -> list Z) (parse_envelope : list Z -> option PbGossipEnvelope).
Context (serialize_sync_rsp : PbGossipSyncRsp -> list Z) (parse_sync_rsp : list Z -> option PbGossipSyncRsp).

(** what a node reads from a gossip message that another node encoded, for
    every message type, when protobuf parses what it serialized; and a
    synchronization response gives the sender's members with the reader's
    clock. *)
Theorem gossip_message_roundtrip (self : Member) (type : GossipMessageType) (inc seq now : Z)
    (target : EndPoint) (pb : list PiggybackEntry) (members : list Member) (out : Decoded) :
  endpoint_wf (endpoint (identity self)) = true -> endpoint_wf target = true ->
  forallb piggyback_wf pb = true -> forallb member_wf members = true ->
  (forall e, parse_envelope (serialize_envelope e) = Some e) ->
  (forall r, parse_sync_rsp (serialize_sync_rsp r) = Some r) ->
  decode_message parse_envelope (encode_message serialize_envelope self type inc seq target pb) out
  = read_back self type inc seq target pb out /\
  decode_sync_rsp parse_sync_rsp (encode_sync_rsp serialize_sync_rsp self inc members) now
  = Some (map (fun m => mkMember (identity m) (actor_types m) (status m) (incarnation m) now) members).
Proof.
  intros Hself Htarget Hpb Hm Henv Hsync. split.
  - unfold decode_message, encode_message. rewrite Henv. simpl.
    destruct type; simpl; rewrite ?(endpoint_pb_roundtrip _ Hself), ?(endpoint_pb_roundtrip _ Htarget),
      ?(map_on_wire _ Hpb); done.
  - unfold decode_sync_rsp, encode_sync_rsp. rewrite Hsync. simpl. by rewrite map_synced.
Qed.
End Roundtrip.

(** ** A concrete library: messages as numbers *)

#[local] Instance PbEndpoint_eq_dec : EqDecision PbEndpoint.
Proof. solve_decision. Defined.
#[local] Instance PbEndpoint_countable : Countable PbEndpoint.
Proof.
  apply (inj_countable'
    (fun e => match e with PbUnset => inl tt | PbIpv4 a p => inr (inl (a, p)) | PbIpv6 a p => inr (inr (a, p)) end)
    (fun s => match s with inl _ => PbUnset | inr (inl (a, p)) => PbIpv4 a p | inr (inr (a, p)) => PbIpv6 a p end)).
  by intros [].
Defined.
#[local] Instance PbAcceptorInfo_eq_dec : EqDecision PbAcceptorInfo.
Proof. solve_decision. Defined.
#[local] Instance PbAcceptorInfo_countable : Countable PbAcceptorInfo.
Proof.
  apply (inj_countable' (fun a => (pba_port a, pba_handshake a, pba_protocol a, pba_tls a))
    (fun '(p, h, v, t) => mkPbAcceptor p h v t)). by intros [].
Defined.
#[local] Instance PbPiggybackEntry_eq_dec : EqDecision PbPiggybackEntry.
Proof. solve_decision. Defined.
#[local] Instance PbPiggybackEntry_countable : Countable PbPiggybackEntry.
Proof.
  apply (inj_countable' (fun a => (pbp_type a, pbp_endpoint a, pbp_incarnation a, pbp_actor_types a, pbp_load a,
      pbp_acceptors a))
    (fun '(t, e, i, y, l, c) => mkPbPiggyback t e i y l c)). by intros [].
Defined.
#[local] Instance PbGossipMember_eq_dec : EqDecision PbGossipMember.
Proof. solve_decision. Defined.
#[local] Instance PbGossipMember_countable : Countable PbGossipMember.
Proof.
  apply (inj_countable' (fun a => (pbm_endpoint a, pbm_host a, pbm_uds_path a, pbm_incarnation a, pbm_status a,
      pbm_actor_types a, pbm_acceptors a))
    (fun '(e, h, u, i, s, y, c) => mkPbMember e h u i s y c)). by intros [].
Defined.
#[local] Instance PbGossipSyncRsp_eq_dec : EqDecision PbGossipSyncRsp.
Proof. solve_decision. Defined.
#[local] Instance PbGossipSyncRsp_countable : Countable PbGossipSyncRsp.
Proof.
  apply (inj_countable' (fun a => (pbs_sender a, pbs_incarnation a, pbs_members a))
    (fun '(s, i, m) => mkPbSyncRsp s i m)). by intros [].
Defined.
#[local] Instance PbPayload_eq_dec : EqDecision PbPayload.
Proof. solve_decision. Defined.
#[local] Instance PbPayload_countable : Countable PbPayload.
Proof.
  apply (inj_countable'
    (fun p => match p with
     | PbNoPayload => inl tt
     | PbPing s i q b => inr (inl (s, i, q, b))
     | PbAck s i b => inr (inr (inl (s, i, b)))
     | PbPingReq s t i => inr (inr (inr (inl (s, t, i))))
     | PbIndirectAck s r i => inr (inr (inr (inr (inl (s, r, i)))))
     | PbJoin s i h u y c => inr (inr (inr (inr (inr (inl (s, i, h, u, y, c))))))
     | PbSyncRspPayload r => inr (inr (inr (inr (inr (inr (inl r))))))
     | PbLeave s i => inr (inr (inr (inr (inr (inr (inr (s, i)))))))
     end)
    (fun p => match p with
     | inl _ => PbNoPayload
     | inr (inl (s, i, q, b)) => PbPing s i q b
     | inr (inr (inl (s, i, b))) => PbAck s i b
     | inr (inr (inr (inl (s, t, i)))) => PbPingReq s t i
     | inr (inr (inr (inr (inl (s, r, i))))) => PbIndirectAck s r i
     | inr (inr (inr (inr (inr (inl (s, i, h, u, y, c)))))) => PbJoin s i h u y c
     | inr (inr (inr (inr (inr (inr (inl r)))))) => PbSyncRspPayload r
     | inr (inr (inr (inr (inr (inr (inr (s, i))))))) => PbLeave s i
     end)). by intros [].
Defined.
#[local] Instance PbGossipEnvelope_eq_dec : EqDecision PbGossipEnvelope.
Proof. solve_decision. Defined.
#[local] Instance PbGossipEnvelope_countable : Countable PbGossipEnvelope.
Proof.
  apply (inj_countable' (fun a => (pbe_magic a, pbe_version a, pbe_type a, pbe_flags a, pbe_payload a))
    (fun '(m, v, t, f, p) => mkPbEnvelope m v t f p)). by intros [].
Defined.

(** One number that is the message: an envelope is even, a response odd. *)
Definition num_serialize_envelope (e : PbGossipEnvelope) : list Z := [2 * Z.pos (encode e)].
Definition num_parse_envelope (l : list Z) : option PbGossipEnvelope :=
  match l with [z] => if Z.even z then decode (Z.to_pos (z / 2)) else None | _ => None end.
Definition num_serialize_sync_rsp (r : PbGossipSyncRsp) : list Z := [2 * Z.pos (encode r) + 1].
Definition num_parse_sync_rsp (l : list Z) : option PbGossipSyncRsp :=
  match l with [z] => if Z.even z then None else decode (Z.to_pos (z / 2)) | _ => None end.

Lemma num_envelope_roundtrip e : num_parse_envelope (num_serialize_envelope e) = Some e.
Proof.
  unfold num_parse_envelope, num_serialize_envelope. rewrite Z.even_mul. simpl orb.
  rewrite Z.mul_comm, Z.div_mul, Pos2Z.id by done. apply decode_encode.
Qed.

Lemma num_sync_rsp_roundtrip r : num_parse_sync_rsp (num_serialize_sync_rsp r) = Some r.
Proof.
  unfold num_parse_sync_rsp, num_serialize_sync_rsp. rewrite Z.even_add, Z.even_mul. simpl Bool.eqb.
  replace ((2 * Z.pos (encode r) + 1) / 2) with (Z.pos (encode r)) by (Z.to_euclidean_division_equations; lia).
  rewrite Pos2Z.id. apply decode_encode.
Qed.

(** A Ping with one entry, and a table with one member. *)
Lemma gossip_message_roundtrip_witness :
  let self := member_of (Ipv4Endpoint 2130706433 (htons 9000)) 7 Alive 0 in
  let other := Ipv4Endpoint 2130706433 (htons 9001) in
  let entry := mkPiggyback PSuspicious (identity_of other) 5 [] 0 in
  let out := mkDecodedMsg None (Ipv4Endpoint 0 0) 0 0 (Ipv4Endpoint 0 0) [] in
  decode_message num_parse_envelope (encode_message num_serialize_envelope self Ping 7 1 other [entry]) out
  = Some (mkDecodedMsg (Some Ping) (endpoint (identity self)) 7 1 (Ipv4Endpoint 0 0) [entry]).
Proof.
  intros self other entry out.
  destruct (gossip_message_roundtrip num_serialize_envelope num_parse_envelope num_serialize_sync_rsp
    num_parse_sync_rsp self Ping 7 1 0 other [entry] [self] out) as [H _].
  - by vm_compute.
  - by vm_compute.
  - by vm_compute.
  - by vm_compute.
  - apply num_envelope_roundtrip.
  - apply num_sync_rsp_roundtrip.
  - exact H.
Defined.
