(* ===== verification/Gossip.v ===== *)
(** * Gossip membership

    [net/gossip_membership.cpp]: a SWIM node.  Its state is the membership
    table with the pings in flight; its operations are the periodic protocol
    round, the handlers of the seven messages and the local calls.  Every
    operation returns the new state and the effects it has outside (packets,
    timers, the member-change callback).  The bytes of protobuf, the iteration
    order of the hash maps and the shuffle of the random engine are arguments.
    Fault injection is off. *)

From Stdlib Require Import String.
From stdpp Require Import base numbers list strings gmap.
From S2P Require Import Prelude Endpoint GossipCodec.

#[local] Open Scope Z_scope.

(** ** State *)

Record GossipConfig := mkGossipConfig {
  gossip_port : Z;
  protocol_period : Z;       (* milliseconds, as the four durations *)
  ping_timeout : Z;
  suspicion_timeout : Z;
  dead_timeout : Z;
  fanout : Z;
  indirect_probes : Z;
  seeds : list EndPoint;
  local_state : Member
}.

(** Clock readings are in nanoseconds. *)
Definition ms (d : Z) : Z := d * 1000000.

Record PendingPing := mkPending {
  expires_at : Z; indirect_requested : bool; indirect_expires_at : Z
}.

Inductive Effect :=
| Send (data : list Z) (target : EndPoint)
| Changed (m : Member) (joined : bool)
| RunAfter (delay : Z)
| RunEvery (period : Z)
| CancelTimer (id : Z)
| BindPort (port : Z)
| CloseTransport.

Section Gossip.
Context {Rng : Type} (shuffle : Rng -> list EndPoint -> list EndPoint * Rng).
Context (order : forall A, gmap EndPoint A -> list (EndPoint * A)).
Context (serialize_envelope : PbGossipEnvelope -> list Z) (parse_envelope : list Z -> option PbGossipEnvelope).
Context (serialize_sync_rsp : PbGossipSyncRsp -> list Z) (parse_sync_rsp : list Z -> option PbGossipSyncRsp).

Record GossipMembership := mkGossip {
  g_config : GossipConfig;
  g_loop : bool;                          (* loop_ is not null *)
  g_transport : bool;                     (* transport_ is not null *)
  g_incarnation : Z;
  g_seq_no : Z;
  g_members : gmap EndPoint Member;
  g_pending_pings : gmap EndPoint PendingPing;
  g_forwarded_pings : gmap EndPoint EndPoint;
  g_member_change_cb : bool;              (* a callback is registered *)
  g_protocol_timer : Z;
  g_join_retry_timer : Z;
  g_join_seed_index : Z;
  g_needs_dissemination : bool;
  g_rng : Rng;
  g_rng_seeded : bool
}.

Definition self_ep (g : GossipMembership) : EndPoint := endpoint (identity (local_state (g_config g))).

(** The two constructors: with an event loop, and with a transport only. *)
Definition gossip_with_loop (cfg : GossipConfig) (loop : bool) (rng : Rng) : GossipMembership :=
  mkGossip cfg loop loop 1 0 ∅ ∅ ∅ false 0 0 0 false rng false.
Definition gossip_with_transport (cfg : GossipConfig) (rng : Rng) : GossipMembership :=
  mkGossip cfg false true 1 0 ∅ ∅ ∅ false 0 0 0 false rng false.

Definition set_table (g : GossipMembership) (members : gmap EndPoint Member)
    (pending : gmap EndPoint PendingPing) : GossipMembership :=
  mkGossip (g_config g) (g_loop g) (g_transport g) (g_incarnation g) (g_seq_no g) members pending
    (g_forwarded_pings g) (g_member_change_cb g) (g_protocol_timer g) (g_join_retry_timer g)
    (g_join_seed_index g) (g_needs_dissemination g) (g_rng g) (g_rng_seeded g).
Definition set_members (g : GossipMembership) (members : gmap EndPoint Member) : GossipMembership :=
  set_table g members (g_pending_pings g).
Definition set_pings (g : GossipMembership) (pending : gmap EndPoint PendingPing) : GossipMembership :=
  set_table g (g_members g) pending.
Definition set_seq_no (g : GossipMembership) (seq : Z) : GossipMembership :=
  mkGossip (g_config g) (g_loop g) (g_transport g) (g_incarnation g) seq (g_members g) (g_pending_pings g)
    (g_forwarded_pings g) (g_member_change_cb g) (g_protocol_timer g) (g_join_retry_timer g)
    (g_join_seed_index g) (g_needs_dissemination g) (g_rng g) (g_rng_seeded g).
Definition set_forwarded (g : GossipMembership) (f : gmap EndPoint EndPoint) : GossipMembership :=
  mkGossip (g_config g) (g_loop g) (g_transport g) (g_incarnation g) (g_seq_no g) (g_members g) (g_pending_pings g)
    f (g_member_change_cb g) (g_protocol_timer g) (g_join_retry_timer g)
    (g_join_seed_index g) (g_needs_dissemination g) (g_rng g) (g_rng_seeded g).
Definition set_timers (g : GossipMembership) (protocol join : Z) : GossipMembership :=
  mkGossip (g_config g) (g_loop g) (g_transport g) (g_incarnation g) (g_seq_no g) (g_members g) (g_pending_pings g)
    (g_forwarded_pings g) (g_member_change_cb g) protocol join
    (g_join_seed_index g) (g_needs_dissemination g) (g_rng g) (g_rng_seeded g).
Definition set_seed_index (g : GossipMembership) (i : Z) : GossipMembership :=
  mkGossip (g_config g) (g_loop g) (g_transport g) (g_incarnation g) (g_seq_no g) (g_members g) (g_pending_pings g)
    (g_forwarded_pings g) (g_member_change_cb g) (g_protocol_timer g) (g_join_retry_timer g)
    i (g_needs_dissemination g) (g_rng g) (g_rng_seeded g).
Definition set_needs (g : GossipMembership) (b : bool) : GossipMembership :=
  mkGossip (g_config g) (g_loop g) (g_transport g) (g_incarnation g) (g_seq_no g) (g_members g) (g_pending_pings g)
    (g_forwarded_pings g) (g_member_change_cb g) (g_protocol_timer g) (g_join_retry_timer g)
    (g_join_seed_index g) b (g_rng g) (g_rng_seeded g).
Definition set_rng (g : GossipMembership) (r : Rng) (seeded : bool) : GossipMembership :=
  mkGossip (g_config g) (g_loop g) (g_transport g) (g_incarnation g) (g_seq_no g) (g_members g) (g_pending_pings g)
    (g_forwarded_pings g) (g_member_change_cb g) (g_protocol_timer g) (g_join_retry_timer g)
    (g_join_seed_index g) (g_needs_dissemination g) r seeded.
Definition set_identity (g : GossipMembership) (cfg : GossipConfig) (inc : Z) (needs : bool) : GossipMembership :=
  mkGossip cfg (g_loop g) (g_transport g) inc (g_seq_no g) (g_members g) (g_pending_pings g)
    (g_forwarded_pings g) (g_member_change_cb g) (g_protocol_timer g) (g_join_retry_timer g)
    (g_join_seed_index g) needs (g_rng g) (g_rng_seeded g).
Definition set_callback (g : GossipMembership) (b : bool) : GossipMembership :=
  mkGossip (g_config g) (g_loop g) (g_transport g) (g_incarnation g) (g_seq_no g) (g_members g) (g_pending_pings g)
    (g_forwarded_pings g) b (g_protocol_timer g) (g_join_retry_timer g)
    (g_join_seed_index g) (g_needs_dissemination g) (g_rng g) (g_rng_seeded g).

(** ** The membership table *)

Definition with_status (m : Member) (s : MemberStatus) (now : Z) : Member :=
  mkMember (identity m) (actor_types m) s (incarnation m) now.

(** [mark_suspicious] on the table. *)
Definition mark_suspicious (ep : EndPoint) (now : Z) (t : gmap EndPoint Member) : gmap EndPoint Member :=
  match t !! ep with
  | Some m => <[ep := with_status m Suspicious now]> t
  | None => t
  end.

(** [mark_dead]: the table and the notification. *)
Definition mark_dead (ep : EndPoint) (now : Z) (g : GossipMembership) : GossipMembership * list Effect :=
  match g_members g !! ep with
  | Some m =>
      let m := with_status m Dead now in
      (set_members g (<[ep := m]> (g_members g)),
       if g_member_change_cb g then [Changed m false] else [])
  | None => (g, [])
  end.

(** The update of an existing entry in [merge_member]. *)
Definition merge_existing (existing remote : Member) (now : Z) : Member :=
  let st := if bool_decide (status existing = Dead) && (incarnation existing <? incarnation remote)
            then Alive else status existing in
  let st := match status remote with
            | Suspicious | Dead | Left => status remote
            | _ => st
            end in
  mkMember
    (mkIdentity (endpoint (identity existing))
       (if bool_decide (host (identity remote) = ""%string) then host (identity existing)
        else host (identity remote))
       (uds_path (identity existing))
       (match acceptors (identity remote) with [] => acceptors (identity existing) | _ => acceptors (identity remote) end))
    (match actor_types remote with [] => actor_types existing | _ => actor_types remote end)
    st (incarnation remote)
    (if bool_decide (st = Alive) then now else last_seen existing).

Definition merge_member (remote : Member) (now : Z) (t : gmap EndPoint Member) : gmap EndPoint Member :=
  let ep := endpoint (identity remote) in
  match t !! ep with
  | None => <[ep := with_status remote (status remote) now]> t
  | Some existing =>
      if incarnation remote <=? incarnation existing then t
      else <[ep := merge_existing existing remote now]> t
  end.

(** One entry of [apply_piggyback]: a new member, or the update of one. *)
Definition piggyback_new (e : PiggybackEntry) (now : Z) : Member :=
  let m := member_of (endpoint (pb_identity e)) (pb_incarnation e) Alive now in
  match pb_type e with
  | PAlive | POther _ => m
  | PSuspicious => with_status m Suspicious now
  | PDead => with_status m Dead now
  | PMetadata =>
      mkMember (mkIdentity (endpoint (pb_identity e)) "" "" (acceptors (pb_identity e))) (pb_actor_types e)
        Alive (pb_incarnation e) now
  end.

Definition piggyback_existing (m : Member) (e : PiggybackEntry) (now : Z) : Member :=
  let m := mkMember (identity m) (actor_types m) (status m) (pb_incarnation e) now in
  match pb_type e with
  | PAlive => match status m with
              | Suspicious | Dead => with_status m Alive now
              | _ => m
              end
  | PSuspicious => with_status m Suspicious now
  | PDead => with_status m Dead now
  | PMetadata =>
      mkMember
        (mkIdentity (endpoint (identity m)) (host (identity m)) (uds_path (identity m))
           (match acceptors (pb_identity e) with [] => acceptors (identity m) | _ => acceptors (pb_identity e) end))
        (match pb_actor_types e with [] => actor_types m | _ => pb_actor_types e end)
        (status m) (incarnation m) (last_seen m)
  | POther _ => m
  end.

Definition apply_entry (now : Z) (t : gmap EndPoint Member) (e : PiggybackEntry) : gmap EndPoint Member :=
  let ep := endpoint (pb_identity e) in
  match t !! ep with
  | None => <[ep := piggyback_new e now]> t
  | Some m => if pb_incarnation e <? incarnation m then t else <[ep := piggyback_existing m e now]> t
  end.

Definition apply_piggyback (entries : list PiggybackEntry) (now : Z) (t : gmap EndPoint Member)
  : gmap EndPoint Member := foldl (apply_entry now) t entries.

(** [purge_dead_tombstones]. *)
Definition is_tombstone (s : MemberStatus) : bool := match s with Dead | Left => true | _ => false end.
Definition expired_tombstone (cfg : GossipConfig) (now : Z) (m : Member) : bool :=
  is_tombstone (status m) && (ms (dead_timeout cfg) <? now - last_seen m).
Definition purge_dead_tombstones (cfg : GossipConfig) (now : Z) (t : gmap EndPoint Member) : gmap EndPoint Member :=
  filter (fun '(_, m) => expired_tombstone cfg now m = false) t.

(** ** Peers and piggybacks *)

Definition is_alive (m : Member) : bool := bool_decide (status m = Alive).

(** The [candidates] of [pick_random_peers]. *)
Definition candidates (g : GossipMembership) (exclude : list EndPoint) : list EndPoint :=
  map fst (List.filter
    (fun '(ep, m) => is_alive m && negb (bool_decide (ep = self_ep g)) && negb (bool_decide (ep ∈ exclude)))
    (order _ (g_members g))).

Definition pick_random_peers (count : Z) (exclude : list EndPoint) (g : GossipMembership)
  : list EndPoint * GossipMembership :=
  let cs := candidates g exclude in
  if zlen cs <=? count then (cs, g)
  else let '(cs, r) := shuffle (g_rng g) cs in (take (Z.to_nat count) cs, set_rng g r (g_rng_seeded g)).

Definition self_metadata (g : GossipMembership) : PiggybackEntry :=
  mkPiggyback PMetadata (mkIdentity (self_ep g) "" "" (acceptors (identity (local_state (g_config g)))))
    (g_incarnation g) (actor_types (local_state (g_config g))) 0.

(** [build_piggyback_impl]. *)
Definition status_entry (p : EndPoint * Member) : list PiggybackEntry :=
  let '(ep, m) := p in
  match status m with
  | Suspicious => [mkPiggyback PSuspicious (identity_of ep) (incarnation m) [] 0]
  | Dead => [mkPiggyback PDead (identity_of ep) (incarnation m) [] 0]
  | _ => []
  end.
Definition build_piggyback_impl (g : GossipMembership) : list PiggybackEntry :=
  (if g_needs_dissemination g then [self_metadata g] else [])
  ++ flat_map status_entry (order _ (g_members g)).

(** ** Sending *)

(** [encode_message(type, incarnation_, seq_no_++, target, pb)] and
    [if (transport_) transport_->send(msg, to)]. *)
Definition send_message (type : GossipMessageType) (ping_target : EndPoint) (pb : list PiggybackEntry)
    (to : EndPoint) (g : GossipMembership) : GossipMembership * list Effect :=
  let msg := encode_message serialize_envelope (local_state (g_config g)) type (g_incarnation g) (g_seq_no g)
               ping_target pb in
  (set_seq_no g (u32 (g_seq_no g + 1)), if g_transport g then [Send msg to] else []).

Definition send_ping (target : EndPoint) (g : GossipMembership) : GossipMembership * list Effect :=
  send_message Ping (self_ep g) (build_piggyback_impl g) target g.
Definition send_ack (target : EndPoint) (pb : list PiggybackEntry) (g : GossipMembership) :=
  send_message Ack (self_ep g) pb target g.
Definition send_ping_req (proxy target : EndPoint) (g : GossipMembership) : GossipMembership * list Effect :=
  send_message PingReq target (build_piggyback_impl g) proxy g.
Definition send_indirect_ack (target orig_target : EndPoint) (g : GossipMembership) :=
  send_message IndirectAck orig_target [] target g.
Definition send_join (seed : EndPoint) (g : GossipMembership) : GossipMembership * list Effect :=
  send_message Join (self_ep g) [self_metadata g] seed g.
Definition send_leave (target : EndPoint) (g : GossipMembership) : GossipMembership * list Effect :=
  send_message Leave (self_ep g) [] target g.

Definition send_sync_rsp (target : EndPoint) (g : GossipMembership) : list Effect :=
  let table := List.filter (fun m => negb (is_tombstone (status m))) (map snd (order _ (g_members g))) in
  let data := encode_sync_rsp serialize_sync_rsp (local_state (g_config g)) (g_incarnation g) table in
  if g_transport g then [Send data target] else [].

(** Run an operation for each element, collecting the effects. *)
Definition for_each {A} (f : A -> GossipMembership -> GossipMembership * list Effect) (l : list A)
    (g : GossipMembership) : GossipMembership * list Effect :=
  foldl (fun '(g, out) x => let '(g, o) := f x g in (g, out ++ o)) (g, []) l.

(** ** The protocol round *)

(** Step 1, one expired ping: the pending pings, the pings to request through
    proxies and the members to suspect. *)
Record Probes := mkProbes {
  pr_g : GossipMembership;
  pr_reqs : list (EndPoint * EndPoint);        (* (proxy, target) *)
  pr_suspects : list EndPoint
}.

Definition probe_expired (now : Z) (p : Probes) (target : EndPoint) : Probes :=
  let g := pr_g p in
  match g_pending_pings g !! target with
  | None => p
  | Some pp =>
      if negb (indirect_requested pp) then
        let pp := mkPending (expires_at pp) true (now + ms (ping_timeout (g_config g))) in
        let g := set_pings g (<[target := pp]> (g_pending_pings g)) in
        let '(probes, g) := pick_random_peers (indirect_probes (g_config g)) [target; self_ep g] g in
        match probes with
        | [] => mkProbes (set_pings g (delete target (g_pending_pings g))) (pr_reqs p) (pr_suspects p ++ [target])
        | _ => mkProbes g (pr_reqs p ++ map (fun proxy => (proxy, target)) probes) (pr_suspects p)
        end
      else mkProbes (set_pings g (delete target (g_pending_pings g))) (pr_reqs p) (pr_suspects p ++ [target])
  end.

Definition expired_pings (now : Z) (g : GossipMembership) : list EndPoint :=
  map fst (List.filter (fun '(_, pp) => expires_at pp <=? now) (order _ (g_pending_pings g))).

Definition check_pending_pings (now now_mark : Z) (g : GossipMembership) : GossipMembership * list Effect :=
  let p := foldl (probe_expired now) (mkProbes g [] []) (expired_pings now g) in
  let '(g, out) := for_each (fun '(proxy, target) => send_ping_req proxy target) (pr_reqs p) (pr_g p) in
  (set_members g (foldl (fun t ep => mark_suspicious ep now_mark t) (g_members g) (pr_suspects p)), out).

(** Step 2. *)
Definition ping_target (now : Z) (pb : list PiggybackEntry) (target : EndPoint) (g : GossipMembership)
  : GossipMembership * list Effect :=
  let '(g, out) := send_message Ping (self_ep g) pb target g in
  let expires := now + ms (ping_timeout (g_config g)) in
  let pp := match g_pending_pings g !! target with
            | Some pp => mkPending expires (indirect_requested pp) (indirect_expires_at pp)
            | None => mkPending expires false 0
            end in
  (set_pings g (<[target := pp]> (g_pending_pings g)), out).

Definition send_pings (now : Z) (g : GossipMembership) : GossipMembership * list Effect :=
  match candidates g [] with
  | [] => (g, [])
  | _ =>
      let '(targets, g) := pick_random_peers (fanout (g_config g)) [] g in
      let pb := build_piggyback_impl g in
      let '(g, out) := for_each (ping_target now pb) targets g in
      (if g_needs_dissemination g && negb (bool_decide (length pb = 0%nat)) then set_needs g false else g, out)
  end.

(** Step 3. *)
Definition suspicion_expired (cfg : GossipConfig) (now : Z) (m : Member) : bool :=
  bool_decide (status m = Suspicious) && (ms (suspicion_timeout cfg) <? now - last_seen m).
Definition check_suspicious (now now_mark : Z) (g : GossipMembership) : GossipMembership * list Effect :=
  let to_mark_dead := map fst (List.filter (fun '(_, m) => suspicion_expired (g_config g) now m)
                                 (order _ (g_members g))) in
  for_each (fun ep => mark_dead ep now_mark) to_mark_dead g.

(** [protocol_round]: the clock is read at the start, by the functions that
    mark members, and by the purge. *)
Definition protocol_round (now now_mark now_purge : Z) (g : GossipMembership) : GossipMembership * list Effect :=
  let '(g, o1) := check_pending_pings now now_mark g in
  let '(g, o2) := send_pings now g in
  let '(g, o3) := check_suspicious now now_mark g in
  (set_members g (purge_dead_tombstones (g_config g) now_purge (g_members g)), o1 ++ o2 ++ o3).

(** ** Message handlers *)

(** A message of [sender]'s proves that it is alive. *)
Definition merge_sender (sender : EndPoint) (inc now : Z) (g : GossipMembership) : GossipMembership :=
  set_members g (merge_member (member_of sender inc Alive now) now (g_members g)).

Definition handle_ping (sender : EndPoint) (inc : Z) (pb : list PiggybackEntry) (now : Z) (g : GossipMembership)
  : GossipMembership * list Effect :=
  let g := merge_sender sender inc now g in
  let g := set_members g (apply_piggyback pb now (g_members g)) in
  let g := set_pings g (delete sender (g_pending_pings g)) in
  let ack_pb := build_piggyback_impl g in
  let g := if bool_decide (length ack_pb = 0%nat) then g else set_needs g false in
  send_message Ack (self_ep g) ack_pb sender g.

Definition handle_ack (sender : EndPoint) (inc : Z) (pb : list PiggybackEntry) (now : Z) (g : GossipMembership)
  : GossipMembership * list Effect :=
  let g := merge_sender sender inc now g in
  let '(g, out) :=
    match g_forwarded_pings g !! sender with
    | Some requester =>
        let '(g, out) := send_indirect_ack requester sender g in
        (set_forwarded g (delete sender (g_forwarded_pings g)), out)
    | None => (g, [])
    end in
  let g := set_pings g (delete sender (g_pending_pings g)) in
  (set_members g (apply_piggyback pb now (g_members g)), out).

Definition handle_ping_req (sender target : EndPoint) (now : Z) (g : GossipMembership)
  : GossipMembership * list Effect :=
  let g := merge_sender sender 0 now g in
  let g := set_forwarded g (<[target := sender]> (g_forwarded_pings g)) in
  send_message Ping (self_ep g) (build_piggyback_impl g) target g.

Definition handle_indirect_ack (sender target : EndPoint) (now : Z) (g : GossipMembership) : GossipMembership :=
  let g := merge_sender sender 0 now g in
  match g_pending_pings g !! target with
  | Some pp => if indirect_requested pp then set_pings g (delete target (g_pending_pings g)) else g
  | None => g
  end.

Definition handle_join (sender : EndPoint) (inc : Z) (pb : list PiggybackEntry) (now : Z) (g : GossipMembership)
  : GossipMembership * list Effect :=
  let g := merge_sender sender inc now g in
  let g := set_members g (apply_piggyback pb now (g_members g)) in
  (g, send_sync_rsp sender g).

Definition self_entry (g : GossipMembership) (now : Z) : Member :=
  let m := local_state (g_config g) in
  mkMember (identity m) (actor_types m) Alive (g_incarnation g) now.

(** [join_retry_timer_ != 0 && loop_]: cancel it. *)
Definition cancel_join_retry (g : GossipMembership) : GossipMembership * list Effect :=
  if negb (g_join_retry_timer g =? 0) && g_loop g
  then (set_timers g (g_protocol_timer g) 0, [CancelTimer (g_join_retry_timer g)])
  else (g, []).

Definition handle_sync_rsp (members : list Member) (now : Z) (g : GossipMembership)
  : GossipMembership * list Effect :=
  let g := set_members g (foldl (fun t m => merge_member m now t) (g_members g) members) in
  let '(g, out) := cancel_join_retry g in
  match g_members g !! self_ep g with
  | Some _ => (g, out)
  | None => (set_members g (<[self_ep g := self_entry g now]> (g_members g)), out)
  end.

Definition handle_leave (sender : EndPoint) (inc now : Z) (g : GossipMembership) : GossipMembership * list Effect :=
  match g_members g !! sender with
  | Some m =>
      if incarnation m <=? inc
      then let m := with_status m Left now in
           (set_members g (<[sender := m]> (g_members g)),
            if g_member_change_cb g then [Changed m false] else [])
      else (g, [])
  | None => (g, [])
  end.

(** The out parameters before [decode_message]: the endpoints are default
    constructed; the numbers are not initialised and not read unless set. *)
Definition decode_out : Decoded := mkDecodedMsg None (Ipv4Endpoint 0 0) 0 0 (Ipv4Endpoint 0 0) [].

Definition handle_packet (data : list Z) (now : Z) (g : GossipMembership) : GossipMembership * list Effect :=
  match decode_message parse_envelope data decode_out with
  | None =>
      match decode_sync_rsp parse_sync_rsp data now with
      | Some members => handle_sync_rsp members now g
      | None => (g, [])
      end
  | Some d =>
      match d_type d with
      | Some Ping => handle_ping (d_sender d) (d_inc d) (d_pb d) now g
      | Some Ack => handle_ack (d_sender d) (d_inc d) (d_pb d) now g
      | Some PingReq => handle_ping_req (d_sender d) (d_target d) now g
      | Some IndirectAck => (handle_indirect_ack (d_sender d) (d_target d) now g, [])
      | Some Join => handle_join (d_sender d) (d_inc d) (d_pb d) now g
      | Some Leave => handle_leave (d_sender d) (d_inc d) now g
      | Some SyncRsp | None => (g, [])
      end
  end.

(** ** Local calls *)

(** [start]: [bind_ok] is the transport's answer, [wall] the wall clock,
    [join_id] and [protocol_id] what the loop returns for the two timers,
    [seed] the engine seeded from the random device.  [None]: [loop_] is
    dereferenced while null. *)
Definition gossip_start (bind_ok : bool) (wall now join_id protocol_id : Z) (seed : Rng) (g : GossipMembership)
  : option (GossipMembership * list Effect) :=
  let g := set_identity g (g_config g) (u64 wall) (g_needs_dissemination g) in
  if g_transport g && negb bind_ok then Some (g, [BindPort (gossip_port (g_config g))])
  else
    let out := if g_transport g then [BindPort (gossip_port (g_config g))] else [] in
    let g := set_members g (<[self_ep g := self_entry g now]> (g_members g)) in
    match seeds (g_config g) with
    | s :: _ =>
        let '(g, o) := send_join s (set_seed_index g 0) in
        if negb (g_loop g) then None
        else
          let g := set_timers g (g_protocol_timer g) join_id in
          let g := if g_rng_seeded g then g else set_rng g seed true in
          Some (set_timers g protocol_id (g_join_retry_timer g),
                out ++ o ++ [RunAfter 1000; RunEvery (protocol_period (g_config g))])
    | [] =>
        if negb (g_loop g) then None
        else
          let g := if g_rng_seeded g then g else set_rng g seed true in
          Some (set_timers g protocol_id (g_join_retry_timer g), out ++ [RunEvery (protocol_period (g_config g))])
    end.

(** The retry timer of [start] fires; [join_id] is the next timer's id. *)
Definition join_retry (join_id : Z) (g : GossipMembership) : GossipMembership * list Effect :=
  let i := u64 (g_join_seed_index g + 1) in
  let g := set_seed_index g i in
  match seeds (g_config g) !! Z.to_nat i with
  | None => (g, [])
  | Some s =>
      if 1 <? Z.of_nat (size (g_members g)) then (g, [])
      else let '(g, o) := send_join s g in
           (set_timers g (g_protocol_timer g) join_id, o ++ [RunAfter 1000])
  end.

Definition gossip_stop (g : GossipMembership) : GossipMembership * list Effect :=
  let o1 := if negb (g_protocol_timer g =? 0) && g_loop g then [CancelTimer (g_protocol_timer g)] else [] in
  let g := if negb (g_protocol_timer g =? 0) && g_loop g then set_timers g 0 (g_join_retry_timer g) else g in
  let '(g, o2) := cancel_join_retry g in
  let leaving := map fst (List.filter
    (fun '(_, m) => match status m with Alive | Suspicious => true | _ => false end) (order _ (g_members g))) in
  let '(g, o3) := for_each send_leave leaving g in
  let g := set_forwarded (set_table g ∅ ∅) ∅ in
  (g, o1 ++ o2 ++ o3 ++ (if g_transport g then [CloseTransport] else [])).

Definition with_local (cfg : GossipConfig) (m : Member) : GossipConfig :=
  mkGossipConfig (gossip_port cfg) (protocol_period cfg) (ping_timeout cfg) (suspicion_timeout cfg)
    (dead_timeout cfg) (fanout cfg) (indirect_probes cfg) (seeds cfg) m.

Definition announce (m : Member) (now : Z) (g : GossipMembership) : GossipMembership :=
  let inc := u64 (g_incarnation g + 1) in
  set_identity g (with_local (g_config g) (mkMember (identity m) (actor_types m) (status m) inc now)) inc true.

Definition on_member_change (registered : bool) (g : GossipMembership) : GossipMembership := set_callback g registered.

Definition discover_all (g : GossipMembership) : list Member := map snd (order _ (g_members g)).
Definition discover (ep : EndPoint) (g : GossipMembership) : option Member := g_members g !! ep.

(** ** Runs *)

Inductive Event :=
| EvPacket (data : list Z) (now : Z)
| EvRound (now now_mark now_purge : Z)
| EvJoinRetry (join_id : Z)
| EvAnnounce (m : Member) (now : Z)
| EvCallback (registered : bool)
| EvStop.

Definition gossip_step (g : GossipMembership) (e : Event) : GossipMembership * list Effect :=
  match e with
  | EvPacket data now => handle_packet data now g
  | EvRound now now_mark now_purge => protocol_round now now_mark now_purge g
  | EvJoinRetry id => join_retry id g
  | EvAnnounce m now => (announce m now g, [])
  | EvCallback b => (on_member_change b g, [])
  | EvStop => gossip_stop g
  end.

Definition grun (g : GossipMembership) (evs : list Event) : GossipMembership * list Effect :=
  for_each (fun e g => gossip_step g e) evs g.
End Gossip.
