(* ===== verification/GossipSpec.v ===== *)
(** * Properties of gossip membership

    What a protocol round does to one member, and from it: incarnations never
    go back, a silent member is suspected, declared dead and removed, and where
    failure detection departs from its design (suspicion is never withdrawn,
    gossip about a suspect restarts its timer, a member that left stays out). *)

From Stdlib Require Import String.
From stdpp Require Import base numbers list strings gmap.
From S2P Require Import Prelude Endpoint GossipCodec Gossip.

#[local] Open Scope Z_scope.

Section Spec.
Context {Rng : Type} (shuffle : Rng -> list EndPoint -> list EndPoint * Rng).
Context (order : forall A, gmap EndPoint A -> list (EndPoint * A)).
Context (serialize_envelope : PbGossipEnvelope -> list Z) (parse_envelope : list Z -> option PbGossipEnvelope).
Context (serialize_sync_rsp : PbGossipSyncRsp -> list Z) (parse_sync_rsp : list Z -> option PbGossipSyncRsp).
(** An iteration visits every entry once; a shuffle permutes. *)
Context (Horder : forall A (m : gmap EndPoint A), order A m ≡ₚ map_to_list m).
Context (Hshuffle : forall r l, (shuffle r l).1 ≡ₚ l).

#[local] Notation Node := (@GossipMembership Rng).
#[local] Notation round := (protocol_round shuffle order serialize_envelope).
#[local] Notation step := (gossip_step shuffle order serialize_envelope parse_envelope serialize_sync_rsp parse_sync_rsp).

(** ** Iteration *)

Lemma for_each_ind {A} (P : Node -> Prop) (f : A -> Node -> Node * list Effect) l g :
  (forall x g, x ∈ l -> P g -> P (f x g).1) -> P g -> P (for_each f l g).1.
Proof.
  unfold for_each. generalize (@nil Effect) as out. revert g.
  induction l as [|x l IH]; intros g out Hf Hg; [done|]. cbn [foldl].
  destruct (f x g) as [g' o] eqn:E. apply IH.
  - intros y h Hy. apply Hf. by right.
  - specialize (Hf x g). rewrite E in Hf. apply Hf; [left|done].
Qed.

Lemma for_each_effects {A} (Q : Effect -> Prop) (f : A -> Node -> Node * list Effect) l g :
  (forall x g, x ∈ l -> Forall Q (f x g).2) -> Forall Q (for_each f l g).2.
Proof.
  unfold for_each. intros Hf. assert (H0 : Forall Q (@nil Effect)) by constructor. revert H0.
  generalize (@nil Effect) as out. revert g Hf.
  induction l as [|x l IH]; intros g Hf out Ho; [done|]. cbn [foldl].
  destruct (f x g) as [g' o] eqn:E. apply IH.
  - intros y h Hy. apply Hf. by right.
  - apply Forall_app. split; [done|]. specialize (Hf x g). rewrite E in Hf. apply Hf. left.
Qed.

Lemma elem_of_order {A} (m : gmap EndPoint A) k x : (k, x) ∈ order A m <-> m !! k = Some x.
Proof. rewrite Horder. apply elem_of_map_to_list. Qed.

Lemma NoDup_order_fst {A} (m : gmap EndPoint A) : NoDup (map fst (order A m)).
Proof. change (map fst (order A m)) with ((order A m).*1). rewrite Horder. apply NoDup_fst_map_to_list. Qed.

(** The keys that a loop over a map selects. *)
Lemma elem_of_selected {A} (f : EndPoint * A -> bool) (m : gmap EndPoint A) k :
  k ∈ map fst (List.filter f (order A m)) <-> exists x, m !! k = Some x /\ f (k, x) = true.
Proof.
  rewrite list_elem_of_In, in_map_iff. split.
  - intros ([k' x] & Hk & Hin). simpl in Hk. subst k'. apply filter_In in Hin as [Hin Hf].
    apply list_elem_of_In, elem_of_order in Hin. eauto.
  - intros (x & Hx & Hf). exists (k, x). split; [done|]. apply filter_In. split; [|done].
    by apply list_elem_of_In, elem_of_order.
Qed.

Lemma NoDup_selected {A} (f : EndPoint * A -> bool) (m : gmap EndPoint A) :
  NoDup (map fst (List.filter f (order A m))).
Proof.
  pose proof (NoDup_order_fst m) as H. revert H. induction (order A m) as [|[k x] l IH]; [done|].
  simpl. intros [Hk Hl]%NoDup_cons. destruct (f (k, x)); [|by apply IH].
  simpl. apply NoDup_cons. split; [|by apply IH]. intros Hin. apply Hk.
  apply list_elem_of_In, in_map_iff in Hin as (y & Hy & Hin). apply filter_In in Hin as [Hin _].
  apply list_elem_of_In, in_map_iff. eauto.
Qed.

(** ** What each operation leaves alone *)

(** The same configuration, members and pings. *)
Definition same_tables (g g' : Node) : Prop :=
  g_config g' = g_config g /\ g_members g' = g_members g /\ g_pending_pings g' = g_pending_pings g.

Lemma send_message_tables ty t pb to g : same_tables g (send_message serialize_envelope ty t pb to g).1.
Proof. done. Qed.

Lemma for_each_tables {A} (f : A -> Node -> Node * list Effect) l g :
  (forall x g, same_tables g (f x g).1) -> same_tables g (for_each f l g).1.
Proof.
  intros Hf. apply (for_each_ind (same_tables g)); [|done].
  intros x h _ (H1 & H2 & H3). destruct (Hf x h) as (E1 & E2 & E3). unfold same_tables. by rewrite E1, E2, E3.
Qed.

Lemma pick_random_peers_tables n ex g : same_tables g (pick_random_peers shuffle order n ex g).2.
Proof. unfold pick_random_peers. bcase; [done|]. by destruct (shuffle _ _). Qed.

(** The peers that are picked: distinct, alive, not this node, not excluded,
    and at most [n]. *)
Lemma pick_random_peers_spec n ex g :
  0 <= n ->
  let ps := (pick_random_peers shuffle order n ex g).1 in
  NoDup ps /\ zlen ps <= n /\
  forall p, p ∈ ps -> p <> self_ep g /\ p ∉ ex /\ exists m, g_members g !! p = Some m /\ status m = Alive.
Proof.
  intros Hn. assert (Hc : forall p, p ∈ candidates order g ex -> p <> self_ep g /\ p ∉ ex /\
    exists m, g_members g !! p = Some m /\ status m = Alive).
  { intros p. unfold candidates. rewrite elem_of_selected. intros (m & Hm & Hf). unfold is_alive in Hf.
    bool_to_prop. eauto 10. }
  assert (Hd : NoDup (candidates order g ex)) by apply NoDup_selected.
  unfold pick_random_peers. bcase; bool_to_prop; [by repeat split; try apply Hc|].
  pose proof (Hshuffle (g_rng g) (candidates order g ex)) as Hp.
  destruct (shuffle _ _) as [cs r]. simpl in *. split_and!.
  - apply (sublist_NoDup _ cs); [by rewrite Hp|apply sublist_take].
  - unfold zlen. rewrite length_take. lia.
  - intros p Hin. apply Hc. rewrite <- Hp. apply elem_of_take in Hin as (i & Hi & _).
    by eapply list_elem_of_lookup_2.
Qed.

(** ** A round, member by member *)

(** Step 1 on one target: its ping goes, and it is suspected, or it waits for
    the indirect probes. *)
Lemma probe_expired_spec now p target :
  let p' := probe_expired shuffle order now p target in
  g_config (pr_g p') = g_config (pr_g p) /\ g_members (pr_g p') = g_members (pr_g p) /\
  (forall q, q <> target -> g_pending_pings (pr_g p') !! q = g_pending_pings (pr_g p) !! q /\
     (q ∈ pr_suspects p' <-> q ∈ pr_suspects p)) /\
  match g_pending_pings (pr_g p) !! target with
  | None => p' = p
  | Some pp =>
      (g_pending_pings (pr_g p') !! target = None /\ target ∈ pr_suspects p') \/
      (indirect_requested pp = false /\ pr_suspects p' = pr_suspects p /\
       exists ie, g_pending_pings (pr_g p') !! target = Some (mkPending (expires_at pp) true ie))
  end.
Proof.
  unfold probe_expired. destruct (g_pending_pings (pr_g p) !! target) as [pp|] eqn:Epp; [|by repeat split].
  assert (Hsnoc : forall q (l : list EndPoint), q <> target -> q ∈ l ++ [target] <-> q ∈ l)
    by (intros q l Hq; set_solver).
  destruct (indirect_requested pp) eqn:Ei; simpl.
  - split_and!; [done|done| |left; split; [apply lookup_delete_eq|set_solver]].
    intros q Hq. rewrite lookup_delete_ne by done. split; [done|by apply Hsnoc].
  - set (g1 := set_pings _ _).
    pose proof (pick_random_peers_tables (indirect_probes (g_config (pr_g p))) [target; self_ep g1] g1) as (E1 & E2 & E3).
    change (g_config g1) with (g_config (pr_g p)) in *.
    destruct (pick_random_peers _ _ _ _ _) as [probes g2]. simpl in E1, E2, E3.
    destruct probes as [|x probes]; simpl; rewrite ?E1, ?E2, ?E3; simpl.
    + split_and!; [done|done| |left; split; [apply lookup_delete_eq|set_solver]].
      intros q Hq. rewrite lookup_delete_ne, lookup_insert_ne by done. split; [done|by apply Hsnoc].
    + split_and!; [done|done| |right; split_and!; [done|done|]; eexists; apply lookup_insert_eq].
      intros q Hq. by rewrite lookup_insert_ne.
Qed.

Lemma probe_fold_spec now l p q :
  NoDup l ->
  let p' := foldl (probe_expired shuffle order now) p l in
  g_config (pr_g p') = g_config (pr_g p) /\ g_members (pr_g p') = g_members (pr_g p) /\
  (q ∉ pr_suspects p ->
   match g_pending_pings (pr_g p) !! q with
   | None => g_pending_pings (pr_g p') !! q = None /\ q ∉ pr_suspects p'
   | Some pp =>
       if bool_decide (q ∈ l) then
         (g_pending_pings (pr_g p') !! q = None /\ q ∈ pr_suspects p') \/
         (indirect_requested pp = false /\ q ∉ pr_suspects p' /\
          exists ie, g_pending_pings (pr_g p') !! q = Some (mkPending (expires_at pp) true ie))
       else g_pending_pings (pr_g p') !! q = Some pp /\ q ∉ pr_suspects p'
   end) /\
  (q ∈ pr_suspects p -> g_pending_pings (pr_g p) !! q = None ->
     g_pending_pings (pr_g p') !! q = None /\ q ∈ pr_suspects p').
Proof.
  intros Hnd. revert p. induction l as [|t l IH]; intros p; cbn [foldl].
  { split_and!; [done|done| |done]. intros Hq.
    destruct (g_pending_pings (pr_g p) !! q); [|done]. by rewrite bool_decide_eq_false_2 by set_solver. }
  apply NoDup_cons in Hnd as [Ht Hl].
  destruct (probe_expired_spec now p t) as (C & M & Hother & Htarget).
  destruct (IH Hl (probe_expired shuffle order now p t)) as (C' & M' & Hno & Hyes).
  set (p1 := probe_expired shuffle order now p t) in *.
  split_and!; [by rewrite C'|by rewrite M'| |].
  - intros Hq. destruct (decide (q = t)) as [->|Hne].
    + destruct (g_pending_pings (pr_g p) !! t) as [pp|] eqn:Epp.
      * rewrite bool_decide_eq_true_2 by left. destruct Htarget as [[Hp Hs]|(Hi & Hs & ie & Hp)].
        -- left. by apply Hyes.
        -- rewrite Hs, Hp in Hno. specialize (Hno Hq). rewrite bool_decide_eq_false_2 in Hno by done.
           right. destruct Hno. eauto.
      * rewrite Htarget, Epp in Hno. specialize (Hno Hq). by rewrite Htarget.
    + destruct (Hother q Hne) as [Hp Hs]. rewrite Hp in Hno. specialize (Hno (fun H => Hq (proj1 Hs H))).
      rewrite (bool_decide_ext (q ∈ t :: l) (q ∈ l)); [done|]. set_solver.
  - intros Hq Hp. apply Hyes.
    + destruct (decide (q = t)) as [->|Hne]; [|by apply Hother].
      rewrite Hp in Htarget. by rewrite Htarget.
    + destruct (decide (q = t)) as [->|Hne]; [|by rewrite (proj1 (Hother q Hne))].
      rewrite Hp in Htarget. by rewrite Htarget.
Qed.

Lemma mark_fold_lookup now l t q :
  foldl (fun t ep => mark_suspicious ep now t) t l !! q =
  if bool_decide (q ∈ l) then (fun m : Member => with_status m Suspicious now) <$> t !! q else t !! q.
Proof.
  revert t. induction l as [|x l IH]; intros t; cbn [foldl].
  { by rewrite bool_decide_eq_false_2 by set_solver. }
  assert (Hx : mark_suspicious x now t !! q =
    if bool_decide (q = x) then (fun m : Member => with_status m Suspicious now) <$> t !! q else t !! q).
  { unfold mark_suspicious. destruct (decide (q = x)) as [->|Hne].
    - rewrite bool_decide_eq_true_2 by done. destruct (t !! x) eqn:E; [by rewrite lookup_insert_eq|by rewrite E].
    - rewrite bool_decide_eq_false_2 by done. destruct (t !! x); [by rewrite lookup_insert_ne by done|done]. }
  rewrite IH, Hx. destruct (decide (q = x)) as [->|Hne].
  - rewrite (bool_decide_eq_true_2 (x = x)) by done. rewrite (bool_decide_eq_true_2 (x ∈ x :: l)) by left.
    by destruct (bool_decide (x ∈ l)), (t !! x).
  - rewrite (bool_decide_eq_false_2 (q = x)) by done.
    rewrite (bool_decide_ext (q ∈ x :: l) (q ∈ l)); [done|]. set_solver.
Qed.

(** Step 1 for [q]. *)
Lemma check_pending_spec now now_mark g q :
  let g' := (check_pending_pings shuffle order serialize_envelope now now_mark g).1 in
  g_config g' = g_config g /\
  match g_pending_pings g !! q with
  | None => g_pending_pings g' !! q = None /\ g_members g' !! q = g_members g !! q
  | Some pp =>
      if expires_at pp <=? now then
        (g_pending_pings g' !! q = None /\
         g_members g' !! q = (fun m => with_status m Suspicious now_mark) <$> g_members g !! q) \/
        (indirect_requested pp = false /\ g_members g' !! q = g_members g !! q /\
         exists ie, g_pending_pings g' !! q = Some (mkPending (expires_at pp) true ie))
      else g_pending_pings g' !! q = Some pp /\ g_members g' !! q = g_members g !! q
  end.
Proof.
  unfold check_pending_pings.
  assert (Hnd : NoDup (expired_pings order now g)) by apply NoDup_selected.
  destruct (probe_fold_spec now _ (mkProbes g [] []) q Hnd) as (C & M & Hno & _).
  specialize (Hno (not_elem_of_nil q)). cbn [pr_g pr_suspects] in *.
  set (p := foldl _ _ _) in *.
  match goal with |- context [for_each ?f ?l ?h] =>
    pose proof (for_each_tables f l h) as Ht; destruct (for_each f l h) as [g2 out] end.
  destruct Ht as (C2 & M2 & P2); [by intros [? ?] ?|]. cbn in C2, M2, P2.
  cbn. rewrite C2, M2, P2, C, M. split; [done|].
  destruct (g_pending_pings g !! q) as [pp|] eqn:Epp.
  - assert (Hin : bool_decide (q ∈ expired_pings order now g) = (expires_at pp <=? now)).
    { apply eq_bool_prop_intro. rewrite Is_true_true, bool_decide_eq_true. unfold expired_pings.
      rewrite elem_of_selected. split.
      - intros (pp' & Hpp' & Hle). simplify_eq/=. by rewrite Hle.
      - intros Hle. exists pp. split; [done|]. by destruct (expires_at pp <=? now). }
    rewrite Hin in Hno. rewrite mark_fold_lookup. destruct (expires_at pp <=? now).
    + destruct Hno as [[Hp Hs]|(Hi & Hs & Hp)]; [left|right].
      * by rewrite bool_decide_eq_true_2.
      * by rewrite bool_decide_eq_false_2.
    + destruct Hno as [Hp Hs]. by rewrite bool_decide_eq_false_2.
  - destruct Hno as [Hp Hs]. by rewrite mark_fold_lookup, bool_decide_eq_false_2.
Qed.

(** Step 2 for [q]: only an alive peer is pinged, and its record keeps whether
    probes were requested. *)
Lemma send_pings_spec now g q :
  let g' := (send_pings shuffle order serialize_envelope now g).1 in
  g_config g' = g_config g /\ g_members g' = g_members g /\
  (g_pending_pings g' !! q = g_pending_pings g !! q \/
   (exists m, g_members g !! q = Some m /\ status m = Alive /\ q <> self_ep g) /\
   exists pp, g_pending_pings g' !! q = Some pp /\
     expires_at pp = now + ms (ping_timeout (g_config g)) /\
     indirect_requested pp = from_option indirect_requested false (g_pending_pings g !! q)).
Proof.
  unfold send_pings. destruct (candidates order g []) as [|c cs] eqn:Ec; [by auto|].
  pose proof (pick_random_peers_tables (fanout (g_config g)) [] g) as (E1 & E2 & E3).
  assert (Hps : forall p, p ∈ (pick_random_peers shuffle order (fanout (g_config g)) [] g).1 ->
     exists m, g_members g !! p = Some m /\ status m = Alive /\ p <> self_ep g).
  { intros p Hp. assert (Hc : p ∈ candidates order g []).
    { revert Hp. unfold pick_random_peers. bcase; [done|].
      pose proof (Hshuffle (g_rng g) (candidates order g [])) as Hperm.
      destruct (shuffle _ _) as [l r]. simpl in *. rewrite elem_of_take. intros (i & Hi & _).
      rewrite <- Hperm. by eapply list_elem_of_lookup_2. }
    unfold candidates in Hc. rewrite elem_of_selected in Hc. destruct Hc as (m & Hm & Hf).
    unfold is_alive in Hf. bool_to_prop. eauto. }
  destruct (pick_random_peers shuffle order (fanout (g_config g)) [] g) as [targets g1]. simpl in E1, E2, E3, Hps.
  set (pb := build_piggyback_impl order g1).
  set (P := fun h : Node => g_config h = g_config g /\ g_members h = g_members g /\
    (g_pending_pings h !! q = g_pending_pings g !! q \/
     (exists m, g_members g !! q = Some m /\ status m = Alive /\ q <> self_ep g) /\
     exists pp, g_pending_pings h !! q = Some pp /\ expires_at pp = now + ms (ping_timeout (g_config g)) /\
       indirect_requested pp = from_option indirect_requested false (g_pending_pings g !! q))).
  assert (HP : P (for_each (ping_target serialize_envelope now pb) targets g1).1).
  { apply for_each_ind; [|unfold P; rewrite E1, E2, E3; by auto].
    intros x h Hx (C & M & Hp). unfold P, ping_target. simpl. rewrite C, M. split_and!; [done|done|].
    destruct (decide (x = q)) as [->|Hne]; [|by rewrite lookup_insert_ne].
    right. split; [by apply Hps|]. rewrite lookup_insert_eq. eexists. split; [done|].
    destruct Hp as [->|(_ & pp & -> & Hexp & Hi)].
    - by destruct (g_pending_pings g !! q).
    - by rewrite <- Hi. }
  destruct (for_each _ _ _) as [g2 out]. simpl in HP |- *. by destruct (_ && _).
Qed.

(** Marking members dead touches their entries only. *)
Lemma mark_dead_spec ep now (g : Node) q :
  let g' := (mark_dead ep now g).1 in
  g_config g' = g_config g /\ g_pending_pings g' = g_pending_pings g /\
  g_members g' !! q =
    if bool_decide (q = ep) then (fun m => with_status m Dead now) <$> g_members g !! q else g_members g !! q.
Proof.
  unfold mark_dead. destruct (g_members g !! ep) as [m|] eqn:Ex; simpl.
  - split_and!; [done|done|]. destruct (decide (q = ep)) as [->|Hne].
    + by rewrite lookup_insert_eq, bool_decide_eq_true_2, Ex.
    + by rewrite lookup_insert_ne, bool_decide_eq_false_2.
  - split_and!; [done|done|]. bcase; bool_to_prop; [|done]. subst. by rewrite Ex.
Qed.

Lemma mark_dead_fold_spec now l (g : Node) q :
  let g' := (for_each (fun ep => mark_dead ep now) l g).1 in
  g_config g' = g_config g /\ g_pending_pings g' = g_pending_pings g /\
  g_members g' !! q =
    if bool_decide (q ∈ l) then (fun m => with_status m Dead now) <$> g_members g !! q else g_members g !! q.
Proof.
  unfold for_each. generalize (@nil Effect) as out. revert g.
  induction l as [|x l IH]; intros g out; cbn [foldl].
  - by rewrite bool_decide_eq_false_2 by set_solver.
  - destruct (mark_dead_spec x now g q) as (C1 & P1 & M1).
    destruct (mark_dead x now g) as [g1 o1]. simpl in C1, P1, M1. destruct (IH g1 (out ++ o1)) as (C & P & M).
    rewrite C, P, M, C1, P1, M1. split_and!; [done|done|].
    destruct (decide (q = x)) as [->|Hne].
    + rewrite (bool_decide_eq_true_2 (x = x)), (bool_decide_eq_true_2 (x ∈ x :: l)) by (done || left).
      by destruct (bool_decide (x ∈ l)), (g_members g !! x).
    + rewrite (bool_decide_eq_false_2 (q = x)) by done.
      rewrite (bool_decide_ext (q ∈ x :: l) (q ∈ l)); [done|]. set_solver.
Qed.

(** Step 3. *)
Lemma check_suspicious_spec now now_mark (g : Node) q :
  let g' := (check_suspicious order now now_mark g).1 in
  g_config g' = g_config g /\ g_pending_pings g' = g_pending_pings g /\
  g_members g' !! q =
    (fun m => if suspicion_expired (g_config g) now m then with_status m Dead now_mark else m) <$> g_members g !! q.
Proof.
  unfold check_suspicious. set (l := map fst _).
  destruct (mark_dead_fold_spec now_mark l g q) as (C & P & M). split_and!; [done|done|]. rewrite M.
  assert (Hl : q ∈ l <-> exists m, g_members g !! q = Some m /\ suspicion_expired (g_config g) now m = true)
    by (unfold l; by rewrite elem_of_selected).
  destruct (g_members g !! q) as [m|] eqn:Em; simpl; [|by destruct (bool_decide _)].
  destruct (suspicion_expired (g_config g) now m) eqn:Es.
  - rewrite bool_decide_eq_true_2; [done|]. apply Hl. eauto.
  - rewrite bool_decide_eq_false_2; [done|]. rewrite Hl. intros (m' & ? & ?). congruence.
Qed.

(** Step 4. *)
Lemma purge_lookup cfg now t q :
  purge_dead_tombstones cfg now t !! q =
  match t !! q with
  | Some m => if expired_tombstone cfg now m then None else Some m
  | None => None
  end.
Proof.
  unfold purge_dead_tombstones. rewrite map_lookup_filter. destruct (t !! q) as [m|]; [|done]. simpl.
  destruct (expired_tombstone cfg now m) eqn:E; [by rewrite option_guard_False|by rewrite option_guard_True].
Qed.

(** ** A member that falls silent *)

Section Silent.
Context (p : EndPoint).

(** [p] is believed alive, a ping to it is in flight until [e] at the latest;
    [probed]: its indirect probes were requested. *)
Definition silent (probed : bool) (e : Z) (g : Node) : Prop :=
  exists m pp, g_members g !! p = Some m /\ status m = Alive /\ g_pending_pings g !! p = Some pp /\
    expires_at pp <= e /\ (probed = true -> indirect_requested pp = true).
(** No ping to [p] is in flight, and [p] is gone or has had one of the states
    [ss] since [s] at the latest. *)
Definition failing (ss : list MemberStatus) (s : Z) (g : Node) : Prop :=
  g_pending_pings g !! p = None /\
  (g_members g !! p = None \/
   exists m, g_members g !! p = Some m /\ status m ∈ ss /\ last_seen m <= s).

#[local] Notation suspected := (failing [Suspicious; Dead]).
#[local] Notation dead := (failing [Dead]).

(** Steps 3 and 4 on one entry. *)
Definition settle (cfg : GossipConfig) (t tm tp : Z) (m : Member) : option Member :=
  let m := if suspicion_expired cfg t m then with_status m Dead tm else m in
  if expired_tombstone cfg tp m then None else Some m.

Lemma settle_alive cfg t tm tp m : status m = Alive -> settle cfg t tm tp m = Some m.
Proof.
  intros E. unfold settle, suspicion_expired. rewrite E. simpl. unfold expired_tombstone. by rewrite E.
Qed.

Lemma settle_dead cfg t tm tp m :
  status m = Dead ->
  settle cfg t tm tp m = if ms (dead_timeout cfg) <? tp - last_seen m then None else Some m.
Proof.
  intros E. unfold settle, suspicion_expired. rewrite E. simpl. unfold expired_tombstone. by rewrite E.
Qed.

Lemma settle_suspicious cfg t tm tp m :
  status m = Suspicious ->
  settle cfg t tm tp m =
    if ms (suspicion_timeout cfg) <? t - last_seen m
    then (if ms (dead_timeout cfg) <? tp - tm then None else Some (with_status m Dead tm))
    else Some m.
Proof.
  intros E. unfold settle, suspicion_expired. rewrite E. simpl. unfold expired_tombstone.
  by destruct (_ <? _); simpl; rewrite ?E.
Qed.

(** A round: step 1 leads to [g1], then [p] may be pinged and its entry
    settles. *)
Lemma round_spec t tm tp (g : Node) :
  let g1 := (check_pending_pings shuffle order serialize_envelope t tm g).1 in
  let g' := (round t tm tp g).1 in
  g_config g' = g_config g /\
  g_members g' !! p = (g_members g1 !! p ≫= settle (g_config g) t tm tp) /\
  (g_pending_pings g' !! p = g_pending_pings g1 !! p \/
   (exists m, g_members g1 !! p = Some m /\ status m = Alive /\ p <> self_ep g1) /\
   exists pp, g_pending_pings g' !! p = Some pp /\
     expires_at pp = t + ms (ping_timeout (g_config g)) /\
     indirect_requested pp = from_option indirect_requested false (g_pending_pings g1 !! p)).
Proof.
  unfold protocol_round. destruct (check_pending_spec t tm g p) as [C1 _].
  destruct (check_pending_pings _ _ _ t tm g) as [g1 o1]. simpl in C1 |- *.
  destruct (send_pings_spec t g1 p) as (C2 & M2 & P2).
  destruct (send_pings shuffle order serialize_envelope t g1) as [g2 o2]. simpl in C2, M2, P2.
  destruct (check_suspicious_spec t tm g2 p) as (C3 & P3 & M3).
  destruct (check_suspicious order t tm g2) as [g3 o3]. simpl in C3, P3, M3 |- *.
  rewrite purge_lookup, M3, P3, C3, C2, M2, C1 in *. split_and!; [done| |done].
  unfold settle. destruct (g_members g1 !! p) as [m|]; [|done]. simpl. by destruct (expired_tombstone _ _ _).
Qed.

(** A silent member, first expiry and second expiry. *)
Lemma round_silent probed e t tm tp g :
  0 <= ms (ping_timeout (g_config g)) -> silent probed e g -> e <= t ->
  let g' := (round t tm tp g).1 in
  suspected tm g' \/ (probed = false /\ silent true (t + ms (ping_timeout (g_config g))) g').
Proof.
  intros HT (m & pp & Hm & Ha & Hpp & Hexp & Hi) Ht.
  destruct (round_spec t tm tp g) as (_ & M & P).
  destruct (check_pending_spec t tm g p) as [_ S1]. rewrite Hpp, (proj2 (Z.leb_le _ _)), Hm in S1 by lia.
  set (g1 := (check_pending_pings _ _ _ t tm g).1) in *. set (g' := (round t tm tp g).1) in *.
  destruct S1 as [[P1 M1]|(Hi' & M1 & ie & P1)]; rewrite M1 in M, P; simpl in M.
  - left. split.
    + destruct P as [->|[(m' & ? & Ha' & _) _]]; [done|]. simplify_eq/=.
    + rewrite M, settle_suspicious by done. simpl. repeat bcase; [by left|right..]; eexists; (split; [done|]);
        simpl; split; (lia || set_solver).
  - right. rewrite settle_alive in M by done. split; [by destruct probed; [rewrite Hi in Hi'|]|].
    destruct P as [P|(_ & pp' & P & Hexp' & Hi2)]; rewrite P1 in *.
    + exists m, (mkPending (expires_at pp) true ie). split_and!; try done. simpl. lia.
    + exists m, pp'. split_and!; try done. lia.
Qed.

(** A failing member. *)
Lemma round_failing s s' t tm tp g :
  suspected s g -> s <= s' -> tm <= s' ->
  let g' := (round t tm tp g).1 in
  suspected s' g' /\ (s + ms (suspicion_timeout (g_config g)) < t \/ dead s' g -> dead s' g').
Proof.
  intros [Hp Hm] Hs Htm. destruct (round_spec t tm tp g) as (_ & M & P).
  destruct (check_pending_spec t tm g p) as [_ S1]. rewrite Hp in S1. destruct S1 as [P1 M1].
  rewrite M1 in M, P. rewrite P1 in P.
  assert (Hp' : g_pending_pings (round t tm tp g).1 !! p = None).
  { destruct P as [->|[(m' & Hm' & Ha' & _) _]]; [done|].
    destruct Hm as [Hm|(m & Hm & Hst & _)]; simplify_eq. rewrite Ha' in Hst. set_solver. }
  unfold failing. rewrite Hp', M, Hp. clear M P P1 M1 Hp'.
  destruct Hm as [Hm|(m & Hm & Hst & Hls)]; rewrite Hm; simpl; [by auto 10|].
  assert (Hcases : status m = Suspicious \/ status m = Dead) by set_solver.
  assert (Hd : forall m', status m' = Dead -> last_seen m' <= s' ->
    forall ss : list MemberStatus, Dead ∈ ss -> exists m0, Some m' = Some m0 /\ status m0 ∈ ss /\ last_seen m0 <= s').
  { intros m' E' Hl' ss Hss. exists m'. by rewrite E'. }
  assert (Hls' : last_seen m <= s') by lia.
  destruct Hcases as [E|E]; [rewrite settle_suspicious by done|rewrite settle_dead by done].
  - destruct (_ <? t - last_seen m) eqn:Et; bool_to_prop.
    + destruct (_ <? tp - tm); [by auto 10|]. split; [split; [done|right; apply Hd; set_solver]|].
      intros _. split; [done|right; apply Hd; set_solver].
    + split; [split; [done|]; right; exists m; rewrite E; split; [done|]; set_solver|].
      intros [?|[_ [?|(m0 & ? & Hin & _)]]]; [lia|done|]. simplify_eq. rewrite E in Hin. set_solver.
  - destruct (_ <? tp - last_seen m) eqn:Et; bool_to_prop; [by auto 10|].
    split; [|intros _]; (split; [done|right; apply Hd; set_solver]).
Qed.

(** [p] is in the table with one of the states [ss], since [lo] at the earliest. *)
Definition present (ss : list MemberStatus) (lo : Z) (g : Node) : Prop :=
  exists m, g_members g !! p = Some m /\ status m ∈ ss /\ lo <= last_seen m.

(** A round that suspects [p] leaves it in the table as suspected. *)
Lemma round_silent_present e t tm tp g :
  0 <= ms (suspicion_timeout (g_config g)) -> (exists probed, silent probed e g) -> t <= tm ->
  let g' := (round t tm tp g).1 in
  present [Suspicious] tm g' \/ exists m, g_members g' !! p = Some m /\ status m = Alive.
Proof.
  intros HS (probed & m & pp & Hm & Ha & Hpp & _) Ht.
  destruct (round_spec t tm tp g) as (_ & M & _).
  destruct (check_pending_spec t tm g p) as [_ S1]. rewrite Hpp, Hm in S1.
  set (g1 := (check_pending_pings _ _ _ t tm g).1) in *.
  assert (Hcases : g_members g1 !! p = Some (with_status m Suspicious tm) \/ g_members g1 !! p = Some m).
  { destruct (_ <=? _); [destruct S1 as [[_ M1]|(_ & M1 & _)]|destruct S1 as [_ M1]]; rewrite M1; auto. }
  destruct Hcases as [E|E]; rewrite E in M; simpl in M; [left|right].
  - rewrite settle_suspicious in M by done. simpl in M. rewrite (proj2 (Z.ltb_ge _ _)) in M by lia.
    eexists. split; [exact M|]. simpl. split; [set_solver|lia].
  - exists m. by rewrite M, settle_alive.
Qed.

(** Rounds within the dead timeout of [lo] leave a failing member in the table; it
    stays suspected until the suspicion timeout has passed since [lo]. *)
Lemma round_present lo t tm tp g :
  g_pending_pings g !! p = None -> present [Suspicious; Dead] lo g -> lo <= tm ->
  tp <= lo + ms (dead_timeout (g_config g)) ->
  let g' := (round t tm tp g).1 in
  present [Suspicious; Dead] lo g' /\
  (present [Suspicious] lo g -> t <= lo + ms (suspicion_timeout (g_config g)) -> present [Suspicious] lo g').
Proof.
  intros Hp (m & Hm & Hst & Hlo) Htm Htp. destruct (round_spec t tm tp g) as (_ & M & _).
  destruct (check_pending_spec t tm g p) as [_ S1]. rewrite Hp in S1. destruct S1 as [_ M1]. rewrite M1, Hm in M. simpl in M.
  assert (Hcases : status m = Suspicious \/ status m = Dead) by set_solver.
  destruct Hcases as [E|E]; [rewrite settle_suspicious in M by done|rewrite settle_dead in M by done].
  - destruct (_ <? t - last_seen m) eqn:Et; bool_to_prop.
    + rewrite (proj2 (Z.ltb_ge _ _)) in M by lia. split; [eexists; split; [exact M|]; simpl; set_solver|]. intros _ Ht. lia.
    + split; [|intros _ _]; (exists m; rewrite E; split; [done|]; split; [set_solver|done]).
  - rewrite (proj2 (Z.ltb_ge _ _)) in M by lia. split; [exists m; rewrite E; split; [done|]; split; [set_solver|done]|].
    intros (m' & Hm' & Hs' & _). rewrite Hm in Hm'. simplify_eq. rewrite E in Hs'. set_solver.
Qed.

Lemma round_purges d t tm tp g :
  dead d g -> d + ms (dead_timeout (g_config g)) < tp -> g_members (round t tm tp g).1 !! p = None.
Proof.
  intros [Hp Hm] Htp. destruct (round_spec t tm tp g) as (_ & -> & _).
  destruct (check_pending_spec t tm g p) as [_ S1]. rewrite Hp in S1. destruct S1 as [_ ->].
  destruct Hm as [->|(m & -> & Hst & Hls)]; [done|]. simpl. assert (E : status m = Dead) by set_solver.
  rewrite settle_dead by done. by rewrite (proj2 (Z.ltb_lt _ _)) by lia.
Qed.

(** Events in which this node learns nothing about [p], with rounds between
    them. *)
Definition unaffected (g g' : Node) : Prop :=
  g_members g' !! p = g_members g !! p /\ g_pending_pings g' !! p = g_pending_pings g !! p /\
  ping_timeout (g_config g') = ping_timeout (g_config g) /\
  suspicion_timeout (g_config g') = suspicion_timeout (g_config g) /\
  dead_timeout (g_config g') = dead_timeout (g_config g).

Record RoundTimes := mkRoundTimes { rt_now : Z; rt_mark : Z; rt_purge : Z }.

Inductive quiet_run : Node -> list RoundTimes -> Node -> Prop :=
| qr_done g : quiet_run g [] g
| qr_event g e rs g' : unaffected g (step g e).1 -> quiet_run (step g e).1 rs g' -> quiet_run g rs g'
| qr_round g r rs g' :
    quiet_run (step g (EvRound (rt_now r) (rt_mark r) (rt_purge r))).1 rs g' -> quiet_run g (r :: rs) g'.

Definition timeouts (T S D : Z) (g : Node) : Prop :=
  ms (ping_timeout (g_config g)) = T /\ ms (suspicion_timeout (g_config g)) = S /\
  ms (dead_timeout (g_config g)) = D.

Lemma timeouts_unaffected T S D g g' : unaffected g g' -> timeouts T S D g -> timeouts T S D g'.
Proof. unfold timeouts. by intros (_ & _ & -> & -> & ->). Qed.
Lemma timeouts_round T S D t tm tp g : timeouts T S D g -> timeouts T S D (round t tm tp g).1.
Proof. unfold timeouts. by rewrite (proj1 (round_spec t tm tp g)). Qed.
Lemma failing_unaffected ss s g g' : unaffected g g' -> failing ss s g -> failing ss s g'.
Proof. unfold failing. by intros (-> & -> & _). Qed.
Lemma silent_unaffected b e g g' : unaffected g g' -> silent b e g -> silent b e g'.
Proof. unfold silent. by intros (-> & -> & _). Qed.
Lemma failing_later ss s s' g : s <= s' -> failing ss s g -> failing ss s' g.
Proof. intros Hs [Hp [Hm|(m & Hm & Hst & Hl)]]; (split; [done|]); [by left|right]. exists m. split_and!; [done|done|lia]. Qed.

Lemma present_unaffected ss lo g g' : unaffected g g' -> present ss lo g -> present ss lo g'.
Proof. unfold present. by intros (-> & _). Qed.

(** The next round of a quiet run, and a number of them. *)
Lemma quiet_run_next (P Q : Node -> Prop) r rs g g' :
  (forall h h', unaffected h h' -> P h -> P h') ->
  (forall h, P h -> Q (round (rt_now r) (rt_mark r) (rt_purge r) h).1) ->
  quiet_run g (r :: rs) g' -> P g -> exists h, quiet_run g [r] h /\ Q h /\ quiet_run h rs g'.
Proof.
  intros Hun HQ Hrun. remember (r :: rs) as l eqn:El. revert El.
  induction Hrun as [g|g e l g' Hu Hrun IH|g r' l g' Hrun IH]; intros El HP; simplify_eq.
  - destruct (IH eq_refl (Hun _ _ Hu HP)) as (h & H1 & H2 & H3). exists h. split; [by eapply qr_event|done].
  - eexists. split; [apply qr_round, qr_done|]. split; [by apply HQ|done].
Qed.

Lemma quiet_run_app rs rs' g h g' : quiet_run g rs h -> quiet_run h rs' g' -> quiet_run g (rs ++ rs') g'.
Proof. intros Hr Hr'. induction Hr; [done|by eapply qr_event; [|apply IHHr]|by apply qr_round, IHHr]. Qed.

Lemma quiet_run_keeps (P : Node -> Prop) rs rest g g' :
  (forall h h', unaffected h h' -> P h -> P h') ->
  (forall r h, r ∈ rs -> P h -> P (round (rt_now r) (rt_mark r) (rt_purge r) h).1) ->
  quiet_run g (rs ++ rest) g' -> P g -> exists h, quiet_run g rs h /\ P h /\ quiet_run h rest g'.
Proof.
  intros Hun. revert g. induction rs as [|r rs IH]; intros g Hr Hrun HP; [exists g; split; [apply qr_done|done]|].
  destruct (quiet_run_next P P r (rs ++ rest) g g') as (h & H1 & Hh & Hrun'); [done| |done|done|].
  - intros h. apply Hr. left.
  - destruct (IH h) as (h' & H2 & H3 & H4); [|done|done|]; [intros r' h' Hin; apply Hr; by right|].
    exists h'. split; [|done]. by apply (quiet_run_app [r] rs g h).
Qed.

Section Phases.
Context (T S D : Z) (HT : 0 <= T) (HS : 0 <= S).
(** [lo] is before every mark, [in_time] says that the rounds looked at are within
    the dead timeout of it and that their clocks do not run backwards. *)
Context (lo : Z).
Definition in_time (r : RoundTimes) : Prop := rt_now r <= rt_mark r /\ lo <= rt_mark r /\ rt_purge r <= lo + D.
#[local] Notation held P := (fun h => timeouts T S D h /\ P h).

Lemma held_unaffected (P : Node -> Prop) :
  (forall h h', unaffected h h' -> P h -> P h') ->
  forall h h', unaffected h h' -> timeouts T S D h /\ P h -> timeouts T S D h' /\ P h'.
Proof. intros HP h h' Hu [Hc Hh]. split; [by eapply timeouts_unaffected|by eapply HP]. Qed.

(** A failing member, in the table with one of [ss] when [c] holds. *)
Definition fails (c : Prop) (ss ss' : list MemberStatus) (s : Z) (h : Node) : Prop := failing ss s h /\ (c -> present ss' lo h).
Lemma fails_unaffected c ss ss' s h h' : unaffected h h' -> fails c ss ss' s h -> fails c ss ss' s h'.
Proof. intros Hu [H1 H2]. split; [by eapply failing_unaffected|]. intros Hc. by eapply present_unaffected, H2. Qed.

(** Two rounds suspect a silent member. *)
Lemma silent_two_rounds e r1 r2 rs g g' s :
  timeouts T S D g -> silent false e g -> e <= rt_now r1 -> rt_now r1 + T <= rt_now r2 ->
  rt_mark r1 <= s -> rt_mark r2 <= s -> quiet_run g (r1 :: r2 :: rs) g' ->
  exists h, quiet_run g [r1; r2] h /\
    (timeouts T S D h /\ fails (in_time r1 /\ in_time r2 /\ rt_now r2 <= lo + S) [Suspicious; Dead] [Suspicious] s h) /\ quiet_run h rs g'.
Proof.
  intros Hc Hsil H1 H2 Hs1 Hs2 Hrun. set (C := in_time r1 /\ in_time r2 /\ rt_now r2 <= lo + S).
  set (P := fun h => fails C [Suspicious; Dead] [Suspicious] s h \/ silent true (rt_now r1 + T) h).
  assert (HP : forall h h', unaffected h h' -> P h -> P h').
  { intros h h' Hu [Hh|Hh]; [left; by eapply fails_unaffected|right; by eapply silent_unaffected]. }
  (* a round that ends the silence *)
  assert (Hend : forall b e' r h, timeouts T S D h -> silent b e' h -> rt_mark r <= s -> (C -> in_time r) ->
    suspected (rt_mark r) (round (rt_now r) (rt_mark r) (rt_purge r) h).1 ->
    fails C [Suspicious; Dead] [Suspicious] s (round (rt_now r) (rt_mark r) (rt_purge r) h).1).
  { intros b e' r h Hch Hh Hmk Hit Hf. split; [by apply (failing_later _ (rt_mark r))|]. intros HC. destruct (Hit HC) as (I1 & I2 & I3).
    destruct (round_silent_present e' (rt_now r) (rt_mark r) (rt_purge r) h) as [(m & ? & ? & ?)|(m & Em & Ea)];
      [by rewrite (proj1 (proj2 Hch))|by exists b|done|exists m; split; [done|]; split; [done|lia]|].
    destruct Hf as [_ [Hf|(m' & Hf & Hst & _)]]; rewrite Em in Hf; simplify_eq. rewrite Ea in Hst. set_solver. }
  destruct (quiet_run_next (held (silent false e)) (held P) r1 (r2 :: rs) g g') as (h1 & Q1 & Hh1 & Hrun1);
    [apply held_unaffected, silent_unaffected| |done|done|].
  { intros h [Hch Hh]. split; [by apply timeouts_round|].
    destruct (round_silent false e (rt_now r1) (rt_mark r1) (rt_purge r1) h) as [Hf|[_ Hf]];
      [rewrite (proj1 Hch); done|done|done|left; by apply (Hend false e); [| | |intros (? & ? & ?)|]|right]. by rewrite (proj1 Hch) in Hf. }
  destruct (quiet_run_next (held P) (held (fails C [Suspicious; Dead] [Suspicious] s)) r2 rs h1 g') as (h2 & Q2 & Hh2 & Hrun2);
    [by apply held_unaffected| |done|done|exists h2; split; [by apply (quiet_run_app [r1] [r2] g h1)|done]].
  intros h [Hch [Hh|Hh]]; (split; [by apply timeouts_round|]).
  - split; [by apply (round_failing s s), Hs2; [apply Hh|]|]. intros HC. pose proof HC as (_ & (I1 & I2 & I3) & I4).
    destruct Hh as [[Hpp _] Hpr]. specialize (Hpr HC). destruct Hch as (_ & ES & ED).
    destruct (round_present lo (rt_now r2) (rt_mark r2) (rt_purge r2) h Hpp) as [_ Hk]; [|done|by rewrite ED|apply Hk; [done|by rewrite ES]].
    destruct Hpr as (m & ? & ? & ?). exists m. set_solver.
  - destruct (round_silent true _ (rt_now r2) (rt_mark r2) (rt_purge r2) h ltac:(by rewrite (proj1 Hch)) Hh H2) as [Hf|[? _]]; [|done].
    by apply (Hend true (rt_now r1 + T)); [| | |intros (? & ? & ?)|].
Qed.

(** Rounds keep a member failing; a late one declares it dead. *)
Lemma suspected_dies (C : Prop) s d rs1 rd rs2 rest g g' :
  timeouts T S D g -> fails C [Suspicious; Dead] [Suspicious; Dead] s g -> (C -> forall r, r ∈ rs1 ++ rd :: rs2 -> in_time r) ->
  (forall r, r ∈ rs1 -> rt_mark r <= s) -> s + S < rt_now rd ->
  s <= d -> (forall r, r ∈ rd :: rs2 -> rt_mark r <= d) ->
  quiet_run g (rs1 ++ rd :: rs2 ++ rest) g' ->
  exists h, quiet_run g (rs1 ++ rd :: rs2) h /\ (timeouts T S D h /\ fails C [Dead] [Dead] d h) /\ quiet_run h rest g'.
Proof.
  intros Hc Hs Hit Hm1 Hrd Hsd Hm2 Hrun.
  (* the table keeps the member, with a state that [failing] allows *)
  assert (Hkeep : forall r h ss s0 s1, (C -> in_time r) -> timeouts T S D h -> fails C ss [Suspicious; Dead] s0 h ->
    failing ss s1 (round (rt_now r) (rt_mark r) (rt_purge r) h).1 -> fails C ss [Suspicious; Dead] s1 (round (rt_now r) (rt_mark r) (rt_purge r) h).1).
  { intros r h ss s0 s1 Hr (_ & _ & ED) [[Hpp _] Hpr] Hf. split; [done|]. intros HC. destruct (Hr HC) as (_ & I2 & I3).
    apply round_present; [done|by apply Hpr|done|by rewrite ED]. }
  destruct (quiet_run_keeps (held (fails C [Suspicious; Dead] [Suspicious; Dead] s)) rs1 (rd :: rs2 ++ rest) g g') as (h1 & Q1 & Hh1 & Hrun1);
    [apply held_unaffected, fails_unaffected| |done|done|].
  { intros r h Hin [Hch Hh]. split; [by apply timeouts_round|].
    apply (Hkeep r h _ s); [intros HC; apply Hit; [done|set_solver]|done|done|]. apply (round_failing s s); [apply Hh|done|by apply Hm1]. }
  destruct (quiet_run_next (held (fails C [Suspicious; Dead] [Suspicious; Dead] s)) (held (fails C [Dead] [Suspicious; Dead] d)) rd (rs2 ++ rest) h1 g') as (h2 & Q2 & Hh2 & Hrun2);
    [apply held_unaffected, fails_unaffected| |done|done|].
  { intros h [Hch Hh]. split; [by apply timeouts_round|].
    assert (Hd : dead d (round (rt_now rd) (rt_mark rd) (rt_purge rd) h).1)
      by (apply (round_failing s d); [apply Hh|done|apply Hm2; left|left; by rewrite (proj1 (proj2 Hch))]).
    split; [done|]. intros HC. destruct (Hit HC rd ltac:(set_solver)) as (_ & I2 & I3). destruct Hh as [[Hpp _] Hpr].
    apply round_present; [done|by apply Hpr|done|by rewrite (proj2 (proj2 Hch))]. }
  destruct (quiet_run_keeps (held (fails C [Dead] [Suspicious; Dead] d)) rs2 rest h2 g') as (h3 & Q3 & [Hch3 [Hf3 Hp3]] & Hrun3);
    [apply held_unaffected, fails_unaffected| |done|done|].
  { intros r h Hin [Hch Hh]. split; [by apply timeouts_round|].
    apply (Hkeep r h _ d); [intros HC; apply Hit; [done|set_solver]|done|done|].
    apply (round_failing d d); [|done|apply Hm2; by right|right; apply Hh].
    destruct Hh as [[Hp [?|(m & ? & Hst & ?)]] _]; (split; [done|]); [by left|right]. exists m. set_solver. }
  exists h3. split; [|split; [split; [done|split; [done|]]|done]].
  - apply (quiet_run_app rs1 (rd :: rs2) g h1); [done|]. by apply (quiet_run_app [rd] rs2 h1 h2).
  - intros HC. destruct (Hp3 HC) as (m & Em & _ & ?). exists m. split; [done|]. split; [|done].
    destruct Hf3 as [_ [Hn|(m' & Em' & ? & _)]]; congruence.
Qed.
End Phases.
End Silent.

(** C15. A member that falls silent while a ping to it is in flight is suspected,
    declared dead and removed, in this order: after two rounds, the second at
    least the ping timeout after the first, it is in the table as suspected; after
    the first round more than the suspicion timeout later it is in the table as
    dead; and a round more than the dead timeout after that removes it.  Between
    the rounds this node may hear and do whatever is not about that member.  That
    it is still in the table in the first two of the three phases supposes that the
    clock does not run backwards, that the second round comes within the suspicion
    timeout of the first, and the rounds before the last within the dead timeout. *)
Theorem silent_member_removed (p : EndPoint) (g g' : Node) (m : Member) (pp : PendingPing)
    (r1 r2 rd rp : RoundTimes) (mid1 mid2 : list RoundTimes) (s d : Z) :
  g_members g !! p = Some m -> status m = Alive -> g_pending_pings g !! p = Some pp ->
  0 <= ping_timeout (g_config g) -> 0 <= suspicion_timeout (g_config g) ->
  quiet_run p g (r1 :: r2 :: mid1 ++ rd :: mid2 ++ [rp]) g' ->
  expires_at pp <= rt_now r1 -> rt_now r1 + ms (ping_timeout (g_config g)) <= rt_now r2 ->
  (forall r, r ∈ r1 :: r2 :: mid1 -> rt_mark r <= s) ->
  s + ms (suspicion_timeout (g_config g)) < rt_now rd ->
  (forall r, r ∈ rd :: mid2 -> rt_mark r <= d) -> s <= d ->
  d + ms (dead_timeout (g_config g)) < rt_purge rp ->
  let in_time := in_time (ms (dead_timeout (g_config g))) (rt_mark r1) in
  exists h1 h2,
    quiet_run p g [r1; r2] h1 /\
    (in_time r1 -> in_time r2 -> rt_now r2 <= rt_mark r1 + ms (suspicion_timeout (g_config g)) ->
     exists m1, g_members h1 !! p = Some m1 /\ status m1 = Suspicious) /\
    quiet_run p h1 (mid1 ++ rd :: mid2) h2 /\
    ((forall r, r ∈ r1 :: r2 :: mid1 ++ rd :: mid2 -> in_time r) ->
     rt_now r2 <= rt_mark r1 + ms (suspicion_timeout (g_config g)) ->
     exists m2, g_members h2 !! p = Some m2 /\ status m2 = Dead) /\
    quiet_run p h2 [rp] g' /\ g_members g' !! p = None.
Proof.
  intros Hm Ha Hpp HT HS Hrun H1 H2 Hs Hrd Hd Hsd Hrp it.
  set (T := ms (ping_timeout (g_config g))) in *. set (S := ms (suspicion_timeout (g_config g))) in *.
  set (D := ms (dead_timeout (g_config g))) in *. assert (HT0 : 0 <= T) by (unfold T, ms; lia). assert (HS0 : 0 <= S) by (unfold S, ms; lia).
  destruct (silent_two_rounds p T S D HT0 HS0 (rt_mark r1) (expires_at pp) r1 r2 (mid1 ++ rd :: mid2 ++ [rp]) g g' s)
    as (h1 & Q1 & [Hc1 Hs1] & Hrun1); [done|exists m, pp; by split_and!|done|done|apply Hs; set_solver..|done|].
  set (C := (forall r, r ∈ r1 :: r2 :: mid1 ++ rd :: mid2 -> it r) /\ rt_now r2 <= rt_mark r1 + S).
  destruct (suspected_dies p T S D HT0 HS0 (rt_mark r1) C s d mid1 rd mid2 [rp] h1 g') as (h2 & Q2 & [Hc2 Hd2] & Hrun2);
    [done| |intros [HC _] r Hr; apply HC; set_solver|intros; apply Hs; set_solver|done|done|done|done|].
  { destruct Hs1 as [Hf Hp]. split; [done|]. intros [HC HC']. destruct Hp as (m1 & ? & ? & ?); [split; [apply HC; set_solver|split; [apply HC; set_solver|done]]|].
    exists m1. set_solver. }
  exists h1, h2. split; [done|]. split; [|split; [done|split; [|split; [done|]]]].
  - intros I1 I2 I3. destruct Hs1 as [_ (m1 & ? & ? & _)]; [done|]. exists m1. set_solver.
  - intros I1 I2. destruct Hd2 as [_ (m2 & ? & ? & _)]; [done|]. exists m2. set_solver.
  - destruct (quiet_run_next p (fun h => timeouts T S D h /\ failing p [Dead] d h)
      (fun h => g_members h !! p = None) rp [] h2 g') as (h3 & _ & Hh3 & Hrun3);
      [apply held_unaffected, failing_unaffected| |done|split; [done|apply Hd2]|].
    { intros h [(_ & _ & HD) Hh]. apply (round_purges p d); [done|]. by rewrite HD. }
    clear - Hrun3 Hh3. remember [] as l eqn:El. revert El Hh3.
    induction Hrun3 as [h|h e l g' Hu _ IH|]; intros El Hh; [done| |done]. apply IH; [done|]. by rewrite (proj1 Hu).
Qed.

(** ** Incarnations *)

(** Every entry is kept, with an incarnation that is not lower. *)
Definition grows (t t' : gmap EndPoint Member) : Prop :=
  forall ep m, t !! ep = Some m -> exists m', t' !! ep = Some m' /\ incarnation m <= incarnation m'.

#[local] Instance grows_preorder : PreOrder grows.
Proof.
  split; [intros t ep m ?; eauto with lia|].
  intros t1 t2 t3 H12 H23 ep m Hm. destruct (H12 ep m Hm) as (m2 & Hm2 & ?).
  destruct (H23 ep m2 Hm2) as (m3 & Hm3 & ?). exists m3. split; [done|lia].
Qed.

Lemma grows_insert t k m' :
  (forall m, t !! k = Some m -> incarnation m <= incarnation m') -> grows t (<[k := m']> t).
Proof.
  intros Hk ep m Hm. destruct (decide (ep = k)) as [->|Hne].
  - rewrite lookup_insert_eq. eauto.
  - rewrite lookup_insert_ne by done. exists m. split; [done|lia].
Qed.

Lemma grows_foldl {A} (f : gmap EndPoint Member -> A -> gmap EndPoint Member) l t :
  (forall t x, grows t (f t x)) -> grows t (foldl f t l).
Proof. intros Hf. revert t. induction l as [|x l IH]; intros t; [done|]. simpl. by etrans; [apply Hf|apply IH]. Qed.

Lemma merge_member_grows r now t : grows t (merge_member r now t).
Proof.
  unfold merge_member. destruct (t !! endpoint (identity r)) as [m|] eqn:E.
  - bcase; bool_to_prop; [done|]. apply grows_insert. intros m' Hm'. simplify_eq/=. lia.
  - apply grows_insert. by rewrite E.
Qed.

Lemma apply_entry_grows now t e : grows t (apply_entry now t e).
Proof.
  unfold apply_entry. destruct (t !! endpoint (pb_identity e)) as [m|] eqn:E.
  - bcase; bool_to_prop; [done|]. apply grows_insert. intros m' Hm'. simplify_eq.
    unfold piggyback_existing. simpl. destruct (pb_type e), (status m); simpl; lia.
  - apply grows_insert. by rewrite E.
Qed.

Lemma apply_piggyback_grows pb now t : grows t (apply_piggyback pb now t).
Proof. apply grows_foldl. intros. apply apply_entry_grows. Qed.

Lemma mark_suspicious_grows ep now t : grows t (mark_suspicious ep now t).
Proof.
  unfold mark_suspicious. destruct (t !! ep) as [m|] eqn:E; [|done].
  apply grows_insert. intros m' Hm'. by simplify_eq/=.
Qed.

#[local] Hint Resolve merge_member_grows apply_piggyback_grows : hpa.

(** The tables after a packet. *)
Lemma handle_packet_grows data now (g : Node) :
  grows (g_members g)
    (g_members (handle_packet order serialize_envelope parse_envelope serialize_sync_rsp parse_sync_rsp data now g).1).
Proof.
  assert (Hboth : forall s inc pb, grows (g_members g)
    (apply_piggyback pb now (merge_member (member_of s inc Alive now) now (g_members g)))).
  { intros. etrans; [apply merge_member_grows|apply apply_piggyback_grows]. }
  unfold handle_packet. destruct (decode_message _ _ _) as [d|].
  - destruct (d_type d) as [[]|]; try done.
    + unfold handle_ping. simpl. destruct (bool_decide _); simpl; apply Hboth.
    + unfold handle_ack. destruct (g_forwarded_pings _ !! _); simpl; apply Hboth.
    + simpl. auto with hpa.
    + unfold handle_indirect_ack, fst. set (g1 := merge_sender _ _ _ _).
      assert (H1 : grows (g_members g) (g_members g1)) by apply merge_member_grows.
      destruct (g_pending_pings g1 !! _) as [pp|]; [|done]. by destruct (indirect_requested pp).
    + apply Hboth.
    + unfold handle_leave. destruct (g_members g !! d_sender d) as [m|] eqn:E; [|done].
      bcase; [|done]. simpl. apply grows_insert. intros m' Hm'. by simplify_eq/=.
  - destruct (decode_sync_rsp _ _ _) as [members|]; [|done]. unfold handle_sync_rsp.
    set (g1 := set_members _ _).
    assert (H1 : grows (g_members g) (g_members g1))
      by (apply grows_foldl; intros; apply merge_member_grows).
    assert (H2 : g_members (cancel_join_retry g1).1 = g_members g1) by (unfold cancel_join_retry; by bcase).
    destruct (cancel_join_retry g1) as [g2 out]. cbn [fst] in H2. rewrite <- H2 in H1.
    destruct (g_members g2 !! self_ep g2) eqn:E; [done|]. simpl.
    etrans; [exact H1|]. apply grows_insert. by rewrite E.
Qed.

(** This node's incarnation changes in [announce] only. *)
Lemma for_each_incarnation {A} (f : A -> Node -> Node * list Effect) l g :
  (forall x g, g_incarnation (f x g).1 = g_incarnation g) -> g_incarnation (for_each f l g).1 = g_incarnation g.
Proof.
  intros Hf. apply (for_each_ind (fun h => g_incarnation h = g_incarnation g)); [|done].
  intros x h _ <-. apply Hf.
Qed.

Lemma pick_incarnation n ex (g : Node) :
  g_incarnation (pick_random_peers shuffle order n ex g).2 = g_incarnation g.
Proof. unfold pick_random_peers. bcase; [done|]. by destruct (shuffle _ _). Qed.

Lemma probe_incarnation now l p :
  g_incarnation (pr_g (foldl (probe_expired shuffle order now) p l)) = g_incarnation (pr_g p).
Proof.
  revert p. induction l as [|x l IH]; intros p; [done|]. cbn [foldl]. rewrite IH. unfold probe_expired.
  destruct (g_pending_pings (pr_g p) !! x) as [pp|]; [|done]. bcase; [|done].
  set (g1 := set_pings _ _). pose proof (pick_incarnation (indirect_probes (g_config g1)) [x; self_ep g1] g1) as E.
  destruct (pick_random_peers _ _ _ _ _) as [[|y ps] g2]; done.
Qed.

Lemma round_incarnation t tm tp (g : Node) : g_incarnation (round t tm tp g).1 = g_incarnation g.
Proof.
  unfold protocol_round, check_pending_pings.
  pose proof (probe_incarnation t (expired_pings order t g) (mkProbes g [] [])) as E0.
  set (pr := foldl _ _ _) in *.
  match goal with |- context [for_each ?f ?l ?h] =>
    pose proof (for_each_incarnation f l h) as E1; destruct (for_each f l h) as [g1 o1] end.
  specialize (E1 ltac:(by intros [? ?] ?)). simpl in E0, E1. simpl.
  set (g1' := set_members _ _).
  assert (E2 : g_incarnation (send_pings shuffle order serialize_envelope t g1').1 = g_incarnation g1').
  { unfold send_pings. destruct (candidates order g1' []); [done|].
    pose proof (pick_incarnation (fanout (g_config g1')) [] g1') as E.
    destruct (pick_random_peers _ _ _ _ _) as [ps g2]. cbn [snd] in E. rewrite <- E.
    pose proof (for_each_incarnation (ping_target serialize_envelope t (build_piggyback_impl order g2)) ps g2) as E'.
    destruct (for_each _ _ _) as [g3 o3]. cbn [fst] in *. rewrite <- E' by done. by bcase. }
  destruct (send_pings _ _ _ t g1') as [g2 o2]. cbn [fst] in E2.
  assert (E3 : g_incarnation (check_suspicious order t tm g2).1 = g_incarnation g2).
  { apply for_each_incarnation. intros x h. unfold mark_dead. by destruct (g_members h !! x). }
  destruct (check_suspicious order t tm g2) as [g3 o3]. cbn in *. congruence.
Qed.

Lemma handle_packet_incarnation data now (g : Node) :
  g_incarnation (handle_packet order serialize_envelope parse_envelope serialize_sync_rsp parse_sync_rsp data now g).1
  = g_incarnation g.
Proof.
  unfold handle_packet. destruct (decode_message _ _ _) as [d|].
  - destruct (d_type d) as [[]|]; try done.
    + unfold handle_ping. by destruct (bool_decide _).
    + unfold handle_ack. by destruct (g_forwarded_pings _ !! _).
    + unfold handle_indirect_ack, fst. destruct (g_pending_pings _ !! _) as [pp|]; [|done].
      by destruct (indirect_requested pp).
    + unfold handle_leave. destruct (g_members g !! _); [|done]. by bcase.
  - destruct (decode_sync_rsp _ _ _) as [members|]; [|done]. unfold handle_sync_rsp, cancel_join_retry.
    bcase; by destruct (_ !! _).
Qed.

(** A round keeps the incarnation of every entry it keeps. *)
Lemma round_keeps_incarnation t tm tp (g : Node) ep m m' :
  g_members g !! ep = Some m -> g_members (round t tm tp g).1 !! ep = Some m' -> incarnation m' = incarnation m.
Proof.
  intros Hm. destruct (round_spec ep t tm tp g) as (_ & M & _).
  destruct (check_pending_spec t tm g ep) as [_ S1]. set (g1 := (check_pending_pings _ _ _ t tm g).1) in *.
  assert (H1 : exists m1, g_members g1 !! ep = Some m1 /\ incarnation m1 = incarnation m).
  { rewrite Hm in S1. destruct (g_pending_pings g !! ep) as [pp|].
    - destruct (_ <=? _); [destruct S1 as [[_ ->]|(_ & -> & _)]|destruct S1 as [_ ->]]; eauto.
    - destruct S1 as [_ ->]. eauto. }
  destruct H1 as (m1 & Hm1 & <-). rewrite M, Hm1. simpl. unfold settle.
  destruct (suspicion_expired _ _ _), (expired_tombstone _ _ _); intros; by simplify_eq/=.
Qed.

Lemma join_retry_tables id (g : Node) :
  let g' := (join_retry serialize_envelope id g).1 in
  g_config g' = g_config g /\ g_members g' = g_members g /\ g_pending_pings g' = g_pending_pings g /\
  g_incarnation g' = g_incarnation g.
Proof. unfold join_retry. destruct (seeds _ !! _); [|done]. by bcase. Qed.

Lemma stop_incarnation (g : Node) : g_incarnation (gossip_stop order serialize_envelope g).1 = g_incarnation g.
Proof.
  unfold gossip_stop. set (b := negb (g_protocol_timer g =? 0) && g_loop g).
  set (g1 := if b then set_timers g 0 (g_join_retry_timer g) else g).
  assert (E1 : g_incarnation g1 = g_incarnation g) by (subst g1; by destruct b).
  assert (E2 : g_incarnation (cancel_join_retry g1).1 = g_incarnation g1) by (unfold cancel_join_retry; by bcase).
  destruct (cancel_join_retry g1) as [g2 o2]. simpl in E2.
  match goal with |- context [for_each ?f ?l ?h] =>
    pose proof (for_each_incarnation f l h) as E3; destruct (for_each f l h) as [g3 o3] end.
  simpl in *. rewrite E3; congruence.
Qed.

(** no event lowers the incarnation recorded for a member that stays in the
    table, and none lowers this node's own short of its wrap-around. *)
Theorem incarnations_never_fall (g : Node) (e : Event) (ep : EndPoint) (m m' : Member) :
  g_members g !! ep = Some m -> g_members (step g e).1 !! ep = Some m' ->
  0 <= g_incarnation g < UINT64_MAX ->
  incarnation m <= incarnation m' /\ g_incarnation g <= g_incarnation (step g e).1.
Proof.
  intros Hm Hm' Hinc. destruct e as [data now|t tm tp|id|l now|b|]; simpl in *.
  - rewrite handle_packet_incarnation. split; [|lia].
    destruct (handle_packet_grows data now g ep m Hm) as (m2 & ? & ?). by simplify_eq.
  - rewrite round_incarnation. split; [|lia]. by rewrite (round_keeps_incarnation t tm tp g ep m m').
  - destruct (join_retry_tables id g) as (_ & Em & _ & Ei). rewrite Em in Hm'. rewrite Ei. simplify_eq. lia.
  - simplify_eq. split; [lia|]. simpl. unfold UINT64_MAX in Hinc. rewrite u64_small; lia.
  - simplify_eq. lia.
  - rewrite stop_incarnation. split; [|lia]. exfalso. revert Hm'. unfold gossip_stop.
    destruct (cancel_join_retry _) as [g2 o2]. by destruct (for_each _ _ _).
Qed.

(** ** Suspicion *)

(** What the nodes of this implementation send: no entry clears a suspicion,
    and a synchronization response lists no dead member. *)
Definition no_alive_entry (pb : list PiggybackEntry) : Prop := Forall (fun e => pb_type e <> PAlive) pb.
Definition plain_packet (data : list Z) : Prop :=
  (forall d, decode_message parse_envelope data decode_out = Some d -> no_alive_entry (d_pb d)) /\
  (forall now members, decode_sync_rsp parse_sync_rsp data now = Some members ->
     Forall (fun m => status m <> Dead) members).
Definition plain_event (e : Event) : Prop := match e with EvPacket data _ => plain_packet data | _ => True end.

Lemma build_piggyback_plain (g : Node) : no_alive_entry (build_piggyback_impl order g).
Proof.
  unfold no_alive_entry, build_piggyback_impl. apply Forall_app. split; [by destruct (g_needs_dissemination g); repeat constructor|].
  apply Forall_forall. intros e He. apply list_elem_of_In, in_flat_map in He as ([ep m] & _ & He).
  unfold status_entry in He. destruct (status m); simpl in He; naive_solver.
Qed.

(** The states a suspect can be in. *)
Definition not_well (ss : list MemberStatus) (ep : EndPoint) (t : gmap EndPoint Member) : Prop :=
  forall m, t !! ep = Some m -> status m ∈ ss.

Lemma not_well_insert ss ep k m t :
  not_well ss ep t -> (ep = k -> status m ∈ ss) -> not_well ss ep (<[k := m]> t).
Proof.
  intros Ht Hm m' Hm'. destruct (decide (k = ep)) as [->|Hne].
  - rewrite lookup_insert_eq in Hm'. simplify_eq. by apply Hm.
  - rewrite lookup_insert_ne in Hm' by done. by apply Ht.
Qed.

(** Merging keeps a suspect suspected (or lets it leave), whatever the
    incarnation. *)
Lemma merge_member_suspect ep m0 r now t :
  t !! ep = Some m0 -> not_well [Suspicious; Left] ep t -> status r <> Dead ->
  (exists m, merge_member r now t !! ep = Some m) /\ not_well [Suspicious; Left] ep (merge_member r now t).
Proof.
  intros H0 Ht Hr. pose proof (Ht _ H0) as Hst. unfold merge_member.
  destruct (decide (endpoint (identity r) = ep)) as [E|Hne].
  - rewrite E, H0. bcase; bool_to_prop; [by eauto|]. rewrite lookup_insert_eq. split; [by eauto|].
    apply not_well_insert; [done|]. intros _. unfold merge_existing. cbn [status].
    assert (Hcases : status m0 = Suspicious \/ status m0 = Left) by set_solver.
    destruct (status r) eqn:Er; try done; destruct Hcases as [E'|E']; rewrite ?E'; simpl; set_solver.
  - split.
    + destruct (t !! endpoint (identity r)); [bcase; [by eauto|]|]; rewrite lookup_insert_ne by done; eauto.
    + destruct (t !! endpoint (identity r)); [bcase; [done|]|]; apply not_well_insert; congruence.
Qed.

Lemma merge_fold_suspect ep m0 rs now t :
  t !! ep = Some m0 -> not_well [Suspicious; Left] ep t -> Forall (fun m => status m <> Dead) rs ->
  not_well [Suspicious; Left] ep (foldl (fun t m => merge_member m now t) t rs).
Proof.
  intros H0 Ht Hrs. revert t m0 H0 Ht. induction Hrs as [|r rs Hr Hrs IH]; intros t m0 H0 Ht; [done|]. simpl.
  destruct (merge_member_suspect ep m0 r now t H0 Ht Hr) as [[m1 H1] Ht1]. by apply (IH _ m1).
Qed.

Lemma apply_entry_suspect ep now t e m0 :
  t !! ep = Some m0 -> not_well [Suspicious; Dead; Left] ep t -> pb_type e <> PAlive ->
  (exists m, apply_entry now t e !! ep = Some m) /\ not_well [Suspicious; Dead; Left] ep (apply_entry now t e).
Proof.
  intros H0 Ht He. destruct (apply_entry_grows now t e ep m0 H0) as (m1 & H1 & _). split; [by eauto|].
  clear m1 H1. pose proof (Ht _ H0) as Hst. unfold apply_entry.
  destruct (t !! endpoint (pb_identity e)) as [m|] eqn:E.
  - bcase; [done|]. apply not_well_insert; [done|]. intros ->. simplify_eq. unfold piggyback_existing.
    destruct (pb_type e); simpl; (done || set_solver).
  - apply not_well_insert; [done|]. intros ->. congruence.
Qed.

Lemma apply_piggyback_suspect ep pb now t m0 :
  t !! ep = Some m0 -> not_well [Suspicious; Dead; Left] ep t -> no_alive_entry pb ->
  not_well [Suspicious; Dead; Left] ep (apply_piggyback pb now t).
Proof.
  unfold apply_piggyback. intros H0 Ht Hpb. revert t m0 H0 Ht.
  induction Hpb as [|e pb He Hpb IH]; intros t m0 H0 Ht; [done|]. simpl.
  destruct (apply_entry_suspect ep now t e m0 H0 Ht He) as [[m1 H1] Ht1]. by apply (IH _ m1).
Qed.

Lemma not_well_weaken ss ss' ep t : (forall x : MemberStatus, x ∈ ss -> x ∈ ss') -> not_well ss ep t -> not_well ss' ep t.
Proof. intros Hss Ht m Hm. by apply Hss, Ht. Qed.

(** A message from anyone, then its entries. *)
Lemma message_suspect ep m0 s inc pb now t :
  t !! ep = Some m0 -> status m0 = Suspicious -> no_alive_entry pb ->
  not_well [Suspicious; Dead; Left] ep
    (apply_piggyback pb now (merge_member (member_of s inc Alive now) now t)).
Proof.
  intros H0 Hs Hpb.
  destruct (merge_member_suspect ep m0 (member_of s inc Alive now) now t) as [[m1 H1] Ht]; [done| |done|].
  { intros m Hm. simplify_eq. rewrite Hs. set_solver. }
  eapply apply_piggyback_suspect; [done| |done]. eapply not_well_weaken; [|done]. set_solver.
Qed.

Lemma handle_packet_suspect data now (g : Node) ep m :
  plain_packet data -> g_members g !! ep = Some m -> status m = Suspicious ->
  not_well [Suspicious; Dead; Left] ep
    (g_members (handle_packet order serialize_envelope parse_envelope serialize_sync_rsp parse_sync_rsp data now g).1).
Proof.
  intros [Hmsg Hsync] Hm Hs.
  assert (Hsame : not_well [Suspicious; Dead; Left] ep (g_members g))
    by (intros m' Hm'; simplify_eq; rewrite Hs; set_solver).
  unfold handle_packet. destruct (decode_message _ _ _) as [d|] eqn:Ed.
  - specialize (Hmsg d eq_refl).
    assert (Hall : forall s inc, not_well [Suspicious; Dead; Left] ep
        (apply_piggyback (d_pb d) now (merge_member (member_of s inc Alive now) now (g_members g))))
      by (intros; by eapply message_suspect).
    assert (Hnone : forall s inc, not_well [Suspicious; Dead; Left] ep
        (merge_member (member_of s inc Alive now) now (g_members g)))
      by (intros s inc; by apply (message_suspect ep m s inc [] now); [| |constructor]).
    destruct (d_type d) as [[]|]; try done.
    + unfold handle_ping. simpl. destruct (bool_decide _); apply Hall.
    + unfold handle_ack. destruct (g_forwarded_pings _ !! _); apply Hall.
    + apply Hnone.
    + unfold handle_indirect_ack, fst. destruct (g_pending_pings _ !! _) as [pp|]; [|apply Hnone].
      destruct (indirect_requested pp); apply Hnone.
    + apply Hall.
    + unfold handle_leave. destruct (g_members g !! d_sender d); [|done]. bcase; [|done].
      apply not_well_insert; [done|]. simpl. set_solver.
  - destruct (decode_sync_rsp _ _ _) as [members|] eqn:Es; [|done]. unfold handle_sync_rsp.
    set (g1 := set_members _ _).
    assert (H1 : not_well [Suspicious; Dead; Left] ep (g_members g1)).
    { eapply not_well_weaken; [|apply (merge_fold_suspect ep m)]; [set_solver|done| |by eapply Hsync].
      intros m' Hm'. simplify_eq. rewrite Hs. set_solver. }
    assert (Hin : is_Some (g_members g1 !! ep)).
    { destruct (grows_foldl (fun t m => merge_member m now t) members (g_members g)
        ltac:(intros; apply merge_member_grows) ep m Hm) as (m' & Hm' & _). by exists m'. }
    assert (H2 : g_members (cancel_join_retry g1).1 = g_members g1) by (unfold cancel_join_retry; by bcase).
    destruct (cancel_join_retry g1) as [g2 out]. cbn [fst] in H2. rewrite <- H2 in H1, Hin.
    destruct (g_members g2 !! self_ep g2) eqn:E; [done|]. simpl. apply not_well_insert; [done|].
    intros ->. rewrite E in Hin. by destruct Hin.
Qed.

Lemma round_suspect t tm tp (g : Node) ep m :
  g_members g !! ep = Some m -> status m = Suspicious ->
  not_well [Suspicious; Dead; Left] ep (g_members (round t tm tp g).1).
Proof.
  intros Hm Hs m'. destruct (round_spec ep t tm tp g) as (_ & M & _).
  destruct (check_pending_spec t tm g ep) as [_ S1]. set (g1 := (check_pending_pings _ _ _ t tm g).1) in *.
  assert (H1 : exists m1, g_members g1 !! ep = Some m1 /\ status m1 = Suspicious).
  { rewrite Hm in S1. destruct (g_pending_pings g !! ep) as [pp|].
    - destruct (_ <=? _); [destruct S1 as [[_ ->]|(_ & -> & _)]|destruct S1 as [_ ->]]; simpl; eauto.
    - destruct S1 as [_ ->]. eauto. }
  destruct H1 as (m1 & Hm1 & Hs1). rewrite M, Hm1. simpl. rewrite settle_suspicious by done.
  repeat bcase; intros; simplify_eq/=; rewrite ?Hs1; set_solver.
Qed.

(** a suspected member is never believed again: no node of this
    implementation sends the entry that clears a suspicion, and no event whose
    packets come from such nodes (a Ping, an Ack or a Join of the suspect with
    a higher incarnation included) makes a suspect alive; it can only stay
    suspected, die, leave, or be removed. *)
Theorem suspicion_never_withdrawn (g : Node) (e : Event) (ep : EndPoint) (m m' : Member) :
  (forall h : Node, no_alive_entry (build_piggyback_impl order h)) /\
  (plain_event e -> g_members g !! ep = Some m -> status m = Suspicious ->
   g_members (step g e).1 !! ep = Some m' -> status m' <> Alive).
Proof.
  split; [apply build_piggyback_plain|]. intros He Hm Hs Hm'.
  assert (Hnw : not_well [Suspicious; Dead; Left] ep (g_members (step g e).1)).
  { destruct e as [data now|t tm tp|id|l now|b|]; simpl.
    - by eapply handle_packet_suspect.
    - by eapply round_suspect.
    - destruct (join_retry_tables id g) as (_ & -> & _). intros m1 ?. simplify_eq. rewrite Hs. set_solver.
    - intros m1 ?. simplify_eq/=. rewrite Hs. set_solver.
    - intros m1 ?. simplify_eq/=. rewrite Hs. set_solver.
    - intros m1. unfold gossip_stop. destruct (cancel_join_retry _) as [g2 o2]. by destruct (for_each _ _ _). }
  specialize (Hnw m' Hm'). intros E. rewrite E in Hnw. set_solver.
Qed.

(** A synchronization response lists no dead member. *)
Lemma sync_rsp_plain (g : Node) :
  Forall (fun m => status m <> Dead)
    (List.filter (fun m => negb (is_tombstone (status m))) (map snd (order _ (g_members g)))).
Proof.
  apply Forall_forall. intros m Hm. apply list_elem_of_In, filter_In in Hm as [_ Hf]. by destruct (status m).
Qed.

(** ** Gossip about a suspect restarts its timer *)

(** A Ping of [sender] that names the suspect, then a round. *)
Definition gossip_cycle (sender : EndPoint) (inc : Z) (entry : PiggybackEntry) (g : Node) (c : Z * RoundTimes) : Node :=
  let '(tping, r) := c in
  (round (rt_now r) (rt_mark r) (rt_purge r) (handle_ping order serialize_envelope sender inc [entry] tping g).1).1.

Definition suspect_idle (p : EndPoint) (inc : Z) (g : Node) : Prop :=
  g_pending_pings g !! p = None /\
  exists m, g_members g !! p = Some m /\ status m = Suspicious /\ incarnation m <= inc.

Lemma handle_ping_suspect p inc sender si tping (g : Node) entry :
  sender <> p -> endpoint (pb_identity entry) = p -> pb_type entry = PSuspicious -> pb_incarnation entry = inc ->
  suspect_idle p inc g ->
  let g' := (handle_ping order serialize_envelope sender si [entry] tping g).1 in
  g_config g' = g_config g /\ g_pending_pings g' !! p = None /\
  exists m, g_members g' !! p = Some m /\ status m = Suspicious /\ incarnation m = inc /\ last_seen m = tping.
Proof.
  intros Hne He Ht Hi [Hp (m & Hm & Hs & Hinc)].
  assert (H1 : merge_member (member_of sender si Alive tping) tping (g_members g) !! p = Some m).
  { unfold merge_member. simpl. destruct (g_members g !! sender); [bcase; [done|]|]; by rewrite lookup_insert_ne. }
  unfold handle_ping. set (g2 := set_pings _ _).
  assert (E : exists m', g_members g2 !! p = Some m' /\ status m' = Suspicious /\ incarnation m' = inc /\ last_seen m' = tping).
  { subst g2. simpl. unfold apply_entry. rewrite He, H1, Hi. rewrite (proj2 (Z.ltb_ge _ _)) by lia.
    rewrite lookup_insert_eq. eexists. split; [done|]. unfold piggyback_existing. rewrite Ht, Hi. done. }
  assert (Hp2 : g_pending_pings g2 !! p = None) by (subst g2; simpl; by rewrite lookup_delete_ne).
  assert (Hc2 : g_config g2 = g_config g) by done.
  clearbody g2. destruct (bool_decide _); simpl; by rewrite Hc2.
Qed.

(** While another node keeps naming it in its pings at least once per
    suspicion timeout, a suspect is never declared dead, however many rounds
    pass: each entry restarts the timer that should end the suspicion. *)
Theorem gossip_restarts_suspicion (p sender : EndPoint) (si inc : Z) (entry : PiggybackEntry) (g : Node)
    (cycles : list (Z * RoundTimes)) :
  sender <> p -> endpoint (pb_identity entry) = p -> pb_type entry = PSuspicious -> pb_incarnation entry = inc ->
  suspect_idle p inc g ->
  (forall tping r, (tping, r) ∈ cycles -> rt_now r - tping <= ms (suspicion_timeout (g_config g))) ->
  suspect_idle p inc (foldl (gossip_cycle sender si entry) g cycles).
Proof.
  intros Hne He Ht Hi. revert g. induction cycles as [|[tping r] cycles IH]; intros g Hg Hc; [done|]. cbn [foldl].
  destruct (handle_ping_suspect p inc sender si tping g entry Hne He Ht Hi Hg) as (Ec & Ep & m & Hm & Hs & Hinc & Hl).
  unfold gossip_cycle at 2. set (g1 := (handle_ping _ _ _ _ _ _ g).1) in *.
  destruct (round_spec p (rt_now r) (rt_mark r) (rt_purge r) g1) as (C & M & P).
  destruct (check_pending_spec (rt_now r) (rt_mark r) g1 p) as [_ S1]. rewrite Ep in S1. destruct S1 as [P1 M1].
  rewrite M1, Hm in M, P. rewrite P1 in P. cbn [mbind option_bind] in M. rewrite settle_suspicious in M by done.
  assert (Hlate : (ms (suspicion_timeout (g_config g1)) <? rt_now r - last_seen m) = false)
    by (apply Z.ltb_ge; rewrite Ec, Hl; apply Hc; left).
  rewrite Hlate in M.
  apply IH.
  - split; [|exists m; split_and!; [done|done|lia]].
    destruct P as [->|[(m' & ? & Ha & _) _]]; [done|]. simplify_eq. congruence.
  - intros t' r' Hin. rewrite C, Ec. apply (Hc t'). by right.
Qed.

(** A member that left stays out when it comes back: its Join with a higher
    incarnation is recorded, but the entry stays [Left]. *)
Theorem left_member_stays_out (g : Node) (p : EndPoint) (m : Member) (inc now : Z) :
  g_members g !! p = Some m -> status m = Left ->
  exists m', g_members (handle_join order serialize_sync_rsp p inc [] now g).1 !! p = Some m' /\
    status m' = Left /\ last_seen m' = last_seen m.
Proof.
  intros Hm Hs. simpl. unfold merge_member. simpl. rewrite Hm. bcase; [by eauto|].
  rewrite lookup_insert_eq. eexists. split; [done|]. unfold merge_existing. simpl. rewrite Hs. done.
Qed.

(** The expiry of a ping that was in flight turns a tombstone back into a
    suspect: a member that left, or is known dead, is suspected again. *)
Theorem tombstone_suspected_again (g : Node) (p : EndPoint) (m : Member) (pp : PendingPing) (now now_mark : Z) :
  g_members g !! p = Some m -> is_tombstone (status m) = true ->
  g_pending_pings g !! p = Some pp -> indirect_requested pp = true -> expires_at pp <= now ->
  g_members (check_pending_pings shuffle order serialize_envelope now now_mark g).1 !! p
  = Some (with_status m Suspicious now_mark).
Proof.
  intros Hm _ Hp Hi He. destruct (check_pending_spec now now_mark g p) as [_ S1].
  rewrite Hp, (proj2 (Z.leb_le _ _)), Hm in S1 by lia.
  destruct S1 as [[_ ->]|(? & _)]; [done|congruence].
Qed.

(** ** Effects *)

(** A callback with [joined]. *)
Definition reports_join (e : Effect) : Prop := match e with Changed _ true => True | _ => False end.

Lemma send_message_quiet ty t pb to (g : Node) :
  Forall (fun e => ~ reports_join e) (send_message serialize_envelope ty t pb to g).2.
Proof. simpl. destruct (g_transport g); repeat constructor; auto. Qed.

Lemma round_quiet t tm tp (g : Node) : Forall (fun e => ~ reports_join e) (round t tm tp g).2.
Proof.
  unfold protocol_round, check_pending_pings.
  set (pr := foldl _ _ _).
  match goal with |- context [for_each ?f ?l ?h] =>
    pose proof (for_each_effects (fun e => ~ reports_join e) f l h
      ltac:(intros [? ?] ? _; apply send_message_quiet)) as Q1; destruct (for_each f l h) as [g1 o1] end.
  set (g1' := set_members _ _).
  assert (Q2 : Forall (fun e => ~ reports_join e) (send_pings shuffle order serialize_envelope t g1').2).
  { unfold send_pings. destruct (candidates order g1' []); [constructor|].
    destruct (pick_random_peers _ _ _ _ _) as [ps g2].
    match goal with |- context [for_each ?f ?l ?h] =>
      pose proof (for_each_effects (fun e => ~ reports_join e) f l h
        ltac:(intros ? ? _; apply send_message_quiet)) as Q; destruct (for_each f l h) as [g3 o3] end. exact Q. }
  destruct (send_pings _ _ _ t g1') as [g2 o2].
  assert (Q3 : Forall (fun e => ~ reports_join e) (check_suspicious order t tm g2).2).
  { apply for_each_effects. intros x h _. unfold mark_dead. destruct (g_members h !! x); [|constructor].
    simpl. destruct (g_member_change_cb h); repeat constructor; auto. }
  destruct (check_suspicious order t tm g2) as [g3 o3]. cbn in *. rewrite !Forall_app. auto.
Qed.

Lemma cancel_join_retry_quiet (g : Node) : Forall (fun e => ~ reports_join e) (cancel_join_retry g).2.
Proof. unfold cancel_join_retry. bcase; repeat constructor; auto. Qed.

(** The member-change callback never reports that a member joined. *)
Theorem join_never_reported (g : Node) (e : Event) : Forall (fun x => ~ reports_join x) (step g e).2.
Proof.
  destruct e as [data now|t tm tp|id|l now|b|]; simpl; [| |..].
  - unfold handle_packet. destruct (decode_message _ _ _) as [d|].
    + destruct (d_type d) as [[]|]; try constructor.
      * unfold handle_ping. destruct (bool_decide _); apply send_message_quiet.
      * unfold handle_ack. destruct (g_forwarded_pings _ !! _); [apply send_message_quiet|constructor].
      * apply send_message_quiet.
      * unfold handle_join, send_sync_rsp. simpl. destruct (g_transport g); repeat constructor; auto.
      * unfold handle_leave. destruct (g_members g !! _); [|constructor]. bcase; [|constructor].
        simpl. destruct (g_member_change_cb g); repeat constructor; auto.
    + destruct (decode_sync_rsp _ _ _); [|constructor]. unfold handle_sync_rsp, cancel_join_retry.
      bcase; destruct (_ !! _); repeat constructor; auto.
  - apply round_quiet.
  - unfold join_retry. destruct (_ !! _); [|constructor]. bcase; [constructor|].
    apply Forall_app. split; [apply send_message_quiet|repeat constructor; auto].
  - constructor.
  - constructor.
  - unfold gossip_stop. match goal with |- context [cancel_join_retry ?h] =>
      pose proof (cancel_join_retry_quiet h) as Q1; destruct (cancel_join_retry h) as [g1 o1] end.
    match goal with |- context [for_each ?f ?l ?h] =>
      pose proof (for_each_effects (fun e => ~ reports_join e) f l h) as Q; destruct (for_each f l h) as [g3 o3] end.
    specialize (Q ltac:(intros x h _; apply (send_message_quiet Leave))).
    simpl in *. rewrite !Forall_app. split_and!; [|done|done|].
    + bcase; repeat constructor; auto.
    + bcase; repeat constructor; auto.
Qed.

(** A node built on a transport alone cannot start: it has no loop. *)
Theorem transport_only_start_fails (cfg : GossipConfig) (rng seed : Rng) (wall now jid pid : Z) :
  gossip_start serialize_envelope true wall now jid pid seed (gossip_with_transport cfg rng) = None.
Proof. unfold gossip_start. simpl. by destruct (seeds cfg). Qed.

(** *** Traffic *)

Definition is_send (e : Effect) : bool := match e with Send _ _ => true | _ => false end.
Definition sends (out : list Effect) : Z := zlen (List.filter is_send out).

Lemma sends_app a b : sends (a ++ b) = sends a + sends b.
Proof. unfold sends. by rewrite List.filter_app, zlen_app. Qed.

Lemma for_each_sends {A} (f : A -> Node -> Node * list Effect) k l (g : Node) :
  (forall x g, sends (f x g).2 <= k) -> sends (for_each f l g).2 <= k * zlen l.
Proof.
  intros Hf. unfold for_each. assert (H0 : sends (@nil Effect) <= k * 0) by (unfold sends; simpl; rewrite zlen_nil; lia). revert H0.
  replace (k * zlen l) with (k * 0 + k * zlen l) by lia. generalize (k * 0) as z. generalize (@nil Effect) as out.
  revert g. induction l as [|x l IH]; intros g out z Ho; cbn [foldl]; [cbn [snd]; rewrite zlen_nil; lia|].
  specialize (Hf x g). destruct (f x g) as [g' o]. simpl in Hf.
  rewrite zlen_cons. replace (z + k * (1 + zlen l)) with (z + k + k * zlen l) by lia.
  apply IH. rewrite sends_app. lia.
Qed.

Lemma send_message_sends ty t pb to (g : Node) : sends (send_message serialize_envelope ty t pb to g).2 <= 1.
Proof. unfold sends. simpl. by destruct (g_transport g). Qed.

Lemma probe_fold_reqs now l p k :
  0 <= indirect_probes (g_config (pr_g p)) <= k ->
  zlen (pr_reqs (foldl (probe_expired shuffle order now) p l)) <= zlen (pr_reqs p) + k * zlen l.
Proof.
  revert p. induction l as [|x l IH]; intros p Hk; cbn [foldl]; [rewrite zlen_nil; lia|].
  destruct (probe_expired_spec now p x) as (C & _ & _ & _).
  assert (H1 : zlen (pr_reqs (probe_expired shuffle order now p x)) <= zlen (pr_reqs p) + k).
  { unfold probe_expired. destruct (g_pending_pings (pr_g p) !! x) as [pp|]; [|lia]. bcase; [|simpl; lia].
    set (g1 := set_pings _ _).
    pose proof (pick_random_peers_spec (indirect_probes (g_config g1)) [x; self_ep g1] g1) as Hspec.
    specialize (Hspec ltac:(simpl; lia)). destruct Hspec as (_ & Hlen & _).
    destruct (pick_random_peers _ _ _ _ _) as [[|y ps] g2]; simpl in *; [lia|].
    change (y :: ps) with ([y] ++ ps) in Hlen. rewrite zlen_app, zlen_cons. unfold zlen in *. rewrite length_map. simpl in *. lia. }
  rewrite zlen_cons. specialize (IH (probe_expired shuffle order now p x)). rewrite C in IH. specialize (IH Hk). lia.
Qed.

(** A round sends at most [fanout] pings and [indirect_probes] requests per
    expired ping. *)
Theorem round_traffic (g : Node) (t tm tp : Z) :
  0 <= fanout (g_config g) -> 0 <= indirect_probes (g_config g) ->
  sends (round t tm tp g).2 <= fanout (g_config g) + indirect_probes (g_config g) * zlen (expired_pings order t g).
Proof.
  intros Hf Hi. unfold protocol_round.
  destruct (check_pending_spec t tm g (self_ep g)) as [C1 _].
  assert (S1 : sends (check_pending_pings shuffle order serialize_envelope t tm g).2
    <= indirect_probes (g_config g) * zlen (expired_pings order t g)).
  { unfold check_pending_pings. set (pr := foldl _ _ _).
    match goal with |- context [for_each ?f ?l ?h] =>
      pose proof (for_each_sends f 1 l h ltac:(intros [? ?] ?; apply send_message_sends)) as S;
      destruct (for_each f l h) as [g1 o1] end.
    pose proof (probe_fold_reqs t (expired_pings order t g) (mkProbes g [] []) (indirect_probes (g_config g))) as R.
    specialize (R ltac:(simpl; lia)). fold pr in R. cbn in S, R |- *. rewrite zlen_nil in R. lia. }
  destruct (check_pending_pings _ _ _ t tm g) as [g1 o1]. simpl in C1, S1.
  assert (S2 : sends (send_pings shuffle order serialize_envelope t g1).2 <= fanout (g_config g1)).
  { unfold send_pings. destruct (candidates order g1 []); [unfold sends; simpl; rewrite zlen_nil, C1; lia|].
    pose proof (pick_random_peers_spec (fanout (g_config g1)) [] g1 ltac:(rewrite C1; lia)) as (_ & Hlen & _).
    destruct (pick_random_peers _ _ _ _ _) as [ps g2]. simpl in Hlen.
    match goal with |- context [for_each ?f ?l ?h] =>
      pose proof (for_each_sends f 1 l h ltac:(intros ? ?; apply send_message_sends)) as S;
      destruct (for_each f l h) as [g3 o3] end. cbn [fst snd] in *. lia. }
  destruct (send_pings _ _ _ t g1) as [g2 o2].
  assert (S3 : sends (check_suspicious order t tm g2).2 <= 0).
  { etrans; [apply (for_each_sends _ 0)|lia]. intros x h. unfold mark_dead, sends.
    destruct (g_members h !! x); [|done]. simpl. by destruct (g_member_change_cb h). }
  destruct (check_suspicious order t tm g2) as [g3 o3]. cbn in *. rewrite C1 in S2. rewrite !sends_app. lia.
Qed.
End Spec.

(** ** Witnesses

    Node 9000 with peer 9001 and the default timeouts; the random engine is
    [unit] and does not shuffle. *)

Definition w_ep (p : Z) : EndPoint := Ipv4Endpoint 2130706433 (htons p).
Definition w_cfg : GossipConfig :=
  mkGossipConfig 5354 1000 200 3000 30000 3 3 [] (member_of (w_ep 9000) 0 Alive 0).
Definition w_shuffle (r : unit) (l : list EndPoint) : list EndPoint * unit := (l, r).
Definition w_order (A : Type) (m : gmap EndPoint A) : list (EndPoint * A) := map_to_list m.
Definition w_table (st : MemberStatus) : gmap EndPoint Member :=
  <[w_ep 9001 := member_of (w_ep 9001) 7 st 0]> {[ w_ep 9000 := member_of (w_ep 9000) 9 Alive 0 ]}.
Definition w_node (st : MemberStatus) (pending : gmap EndPoint PendingPing) : GossipMembership :=
  set_table (set_identity (gossip_with_loop w_cfg true tt) w_cfg 9 false) (w_table st) pending.

Lemma w_order_perm A (m : gmap EndPoint A) : w_order A m ≡ₚ map_to_list m.
Proof. done. Qed.
Lemma w_shuffle_perm r l : (w_shuffle r l).1 ≡ₚ l.
Proof. done. Qed.

#[local] Notation w_step :=
  (gossip_step w_shuffle w_order num_serialize_envelope num_parse_envelope num_serialize_sync_rsp num_parse_sync_rsp).

(** Seconds 1 and 2 suspect the peer, second 6 buries it, second 40 removes it. *)
Definition w_sec (k : Z) : RoundTimes := mkRoundTimes (k * 1000000000) (k * 1000000000) (k * 1000000000).
Definition w_round (g : @GossipMembership unit) (k : Z) : @GossipMembership unit :=
  (w_step g (EvRound (rt_now (w_sec k)) (rt_mark (w_sec k)) (rt_purge (w_sec k)))).1.

Lemma silent_member_removed_witness :
  let g := w_node Alive {[ w_ep 9001 := mkPending 200000000 false 0 ]} in
  let run := quiet_run w_shuffle w_order num_serialize_envelope num_parse_envelope num_serialize_sync_rsp num_parse_sync_rsp (w_ep 9001) in
  let g' := foldl w_round g [1; 2; 6; 40] in
  exists h1 h2,
    (run g [w_sec 1; w_sec 2] h1 /\ exists m1, g_members h1 !! w_ep 9001 = Some m1 /\ status m1 = Suspicious) /\
    (run h1 [w_sec 6] h2 /\ exists m2, g_members h2 !! w_ep 9001 = Some m2 /\ status m2 = Dead) /\
    run h2 [w_sec 40] g' /\ g_members g' !! w_ep 9001 = None.
Proof.
  intros g run g'. subst run.
  destruct (silent_member_removed w_shuffle w_order num_serialize_envelope num_parse_envelope num_serialize_sync_rsp
    num_parse_sync_rsp w_order_perm w_shuffle_perm (w_ep 9001) g g' (member_of (w_ep 9001) 7 Alive 0)
    (mkPending 200000000 false 0) (w_sec 1) (w_sec 2) (w_sec 6) (w_sec 40) [] [] 2000000000 6000000000)
    as (h1 & h2 & R1 & S1 & R2 & S2 & R3 & N); [by vm_compute|done|by vm_compute..| |by vm_compute|by vm_compute| |by vm_compute| |by vm_compute|by vm_compute|].
  - do 4 apply qr_round. apply qr_done.
  - intros r [->|[->|[]%elem_of_nil]%elem_of_cons]%elem_of_cons; by vm_compute.
  - intros r [->|[]%elem_of_nil]%elem_of_cons; by vm_compute.
  - assert (I : forall r, r ∈ [w_sec 1; w_sec 2; w_sec 6] -> in_time (ms (dead_timeout (g_config g))) (rt_mark (w_sec 1)) r).
    { intros r [->|[->|[->|[]%elem_of_nil]%elem_of_cons]%elem_of_cons]%elem_of_cons; repeat split; by vm_compute. }
    exists h1, h2. split; [split; [exact R1|]|split; [split; [exact R2|]|split; [exact R3|exact N]]].
    + apply S1; [apply I; by left|apply I; right; by left|by vm_compute].
    + apply S2; [exact I|by vm_compute].
Defined.

(** A Metadata entry raises the recorded incarnation from 7 to 8. *)
Definition w_metadata_ping : list Z :=
  encode_message num_serialize_envelope (member_of (w_ep 9002) 0 Alive 0) Ping 5 0 (w_ep 9002)
    [mkPiggyback PMetadata (identity_of (w_ep 9001)) 8 ["worker"%string] 0].

Lemma incarnations_never_fall_witness :
  let m' := mkMember (identity_of (w_ep 9001)) ["worker"%string] Alive 8 1000 in
  g_members (w_step (w_node Alive ∅) (EvPacket w_metadata_ping 1000)).1 !! w_ep 9001 = Some m' /\
  incarnation (member_of (w_ep 9001) 7 Alive 0) <= incarnation m'.
Proof.
  intros m'.
  assert (E : g_members (w_step (w_node Alive ∅) (EvPacket w_metadata_ping 1000)).1 !! w_ep 9001 = Some m')
    by (vm_compute; reflexivity).
  split; [exact E|].
  refine (proj1 (incarnations_never_fall w_shuffle w_order num_serialize_envelope num_parse_envelope
    num_serialize_sync_rsp num_parse_sync_rsp w_order_perm w_shuffle_perm (w_node Alive ∅)
    (EvPacket w_metadata_ping 1000) (w_ep 9001) (member_of (w_ep 9001) 7 Alive 0) m' _ E _)).
  - vm_compute. reflexivity.
  - clear E. split; vm_compute; [discriminate|reflexivity].
Defined.

(** The suspect answers with a higher incarnation and stays suspected. *)
Definition w_ack : list Z :=
  encode_message num_serialize_envelope (member_of (w_ep 9001) 0 Alive 0) Ack 8 0 (w_ep 9001) [].

Lemma w_ack_plain : plain_packet num_parse_envelope num_parse_sync_rsp w_ack.
Proof.
  split.
  - intros d Hd. assert (E : d_pb <$> decode_message num_parse_envelope w_ack decode_out = Some [])
      by (vm_compute; reflexivity).
    rewrite Hd in E. injection E as ->. constructor.
  - intros now members Hs. unfold decode_sync_rsp in Hs.
    assert (Hn : num_parse_sync_rsp w_ack = None) by (vm_compute; reflexivity).
    rewrite Hn in Hs. discriminate.
Qed.

Lemma suspicion_never_withdrawn_witness :
  let m' := member_of (w_ep 9001) 8 Suspicious 0 in
  g_members (w_step (w_node Suspicious ∅) (EvPacket w_ack 1000)).1 !! w_ep 9001 = Some m' /\ status m' <> Alive.
Proof.
  intros m'.
  assert (E : g_members (w_step (w_node Suspicious ∅) (EvPacket w_ack 1000)).1 !! w_ep 9001 = Some m')
    by (vm_compute; reflexivity).
  split; [exact E|].
  refine (proj2 (suspicion_never_withdrawn w_shuffle w_order num_serialize_envelope num_parse_envelope
    num_serialize_sync_rsp num_parse_sync_rsp w_order_perm w_shuffle_perm (w_node Suspicious ∅) (EvPacket w_ack 1000)
    (w_ep 9001) (member_of (w_ep 9001) 7 Suspicious 0) m') w_ack_plain _ _ E).
  - vm_compute. reflexivity.
  - reflexivity.
Defined.

(** Node 9002 names the suspect every second. *)
Lemma gossip_restarts_suspicion_witness :
  suspect_idle (w_ep 9001) 7
    (foldl (gossip_cycle w_shuffle w_order num_serialize_envelope (w_ep 9002) 3
       (mkPiggyback PSuspicious (identity_of (w_ep 9001)) 7 [] 0)) (w_node Suspicious ∅)
       (map (fun k => (k * 1000000000, mkRoundTimes (k * 1000000000 + 500000000) (k * 1000000000 + 500000000)
          (k * 1000000000 + 500000000))) (seqZ 1 60))).
Proof.
  apply (gossip_restarts_suspicion w_shuffle w_order num_serialize_envelope w_order_perm w_shuffle_perm
    (w_ep 9001) (w_ep 9002) 3 7 (mkPiggyback PSuspicious (identity_of (w_ep 9001)) 7 [] 0)).
  - by vm_compute.
  - done.
  - done.
  - done.
  - split; [by vm_compute|]. eexists. split; [by vm_compute|by vm_compute].
  - intros tping r Hin. apply list_elem_of_In, in_map_iff in Hin as (k & Hk & _). injection Hk as <- <-. simpl.
    unfold ms. simpl. lia.
Defined.
