(* ===== verification/ClusterNode.v ===== *)
(** * Cluster nodes

    [cluster/cluster_node_identity.hpp], [cluster/cluster_node_state.hpp],
    [cluster/partition_policy.hpp], [cluster/route_invalidation.hpp] and
    [cluster/cluster_failure_model.cpp]: the authoritative map of node states,
    its legal transitions, the quorum and the queue of nodes whose routes are
    to be dropped.  The theorems: a node's history follows the table and Down is
    final, two quorums over the same registrations share a node, and every
    fenced node is queued for invalidation exactly once per transition. *)

From S2P Require Import Prelude.
From Stdlib Require Import String.
From stdpp Require Import base numbers list strings gmap.

#[local] Open Scope Z_scope.

(** ** Identities *)

Record ClusterNodeIdentity := mkNodeIdentity {
  node_id : string;
  node_incarnation : Z;
  process_start_id : Z;
  node_membership_epoch : Z;
  node_cluster_id : string
}.

Definition identity_fences (newer older : ClusterNodeIdentity) : bool :=
  bool_decide (node_id newer = node_id older) && (node_incarnation older <? node_incarnation newer).
Definition is_identity_conflict (a b : ClusterNodeIdentity) : bool :=
  bool_decide (node_id a = node_id b) && (node_incarnation a =? node_incarnation b)
  && negb (process_start_id a =? process_start_id b).
Definition same_cluster (a b : ClusterNodeIdentity) : bool :=
  bool_decide (node_cluster_id a = node_cluster_id b).
Definition has_stale_epoch (candidate current : ClusterNodeIdentity) : bool :=
  node_membership_epoch candidate <? node_membership_epoch current.

(** ** States *)

Inductive ClusterNodeState :=
| NJoining | NAlive | NSuspect | NUnreachable | NQuarantined | NLeaving | NDown | NRemoved.

#[export] Instance ClusterNodeState_eq_dec : EqDecision ClusterNodeState.
Proof. solve_decision. Defined.

Definition node_is_alive (s : ClusterNodeState) : bool := bool_decide (s = NAlive).
Definition is_terminal (s : ClusterNodeState) : bool := bool_decide (s = NDown) || bool_decide (s = NRemoved).

Definition can_transition (from to : ClusterNodeState) : bool :=
  if bool_decide (from = to) then false
  else
    match from with
    | NJoining => bool_decide (to = NAlive)
    | NAlive => bool_decide (to = NSuspect) || bool_decide (to = NUnreachable)
                || bool_decide (to = NQuarantined) || bool_decide (to = NLeaving)
    | NSuspect => bool_decide (to = NAlive) || bool_decide (to = NUnreachable) || bool_decide (to = NQuarantined)
    | NUnreachable => bool_decide (to = NAlive) || bool_decide (to = NDown)
    | NLeaving => bool_decide (to = NDown)
    | NDown => bool_decide (to = NRemoved)
    | NQuarantined => bool_decide (to = NJoining)
    | NRemoved => false
    end.

Definition node_state_to_string (s : ClusterNodeState) : string :=
  match s with
  | NJoining => "joining" | NAlive => "alive" | NSuspect => "suspect" | NUnreachable => "unreachable"
  | NQuarantined => "quarantined" | NLeaving => "leaving" | NDown => "down" | NRemoved => "removed"
  end.

(** [should_invalidate_routes]. *)
Definition should_invalidate_routes (s : ClusterNodeState) : bool :=
  bool_decide (s = NDown) || bool_decide (s = NQuarantined) || bool_decide (s = NRemoved).

(** ** Partition policy *)

Inductive PartitionPolicy := FailOpen | FailClosed | StaticMajority.

Definition allow_user_delivery (policy : PartitionPolicy) (quorum_known : bool) : bool :=
  match policy with FailOpen => true | FailClosed | StaticMajority => quorum_known end.
Definition allow_ownership_change (policy : PartitionPolicy) (majority_present : bool) : bool :=
  match policy with FailOpen | FailClosed | StaticMajority => majority_present end.
Definition partition_policy_to_string (policy : PartitionPolicy) : string :=
  match policy with
  | FailOpen => "fail_open" | FailClosed => "fail_closed" | StaticMajority => "static_majority"
  end.

(** ** The failure model *)

Record NodeRecord := mkNodeRecord { nr_identity : ClusterNodeIdentity; nr_state : ClusterNodeState }.

Inductive IdentityConflictResolution := ResolveNone | QuarantineBoth | FenceOld.
Record IdentityCheckStatus := mkCheckStatus {
  conflict_detected : bool; resolution : IdentityConflictResolution; fence_old : bool
}.
Record TransitionResult := mkTransition { t_success : bool; routes_invalidated : bool; t_reason : string }.

(** The observers are called outside the lock and are modelled with the
    runtime that registers them; a transition returns the snapshot of alive
    nodes that they get. *)
Record ClusterFailureModel := mkFailureModel {
  fm_nodes : gmap string NodeRecord;
  fm_policy : PartitionPolicy;
  fm_queue : list string
}.

Definition failure_model_init : ClusterFailureModel := mkFailureModel ∅ FailOpen [].

Definition set_nodes (f : ClusterFailureModel) (n : gmap string NodeRecord) : ClusterFailureModel :=
  mkFailureModel n (fm_policy f) (fm_queue f).

Definition register_node (id : ClusterNodeIdentity) (f : ClusterFailureModel) : bool * ClusterFailureModel :=
  match fm_nodes f !! node_id id with
  | Some _ => (false, f)
  | None => (true, set_nodes f (<[node_id id := mkNodeRecord id NJoining]> (fm_nodes f)))
  end.

Section Model.
(** The iteration order of [nodes_]. *)
Context (order : gmap string NodeRecord -> list (string * NodeRecord)).

Definition fm_alive_nodes (f : ClusterFailureModel) : list string :=
  map fst (List.filter (fun '(_, r) => node_is_alive (nr_state r)) (order (fm_nodes f))).

(** [node_transition]: the result, the new state and, when it succeeds, the alive
    nodes that the observers are called with. *)
Definition node_transition (nid : string) (to : ClusterNodeState) (f : ClusterFailureModel)
  : TransitionResult * ClusterFailureModel * option (list string) :=
  match fm_nodes f !! nid with
  | None => (mkTransition false false "node not found", f, None)
  | Some r =>
      if negb (can_transition (nr_state r) to) then (mkTransition false false "illegal transition", f, None)
      else
        let invalidated := should_invalidate_routes to in
        let f := mkFailureModel (<[nid := mkNodeRecord (nr_identity r) to]> (fm_nodes f)) (fm_policy f)
                   (if invalidated then fm_queue f ++ [nid] else fm_queue f) in
        (mkTransition true invalidated EmptyString, f, Some (fm_alive_nodes f))
  end.

Definition fm_get_state (nid : string) (f : ClusterFailureModel) : ClusterNodeState :=
  match fm_nodes f !! nid with Some r => nr_state r | None => NRemoved end.

Definition cluster_node_count (f : ClusterFailureModel) : Z := Z.of_nat (size (fm_nodes f)).

Definition check_identity_conflict (received : ClusterNodeIdentity) (f : ClusterFailureModel) : IdentityCheckStatus :=
  match fm_nodes f !! node_id received with
  | None => mkCheckStatus false ResolveNone false
  | Some r =>
      if is_identity_conflict received (nr_identity r) then mkCheckStatus true QuarantineBoth false
      else if identity_fences received (nr_identity r) then mkCheckStatus false FenceOld true
      else mkCheckStatus false ResolveNone false
  end.

Definition set_partition_policy (p : PartitionPolicy) (f : ClusterFailureModel) : ClusterFailureModel :=
  mkFailureModel (fm_nodes f) p (fm_queue f).

Definition quorum_present (f : ClusterFailureModel) : bool :=
  if cluster_node_count f =? 0 then false
  else cluster_node_count f / 2 <? zlen (fm_alive_nodes f).

Definition drain_invalidation_queue (f : ClusterFailureModel) : list string * ClusterFailureModel :=
  (fm_queue f, mkFailureModel (fm_nodes f) (fm_policy f) []).

(** ** Runs *)

Inductive NodeOp :=
| OpRegister (id : ClusterNodeIdentity)
| OpTransition (nid : string) (to : ClusterNodeState)
| OpPolicy (p : PartitionPolicy)
| OpDrain.

Definition node_op (f : ClusterFailureModel) (o : NodeOp) : ClusterFailureModel :=
  match o with
  | OpRegister id => (register_node id f).2
  | OpTransition nid to => (node_transition nid to f).1.2
  | OpPolicy p => set_partition_policy p f
  | OpDrain => (drain_invalidation_queue f).2
  end.
End Model.

(** ** Properties *)

Section Spec.
Context (order : gmap string NodeRecord -> list (string * NodeRecord)).
Context (Horder : forall m, order m ≡ₚ map_to_list m).

(** One operation moves one node along the table, or nothing. *)
Lemma node_op_moves f o nid r :
  fm_nodes f !! nid = Some r ->
  exists r', fm_nodes (node_op order f o) !! nid = Some r' /\ nr_identity r' = nr_identity r /\
    (nr_state r' = nr_state r \/ can_transition (nr_state r) (nr_state r') = true).
Proof.
  intros Hr. destruct o as [id|k to|p|]; simpl; [| |by eauto..].
  - unfold register_node. destruct (fm_nodes f !! node_id id) eqn:E; [by eauto|]. simpl.
    rewrite lookup_insert_ne by congruence. eauto.
  - unfold node_transition. destruct (fm_nodes f !! k) as [rk|] eqn:E; [|by eauto].
    destruct (can_transition (nr_state rk) to) eqn:Hc; [|by eauto]. simpl.
    destruct (decide (k = nid)) as [->|Hne]; [|rewrite lookup_insert_ne by done; eauto].
    rewrite lookup_insert_eq. simplify_eq. eexists. eauto.
Qed.

(** The paths of the transition table. *)
Inductive legal_path : ClusterNodeState -> ClusterNodeState -> Prop :=
| lp_refl s : legal_path s s
| lp_step s t u : can_transition s t = true -> legal_path t u -> legal_path s u.

Lemma legal_path_trans s t u : legal_path s t -> legal_path t u -> legal_path s u.
Proof. induction 1; eauto using legal_path. Qed.

Lemma run_legal f ops nid r :
  fm_nodes f !! nid = Some r ->
  exists r', fm_nodes (foldl (node_op order) f ops) !! nid = Some r' /\ nr_identity r' = nr_identity r /\
    legal_path (nr_state r) (nr_state r').
Proof.
  revert f r. induction ops as [|o ops IH]; intros f r Hr; [exists r; eauto using legal_path|]. simpl.
  destruct (node_op_moves f o nid r Hr) as (r1 & H1 & Hid & Hs). destruct (IH _ _ H1) as (r2 & H2 & Hid2 & Hp).
  exists r2. split_and!; [done|congruence|]. destruct Hs as [<-|Hs]; [done|]. by eapply lp_step.
Qed.

(** Down leads to Removed only. *)
Lemma down_path s t : legal_path s t -> is_terminal s = true -> is_terminal t = true.
Proof.
  induction 1 as [|s t u Hst _ IH]; [done|]. intros Hs. apply IH. unfold can_transition in Hst.
  destruct s; try done; by destruct t.
Qed.

(** Over any sequence of operations the state of a registered node follows the
    transition table, its identity never changes, and a node that is down
    never becomes alive again. *)
Theorem node_history (f : ClusterFailureModel) (ops : list NodeOp) (nid : string) (r : NodeRecord) :
  fm_nodes f !! nid = Some r ->
  exists r', fm_nodes (foldl (node_op order) f ops) !! nid = Some r' /\
    nr_identity r' = nr_identity r /\ legal_path (nr_state r) (nr_state r') /\
    (is_terminal (nr_state r) = true -> is_terminal (nr_state r') = true).
Proof.
  intros Hr. destruct (run_legal f ops nid r Hr) as (r' & H' & Hid & Hp). exists r'.
  split_and!; [done..|]. by apply down_path.
Qed.

(** A node that came back with a higher incarnation cannot register under its
    name, although the identity check says to fence the old one. *)
Theorem returning_node_refused (f : ClusterFailureModel) (ops : list NodeOp) (r : NodeRecord) (id : ClusterNodeIdentity) :
  fm_nodes f !! node_id id = Some r -> identity_fences id (nr_identity r) = true ->
  let f' := foldl (node_op order) f ops in
  register_node id f' = (false, f') /\
  check_identity_conflict id f' = mkCheckStatus false FenceOld true.
Proof.
  intros Hr Hf f'. destruct (run_legal f ops (node_id id) r Hr) as (r' & H' & Hid & _). fold f' in H'.
  unfold register_node, check_identity_conflict. rewrite H', Hid, Hf. split; [done|].
  unfold is_identity_conflict, identity_fences in *. bool_to_prop.
  rewrite (proj2 (Z.eqb_neq (node_incarnation id) (node_incarnation (nr_identity r)))) by lia.
  by rewrite andb_false_r.
Qed.

(** *** Quorum *)

Definition alive_set (f : ClusterFailureModel) : gset string :=
  dom (filter (fun '(_, r) => nr_state r = NAlive) (fm_nodes f)).

Lemma fm_alive_nodes_spec f :
  fm_alive_nodes order f ≡ₚ elements (alive_set f).
Proof.
  unfold fm_alive_nodes, alive_set. apply NoDup_Permutation.
  - pose proof (NoDup_fst_map_to_list (fm_nodes f)) as Hnd.
    assert (Hnd' : NoDup ((order (fm_nodes f)).*1)) by (by rewrite Horder).
    revert Hnd'. clear. induction (order (fm_nodes f)) as [|[k r] l IH]; [done|]. simpl.
    intros [Hk Hl]%NoDup_cons. destruct (node_is_alive (nr_state r)); [|by apply IH]. simpl.
    apply NoDup_cons. split; [|by apply IH]. intros Hin. apply Hk.
    apply list_elem_of_In, in_map_iff in Hin as (y & Hy & Hin). apply filter_In in Hin as [Hin _].
    apply list_elem_of_In, in_map_iff. eauto.
  - apply NoDup_elements.
  - intros k. rewrite elem_of_elements, elem_of_dom, list_elem_of_In, in_map_iff. split.
    + intros ([k' r] & Hk & Hin). simpl in Hk. subst k'. apply filter_In in Hin as [Hin Ha].
      apply list_elem_of_In in Hin. rewrite Horder in Hin. apply elem_of_map_to_list in Hin.
      exists r. apply map_lookup_filter_Some. split; [done|]. unfold node_is_alive in Ha. by bool_to_prop.
    + intros [r Hr]. apply map_lookup_filter_Some in Hr as [Hr Ha]. exists (k, r). split; [done|].
      apply filter_In. split.
      * apply list_elem_of_In. rewrite Horder. by apply elem_of_map_to_list.
      * unfold node_is_alive. by apply bool_decide_eq_true_2.
Qed.

Lemma quorum_size f : quorum_present order f = true -> cluster_node_count f < 2 * Z.of_nat (size (alive_set f)).
Proof.
  unfold quorum_present, cluster_node_count. bcase; [done|]. intros Hq. bool_to_prop.
  assert (Hs : zlen (fm_alive_nodes order f) = Z.of_nat (size (alive_set f))).
  { unfold zlen, size, set_size. simpl. f_equal. by rewrite fm_alive_nodes_spec. }
  rewrite Hs in Hq. Z.to_euclidean_division_equations. lia.
Qed.

(** Two nodes that have registered the same members and both see a quorum agree
    on an alive member: no two sides of a partition have a quorum. *)
Theorem quorums_intersect (f g : ClusterFailureModel) :
  dom (fm_nodes f) = dom (fm_nodes g) ->
  quorum_present order f = true -> quorum_present order g = true ->
  exists nid, fm_get_state nid f = NAlive /\ fm_get_state nid g = NAlive.
Proof.
  intros Hdom Hf Hg. pose proof (quorum_size f Hf) as Sf. pose proof (quorum_size g Hg) as Sg.
  assert (Hsub : forall h, alive_set h ⊆ dom (fm_nodes h)) by (intros h; apply dom_filter_subseteq).
  assert (Hsz : forall h, cluster_node_count h = Z.of_nat (size (dom (fm_nodes h)))).
  { intros h. unfold cluster_node_count. by rewrite size_dom. }
  rewrite Hsz in Sf, Sg. rewrite <- Hdom in Sg.
  destruct (decide (alive_set f ## alive_set g)) as [Hdisj|Hnd].
  - pose proof (size_union _ _ Hdisj) as Hu.
    assert (Hle : (size (alive_set f ∪ alive_set g) <= size (dom (fm_nodes f)))%nat).
    { apply subseteq_size. pose proof (Hsub f). pose proof (Hsub g) as Hg'. rewrite <- Hdom in Hg'. set_solver. }
    lia.
  - destruct (set_choose_or_empty (alive_set f ∩ alive_set g)) as [[nid Hn]|He]; [|set_solver].
    exists nid. apply elem_of_intersection in Hn as [H1 H2].
    assert (Hget : forall h, nid ∈ alive_set h -> fm_get_state nid h = NAlive).
    { intros h. unfold alive_set, fm_get_state. rewrite elem_of_dom. intros [r Hr].
      apply map_lookup_filter_Some in Hr as [-> Ha]. done. }
    split; by apply Hget.
Qed.

(** *** Invalidation *)

(** What an operation hands to the route invalidation, and what it queues. *)
Definition op_queued (f : ClusterFailureModel) (o : NodeOp) : list string :=
  match o with
  | OpTransition nid to =>
      let '(r, _, _) := node_transition order nid to f in
      if t_success r && routes_invalidated r then [nid] else []
  | _ => []
  end.
Definition op_drained (f : ClusterFailureModel) (o : NodeOp) : list string :=
  match o with OpDrain => fm_queue f | _ => [] end.

Lemma node_op_queue f o : op_drained f o ++ fm_queue (node_op order f o) = fm_queue f ++ op_queued f o.
Proof.
  destruct o as [id|k to|p|]; simpl; rewrite ?app_nil_r; try done.
  - unfold register_node. by destruct (fm_nodes f !! node_id id).
  - unfold node_transition. destruct (fm_nodes f !! k) as [r|]; [|by rewrite app_nil_r].
    destruct (can_transition (nr_state r) to); simpl; [|by rewrite app_nil_r].
    by destruct (should_invalidate_routes to); rewrite ?app_nil_r.
Qed.

Fixpoint run_queued (f : ClusterFailureModel) (ops : list NodeOp) : list string :=
  match ops with [] => [] | o :: ops => op_queued f o ++ run_queued (node_op order f o) ops end.
Fixpoint run_drained (f : ClusterFailureModel) (ops : list NodeOp) : list string :=
  match ops with [] => [] | o :: ops => op_drained f o ++ run_drained (node_op order f o) ops end.

(** Every node that is fenced by a transition is handed to the invalidation
    once and in order, or still waits in the queue. *)
Theorem invalidations_once (f : ClusterFailureModel) (ops : list NodeOp) :
  run_drained f ops ++ fm_queue (foldl (node_op order) f ops) = fm_queue f ++ run_queued f ops.
Proof.
  revert f. induction ops as [|o ops IH]; intros f; simpl; [by rewrite app_nil_r|].
  by rewrite <- app_assoc, IH, app_assoc, node_op_queue, <- app_assoc.
Qed.
End Spec.

(** ** Witnesses *)

Definition nid_of (s : string) : ClusterNodeIdentity := mkNodeIdentity s 1 10 0 "c".
Definition two_up : ClusterFailureModel :=
  foldl (node_op map_to_list) failure_model_init
    [OpRegister (nid_of "a"); OpRegister (nid_of "b"); OpRegister (nid_of "c");
     OpTransition "a" NAlive; OpTransition "b" NAlive].

Lemma node_history_witness :
  exists r', fm_nodes (foldl (node_op map_to_list) two_up [OpTransition "a" NUnreachable; OpTransition "a" NDown]) !! "a"
    = Some r' /\ legal_path NAlive (nr_state r').
Proof.
  destruct (node_history map_to_list two_up [OpTransition "a" NUnreachable; OpTransition "a" NDown] "a"
    (mkNodeRecord (nid_of "a") NAlive)) as (r' & H & _ & Hp & _).
  - vm_compute. reflexivity.
  - exists r'. split; [exact H|exact Hp].
Defined.

Lemma quorums_intersect_witness :
  exists nid, fm_get_state nid two_up = NAlive /\ fm_get_state nid two_up = NAlive.
Proof.
  apply (quorums_intersect map_to_list).
  - intros m. reflexivity.
  - reflexivity.
  - vm_compute. reflexivity.
  - vm_compute. reflexivity.
Defined.
