(* ===== verification/HashRing.v ===== *)
(** * The consistent hash ring

    [cluster/name/consistent_hash_ring.cpp]: every node places a number of
    virtual nodes on a ring of 64-bit tokens, and the home of a name is the
    node of the first token at or after the hash of the name.  The ordered map
    is a list sorted by token.  The theorems: the lookup is the nearest token
    clockwise, and a node that leaves (or joins) moves only the names it had
    (or gets). *)

From S2P Require Import Prelude Endpoint.
From Stdlib Require Import String Ascii Sorted.
From stdpp Require Import base numbers list strings sorting.

#[local] Open Scope Z_scope.

(** ** FNV-1a *)

Definition kFnvPrime : Z := 1099511628211.                  (* 0x00000100000001B3 *)
Definition kFnvOffsetBasis : Z := 14695981039346656037.     (* 0xcbf29ce484222325 *)

Fixpoint fnv_loop (s : string) (h : Z) : Z :=
  match s with
  | EmptyString => h
  | String c s => fnv_loop s (u64 (Z.lxor h (Z.of_nat (nat_of_ascii c)) * kFnvPrime))
  end.
Definition ring_hash (s : string) : Z := fnv_loop s kFnvOffsetBasis.

(** ** The ring *)

Section Ring.
Context (inet_ntoa : Z -> string) (inet_ntop6 : list Z -> string).

#[local] Notation ep_string := (to_string inet_ntoa inet_ntop6).

(** [EndPointCompare]. *)
Definition EndPointCompare (a b : EndPoint) : bool := String.ltb (ep_string a) (ep_string b).

(** [std::to_string] of a [uint32_t]: at most ten digits. *)
Definition virtual_node_hash (node : EndPoint) (vn : Z) : Z :=
  ring_hash (ep_string node +:+ ":" +:+ print_digits 10 vn EmptyString).

(** [ring_[token] = node]. *)
Fixpoint ring_put (t : Z) (n : EndPoint) (r : list (Z * EndPoint)) : list (Z * EndPoint) :=
  match r with
  | [] => [(t, n)]
  | (k, x) :: r' =>
      if t <? k then (t, n) :: r
      else if t =? k then (t, n) :: r'
      else (k, x) :: ring_put t n r'
  end.

Record ConsistentHashRing := mkRing {
  ring_ : list (Z * EndPoint);
  physical_nodes : list EndPoint          (* a std::set: in the order of its comparator *)
}.

Definition hash_ring_init : ConsistentHashRing := mkRing [] [].

(** One iteration of the loop over the members. *)
Definition add_node (virtual_nodes : nat) (r : list (Z * EndPoint)) (node : EndPoint) : list (Z * EndPoint) :=
  foldl (fun r vn => ring_put (virtual_node_hash node (Z.of_nat vn)) node r) r (seq 0 virtual_nodes).

(** [build]; [live_members] is a set, given in its order. *)
Definition build (live_members : list EndPoint) (virtual_nodes : nat) : ConsistentHashRing :=
  mkRing (foldl (add_node virtual_nodes) [] live_members) live_members.

(** [lower_bound]. *)
Fixpoint lower_bound (t : Z) (r : list (Z * EndPoint)) : option (Z * EndPoint) :=
  match r with
  | [] => None
  | (k, x) :: r => if t <=? k then Some (k, x) else lower_bound t r
  end.

Definition ring_find (t : Z) (r : list (Z * EndPoint)) : option (Z * EndPoint) :=
  match lower_bound t r with Some e => Some e | None => head r end.

Definition ring_lookup (name : string) (r : ConsistentHashRing) : option EndPoint :=
  snd <$> ring_find (ring_hash name) (ring_ r).

Definition hash_ring_empty (r : ConsistentHashRing) : bool := bool_decide (length (ring_ r) = 0%nat).
Definition ring_size (r : ConsistentHashRing) : Z := zlen (physical_nodes r).

(** ** Facts about the ordered map *)

Fixpoint ring_get (t : Z) (r : list (Z * EndPoint)) : option EndPoint :=
  match r with
  | [] => None
  | (k, x) :: r => if t =? k then Some x else ring_get t r
  end.

Lemma ring_get_put t n r t' : ring_get t' (ring_put t n r) = if t' =? t then Some n else ring_get t' r.
Proof.
  induction r as [|[k x] r IH]; simpl; [done|].
  destruct (t <? k) eqn:E1; [done|]. destruct (t =? k) eqn:E2; simpl.
  - bool_to_prop. subst. by destruct (t' =? k).
  - rewrite IH. destruct (t' =? k) eqn:E3, (t' =? t) eqn:E4; bool_to_prop; (done || lia).
Qed.

Lemma ring_get_elem t r n : ring_get t r = Some n -> (t, n) ∈ r.
Proof.
  induction r as [|[k x] r IH]; simpl; [done|]. bcase; bool_to_prop.
  - intros [= ->]. subst. left.
  - intros H. right. by apply IH.
Qed.

#[local] Notation sorted := (StronglySorted (fun a b : Z * EndPoint => a.1 < b.1)).

Lemma ring_put_sorted t n r : sorted r -> sorted (ring_put t n r).
Proof.
  induction 1 as [|[k x] r Hr IH Hk]; simpl; [by repeat constructor|].
  assert (Hall : forall k', k' < k -> Forall (fun b : Z * EndPoint => k' < b.1) r).
  { intros k' Hk'. eapply Forall_impl; [exact Hk|]. simpl. intros. lia. }
  destruct (t <? k) eqn:E1; bool_to_prop.
  - constructor; [by constructor|]. constructor; [done|]. by apply Hall.
  - destruct (t =? k) eqn:E2; bool_to_prop; [subst; by constructor|].
    constructor; [done|]. apply Forall_forall. intros [k' x'] Hin.
    assert (Hor : k' = t \/ (k', x') ∈ r).
    { clear -Hin. revert Hin. induction r as [|[k0 x0] r IH]; simpl.
      - intros [= -> ->]%list_elem_of_singleton. by left.
      - bcase; [|bcase]; rewrite !elem_of_cons; naive_solver. }
    destruct Hor as [->|Hin']; simpl; [lia|]. rewrite Forall_forall in Hk. by apply Hk in Hin'.
Qed.

Lemma sorted_get r t n : sorted r -> (t, n) ∈ r -> ring_get t r = Some n.
Proof.
  induction 1 as [|[k x] r Hr IH Hk]; [by intros ?%elem_of_nil|]. simpl.
  rewrite elem_of_cons. intros [[= -> ->]|Hin]; [by rewrite Z.eqb_refl|].
  rewrite Forall_forall in Hk. pose proof (Hk _ Hin). simpl in *.
  rewrite (proj2 (Z.eqb_neq t k)) by lia. by apply IH.
Qed.

Lemma build_sorted live v : sorted (ring_ (build live v)).
Proof.
  unfold build. simpl.
  assert (Hone : forall r node, sorted r -> sorted (add_node v r node)).
  { intros r node. unfold add_node. revert r. induction (seq 0 v) as [|i l IH]; intros r Hr; [done|].
    simpl. apply IH. by apply ring_put_sorted. }
  assert (H0 : sorted []) by constructor. revert H0. generalize (@nil (Z * EndPoint)).
  induction live as [|node live IH]; intros r Hr; [done|]. simpl. by apply IH, Hone.
Qed.

(** ** The nearest token clockwise *)

Definition clockwise (h t : Z) : Z := (t - h) mod 18446744073709551616.

Definition nearest (h : Z) (r : list (Z * EndPoint)) (t : Z) (n : EndPoint) : Prop :=
  ring_get t r = Some n /\
  forall t' n', ring_get t' r = Some n' -> clockwise h t <= clockwise h t'.

Definition tokens_ok (r : list (Z * EndPoint)) : Prop :=
  Forall (fun e : Z * EndPoint => 0 <= e.1 < 18446744073709551616) r.

Lemma lower_bound_spec h r :
  sorted r ->
  match lower_bound h r with
  | Some (t, n) => (t, n) ∈ r /\ h <= t /\ forall e, e ∈ r -> e.1 < h \/ t <= e.1
  | None => forall e, e ∈ r -> e.1 < h
  end.
Proof.
  induction 1 as [|[k x] r Hr IH Hk]; simpl; [by intros e ?%elem_of_nil|]. rewrite Forall_forall in Hk.
  destruct (h <=? k) eqn:E; bool_to_prop.
  - split_and!; [left|done|]. intros e [->|He]%elem_of_cons; [right; simpl; lia|]. right. apply Hk in He. simpl in He. lia.
  - destruct (lower_bound h r) as [[t n]|].
    + destruct IH as (Hin & Hh & Hall). split_and!; [by right|done|].
      intros e [->|He]%elem_of_cons; [left; simpl; lia|by apply Hall].
    + intros e [->|He]%elem_of_cons; [simpl; lia|by apply IH].
Qed.

Lemma clockwise_after h t : 0 <= h -> h <= t < 18446744073709551616 -> clockwise h t = t - h.
Proof. intros. unfold clockwise. apply Z.mod_small. lia. Qed.
Lemma clockwise_before h t :
  0 <= t < h -> h < 18446744073709551616 -> clockwise h t = t - h + 18446744073709551616.
Proof.
  intros. unfold clockwise. rewrite <- (Z.mod_add _ 1) by lia. rewrite Z.mod_small; lia.
Qed.

Lemma ring_find_nearest h r :
  0 <= h < 18446744073709551616 -> sorted r -> tokens_ok r ->
  match ring_find h r with
  | Some (t, n) => nearest h r t n
  | None => r = []
  end.
Proof.
  intros Hh Hs Hok. pose proof (lower_bound_spec h r Hs) as Hlb. unfold ring_find.
  unfold tokens_ok in Hok. rewrite Forall_forall in Hok.
  assert (Hget : forall t' n', ring_get t' r = Some n' -> (t', n') ∈ r) by (intros; by apply ring_get_elem).
  destruct (lower_bound h r) as [[t n]|].
  - destruct Hlb as (Hin & Hle & Hall). split; [by apply sorted_get|]. intros t' n' Ht'. apply Hget in Ht'.
    pose proof (Hok _ Hin). pose proof (Hok _ Ht'). simpl in *.
    rewrite (clockwise_after h t) by lia. destruct (Hall _ Ht') as [Hlt|Hge]; simpl in *.
    + rewrite clockwise_before by lia. lia.
    + rewrite clockwise_after by lia. lia.
  - destruct r as [|[k x] r]; [done|]. simpl. split; [simpl; by rewrite Z.eqb_refl|].
    intros t' n' Ht'. apply Hget in Ht'. pose proof (Hlb (k, x) ltac:(left)) as Hk. pose proof (Hlb _ Ht') as Hk'.
    pose proof (Hok (k, x) ltac:(left)). pose proof (Hok _ Ht'). simpl in *.
    rewrite !clockwise_before by lia. apply StronglySorted_inv in Hs as [_ Hall]. rewrite Forall_forall in Hall.
    apply elem_of_cons in Ht' as [[= -> ->]|Hin]; [lia|]. apply Hall in Hin. simpl in Hin. lia.
Qed.

Lemma clockwise_inj h t t' :
  0 <= h < 18446744073709551616 -> 0 <= t < 18446744073709551616 -> 0 <= t' < 18446744073709551616 ->
  clockwise h t = clockwise h t' -> t = t'.
Proof.
  intros Hh Ht Ht'. unfold clockwise. intros E. Z.to_euclidean_division_equations. lia.
Qed.

Lemma nearest_unique h r t n t' n' :
  0 <= h < 18446744073709551616 -> tokens_ok r -> nearest h r t n -> nearest h r t' n' -> n = n'.
Proof.
  intros Hh Hok [Hg Hn] [Hg' Hn']. unfold tokens_ok in Hok. rewrite Forall_forall in Hok.
  pose proof (Hok _ (ring_get_elem _ _ _ Hg)). pose proof (Hok _ (ring_get_elem _ _ _ Hg')). simpl in *.
  assert (t = t'); [|congruence]. apply (clockwise_inj h); [done..|].
  pose proof (Hn _ _ Hg'). pose proof (Hn' _ _ Hg). lia.
Qed.

(** ** The tokens of a build *)

Lemma fnv_range s h : 0 <= h < 18446744073709551616 -> 0 <= fnv_loop s h < 18446744073709551616.
Proof. revert h. induction s as [|c s IH]; intros h Hh; [done|]. simpl. apply IH, u64_range. Qed.
Lemma ring_hash_range s : 0 <= ring_hash s < 18446744073709551616.
Proof. apply fnv_range. unfold kFnvOffsetBasis. lia. Qed.

Definition token_of (v : nat) (node : EndPoint) (t : Z) : bool :=
  bool_decide (t ∈ map (fun vn => virtual_node_hash node (Z.of_nat vn)) (seq 0 v)).

Lemma add_node_get v r node t :
  ring_get t (add_node v r node) = if token_of v node t then Some node else ring_get t r.
Proof.
  unfold add_node, token_of. revert r. induction (seq 0 v) as [|i l IH]; intros r; simpl.
  - done.
  - rewrite IH, ring_get_put. set (L := map _ l). set (x := virtual_node_hash node (Z.of_nat i)).
    assert (E : bool_decide (t ∈ x :: L) = (t =? x) || bool_decide (t ∈ L)).
    { apply eq_bool_prop_intro. rewrite Is_true_true, Is_true_true, orb_true_iff, !bool_decide_eq_true, Z.eqb_eq. apply elem_of_cons. }
    rewrite E. by destruct (t =? x), (bool_decide (t ∈ L)).
Qed.

Lemma build_snoc live v node t :
  ring_get t (ring_ (build (live ++ [node]) v)) =
  if token_of v node t then Some node else ring_get t (ring_ (build live v)).
Proof. unfold build. simpl. by rewrite foldl_app, <- add_node_get. Qed.

Lemma build_tokens_ok live v : tokens_ok (ring_ (build live v)).
Proof.
  unfold tokens_ok. apply Forall_forall. intros [t n] Hin.
  apply sorted_get in Hin; [|apply build_sorted]. simpl.
  induction live as [|node live IH] using rev_ind; [done|]. rewrite build_snoc in Hin.
  destruct (token_of v node t) eqn:E; [|by apply IH]. unfold token_of in E. bool_to_prop.
  apply list_elem_of_In, in_map_iff in E as (vn & <- & _). apply ring_hash_range.
Qed.

(** ** Theorems *)

(** The home of a name is the node with the nearest token clockwise from the
    hash of the name, and it is the only such node; only an empty ring has no
    home. *)
Lemma lookup_is_nearest (live : list EndPoint) (v : nat) (name : string) :
  match ring_lookup name (build live v) with
  | Some n => exists t, nearest (ring_hash name) (ring_ (build live v)) t n /\
      forall t' n', nearest (ring_hash name) (ring_ (build live v)) t' n' -> n' = n
  | None => ring_ (build live v) = []
  end.
Proof.
  pose proof (ring_find_nearest (ring_hash name) (ring_ (build live v)) (ring_hash_range name)
    (build_sorted live v) (build_tokens_ok live v)) as H.
  unfold ring_lookup. destruct (ring_find _ _) as [[t n]|]; simpl; [|done].
  exists t. split; [done|]. intros t' n' H'.
  by eapply nearest_unique; [apply ring_hash_range|apply build_tokens_ok|exact H'|exact H].
Qed.

(** A token of a survivor stays its token; a token of the smaller ring is one
    of the larger. *)
Lemma build_filter_keep live v x t n :
  ring_get t (ring_ (build live v)) = Some n -> n <> x ->
  ring_get t (ring_ (build (filter (fun y => y <> x) live) v)) = Some n.
Proof.
  intros H Hne. induction live as [|node live IH] using rev_ind; [done|].
  rewrite build_snoc in H. rewrite filter_app, filter_cons, filter_nil.
  destruct (decide (node <> x)) as [Hn|Hn].
  - rewrite build_snoc. by destruct (token_of v node t); [|apply IH].
  - apply dec_stable in Hn. rewrite app_nil_r. destruct (token_of v node t); [congruence|by apply IH].
Qed.

Lemma build_filter_sub live v x t :
  is_Some (ring_get t (ring_ (build (filter (fun y => y <> x) live) v))) ->
  is_Some (ring_get t (ring_ (build live v))).
Proof.
  induction live as [|node live IH] using rev_ind; [done|].
  rewrite build_snoc, filter_app, filter_cons, filter_nil. destruct (token_of v node t) eqn:E; [by eauto|].
  destruct (decide (node <> x)).
  - rewrite build_snoc, E. apply IH.
  - rewrite app_nil_r. apply IH.
Qed.

(** When a node leaves, only the names that lived on it move. *)
Lemma ring_minimal_movement (live : list EndPoint) (v : nat) (x n : EndPoint) (name : string) :
  ring_lookup name (build live v) = Some n -> n <> x ->
  ring_lookup name (build (filter (fun y => y <> x) live) v) = Some n.
Proof.
  intros H Hne. pose proof (lookup_is_nearest live v name) as Hnear. rewrite H in Hnear.
  destruct Hnear as (t & [Hg Hmin] & _).
  set (live' := filter (fun y => y <> x) live).
  assert (Hn' : nearest (ring_hash name) (ring_ (build live' v)) t n).
  { split; [by apply build_filter_keep|]. intros t' n' Ht'.
    destruct (build_filter_sub live v x t') as [n'' Hn'']; [by exists n'|]. by eapply Hmin. }
  pose proof (lookup_is_nearest live' v name) as H'.
  destruct (ring_lookup name (build live' v)) as [n1|].
  - destruct H' as (t1 & _ & Hu). by rewrite (Hu t n Hn').
  - destruct Hn' as [Hg' _]. by rewrite H' in Hg'.
Qed.

(** C27. The ordered map with its lower bound and wrap-around is consistent hashing:
    the home of a name is exactly the node whose token is the nearest clockwise
    from the hash of the name, there is none only when the ring is empty, and
    when a node leaves every name that did not live on it keeps its home (when it
    joins, names move to it and nowhere else). *)
Theorem consistent_hashing (live : list EndPoint) (v : nat) (name : string) :
  (forall n, ring_lookup name (build live v) = Some n <->
     exists t, nearest (ring_hash name) (ring_ (build live v)) t n) /\
  (ring_lookup name (build live v) = None <-> ring_ (build live v) = []) /\
  (forall x n, ring_lookup name (build live v) = Some n -> n <> x ->
     ring_lookup name (build (filter (fun y => y <> x) live) v) = Some n).
Proof.
  pose proof (lookup_is_nearest live v name) as H. split; [|split].
  - intros n. destruct (ring_lookup name (build live v)) as [m|].
    + destruct H as (t & Ht & Hu). split; [intros [= <-]; eauto|]. intros [t' Ht']. by rewrite (Hu _ _ Ht').
    + rewrite H. split; [done|]. by intros [t [Hg _]].
  - destruct (ring_lookup name (build live v)) as [m|] eqn:E; [|done]. split; [done|]. intros Hr.
    destruct H as (t & [Hg _] & _). by rewrite Hr in Hg.
  - intros x n. apply ring_minimal_movement.
Qed.
End Ring.

(** Three nodes with three virtual nodes each: the one home of a name, before and
    after another node leaves. *)
Definition w_ntoa (a : Z) : string := print_digits 10 a EmptyString.
Definition w_live : list EndPoint := [Ipv4Endpoint 1 0; Ipv4Endpoint 2 0; Ipv4Endpoint 3 0].
Example ring_run :
  ring_lookup "orders" (build w_ntoa (fun _ => EmptyString) w_live 3) = Some (Ipv4Endpoint 2 0).
Proof. vm_compute. reflexivity. Qed.
