(* ===== verification/SingletonSpec.v ===== *)
(** * Cluster singletons: fencing

    The in-memory backend keeps the promises of [FencingBackend], and any number
    of nodes that run the manager over one such backend stay fenced: the tokens of
    active nodes differ, and the holder of the lease outranks every other active
    node.  The elections are characterised here too, and one run shows the
    manager keeping a token that is no longer the one of its lease. *)

From S2P Require Import Prelude Singleton.
From Stdlib Require Import String OrdersEx.
From stdpp Require Import base numbers list strings gmap.

#[local] Open Scope Z_scope.

(** ** The in-memory backend keeps the promises *)

Definition fake_holder (b : FakeLeadershipBackend) (n : string) : option (string * Z) :=
  s ← fb_leases b !! n; if sl_owned s then Some (owner_node_id (sl_lease s), fencing_token (sl_lease s)) else None.
Definition fake_inv (b : FakeLeadershipBackend) : Prop :=
  0 < next_token b <= max_token /\
  map_Forall (fun _ s => 0 < fencing_token (sl_lease s) < next_token b) (fb_leases b).

#[export] Instance FakeBackend : LeadershipBackend FakeLeadershipBackend := {| try_acquire := fake_try_acquire |}.

Lemma next_token_fresh b : fake_inv b -> next_token b < max_token -> u64 (next_token b + 1) = next_token b + 1.
Proof. unfold fake_inv, max_token. intros ? ?. apply u64_small. lia. Qed.

Lemma fake_holder_spec b n o k :
  fake_holder b n = Some (o, k) <->
  exists s, fb_leases b !! n = Some s /\ sl_owned s = true /\ owner_node_id (sl_lease s) = o
            /\ fencing_token (sl_lease s) = k.
Proof.
  unfold fake_holder. rewrite bind_Some. split.
  - intros (s & L & H). exists s. destruct (sl_owned s); naive_solver.
  - intros (s & L & O & <- & <-). exists s. by rewrite O.
Qed.

(** Storing a lease with the next token keeps the invariant, and the holders are
    those before or have the fresh token. *)
Lemma grant_evolves b n s u :
  fake_inv b -> next_token b < max_token -> fencing_token (sl_lease s) = next_token b ->
  let b' := mkFake (<[n := s]> (fb_leases b)) (u64 (next_token b + 1)) u in
  fake_inv b' /\ next_token b <= next_token b' /\
  forall m o k, fake_holder b' m = Some (o, k) -> fake_holder b m = Some (o, k) \/ next_token b <= k.
Proof.
  intros I H E b'. subst b'. rewrite (next_token_fresh b I H). destruct I as [R M].
  split; [|split; simpl; [lia|]].
  - split; simpl; [lia|]. apply map_Forall_insert_2; [lia|].
    eapply map_Forall_impl; [exact M|]. simpl. lia.
  - intros m o k. rewrite !fake_holder_spec. simpl. intros (x & L & O & <- & <-).
    apply lookup_insert_Some in L as [[_ <-]|[_ L]]; [right; lia | left; eauto].
Qed.

(** Storing a lease that nobody owns, or removing one, only takes holders away. *)
Lemma drop_evolves b f u :
  fake_inv b ->
  (forall m s, f !! m = Some s -> 0 < fencing_token (sl_lease s) < next_token b) ->
  (forall m s, f !! m = Some s -> sl_owned s = true -> fb_leases b !! m = Some s) ->
  let b' := mkFake f (next_token b) u in
  fake_inv b' /\ next_token b <= next_token b' /\
  forall m o k, fake_holder b' m = Some (o, k) -> fake_holder b m = Some (o, k) \/ next_token b <= k.
Proof.
  intros [R M] B S b'. subst b'. split; [split; [done|exact B]|split; [simpl; lia|]].
  intros m o k. rewrite !fake_holder_spec. simpl. intros (x & L & O & E1 & E2). left. eauto 10.
Qed.

Lemma same_evolves b :
  fake_inv b -> fake_inv b /\ next_token b <= next_token b /\
  forall m o k, fake_holder b m = Some (o, k) -> fake_holder b m = Some (o, k) \/ next_token b <= k.
Proof. intros I. split; [done|]. split; [lia|]. auto. Qed.

Lemma fake_acquire_evolves a now b r b' :
  fake_inv b -> next_token b < max_token -> fake_try_acquire a now b = (r, b') ->
  fake_inv b' /\ next_token b <= next_token b' /\
  forall n o k, fake_holder b' n = Some (o, k) -> fake_holder b n = Some (o, k) \/ next_token b <= k.
Proof.
  intros I H. unfold fake_try_acquire.
  repeat case_match; intros [= <- <-]; auto using same_evolves. by apply grant_evolves.
Qed.

Lemma fake_acquire_granted a now b r b' :
  fake_inv b -> next_token b < max_token -> fake_try_acquire a now b = (r, b') -> lr_status r = Granted ->
  exists l, lr_lease r = Some l /\
    owner_node_id l = at_self a /\ fake_holder b' (at_singleton a) = Some (at_self a, fencing_token l) /\
    (fake_holder b (at_singleton a) = Some (at_self a, fencing_token l) \/ next_token b <= fencing_token l).
Proof.
  intros I H. unfold fake_try_acquire. repeat case_match; intros [= <- <-]; try done; intros _.
  - match goal with s : StoredLease |- _ => exists (sl_lease s) end.
    assert (X : fake_holder b (at_singleton a) = Some (at_self a, fencing_token (sl_lease s))).
    { apply fake_holder_spec. exists s. repeat split; auto.
      match goal with K : bool_decide _ = true |- _ => by apply bool_decide_eq_true in K end. }
    repeat split; auto.
    match goal with K : bool_decide _ = true |- _ => by apply bool_decide_eq_true in K end.
  - eexists. split; [done|]. simpl. split; [done|]. split; [|right; lia].
    unfold fake_holder. simpl. by rewrite lookup_insert_eq.
Qed.

Lemma fake_acquire_refused a now b r b' :
  fake_inv b -> fake_try_acquire a now b = (r, b') -> lr_status r <> Granted ->
  lr_current_owner r <> Some (at_self a) /\ lr_status r <> Renewed.
Proof.
  intros _. unfold fake_try_acquire. repeat case_match; intros [= <- <-]; simpl; try done.
  intros _. split; [|done]. intros [= E].
  match goal with K : bool_decide _ = false |- _ => by apply bool_decide_eq_false in K end.
Qed.

#[export] Program Instance FakeFencing : FencingBackend FakeLeadershipBackend := {|
  holder := fake_holder; token_bound := next_token; backend_inv := fake_inv
|}.
Next Obligation. intros. by eapply fake_acquire_evolves. Qed.
Next Obligation.
  intros b n o k [_ M] H. apply fake_holder_spec in H as (s & L & _ & _ & <-). exact (M _ _ L).
Qed.
Next Obligation. intros. by eapply fake_acquire_granted. Qed.
Next Obligation. intros. by eapply fake_acquire_refused. Qed.
Next Obligation. intros. by eapply fake_acquire_evolves. Qed.

Lemma fake_renew_evolves l now b r b' :
  fake_inv b -> next_token b < max_token -> fake_renew l now b = (r, b') -> backend_evolves b b'.
Proof.
  intros I H. unfold fake_renew. repeat case_match; intros [= <- <-]; try exact (same_evolves _ I).
  by apply grant_evolves.
Qed.
Lemma force_grant_evolves n o ttl now b :
  fake_inv b -> next_token b < max_token -> backend_evolves b (force_grant n o ttl now b).
Proof. intros I H. by apply grant_evolves. Qed.
Lemma fake_release_evolves l b r b' :
  fake_inv b -> fake_release l b = (r, b') -> backend_evolves b b'.
Proof.
  intros I. unfold fake_release. repeat case_match; intros [= <- <-]; try exact (same_evolves _ I).
  destruct I as [R M]. apply drop_evolves; [done| |].
  - intros m x [[<- <-]|[_ L]]%lookup_insert_Some; [|exact (M _ _ L)].
    match goal with K : fb_leases b !! _ = Some _ |- _ => exact (M _ _ K) end.
  - intros m x [[<- <-]|[_ L]]%lookup_insert_Some; done.
Qed.
Lemma force_revoke_evolves n b : fake_inv b -> backend_evolves b (force_revoke n b).
Proof.
  intros I. apply drop_evolves; [done| |]; intros m s [_ L]%lookup_delete_Some; [|done].
  destruct I as [_ M]. exact (M _ _ L).
Qed.
Lemma simulate_unavailable_evolves u b : fake_inv b -> backend_evolves b (simulate_unavailable u b).
Proof. intros I. apply drop_evolves; [done| |done]. destruct I as [_ M]. exact M. Qed.
#[export] Hint Resolve fake_renew_evolves force_grant_evolves fake_release_evolves force_revoke_evolves
  simulate_unavailable_evolves : hpa.

(** ** Nodes on one backend *)

(** The token a manager acts with: that of an active or draining record. *)
Definition active_token (m : SingletonManager) (name : string) : option Z :=
  r ← singletons m !! name;
  match sr_state r with Active | Draining => Some (s_token (sr_identity r)) | _ => None end.

(** Records are stored under their own name. *)
Definition names_ok (m : SingletonManager) : Prop :=
  map_Forall (fun n r => s_name (sr_identity r) = n) (singletons m).

Section System.
Context {B : Type} `{FencingBackend B}.

Record System := mkSystem { sys_nodes : gmap string (SingletonManager * BackendAdapter); sys_backend : B }.

(** One step: a node runs the election of one singleton (the body of the loop of
    [on_node_state_change]; the loops of several nodes interleave), a node
    registers or drains a singleton, or the backend moves on its own. *)
Inductive sys_step : System -> System -> Prop :=
| step_manage s n m a alive now name m' a' b' :
    sys_nodes s !! n = Some (m, a) -> token_bound (sys_backend s) < max_token ->
    manage_one alive now (m, (a, sys_backend s)) name = (m', (a', b')) ->
    sys_step s (mkSystem (<[n := (m', a')]> (sys_nodes s)) b')
| step_register s n m a id :
    sys_nodes s !! n = Some (m, a) ->
    sys_step s (mkSystem (<[n := (register_singleton id m, a)]> (sys_nodes s)) (sys_backend s))
| step_begin s n m a name :
    sys_nodes s !! n = Some (m, a) ->
    sys_step s (mkSystem (<[n := ((singleton_begin_drain name m).2, a)]> (sys_nodes s)) (sys_backend s))
| step_complete s n m a name :
    sys_nodes s !! n = Some (m, a) ->
    sys_step s (mkSystem (<[n := ((singleton_complete_drain name m).2, a)]> (sys_nodes s)) (sys_backend s))
| step_backend s b' :
    backend_evolves (sys_backend s) b' -> sys_step s (mkSystem (sys_nodes s) b').

(** Managers and adapters as they are constructed, on a backend in its invariant. *)
Definition sys_initial (s : System) : Prop :=
  backend_inv (sys_backend s) /\
  forall n m a, sys_nodes s !! n = Some (m, a) ->
    m = mkManager n ∅ /\ ad_self a = n /\ ad_leases a = ∅.

Definition acting_token (s : System) (n name : string) : option Z :=
  p ← sys_nodes s !! n; active_token p.1 name.

Record sys_inv (s : System) : Prop := {
  si_backend : backend_inv (sys_backend s);
  si_nodes n m a : sys_nodes s !! n = Some (m, a) -> self_node m = n /\ ad_self a = n /\ names_ok m;
  si_bound n name t : acting_token s n name = Some t -> 0 < t < token_bound (sys_backend s);
  si_distinct n1 n2 name t : acting_token s n1 name = Some t -> acting_token s n2 name = Some t -> n1 = n2;
  si_fenced n o name t k :
    holder (sys_backend s) name = Some (o, k) -> acting_token s n name = Some t -> n <> o -> t < k
}.

(** What a step may do to the tokens of the node that takes it. *)
Definition token_change (n : string) (m m' : SingletonManager) (b b' : B) : Prop :=
  forall name,
    active_token m' name = None \/ active_token m' name = active_token m name \/
    exists k, active_token m' name = Some k /\ holder b' name = Some (n, k) /\
              (holder b name = Some (n, k) \/ token_bound b <= k).

Lemma token_of_insert s n m a b' x name t :
  acting_token (mkSystem (<[n := (m, a)]> (sys_nodes s)) b') x name = Some t ->
  x = n /\ active_token m name = Some t \/ x <> n /\ acting_token s x name = Some t.
Proof.
  unfold acting_token. simpl. destruct (decide (x = n)) as [->|N].
  - rewrite lookup_insert_eq. simpl. auto.
  - rewrite lookup_insert_ne; auto.
Qed.

Lemma token_of_node s n m a name : sys_nodes s !! n = Some (m, a) -> acting_token s n name = active_token m name.
Proof. unfold acting_token. intros ->. done. Qed.

(** A step of a node keeps the invariant. *)
Lemma sys_inv_update s n m a m' a' b' :
  sys_inv s -> sys_nodes s !! n = Some (m, a) -> backend_evolves (sys_backend s) b' ->
  self_node m' = n -> ad_self a' = n -> names_ok m' -> token_change n m m' (sys_backend s) b' ->
  sys_inv (mkSystem (<[n := (m', a')]> (sys_nodes s)) b').
Proof.
  intros [IB IN IT ID IF] L (Ib & Lb & Ev) S1 S2 NM TC.
  assert (Old : forall name t, acting_token s n name = Some t <-> active_token m name = Some t)
    by (intros; by rewrite (token_of_node _ _ _ _ _ L)).
  assert (New : forall x name t, acting_token (mkSystem (<[n := (m', a')]> (sys_nodes s)) b') x name = Some t ->
            acting_token s x name = Some t \/
            x = n /\ holder b' name = Some (n, t) /\
            (holder (sys_backend s) name = Some (n, t) \/ token_bound (sys_backend s) <= t)).
  { intros x name t [[-> T]|[_ T]]%token_of_insert; [|by left].
    destruct (TC name) as [C|[C|(k & C & Hk)]]; rewrite C in T; [done|left; by apply Old|].
    injection T as <-. by right. }
  split; simpl; [done| | | |].
  - intros x y z [[<- [= <- <-]]|[_ Lx]]%lookup_insert_Some; [done|exact (IN _ _ _ Lx)].
  - intros x name t T. destruct (New _ _ _ T) as [O|(_ & Hb & _)].
    + specialize (IT _ _ _ O). lia.
    + by eapply holder_bounded.
  - intros x y name t [O1|(-> & _ & H1)]%New [O2|(-> & _ & H2)]%New; [by eapply ID| | |done].
    + destruct (decide (x = n)) as [|N]; [done|]. destruct H2 as [Hh|Hf].
      * pose proof (IF _ _ _ _ _ Hh O1 N). lia.
      * pose proof (IT _ _ _ O1). lia.
    + destruct (decide (n = y)) as [|N]; [done|]. destruct H1 as [Hh|Hf].
      * pose proof (IF _ _ _ _ _ Hh O2 ltac:(congruence)). lia.
      * pose proof (IT _ _ _ O2). lia.
  - intros x o name t k Hh [O|(-> & Hn & _)]%New No; [|congruence].
    destruct (Ev _ _ _ Hh) as [Hp|Hf]; [exact (IF _ _ _ _ _ Hp O No)|].
    pose proof (IT _ _ _ O). lia.
Qed.

Lemma evolves_refl (b : B) : backend_inv b -> backend_evolves b b.
Proof. intros I. split; [done|]. split; [lia|auto]. Qed.

(** The verdict on one record. *)
Lemma adapter_elect_spec id now a (b : B) w a' b' :
  backend_inv b -> token_bound b < max_token -> adapter_elect id now a b = (w, a', b') ->
  backend_evolves b b' /\ ad_self a' = ad_self a /\
  (w = Some (ad_self a) ->
   exists k, election_token (s_name id) (a', b') = k /\ holder b' (s_name id) = Some (ad_self a, k) /\
             (holder b (s_name id) = Some (ad_self a, k) \/ token_bound b <= k)).
Proof.
  intros I Hm. unfold adapter_elect.
  destruct (try_acquire _ now b) as [r b1] eqn:T. intros E.
  assert (b1 = b' /\ ad_self a' = ad_self a) as [-> Es] by (repeat case_match; by simplify_eq).
  pose proof (acquire_evolves _ _ _ _ _ I Hm T) as Ev. pose proof (acquire_inv _ _ _ _ _ I Hm T) as I'.
  split; [by split|]. split; [done|]. intros ->.
  destruct (decide (lr_status r = Granted)) as [G|G].
  - destruct (acquire_granted _ _ _ _ _ I Hm T G) as (l & El & Eo & Hh & Hf). simpl in *.
    rewrite G, El in E. injection E as _ <-. exists (fencing_token l). split; [|auto].
    simpl. by rewrite lookup_insert_eq.
  - destruct (acquire_refused _ _ _ _ _ I T G) as [Ho Hr]. simpl in Ho.
    exfalso. repeat case_match; simplify_eq.
Qed.

Lemma manage_one_spec alive now n m a (b : B) name m' a' b' :
  backend_inv b -> token_bound b < max_token -> self_node m = n -> ad_self a = n -> names_ok m ->
  manage_one alive now (m, (a, b)) name = (m', (a', b')) ->
  backend_evolves b b' /\ self_node m' = n /\ ad_self a' = n /\ names_ok m' /\ token_change n m m' b b'.
Proof.
  intros I Hm <- Sa NM. unfold manage_one.
  destruct (singletons m !! name) as [r|] eqn:L.
  2:{ intros [= <- <- <-]. split; [by apply evolves_refl|]. repeat (split; [done|]). intros x. auto. }
  cbn [elect AdapterElection fst snd]. destruct (adapter_elect (sr_identity r) now a b) as [[w a1] b1] eqn:A.
  intros [= <- <- <-]. destruct (adapter_elect_spec _ _ _ _ _ _ _ I Hm A) as (Ev & Ea & Hw).
  pose proof (NM _ _ L) as En. simpl in En. rewrite En, Sa in Hw.
  split; [done|]. split; [done|]. split; [congruence|]. split.
  - apply map_Forall_insert_2; [|done]. unfold apply_winner. repeat case_match; done.
  - intros x. unfold active_token. simpl.
    destruct (decide (x = name)) as [->|N]; [|rewrite lookup_insert_ne by done; by auto].
    rewrite lookup_insert_eq, L. simpl. unfold apply_winner.
    case_bool_decide as W.
    + destruct (Hw W) as (k & Ek & Hh & Hf). cbn [election_token AdapterElection fst] in Ek |- *. rewrite Ek.
      assert (0 < k) as Hk by (destruct Ev as [I' _]; by eapply holder_bounded).
      destruct (sr_state r); simpl; auto; right; right; exists k;
        (rewrite (proj2 (Z.ltb_lt 0 k) Hk)); simpl; auto.
    + destruct (sr_state r) eqn:S; simpl; rewrite ?S; auto.
Qed.

Lemma register_names id m : names_ok m -> names_ok (register_singleton id m).
Proof. intros N. unfold register_singleton. case_match; [done|]. by apply map_Forall_insert_2. Qed.
Lemma register_tokens n id m (b : B) : token_change n m (register_singleton id m) b b.
Proof.
  intros x. unfold active_token, register_singleton. case_match eqn:L; [by auto|]. simpl.
  destruct (decide (x = s_name id)) as [->|N]; [rewrite lookup_insert_eq; by auto|].
  rewrite lookup_insert_ne by done. auto.
Qed.
(** Both drain operations keep the identity of the record they touch. *)
Lemma drain_step n name m r st (b : B) :
  names_ok m -> singletons m !! name = Some r ->
  (st = Draining -> sr_state r = Active) -> st = Draining \/ st = Standby ->
  let m' := mkManager (self_node m) (<[name := mkRecord (sr_identity r) st]> (singletons m)) in
  names_ok m' /\ token_change n m m' b b.
Proof.
  intros NM L Hd Hs m'. subst m'. split.
  - apply map_Forall_insert_2; [exact (NM _ _ L)|done].
  - intros x. unfold active_token. simpl.
    destruct (decide (x = name)) as [->|N]; [|rewrite lookup_insert_ne by done; by auto].
    rewrite lookup_insert_eq, L. simpl. destruct Hs as [->| ->]; [rewrite Hd by done|]; auto.
Qed.
Lemma begin_drain_step n name m (b : B) :
  names_ok m -> names_ok (singleton_begin_drain name m).2 /\ token_change n m (singleton_begin_drain name m).2 b b.
Proof.
  intros NM. unfold singleton_begin_drain. repeat case_match; simpl; try by (split; [done|intros x; auto]).
  eapply drain_step; eauto. intros _. by eapply bool_decide_eq_true_1.
Qed.
Lemma complete_drain_step n name m (b : B) :
  names_ok m -> names_ok (singleton_complete_drain name m).2 /\ token_change n m (singleton_complete_drain name m).2 b b.
Proof.
  intros NM. unfold singleton_complete_drain. repeat case_match; simpl; try by (split; [done|intros x; auto]).
  eapply drain_step; eauto. done.
Qed.
Lemma drain_self name m : self_node (singleton_begin_drain name m).2 = self_node m /\ self_node (singleton_complete_drain name m).2 = self_node m.
Proof. unfold singleton_begin_drain, singleton_complete_drain. split; repeat case_match; done. Qed.
Lemma register_self id m : self_node (register_singleton id m) = self_node m.
Proof. unfold register_singleton. by case_match. Qed.

Lemma sys_step_inv s s' : sys_step s s' -> sys_inv s -> sys_inv s'.
Proof.
  intros St I. pose proof (si_backend _ I) as IB.
  destruct St as [s n m a alive now name m' a' b' L Hm E|s n m a id L|s n m a name L|s n m a name L|s b' Ev].
  - destruct (si_nodes _ I _ _ _ L) as (S1 & S2 & NM).
    destruct (manage_one_spec _ _ _ _ _ _ _ _ _ _ IB Hm S1 S2 NM E) as (? & ? & ? & ? & ?).
    by eapply sys_inv_update.
  - destruct (si_nodes _ I _ _ _ L) as (S1 & S2 & NM).
    eapply sys_inv_update; eauto using evolves_refl, register_names, register_tokens. by rewrite register_self.
  - destruct (si_nodes _ I _ _ _ L) as (S1 & S2 & NM), (begin_drain_step n name m (sys_backend s) NM).
    eapply sys_inv_update; eauto using evolves_refl. by rewrite (proj1 (drain_self name m)).
  - destruct (si_nodes _ I _ _ _ L) as (S1 & S2 & NM), (complete_drain_step n name m (sys_backend s) NM).
    eapply sys_inv_update; eauto using evolves_refl. by rewrite (proj2 (drain_self name m)).
  - destruct Ev as (Ib & Lb & Ev), I as [_ IN IT ID IF]. split; simpl; [done|done| |exact ID|].
    + intros n name t T. specialize (IT _ _ _ T). lia.
    + intros n o name t k Hh T No. destruct (Ev _ _ _ Hh) as [Hp|Hf]; [exact (IF _ _ _ _ _ Hp T No)|].
      pose proof (IT _ _ _ T). lia.
Qed.

Lemma sys_initial_inv s : sys_initial s -> sys_inv s.
Proof.
  intros [IB IN].
  assert (T : forall n name, acting_token s n name = None).
  { intros n name. unfold acting_token. destruct (sys_nodes s !! n) as [[m a]|] eqn:L; [|done].
    destruct (IN _ _ _ L) as (-> & _ & _). done. }
  split; [done| | | |].
  - intros n m a L. destruct (IN _ _ _ L) as (-> & ? & _). done.
  - intros n name t. by rewrite T.
  - intros n1 n2 name t. by rewrite T.
  - intros n o name t k _. by rewrite T.
Qed.

Lemma sys_reachable_inv s s' : sys_initial s -> rtc sys_step s s' -> sys_inv s'.
Proof.
  intros I R. apply sys_initial_inv in I. induction R; [done|]. eauto using sys_step_inv.
Qed.

(** C26. The nodes that act as a singleton's owner are fenced from each other on every
    run of any number of nodes over one backend: their tokens are different and
    positive, and the token of the lease is above the token of every other node
    that has not noticed the loss of its lease. *)
Theorem singleton_fencing s s' :
  sys_initial s -> rtc sys_step s s' ->
  (forall n1 n2 name t, acting_token s' n1 name = Some t -> acting_token s' n2 name = Some t -> n1 = n2) /\
  (forall n name t, acting_token s' n name = Some t -> 0 < t < token_bound (sys_backend s')) /\
  (forall n o name t k, holder (sys_backend s') name = Some (o, k) -> acting_token s' n name = Some t -> n <> o -> t < k).
Proof.
  intros I R. destruct (sys_reachable_inv _ _ I R) as [_ _ IT ID IF]. auto.
Qed.
End System.

(** ** A run of two nodes *)

Definition node_a : SingletonManager * BackendAdapter := (mkManager "a" ∅, mkAdapter "a" 10 ∅).
Definition node_b : SingletonManager * BackendAdapter := (mkManager "b" ∅, mkAdapter "b" 10 ∅).
Definition two_nodes : System (B := FakeLeadershipBackend) :=
  mkSystem (<["a" := node_a]> (<["b" := node_b]> ∅)) fake_init.
Definition the_singleton : SingletonIdentity := mkSingleton "s" 0.

(** One command of the run, executed. *)
Inductive Command :=
| CManage (n : string) | CRegister (n : string) | CGrant (o : string).
Definition run_command (s : System) (c : Command) : System :=
  match c with
  | CManage n =>
      match sys_nodes s !! n with
      | Some (m, a) =>
          let '(m', (a', b')) := on_node_state_change ["a"; "b"] 0 ["s"] (m, (a, sys_backend s)) in
          mkSystem (<[n := (m', a')]> (sys_nodes s)) b'
      | None => s
      end
  | CRegister n =>
      match sys_nodes s !! n with
      | Some (m, a) => mkSystem (<[n := (register_singleton the_singleton m, a)]> (sys_nodes s)) (sys_backend s)
      | None => s
      end
  | CGrant o => mkSystem (sys_nodes s) (force_grant "s" o 10 0 (sys_backend s))
  end.
Definition run_commands : list Command -> System -> System := flip (foldl run_command).

Lemma run_command_step s c :
  sys_inv s -> token_bound (sys_backend s) < max_token -> rtc sys_step s (run_command s c).
Proof.
  intros I Hm. pose proof (si_backend _ I) as Ib. destruct c as [n|n|o]; cbn [run_command].
  - destruct (sys_nodes s !! n) as [[m a]|] eqn:L; [|done]. unfold on_node_state_change.
    cbn [foldl]. destruct (manage_one ["a"; "b"] 0 (m, (a, sys_backend s)) "s") as [m' [a' b']] eqn:E.
    apply rtc_once. by eapply step_manage.
  - destruct (sys_nodes s !! n) as [[m a]|] eqn:L; [|done]. apply rtc_once. by eapply step_register.
  - apply rtc_once, step_backend. by apply force_grant_evolves.
Qed.

(** The backend has a token left before every command. *)
Fixpoint tokens_left (cs : list Command) (s : System) : bool :=
  match cs with
  | [] => true
  | c :: cs => (next_token (sys_backend s) <? max_token) && tokens_left cs (run_command s c)
  end.

Lemma run_commands_steps cs s : sys_inv s -> tokens_left cs s = true -> rtc sys_step s (run_commands cs s).
Proof.
  revert s. induction cs as [|c cs IH]; intros s I; [done|].
  cbn [tokens_left]. intros [Hm Ht]%andb_true_iff. apply Z.ltb_lt in Hm.
  assert (rtc sys_step s (run_command s c)) as R by (by apply run_command_step).
  etransitivity; [exact R|]. apply (IH (run_command s c)); [|done].
  clear -I R. induction R; eauto using sys_step_inv.
Qed.

Lemma two_nodes_initial : sys_initial two_nodes.
Proof.
  split; [split; [vm_compute; split; congruence|apply map_Forall_empty]|].
  intros n m a. unfold two_nodes, node_a, node_b. simpl.
  intros [[<- [= <- <-]]|[_ [[<- [= <- <-]]|[_ [=]]]%lookup_insert_Some]]%lookup_insert_Some; done.
Qed.
Lemma two_nodes_reach cs : tokens_left cs two_nodes = true -> rtc sys_step two_nodes (run_commands cs two_nodes).
Proof. apply run_commands_steps, sys_initial_inv, two_nodes_initial. Qed.

(** Node [a] is granted the singleton and activates it, then [b] is granted it
    and activates it while [a] has not noticed. *)
Definition takeover : list Command :=
  [CGrant "a"; CRegister "a"; CRegister "b"; CManage "a"; CGrant "b"; CManage "b"].

Lemma singleton_fencing_witness :
  let s := run_commands takeover two_nodes in
  acting_token s "a" "s" = Some 1 /\ acting_token s "b" "s" = Some 2 /\
  holder (sys_backend s) "s" = Some ("b", 2) /\ 1 < 2.
Proof.
  split; [vm_compute; reflexivity|]. split; [vm_compute; reflexivity|]. split; [vm_compute; reflexivity|].
  refine (proj2 (proj2 (singleton_fencing two_nodes _ two_nodes_initial (two_nodes_reach takeover _)))
            "a" "b" "s" 1 2 _ _ _); [vm_compute; reflexivity..|discriminate].
Defined.

(** A node that is active when its lease is lost and granted to it again, without
    an election in between, keeps its first token: [a] holds the lease with token
    3 and acts with token 1, below the token 2 of [b], which has lost the lease. *)
Theorem active_node_keeps_stale_token :
  let s := run_commands (takeover ++ [CGrant "a"; CManage "a"]) two_nodes in
  rtc sys_step two_nodes s /\
  holder (sys_backend s) "s" = Some ("a", 3) /\ acting_token s "a" "s" = Some 1 /\ acting_token s "b" "s" = Some 2.
Proof.
  split; [apply two_nodes_reach; vm_compute; reflexivity|]. split; [vm_compute; reflexivity|].
  split; vm_compute; reflexivity.
Qed.

(** ** Elections *)

Lemma string_ltb_ot a b : String.ltb a b = true <-> String_as_OT.lt a b.
Proof.
  unfold String.ltb, String_as_OT.lt. change (String_as_OT.compare a b) with (String.compare a b).
  by destruct (String.compare a b).
Qed.
Lemma string_ltb_trans a b c : String.ltb a b = true -> String.ltb b c = true -> String.ltb a c = true.
Proof. rewrite !string_ltb_ot. apply String_as_OT.lt_strorder. Qed.
Lemma string_ltb_irrefl a : String.ltb a a = false.
Proof.
  destruct (String.ltb a a) eqn:E; [|done]. apply string_ltb_ot in E.
  by apply (StrictOrder_Irreflexive (R := String_as_OT.lt)) in E.
Qed.
Lemma string_ltb_total a b : String.ltb a b = true \/ a = b \/ String.ltb b a = true.
Proof. rewrite !string_ltb_ot. destruct (String_as_OT.compare_spec a b); auto. Qed.
(** [a] is not above [b], and [b] not above [c]. *)
Lemma string_ltb_false_trans a b c : String.ltb b a = false -> String.ltb c b = false -> String.ltb c a = false.
Proof.
  intros H1 H2. destruct (String.ltb c a) eqn:E; [|done].
  destruct (string_ltb_total c b) as [H|[->|H]]; [congruence|congruence|].
  by rewrite (string_ltb_trans _ _ _ H E) in H1.
Qed.

Definition least (w : string) (l : list string) : Prop := w ∈ l /\ forall x, x ∈ l -> String.ltb x w = false.
Lemma least_unique w1 w2 l : least w1 l -> least w2 l -> w1 = w2.
Proof.
  intros [I1 L1] [I2 L2]. destruct (string_ltb_total w1 w2) as [H|[H|H]]; [|done|].
  - by rewrite (L2 _ I1) in H.
  - by rewrite (L1 _ I2) in H.
Qed.

Lemma oldest_fold n l : least (foldl oldest_step n l) (n :: l).
Proof.
  induction l as [|x l IH] using rev_ind; simpl.
  - split; [by left|]. intros x ->%list_elem_of_singleton. apply string_ltb_irrefl.
  - rewrite foldl_app. simpl. destruct IH as [I L]. set (b := foldl oldest_step n l) in *. unfold oldest_step.
    destruct (String.ltb x b) eqn:E; split.
    + set_solver.
    + intros y Hy. assert (y ∈ n :: l \/ y = x) as [H| ->] by set_solver; [|apply string_ltb_irrefl].
      apply (string_ltb_false_trans _ b); [|by apply L].
      destruct (String.ltb b x) eqn:E2; [|done]. by rewrite <- (string_ltb_irrefl x), (string_ltb_trans _ _ _ E E2).
    + set_solver.
    + intros y Hy. assert (y ∈ n :: l \/ y = x) as [H| ->] by set_solver; [by apply L|done].
Qed.

Lemma oldest_elect_spec alive w : oldest_elect alive = Some w <-> least w alive.
Proof.
  destruct alive as [|n l]; simpl.
  - split; [done|]. by intros [?%elem_of_nil _].
  - split; [intros [= <-]; apply oldest_fold|]. intros H. f_equal.
    exact (least_unique _ _ _ (oldest_fold n l) H).
Qed.

(** The fixed-priority winner: above the lowest [int], with the highest priority
    and, among equals, the lowest name. *)
Definition top_priority (priorities : gmap string Z) (w : string) (l : list string) : Prop :=
  w ∈ l /\ exists p, priorities !! w = Some p /\ INT_MIN < p /\
  forall x q, x ∈ l -> priorities !! x = Some q -> q < p \/ q = p /\ String.ltb x w = false.

Lemma priority_fold priorities l :
  match foldl (priority_step priorities) (INT_MIN, None) l with
  | (bp, None) => bp = INT_MIN /\ forall x q, x ∈ l -> priorities !! x = Some q -> q <= INT_MIN
  | (bp, Some w) => w ∈ l /\ priorities !! w = Some bp /\ INT_MIN < bp /\
      forall x q, x ∈ l -> priorities !! x = Some q -> q < bp \/ q = bp /\ String.ltb x w = false
  end.
Proof.
  induction l as [|x l IH] using rev_ind; simpl; [split; [done|]; by intros x q ?%elem_of_nil|].
  rewrite foldl_app. simpl. destruct (foldl _ _ l) as [bp [w|]]; unfold priority_step.
  - destruct IH as (I & P & B & A).
    assert (K : forall bp' w', (forall y q, y ∈ l -> priorities !! y = Some q -> q < bp' \/ q = bp' /\ String.ltb y w' = false) ->
              (forall q, priorities !! x = Some q -> q < bp' \/ q = bp' /\ String.ltb x w' = false) ->
              forall y q, y ∈ l ++ [x] -> priorities !! y = Some q -> q < bp' \/ q = bp' /\ String.ltb y w' = false).
    { intros bp' w' H1 H2 y q [Hy|Hy%list_elem_of_singleton]%elem_of_app; [by apply H1|subst; by apply H2]. }
    destruct (priorities !! x) as [p|] eqn:E.
    2:{ split; [set_solver|]. split; [done|]. split; [done|]. apply K; [done|]. by intros q ?. }
    destruct (Z.ltb_spec bp p) as [Hp|Hp]; simpl.
    + split; [set_solver|]. split; [done|]. split; [lia|]. apply K.
      * intros y q Hy Hq. specialize (A _ _ Hy Hq). lia.
      * intros q [= <-]. right. split; [done|apply string_ltb_irrefl].
    + destruct (Z.eqb_spec p bp) as [->|Np]; simpl; [destruct (String.ltb x w) eqn:W|].
      * split; [set_solver|]. split; [done|]. split; [lia|]. apply K.
        -- intros y q Hy Hq. destruct (A _ _ Hy Hq) as [?|[? Hw]]; [by left|right; split; [done|]].
           apply (string_ltb_false_trans _ w); [|done].
           destruct (String.ltb w x) eqn:E2; [|done]. by rewrite <- (string_ltb_irrefl x), (string_ltb_trans _ _ _ W E2).
        -- intros q [= <-]. right. split; [done|apply string_ltb_irrefl].
      * split; [set_solver|]. split; [done|]. split; [lia|]. apply K; [done|]. intros q [= <-]. auto.
      * split; [set_solver|]. split; [done|]. split; [lia|]. apply K; [done|]. intros q [= <-]. left. lia.
  - destruct IH as [-> A].
    assert (A' : (forall q, priorities !! x = Some q -> q <= INT_MIN) ->
      forall y q, y ∈ l ++ [x] -> priorities !! y = Some q -> q <= INT_MIN).
    { intros H y q [Hy|Hy%list_elem_of_singleton]%elem_of_app; [by apply A|subst; by apply H]. }
    destruct (priorities !! x) as [p|] eqn:E; [|split; [done|]; apply A'; by intros].
    destruct (Z.ltb_spec INT_MIN p) as [Hp|Hp]; simpl.
    + split; [set_solver|]. split; [done|]. split; [done|].
      intros y q [Hy|Hy%list_elem_of_singleton]%elem_of_app Hq.
      * specialize (A _ _ Hy Hq). lia.
      * subst y. assert (q = p) as -> by congruence. right. split; [done|apply string_ltb_irrefl].
    + rewrite andb_false_r. split; [done|]. apply A'. intros q [= <-]. lia.
Qed.

Lemma priority_elect_spec priorities alive w :
  priority_elect priorities alive = Some w <-> top_priority priorities w alive.
Proof.
  unfold priority_elect. pose proof (priority_fold priorities alive) as F.
  destruct (foldl _ _ alive) as [bp [v|]]; simpl; split.
  - intros [= <-]. destruct F as (I & P & B & A). split; [done|]. by exists bp.
  - destruct F as (I & P & B & A). intros (Iw & p & Pw & Bw & Aw). f_equal.
    destruct (A _ _ Iw Pw) as [|[-> H1]], (Aw _ _ I P) as [|[? H2]]; try lia.
    destruct (string_ltb_total v w) as [L|[L|L]]; congruence.
  - done.
  - intros (Iw & p & Pw & Bw & _). destruct F as [_ A]. specialize (A _ _ Iw Pw). lia.
Qed.

(** The votes of the alive nodes for a candidate. *)
Definition vote_count (vs : gmap string string) (c : string) (l : list string) : Z :=
  zlen (filter (fun n => vs !! n = Some c) l).

Lemma tally_spec vs alive c k :
  tally vs alive !! c = Some k <-> c ∈ alive /\ 0 < k /\ k = vote_count vs c alive.
Proof.
  unfold tally. generalize alive at 2 4 as l. intros l. revert k.
  induction l as [|n l IH] using rev_ind; intros k; simpl.
  { rewrite lookup_empty. unfold vote_count, zlen. simpl. split; [done|lia]. }
  rewrite foldl_app. simpl. unfold tally_step at 1, vote_count. rewrite filter_app. unfold zlen.
  rewrite length_app, Nat2Z.inj_add. fold (zlen (filter (fun n => vs !! n = Some c) l)). fold (vote_count vs c l).
  destruct (vs !! n) as [d|] eqn:E.
  2:{ rewrite filter_cons_False by congruence. simpl. rewrite Z.add_0_r. apply IH. }
  destruct (decide (d = c)) as [->|N].
  - rewrite filter_cons_True by done. simpl. case_bool_decide as Hc.
    + rewrite lookup_insert_eq. destruct (foldl _ _ l !! c) as [j|] eqn:T; simpl.
      * destruct (proj1 (IH j) eq_refl) as (_ & ? & ->). split; [intros [= <-]; split; [done|lia] | intros (_ & _ & ->); done].
      * assert (vote_count vs c l = 0) as ->.
        { destruct (decide (0 < vote_count vs c l)) as [Hp|Hp]; [|unfold vote_count, zlen in *; lia].
          discriminate (proj2 (IH (vote_count vs c l)) (conj Hc (conj Hp eq_refl))). }
        split; [intros [= <-]; split; [done|lia] | intros (_ & _ & ->); done].
    + rewrite IH. naive_solver.
  - rewrite filter_cons_False by congruence. simpl. rewrite Z.add_0_r.
    case_bool_decide; [rewrite lookup_insert_ne by done|]; apply IH.
Qed.

Lemma vote_counts_disjoint vs c d l : c <> d -> vote_count vs c l + vote_count vs d l <= zlen l.
Proof.
  intros N. unfold vote_count, zlen. induction l as [|n l IH]; simpl; [lia|].
  rewrite !filter_cons. repeat case_decide; simpl; try congruence; lia.
Qed.

(** The scan of the tally finds the candidate of a majority, in any order. *)
Definition majority_winner (vs : gmap string string) (alive : list string) (c : string) : Prop :=
  c ∈ alive /\ majority_threshold alive <= vote_count vs c alive.

Lemma majority_unique vs alive c d : majority_winner vs alive c -> majority_winner vs alive d -> c = d.
Proof.
  intros [_ Hc] [_ Hd]. destruct (decide (c = d)) as [|N]; [done|].
  pose proof (vote_counts_disjoint vs c d alive N). unfold majority_threshold in *.
  pose proof (Z.div_mod (zlen alive) 2 ltac:(lia)). pose proof (Z.mod_pos_bound (zlen alive) 2 ltac:(lia)). lia.
Qed.

Section MajoritySpec.
Context (order_tally : gmap string Z -> list (string * Z))
        (order_perm : forall t, order_tally t ≡ₚ map_to_list t).

Lemma majority_elect_spec name alive m c :
  majority_elect order_tally name alive m = Some c <->
  exists vs, votes m !! name = Some vs /\ majority_winner vs alive c.
Proof.
  unfold majority_elect. destruct alive as [|n l].
  { split; [done|]. by intros (vs & _ & ?%elem_of_nil & _). }
  set (alive := n :: l). destruct (votes m !! name) as [vs|]; [|split; [done|naive_solver]].
  assert (T : 0 < majority_threshold alive).
  { unfold majority_threshold. pose proof (Z.div_pos (zlen alive) 2). unfold zlen in *. lia. }
  assert (M : forall d k, (d, k) ∈ order_tally (tally vs alive) ->
            majority_threshold alive <= k -> majority_winner vs alive d).
  { intros d k Hd Hk. rewrite order_perm, elem_of_map_to_list, tally_spec in Hd.
    destruct Hd as (Hi & _ & ->). by split. }
  destruct (list_find _ _) as [[i [d k]]|] eqn:F; simpl.
  - apply list_find_Some in F as (Hi & Hk & _). apply list_elem_of_lookup_2 in Hi.
    pose proof (M _ _ Hi Hk) as W. split; [intros [= <-]; eauto|].
    intros (vs' & [= <-] & W'). by rewrite (majority_unique _ _ _ _ W W').
  - split; [done|]. intros (vs' & [= <-] & [Hi Hc]). apply list_find_None in F.
    rewrite Forall_forall in F. exfalso. apply (F (c, vote_count vs c alive)); [|done].
    rewrite order_perm, elem_of_map_to_list, tally_spec. split; [done|]. split; [lia|done].
Qed.
End MajoritySpec.

Lemma option_ext_iff {A} (x y : option A) : (forall a, x = Some a <-> y = Some a) -> x = y.
Proof. intros H. apply option_eq. exact H. Qed.

(** Nodes that see the same nodes alive elect the same owner, in whatever order
    each of them lists the nodes or walks its tally: the lowest name, the highest
    priority with ties to the lowest name, or the one candidate with more than
    half of the votes. *)
Theorem elections_agree priorities order1 order2 name m alive1 alive2 :
  alive1 ≡ₚ alive2 ->
  (forall t, order1 t ≡ₚ map_to_list t) -> (forall t, order2 t ≡ₚ map_to_list t) ->
  oldest_elect alive1 = oldest_elect alive2 /\
  priority_elect priorities alive1 = priority_elect priorities alive2 /\
  majority_elect order1 name alive1 m = majority_elect order2 name alive2 m.
Proof.
  intros P O1 O2. split; [|split]; apply option_ext_iff; intros w.
  - rewrite !oldest_elect_spec. unfold least. by setoid_rewrite P.
  - rewrite !priority_elect_spec. unfold top_priority. by setoid_rewrite P.
  - rewrite !majority_elect_spec by done. unfold majority_winner, majority_threshold, vote_count, zlen.
    by setoid_rewrite P.
Qed.

Lemma elections_agree_witness :
  let vs := <["s" := <["a" := "b"]> (<["b" := "b"]> (<["c" := "a"]> ∅))]> ∅ in
  oldest_elect ["b"; "a"; "c"] = Some "a" /\
  priority_elect (<["b" := 5]> (<["c" := 5]> ∅)) ["c"; "a"; "b"] = Some "b" /\
  majority_elect map_to_list "s" ["a"; "b"; "c"] (mkMajority vs ∅) =
    majority_elect (fun t => reverse (map_to_list t)) "s" ["c"; "b"; "a"] (mkMajority vs ∅) /\
  majority_elect map_to_list "s" ["a"; "b"; "c"] (mkMajority vs ∅) = Some "b".
Proof.
  split; [vm_compute; reflexivity|]. split; [vm_compute; reflexivity|]. split; [|vm_compute; reflexivity].
  refine (proj2 (proj2 (elections_agree ∅ _ _ "s" _ ["a"; "b"; "c"] ["c"; "b"; "a"] _ _ _))).
  - symmetry. apply (reverse_Permutation ["a"; "b"; "c"]).
  - intros t. reflexivity.
  - intros t. apply reverse_Permutation.
Defined.
