(* ===== verification/Sharding.v ===== *)
(** * Shards

    [cluster/sharding]: the table of shard owners with its epochs, the two
    placement strategies, the coordinator and the handoff of one shard.
    [std::hash] on strings is an argument, as is the iteration order of the
    hash maps.  The theorems: a rebalance over live nodes gives every shard the
    live node of highest weight in a new epoch, a node that leaves moves only
    its own shards, a published entry is taken exactly when its epoch is newer;
    and where epochs fail: a rebalance with no node resets them. *)

From S2P Require Import Prelude Endpoint Singleton.
From Stdlib Require Import String.
From stdpp Require Import base numbers list strings gmap.

#[local] Open Scope Z_scope.

(** ** The table *)

Record ShardEntry := mkShardEntry { se_shard : Z; owner_node : string; se_epoch : Z }.

Record ShardTable := mkShardTable { st_entries : gmap Z ShardEntry; current_epoch : Z }.

Definition shard_table_init : ShardTable := mkShardTable ∅ 0.
Definition st_lookup (shard : Z) (t : ShardTable) : option ShardEntry := st_entries t !! shard.

(** [it != end() && it->second.epoch >= epoch]. *)
Definition is_stale (shard epoch : Z) (t : ShardTable) : bool :=
  match st_entries t !! shard with Some e => epoch <=? se_epoch e | None => false end.

Definition st_update (shard : Z) (owner : string) (epoch : Z) (t : ShardTable) : ShardTable :=
  if is_stale shard epoch t then t
  else mkShardTable (<[shard := mkShardEntry shard owner epoch]> (st_entries t))
         (if current_epoch t <? epoch then epoch else current_epoch t).

Definition invalidate_for_node (nid : string) (t : ShardTable) : ShardTable :=
  mkShardTable (filter (fun '(_, e) => owner_node e <> nid) (st_entries t)) (current_epoch t).

Definition st_clear (t : ShardTable) : ShardTable := mkShardTable ∅ 0.

(** ** Placement *)

Section Sharding.
Context (hash_string : string -> Z).
Context (order_entries : gmap Z ShardEntry -> list (Z * ShardEntry)).
Context (order_plan : gmap Z string -> list (Z * string)).

Definition resolve_shard (persistence_id : string) (total_shards : Z) : Z :=
  if total_shards =? 0 then 0 else u32 (hash_string persistence_id mod total_shards).

(** [std::hash] of ["<shard>:<node>"]. *)
Definition weight (shard : Z) (node : string) : Z :=
  hash_string (print_digits 10 shard EmptyString +:+ ":" +:+ node).

(** The inner loop of [RendezvousHash::plan]. *)
Definition best_step (shard : Z) (acc : Z * string) (node : string) : Z * string :=
  let '(max_weight, best) := acc in
  let w := weight shard node in
  if max_weight <? w then (w, node) else acc.
Definition best_node (shard : Z) (alive : list string) : string :=
  (foldl (best_step shard) (0, EmptyString) alive).2.

Definition rendezvous_plan (shards : list Z) (alive : list string) : gmap Z string :=
  match alive with
  | [] => ∅
  | _ => foldl (fun m s => <[s := best_node s alive]> m) ∅ shards
  end.

Definition set_mapping (shard : Z) (node : string) (mapping : gmap Z string) : gmap Z string :=
  <[shard := node]> mapping.
Definition static_step (mapping : gmap Z string) (alive : list string) (m : gmap Z string) (s : Z) : gmap Z string :=
  match mapping !! s with
  | None => m
  | Some node => if bool_decide (node ∈ alive) then <[s := node]> m else m
  end.
Definition static_plan (mapping : gmap Z string) (shards : list Z) (alive : list string) : gmap Z string :=
  foldl (static_step mapping alive) ∅ shards.

(** [IPlacementStrategy::plan]. *)
Definition Strategy : Type := list Z -> list string -> list ShardEntry -> gmap Z string.
Definition rendezvous : Strategy := fun shards alive _ => rendezvous_plan shards alive.
Definition static_placement (mapping : gmap Z string) : Strategy := fun shards alive _ => static_plan mapping shards alive.

(** ** The coordinator *)

Record ShardCoordinator := mkCoordinator {
  total_shards : Z;
  strategy : Strategy;
  shard_table : ShardTable;
  registered_actors : gset string;
  active_lease : option LeadershipLease
}.

Definition coordinator_init (total : Z) (s : Strategy) : ShardCoordinator :=
  mkCoordinator total s shard_table_init ∅ None.
Definition set_shard_table (c : ShardCoordinator) (t : ShardTable) : ShardCoordinator :=
  mkCoordinator (total_shards c) (strategy c) t (registered_actors c) (active_lease c).

Definition register_actor (persistence_id owner : string) (c : ShardCoordinator) : ShardCoordinator :=
  if bool_decide (persistence_id ∈ registered_actors c) then c
  else
    let shard := resolve_shard persistence_id (total_shards c) in
    let new_epoch := u64 (current_epoch (shard_table c) + 1) in
    mkCoordinator (total_shards c) (strategy c) (st_update shard owner new_epoch (shard_table c))
      ({[persistence_id]} ∪ registered_actors c) (active_lease c).

Definition unregister_actor (persistence_id : string) (c : ShardCoordinator) : ShardCoordinator :=
  mkCoordinator (total_shards c) (strategy c) (shard_table c) (registered_actors c ∖ {[persistence_id]})
    (active_lease c).

Definition is_actor_registered (persistence_id : string) (c : ShardCoordinator) : bool :=
  bool_decide (persistence_id ∈ registered_actors c).

Definition get_shard_owner (shard : Z) (c : ShardCoordinator) : string :=
  match st_lookup shard (shard_table c) with Some e => owner_node e | None => EmptyString end.

(** The loop over the assignments. *)
Definition publish_plan (epoch : Z) (plan : list (Z * string)) (t : ShardTable) : ShardTable :=
  foldl (fun t '(s, o) => st_update s o epoch t) t plan.

Definition all_shards (total : Z) : list Z := seqZ 0 total.

Definition rebalance (alive : list string) (c : ShardCoordinator) : ShardCoordinator :=
  match alive with
  | [] => set_shard_table c (st_clear (shard_table c))
  | _ =>
      let plan := strategy c (all_shards (total_shards c)) alive (map snd (order_entries (st_entries (shard_table c)))) in
      let new_epoch := u64 (current_epoch (shard_table c) + 1) in
      set_shard_table c (publish_plan new_epoch (order_plan plan) (shard_table c))
  end.

Definition set_active_lease (l : LeadershipLease) (c : ShardCoordinator) : ShardCoordinator :=
  mkCoordinator (total_shards c) (strategy c) (shard_table c) (registered_actors c) (Some l).
Definition clear_active_lease (c : ShardCoordinator) : ShardCoordinator :=
  mkCoordinator (total_shards c) (strategy c) (shard_table c) (registered_actors c) None.
Definition validate_token (token : Z) (singleton : string) (c : ShardCoordinator) : bool :=
  match active_lease c with
  | None => false
  | Some l => bool_decide (singleton_name l = singleton) && (token =? fencing_token l)
  end.

(** ** Handoff *)

Inductive HandoffState := HOwned | HDraining | HTransferring | HRecovering | HActive.
Record ShardHandoff := mkHandoff { h_shard : Z; h_state : HandoffState; h_new_owner : string }.
Definition handoff_init (shard : Z) : ShardHandoff := mkHandoff shard HOwned EmptyString.

Inductive HandoffOp := HBeginDrain | HCompleteDrain | HBeginRecovery (new_owner : string) | HActivate | HAbort.
Definition handoff_op (o : HandoffOp) (h : ShardHandoff) : bool * ShardHandoff :=
  match o, h_state h with
  | HBeginDrain, HOwned => (true, mkHandoff (h_shard h) HDraining (h_new_owner h))
  | HCompleteDrain, HDraining => (true, mkHandoff (h_shard h) HTransferring (h_new_owner h))
  | HBeginRecovery n, HTransferring => (true, mkHandoff (h_shard h) HRecovering n)
  | HActivate, HRecovering => (true, mkHandoff (h_shard h) HActive (h_new_owner h))
  | HAbort, HDraining => (true, mkHandoff (h_shard h) HOwned (h_new_owner h))
  | _, _ => (false, h)
  end.

(** ** Rendezvous hashing *)

(** The first node of the list with the highest positive weight. *)
Definition winner (shard : Z) (alive : list string) (b : string) : Prop :=
  exists l1 l2, alive = l1 ++ b :: l2 /\ 0 < weight shard b /\
    Forall (fun n => weight shard n < weight shard b) l1 /\ Forall (fun n => weight shard n <= weight shard b) l2.

Lemma best_fold shard l w b :
  (Forall (fun n => weight shard n <= w) l -> foldl (best_step shard) (w, b) l = (w, b)) /\
  (forall x l1 l2, l = l1 ++ x :: l2 -> w < weight shard x -> Forall (fun n => weight shard n < weight shard x) l1 ->
   Forall (fun n => weight shard n <= weight shard x) l2 ->
   foldl (best_step shard) (w, b) l = (weight shard x, x)).
Proof.
  revert w b. induction l as [|n l IH]; intros w b.
  { split; [done|]. intros x [|y l1] l2 E; simpl in E; discriminate. }
  cbn [foldl]. unfold best_step at 2 4. split.
  - intros [Hn Hl]%Forall_cons. rewrite (proj2 (Z.ltb_ge _ _)) by lia. by apply IH.
  - intros x [|y l1] l2 E Hw H1 H2; simpl in E; simplify_eq.
    + rewrite (proj2 (Z.ltb_lt _ _)) by lia. by apply IH.
    + apply Forall_cons in H1 as [Hy H1]. destruct (w <? weight shard y) eqn:Ew; by eapply IH.
Qed.

Lemma winner_best shard alive b : winner shard alive b -> best_node shard alive = b.
Proof.
  intros (l1 & l2 & E & Hpos & H1 & H2). unfold best_node.
  rewrite (proj2 (best_fold shard alive 0 EmptyString) b l1 l2 E); done.
Qed.

Lemma best_exists shard alive :
  (exists n, n ∈ alive /\ 0 < weight shard n) -> exists b, winner shard alive b.
Proof.
  induction alive as [|n alive IH]; [by intros (? & ?%elem_of_nil & _)|].
  intros (x & Hx & Hpos). destruct (decide (Forall (fun y => weight shard y <= 0) alive)) as [Hall|Hall].
  - exists n, [], alive. split_and!; [done| |constructor|].
    + apply elem_of_cons in Hx as [->|Hx]; [done|]. rewrite Forall_forall in Hall. specialize (Hall _ Hx). simpl in Hall. lia.
    + apply elem_of_cons in Hx as [->|Hx].
      * eapply Forall_impl; [exact Hall|]. simpl. intros. lia.
      * rewrite Forall_forall in Hall. specialize (Hall _ Hx). simpl in Hall. lia.
  - apply not_Forall_Exists in Hall; [|apply _]. apply Exists_exists in Hall as (y & Hy & Hyp).
    destruct IH as (b & l1 & l2 & E & Hb & H1 & H2); [exists y; split; [done|]; simpl in Hyp; lia|].
    destruct (decide (weight shard n < weight shard b)).
    + exists b, (n :: l1), l2. split_and!; [by rewrite E|done|by constructor|done].
    + exists n, [], alive. split_and!; [done|lia|constructor|]. rewrite E. apply Forall_app. split.
      * eapply Forall_impl; [exact H1|]. simpl. intros. lia.
      * constructor; [lia|]. eapply Forall_impl; [exact H2|]. simpl. intros. lia.
Qed.

Lemma winner_filter shard alive b x :
  winner shard alive b -> b <> x -> winner shard (filter (fun n => n <> x) alive) b.
Proof.
  intros (l1 & l2 & -> & Hpos & H1 & H2) Hne. exists (filter (fun n => n <> x) l1), (filter (fun n => n <> x) l2).
  assert (Hsub : forall (P : string -> Prop) l, Forall P l -> Forall P (filter (fun n => n <> x) l)).
  { intros P l Hl. rewrite Forall_forall in Hl |- *. intros n [_ Hn]%list_elem_of_filter. by apply Hl. }
  split_and!; [|done|by apply Hsub|by apply Hsub].
  rewrite filter_app, filter_cons. by rewrite decide_True.
Qed.

Lemma winner_in shard alive b : winner shard alive b -> b ∈ alive /\ forall n, n ∈ alive -> weight shard n <= weight shard b.
Proof.
  intros (l1 & l2 & -> & _ & H1 & H2). rewrite Forall_forall in H1, H2. split; [set_solver|].
  intros n. rewrite elem_of_app, elem_of_cons. intros [Hn|[->|Hn]]; [apply H1 in Hn; lia|done|by apply H2].
Qed.

(** When a node leaves, only its own shards get another owner. *)
Theorem rendezvous_minimal_movement (shard : Z) (alive : list string) (x : string) :
  (forall n, n ∈ alive -> 0 < weight shard n) -> best_node shard alive <> x -> alive <> [] ->
  best_node shard (filter (fun n => n <> x) alive) = best_node shard alive.
Proof.
  intros Hpos Hne Hnil. destruct (best_exists shard alive) as (b & Hb).
  { destruct alive as [|n l]; [done|]. exists n. split; [left|]. apply Hpos. left. }
  rewrite (winner_best _ _ _ Hb) in *. by apply winner_best, winner_filter.
Qed.

(** ** Tables *)

(** No entry is newer than the table's epoch. *)
Definition table_ok (t : ShardTable) : Prop :=
  0 <= current_epoch t /\
  forall s e, st_entries t !! s = Some e -> se_shard e = s /\ se_epoch e <= current_epoch t.

Lemma st_update_ok s o e t : table_ok t -> table_ok (st_update s o e t).
Proof.
  intros [H0 Ht]. unfold st_update. destruct (is_stale s e t); [done|].
  split; simpl; [bcase; bool_to_prop; lia|]. intros s' e' Hs'.
  destruct (decide (s = s')) as [->|Hne].
  - rewrite lookup_insert_eq in Hs'. simplify_eq. simpl. split; [done|]. bcase; bool_to_prop; lia.
  - rewrite lookup_insert_ne in Hs' by done. apply Ht in Hs' as [? ?]. split; [done|]. bcase; bool_to_prop; lia.
Qed.

Lemma publish_ok epoch plan t : table_ok t -> table_ok (publish_plan epoch plan t).
Proof. revert t. induction plan as [|[s o] plan IH]; intros t Ht; [done|]. simpl. by apply IH, st_update_ok. Qed.

Lemma not_stale s epoch t : (forall e, st_entries t !! s = Some e -> se_epoch e < epoch) -> is_stale s epoch t = false.
Proof. intros H. unfold is_stale. destruct (st_entries t !! s) as [e|]; [|done]. apply Z.leb_gt. by apply H. Qed.

(** Publishing a plan in a new epoch installs it and nothing else. *)
Lemma publish_lookup epoch plan t s :
  NoDup (map fst plan) -> (forall e, st_entries t !! s = Some e -> se_epoch e < epoch) ->
  st_entries (publish_plan epoch plan t) !! s =
  match list_find (fun p : Z * string => p.1 = s) plan with
  | Some (_, (_, o)) => Some (mkShardEntry s o epoch)
  | None => st_entries t !! s
  end.
Proof.
  revert t. induction plan as [|[k o] plan IH]; intros t; [done|]. intros [Hk Hnd]%NoDup_cons Hold.
  cbn [publish_plan foldl list_find]. fold (publish_plan epoch plan (st_update k o epoch t)).
  destruct (decide ((k, o).1 = s)) as [<-|Hne]; simpl in *.
  - assert (Hup : st_entries (st_update k o epoch t) !! k = Some (mkShardEntry k o epoch)).
    { unfold st_update. rewrite not_stale by done. apply lookup_insert_eq. }
    clear IH Hold. revert Hup. generalize (st_update k o epoch t) as t1.
    induction plan as [|[k' o'] plan IH]; intros t1 Hup; [done|]. simpl in *.
    apply NoDup_cons in Hnd as [_ Hnd]. apply IH; [set_solver|done|].
    unfold st_update. destruct (is_stale k' epoch t1); [done|]. simpl.
    rewrite lookup_insert_ne by set_solver. done.
  - assert (Hsame : st_entries (st_update k o epoch t) !! s = st_entries t !! s).
    { unfold st_update. destruct (is_stale k epoch t); [done|]. simpl. by rewrite lookup_insert_ne. }
    rewrite IH, Hsame; [|done|by rewrite Hsame]. by destruct (list_find _ plan) as [[i [k' o']]|].
Qed.

Lemma list_find_fst (l : list (Z * string)) s o :
  NoDup (map fst l) -> (s, o) ∈ l -> exists i, list_find (fun p : Z * string => p.1 = s) l = Some (i, (s, o)).
Proof.
  induction l as [|[k x] l IH]; [by intros _ ?%elem_of_nil|]. simpl. intros [Hk Hnd]%NoDup_cons Hin.
  destruct (decide (k = s)) as [->|Hne].
  - exists 0%nat. apply elem_of_cons in Hin as [[= ->]|Hin]; [done|]. exfalso. apply Hk.
    apply list_elem_of_In, in_map_iff. exists (s, o). split; [done|]. by apply list_elem_of_In.
  - apply elem_of_cons in Hin as [[= -> ->]|Hin]; [done|]. destruct (IH Hnd Hin) as (i & Hi).
    rewrite Hi. by exists (S i).
Qed.

Lemma plan_lookup (f : Z -> string) shards (m : gmap Z string) s :
  foldl (fun m s => <[s := f s]> m) m shards !! s = if bool_decide (s ∈ shards) then Some (f s) else m !! s.
Proof.
  revert m. induction shards as [|k shards IH]; intros m; [done|]. cbn [foldl]. rewrite IH.
  destruct (decide (s ∈ shards)) as [Hin|Hnin].
  - rewrite (bool_decide_eq_true_2 _ Hin). rewrite bool_decide_eq_true_2 by (by right). done.
  - rewrite (bool_decide_eq_false_2 _ Hnin). destruct (decide (s = k)) as [->|Hne].
    + rewrite lookup_insert_eq, bool_decide_eq_true_2 by left. done.
    + rewrite lookup_insert_ne, bool_decide_eq_false_2 by set_solver. done.
Qed.

Section Orders.
Context (Hplan : forall m, order_plan m ≡ₚ map_to_list m).

Lemma order_plan_find m s :
  match m !! s with
  | Some o => exists i, list_find (fun p : Z * string => p.1 = s) (order_plan m) = Some (i, (s, o))
  | None => list_find (fun p : Z * string => p.1 = s) (order_plan m) = None
  end.
Proof.
  assert (Hnd : NoDup (map fst (order_plan m))).
  { change (map fst (order_plan m)) with ((order_plan m).*1). rewrite Hplan. apply NoDup_fst_map_to_list. }
  destruct (m !! s) as [o|] eqn:E.
  - apply list_find_fst; [done|]. rewrite Hplan. by apply elem_of_map_to_list.
  - apply list_find_None. apply Forall_forall. intros [k o] Hin Hk. simpl in Hk. subst k.
    rewrite Hplan in Hin. apply elem_of_map_to_list in Hin. congruence.
Qed.

(** The owner of a shard after a rebalance over live nodes, for any strategy:
    what the plan says, in the next epoch; a shard that the plan leaves out
    keeps its entry. *)
Lemma rebalance_lookup c alive s :
  table_ok (shard_table c) -> alive <> [] -> current_epoch (shard_table c) + 1 < 18446744073709551616 ->
  let plan := strategy c (all_shards (total_shards c)) alive (map snd (order_entries (st_entries (shard_table c)))) in
  st_lookup s (shard_table (rebalance alive c)) =
  match plan !! s with
  | Some o => Some (mkShardEntry s o (current_epoch (shard_table c) + 1))
  | None => st_lookup s (shard_table c)
  end.
Proof.
  intros [H0 Hok] Hne Hmax plan. destruct alive as [|a alive]; [done|]. unfold rebalance. fold plan.
  rewrite u64_small by lia. unfold st_lookup. simpl.
  rewrite publish_lookup.
  - pose proof (order_plan_find plan s) as Hf. destruct (plan !! s) as [o|]; [|by rewrite Hf].
    destruct Hf as [i ->]. done.
  - change (map fst (order_plan plan)) with ((order_plan plan).*1). rewrite Hplan. apply NoDup_fst_map_to_list.
  - intros e He. apply Hok in He as [_ ?]. lia.
Qed.

(** A rebalance with the rendezvous strategy gives every shard a live owner, the
    one of highest weight, in a new epoch. *)
Theorem rebalance_assigns (c : ShardCoordinator) (alive : list string) (s : Z) :
  table_ok (shard_table c) -> strategy c = rendezvous -> alive <> [] ->
  current_epoch (shard_table c) + 1 < 18446744073709551616 ->
  0 <= s < total_shards c -> (forall n, n ∈ alive -> 0 < weight s n) ->
  exists o, st_lookup s (shard_table (rebalance alive c))
      = Some (mkShardEntry s o (current_epoch (shard_table c) + 1)) /\
    o ∈ alive /\ (forall n, n ∈ alive -> weight s n <= weight s o) /\
    table_ok (shard_table (rebalance alive c)).
Proof.
  intros Hok Hstrat Hne Hmax Hs Hpos. exists (best_node s alive).
  destruct (best_exists s alive) as [b Hb].
  { destruct alive as [|n l]; [done|]. exists n. split; [left|]. apply Hpos. left. }
  rewrite (winner_best _ _ _ Hb). destruct (winner_in _ _ _ Hb) as [Hin Hle]. split_and!; [|done|done|].
  - rewrite rebalance_lookup by done. rewrite Hstrat. unfold rendezvous, rendezvous_plan.
    destruct alive as [|a alive]; [done|]. rewrite plan_lookup.
    rewrite bool_decide_eq_true_2 by (unfold all_shards; apply elem_of_seqZ; lia).
    by rewrite (winner_best _ _ _ Hb).
  - destruct alive as [|a alive]; [done|]. unfold rebalance. by apply publish_ok.
Qed.

(** A shard whose configured owner is dead keeps it: a rebalance with the static
    strategy never removes an entry. *)
Theorem static_rebalance_keeps_dead_owner (c : ShardCoordinator) (mapping : gmap Z string) (alive : list string)
    (s : Z) (e : ShardEntry) :
  table_ok (shard_table c) -> strategy c = static_placement mapping -> alive <> [] ->
  current_epoch (shard_table c) + 1 < 18446744073709551616 ->
  mapping !! s = Some (owner_node e) -> owner_node e ∉ alive -> st_lookup s (shard_table c) = Some e ->
  st_lookup s (shard_table (rebalance alive c)) = Some e.
Proof.
  intros Hok Hstrat Hne Hmax Hm Hdead He. rewrite rebalance_lookup by done. rewrite Hstrat.
  unfold static_placement, static_plan.
  assert (Hnone : forall l m, m !! s = None -> foldl (static_step mapping alive) m l !! s = None).
  { induction l as [|k l IH]; intros m Hms; [done|]. cbn [foldl]. apply IH. unfold static_step.
    destruct (mapping !! k) as [o|] eqn:Ek; [|done]. bcase; bool_to_prop; [|done].
    rewrite lookup_insert_ne; [done|]. intros ->. congruence. }
  by rewrite Hnone.
Qed.
End Orders.

(** A rebalance with no live node starts the epochs again, and every node that
    still holds an entry of an earlier epoch ignores what the coordinator
    publishes next. *)
Theorem epoch_reset_ignored (c : ShardCoordinator) (follower : ShardTable) (s : Z) (o : string) (e : ShardEntry) :
  st_lookup s follower = Some e -> 1 <= se_epoch e ->
  current_epoch (shard_table (rebalance [] c)) = 0 /\
  st_update s o (u64 (current_epoch (shard_table (rebalance [] c)) + 1)) follower = follower.
Proof.
  intros He Hep. split; [done|]. unfold st_update, is_stale. simpl. unfold st_lookup in He. rewrite He.
  by rewrite (proj2 (Z.leb_le _ _)) by (change (u64 (0 + 1)) with 1; lia).
Qed.

(** ** Handoff *)

(** The steps of a handoff, in order; only draining can be undone. *)
Definition handoff_rank (s : HandoffState) : Z :=
  match s with HOwned => 0 | HDraining => 1 | HTransferring => 2 | HRecovering => 3 | HActive => 4 end.

Lemma handoff_steps h o :
  let '(ok, h') := handoff_op o h in
  h_shard h' = h_shard h /\
  (ok = false -> h' = h) /\
  (ok = true -> handoff_rank (h_state h') = handoff_rank (h_state h) + 1 \/
     (o = HAbort /\ h_state h = HDraining /\ h_state h' = HOwned)).
Proof. destruct h as [k st n]. unfold handoff_op. destruct o, st; simpl; split_and!; auto; lia. Qed.
End Sharding.

Definition length_hash (s : string) : Z := Z.of_nat (String.length s).
Definition demo_coordinator : ShardCoordinator := coordinator_init 4 (rendezvous length_hash).

Lemma rebalance_assigns_witness :
  exists o, st_lookup 3 (shard_table (rebalance map_to_list map_to_list ["n"; "node"; "nn"] demo_coordinator))
      = Some (mkShardEntry 3 o 1) /\ o = "node".
Proof.
  destruct (rebalance_assigns length_hash map_to_list map_to_list (fun m => reflexivity _) demo_coordinator
              ["n"; "node"; "nn"] 3) as (o & Ho & _ & _ & _).
  - split; [simpl; lia|]. intros s e. unfold demo_coordinator, coordinator_init, shard_table_init. simpl.
    by rewrite lookup_empty.
  - reflexivity.
  - discriminate.
  - vm_compute. reflexivity.
  - simpl. lia.
  - intros n. rewrite !elem_of_cons. intros [->|[->|[->|[]%elem_of_nil]]]; vm_compute; reflexivity.
  - exists o. split; [exact Ho|]. revert Ho. vm_compute. congruence.
Defined.
