(* ===== verification/NameCodec.v ===== *)
(** * The name protocol on the wire

    [cluster/name/name_directory_codec.hpp] writes the five messages of the
    name protocol in the protobuf wire format by hand, and
    [net/inbound_frame_router.cpp] reads them with a loop per message.  Both
    sides are modelled on bytes, a failed read included: a loop that stops
    early keeps what it has read.  The theorem is the round trip of every
    message, with the decoders proved to end on every input. *)

From S2P Require Import Prelude.
From Stdlib Require Import String Ascii.
From stdpp Require Import base numbers list strings.

#[local] Open Scope Z_scope.

(** ** Constants *)

Definition kVarint : Z := 0.
Definition kFixed64 : Z := 1.
Definition kLengthDelimited : Z := 2.
Definition kFixed32 : Z := 5.

(** [std::string] and its bytes. *)
Fixpoint string_bytes (s : string) : list Z :=
  match s with EmptyString => [] | String c s => Z.of_nat (nat_of_ascii c) :: string_bytes s end.
Fixpoint bytes_string (bs : list Z) : string :=
  match bs with [] => EmptyString | b :: bs => String (ascii_of_nat (Z.to_nat b)) (bytes_string bs) end.

(** ** Decoding *)

(** The loop of [decode_varint]: whether it succeeds, [out], and the bytes after
    [p]; [out] is written on failure too. *)
Fixpoint varint_loop (bs : list Z) (shift out : Z) : bool * Z * list Z :=
  match bs with
  | [] => (false, out, [])
  | byte :: bs =>
      let out := Z.lor out (u64 (Z.shiftl (Z.land byte 127) shift)) in
      if Z.land byte 128 =? 0 then (true, out, bs)
      else if 64 <=? shift + 7 then (false, out, bs)
      else varint_loop bs (shift + 7) out
  end.
Definition decode_varint (bs : list Z) : bool * Z * list Z := varint_loop bs 0 0.

Fixpoint skip_varint (bs : list Z) : list Z :=
  match bs with
  | [] => []
  | b :: bs => if Z.land b 128 =? 0 then bs else skip_varint bs
  end.

(** [skip_field_value]: [None] is [false]. *)
Definition skip_field_value (bs : list Z) (wire_type : Z) : option (list Z) :=
  if wire_type =? kVarint then Some (skip_varint bs)
  else if wire_type =? kLengthDelimited then
    let '(ok, len, bs) := decode_varint bs in
    if negb ok then None else if zlen bs <? len then None else Some (drop (Z.to_nat len) bs)
  else if wire_type =? kFixed64 then if zlen bs <? 8 then None else Some (drop 8 bs)
  else if wire_type =? kFixed32 then if zlen bs <? 4 then None else Some (drop 4 bs)
  else None.

(** A length and that many bytes; [None] is a [break] that changes nothing. *)
Definition read_bytes (bs : list Z) : option (list Z * list Z) :=
  let '(ok, len, bs) := decode_varint bs in
  if negb ok then None
  else if zlen bs <? len then None
  else Some (take (Z.to_nat len) bs, drop (Z.to_nat len) bs).

(** What the body of a decoding loop does with a field: go on with the rest, or
    [break]. *)
Inductive FieldStep (A : Type) := Go (acc : A) (rest : list Z) | Break (acc : A).
Arguments Go {A}. Arguments Break {A}.

Section Scan.
Context {A : Type} (step : A -> Z -> Z -> list Z -> FieldStep A).

(** [while (p < end)]: read the tag, then the field; every turn consumes a byte,
    so the length of the payload bounds the turns. *)
Fixpoint scan_fields (fuel : nat) (acc : A) (bs : list Z) : A :=
  match bs, fuel with
  | [], _ | _, O => acc
  | _, S fuel =>
      let '(ok, tag_val, rest) := decode_varint bs in
      if negb ok then acc
      else
        match step acc (u32 (Z.shiftr tag_val 3)) (Z.land tag_val 7) rest with
        | Go acc rest => scan_fields fuel acc rest
        | Break acc => acc
        end
  end.
Definition scan (acc : A) (bs : list Z) : A := scan_fields (length bs) acc bs.

(** The last branch of every loop. *)
Definition skip_or_break (acc : A) (wt : Z) (bs : list Z) : FieldStep A :=
  match skip_field_value bs wt with Some rest => Go acc rest | None => Break acc end.
End Scan.

(** The variables of the loops; an option is a variable with its [has_] flag, the
    two numbers without are set by a failed read as well. *)
Record RegisterVars := mkRegisterVars {
  rv_name : option (list Z); rv_actor_id : Z; rv_has_actor_id : bool;
  rv_endpoint : option (list Z); rv_generation : Z; rv_has_generation : bool
}.

Definition register_field (v : RegisterVars) (fn wt : Z) (bs : list Z) : FieldStep RegisterVars :=
  let 'mkRegisterVars n a ha e g hg := v in
  if (fn =? 1) && (wt =? kLengthDelimited) then
    match read_bytes bs with Some (x, rest) => Go (mkRegisterVars (Some x) a ha e g hg) rest | None => Break v end
  else if (fn =? 2) && (wt =? kVarint) then
    let '(ok, x, rest) := decode_varint bs in
    if ok then Go (mkRegisterVars n x true e g hg) rest else Break (mkRegisterVars n x ha e g hg)
  else if (fn =? 3) && (wt =? kLengthDelimited) then
    match read_bytes bs with Some (x, rest) => Go (mkRegisterVars n a ha (Some x) g hg) rest | None => Break v end
  else if (fn =? 4) && (wt =? kVarint) then
    let '(ok, x, rest) := decode_varint bs in
    if ok then Go (mkRegisterVars n a ha e x true) rest else Break (mkRegisterVars n a ha e x hg)
  else skip_or_break v wt bs.

(** The query loop leaves at the first name. *)
Definition query_field (v : option (list Z)) (fn wt : Z) (bs : list Z) : FieldStep (option (list Z)) :=
  if (fn =? 1) && (wt =? kLengthDelimited) then
    match read_bytes bs with Some (x, _) => Break (Some x) | None => Break v end
  else skip_or_break v wt bs.

Record UnregisterVars := mkUnregisterVars { uv_name : option (list Z); uv_generation : Z; uv_has_generation : bool }.
Definition unregister_field (v : UnregisterVars) (fn wt : Z) (bs : list Z) : FieldStep UnregisterVars :=
  let 'mkUnregisterVars n g hg := v in
  if (fn =? 1) && (wt =? kLengthDelimited) then
    match read_bytes bs with Some (x, rest) => Go (mkUnregisterVars (Some x) g hg) rest | None => Break v end
  else if (fn =? 2) && (wt =? kVarint) then
    let '(ok, x, rest) := decode_varint bs in
    if ok then Go (mkUnregisterVars n x true) rest else Break (mkUnregisterVars n x hg)
  else skip_or_break v wt bs.

Definition register_response_field (v : Z * bool) (fn wt : Z) (bs : list Z) : FieldStep (Z * bool) :=
  if (fn =? 1) && (wt =? kVarint) then
    let '(ok, x, rest) := decode_varint bs in
    if ok then Go (x, true) rest else Break (x, v.2)
  else skip_or_break v wt bs.

Record ResponseVars := mkResponseVars {
  pv_found : bool; pv_has_found : bool; pv_actor_id : Z; pv_endpoint : list Z; pv_generation : Z
}.
Definition resolve_response_field (v : ResponseVars) (fn wt : Z) (bs : list Z) : FieldStep ResponseVars :=
  let 'mkResponseVars f hf a e g := v in
  if (fn =? 1) && (wt =? kVarint) then
    let '(ok, x, rest) := decode_varint bs in
    if ok then Go (mkResponseVars (negb (x =? 0)) true a e g) rest else Break v
  else if (fn =? 2) && (wt =? kVarint) then
    let '(ok, x, rest) := decode_varint bs in
    if ok then Go (mkResponseVars f hf x e g) rest else Break (mkResponseVars f hf x e g)
  else if (fn =? 3) && (wt =? kLengthDelimited) then
    match read_bytes bs with Some (x, rest) => Go (mkResponseVars f hf a x g) rest | None => Break v end
  else if (fn =? 4) && (wt =? kVarint) then
    let '(ok, x, rest) := decode_varint bs in
    if ok then Go (mkResponseVars f hf a e x) rest else Break (mkResponseVars f hf a e x)
  else skip_or_break v wt bs.

(** The messages, as the handlers of [InboundNamePort] receive them. *)
Inductive NameMessage :=
| NameRegisterRequest (name : list Z) (actor_id : Z) (endpoint : list Z) (generation : Z)
| NameRegisterResponse (result : Z)
| NameResolveQuery (name : list Z)
| NameResolveResponse (found : bool) (actor_id : Z) (endpoint : list Z) (generation : Z)
| NameUnregisterRequest (name : list Z) (generation : Z).

Definition name_tag (m : NameMessage) : Z :=
  match m with
  | NameRegisterRequest _ _ _ _ => 128 | NameRegisterResponse _ => 129 | NameResolveQuery _ => 130
  | NameResolveResponse _ _ _ _ => 131 | NameUnregisterRequest _ _ => 132
  end.
Definition is_name_protocol_tag (tag : Z) : bool := (128 <=? tag) && (tag <=? 132).

(** The branch of the router for a tag: [None] when the handler is not called. *)
Definition decode_name_message (tag : Z) (payload : list Z) : option NameMessage :=
  if tag =? 128 then
    match scan register_field (mkRegisterVars None 0 false None 0 false) payload with
    | mkRegisterVars (Some n) a true (Some e) g true => Some (NameRegisterRequest n a e g)
    | _ => None
    end
  else if tag =? 129 then
    match scan register_response_field (0, false) payload with
    | (r, true) => Some (NameRegisterResponse (u32 r))
    | _ => None
    end
  else if tag =? 130 then NameResolveQuery <$> scan query_field None payload
  else if tag =? 131 then
    match scan resolve_response_field (mkResponseVars false false 0 [] 0) payload with
    | mkResponseVars f true a e g => Some (NameResolveResponse f a e g)
    | _ => None
    end
  else if tag =? 132 then
    match scan unregister_field (mkUnregisterVars None 0 false) payload with
    | mkUnregisterVars (Some n) g true => Some (NameUnregisterRequest n g)
    | _ => None
    end
  else None.

(** ** Encoding *)

(** [append_varint]: ten groups of seven bits are enough for 64. *)
Fixpoint varint_groups (fuel : nat) (value : Z) : list Z :=
  match fuel with
  | O => []
  | S fuel =>
      if 128 <=? value then Z.lor (Z.land value 127) 128 :: varint_groups fuel (Z.shiftr value 7)
      else [Z.land value 127]
  end.
Definition append_varint (out : list Z) (value : Z) : list Z := out ++ varint_groups 10 value.
Definition append_tag (out : list Z) (field_number wire_type : Z) : list Z :=
  append_varint out (Z.lor (Z.shiftl field_number 3) wire_type).
Definition append_length_delimited (out : list Z) (field_number : Z) (data : list Z) : list Z :=
  append_varint (append_tag out field_number kLengthDelimited) (zlen data) ++ data.
Definition append_varint_field (out : list Z) (field_number value : Z) : list Z :=
  append_varint (append_tag out field_number kVarint) value.

Definition encode_register_request (name : list Z) (actor_id : Z) (endpoint_str : list Z) (generation : Z) : list Z :=
  let out := append_length_delimited [] 1 name in
  let out := append_varint_field out 2 actor_id in
  let out := append_length_delimited out 3 endpoint_str in
  append_varint_field out 4 generation.
Definition encode_register_response (result_code : Z) : list Z := append_varint_field [] 1 result_code.
Definition encode_resolve_query (name : list Z) : list Z := append_length_delimited [] 1 name.
Definition encode_resolve_response (found : bool) (actor_id : Z) (endpoint_str : list Z) (generation : Z) : list Z :=
  let out := append_varint_field [] 1 (if found then 1 else 0) in
  if found then
    let out := append_varint_field out 2 actor_id in
    let out := append_length_delimited out 3 endpoint_str in
    append_varint_field out 4 generation
  else out.
Definition encode_unregister_request (name : list Z) (generation : Z) : list Z :=
  append_varint_field (append_length_delimited [] 1 name) 2 generation.

Definition encode_name_message (m : NameMessage) : list Z :=
  match m with
  | NameRegisterRequest n a e g => encode_register_request n a e g
  | NameRegisterResponse r => encode_register_response r
  | NameResolveQuery n => encode_resolve_query n
  | NameResolveResponse f a e g => encode_resolve_response f a e g
  | NameUnregisterRequest n g => encode_unregister_request n g
  end.

(** ** Varints *)

(** The groups of a varint: seven bits, and the eighth says whether more follow. *)
Lemma group_bits x :
  0 <= x < 128 ->
  Z.land x 127 = x /\ Z.land x 128 = 0 /\ Z.land (Z.lor x 128) 127 = x /\ Z.land (Z.lor x 128) 128 = 128.
Proof.
  intros H.
  assert (A : forallb (fun x => (Z.land x 127 =? x) && (Z.land x 128 =? 0) && (Z.land (Z.lor x 128) 127 =? x)
                                && (Z.land (Z.lor x 128) 128 =? 128)) (seqZ 0 128) = true) by (vm_compute; reflexivity).
  rewrite forallb_forall in A. specialize (A x). rewrite <- list_elem_of_In, elem_of_seqZ in A.
  specialize (A ltac:(lia)). rewrite !andb_true_iff, !Z.eqb_eq in A. tauto.
Qed.

Lemma land_127 v : Z.land v 127 = v mod 128.
Proof. change 127 with (Z.ones 7). by rewrite Z.land_ones by lia. Qed.

(** Reading back the groups of [v], with [out] read before them. *)
Lemma varint_groups_read fuel v shift out rest :
  0 <= v < 2 ^ (7 * Z.of_nat fuel) -> (0 < fuel)%nat -> 0 <= shift -> 0 <= out < 2 ^ shift ->
  v * 2 ^ shift < 18446744073709551616 ->
  varint_loop (varint_groups fuel v ++ rest) shift out = (true, out + v * 2 ^ shift, rest).
Proof.
  revert v shift out. induction fuel as [|fuel IH]; intros v shift out Hv Hf Hs Ho Hb; [lia|].
  assert (P : 0 < 2 ^ shift) by lia.
  pose proof (Z.div_mod v 128 ltac:(lia)) as Hd. pose proof (Z.mod_pos_bound v 128 ltac:(lia)) as Hm.
  pose proof (Z.div_pos v 128 ltac:(lia) ltac:(lia)) as Hq.
  destruct (group_bits (v mod 128) Hm) as (G1 & G2 & G3 & G4).
  assert (R : Z.lor out (u64 (Z.shiftl (v mod 128) shift)) = out + v mod 128 * 2 ^ shift).
  { rewrite <- (lor_shiftl_add out (v mod 128) shift Hs Ho). f_equal. apply u64_small.
    rewrite Z.shiftl_mul_pow2 by lia. nia. }
  cbn [varint_groups]. destruct (Z.leb_spec 128 v) as [H|H]; cbn [app varint_loop].
  - rewrite land_127, G3, G4. change (128 =? 0) with false. cbv iota. rewrite R.
    assert (Hs7 : 2 ^ (shift + 7) = 2 ^ shift * 128) by (rewrite Z.pow_add_r by lia; lia).
    assert (shift + 7 < 64).
    { apply (Z.pow_lt_mono_r_iff 2); [lia|lia|]. change (2 ^ 64) with 18446744073709551616. nia. }
    rewrite (proj2 (Z.leb_gt _ _)) by lia.
    rewrite Z.shiftr_div_pow2 by lia. change (2 ^ 7) with 128.
    rewrite IH; [f_equal; f_equal; nia| | |lia|nia|nia].
    + split; [done|]. apply Z.div_lt_upper_bound; [lia|].
      replace (128 * 2 ^ (7 * Z.of_nat fuel)) with (2 ^ (7 * Z.of_nat (S fuel))); [lia|].
      rewrite Nat2Z.inj_succ. replace (7 * Z.succ (Z.of_nat fuel)) with (7 + 7 * Z.of_nat fuel) by lia.
      rewrite Z.pow_add_r by lia. lia.
    + destruct fuel; [|lia]. change (2 ^ (7 * Z.of_nat 1)) with 128 in Hv. lia.
  - rewrite land_127, G1, G2. change (0 =? 0) with true. cbv iota. rewrite R.
    f_equal. f_equal. rewrite Z.mod_small by lia. done.
Qed.

(** A 64-bit number is read back, and the bytes after it are left. *)
Lemma decode_append_varint v rest :
  0 <= v < 18446744073709551616 -> decode_varint (varint_groups 10 v ++ rest) = (true, v, rest).
Proof.
  intros H. unfold decode_varint. rewrite varint_groups_read; [f_equal; f_equal; lia| | |lia|lia|lia].
  - change (2 ^ (7 * Z.of_nat 10)) with 1180591620717411303424. lia.
  - lia.
Qed.

Lemma varint_loop_shorter bs shift out ok v rest :
  varint_loop bs shift out = (ok, v, rest) -> (length rest <= length bs)%nat /\ (ok = true -> (length rest < length bs)%nat).
Proof.
  revert shift out. induction bs as [|b bs IH]; intros shift out; cbn [varint_loop].
  { intros [= <- <- <-]. split; [done|discriminate]. }
  repeat case_match; try (intros [= <- <- <-]; simpl; split; [lia|intros _; lia]).
  intros E. destruct (IH _ _ E) as [H1 H2]. simpl. split; [lia|]. intros Ok. specialize (H2 Ok). lia.
Qed.

Lemma read_bytes_append x rest :
  zlen x < 18446744073709551616 -> read_bytes (varint_groups 10 (zlen x) ++ x ++ rest) = Some (x, rest).
Proof.
  intros H. unfold read_bytes. rewrite decode_append_varint by (unfold zlen in *; lia). cbn [negb].
  rewrite (proj2 (Z.ltb_ge _ _)) by (unfold zlen; rewrite length_app; lia).
  unfold zlen. rewrite Nat2Z.id, take_app_length, drop_app_length. done.
Qed.

(** ** Loops *)

(** A loop body that reads forward. *)
Class Forward {A} (step : A -> Z -> Z -> list Z -> FieldStep A) :=
  forward acc fn wt bs acc' rest : step acc fn wt bs = Go acc' rest -> (length rest <= length bs)%nat.

Lemma read_bytes_shorter bs x rest : read_bytes bs = Some (x, rest) -> (length rest <= length bs)%nat.
Proof.
  unfold read_bytes, decode_varint. destruct (varint_loop bs 0 0) as [[ok len] r] eqn:E.
  apply varint_loop_shorter in E as [H _]. repeat case_match; try done. intros [= _ <-]. rewrite length_drop. lia.
Qed.
Lemma skip_shorter {A} (acc : A) wt bs acc' rest :
  skip_or_break acc wt bs = Go acc' rest -> (length rest <= length bs)%nat.
Proof.
  unfold skip_or_break, skip_field_value.
  assert (V : (length (skip_varint bs) <= length bs)%nat).
  { induction bs as [|b bs IH]; simpl; [done|]. case_match; lia. }
  destruct (decode_varint bs) as [[ok len] r] eqn:E. apply varint_loop_shorter in E as [H _].
  repeat case_match; simplify_eq; intros [= _ <-]; rewrite ?length_drop; lia.
Qed.

Ltac forward_tac :=
  repeat (case_match; simplify_eq; try discriminate);
  repeat match goal with
  | H : Go _ _ = Go _ _ |- _ => injection H as <- <-
  | H : read_bytes _ = Some _ |- _ => apply read_bytes_shorter in H
  | H : decode_varint _ = _ |- _ => apply varint_loop_shorter in H as [? _]
  end;
  eauto using skip_shorter; lia.

#[export] Instance register_forward : Forward register_field.
Proof. intros [] fn wt bs acc' rest H. unfold register_field in H. forward_tac. Qed.
#[export] Instance query_forward : Forward query_field.
Proof. intros acc fn wt bs acc' rest H. unfold query_field in H. forward_tac. Qed.
#[export] Instance unregister_forward : Forward unregister_field.
Proof. intros [] fn wt bs acc' rest H. unfold unregister_field in H. forward_tac. Qed.
#[export] Instance register_response_forward : Forward register_response_field.
Proof. intros acc fn wt bs acc' rest H. unfold register_response_field in H. forward_tac. Qed.
#[export] Instance resolve_response_forward : Forward resolve_response_field.
Proof. intros [] fn wt bs acc' rest H. unfold resolve_response_field in H. forward_tac. Qed.

Section ScanLemmas.
Context {A : Type} (step : A -> Z -> Z -> list Z -> FieldStep A) `{!Forward step}.

(** The length of the payload is fuel enough. *)
Lemma scan_fuel fuel acc bs : (length bs <= fuel)%nat -> scan_fields step fuel acc bs = scan step acc bs.
Proof.
  unfold scan. remember (length bs) as n eqn:En. revert fuel acc bs En.
  induction n as [n IH] using (well_founded_induction lt_wf). intros fuel acc bs -> Hf.
  destruct bs as [|b bs]; [by destruct fuel|]. destruct fuel as [|fuel]; [simpl in Hf; lia|].
  cbn [length scan_fields]. destruct (decode_varint (b :: bs)) as [[ok tag] rest] eqn:E.
  apply varint_loop_shorter in E as [_ Hr]. destruct ok; [|done]. cbn [negb]. specialize (Hr eq_refl).
  destruct (step _ _ _ rest) as [acc' rest'|acc'] eqn:S; [|done]. apply forward in S.
  simpl in *. rewrite (IH (length rest') ltac:(lia) fuel acc' rest' eq_refl) by lia.
  symmetry. apply (IH (length rest') ltac:(lia) _ acc' rest' eq_refl). lia.
Qed.

(** One turn: a tag, then the body of the loop. *)
Lemma scan_tag acc fn wt bs :
  0 <= Z.lor (Z.shiftl fn 3) wt < 18446744073709551616 ->
  u32 (Z.shiftr (Z.lor (Z.shiftl fn 3) wt) 3) = fn -> Z.land (Z.lor (Z.shiftl fn 3) wt) 7 = wt ->
  scan step acc (varint_groups 10 (Z.lor (Z.shiftl fn 3) wt) ++ bs) =
  match step acc fn wt bs with Go acc' rest => scan step acc' rest | Break acc' => acc' end.
Proof.
  intros Ht Hf Hw. set (t := Z.lor (Z.shiftl fn 3) wt) in *. unfold scan at 1.
  pose proof (decode_append_varint t bs Ht) as D. pose proof D as D'.
  apply varint_loop_shorter in D' as [_ Hl]. specialize (Hl eq_refl).
  destruct (varint_groups 10 t ++ bs) as [|b l] eqn:E; [simpl in Hl; lia|].
  cbn [length scan_fields]. rewrite D. cbn [negb]. rewrite Hf, Hw.
  destruct (step acc fn wt bs) as [acc' rest|acc'] eqn:S; [|done]. apply forward in S.
  apply scan_fuel. simpl in Hl. lia.
Qed.
Lemma scan_nil acc : scan step acc [] = acc.
Proof. done. Qed.
End ScanLemmas.

(** ** The round trip *)

Definition u64_ok (z : Z) : bool := (0 <=? z) && (z <? 18446744073709551616).
Definition length_ok (bs : list Z) : bool := zlen bs <? 18446744073709551616.
(** The fields within the ranges of their types. *)
Definition message_ok (m : NameMessage) : bool :=
  match m with
  | NameRegisterRequest n a e g => length_ok n && u64_ok a && length_ok e && u64_ok g
  | NameResolveResponse _ a e g => u64_ok a && length_ok e && u64_ok g
  | NameRegisterResponse r => (0 <=? r) && (r <? 4294967296)
  | NameResolveQuery n => length_ok n
  | NameUnregisterRequest n g => length_ok n && u64_ok g
  end.
(** A response that found nothing carries nothing else. *)
Definition as_received (m : NameMessage) : NameMessage :=
  match m with NameResolveResponse false _ _ _ => NameResolveResponse false 0 [] 0 | _ => m end.

(** Fields are appended one after the other. *)
Lemma append_ld_app out fn x : append_length_delimited out fn x = out ++ append_length_delimited [] fn x.
Proof. unfold append_length_delimited, append_tag, append_varint. by rewrite <- !app_assoc. Qed.
Lemma append_vf_app out fn v : append_varint_field out fn v = out ++ append_varint_field [] fn v.
Proof. unfold append_varint_field, append_tag, append_varint. by rewrite <- !app_assoc. Qed.

Section ScanFields.
Context {A : Type} (step : A -> Z -> Z -> list Z -> FieldStep A) `{!Forward step}.

Lemma tag_bits fn wt :
  0 <= fn < 16 -> 0 <= wt < 8 ->
  0 <= Z.lor (Z.shiftl fn 3) wt < 18446744073709551616 /\
  u32 (Z.shiftr (Z.lor (Z.shiftl fn 3) wt) 3) = fn /\ Z.land (Z.lor (Z.shiftl fn 3) wt) 7 = wt.
Proof.
  intros Hf Hw. rewrite Z.lor_comm, lor_shiftl_add by lia. change (2 ^ 3) with 8.
  split; [lia|]. rewrite Z.shiftr_div_pow2 by lia. change (2 ^ 3) with 8. change 7 with (Z.ones 3).
  rewrite Z.land_ones by lia. change (2 ^ 3) with 8. unfold u32.
  split; [rewrite Z.div_add, Z.div_small, Z.mod_small by lia; lia|].
  rewrite Z.mod_add, Z.mod_small by lia. done.
Qed.

Lemma scan_varint_field acc fn v rest :
  0 <= fn < 16 ->
  scan step acc (append_varint_field [] fn v ++ rest) =
  match step acc fn kVarint (varint_groups 10 v ++ rest) with Go acc' rest => scan step acc' rest | Break acc' => acc' end.
Proof.
  intros Hf. unfold append_varint_field, append_tag, append_varint. rewrite <- !app_assoc, app_nil_l.
  destruct (tag_bits fn kVarint Hf ltac:(unfold kVarint; lia)) as (? & ? & ?). by apply scan_tag.
Qed.
Lemma scan_bytes_field acc fn x rest :
  0 <= fn < 16 ->
  scan step acc (append_length_delimited [] fn x ++ rest) =
  match step acc fn kLengthDelimited (varint_groups 10 (zlen x) ++ x ++ rest) with
  | Go acc' rest => scan step acc' rest
  | Break acc' => acc'
  end.
Proof.
  intros Hf. unfold append_length_delimited, append_tag, append_varint. rewrite <- !app_assoc, app_nil_l.
  destruct (tag_bits fn kLengthDelimited Hf ltac:(unfold kLengthDelimited; lia)) as (? & ? & ?). by apply scan_tag.
Qed.
End ScanFields.

(** One field at the front of the payload: the tag, the branch of the loop, and
    the value. *)
Ltac read_field :=
  first [rewrite scan_varint_field by (lia || apply _) | rewrite scan_bytes_field by (lia || apply _)];
  cbv beta iota delta [register_field query_field unregister_field register_response_field resolve_response_field
    Z.eqb Pos.eqb andb kVarint kLengthDelimited];
  first [rewrite read_bytes_append by lia | rewrite decode_append_varint by lia];
  cbv beta iota zeta.

(** A message that arrives is the message that was sent. *)
Lemma decode_encode_message (m : NameMessage) :
  message_ok m = true ->
  decode_name_message (name_tag m) (encode_name_message m) = Some (as_received m).
Proof.
  intros H. rewrite <- (app_nil_r (encode_name_message m)).
  destruct m as [n a e g|r|n|f a e g|n g]; cbn [message_ok] in H; unfold length_ok, u64_ok in H;
    bool_to_prop; unfold decode_name_message; cbn [name_tag Z.eqb Pos.eqb encode_name_message as_received].
  - unfold encode_register_request. rewrite append_vf_app, append_ld_app, append_vf_app, <- !app_assoc.
    do 4 read_field. done.
  - unfold encode_register_response. read_field. rewrite scan_nil. unfold u32. by rewrite Z.mod_small by lia.
  - unfold encode_resolve_query. read_field. done.
  - unfold encode_resolve_response. destruct f.
    + rewrite append_vf_app, append_ld_app, append_vf_app, <- !app_assoc. do 4 read_field. done.
    + read_field. done.
  - unfold encode_unregister_request. rewrite append_vf_app, <- !app_assoc. do 2 read_field. done.
Qed.

(** ** Truncated messages *)

Lemma varint_cut fuel v q k : varint_groups fuel v = q ++ k -> k <> [] -> Forall (fun b => Z.land b 128 <> 0) q.
Proof.
  revert v q. induction fuel as [|fuel IH]; intros v q E Hk; cbn [varint_groups] in E.
  { symmetry in E. by apply app_eq_nil in E as [-> _]. }
  destruct (128 <=? v).
  - destruct q as [|b q]; [constructor|]. injection E as <- E. constructor; [|by eapply IH].
    rewrite land_127. destruct (group_bits (v mod 128)) as (_ & _ & _ & ->); [apply Z.mod_pos_bound; lia|done].
  - destruct q as [|b q]; [constructor|]. injection E as _ E. symmetry in E. by apply app_eq_nil in E as [_ ->].
Qed.
Lemma varint_loop_cut q shift out : Forall (fun b => Z.land b 128 <> 0) q -> (varint_loop q shift out).1.1 = false.
Proof.
  intros H. revert shift out. induction H as [|b q Hb _ IH]; intros shift out; cbn [varint_loop]; [done|].
  rewrite (proj2 (Z.eqb_neq _ _) Hb). case_match; [done|]. apply IH.
Qed.

Lemma decode_cut v q k : varint_groups 10 v = q ++ k -> k <> [] -> (decode_varint q).1.1 = false.
Proof. intros E Hk. by eapply varint_loop_cut, varint_cut. Qed.
Lemma read_bytes_cut x q k :
  zlen x < 18446744073709551616 -> varint_groups 10 (zlen x) ++ x = q ++ k -> k <> [] -> read_bytes q = None.
Proof.
  intros Hx E Hk. unfold read_bytes. apply app_eq_inv in E as [(j & E & Ek)|(j & -> & E)].
  - destruct (decide (j = [])) as [->|Hj].
    + rewrite app_nil_r in E. rewrite app_nil_l in Ek. subst k. subst q. rewrite <- (app_nil_r (varint_groups _ _)).
      rewrite decode_append_varint by (unfold zlen in *; lia). cbn [negb].
      rewrite (proj2 (Z.ltb_lt _ _)); [done|]. destruct x; [done|]. unfold zlen. simpl. lia.
    + pose proof (decode_cut _ _ _ E Hj) as D. destruct (decode_varint q) as [[[] ?] ?]; done.
  - rewrite decode_append_varint by (unfold zlen in *; lia). cbn [negb]. rewrite E.
    rewrite (proj2 (Z.ltb_lt _ _)); [done|]. unfold zlen. rewrite length_app. destruct k; [done|]. simpl. lia.
Qed.

Section ScanCut.
Context {A : Type} (step : A -> Z -> Z -> list Z -> FieldStep A) `{!Forward step}.

Lemma one_byte_tag fn wt : 0 <= fn < 16 -> 0 <= wt < 8 -> exists b, varint_groups 10 (Z.lor (Z.shiftl fn 3) wt) = [b].
Proof.
  intros Hf Hw. rewrite Z.lor_comm, lor_shiftl_add by lia. change (2 ^ 3) with 8. cbn [varint_groups].
  rewrite (proj2 (Z.leb_gt _ _)) by lia. eauto.
Qed.

Lemma cons_eq_inv (a b : Z) l l' : a :: l = b :: l' -> a = b /\ l = l'.
Proof. by intros [= -> ->]. Qed.

(** A payload cut inside a field: nothing of the field, or a branch that fails to
    read its value. *)
Lemma scan_cut_varint acc fn v q k :
  0 <= fn < 16 -> append_varint_field [] fn v = q ++ k -> k <> [] ->
  scan step acc q = acc \/
  exists bs, (decode_varint bs).1.1 = false /\
    scan step acc q = match step acc fn kVarint bs with Go a r => scan step a r | Break a => a end.
Proof.
  intros Hf E Hk. unfold append_varint_field, append_tag, append_varint in E. rewrite app_nil_l in E.
  destruct (tag_bits fn kVarint Hf ltac:(unfold kVarint; lia)) as (T1 & T2 & T3).
  destruct (one_byte_tag fn kVarint Hf ltac:(unfold kVarint; lia)) as [b Hb].
  destruct q as [|b' q]; [by left|]. right. rewrite Hb in E. apply cons_eq_inv in E as [<- E]. exists q.
  split; [by eapply decode_cut|]. change (b :: q) with ([b] ++ q). rewrite <- Hb. by apply scan_tag.
Qed.
Lemma scan_cut_bytes acc fn x q k :
  0 <= fn < 16 -> zlen x < 18446744073709551616 -> append_length_delimited [] fn x = q ++ k -> k <> [] ->
  scan step acc q = acc \/
  exists bs, read_bytes bs = None /\
    scan step acc q = match step acc fn kLengthDelimited bs with Go a r => scan step a r | Break a => a end.
Proof.
  intros Hf Hx E Hk. unfold append_length_delimited, append_tag, append_varint in E. rewrite app_nil_l in E.
  destruct (tag_bits fn kLengthDelimited Hf ltac:(unfold kLengthDelimited; lia)) as (T1 & T2 & T3).
  destruct (one_byte_tag fn kLengthDelimited Hf ltac:(unfold kLengthDelimited; lia)) as [b Hb].
  destruct q as [|b' q]; [by left|]. right. rewrite Hb, <- app_assoc in E.
  apply cons_eq_inv in E as [<- E]. exists q.
  split; [by eapply read_bytes_cut|]. change (b :: q) with ([b] ++ q). rewrite <- Hb. by apply scan_tag.
Qed.

(** Where a cut of two parts is. *)
Lemma cut_app (f g q k : list Z) :
  f ++ g = q ++ k -> k <> [] ->
  (exists j, f = q ++ j /\ j <> []) \/ (exists q', q = f ++ q' /\ g = q' ++ k).
Proof.
  intros E Hk. apply app_eq_inv in E as [(j & -> & ->)|(j & -> & ->)]; [|by eauto].
  destruct (decide (j = [])) as [->|]; [|by eauto]. right. exists []. by rewrite !app_nil_r.
Qed.
End ScanCut.

(** The field that is cut: the loop stops there, with what it had. *)
Ltac cut_field E :=
  first [eapply scan_cut_varint in E | eapply scan_cut_bytes in E];
  [destruct E as [->|(bs & Hbs & ->)];
   [|cbv beta iota delta [register_field query_field unregister_field register_response_field resolve_response_field
       Z.eqb Pos.eqb andb kVarint kLengthDelimited];
     first [rewrite Hbs | destruct (decode_varint bs) as [[[] ?] ?]; [discriminate Hbs|]]]
  |first [assumption | lia | apply _]..]; cbv beta iota zeta.
Ltac cut_next E :=
  let j := fresh "j" in let q := fresh "q" in
  apply cut_app in E as [(j & E & ?)|(q & -> & E)]; [cut_field E|read_field|assumption].

(** Every message of the name protocol reaches the handler of its kind with the
    fields it was encoded with, whatever its bytes are; a payload that was cut
    reaches no handler, except that a positive answer may arrive without its
    address: it never carries another actor or endpoint than the one that was
    sent. *)
Theorem name_message_roundtrip (m : NameMessage) :
  message_ok m = true ->
  decode_name_message (name_tag m) (encode_name_message m) = Some (as_received m) /\
  forall q k, encode_name_message m = q ++ k -> k <> [] ->
    decode_name_message (name_tag m) q = None \/
    exists a e g a' e' g', m = NameResolveResponse true a e g /\
      decode_name_message (name_tag m) q = Some (NameResolveResponse true a' e' g') /\
      (e' = [] \/ e' = e /\ a' = a).
Proof.
  intros H. split; [by apply decode_encode_message|]. intros q k E Hk.
  destruct m as [n a e g|r|n|f a e g|n g]; cbn [message_ok] in H; unfold length_ok, u64_ok in H;
    bool_to_prop; unfold decode_name_message; cbn [name_tag Z.eqb Pos.eqb]; cbn [encode_name_message] in E.
  - left. unfold encode_register_request in E. rewrite append_vf_app, append_ld_app, append_vf_app, <- !app_assoc in E.
    do 3 (cut_next E; try done). cut_field E; done.
  - left. unfold encode_register_response in E. cut_field E; done.
  - left. unfold encode_resolve_query in E. cut_field E; done.
  - unfold encode_resolve_response in E. destruct f.
    + rewrite append_vf_app, append_ld_app, append_vf_app, <- !app_assoc in E.
      cut_next E; [by left..|]. right. exists a, e, g.
      do 2 (cut_next E; [by eauto 10..|]). cut_field E; eauto 10.
    + left. cut_field E; done.
  - left. unfold encode_unregister_request in E. rewrite append_vf_app in E.
    cut_next E; try done. cut_field E; done.
Qed.

Lemma name_message_roundtrip_witness :
  let m := NameRegisterRequest [111; 114; 100] 300 [49; 58; 56] 0 in
  decode_name_message 128 (encode_name_message m) = Some m /\
  decode_name_message 128 (take 14 (encode_name_message m)) = None.
Proof.
  split; [exact (proj1 (name_message_roundtrip (NameRegisterRequest [111; 114; 100] 300 [49; 58; 56] 0) eq_refl))|].
  destruct (proj2 (name_message_roundtrip (NameRegisterRequest [111; 114; 100] 300 [49; 58; 56] 0) eq_refl)
    (take 14 (encode_name_message (NameRegisterRequest [111; 114; 100] 300 [49; 58; 56] 0)))
    (drop 14 (encode_name_message (NameRegisterRequest [111; 114; 100] 300 [49; 58; 56] 0))))
    as [D|(a & e & g & a' & e' & g' & D & _)].
  - by rewrite take_drop.
  - vm_compute. discriminate.
  - exact D.
  - discriminate D.
Defined.

Lemma bytes_string_bytes s : bytes_string (string_bytes s) = s.
Proof.
  induction s as [|c s IH]; simpl; [done|]. by rewrite Nat2Z.id, ascii_nat_embedding, IH.
Qed.
