(* ===== verification/NameResolver.v ===== *)
(** * Distributed names

    [cluster/name]: the directory a node keeps for the names it is the home of,
    the cache of remote names, and the resolver that sends registrations and
    queries to the home of a name on the hash ring.  A lookup blocks, so it is
    two steps, the call up to the wait and what follows it; its slot is shared
    between the caller and the table of pending lookups, as in the source.
    Frames are the bytes of [NameCodec].  The main theorem follows a name from its
    registration on one node to its resolution on another. *)

From S2P Require Import Prelude Endpoint HashRing NameCodec.
From Stdlib Require Import String.
From stdpp Require Import base numbers list strings gmap.

#[local] Open Scope Z_scope.

(** ** Addresses *)

Record NodeAddress := mkNodeAddress { na_endpoint : EndPoint; na_type : Z; na_id : Z; na_incarnation : Z }.
#[export] Instance NodeAddress_eq_dec : EqDecision NodeAddress.
Proof. solve_decision. Defined.

(** ** The home directory *)

Inductive RegisterResult := RegisterOk | RegisterDuplicateName | RegisterStaleGeneration.

Record NameEntry := mkNameEntry { ne_actor_id : Z; ne_endpoint : EndPoint; ne_generation : Z; registered_at : Z }.

Notation NameDirectory := (gmap string NameEntry).

Definition register_entry (name : string) (e : NameEntry) (d : NameDirectory) : RegisterResult * NameDirectory :=
  match d !! name with
  | Some old =>
      if ne_generation e <? ne_generation old then (RegisterStaleGeneration, d)
      else if ne_generation e =? ne_generation old then (RegisterDuplicateName, d)
      else (RegisterOk, <[name := e]> (delete name d))
  | None => (RegisterOk, <[name := e]> d)
  end.
Definition nd_resolve (name : string) (d : NameDirectory) : option NameEntry := d !! name.
Definition nd_unregister (name : string) (d : NameDirectory) : bool * NameDirectory :=
  (bool_decide (is_Some (d !! name)), delete name d).
Definition purge_by_endpoint (ep : EndPoint) (d : NameDirectory) : Z * NameDirectory :=
  (Z.of_nat (size (filter (fun p : string * NameEntry => ne_endpoint p.2 = ep) d)),
   filter (fun p : string * NameEntry => ne_endpoint p.2 <> ep) d).
Definition nd_size (d : NameDirectory) : Z := Z.of_nat (size d).

(** ** The cache *)

Record CacheEntry := mkCacheEntry { ce_address : NodeAddress; expires_at : Z }.
Notation NameResolveCache := (gmap string CacheEntry).

Definition cache_get (name : string) (now : Z) (c : NameResolveCache) : option NodeAddress :=
  match c !! name with
  | None => None
  | Some e => if expires_at e <=? now then None else Some (ce_address e)
  end.
Definition cache_put (name : string) (a : NodeAddress) (ttl now : Z) (c : NameResolveCache) : NameResolveCache :=
  <[name := mkCacheEntry a (now + ttl)]> c.
Definition cache_evict (name : string) (c : NameResolveCache) : NameResolveCache := delete name c.
Definition evict_node (ep : EndPoint) (c : NameResolveCache) : NameResolveCache :=
  filter (fun p : string * CacheEntry => na_endpoint (ce_address p.2) <> ep) c.
Definition purge_expired (now : Z) (c : NameResolveCache) : NameResolveCache :=
  filter (fun p : string * CacheEntry => now < expires_at p.2) c.

(** ** The resolver *)

Inductive NameRegisterResult := NrOk | NrDuplicateName | NrStaleGeneration | NrTimeout | NrDisabled.

Record NameResolutionConfig := mkNameConfig { nr_enabled : bool; cache_ttl : Z; virtual_nodes : nat }.

Record PendingResolve := mkLookup { pr_result : option NodeAddress; pr_ready : bool }.

Record NameResolver := mkResolver {
  nr_config : NameResolutionConfig;
  local_endpoint : EndPoint;
  outbound_active : bool;
  name_directory : NameDirectory;
  name_cache : NameResolveCache;
  nr_ring : ConsistentHashRing;
  pending_resolves : gmap string nat;      (* the slot of a name *)
  slots : gmap nat PendingResolve          (* what the shared pointers point to *)
}.

(** A frame for another node: its tag and its payload. *)
Record NameFrame := mkNameFrame { nf_target : EndPoint; nf_tag : Z; nf_payload : list Z }.

Section Resolver.
Context (inet_ntoa : Z -> string) (inet_ntop6 : list Z -> string).
Context (inet_pton4 : string -> option Z) (inet_pton6 : string -> option (list Z)).
Context (getaddrinfo4 : string -> option Z) (getaddrinfo6 : string -> option (list Z)).
#[local] Notation ep_text := (to_string inet_ntoa inet_ntop6).
#[local] Notation ep_parse := (parse_endpoint inet_pton4 inet_pton6 getaddrinfo4 getaddrinfo6).

Definition set_directory (r : NameResolver) (d : NameDirectory) : NameResolver :=
  mkResolver (nr_config r) (local_endpoint r) (outbound_active r) d (name_cache r) (nr_ring r)
    (pending_resolves r) (slots r).
Definition set_cache (r : NameResolver) (c : NameResolveCache) : NameResolver :=
  mkResolver (nr_config r) (local_endpoint r) (outbound_active r) (name_directory r) c (nr_ring r)
    (pending_resolves r) (slots r).
Definition set_lookups (r : NameResolver) (p : gmap string nat) (s : gmap nat PendingResolve) : NameResolver :=
  mkResolver (nr_config r) (local_endpoint r) (outbound_active r) (name_directory r) (name_cache r) (nr_ring r) p s.

(** [std::set<EndPoint, EndPointCompare>::insert]. *)
Fixpoint member_insert (ep : EndPoint) (s : list EndPoint) : list EndPoint :=
  match s with
  | [] => [ep]
  | x :: s' =>
      if EndPointCompare inet_ntoa inet_ntop6 ep x then ep :: s
      else if EndPointCompare inet_ntoa inet_ntop6 x ep then x :: member_insert ep s'
      else s
  end.
Definition member_set (members : list EndPoint) : list EndPoint := foldl (flip member_insert) [] members.

(** The constructor; [members] is what discovery returns. *)
Definition resolver_init (cfg : NameResolutionConfig) (local : EndPoint) (outbound : bool) (members : list EndPoint)
  : NameResolver :=
  mkResolver cfg local outbound ∅ ∅ (build inet_ntoa inet_ntop6 (member_set members) (virtual_nodes cfg)) ∅ ∅.

Definition home_address (e : NameEntry) : NodeAddress := mkNodeAddress (ne_endpoint e) 0 (ne_actor_id e) 0.

Definition make_name_message (target : EndPoint) (m : NameMessage) : NameFrame :=
  mkNameFrame target (name_tag m) (encode_name_message m).

(** What [resolve] has done when it returns or waits. *)
Inductive ResolveOutcome :=
| ResolveDone (address : option NodeAddress)
| ResolveWait (slot : nat) (query : NameFrame).

(** [resolve] up to the wait; [slot] is the address of the new [PendingResolve]. *)
Definition resolve_begin (name : string) (now : Z) (slot : nat) (r : NameResolver) : ResolveOutcome * NameResolver :=
  if negb (nr_enabled (nr_config r)) then (ResolveDone None, r)
  else
    match nd_resolve name (name_directory r) with
    | Some e => (ResolveDone (Some (home_address e)), r)
    | None =>
        match cache_get name now (name_cache r) with
        | Some a => (ResolveDone (Some a), r)
        | None =>
            match ring_lookup name (nr_ring r) with
            | None => (ResolveDone None, r)
            | Some home =>
                if negb (outbound_active r) then (ResolveDone None, r)
                else
                  (ResolveWait slot (make_name_message home (NameResolveQuery (string_bytes name))),
                   set_lookups r (<[name := slot]> (pending_resolves r)) (<[slot := mkLookup None false]> (slots r)))
            end
        end
    end.

(** The wait ends with [pred] false: the name is removed from the table, whatever
    slot it has by now. *)
Definition resolve_timeout (name : string) (r : NameResolver) : option NodeAddress * NameResolver :=
  (None, set_lookups r (delete name (pending_resolves r)) (slots r)).

(** The wait ends with [ready] set. *)
Definition resolve_ready (name : string) (now : Z) (slot : nat) (r : NameResolver) : option NodeAddress * NameResolver :=
  let r := set_lookups r (delete name (pending_resolves r)) (slots r) in
  match slots r !! slot with
  | Some (mkLookup (Some a) _) =>
      (Some a, set_cache r (cache_put name a (cache_ttl (nr_config r)) now (name_cache r)))
  | _ => (None, r)
  end.

Definition slot_ready (slot : nat) (r : NameResolver) : bool :=
  match slots r !! slot with Some p => pr_ready p | None => false end.

Definition is_home (name : string) (r : NameResolver) : bool :=
  bool_decide (ring_lookup name (nr_ring r) = Some (local_endpoint r)).

Definition on_local_register (name : string) (a : NodeAddress) (generation now : Z) (r : NameResolver)
  : list NameFrame * NameResolver :=
  if negb (nr_enabled (nr_config r)) then ([], r)
  else
    match ring_lookup name (nr_ring r) with
    | None => ([], r)
    | Some home =>
        if bool_decide (home = local_endpoint r) then
          let e := mkNameEntry (na_id a) (na_endpoint a) generation now in
          ([], set_directory r (register_entry name e (name_directory r)).2)
        else if outbound_active r then
          ([make_name_message home
              (NameRegisterRequest (string_bytes name) (na_id a) (string_bytes (ep_text (na_endpoint a))) generation)], r)
        else ([], r)
    end.

Definition on_local_unregister (name : string) (r : NameResolver) : list NameFrame * NameResolver :=
  if negb (nr_enabled (nr_config r)) then ([], r)
  else
    match ring_lookup name (nr_ring r) with
    | None => ([], r)
    | Some home =>
        let '(out, r) :=
          if bool_decide (home = local_endpoint r) then
            ([], set_directory r (nd_unregister name (name_directory r)).2)
          else if outbound_active r then
            let gen := match nd_resolve name (name_directory r) with Some e => ne_generation e | None => 0 end in
            ([make_name_message home (NameUnregisterRequest (string_bytes name) gen)], r)
          else ([], r) in
        (out, set_cache r (cache_evict name (name_cache r)))
    end.

(** [members] is the new answer of discovery. *)
Definition purge_departed (r : NameResolver) (ep : EndPoint) : NameResolver :=
  set_cache (set_directory r (purge_by_endpoint ep (name_directory r)).2) (evict_node ep (name_cache r)).
Definition on_membership_change (members removed : list EndPoint) (r : NameResolver) : NameResolver :=
  let ring := build inet_ntoa inet_ntop6 (member_set members) (virtual_nodes (nr_config r)) in
  let r := mkResolver (nr_config r) (local_endpoint r) (outbound_active r) (name_directory r) (name_cache r) ring
             (pending_resolves r) (slots r) in
  foldl purge_departed r removed.

Definition register_code (res : RegisterResult) : Z :=
  match res with RegisterOk => 0 | RegisterDuplicateName => 1 | RegisterStaleGeneration => 3 end.
Definition register_verdict (res : RegisterResult) : NameRegisterResult :=
  match res with
  | RegisterOk => NrOk | RegisterDuplicateName => NrDuplicateName | RegisterStaleGeneration => NrStaleGeneration
  end.

Definition on_name_register_request (from : EndPoint) (name : string) (a : NodeAddress) (generation now : Z)
    (r : NameResolver) : NameRegisterResult * list NameFrame * NameResolver :=
  if negb (nr_enabled (nr_config r)) then (NrDisabled, [], r)
  else if negb (is_home name r) then (NrDisabled, [], r)
  else
    let e := mkNameEntry (na_id a) (na_endpoint a) generation now in
    let '(res, d) := register_entry name e (name_directory r) in
    (register_verdict res,
     if outbound_active r then [make_name_message from (NameRegisterResponse (register_code res))] else [],
     set_directory r d).

Definition on_name_resolve_query (from : EndPoint) (name : string) (r : NameResolver)
  : option NodeAddress * list NameFrame :=
  if negb (nr_enabled (nr_config r)) then (None, [])
  else if negb (is_home name r) then (None, [])
  else
    let entry := nd_resolve name (name_directory r) in
    (home_address <$> entry,
     if outbound_active r then
       [make_name_message from
          match entry with
          | Some e => NameResolveResponse true (ne_actor_id e) (string_bytes (ep_text (ne_endpoint e))) (ne_generation e)
          | None => NameResolveResponse false 0 [] 0
          end]
     else []).

Definition on_name_unregister_request (name : string) (generation : Z) (r : NameResolver) : NameResolver :=
  if negb (nr_enabled (nr_config r)) then r
  else if negb (is_home name r) then r
  else
    match nd_resolve name (name_directory r) with
    | Some e => if ne_generation e <=? generation
                then set_directory r (nd_unregister name (name_directory r)).2 else r
    | None => r
    end.

(** The answer goes to every lookup that waits; the order of the iteration does
    not matter, each slot is written alone. *)
Definition answer_slot (found : bool) (actor_id : Z) (endpoint_str : string) (p : PendingResolve) : PendingResolve :=
  if pr_ready p then p
  else
    mkLookup (if found && negb (bool_decide (endpoint_str = EmptyString))
               then Some (mkNodeAddress (ep_parse endpoint_str) 0 actor_id 0) else pr_result p) true.
Definition on_name_resolve_response (found : bool) (actor_id : Z) (endpoint_str : string) (r : NameResolver)
  : NameResolver :=
  let waiting := list_to_set (map snd (map_to_list (pending_resolves r))) : gset nat in
  set_lookups r (pending_resolves r)
    (map_imap (fun k p => Some (if bool_decide (k ∈ waiting) then answer_slot found actor_id endpoint_str p else p))
       (slots r)).

(** A name frame from [from]: the router decodes it and calls the port. *)
Definition on_name_frame (from : EndPoint) (tag : Z) (payload : list Z) (now : Z) (r : NameResolver)
  : list NameFrame * NameResolver :=
  match decode_name_message tag payload with
  | Some (NameRegisterRequest n a e g) =>
      let '(_, out, r) := on_name_register_request from (bytes_string n)
                            (mkNodeAddress (ep_parse (bytes_string e)) 0 a 0) g now r in (out, r)
  | Some (NameResolveQuery n) => ((on_name_resolve_query from (bytes_string n) r).2, r)
  | Some (NameUnregisterRequest n g) => ([], on_name_unregister_request (bytes_string n) g r)
  | Some (NameResolveResponse f a e g) => ([], on_name_resolve_response f a (bytes_string e) r)
  | Some (NameRegisterResponse _) | None => ([], r)
  end.

(** ** Lemmas *)

Definition names_enabled (r : NameResolver) : bool := nr_enabled (nr_config r) && outbound_active r.

Lemma frame_received from target m now r :
  message_ok m = true ->
  on_name_frame from (nf_tag (make_name_message target m)) (nf_payload (make_name_message target m)) now r =
  match as_received m with
  | NameRegisterRequest n a e g =>
      let '(_, out, r) := on_name_register_request from (bytes_string n)
                            (mkNodeAddress (ep_parse (bytes_string e)) 0 a 0) g now r in (out, r)
  | NameResolveQuery n => ((on_name_resolve_query from (bytes_string n) r).2, r)
  | NameUnregisterRequest n g => ([], on_name_unregister_request (bytes_string n) g r)
  | NameResolveResponse f a e g => ([], on_name_resolve_response f a (bytes_string e) r)
  | NameRegisterResponse _ => ([], r)
  end.
Proof.
  intros H. unfold on_name_frame, make_name_message. cbn [nf_tag nf_payload].
  rewrite (decode_encode_message m H). done.
Qed.

(** The slot of a lookup that waits is answered. *)
Lemma response_answers name slot found aid e r :
  pending_resolves r !! name = Some slot -> slots r !! slot = Some (mkLookup None false) ->
  slots (on_name_resolve_response found aid e r) !! slot = Some (answer_slot found aid e (mkLookup None false)).
Proof.
  intros Hp Hs. unfold on_name_resolve_response. simpl. rewrite map_lookup_imap, Hs. simpl.
  rewrite bool_decide_eq_true_2; [done|]. apply elem_of_list_to_set, list_elem_of_In, in_map_iff.
  exists (name, slot). split; [done|]. by apply list_elem_of_In, elem_of_map_to_list.
Qed.

Lemma string_app_nonempty s t : t <> EmptyString -> (s +:+ t)%string <> EmptyString.
Proof. by destruct s, t. Qed.
Lemma ep_text_nonempty ep : ep_text ep <> EmptyString.
Proof. destruct ep; simpl; [apply string_app_nonempty|]; done. Qed.

(** ** Theorems *)

Section EndToEnd.
Context (name : string) (ip p id generation now : Z).
Let ep : EndPoint := Ipv4Endpoint ip p.

(** The C library prints the address without a colon and reads it back. *)
Context (ep_ok : endpoint_wf ep = true)
        (text_ok : no_colon (inet_ntoa (bswap32 ip)) = true)
        (pton_ok : inet_pton4 (inet_ntoa (bswap32 ip)) = Some (bswap32 ip)).
Context (range_ok : message_ok (NameRegisterRequest (string_bytes name) id (string_bytes (ep_text ep)) generation) = true).

Lemma ep_roundtrip : ep_parse (ep_text ep) = ep.
Proof using ep_ok text_ok pton_ok. by apply endpoint_text_roundtrip. Qed.

(** A name registered on one node is found from another, through its home: node
    [A] sends the registration to the home [H], node [B] asks [H] and waits, the
    answer wakes it with the endpoint and the id that [A] registered, and while
    the entry is in its cache [B] answers without asking again. *)
Theorem registered_name_resolves (A H B : NameResolver) (type incarnation : Z) (slot : nat) :
  names_enabled A = true -> names_enabled H = true -> names_enabled B = true ->
  ring_lookup name (nr_ring A) = Some (local_endpoint H) ->
  ring_lookup name (nr_ring H) = Some (local_endpoint H) ->
  ring_lookup name (nr_ring B) = Some (local_endpoint H) ->
  local_endpoint A <> local_endpoint H ->
  name_directory H !! name = None -> name_directory B !! name = None -> cache_get name now (name_cache B) = None ->
  let a := mkNodeAddress ep type id incarnation in
  let found := mkNodeAddress ep 0 id 0 in
  exists f1, on_local_register name a generation now A = ([f1], A) /\ nf_target f1 = local_endpoint H /\
  let H1 := (on_name_frame (local_endpoint A) (nf_tag f1) (nf_payload f1) now H).2 in
  exists f2 B1, resolve_begin name now slot B = (ResolveWait slot f2, B1) /\ nf_target f2 = local_endpoint H /\
  exists f3, on_name_frame (local_endpoint B) (nf_tag f2) (nf_payload f2) now H1 = ([f3], H1) /\
    nf_target f3 = local_endpoint B /\
  let B2 := (on_name_frame (local_endpoint H) (nf_tag f3) (nf_payload f3) now B1).2 in
  slot_ready slot B2 = true /\
  exists B3, resolve_ready name now slot B2 = (Some found, B3) /\
    forall now' slot', now' < now + cache_ttl (nr_config B) ->
      resolve_begin name now' slot' B3 = (ResolveDone (Some found), B3).
Proof.
  intros [EA OA]%andb_true_iff [EH OH]%andb_true_iff [EB OB]%andb_true_iff RA RH RB NA DH DB CB a found.
  cbn [message_ok] in range_ok. rewrite !andb_true_iff in range_ok. destruct range_ok as [[[Ln Ui] Le] Ug].
  eexists. split; [|split].
  { unfold on_local_register. rewrite EA, RA, OA. cbn [negb]. rewrite bool_decide_eq_false_2 by congruence. done. }
  { done. }
  intros H1.
  assert (E1 : H1 = set_directory H (<[name := mkNameEntry id ep generation now]> (name_directory H))).
  { unfold H1. rewrite frame_received by (cbn [message_ok]; unfold a; cbn [na_id na_endpoint]; by rewrite Ln, Ui, Le, Ug).
    cbn [as_received a na_id na_endpoint]. rewrite !bytes_string_bytes. unfold on_name_register_request, is_home.
    rewrite EH. cbn [negb]. rewrite bool_decide_eq_true_2 by done. cbn [negb].
    rewrite ep_roundtrip. unfold register_entry. rewrite DH. done. }
  exists (make_name_message (local_endpoint H) (NameResolveQuery (string_bytes name))),
    (set_lookups B (<[name := slot]> (pending_resolves B)) (<[slot := mkLookup None false]> (slots B))).
  split; [|split; [done|]].
  { unfold resolve_begin. rewrite EB. cbn [negb]. unfold nd_resolve. rewrite DB, CB, RB, OB. done. }
  exists (make_name_message (local_endpoint B) (NameResolveResponse true id (string_bytes (ep_text ep)) generation)).
  split; [|split; [done|]].
  { rewrite frame_received by done. cbn [as_received]. rewrite bytes_string_bytes. f_equal.
    unfold on_name_resolve_query, is_home. rewrite E1. cbn [set_directory nr_config nr_ring local_endpoint outbound_active].
    rewrite EH. cbn [negb]. rewrite bool_decide_eq_true_2 by done. cbn [negb snd]. rewrite OH.
    unfold nd_resolve. cbn [name_directory set_directory]. by rewrite lookup_insert_eq. }
  intros B2.
  assert (E2 : B2 = on_name_resolve_response true id (ep_text ep)
    (set_lookups B (<[name := slot]> (pending_resolves B)) (<[slot := mkLookup None false]> (slots B)))).
  { unfold B2. rewrite frame_received by (cbn [message_ok]; by rewrite Ui, Le, Ug).
    cbn [as_received snd]. by rewrite bytes_string_bytes. }
  assert (S2 : slots B2 !! slot = Some (mkLookup (Some found) true)).
  { rewrite E2. erewrite response_answers; [|apply lookup_insert_eq|apply lookup_insert_eq].
    unfold answer_slot. cbn [pr_ready pr_result andb].
    rewrite bool_decide_eq_false_2 by apply ep_text_nonempty. cbn [negb]. by rewrite ep_roundtrip. }
  split; [unfold slot_ready; by rewrite S2|].
  eexists. split; [unfold resolve_ready; cbn [set_lookups slots]; rewrite S2; reflexivity|].
  intros now' slot' Hn. rewrite E2. unfold resolve_begin, nd_resolve, cache_get, cache_put.
  cbn [set_cache set_lookups on_name_resolve_response nr_config name_directory name_cache cache_ttl].
  rewrite EB, DB, lookup_insert_eq. cbn [negb expires_at ce_address].
  by rewrite (proj2 (Z.leb_gt _ _)) by lia.
Qed.
End EndToEnd.

(** One answer wakes every lookup that waits, whatever name it is for: a lookup
    of [n2] returns the address of [n1] and keeps it in the cache. *)
Theorem one_answer_wakes_all (r : NameResolver) (n1 n2 : string) (s1 s2 : nat) (aid now : Z) (e : string) :
  pending_resolves r !! n1 = Some s1 -> pending_resolves r !! n2 = Some s2 ->
  slots r !! s1 = Some (mkLookup None false) -> slots r !! s2 = Some (mkLookup None false) ->
  e <> EmptyString -> 0 < cache_ttl (nr_config r) ->
  let r1 := on_name_resolve_response true aid e r in
  let wrong := mkNodeAddress (ep_parse e) 0 aid 0 in
  (resolve_ready n1 now s1 r1).1 = Some wrong /\ (resolve_ready n2 now s2 r1).1 = Some wrong /\
  cache_get n2 now (name_cache (resolve_ready n2 now s2 r1).2) = Some wrong.
Proof.
  intros P1 P2 S1 S2 He Ht r1 wrong.
  assert (A : answer_slot true aid e (mkLookup None false) = mkLookup (Some wrong) true).
  { unfold answer_slot. cbn [pr_ready pr_result andb]. by rewrite bool_decide_eq_false_2. }
  pose proof (response_answers n1 s1 true aid e r P1 S1) as R1.
  pose proof (response_answers n2 s2 true aid e r P2 S2) as R2. rewrite A in R1, R2.
  unfold resolve_ready. cbn [set_lookups slots]. unfold r1. rewrite R1, R2. split; [done|]. split; [done|].
  unfold cache_get, cache_put. cbn [snd set_cache name_cache]. rewrite lookup_insert_eq. cbn [expires_at ce_address].
  cbn [nr_config set_lookups on_name_resolve_response].
  by rewrite (proj2 (Z.leb_gt _ _)) by lia.
Qed.

(** The generations of the actor directory are all zero, so the end of any actor
    with that name on any node removes the entry of another actor. *)
Theorem unregister_removes_other_owner (H : NameResolver) (name : string) (e : NameEntry) (target from : EndPoint) (now : Z) :
  names_enabled H = true -> is_home name H = true -> length_ok (string_bytes name) = true ->
  name_directory H !! name = Some e -> ne_generation e = 0 ->
  let f := make_name_message target (NameUnregisterRequest (string_bytes name) 0) in
  name_directory (on_name_frame from (nf_tag f) (nf_payload f) now H).2 !! name = None.
Proof.
  intros [EH _]%andb_true_iff Hh Ln He Hg f. unfold f.
  rewrite frame_received by (cbn [message_ok]; by rewrite Ln). cbn [as_received snd].
  rewrite bytes_string_bytes. unfold on_name_unregister_request, nd_resolve. rewrite EH, Hh, He, Hg. cbn [negb].
  cbn [nd_unregister snd set_directory name_directory]. apply lookup_delete_eq.
Qed.

(** A second lookup of a name takes the entry of the first, which no answer
    wakes any more. *)
Theorem second_lookup_strands_first (r : NameResolver) (name : string) (now : Z) (s1 s2 : nat) (f : NameFrame) (r2 : NameResolver)
    (found : bool) (aid : Z) (e : string) :
  slot_ready s1 r = false -> (forall n, pending_resolves r !! n = Some s1 -> n = name) -> s1 <> s2 ->
  resolve_begin name now s2 r = (ResolveWait s2 f, r2) ->
  slot_ready s1 (on_name_resolve_response found aid e r2) = false.
Proof.
  intros R1 U N. unfold resolve_begin. repeat case_match; intros [= <- <-].
  unfold slot_ready in *. cbn [on_name_resolve_response set_lookups slots pending_resolves].
  rewrite map_lookup_imap, lookup_insert_ne by done.
  destruct (slots r !! s1) as [p|]; [|done]. simpl. rewrite bool_decide_eq_false_2; [done|].
  intros ((n & s) & Es & Hin)%elem_of_list_to_set%list_elem_of_In%in_map_iff. simpl in Es. subst s.
  apply list_elem_of_In, elem_of_map_to_list, lookup_insert_Some in Hin as [[_ ?]|[Hn Hin]]; [congruence|].
  apply Hn. symmetry. by apply U.
Qed.
End Resolver.

(** ** A run of three nodes *)

Definition demo_ip : Z := 167772161.                    (* 10.0.0.1 *)
Definition demo_pton (s : string) : option Z :=
  if bool_decide (s = w_ntoa (bswap32 demo_ip)) then Some (bswap32 demo_ip) else None.
Definition demo_resolver (local : EndPoint) : NameResolver :=
  resolver_init w_ntoa (fun _ => EmptyString) (mkNameConfig true 30 3) local true w_live.

Lemma registered_name_resolves_witness :
  exists f1, on_local_register w_ntoa (fun _ => EmptyString) "orders" (mkNodeAddress (Ipv4Endpoint demo_ip 8080) 7 42 1) 0 100
      (demo_resolver (Ipv4Endpoint 1 0)) = ([f1], demo_resolver (Ipv4Endpoint 1 0)) /\ nf_target f1 = Ipv4Endpoint 2 0.
Proof.
  destruct (registered_name_resolves w_ntoa (fun _ => EmptyString) demo_pton (fun _ => None) (fun _ => None)
    (fun _ => None) "orders" demo_ip 8080 42 0 100 eq_refl ltac:(vm_compute; reflexivity) ltac:(vm_compute; reflexivity)
    ltac:(vm_compute; reflexivity)
    (demo_resolver (Ipv4Endpoint 1 0)) (demo_resolver (Ipv4Endpoint 2 0)) (demo_resolver (Ipv4Endpoint 3 0)) 7 1 0%nat)
    as (f1 & E & T & _).
  1-6: vm_compute; reflexivity.
  - vm_compute. discriminate.
  - vm_compute; reflexivity.
  - vm_compute; reflexivity.
  - vm_compute; reflexivity.
  - exists f1. split; [exact E|exact T].
Defined.
