(* ===== verification/ClusterRegistry.v ===== *)
(** * Publish-subscribe and the cluster receptionist

    [cluster/pubsub/pubsub_mediator_core.cpp] and
    [cluster/receptionist/cluster_receptionist_core.cpp]: local tables, the
    changes that wait for gossip, and tables of what other nodes announced, where
    the higher incarnation wins.  What nodes announce is merged in any order and
    more than once; the receptionist converges to the table of the announcing
    node, the mediator keeps one subscriber per node and topic. *)

From S2P Require Import Prelude.
From stdpp Require Import base numbers list strings gmap.

#[local] Open Scope Z_scope.

(** ** The cluster receptionist *)

Record ClusterRegistration := mkRegistration {
  reg_key : string; reg_node : string; actor_ids : list Z; reg_incarnation : Z
}.
#[export] Instance ClusterRegistration_eq_dec : EqDecision ClusterRegistration.
Proof. solve_decision. Defined.

Record ClusterReceptionist := mkReceptionist {
  cr_node : string;
  cr_incarnation : Z;
  local_regs : gmap string (list Z);
  remote_regs : gmap string (gmap string ClusterRegistration);
  dirty_regs : list ClusterRegistration
}.
Definition receptionist_init (node : string) : ClusterReceptionist := mkReceptionist node 0 ∅ ∅ [].

Definition apply_local_registration (key : string) (ids : list Z) (c : ClusterReceptionist) : ClusterReceptionist :=
  let inc := u64 (cr_incarnation c + 1) in
  mkReceptionist (cr_node c) inc (<[key := ids]> (local_regs c)) (remote_regs c)
    (dirty_regs c ++ [mkRegistration key (cr_node c) ids inc]).

(** [remote_regs_[key]] creates the inner map. *)
Definition merge_registration (t : gmap string (gmap string ClusterRegistration)) (r : ClusterRegistration)
  : gmap string (gmap string ClusterRegistration) :=
  let node_map := default ∅ (t !! reg_key r) in
  match node_map !! reg_node r with
  | Some old => if reg_incarnation r <=? reg_incarnation old then <[reg_key r := node_map]> t
                else <[reg_key r := <[reg_node r := r]> node_map]> t
  | None => <[reg_key r := <[reg_node r := r]> node_map]> t
  end.
Definition merge_remote_registration (r : ClusterRegistration) (c : ClusterReceptionist) : ClusterReceptionist :=
  mkReceptionist (cr_node c) (cr_incarnation c) (local_regs c) (merge_registration (remote_regs c) r) (dirty_regs c).

(** The loop that erases a node from the inner maps, and the maps it empties. *)
Definition drop_node {V} (node : string) (t : gmap string (gmap string V)) : gmap string (gmap string V) :=
  filter (fun p : string * gmap string V => p.2 <> ∅) (delete node <$> t).
Definition remove_node_registrations (node : string) (c : ClusterReceptionist) : ClusterReceptionist :=
  mkReceptionist (cr_node c) (cr_incarnation c) (local_regs c) (drop_node node (remote_regs c)) (dirty_regs c).

(** Local first, then remote, in the order of the inner map. *)
Definition get_cluster_listing (order : gmap string ClusterRegistration -> list (string * ClusterRegistration))
    (key : string) (c : ClusterReceptionist) : list Z :=
  default [] (local_regs c !! key) ++
  match remote_regs c !! key with
  | Some m => concat (map (fun p => actor_ids p.2) (order m))
  | None => []
  end.
Definition has_key (key : string) (c : ClusterReceptionist) : bool :=
  bool_decide (is_Some (local_regs c !! key)) || bool_decide (is_Some (remote_regs c !! key)).
Definition remote_key_count (c : ClusterReceptionist) : Z := Z.of_nat (size (remote_regs c)).
Definition local_key_count (c : ClusterReceptionist) : Z := Z.of_nat (size (local_regs c)).
Definition drain_dirty_registrations (c : ClusterReceptionist) : list ClusterRegistration * ClusterReceptionist :=
  (dirty_regs c, mkReceptionist (cr_node c) (cr_incarnation c) (local_regs c) (remote_regs c) []).

(** ** The mediator *)

Definition kMaxTopics : Z := 4096.
Definition kMaxSubscribersPerTopic : Z := 1024.

Record TopicSubscription := mkSubscription {
  sub_topic : string; subscriber_node : string; subscriber_actor_id : Z; sub_incarnation : Z
}.

Record PubSubMediator := mkMediator {
  ps_node : string;
  ps_incarnation : Z;
  local_subs : gmap string (gset Z);
  remote_subs : gmap string (gmap string TopicSubscription);
  dirty_subs : list TopicSubscription
}.
Definition mediator_init (node : string) : PubSubMediator := mkMediator node 0 ∅ ∅ [].

(** A refusal on the number of subscribers leaves the topic that [local_subs_[topic]]
    has created; it cannot be new, since a new one has none. *)
Definition subscribe (topic : string) (actor : Z) (m : PubSubMediator) : bool * PubSubMediator :=
  if (kMaxTopics <=? Z.of_nat (size (local_subs m))) && negb (bool_decide (is_Some (local_subs m !! topic)))
  then (false, m)
  else
    let subs := default ∅ (local_subs m !! topic) in
    let created := mkMediator (ps_node m) (ps_incarnation m) (<[topic := subs]> (local_subs m)) (remote_subs m)
                     (dirty_subs m) in
    if (kMaxSubscribersPerTopic <=? Z.of_nat (size subs)) && negb (bool_decide (actor ∈ subs)) then (false, created)
    else if bool_decide (actor ∈ subs) then (true, created)
    else
      let inc := u64 (ps_incarnation m + 1) in
      (true, mkMediator (ps_node m) inc (<[topic := {[actor]} ∪ subs]> (local_subs m)) (remote_subs m)
               (dirty_subs m ++ [mkSubscription topic (ps_node m) actor inc])).

Definition unsubscribe (topic : string) (actor : Z) (m : PubSubMediator) : PubSubMediator :=
  match local_subs m !! topic with
  | None => m
  | Some subs =>
      let subs := subs ∖ {[actor]} in
      mkMediator (ps_node m) (ps_incarnation m)
        (if bool_decide (subs = ∅) then delete topic (local_subs m) else <[topic := subs]> (local_subs m))
        (remote_subs m) (dirty_subs m)
  end.

Definition merge_subscription (t : gmap string (gmap string TopicSubscription)) (s : TopicSubscription)
  : gmap string (gmap string TopicSubscription) :=
  let node_map := default ∅ (t !! sub_topic s) in
  match node_map !! subscriber_node s with
  | Some old => if sub_incarnation s <=? sub_incarnation old then <[sub_topic s := node_map]> t
                else <[sub_topic s := <[subscriber_node s := s]> node_map]> t
  | None => <[sub_topic s := <[subscriber_node s := s]> node_map]> t
  end.
Definition merge_remote_subscription (s : TopicSubscription) (m : PubSubMediator) : PubSubMediator :=
  mkMediator (ps_node m) (ps_incarnation m) (local_subs m) (merge_subscription (remote_subs m) s) (dirty_subs m).
Definition remove_node_subscriptions (node : string) (m : PubSubMediator) : PubSubMediator :=
  mkMediator (ps_node m) (ps_incarnation m) (local_subs m) (drop_node node (remote_subs m)) (dirty_subs m).

Definition local_subscribers_for (topic : string) (m : PubSubMediator) : gset Z := default ∅ (local_subs m !! topic).
(** The local subscribers in the order of the set, then the remote ones. *)
Definition all_subscribers_for (order_set : gset Z -> list Z)
    (order : gmap string TopicSubscription -> list (string * TopicSubscription)) (topic : string) (m : PubSubMediator)
  : list TopicSubscription :=
  match local_subs m !! topic with
  | Some subs => map (fun a => mkSubscription topic (ps_node m) a 0) (order_set subs)
  | None => []
  end ++
  match remote_subs m !! topic with Some t => map snd (order t) | None => [] end.
Definition topic_count (m : PubSubMediator) : Z := Z.of_nat (size (local_subs m)).
Definition subscriber_count (topic : string) (m : PubSubMediator) : Z :=
  match local_subs m !! topic with Some s => Z.of_nat (size s) | None => 0 end.
Definition drain_dirty_subscriptions (m : PubSubMediator) : list TopicSubscription * PubSubMediator :=
  (dirty_subs m, mkMediator (ps_node m) (ps_incarnation m) (local_subs m) (remote_subs m) []).

(** ** Merging *)

(** The entry of a node under a key. *)
Definition entry_of {V} (t : gmap string (gmap string V)) (k n : string) : option V := t !! k ≫= (.!! n).

Lemma entry_of_insert {V} (t : gmap string (gmap string V)) k m x n :
  entry_of (<[k := m]> t) x n = if bool_decide (x = k) then m !! n else entry_of t x n.
Proof.
  unfold entry_of. case_bool_decide as E; [subst; by rewrite lookup_insert_eq|by rewrite lookup_insert_ne].
Qed.
Lemma entry_of_default {V} (t : gmap string (gmap string V)) k n : default ∅ (t !! k) !! n = entry_of t k n.
Proof. unfold entry_of. by destruct (t !! k). Qed.

Lemma merge_entry t r k n :
  entry_of (merge_registration t r) k n =
  if bool_decide (k = reg_key r) && bool_decide (n = reg_node r) then
    match entry_of t k n with
    | Some old => if reg_incarnation r <=? reg_incarnation old then Some old else Some r
    | None => Some r
    end
  else entry_of t k n.
Proof.
  unfold merge_registration. rewrite entry_of_default.
  destruct (entry_of t (reg_key r) (reg_node r)) as [old|] eqn:E;
    [destruct (reg_incarnation r <=? reg_incarnation old) eqn:I|]; rewrite entry_of_insert;
    repeat case_bool_decide; subst; simpl; rewrite ?entry_of_default, ?E, ?I;
    rewrite ?lookup_insert_eq, ?lookup_insert_ne by congruence; rewrite ?entry_of_default; try done.
Qed.

(** [r] is the newest registration of its node under its key in [l]. *)
Definition newest (l : list ClusterRegistration) (k n : string) (r : ClusterRegistration) : Prop :=
  r ∈ l /\ reg_key r = k /\ reg_node r = n /\
  forall r', r' ∈ l -> reg_key r' = k -> reg_node r' = n -> reg_incarnation r' <= reg_incarnation r.

Lemma fold_newest l t k n :
  entry_of t k n = None ->
  match entry_of (foldl merge_registration t l) k n with
  | Some r => newest l k n r
  | None => forall r, r ∈ l -> reg_key r = k -> reg_node r <> n
  end.
Proof.
  intros H0. induction l as [|x l IH] using rev_ind; simpl.
  { rewrite H0. by intros r ?%elem_of_nil. }
  rewrite foldl_app. simpl. rewrite merge_entry.
  destruct (bool_decide (k = reg_key x) && bool_decide (n = reg_node x)) eqn:E.
  - bool_to_prop. subst k n. destruct (entry_of (foldl _ t l) _ _) as [old|].
    + destruct IH as (I & K & N & M). destruct (Z.leb_spec (reg_incarnation x) (reg_incarnation old)).
      * split; [set_solver|]. split; [done|]. split; [done|].
        intros r' [Hr| ->%list_elem_of_singleton]%elem_of_app ? ?; [by apply M|done].
      * split; [set_solver|]. split; [done|]. split; [done|].
        intros r' [Hr| ->%list_elem_of_singleton]%elem_of_app ? ?; [specialize (M r' Hr ltac:(done) ltac:(done)); lia|lia].
    + split; [set_solver|]. split; [done|]. split; [done|].
      intros r' [Hr| ->%list_elem_of_singleton]%elem_of_app Kr Nr; [by apply IH in Hr|lia].
  - apply andb_false_iff in E.
    assert (X : reg_key x = k -> reg_node x = n -> False).
    { intros <- <-. by destruct E as [E%bool_decide_eq_false|E%bool_decide_eq_false]. }
    destruct (entry_of (foldl _ t l) _ _) as [old|].
    + destruct IH as (I & K & N & M). split; [set_solver|]. split; [done|]. split; [done|].
      intros r' [Hr| ->%list_elem_of_singleton]%elem_of_app Kr Nr; [by apply M|by destruct X].
    + intros r [Hr| ->%list_elem_of_singleton]%elem_of_app Kr Nr; [by eapply IH|by apply X].
Qed.

(** ** What a node announces *)

Definition announce_all (node : string) (ops : list (string * list Z)) : ClusterReceptionist :=
  foldl (fun c '(k, ids) => apply_local_registration k ids c) (receptionist_init node) ops.

Lemma announce_snoc node ops k ids :
  announce_all node (ops ++ [(k, ids)]) = apply_local_registration k ids (announce_all node ops).
Proof. unfold announce_all. by rewrite foldl_app. Qed.

(** Incarnations count up, and the last announcement of a key is its local entry. *)
Lemma announce_inv node ops :
  zlen ops < 18446744073709551616 ->
  let c := announce_all node ops in
  cr_node c = node /\ cr_incarnation c = zlen ops /\
  (forall r, r ∈ dirty_regs c -> reg_node r = node /\ reg_incarnation r <= zlen ops) /\
  (forall k, match local_regs c !! k with
    | Some ids => exists r, r ∈ dirty_regs c /\ reg_key r = k /\ actor_ids r = ids /\
        forall r', r' ∈ dirty_regs c -> reg_key r' = k -> reg_incarnation r' <= reg_incarnation r /\
          (reg_incarnation r' = reg_incarnation r -> r' = r)
    | None => forall r, r ∈ dirty_regs c -> reg_key r <> k
    end).
Proof.
  induction ops as [|[k0 ids0] ops IH] using rev_ind; intros Hlen; cbv zeta.
  { simpl. split; [done|]. split; [done|]. split; [by intros r ?%elem_of_nil|].
    intros k. rewrite lookup_empty. by intros r ?%elem_of_nil. }
  assert (L : zlen (ops ++ [(k0, ids0)]) = zlen ops + 1) by (unfold zlen; rewrite length_app; simpl; lia).
  destruct IH as (N & I & D & K); [lia|]. rewrite announce_snoc. unfold apply_local_registration.
  cbn [cr_node cr_incarnation local_regs dirty_regs]. rewrite I, N.
  assert (U : u64 (zlen ops + 1) = zlen ops + 1) by (apply u64_small; unfold zlen in *; lia).
  rewrite U, L. split; [done|]. split; [done|]. split.
  - intros r [Hr| ->%list_elem_of_singleton]%elem_of_app; [|simpl; split; [done|lia]].
    destruct (D r Hr). split; [done|lia].
  - intros k. destruct (decide (k = k0)) as [->|Hne].
    + rewrite lookup_insert_eq. eexists. split; [apply elem_of_app; right; by left|]. simpl.
      split; [done|]. split; [done|].
      intros r' [Hr| ->%list_elem_of_singleton]%elem_of_app _; [|done]. destruct (D r' Hr). split; lia.
    + rewrite lookup_insert_ne by done. specialize (K k). destruct (local_regs _ !! k) as [ids|].
      * destruct K as (r & Hr & Kr & Ar & M). exists r. split; [set_solver|]. split; [done|]. split; [done|].
        intros r' [Hr'| ->%list_elem_of_singleton]%elem_of_app Kr'; [by apply M|]. simpl in Kr'. congruence.
      * intros r [Hr| ->%list_elem_of_singleton]%elem_of_app; [by apply K|]. simpl. congruence.
Qed.

(** C28. What other nodes know of a node is what it registered last: once everything
    it announced has arrived, in any order, any number of times, and between the
    announcements of any other nodes, the entries under its name are its local
    table, key by key. *)
Theorem receptionist_converges (node : string) (ops : list (string * list Z)) (receiver : ClusterReceptionist)
    (seen : list ClusterRegistration) (key : string) :
  zlen ops < 18446744073709551616 ->
  (forall k, entry_of (remote_regs receiver) k node = None) ->
  (forall r, reg_node r = node -> r ∈ seen <-> r ∈ dirty_regs (announce_all node ops)) ->
  actor_ids <$> entry_of (remote_regs (foldl (fun c r => merge_remote_registration r c) receiver seen)) key node
  = local_regs (announce_all node ops) !! key.
Proof.
  intros Hlen H0 Hseen. destruct (announce_inv node ops Hlen) as (_ & _ & D & K). specialize (K key).
  assert (R : forall l c, remote_regs (foldl (fun c r => merge_remote_registration r c) c l)
                          = foldl merge_registration (remote_regs c) l).
  { induction l as [|r l IH]; intros c; [done|]. simpl. by rewrite IH. }
  rewrite R. pose proof (fold_newest seen _ key node (H0 key)) as F.
  destruct (entry_of _ key node) as [r|]; simpl.
  - destruct F as (I & Kr & Nr & M). apply (Hseen r Nr) in I.
    destruct (local_regs _ !! key) as [ids|]; [|by destruct (K r)].
    destruct K as (r0 & Hr0 & K0 & A0 & M0). destruct (M0 r I Kr) as [Hle Heq].
    assert (Hr0' : r0 ∈ seen) by (apply Hseen; [by destruct (D r0 Hr0)|done]).
    specialize (M r0 Hr0' K0 (proj1 (D r0 Hr0))). rewrite (Heq ltac:(lia)). by rewrite A0.
  - destruct (local_regs _ !! key) as [ids|]; [|done]. destruct K as (r0 & Hr0 & K0 & _).
    destruct (D r0 Hr0) as [N0 _]. destruct (F r0); [by apply Hseen|done|done].
Qed.

Lemma receptionist_converges_witness :
  let ops := [("db", [1]); ("web", [2; 3]); ("db", [4])] in
  let seen := reverse (dirty_regs (announce_all "a" ops)) in
  actor_ids <$> entry_of (remote_regs (foldl (fun c r => merge_remote_registration r c) (receptionist_init "b") seen)) "db" "a"
  = local_regs (announce_all "a" ops) !! "db".
Proof.
  apply (receptionist_converges "a" [("db", [1]); ("web", [2; 3]); ("db", [4])] (receptionist_init "b")).
  - reflexivity.
  - intros k. unfold entry_of. simpl. by rewrite lookup_empty.
  - intros r _. apply elem_of_reverse.
Defined.

(** ** The mediator *)

Inductive PubSubOp :=
| PSubscribe (topic : string) (actor : Z) | PUnsubscribe (topic : string) (actor : Z)
| PMerge (s : TopicSubscription) | PRemoveNode (node : string) | PDrain.
Definition pubsub_op (m : PubSubMediator) (o : PubSubOp) : PubSubMediator :=
  match o with
  | PSubscribe t a => (subscribe t a m).2
  | PUnsubscribe t a => unsubscribe t a m
  | PMerge s => merge_remote_subscription s m
  | PRemoveNode n => remove_node_subscriptions n m
  | PDrain => (drain_dirty_subscriptions m).2
  end.

Definition pubsub_inv (m : PubSubMediator) : Prop :=
  topic_count m <= kMaxTopics /\
  map_Forall (fun _ s => s <> ∅ /\ Z.of_nat (size s) <= kMaxSubscribersPerTopic) (local_subs m).

Lemma size_insert_le (t : gmap string (gset Z)) k s :
  Z.of_nat (size (<[k := s]> t)) <= kMaxTopics <->
  Z.of_nat (size t) + (if bool_decide (is_Some (t !! k)) then 0 else 1) <= kMaxTopics.
Proof.
  destruct (t !! k) as [s0|] eqn:E.
  - rewrite map_size_insert_Some by eauto. simpl. lia.
  - rewrite map_size_insert_None by done. rewrite bool_decide_eq_false_2 by (by intros [? ?]). lia.
Qed.

Lemma pubsub_op_inv m o : pubsub_inv m -> pubsub_inv (pubsub_op m o).
Proof.
  intros [T F]. destruct o as [t a|t a|s|n|]; simpl; try done.
  - unfold subscribe. destruct (local_subs m !! t) as [s|] eqn:E; simpl.
    + rewrite andb_false_r.
      unfold pubsub_inv, topic_count in *.
      destruct (decide (a ∈ s)) as [Ha|Ha].
      * rewrite (bool_decide_eq_true_2 (a ∈ s)) by done. rewrite andb_false_r. simpl.
        rewrite insert_id by done. done.
      * rewrite (bool_decide_eq_false_2 (a ∈ s)) by done. rewrite andb_true_r.
        case_match; simpl; [rewrite insert_id by done; done|]. apply Z.leb_gt in H.
        split; [apply size_insert_le; rewrite E; simpl; lia|].
        apply map_Forall_insert_2; [|done]. split; [set_solver|].
        rewrite size_union, size_singleton by set_solver. unfold kMaxSubscribersPerTopic in *. lia.
    + rewrite andb_true_r. case_match; [done|]. apply Z.leb_gt in H. unfold pubsub_inv, topic_count in *.
      change (kMaxSubscribersPerTopic <=? _) with false. cbn [andb]. rewrite bool_decide_eq_false_2 by set_solver. simpl.
      split; [apply size_insert_le; rewrite E; rewrite bool_decide_eq_false_2 by (by intros [? ?]); lia|].
      apply map_Forall_insert_2; [|done]. split; [set_solver|].
      rewrite union_empty_r_L, size_singleton. unfold kMaxSubscribersPerTopic. lia.
  - unfold unsubscribe. destruct (local_subs m !! t) as [s|] eqn:E; [|done].
    unfold pubsub_inv, topic_count in *. simpl. case_bool_decide as Hs.
    + split; [|by apply map_Forall_delete]. rewrite map_size_delete, E. lia.
    + split; [apply size_insert_le; rewrite E; simpl; lia|]. apply map_Forall_insert_2; [|done].
      split; [done|]. pose proof (proj2 (F _ _ E)). simpl in *.
      pose proof (subseteq_size (s ∖ {[a]}) s ltac:(set_solver)). lia.
Qed.

(** The tables stay within their capacities on every history, and no topic is
    kept without a subscriber. *)
Theorem pubsub_bounded (node : string) (ops : list PubSubOp) :
  let m := foldl pubsub_op (mediator_init node) ops in
  topic_count m <= kMaxTopics /\
  forall t, (subscriber_count t m <= kMaxSubscribersPerTopic /\ (is_Some (local_subs m !! t) -> 0 < subscriber_count t m)).
Proof.
  cbv zeta.
  assert (I : forall m, pubsub_inv m -> pubsub_inv (foldl pubsub_op m ops)).
  { induction ops as [|o ops IH]; [done|]. simpl. intros m Hm. by apply IH, pubsub_op_inv. }
  destruct (I (mediator_init node)) as [T F]; [split; [done|apply map_Forall_empty]|].
  split; [done|]. intros t. unfold subscriber_count.
  destruct (local_subs _ !! t) as [s|] eqn:E; [|split; [done|by intros [? ?]]].
  destruct (F _ _ E) as [Hn Hs]. split; [done|]. intros _.
  destruct (decide (size s = 0%nat)) as [Z0|]; [|lia]. by apply size_empty_inv, leibniz_equiv in Z0.
Qed.

(** The table of remote subscribers has one entry for a node and a topic: when
    two actors of a node subscribe to a topic, the other nodes know the second
    only, and a publication there never reaches the first. *)
Theorem second_subscriber_replaces_first :
  let a := (subscribe "news" 2 (subscribe "news" 1 (mediator_init "a")).2).2 in
  let b := foldl (fun m s => merge_remote_subscription s m) (mediator_init "b") (dirty_subs a) in
  local_subscribers_for "news" a = {[1; 2]} /\
  map subscriber_actor_id (all_subscribers_for elements map_to_list "news" b) = [2].
Proof. split; vm_compute; reflexivity. Qed.

(** A subscription that was withdrawn is not announced: other nodes keep it. *)
Theorem unsubscribe_not_announced :
  let a := (subscribe "news" 1 (mediator_init "a")).2 in
  let b := foldl (fun m s => merge_remote_subscription s m) (mediator_init "b") (dirty_subs a) in
  let a' := unsubscribe "news" 1 (drain_dirty_subscriptions a).2 in
  topic_count a' = 0 /\ dirty_subs a' = [] /\ map subscriber_actor_id (all_subscribers_for elements map_to_list "news" b) = [1].
Proof. split; [|split]; vm_compute; reflexivity. Qed.
