(* ===== verification/RpcChannel.v ===== *)
(** * Remote calls

    [rpc/rpc_channel.hpp], [rpc/rpc_channel.cpp]: the calls in flight with their
    retries, deadlines and promises.  The scheduler and the transport are logs:
    the timers that were scheduled and have not fired, the requests that were
    sent.  A timer fires as an event of its own, with the clock readings of the
    handler.  The counter of message identifiers is shared by the whole process,
    so other users may advance it.  The theorems: every call is settled at most
    once, is never lost and sends a bounded number of requests; firing its timers
    settles it; and the answer to a repeated request comes too late for a caller
    that waits from the start. *)

From S2P Require Import Prelude.
From stdpp Require Import base numbers list gmap.

#[local] Open Scope Z_scope.

(** ** Data *)

(** [static_cast<int>]. *)
Definition to_int (z : Z) : Z := (z + 2147483648) mod 4294967296 - 2147483648.

Section Rpc.
Context {Address Trace : Type} (trace_is_valid : Trace -> bool).

Record PendingCall := mkCall {
  pc_msg_id : Z;
  pc_target : Address;
  pc_request : list Z;
  pc_timeout : Z;               (* milliseconds *)
  pc_retry_count : Z;
  pc_max_retries : Z;
  pc_deadline : Z;              (* nanoseconds of the steady clock *)
  pc_ready : bool;
  pc_trace : option Trace
}.

Inductive RpcResult := RpcValue (payload : list Z) | RpcAborted | RpcDeadlineExpired | RpcTimedOut.

(** A request frame: [flags] as on the wire. *)
Record RpcRequestFrame := mkRequest { rq_id : Z; rq_target : Address; rq_payload : list Z; rq_flags : Z; rq_trace : option Trace }.

Record RpcChannel := mkChannel {
  default_max_retries : Z;                  (* uint32 *)
  rc_pending : gmap Z PendingCall;
  rc_next_id : Z;                           (* [generate_message_id] *)
  rc_timers : list (Z * Z);                 (* call, delay in nanoseconds *)
  rc_sent : list RpcRequestFrame;
  rc_settled : list (Z * RpcResult * Z)     (* call, value of its promise, time *)
}.
Definition rpc_init (retries : Z) : RpcChannel := mkChannel retries ∅ 1 [] [] [].

Definition RpcRequestFlag : Z := 4.
Definition RpcIdempotentFlag : Z := 16.

Definition set_calls (c : RpcChannel) (m : gmap Z PendingCall) : RpcChannel :=
  mkChannel (default_max_retries c) m (rc_next_id c) (rc_timers c) (rc_sent c) (rc_settled c).
Definition set_rpc_timers (c : RpcChannel) (l : list (Z * Z)) : RpcChannel :=
  mkChannel (default_max_retries c) (rc_pending c) (rc_next_id c) l (rc_sent c) (rc_settled c).
Definition rpc_schedule (c : RpcChannel) (id delay_ns : Z) : RpcChannel := set_rpc_timers c (rc_timers c ++ [(id, delay_ns)]).
Definition rpc_settle (c : RpcChannel) (id : Z) (r : RpcResult) (now : Z) : RpcChannel :=
  mkChannel (default_max_retries c) (rc_pending c) (rc_next_id c) (rc_timers c) (rc_sent c) (rc_settled c ++ [(id, r, now)]).

(** ** Operations *)

Definition send_request (call : PendingCall) (is_retry : bool) (c : RpcChannel) : RpcChannel :=
  let f := mkRequest (pc_msg_id call) (pc_target call) (pc_request call)
             (if is_retry then Z.lor RpcRequestFlag RpcIdempotentFlag else RpcRequestFlag) (pc_trace call) in
  mkChannel (default_max_retries c) (rc_pending c) (rc_next_id c) (rc_timers c) (rc_sent c ++ [f]) (rc_settled c).

(** [generate_message_id]. *)
Definition rpc_generate (c : RpcChannel) : Z * RpcChannel :=
  (rc_next_id c, mkChannel (default_max_retries c) (rc_pending c) (u64 (rc_next_id c + 1)) (rc_timers c) (rc_sent c) (rc_settled c)).

(** The deadline over all attempts. *)
Definition call_deadline (max_retries timeout_ms now : Z) : Z :=
  let total := if 0 <? max_retries then i64 (timeout_ms * (max_retries + 1)) else timeout_ms in
  i64 (now + i64 (total * 1000000)).

Definition call_raw (target : Address) (request : list Z) (timeout_ms : Z) (parent : option Trace) (now : Z)
    (c : RpcChannel) : Z * RpcChannel :=
  let '(id, c) := rpc_generate c in
  let retries := to_int (default_max_retries c) in
  let trace := match parent with Some t => if trace_is_valid t then Some t else None | None => None end in
  let call := mkCall id target request timeout_ms 0 retries (call_deadline retries timeout_ms now) false trace in
  (* [emplace] keeps an entry that is already there *)
  let c := match rc_pending c !! id with Some _ => c | None => set_calls c (<[id := call]> (rc_pending c)) end in
  (id, rpc_schedule (send_request call false c) id (i64 (timeout_ms * 1000000))).

Definition on_response (id : Z) (payload : list Z) (now : Z) (c : RpcChannel) : RpcChannel :=
  match rc_pending c !! id with
  | None => c
  | Some _ => rpc_settle (set_calls c (delete id (rc_pending c))) id (RpcValue payload) now
  end.

Definition fail_call (id : Z) (r : RpcResult) (now : Z) (c : RpcChannel) : RpcChannel :=
  set_calls (rpc_settle c id r now) (delete id (rc_pending c)).

Definition deadline_passed (call : PendingCall) (now : Z) : bool :=
  negb (pc_deadline call =? INT64_MAX) && (pc_deadline call <=? now).

Definition bump_retry (call : PendingCall) : PendingCall :=
  mkCall (pc_msg_id call) (pc_target call) (pc_request call) (pc_timeout call) (pc_retry_count call + 1)
    (pc_max_retries call) (pc_deadline call) (pc_ready call) (pc_trace call).

(** The delay before the next attempt, in milliseconds; it is rounded down, so
    that it can be zero before the deadline. *)
Definition retry_delay (call : PendingCall) (now : Z) : Z :=
  Z.min (pc_timeout call) (Z.quot (i64 (pc_deadline call - now)) 1000000).

(** [on_timeout] and [schedule_retry], which call each other.  The clock readings
    of the handler are [clock 0], [clock 1], ... *)
Fixpoint on_timeout_loop (fuel : nat) (clock : nat -> Z) (id : Z) (c : RpcChannel) : RpcChannel :=
  match rc_pending c !! id with
  | None => c
  | Some call =>
      if deadline_passed call (clock 0%nat) then fail_call id RpcDeadlineExpired (clock 0%nat) c
      else if pc_retry_count call <? pc_max_retries call then
        let call := bump_retry call in
        let c := set_calls c (<[id := call]> (rc_pending c)) in
        let delay_ms := retry_delay call (clock 1%nat) in
        if delay_ms <=? 0 then
          match fuel with
          | O => c
          | S fuel => on_timeout_loop fuel (fun n => clock (S (S n))) id c
          end
        else send_request call true (rpc_schedule c id (i64 (delay_ms * 1000000)))
      else fail_call id RpcTimedOut (clock 0%nat) c
  end.

(** No more turns than there are retries. *)
Definition on_timeout (clock : nat -> Z) (id : Z) (c : RpcChannel) : RpcChannel :=
  on_timeout_loop (Z.to_nat (to_int (default_max_retries c))) clock id c.

(** [order] is the iteration order of the map. *)
Definition abort_one (now : Z) (c : RpcChannel) (id : Z) : RpcChannel :=
  match rc_pending c !! id with
  | Some call => if pc_ready call then c else rpc_settle c id RpcAborted now
  | None => c
  end.
Definition rpc_abort (order : list Z) (now : Z) (c : RpcChannel) : RpcChannel :=
  set_calls (fold_left (abort_one now) order c) ∅.

(** [RpcFuture::get] at time [at_ns], given when the promise was settled. *)
Definition future_get (settled : option (RpcResult * Z)) (at_ns timeout_ms : Z) : RpcResult :=
  match settled with
  | Some (r, t) => if t <=? at_ns + timeout_ms * 1000000 then r else RpcTimedOut
  | None => RpcTimedOut
  end.

(** ** Runs *)

Inductive RpcEvent :=
| RCall (target : Address) (request : list Z) (timeout_ms : Z) (parent : option Trace) (now : Z)
| ROther                                          (* another user of the counter *)
| RResponse (id : Z) (payload : list Z) (now : Z)
| RTimer (k : nat) (clock : nat -> Z)             (* the k-th timer fires *)
| RAbort (order : list Z) (now : Z).

Definition fire_timer (k : nat) (clock : nat -> Z) (c : RpcChannel) : RpcChannel :=
  match rc_timers c !! k with
  | Some (id, _) => on_timeout clock id (set_rpc_timers c (delete k (rc_timers c)))
  | None => c
  end.

Definition rpc_step (c : RpcChannel) (e : RpcEvent) : RpcChannel :=
  match e with
  | RCall target request timeout parent now => (call_raw target request timeout parent now c).2
  | ROther => (rpc_generate c).2
  | RResponse id payload now => on_response id payload now c
  | RTimer k clock => fire_timer k clock c
  | RAbort order now => if bool_decide (order ≡ₚ (map_to_list (rc_pending c)).*1) then rpc_abort order now c else c
  end.
Definition rpc_run (c : RpcChannel) (evs : list RpcEvent) : RpcChannel := fold_left rpc_step evs c.

Definition settled_ids (c : RpcChannel) : list Z := (fun e => e.1.1) <$> rc_settled c.
Definition requests (c : RpcChannel) (id : Z) : Z := zlen (List.filter (fun f => rq_id f =? id) (rc_sent c)).
Definition retries (c : RpcChannel) : Z := Z.max 0 (to_int (default_max_retries c)).
Definition has_timer (c : RpcChannel) (id : Z) : Prop := id ∈ (rc_timers c).*1.

(** ** The invariant *)

Record call_ok (c : RpcChannel) (id : Z) (call : PendingCall) : Prop := {
  co_id : pc_msg_id call = id;
  co_ready : pc_ready call = false;
  co_max : pc_max_retries call = to_int (default_max_retries c);
  co_retry : 0 <= pc_retry_count call <= retries c;
  co_sent : requests c id <= pc_retry_count call + 1
}.

(** [x] is a call whose timer has fired and is being handled. *)
Record rpc_inv (x : option Z) (c : RpcChannel) : Prop := {
  ri_call : forall id call, rc_pending c !! id = Some call -> call_ok c id call;
  ri_timer : forall id, is_Some (rc_pending c !! id) -> x <> Some id -> has_timer c id;
  ri_open : forall id, is_Some (rc_pending c !! id) -> id ∉ settled_ids c;
  ri_once : NoDup (settled_ids c);
  ri_known : forall f, f ∈ rc_sent c -> is_Some (rc_pending c !! rq_id f) \/ rq_id f ∈ settled_ids c;
  ri_asked : forall id, is_Some (rc_pending c !! id) -> 1 <= requests c id;
  ri_sent : forall id, requests c id <= retries c + 1;
  ri_fresh : forall id, is_Some (rc_pending c !! id) \/ id ∈ settled_ids c \/ (exists f, f ∈ rc_sent c /\ rq_id f = id) ->
    id < rc_next_id c
}.

Lemma settled_ids_settle c id r now : settled_ids (rpc_settle c id r now) = settled_ids c ++ [id].
Proof. unfold settled_ids. simpl. by rewrite fmap_app. Qed.

Lemma requests_send (call : PendingCall) is_retry c id :
  requests (send_request call is_retry c) id = requests c id + (if pc_msg_id call =? id then 1 else 0).
Proof.
  unfold requests. simpl. rewrite List.filter_app, zlen_app. simpl. destruct (pc_msg_id call =? id); simpl.
  - by rewrite zlen_cons, zlen_nil.
  - by rewrite zlen_nil.
Qed.

Lemma fail_call_inv x c id r now :
  rpc_inv x c -> is_Some (rc_pending c !! id) -> x = None \/ x = Some id -> rpc_inv None (fail_call id r now c).
Proof.
  intros I Hp Hx. destruct I as [Ic It Io In Ik Ia Is If].
  assert (Hs : settled_ids (fail_call id r now c) = settled_ids c ++ [id]) by apply (settled_ids_settle c id r now).
  split; rewrite ?Hs; simpl.
  - intros k call [Hk Hl]%lookup_delete_Some. destruct (Ic k call Hl). by split.
  - intros k [call [Hk Hl]%lookup_delete_Some] _. apply It; [eauto|]. destruct Hx as [->| ->]; congruence.
  - intros k [call [Hk Hl]%lookup_delete_Some]. specialize (Io k (mk_is_Some _ _ Hl)). set_solver.
  - apply NoDup_app. repeat split; [done| |apply NoDup_singleton]. intros k Hk ->%list_elem_of_singleton. by apply (Io id).
  - intros f Hf. destruct (decide (rq_id f = id)) as [->|Hne]; [right; set_solver|].
    rewrite lookup_delete_ne by done. destruct (Ik f Hf); [by left|right; set_solver].
  - intros k [call [Hk Hl]%lookup_delete_Some]. apply Ia. eauto.
  - done.
  - intros k [[call [Hk Hl]%lookup_delete_Some]|[Hk|Hk]]; [apply If; eauto| |by apply If; eauto].
    apply elem_of_app in Hk as [Hk| ->%list_elem_of_singleton]; apply If; eauto.
Qed.

Lemma bump_inv c id call :
  rpc_inv (Some id) c -> rc_pending c !! id = Some call -> pc_retry_count call < pc_max_retries call ->
  rpc_inv (Some id) (set_calls c (<[id := bump_retry call]> (rc_pending c))).
Proof.
  intros [Ic It Io In Ik Ia Is If] Hp Hr.
  assert (Hsome : forall k, is_Some ((<[id := bump_retry call]> (rc_pending c)) !! k) <-> is_Some (rc_pending c !! k)).
  { intros k. rewrite lookup_insert_is_Some. split; [intros [<-|[_ ?]]; eauto|]. intros H.
    destruct (decide (id = k)); eauto. }
  split; simpl.
  - intros k call' [[<- <-]|[Hk Hl]]%lookup_insert_Some; [|destruct (Ic k call' Hl); by split].
    destruct (Ic id call Hp) as [H1 H2 H3 [H4 H4'] H5]. split; simpl; try done; [|change (requests _ id) with (requests c id); lia].
    change (retries (set_calls _ _)) with (retries c). unfold retries in *. lia.
  - intros k Hk. rewrite Hsome in Hk. by apply It.
  - intros k Hk. rewrite Hsome in Hk. by apply Io.
  - done.
  - intros f Hf. rewrite Hsome. by apply Ik.
  - intros k Hk. rewrite Hsome in Hk. by apply Ia.
  - done.
  - intros k Hk. rewrite Hsome in Hk. by apply If.
Qed.

Lemma rpc_resend_inv c id call delay :
  rpc_inv (Some id) c -> rc_pending c !! id = Some call -> requests c id <= pc_retry_count call ->
  rpc_inv None (send_request call true (rpc_schedule c id delay)).
Proof.
  intros [Ic It Io In Ik Ia Is If] Hp Hr. destruct (Ic id call Hp) as [H1 H2 H3 H4 H5].
  assert (Hreq : forall k, requests (send_request call true (rpc_schedule c id delay)) k
    = requests c k + if id =? k then 1 else 0) by (intros k; rewrite requests_send, H1; done).
  split; simpl.
  - intros k call' Hl. destruct (Ic k call' Hl) as [J1 J2 J3 J4 J5]. split; try done. rewrite Hreq.
    destruct (id =? k) eqn:E; bool_to_prop; [|lia]. rewrite <- E, Hp in Hl. injection Hl as <-. rewrite <- E. lia.
  - intros k Hk _. unfold has_timer. simpl. rewrite fmap_app, elem_of_app. destruct (decide (id = k)) as [->|Hne].
    + right. set_solver.
    + left. apply It; [done|congruence].
  - done.
  - done.
  - intros f [Hf| ->%list_elem_of_singleton]%elem_of_app; [by apply Ik|]. simpl. rewrite H1. eauto.
  - intros k Hk. rewrite Hreq. specialize (Ia k Hk). destruct (id =? k); lia.
  - intros k. rewrite Hreq. change (retries (send_request _ _ _)) with (retries c).
    destruct (id =? k) eqn:E; bool_to_prop; [|specialize (Is k); lia]. rewrite <- E. lia.
  - intros k [?|[?|(f & [Hf| ->%list_elem_of_singleton]%elem_of_app & Hid)]]; [apply If; eauto..|].
    apply If. left. simpl in Hid. rewrite <- Hid, H1. eauto.
Qed.

(** What the handler of a timer leaves: the call is settled, or it has a timer
    again and a higher count; the fuel covers the retries that are left. *)
Record timeout_effect (id : Z) (c c' : RpcChannel) : Prop := {
  te_inv : rpc_inv None c';
  te_max : default_max_retries c' = default_max_retries c;
  te_next : rc_next_id c' = rc_next_id c;
  te_others : forall k, k <> id -> rc_pending c' !! k = rc_pending c !! k;
  te_progress : forall call', rc_pending c' !! id = Some call' ->
    exists call, rc_pending c !! id = Some call /\ pc_retry_count call < pc_retry_count call'
}.

Lemma fail_call_effect id r now c : rpc_inv (Some id) c -> is_Some (rc_pending c !! id) -> timeout_effect id c (fail_call id r now c).
Proof.
  intros I Hp. split; try done; simpl.
  - eapply fail_call_inv; eauto.
  - intros k Hk. by rewrite lookup_delete_ne.
  - intros call'. by rewrite lookup_delete_eq.
Qed.

Lemma timeout_loop_effect fuel : forall clock id c,
  rpc_inv (Some id) c ->
  (forall call, rc_pending c !! id = Some call -> (Z.to_nat (pc_max_retries call - pc_retry_count call) <= fuel)%nat) ->
  timeout_effect id c (on_timeout_loop fuel clock id c).
Proof.
  induction fuel as [|fuel IH]; intros clock id c I Hfuel; cbn [on_timeout_loop];
    (destruct (rc_pending c !! id) as [call|] eqn:Hp;
      [|split; try done; [destruct I as [? It]; split; try done; intros k Hk _; apply It; [done|]; intros [= <-];
         rewrite Hp in Hk; by destruct Hk|congruence]]);
    (destruct (deadline_passed call (clock 0%nat)); [apply fail_call_effect; eauto|]);
    (destruct (pc_retry_count call <? pc_max_retries call) eqn:Er; bool_to_prop; [|apply fail_call_effect; eauto]);
    specialize (Hfuel call eq_refl); [lia|].
  set (c1 := set_calls c _). pose proof (bump_inv c id call I Hp Er) as I1. fold c1 in I1.
  assert (Hp1 : rc_pending c1 !! id = Some (bump_retry call)) by (simpl; by rewrite lookup_insert_eq).
  destruct (ri_call _ _ I id call Hp) as [H1 H2 H3 H4 H5].
  destruct (retry_delay (bump_retry call) (clock 1%nat) <=? 0).
  - destruct (IH (fun n => clock (S (S n))) id c1 I1) as [J1 J2 J3 J4 J5].
    { intros call'. rewrite Hp1. intros [= <-]. simpl. lia. }
    split; [done..| |].
    + intros k Hk. rewrite (J4 k Hk). simpl. by rewrite lookup_insert_ne.
    + intros call' Hc'. destruct (J5 call' Hc') as (call1 & Hc1 & Hlt). rewrite Hp1 in Hc1. injection Hc1 as <-.
      exists call. split; [done|]. simpl in Hlt. lia.
  - split; simpl; try done.
    + eapply rpc_resend_inv; [exact I1|exact Hp1|]. change (requests c1 id) with (requests c id). simpl. lia.
    + intros k Hk. by rewrite lookup_insert_ne.
    + intros call'. rewrite lookup_insert_eq. intros [= <-]. exists call. split; [done|]. simpl. lia.
Qed.

Lemma timer_survives c k id d j :
  rc_timers c !! k = Some (id, d) -> has_timer c j -> Some id <> Some j -> has_timer (set_rpc_timers c (delete k (rc_timers c))) j.
Proof.
  intros Ek It Hne. unfold has_timer in *. simpl.
  apply list_elem_of_fmap in It as ([j' d'] & -> & Hin). apply list_elem_of_fmap. exists (j', d'). split; [done|].
  apply list_elem_of_lookup in Hin as [i Hi]. destruct (decide (i = k)) as [->|Hik]; [simpl in Hne; congruence|].
  apply list_elem_of_lookup. destruct (decide (i < k)%nat).
  - exists i. by rewrite list_lookup_delete_lt.
  - exists (pred i). rewrite list_lookup_delete_ge by lia. by rewrite Nat.succ_pred by lia.
Qed.

(** The timer is taken off the list; its call is then handled. *)
Lemma fired_inv c k id d :
  rpc_inv None c -> rc_timers c !! k = Some (id, d) -> rpc_inv (Some id) (set_rpc_timers c (delete k (rc_timers c))).
Proof.
  intros [Ic It Io In Ik Ia Is If] Ek. split; try done.
  - intros j call Hl. destruct (Ic j call Hl). by split.
  - intros j Hj Hne. by apply (timer_survives c k id d j Ek (It j Hj ltac:(done))).
Qed.

Lemma fired_effect c k id d clock :
  rpc_inv None c -> rc_timers c !! k = Some (id, d) ->
  let c1 := set_rpc_timers c (delete k (rc_timers c)) in timeout_effect id c1 (on_timeout clock id c1).
Proof.
  intros I Ek. apply timeout_loop_effect; [by eapply fired_inv|].
  intros call Hp. simpl in Hp. destruct (ri_call _ _ I id call Hp) as [_ _ H3 H4 _]. simpl. lia.
Qed.

Lemma fire_timer_inv k clock c : rpc_inv None c -> rpc_inv None (fire_timer k clock c).
Proof.
  intros I. unfold fire_timer. destruct (rc_timers c !! k) as [[id d]|] eqn:Ek; [|done].
  by eapply te_inv, fired_effect.
Qed.

Lemma generate_inv c : rpc_inv None c -> rc_next_id c < UINT64_MAX -> 0 <= rc_next_id c -> rpc_inv None (rpc_generate c).2.
Proof.
  intros [Ic It Io In Ik Ia Is If] Hg H0. split; try done; simpl.
  - intros id call Hl. destruct (Ic id call Hl). by split.
  - intros id Hid. specialize (If id Hid). rewrite u64_small by (unfold UINT64_MAX in *; lia). lia.
Qed.

Lemma call_raw_inv target request timeout parent now c :
  rpc_inv None c -> rc_next_id c < UINT64_MAX -> 0 <= rc_next_id c ->
  rpc_inv None (call_raw target request timeout parent now c).2.
Proof.
  intros I Hg H0. pose proof I as [Ic It Io In Ik Ia Is If]. unfold call_raw, rpc_generate. cbn [rc_pending default_max_retries].
  set (id := rc_next_id c). set (call := mkCall _ _ _ _ _ _ _ _ _).
  assert (Hfresh : rc_pending c !! id = None /\ id ∉ settled_ids c /\ requests c id = 0).
  { split; [|split].
    - destruct (rc_pending c !! id) eqn:E; [|done]. specialize (If id ltac:(eauto)). unfold id in If. lia.
    - intros Hin. specialize (If id ltac:(eauto)). unfold id in If. lia.
    - unfold requests. destruct (List.filter _ _) as [|f l] eqn:E; [done|]. exfalso.
      assert (Hf : List.In f (List.filter (fun f => rq_id f =? id) (rc_sent c))) by (rewrite E; by left).
      apply filter_In in Hf as [Hin Hid]. bool_to_prop. apply list_elem_of_In in Hin.
      specialize (If id ltac:(eauto)). unfold id in If. lia. }
  destruct Hfresh as (F1 & F2 & F3). rewrite F1. simpl.
  assert (Hu : u64 (id + 1) = id + 1) by (apply u64_small; unfold UINT64_MAX in *; lia).
  assert (Hreq : forall c' k, rc_sent c' = rc_sent c ->
    requests (rpc_schedule (send_request call false c') id (i64 (timeout * 1000000))) k
    = requests c k + if id =? k then 1 else 0).
  { intros c' k Hc. change (requests (rpc_schedule ?x _ _) k) with (requests x k). rewrite requests_send. unfold requests. by rewrite Hc. }
  split; simpl.
  - intros k call' [[<- <-]|[Hk Hl]]%lookup_insert_Some.
    + split; simpl; try done; [unfold retries; simpl; lia|]. rewrite Hreq, F3, Z.eqb_refl by done. lia.
    + destruct (Ic k call' Hl) as [J1 J2 J3 J4 J5]. split; try done. rewrite Hreq by done.
      rewrite (proj2 (Z.eqb_neq _ _)) by done. lia.
  - intros k Hk _. unfold has_timer. simpl. rewrite fmap_app, elem_of_app.
    apply lookup_insert_is_Some in Hk as [<-|[Hk Hl]]; [right; set_solver|left; by apply It].
  - intros k Hk. apply lookup_insert_is_Some in Hk as [<-|[Hk Hl]]; [done|by apply Io].
  - done.
  - intros f [Hf| ->%list_elem_of_singleton]%elem_of_app; [|left; simpl; by rewrite lookup_insert_eq].
    destruct (Ik f Hf) as [Hs|]; [|by right]. left. apply lookup_insert_is_Some. destruct (decide (id = rq_id f)); eauto.
  - intros k Hk. rewrite Hreq by done. destruct (id =? k) eqn:E; bool_to_prop; [rewrite <- E, F3; lia|].
    apply lookup_insert_is_Some in Hk as [?|[_ Hk]]; [done|]. specialize (Ia k Hk). lia.
  - intros k. rewrite Hreq by done. change (retries (rpc_schedule _ _ _)) with (retries c).
    destruct (id =? k) eqn:E; bool_to_prop; [|specialize (Is k); lia]. rewrite <- E, F3. unfold retries. lia.
  - intros k Hk. rewrite Hu. destruct (decide (k = id)) as [->|Hne]; [lia|]. cut (k < id); [lia|]. apply If.
    destruct Hk as [Hk|[Hk|(f & [Hf| ->%list_elem_of_singleton]%elem_of_app & Hid)]]; eauto.
    + apply lookup_insert_is_Some in Hk as [<-|[_ Hl]]; [done|by left].
    + simpl in Hid. congruence.
Qed.

Lemma on_response_inv id payload now c : rpc_inv None c -> rpc_inv None (on_response id payload now c).
Proof.
  intros I. unfold on_response. destruct (rc_pending c !! id) eqn:Hp; [|done].
  apply (fail_call_inv None c id (RpcValue payload) now I); eauto.
Qed.

Lemma abort_fold now order : forall c,
  NoDup order -> (forall id, id ∈ order -> exists call, rc_pending c !! id = Some call /\ pc_ready call = false) ->
  let c' := fold_left (abort_one now) order c in
  rc_pending c' = rc_pending c /\ settled_ids c' = settled_ids c ++ order /\ rc_sent c' = rc_sent c /\
  default_max_retries c' = default_max_retries c /\ rc_next_id c' = rc_next_id c.
Proof.
  induction order as [|id order IH]; intros c Hnd Hp; simpl; [by rewrite app_nil_r|]. apply NoDup_cons in Hnd as [Hid Hnd].
  destruct (Hp id) as (call & Hl & Hr); [set_solver|].
  assert (E : abort_one now c id = rpc_settle c id RpcAborted now) by (unfold abort_one; by rewrite Hl, Hr).
  rewrite E. destruct (IH (rpc_settle c id RpcAborted now) Hnd) as (-> & -> & -> & -> & ->).
  { intros k Hk. apply Hp. set_solver. }
  by rewrite settled_ids_settle, <- app_assoc.
Qed.

Lemma abort_inv order now c :
  rpc_inv None c -> order ≡ₚ (map_to_list (rc_pending c)).*1 -> rpc_inv None (rpc_abort order now c).
Proof.
  intros I Hord. pose proof I as [Ic It Io In Ik Ia Is If].
  assert (Hin : forall id, id ∈ order <-> is_Some (rc_pending c !! id)).
  { intros id. rewrite Hord, list_elem_of_fmap. split.
    - intros ([k call] & -> & Hk%elem_of_map_to_list). eauto.
    - intros [call Hk]. exists (id, call). by rewrite elem_of_map_to_list. }
  destruct (abort_fold now order c) as (Hp & Hs & Hse & Hm & Hn).
  { rewrite Hord. apply NoDup_fst_map_to_list. }
  { intros id [call Hl]%Hin. exists call. split; [done|]. by apply (co_ready c id call), Ic. }
  unfold rpc_abort. set (c' := fold_left _ _ _) in *. clearbody c'. split; simpl.
  - intros id call Hl. by rewrite lookup_empty in Hl.
  - intros id [call Hl]. by rewrite lookup_empty in Hl.
  - intros id [call Hl]. by rewrite lookup_empty in Hl.
  - change (settled_ids (set_calls c' ∅)) with (settled_ids c'). rewrite Hs. apply NoDup_app. split; [done|]. split.
    + intros id Hid Ho%Hin. by apply (Io id).
    + rewrite Hord. apply NoDup_fst_map_to_list.
  - intros f. change (settled_ids (set_calls c' ∅)) with (settled_ids c'). rewrite Hs, Hse. intros Hf. right.
    rewrite elem_of_app, Hin. destruct (Ik f Hf); eauto.
  - intros id [call Hl]. by rewrite lookup_empty in Hl.
  - intros id. unfold requests, retries. simpl. rewrite Hse, Hm. apply Is.
  - intros id. change (settled_ids (set_calls c' ∅)) with (settled_ids c'). rewrite Hs, Hse, Hn. intros [[? Hl]|[Hid|Hf]].
    + by rewrite lookup_empty in Hl.
    + apply elem_of_app in Hid as [?|?%Hin]; apply If; eauto.
    + apply If; eauto.
Qed.

Definition next_ok (n : Z) (c : RpcChannel) : Prop := 0 <= rc_next_id c /\ rc_next_id c + n < UINT64_MAX.

Lemma abort_one_next now c id : rc_next_id (abort_one now c id) = rc_next_id c /\ default_max_retries (abort_one now c id) = default_max_retries c.
Proof. unfold abort_one. destruct (rc_pending c !! id) as [call|]; [|done]. by destruct (pc_ready call). Qed.
Lemma abort_fold_next now order : forall c,
  rc_next_id (fold_left (abort_one now) order c) = rc_next_id c /\
  default_max_retries (fold_left (abort_one now) order c) = default_max_retries c.
Proof.
  induction order as [|id order IH]; intros c; [done|]. simpl. destruct (IH (abort_one now c id)) as [-> ->]. apply abort_one_next.
Qed.
Lemma loop_next fuel : forall clock id c,
  rc_next_id (on_timeout_loop fuel clock id c) = rc_next_id c /\
  default_max_retries (on_timeout_loop fuel clock id c) = default_max_retries c.
Proof.
  induction fuel as [|fuel IH]; intros clock id c; cbn [on_timeout_loop]; destruct (rc_pending c !! id) as [call|]; try done;
    destruct (deadline_passed _ _); try done; destruct (_ <? _); try done; destruct (_ <=? 0); try done.
  match goal with |- context [on_timeout_loop fuel ?k ?i ?x] => by destruct (IH k i x) as [-> ->] end.
Qed.

Lemma loop_sent fuel : forall clock id c, rc_sent c `prefix_of` rc_sent (on_timeout_loop fuel clock id c).
Proof.
  induction fuel as [|fuel IH]; intros clock id c; cbn [on_timeout_loop]; destruct (rc_pending c !! id) as [call|]; try done;
    destruct (deadline_passed _ _); try done; destruct (_ <? _); try done; destruct (_ <=? 0); try done;
    try (by apply prefix_app_r).
  match goal with |- context [on_timeout_loop fuel ?k ?i ?x] => apply (IH k i x) end.
Qed.
Lemma step_sent e c : rc_sent c `prefix_of` rc_sent (rpc_step c e).
Proof.
  destruct e as [target request timeout parent now| |id payload now|k clock|order now]; simpl.
  - destruct (rc_pending c !! rc_next_id c); by apply prefix_app_r.
  - done.
  - unfold on_response. by destruct (rc_pending c !! id).
  - unfold fire_timer. destruct (rc_timers c !! k) as [[id d]|]; [|done].
    apply (loop_sent _ clock id (set_rpc_timers c (delete k (rc_timers c)))).
  - case_bool_decide; [|done]. simpl. clear. revert c. induction order as [|id order IH]; intros c; [done|]. simpl. etrans; [|apply IH].
    unfold abort_one. destruct (rc_pending c !! id) as [call|]; [|done]. by destruct (pc_ready call).
Qed.
Lemma run_sent evs : forall c, rc_sent c `prefix_of` rc_sent (rpc_run c evs).
Proof. induction evs as [|e evs IH]; intros c; [done|]. simpl. etrans; [apply step_sent|apply IH]. Qed.

Lemma step_next e c : rc_next_id (rpc_step c e) = rc_next_id c \/ rc_next_id (rpc_step c e) = u64 (rc_next_id c + 1).
Proof.
  destruct e as [target request timeout parent now| |id payload now|k clock|order now]; simpl.
  - right. by destruct (rc_pending c !! rc_next_id c).
  - by right.
  - left. unfold on_response. by destruct (rc_pending c !! id).
  - left. unfold fire_timer. destruct (rc_timers c !! k) as [[id d]|]; [|done]. unfold on_timeout. by rewrite (proj1 (loop_next _ _ _ _)).
  - left. case_bool_decide; [|done]. simpl. apply abort_fold_next.
Qed.

Lemma step_max e c : default_max_retries (rpc_step c e) = default_max_retries c.
Proof.
  destruct e as [target request timeout parent now| |id payload now|k clock|order now]; simpl.
  - by destruct (rc_pending c !! rc_next_id c).
  - done.
  - unfold on_response. by destruct (rc_pending c !! id).
  - unfold fire_timer. destruct (rc_timers c !! k) as [[id d]|]; [|done]. unfold on_timeout. by rewrite (proj2 (loop_next _ _ _ _)).
  - case_bool_decide; [|done]. simpl. apply abort_fold_next.
Qed.

Lemma step_inv e c n : 0 <= n -> rpc_inv None c -> next_ok (n + 1) c -> rpc_inv None (rpc_step c e) /\ next_ok n (rpc_step c e).
Proof.
  intros Hn I [H0 H1]. split.
  - destruct e as [target request timeout parent now| |id payload now|k clock|order now].
    + apply call_raw_inv; [done|lia|done].
    + apply generate_inv; [done|lia|done].
    + by apply on_response_inv.
    + by apply fire_timer_inv.
    + simpl. case_bool_decide; [by apply abort_inv|done].
  - unfold next_ok. destruct (step_next e c) as [-> | ->]; [lia|]. rewrite u64_small by (unfold UINT64_MAX in *; lia). lia.
Qed.

Lemma run_inv evs : forall c n, 0 <= n -> rpc_inv None c -> next_ok (n + zlen evs) c ->
  rpc_inv None (rpc_run c evs) /\ next_ok n (rpc_run c evs) /\ default_max_retries (rpc_run c evs) = default_max_retries c.
Proof.
  induction evs as [|e evs IH]; intros c n Hn I H; simpl.
  { rewrite zlen_nil, Z.add_0_r in H. done. }
  rewrite zlen_cons in H. destruct (step_inv e c (n + zlen evs)) as [I' N'].
  - pose proof (zlen_nonneg evs). lia.
  - done.
  - by replace (n + zlen evs + 1) with (n + (1 + zlen evs)) by lia.
  - destruct (IH _ n Hn I' N') as (R1 & R2 & R3). split; [done|]. split; [done|]. etrans; [exact R3|apply step_max].
Qed.

Lemma init_inv r : rpc_inv None (rpc_init r).
Proof.
  assert (Hno : forall id, ~ is_Some (rc_pending (rpc_init r) !! id)) by (intros id [call Hl]; simpl in Hl; by rewrite lookup_empty in Hl).
  split.
  - intros id call Hl. exfalso. by eapply Hno.
  - intros id Hl. by apply Hno in Hl.
  - intros id Hl. by apply Hno in Hl.
  - apply NoDup_nil_2.
  - intros f Hf. by apply elem_of_nil in Hf.
  - intros id Hl. by apply Hno in Hl.
  - intros id. unfold requests, retries. simpl. rewrite zlen_nil. lia.
  - intros id [Hl|[Hid|(f & Hf & _)]]; [by apply Hno in Hl|by apply elem_of_nil in Hid|by apply elem_of_nil in Hf].
Qed.

(** ** What a run guarantees *)

(** C19. Whatever calls, responses, timers and aborts come, in whatever order: a
    promise is set at most once; a call that has been sent is pending or settled,
    not both; a pending call has a timer; and no call is sent more often than the
    retries allow.  The counter of identifiers is assumed not to wrap. *)
Theorem rpc_settles_once (r : Z) (evs : list RpcEvent) :
  zlen evs < UINT64_MAX - 1 ->
  let c := rpc_run (rpc_init r) evs in
  NoDup (settled_ids c) /\
  (forall f, f ∈ rc_sent c ->
     (is_Some (rc_pending c !! rq_id f) \/ rq_id f ∈ settled_ids c) /\ requests c (rq_id f) <= Z.max 0 (to_int r) + 1) /\
  (forall id, is_Some (rc_pending c !! id) -> id ∉ settled_ids c /\ has_timer c id).
Proof.
  intros Hlen c. destruct (run_inv evs (rpc_init r) 0) as (I & _ & Hm); [done|apply init_inv|unfold next_ok; simpl; lia|].
  fold c in I, Hm. destruct I as [Ic It Io In Ik Ia Is If]. split; [done|]. split.
  - intros f Hf. split; [by apply Ik|]. specialize (Is (rq_id f)). unfold retries in Is. rewrite Hm in Is. done.
  - intros id Hid. split; [by apply Io|by apply It].
Qed.

(** The timers of a call that fire along a run. *)
Fixpoint firings (id : Z) (c : RpcChannel) (evs : list RpcEvent) : Z :=
  match evs with
  | [] => 0
  | e :: evs =>
      (match e with RTimer k _ => match rc_timers c !! k with Some (j, _) => if j =? id then 1 else 0 | None => 0 end | _ => 0 end)
      + firings id (rpc_step c e) evs
  end.

Lemma step_pending e c id n call' :
  0 <= n -> rpc_inv None c -> next_ok (n + 1) c -> rc_pending (rpc_step c e) !! id = Some call' ->
  is_Some (rc_pending c !! id) ->
  exists call, rc_pending c !! id = Some call /\
    pc_retry_count call + firings id c [e] <= pc_retry_count call'.
Proof.
  intros Hn I [G0 G1] Hl' Hs. destruct e as [target request timeout parent now| |k payload now|k clock|order now]; simpl in *.
  - exists call'. split; [|lia]. destruct (decide (rc_next_id c = id)) as [<-|Hne].
    + exfalso. pose proof (ri_fresh _ _ I (rc_next_id c) (or_introl Hs)). lia.
    + destruct (rc_pending c !! rc_next_id c); simpl in Hl'; [done|]. by rewrite lookup_insert_ne in Hl'.
  - exists call'. split; [done|lia].
  - exists call'. split; [|lia]. unfold on_response in Hl'. destruct (rc_pending c !! k) eqn:Ek; [|done]. simpl in Hl'.
    by apply lookup_delete_Some in Hl' as [_ Hl'].
  - unfold fire_timer in Hl'. destruct (rc_timers c !! k) as [[j d]|] eqn:Ek; [|exists call'; split; [done|lia]].
    pose proof (fired_effect c k j d clock I Ek) as E.
    destruct (j =? id) eqn:Ej; bool_to_prop.
    + subst j. destruct (te_progress _ _ _ E call' Hl') as (call & Hc & Hlt). exists call. split; [done|lia].
    + rewrite (te_others _ _ _ E id ltac:(done)) in Hl'. exists call'. split; [done|lia].
  - case_bool_decide; [|exists call'; split; [done|lia]]. simpl in Hl'. by rewrite lookup_empty in Hl'.
Qed.

Lemma step_absent e c id : rc_pending c !! id = None -> id < rc_next_id c -> rpc_inv None c -> rc_pending (rpc_step c e) !! id = None.
Proof.
  intros Hn Hlt I. destruct e as [target request timeout parent now| |k payload now|k clock|order now]; simpl.
  - destruct (rc_pending c !! rc_next_id c); simpl; [done|]. rewrite lookup_insert_ne; [done|lia].
  - done.
  - unfold on_response. destruct (rc_pending c !! k); [|done]. simpl. by rewrite lookup_delete_None; right.
  - unfold fire_timer. destruct (rc_timers c !! k) as [[j d]|] eqn:Ek; [|done]. pose proof (fired_effect c k j d clock I Ek) as E.
    destruct (decide (id = j)) as [->|Hne]; [|by rewrite (te_others _ _ _ E id Hne)].
    destruct (rc_pending (on_timeout _ _ _) !! j) as [call'|] eqn:El; [|done].
    destruct (te_progress _ _ _ E call' El) as (call & Hc & _). simpl in Hc. congruence.
  - case_bool_decide; [|done]. simpl. apply lookup_empty.
Qed.

Lemma absent_stays evs : forall c id n, 0 <= n -> rpc_inv None c -> next_ok (n + zlen evs) c ->
  rc_pending c !! id = None -> id < rc_next_id c -> rc_pending (rpc_run c evs) !! id = None.
Proof.
  induction evs as [|e evs IH]; intros c id n Hn I G Hp Hlt; [done|]. rewrite zlen_cons in G. pose proof (zlen_nonneg evs). simpl.
  destruct (step_inv e c (n + zlen evs)) as [I' G']; [lia|done|by replace (n + zlen evs + 1) with (n + (1 + zlen evs)) by lia|].
  apply (IH _ _ n); [done..|by apply step_absent|]. destruct G as [G0 G1].
  destruct (step_next e c) as [-> | ->]; [done|]. rewrite u64_small by (unfold UINT64_MAX in *; lia). lia.
Qed.

Lemma firings_bound evs : forall c id n call call',
  0 <= n -> rpc_inv None c -> next_ok (n + zlen evs) c -> rc_pending c !! id = Some call ->
  rc_pending (rpc_run c evs) !! id = Some call' -> pc_retry_count call + firings id c evs <= pc_retry_count call'.
Proof.
  induction evs as [|e evs IH]; intros c id n call call' Hn I G Hp Hp'.
  { simpl in *. rewrite Hp in Hp'. injection Hp' as <-. lia. }
  rewrite zlen_cons in G. pose proof (zlen_nonneg evs).
  assert (G1 : next_ok (n + zlen evs + 1) c) by by replace (n + zlen evs + 1) with (n + (1 + zlen evs)) by lia.
  destruct (step_inv e c (n + zlen evs)) as [I' G']; [lia|done..|].
  destruct (rc_pending (rpc_step c e) !! id) as [call1|] eqn:E1.
  - destruct (step_pending e c id (n + zlen evs) call1) as (call0 & Hc0 & Hle); [lia|done..|eauto|].
    rewrite Hp in Hc0. injection Hc0 as <-. specialize (IH _ id n call1 call' Hn I' G' E1 Hp'). simpl in *. lia.
  - exfalso. assert (Hlt : id < rc_next_id (rpc_step c e)).
    { assert (id < rc_next_id c) by (apply (ri_fresh _ _ I); eauto). destruct G1 as [G0 G1].
      destruct (step_next e c) as [-> | ->]; [done|]. rewrite u64_small by (unfold UINT64_MAX in *; lia). lia. }
    simpl in Hp'. change (fold_left rpc_step evs (rpc_step c e)) with (rpc_run (rpc_step c e) evs) in Hp'.
    by rewrite (absent_stays evs _ id n Hn I' G' E1 Hlt) in Hp'.
Qed.

(** A pending call of a run is settled by its timers: once they have fired one
    more time than it has retries left, its promise is set, whatever happens to
    the other calls and whatever the clocks read. *)
Theorem rpc_timers_settle (r : Z) (pre evs : list RpcEvent) (id : Z) (call : PendingCall) :
  zlen pre + zlen evs < UINT64_MAX - 1 ->
  let c := rpc_run (rpc_init r) pre in
  rc_pending c !! id = Some call ->
  retries c - pc_retry_count call < firings id c evs ->
  id ∈ settled_ids (rpc_run c evs).
Proof.
  intros Hlen c Hp Hf. pose proof (zlen_nonneg evs). pose proof (zlen_nonneg pre).
  destruct (run_inv pre (rpc_init r) (0 + zlen evs)) as (I & G & Hm); [lia|apply init_inv|unfold next_ok; simpl; lia|].
  fold c in I, G, Hm. destruct (run_inv evs c 0) as (I' & _ & Hm'); [done..|].
  assert (Hnone : rc_pending (rpc_run c evs) !! id = None).
  { destruct (rc_pending (rpc_run c evs) !! id) as [call'|] eqn:E; [|done]. exfalso.
    pose proof (firings_bound evs c id 0 call call' ltac:(done) I G Hp E) as Hb.
    pose proof (co_retry _ _ _ (ri_call _ _ I' id call' E)) as [_ Hr]. unfold retries in *. rewrite Hm' in Hr. lia. }
  pose proof (ri_asked _ _ I id ltac:(eauto)) as Hask. unfold requests in Hask.
  destruct (List.filter (fun f => rq_id f =? id) (rc_sent c)) as [|f l] eqn:Ef; [rewrite zlen_nil in Hask; lia|].
  assert (Hin : List.In f (List.filter (fun f => rq_id f =? id) (rc_sent c))) by (rewrite Ef; by left).
  apply filter_In in Hin as [Hin Hid]. bool_to_prop. apply list_elem_of_In in Hin.
  destruct (run_sent evs c) as [tail Hs]. destruct (ri_known _ _ I' f) as [[? Hl]|]; [rewrite Hs; set_solver|congruence|congruence].
Qed.

End Rpc.

(** ** Witnesses: addresses are numbers, there are no traces *)

Definition rpc_demo_call : RpcEvent (Address := Z) (Trace := unit) := RCall 7 [1; 2] 100 None 0.
Definition rpc_demo_clock (ms : Z) (n : nat) : Z := ms * 1000000.
Definition rpc_demo_run (retries : Z) (evs : list (RpcEvent (Address := Z) (Trace := unit))) :=
  rpc_run (fun _ => true) (rpc_init retries) evs.

Lemma rpc_settles_once_witness :
  let c := rpc_demo_run 3 [rpc_demo_call; RTimer 0 (rpc_demo_clock 100); RResponse 1 [9] 120000000; RResponse 1 [9] 130000000] in
  NoDup (settled_ids c) /\ requests c 1 = 2 /\ settled_ids c = [1].
Proof.
  split; [|split; by vm_compute].
  apply (rpc_settles_once (fun _ => true) 3
    [rpc_demo_call; RTimer 0 (rpc_demo_clock 100); RResponse 1 [9] 120000000; RResponse 1 [9] 130000000]).
  by vm_compute.
Defined.

Lemma rpc_timers_settle_witness :
  1 ∈ settled_ids (rpc_demo_run 1 [rpc_demo_call; RTimer 0 (rpc_demo_clock 100); ROther; RTimer 0 (rpc_demo_clock 200)]).
Proof.
  destruct (rc_pending (rpc_demo_run 1 [rpc_demo_call]) !! 1) as [call|] eqn:E; [|vm_compute in E; discriminate E].
  apply (rpc_timers_settle (fun _ => true) 1 [rpc_demo_call]
    [RTimer 0 (rpc_demo_clock 100); ROther; RTimer 0 (rpc_demo_clock 200)] 1 call).
  - by vm_compute.
  - exact E.
  - vm_compute in E. injection E as <-. by vm_compute.
Defined.

(** The future that [call_raw] returns waits for one timeout from the moment it
    is asked.  The request is repeated when that timeout has passed, so a caller
    that asks at once never sees the answer to a repeated request, here twenty
    milliseconds after it. *)
Lemma retry_answer_unseen :
  let c := rpc_demo_run 3 [rpc_demo_call; RTimer 0 (rpc_demo_clock 100); RResponse 1 [9] 120000000] in
  rc_settled c = [(1, RpcValue [9], 120000000)] /\ future_get (Some (RpcValue [9], 120000000)) 0 100 = RpcTimedOut.
Proof. split; by vm_compute. Qed.
