(* ===== verification/FrameProto.v ===== *)
(** * Actor addresses on the wire

    [msg/frame_protobuf.cpp]: the conversions between actor addresses and the
    protobuf records that frames carry.  An address without a real endpoint, and
    one without an actor, travels in the local form and loses its endpoint.  The
    address bytes of an IPv6 endpoint are copied from a string of any length; what
    is in memory behind a short one is an argument. *)

From S2P Require Import Prelude TraceText Endpoint GossipCodec Pipeline.
From Stdlib Require Import String.
From stdpp Require Import base numbers list gmap.

#[local] Open Scope Z_scope.

(** ** Records of [common.proto] *)

Record PbLocalActorAddress := mkPbLocal { pl_actor_type : Z; pl_actor_id : Z; pl_incarnation : Z }.

(** The [oneof] of [PbActorAddress] and of [PbActorRef]. *)
Inductive PbActorAddress :=
| PbAddrUnset
| PbLocalAddr (local : PbLocalActorAddress)
| PbGlobalAddr (endpoint : PbEndpoint) (local : PbLocalActorAddress).

#[export] Instance pb_endpoint_eq_dec : EqDecision PbEndpoint.
Proof. solve_decision. Defined.
#[export] Instance PbLocalActorAddress_eq_dec : EqDecision PbLocalActorAddress.
Proof. solve_decision. Defined.
#[export] Instance PbActorAddress_eq_dec : EqDecision PbActorAddress.
Proof. solve_decision. Defined.

(** ** Records of [frame.proto] *)

Record ActorMsgFrame := mkActorMsg {
  am_sender : PbActorAddress; am_receiver : PbActorAddress; am_type_tag : Z; am_message_id : Z; am_flags : Z;
  am_payload : list Z; am_trace : option PbTraceContext
}.
Record AckFrame := mkAckFrame { af_message_id : Z; af_sender : PbActorAddress }.
Record NackFrame := mkNackFrame { nf_message_id : Z; nf_sender : PbActorAddress; nf_reason : Z; nf_retry_after_ms : Z }.
Record BatchEntry := mkBatchEntry {
  be_type_tag : Z; be_message_id : Z; be_flags : Z; be_payload : list Z; be_trace : option PbTraceContext
}.
Record BatchMsgFrame := mkBatch { bm_sender : PbActorAddress; bm_receiver : PbActorAddress; bm_entries : list BatchEntry }.
Record StreamOpenFrame := mkStreamOpen {
  so_stream_id : Z; so_sender : PbActorAddress; so_receiver : PbActorAddress; so_initial_window : Z
}.
Record StreamDataFrame := mkStreamData { sd_stream_id : Z; sd_sequence : Z; sd_payload : list Z; sd_user_tag : Z }.
Record StreamAckFrame := mkStreamAck { sa_stream_id : Z; sa_last_sequence : Z; sa_window : Z }.
Record StreamCloseFrame := mkStreamClose { sc_stream_id : Z; sc_reason : Z }.
Record StreamErrorFrame := mkStreamError { se_stream_id : Z; se_error_code : Z; se_description : string }.

(** The [oneof] of [WireEnvelope]. *)
Inductive WireEnvelope :=
| EnvEmpty
| EnvData (f : ActorMsgFrame)
| EnvAck (f : AckFrame)
| EnvNack (f : NackFrame)
| EnvBatch (f : BatchMsgFrame)
| EnvStreamOpen (f : StreamOpenFrame)
| EnvStreamData (f : StreamDataFrame)
| EnvStreamAck (f : StreamAckFrame)
| EnvStreamClose (f : StreamCloseFrame)
| EnvStreamError (f : StreamErrorFrame).

Inductive PayloadType :=
| PT_Data | PT_Ack | PT_Nack | PT_Batch | PT_StreamOpen | PT_StreamData | PT_StreamAck | PT_StreamClose | PT_StreamError
| PT_Unknown.

Definition payload_type (e : WireEnvelope) : PayloadType :=
  match e with
  | EnvEmpty => PT_Unknown | EnvData _ => PT_Data | EnvAck _ => PT_Ack | EnvNack _ => PT_Nack | EnvBatch _ => PT_Batch
  | EnvStreamOpen _ => PT_StreamOpen | EnvStreamData _ => PT_StreamData | EnvStreamAck _ => PT_StreamAck
  | EnvStreamClose _ => PT_StreamClose | EnvStreamError _ => PT_StreamError
  end.

(** Flags of a data frame. *)
Definition RpcResponse : Z := 8.
Definition AckRequested : Z := 32.
Definition AckResponse : Z := 64.
Definition has_flag (flags bit : Z) : bool := negb (Z.land flags bit =? 0).

Notation ActorAddress := (MsgAddress (EndPoint := EndPoint)).

(** [ActorAddress{}] and its conversion to [bool]. *)
Definition default_address : ActorAddress := mkAddr LocalEndpoint 0 0 0.
Definition address_valid (a : ActorAddress) : bool := negb (a_id a =? 0).

(** ** To protobuf *)

(** The port is written as it is stored, in network byte order. *)
Definition endpoint_to_pb (e : EndPoint) : PbEndpoint :=
  match e with Ipv4Endpoint a p => PbIpv4 a p | Ipv6Endpoint a p => PbIpv6 a p end.

Definition fill_local_addr (a : ActorAddress) : PbLocalActorAddress := mkPbLocal (a_type a) (a_id a) (a_node a).

Definition is_default_local_endpoint (e : EndPoint) : bool := is_loopback e && (port e =? 0).

Definition address_to_pb (a : ActorAddress) : PbActorAddress :=
  if is_default_local_endpoint (a_endpoint a) || negb (address_valid a)
  then PbLocalAddr (fill_local_addr a)
  else PbGlobalAddr (endpoint_to_pb (a_endpoint a)) (fill_local_addr a).

(** ** From protobuf *)

Section FromProto.
Context (beyond : list Z).          (* the memory behind the string *)

(** [memcpy] of sixteen bytes. *)
Definition copy_ipv6 (addr : list Z) : list Z := take 16 (addr ++ beyond).

Definition endpoint_from_pb (pb : PbEndpoint) : EndPoint :=
  match pb with
  | PbIpv4 a p => Ipv4Endpoint a (u16 p)
  | PbIpv6 a p => Ipv6Endpoint (copy_ipv6 a) (u16 p)
  | PbUnset => Ipv4Endpoint 0 0
  end.

Definition from_local_addr (l : PbLocalActorAddress) : ActorAddress :=
  mkAddr LocalEndpoint (pl_actor_type l) (pl_actor_id l) (pl_incarnation l).
Definition from_global_addr (e : PbEndpoint) (l : PbLocalActorAddress) : ActorAddress :=
  mkAddr (endpoint_from_pb e) (pl_actor_type l) (pl_actor_id l) (pl_incarnation l).

Definition address_from_pb (pb : PbActorAddress) : ActorAddress :=
  match pb with
  | PbLocalAddr l => from_local_addr l
  | PbGlobalAddr e l => from_global_addr e l
  | PbAddrUnset => default_address
  end.

(** ** Round trip *)

Lemma pb_endpoint_roundtrip e : endpoint_wf e = true -> endpoint_from_pb (endpoint_to_pb e) = e.
Proof.
  destruct e as [a p|a p]; simpl; intros H; bool_to_prop; f_equal; try (apply Z.mod_small; lia).
  unfold copy_ipv6. rewrite take_app_le by lia. apply take_ge. lia.
Qed.

(** An address is read back as it was sent, except that one that names no actor,
    or a loopback endpoint without a port, comes back with the endpoint
    127.0.0.1:0; the memory behind the record never matters for what was written
    by [to_proto]. *)
Theorem address_roundtrip (a : ActorAddress) :
  endpoint_wf (a_endpoint a) = true ->
  address_from_pb (address_to_pb a) =
    if is_default_local_endpoint (a_endpoint a) || (a_id a =? 0)
    then mkAddr LocalEndpoint (a_type a) (a_id a) (a_node a) else a.
Proof.
  intros H. unfold address_to_pb, address_valid. rewrite negb_involutive.
  destruct (_ || _); [done|]. simpl. unfold from_global_addr. rewrite pb_endpoint_roundtrip by done. by destruct a.
Qed.

Lemma address_id pb : a_id (address_from_pb pb) = match pb with PbAddrUnset => 0 | PbLocalAddr l | PbGlobalAddr _ l => pl_actor_id l end.
Proof. by destruct pb. Qed.
Lemma address_to_pb_id a : a_id (address_from_pb (address_to_pb a)) = a_id a.
Proof. unfold address_to_pb. by destruct (_ || _). Qed.
End FromProto.

Lemma address_roundtrip_witness :
  address_from_pb [] (address_to_pb (mkAddr (Ipv4Endpoint 167772161 8080) 3 42 1)) = mkAddr (Ipv4Endpoint 167772161 8080) 3 42 1.
Proof. apply (address_roundtrip [] (mkAddr (Ipv4Endpoint 167772161 8080) 3 42 1)). by vm_compute. Defined.

(** A record with a short IPv6 address, which any peer can send, is completed from
    the memory behind it. *)
Lemma short_ipv6_reads_beyond :
  address_from_pb (replicate 12 7) (PbGlobalAddr (PbIpv6 [1; 2; 3; 4] 0) (mkPbLocal 0 5 0)) =
    mkAddr (Ipv6Endpoint ([1; 2; 3; 4] ++ replicate 12 7) 0) 0 5 0.
Proof. by vm_compute. Qed.
