(* ===== verification/StreamRuntime.v ===== *)
(** * Stream sessions

    [mailbox/local_delivery_engine.cpp], [actor/stream/stream_runtime.cpp]: the
    fast delivery path and the registry of stream sessions, keyed by peer and
    stream.  The registry's lock is dropped while a receiver is spawned, so
    [on_stream_open] is split into its three critical sections.  Spawning is an argument,
    and so are the bytes of the protobuf messages that are forwarded.  The
    theorems: a stream that is opened delivers its frames in order to its receiver
    until it is closed; the frames of one peer never touch the sessions of
    another; and what the unchanging generation of a reservation lets through. *)

From S2P Require Import Prelude DeliveryTypes Lanes Admission Mailbox Dedup DeadLetters ActorCircuit TraceText Endpoint GossipCodec Pipeline FrameProto.
From Stdlib Require Import String.
From stdpp Require Import base numbers list gmap.

#[local] Open Scope Z_scope.

Inductive StreamSessionState := SS_Opening | SS_Active | SS_Closing.
#[export] Instance StreamSessionState_eq_dec : EqDecision StreamSessionState.
Proof. solve_decision. Defined.

Record StreamSession := mkSession {
  sn_state : StreamSessionState; sn_sender : Z; sn_receiver : Z; sn_target : Z; sn_generation : Z
}.

Inductive StreamDispatchCode :=
| SD_Handled | SD_UnknownStream | SD_DuplicateStream | SD_CapacityExceeded | SD_InvalidPeer | SD_InvalidFrame | SD_SpawnFailed
| SD_DeliveryRejected | SD_MetadataDropped.

Record StreamDispatchResult := mkDispatch { sd_code : StreamDispatchCode; sd_accepted : Z; sd_rejected : Z }.

Record StreamRuntime := mkStreams {
  max_active_streams : Z;
  sessions : gmap (EndPoint * Z) StreamSession;
  stream_counter : Z
}.
Definition streams_init (max_active : Z) : StreamRuntime := mkStreams max_active ∅ 1.
Definition set_sessions (s : StreamRuntime) (m : gmap (EndPoint * Z) StreamSession) : StreamRuntime :=
  mkStreams (max_active_streams s) m (stream_counter s).

Definition StreamOpenedTag : Z := 129.
Definition StreamDataTag : Z := 132.
Definition StreamAckTag : Z := 133.
Definition StreamCloseTag : Z := 134.
Definition StreamWireErrorTag : Z := 135.

Section Streams.
Context (sizeof_message : Z) (iteration_order : gmap Z ActorRateLimiter -> list Z).
Context {Fixed : Type} (control_try_push : Fixed -> Message (EndPoint := EndPoint) -> EnqueueResult * Fixed).

#[local] Instance stream_node : MailboxNode (Message (EndPoint := EndPoint)) := message_node sizeof_message.
Notation Runtime := (Pipeline (EndPoint := EndPoint) (Fixed := Fixed)).

(** ** The fast delivery path *)

Definition with_target (r : EnqueueResult) (target : Z) : EnqueueResult :=
  mkEnqueueResult (er_code r) target (er_depth r) (er_capacity r) (er_bytes r) (er_byte_capacity r) (er_pressure_reason r)
    (er_pressure_state r) (er_pressure_ratio r) (er_retry_after r).

(** [LocalDeliveryEngine::try_deliver]; an entry of the directory is of one kind. *)
Definition fast_deliver (p : Runtime) (now target : Z) (m : Message) : EnqueueResult * Runtime :=
  match p_fixed p !! target with
  | Some f =>
      if TypeTag_User <=? m_type_id m then (result_of EC_Rejected target, p)
      else let '(r, f) := control_try_push f m in (r, set_fixed p target f)
  | None =>
      match p_mailboxes p !! target with
      | None => (result_of EC_ActorNotFound target, p)
      | Some mb =>
          let '(r, mb) := try_push iteration_order mb now m
            (mkMeta (a_id (m_sender m)) (m_type_id m) 0 INT64_MAX 0 false) in
          (with_target r target, set_mailbox p target mb)
      end
  end.

(** A message built from a tag and its bytes. *)
Definition plain_message (tag : Z) (payload : list Z) : Message := mkMessage tag payload default_address None INT64_MAX 0 0 0 false.

(** ** Opening *)

Context (beyond : list Z).
Context (spawn_receiver : option (Runtime -> Z -> Z -> ActorAddress -> EndPoint -> Z -> option Z * Runtime)).
Context (data_bytes : StreamDataFrame -> list Z) (ack_bytes : StreamAckFrame -> list Z) (close_bytes : StreamCloseFrame -> list Z)
        (error_bytes : StreamErrorFrame -> list Z).

Definition dispatch (c : StreamDispatchCode) : StreamDispatchResult := mkDispatch c 0 0.

(** The first critical section. *)
Definition open_reserve (key : EndPoint * Z) (s : StreamRuntime) : option StreamDispatchResult * StreamRuntime :=
  if max_active_streams s <=? Z.of_nat (size (sessions s)) then (Some (dispatch SD_CapacityExceeded), s)
  else
    match sessions s !! key with
    | Some _ => (Some (dispatch SD_DuplicateStream), s)
    | None => (None, set_sessions s (<[key := mkSession SS_Opening 0 0 0 1]> (sessions s)))
    end.

Definition reserved (x : StreamSession) : bool := bool_decide (sn_state x = SS_Opening) && (sn_generation x =? 1).

(** When the receiver could not be spawned. *)
Definition open_rollback (key : EndPoint * Z) (s : StreamRuntime) : StreamRuntime :=
  match sessions s !! key with
  | Some x => if reserved x then set_sessions s (delete key (sessions s)) else s
  | None => s
  end.

Definition open_commit (key : EndPoint * Z) (receiver target : Z) (s : StreamRuntime) : StreamRuntime :=
  match sessions s !! key with
  | Some x =>
      if reserved x
      then set_sessions s (<[key := mkSession SS_Active (sn_sender x) receiver target (sn_generation x)]> (sessions s))
      else s
  | None => s
  end.

Definition on_stream_open (peer : EndPoint) (f : StreamOpenFrame) (now : Z) (s : StreamRuntime) (p : Runtime)
  : StreamDispatchResult * StreamRuntime * Runtime :=
  let sid := so_stream_id f in
  if sid =? 0 then (dispatch SD_InvalidFrame, s, p)
  else
    let key := (peer, sid) in
    let '(refused, s) := open_reserve key s in
    match refused with
    | Some r => (r, s, p)
    | None =>
        let target := a_id (address_from_pb beyond (so_receiver f)) in
        match spawn_receiver with
        | None => (dispatch SD_Handled, s, p)
        | Some spawn =>
            let '(spawned, p) := spawn p target sid (address_from_pb beyond (so_sender f)) peer (so_initial_window f) in
            match spawned with
            | None => (dispatch SD_SpawnFailed, open_rollback key s, p)
            | Some receiver =>
                let p := (fast_deliver p now target (plain_message StreamOpenedTag [])).2 in
                (dispatch SD_Handled, open_commit key receiver target s, p)
            end
        end
    end.

(** ** The other frames *)

(** Delivery to one actor, counted. *)
Definition forward (p : Runtime) (now actor : Z) (m : Message) : StreamDispatchResult * Runtime :=
  let '(r, p) := fast_deliver p now actor m in
  (if er_accepted r then mkDispatch SD_Handled 1 0 else mkDispatch SD_DeliveryRejected 0 1, p).

Definition on_stream_data (peer : EndPoint) (f : StreamDataFrame) (now : Z) (s : StreamRuntime) (p : Runtime)
  : StreamDispatchResult * StreamRuntime * Runtime :=
  match sessions s !! (peer, sd_stream_id f) with
  | None => (dispatch SD_UnknownStream, s, p)
  | Some x =>
      if sn_receiver x =? 0 then (dispatch SD_UnknownStream, s, p)
      else let '(r, p) := forward p now (sn_receiver x) (plain_message StreamDataTag (data_bytes f)) in (r, s, p)
  end.

Definition on_stream_ack (peer : EndPoint) (f : StreamAckFrame) (now : Z) (s : StreamRuntime) (p : Runtime)
  : StreamDispatchResult * StreamRuntime * Runtime :=
  match sessions s !! (peer, sa_stream_id f) with
  | None => (dispatch SD_UnknownStream, s, p)
  | Some x =>
      if sn_sender x =? 0 then (dispatch SD_UnknownStream, s, p)
      else let '(r, p) := forward p now (sn_sender x) (plain_message StreamAckTag (ack_bytes f)) in (r, s, p)
  end.

(** One of the two deliveries of a closing frame: the counts so far, and after. *)
Definition notify (now actor : Z) (m : Message) (acc : Z * Z * Runtime) : Z * Z * Runtime :=
  let '(delivered, rejected, p) := acc in
  if actor =? 0 then acc
  else
    let '(r, p) := fast_deliver p now actor m in
    if er_accepted r then (delivered + 1, rejected, p) else (delivered, rejected + 1, p).

Definition end_session (peer : EndPoint) (sid : Z) (m : Message) (now : Z) (s : StreamRuntime) (p : Runtime)
  : StreamDispatchResult * StreamRuntime * Runtime :=
  match sessions s !! (peer, sid) with
  | None => (dispatch SD_UnknownStream, s, p)
  | Some x =>
      let s := set_sessions s (delete (peer, sid) (sessions s)) in
      let '(delivered, rejected, p) := notify now (sn_receiver x) m (notify now (sn_sender x) m (0, 0, p)) in
      (mkDispatch SD_Handled delivered rejected, s, p)
  end.

Definition on_stream_close (peer : EndPoint) (f : StreamCloseFrame) := end_session peer (sc_stream_id f) (plain_message StreamCloseTag (close_bytes f)).
Definition on_stream_error (peer : EndPoint) (f : StreamErrorFrame) := end_session peer (se_stream_id f) (plain_message StreamWireErrorTag (error_bytes f)).

Definition count_state (st : StreamSessionState) (s : StreamRuntime) : Z :=
  zlen (List.filter (fun e => bool_decide (sn_state e.2 = st)) (map_to_list (sessions s))).
(** The counters of [snapshot]. *)
Definition snapshot_counts (s : StreamRuntime) : Z * Z := (count_state SS_Active s, count_state SS_Opening s).

(** ** Frames in sequence *)

Inductive StreamFrame :=
| FOpen (f : StreamOpenFrame) | FData (f : StreamDataFrame) | FAck (f : StreamAckFrame) | FClose (f : StreamCloseFrame)
| FError (f : StreamErrorFrame).

Definition on_stream_frame (peer : EndPoint) (f : StreamFrame) (now : Z) : StreamRuntime -> Runtime -> StreamDispatchResult * StreamRuntime * Runtime :=
  match f with
  | FOpen f => on_stream_open peer f now
  | FData f => on_stream_data peer f now
  | FAck f => on_stream_ack peer f now
  | FClose f => on_stream_close peer f now
  | FError f => on_stream_error peer f now
  end.

Definition stream_step (st : StreamRuntime * Runtime) (x : EndPoint * StreamFrame * Z) : StreamRuntime * Runtime :=
  let '(peer, f, now) := x in let '(_, s, p) := on_stream_frame peer f now st.1 st.2 in (s, p).
Definition stream_run (fs : list (EndPoint * StreamFrame * Z)) (s : StreamRuntime) (p : Runtime) : StreamRuntime * Runtime :=
  fold_left stream_step fs (s, p).

Lemma stream_run_cons peer f now fs s p r s1 p1 :
  on_stream_frame peer f now s p = (r, s1, p1) -> stream_run ((peer, f, now) :: fs) s p = stream_run fs s1 p1.
Proof. intros E. unfold stream_run. simpl. unfold stream_step at 2. simpl. by rewrite E. Qed.

Lemma open_reserve_free key s :
  sessions s !! key = None -> Z.of_nat (size (sessions s)) < max_active_streams s ->
  open_reserve key s = (None, set_sessions s (<[key := mkSession SS_Opening 0 0 0 1]> (sessions s))).
Proof. intros Hn Hc. unfold open_reserve. by rewrite (proj2 (Z.leb_gt _ _) Hc), Hn. Qed.

(** What a frame can do to the registry: nothing, add or remove the session of
    its own key, or complete it. *)
Inductive session_effect (peer : EndPoint) (s s' : StreamRuntime) : Prop :=
| se_same : s' = s -> session_effect peer s s'
| se_add sid x : Z.of_nat (size (sessions s)) < max_active_streams s -> s' = set_sessions s (<[(peer, sid) := x]> (sessions s)) ->
    session_effect peer s s'
| se_drop sid : s' = set_sessions s (delete (peer, sid) (sessions s)) -> session_effect peer s s'.

Lemma set_sessions_twice s m1 m2 : set_sessions (set_sessions s m1) m2 = set_sessions s m2.
Proof. done. Qed.

Lemma open_effect peer f now s p : session_effect peer s (on_stream_open peer f now s p).1.2.
Proof.
  unfold on_stream_open. set (sid := so_stream_id f). destruct (sid =? 0); [by apply se_same|].
  unfold open_reserve. destruct (max_active_streams s <=? Z.of_nat (size (sessions s))) eqn:Ec; [by apply se_same|]. bool_to_prop.
  destruct (sessions s !! (peer, sid)) eqn:Es; [by apply se_same|].
  destruct spawn_receiver as [spawn|]; [|eapply se_add; [done|reflexivity]].
  destruct (spawn p _ _ _ _ _) as [[r|] p']; simpl.
  - unfold open_commit. simpl. rewrite lookup_insert_eq. simpl. rewrite set_sessions_twice, insert_insert_eq.
    eapply se_add; [done|reflexivity].
  - unfold open_rollback. simpl. rewrite lookup_insert_eq. simpl. rewrite set_sessions_twice, delete_insert_id by done.
    apply se_same. by destruct s.
Qed.

Lemma end_effect peer sid m now s p : session_effect peer s (end_session peer sid m now s p).1.2.
Proof.
  unfold end_session. destruct (sessions s !! (peer, sid)) as [x|]; [|by apply se_same].
  destruct (notify _ _ _ _) as [[d r] p']. by eapply se_drop.
Qed.

Lemma frame_effect peer f now s p : session_effect peer s (on_stream_frame peer f now s p).1.2.
Proof.
  destruct f as [f|f|f|f|f]; [apply open_effect| | |apply end_effect|apply end_effect]; simpl;
    unfold on_stream_data, on_stream_ack; destruct (sessions s !! _) as [x|]; try by apply se_same.
  - destruct (sn_receiver x =? 0); [by apply se_same|]. destruct (forward _ _ _ _). by apply se_same.
  - destruct (sn_sender x =? 0); [by apply se_same|]. destruct (forward _ _ _ _). by apply se_same.
Qed.

Lemma effect_bound peer s s' : session_effect peer s s' ->
  max_active_streams s' = max_active_streams s /\
  Z.of_nat (size (sessions s')) <= Z.max (max_active_streams s) (Z.of_nat (size (sessions s))).
Proof.
  intros [->|sid x Hc ->|sid ->]; simpl; (split; [done|]).
  - lia.
  - rewrite map_size_insert. destruct (sessions s !! (peer, sid)); simpl; lia.
  - rewrite map_size_delete. destruct (sessions s !! (peer, sid)); simpl; lia.
Qed.

Lemma effect_other peer s s' q sid : session_effect peer s s' -> peer <> q -> sessions s' !! (q, sid) = sessions s !! (q, sid).
Proof.
  intros [->|k x _ ->|k ->] Hne; simpl; [done|rewrite lookup_insert_ne; congruence|rewrite lookup_delete_ne; congruence].
Qed.

(** Whatever frames arrive, those of other peers leave the sessions of a peer as
    they are, and the number of sessions stays within the limit it had room
    for. *)
Theorem stream_peers_isolated (fs : list (EndPoint * StreamFrame * Z)) (s : StreamRuntime) (p : Runtime) :
  let s' := (stream_run fs s p).1 in
  Z.of_nat (size (sessions s')) <= Z.max (max_active_streams s) (Z.of_nat (size (sessions s))) /\
  forall q, Forall (fun x => x.1.1 <> q) fs -> forall sid, sessions s' !! (q, sid) = sessions s !! (q, sid).
Proof.
  revert s p. induction fs as [|[[peer f] now] fs IH]; intros s p; [split; [simpl; lia|done]|].
  pose proof (frame_effect peer f now s p) as E. destruct (on_stream_frame peer f now s p) as [[r s1] p1] eqn:Ef; simpl in E.
  rewrite (stream_run_cons _ _ _ _ _ _ _ _ _ Ef).
  destruct (effect_bound _ _ _ E) as [Hm Hs]. destruct (IH s1 p1) as [B O]. cbv zeta. split; [lia|].
  intros q Hq sid. apply Forall_cons in Hq as [Hq1 Hq2]. rewrite O by done. by eapply effect_other.
Qed.

(** ** The life of a stream *)

(** The data frames of the stream, delivered one after the other. *)
Definition deliver_data (receiver : Z) (p : Runtime) (x : StreamDataFrame * Z) : Runtime :=
  (fast_deliver p x.2 receiver (plain_message StreamDataTag (data_bytes x.1))).2.

Lemma data_run peer sid x ds : forall s p,
  sessions s !! (peer, sid) = Some x -> sn_receiver x <> 0 -> Forall (fun d => sd_stream_id d.1 = sid) ds ->
  stream_run ((fun d => (peer, FData d.1, d.2)) <$> ds) s p = (s, fold_left (deliver_data (sn_receiver x)) ds p).
Proof.
  induction ds as [|[d now] ds IH]; intros s p Hs Hr Hds; [done|]. apply Forall_cons in Hds as [Hd Hds]. simpl in Hd.
  destruct (forward p now (sn_receiver x) (plain_message StreamDataTag (data_bytes d))) as [r p1] eqn:Ef.
  rewrite fmap_cons, (stream_run_cons _ _ _ _ _ _ r s p1).
  - rewrite IH by done. simpl. unfold deliver_data at 3. unfold forward in Ef. simpl.
    destruct (fast_deliver _ _ _ _) as [r' p']. by injection Ef as _ <-.
  - simpl. unfold on_stream_data. by rewrite Hd, Hs, (proj2 (Z.eqb_neq _ _) Hr), Ef.
Qed.

(** A stream that is opened with a receiver: the target learns of it, its data
    frames reach the receiver one after the other and nobody else, the closing
    frame reaches the receiver too, and after it the stream is unknown: no frame
    of it has an effect. *)
Theorem stream_lifetime (peer : EndPoint) (f : StreamOpenFrame) (now : Z) (s : StreamRuntime) (p p1 : Runtime) (receiver : Z)
    (spawn : Runtime -> Z -> Z -> ActorAddress -> EndPoint -> Z -> option Z * Runtime)
    (ds : list (StreamDataFrame * Z)) (close : StreamCloseFrame) (now' : Z) :
  let sid := so_stream_id f in
  let target := a_id (address_from_pb beyond (so_receiver f)) in
  sid <> 0 -> sessions s !! (peer, sid) = None -> Z.of_nat (size (sessions s)) < max_active_streams s ->
  spawn_receiver = Some spawn -> receiver <> 0 ->
  spawn p target sid (address_from_pb beyond (so_sender f)) peer (so_initial_window f) = (Some receiver, p1) ->
  Forall (fun d => sd_stream_id d.1 = sid) ds -> sc_stream_id close = sid ->
  let p2 := (fast_deliver p1 now target (plain_message StreamOpenedTag [])).2 in
  let p3 := fold_left (deliver_data receiver) ds p2 in
  let p4 := (fast_deliver p3 now' receiver (plain_message StreamCloseTag (close_bytes close))).2 in
  exists s1, on_stream_open peer f now s p = (dispatch SD_Handled, s1, p2) /\
    stream_run ((fun d => (peer, FData d.1, d.2)) <$> ds) s1 p2 = (s1, p3) /\
    stream_run [(peer, FClose close, now')] s1 p3 = (s, p4) /\
    forall g t q, (match g with FOpen _ => False | FData x => sd_stream_id x = sid | FAck x => sa_stream_id x = sid
                   | FClose x => sc_stream_id x = sid | FError x => se_stream_id x = sid end) ->
      on_stream_frame peer g t s q = (dispatch SD_UnknownStream, s, q).
Proof.
  intros sid target Hsid Hnone Hcap Hspawn Hr Hsp Hds Hclose p2 p3 p4.
  exists (set_sessions s (<[(peer, sid) := mkSession SS_Active 0 receiver target 1]> (sessions s))).
  split; [|split; [|split]].
  - unfold on_stream_open. fold sid target. rewrite (proj2 (Z.eqb_neq _ _) Hsid).
    rewrite (open_reserve_free (peer, sid) s Hnone Hcap), Hspawn, Hsp. simpl. unfold open_commit. simpl. rewrite lookup_insert_eq. simpl.
    by rewrite set_sessions_twice, insert_insert_eq.
  - eapply (data_run peer sid (mkSession SS_Active 0 receiver target 1)); [simpl; by rewrite lookup_insert_eq|done|done].
  - assert (E : on_stream_frame peer (FClose close) now'
      (set_sessions s (<[(peer, sid) := mkSession SS_Active 0 receiver target 1]> (sessions s))) p3
      = (mkDispatch SD_Handled (if er_accepted (fast_deliver p3 now' receiver (plain_message StreamCloseTag (close_bytes close))).1 then 1 else 0)
           (if er_accepted (fast_deliver p3 now' receiver (plain_message StreamCloseTag (close_bytes close))).1 then 0 else 1), s, p4)).
    { simpl. unfold on_stream_close, end_session. rewrite Hclose. simpl. rewrite lookup_insert_eq. simpl.
      rewrite (proj2 (Z.eqb_neq _ _) Hr), set_sessions_twice, delete_insert_id by done. unfold p4.
      destruct (fast_deliver p3 _ _ _) as [r q]. destruct s. simpl. by destruct (er_accepted r). }
    by rewrite (stream_run_cons _ _ _ _ _ _ _ _ _ E).
  - intros g t q Hg. destruct g as [x|x|x|x|x]; [done|..]; simpl in *;
      unfold on_stream_data, on_stream_ack, on_stream_close, on_stream_error, end_session; by rewrite Hg, Hnone.
Qed.
End Streams.

(** ** Local registration *)

Section Register.
Context (inet_pton4 : String.string -> option Z) (inet_pton6 : String.string -> option (list Z)).
Context (getaddrinfo4 : String.string -> option Z) (getaddrinfo6 : String.string -> option (list Z)).
Definition local_peer : EndPoint := parse_endpoint inet_pton4 inet_pton6 getaddrinfo4 getaddrinfo6 "127.0.0.1:0"%string.

Definition register_sender_for_peer (peer : EndPoint) (sid actor : Z) (s : StreamRuntime) : StreamRuntime :=
  let x := match sessions s !! (peer, sid) with
           | Some x => mkSession (sn_state x) actor (sn_receiver x) (sn_target x) (sn_generation x)
           | None => mkSession SS_Active actor 0 0 0
           end in
  set_sessions s (<[(peer, sid) := x]> (sessions s)).
Definition register_sender (sid actor : Z) (s : StreamRuntime) : StreamRuntime := register_sender_for_peer local_peer sid actor s.
Definition register_receiver (sid actor : Z) (s : StreamRuntime) : StreamRuntime :=
  let x := match sessions s !! (local_peer, sid) with
           | Some x => mkSession (sn_state x) (sn_sender x) actor (sn_target x) (sn_generation x)
           | None => mkSession SS_Active 0 actor 0 0
           end in
  set_sessions s (<[(local_peer, sid) := x]> (sessions s)).
Definition unregister_stream (sid : Z) (s : StreamRuntime) : StreamRuntime := set_sessions s (delete (local_peer, sid) (sessions s)).
Definition allocate_stream_id (sender : Z) (s : StreamRuntime) : Z * StreamRuntime :=
  (Z.lor (u64 (Z.shiftl sender 32)) (stream_counter s), mkStreams (max_active_streams s) (sessions s) (u64 (stream_counter s + 1))).


(** A sender that is registered without its peer is filed under the local
    endpoint: the acknowledgements of every other peer find no stream, and
    unregistering leaves the session of a peer in place. *)
Lemma local_registration_unseen (sizeof_message : Z) (order : gmap Z ActorRateLimiter -> list Z) {Fixed : Type}
    (push : Fixed -> Message (EndPoint := EndPoint) -> EnqueueResult * Fixed) (ack_bytes : StreamAckFrame -> list Z)
    (peer : EndPoint) (f : StreamAckFrame) (actor now : Z) (s : StreamRuntime) (p : Pipeline (EndPoint := EndPoint) (Fixed := Fixed)) :
  peer <> local_peer -> sessions s !! (peer, sa_stream_id f) = None ->
  let s' := register_sender (sa_stream_id f) actor s in
  on_stream_ack sizeof_message order push ack_bytes peer f now s' p = (dispatch SD_UnknownStream, s', p) /\
  forall x, sessions (unregister_stream (sa_stream_id f) (set_sessions s (<[(peer, sa_stream_id f) := x]> (sessions s))))
    !! (peer, sa_stream_id f) = Some x.
Proof.
  intros Hne Hs s'. split.
  - unfold on_stream_ack, s', register_sender, register_sender_for_peer. simpl.
    rewrite lookup_insert_ne by congruence. by rewrite Hs.
  - intros x. unfold unregister_stream. simpl. rewrite lookup_delete_ne by congruence. by rewrite lookup_insert_eq.
Qed.
End Register.

(** The generation of a reservation is always one.  A reservation that is
    closed while its receiver is being spawned, and made again by a new opening
    frame, is completed by the first spawn: the stream ends up with the receiver
    of the closed one, and its own receiver is never used. *)
Lemma reopened_reservation_confused (key : EndPoint * Z) (r1 t1 r2 t2 : Z) (s : StreamRuntime) :
  sessions s !! key = None -> Z.of_nat (size (sessions s)) < max_active_streams s ->
  let s1 := (open_reserve key s).2 in                                 (* first opening frame *)
  let s2 := set_sessions s1 (delete key (sessions s1)) in             (* closing frame *)
  let s3 := (open_reserve key s2).2 in                                (* second opening frame *)
  let s4 := open_commit key r2 t2 (open_commit key r1 t1 s3) in       (* the two spawns return *)
  sessions s4 !! key = Some (mkSession SS_Active 0 r1 t1 1).
Proof.
  intros Hn Hc. cbv zeta. rewrite (open_reserve_free key s Hn Hc). cbn [snd sessions set_sessions].
  rewrite set_sessions_twice, delete_insert_id by done. rewrite (open_reserve_free key) by done.
  unfold open_commit at 2. simpl. rewrite lookup_insert_eq. simpl. unfold open_commit. simpl. rewrite lookup_insert_eq. simpl.
  by rewrite lookup_insert_eq.
Qed.

(** ** Witness: a receiver with a fixed mailbox that keeps its messages *)

Definition keep_push (f : list (Z * list Z)) (m : Message (EndPoint := EndPoint)) : EnqueueResult * list (Z * list Z) :=
  (EnqueueResult_default, f ++ [(m_type_id m, m_payload m)]).
Definition stream_demo_runtime : Pipeline (EndPoint := EndPoint) (Fixed := list (Z * list Z)) :=
  mkPipeline LocalEndpoint 0 false false ∅ ∅ {[7 := []; 8 := []]} ∅ None None [] [].
Definition stream_demo_spawn (p : Pipeline (EndPoint := EndPoint) (Fixed := list (Z * list Z))) (target sid : Z) (a : ActorAddress)
    (peer : EndPoint) (w : Z) : option Z * Pipeline (EndPoint := EndPoint) (Fixed := list (Z * list Z)) := (Some 8, p).
Definition stream_demo_open : StreamOpenFrame := mkStreamOpen 3 PbAddrUnset (PbLocalAddr (mkPbLocal 0 7 0)) 1024.
Definition stream_demo_peer : EndPoint := Ipv4Endpoint 167772161 8080.

Lemma stream_lifetime_witness :
  let run := stream_run 64 first_keys keep_push [] (Some stream_demo_spawn) sd_payload (fun _ => []) (fun _ => []) (fun _ => []) in
  let out := run [(stream_demo_peer, FOpen stream_demo_open, 0); (stream_demo_peer, FData (mkStreamData 3 0 [1] 0), 1);
                  (stream_demo_peer, FData (mkStreamData 3 1 [2] 0), 2)] (streams_init 16) stream_demo_runtime in
  p_fixed out.2 !! 8 = Some [(StreamDataTag, [1]); (StreamDataTag, [2])].
Proof.
  destruct (stream_lifetime 64 first_keys keep_push [] (Some stream_demo_spawn) sd_payload (fun _ => []) (fun _ => []) (fun _ => [])
    stream_demo_peer stream_demo_open 0 (streams_init 16) stream_demo_runtime stream_demo_runtime 8 stream_demo_spawn
    [(mkStreamData 3 0 [1] 0, 1); (mkStreamData 3 1 [2] 0, 2)] (mkStreamClose 3 0) 3)
    as (s1 & Hopen & Hdata & _ & _); [done|by vm_compute|by vm_compute|done|done|done|by repeat constructor|done|].
  cbv zeta. rewrite (stream_run_cons 64 first_keys keep_push [] (Some stream_demo_spawn) sd_payload (fun _ => []) (fun _ => []) (fun _ => [])
    stream_demo_peer (FOpen stream_demo_open) 0 _ _ _ _ _ _ Hopen).
  change (stream_run 64 first_keys keep_push [] (Some stream_demo_spawn) sd_payload (fun _ => []) (fun _ => []) (fun _ => [])
    [(stream_demo_peer, FData (mkStreamData 3 0 [1] 0), 1); (stream_demo_peer, FData (mkStreamData 3 1 [2] 0), 2)] s1)
    with (stream_run 64 first_keys keep_push [] (Some stream_demo_spawn) sd_payload (fun _ => []) (fun _ => []) (fun _ => [])
      ((fun d => (stream_demo_peer, FData d.1, d.2)) <$> [(mkStreamData 3 0 [1] 0, 1); (mkStreamData 3 1 [2] 0, 2)]) s1).
  rewrite Hdata. by vm_compute.
Defined.
