(* ===== verification/InboundRouter.v ===== *)
(** * The inbound frame router

    [net/inbound_frame_router.cpp], [net/reliable_ack_emission.cpp],
    [runtime/messaging_runtime.cpp] and the acknowledgement frames of
    [actor/system/actor_system.cpp]: every frame that arrives at a node is
    classified and handed to its owner, the delivery pipeline of [Pipeline.v], the
    tracker of [Reliable.v], the channel of [RpcChannel.v], the sessions of
    [StreamRuntime.v], the coordinator of [BackpressureWire.v] or the name
    protocol of [NameCodec.v].  What leaves the node is a list of frames. *)

From S2P Require Import Prelude DeliveryTypes Lanes Admission Mailbox MailboxSpec Dedup DeadLetters ActorCircuit TraceText WireFrame Receipts Reliable Endpoint GossipCodec Pipeline FrameProto BackpressureWire RpcChannel StreamRuntime NameCodec.
From stdpp Require Import base numbers list gmap.

#[local] Open Scope Z_scope.

(** ** Data *)

Inductive FrameDispatchCode :=
| FD_ActorDelivered | FD_ActorRejected | FD_BatchDelivered | FD_BatchPartiallyDelivered | FD_RpcResponseHandled
| FD_ReliableAckHandled | FD_ReliableNackHandled | FD_BackpressureHandled | FD_StreamHandled | FD_DecodeFailed
| FD_UnsupportedPayload | FD_InvalidFlags | FD_InvalidAddress | FD_InvalidControlPayload | FD_InvalidTraceContext
| FD_UnknownStream | FD_DuplicateStream | FD_StreamCapacityExceeded | FD_HandlerUnavailable | FD_RuntimeStopping.
#[export] Instance FrameDispatchCode_eq_dec : EqDecision FrameDispatchCode.
Proof. solve_decision. Defined.

Record FrameDispatchResult := mkFrameResult {
  fr_code : FrameDispatchCode; fr_payload : PayloadType; fr_detail : Z; fr_accepted : Z; fr_rejected : Z
}.
Definition frame_result (c : FrameDispatchCode) (t : PayloadType) : FrameDispatchResult := mkFrameResult c t 0 0 0.
Definition with_detail (r : FrameDispatchResult) (d : Z) : FrameDispatchResult :=
  mkFrameResult (fr_code r) (fr_payload r) d (fr_accepted r) (fr_rejected r).

Definition is_rpc_response (f : ActorMsgFrame) : bool := has_flag (am_flags f) RpcResponse.
Definition is_python_binding_control_tag (tag : Z) : bool := (240 <=? tag) && (tag <=? 243).

(** The value of the enumeration in [detail_code]. *)
Definition stream_code_value (c : StreamDispatchCode) : Z :=
  match c with
  | SD_Handled => 0 | SD_UnknownStream => 1 | SD_DuplicateStream => 2 | SD_CapacityExceeded => 3 | SD_InvalidPeer => 4
  | SD_InvalidFrame => 5 | SD_SpawnFailed => 6 | SD_DeliveryRejected => 7 | SD_MetadataDropped => 8
  end.

(** ** Acknowledgements *)

Inductive AckStatus := AS_Accepted | AS_Rejected | AS_Duplicate.
Definition ack_status_value (s : AckStatus) : Z := match s with AS_Accepted => 0 | AS_Rejected => 1 | AS_Duplicate => 2 end.

Record AckEmitDecision := mkAckDecision { should_emit : bool; ad_status : AckStatus; ad_retry_after_ms : Z }.

Definition compute_ack_emission (r : EnqueueResult) (ack_requested : bool) : AckEmitDecision :=
  if negb ack_requested then mkAckDecision false AS_Accepted 0
  else if er_accepted r then mkAckDecision true AS_Accepted 0
  else mkAckDecision true AS_Rejected (if bool_decide (er_code r = EC_Rejected) then u32 (er_retry_after r) else 0).

(** [encode_ack], [decode_ack]: fourteen bytes, the status as the byte it is. *)
Record AckPayload := mkAckPayload { ap_message_id : Z; ap_status : Z; ap_retry_after : Z }.
Definition kAckWireSize : Z := 14.
Definition host_to_be64 (v : Z) : list Z := be32 (v / 4294967296) ++ be32 (v mod 4294967296).
Definition encode_ack (p : AckPayload) : list Z :=
  host_to_be64 (ap_message_id p) ++ [ap_status p; 0] ++ be32 (u32 (ap_retry_after p)).
Definition decode_ack (data : list Z) : option AckPayload :=
  if zlen data <? kAckWireSize then None
  else
    match data with
    | a :: b :: c :: d :: e :: f :: g :: h :: status :: _ :: i :: j :: k :: l :: _ =>
        Some (mkAckPayload (be32_decode a b c d * 4294967296 + be32_decode e f g h) status (be32_decode i j k l))
    | _ => None
    end.

Lemma ack_payload_roundtrip p rest :
  0 <= ap_message_id p < 18446744073709551616 -> 0 <= ap_retry_after p < 4294967296 ->
  decode_ack (encode_ack p ++ rest) = Some p /\ forall n, (n < 14)%nat -> decode_ack (take n (encode_ack p)) = None.
Proof.
  intros Hid Hr. split.
  - assert (E1 := be32_roundtrip (ap_message_id p / 4294967296) _ _ _ _ ltac:(Z.to_euclidean_division_equations; lia) eq_refl).
    assert (E2 := be32_roundtrip (ap_message_id p mod 4294967296) _ _ _ _ ltac:(Z.to_euclidean_division_equations; lia) eq_refl).
    assert (E3 := be32_roundtrip (u32 (ap_retry_after p)) _ _ _ _ ltac:(apply u32_range) eq_refl).
    unfold decode_ack. rewrite (proj2 (Z.ltb_ge _ _)) by (rewrite zlen_app; pose proof (zlen_nonneg rest); change (zlen (encode_ack p)) with 14; unfold kAckWireSize; lia).
    unfold encode_ack, host_to_be64, be32. cbn [app]. rewrite E1, E2, E3, u32_small by lia. f_equal. destruct p as [id st ra]. simpl. f_equal.
    rewrite Z.mul_comm. symmetry. apply Z.div_mod. lia.
  - intros n Hn. unfold decode_ack. rewrite (proj2 (Z.ltb_lt _ _)); [done|].
    unfold zlen, kAckWireSize. rewrite length_take. change (length (encode_ack p)) with 14%nat. lia.
Qed.

(** A [uint32_t] in memory, on a little-endian machine. *)
Definition le32 (v : Z) : list Z := [u8 v; u8 (v / 256); u8 (v / 65536); u8 (v / 16777216)].
Definition read_le32 (bs : list Z) : Z :=
  match bs with
  | a :: b :: c :: d :: _ => a + 256 * b + 65536 * c + 16777216 * d
  | _ => 0
  end.

(** [ActorSystem::Impl::send_ack]: the frame. *)
Definition ack_frame (target acker : ActorAddress) (message_id status retry_after_ms : Z) : ActorMsgFrame :=
  let is_nack := status =? 1 in
  mkActorMsg (address_to_pb acker) (address_to_pb target) (if is_nack then status else 0) message_id
    (if is_nack then AckResponse else AckRequested) (if is_nack then le32 retry_after_ms else []) None.

Section Router.
Context (sizeof_message : Z) (iteration_order : gmap Z ActorRateLimiter -> list Z).
Context {Fixed : Type} (control_try_push : Fixed -> Message (EndPoint := EndPoint) -> EnqueueResult * Fixed).
Context (control_try_push_dynamic : option (Fixed -> Message (EndPoint := EndPoint) -> EnqueueResult * Fixed)).
Context (beyond : list Z).
Context (signal_parse : list Z -> option BackpressureSignalMessage).
Notation Runtime := (Pipeline (EndPoint := EndPoint) (Fixed := Fixed)).
Context (spawn_receiver : option (Runtime -> Z -> Z -> ActorAddress -> EndPoint -> Z -> option Z * Runtime)).
Context (data_bytes : StreamDataFrame -> list Z) (ack_bytes : StreamAckFrame -> list Z) (close_bytes : StreamCloseFrame -> list Z)
        (error_bytes : StreamErrorFrame -> list Z).

Notation SendTracker := (Tracker (EndPoint := EndPoint) (Frame := list Z)).
Notation CallChannel := (RpcChannel (Address := ActorAddress) (Trace := WireTrace)).

(** The node as the router reaches it. *)
Record Node := mkNode {
  n_pipeline : Runtime;
  n_tracker : SendTracker;
  n_backpressure : BackpressureCoordinator;
  n_rpc : CallChannel;
  n_streams : StreamRuntime;
  n_names : list (EndPoint * NameMessage);        (* what the name port was called with *)
  n_out : list (ActorAddress * WireEnvelope)      (* frames given to the transport *)
}.
Definition set_pipeline (n : Node) (x : Runtime) : Node :=
  mkNode x (n_tracker n) (n_backpressure n) (n_rpc n) (n_streams n) (n_names n) (n_out n).
Definition set_tracker (n : Node) (x : SendTracker) : Node :=
  mkNode (n_pipeline n) x (n_backpressure n) (n_rpc n) (n_streams n) (n_names n) (n_out n).
Definition set_backpressure (n : Node) (x : BackpressureCoordinator) : Node :=
  mkNode (n_pipeline n) (n_tracker n) x (n_rpc n) (n_streams n) (n_names n) (n_out n).
Definition set_rpc (n : Node) (x : CallChannel) : Node :=
  mkNode (n_pipeline n) (n_tracker n) (n_backpressure n) x (n_streams n) (n_names n) (n_out n).
Definition set_streams (n : Node) (x : StreamRuntime) (p : Runtime) : Node :=
  mkNode p (n_tracker n) (n_backpressure n) (n_rpc n) x (n_names n) (n_out n).
Definition call_name_port (n : Node) (from : EndPoint) (m : NameMessage) : Node :=
  mkNode (n_pipeline n) (n_tracker n) (n_backpressure n) (n_rpc n) (n_streams n) (n_names n ++ [(from, m)]) (n_out n).
Definition transmit (n : Node) (target : ActorAddress) (e : WireEnvelope) : Node :=
  mkNode (n_pipeline n) (n_tracker n) (n_backpressure n) (n_rpc n) (n_streams n) (n_names n) (n_out n ++ [(target, e)]).

(** The configuration and the ports: [name_handler] says which of the five
    callbacks of the name port are installed, by tag; [has_transport] whether an
    acknowledgement can be sent. *)
Record InboundFrameRouter := mkRouter {
  accepting : bool;
  max_batch_entries : Z;
  max_tracestate_len : Z;
  name_handler : Z -> bool;
  has_reliable_ack : bool;
  has_transport : bool
}.
Definition router_disable (r : InboundFrameRouter) : InboundFrameRouter :=
  mkRouter false (max_batch_entries r) (max_tracestate_len r) (name_handler r) (has_reliable_ack r) (has_transport r).
Definition name_port_active (r : InboundFrameRouter) : bool := existsb (name_handler r) [128; 129; 130; 131; 132].

(** The readings of the clock and the iteration order of the cache, one per
    delivery of a frame. *)
Definition Readings : Type := nat -> Clock * list (DedupKey (EndPoint := EndPoint)).

(** ** Ordinary data *)

Definition read_trace (limit : Z) (t : option PbTraceContext) : option WireTrace :=
  match t with Some pb => trace_context_from_proto pb limit | None => None end.

(** [DeliveryOptions{}], and with the two fields that a tracked message sets. *)
Definition plain_options : DeliveryOptions := mkOptions false true DM_BestEffort 0 0 false.
Definition tracked_options (message_id : Z) : DeliveryOptions := mkOptions false true DM_AtLeastOnce message_id 0 false.

Definition pipeline_deliver (n : Node) (k : Clock * list DedupKey) (target : Z) (m : Message) (o : DeliveryOptions) : EnqueueResult * Node :=
  let '(r, p) := try_deliver sizeof_message iteration_order control_try_push control_try_push_dynamic (n_pipeline n) k.1 k.2 target m 0 0 o in
  (r, set_pipeline n p).

Definition send_reliable_ack (r : InboundFrameRouter) (n : Node) (target acker : ActorAddress) (message_id status retry : Z) : Node :=
  if has_transport r then transmit n target (EnvData (ack_frame target acker message_id status retry)) else n.

Definition deliver_ordinary_data (r : InboundFrameRouter) (k : Readings) (f : ActorMsgFrame) (n : Node) : FrameDispatchResult * Node :=
  if is_python_binding_control_tag (am_type_tag f)
  then (with_detail (frame_result FD_InvalidControlPayload PT_Data) (am_type_tag f), n)
  else
    let ack_requested := has_flag (am_flags f) AckRequested in
    let sender := address_from_pb beyond (am_sender f) in
    let receiver := address_from_pb beyond (am_receiver f) in
    let m := mkMessage (am_type_tag f) (am_payload f) sender (read_trace (max_tracestate_len r) (am_trace f)) INT64_MAX 0 0
               (am_message_id f) ack_requested in
    let o := if ack_requested && negb (am_message_id f =? 0) then tracked_options (am_message_id f) else plain_options in
    let '(result, n) := pipeline_deliver n (k 0%nat) (a_id receiver) m o in
    let d := compute_ack_emission result ack_requested in
    let n := if has_reliable_ack r && should_emit d
             then send_reliable_ack r n sender receiver (am_message_id f) (ack_status_value (ad_status d)) (ad_retry_after_ms d) else n in
    (if er_accepted result then frame_result FD_ActorDelivered PT_Data
     else with_detail (frame_result FD_ActorRejected PT_Data) (enqueue_code_value (er_code result)), n).

(** ** Classification of a data frame *)

Definition route_data_payload (r : InboundFrameRouter) (peer : EndPoint) (now : Z) (k : Readings) (f : ActorMsgFrame) (n : Node)
  : FrameDispatchResult * Node :=
  let ack_req := has_flag (am_flags f) AckRequested in
  let ack_resp := has_flag (am_flags f) AckResponse in
  if is_rpc_response f && (ack_req || ack_resp) then (frame_result FD_InvalidFlags PT_Data, n)
  else if is_rpc_response f then
    (frame_result FD_RpcResponseHandled PT_Data, set_rpc n (on_response (am_message_id f) (am_payload f) now (n_rpc n)))
  else if ack_req && ack_resp then
    (frame_result FD_ReliableAckHandled PT_Data, set_tracker n (on_ack (n_tracker n) (am_message_id f)))
  else if ack_resp then
    (frame_result FD_ReliableNackHandled PT_Data,
     set_tracker n (on_nack (n_tracker n) (am_message_id f) (am_type_tag f) (read_le32 (am_payload f))))
  else if am_type_tag f =? BackpressureSignalTag then
    (frame_result FD_BackpressureHandled PT_Data,
     set_backpressure n (handle_remote_signal beyond signal_parse (n_backpressure n) f).2)
  else if is_name_protocol_tag (am_type_tag f) && name_port_active r && name_handler r (am_type_tag f) then
    (frame_result FD_ActorRejected PT_Data,
     match decode_name_message (am_type_tag f) (am_payload f) with
     | Some m => call_name_port n peer m
     | None => n
     end)
  else deliver_ordinary_data r k f n.

(** ** Acknowledgement frames and batches *)

Definition route_dedicated_ack (f : AckFrame) (n : Node) : FrameDispatchResult * Node :=
  (frame_result FD_ReliableAckHandled PT_Ack, set_tracker n (on_ack (n_tracker n) (af_message_id f))).
Definition route_dedicated_nack (f : NackFrame) (n : Node) : FrameDispatchResult * Node :=
  (frame_result FD_ReliableNackHandled PT_Nack,
   set_tracker n (on_nack (n_tracker n) (nf_message_id f) (nf_reason f) (nf_retry_after_ms f))).

Definition batch_message (r : InboundFrameRouter) (b : BatchMsgFrame) (e : BatchEntry) : Message :=
  mkMessage (be_type_tag e) (be_payload e) (address_from_pb beyond (bm_sender b)) (read_trace (max_tracestate_len r) (be_trace e))
    INT64_MAX 0 0 (be_message_id e) false.

(** The loop; a protected tag ends it at once. *)
Fixpoint batch_loop (r : InboundFrameRouter) (b : BatchMsgFrame) (k : Readings) (i : nat) (es : list BatchEntry) (accepted rejected : Z)
    (n : Node) : (Z + Z * Z) * Node :=
  match es with
  | [] => (inr (accepted, rejected), n)
  | e :: es =>
      if is_python_binding_control_tag (be_type_tag e) then (inl (be_type_tag e), n)
      else
        let target := a_id (address_from_pb beyond (bm_receiver b)) in
        let o := if has_flag (be_flags e) AckRequested then tracked_options (be_message_id e) else plain_options in
        let '(result, n) := pipeline_deliver n (k i) target (batch_message r b e) o in
        if er_accepted result then batch_loop r b k (S i) es (accepted + 1) rejected n
        else batch_loop r b k (S i) es accepted (rejected + 1) n
  end.

Definition route_batch (r : InboundFrameRouter) (k : Readings) (b : BatchMsgFrame) (n : Node) : FrameDispatchResult * Node :=
  if max_batch_entries r <? zlen (bm_entries b) then (frame_result FD_InvalidFlags PT_Batch, n)
  else
    match batch_loop r b k 0 (bm_entries b) 0 0 n with
    | (inl tag, n) => (with_detail (frame_result FD_InvalidControlPayload PT_Batch) tag, n)
    | (inr (accepted, rejected), n) =>
        ((if (rejected =? 0) && (0 <? accepted) then mkFrameResult FD_BatchDelivered PT_Batch 0 accepted 0
          else if 0 <? accepted then mkFrameResult FD_BatchPartiallyDelivered PT_Batch 0 accepted rejected
          else frame_result FD_ActorRejected PT_Batch), n)
    end.

(** ** All frames *)

Definition stream_result (t : PayloadType) (counts : bool) (n : Node) (x : StreamDispatchResult * StreamRuntime * Runtime)
  : FrameDispatchResult * Node :=
  let '(d, s, p) := x in
  (mkFrameResult FD_StreamHandled t (stream_code_value (sd_code d)) (if counts then sd_accepted d else 0)
     (if counts then sd_rejected d else 0), set_streams n s p).

Definition on_frame (r : InboundFrameRouter) (peer : EndPoint) (now : Z) (k : Readings) (e : WireEnvelope) (n : Node)
  : FrameDispatchResult * Node :=
  if negb (accepting r) then (frame_result FD_RuntimeStopping (payload_type e), n)
  else
    match e with
    | EnvData f => route_data_payload r peer now k f n
    | EnvAck f => route_dedicated_ack f n
    | EnvNack f => route_dedicated_nack f n
    | EnvBatch b => route_batch r k b n
    | EnvStreamOpen f =>
        stream_result PT_StreamOpen true n
          (on_stream_open sizeof_message iteration_order control_try_push beyond spawn_receiver peer f now (n_streams n) (n_pipeline n))
    | EnvStreamData f =>
        stream_result PT_StreamData true n
          (on_stream_data sizeof_message iteration_order control_try_push data_bytes peer f now (n_streams n) (n_pipeline n))
    | EnvStreamAck f =>
        stream_result PT_StreamAck false n
          (on_stream_ack sizeof_message iteration_order control_try_push ack_bytes peer f now (n_streams n) (n_pipeline n))
    | EnvStreamClose f =>
        stream_result PT_StreamClose true n
          (on_stream_close sizeof_message iteration_order control_try_push close_bytes peer f now (n_streams n) (n_pipeline n))
    | EnvStreamError f =>
        stream_result PT_StreamError true n
          (on_stream_error sizeof_message iteration_order control_try_push error_bytes peer f now (n_streams n) (n_pipeline n))
    | EnvEmpty => (frame_result FD_UnsupportedPayload PT_Unknown, n)
    end.

Definition on_decode_failure : FrameDispatchResult := frame_result FD_DecodeFailed PT_Unknown.

(** ** What reaches a mailbox *)

Notation router_deliver := (try_deliver sizeof_message iteration_order control_try_push control_try_push_dynamic).

(** The router delivers with the deadline 0, which has passed on every clock that
    has started: the pipeline refuses before the mailbox and the cache. *)
Lemma expired_untouched (p : Runtime) ck order t m pr o :
  0 < ck_expiry ck ->
  let out := router_deliver p ck order t m pr 0 o in
  p_mailboxes out.2 = p_mailboxes p /\ p_dedup out.2 = p_dedup p /\
  (is_Some (p_mailboxes p !! t) -> er_accepted out.1 = false).
Proof.
  intros Hck. cbv zeta. unfold try_deliver. destruct (p_mailboxes p !! t) as [mb|] eqn:Emb.
  - pose proof (check_circuit_untouched p ck t m o pr 0) as U1.
    destruct (check_circuit_breaker p ck t m o pr 0) as [[b|] p1] eqn:Eb; simpl in U1.
    { destruct U1 as [U1 U1']. split; [done|]. split; [done|]. intros _. unfold check_circuit_breaker in Eb.
      destruct (p_breakers p !! t) as [[pol c]|]; [|done]. destruct (circuit_gate _ _ _ _) as [[] c']; by simplify_eq. }
    change (apply_default_ttl p1 ck 0) with 0.
    pose proof (check_expired_untouched p1 ck t (set_deadline m 0) o pr 0) as U2. unfold check_expired in *.
    assert (He : is_expired 0 (ck_expiry ck) = true) by (unfold is_expired; simpl; lia). rewrite He in *. simpl in *.
    destruct (untouched_trans _ _ _ U1 U2) as [V1 V2]. split; [done|]. by split.
  - cut (p_mailboxes (router_deliver p ck order t m pr 0 o).2 = p_mailboxes p /\ p_dedup (router_deliver p ck order t m pr 0 o).2 = p_dedup p).
    { unfold try_deliver. rewrite Emb. intros [H1 H2]. split; [done|]. split; [done|]. by intros [? ?]. }
    unfold try_deliver. rewrite Emb. destruct (p_fixed p !! t) as [f|].
    + destruct (is_system_message (m_type_id m)); [by destruct (control_try_push f m)|].
      destruct control_try_push_dynamic as [push|]; [by destruct (push f m)|done].
    + apply reject_untouched.
Qed.

Lemma pipeline_deliver_untouched n k t m o :
  0 < ck_expiry k.1 -> let n' := (pipeline_deliver n k t m o).2 in
  p_mailboxes (n_pipeline n') = p_mailboxes (n_pipeline n) /\ p_dedup (n_pipeline n') = p_dedup (n_pipeline n) /\
  n_tracker n' = n_tracker n /\ n_out n' = n_out n.
Proof.
  intros Hk. unfold pipeline_deliver. pose proof (expired_untouched (n_pipeline n) k.1 k.2 t m 0 o Hk) as (H1 & H2 & _).
  by destruct (router_deliver _ _ _ _ _ _ _ _) as [res p].
Qed.

Lemma batch_untouched r b k es : forall i a j n, (forall i, 0 < ck_expiry (k i).1) ->
  let n' := (batch_loop r b k i es a j n).2 in
  p_mailboxes (n_pipeline n') = p_mailboxes (n_pipeline n) /\ p_dedup (n_pipeline n') = p_dedup (n_pipeline n).
Proof.
  induction es as [|e es IH]; intros i a j n Hk; [done|]. cbn [batch_loop]. destruct (is_python_binding_control_tag _); [done|].
  match goal with |- context [pipeline_deliver n ?kk ?t ?m ?o] => pose proof (pipeline_deliver_untouched n kk t m o (Hk i)) as (H1 & H2 & _);
    destruct (pipeline_deliver n kk t m o) as [res n1] end. simpl in *.
  destruct (er_accepted res); [destruct (IH (S i) (a + 1) j n1 Hk)|destruct (IH (S i) a (j + 1) n1 Hk)]; split; congruence.
Qed.

Definition is_stream_frame (e : WireEnvelope) : bool :=
  match e with EnvStreamOpen _ | EnvStreamData _ | EnvStreamAck _ | EnvStreamClose _ | EnvStreamError _ => true | _ => false end.

Lemma ordinary_untouched r k f n : (forall i, 0 < ck_expiry (k i).1) ->
  let n' := (deliver_ordinary_data r k f n).2 in
  p_mailboxes (n_pipeline n') = p_mailboxes (n_pipeline n) /\ p_dedup (n_pipeline n') = p_dedup (n_pipeline n) /\
  n_tracker n' = n_tracker n.
Proof.
  intros Hk. unfold deliver_ordinary_data. destruct (is_python_binding_control_tag _); [done|].
  match goal with |- context [pipeline_deliver n ?kk ?t ?m ?o] => pose proof (pipeline_deliver_untouched n kk t m o (Hk 0%nat)) as (H1 & H2 & H3 & _);
    destruct (pipeline_deliver n kk t m o) as [res n1] end. simpl in *.
  destruct (has_reliable_ack r && _); [|done]. unfold send_reliable_ack. by destruct (has_transport r).
Qed.

(** No frame from another node changes a mailbox or the duplicate cache, stream
    frames apart: the router passes the deadline 0 for every message, and the
    pipeline takes it for one that has expired.  Only actors with a fixed
    mailbox, which the pipeline does not check, receive messages from other
    nodes. *)
Theorem remote_messages_expire r peer now k e n :
  is_stream_frame e = false -> (forall i, 0 < ck_expiry (k i).1) ->
  let n' := (on_frame r peer now k e n).2 in
  p_mailboxes (n_pipeline n') = p_mailboxes (n_pipeline n) /\ p_dedup (n_pipeline n') = p_dedup (n_pipeline n).
Proof.
  intros He Hk. cbv zeta. unfold on_frame. destruct (negb (accepting r)); [done|]. destruct e as [|f|f|f|b|f|f|f|f|f]; try done.
  - unfold route_data_payload. destruct (is_rpc_response f && _); [done|]. destruct (is_rpc_response f); [done|].
    destruct (has_flag _ AckRequested && _); [done|]. destruct (has_flag _ AckResponse); [done|].
    destruct (am_type_tag f =? _); [done|]. destruct (is_name_protocol_tag _ && _ && _); [by destruct (decode_name_message _ _)|].
    destruct (ordinary_untouched r k f n Hk) as (H1 & H2 & _). done.
  - unfold route_batch. destruct (max_batch_entries r <? _); [done|].
    pose proof (batch_untouched r b k (bm_entries b) 0 0 0 n Hk) as H. cbv zeta in H.
    by destruct (batch_loop _ _ _ _ _ _ _ _) as [[tag|[a j]] n'].
Qed.

(** ** How a send is reported *)

(** A frame that the router takes for ordinary data. *)
Definition is_ordinary (r : InboundFrameRouter) (f : ActorMsgFrame) : bool :=
  negb (is_rpc_response f) && negb (has_flag (am_flags f) AckResponse) && negb (am_type_tag f =? BackpressureSignalTag)
  && negb (is_name_protocol_tag (am_type_tag f) && name_port_active r && name_handler r (am_type_tag f))
  && negb (is_python_binding_control_tag (am_type_tag f)).

Lemma route_ordinary r peer now k f n :
  is_ordinary r f = true -> route_data_payload r peer now k f n = deliver_ordinary_data r k f n.
Proof.
  unfold is_ordinary. intros H. repeat apply andb_true_iff in H as [H ?].
  apply negb_true_iff in H as Hrpc. apply negb_true_iff in H3 as Hresp. apply negb_true_iff in H2 as Htag. apply negb_true_iff in H1 as Hname.
  unfold route_data_payload. rewrite Hrpc, Hresp, Htag, Hname. simpl. by rewrite andb_false_r.
Qed.

(** The acknowledgement of an accepted message is itself ordinary data that asks
    to be acknowledged. *)
Lemma positive_ack_ordinary r target acker id status retry :
  (status =? 1) = false -> is_ordinary r (ack_frame target acker id status retry) = true.
Proof. intros Hs. unfold is_ordinary, ack_frame, is_rpc_response. rewrite Hs. reflexivity. Qed.

(** A negative acknowledgement carries the number of its status, which is 1, as
    the reason. *)
Lemma negative_ack_routed r peer now k target acker id retry n :
  accepting r = true ->
  on_frame r peer now k (EnvData (ack_frame target acker id 1 retry)) n =
    (frame_result FD_ReliableNackHandled PT_Data, set_tracker n (on_nack (n_tracker n) id 1 retry)).
Proof.
  intros Ha. unfold on_frame. by rewrite Ha.
Qed.

(** The reply to a frame that asks for one: the acknowledgement, to the sender and
    from the receiver of the frame. *)
Lemma ordinary_reply r k f n :
  is_python_binding_control_tag (am_type_tag f) = false -> has_flag (am_flags f) AckRequested = true ->
  has_reliable_ack r = true -> has_transport r = true ->
  let out := deliver_ordinary_data r k f n in
  let sender := address_from_pb beyond (am_sender f) in
  let receiver := address_from_pb beyond (am_receiver f) in
  exists retry, n_out out.2 = n_out n ++ [(sender, EnvData (ack_frame sender receiver (am_message_id f)
    (if bool_decide (fr_code out.1 = FD_ActorDelivered) then 0 else 1) retry))] /\
    (fr_code out.1 = FD_ActorDelivered \/ fr_code out.1 = FD_ActorRejected).
Proof.
  intros Hpy Hack Hra Htr. cbv zeta. unfold deliver_ordinary_data. rewrite Hpy, Hack, Hra.
  match goal with |- context [pipeline_deliver n ?kk ?t ?m ?o] => assert (Hout : n_out (pipeline_deliver n kk t m o).2 = n_out n)
    by (unfold pipeline_deliver; by destruct (router_deliver _ _ _ _ _ _ _ _));
    destruct (pipeline_deliver n kk t m o) as [res n1] end. simpl in Hout.
  unfold compute_ack_emission. simpl. unfold send_reliable_ack. rewrite Htr. destruct (er_accepted res); simpl; rewrite Hout; eauto.
Qed.

(** A tracked send, as its sender learns of it: the frame asks for an
    acknowledgement, the receiver answers it, and the answer arrives.  If the
    message was accepted, the answer is not recognized and the send stays as it
    was; if it was refused, the send is settled as accepted under pressure.  No
    answer ever settles a send as accepted. *)
Theorem tracked_send_reported r1 r2 peer1 peer2 now1 now2 k1 k2 f n1 n2 res n1' a g :
  is_ordinary r1 f = true -> has_flag (am_flags f) AckRequested = true ->
  accepting r1 = true -> accepting r2 = true -> has_reliable_ack r1 = true -> has_transport r1 = true ->
  on_frame r1 peer1 now1 k1 (EnvData f) n1 = (res, n1') -> n_out n1' = n_out n1 ++ [(a, g)] ->
  (forall i, 0 < ck_expiry (k2 i).1) ->
  let t' := n_tracker (on_frame r2 peer2 now2 k2 g n2).2 in
  (fr_code res = FD_ActorDelivered -> t' = n_tracker n2) /\
  (fr_code res <> FD_ActorDelivered ->
     t' = on_nack (n_tracker n2) (am_message_id f) (ds_value DS_AcceptedWithPressure) 0) /\
  forall st, receipts (n_tracker n2) !! am_message_id f = Some st -> ss_result st = None ->
    forall st' o, receipts t' !! am_message_id f = Some st' -> ss_result st' = Some o ->
      oc_status o = ds_value DS_AcceptedWithPressure.
Proof.
  intros Hord Hack Ha1 Ha2 Hra Htr E Eout Hk. cbv zeta. unfold on_frame in E. rewrite Ha1 in E. simpl in E.
  rewrite (route_ordinary r1 peer1 now1 k1 f n1 Hord) in E.
  assert (Hpy : is_python_binding_control_tag (am_type_tag f) = false).
  { unfold is_ordinary in Hord. apply andb_true_iff in Hord as [_ Hpy]. by apply negb_true_iff. }
  destruct (ordinary_reply r1 k1 f n1 Hpy Hack Hra Htr) as (retry & Hout & Hcode). rewrite E in Hout, Hcode. simpl in Hout, Hcode.
  rewrite Hout in Eout. apply app_inv_head in Eout. injection Eout as <- <-.
  set (s := address_from_pb beyond (am_sender f)). set (v := address_from_pb beyond (am_receiver f)).
  case_bool_decide as Hd.
  - assert (Ht : n_tracker (on_frame r2 peer2 now2 k2 (EnvData (ack_frame s v (am_message_id f) 0 retry)) n2).2 = n_tracker n2).
    { unfold on_frame. rewrite Ha2. simpl. rewrite route_ordinary by by apply positive_ack_ordinary. by apply ordinary_untouched. }
    rewrite Ht. split; [done|]. split; [done|]. intros st Hst Hn st' o Hst'. rewrite Hst in Hst'. injection Hst' as <-. by rewrite Hn.
  - rewrite negative_ack_routed by done. simpl. split; [done|]. split; [done|].
    intros st Hst Hn st' o Hst' Ho. unfold on_nack in Hst'. simpl in Hst'.
    destruct (pending (n_tracker n2) !! am_message_id f) as [ps|]; [|simplify_eq; congruence].
    unfold on_receipt in Hst'. simpl in Hst'. rewrite Hst in Hst'. unfold receipt_step, ss_resolve in Hst'. rewrite Hn in Hst'. simpl in Hst'.
    rewrite lookup_insert_eq in Hst'. injection Hst' as <-. simpl in Ho. by injection Ho as <-.
Qed.

(** ** Acknowledgements of acknowledgements *)

(** The frame arrives at the first node, its answer at the second, and so on. *)
Fixpoint ack_rounds (m : nat) (r : InboundFrameRouter) (peer : EndPoint) (now : Z) (k : Readings) (f : ActorMsgFrame) (n1 n2 : Node)
  : Node * Node :=
  match m with
  | O => (n1, n2)
  | S m =>
      let n1 := (on_frame r peer now k (EnvData f) n1).2 in
      match last (n_out n1) with
      | Some (_, EnvData g) => let '(n2, n1) := ack_rounds m r peer now k g n2 n1 in (n1, n2)
      | _ => (n1, n2)
      end
  end.

(** An actor with a fixed mailbox. *)
Definition has_fixed (n : Node) (id : Z) : Prop := p_mailboxes (n_pipeline n) !! id = None /\ is_Some (p_fixed (n_pipeline n) !! id).

Lemma fixed_accepts push r peer now k f n :
  control_try_push_dynamic = Some push -> (forall x m, er_accepted (push x m).1 = true) ->
  accepting r = true -> has_reliable_ack r = true -> has_transport r = true ->
  is_ordinary r f = true -> has_flag (am_flags f) AckRequested = true -> is_system_message (am_type_tag f) = false ->
  has_fixed n (a_id (address_from_pb beyond (am_receiver f))) ->
  let n' := (on_frame r peer now k (EnvData f) n).2 in
  let sender := address_from_pb beyond (am_sender f) in
  let receiver := address_from_pb beyond (am_receiver f) in
  n_out n' = n_out n ++ [(sender, EnvData (ack_frame sender receiver (am_message_id f) 0 0))] /\
  forall id, has_fixed n id -> has_fixed n' id.
Proof.
  intros Hdyn Hpush Ha Hra Htr Hord Hack Hsys [Hno [fx Hfx]]. cbv zeta. unfold on_frame. rewrite Ha. simpl.
  rewrite route_ordinary by done. unfold deliver_ordinary_data.
  assert (Hpy : is_python_binding_control_tag (am_type_tag f) = false).
  { unfold is_ordinary in Hord. apply andb_true_iff in Hord as [_ Hpy]. by apply negb_true_iff. }
  rewrite Hpy, Hack, Hra. unfold pipeline_deliver. rewrite (fixed_mailbox_unchecked _ _ _ _ _ _ _ _ _ _ _ _ fx push) by done.
  simpl. unfold compute_ack_emission. simpl. rewrite Hpush. simpl. unfold send_reliable_ack. rewrite Htr. simpl. split; [done|].
  intros id [H1 H2]. split; [done|]. apply lookup_insert_is_Some. destruct (decide (a_id (address_from_pb beyond (am_receiver f)) = id)); eauto.
Qed.

(** Between two actors with fixed mailboxes an acknowledged message is never
    done with: every acknowledgement is delivered to the actor as a message and
    acknowledged in turn. *)
Theorem acks_without_end push r peer now k m : forall f n1 n2,
  control_try_push_dynamic = Some push -> (forall x m, er_accepted (push x m).1 = true) ->
  accepting r = true -> has_reliable_ack r = true -> has_transport r = true ->
  is_ordinary r f = true -> has_flag (am_flags f) AckRequested = true -> is_system_message (am_type_tag f) = false ->
  has_fixed n1 (a_id (address_from_pb beyond (am_receiver f))) -> has_fixed n2 (a_id (address_from_pb beyond (am_sender f))) ->
  let '(n1', n2') := ack_rounds m r peer now k f n1 n2 in
  zlen (n_out n1') + zlen (n_out n2') = zlen (n_out n1) + zlen (n_out n2) + Z.of_nat m.
Proof.
  induction m as [|m IH]; intros f n1 n2 Hdyn Hpush Ha Hra Htr Hord Hack Hsys Hf1 Hf2; cbn [ack_rounds]; [lia|].
  destruct (fixed_accepts push r peer now k f n1) as [Hout Hkeep]; [done..|].
  set (n1' := (on_frame r peer now k (EnvData f) n1).2) in *. rewrite Hout, last_snoc.
  set (g := ack_frame _ _ _ _ _).
  specialize (IH g n2 n1' Hdyn Hpush Ha Hra Htr (positive_ack_ordinary r _ _ _ 0 0 eq_refl) eq_refl eq_refl).
  destruct (ack_rounds m r peer now k g n2 n1') as [n2'' n1''].
  assert (Hr : a_id (address_from_pb beyond (am_receiver g)) = a_id (address_from_pb beyond (am_sender f))) by apply address_to_pb_id.
  assert (Hs : a_id (address_from_pb beyond (am_sender g)) = a_id (address_from_pb beyond (am_receiver f))) by apply address_to_pb_id.
  rewrite Hr, Hs in IH. specialize (IH Hf2 (Hkeep _ Hf1)). rewrite Hout, zlen_app, zlen_cons, zlen_nil in IH. lia.
Qed.

(** ** Every frame has one owner *)

(** Everything but the pipeline. *)
Definition same_rest (n n' : Node) : Prop :=
  n_tracker n' = n_tracker n /\ n_rpc n' = n_rpc n /\ n_backpressure n' = n_backpressure n /\ n_streams n' = n_streams n /\
  n_names n' = n_names n.

Lemma pipeline_deliver_rest n k t m o : same_rest n (pipeline_deliver n k t m o).2 /\ n_out (pipeline_deliver n k t m o).2 = n_out n.
Proof. unfold pipeline_deliver, same_rest. by destruct (router_deliver _ _ _ _ _ _ _ _). Qed.

Lemma batch_rest r b k es : forall i a j n,
  same_rest n (batch_loop r b k i es a j n).2 /\ n_out (batch_loop r b k i es a j n).2 = n_out n.
Proof.
  induction es as [|e es IH]; intros i a j n; cbn [batch_loop]; [done|]. destruct (is_python_binding_control_tag _); [done|].
  match goal with |- context [pipeline_deliver n ?kk ?t ?m ?o] => pose proof (pipeline_deliver_rest n kk t m o) as [(R1 & R2 & R3 & R4 & R5) O];
    destruct (pipeline_deliver n kk t m o) as [res n1] end. simpl in *. unfold same_rest in *.
  destruct (er_accepted res); [destruct (IH (S i) (a + 1) j n1) as [(I1 & I2 & I3 & I4 & I5) IO]
    |destruct (IH (S i) a (j + 1) n1) as [(I1 & I2 & I3 & I4 & I5) IO]]; rewrite I1, I2, I3, I4, I5, IO; done.
Qed.

Lemma ordinary_rest r k f n :
  let out := deliver_ordinary_data r k f n in
  same_rest n out.2 /\
  (n_out out.2 = n_out n \/ has_flag (am_flags f) AckRequested = true /\
     exists g, n_out out.2 = n_out n ++ [(address_from_pb beyond (am_sender f), g)]) /\
  (n_pipeline out.2 = n_pipeline n \/ fr_code out.1 = FD_ActorDelivered \/ fr_code out.1 = FD_ActorRejected).
Proof.
  cbv zeta. unfold deliver_ordinary_data. destruct (is_python_binding_control_tag _); [by repeat split; left|].
  match goal with |- context [pipeline_deliver n ?kk ?t ?m ?o] => pose proof (pipeline_deliver_rest n kk t m o) as [R O];
    destruct (pipeline_deliver n kk t m o) as [res n1] end. simpl in *. unfold same_rest in *.
  split; [|split].
  - destruct (has_reliable_ack r && _); [|done]. unfold send_reliable_ack. by destruct (has_transport r).
  - destruct (has_flag (am_flags f) AckRequested) eqn:E; [|by rewrite andb_false_r; left].
    destruct (has_reliable_ack r && _); [|by left]. unfold send_reliable_ack. destruct (has_transport r); [|by left].
    right. split; [done|]. simpl. rewrite O. eauto.
  - right. destruct (er_accepted res); eauto.
Qed.

(** The components that differ after a frame, against its answer. *)
Record changes_only_owner (r : InboundFrameRouter) (peer : EndPoint) (e : WireEnvelope) (n : Node) (out : FrameDispatchResult * Node) : Prop := {
  oo_tracker : n_tracker out.2 = n_tracker n \/ fr_code out.1 = FD_ReliableAckHandled \/ fr_code out.1 = FD_ReliableNackHandled;
  oo_rpc : n_rpc out.2 = n_rpc n \/ fr_code out.1 = FD_RpcResponseHandled;
  oo_backpressure : n_backpressure out.2 = n_backpressure n \/ fr_code out.1 = FD_BackpressureHandled;
  oo_streams : n_streams out.2 = n_streams n \/ fr_code out.1 = FD_StreamHandled;
  oo_pipeline : n_pipeline out.2 = n_pipeline n \/ fr_code out.1 = FD_StreamHandled \/ payload_type e = PT_Batch \/
    fr_code out.1 = FD_ActorDelivered \/ fr_code out.1 = FD_ActorRejected;
  oo_names : n_names out.2 = n_names n \/ exists f m, e = EnvData f /\ is_name_protocol_tag (am_type_tag f) = true /\
    decode_name_message (am_type_tag f) (am_payload f) = Some m /\ n_names out.2 = n_names n ++ [(peer, m)] /\ fr_code out.1 = FD_ActorRejected;
  oo_out : n_out out.2 = n_out n \/ exists f g, e = EnvData f /\ has_flag (am_flags f) AckRequested = true /\
    n_out out.2 = n_out n ++ [(address_from_pb beyond (am_sender f), g)];
  oo_refused : accepting r = false \/ payload_type e = PT_Data /\ fr_code out.1 = FD_InvalidFlags \/ fr_code out.1 = FD_UnsupportedPayload ->
    out.2 = n
}.

Ltac owned := split; simpl; first [by left|by right; left|by right; right|by right; right; left|by right|intros [?|[[??]|?]]; congruence|idtac].

Lemma ordinary_owned r peer k f n : accepting r = true -> changes_only_owner r peer (EnvData f) n (deliver_ordinary_data r k f n).
Proof.
  intros Ha. destruct (ordinary_rest r k f n) as ((R1 & R2 & R3 & R4 & R5) & O & P). split; try (by left).
  - destruct P as [|[|]]; eauto.
  - destruct O as [|(Hf & g & Hg)]; [by left|]. right. eauto.
  - intros H. unfold deliver_ordinary_data in *. destruct (is_python_binding_control_tag _); [done|]. exfalso.
    destruct (pipeline_deliver _ _ _ _ _) as [res n1]. simpl in H. destruct (er_accepted res); destruct H as [H|[[_ H]|H]]; simpl in H; congruence.
Qed.

Lemma stream_owned r peer e n t c x :
  accepting r = true -> changes_only_owner r peer e n (stream_result t c n x).
Proof. intros Ha. destruct x as [[d s] p]. owned. Qed.

(** What the owners do with the frame. *)

(** The send [id] is settled: it is not resent any more, and a receipt that is still
    open gets the status. *)
Definition settles_send (id status : Z) (n n' : Node) : Prop :=
  pending (n_tracker n') = delete id (pending (n_tracker n)) /\
  forall st, is_Some (pending (n_tracker n) !! id) -> receipts (n_tracker n) !! id = Some st -> ss_result st = None ->
    exists st', receipts (n_tracker n') !! id = Some st' /\ ss_result st' = Some (mkOutcome status id).
(** The send [id] stays and is due at once; no other changes and no receipt does. *)
Definition retries_send (id after : Z) (n n' : Node) : Prop :=
  receipts (n_tracker n') = receipts (n_tracker n) /\
  (forall x, x <> id -> pending (n_tracker n') !! x = pending (n_tracker n) !! x) /\
  (pending (n_tracker n) !! id = None -> pending (n_tracker n') !! id = None) /\
  forall ps, pending (n_tracker n) !! id = Some ps ->
    exists ps', pending (n_tracker n') !! id = Some ps' /\ ps_frame ps' = ps_frame ps /\ ps_next_retry_ns ps' = 1 /\ ps_retry_after_ms ps' = after.
Definition acked (id : Z) (res : FrameDispatchResult) (n n' : Node) : Prop :=
  fr_code res = FD_ReliableAckHandled /\ settles_send id (ds_value DS_Accepted) n n'.
Definition nacked (id reason after : Z) (res : FrameDispatchResult) (n n' : Node) : Prop :=
  fr_code res = FD_ReliableNackHandled /\
  if decide (u8 reason = ds_value DS_Duplicate) then settles_send id (ds_value DS_Accepted) n n'
  else if decide (u8 reason = ds_value DS_MailboxFull) then retries_send id after n n'
  else settles_send id (u8 reason) n n'.
(** The call [id] ends with the payload, if it is still open. *)
Definition answers_call (id : Z) (payload : list Z) (now : Z) (n n' : Node) : Prop :=
  rc_pending (n_rpc n') = delete id (rc_pending (n_rpc n)) /\
  rc_settled (n_rpc n') = rc_settled (n_rpc n) ++ (match rc_pending (n_rpc n) !! id with Some _ => [(id, RpcValue payload, now)] | None => [] end).
(** The handler of the signalled actor gets the signal, if it has one. *)
Definition signals (f : ActorMsgFrame) (n n' : Node) : Prop :=
  bc_handled (n_backpressure n') = bc_handled (n_backpressure n) ++
    match deserialize_backpressure_signal beyond signal_parse (am_payload f) with
    | Some (s, _) => if bool_decide (a_id (ws_sender s) <> 0 /\ a_id (ws_sender s) ∈ bc_handlers (n_backpressure n)) then [(a_id (ws_sender s), s)] else []
    | None => []
    end.
(** One message is put through the pipeline to the receiver; the answer says whether
    it was taken, and so does the acknowledgement, when one was asked for. *)
Definition data_delivered (r : InboundFrameRouter) (k : Readings) (f : ActorMsgFrame) (res : FrameDispatchResult) (n n' : Node) : Prop :=
  let sender := address_from_pb beyond (am_sender f) in
  let receiver := address_from_pb beyond (am_receiver f) in
  exists m o result retry,
    m_type_id m = am_type_tag f /\ m_payload m = am_payload f /\ m_message_id m = am_message_id f /\ m_sender m = sender /\
    router_deliver (n_pipeline n) (k 0%nat).1 (k 0%nat).2 (a_id receiver) m 0 0 o = (result, n_pipeline n') /\
    fr_code res = (if er_accepted result then FD_ActorDelivered else FD_ActorRejected) /\
    n_out n' = n_out n ++
      if has_flag (am_flags f) AckRequested && has_reliable_ack r && has_transport r
      then [(sender, EnvData (ack_frame sender receiver (am_message_id f) (if er_accepted result then 0 else 1) retry))] else [].
(** The entries of a batch, one after the other, and which of them were taken. *)
Inductive entries_delivered (r : InboundFrameRouter) (b : BatchMsgFrame) (k : Readings) : nat -> list BatchEntry -> Runtime -> list bool -> Runtime -> Prop :=
| entries_nil i p : entries_delivered r b k i [] p [] p
| entries_cons i e es p o result p1 taken p2 :
    is_python_binding_control_tag (be_type_tag e) = false ->
    router_deliver p (k i).1 (k i).2 (a_id (address_from_pb beyond (bm_receiver b))) (batch_message r b e) 0 0 o = (result, p1) ->
    entries_delivered r b k (S i) es p1 taken p2 -> entries_delivered r b k i (e :: es) p (er_accepted result :: taken) p2.
Definition batch_answer (taken : list bool) (res : FrameDispatchResult) : Prop :=
  let a := sum_by (fun b : bool => if b then 1 else 0) taken in
  if decide (a = 0) then fr_code res = FD_ActorRejected
  else fr_code res = (if decide (a = zlen taken) then FD_BatchDelivered else FD_BatchPartiallyDelivered) /\
       fr_accepted res = a /\ fr_rejected res = zlen taken - a.

Definition routed (r : InboundFrameRouter) (peer : EndPoint) (now : Z) (k : Readings) (e : WireEnvelope) (n : Node) (res : FrameDispatchResult) (n' : Node) : Prop :=
  let handed x := (x.1.2, x.2) = (n_streams n', n_pipeline n') /\ fr_code res = FD_StreamHandled /\ fr_detail res = stream_code_value (sd_code x.1.1) in
  if negb (accepting r) then fr_code res = FD_RuntimeStopping
  else
    match e with
    | EnvEmpty => fr_code res = FD_UnsupportedPayload
    | EnvAck f => acked (af_message_id f) res n n'
    | EnvNack f => nacked (nf_message_id f) (nf_reason f) (nf_retry_after_ms f) res n n'
    | EnvData f =>
        match is_rpc_response f, has_flag (am_flags f) AckRequested, has_flag (am_flags f) AckResponse with
        | true, false, false => fr_code res = FD_RpcResponseHandled /\ answers_call (am_message_id f) (am_payload f) now n n'
        | true, _, _ => fr_code res = FD_InvalidFlags
        | false, true, true => acked (am_message_id f) res n n'
        | false, false, true => nacked (am_message_id f) (am_type_tag f) (read_le32 (am_payload f)) res n n'
        | false, _, false =>
            if decide (am_type_tag f = BackpressureSignalTag) then fr_code res = FD_BackpressureHandled /\ signals f n n'
            else if is_name_protocol_tag (am_type_tag f) && name_handler r (am_type_tag f) then
              fr_code res = FD_ActorRejected /\
              n_names n' = n_names n ++ (match decode_name_message (am_type_tag f) (am_payload f) with Some m => [(peer, m)] | None => [] end)
            else if is_python_binding_control_tag (am_type_tag f) then fr_code res = FD_InvalidControlPayload /\ n' = n
            else data_delivered r k f res n n'
        end
    | EnvBatch b =>
        if max_batch_entries r <? zlen (bm_entries b) then fr_code res = FD_InvalidFlags /\ n' = n
        else if existsb (fun e => is_python_binding_control_tag (be_type_tag e)) (bm_entries b) then fr_code res = FD_InvalidControlPayload
        else exists taken, entries_delivered r b k 0 (bm_entries b) (n_pipeline n) taken (n_pipeline n') /\ batch_answer taken res
    | EnvStreamOpen f => handed (on_stream_open sizeof_message iteration_order control_try_push beyond spawn_receiver peer f now (n_streams n) (n_pipeline n))
    | EnvStreamData f => handed (on_stream_data sizeof_message iteration_order control_try_push data_bytes peer f now (n_streams n) (n_pipeline n))
    | EnvStreamAck f => handed (on_stream_ack sizeof_message iteration_order control_try_push ack_bytes peer f now (n_streams n) (n_pipeline n))
    | EnvStreamClose f => handed (on_stream_close sizeof_message iteration_order control_try_push close_bytes peer f now (n_streams n) (n_pipeline n))
    | EnvStreamError f => handed (on_stream_error sizeof_message iteration_order control_try_push error_bytes peer f now (n_streams n) (n_pipeline n))
    end.

Lemma receipt_settled (t : SendTracker) id status st :
  receipts t !! id = Some st -> ss_result st = None ->
  exists st', receipts (on_receipt t id (RResolve (mkOutcome status id))) !! id = Some st' /\ ss_result st' = Some (mkOutcome status id).
Proof.
  intros Hst Hr. unfold on_receipt. rewrite Hst. simpl. unfold ss_resolve. rewrite Hr. simpl. rewrite lookup_insert_eq. by eexists.
Qed.
Lemma on_receipt_pending (t : SendTracker) id op : pending (on_receipt t id op) = pending t.
Proof. unfold on_receipt. destruct (receipts t !! id); [|done]. by destruct (receipt_step _ _). Qed.

Lemma ack_settles n id : settles_send id (ds_value DS_Accepted) n (set_tracker n (on_ack (n_tracker n) id)).
Proof.
  unfold settles_send, on_ack, t_resolve. simpl. destruct (pending (n_tracker n) !! id) as [ps|] eqn:E.
  - rewrite on_receipt_pending. split; [done|]. intros st _ Hst Hr. by apply (receipt_settled _ id _ st).
  - rewrite delete_id by done. split; [done|]. by intros st [? ?].
Qed.
Lemma nack_effect n id reason after :
  nacked id reason after (frame_result FD_ReliableNackHandled PT_Data) n (set_tracker n (on_nack (n_tracker n) id reason after)).
Proof.
  split; [done|]. unfold on_nack, is_retryable_nack. cbv zeta. destruct (decide (u8 reason = ds_value DS_Duplicate)) as [->|Hd].
  - rewrite Z.eqb_refl. apply ack_settles.
  - rewrite (proj2 (Z.eqb_neq _ _) Hd). destruct (decide (u8 reason = ds_value DS_MailboxFull)) as [->|Hm].
    + unfold retries_send. rewrite Z.eqb_refl. simpl. destruct (pending (n_tracker n) !! id) as [ps|] eqn:E; [|done]. simpl. split; [done|].
      split; [intros x Hx; by rewrite lookup_insert_ne|]. split; [done|]. intros ps0 [= <-]. rewrite lookup_insert_eq. by eexists.
    + rewrite (proj2 (Z.eqb_neq _ _) Hm). unfold settles_send. simpl. destruct (pending (n_tracker n) !! id) as [ps|] eqn:E.
      * rewrite on_receipt_pending. split; [done|]. intros st _ Hst Hr. by apply (receipt_settled _ id _ st).
      * rewrite delete_id by done. split; [done|]. by intros st [? ?].
Qed.
Lemma response_ends_call n id payload now : answers_call id payload now n (set_rpc n (on_response id payload now (n_rpc n))).
Proof.
  unfold answers_call, on_response. simpl. destruct (rc_pending (n_rpc n) !! id) eqn:E; [done|]. rewrite delete_id, app_nil_r by done. done.
Qed.
Lemma signal_handled n f : signals f n (set_backpressure n (handle_remote_signal beyond signal_parse (n_backpressure n) f).2).
Proof.
  unfold signals, handle_remote_signal. simpl. destruct (deserialize_backpressure_signal _ _ _) as [[s b]|]; simpl; [|by rewrite app_nil_r].
  unfold deliver_to_sender. destruct (a_id (ws_sender s) =? 0) eqn:E; bool_to_prop.
  - rewrite bool_decide_eq_false_2 by naive_solver. by rewrite app_nil_r.
  - case_bool_decide as H.
    + by rewrite bool_decide_eq_true_2.
    + rewrite bool_decide_eq_false_2 by naive_solver. by rewrite app_nil_r.
Qed.
Lemma ordinary_delivered r k f n :
  is_python_binding_control_tag (am_type_tag f) = false ->
  data_delivered r k f (deliver_ordinary_data r k f n).1 n (deliver_ordinary_data r k f n).2.
Proof.
  intros Hpy. unfold deliver_ordinary_data, data_delivered. rewrite Hpy. unfold pipeline_deliver.
  match goal with |- context [router_deliver (n_pipeline n) ?c ?l ?t ?m 0 0 ?o] => exists m, o; destruct (router_deliver (n_pipeline n) c l t m 0 0 o) as [result p] end.
  exists result, (ad_retry_after_ms (compute_ack_emission result (has_flag (am_flags f) AckRequested))). simpl.
  unfold compute_ack_emission, send_reliable_ack.
  destruct (has_flag (am_flags f) AckRequested), (has_reliable_ack r), (er_accepted result), (has_transport r);
    simpl; rewrite ?app_nil_r; by split_and!.
Qed.
Lemma batch_delivered r b k es : forall i a j n,
  existsb (fun e => is_python_binding_control_tag (be_type_tag e)) es = false ->
  exists taken n', batch_loop r b k i es a j n =
    (inr (a + sum_by (fun b : bool => if b then 1 else 0) taken, j + (zlen taken - sum_by (fun b : bool => if b then 1 else 0) taken)), n') /\
    entries_delivered r b k i es (n_pipeline n) taken (n_pipeline n').
Proof.
  induction es as [|e es IH]; intros i a j n Hpy.
  { exists [], n. split; [|constructor]. change (sum_by _ []) with 0. change (zlen []) with 0. by rewrite Z.sub_0_r, !Z.add_0_r. }
  simpl in Hpy. apply orb_false_iff in Hpy as [He Hes]. cbn [batch_loop]. rewrite He. unfold pipeline_deliver.
  match goal with |- context [router_deliver (n_pipeline n) ?c ?l ?t ?m 0 0 ?o] => destruct (router_deliver (n_pipeline n) c l t m 0 0 o) as [result p] eqn:Er end.
  destruct (er_accepted result) eqn:Ea.
  - destruct (IH (S i) (a + 1) j (set_pipeline n p) Hes) as (taken & n' & -> & Hd). exists (true :: taken), n'.
    rewrite sum_by_cons, zlen_cons. split; [do 3 f_equal; lia|]. rewrite <- Ea. by eapply entries_cons.
  - destruct (IH (S i) a (j + 1) (set_pipeline n p) Hes) as (taken & n' & -> & Hd). exists (false :: taken), n'.
    rewrite sum_by_cons, zlen_cons. split; [do 3 f_equal; lia|]. rewrite <- Ea. by eapply entries_cons.
Qed.
Lemma batch_stopped r b k es : forall i a j n,
  existsb (fun e => is_python_binding_control_tag (be_type_tag e)) es = true -> exists tag n', batch_loop r b k i es a j n = (inl tag, n').
Proof.
  induction es as [|e es IH]; intros i a j n Hpy; [done|]. simpl in Hpy. cbn [batch_loop].
  destruct (is_python_binding_control_tag (be_type_tag e)); [by eauto|]. destruct (pipeline_deliver _ _ _ _ _) as [result n1].
  destruct (er_accepted result); by apply IH.
Qed.
Lemma batch_routed r k b n : let out := route_batch r k b n in
  if max_batch_entries r <? zlen (bm_entries b) then fr_code out.1 = FD_InvalidFlags /\ out.2 = n
  else if existsb (fun e => is_python_binding_control_tag (be_type_tag e)) (bm_entries b) then fr_code out.1 = FD_InvalidControlPayload
  else exists taken, entries_delivered r b k 0 (bm_entries b) (n_pipeline n) taken (n_pipeline out.2) /\ batch_answer taken out.1.
Proof.
  unfold route_batch. destruct (max_batch_entries r <? _); [done|].
  destruct (existsb _ (bm_entries b)) eqn:E.
  - by destruct (batch_stopped r b k (bm_entries b) 0 0 0 n E) as (tag & n' & ->).
  - destruct (batch_delivered r b k (bm_entries b) 0 0 0 n E) as (taken & n' & -> & Hd). exists taken. split; [done|].
    unfold batch_answer. rewrite !Z.add_0_l. set (a := sum_by _ taken).
    assert (Ha : 0 <= a <= zlen taken).
    { unfold a. clear. induction taken as [|[] l IH]; [by vm_compute|..]; rewrite sum_by_cons, zlen_cons; lia. }
    simpl. destruct (decide (a = 0)) as [->|Hn]; [by rewrite andb_false_r|]. rewrite (proj2 (Z.ltb_lt 0 a)), andb_true_r by lia.
    destruct (decide (a = zlen taken)) as [E1|E1]; [rewrite (proj2 (Z.eqb_eq _ _)) by lia|rewrite (proj2 (Z.eqb_neq _ _)) by lia]; simpl; split_and!; (done || lia).
Qed.

(** The tags of the name protocol are those that the port has callbacks for. *)
Lemma name_port_tag r tag : is_name_protocol_tag tag = true -> name_handler r tag = true -> name_port_active r = true.
Proof.
  unfold is_name_protocol_tag, name_port_active. intros H Hh. apply existsb_exists. exists tag. split; [|done].
  bool_to_prop. assert (tag ∈ [128; 129; 130; 131; 132]) by (apply list_elem_of_In; simpl; lia). by apply list_elem_of_In.
Qed.

Lemma data_routed r peer now k f n :
  let out := route_data_payload r peer now k f n in
  match is_rpc_response f, has_flag (am_flags f) AckRequested, has_flag (am_flags f) AckResponse with
  | true, false, false => fr_code out.1 = FD_RpcResponseHandled /\ answers_call (am_message_id f) (am_payload f) now n out.2
  | true, _, _ => fr_code out.1 = FD_InvalidFlags
  | false, true, true => acked (am_message_id f) out.1 n out.2
  | false, false, true => nacked (am_message_id f) (am_type_tag f) (read_le32 (am_payload f)) out.1 n out.2
  | false, _, false =>
      if decide (am_type_tag f = BackpressureSignalTag) then fr_code out.1 = FD_BackpressureHandled /\ signals f n out.2
      else if is_name_protocol_tag (am_type_tag f) && name_handler r (am_type_tag f) then
        fr_code out.1 = FD_ActorRejected /\
        n_names out.2 = n_names n ++ (match decode_name_message (am_type_tag f) (am_payload f) with Some m => [(peer, m)] | None => [] end)
      else if is_python_binding_control_tag (am_type_tag f) then fr_code out.1 = FD_InvalidControlPayload /\ out.2 = n
      else data_delivered r k f out.1 n out.2
  end.
Proof.
  cbv zeta. unfold route_data_payload.
  destruct (is_rpc_response f), (has_flag (am_flags f) AckRequested) eqn:Hq, (has_flag (am_flags f) AckResponse); cbn [andb orb]; try done;
    try (split; [done|apply response_ends_call]); try (split; [done|apply ack_settles]); try apply nack_effect.
  all: destruct (decide (am_type_tag f = BackpressureSignalTag)) as [Hb|Hb];
    [rewrite (proj2 (Z.eqb_eq _ _) Hb); split; [done|apply signal_handled]|rewrite (proj2 (Z.eqb_neq _ _) Hb)].
  all: destruct (is_name_protocol_tag (am_type_tag f)) eqn:Et, (name_handler r (am_type_tag f)) eqn:Eh; cbn [andb];
    rewrite ?(name_port_tag r _ Et Eh), ?andb_false_r, ?andb_true_r; cbn [andb].
  all: try (destruct (decode_name_message _ _); simpl; rewrite ?app_nil_r; done).
  all: destruct (is_python_binding_control_tag (am_type_tag f)) eqn:Ep; [by unfold deliver_ordinary_data; rewrite Ep|by apply ordinary_delivered].
Qed.

(** C30. Every frame goes to its owner, and to nothing else.  An acknowledgement, as a
    frame of its own or as data with both flags, settles the send it names as
    accepted; a negative one settles it with its reason, or makes it due again when
    the mailbox was full; an RPC response ends the call it names with its payload; a
    backpressure signal is given to the handler of the actor it is for; a message of
    the name protocol is decoded and given to the name port; a stream frame goes to
    the sessions; any other data is put through the delivery pipeline to its receiver
    and acknowledged with the outcome when its sender asked for it; and a batch puts
    its entries through the pipeline in order and counts the outcomes.  The answer
    names the owner (a message for the name port is answered [ActorRejected]), and
    everything else of the node is left as it was; so is a node that is shutting
    down, and one that refuses the flags or the payload of a frame. *)
Theorem frame_has_one_owner r peer now k e n :
  let out := on_frame r peer now k e n in
  changes_only_owner r peer e n out /\ routed r peer now k e n out.1 out.2.
Proof.
  cbv zeta. split.
  - unfold on_frame. destruct (accepting r) eqn:Ea; cbn [negb]; [|owned].
    destruct e as [|f|f|f|b|f|f|f|f|f]; try (by apply stream_owned); try by owned.
    + unfold route_data_payload. destruct (is_rpc_response f && _); [owned|]. destruct (is_rpc_response f); [owned|].
      destruct (has_flag _ AckRequested && _); [owned|]. destruct (has_flag _ AckResponse); [owned|].
      destruct (am_type_tag f =? _); [owned|].
      destruct (is_name_protocol_tag (am_type_tag f)) eqn:Et; simpl; [|by apply ordinary_owned].
      destruct (name_port_active r && name_handler r (am_type_tag f)); [|by apply ordinary_owned].
      destruct (decode_name_message _ _) as [m|] eqn:Ed; owned. right. by eauto 10.
    + unfold route_batch. destruct (max_batch_entries r <? _); [owned|].
      destruct (batch_rest r b k (bm_entries b) 0 0 0 n) as [(R1 & R2 & R3 & R4 & R5) O].
      destruct (batch_loop _ _ _ _ _ _ _ _) as [[tag|[a j]] n']; simpl in *; owned.
      intros [?|[[??]|H]]; [congruence..|]. exfalso. destruct ((j =? 0) && (0 <? a)); [done|]. by destruct (0 <? a).
  - unfold on_frame, routed. destruct (negb (accepting r)); [done|]. destruct e as [|f|f|f|b|f|f|f|f|f]; try (by destruct (_ : _ * _ * _) as [[? ?] ?]).
    + done.
    + apply data_routed.
    + split; [done|apply ack_settles].
    + apply nack_effect.
    + apply batch_routed.
Qed.
End Router.

(** ** Consequences for single frames *)

Section Frames.
Context (sizeof_message : Z) (iteration_order : gmap Z ActorRateLimiter -> list Z).
Context {Fixed : Type} (control_try_push : Fixed -> Message (EndPoint := EndPoint) -> EnqueueResult * Fixed).
Context (control_try_push_dynamic : option (Fixed -> Message (EndPoint := EndPoint) -> EnqueueResult * Fixed)).
Context (beyond : list Z).

(** The entries of a batch may ask for acknowledgements; none is ever sent. *)
Lemma batch_entries_unacknowledged r k b (n : Node (Fixed := Fixed)) :
  n_out (route_batch sizeof_message iteration_order control_try_push control_try_push_dynamic beyond r k b n).2 = n_out n.
Proof.
  unfold route_batch. destruct (max_batch_entries r <? _); [done|].
  destruct (batch_rest sizeof_message iteration_order control_try_push control_try_push_dynamic beyond r b k (bm_entries b) 0 0 0 n) as [_ O].
  by destruct (batch_loop _ _ _ _ _ _ _ _ _ _ _ _ _) as [[tag|[a j]] n'].
Qed.

(** The tags of the user-facing stream messages are those of the name protocol: a
    message of such a type to an actor of another node is taken for a message of
    the name protocol there, once a name resolver is installed. *)
Lemma stream_tag_taken_for_name signal_parse r peer now k f (n : Node (Fixed := Fixed)) :
  am_flags f = 0 -> am_type_tag f = StreamOpenedTag -> name_handler r StreamOpenedTag = true ->
  n_pipeline (route_data_payload sizeof_message iteration_order control_try_push control_try_push_dynamic beyond signal_parse r peer now k f n).2
    = n_pipeline n.
Proof.
  intros Hf Ht Hn. unfold route_data_payload, is_rpc_response. rewrite Hf, Ht. simpl.
  unfold StreamOpenedTag in *. unfold name_port_active. simpl. rewrite Hn. simpl. rewrite orb_true_r. simpl.
  by destruct (decode_name_message _ _).
Qed.

(** A backpressure signal towards another node: the frame that is emitted is
    recognized there and the signal reaches the handler of the actor that caused
    it, with the same numbers, reason and retry hint. *)
Theorem remote_signal_arrives (pb_serialize : BackpressureSignalMessage -> option (list Z)) signal_parse spawn db ab cb eb r peer now k
    (c : BackpressureCoordinator) (s : WireSignal) (state : MailboxPressureState) (payload : list Z) (n : Node (Fixed := Fixed)) :
  (forall m b, pb_serialize m = Some b -> signal_parse b = Some m) ->
  pb_serialize (signal_record s state) = Some payload -> payload <> [] -> bc_has_wire_port c = true ->
  0 <= ws_retry_after s <= INT64_MAX -> a_id (ws_sender s) <> 0 -> a_id (ws_sender s) ∈ bc_handlers (n_backpressure n) ->
  accepting r = true ->
  exists e, bc_wire (emit_remote_signal pb_serialize c s state) = bc_wire c ++ [(ws_sender s, e)] /\
    let out := on_frame sizeof_message iteration_order control_try_push control_try_push_dynamic beyond signal_parse spawn db ab cb eb
                 r peer now k e n in
    fr_code out.1 = FD_BackpressureHandled /\
    bc_handled (n_backpressure out.2) = bc_handled (n_backpressure n) ++ [(a_id (ws_sender s), signal_received beyond s)].
Proof.
  intros Hproto Hser Hne Hport Hretry Hid Hh Ha. exists (EnvData (signal_frame s payload)). split.
  - unfold emit_remote_signal, serialize_backpressure_signal. rewrite Hser. simpl. destruct payload as [|b bs]; [done|].
    assert (Hp : bc_has_wire_port (signal_metric c s state) = true /\ bc_wire (signal_metric c s state) = bc_wire c)
      by (unfold signal_metric; by destruct (bc_has_metrics c)).
    destruct Hp as [-> Hw]. simpl. by rewrite Hw.
  - cbv zeta. unfold on_frame. rewrite Ha. simpl. unfold route_data_payload. simpl. unfold handle_remote_signal. simpl.
    rewrite (signal_roundtrip beyond pb_serialize signal_parse Hproto s state payload Hretry Hser).
    split; [done|]. unfold deliver_to_sender. simpl. rewrite address_to_pb_id, (proj2 (Z.eqb_neq _ _) Hid).
    by rewrite bool_decide_eq_true_2.
Qed.
End Frames.

(** ** Witnesses: a node with one actor *)

Definition router_demo : InboundFrameRouter := mkRouter true 1024 256 (fun _ => false) true true.
Definition router_demo_pipeline : Pipeline (EndPoint := EndPoint) (Fixed := unit) :=
  mkPipeline (Ipv4Endpoint 167772161 8080) 0 false false {[5 := mailbox_init 5 (demo_config 10 1000 OP_RejectNewest) None [] false]}
    ∅ ∅ ∅ (Some (dlq_init dlq_default)) (Some (dedup_init dedup_default)) [] [].
Definition router_demo_node (p : Pipeline (EndPoint := EndPoint) (Fixed := unit)) : Node :=
  mkNode p rt_init (mkBackpressure false false ∅ [] [] []) (rpc_init 3) (streams_init 16) [] [].
Definition router_demo_push (f : unit) (m : Message (EndPoint := EndPoint)) : EnqueueResult * unit := (EnqueueResult_default, f).
Definition router_demo_readings (i : nat) : Clock * list (DedupKey (EndPoint := EndPoint)) := (demo_clock 50, []).
Definition router_demo_frame : ActorMsgFrame :=
  mkActorMsg (PbGlobalAddr (PbIpv4 167772162 8080) (mkPbLocal 0 9 0)) (PbLocalAddr (mkPbLocal 0 5 0)) 4096 1 AckRequested [1; 2; 3] None.
Definition router_demo_on (e : WireEnvelope) (n : Node) : FrameDispatchResult * Node :=
  on_frame 64 first_keys router_demo_push None [] (fun _ => None) None (fun _ => []) (fun _ => []) (fun _ => []) (fun _ => [])
    router_demo (Ipv4Endpoint 167772162 8080) 50 router_demo_readings e n.

(** The frame is refused, and its sender, which tracks it under the same number,
    learns that it was accepted under pressure. *)
Lemma tracked_send_reported_witness :
  let a := mkAddr (Ipv4Endpoint 167772162 8080) 0 9 0 in
  let g := EnvData (ack_frame a (mkAddr (Ipv4Endpoint 2130706433 0) 0 5 0) 1 1 0) in
  let sender := set_tracker (router_demo_node router_demo_pipeline) (track rt_init [0] (Ipv4Endpoint 167772161 8080) retry_default 0).2 in
  n_out (router_demo_on (EnvData router_demo_frame) (router_demo_node router_demo_pipeline)).2 = [(a, g)] /\
  n_tracker (router_demo_on g sender).2 = on_nack (n_tracker sender) 1 (ds_value DS_AcceptedWithPressure) 0.
Proof.
  intros a g sender.
  assert (Hout : n_out (router_demo_on (EnvData router_demo_frame) (router_demo_node router_demo_pipeline)).2 = [(a, g)]) by by vm_compute.
  split; [exact Hout|].
  destruct (router_demo_on (EnvData router_demo_frame) (router_demo_node router_demo_pipeline)) as [res m] eqn:E.
  apply (tracked_send_reported 64 first_keys router_demo_push None [] (fun _ => None) None (fun _ => []) (fun _ => []) (fun _ => []) (fun _ => [])
    router_demo router_demo (Ipv4Endpoint 167772162 8080) (Ipv4Endpoint 167772162 8080) 50 50 router_demo_readings router_demo_readings
    router_demo_frame (router_demo_node router_demo_pipeline) sender res m a g).
  - reflexivity.
  - reflexivity.
  - reflexivity.
  - reflexivity.
  - reflexivity.
  - reflexivity.
  - exact E.
  - exact Hout.
  - intros i. by vm_compute.
  - intros Hd. apply (f_equal (fun x => fr_code x.1)) in E. simpl in E. rewrite Hd in E. vm_compute in E. discriminate E.
Defined.

Lemma remote_messages_expire_witness :
  p_mailboxes (n_pipeline (router_demo_on (EnvData router_demo_frame) (router_demo_node router_demo_pipeline)).2) =
  p_mailboxes router_demo_pipeline.
Proof.
  apply (remote_messages_expire 64 first_keys router_demo_push None [] (fun _ => None) None (fun _ => []) (fun _ => []) (fun _ => []) (fun _ => [])
    router_demo (Ipv4Endpoint 167772162 8080) 50 router_demo_readings (EnvData router_demo_frame) (router_demo_node router_demo_pipeline)).
  - reflexivity.
  - intros i. by vm_compute.
Defined.

(** The first entry of a batch with a protected tag behind it has been through the
    pipeline, here into the dead letters, when the batch is refused. *)
Lemma batch_stops_midway :
  let b := mkBatch PbAddrUnset (PbLocalAddr (mkPbLocal 0 7 0)) [mkBatchEntry 4096 1 0 [1] None; mkBatchEntry 240 2 0 [2] None] in
  let out := router_demo_on (EnvBatch b) (router_demo_node router_demo_pipeline) in
  fr_code out.1 = FD_InvalidControlPayload /\ fr_accepted out.1 = 0 /\ fr_rejected out.1 = 0 /\
  ((fun q => zlen (dlq_records q)) <$> p_dlq (n_pipeline out.2)) = Some 1.
Proof. repeat split; by vm_compute. Qed.

(** Signals are numbered by their sequence here. *)
Definition router_demo_signal : WireSignal :=
  mkWireSignal (mkAddr (Ipv4Endpoint 167772162 8080) 0 9 0) (mkAddr (Ipv4Endpoint 167772161 8080) 0 5 0) BR_HardCapacity 10 10 100 1000
    (double_of_Z 1) 25 3.
Definition router_demo_serialize (m : BackpressureSignalMessage) : option (list Z) :=
  if bool_decide (m = signal_record router_demo_signal PS_HardPressure) then Some [1] else None.
Definition router_demo_parse (b : list Z) : option BackpressureSignalMessage :=
  if bool_decide (b = [1]) then Some (signal_record router_demo_signal PS_HardPressure) else None.

Lemma remote_signal_arrives_witness :
  let node := set_backpressure (router_demo_node router_demo_pipeline) (mkBackpressure false true {[5]} [] [] []) in
  exists e, bc_wire (emit_remote_signal router_demo_serialize (mkBackpressure false true ∅ [] [] []) router_demo_signal PS_HardPressure) =
      [(ws_sender router_demo_signal, e)] /\
    let out := on_frame 64 first_keys router_demo_push None [] router_demo_parse None (fun _ => []) (fun _ => []) (fun _ => []) (fun _ => [])
      router_demo (Ipv4Endpoint 167772162 8080) 50 router_demo_readings e node in
    fr_code out.1 = FD_BackpressureHandled /\ bc_handled (n_backpressure out.2) = [(5, signal_received [] router_demo_signal)].
Proof.
  intros node.
  apply (remote_signal_arrives 64 first_keys router_demo_push None [] router_demo_serialize router_demo_parse None (fun _ => []) (fun _ => [])
    (fun _ => []) (fun _ => []) router_demo (Ipv4Endpoint 167772162 8080) 50 router_demo_readings (mkBackpressure false true ∅ [] [] [])
    router_demo_signal PS_HardPressure [1] node).
  - intros m b. unfold router_demo_serialize. case_bool_decide as Hm; [|done]. intros [= <-]. by rewrite Hm.
  - by vm_compute.
  - done.
  - reflexivity.
  - by vm_compute.
  - discriminate.
  - by apply (bool_decide_unpack _).
  - reflexivity.
Defined.
