(* ===== verification/ActorProxy.v ===== *)
(** * References to remote actors

    [net/actor_location_cache.cpp], [ref/actor_proxy.cpp]: a send to an actor of
    another node, alone or in a batch: the target is resolved through the location
    cache and service discovery, the frame is built and given to the transport,
    and a tracked send is registered for retries.  What the transport answers is
    an argument, and so are discovery and the encoding of frames.  The theorems:
    what the router of the other node makes of the frame, and that the
    acknowledgement of a send names another one. *)

From S2P Require Import Prelude DeliveryTypes Lanes Admission Mailbox Dedup DeadLetters ActorCircuit TraceText Receipts Reliable Endpoint GossipCodec Pipeline FrameProto BackpressureWire RpcChannel StreamRuntime NameCodec InboundRouter.
From stdpp Require Import base numbers list gmap.

#[local] Open Scope Z_scope.

(** ** The location cache *)

Notation ActorLocationCache := (gmap Z (EndPoint * Z)).       (* endpoint, expiry in nanoseconds *)

Definition location_get (id now : Z) (c : ActorLocationCache) : option EndPoint :=
  match c !! id with Some (ep, expires) => if expires <=? now then None else Some ep | None => None end.
Definition location_put (id : Z) (ep : EndPoint) (ttl_s now : Z) (c : ActorLocationCache) : ActorLocationCache :=
  <[id := (ep, now + ttl_s * 1000000000)]> c.
Definition location_evict (id : Z) (c : ActorLocationCache) : ActorLocationCache := delete id c.
Definition location_evict_node (ep : EndPoint) (c : ActorLocationCache) : ActorLocationCache := filter (fun e => e.2.1 <> ep) c.
Definition location_purge_expired (now : Z) (c : ActorLocationCache) : ActorLocationCache := filter (fun e => now < e.2.2) c.

(** ** The proxy *)

Record ActorProxy := mkProxy {
  px_address : ActorAddress;
  px_has_transport : bool;
  px_has_system : bool;
  px_discovery : option (EndPoint -> option EndPoint);       (* endpoint of the member that was found *)
  px_cache : option ActorLocationCache
}.
Definition set_px_cache (px : ActorProxy) (c : option ActorLocationCache) : ActorProxy :=
  mkProxy (px_address px) (px_has_transport px) (px_has_system px) (px_discovery px) c.

Inductive ProxyReceipt := Settled (r : DeliveryResult ActorAddress) | Tracked (id : Z).

Section Proxy.
Context (sizeof_message : Z) (iteration_order : gmap Z ActorRateLimiter -> list Z).
Context {Fixed : Type} (control_try_push : Fixed -> Message (EndPoint := EndPoint) -> EnqueueResult * Fixed).
Context (control_try_push_dynamic : option (Fixed -> Message (EndPoint := EndPoint) -> EnqueueResult * Fixed)).
Context (beyond : list Z) (wire : WireEnvelope -> list Z).
Notation Node := (Node (Fixed := Fixed)).
Notation Message := (Message (EndPoint := EndPoint)).

(** The sender of a message, or the proxy when it has none. *)
Definition effective_sender (px : ActorProxy) (m : Message) : ActorAddress :=
  if a_id (m_sender m) =? 0 then px_address px else m_sender m.

Definition proxy_record (px : ActorProxy) (reason : DeadLetterReason) (source : DeadLetterSource) (target : ActorAddress) (m : Message)
  : DeadLetterRecord (Addr := ActorAddress) :=
  mkDeadLetter reason source (effective_sender px m) target (m_type_id m) 0 0 0 INT64_MAX 0 0 0 0 (m_payload m) 0 0 0.

(** [ActorSystem::dead_letter]. *)
Definition capture (px : ActorProxy) (reason : DeadLetterReason) (source : DeadLetterSource) (target : ActorAddress) (n : Node) (m : Message)
  : Node :=
  if px_has_system px then
    match p_dlq (n_pipeline n) with
    | Some q => set_pipeline n (set_dlq (n_pipeline n) (Some (dlq_try_push q (proxy_record px reason source target m)).2))
    | None => n
    end
  else n.

Definition with_endpoint (a : ActorAddress) (ep : EndPoint) : ActorAddress := mkAddr ep (a_type a) (a_id a) (a_node a).

(** Cache, then discovery: [None] when discovery does not know the node. *)
Definition resolve_target (px : ActorProxy) (target : ActorAddress) (now : Z) : option ActorAddress * ActorProxy :=
  let cached := match px_cache px with Some c => location_get (a_id target) now c | None => None end in
  let resolved := match cached with Some ep => with_endpoint target ep | None => target end in
  match px_discovery px with
  | None => (Some resolved, px)
  | Some discover =>
      match discover (a_endpoint resolved) with
      | None => (None, px)
      | Some ep =>
          (Some (with_endpoint resolved ep),
           match px_cache px with
           | Some c => set_px_cache px (Some (location_put (a_id target) ep 30 now c))
           | None => px
           end)
      end
  end.

(** [generate_message_id], the counter of the process. *)
Definition node_generate (n : Node) : Z * Node := let '(id, c) := rpc_generate (n_rpc n) in (id, set_rpc n c).

Definition send_frame (px : ActorProxy) (resolved : ActorAddress) (m : Message) (mode : DeliveryMode) (id : Z) : ActorMsgFrame :=
  mkActorMsg (address_to_pb (effective_sender px m)) (address_to_pb resolved) (m_type_id m) id
    (if is_tracked_delivery mode then AckRequested else 0) (m_payload m) (trace_to_proto <$> m_trace m).

(** [try_send]; [tsr] is what the transport answers. *)
Definition try_send (px : ActorProxy) (target : ActorAddress) (m : Message) (o : DeliveryOptions) (retry : option RetryPolicy)
    (tsr : TransportSendResult) (now : Z) (n : Node) : ProxyReceipt * ActorProxy * Node :=
  if negb (px_has_transport px) then
    (Settled (mkDeliveryResult DS_NoRoute target (o_message_id o) 0), px, capture px DLR_RemoteNodeUnreachable DLS_ActorProxy target n m)
  else
    let '(resolved, px) := resolve_target px target now in
    match resolved with
    | None => (Settled (mkDeliveryResult DS_NoRoute target (o_message_id o) 0), px, capture px DLR_MissingRoute DLS_ServiceDiscovery target n m)
    | Some resolved =>
        let '(id, n) := node_generate n in
        let e := EnvData (send_frame px resolved m (o_mode o) id) in
        match tsr with
        | TS_Sent =>
            let n := transmit n resolved e in
            match retry with
            | Some policy =>
                if is_tracked_delivery (o_mode o) && retry_enabled policy && px_has_system px then
                  let deadline := if 0 <? m_deadline_ns m then m_deadline_ns m else 0 in
                  let '(tid, t) := track (n_tracker n) (wire e) (a_endpoint resolved) policy deadline in
                  (Tracked tid, px, set_tracker n t)
                else (Settled (from_transport tsr target id), px, n)
            | None => (Settled (from_transport tsr target id), px, n)
            end
        | _ => (Settled (from_transport tsr target id), px, capture px DLR_TransportSendFailed DLS_Transport target n m)
        end
    end.

(** ** Batches *)

(** One entry per message, each with an identifier of its own. *)
Fixpoint batch_entries (ms : list Message) (n : Node) : list BatchEntry * Node :=
  match ms with
  | [] => ([], n)
  | m :: ms =>
      let '(id, n) := node_generate n in
      let e := mkBatchEntry (m_type_id m) id (if m_ack_requested m then AckRequested else 0) (m_payload m) (trace_to_proto <$> m_trace m) in
      let '(es, n) := batch_entries ms n in (e :: es, n)
  end.

(** The first identifier that is not zero. *)
Definition first_id (es : list BatchEntry) : Z :=
  fold_left (fun acc e => if acc =? 0 then be_message_id e else acc) es 0.

Definition capture_all (px : ActorProxy) (reason : DeadLetterReason) (source : DeadLetterSource) (target : ActorAddress) (ms : list Message)
    (n : Node) : Node := fold_left (capture px reason source target) ms n.

Definition try_send_batch (px : ActorProxy) (target : ActorAddress) (ms : list Message) (o : DeliveryOptions)
    (tsr : TransportSendResult) (now : Z) (n : Node) : DeliveryResult ActorAddress * ActorProxy * Node :=
  match ms with
  | [] => (mkDeliveryResult DS_Accepted target 0 0, px, n)
  | m :: _ =>
      if negb (px_has_transport px) then
        (mkDeliveryResult DS_NoRoute target (o_message_id o) 0, px, capture_all px DLR_RemoteNodeUnreachable DLS_ActorProxy target ms n)
      else
        let '(resolved, px) := resolve_target px target now in
        match resolved with
        | None => (mkDeliveryResult DS_NoRoute target (o_message_id o) 0, px, capture_all px DLR_MissingRoute DLS_ServiceDiscovery target ms n)
        | Some resolved =>
            let '(es, n) := batch_entries ms n in
            let b := mkBatch (address_to_pb (effective_sender px m)) (address_to_pb resolved) es in
            match tsr with
            | TS_Sent => (from_transport tsr target (first_id es), px, transmit n resolved (EnvBatch b))
            | _ => (from_transport tsr target (first_id es), px, capture_all px DLR_TransportSendFailed DLS_Transport target ms n)
            end
        end
  end.

(** ** What arrives *)

(** The message as the other node rebuilds it. *)
Definition received_message (px : ActorProxy) (m : Message) (id limit : Z) (tracked : bool) : Message :=
  mkMessage (m_type_id m) (m_payload m) (address_from_pb beyond (address_to_pb (effective_sender px m)))
    (read_trace limit (trace_to_proto <$> m_trace m)) INT64_MAX 0 0 id tracked.

Lemma has_flag_tracked (b : bool) : has_flag (if b then AckRequested else 0) AckRequested = b.
Proof. by destruct b. Qed.

Lemma try_send_frame px target m o retry now n rc px' n' :
  px_has_transport px = true -> try_send px target m o retry TS_Sent now n = (rc, px', n') ->
  forall resolved, (resolve_target px target now).1 = Some resolved ->
  n_out n' = n_out n ++ [(resolved, EnvData (send_frame px resolved m (o_mode o) (rc_next_id (n_rpc n))))].
Proof.
  intros Htr E resolved Hres. unfold try_send in E. rewrite Htr in E. simpl in E.
  destruct (resolve_target px target now) as [res px1] eqn:Er. simpl in Hres. subst res.
  assert (Hpx : px_address px1 = px_address px).
  { unfold resolve_target in Er. destruct (px_discovery px) as [d|]; [|by simplify_eq].
    destruct (d _); [|by simplify_eq]. destruct (px_cache px); by simplify_eq/=. }
  assert (Hf : forall id, send_frame px1 resolved m (o_mode o) id = send_frame px resolved m (o_mode o) id)
    by (intros id; unfold send_frame, effective_sender; by rewrite Hpx).
  unfold node_generate in E. simpl in E. rewrite Hf in E.
  destruct retry as [pol|]; [|by injection E as _ _ <-].
  destruct (_ && _ && _); [|by injection E as _ _ <-]. by injection E as _ _ <-.
Qed.

(** A message that is sent through a proxy is handed to the delivery pipeline of
    the other node for the same actor, with its type, its bytes, the identifier of
    the frame and the sender's actor; tracked if it was sent so. *)
Theorem proxied_message_arrives px target m o retry now n rc px' n' resolved r k nr :
  px_has_transport px = true -> try_send px target m o retry TS_Sent now n = (rc, px', n') ->
  (resolve_target px target now).1 = Some resolved ->
  let id := rc_next_id (n_rpc n) in
  let f := send_frame px resolved m (o_mode o) id in
  let tracked := is_tracked_delivery (o_mode o) in
  n_out n' = n_out n ++ [(resolved, EnvData f)] /\
  (is_ordinary r f = true ->
   n_pipeline (deliver_ordinary_data sizeof_message iteration_order control_try_push control_try_push_dynamic beyond r k f nr).2 =
   (try_deliver sizeof_message iteration_order control_try_push control_try_push_dynamic (n_pipeline nr) (k 0%nat).1 (k 0%nat).2 (a_id target)
      (received_message px m id (max_tracestate_len r) tracked) 0 0
      (if tracked && negb (id =? 0) then tracked_options id else plain_options)).2) /\
  a_id (m_sender (received_message px m id (max_tracestate_len r) tracked)) = a_id (effective_sender px m).
Proof.
  intros Htr E Hres. cbv zeta. split; [by eapply try_send_frame|]. split; [|apply address_to_pb_id].
  intros Hord. assert (Hid : a_id (address_from_pb beyond (address_to_pb resolved)) = a_id target).
  { rewrite address_to_pb_id. unfold resolve_target in Hres. destruct (px_discovery px) as [d|].
    - destruct (d _); [|done]. simpl in Hres. injection Hres as <-. simpl. by destruct (match px_cache px with Some c => _ | None => None end).
    - simpl in Hres. injection Hres as <-. by destruct (match px_cache px with Some c => _ | None => None end). }
  unfold deliver_ordinary_data. assert (Hpy : is_python_binding_control_tag (m_type_id m) = false).
  { unfold is_ordinary in Hord. apply andb_true_iff in Hord as [_ Hpy]. by apply negb_true_iff in Hpy. }
  unfold send_frame. cbn [am_type_tag am_flags am_sender am_receiver am_payload am_trace am_message_id].
  rewrite Hpy, has_flag_tracked, Hid. unfold pipeline_deliver, received_message. destruct (try_deliver _ _ _ _ _ _ _ _ _ _ _ _) as [res p]. simpl.
  destruct (has_reliable_ack r && _); [|done]. unfold send_reliable_ack. by destruct (has_transport r).
Qed.

(** ** What an acknowledgement settles *)

Lemma on_receipt_elsewhere {Ep Frame : Type} (t : Tracker (EndPoint := Ep) (Frame := Frame)) id op k :
  k <> id -> pending (on_receipt t id op) !! k = pending t !! k /\ receipts (on_receipt t id op) !! k = receipts t !! k.
Proof.
  intros Hne. unfold on_receipt. destruct (receipts t !! id) as [st|]; [|done]. destruct (receipt_step st op). simpl.
  by rewrite lookup_insert_ne.
Qed.

Lemma on_ack_elsewhere {Ep Frame : Type} (t : Tracker (EndPoint := Ep) (Frame := Frame)) id k :
  k <> id -> pending (on_ack t id) !! k = pending t !! k /\ receipts (on_ack t id) !! k = receipts t !! k.
Proof.
  intros Hne. unfold on_ack, t_resolve. destruct (pending t !! id); [|done]. simpl.
  destruct (on_receipt_elsewhere (set_pending t (delete id (pending t))) id (RResolve (mkOutcome (ds_value DS_Accepted) id)) k Hne) as [H1 H2].
  split; [|exact H2]. etrans; [exact H1|]. simpl. by rewrite lookup_delete_ne.
Qed.

Lemma on_nack_elsewhere {Ep Frame : Type} (t : Tracker (EndPoint := Ep) (Frame := Frame)) id reason after k :
  k <> id -> pending (on_nack t id reason after) !! k = pending t !! k /\ receipts (on_nack t id reason after) !! k = receipts t !! k.
Proof.
  intros Hne. unfold on_nack. destruct (u8 reason =? _); [by apply on_ack_elsewhere|]. destruct (pending t !! id); [|done].
  destruct (is_retryable_nack _); simpl; [by rewrite lookup_insert_ne|].
  match goal with |- context [on_receipt ?x ?i ?op] => destruct (on_receipt_elsewhere x i op k Hne) as [H1 H2] end.
  split; [|exact H2]. etrans; [exact H1|]. simpl. by rewrite lookup_delete_ne.
Qed.

(** The frame of a tracked send carries an identifier of the process counter, the
    tracker files it under one of its own.  As soon as the two differ, which one
    untracked send or remote call is enough for, no answer to the frame, positive
    or negative, touches the send or its receipt. *)
Theorem answers_name_other_sends px target m o retry now n tid px' n' resolved :
  px_has_transport px = true -> try_send px target m o retry TS_Sent now n = (Tracked tid, px', n') ->
  (resolve_target px target now).1 = Some resolved -> rc_next_id (n_rpc n) <> next_msg_id (n_tracker n) ->
  exists f, n_out n' = n_out n ++ [(resolved, EnvData f)] /\ has_flag (am_flags f) AckRequested = true /\
    is_Some (pending (n_tracker n') !! tid) /\
    forall t, t = on_ack (n_tracker n') (am_message_id f) \/ (exists reason after, t = on_nack (n_tracker n') (am_message_id f) reason after) ->
      pending t !! tid = pending (n_tracker n') !! tid /\ receipts t !! tid = receipts (n_tracker n') !! tid.
Proof.
  intros Htr E Hres Hne. exists (send_frame px resolved m (o_mode o) (rc_next_id (n_rpc n))).
  split; [by eapply try_send_frame|]. unfold try_send in E. rewrite Htr in E. simpl in E.
  destruct (resolve_target px target now) as [res px1]. simpl in Hres. subst res. unfold node_generate in E. simpl in E.
  destruct retry as [pol|]; [|done]. destruct (is_tracked_delivery (o_mode o)) eqn:Em; [|done]. simpl in E.
  destruct (retry_enabled pol && px_has_system px1); [|done]. injection E as <- _ <-.
  split; [unfold send_frame; simpl; by rewrite Em|]. split.
  { simpl. destruct (pending (n_tracker n) !! next_msg_id (n_tracker n)) eqn:Ep; simpl; [by rewrite Ep|by rewrite lookup_insert_eq]. }
  intros t [->|(reason & after & ->)]; [apply on_ack_elsewhere|apply on_nack_elsewhere]; simpl; congruence.
Qed.
End Proxy.

(** ** Witnesses *)

Definition proxy_demo : ActorProxy := mkProxy (mkAddr (Ipv4Endpoint 167772161 8080) 0 5 0) true true None None.
Definition proxy_demo_target : ActorAddress := mkAddr (Ipv4Endpoint 167772162 8080) 0 9 0.
Definition proxy_demo_message : Message (EndPoint := EndPoint) := mkMessage 4096 [7; 8] default_address None INT64_MAX 0 0 0 false.
Definition proxy_demo_retry : RetryPolicy := mkRetryPolicy 3 5000 100 30000 RB_Exponential true.
(** One identifier of the process counter has been used before. *)
Definition proxy_demo_node : Node (Fixed := unit) := (node_generate (router_demo_node router_demo_pipeline)).2.
Definition proxy_demo_send : ProxyReceipt * ActorProxy * Node (Fixed := unit) :=
  try_send (fun _ => []) proxy_demo proxy_demo_target proxy_demo_message (tracked_options 0) (Some proxy_demo_retry) TS_Sent 0 proxy_demo_node.

Lemma proxied_message_arrives_witness :
  n_out proxy_demo_send.2 = [(proxy_demo_target, EnvData (send_frame proxy_demo proxy_demo_target proxy_demo_message DM_AtLeastOnce 2))].
Proof.
  destruct proxy_demo_send as [[rc px'] n'] eqn:E.
  apply (proxied_message_arrives 64 first_keys router_demo_push None [] (fun _ => []) proxy_demo proxy_demo_target proxy_demo_message (tracked_options 0)
    (Some proxy_demo_retry) 0 proxy_demo_node rc px' n' proxy_demo_target router_demo router_demo_readings proxy_demo_node).
  - reflexivity.
  - exact E.
  - reflexivity.
Defined.

(** The send is tracked as the first, its frame is numbered 2. *)
Lemma answers_name_other_sends_witness :
  let n' := proxy_demo_send.2 in
  proxy_demo_send.1.1 = Tracked 1 /\ pending (on_ack (n_tracker n') 2) !! 1 = pending (n_tracker n') !! 1.
Proof.
  split; [reflexivity|]. destruct proxy_demo_send as [[rc px'] n'] eqn:E. assert (Hrc : rc = Tracked 1) by (by injection E as <- _ _).
  subst rc. destruct (answers_name_other_sends (fun _ => []) proxy_demo proxy_demo_target proxy_demo_message (tracked_options 0)
    (Some proxy_demo_retry) 0 proxy_demo_node 1 px' n' proxy_demo_target) as (f & Hout & _ & _ & Hother).
  - reflexivity.
  - exact E.
  - reflexivity.
  - discriminate.
  - assert (Hf : am_message_id f = 2).
    { injection E as _ <-. simpl in Hout. by injection Hout as <-. }
    destruct (Hother (on_ack (n_tracker n') 2)) as [H _]; [left; by rewrite Hf|exact H].
Defined.
