(* ===== verification/ChaseLev.v ===== *)
(** * The work-stealing deque

    [adt/chaselev_deque.hpp]: a growable circular array with two indices; the
    owner pushes and pops at the bottom, thieves take from the top.  The methods
    are given as functions, run without interference; [cstep] interleaves the
    atomic accesses of the owner with those of any number of thieves.  Indices and
    sizes are numbered without the wrap at 2^63, which takes that many pushes.
    Accesses are sequentially consistent. *)

From S2P Require Import Prelude.
From stdpp Require Import base numbers list sets.

#[local] Open Scope Z_scope.

Section Deque.
Context {V : Type} (dflt : V).

(** [buf(cap)] filled with [T{}], [mask(cap - 1)]. *)
Record CircularArray := mkArray { buf : list V; mask : Z }.
Definition array_new (cap : Z) : CircularArray := mkArray (replicate (Z.to_nat cap) dflt) (cap - 1).

Definition slot_of (a : CircularArray) (i : Z) : nat := Z.to_nat (Z.land i (mask a)).
Definition array_get (a : CircularArray) (i : Z) : V := default dflt (buf a !! slot_of a i).
Definition array_put (a : CircularArray) (i : Z) (v : V) : CircularArray := mkArray (<[slot_of a i := v]> (buf a)) (mask a).

(** The loop of [grow] from [top] to [bottom]. *)
Definition array_grow (a : CircularArray) (bottom top : Z) : CircularArray :=
  foldl (fun new i => array_put new i (array_get a i)) (array_new (zlen (buf a) * 2))
    ((fun n => top + Z.of_nat n) <$> seq 0 (Z.to_nat (bottom - top))).

(** [arrays] are the allocated arrays in the order of their allocation, [array_] the
    index of the current one; the others are in [garbage_]. *)
Record ChaselevDeque := mkDeque { top_ : Z; bottom_ : Z; arrays : list CircularArray; array_ : nat }.

Definition deque_init (initial_capacity : Z) : ChaselevDeque := mkDeque 0 0 [array_new initial_capacity] 0.

Definition array_at (q : ChaselevDeque) (a : nat) : CircularArray := default (array_new 0) (arrays q !! a).
Definition current_array (q : ChaselevDeque) : CircularArray := array_at q (array_ q).
Definition set_top (q : ChaselevDeque) (t : Z) : ChaselevDeque := mkDeque t (bottom_ q) (arrays q) (array_ q).
Definition set_bottom (q : ChaselevDeque) (b : Z) : ChaselevDeque := mkDeque (top_ q) b (arrays q) (array_ q).

(** The branch of [push_bottom] that grows the array. *)
Definition needs_growth (q : ChaselevDeque) (b t : Z) : bool := mask (current_array q) <? b - t.
Definition grow_array (q : ChaselevDeque) (b t : Z) : ChaselevDeque :=
  mkDeque (top_ q) (bottom_ q) (arrays q ++ [array_grow (current_array q) b t]) (length (arrays q)).
Definition put_current (q : ChaselevDeque) (b : Z) (v : V) : ChaselevDeque :=
  mkDeque (top_ q) (bottom_ q) (<[array_ q := array_put (current_array q) b v]> (arrays q)) (array_ q).

Definition push_bottom (v : V) (q : ChaselevDeque) : ChaselevDeque :=
  let b := bottom_ q in
  let t := top_ q in
  let q := if needs_growth q b t then grow_array q b t else q in
  set_bottom (put_current q b v) (b + 1).

Definition pop_bottom (q : ChaselevDeque) : option V * ChaselevDeque :=
  let q := set_bottom q (bottom_ q - 1) in
  let b := bottom_ q in
  let t := top_ q in
  if b - t <? 0 then (None, set_bottom q (b + 1))
  else
    let out := array_get (current_array q) b in
    if b =? t then (Some out, set_bottom (set_top q (t + 1)) (b + 1))
    else (Some out, q).

Definition steal_top (q : ChaselevDeque) : option V * ChaselevDeque :=
  let t := top_ q in
  if bottom_ q - t <=? 0 then (None, q)
  else (Some (array_get (current_array q) t), set_top q (t + 1)).

Definition size_approx (q : ChaselevDeque) : Z := if top_ q <=? bottom_ q then bottom_ q - top_ q else 0.

(** ** Interleaving

    Between its atomic accesses the owner is at one of these places.  It alone
    writes [bottom_], [array_] and the slots, so what it reads of them does not
    change under it. *)
Inductive Owner :=
| OIdle
| OPush (v : V) (b t : Z)      (* push: [bottom_] and [top_] read *)
| OPut (v : V) (b : Z)         (* push: the array has room *)
| OPublish (v : V) (b : Z)     (* push: the slot is written *)
| OPopped (b : Z)              (* pop: [bottom_] taken down *)
| OTake (b : Z)                (* pop: [top_] read below [b] *)
| OLast (b : Z) (v : V)        (* pop: [top_] read equal to [b], the slot is read *)
| ORestore (b : Z).            (* pop: [bottom_] to be put back *)

Inductive Thief :=
| TOut
| TTop (t : Z)                 (* [top_] read *)
| TChecked (t : Z)             (* [bottom_] read above it *)
| TArray (t : Z) (a : nat)     (* [array_] read *)
| TRead (t : Z) (v : V).       (* the slot is read *)

(** What has happened, in order. *)
Inductive DequeOp := Pushed (v : V) | Popped (v : V) | PoppedNone | Stolen (v : V).

Record CState := mkC { deque : ChaselevDeque; c_owner : Owner; thieves : list Thief; history : list DequeOp }.

Definition set_owner (c : CState) (q : ChaselevDeque) (o : Owner) (h : list DequeOp) : CState := mkC q o (thieves c) (history c ++ h).
Definition set_thief (c : CState) (q : ChaselevDeque) (i : nat) (t : Thief) (h : list DequeOp) : CState :=
  mkC q (c_owner c) (<[i := t]> (thieves c)) (history c ++ h).

Inductive cstep : CState -> CState -> Prop :=
| c_push c v :
    c_owner c = OIdle -> cstep c (set_owner c (deque c) (OPush v (bottom_ (deque c)) (top_ (deque c))) [])
| c_grow c v b t :
    c_owner c = OPush v b t -> needs_growth (deque c) b t = true ->
    cstep c (set_owner c (grow_array (deque c) b t) (OPut v b) [])
| c_room c v b t :
    c_owner c = OPush v b t -> needs_growth (deque c) b t = false -> cstep c (set_owner c (deque c) (OPut v b) [])
| c_put c v b :
    c_owner c = OPut v b -> cstep c (set_owner c (put_current (deque c) b v) (OPublish v b) [])
| c_publish c v b :
    c_owner c = OPublish v b -> cstep c (set_owner c (set_bottom (deque c) (b + 1)) OIdle [Pushed v])
| c_pop c :
    c_owner c = OIdle ->
    cstep c (set_owner c (set_bottom (deque c) (bottom_ (deque c) - 1)) (OPopped (bottom_ (deque c) - 1)) [])
| c_empty c b :
    c_owner c = OPopped b -> b - top_ (deque c) < 0 -> cstep c (set_owner c (deque c) (ORestore b) [PoppedNone])
| c_take c b :
    c_owner c = OPopped b -> top_ (deque c) < b -> cstep c (set_owner c (deque c) (OTake b) [])
| c_last c b :
    c_owner c = OPopped b -> top_ (deque c) = b ->
    cstep c (set_owner c (deque c) (OLast b (array_get (current_array (deque c)) b)) [])
| c_taken c b :
    c_owner c = OTake b -> cstep c (set_owner c (deque c) OIdle [Popped (array_get (current_array (deque c)) b)])
| c_last_cas c b v :
    c_owner c = OLast b v -> top_ (deque c) = b ->
    cstep c (set_owner c (set_top (deque c) (b + 1)) (ORestore b) [Popped v])
| c_last_lost c b v :
    c_owner c = OLast b v -> top_ (deque c) <> b -> cstep c (set_owner c (deque c) (ORestore b) [PoppedNone])
| c_restore c b :
    c_owner c = ORestore b -> cstep c (set_owner c (set_bottom (deque c) (b + 1)) OIdle [])
| c_steal c i :
    thieves c !! i = Some TOut -> cstep c (set_thief c (deque c) i (TTop (top_ (deque c))) [])
| c_steal_empty c i t :
    thieves c !! i = Some (TTop t) -> bottom_ (deque c) - t <= 0 -> cstep c (set_thief c (deque c) i TOut [])
| c_steal_check c i t :
    thieves c !! i = Some (TTop t) -> 0 < bottom_ (deque c) - t -> cstep c (set_thief c (deque c) i (TChecked t) [])
| c_steal_array c i t :
    thieves c !! i = Some (TChecked t) -> cstep c (set_thief c (deque c) i (TArray t (array_ (deque c))) [])
| c_steal_read c i t a :
    thieves c !! i = Some (TArray t a) ->
    cstep c (set_thief c (deque c) i (TRead t (array_get (array_at (deque c) a) t)) [])
| c_steal_cas c i t v :
    thieves c !! i = Some (TRead t v) -> top_ (deque c) = t ->
    cstep c (set_thief c (set_top (deque c) (t + 1)) i TOut [Stolen v])
| c_steal_lost c i t v :
    thieves c !! i = Some (TRead t v) -> top_ (deque c) <> t -> cstep c (set_thief c (deque c) i TOut []).

Definition c_initial (capacity : Z) (n : nat) : CState := mkC (deque_init capacity) OIdle (replicate n TOut) [].

(** ** The sequential deque: what the operations promise *)

Inductive deque_run : list DequeOp -> list V -> Prop :=
| run_nil : deque_run [] []
| run_push h D v : deque_run h D -> deque_run (h ++ [Pushed v]) (D ++ [v])
| run_pop h D v : deque_run h (D ++ [v]) -> deque_run (h ++ [Popped v]) D
| run_none h : deque_run h [] -> deque_run (h ++ [PoppedNone]) []
| run_steal h D v : deque_run h (v :: D) -> deque_run (h ++ [Stolen v]) D.

Definition pushes (h : list DequeOp) : list V := omap (fun o => match o with Pushed v => Some v | _ => None end) h.
Definition takes (h : list DequeOp) : list V :=
  omap (fun o => match o with Popped v | Stolen v => Some v | _ => None end) h.

(** The items at the indices from [lo] to [hi]. *)
Definition range (a : CircularArray) (lo hi : Z) : list V :=
  (fun n => array_get a (lo + Z.of_nat n)) <$> seq 0 (Z.to_nat (hi - lo)).
Definition deque_items (q : ChaselevDeque) : list V := range (current_array q) (top_ q) (bottom_ q).

Lemma run_conserves h D : deque_run h D -> pushes h ≡ₚ takes h ++ D.
Proof.
  unfold pushes, takes. induction 1 as [|h D v _ IH|h D v _ IH|h _ IH|h D v _ IH]; rewrite ?omap_app; simpl; rewrite ?app_nil_r; [done|..].
  - by rewrite IH, app_assoc.
  - rewrite IH, <- app_assoc. by rewrite (Permutation_app_comm D).
  - by rewrite IH, app_nil_r.
  - by rewrite IH, <- app_assoc.
Qed.

(** ** Arrays whose size is a power of two *)

Definition good_array (a : CircularArray) : Prop := exists k, 0 <= k /\ mask a = 2 ^ k - 1 /\ zlen (buf a) = 2 ^ k.

Lemma array_new_good k : 0 <= k -> good_array (array_new (2 ^ k)).
Proof.
  intros Hk. exists k. split; [done|]. split; [done|]. simpl. unfold zlen. rewrite length_replicate.
  pose proof (Z.pow_pos_nonneg 2 k). lia.
Qed.

Lemma slot_of_mod a k i : mask a = 2 ^ k - 1 -> 0 <= k -> slot_of a i = Z.to_nat (i mod 2 ^ k).
Proof. intros Hm Hk. unfold slot_of. rewrite Hm, <- Z.land_ones by done. do 2 f_equal. rewrite Z.ones_equiv. lia. Qed.

Lemma array_put_good a i v : good_array a -> good_array (array_put a i v).
Proof. intros (k & Hk & Hm & Hl). exists k. split; [done|]. split; [done|]. simpl. unfold zlen in *. by rewrite length_insert. Qed.

Lemma get_put_eq a i v : good_array a -> array_get (array_put a i v) i = v.
Proof.
  intros (k & Hk & Hm & Hl). unfold array_get, array_put. simpl.
  change (slot_of (mkArray (<[slot_of a i := v]> (buf a)) (mask a)) i) with (slot_of a i).
  rewrite list_lookup_insert_eq; [done|]. rewrite (slot_of_mod a k) by done. unfold zlen in Hl.
  pose proof (Z.mod_pos_bound i (2 ^ k) ltac:(lia)). lia.
Qed.

(** Indices less than the size apart have different slots. *)
Lemma get_put_ne a i j v : good_array a -> 0 < i - j <= mask a -> array_get (array_put a i v) j = array_get a j.
Proof.
  intros (k & Hk & Hm & Hl) Hij. unfold array_get, array_put. simpl.
  change (slot_of (mkArray (<[slot_of a i := v]> (buf a)) (mask a)) j) with (slot_of a j).
  rewrite list_lookup_insert_ne; [done|]. rewrite !(slot_of_mod a k) by done. intros E.
  pose proof (Z.pow_pos_nonneg 2 k) as Hp.
  pose proof (Z.mod_pos_bound i (2 ^ k) ltac:(lia)). pose proof (Z.mod_pos_bound j (2 ^ k) ltac:(lia)).
  apply Z2Nat.inj in E; [|lia..].
  assert (Hz : (i - j) mod 2 ^ k = 0) by (rewrite Zminus_mod, E, Z.sub_diag; apply Zmod_0_l).
  rewrite Z.mod_small in Hz by lia. lia.
Qed.

(** [grow] doubles the size and keeps what lies between the indices, provided
    that is no more than the old array has room for. *)
Lemma grow_copies a t n (new : CircularArray) :
  good_array new -> Z.of_nat n <= mask new + 1 ->
  let new' := foldl (fun new i => array_put new i (array_get a i)) new ((fun n => t + Z.of_nat n) <$> seq 0 n) in
  good_array new' /\ mask new' = mask new /\ zlen (buf new') = zlen (buf new) /\
  forall i, t <= i < t + Z.of_nat n -> array_get new' i = array_get a i.
Proof.
  induction n as [|n IH]; intros Hg Hn; [by repeat split; try done; intros; lia|].
  rewrite seq_S, fmap_app, foldl_app. simpl. destruct IH as (Hg' & Hm' & Hl' & Hget); [done|lia|].
  split; [by apply array_put_good|]. split; [done|]. split; [by unfold array_put, zlen in *; simpl; rewrite length_insert|].
  intros i Hi. destruct (decide (i = t + Z.of_nat n)) as [->|Hne]; [by apply get_put_eq|].
  rewrite get_put_ne by (done || lia). apply Hget. lia.
Qed.

Lemma array_grow_spec a b t :
  good_array a -> b - t <= 2 * (mask a + 1) ->
  good_array (array_grow a b t) /\ mask (array_grow a b t) = 2 * (mask a + 1) - 1 /\
  forall i, t <= i < b -> array_get (array_grow a b t) i = array_get a i.
Proof.
  intros (k & Hk & Hm & Hl) Hb.
  assert (Hnew : zlen (buf a) * 2 = 2 ^ (k + 1)) by (rewrite Hl, Z.pow_add_r by lia; lia).
  unfold array_grow. rewrite Hnew.
  destruct (grow_copies a t (Z.to_nat (b - t)) (array_new (2 ^ (k + 1)))) as (Hg & Hm' & _ & Hget);
    [apply array_new_good; lia|simpl; rewrite <- Hnew; lia|].
  split; [done|]. split; [rewrite Hm'; simpl; rewrite <- Hnew; lia|]. intros i Hi. apply Hget. lia.
Qed.

(** ** Ranges *)

Lemma range_empty a lo hi : hi <= lo -> range a lo hi = [].
Proof. intros. unfold range. by replace (Z.to_nat (hi - lo)) with 0%nat by lia. Qed.
Lemma range_snoc a lo hi : lo <= hi -> range a lo (hi + 1) = range a lo hi ++ [array_get a hi].
Proof.
  intros H. unfold range. replace (Z.to_nat (hi + 1 - lo)) with (S (Z.to_nat (hi - lo))) by lia.
  rewrite seq_S, fmap_app. simpl. do 3 f_equal. lia.
Qed.
Lemma range_cons a lo hi : lo < hi -> range a lo hi = array_get a lo :: range a (lo + 1) hi.
Proof.
  intros H. unfold range. replace (Z.to_nat (hi - lo)) with (S (Z.to_nat (hi - (lo + 1)))) by lia.
  simpl. f_equal; [f_equal; lia|]. rewrite <- fmap_S_seq, <- list_fmap_compose. apply list_fmap_ext. intros _ n _. simpl. f_equal. lia.
Qed.
Lemma range_ext a a' lo hi : (forall i, lo <= i < hi -> array_get a i = array_get a' i) -> range a lo hi = range a' lo hi.
Proof.
  intros H. unfold range. apply list_fmap_ext. intros j n Hj. apply lookup_seq in Hj as [-> Hn]. apply H. lia.
Qed.

(** ** The invariant *)

(** The index below which a thief may still take an item. *)
Definition steal_limit (c : CState) : Z :=
  match c_owner c with OPopped b | OLast b _ | ORestore b => b + 1 | _ => bottom_ (deque c) end.
(** The item that the owner has secured and not yet read. *)
Definition secured (c : CState) : list V :=
  match c_owner c with OTake b => [array_get (current_array (deque c)) b] | _ => [] end.
Definition content (c : CState) : list V :=
  range (current_array (deque c)) (top_ (deque c)) (steal_limit c) ++ secured c.

Definition owner_ok (c : CState) : Prop :=
  let q := deque c in
  match c_owner c with
  | OIdle => True
  | OPush _ b t => bottom_ q = b /\ t <= top_ q /\ b - t <= mask (current_array q) + 1
  | OPut _ b => bottom_ q = b /\ b - top_ q <= mask (current_array q)
  | OPublish v b => bottom_ q = b /\ b - top_ q <= mask (current_array q) /\ array_get (current_array q) b = v
  | OPopped b => bottom_ q = b
  | OTake b => bottom_ q = b /\ b - top_ q <= mask (current_array q)
  | OLast b v => bottom_ q = b /\ b <= top_ q /\ v = array_get (current_array q) b
  | ORestore b => bottom_ q = b /\ top_ q = b + 1
  end.

Definition thief_ok (c : CState) (x : Thief) : Prop :=
  let q := deque c in
  match x with
  | TOut => True
  | TTop t => t <= top_ q
  | TChecked t => t <= top_ q /\ (t = top_ q -> t < steal_limit c)
  | TArray t a => t <= top_ q /\ (a < length (arrays q))%nat /\
      (t = top_ q -> t < steal_limit c /\ array_get (array_at q a) t = array_get (current_array q) t)
  | TRead t v => t <= top_ q /\ (t = top_ q -> t < steal_limit c /\ v = array_get (current_array q) t)
  end.

Record cinv (c : CState) : Prop := mkCinv {
  ci_run : deque_run (history c) (content c);
  ci_array : (array_ (deque c) < length (arrays (deque c)))%nat;
  ci_good : good_array (current_array (deque c));
  ci_top : top_ (deque c) <= steal_limit c;
  ci_fit : steal_limit c - top_ (deque c) <= mask (current_array (deque c)) + 1;
  ci_owner : owner_ok c;
  ci_thieves : Forall (thief_ok c) (thieves c)
}.

(** What the owner may do to a deque under the eyes of thieves. *)
Lemma thief_frame c c' x :
  (length (arrays (deque c)) <= length (arrays (deque c')))%nat -> top_ (deque c) <= top_ (deque c') ->
  (top_ (deque c') = top_ (deque c) -> top_ (deque c) < steal_limit c ->
     top_ (deque c) < steal_limit c' /\
     array_get (current_array (deque c')) (top_ (deque c)) = array_get (current_array (deque c)) (top_ (deque c)) /\
     forall a, (a < length (arrays (deque c)))%nat ->
       array_get (array_at (deque c') a) (top_ (deque c)) = array_get (array_at (deque c) a) (top_ (deque c))) ->
  thief_ok c x -> thief_ok c' x.
Proof.
  intros Hlen Htop Hsame Hx. destruct x as [|t|t|t a|t v]; simpl in *; [done|lia|..].
  - split; [lia|]. intros ->. assert (E : top_ (deque c') = top_ (deque c)) by lia. rewrite E in *. by apply Hsame, Hx.
  - destruct Hx as (Ht & Ha & Hx). split; [lia|]. split; [lia|]. intros ->. assert (E : top_ (deque c') = top_ (deque c)) by lia.
    rewrite E in *. destruct Hx as [Hlt Hget]; [done|]. destruct Hsame as (? & Hcur & Harr); [done..|]. split; [done|].
    by rewrite Hcur, Harr.
  - destruct Hx as (Ht & Hx). split; [lia|]. intros ->. assert (E : top_ (deque c') = top_ (deque c)) by lia. rewrite E in *.
    destruct Hx as [Hlt ->]; [done|]. destruct Hsame as (? & Hcur & _); [done..|]. by rewrite Hcur.
Qed.

Lemma thieves_frame c c' :
  thieves c' = thieves c ->
  (length (arrays (deque c)) <= length (arrays (deque c')))%nat -> top_ (deque c) <= top_ (deque c') ->
  (top_ (deque c') = top_ (deque c) -> top_ (deque c) < steal_limit c ->
     top_ (deque c) < steal_limit c' /\
     array_get (current_array (deque c')) (top_ (deque c)) = array_get (current_array (deque c)) (top_ (deque c)) /\
     forall a, (a < length (arrays (deque c)))%nat ->
       array_get (array_at (deque c') a) (top_ (deque c)) = array_get (array_at (deque c) a) (top_ (deque c))) ->
  Forall (thief_ok c) (thieves c) -> Forall (thief_ok c') (thieves c').
Proof. intros -> ?? H F. eapply Forall_impl; [done|]. intros x. by apply thief_frame. Qed.

(** ** The steps of the owner *)

Lemma current_grow q b t : current_array (grow_array q b t) = array_grow (current_array q) b t.
Proof. unfold current_array, array_at, grow_array. simpl. by rewrite lookup_app_r, Nat.sub_diag by lia. Qed.
Lemma array_at_grow q b t a : (a < length (arrays q))%nat -> array_at (grow_array q b t) a = array_at q a.
Proof. intros H. unfold array_at, grow_array. simpl. by rewrite lookup_app_l. Qed.
Lemma array_at_put q b v a : (array_ q < length (arrays q))%nat ->
  array_at (put_current q b v) a = if decide (a = array_ q) then array_put (current_array q) b v else array_at q a.
Proof.
  intros H. unfold array_at, put_current. simpl. case_decide as E; [by rewrite E, list_lookup_insert_eq|by rewrite list_lookup_insert_ne].
Qed.
Lemma current_put q b v : (array_ q < length (arrays q))%nat -> current_array (put_current q b v) = array_put (current_array q) b v.
Proof. intros H. unfold current_array at 1. rewrite array_at_put by done. simpl. by rewrite decide_True. Qed.

Lemma grow_inv c v b t :
  cinv c -> c_owner c = OPush v b t -> needs_growth (deque c) b t = true ->
  cinv (set_owner c (grow_array (deque c) b t) (OPut v b) []).
Proof.
  intros [Hrun Harr Hg Htop Hfit Hown Hth] Eo Hneed. unfold owner_ok, content, steal_limit, secured in *. rewrite Eo in *.
  destruct Hown as (Eb & Ht & Hroom). subst b.
  destruct (array_grow_spec (current_array (deque c)) (bottom_ (deque c)) t) as (Hg' & Hm' & Hget); [done|lia|].
  assert (Hk : 0 <= mask (current_array (deque c))).
  { destruct Hg as (k & Hk & -> & _). pose proof (Z.pow_pos_nonneg 2 k). lia. }
  split; unfold owner_ok, content, steal_limit, secured; simpl; rewrite ?current_grow, ?app_nil_r, ?app_nil_r, ?length_app in *; simpl.
  - by rewrite (range_ext _ (current_array (deque c))) by (intros; apply Hget; lia).
  - lia.
  - done.
  - done.
  - lia.
  - split; [done|]. lia.
  - apply (thieves_frame c (set_owner c (grow_array (deque c) (bottom_ (deque c)) t) (OPut v (bottom_ (deque c))) [])); simpl; rewrite ?length_app; [done|lia|done| |done]. unfold steal_limit. simpl. rewrite Eo.
    intros _ Hlt. split; [done|]. split; [rewrite current_grow; apply Hget; lia|]. intros a Ha. by rewrite array_at_grow.
Qed.

Lemma put_inv c v b :
  cinv c -> c_owner c = OPut v b -> cinv (set_owner c (put_current (deque c) b v) (OPublish v b) []).
Proof.
  intros [Hrun Harr Hg Htop Hfit Hown Hth] Eo. unfold owner_ok, content, steal_limit, secured in *. rewrite Eo in *.
  destruct Hown as (Eb & Hroom).
  assert (Hget : forall i, top_ (deque c) <= i < b -> array_get (array_put (current_array (deque c)) b v) i = array_get (current_array (deque c)) i).
  { intros i Hi. apply get_put_ne; [done|lia]. }
  split; unfold owner_ok, content, steal_limit, secured; simpl; rewrite ?current_put, ?app_nil_r, ?app_nil_r, ?length_insert in * by done; simpl.
  - by rewrite (range_ext _ (current_array (deque c))) by (intros; apply Hget; lia).
  - done.
  - by apply array_put_good.
  - done.
  - done.
  - split; [done|]. split; [done|]. by apply get_put_eq.
  - apply (thieves_frame c (set_owner c (put_current (deque c) b v) (OPublish v b) [])); simpl; rewrite ?length_insert; [done|lia|done| |done]. unfold steal_limit. simpl. rewrite Eo.
    intros _ Hlt. split; [done|]. split; [rewrite current_put by done; apply Hget; lia|].
    intros a Ha. rewrite array_at_put by done. case_decide as E; [|done]. rewrite Hget by lia. by rewrite E.
Qed.

(** Steps that leave the arrays and the top alone. *)
Lemma owner_quiet c q o h :
  cinv c -> top_ q = top_ (deque c) -> arrays q = arrays (deque c) -> array_ q = array_ (deque c) ->
  let c' := set_owner c q o h in
  deque_run (history c') (content c') -> top_ q <= steal_limit c' -> steal_limit c' - top_ q <= mask (current_array q) + 1 ->
  owner_ok c' -> (top_ q < steal_limit c -> top_ q < steal_limit c') -> cinv c'.
Proof.
  intros [Hrun Harr Hg Htop Hfit Hown Hth] Et Ea Ei c' Hrun' Htop' Hfit' Hown' Hlim.
  assert (Ecur : current_array q = current_array (deque c)) by (unfold current_array, array_at; by rewrite Ea, Ei).
  split; [done|simpl; by rewrite Ea, Ei|simpl; by rewrite Ecur|done|done|done|].
  apply (thieves_frame c c'); simpl; [done|by rewrite Ea|lia| |done]. rewrite Et in *. intros _ Hlt. split; [auto|].
  split; [by rewrite Ecur|]. intros a _. unfold array_at. by rewrite Ea.
Qed.

(** Unfolds the components of the invariant at a known place of the owner. *)
Ltac at_owner c Eo :=
  unfold owner_ok, content, steal_limit, secured in *; rewrite Eo in *; simpl in *; rewrite ?app_nil_r in *.

Lemma push_read_inv c v :
  cinv c -> c_owner c = OIdle -> cinv (set_owner c (deque c) (OPush v (bottom_ (deque c)) (top_ (deque c))) []).
Proof.
  intros I Eo. pose proof I as [Hrun _ _ Htop Hfit _ _]. apply owner_quiet; try done; at_owner c Eo; try done.
Qed.

Lemma room_inv c v b t :
  cinv c -> c_owner c = OPush v b t -> needs_growth (deque c) b t = false -> cinv (set_owner c (deque c) (OPut v b) []).
Proof.
  intros I Eo Hroom. unfold needs_growth in Hroom. bool_to_prop. pose proof I as [Hrun _ _ Htop Hfit Hown _].
  apply owner_quiet; try done; at_owner c Eo; try done. split; [apply Hown|]. lia.
Qed.

Lemma publish_inv c v b :
  cinv c -> c_owner c = OPublish v b -> cinv (set_owner c (set_bottom (deque c) (b + 1)) OIdle [Pushed v]).
Proof.
  intros I Eo. pose proof I as [Hrun _ _ Htop Hfit Hown _].
  apply owner_quiet; try done; at_owner c Eo; destruct Hown as (Eb & Hroom & Hget); subst b;
    change (current_array (set_bottom (deque c) (bottom_ (deque c) + 1))) with (current_array (deque c)); [|lia..].
  rewrite range_snoc, Hget by done. by apply run_push.
Qed.

Lemma pop_inv c :
  cinv c -> c_owner c = OIdle ->
  cinv (set_owner c (set_bottom (deque c) (bottom_ (deque c) - 1)) (OPopped (bottom_ (deque c) - 1)) []).
Proof.
  intros I Eo. pose proof I as [Hrun _ _ Htop Hfit Hown _].
  apply owner_quiet; try done; at_owner c Eo; rewrite ?Z.sub_add; done.
Qed.

Lemma empty_inv c b :
  cinv c -> c_owner c = OPopped b -> b - top_ (deque c) < 0 -> cinv (set_owner c (deque c) (ORestore b) [PoppedNone]).
Proof.
  intros I Eo Hlt. pose proof I as [Hrun _ _ Htop Hfit Hown _].
  apply owner_quiet; try done; at_owner c Eo; try done.
  - rewrite range_empty in * by lia. by apply run_none.
  - split; [done|lia].
Qed.

Lemma take_inv c b :
  cinv c -> c_owner c = OPopped b -> top_ (deque c) < b -> cinv (set_owner c (deque c) (OTake b) []).
Proof.
  intros I Eo Hlt. pose proof I as [Hrun _ _ Htop Hfit Hown _].
  apply owner_quiet; try done; at_owner c Eo; try rewrite Hown in *; try lia.
  by rewrite range_snoc in Hrun by lia.
Qed.

Lemma last_inv c b :
  cinv c -> c_owner c = OPopped b -> top_ (deque c) = b ->
  cinv (set_owner c (deque c) (OLast b (array_get (current_array (deque c)) b)) []).
Proof.
  intros I Eo Et. pose proof I as [Hrun _ _ Htop Hfit Hown _].
  apply owner_quiet; try done; at_owner c Eo; try done. split; [done|]. split; [lia|done].
Qed.

Lemma taken_inv c b :
  cinv c -> c_owner c = OTake b -> cinv (set_owner c (deque c) OIdle [Popped (array_get (current_array (deque c)) b)]).
Proof.
  intros I Eo. pose proof I as [Hrun _ _ Htop Hfit Hown _].
  apply owner_quiet; try done; at_owner c Eo; try done. by apply run_pop.
Qed.

Lemma last_lost_inv c b v :
  cinv c -> c_owner c = OLast b v -> top_ (deque c) <> b -> cinv (set_owner c (deque c) (ORestore b) [PoppedNone]).
Proof.
  intros I Eo Hne. pose proof I as [Hrun _ _ Htop Hfit Hown _].
  apply owner_quiet; try done; at_owner c Eo; try done.
  - rewrite range_empty in * by lia. by apply run_none.
  - split; [apply Hown|lia].
Qed.

Lemma restore_inv c b :
  cinv c -> c_owner c = ORestore b -> cinv (set_owner c (set_bottom (deque c) (b + 1)) OIdle []).
Proof.
  intros I Eo. pose proof I as [Hrun _ _ Htop Hfit Hown _]. apply owner_quiet; try done; at_owner c Eo; done.
Qed.

(** ** The steps of a thief, and the exchange on [top_] *)

(** A thief moves and nothing else does. *)
Lemma thief_quiet c i x : cinv c -> thief_ok c x -> cinv (set_thief c (deque c) i x []).
Proof.
  intros [Hrun Harr Hg Htop Hfit Hown Hth] Hx. split; try done; [simpl; by rewrite app_nil_r|].
  change (Forall (thief_ok c) (<[i := x]> (thieves c))). by apply Forall_insert.
Qed.

(** Once [top_] has moved, no other exchange from its old value succeeds. *)
Lemma thief_left_behind c c' x :
  arrays (deque c') = arrays (deque c) -> top_ (deque c') = top_ (deque c) + 1 -> thief_ok c x -> thief_ok c' x.
Proof. intros Ea Et. apply thief_frame; [by rewrite Ea|lia|lia]. Qed.

Lemma steal_inv c i t v :
  cinv c -> thieves c !! i = Some (TRead t v) -> top_ (deque c) = t ->
  cinv (set_thief c (set_top (deque c) (t + 1)) i TOut [Stolen v]).
Proof.
  intros [Hrun Harr Hg Htop Hfit Hown Hth] Hi Et.
  destruct (proj1 (Forall_lookup _ _) Hth i _ Hi) as [_ Hread]. destruct Hread as [Hlt ->]; [done|]. subst t.
  assert (Hlim : steal_limit (set_thief c (set_top (deque c) (top_ (deque c) + 1)) i TOut
    [Stolen (array_get (current_array (deque c)) (top_ (deque c)))]) = steal_limit c) by done.
  assert (Hcur : current_array (set_top (deque c) (top_ (deque c) + 1)) = current_array (deque c)) by done.
  split; rewrite ?Hlim; simpl; rewrite ?Hcur; try done; [|lia|lia| |].
  - unfold content in Hrun |- *. simpl. rewrite Hlim, Hcur. rewrite range_cons in Hrun by done. by apply run_steal.
  - unfold owner_ok in *. simpl. rewrite Hcur. unfold steal_limit in *.
    destruct (c_owner c); simpl in *; destruct_and?; repeat split; try done; lia.
  - apply Forall_insert; [|done]. eapply Forall_impl; [exact Hth|]. intros x. by apply thief_left_behind.
Qed.

Lemma last_cas_inv c b v :
  cinv c -> c_owner c = OLast b v -> top_ (deque c) = b ->
  cinv (set_owner c (set_top (deque c) (b + 1)) (ORestore b) [Popped v]).
Proof.
  intros [Hrun Harr Hg Htop Hfit Hown Hth] Eo Et. at_owner c Eo. destruct Hown as (Eb & _ & ->).
  split; unfold owner_ok, content, steal_limit, secured; simpl; change (current_array (set_top (deque c) (b + 1))) with (current_array (deque c)); try done; try lia.
  - rewrite app_nil_r, range_empty by lia. apply run_pop. by rewrite Et, range_cons, range_empty in Hrun by lia.
  - eapply Forall_impl; [exact Hth|]. intros x. apply thief_left_behind; simpl; [done|lia].
Qed.

Lemma bottom_below_limit c : cinv c -> bottom_ (deque c) <= steal_limit c.
Proof. intros I. pose proof (ci_owner c I) as Hown. unfold owner_ok, steal_limit in *. destruct (c_owner c); destruct_and?; lia. Qed.

Lemma cstep_inv c c' : cinv c -> cstep c c' -> cinv c'.
Proof.
  intros I Hs. pose proof (ci_thieves c I) as Hth. pose proof (bottom_below_limit c I) as Hlim.
  assert (Hat : forall i x, thieves c !! i = Some x -> thief_ok c x) by (intros i x; by apply Forall_lookup).
  destruct Hs as [c v|c v b t|c v b t|c v b|c v b|c|c b|c b|c b|c b|c b v|c b v|c b|c i|c i t Hi|c i t Hi|c i t Hi|c i t a Hi|c i t v|c i t v];
    eauto using push_read_inv, grow_inv, room_inv, put_inv, publish_inv, pop_inv, empty_inv, take_inv, last_inv, taken_inv, last_cas_inv,
      last_lost_inv, restore_inv, steal_inv; apply thief_quiet; try done; try apply Hat in Hi; simpl in *.
  - lia.
  - split; [done|]. intros ->. lia.
  - destruct Hi as [Ht Hl]. split; [done|]. split; [apply (ci_array c I)|]. intros E. by split; [apply Hl|].
  - destruct Hi as (Ht & _ & Hl). by split.
Qed.

Lemma c_initial_inv k n : 0 <= k -> cinv (c_initial (2 ^ k) n).
Proof.
  intros Hk. split; try done; [constructor|simpl; lia|by apply array_new_good| |].
  - unfold steal_limit. simpl. unfold current_array, array_at. simpl. pose proof (Z.pow_pos_nonneg 2 k). lia.
  - by apply Forall_replicate.
Qed.

Lemma deque_reachable_inv k n c : 0 <= k -> steps cstep (c_initial (2 ^ k) n) c -> cinv c.
Proof. intros Hk Hs. eapply steps_inv; [exact cstep_inv|exact Hs|by apply c_initial_inv]. Qed.

(** C8. In every interleaving of the owner with any number of thieves, what the
    operations returned is what one sequential deque returns when they run one
    after the other: pushes and pops at its back, thefts at its front, and a pop
    that finds nothing finds it empty.  So every pushed item is taken at most once
    and none is lost, and between two operations of the owner the indices delimit
    exactly the items that have been pushed and not taken. *)
Theorem deque_linearizes (k : Z) (n : nat) (c : CState) :
  0 <= k -> steps cstep (c_initial (2 ^ k) n) c ->
  exists D, deque_run (history c) D /\ pushes (history c) ≡ₚ takes (history c) ++ D /\
    (c_owner c = OIdle -> deque_items (deque c) = D).
Proof.
  intros Hk Hr. pose proof (deque_reachable_inv k n c Hk Hr) as I. exists (content c). pose proof (ci_run c I) as Hrun.
  split; [done|]. split; [by apply run_conserves|]. intros Eo. unfold content, steal_limit, secured, deque_items. by rewrite Eo, app_nil_r.
Qed.

(** ** The methods without interference *)

Record deque_ok (q : ChaselevDeque) : Prop := mkOk {
  ok_array : (array_ q < length (arrays q))%nat;
  ok_good : good_array (current_array q);
  ok_order : top_ q <= bottom_ q;
  ok_fit : bottom_ q - top_ q <= mask (current_array q) + 1
}.

Lemma deque_init_ok k : 0 <= k -> deque_ok (deque_init (2 ^ k)) /\ deque_items (deque_init (2 ^ k)) = [].
Proof. intros Hk. destruct (c_initial_inv k 0 Hk) as [_ Ha Hg Ht Hf _ _]. by split; [split|]. Qed.

(** The methods are undisturbed runs of the steps. *)
Ltac owner_step C := eapply steps_step; [eapply C; simpl; (done || lia)|]; unfold set_owner; simpl; rewrite ?app_nil_r.

Lemma push_bottom_steps q ts h v : steps cstep (mkC q OIdle ts h) (mkC (push_bottom v q) OIdle ts (h ++ [Pushed v])).
Proof.
  unfold push_bottom. owner_step (c_push (mkC q OIdle ts h) v).
  destruct (needs_growth q (bottom_ q) (top_ q)) eqn:E; [owner_step c_grow|owner_step c_room]; owner_step c_put; owner_step c_publish; constructor.
Qed.

Lemma pop_bottom_steps q ts h :
  steps cstep (mkC q OIdle ts h)
    (mkC (pop_bottom q).2 OIdle ts (h ++ [match (pop_bottom q).1 with Some v => Popped v | None => PoppedNone end])).
Proof.
  unfold pop_bottom. owner_step (c_pop (mkC q OIdle ts h)). bcase; bool_to_prop; simpl in *.
  - owner_step c_empty. owner_step c_restore. constructor.
  - destruct (decide (bottom_ q - 1 = top_ q)) as [E|E]; [rewrite E, Z.eqb_refl|rewrite (proj2 (Z.eqb_neq _ _) E)]; simpl.
    { owner_step c_last. owner_step c_last_cas. owner_step c_restore. constructor. }
    owner_step c_take. owner_step c_taken. constructor.
Qed.

Lemma steal_top_steps q o ts h i :
  ts !! i = Some TOut ->
  steps cstep (mkC q o ts h)
    (mkC (steal_top q).2 o ts (h ++ match (steal_top q).1 with Some v => [Stolen v] | None => [] end)).
Proof.
  intros Hi. assert (Hlen := lookup_lt_Some _ _ _ Hi). assert (Hid : <[i := TOut]> ts = ts) by by apply list_insert_id.
  unfold steal_top. eapply steps_step; [by apply (c_steal _ i)|]. unfold set_thief. simpl. rewrite app_nil_r.
  bcase; bool_to_prop; simpl in *.
  - eapply steps_step; [apply (c_steal_empty _ i (top_ q)); simpl; [by rewrite list_lookup_insert_eq|lia]|].
    unfold set_thief. simpl. rewrite list_insert_insert_eq, Hid, !app_nil_r. constructor.
  - eapply steps_step; [apply (c_steal_check _ i (top_ q)); simpl; [by rewrite list_lookup_insert_eq|lia]|]. unfold set_thief. simpl.
    eapply steps_step; [apply (c_steal_array _ i (top_ q)); simpl; by rewrite list_lookup_insert_eq by by rewrite length_insert|]. unfold set_thief. simpl.
    eapply steps_step; [eapply (c_steal_read _ i (top_ q)); simpl; by rewrite list_lookup_insert_eq by by rewrite !length_insert|]. unfold set_thief. simpl.
    eapply steps_step; [eapply (c_steal_cas _ i (top_ q)); simpl; [by rewrite list_lookup_insert_eq by by rewrite !length_insert|done]|].
    unfold set_thief. simpl. rewrite !list_insert_insert_eq, Hid, !app_nil_r. constructor.
Qed.

(** Run one at a time, the methods are those of a list: a push appends, a pop takes
    the last item, a theft the first, and the size is the length. *)
Lemma push_bottom_items q v :
  deque_ok q -> deque_ok (push_bottom v q) /\ deque_items (push_bottom v q) = deque_items q ++ [v].
Proof.
  intros [Ha Hg Ho Hf]. unfold push_bottom, needs_growth. set (b := bottom_ q).
  set (q1 := if mask (current_array q) <? b - top_ q then grow_array q b (top_ q) else q).
  assert (H1 : (array_ q1 < length (arrays q1))%nat /\ good_array (current_array q1) /\ top_ q1 = top_ q /\ bottom_ q1 = b /\
    b - top_ q <= mask (current_array q1) /\ forall i, top_ q <= i < b -> array_get (current_array q1) i = array_get (current_array q) i).
  { unfold q1. bcase; bool_to_prop; [|done]. rewrite current_grow. simpl. rewrite length_app. simpl.
    destruct (array_grow_spec (current_array q) b (top_ q)) as (? & Hm & ?); [done|lia|].
    assert (0 <= mask (current_array q)) by (destruct Hg as (k & Hk & -> & _); pose proof (Z.pow_pos_nonneg 2 k); lia).
    split; [lia|]. repeat split; try done. lia. }
  destruct H1 as (Ha1 & Hg1 & Et & Eb & Hm1 & Hget). clearbody q1. unfold deque_items.
  assert (Hcur : current_array (set_bottom (put_current q1 b v) (b + 1)) = array_put (current_array q1) b v) by by apply (current_put q1).
  split; [split; rewrite ?Hcur; simpl; rewrite ?length_insert, ?Et; try done; [by apply array_put_good|lia|lia]|].
  rewrite Hcur. simpl. rewrite Et, range_snoc, get_put_eq by (done || lia). f_equal. apply range_ext. intros i Hi.
  rewrite get_put_ne by (done || lia). by apply Hget.
Qed.

Lemma pop_bottom_items q :
  deque_ok q ->
  deque_ok (pop_bottom q).2 /\ (pop_bottom q).1 = last (deque_items q) /\ deque_items (pop_bottom q).2 = removelast (deque_items q).
Proof.
  intros [Ha Hg Ho Hf]. unfold pop_bottom, deque_items. simpl. bcase; bool_to_prop; simpl in *.
  - rewrite Z.sub_add. rewrite !range_empty by lia. by split; [split|].
  - assert (E : range (current_array q) (top_ q) (bottom_ q) = range (current_array q) (top_ q) (bottom_ q - 1) ++ [array_get (current_array q) (bottom_ q - 1)])
      by (rewrite <- range_snoc by lia; by rewrite Z.sub_add).
    rewrite E, last_snoc, removelast_last.
    bcase; bool_to_prop; simpl in *; (split; [split; simpl; try done; change (current_array _) with (current_array q) in *; lia|]); (split; [done|]).
    + rewrite !range_empty by lia. done.
    + done.
Qed.

Lemma steal_top_items q :
  deque_ok q ->
  deque_ok (steal_top q).2 /\ (steal_top q).1 = head (deque_items q) /\ deque_items (steal_top q).2 = tail (deque_items q).
Proof.
  intros [Ha Hg Ho Hf]. unfold steal_top, deque_items. bcase; bool_to_prop; simpl in *; [rewrite range_empty by lia; by split; [split|]|].
  rewrite (range_cons _ (top_ q)) by lia. split; [|done]. split; simpl; try done; [lia|]. change (current_array _) with (current_array q). lia.
Qed.

Lemma size_approx_items q : deque_ok q -> size_approx q = zlen (deque_items q).
Proof.
  intros [_ _ Ho _]. unfold size_approx, deque_items, range, zlen. rewrite length_fmap, length_seq. bcase; bool_to_prop; lia.
Qed.

End Deque.

(** ** The queue of several priorities

    [adt/multi_priority_work_queue.hpp]: one deque per level, level 0 first. *)

Section Priorities.
Context {V : Type} (dflt : V).
Notation Level := (ChaselevDeque (V := V)).

(** [push] indexes the vector of levels without a check: [None] is the access out
    of range. *)
Definition mp_push (priority : nat) (v : V) (levels : list Level) : option (list Level) :=
  q ← levels !! priority; Some (<[priority := push_bottom dflt v q]> levels).

(** The loops of [pop] and [steal] over the levels. *)
Fixpoint mp_first (take : Level -> option V * Level) (levels : list Level) : option V * list Level :=
  match levels with
  | [] => (None, [])
  | q :: levels =>
      let '(out, q) := take q in
      match out with
      | Some v => (Some v, q :: levels)
      | None => let '(out, levels) := mp_first take levels in (out, q :: levels)
      end
  end.
Definition mp_pop : list Level -> option V * list Level := mp_first (pop_bottom dflt).
Definition mp_steal : list Level -> option V * list Level := mp_first (steal_top dflt).
Definition depth_approx (levels : list Level) : Z := sum_by size_approx levels.

(** What taking one item does to a level. *)
Definition takes_one (take : Level -> option V * Level) (R : V -> list V -> list V -> Prop) : Prop :=
  forall q, deque_ok dflt q -> deque_ok dflt (take q).2 /\
    match (take q).1 with
    | Some v => R v (deque_items dflt q) (deque_items dflt (take q).2)
    | None => deque_items dflt q = [] /\ deque_items dflt (take q).2 = []
    end.

Lemma pop_takes_last : takes_one (pop_bottom dflt) (fun v l l' => l = l' ++ [v]).
Proof.
  intros q Hq. destruct (pop_bottom_items dflt q Hq) as (Hok & -> & ->). split; [done|].
  destruct (deque_items dflt q) as [|v l _] using rev_ind; [done|]. by rewrite last_snoc, removelast_last.
Qed.
Lemma steal_takes_first : takes_one (steal_top dflt) (fun v l l' => l = v :: l').
Proof. intros q Hq. destruct (steal_top_items dflt q Hq) as (Hok & -> & ->). split; [done|]. by destruct (deque_items dflt q). Qed.

(** The first level that is not empty is served, and no other is changed. *)
Lemma mp_first_highest take R levels :
  takes_one take R -> Forall (deque_ok dflt) levels ->
  let '(out, levels') := mp_first take levels in
  Forall (deque_ok dflt) levels' /\
  match out with
  | None => Forall (fun q => deque_items dflt q = []) levels
  | Some v => exists pre q post l, levels = pre ++ q :: post /\ Forall (fun q => deque_items dflt q = []) pre /\
      R v (deque_items dflt q) l /\ deque_items dflt <$> levels' = (deque_items dflt <$> pre) ++ l :: (deque_items dflt <$> post)
  end.
Proof.
  intros Ht. induction levels as [|q levels IH]; intros Hok; [done|]. apply Forall_cons_1 in Hok as [Hq Hok]. specialize (IH Hok).
  simpl. destruct (take q) as [out q'] eqn:E. specialize (Ht q Hq). rewrite E in Ht. simpl in Ht. destruct Ht as [Hq' Ht].
  destruct out as [v|].
  - split; [by constructor|]. by exists [], q, levels, (deque_items dflt q').
  - destruct (mp_first take levels) as [out levels']. destruct IH as [Hok' IH]. split; [by constructor|]. destruct Ht as [E1 E2].
    destruct out as [v|]; [|by constructor]. destruct IH as (pre & q0 & post & l & -> & Hpre & HR & El).
    exists (q :: pre), q0, post, l. split; [done|]. split; [by constructor|]. split; [done|]. rewrite !fmap_cons. by rewrite El, E1, E2.
Qed.

End Priorities.

(** ** Witnesses *)

Definition deque_demo_path : CState (V := Z) :=
  let q := push_bottom 0 2 (push_bottom 0 1 (deque_init 0 (2 ^ 1))) in
  mkC (steal_top 0 q).2 OIdle [TOut] [Pushed 1; Pushed 2; Stolen 1].

(** One item of two is stolen. *)
Lemma deque_linearizes_witness : exists D, deque_run (history deque_demo_path) D /\ deque_items 0 (deque deque_demo_path) = D /\ D = [2].
Proof.
  destruct (deque_linearizes 0 1 1 deque_demo_path) as (D & Hrun & _ & Helem); [lia| |].
  - change (c_initial 0 (2 ^ 1) 1) with (mkC (deque_init 0 (2 ^ 1)) OIdle [TOut] []).
    eapply steps_trans; [apply (push_bottom_steps 0 _ _ _ 1)|]. eapply steps_trans; [apply (push_bottom_steps 0 _ _ _ 2)|].
    eapply steps_trans; [by apply (steal_top_steps 0 _ _ _ _ 0)|]. constructor.
  - exists D. split; [done|]. rewrite <- Helem by done. by split.
Defined.

(** The constructor takes the capacity as it is given: with one that is not a
    power of two the mask confuses slots, and here the first of two items is lost
    and the second taken twice. *)
Lemma odd_capacity_confuses :
  let q := push_bottom 0 2 (push_bottom 0 1 (deque_init 0 3)) in
  (pop_bottom 0 q).1 = Some 2 /\ (pop_bottom 0 (pop_bottom 0 q).2).1 = Some 2.
Proof. by vm_compute. Qed.
