(* ===== verification/InjectRing.v ===== *)
(** * The ring through which other threads hand work to a worker

    [WorkPlacementScheduler::InjectRing] of [sched/work_placement_scheduler.hpp]:
    256 slots with sequence numbers, claimed by producers with a
    compare-and-swap on the tail and drained by the worker.  Its protocol is that
    of the ring of [Disruptor]: [inject_simulates] maps every step of one to steps
    of the other, and its properties follow. *)

From S2P Require Import Prelude Disruptor.
From stdpp Require Import base numbers list sets.

#[local] Open Scope Z_scope.

Definition kInjectCapacity : Z := 256.
Notation inject_at := (slot_at kInjectCapacity).
Notation inject_set := (set_slot kInjectCapacity).

Section Inject.
Context {V : Type}.   (* a work item with its priority *)

(** A slot holds no value until the first is written. *)
Record InjectRing := mkInject { ir_slots : list (Slot (V := V)); ir_tail : Z; ir_head : Z }.

Definition inject_init : InjectRing :=
  mkInject ((fun i => mkSlot (Z.of_nat i) None) <$> seq 0 (Z.to_nat kInjectCapacity)) 0 0.

(** [try_push], undisturbed: the loop ends in its first turn, since between calls no
    slot is ahead of the tail. *)
Definition inject_try_push (v : V) (r : InjectRing) : bool * InjectRing :=
  let pos := ir_tail r in
  if sequence (inject_at (ir_slots r) pos) - pos =? 0
  then (true, mkInject (inject_set (ir_slots r) pos (mkSlot (pos + 1) (Some v))) (pos + 1) (ir_head r))
  else (false, r).

Definition inject_try_pop (r : InjectRing) : option (option V) * InjectRing :=
  let slot := inject_at (ir_slots r) (ir_head r) in
  if negb (sequence slot =? ir_head r + 1) then (None, r)
  else (Some (value slot),
        mkInject (inject_set (ir_slots r) (ir_head r) (mkSlot (ir_head r + kInjectCapacity) (value slot))) (ir_tail r) (ir_head r + 1)).

(** ** Interleaving *)

Inductive InjectProducer :=
| IPOut
| IPLoaded (v : V) (pos : Z)     (* [tail] read *)
| IPChecked (v : V) (pos : Z)    (* the sequence of the slot matched *)
| IPClaimed (v : V) (pos : Z)    (* the exchange succeeded *)
| IPWritten (pos : Z).           (* item and priority written *)

(** The worker, between reading a slot and giving it back. *)
Inductive InjectConsumer := ICOut | ICRead (v : option V).

Record IState := mkI {
  i_ring : InjectRing;
  i_producers : list InjectProducer;
  i_consumer : InjectConsumer;
  i_claimed : list V;              (* in the order of the claims *)
  i_drained : list (option V)      (* what the worker has read *)
}.

Definition set_ip (s : IState) (r : InjectRing) (i : nat) (p : InjectProducer) : IState :=
  mkI r (<[i := p]> (i_producers s)) (i_consumer s) (i_claimed s) (i_drained s).
Definition set_islot (r : InjectRing) (pos : Z) (x : Slot) : InjectRing :=
  mkInject (inject_set (ir_slots r) pos x) (ir_tail r) (ir_head r).
Definition islot (s : IState) (pos : Z) : Slot := inject_at (ir_slots (i_ring s)) pos.

Inductive istep : IState -> IState -> Prop :=
| i_load s i v :
    i_producers s !! i = Some IPOut -> istep s (set_ip s (i_ring s) i (IPLoaded v (ir_tail (i_ring s))))
| i_check s i v pos :
    i_producers s !! i = Some (IPLoaded v pos) -> sequence (islot s pos) - pos = 0 ->
    istep s (set_ip s (i_ring s) i (IPChecked v pos))
| i_full s i v pos :
    i_producers s !! i = Some (IPLoaded v pos) -> sequence (islot s pos) - pos < 0 ->
    istep s (set_ip s (i_ring s) i IPOut)
| i_reload s i v pos :
    i_producers s !! i = Some (IPLoaded v pos) -> 0 < sequence (islot s pos) - pos ->
    istep s (set_ip s (i_ring s) i (IPLoaded v (ir_tail (i_ring s))))
| i_cas s i v pos :
    i_producers s !! i = Some (IPChecked v pos) -> ir_tail (i_ring s) = pos ->
    istep s (mkI (mkInject (ir_slots (i_ring s)) (pos + 1) (ir_head (i_ring s))) (<[i := IPClaimed v pos]> (i_producers s))
               (i_consumer s) (i_claimed s ++ [v]) (i_drained s))
| i_cas_fail s i v pos :                     (* also spuriously: the exchange is the weak one *)
    i_producers s !! i = Some (IPChecked v pos) ->
    istep s (set_ip s (i_ring s) i (IPLoaded v (ir_tail (i_ring s))))
| i_write s i v pos :
    i_producers s !! i = Some (IPClaimed v pos) ->
    istep s (set_ip s (set_islot (i_ring s) pos (mkSlot (sequence (islot s pos)) (Some v))) i (IPWritten pos))
| i_store s i pos :
    i_producers s !! i = Some (IPWritten pos) ->
    istep s (set_ip s (set_islot (i_ring s) pos (mkSlot (pos + 1) (value (islot s pos)))) i IPOut)
| i_pop s :
    i_consumer s = ICOut -> sequence (islot s (ir_head (i_ring s))) = ir_head (i_ring s) + 1 ->
    istep s (mkI (i_ring s) (i_producers s) (ICRead (value (islot s (ir_head (i_ring s))))) (i_claimed s)
               (i_drained s ++ [value (islot s (ir_head (i_ring s)))]))
| i_release s v :
    i_consumer s = ICRead v ->
    istep s (mkI (mkInject (inject_set (ir_slots (i_ring s)) (ir_head (i_ring s))
                              (mkSlot (ir_head (i_ring s) + kInjectCapacity) (value (islot s (ir_head (i_ring s))))))
                    (ir_tail (i_ring s)) (ir_head (i_ring s) + 1))
               (i_producers s) ICOut (i_claimed s) (i_drained s)).

Definition i_initial (n : nat) : IState := mkI inject_init (replicate n IPOut) ICOut [] [].

(** ** The ring of [Disruptor] at the same point *)

Definition as_producer (p : InjectProducer) : RingProducer (V := V) :=
  match p with
  | IPOut => RPOut | IPLoaded v pos => RPLoaded v pos | IPChecked v pos => RPChecked v pos
  | IPClaimed v pos => RPClaimed v pos | IPWritten pos => RPWritten pos
  end.

(** [claim_retries] and the published cursor, which only the other ring keeps, are free. *)
Definition simulated (s : IState) (d : DState (V := V)) : Prop :=
  slots (ring d) = ir_slots (i_ring s) /\ claim_cursor (ring d) = ir_tail (i_ring s) /\ closed (ring d) = false /\
  d_producers d = as_producer <$> i_producers s /\ claimed_values d = i_claimed s /\ delivered d = i_drained s /\
  match i_consumer s with
  | ICOut => consumer_mirror (ring d) = ir_head (i_ring s) /\ leases d = []
  | ICRead _ => consumer_mirror (ring d) = ir_head (i_ring s) + 1 /\ leases d = [ir_head (i_ring s)]
  end.

Notation dsteps := (steps (dstep kInjectCapacity)).

Lemma simulated_producer s d i p :
  simulated s d -> i_producers s !! i = Some p -> d_producers d !! i = Some (as_producer p).
Proof. intros (_ & _ & _ & -> & _) Hi. by rewrite list_lookup_fmap, Hi. Qed.

(** Every step of the inject ring is one or two steps of the other. *)
Lemma inject_simulates s s' d : simulated s d -> istep s s' -> exists d', dsteps d d' /\ simulated s' d'.
Proof.
  intros Hsim Hs. pose proof (simulated_producer s d) as Hat.
  destruct d as [[cc mir pub md cr gap cl sl] ps ls vs ds]. destruct Hsim as (Esl & Ecc & Ecl & Eps & Evs & Eds & Hc).
  simpl in *. subst sl cc cl ps vs ds.
  assert (Hsim : simulated s (mkD (mkRing (ir_tail (i_ring s)) mir pub md cr gap false (ir_slots (i_ring s))) (as_producer <$> i_producers s) ls
    (i_claimed s) (i_drained s))) by done.
  destruct Hs as [s i v Hi|s i v pos Hi Hq|s i v pos Hi Hq|s i v pos Hi Hq|s i v pos Hi Hq|s i v pos Hi|s i v pos Hi|s i pos Hi|s Ec Hq|s v Ec];
    try (apply (Hat i _ Hsim) in Hi; simpl in Hi).
  - eexists. split; [eapply steps_step; [by eapply (d_load _ _ i v)|apply steps_refl]|].
    split_and!; simpl; rewrite ?list_fmap_insert; done.
  - eexists. split; [eapply steps_step; [eapply (d_check _ _ i v pos); simpl; [done|unfold islot in Hq; lia]|apply steps_refl]|].
    split_and!; simpl; rewrite ?list_fmap_insert; done.
  - eexists. split; [eapply steps_step; [eapply (d_full _ _ i v pos); simpl; [done|unfold islot in Hq; lia]|apply steps_refl]|].
    split_and!; simpl; rewrite ?list_fmap_insert; done.
  - assert (Hlt := lookup_lt_Some _ _ _ Hi).
    eexists. split; [eapply steps_step; [eapply (d_full _ _ i v pos); simpl; [done|unfold islot in Hq; lia]|]|].
    + eapply steps_step; [eapply (d_load _ _ i v); simpl; [by rewrite list_lookup_insert_eq|done]|apply steps_refl].
    + split_and!; simpl; rewrite ?list_fmap_insert, ?list_insert_insert_eq; done.
  - eexists. split; [eapply steps_step; [by eapply (d_cas _ _ i v pos)|apply steps_refl]|].
    split_and!; simpl; rewrite ?list_fmap_insert; done.
  - eexists. split; [eapply steps_step; [by eapply (d_cas_fail _ _ i v pos)|apply steps_refl]|].
    split_and!; simpl; rewrite ?list_fmap_insert; done.
  - eexists. split; [eapply steps_step; [by eapply (d_write _ _ i v pos)|apply steps_refl]|].
    split_and!; simpl; rewrite ?list_fmap_insert; done.
  - assert (Hlt := lookup_lt_Some _ _ _ Hi).
    eexists. split; [eapply steps_step; [by eapply (d_store _ _ i pos)|]|].
    + eapply steps_step; [eapply (d_cursor _ _ i pos); simpl; by rewrite list_lookup_insert_eq|apply steps_refl].
    + split_and!; simpl; rewrite ?list_fmap_insert, ?list_insert_insert_eq; done.
  - rewrite Ec in Hc. destruct Hc as [-> ->].
    eexists. split; [eapply steps_step; [by eapply d_acquire|apply steps_refl]|]. by split_and!.
  - rewrite Ec in Hc. destruct Hc as [-> ->].
    eexists. split; [eapply steps_step; [eapply (d_release _ _ (ir_head (i_ring s))); apply list_elem_of_here|apply steps_refl]|].
    split_and!; simpl; try done. by rewrite Z.eqb_refl.
Qed.

Lemma inject_run_simulates n s : steps istep (i_initial n) s -> exists d, dsteps (d_initial kInjectCapacity n) d /\ simulated s d.
Proof.
  intros Hs. assert (H0 : exists d, dsteps (d_initial kInjectCapacity n) d /\ simulated (i_initial n) d).
  { eexists. split; [apply steps_refl|]. split_and!; simpl; try done. by rewrite fmap_replicate. }
  revert H0. apply (steps_inv istep (fun s => exists d, dsteps (d_initial kInjectCapacity n) d /\ simulated s d)); [|done].
  intros a b (d & Hd & Hsim) Hab. destruct (inject_simulates a b d Hsim Hab) as (d' & Hd' & Hsim'). exists d'. split; [|done].
  by eapply steps_trans.
Qed.

Definition drained_count (s : IState) : Z := ir_head (i_ring s) + match i_consumer s with ICOut => 0 | ICRead _ => 1 end.
(** The slot that a producer is about to write. *)
Definition claims (p : InjectProducer) : option Z := match p with IPClaimed _ pos | IPWritten pos => Some pos | _ => None end.

(** Under any interleaving of producers with the worker, the worker reads the
    claimed items in the order of their claims, none twice and none skipped; no more
    than 256 are claimed and not given back; and no two producers write one slot. *)
Theorem inject_ring_fifo (n : nat) (s : IState) :
  steps istep (i_initial n) s ->
  i_drained s = Some <$> take (Z.to_nat (drained_count s)) (i_claimed s) /\
  ir_tail (i_ring s) = zlen (i_claimed s) /\ ir_tail (i_ring s) <= drained_count s + kInjectCapacity /\
  forall i j p q pos pos', i_producers s !! i = Some p -> i_producers s !! j = Some q ->
    claims p = Some pos -> claims q = Some pos' -> slot_index kInjectCapacity pos = slot_index kInjectCapacity pos' -> i = j.
Proof.
  intros Hs. destruct (inject_run_simulates n s Hs) as (d & Hd & Hsim).
  assert (I : dinv kInjectCapacity d) by (eapply steps_inv; [by apply dstep_inv|exact Hd|by apply d_initial_inv]).
  pose proof Hsim as (Esl & Ecc & _ & Eps & Evs & Eds & Hc).
  assert (Em : consumer_mirror (ring d) = drained_count s).
  { unfold drained_count. destruct (i_consumer s); destruct Hc as [-> _]; lia. }
  split; [rewrite <- Em, <- Evs, <- Eds; apply I|]. split; [rewrite <- Ecc, <- Evs; symmetry; apply I|].
  split; [pose proof (di_window _ d I); lia|].
  intros i j p q pos pos' Hi Hj Hp Hq Hix. apply (simulated_producer s d) in Hi, Hj; [|done..].
  assert (Hpw : writes (as_producer p) = Some pos) by (by destruct p). assert (Hqw : writes (as_producer q) = Some pos') by (by destruct q).
  assert (pos = pos') as <-; [|by eapply (di_exclusive _ d I)].
  eapply (slot_index_inj kInjectCapacity); [done| | |exact Hix]; eapply (live_window kInjectCapacity); try done; eapply (writing_live kInjectCapacity); try done; eexists _, _; eauto.
Qed.

(** ** One caller at a time *)

(** Between calls the ring [r] holds the items [l]. *)
Definition inject_is (r : InjectRing) (l : list V) : Prop :=
  exists d, slots d = ir_slots r /\ claim_cursor d = ir_tail r /\ consumer_mirror d = ir_head r /\ ring_is kInjectCapacity d None l.

Lemma inject_is_init : inject_is inject_init [].
Proof. exists (ring_init kInjectCapacity). do 3 (split; [done|]). by apply ring_is_init. Qed.

(** A push is refused exactly when 256 items are waiting. *)
Lemma inject_push r l v :
  inject_is r l ->
  if zlen l <? kInjectCapacity then (inject_try_push v r).1 = true /\ inject_is (inject_try_push v r).2 (l ++ [v])
  else inject_try_push v r = (false, r).
Proof.
  intros (d & Esl & Ecc & Em & Hr). pose proof Hr as (_ & _ & _ & _ & Hcl & _).
  destruct (ring_is_publish kInjectCapacity eq_refl d l v Hr) as [Hroom Hfull].
  unfold inject_try_push. bcase; bool_to_prop.
  - destruct Hroom as (q & d' & E & Hr'); [lia|]. unfold try_publish in E. rewrite Hcl, Esl, Ecc in E.
    destruct (sequence (inject_at (ir_slots r) (ir_tail r)) =? ir_tail r) eqn:Eq; simpl in E; [|done]. injection E as _ <-.
    bool_to_prop. rewrite (proj2 (Z.eqb_eq (_ - _) 0)) by lia. split; [done|]. eexists. split_and!; [..|exact Hr']; simpl; by rewrite ?Esl.
  - destruct Hfull as (q & E); [lia|]. unfold try_publish in E. rewrite Hcl, Esl, Ecc in E.
    destruct (sequence (inject_at (ir_slots r) (ir_tail r)) =? ir_tail r) eqn:Eq; simpl in E; [done|].
    bool_to_prop. by rewrite (proj2 (Z.eqb_neq (_ - _) 0)) by lia.
Qed.

(** A pop takes the oldest item. *)
Lemma inject_pop r l :
  inject_is r l ->
  match l with
  | [] => inject_try_pop r = (None, r)
  | x :: l => (inject_try_pop r).1 = Some (Some x) /\ inject_is (inject_try_pop r).2 l
  end.
Proof.
  intros (d & Esl & Ecc & Em & Hr). pose proof (ring_is_acquire kInjectCapacity eq_refl d l Hr) as Ha.
  unfold inject_try_pop. destruct l as [|x l].
  - destruct Ha as (d' & E & _). unfold ring_try_acquire in E. rewrite Esl, Em in E.
    destruct (sequence (inject_at (ir_slots r) (ir_head r)) =? ir_head r + 1); [done|]. done.
  - destruct Ha as (q & d' & E & Hr' & Hv). unfold ring_try_acquire in E. rewrite Esl, Em in E.
    destruct (sequence (inject_at (ir_slots r) (ir_head r)) =? ir_head r + 1); [|done]. simpl in E. injection E as <- <-.
    apply (ring_is_release kInjectCapacity eq_refl) in Hr'. unfold lease_value in Hv. simpl in Hv. rewrite Esl in Hv. simpl.
    split; [by rewrite Hv|]. eexists. split_and!; [..|exact Hr']; simpl; unfold lease_value; simpl; rewrite ?Esl; done.
Qed.

End Inject.

(** Take one step, its side conditions by computation. *)
Tactic Notation "igo" uconstr(c) := eapply steps_step; [eapply c; vm_compute; reflexivity|cbv delta [set_ip]; simpl].

Lemma inject_ring_fifo_witness :
  exists s : IState (V := Z), i_claimed s = [7] /\ i_drained s = Some <$> take (Z.to_nat (drained_count s)) (i_claimed s) /\ i_drained s = [Some 7].
Proof.
  eexists (mkI _ [IPOut] _ [7] _). split; [done|].
  split.
  - apply (inject_ring_fifo 1). unfold i_initial. simpl.
    igo (i_load _ 0 7). igo (i_check _ 0 7 0). igo (i_cas _ 0 7 0). igo (i_write _ 0 7 0). igo (i_store _ 0 0).
    igo i_pop. apply steps_refl.
  - by vm_compute.
Defined.
