(* ===== verification/WorkerPark.v ===== *)
(** * Parking a worker without losing a wakeup

    [sched/worker_park.cpp] and the sleeping protocols of
    [WorkerThread::enter_cv_block]: [Futex] is the one used on Linux, [Condvar] the
    one used elsewhere.  Any number of producers hand work to one worker; each
    atomic access is a step.  [work] counts the items that the worker would find.
    The wake counter is not wrapped at 2^32: the worker would have to be delayed
    for that many wakeups between two of its accesses. *)

From S2P Require Import Prelude.
From stdpp Require Import base numbers list sets.

#[local] Open Scope Z_scope.

Module Futex.

(** [enqueue_shared] up to [WorkerPark::wake]. *)
Inductive WakeProducer :=
| POut
| PQueued        (* the item is in the queue *)
| PCounted       (* [seq] incremented *)
| PWaking.       (* [parked] read as true: [futex_wake_one] *)

(** [enter_cv_block]. *)
Inductive ParkWorker :=
| KBusy
| KSnap (snap : Z)       (* [begin_park]: [seq] read *)
| KParked (snap : Z)     (* [begin_park]: [parked] set *)
| KChecked (snap : Z)    (* no work was found *)
| KAsleep (snap : Z)     (* inside the kernel *)
| KAwake.                (* [wait] returned *)

Record ParkState := mkPark { work : Z; wake_seq : Z; parked : bool; worker : ParkWorker; producers : list WakeProducer }.

Definition set_producer (s : ParkState) (i : nat) (p : WakeProducer) : list WakeProducer := <[i := p]> (producers s).

Inductive pstep : ParkState -> ParkState -> Prop :=
| p_enqueue s i :
    producers s !! i = Some POut -> pstep s (mkPark (work s + 1) (wake_seq s) (parked s) (worker s) (set_producer s i PQueued))
| p_count s i :
    producers s !! i = Some PQueued -> pstep s (mkPark (work s) (wake_seq s + 1) (parked s) (worker s) (set_producer s i PCounted))
| p_not_parked s i :
    producers s !! i = Some PCounted -> parked s = false ->
    pstep s (mkPark (work s) (wake_seq s) (parked s) (worker s) (set_producer s i POut))
| p_is_parked s i :
    producers s !! i = Some PCounted -> parked s = true ->
    pstep s (mkPark (work s) (wake_seq s) (parked s) (worker s) (set_producer s i PWaking))
| p_wake s i :
    producers s !! i = Some PWaking ->
    pstep s (mkPark (work s) (wake_seq s) (parked s) (match worker s with KAsleep _ => KAwake | w => w end) (set_producer s i POut))
| p_take s n :                                     (* the worker runs, or another one steals from it *)
    0 < n <= work s -> pstep s (mkPark (work s - n) (wake_seq s) (parked s) (worker s) (producers s))
| p_snap s :
    worker s = KBusy -> pstep s (mkPark (work s) (wake_seq s) (parked s) (KSnap (wake_seq s)) (producers s))
| p_park s snap :
    worker s = KSnap snap -> pstep s (mkPark (work s) (wake_seq s) true (KParked snap) (producers s))
| p_recheck_found s snap :
    worker s = KParked snap -> 0 < work s -> pstep s (mkPark (work s - 1) (wake_seq s) false KBusy (producers s))
| p_recheck_none s snap :
    worker s = KParked snap -> work s = 0 -> pstep s (mkPark (work s) (wake_seq s) (parked s) (KChecked snap) (producers s))
| p_sleep s snap :
    worker s = KChecked snap -> wake_seq s = snap -> pstep s (mkPark (work s) (wake_seq s) (parked s) (KAsleep snap) (producers s))
| p_no_sleep s snap :
    worker s = KChecked snap -> wake_seq s <> snap -> pstep s (mkPark (work s) (wake_seq s) (parked s) KAwake (producers s))
| p_timeout s snap :
    worker s = KAsleep snap -> pstep s (mkPark (work s) (wake_seq s) (parked s) KAwake (producers s))
| p_end_park s :
    worker s = KAwake -> pstep s (mkPark (work s) (wake_seq s) false KBusy (producers s)).

Definition park_initial (n : nat) : ParkState := mkPark 0 0 false KBusy (replicate n POut).

Definition will_wake (p : WakeProducer) : Prop := p <> POut.

Record park_inv (s : ParkState) : Prop := mkParkInv {
  pi_work : 0 <= work s;
  pi_worker :
    match worker s with
    | KBusy | KAwake => True
    | KSnap snap => snap <= wake_seq s
    | KParked snap => snap <= wake_seq s /\ parked s = true
    | KChecked snap => snap <= wake_seq s /\ parked s = true /\ (0 < work s -> wake_seq s = snap -> PQueued ∈ producers s)
    | KAsleep snap => parked s = true /\ (0 < work s -> Exists will_wake (producers s))
    end
}.

Lemma elem_insert_ne {A} (l : list A) i x y z : l !! i = Some y -> z <> y -> z ∈ l -> z ∈ <[i := x]> l.
Proof.
  intros Hi Hne Hz. apply list_elem_of_lookup in Hz as [j Hj]. apply list_elem_of_lookup. exists j.
  rewrite list_lookup_insert_ne; [done|]. intros ->. congruence.
Qed.
Lemma elem_insert_eq {A} (l : list A) i x y : l !! i = Some y -> x ∈ <[i := x]> l.
Proof. intros Hi. apply list_elem_of_lookup. exists i. apply list_lookup_insert_eq. by eapply lookup_lt_Some. Qed.

Lemma exists_insert (l : list WakeProducer) i x : will_wake x -> (i < length l)%nat -> Exists will_wake (<[i := x]> l).
Proof. intros Hx Hi. apply Exists_exists. exists x. split; [|done]. apply list_elem_of_lookup. exists i. by apply list_lookup_insert_eq. Qed.

Lemma pstep_inv s s' : park_inv s -> pstep s s' -> park_inv s'.
Proof.
  intros [Hw Hk] Hs.
  destruct Hs as [s i Hi|s i Hi|s i Hi Hp|s i Hi Hp|s i Hi|s n Hn|s Ek|s snap Ek|s snap Ek Hn|s snap Ek Hn|s snap Ek Hq|s snap Ek Hq|s snap Ek|s Ek];
    try (assert (Hlt := lookup_lt_Some _ _ _ Hi)); split; simpl; try rewrite Ek in *; try done; try lia; unfold set_producer.
  - destruct (worker s) as [|snap|snap|snap|snap|]; try done; destruct_and?; split_and?; try done.
    + intros _ _. by eapply elem_insert_eq.
    + intros _. by apply exists_insert.
  - destruct (worker s) as [|snap|snap|snap|snap|]; try done; destruct_and?; split_and?; try done; try lia.
    intros _. by apply exists_insert.
  - destruct (worker s) as [|snap|snap|snap|snap|]; try done; destruct_and?; split_and?; try done; try congruence.
  - destruct (worker s) as [|snap|snap|snap|snap|]; try done; destruct_and?; split_and?; try done.
    + intros Hpos Hsq. eapply elem_insert_ne; [done|done|auto].
    + intros _. by apply exists_insert.
  - destruct (worker s) as [|snap|snap|snap|snap|]; try done; destruct_and?; split_and?; try done.
    intros Hpos Hsq. eapply elem_insert_ne; [done|done|auto].
  - destruct (worker s) as [|snap|snap|snap|snap|]; try done; destruct_and?; split_and?; try done; intros; auto with lia.
  - destruct_and?. split; [lia|]. split; [done|]. lia.
  - destruct Hk as (Hle & Hp & Hq'). split; [done|]. intros Hpos. apply Exists_exists. exists PQueued. by split; [auto|].
Qed.

Lemma park_reachable_inv n s : steps pstep (park_initial n) s -> park_inv s.
Proof. intros Hs. eapply steps_inv; [exact pstep_inv|exact Hs|]. by split. Qed.

(** The rest of what producer [i] does for the item that it has queued. *)
Definition wake_advance (i : nat) (s : ParkState) : ParkState :=
  match producers s !! i with
  | Some PQueued => mkPark (work s) (wake_seq s + 1) (parked s) (worker s) (set_producer s i PCounted)
  | Some PCounted => mkPark (work s) (wake_seq s) (parked s) (worker s) (set_producer s i (if parked s then PWaking else POut))
  | Some PWaking => mkPark (work s) (wake_seq s) (parked s) (match worker s with KAsleep _ => KAwake | w => w end) (set_producer s i POut)
  | _ => s
  end.

Lemma wake_advance_steps i s : steps pstep s (wake_advance i s).
Proof.
  unfold wake_advance. destruct (producers s !! i) as [[]|] eqn:E; try apply steps_refl; (eapply steps_step; [|apply steps_refl]).
  - by apply p_count.
  - destruct (parked s) eqn:Ep; rewrite <- ?Ep; [rewrite Ep|rewrite Ep]; rewrite <- Ep at 1; [by apply p_is_parked|by apply p_not_parked].
  - by apply p_wake.
Qed.

(** C11. A worker never sleeps on work: if it sleeps while there is work for it, then a
    producer is still inside its call, and the rest of that call, alone, wakes the
    worker. *)
Theorem no_lost_wakeup (n : nat) (s : ParkState) (snap : Z) :
  steps pstep (park_initial n) s -> worker s = KAsleep snap -> 0 < work s ->
  exists i p, producers s !! i = Some p /\ p <> POut /\
    steps pstep s (Nat.iter 3 (wake_advance i) s) /\ worker (Nat.iter 3 (wake_advance i) s) = KAwake.
Proof.
  intros Hs Ek Hpos. destruct (park_reachable_inv n s Hs) as [_ Hk]. rewrite Ek in Hk. destruct Hk as [Hp Hex].
  apply Exists_exists in Hex as (p & Hin & Hne); [|done]. apply list_elem_of_lookup in Hin as [i Hi]. exists i, p. split; [done|]. split; [done|].
  split; [repeat (eapply steps_trans; [|apply wake_advance_steps]); apply steps_refl|].
  assert (Hlt := lookup_lt_Some _ _ _ Hi). simpl. unfold wake_advance, set_producer.
  destruct p; [done|..]; rewrite Hi; simpl; repeat (rewrite ?list_lookup_insert_eq, ?Hp, ?Ek by (rewrite ?length_insert; done); simpl); done.
Qed.

End Futex.

Module Condvar.

(** [enqueue_shared] up to [WorkerState::wake_if_blocking]. *)
Inductive CvProducer :=
| POut
| PQueued        (* the item is in the queue *)
| PLocking       (* [is_blocking_] read as true *)
| PHolding       (* [sleep_mutex_] taken *)
| PStored.       (* [is_blocking_] cleared; [notify_one] follows, then the unlock *)

Inductive CvWorker :=
| KBusy
| KBlocking      (* [is_blocking_] set *)
| KChecked       (* no work was found *)
| KAsleep        (* in the wait, the mutex released *)
| KWoken         (* notified, not yet back in possession of the mutex *)
| KAwake.

(** [held]: some producer holds the mutex. *)
Record CvState := mkCv { work : Z; is_blocking : bool; held : bool; worker : CvWorker; producers : list CvProducer }.

Definition set_cv_producer (s : CvState) (i : nat) (p : CvProducer) : list CvProducer := <[i := p]> (producers s).
Definition set_worker (s : CvState) (blocking : bool) (k : CvWorker) : CvState := mkCv (work s) blocking (held s) k (producers s).

(** The predicate of the wait, evaluated with the mutex. *)
Definition wait_decides (s : CvState) : CvWorker := if is_blocking s then KAsleep else KAwake.

Inductive vstep : CvState -> CvState -> Prop :=
| v_enqueue s i :
    producers s !! i = Some POut -> vstep s (mkCv (work s + 1) (is_blocking s) (held s) (worker s) (set_cv_producer s i PQueued))
| v_look s i :
    producers s !! i = Some PQueued ->
    vstep s (mkCv (work s) (is_blocking s) (held s) (worker s) (set_cv_producer s i (if is_blocking s then PLocking else POut)))
| v_lock s i :
    producers s !! i = Some PLocking -> held s = false ->
    vstep s (mkCv (work s) (is_blocking s) true (worker s) (set_cv_producer s i PHolding))
| v_clear s i :
    producers s !! i = Some PHolding -> vstep s (mkCv (work s) false (held s) (worker s) (set_cv_producer s i PStored))
| v_notify s i :
    producers s !! i = Some PStored ->
    vstep s (mkCv (work s) (is_blocking s) false (match worker s with KAsleep => KWoken | k => k end) (set_cv_producer s i POut))
| v_take s n :
    0 < n <= work s -> vstep s (mkCv (work s - n) (is_blocking s) (held s) (worker s) (producers s))
| v_block s : worker s = KBusy -> vstep s (set_worker s true KBlocking)
| v_recheck_found s :
    worker s = KBlocking -> 0 < work s -> vstep s (mkCv (work s - 1) false (held s) KBusy (producers s))
| v_recheck_none s : worker s = KBlocking -> work s = 0 -> vstep s (set_worker s (is_blocking s) KChecked)
| v_wait s : worker s = KChecked \/ worker s = KWoken -> held s = false -> vstep s (set_worker s (is_blocking s) (wait_decides s))
| v_timeout s : worker s = KAsleep \/ worker s = KWoken -> held s = false -> vstep s (set_worker s (is_blocking s) KAwake)
| v_resume s : worker s = KAwake -> vstep s (set_worker s (is_blocking s) KBusy).

Definition cv_initial (n : nat) : CvState := mkCv 0 false false KBusy (replicate n POut).

(** A producer that has yet to clear the flag. *)
Definition will_clear (p : CvProducer) : Prop := p = PQueued \/ p = PLocking \/ p = PHolding.

Record cv_inv (s : CvState) : Prop := mkCvInv {
  vi_work : 0 <= work s;
  vi_worker :
    match worker s with
    | KChecked | KWoken => is_blocking s = true -> 0 < work s -> Exists will_clear (producers s)
    | KAsleep => (is_blocking s = true -> 0 < work s -> Exists will_clear (producers s)) /\ (is_blocking s = false -> PStored ∈ producers s)
    | _ => True
    end
}.

Lemma clear_insert (l : list CvProducer) i x y :
  l !! i = Some y -> (will_clear y -> will_clear x) -> Exists will_clear l -> Exists will_clear (<[i := x]> l).
Proof.
  intros Hi Hxy Hex. assert (Hlt := lookup_lt_Some _ _ _ Hi). apply Exists_exists in Hex as (z & Hz & Hc).
  apply list_elem_of_lookup in Hz as [j Hj]. apply Exists_exists. destruct (decide (i = j)) as [<-|Hne].
  - exists x. split; [by eapply Futex.elem_insert_eq|]. apply Hxy. by simplify_eq.
  - exists z. split; [|done]. apply list_elem_of_lookup. exists j. by rewrite list_lookup_insert_ne.
Qed.
Lemma clear_here (l : list CvProducer) i x y : l !! i = Some y -> will_clear x -> Exists will_clear (<[i := x]> l).
Proof. intros Hi Hx. apply Exists_exists. exists x. split; [by eapply Futex.elem_insert_eq|done]. Qed.

Lemma vstep_inv s s' : cv_inv s -> vstep s s' -> cv_inv s'.
Proof.
  intros [Hw Hk] Hs.
  destruct Hs as [s i Hi|s i Hi|s i Hi Hh|s i Hi|s i Hi|s n Hn|s Ek|s Ek Hn|s Ek Hn|s Ek Hh|s Ek Hh|s Ek];
    split; simpl; try done; try lia; unfold set_cv_producer.
  - destruct (worker s); try done.
    + intros _ _. eapply clear_here; [done|by left].
    + destruct Hk as [_ Hst]. split; [intros _ _; eapply clear_here; [done|by left]|]. intros E. eapply Futex.elem_insert_ne; [done|done|auto].
    + intros _ _. eapply clear_here; [done|by left].
  - destruct (worker s); try done.
    + intros E Hp. rewrite E. eapply clear_here; [done|by right; left].
    + destruct Hk as [_ Hst]. split; [intros E Hp; rewrite E; eapply clear_here; [done|by right; left]|].
      intros E. eapply Futex.elem_insert_ne; [done|done|auto].
    + intros E Hp. rewrite E. eapply clear_here; [done|by right; left].
  - destruct (worker s); try done.
    + intros E Hp. eapply clear_here; [done|by right; right].
    + destruct Hk as [_ Hst]. split; [intros E Hp; eapply clear_here; [done|by right; right]|].
      intros E. eapply Futex.elem_insert_ne; [done|done|auto].
    + intros E Hp. eapply clear_here; [done|by right; right].
  - destruct (worker s); try done. split; [done|]. intros _. by eapply Futex.elem_insert_eq.
  - destruct (worker s); try done.
    + intros E Hp. eapply clear_insert; [done| |auto]. by intros [?|[?|?]].
    + intros E Hp. eapply clear_insert; [done| |by apply Hk]. by intros [?|[?|?]].
    + intros E Hp. eapply clear_insert; [done| |auto]. by intros [?|[?|?]].
  - destruct (worker s); try done.
    + intros E Hp. apply Hk; [done|lia].
    + destruct Hk as [Hc Hst]. split; [|done]. intros E Hp. apply Hc; [done|lia].
    + intros E Hp. apply Hk; [done|lia].
  - unfold wait_decides. destruct (is_blocking s) eqn:E; [|done]. split; [|done]. intros _ Hp. destruct Ek as [Ek|Ek]; rewrite Ek in Hk; auto.
Qed.

(** The same guarantee for the condition variable: a worker that sleeps while there
    is work for it has a producer inside its call that has yet to clear the flag
    and notify, or one that has cleared it and is about to notify. *)
Theorem no_lost_notification (n : nat) (s : CvState) :
  steps vstep (cv_initial n) s -> worker s = KAsleep -> 0 < work s -> Exists will_clear (producers s) \/ PStored ∈ producers s.
Proof.
  intros Hs Ek Hp. assert (I : cv_inv s) by (eapply steps_inv; [exact vstep_inv|exact Hs|by split]).
  pose proof (vi_worker s I) as Hk. rewrite Ek in Hk. destruct Hk as [Hc Hst]. destruct (is_blocking s); [left; auto|right; auto].
Qed.

End Condvar.

(** ** How long a worker sleeps

    [deadline] is the earliest one of all workers, [INT64_MAX] for none, and
    [empty_wakes] the number of sleeps in a row that ended without a notification. *)

Definition until_deadline (deadline now : Z) : Z := if deadline - now <=? 0 then 1000000 else deadline - now.
Definition futex_timeout_ns (deadline now empty_wakes : Z) : Z :=
  if negb (deadline =? INT64_MAX) then Z.min (Z.max (until_deadline deadline now - 1000000) 1000000) 100000000
  else Z.min (Z.shiftl 500000000 (Z.min empty_wakes 9)) 30000000000.
Definition cv_timeout_ms (deadline now empty_wakes : Z) : Z :=
  if negb (deadline =? INT64_MAX) then
    let delta_ms := until_deadline deadline now / 1000000 in Z.min (if 1 <? delta_ms then delta_ms - 1 else 1) 100
  else Z.min (u32 (Z.shiftl 500 (Z.min empty_wakes 9))) 30000.

(** Between a millisecond and half a minute, and a deadline that is at least two
    milliseconds away finds the worker awake one millisecond before it. *)
Lemma sleep_bounds deadline now empty_wakes :
  0 <= empty_wakes ->
  1000000 <= futex_timeout_ns deadline now empty_wakes <= 30000000000 /\ 1 <= cv_timeout_ms deadline now empty_wakes <= 30000 /\
  (deadline <> INT64_MAX -> 2000000 <= deadline - now ->
   futex_timeout_ns deadline now empty_wakes <= deadline - now - 1000000 /\ 1000000 * cv_timeout_ms deadline now empty_wakes <= deadline - now - 1000000).
Proof.
  intros Hc. unfold futex_timeout_ns, cv_timeout_ms, until_deadline. set (k := Z.min empty_wakes 9). assert (Hk : 0 <= k <= 9) by lia.
  assert (Hpow : 1 <= 2 ^ k <= 512) by (pose proof (Z.pow_le_mono_r 2 0 k); pose proof (Z.pow_le_mono_r 2 k 9); lia).
  rewrite !Z.shiftl_mul_pow2 by lia. rewrite (u32_small (500 * 2 ^ k)) by (unfold UINT32_MAX in *; lia).
  set (d := deadline - now). set (r := if d <=? 0 then 1000000 else d). assert (Hr : 0 < r /\ (2000000 <= d -> r = d)) by (unfold r; bcase; bool_to_prop; lia).
  pose proof (Z.div_mod r 1000000 ltac:(lia)). pose proof (Z.mod_pos_bound r 1000000 ltac:(lia)).
  destruct (Z.eqb_spec deadline INT64_MAX) as [->|Hne]; simpl negb; cbv iota; [split; [lia|]; split; [lia|done]|].
  destruct (1 <? r / 1000000) eqn:E; bool_to_prop; lia.
Qed.

(** ** Witnesses *)

Tactic Notation "pgo" uconstr(c) := eapply steps_step; [eapply c; (reflexivity || (simpl; lia))|simpl].

(** An item arrives after the last look for work and before the sleep: the worker
    goes to sleep, and the producer wakes it. *)
Lemma no_lost_wakeup_witness :
  let s := Futex.mkPark 1 0 true (Futex.KAsleep 0) [Futex.PQueued] in
  exists i p, Futex.producers s !! i = Some p /\ p <> Futex.POut /\ Futex.worker (Nat.iter 3 (Futex.wake_advance i) s) = Futex.KAwake.
Proof.
  cbv zeta. set (s := Futex.mkPark 1 0 true (Futex.KAsleep 0) [Futex.PQueued]).
  assert (Hs : steps Futex.pstep (Futex.park_initial 1) s).
  { unfold Futex.park_initial. simpl. pgo Futex.p_snap. pgo Futex.p_park. pgo Futex.p_recheck_none. pgo (Futex.p_enqueue _ 0). pgo Futex.p_sleep.
    apply steps_refl. }
  destruct (Futex.no_lost_wakeup 1 s 0 Hs) as (i & p & Hi & Hne & _ & Hw); [reflexivity|reflexivity|].
  exists i, p. by split.
Defined.

Lemma no_lost_notification_witness :
  let s := Condvar.mkCv 1 true false Condvar.KAsleep [Condvar.PQueued] in
  Exists Condvar.will_clear (Condvar.producers s) \/ Condvar.PStored ∈ Condvar.producers s.
Proof.
  apply (Condvar.no_lost_notification 1); [|reflexivity|reflexivity]. unfold Condvar.cv_initial. simpl.
  pgo Condvar.v_block. pgo Condvar.v_recheck_none. pgo (Condvar.v_enqueue _ 0).
  eapply steps_step; [apply Condvar.v_wait; [by left|reflexivity]|]. apply steps_refl.
Defined.
