(* ===== verification/Placement.v ===== *)
(** * Placing work on workers

    [sched/work_placement_scheduler.cpp], [sched/a2ws.cpp] and
    [sched/dedicated_thread_pool.cpp]: the queues of every worker, the choice of a
    worker, theft, pinned actors and dedicated pools.  A deque is the list that
    [ChaseLev] implements (bottom at the end), the inject ring the bounded list that
    [InjectRing] implements; each method runs undisturbed.  The stack of shared
    input is a list with its head first. *)

From S2P Require Import Prelude EdfQueue EdfSpec InjectRing.
From stdpp Require Import base numbers list gmap sets.

#[local] Open Scope Z_scope.

(** [sched/work_queue.hpp]; [wi_ptr]: the pointer to the actor is present. *)
Record WorkItem := mkWork { wi_actor : Z; wi_deadline : Z; wi_sequence : Z; wi_edf : bool; wi_ptr : bool }.

Inductive PlacementResult := PR_EnqueuedShared | PR_EnqueuedDedicatedPool | PR_SuppressedDedicatedThread | PR_NoWorkers.

(** ** Choice of a victim *)

Record StealStats := mkSteals { steal_attempts : Z; steal_successes : Z; local_steals : Z; remote_steals : Z }.
Record A2WS := mkA2WS { aw_workers : Z; pool_size : Z; steal_stats : list StealStats; victim_hints : list Z }.

Definition a2ws_init (num_workers pool_size : Z) : A2WS :=
  mkA2WS num_workers pool_size (replicate (Z.to_nat num_workers) (mkSteals 0 0 0 0))
    ((fun i => (Z.of_nat i + 1) mod num_workers) <$> seq 0 (Z.to_nat num_workers)).

Definition get_victim (a : A2WS) (thief : nat) : Z := default 0 (victim_hints a !! thief).

Definition record_attempt (a : A2WS) (thief : nat) (victim : Z) (success : bool) : A2WS :=
  mkA2WS (aw_workers a) (pool_size a)
    (alter (fun s => mkSteals (u64 (steal_attempts s + 1)) (if success then u64 (steal_successes s + 1) else steal_successes s)
                       (local_steals s) (remote_steals s)) thief (steal_stats a))
    (if success then victim_hints a else <[thief := (victim + 1) mod aw_workers a]> (victim_hints a)).

Definition same_pool (a : A2WS) (x y : Z) : bool := x / pool_size a =? y / pool_size a.

Definition record_steal (a : A2WS) (thief : nat) (victim : Z) : A2WS :=
  mkA2WS (aw_workers a) (pool_size a)
    (alter (fun s => if same_pool a (Z.of_nat thief) victim
                     then mkSteals (steal_attempts s) (steal_successes s) (u64 (local_steals s + 1)) (remote_steals s)
                     else mkSteals (steal_attempts s) (steal_successes s) (local_steals s) (u64 (remote_steals s + 1)))
       thief (steal_stats a))
    (victim_hints a).

Definition get_victim_pool (a : A2WS) (w : Z) : Z * Z :=
  let start := w / pool_size a * pool_size a in (start, Z.min (start + pool_size a) (aw_workers a)).

(** ** Dedicated pools *)

Record DedicatedThreadPool := mkPool { num_threads : Z; pool_queues : list (list WorkItem); next_worker : Z; pool_running : bool }.

(** The constructor, followed by [start]. *)
Definition pool_started (threads : Z) : DedicatedThreadPool :=
  let n := if threads =? 0 then 1 else threads in mkPool n (replicate (Z.to_nat n) []) 0 true.

Definition pool_enqueue (w : WorkItem) (p : DedicatedThreadPool) : DedicatedThreadPool :=
  let idx := Z.to_nat (next_worker p mod num_threads p) in
  mkPool (num_threads p) (alter (fun q => q ++ [w]) idx (pool_queues p)) (u32 (next_worker p + 1)) (pool_running p).

(** One turn of [worker_loop]: the item that is run, if any. *)
Definition pool_turn (i : nat) (p : DedicatedThreadPool) : option WorkItem * DedicatedThreadPool :=
  if negb (pool_running p) then (None, p)
  else match pool_queues p !! i with
       | Some (w :: q) => (Some w, mkPool (num_threads p) (<[i := q]> (pool_queues p)) (next_worker p) true)
       | _ => (None, p)
       end.

Definition pool_stop (p : DedicatedThreadPool) : DedicatedThreadPool :=
  if negb (pool_running p) then p
  else mkPool (num_threads p) ((fun _ => []) <$> pool_queues p) (next_worker p) false.

Definition pool_pending (p : DedicatedThreadPool) : Z := sum_by zlen (pool_queues p).

(** ** Workers *)

Record WorkerQueues := mkQueues {
  queues : list (list WorkItem);               (* one deque per priority *)
  edf_queue : EDFQueue WorkItem;
  inject_ring : list (WorkItem * Z);           (* oldest first *)
  shared_input : list (WorkItem * Z);          (* newest first *)
  wakes : Z                                    (* calls of [wake_if_blocking] *)
}.

Definition queues_init (num_priorities : Z) : WorkerQueues :=
  mkQueues (replicate (Z.to_nat num_priorities) []) edf_init [] [] 0.

Definition set_levels (w : WorkerQueues) (q : list (list WorkItem)) : WorkerQueues :=
  mkQueues q (edf_queue w) (inject_ring w) (shared_input w) (wakes w).
Definition set_edf (w : WorkerQueues) (e : EDFQueue WorkItem) : WorkerQueues :=
  mkQueues (queues w) e (inject_ring w) (shared_input w) (wakes w).
Definition wake_worker (w : WorkerQueues) : WorkerQueues :=
  mkQueues (queues w) (edf_queue w) (inject_ring w) (shared_input w) (wakes w + 1).

Definition place (it : WorkItem) (priority : Z) (w : WorkerQueues) : WorkerQueues :=
  wake_worker
    (if wi_edf it then set_edf w (edf_push (edf_queue w) (wi_deadline it) it)
     else if zlen (inject_ring w) <? kInjectCapacity
     then mkQueues (queues w) (edf_queue w) (inject_ring w ++ [(it, priority)]) (shared_input w) (wakes w)
     else mkQueues (queues w) (edf_queue w) (inject_ring w) ((it, priority) :: shared_input w) (wakes w)).

Definition push_level (num_priorities : Z) (q : list (list WorkItem)) (x : WorkItem * Z) : list (list WorkItem) :=
  if x.2 <? num_priorities then alter (fun l => l ++ [x.1]) (Z.to_nat x.2) q else q.

(** The two drains at the head of [pop_local]: the ring, then the stack reversed. *)
Definition drain_input (num_priorities : Z) (w : WorkerQueues) : WorkerQueues :=
  mkQueues (foldl (push_level num_priorities) (queues w) (inject_ring w ++ reverse (shared_input w))) (edf_queue w) [] [] (wakes w).

(** The loops over the priorities. *)
Fixpoint first_level (take : list WorkItem -> option (WorkItem * list WorkItem)) (q : list (list WorkItem))
  : option (WorkItem * list (list WorkItem)) :=
  match q with
  | [] => None
  | l :: q => match take l with
              | Some (x, l) => Some (x, l :: q)
              | None => '(x, q) ← first_level take q; Some (x, l :: q)
              end
  end.
Definition take_bottom (l : list WorkItem) : option (WorkItem * list WorkItem) := x ← last l; Some (x, removelast l).
Definition take_top (l : list WorkItem) : option (WorkItem * list WorkItem) := match l with [] => None | x :: l => Some (x, l) end.

Definition pop_deadline (w : WorkerQueues) : option WorkItem * WorkerQueues :=
  let '(x, e) := edf_pop (edf_queue w) in (x, set_edf w e).

(** The deadline queue, then the levels. *)
Definition take_from (take : list WorkItem -> option (WorkItem * list WorkItem)) (w : WorkerQueues) : option WorkItem * WorkerQueues :=
  match pop_deadline w with
  | (Some x, w) => (Some x, w)
  | (None, w) => match first_level take (queues w) with Some (x, q) => (Some x, set_levels w q) | None => (None, w) end
  end.

(** ** The scheduler *)

Record WorkPlacementScheduler := mkPlacement {
  num_workers : Z;
  num_priorities : Z;
  pl_workers : list WorkerQueues;
  a2ws : A2WS;
  pinned_actors : gmap Z Z;
  pinned_ready : list (list WorkItem);
  dedicated_thread_actors : gset Z;
  dedicated_thread_affinity : gmap Z Z;
  dedicated_pools : gmap Z DedicatedThreadPool;
  actor_pool_map : gmap Z Z;
  rr_counter : Z                          (* uint32, one for the process *)
}.

Definition placement_init (workers priorities : Z) : WorkPlacementScheduler :=
  mkPlacement workers priorities (replicate (Z.to_nat workers) (queues_init priorities)) (a2ws_init workers 4)
    ∅ (replicate (Z.to_nat workers) []) ∅ ∅ ∅ ∅ 0.

Definition set_workers (p : WorkPlacementScheduler) (ws : list WorkerQueues) : WorkPlacementScheduler :=
  mkPlacement (num_workers p) (num_priorities p) ws (a2ws p) (pinned_actors p) (pinned_ready p) (dedicated_thread_actors p)
    (dedicated_thread_affinity p) (dedicated_pools p) (actor_pool_map p) (rr_counter p).
Definition set_a2ws (p : WorkPlacementScheduler) (a : A2WS) : WorkPlacementScheduler :=
  mkPlacement (num_workers p) (num_priorities p) (pl_workers p) a (pinned_actors p) (pinned_ready p) (dedicated_thread_actors p)
    (dedicated_thread_affinity p) (dedicated_pools p) (actor_pool_map p) (rr_counter p).
Definition set_pinned (p : WorkPlacementScheduler) (m : gmap Z Z) (r : list (list WorkItem)) : WorkPlacementScheduler :=
  mkPlacement (num_workers p) (num_priorities p) (pl_workers p) (a2ws p) m r (dedicated_thread_actors p)
    (dedicated_thread_affinity p) (dedicated_pools p) (actor_pool_map p) (rr_counter p).
Definition set_dedicated (p : WorkPlacementScheduler) (s : gset Z) (aff : gmap Z Z) (ps : gmap Z DedicatedThreadPool) (m : gmap Z Z)
  : WorkPlacementScheduler :=
  mkPlacement (num_workers p) (num_priorities p) (pl_workers p) (a2ws p) (pinned_actors p) (pinned_ready p) s aff ps m (rr_counter p).
Definition set_rr (p : WorkPlacementScheduler) (c : Z) : WorkPlacementScheduler :=
  mkPlacement (num_workers p) (num_priorities p) (pl_workers p) (a2ws p) (pinned_actors p) (pinned_ready p) (dedicated_thread_actors p)
    (dedicated_thread_affinity p) (dedicated_pools p) (actor_pool_map p) c.

(** The worker and whether the actor is pinned to it. *)
Definition choose_worker (actor : Z) (p : WorkPlacementScheduler) : nat * bool * WorkPlacementScheduler :=
  match pinned_actors p !! actor with
  | Some w => (Z.to_nat (w mod num_workers p), true, p)
  | None => (Z.to_nat (rr_counter p mod num_workers p), false, set_rr p (u32 (rr_counter p + 1)))
  end.

Definition enqueue_shared (it : WorkItem) (priority : Z) (w : nat) (p : WorkPlacementScheduler) : WorkPlacementScheduler :=
  set_workers p (alter (place it priority) w (pl_workers p)).

Definition pool_of (actor : Z) (p : WorkPlacementScheduler) : option (Z * DedicatedThreadPool) :=
  size ← actor_pool_map p !! actor; pool ← dedicated_pools p !! size; Some (size, pool).

Definition enqueue_admitted (it : WorkItem) (priority : Z) (workers_paused : bool) (p : WorkPlacementScheduler)
  : PlacementResult * WorkPlacementScheduler :=
  if bool_decide (wi_actor it ∈ dedicated_thread_actors p) then (PR_SuppressedDedicatedThread, p)
  else match pool_of (wi_actor it) p with
  | Some (size, pool) =>
      (PR_EnqueuedDedicatedPool,
       set_dedicated p (dedicated_thread_actors p) (dedicated_thread_affinity p)
         (<[size := pool_enqueue it pool]> (dedicated_pools p)) (actor_pool_map p))
  | None =>
      if num_workers p =? 0 then (PR_NoWorkers, p)
      else
        let '(w, is_pinned, p) := choose_worker (wi_actor it) p in
        if is_pinned && workers_paused
        then (PR_EnqueuedShared, set_pinned p (pinned_actors p) (alter (fun q => q ++ [it]) w (pinned_ready p)))
        else (PR_EnqueuedShared, enqueue_shared it priority w p)
  end.

(** Runs an operation on one worker; an index out of range is not used. *)
Definition on_worker (w : nat) (f : WorkerQueues -> option WorkItem * WorkerQueues) (p : WorkPlacementScheduler)
  : option WorkItem * WorkPlacementScheduler :=
  match pl_workers p !! w with
  | None => (None, p)
  | Some x => let '(out, x) := f x in (out, set_workers p (<[w := x]> (pl_workers p)))
  end.

Definition pop_edf (w : nat) (p : WorkPlacementScheduler) : option WorkItem * WorkPlacementScheduler := on_worker w pop_deadline p.

Definition pop_local (w : nat) (p : WorkPlacementScheduler) : option WorkItem * WorkPlacementScheduler :=
  on_worker w (fun x => take_from take_bottom (drain_input (num_priorities p) x)) p.

(** The loop of [try_steal] over the attempts; the hints are indexed by the attempt. *)
Fixpoint steal_loop (attempts : list nat) (p : WorkPlacementScheduler) : option WorkItem * WorkPlacementScheduler :=
  match attempts with
  | [] => (None, p)
  | k :: attempts =>
      let victim := get_victim (a2ws p) k in
      match on_worker (Z.to_nat victim) (take_from take_top) p with
      | (Some x, p) => (Some x, set_a2ws p (record_steal (a2ws p) k victim))
      | (None, p) => steal_loop attempts (set_a2ws p (record_attempt (a2ws p) k victim false))
      end
  end.
Definition try_steal (p : WorkPlacementScheduler) : option WorkItem * WorkPlacementScheduler :=
  steal_loop (seq 0 (Z.to_nat (num_workers p))) p.

(** ** Operations of the test harness *)

Definition pop_shared (w : nat) (p : WorkPlacementScheduler) : option WorkItem * WorkPlacementScheduler :=
  on_worker w (fun x => take_from take_top (drain_input (num_priorities p) x)) p.

Fixpoint pop_any_loop (ws : list nat) (p : WorkPlacementScheduler) : option WorkItem * WorkPlacementScheduler :=
  match ws with
  | [] => (None, p)
  | w :: ws => match pop_shared w p with (Some x, p) => (Some x, p) | (None, p) => pop_any_loop ws p end
  end.
Definition pop_any_for_test (p : WorkPlacementScheduler) : option WorkItem * WorkPlacementScheduler :=
  pop_any_loop (seq 0 (Z.to_nat (num_workers p))) p.

Definition pop_one_on_worker_for_test (w : nat) (p : WorkPlacementScheduler) : option WorkItem * WorkPlacementScheduler :=
  if num_workers p <=? Z.of_nat w then (None, p)
  else match pinned_ready p !! w with
       | Some (x :: q) => (Some x, set_pinned p (pinned_actors p) (<[w := q]> (pinned_ready p)))
       | _ => pop_shared w p
       end.

Fixpoint take_actor (actor : Z) (q : list WorkItem) : option (WorkItem * list WorkItem) :=
  match q with
  | [] => None
  | x :: q => if wi_actor x =? actor then Some (x, q) else '(y, q) ← take_actor actor q; Some (y, x :: q)
  end.

Definition take_pinned_for_test (actor : Z) (p : WorkPlacementScheduler) : option (WorkItem * nat) * WorkPlacementScheduler :=
  match pinned_actors p !! actor with
  | None => (None, p)
  | Some pin =>
      if num_workers p =? 0 then (None, p)
      else
        let w := Z.to_nat (pin mod num_workers p) in
        match pinned_ready p !! w ≫= take_actor actor with
        | Some (x, q) => (Some (x, w), set_pinned p (pinned_actors p) (<[w := q]> (pinned_ready p)))
        | None => (None, p)
        end
  end.

Definition pin_actor_to_worker (actor w : Z) (p : WorkPlacementScheduler) : WorkPlacementScheduler :=
  set_pinned p (<[actor := w]> (pinned_actors p)) (pinned_ready p).
Definition unpin_actor (actor : Z) (p : WorkPlacementScheduler) : WorkPlacementScheduler :=
  set_pinned p (delete actor (pinned_actors p)) (pinned_ready p).

Definition flush_one (w : WorkerQueues) (q : list WorkItem) : WorkerQueues :=
  set_levels w (alter (fun l => l ++ q) 0%nat (queues w)).
Definition flush_pinned_to_shared (p : WorkPlacementScheduler) : WorkPlacementScheduler :=
  set_pinned (set_workers p (zip_with flush_one (pl_workers p) (pinned_ready p))) (pinned_actors p) ((fun _ => []) <$> pinned_ready p).

Definition register_dedicated_thread (actor affinity : Z) (p : WorkPlacementScheduler) : WorkPlacementScheduler :=
  set_dedicated p ({[actor]} ∪ dedicated_thread_actors p)
    (if 0 <=? affinity then <[actor := affinity]> (dedicated_thread_affinity p) else dedicated_thread_affinity p)
    (dedicated_pools p) (actor_pool_map p).
Definition register_dedicated_pool (actor size : Z) (p : WorkPlacementScheduler) : WorkPlacementScheduler :=
  set_dedicated p (dedicated_thread_actors p) (dedicated_thread_affinity p)
    (match dedicated_pools p !! size with Some _ => dedicated_pools p | None => <[size := pool_started size]> (dedicated_pools p) end)
    (<[actor := size]> (actor_pool_map p)).
Definition unregister_dedicated (actor : Z) (p : WorkPlacementScheduler) : WorkPlacementScheduler :=
  set_dedicated p (dedicated_thread_actors p ∖ {[actor]}) (delete actor (dedicated_thread_affinity p)) (dedicated_pools p)
    (delete actor (actor_pool_map p)).
Definition pool_take (size : Z) (i : nat) (p : WorkPlacementScheduler) : option WorkItem * WorkPlacementScheduler :=
  match dedicated_pools p !! size with
  | None => (None, p)
  | Some pool => let '(out, pool) := pool_turn i pool in
      (out, set_dedicated p (dedicated_thread_actors p) (dedicated_thread_affinity p) (<[size := pool]> (dedicated_pools p)) (actor_pool_map p))
  end.
