(* ===== verification/PlacementSpec.v ===== *)
(** * Placing work: nothing is lost and nothing runs twice

    Properties of [Placement]. *)

From S2P Require Import Prelude EdfQueue EdfSpec InjectRing Placement.
From stdpp Require Import base numbers list gmap sets.

#[local] Open Scope Z_scope.

(** ** What is waiting *)

Definition wq_items (w : WorkerQueues) : list WorkItem :=
  (inject_ring w).*1 ++ (shared_input w).*1 ++ (item <$> items (edf_queue w)) ++ concat (queues w).
Definition pool_items (m : gmap Z DedicatedThreadPool) : list WorkItem := concat ((fun x => concat (pool_queues x.2)) <$> map_to_list m).
Definition work_waiting (p : WorkPlacementScheduler) : list WorkItem :=
  concat (wq_items <$> pl_workers p) ++ concat (pinned_ready p) ++ pool_items (dedicated_pools p).

Definition priority_ok (n : Z) (x : WorkItem * Z) : Prop := 0 <= x.2 < n.
Record wq_ok (n : Z) (w : WorkerQueues) : Prop := mkWqOk {
  wo_levels : zlen (queues w) = n;
  wo_ring : Forall (priority_ok n) (inject_ring w);
  wo_shared : Forall (priority_ok n) (shared_input w);
  wo_heap : heap (items (edf_queue w))
}.
Definition pool_ok (x : DedicatedThreadPool) : Prop := 0 < num_threads x /\ zlen (pool_queues x) = num_threads x.
Record placement_ok (p : WorkPlacementScheduler) : Prop := mkPlacementOk {
  po_priorities : 0 < num_priorities p;
  po_workers : zlen (pl_workers p) = num_workers p;
  po_pinned : zlen (pinned_ready p) = num_workers p;
  po_queues : Forall (wq_ok (num_priorities p)) (pl_workers p);
  po_pools : map_Forall (fun _ x => pool_ok x) (dedicated_pools p)
}.

(** ** Lists of lists *)

Lemma concat_alter {A} (l : list (list A)) (i : nat) (x : A) :
  (i < length l)%nat -> concat (alter (fun q => q ++ [x]) i l) ≡ₚ x :: concat l.
Proof.
  revert i. induction l as [|q l IH]; intros i Hi; simpl in Hi; [lia|]. destruct i as [|i]; csimpl.
  - rewrite <- app_assoc. simpl. by rewrite Permutation_middle.
  - rewrite IH by lia. by rewrite Permutation_middle.
Qed.
Lemma alter_is_insert {A} (f : A -> A) (l : list A) i x : l !! i = Some x -> alter f i l = <[i := f x]> l.
Proof. revert i. induction l as [|y l IH]; intros [|i] Hi; try done; csimpl; [by injection Hi as ->|]. f_equal. by apply IH. Qed.
Lemma concat_take {A} (l : list (list A)) (i : nat) (x : A) (q q' : list A) :
  l !! i = Some q -> q ≡ₚ x :: q' -> concat l ≡ₚ x :: concat (<[i := q']> l).
Proof.
  intros Hi Hq. apply (Permutation_app_inv_l q'). rewrite (concat_insert l i q q' Hi), Hq. simpl. by rewrite Permutation_middle.
Qed.
Lemma concat_nils {A B} (l : list B) : concat ((fun _ => []) <$> l) = ([] : list A).
Proof. by induction l. Qed.

Lemma pool_items_insert m k x : pool_items (<[k := x]> m) ≡ₚ concat (pool_queues x) ++ pool_items (delete k m).
Proof. unfold pool_items. rewrite <- insert_delete_eq, map_to_list_insert by by rewrite lookup_delete_eq. simpl. done. Qed.
Lemma pool_items_lookup m k x : m !! k = Some x -> pool_items m ≡ₚ concat (pool_queues x) ++ pool_items (delete k m).
Proof. intros Hk. rewrite <- (pool_items_insert m k x). by rewrite insert_id. Qed.

(** ** One worker *)

Lemma place_spec n it priority w :
  wq_ok n w -> 0 <= priority < n -> wq_ok n (place it priority w) /\ wq_items (place it priority w) ≡ₚ it :: wq_items w.
Proof.
  intros [Hl Hr Hs Hh] Hp. unfold place, wake_worker, wq_items. destruct (wi_edf it); [|bcase]; simpl.
  - split; [split; simpl; try done; by apply edf_push_heap|]. unfold edf_push. simpl. rewrite sift_up_perm, fmap_app. simpl.
    rewrite <- !app_assoc. simpl. rewrite <- !Permutation_middle. done.
  - split; [split; simpl; try done; apply Forall_app; split; [done|by constructor]|]. rewrite fmap_app, <- app_assoc. simpl. by rewrite <- Permutation_middle.
  - split; [split; simpl; try done; by constructor|]. by rewrite <- Permutation_middle.
Qed.

Lemma push_levels n xs : forall q, zlen q = n -> Forall (priority_ok n) xs ->
  zlen (foldl (push_level n) q xs) = n /\ concat (foldl (push_level n) q xs) ≡ₚ concat q ++ xs.*1.
Proof.
  induction xs as [|[it priority] xs IH]; intros q Hq Hxs; [by rewrite app_nil_r|]. apply Forall_cons_1 in Hxs as [Hp Hxs].
  unfold priority_ok in Hp. simpl in Hp.
  assert (E : push_level n q (it, priority) = alter (fun l => l ++ [it]) (Z.to_nat priority) q).
  { unfold push_level. simpl. by rewrite (proj2 (Z.ltb_lt _ _)) by lia. }
  simpl. rewrite E. destruct (IH (alter (fun l => l ++ [it]) (Z.to_nat priority) q)) as [IH1 IH2]; [unfold zlen in *; by rewrite length_alter|done|].
  split; [done|]. rewrite IH2, concat_alter by (unfold zlen in Hq; lia). simpl. by rewrite Permutation_middle.
Qed.

Lemma drain_spec n w :
  wq_ok n w -> wq_ok n (drain_input n w) /\ wq_items (drain_input n w) ≡ₚ wq_items w /\
  inject_ring (drain_input n w) = [] /\ shared_input (drain_input n w) = [].
Proof.
  intros [Hl Hr Hs Hh]. assert (Hin : Forall (priority_ok n) (inject_ring w ++ reverse (shared_input w))).
  { apply Forall_app. split; [done|]. by rewrite reverse_Permutation. }
  destruct (push_levels n _ (queues w) Hl Hin) as [Hl' Hperm]. split; [by split|]. split; [|done].
  unfold wq_items, drain_input. simpl. rewrite Hperm, fmap_app, (reverse_Permutation (shared_input w)).
  rewrite (Permutation_app_comm (concat (queues w))), <- !app_assoc.
  rewrite (Permutation_app_swap_app (item <$> _) ((inject_ring w).*1)). apply Permutation_app_head.
  by rewrite (Permutation_app_swap_app (item <$> _)).
Qed.

Definition take_ok (take : list WorkItem -> option (WorkItem * list WorkItem)) : Prop :=
  forall l, match take l with Some (x, l') => l ≡ₚ x :: l' | None => l = [] end.
Lemma take_bottom_ok : take_ok take_bottom.
Proof.
  intros l. unfold take_bottom. destruct l as [|x l _] using rev_ind; [done|]. rewrite last_snoc. simpl. rewrite removelast_last.
  by rewrite Permutation_app_comm.
Qed.
Lemma take_top_ok : take_ok take_top.
Proof. intros [|x l]; simpl; done. Qed.

Lemma first_level_spec take q :
  take_ok take ->
  match first_level take q with
  | Some (x, q') => concat q ≡ₚ x :: concat q' /\ length q' = length q
  | None => concat q = []
  end.
Proof.
  intros Ht. induction q as [|l q IH]; [done|]. simpl. specialize (Ht l). destruct (take l) as [[x l']|].
  - split; [by rewrite Ht|done].
  - subst l. destruct (first_level take q) as [[x q']|]; [|done]. destruct IH as [IH1 IH2]. split; [done|]. simpl. by rewrite IH2.
Qed.

Lemma take_from_spec n take w :
  take_ok take -> wq_ok n w ->
  match take_from take w with
  | (Some x, w') => wq_ok n w' /\ wq_items w ≡ₚ x :: wq_items w'
  | (None, w') => wq_ok n w' /\ wq_items w' = wq_items w /\ items (edf_queue w) = [] /\ concat (queues w) = []
  end.
Proof.
  intros Ht [Hl Hr Hs Hh]. unfold take_from, pop_deadline. pose proof (edf_pop_spec (edf_queue w) Hh) as He.
  destruct (items (edf_queue w)) as [|hi l] eqn:Ei.
  - rewrite He. simpl. pose proof (first_level_spec take (queues w) Ht) as Hf.
    destruct (first_level take (queues w)) as [[x q']|]; simpl.
    + destruct Hf as [Hp Hlen]. split; [split; simpl; unfold zlen in *; by rewrite ?Hlen, ?Ei|]. unfold wq_items. simpl. rewrite Hp.
      by rewrite <- !Permutation_middle.
    + split; [by split; simpl; rewrite ?Ei|]. by unfold wq_items; simpl.
  - destruct He as (q' & -> & Hh' & Hperm & _). split; [by split|]. unfold wq_items. simpl. rewrite Ei, Hperm. simpl.
    by rewrite <- !Permutation_middle.
Qed.

(** ** The scheduler *)

(** An operation that hands out at most one item and loses none. *)
Definition conserves (p : WorkPlacementScheduler) (r : option WorkItem * WorkPlacementScheduler) : Prop :=
  placement_ok r.2 /\ num_priorities r.2 = num_priorities p /\ option_list r.1 ++ work_waiting r.2 ≡ₚ work_waiting p.
Definition keeps_items (n : Z) (f : WorkerQueues -> option WorkItem * WorkerQueues) : Prop :=
  forall x, wq_ok n x -> wq_ok n (f x).2 /\ option_list (f x).1 ++ wq_items (f x).2 ≡ₚ wq_items x.

Lemma take_from_keeps n take : take_ok take -> keeps_items n (take_from take).
Proof.
  intros Ht x Hx. pose proof (take_from_spec n take x Ht Hx) as H. destruct (take_from take x) as [[it|] x']; simpl; [|by destruct H as (? & -> & _)].
  by destruct H as [? ->].
Qed.
Lemma drained_keeps n take : take_ok take -> keeps_items n (fun x => take_from take (drain_input n x)).
Proof.
  intros Ht x Hx. destruct (drain_spec n x Hx) as (Hd & Hp & _). destruct (take_from_keeps n take Ht _ Hd) as [Ho Hk]. by rewrite Hk, Hp.
Qed.
Lemma pop_deadline_keeps n : keeps_items n pop_deadline.
Proof.
  intros x [Hl Hr Hs Hh]. unfold pop_deadline. pose proof (edf_pop_spec (edf_queue x) Hh) as He.
  destruct (items (edf_queue x)) as [|hi l] eqn:Ei.
  - rewrite He. by split; [split|]; simpl; rewrite ?Ei.
  - destruct He as (q' & -> & Hh' & Hperm & _). split; [by split|]. unfold wq_items. simpl. rewrite Ei, Hperm. simpl.
    by rewrite <- !Permutation_middle.
Qed.

Lemma on_worker_conserves w f p : placement_ok p -> keeps_items (num_priorities p) f -> conserves p (on_worker w f p).
Proof.
  intros [Hn Hw Hp Hq Hps] Hf. unfold on_worker, conserves. destruct (pl_workers p !! w) as [x|] eqn:Ex; [|by split].
  destruct (Hf x) as [Hx Hperm]; [by eapply Forall_lookup_1|]. destruct (f x) as [out x'] eqn:E. simpl in *.
  split; [split; simpl; try done; [unfold zlen in *; by rewrite length_insert|by apply Forall_insert]|]. split; [done|].
  unfold work_waiting. simpl. rewrite !app_assoc. do 2 apply Permutation_app_tail. rewrite list_fmap_insert.
  apply (Permutation_app_inv_l (wq_items x')). rewrite (concat_insert _ w (wq_items x) (wq_items x')) by by rewrite list_lookup_fmap, Ex.
  rewrite <- Hperm, <- !app_assoc. by rewrite (Permutation_app_swap_app (wq_items x')).
Qed.

Lemma conserves_refl p : placement_ok p -> conserves p (None, p).
Proof. by split. Qed.
Lemma conserves_trans p q r : conserves p (None, q) -> conserves q r -> conserves p r.
Proof. intros (_ & E1 & H1) (H2 & E2 & H3). simpl in *. split; [done|]. split; [congruence|]. by rewrite H3. Qed.

Lemma set_a2ws_conserves p a out : placement_ok p -> conserves p (out, p) -> conserves p (out, set_a2ws p a).
Proof. intros [] (_ & E & H). by split; [split|]. Qed.

Lemma steal_loop_conserves attempts : forall p, placement_ok p -> conserves p (steal_loop attempts p).
Proof.
  induction attempts as [|k attempts IH]; intros p Hp; [by apply conserves_refl|]. simpl.
  pose proof (on_worker_conserves (Z.to_nat (get_victim (a2ws p) k)) (take_from take_top) p Hp
    (take_from_keeps _ _ take_top_ok)) as H.
  destruct (on_worker _ _ p) as [[x|] p'].
  - destruct H as (Hok & E & H). split; [by destruct Hok; split|]. by split.
  - eapply conserves_trans; [exact H|]. destruct H as (Hok & _ & _). eapply conserves_trans; [|apply IH; by destruct Hok; split].
    destruct Hok. by split; [split|].
Qed.

Lemma pop_any_conserves ws : forall p, placement_ok p -> conserves p (pop_any_loop ws p).
Proof.
  induction ws as [|w ws IH]; intros p Hp; [by apply conserves_refl|]. simpl.
  pose proof (on_worker_conserves w _ p Hp (drained_keeps _ _ take_top_ok)) as H. fold (pop_shared w p) in H.
  destruct (pop_shared w p) as [[x|] p']; [done|]. eapply conserves_trans; [exact H|]. apply IH, H.
Qed.

Lemma take_actor_spec a q : match take_actor a q with Some (x, q') => q ≡ₚ x :: q' /\ wi_actor x = a | None => True end.
Proof.
  induction q as [|y q IH]; [done|]. simpl. bcase; bool_to_prop; [done|]. destruct (take_actor a q) as [[x q']|]; [|done]. simpl.
  destruct IH as [IH ?]. split; [|done]. rewrite IH. apply Permutation_swap.
Qed.

Lemma pinned_take p w q x q' :
  placement_ok p -> pinned_ready p !! w = Some q -> q ≡ₚ x :: q' ->
  conserves p (Some x, set_pinned p (pinned_actors p) (<[w := q']> (pinned_ready p))).
Proof.
  intros [Hn Hw Hp Hq Hps] Hi Hperm. split; [split; simpl; try done; unfold zlen in *; by rewrite length_insert|]. split; [done|].
  unfold work_waiting. simpl. rewrite (concat_take (pinned_ready p) w x q q' Hi Hperm). simpl. by rewrite <- Permutation_middle.
Qed.

Lemma pop_one_conserves w p : placement_ok p -> conserves p (pop_one_on_worker_for_test w p).
Proof.
  intros Hp. unfold pop_one_on_worker_for_test. bcase; [by apply conserves_refl|].
  assert (H : conserves p (pop_shared w p)) by (apply on_worker_conserves; [done|apply drained_keeps, take_top_ok]).
  destruct (pinned_ready p !! w) as [[|x q]|] eqn:E; [done| |done]. by eapply pinned_take.
Qed.

Lemma take_pinned_conserves a p :
  placement_ok p -> conserves p (let '(o, p') := take_pinned_for_test a p in (fst <$> o, p')).
Proof.
  intros Hp. unfold take_pinned_for_test. destruct (pinned_actors p !! a) as [pin|]; [|by apply conserves_refl].
  bcase; [by apply conserves_refl|]. destruct (pinned_ready p !! Z.to_nat (pin mod num_workers p)) as [q|] eqn:E; [|by apply conserves_refl].
  simpl. pose proof (take_actor_spec a q) as Ht. destruct (take_actor a q) as [[x q']|]; [|by apply conserves_refl].
  eapply pinned_take; [done..|apply Ht].
Qed.

Lemma pool_take_conserves size i p : placement_ok p -> conserves p (pool_take size i p).
Proof.
  intros [Hn Hw Hp Hq Hps]. unfold pool_take. destruct (dedicated_pools p !! size) as [pool|] eqn:E; [|by split].
  assert (Hpool := map_Forall_lookup_1 _ _ _ _ Hps E). simpl in Hpool.
  assert (Ht : pool_ok (pool_turn i pool).2 /\ option_list (pool_turn i pool).1 ++ concat (pool_queues (pool_turn i pool).2) ≡ₚ concat (pool_queues pool)).
  { unfold pool_turn. destruct (negb (pool_running pool)); [done|]. destruct (pool_queues pool !! i) as [[|x q]|] eqn:Ei; [done| |done]. simpl.
    split; [destruct Hpool; split; simpl; [done|unfold zlen in *; by rewrite length_insert]|]. symmetry. by apply (concat_take _ i x (x :: q) q). }
  destruct (pool_turn i pool) as [out pool'] eqn:Et. destruct Ht as [Hok Hperm]. simpl in *.
  split; [split; simpl; try done; by apply map_Forall_insert_2|]. split; [done|]. unfold work_waiting. simpl.
  rewrite pool_items_insert, (pool_items_lookup _ _ _ E). rewrite <- Hperm, <- !app_assoc.
  rewrite (Permutation_app_swap_app (option_list out)), (Permutation_app_swap_app (option_list out) (concat (pinned_ready p))). done.
Qed.

(** ** Accepting work *)

(** An operation that takes in the items [xs]. *)
Definition takes_in (p q : WorkPlacementScheduler) (xs : list WorkItem) : Prop :=
  placement_ok q /\ num_priorities q = num_priorities p /\ work_waiting q ≡ₚ xs ++ work_waiting p.

Lemma enqueue_shared_takes it priority w p :
  placement_ok p -> 0 <= priority < num_priorities p -> (w < length (pl_workers p))%nat -> takes_in p (enqueue_shared it priority w p) [it].
Proof.
  intros [Hn Hw Hp Hq Hps] Hpr Hlt. destruct (lookup_lt_is_Some_2 _ _ Hlt) as [x Ex].
  destruct (place_spec (num_priorities p) it priority x) as [Hx Hperm]; [by eapply Forall_lookup_1|done|].
  unfold enqueue_shared. rewrite (alter_is_insert _ _ _ _ Ex).
  split; [split; simpl; try done; [unfold zlen in *; by rewrite length_insert|by apply Forall_insert]|]. split; [done|].
  unfold work_waiting. simpl. rewrite list_fmap_insert. change (it :: ?a ++ ?b) with ((it :: a) ++ b). apply Permutation_app_tail.
  apply (Permutation_app_inv_l (wq_items x)). rewrite <- (concat_insert _ w (wq_items x)) by by rewrite list_lookup_fmap, Ex.
  rewrite Hperm. simpl. by rewrite Permutation_middle.
Qed.

Lemma pinned_takes it w p :
  placement_ok p -> (w < length (pinned_ready p))%nat ->
  takes_in p (set_pinned p (pinned_actors p) (alter (fun q => q ++ [it]) w (pinned_ready p))) [it].
Proof.
  intros [Hn Hw Hp Hq Hps] Hlt. split; [split; simpl; try done; unfold zlen in *; by rewrite length_alter|]. split; [done|].
  unfold work_waiting. simpl. rewrite concat_alter by done. simpl. by rewrite <- Permutation_middle.
Qed.

Lemma pool_takes it size pool p :
  placement_ok p -> dedicated_pools p !! size = Some pool ->
  takes_in p (set_dedicated p (dedicated_thread_actors p) (dedicated_thread_affinity p)
                (<[size := pool_enqueue it pool]> (dedicated_pools p)) (actor_pool_map p)) [it].
Proof.
  intros [Hn Hw Hp Hq Hps] E. destruct (map_Forall_lookup_1 _ _ _ _ Hps E) as [Hthreads Hlen].
  pose proof (Z.mod_pos_bound (next_worker pool) (num_threads pool) Hthreads) as Hmod.
  split; [split; simpl; try done; apply map_Forall_insert_2; [|done]; split; simpl; [done|unfold zlen in *; by rewrite length_alter]|].
  split; [done|]. unfold work_waiting. simpl. rewrite pool_items_insert, (pool_items_lookup _ _ _ E). unfold pool_enqueue. simpl.
  rewrite concat_alter by (unfold zlen in Hlen; lia). simpl. by rewrite <- !Permutation_middle.
Qed.

Lemma enqueue_admitted_takes it priority paused p :
  placement_ok p -> 0 <= priority < num_priorities p ->
  takes_in p (enqueue_admitted it priority paused p).2
    (match (enqueue_admitted it priority paused p).1 with PR_EnqueuedShared | PR_EnqueuedDedicatedPool => [it] | _ => [] end).
Proof.
  intros Hok Hpr. unfold enqueue_admitted. case_bool_decide; [by split|].
  destruct (pool_of (wi_actor it) p) as [[size pool]|] eqn:Ep.
  { apply pool_takes; [done|]. unfold pool_of in Ep. destruct (actor_pool_map p !! wi_actor it) as [sz|]; [|done]. simpl in Ep.
    destruct (dedicated_pools p !! sz) as [pl|] eqn:E; [|done]. simpl in Ep. by simplify_eq. }
  bcase; bool_to_prop; [by split|].
  assert (Hn : 0 < num_workers p) by (pose proof (po_workers p Hok); pose proof (zlen_nonneg (pl_workers p)); lia).
  assert (Hbound : forall z, (Z.to_nat (z mod num_workers p) < length (pl_workers p))%nat /\ (Z.to_nat (z mod num_workers p) < length (pinned_ready p))%nat).
  { intros z. pose proof (Z.mod_pos_bound z (num_workers p) Hn). pose proof (po_workers p Hok). pose proof (po_pinned p Hok).
    unfold zlen in *. lia. }
  unfold choose_worker. destruct (pinned_actors p !! wi_actor it) as [pin|]; simpl.
  - destruct paused; [by apply pinned_takes, Hbound|by apply enqueue_shared_takes, Hbound].
  - change (work_waiting p) with (work_waiting (set_rr p (u32 (rr_counter p + 1)))).
    apply (enqueue_shared_takes it priority _ (set_rr p (u32 (rr_counter p + 1)))); [by destruct Hok|done|apply Hbound].
Qed.

Lemma flush_one_items w r : queues w <> [] -> wq_items (flush_one w r) ≡ₚ r ++ wq_items w.
Proof.
  intros Hw. unfold wq_items, flush_one. simpl. destruct (queues w) as [|l q]; [done|]. csimpl.
  rewrite (Permutation_app_comm l r), <- app_assoc.
  by rewrite (Permutation_app_swap_app _ r), (Permutation_app_swap_app _ r), (Permutation_app_swap_app _ r).
Qed.
Lemma flush_items ws : forall rs, length ws = length rs -> Forall (fun w => queues w <> []) ws ->
  concat (wq_items <$> zip_with flush_one ws rs) ≡ₚ concat (wq_items <$> ws) ++ concat rs.
Proof.
  induction ws as [|w ws IH]; intros [|r rs] Hl Hq; try done. apply Forall_cons_1 in Hq as [Hw Hq]. csimpl in *.
  rewrite IH, flush_one_items by (done || lia). rewrite <- !app_assoc.
  by rewrite (Permutation_app_swap_app (concat (wq_items <$> ws)) r), (Permutation_app_swap_app (wq_items w) r).
Qed.

Lemma flush_takes p : placement_ok p -> takes_in p (flush_pinned_to_shared p) [].
Proof.
  intros [Hn Hw Hp Hq Hps]. assert (Hlen : length (pl_workers p) = length (pinned_ready p)) by (unfold zlen in *; lia).
  split; [split; simpl; try done|split; [done|]].
  - unfold zlen in *. rewrite length_zip_with. lia.
  - unfold zlen in *. by rewrite length_fmap.
  - apply Forall_lookup. intros i w Hi. apply lookup_zip_with_Some in Hi as (x & r & -> & Hx & Hr).
    destruct (Forall_lookup_1 _ _ _ _ Hq Hx) as [H1 H2 H3 H4]. split; simpl; try done. unfold zlen in *. by rewrite length_alter.
  - unfold work_waiting. simpl. rewrite flush_items, concat_nils; [by rewrite <- app_assoc|done|].
    eapply Forall_impl; [exact Hq|]. intros w [Hl _ _ _] E. rewrite E in Hl. unfold zlen in Hl. simpl in Hl. lia.
Qed.

Lemma register_pool_takes a size p : placement_ok p -> 0 <= size -> takes_in p (register_dedicated_pool a size p) [].
Proof.
  intros [Hn Hw Hp Hq Hps] Hs. unfold register_dedicated_pool. destruct (dedicated_pools p !! size) as [pool|] eqn:E; [by split; [split|]|].
  assert (Hnew : pool_ok (pool_started size) /\ concat (pool_queues (pool_started size)) = []).
  { unfold pool_started. simpl. set (n := if size =? 0 then 1 else size). assert (0 < n) by (unfold n; bcase; bool_to_prop; lia).
    split; [split; simpl; [done|unfold zlen; rewrite length_replicate; lia]|]. induction (Z.to_nat n) as [|k IH]; [done|]. exact IH. }
  split; [split; simpl; try done; apply map_Forall_insert_2; [apply Hnew|done]|]. split; [done|]. unfold work_waiting. simpl.
  rewrite pool_items_insert, (proj2 Hnew), delete_id by done. done.
Qed.

(** ** Histories *)

Inductive PlacementOp :=
| OpEnqueue (it : WorkItem) (priority : Z) (paused : bool)
| OpPop (w : nat) | OpPopEdf (w : nat) | OpSteal | OpPopAny | OpPopOne (w : nat) | OpTakePinned (actor : Z)
| OpPin (actor w : Z) | OpUnpin (actor : Z) | OpFlush
| OpThread (actor affinity : Z) | OpPool (actor size : Z) | OpUnregister (actor : Z) | OpPoolTurn (size : Z) (i : nat).

(** The items accepted and handed out by an operation. *)
Definition placement_apply (o : PlacementOp) (p : WorkPlacementScheduler) : list WorkItem * list WorkItem * WorkPlacementScheduler :=
  let hand (r : option WorkItem * WorkPlacementScheduler) := ([], option_list r.1, r.2) in
  match o with
  | OpEnqueue it priority paused =>
      let '(r, q) := enqueue_admitted it priority paused p in
      (match r with PR_EnqueuedShared | PR_EnqueuedDedicatedPool => [it] | _ => [] end, [], q)
  | OpPop w => hand (pop_local w p)
  | OpPopEdf w => hand (pop_edf w p)
  | OpSteal => hand (try_steal p)
  | OpPopAny => hand (pop_any_for_test p)
  | OpPopOne w => hand (pop_one_on_worker_for_test w p)
  | OpTakePinned a => hand (let '(o, q) := take_pinned_for_test a p in (fst <$> o, q))
  | OpPin a w => ([], [], pin_actor_to_worker a w p)
  | OpUnpin a => ([], [], unpin_actor a p)
  | OpFlush => ([], [], flush_pinned_to_shared p)
  | OpThread a aff => ([], [], register_dedicated_thread a aff p)
  | OpPool a size => ([], [], register_dedicated_pool a size p)
  | OpUnregister a => ([], [], unregister_dedicated a p)
  | OpPoolTurn size i => hand (pool_take size i p)
  end.

(** Priorities below the number of levels, sizes that are unsigned. *)
Definition placement_op_ok (n : Z) (o : PlacementOp) : bool :=
  match o with OpEnqueue _ priority _ => (0 <=? priority) && (priority <? n) | OpPool _ size => 0 <=? size | _ => true end.

Fixpoint placement_run (os : list PlacementOp) (p : WorkPlacementScheduler) : list WorkItem * list WorkItem * WorkPlacementScheduler :=
  match os with
  | [] => ([], [], p)
  | o :: os =>
      let '(acc, out, p) := placement_apply o p in
      let '(acc', out', p) := placement_run os p in (acc ++ acc', out ++ out', p)
  end.

Lemma placement_apply_spec o p :
  placement_ok p -> placement_op_ok (num_priorities p) o = true ->
  let '(acc, out, q) := placement_apply o p in
  placement_ok q /\ num_priorities q = num_priorities p /\ acc ++ work_waiting p ≡ₚ out ++ work_waiting q.
Proof.
  intros Hok Ho.
  assert (Hand : forall r, conserves p r -> placement_ok r.2 /\ num_priorities r.2 = num_priorities p /\ work_waiting p ≡ₚ option_list r.1 ++ work_waiting r.2).
  { by intros r (H1 & H2 & ->). }
  assert (In : forall q xs, takes_in p q xs -> placement_ok q /\ num_priorities q = num_priorities p /\ xs ++ work_waiting p ≡ₚ [] ++ work_waiting q).
  { by intros q xs (H1 & H2 & ->). }
  destruct o as [it priority paused|w|w| | |w|a|a w|a| |a aff|a size|a|size i]; simpl in *; try apply Hand;
    try (by destruct Hok; split; [split|]).
  - bool_to_prop. pose proof (enqueue_admitted_takes it priority paused p Hok ltac:(lia)) as Henq.
    destruct (enqueue_admitted it priority paused p) as [r q]. by apply In.
  - by apply on_worker_conserves, drained_keeps, take_bottom_ok.
  - by apply on_worker_conserves, pop_deadline_keeps.
  - by apply steal_loop_conserves.
  - by apply pop_any_conserves.
  - by apply pop_one_conserves.
  - by apply take_pinned_conserves.
  - by apply (In (flush_pinned_to_shared p) []), flush_takes.
  - bool_to_prop. by apply (In (register_dedicated_pool a size p) []), register_pool_takes.
  - by apply pool_take_conserves.
Qed.

Lemma placement_run_spec os : forall p,
  placement_ok p -> forallb (placement_op_ok (num_priorities p)) os = true ->
  let '(acc, out, q) := placement_run os p in
  placement_ok q /\ num_priorities q = num_priorities p /\ acc ++ work_waiting p ≡ₚ out ++ work_waiting q.
Proof.
  induction os as [|o os IH]; intros p Hok Hos; [done|]. simpl in *. apply andb_true_iff in Hos as [Ho Hos].
  pose proof (placement_apply_spec o p Hok Ho) as H1. destruct (placement_apply o p) as [[acc out] q]. destruct H1 as (Hq & En & H1).
  rewrite <- En in Hos. specialize (IH q Hq Hos). destruct (placement_run os q) as [[acc' out'] q']. destruct IH as (Hq' & En' & H2).
  split; [done|]. split; [congruence|]. rewrite <- !app_assoc, <- H2. by rewrite (Permutation_app_swap_app acc acc'), H1, (Permutation_app_swap_app acc' out).
Qed.

Lemma placement_init_ok workers priorities : 0 <= workers -> 0 < priorities -> placement_ok (placement_init workers priorities) /\ work_waiting (placement_init workers priorities) = [].
Proof.
  intros Hw Hp. split.
  - split; simpl; try done; [unfold zlen; rewrite length_replicate; lia..|].
    apply Forall_replicate. split; simpl; try done. unfold zlen. rewrite length_replicate. lia.
  - unfold work_waiting. simpl. unfold pool_items. rewrite map_to_list_empty. simpl. rewrite app_nil_r.
    assert (E1 : concat (wq_items <$> replicate (Z.to_nat workers) (queues_init priorities)) = []).
    { assert (E : wq_items (queues_init priorities) = []).
      { unfold wq_items, queues_init. simpl. induction (Z.to_nat priorities) as [|k IH]; [done|exact IH]. }
      induction (Z.to_nat workers) as [|k IH]; [done|]. simpl. by rewrite E. }
    rewrite E1. clear E1. induction (Z.to_nat workers) as [|k IH]; [done|exact IH].
Qed.

(** C10. On every history of placements, pops, thefts, pins, flushes and registrations
    in which every item is placed with a priority below the number of levels, the items that have been handed out and those that wait are exactly those that
    were accepted: no work is lost and none is handed out twice. *)
Theorem placement_conserves (workers priorities : Z) (os : list PlacementOp) :
  0 <= workers -> 0 < priorities -> forallb (placement_op_ok priorities) os = true ->
  let '(accepted, out, p) := placement_run os (placement_init workers priorities) in accepted ≡ₚ out ++ work_waiting p.
Proof.
  intros Hw Hp Hos. destruct (placement_init_ok workers priorities Hw Hp) as [Hok Hempty].
  pose proof (placement_run_spec os (placement_init workers priorities) Hok Hos) as H.
  destruct (placement_run os (placement_init workers priorities)) as [[acc out] q]. destruct H as (_ & _ & H).
  by rewrite Hempty, app_nil_r in H.
Qed.

(** A worker that finds nothing holds nothing, in no queue. *)
Lemma pop_local_exhaustive w x p :
  placement_ok p -> pl_workers p !! w = Some x -> (pop_local w p).1 = None -> wq_items x = [].
Proof.
  intros Hok Hx. unfold pop_local, on_worker. rewrite Hx.
  destruct (drain_spec (num_priorities p) x) as (Hd & Hperm & Hr & Hs); [by eapply Forall_lookup_1; [apply Hok|]|].
  pose proof (take_from_spec _ take_bottom _ take_bottom_ok Hd) as Ht.
  destruct (take_from take_bottom (drain_input (num_priorities p) x)) as [[it|] x']; [done|]. intros _. destruct Ht as (_ & _ & He & Hq).
  apply Permutation_nil. rewrite <- Hperm. unfold wq_items. rewrite Hr, Hs, He, Hq. done.
Qed.

(** ** Witness and behaviours at the edges *)

Definition demo_item (actor : Z) : WorkItem := mkWork actor INT64_MAX 0 false false.
Definition demo_edf (actor deadline : Z) : WorkItem := mkWork actor deadline 0 true false.

Lemma placement_conserves_witness :
  let '(accepted, out, p) :=
    placement_run [OpEnqueue (demo_item 1) 3 false; OpEnqueue (demo_edf 2 50) 0 false; OpPool 3 2; OpEnqueue (demo_item 3) 0 false; OpPop 0;
                   OpSteal; OpPoolTurn 2 0; OpEnqueue (demo_item 4) 1 false] (placement_init 2 4) in
  accepted ≡ₚ out ++ work_waiting p /\ out = [demo_item 1; demo_edf 2 50; demo_item 3] /\ work_waiting p = [demo_item 4].
Proof.
  pose proof (placement_conserves 2 4
    [OpEnqueue (demo_item 1) 3 false; OpEnqueue (demo_edf 2 50) 0 false; OpPool 3 2; OpEnqueue (demo_item 3) 0 false; OpPop 0;
     OpSteal; OpPoolTurn 2 0; OpEnqueue (demo_item 4) 1 false] ltac:(lia) ltac:(lia) eq_refl) as H.
  destruct (placement_run _ (placement_init 2 4)) as [[acc out] p] eqn:E. split; [exact H|]. vm_compute in E. injection E as <- <- <-. by vm_compute.
Defined.

(** An item whose priority is not below the number of levels is accepted and
    thrown away when the worker drains its input. *)
Lemma high_priority_work_lost :
  let '(accepted, out, p) := placement_run [OpEnqueue (demo_item 1) 4 false; OpPop 0] (placement_init 1 4) in
  accepted = [demo_item 1] /\ out = [] /\ work_waiting p = [].
Proof. by vm_compute. Qed.

(** Work in the input of a worker cannot be stolen, however long that worker is busy. *)
Lemma injected_work_not_stolen :
  let '(_, out, p) := placement_run [OpEnqueue (demo_item 1) 0 false; OpSteal; OpSteal; OpSteal] (placement_init 2 4) in
  out = [] /\ work_waiting p = [demo_item 1].
Proof. by vm_compute. Qed.

(** The hints are kept per attempt and not per thief: after one theft two attempts
    look at the same worker, and work in the deque of another is not found. *)
Lemma steal_misses_work :
  let pins := [OpPin 1 2; OpPin 2 1] in
  let put actor := [OpEnqueue (demo_item actor) 0 true; OpFlush] in
  let '(_, out, p) := placement_run (pins ++ put 1 ++ [OpSteal] ++ put 2 ++ [OpSteal]) (placement_init 3 4) in
  out = [demo_item 1] /\ work_waiting p = [demo_item 2].
Proof. by vm_compute. Qed.

(** An actor pinned to worker 0 runs on worker 1 when that one steals. *)
Lemma pinned_work_stolen :
  let '(_, out, p) := placement_run [OpPin 1 0; OpPin 2 0; OpEnqueue (demo_item 1) 0 false; OpEnqueue (demo_item 2) 0 false; OpPop 0; OpSteal]
    (placement_init 2 4) in
  out = [demo_item 2; demo_item 1].
Proof. by vm_compute. Qed.
