(* ===== verification/HybridScheduler.v ===== *)
(** * The scheduler

    [sched/scheduler.cpp]: readiness notifications, the dispatch of an actor with
    its batch of messages, worker control, over the gate and the runner of
    [ReadyGate], the queues of [Placement] and the mailboxes of [Mailbox].  An
    operation of one thread is one function; threads meet on the gate word, the
    deques, the inject ring and the parking flag, whose interleavings are in
    [ReadyGate], [ChaseLev], [InjectRing] and [WorkerPark].  Actors run their
    behavior (no coroutines), timers are in [TimingWheel]. *)

From S2P Require Import Prelude DeliveryTypes Lanes Admission Mailbox MailboxInv ReadyGate EdfQueue EdfSpec Placement PlacementSpec.
From stdpp Require Import base numbers list gmap sets.

#[local] Open Scope Z_scope.

Section Hybrid.
Context {T : Type} `{MailboxNode T}.
Context (order : gmap Z ActorRateLimiter -> list Z).
Context (msg_deadline_ns : T -> Z).
(** [actor.receive(msg)], as for the runner. *)
Context (receive : Mailbox T -> Z -> T -> Mailbox T * Z).

Notation Run := (RunState (M := Mailbox T) (T := T)).

(** What the directory holds: an actor that is not event-based, or one with its
    state word and mailbox. *)
Inductive SystemActor := PlainActor | EventActor (r : Run).

Record HybridScheduler := mkHybrid {
  hs_running : bool;
  hs_paused : bool;
  hs_placement : WorkPlacementScheduler;
  hs_actors : gmap Z SystemActor
}.

Definition set_placement (h : HybridScheduler) (p : WorkPlacementScheduler) : HybridScheduler :=
  mkHybrid (hs_running h) (hs_paused h) p (hs_actors h).
Definition set_actor (h : HybridScheduler) (a : Z) (r : Run) : HybridScheduler :=
  mkHybrid (hs_running h) (hs_paused h) (hs_placement h) (<[a := EventActor r]> (hs_actors h)).
Definition set_paused (h : HybridScheduler) (b : bool) : HybridScheduler :=
  mkHybrid (hs_running h) b (hs_placement h) (hs_actors h).

(** ** Readiness *)

Definition try_admit_ready (a : Z) (h : HybridScheduler) : bool * HybridScheduler :=
  match hs_actors h !! a with
  | None => (false, h)
  | Some PlainActor => (bool_decide ((try_mark_ready OtherActor).1 = RA_Accepted), h)
  | Some (EventActor r) =>
      match try_mark_ready (EventBased (rs_state r)) with
      | (code, EventBased st) => (bool_decide (code = RA_Accepted), set_actor h a (mkRun st (rs_box r) (rs_events r)))
      | (code, _) => (bool_decide (code = RA_Accepted), h)
      end
  end.

Definition try_mark_yield_ready (a : Z) (h : HybridScheduler) : bool * HybridScheduler :=
  match hs_actors h !! a with
  | Some (EventActor r) =>
      let '(code, st) := mark_ready_already_admitted (rs_state r) in
      (bool_decide (code = RA_Accepted), set_actor h a (mkRun st (rs_box r) (rs_events r)))
  | _ => (false, h)
  end.

Definition hs_enqueue (it : WorkItem) (priority : Z) (h : HybridScheduler) : HybridScheduler :=
  set_placement h (enqueue_admitted it priority (hs_paused h) (hs_placement h)).2.

(** The common tail of the three notifications. *)
Definition admit_item (it : WorkItem) (priority : Z) (h : HybridScheduler) : HybridScheduler :=
  if negb (hs_running h) then h
  else let '(ok, h) := try_admit_ready (wi_actor it) h in if ok then hs_enqueue it priority h else h.

Definition notify_ready (a priority deadline_ns : Z) : HybridScheduler -> HybridScheduler :=
  admit_item (mkWork a deadline_ns 0 false false) priority.
Definition notify_ready_fast (a priority deadline_ns : Z) : HybridScheduler -> HybridScheduler :=
  admit_item (mkWork a deadline_ns 0 false true) priority.
Definition notify_ready_edf (a priority deadline_ns : Z) : HybridScheduler -> HybridScheduler :=
  admit_item (mkWork a deadline_ns 0 true false) priority.

Definition yield (a priority : Z) (h : HybridScheduler) : HybridScheduler :=
  if negb (hs_running h) then h
  else let '(ok, h) := try_mark_yield_ready a h in if ok then hs_enqueue (mkWork a INT64_MAX 0 false false) priority h else h.

(** The call that a mailbox makes. *)
Definition hs_wakeup (h : HybridScheduler) (w : Wakeup) : HybridScheduler :=
  match w with
  | ContinuationCallback => h
  | NotifyReadyEdf a priority deadline => notify_ready_edf a priority deadline h
  | NotifyReadyFast a priority deadline => notify_ready_fast a priority deadline h
  | NotifyReady a => notify_ready a 0 0 h
  end.

(** A push into the mailbox of an actor, with the calls it makes. *)
Definition hs_deliver (a now : Z) (msg : T) (meta : MailboxEnvelopeMeta) (h : HybridScheduler) : HybridScheduler :=
  match hs_actors h !! a with
  | Some (EventActor (mkRun st (Some box) evs)) =>
      let box' := (try_push order box now msg meta).2 in
      foldl hs_wakeup (set_actor h a (mkRun st (Some box') evs)) (drop (length (wakeups box)) (wakeups box'))
  | _ => h
  end.

(** ** Dispatch *)

Definition kBatchLimit : nat := 63.

Definition next_sequence_of (s : Z) : Z := if s + 1 <=? 128 then s + 1 else 0.

(** The batch: [n] more runs while the runner asks for them.  A runner that asks
    gives the priority 0 and the deadline [INT64_MAX].  Wakeups that the mailbox
    sends while its actor runs find it running and change nothing. *)
Fixpoint run_batch (n : nat) (clock : nat -> Z) (d : ActorRunDisposition) (r : Run) (cur : WorkItem)
  : ActorRunDisposition * Run * WorkItem :=
  match n, d with
  | S n, RD_RequeueReady =>
      let cur := mkWork (wi_actor cur) INT64_MAX (next_sequence_of (wi_sequence cur)) (wi_edf cur) (wi_ptr cur) in
      let '(d, r) := behavior_run msg_deadline_ns receive r (wi_sequence cur) (clock 0%nat) false in
      run_batch n (fun i => clock (S i)) d r cur
  | _, _ => (d, r, cur)
  end.

(** What the dispatch does to the actor, and the item to queue again. *)
Definition dispatch_run (paused : bool) (clock : nat -> Z) (it : WorkItem) (r : Run) : Run * option WorkItem :=
  let '(d, r) := behavior_run msg_deadline_ns receive r (wi_sequence it) (clock 0%nat) paused in
  let '(d, r, cur) := if paused then (d, r, it) else run_batch kBatchLimit (fun i => clock (S i)) d r it in
  match d with
  | RD_RequeueReady =>
      (r, Some (mkWork (wi_actor cur) INT64_MAX (if paused then next_sequence_of (wi_sequence cur) else 0) (wi_edf cur) (wi_ptr cur)))
  | _ => (r, None)
  end.

(** A worker's turn at an actor, batch included, is one step; [ReadyGate.v] has the
    accesses to the state word inside it. *)
Definition execute_actor (clock : nat -> Z) (it : WorkItem) (h : HybridScheduler) : HybridScheduler :=
  match hs_actors h !! wi_actor it with
  | Some (EventActor r) =>
      let '(r, again) := dispatch_run (hs_paused h) clock it r in
      let h := set_actor h (wi_actor it) r in
      match again with Some cur => hs_enqueue cur 0 h | None => h end
  | _ => h
  end.

(** One turn of a worker that takes its work with [take]. *)
Definition hs_turn (take : WorkPlacementScheduler -> option WorkItem * WorkPlacementScheduler) (clock : nat -> Z) (h : HybridScheduler)
  : bool * HybridScheduler :=
  match take (hs_placement h) with
  | (Some it, p) => (true, execute_actor clock it (set_placement h p))
  | (None, p) => (false, set_placement h p)
  end.
Definition local_turn (w : nat) : (nat -> Z) -> HybridScheduler -> bool * HybridScheduler := hs_turn (pop_local w).
Definition steal_turn : (nat -> Z) -> HybridScheduler -> bool * HybridScheduler := hs_turn try_steal.

(** ** Worker control *)

Definition pause_workers (h : HybridScheduler) : HybridScheduler := set_paused h true.
Definition resume_workers (h : HybridScheduler) : HybridScheduler :=
  set_paused (set_placement h (flush_pinned_to_shared (hs_placement h))) false.
Definition hs_stop (h : HybridScheduler) : HybridScheduler :=
  resume_workers (mkHybrid false (hs_paused h) (hs_placement h) (hs_actors h)).

Definition run_one_ready (clock : nat -> Z) (h : HybridScheduler) : bool * HybridScheduler :=
  if negb (hs_paused h) then (false, h) else hs_turn pop_any_for_test clock h.
Definition run_one_on_worker (w : nat) (clock : nat -> Z) (h : HybridScheduler) : bool * HybridScheduler :=
  if negb (hs_paused h) then (false, h) else hs_turn (pop_one_on_worker_for_test w) clock h.
Definition run_actor (a : Z) (clock : nat -> Z) (h : HybridScheduler) : bool * HybridScheduler :=
  if negb (hs_paused h) then (false, h)
  else hs_turn (fun p => let '(o, p) := take_pinned_for_test a p in (fst <$> o, p)) clock h.

(** The number executed and whether the queues were found empty; [clocks i] is the
    clock of the [i]th execution. *)
Fixpoint drain_ready (max_items : nat) (clocks : nat -> nat -> Z) (h : HybridScheduler) : Z * bool * HybridScheduler :=
  match max_items with
  | O => (0, false, h)
  | S n =>
      match run_one_ready (clocks 0%nat) h with
      | (false, h) => (0, true, h)
      | (true, h) => let '(k, idle, h) := drain_ready n (fun i => clocks (S i)) h in (k + 1, idle, h)
      end
  end.

(** The earliest deadline of all workers, [INT64_MAX] when there is none. *)
Definition edf_next_deadline (h : HybridScheduler) : Z :=
  foldl (fun earliest w => match edf_peek (edf_queue w) with
                           | Some d => if d <? earliest then d else earliest
                           | None => earliest
                           end) INT64_MAX (pl_workers (hs_placement h)).

End Hybrid.
