(* ===== verification/HybridSpec.v ===== *)
(** * The scheduler: a ready actor is queued, and no message is left behind

    Properties of [HybridScheduler]. *)

From S2P Require Import Prelude DeliveryTypes Lanes Reservation Admission Mailbox MailboxInv ReadyGate EdfQueue EdfSpec Placement PlacementSpec HybridScheduler MailboxSpec.
From stdpp Require Import base numbers list gmap sets.

#[local] Open Scope Z_scope.

(** The invariant of a mailbox that receives its messages one by one under the
    configuration it was constructed with. *)
#[local] Notation exact_inv := (mailbox_inv (extra:=0) (tight:=true)).

#[export] Instance ActorRunDisposition_eq_dec : EqDecision ActorRunDisposition.
Proof. solve_decision. Defined.

(** ** What a push tells the scheduler *)

Section Wakeups.
Context {T : Type} `{MailboxNode T}.
Context (order : gmap Z ActorRateLimiter -> list Z).

Definition is_notice (a : Z) (meta : MailboxEnvelopeMeta) (w : Wakeup) : Prop :=
  w = NotifyReadyEdf a (meta_priority meta) (meta_deadline_ns meta) \/ w = NotifyReadyFast a (meta_priority meta) (meta_deadline_ns meta).

(** The wakeups of a push: none, or one notification behind a callback. *)
Definition woken (meta : MailboxEnvelopeMeta) (m m' : Mailbox T) : Prop :=
  actor_id m' = actor_id m /\ rate_limiter m' = rate_limiter m /\
  exists ws, wakeups m' = wakeups m ++ ws /\
    (ws = [] \/ exists cb w, ws = cb ++ [w] /\ Forall (fun c => c = ContinuationCallback) cb /\ is_notice (actor_id m) meta w).

Lemma woken_quiet meta m m' :
  actor_id m' = actor_id m -> rate_limiter m' = rate_limiter m -> wakeups m' = wakeups m -> woken meta m m'.
Proof. intros E1 E2 E3. split; [done|]. split; [done|]. exists []. rewrite E3, app_nil_r. by split; [|left]. Qed.

Lemma woken_after meta m m1 m2 :
  actor_id m1 = actor_id m -> rate_limiter m1 = rate_limiter m -> wakeups m1 = wakeups m -> woken meta m1 m2 -> woken meta m m2.
Proof. intros E1 E2 E3 (F1 & F2 & ws & F3 & F4). rewrite E1 in *. rewrite E2 in F2. rewrite E3 in F3. split; [done|]. split; [done|]. by exists ws. Qed.

Lemma woken_enqueue m node meta lane s : woken meta m (enqueue_reserved m node meta lane s).
Proof.
  unfold enqueue_reserved. set (m1 := update_pressure_state _ false).
  assert (E : actor_id m1 = actor_id m /\ rate_limiter m1 = rate_limiter m /\ wakeups m1 = wakeups m).
  { unfold m1, update_pressure_state, update_max_depth. simpl. by destruct (_ <? _). }
  clearbody m1. destruct E as (E1 & E2 & E3). destruct s; [by apply woken_quiet|]. apply (woken_after meta m m1); try done.
  unfold claim_wakeup. destruct (mailbox_was_empty m1); [|by apply woken_quiet]. split; [done|]. split; [done|]. simpl. eexists. split; [done|]. right.
  eexists _, _. split; [done|]. split; [by destruct (has_continuation m1); repeat constructor|].
  destruct (meta_schedule_edf meta && _); [by left|by right].
Qed.

Lemma reserve_quiet (m : Mailbox T) b res m' : reserve m b = (res, m') -> actor_id m' = actor_id m /\ rate_limiter m' = rate_limiter m /\ wakeups m' = wakeups m.
Proof. unfold reserve. destruct (try_reserve _ _ _ _). by intros [= <- <-]. Qed.

Lemma overflow_handle_quiet policy (m : Mailbox T) msg ctx reason r m' :
  overflow_handle policy m msg ctx reason = (r, m') -> actor_id m' = actor_id m /\ rate_limiter m' = rate_limiter m /\ wakeups m' = wakeups m.
Proof.
  assert (Hd : forall node q, actor_id (finish_drop m node q) = actor_id m /\ rate_limiter (finish_drop m node q) = rate_limiter m /\ wakeups (finish_drop m node q) = wakeups m).
  { intros node q. unfold finish_drop. simpl. by destruct (mb_empty _). }
  unfold overflow_handle, drop_oldest_handle, drop_lowest_priority_handle, drop_one_oldest_global, drop_one_lowest_priority,
    spill_to_overflow_handle, dead_letter_handle, signal_only_handle, reject_newest_handle, drop_newest_handle.
  destruct (oq_try_push (overflow_queue m) msg) as [[] oq]; destruct (try_drop_oldest_user_lane (lanes m)) as [[x q]|];
    destruct (try_drop_from_lowest_user_lane (lanes m)) as [[y v]|]; destruct policy; intros E; injection E as <- <-; try done; apply Hd.
Qed.

Lemma push_overflow_woken m msg meta lane res : woken meta m (push_overflow m msg meta lane res).2.
Proof.
  unfold push_overflow. destruct (overflow_handle _ _ msg _ res) as [r m3] eqn:Eh. apply overflow_handle_quiet in Eh as (E1 & E2 & E3). simpl in E1, E2, E3.
  assert (Q : woken meta m m3) by (by apply woken_quiet). destruct (er_code r); try exact Q.
  destruct (reserve m3 _) as [res2 m4] eqn:Er. apply reserve_quiet in Er as (F1 & F2 & F3).
  destruct res2; cbn [snd]; try (apply woken_quiet; simpl; congruence). eapply (woken_after meta m m4); [congruence..|apply woken_enqueue].
Qed.

Lemma try_push_woken m now msg meta : woken meta m (try_push order m now msg meta).2.
Proof.
  unfold try_push. destruct (evaluate_policy_chain _ _ _ _) as [adm ps]. destruct (negb _); [by apply woken_quiet|].
  set (m1 := set_policies m ps). set (meta' := meta_with_bytes meta (estimate_node_bytes msg)).
  apply (woken_after meta m m1); try done. change (woken meta' m1 (if route_lane m1 meta' =? kSystemLaneSentinel
    then push_system m1 msg meta' else push_user m1 msg meta' (route_lane m1 meta')).2).
  destruct (_ =? _).
  - unfold push_system. destruct (_ <=? _); [by apply woken_quiet|]. cbn [snd]. eapply woken_after; [| | |apply woken_enqueue]; done.
  - unfold push_user. destruct (reserve m1 _) as [res m2] eqn:Er. apply reserve_quiet in Er as (F1 & F2 & F3).
    assert (Q : woken meta' m1 (push_overflow m2 msg meta' (route_lane m1 meta') res).2)
      by (eapply woken_after; [done..|apply push_overflow_woken]).
    destruct res; try exact Q. cbn [snd]. eapply (woken_after meta' m1 m2); [done..|apply woken_enqueue].
Qed.

(** A push that ends the emptiness of a mailbox ends with a notification of the
    actor, with the priority of the message. *)
Lemma push_notifies m now msg meta :
  exact_inv m -> push_ok msg meta ->
  let m' := (try_push order m now msg meta).2 in
  let ws := drop (length (wakeups m)) (wakeups m') in
  exact_inv m' /\ actor_id m' = actor_id m /\ rate_limiter m' = rate_limiter m /\
  Forall (fun w => w = ContinuationCallback \/ is_notice (actor_id m) meta w) ws /\
  (mb_empty m = true -> mb_empty m' = false -> exists w, w ∈ ws /\ is_notice (actor_id m) meta w).
Proof.
  intros Hi Hok m' ws. destruct (try_push_preserves order m now msg meta Hi Hok) as [_ Hi' Hn].
  specialize (Hn eq_refl).
  destruct (try_push_woken m now msg meta) as (E1 & E2 & l & E3 & E4). fold m' in Hi', Hn, E1, E2, E3.
  assert (Ews : ws = l) by (unfold ws; rewrite E3, drop_app_length; done). rewrite Ews.
  split; [done|]. split; [done|]. split; [done|]. destruct E4 as [->|(cb & w & -> & Hcb & Hw)].
  - split; [done|]. intros He Hne. specialize (Hn He Hne). rewrite E3, app_nil_r in Hn. lia.
  - split; [apply Forall_app; split; [|by constructor; [right|]]; eapply Forall_impl; [exact Hcb|]; by left|].
    intros _ _. exists w. split; [|done]. apply elem_of_app. right. by apply list_elem_of_singleton.
Qed.
End Wakeups.

(** ** What a pop leaves alone *)

Section Pops.
Context {T : Type} `{MailboxNode T}.

(** The identity is kept, and a rate limiter is not removed. *)
Definition same_box (m m' : Mailbox T) : Prop := actor_id m' = actor_id m /\ (rate_limiter m' = None -> rate_limiter m = None).

Lemma same_box_trans m1 m2 m3 : same_box m1 m2 -> same_box m2 m3 -> same_box m1 m3.
Proof. intros [E1 F1] [E2 F2]. split; [congruence|auto]. Qed.

Lemma woken_same meta m m' : woken meta m m' -> same_box m m'.
Proof. intros (E1 & E2 & _). split; [done|]. by rewrite E2. Qed.

Lemma drain_loop_same fuel : forall m, same_box m (drain_loop fuel m).
Proof.
  induction fuel as [|fuel IH]; intros m; cbn [drain_loop]; [done|]. destruct (oq_try_pop (overflow_queue m)) as [[x|] oq]; [|done].
  destruct (reserve (set_overflow m oq) (estimate_node_bytes x)) as [res m1] eqn:Er. apply reserve_quiet in Er as (E1 & E2 & _). simpl in E1, E2.
  assert (S1 : same_box m m1) by (split; [done|by rewrite E2]).
  assert (S2 : forall oq', same_box m (set_overflow m1 oq')) by (intros; by split; simpl; [|rewrite E2]).
  destruct (oq_try_push (overflow_queue m1) x) as [b oq'].
  destruct res; try (by destruct b; [apply S2|]). eapply same_box_trans; [exact S1|]. eapply same_box_trans; [|apply IH].
  eapply woken_same, woken_enqueue.
Qed.

Lemma self_notify_same (m : Mailbox T) : same_box m (self_notify m).
Proof. unfold self_notify. by destruct (_ && _). Qed.

Lemma consume_node_same m node : same_box m (consume_node m node).
Proof.
  unfold consume_node. set (m1 := if node_is_system node then _ else _). set (m2 := if negb _ then _ else _).
  assert (S : same_box m m2) by (unfold m2, m1, update_pressure_state; destruct (node_is_system node); simpl; by destruct (negb _)).
  clearbody m2. eapply same_box_trans; [exact S|]. eapply same_box_trans; [|apply self_notify_same]. unfold drain_overflow.
  case_bool_decide; [apply drain_loop_same|done].
Qed.

Lemma try_pop_same m now : same_box m (try_pop m now).2.
Proof.
  unfold try_pop. assert (S : same_box m (dequeue m now).2).
  { unfold dequeue. destruct (mlq_dequeue (lanes (set_was_empty m true))) as [[node q]|].
    - destruct (rate_gate (set_mb_lanes (set_was_empty m true) q) now node) as [ok m1] eqn:Eg.
      assert (S1 : same_box m m1).
      { unfold rate_gate in Eg. simpl in Eg. destruct (rate_limiter m) as [l|] eqn:El; [|by injection Eg as <- <-].
        destruct (node_is_system node); [by injection Eg as <- <-|]. destruct (try_consume l now). injection Eg as <- <-. by split. }
      destruct ok; cbn [snd]; eapply same_box_trans; [exact S1|apply consume_node_same|exact S1|].
      eapply same_box_trans; [eapply woken_same, woken_enqueue|]. by split.
    - cbn [snd]. eapply same_box_trans; [|apply self_notify_same]. by split. }
  destruct (dequeue m now) as [[node|] m']; [|exact S]. exact S.
Qed.

(** Without a limiter, a pop finds nothing only in an empty mailbox. *)
Lemma try_pop_none (m : Mailbox T) now : rate_limiter m = None -> (try_pop m now).1 = None -> mb_empty (try_pop m now).2 = true.
Proof.
  intros Hl. unfold try_pop, dequeue. destruct (mlq_dequeue (lanes (set_was_empty m true))) as [[node q]|] eqn:E.
  - unfold rate_gate. simpl. by rewrite Hl.
  - intros _. apply mlq_dequeue_None in E. simpl in E. unfold self_notify, mb_empty. simpl. by rewrite E.
Qed.
End Pops.

Section Spec.
Context {T : Type} `{MailboxNode T}.
Context (order : gmap Z ActorRateLimiter -> list Z).
Context (msg_deadline_ns : T -> Z).
Context (receive : Mailbox T -> Z -> T -> Mailbox T * Z).

(** A behavior may use its own mailbox as a sender does, and leaves the state word
    to the scheduler. *)
Definition behaves : Prop :=
  forall m st x, exact_inv m -> exact_inv (receive m st x).1 /\ same_box m (receive m st x).1 /\ (receive m st x).2 = st.
Context (Hrecv : behaves).

Notation Run := (RunState (M := Mailbox T) (T := T)).
Notation Scheduler := (HybridScheduler (T := T)).
Notation run := (behavior_run msg_deadline_ns receive).

(** ** Runs *)

Record actor_ok (a : Z) (r : Run) : Prop := mkActorOk {
  ao_state : rs_state r = kIdle \/ rs_state r = kReady;
  ao_box : forall box, rs_box r = Some box -> exact_inv box /\ actor_id box = a
}.
(** Messages wait only for an actor that is ready, unless a limiter holds them back. *)
Definition served (r : Run) : Prop :=
  forall box, rs_box r = Some box -> rate_limiter box = None -> mb_empty box = false -> rs_state r = kReady.

Definition run_result (a : Z) (d : ActorRunDisposition) (r : Run) : Prop :=
  actor_ok a r /\ served r /\ rs_state r = (if bool_decide (d = RD_RequeueReady) then kReady else kIdle).

Lemma run_spec a r seqno now paused : actor_ok a r -> rs_state r = kReady -> run_result a (run r seqno now paused).1 (run r seqno now paused).2.
Proof.
  intros [_ Hbox] Hready. destruct r as [st [box|] evs]; simpl in *; subst st.
  2:{ simpl. split; [split; [by left|done]|]. by split. }
  destruct (Hbox box eq_refl) as [Hi Ha]. pose proof (behavior_run_handles msg_deadline_ns receive box evs seqno now paused) as Hr.
  pose proof (try_pop_preserves box now Hi) as [_ Hi' _]. pose proof (try_pop_same box now) as [Ha' Hl']. pose proof (try_pop_none box now) as Hnone.
  simpl in Hr. destruct (run (mkRun kReady (Some box) evs) seqno now paused) as [d r']. destruct (try_pop box now) as [x popped]. simpl in *.
  set (after := match x with Some m => if is_expired (msg_deadline_ns m) now then (popped, kRunning) else receive popped kRunning m | None => (popped, kRunning) end) in *.
  assert (Hafter : exact_inv after.1 /\ same_box popped after.1 /\ after.2 = kRunning).
  { unfold after. destruct x as [m|]; [|done]. destruct (is_expired _ _); [done|]. by apply Hrecv. }
  assert (Hx : x = None -> after.1 = popped) by (unfold after; by intros ->).
  destruct after as [box' st]. destruct Hafter as (Hi2 & [Ha2 Hl2] & Hst). simpl in *. destruct Hr as (Eb & _ & Hd). subst st.
  assert (Hstate : rs_state r' = (if bool_decide (d = RD_RequeueReady) then kReady else kIdle) /\
                   (rs_state r' = kIdle -> rate_limiter box' = None -> mb_empty box' = true)).
  { destruct d; [done| | |]; simpl in Hd |- *.
    - destruct Hd as (_ & _ & _ & Hn). exfalso. apply Hn. set_solver.
    - destruct Hd as [-> _]. by split.
    - destruct Hd as [-> Hd]. split; [done|]. intros _ Hlim. destruct Hd as [|[Ex _]]; [done|]. rewrite (Hx Ex). apply Hnone; [auto|done]. }
  destruct Hstate as [Es Hem]. split; [split|split; [|done]].
  - rewrite Es. case_bool_decide; [by right|by left].
  - intros b Hb. rewrite Eb in Hb. injection Hb as <-. split; [done|congruence].
  - intros b Hb Hlim Hne. rewrite Eb in Hb. injection Hb as <-. destruct (decide (rs_state r' = kIdle)) as [E|E].
    + rewrite Hem in Hne by done. done.
    + rewrite Es in E |- *. by case_bool_decide.
Qed.

Lemma run_batch_spec a n : forall clock d r cur, run_result a d r ->
  let '(d', r', cur') := run_batch msg_deadline_ns receive n clock d r cur in run_result a d' r' /\ wi_actor cur' = wi_actor cur.
Proof.
  induction n as [|n IH]; intros clock d r cur Hr; [done|]. destruct d; try done. cbn [run_batch].
  destruct Hr as (Hok & _ & Hst). set (cur' := mkWork _ _ _ _ _). pose proof (run_spec a r (wi_sequence cur') (clock 0%nat) false Hok Hst) as Hrun.
  destruct (run r (wi_sequence cur') (clock 0%nat) false) as [d' r']. specialize (IH (fun i => clock (S i)) d' r' cur' Hrun).
  destruct (run_batch _ _ n _ d' r' cur') as [[d2 r2] c2]. by destruct IH as [? ->].
Qed.

(** A dispatch ends with the actor ready and an item to queue, or idle and none. *)
Lemma dispatch_spec a paused clock it r :
  actor_ok a r -> rs_state r = kReady ->
  let '(r', again) := dispatch_run msg_deadline_ns receive paused clock it r in
  actor_ok a r' /\ served r' /\
  match again with Some cur => rs_state r' = kReady /\ wi_actor cur = wi_actor it | None => rs_state r' = kIdle end.
Proof.
  intros Hok Hst. unfold dispatch_run. pose proof (run_spec a r (wi_sequence it) (clock 0%nat) paused Hok Hst) as Hrun.
  destruct (run r (wi_sequence it) (clock 0%nat) paused) as [d r']. simpl in Hrun.
  assert (Hfin : let '(d', r2, cur) := if paused then (d, r', it) else run_batch msg_deadline_ns receive kBatchLimit (fun i => clock (S i)) d r' it in
    run_result a d' r2 /\ wi_actor cur = wi_actor it) by (destruct paused; [done|by apply run_batch_spec]).
  destruct (if paused then _ else _) as [[d' r2] cur]. destruct Hfin as [(H1 & H2 & H3) Ha]. by destruct d'.
Qed.

(** ** The queues *)

Definition count_for (a : Z) (l : list WorkItem) : nat := length (filter (fun it => wi_actor it = a) l).

#[local] Instance count_for_proper a : Proper ((≡ₚ) ==> eq) (count_for a).
Proof. intros l l' E. unfold count_for. by rewrite E. Qed.

Lemma count_for_app a l l' : count_for a (l ++ l') = (count_for a l + count_for a l')%nat.
Proof. unfold count_for. by rewrite filter_app, length_app. Qed.

Definition same_shape (p q : WorkPlacementScheduler) : Prop :=
  num_workers q = num_workers p /\ num_priorities q = num_priorities p /\ dedicated_thread_actors q = dedicated_thread_actors p.

Lemma on_worker_shape w f p : same_shape p (on_worker w f p).2.
Proof. unfold on_worker. destruct (pl_workers p !! w) as [x|]; [|done]. by destruct (f x). Qed.
Lemma steal_loop_shape ks : forall p, same_shape p (steal_loop ks p).2.
Proof.
  induction ks as [|k ks IH]; intros p; [done|]. simpl. pose proof (on_worker_shape (Z.to_nat (get_victim (a2ws p) k)) (take_from take_top) p) as Hw.
  destruct (on_worker _ _ p) as [[x|] q]; [done|]. destruct (IH (set_a2ws q (record_attempt (a2ws q) k (get_victim (a2ws p) k) false))) as (H1 & H2 & H3).
  destruct Hw as (W1 & W2 & W3). simpl in *. split; [congruence|]. split; congruence.
Qed.
Lemma pop_any_shape ws : forall p, same_shape p (pop_any_loop ws p).2.
Proof.
  induction ws as [|w ws IH]; intros p; [done|]. simpl. pose proof (on_worker_shape w (fun x => take_from take_top (drain_input (num_priorities p) x)) p) as Hw.
  fold (pop_shared w p) in Hw. destruct (pop_shared w p) as [[x|] q]; [done|]. destruct (IH q) as (H1 & H2 & H3), Hw as (W1 & W2 & W3).
  simpl in *. split; [congruence|]. split; congruence.
Qed.

(** A way of taking work: it hands out what was waiting. *)
Definition takes_work (take : WorkPlacementScheduler -> option WorkItem * WorkPlacementScheduler) : Prop :=
  forall p, placement_ok p -> conserves p (take p) /\ same_shape p (take p).2.

Lemma pop_local_takes w : takes_work (pop_local w).
Proof. intros p Hp. split; [by apply on_worker_conserves, drained_keeps, take_bottom_ok|apply on_worker_shape]. Qed.
Lemma try_steal_takes : takes_work try_steal.
Proof. intros p Hp. split; [by apply steal_loop_conserves|apply steal_loop_shape]. Qed.
Lemma pop_any_takes : takes_work pop_any_for_test.
Proof. intros p Hp. split; [by apply pop_any_conserves|apply pop_any_shape]. Qed.
Lemma pop_one_takes w : takes_work (pop_one_on_worker_for_test w).
Proof.
  intros p Hp. split; [by apply pop_one_conserves|]. unfold pop_one_on_worker_for_test. bcase; [done|].
  destruct (pinned_ready p !! w) as [[|x q]|]; try done; apply on_worker_shape.
Qed.
Lemma take_pinned_takes a : takes_work (fun p => let '(o, p) := take_pinned_for_test a p in (fst <$> o, p)).
Proof.
  intros p Hp. split; [by apply take_pinned_conserves|]. unfold take_pinned_for_test. destruct (pinned_actors p !! a) as [pin|]; [|done].
  bcase; [done|]. by destruct (pinned_ready p !! _ ≫= _) as [[x q]|].
Qed.

(** ** The invariant *)

Record hs_ok (h : Scheduler) : Prop := mkHsOk {
  ho_running : hs_running h = true;
  ho_placement : placement_ok (hs_placement h);
  ho_workers : 0 < num_workers (hs_placement h);
  ho_threads : dedicated_thread_actors (hs_placement h) = ∅;
  ho_actors : forall a r, hs_actors h !! a = Some (EventActor r) -> actor_ok a r;
  ho_queued : forall a r, hs_actors h !! a = Some (EventActor r) ->
    count_for a (work_waiting (hs_placement h)) = (if rs_state r =? kReady then 1%nat else 0%nat)
}.
Definition hs_served (h : Scheduler) : Prop := forall a r, hs_actors h !! a = Some (EventActor r) -> served r.
Definition levels (h : Scheduler) : Z := num_priorities (hs_placement h).

Lemma enqueue_accepted it priority h :
  hs_ok h -> 0 <= priority < levels h ->
  takes_in (hs_placement h) (hs_placement (hs_enqueue it priority h)) [it] /\ same_shape (hs_placement h) (hs_placement (hs_enqueue it priority h)).
Proof.
  intros Hok Hp. destruct Hok as [_ Hpl Hw Hth _ _]. set (p := hs_placement h) in *.
  pose proof (enqueue_admitted_takes it priority (hs_paused h) p Hpl Hp) as Ht. unfold hs_enqueue. simpl. fold p.
  unfold enqueue_admitted, choose_worker in *. rewrite Hth in *. rewrite bool_decide_eq_false_2 in * by set_solver.
  destruct (pool_of (wi_actor it) p) as [[size pool]|]; [done|]. rewrite (proj2 (Z.eqb_neq _ _)) in * by lia.
  destruct (pinned_actors p !! wi_actor it) as [pin|]; [|done]. by destruct (hs_paused h).
Qed.

(** An actor that is not ready is made ready and queued. *)
Lemma queue_ready h a r r' it priority :
  hs_ok h -> hs_actors h !! a = Some (EventActor r) -> rs_state r = kIdle -> rs_state r' = kReady -> actor_ok a r' ->
  wi_actor it = a -> 0 <= priority < levels h -> hs_ok (hs_enqueue it priority (set_actor h a r')).
Proof.
  intros Hok Hr Hidle Hready Hr' Hit Hp. pose proof Hok as [Hrun Hpl Hw Hth Hact Hq].
  destruct (enqueue_accepted it priority h Hok Hp) as [(Hpl' & En & Hperm) (S1 & S2 & S3)].
  split; simpl; [done|done|simpl in S1; lia|simpl in S3; congruence| |].
  - intros b rb Hb. destruct (decide (b = a)) as [->|Hne]; [rewrite lookup_insert_eq in Hb; by simplify_eq|].
    rewrite lookup_insert_ne in Hb by done. by apply Hact.
  - intros b rb Hb. simpl in Hperm. rewrite Hperm. change (it :: ?l) with ([it] ++ l). rewrite count_for_app.
    destruct (decide (b = a)) as [->|Hne].
    + rewrite lookup_insert_eq in Hb. simplify_eq. rewrite (Hq _ r Hr), Hidle, Hready. unfold count_for. by rewrite filter_cons_True.
    + rewrite lookup_insert_ne in Hb by done. rewrite (Hq b rb Hb). unfold count_for. by rewrite filter_cons_False by congruence.
Qed.

Lemma queue_plain h it priority :
  hs_ok h -> hs_actors h !! wi_actor it = Some PlainActor -> 0 <= priority < levels h -> hs_ok (hs_enqueue it priority h).
Proof.
  intros Hok Hr Hp. pose proof Hok as [Hrun Hpl Hw Hth Hact Hq].
  destruct (enqueue_accepted it priority h Hok Hp) as [(Hpl' & En & Hperm) (S1 & S2 & S3)].
  split; simpl; [done|done|simpl in S1; lia|simpl in S3; congruence|done|].
  intros b rb Hb. simpl in Hperm. rewrite Hperm. change (it :: ?l) with ([it] ++ l). rewrite count_for_app, (Hq b rb Hb).
  unfold count_for. rewrite filter_cons_False; [done|]. intros E. rewrite E in Hr. congruence.
Qed.

(** Replacing an actor without touching its state word. *)
Lemma replace_actor h a r r' :
  hs_ok h -> hs_actors h !! a = Some (EventActor r) -> rs_state r' = rs_state r -> actor_ok a r' -> hs_ok (set_actor h a r').
Proof.
  intros [Hrun Hpl Hw Hth Hact Hq] Hr Est Hr'. split; simpl; try done.
  - intros b rb Hb. destruct (decide (b = a)) as [->|Hne]; [rewrite lookup_insert_eq in Hb; by simplify_eq|].
    rewrite lookup_insert_ne in Hb by done. by apply Hact.
  - intros b rb Hb. destruct (decide (b = a)) as [->|Hne]; [rewrite lookup_insert_eq in Hb; simplify_eq; rewrite Est; by apply Hq|].
    rewrite lookup_insert_ne in Hb by done. by apply Hq.
Qed.

(** What a notification does: no mailbox changes, no actor stops being ready. *)
Definition raises (h h' : Scheduler) : Prop :=
  forall a, match hs_actors h !! a with
            | Some (EventActor r) => exists st, hs_actors h' !! a = Some (EventActor (mkRun st (rs_box r) (rs_events r))) /\ (st = rs_state r \/ st = kReady)
            | o => hs_actors h' !! a = o
            end.

Lemma raises_same h h' : hs_actors h' = hs_actors h -> raises h h'.
Proof. intros E a. rewrite E. destruct (hs_actors h !! a) as [[|[st box evs]]|]; [done| |done]. exists st. by split; [|left]. Qed.
Lemma raises_trans h1 h2 h3 : raises h1 h2 -> raises h2 h3 -> raises h1 h3.
Proof.
  intros H1 H2 a. specialize (H1 a). specialize (H2 a). destruct (hs_actors h1 !! a) as [[|r]|]; try by rewrite H1 in H2.
  destruct H1 as (st & E & Hst). rewrite E in H2. destruct H2 as (st' & E' & Hst'). exists st'. simpl in *. split; [done|].
  destruct Hst'; subst; [done|by right].
Qed.
Lemma raises_set h a r st :
  hs_actors h !! a = Some (EventActor r) -> st = kReady -> raises h (set_actor h a (mkRun st (rs_box r) (rs_events r))).
Proof.
  intros Hr -> b. simpl. destruct (decide (b = a)) as [->|Hne]; [rewrite Hr, lookup_insert_eq; exists kReady; by split; [|right]|].
  rewrite lookup_insert_ne by done. by apply (raises_same h h eq_refl).
Qed.

(** The actors of a scheduler that is [raises]d are those it had. *)
Lemma raises_served h h' : raises h h' -> hs_served h -> hs_served h'.
Proof.
  intros Hw Hs a r Hr. specialize (Hw a). destruct (hs_actors h !! a) as [[|r0]|] eqn:E; [congruence| |congruence].
  destruct Hw as (st & E' & Hst). rewrite Hr in E'. injection E' as ->. intros box Hb Hlim Hne. simpl in *.
  destruct Hst as [->| ->]; [|done]. by apply (Hs a r0 E box).
Qed.

(** The invariant and the number of levels are kept. *)
Definition hs_keeps (h h' : Scheduler) : Prop := hs_ok h' /\ levels h' = levels h.
Lemma hs_keeps_trans h1 h2 h3 : hs_keeps h1 h2 -> hs_keeps h2 h3 -> hs_keeps h1 h3.
Proof. intros [_ E1] [Hok E2]. split; [done|congruence]. Qed.

(** An admission of a ready actor's item, by whichever of the two gates. *)
Lemma ready_queue h a r it priority :
  hs_ok h -> 0 <= priority < levels h -> wi_actor it = a -> hs_actors h !! a = Some (EventActor r) -> rs_state r = kIdle ->
  let h' := hs_enqueue it priority (set_actor h a (mkRun kReady (rs_box r) (rs_events r))) in
  hs_keeps h h' /\ raises h h' /\ hs_actors h' !! a = Some (EventActor (mkRun kReady (rs_box r) (rs_events r))).
Proof.
  intros Hok Hp Hit Hr Hst h'. destruct (enqueue_accepted it priority h Hok Hp) as [(_ & En & _) _].
  assert (Hr' : actor_ok a (mkRun kReady (rs_box r) (rs_events r))) by (destruct (ho_actors h Hok a r Hr); by split; [right|]).
  split; [split; [by eapply queue_ready|exact En]|]. split; [|simpl; by rewrite lookup_insert_eq].
  eapply raises_trans; [by apply (raises_set h a r kReady)|by apply raises_same].
Qed.

Lemma set_same (h : Scheduler) a r : hs_actors h !! a = Some (EventActor r) -> set_actor h a r = h.
Proof. intros Hr. destruct h. unfold set_actor. simpl in *. f_equal. by apply insert_id. Qed.

Lemma admit_spec it priority h :
  hs_ok h -> 0 <= priority < levels h ->
  let h' := admit_item it priority h in
  hs_keeps h h' /\ raises h h' /\
  forall r, hs_actors h !! wi_actor it = Some (EventActor r) ->
    hs_actors h' !! wi_actor it = Some (EventActor (mkRun kReady (rs_box r) (rs_events r))).
Proof.
  intros Hok Hp. unfold admit_item, try_admit_ready. rewrite (ho_running h Hok). simpl.
  destruct (hs_actors h !! wi_actor it) as [[|r]|] eqn:Ea; simpl.
  - destruct (enqueue_accepted it priority h Hok Hp) as [(_ & En & _) _]. split; [split; [by apply queue_plain|exact En]|].
    split; [by apply raises_same|done].
  - destruct (ho_actors h Hok _ r Ea) as [Hst _]. destruct r as [st box evs]. simpl in *. destruct Hst as [->| ->]; simpl.
    + destruct (ready_queue h (wi_actor it) (mkRun kIdle box evs) it priority) as (H1 & H2 & H3); try done.
      split; [done|]. split; [done|]. intros r [= <-]. exact H3.
    + rewrite set_same by done.
      split; [done|]. split; [by apply raises_same|].
      intros r [= <-]. by rewrite lookup_insert_eq.
  - split; [done|]. split; [by apply raises_same|done].
Qed.

Lemma yield_spec a priority (h : Scheduler) :
  hs_ok h -> 0 <= priority < levels h -> hs_keeps h (yield a priority h) /\ raises h (yield a priority h).
Proof.
  intros Hok Hp. unfold yield, try_mark_yield_ready. rewrite (ho_running h Hok). simpl.
  destruct (hs_actors h !! a) as [[|r]|] eqn:Ea; [split; [done|by apply raises_same]| |split; [done|by apply raises_same]].
  destruct (ho_actors h Hok _ r Ea) as [Hst _]. destruct r as [st box evs]. simpl in *. destruct Hst as [->| ->]; simpl.
  - destruct (ready_queue h a (mkRun kIdle box evs) (mkWork a INT64_MAX 0 false false) priority) as (H1 & H2 & H3); done.
  - rewrite set_same by done. split; [done|by apply raises_same].
Qed.

(** A wakeup whose priority, if it has one, is below the number of levels. *)
Definition wakeup_ok (n : Z) (w : Wakeup) : Prop :=
  match w with NotifyReadyEdf _ priority _ | NotifyReadyFast _ priority _ => 0 <= priority < n | _ => 0 < n end.
Definition notifies (a : Z) (w : Wakeup) : Prop :=
  match w with NotifyReadyEdf b _ _ | NotifyReadyFast b _ _ | NotifyReady b => b = a | ContinuationCallback => False end.

Lemma hs_wakeup_spec h w :
  hs_ok h -> wakeup_ok (levels h) w ->
  let h' := hs_wakeup h w in
  hs_keeps h h' /\ raises h h' /\
  forall a r, notifies a w -> hs_actors h !! a = Some (EventActor r) -> hs_actors h' !! a = Some (EventActor (mkRun kReady (rs_box r) (rs_events r))).
Proof.
  intros Hok Hw. destruct w as [|a priority d|a priority d|a]; cbn [hs_wakeup wakeup_ok notifies] in *;
    [split; [done|]; split; [by apply raises_same|done]|..];
    [edestruct (admit_spec (mkWork a d 0 true false) priority h) as (H1 & H2 & H3)
    |edestruct (admit_spec (mkWork a d 0 false true) priority h) as (H1 & H2 & H3)
    |edestruct (admit_spec (mkWork a 0 0 false false) 0 h) as (H1 & H2 & H3)]; try done;
    (split; [exact H1|]; split; [exact H2|]; intros b r <- Hr; by apply H3).
Qed.

Lemma wakeups_spec ws : forall h,
  hs_ok h -> Forall (wakeup_ok (levels h)) ws ->
  let h' := foldl hs_wakeup h ws in
  hs_keeps h h' /\ raises h h' /\
  forall a r w, w ∈ ws -> notifies a w -> hs_actors h !! a = Some (EventActor r) ->
    hs_actors h' !! a = Some (EventActor (mkRun kReady (rs_box r) (rs_events r))).
Proof.
  induction ws as [|w ws IH]; intros h Hok Hws.
  { split; [done|]. split; [by apply raises_same|]. intros a r w Hw. by apply not_elem_of_nil in Hw. }
  apply Forall_cons_1 in Hws as [Hw Hws]. destruct (hs_wakeup_spec h w Hok Hw) as (H1 & H3 & H4). pose proof H1 as [H1' H2]. rewrite <- H2 in Hws.
  destruct (IH _ H1' Hws) as (G1 & G3 & G4). simpl. split; [by eapply hs_keeps_trans|]. split; [by eapply raises_trans|].
  intros a r w' Hin Hn Hr. pose proof (H3 a) as H3a. rewrite Hr in H3a. destruct H3a as (st & Hr1 & _). apply elem_of_cons in Hin as [->|Hin].
  - pose proof (G3 a) as G3a. rewrite (H4 a r Hn Hr) in G3a. destruct G3a as (st' & Hr2 & Hst'). simpl in *. by destruct Hst' as [->| ->].
  - apply (G4 a _ w' Hin Hn Hr1).
Qed.

Lemma deliver_spec a now msg meta h :
  hs_ok h -> hs_served h -> push_ok msg meta -> meta_priority meta < levels h ->
  hs_keeps h (hs_deliver order a now msg meta h) /\ hs_served (hs_deliver order a now msg meta h).
Proof.
  intros Hok Hs Hpush Hp. unfold hs_deliver. destruct (hs_actors h !! a) as [[|[st [box|] evs]]|] eqn:Ea; try done.
  destruct (ho_actors h Hok a _ Ea) as [Hst Hbox]. destruct (Hbox box eq_refl) as [Hi Haid]. simpl in Hst.
  destruct (push_notifies order box now msg meta Hi Hpush) as (Hi' & Ha' & Hl' & Hws & Hnote). set (box' := (try_push order box now msg meta).2) in *.
  set (h1 := set_actor h a (mkRun st (Some box') evs)). set (ws := drop (length (wakeups box)) (wakeups box')) in *.
  assert (Hok1 : hs_ok h1).
  { eapply replace_actor; [done..|]. split; [done|]. intros b [= <-]. split; [done|]. congruence. }
  assert (Hwok : Forall (wakeup_ok (levels h1)) ws).
  { eapply Forall_impl; [exact Hws|]. intros w Hw. change (levels h1) with (levels h). pose proof (po_priorities _ (ho_placement h Hok)).
    destruct Hpush as (_ & _ & Hnn). destruct Hw as [->|[->| ->]]; simpl; unfold levels in *; lia. }
  destruct (wakeups_spec ws h1 Hok1 Hwok) as (G1 & G3 & G4). split; [exact G1|].
  assert (Hr1 : hs_actors h1 !! a = Some (EventActor (mkRun st (Some box') evs))) by (simpl; by rewrite lookup_insert_eq).
  intros b r Hr. pose proof (G3 b) as G3b. destruct (decide (b = a)) as [->|Hne].
  - rewrite Hr1 in G3b. destruct G3b as (st' & Hr' & Hst'). rewrite Hr in Hr'. injection Hr' as ->. intros b [= <-] Hlim Hne. simpl.
    destruct (mb_empty box) eqn:Ee.
    + destruct (Hnote eq_refl Hne) as (w & Hw & Hn). assert (Hna : notifies a w) by (destruct Hn as [-> | ->]; simpl; congruence).
      specialize (G4 a _ w Hw Hna Hr1). rewrite Hr in G4. by simplify_eq.
    + assert (st = kReady) by (apply (Hs a _ Ea box); [done|congruence|done]). simpl in Hst'. destruct Hst'; congruence.
  - simpl in G3b. rewrite lookup_insert_ne in G3b by done. destruct (hs_actors h !! b) as [[|r0]|] eqn:Eb; [congruence| |congruence].
    destruct G3b as (st' & Hr' & Hst'). rewrite Hr in Hr'. injection Hr' as ->. intros bx Hbx Hlim Hnb. simpl in *.
    destruct Hst' as [->| ->]; [|done]. by apply (Hs b r0 Eb bx).
Qed.

(** ** Turns *)

(** Work has been taken: one item less for its actor. *)
Lemma taken_spec h it p :
  hs_ok h -> conserves (hs_placement h) (Some it, p) -> same_shape (hs_placement h) p ->
  forall r, hs_actors h !! wi_actor it = Some (EventActor r) ->
  rs_state r = kReady /\ forall r', actor_ok (wi_actor it) r' -> rs_state r' = kIdle -> hs_ok (set_actor (set_placement h p) (wi_actor it) r').
Proof.
  intros [Hrun Hpl Hw Hth Hact Hq] (Hp & En & Hperm) (S1 & S2 & S3) r Hr. simpl in *. change (it :: ?l) with ([it] ++ l) in Hperm.
  pose proof (Hq _ _ Hr) as Hc. rewrite <- Hperm, count_for_app in Hc. unfold count_for at 1 in Hc. rewrite filter_cons_True in Hc by done.
  cbn [length filter list_filter] in Hc. destruct (Z.eqb_spec (rs_state r) kReady) as [Es|]; [|simpl in Hc; lia]. split; [done|]. intros r' Hr' Hidle.
  split; simpl; [done|done|lia|congruence| |].
  - intros b rb Hb. destruct (decide (b = wi_actor it)) as [->|Hne]; [rewrite lookup_insert_eq in Hb; by simplify_eq|].
    rewrite lookup_insert_ne in Hb by done. by apply Hact.
  - intros b rb Hb. destruct (decide (b = wi_actor it)) as [->|Hne].
    + rewrite lookup_insert_eq in Hb. simplify_eq. rewrite Hidle. simpl in Hc |- *. lia.
    + rewrite lookup_insert_ne in Hb by done. rewrite <- (Hq b rb Hb), <- Hperm, count_for_app. unfold count_for at 2. by rewrite filter_cons_False by congruence.
Qed.
Lemma taken_other h o p :
  hs_ok h -> conserves (hs_placement h) (o, p) -> same_shape (hs_placement h) p ->
  (forall it r, o = Some it -> hs_actors h !! wi_actor it <> Some (EventActor r)) -> hs_ok (set_placement h p).
Proof.
  intros [Hrun Hpl Hw Hth Hact Hq] (Hp & En & Hperm) (S1 & S2 & S3) Hno. simpl in *. split; simpl; [done|done|lia|congruence|done|].
  intros b rb Hb. rewrite <- (Hq b rb Hb), <- Hperm, count_for_app. destruct o as [it|]; [|done]. simpl. unfold count_for at 2.
  rewrite filter_cons_False; [done|]. intros E. apply (Hno it rb); [done|]. congruence.
Qed.

Lemma turn_spec take clock h :
  takes_work take -> hs_ok h -> hs_served h ->
  let h' := (hs_turn msg_deadline_ns receive take clock h).2 in hs_keeps h h' /\ hs_served h'.
Proof.
  intros Ht Hok Hs. unfold hs_turn. destruct (Ht _ (ho_placement h Hok)) as [Hc Hsh]. destruct (take (hs_placement h)) as [[it|] p]; cbn [snd].
  2:{ split; [split; [by eapply taken_other|apply Hsh]|exact Hs]. }
  unfold execute_actor. change (hs_actors (set_placement h p)) with (hs_actors h).
  destruct (hs_actors h !! wi_actor it) as [[|r]|] eqn:Ea.
  1,3: split; [split; [eapply taken_other; [done..|]; intros ? ? [= <-]; congruence|apply Hsh]|exact Hs].
  destruct (taken_spec h it p Hok Hc Hsh r Ea) as [Hready Hset].
  pose proof (dispatch_spec (wi_actor it) (hs_paused h) clock it r (ho_actors h Hok _ r Ea) Hready) as Hd.
  change (hs_paused (set_placement h p)) with (hs_paused h). destruct (dispatch_run _ _ _ _ _ _) as [r' again]. destruct Hd as (Hr' & Hsr & Hag).
  assert (Hserved : hs_served (set_actor (set_placement h p) (wi_actor it) r')).
  { intros b rb Hb. simpl in Hb. destruct (decide (b = wi_actor it)) as [->|Hne]; [rewrite lookup_insert_eq in Hb; by simplify_eq|].
    rewrite lookup_insert_ne in Hb by done. by apply (Hs b). }
  destruct again as [cur|]; [|split; [split; [by apply Hset|apply Hsh]|done]]. destruct Hag as [Hst Hcur].
  set (idle := mkRun kIdle (rs_box r') (rs_events r')). assert (Hidle : actor_ok (wi_actor it) idle) by (destruct Hr'; by split; [left|]).
  pose proof (Hset idle Hidle eq_refl) as Hok1. set (h1 := set_actor (set_placement h p) (wi_actor it) idle) in Hok1.
  assert (E : set_actor (set_placement h p) (wi_actor it) r' = set_actor h1 (wi_actor it) r') by (unfold set_actor; simpl; by rewrite insert_insert_eq).
  assert (El : levels h1 = levels h) by apply Hsh. pose proof (po_priorities _ (ho_placement h1 Hok1)) as Hlev. split; [|exact Hserved].
  rewrite E. destruct (enqueue_accepted cur 0 h1 Hok1 ltac:(unfold levels; lia)) as [(_ & En & _) _].
  split; [|etransitivity; [exact En|exact El]].
  eapply (queue_ready h1 (wi_actor it) idle); try done; simpl; rewrite ?lookup_insert_eq; unfold levels; (done || lia).
Qed.

(** ** Histories *)

Inductive SchedulerOp :=
| OpDeliver (a now : Z) (msg : T) (meta : MailboxEnvelopeMeta)
| OpNotify (it : WorkItem) (priority : Z)
| OpYield (a priority : Z)
| OpLocal (w : nat) (clock : nat -> Z)
| OpStolen (clock : nat -> Z)
| OpPooled (size : Z) (i : nat) (clock : nat -> Z)
| OpRunOne (clock : nat -> Z)
| OpRunOn (w : nat) (clock : nat -> Z)
| OpRunActor (a : Z) (clock : nat -> Z)
| OpDrain (max_items : nat) (clocks : nat -> nat -> Z)
| OpPause | OpResume
| OpPinTo (a w : Z) | OpUnpinned (a : Z) | OpPooledActor (a size : Z).

Definition scheduler_apply (h : Scheduler) (o : SchedulerOp) : Scheduler :=
  match o with
  | OpDeliver a now msg meta => hs_deliver order a now msg meta h
  | OpNotify it priority => admit_item it priority h
  | OpYield a priority => yield a priority h
  | OpLocal w clock => (local_turn msg_deadline_ns receive w clock h).2
  | OpStolen clock => (steal_turn msg_deadline_ns receive clock h).2
  | OpPooled size i clock => (hs_turn msg_deadline_ns receive (pool_take size i) clock h).2
  | OpRunOne clock => (run_one_ready msg_deadline_ns receive clock h).2
  | OpRunOn w clock => (run_one_on_worker msg_deadline_ns receive w clock h).2
  | OpRunActor a clock => (run_actor msg_deadline_ns receive a clock h).2
  | OpDrain n clocks => (drain_ready msg_deadline_ns receive n clocks h).2
  | OpPause => pause_workers h
  | OpResume => resume_workers h
  | OpPinTo a w => set_placement h (pin_actor_to_worker a w (hs_placement h))
  | OpUnpinned a => set_placement h (unpin_actor a (hs_placement h))
  | OpPooledActor a size => set_placement h (register_dedicated_pool a size (hs_placement h))
  end.

(** Messages within their bounds, priorities below the number of levels. *)
Definition scheduler_op_ok (n : Z) (o : SchedulerOp) : Prop :=
  match o with
  | OpDeliver _ _ msg meta => push_ok msg meta /\ meta_priority meta < n
  | OpNotify _ priority | OpYield _ priority => 0 <= priority < n
  | OpPooledActor _ size => 0 <= size
  | _ => True
  end.

Lemma pool_take_takes size i : takes_work (pool_take size i).
Proof.
  intros p Hp. split; [by apply pool_take_conserves|]. unfold pool_take. destruct (dedicated_pools p !! size) as [pool|]; [|done]. by destruct (pool_turn i pool).
Qed.

(** Operations on the queues alone. *)
Lemma placement_op_keeps h q :
  hs_ok h -> takes_in (hs_placement h) q [] -> same_shape (hs_placement h) q -> hs_keeps h (set_placement h q).
Proof.
  intros [Hrun Hpl Hw Hth Hact Hq] (Hp & En & Hperm) (S1 & S2 & S3). simpl in *. split; [|exact En]. split; simpl; [done|done|lia|congruence|done|].
  intros b rb Hb. rewrite Hperm. by apply Hq.
Qed.

Lemma drain_spec_ready n : forall clocks h, hs_ok h -> hs_served h ->
  let h' := (drain_ready msg_deadline_ns receive n clocks h).2 in hs_keeps h h' /\ hs_served h'.
Proof.
  induction n as [|n IH]; intros clocks h Hok Hs; [done|]. cbn [drain_ready].
  assert (Hone : let h' := (run_one_ready msg_deadline_ns receive (clocks 0%nat) h).2 in hs_keeps h h' /\ hs_served h').
  { unfold run_one_ready. destruct (negb (hs_paused h)); [done|]. by apply turn_spec, Hs; [apply pop_any_takes|]. }
  destruct (run_one_ready _ _ _ h) as [b h1]. simpl in Hone. destruct Hone as [Hk Hs1]. destruct b; [|done].
  destruct (IH (fun i => clocks (S i)) h1 (proj1 Hk) Hs1) as [Hk2 Hs2].
  destruct (drain_ready _ _ n _ h1) as [[k idle] h2]. split; [by eapply hs_keeps_trans|done].
Qed.

Lemma scheduler_apply_spec h o :
  hs_ok h -> hs_served h -> scheduler_op_ok (levels h) o -> hs_keeps h (scheduler_apply h o) /\ hs_served (scheduler_apply h o).
Proof.
  intros Hok Hs Ho. assert (Hraise : forall h', hs_keeps h h' /\ raises h h' -> hs_keeps h h' /\ hs_served h').
  { intros h' [Hk Hr]. split; [done|]. by eapply raises_served. }
  assert (Hturn : forall take clock, takes_work take -> let h' := (hs_turn msg_deadline_ns receive take clock h).2 in hs_keeps h h' /\ hs_served h').
  { intros take clock Ht. by apply turn_spec. }
  assert (Hplace : forall q, takes_in (hs_placement h) q [] -> same_shape (hs_placement h) q -> hs_keeps h (set_placement h q) /\ hs_served (set_placement h q)).
  { intros q Hq Hsh. split; [by apply placement_op_keeps|exact Hs]. }
  pose proof (ho_placement h Hok) as Hpl.
  destruct o as [a now msg meta|it priority|a priority|w clock|clock|size i clock|clock|w clock|a clock|n clocks| | |a w|a|a size];
    cbn [scheduler_apply scheduler_op_ok] in *.
  - destruct Ho. by apply deliver_spec.
  - apply Hraise. destruct (admit_spec it priority h Hok Ho) as (H1 & H2 & _). by split.
  - by apply Hraise, yield_spec.
  - apply Hturn, pop_local_takes.
  - apply Hturn, try_steal_takes.
  - apply Hturn, pool_take_takes.
  - unfold run_one_ready. destruct (negb (hs_paused h)); [done|]. apply Hturn, pop_any_takes.
  - unfold run_one_on_worker. destruct (negb (hs_paused h)); [done|]. apply Hturn, pop_one_takes.
  - unfold run_actor. destruct (negb (hs_paused h)); [done|]. apply Hturn, take_pinned_takes.
  - by apply drain_spec_ready.
  - split; [|exact Hs]. destruct Hok. by split; [split|].
  - split; [|exact Hs]. destruct (Hplace (flush_pinned_to_shared (hs_placement h))) as [[[] E] _]; [by apply flush_takes|done|]. by split; [split|].
  - apply Hplace; [|done]. destruct Hpl. by split; [split|].
  - apply Hplace; [|done]. destruct Hpl. by split; [split|].
  - apply Hplace; [by apply register_pool_takes|done].
Qed.

Lemma scheduler_run_spec os : forall h,
  hs_ok h -> hs_served h -> Forall (scheduler_op_ok (levels h)) os ->
  hs_keeps h (foldl scheduler_apply h os) /\ hs_served (foldl scheduler_apply h os).
Proof.
  induction os as [|o os IH]; intros h Hok Hs Hos; [done|]. apply Forall_cons_1 in Hos as [Ho Hos].
  destruct (scheduler_apply_spec h o Hok Hs Ho) as [[Hok1 El] Hs1]. rewrite <- El in Hos.
  destruct (IH _ Hok1 Hs1 Hos) as [Hk Hs2]. simpl. split; [by eapply hs_keeps_trans|done].
Qed.

(** A scheduler that has just started, over actors that wait for their first message. *)
Definition fresh (actors : gmap Z (SystemActor (T := T))) : Prop :=
  forall a r, actors !! a = Some (EventActor r) ->
    rs_state r = kIdle /\ forall box, rs_box r = Some box -> exact_inv box /\ actor_id box = a /\ mb_empty box = true.
Definition hs_started (workers priorities : Z) (actors : gmap Z (SystemActor (T := T))) : Scheduler :=
  mkHybrid true false (placement_init workers priorities) actors.

Lemma started_ok workers priorities actors :
  0 < workers -> 0 < priorities -> fresh actors -> hs_ok (hs_started workers priorities actors) /\ hs_served (hs_started workers priorities actors).
Proof.
  intros Hw Hp Hf. destruct (placement_init_ok workers priorities ltac:(lia) Hp) as [Hok Hempty]. split.
  - split; simpl; try done.
    + intros a r Hr. destruct (Hf a r Hr) as [Hst Hb]. split; [by left|]. intros box E. by destruct (Hb box E) as (? & ? & _).
    + intros a r Hr. rewrite Hempty. by destruct (Hf a r Hr) as [-> _].
  - intros a r Hr box Eb _ Hne. destruct (Hf a r Hr) as [_ Hb]. destruct (Hb box Eb) as (_ & _ & He). congruence.
Qed.

Lemma count_for_some a l : count_for a l = 1%nat -> exists it, it ∈ l /\ wi_actor it = a.
Proof.
  unfold count_for. intros E. destruct (filter (fun it => wi_actor it = a) l) as [|it l'] eqn:F; [done|].
  assert (Hin : it ∈ filter (fun it => wi_actor it = a) l) by (rewrite F; left). apply list_elem_of_filter in Hin as [? ?]. by exists it.
Qed.

(** C3. Whatever is delivered, notified, yielded, run, stolen, pinned, paused and
    resumed, with priorities below the number of levels and a worker's turn at an
    actor as one step, an actor is ready exactly when one item waits for it, and
    messages in a mailbox without a rate limiter wait only for an actor that has its
    item in a queue: none is left behind.  What a priority out of range does is
    [high_priority_strands_actor]; what the steps inside a turn may do to the count
    of items is [recheck_queues_twice] of [ReadyGate.v]. *)
Theorem no_message_stranded workers priorities actors os a r box :
  0 < workers -> 0 < priorities -> fresh actors -> Forall (scheduler_op_ok priorities) os ->
  let h := foldl scheduler_apply (hs_started workers priorities actors) os in
  hs_actors h !! a = Some (EventActor r) -> rs_box r = Some box ->
  (rs_state r = kIdle \/ rs_state r = kReady) /\
  count_for a (work_waiting (hs_placement h)) = (if rs_state r =? kReady then 1%nat else 0%nat) /\
  (rate_limiter box = None -> mb_empty box = false -> exists it, it ∈ work_waiting (hs_placement h) /\ wi_actor it = a).
Proof.
  intros Hw Hp Hf Hos h Hr Hbox. destruct (started_ok workers priorities actors Hw Hp Hf) as [Hok Hs].
  destruct (scheduler_run_spec os _ Hok Hs Hos) as [[Hok' _] Hs']. fold h in Hok', Hs'.
  pose proof (ho_queued h Hok' a r Hr) as Hc. split; [apply (ho_actors h Hok' a r Hr)|]. split; [exact Hc|].
  intros Hlim Hne. apply count_for_some. rewrite Hc, (Hs' a r Hr box Hbox Hlim Hne). done.
Qed.
End Spec.

(** ** Witness and behaviours at the edges *)

#[local] Instance hybrid_node : MailboxNode TypedMessage := typed_node 64.
Definition plain_receive (m : Mailbox TypedMessage) (st : Z) (_ : TypedMessage) : Mailbox TypedMessage * Z := (m, st).
(** A behavior of actor 1 that sends itself every message again. *)
Definition no_order (_ : gmap Z ActorRateLimiter) : list Z := [].
Definition looping_receive (m : Mailbox TypedMessage) (st : Z) (x : TypedMessage) : Mailbox TypedMessage * Z :=
  (if actor_id m =? 1 then (try_push no_order m 0 x demo_meta).2 else m, st).

Definition hybrid_actor (a : Z) (limiter : option ActorRateLimiter) : SystemActor (T := TypedMessage) :=
  EventActor (mkRun kIdle (Some (mailbox_init a (demo_config 8 10000 OP_RejectNewest) limiter [] false)) []).
Definition hybrid_demo (actors : list (Z * option ActorRateLimiter)) : HybridScheduler (T := TypedMessage) :=
  hs_started 1 4 (list_to_map ((fun x => (x.1, hybrid_actor x.1 x.2)) <$> actors)).
Definition priority_meta (priority : Z) : MailboxEnvelopeMeta := mkMeta 7 4096 priority INT64_MAX 0 false.

(** State, number of messages waiting and messages received of an actor. *)
Definition observe (h : HybridScheduler (T := TypedMessage)) (a : Z) : option (Z * bool * nat) :=
  match hs_actors h !! a with
  | Some (EventActor (mkRun st (Some box) evs)) => Some (st, mb_empty box, length evs)
  | _ => None
  end.

Definition demo_turns (n : nat) (now : Z) : list (SchedulerOp (T := TypedMessage)) := replicate n (OpLocal 0 (fun _ => now)).
Definition demo_send (a priority : Z) : SchedulerOp := OpDeliver a 0 (demo_msg a) (priority_meta priority).
Definition demo_history (receive : Mailbox TypedMessage -> Z -> TypedMessage -> Mailbox TypedMessage * Z)
  : HybridScheduler -> list SchedulerOp -> HybridScheduler := foldl (scheduler_apply no_order (fun _ => INT64_MAX) receive).

Lemma plain_behaves : behaves plain_receive.
Proof. intros m st x Hm. by split; [|split]. Qed.
Lemma demo_send_ok a priority : 0 <= priority < 4 -> scheduler_op_ok 4 (demo_send a priority).
Proof. intros Hp. split; [|simpl; lia]. split; [done|]. split; [|simpl; lia]. unfold sized. simpl. vm_compute. by split. Qed.
Lemma demo_fresh : fresh (list_to_map [(1, hybrid_actor 1 None); (2, hybrid_actor 2 None)]).
Proof.
  intros a r Hr. simpl in Hr. apply lookup_insert_Some in Hr as [[<- Hr]|[_ Hr]]; [|apply lookup_insert_Some in Hr as [[<- Hr]|[_ Hr]]; [|done]];
    injection Hr as <-; (split; [done|]; intros box Hb; injection Hb as <-; split; [by apply mailbox_init_inv, demo_construction_ok|done]).
Qed.

Lemma no_message_stranded_witness :
  let h := demo_history plain_receive (hybrid_demo [(1, None); (2, None)]) [demo_send 1 3; demo_send 2 0; OpLocal 0 (fun _ => 1); demo_send 2 1; OpPause] in
  exists r box, hs_actors h !! 1 = Some (EventActor r) /\ rs_box r = Some box /\ mb_empty box = false /\
  exists it, it ∈ work_waiting (hs_placement h) /\ wi_actor it = 1.
Proof.
  intros h. destruct (hs_actors h !! 1) as [[|r]|] eqn:Er; [by vm_compute in Er| |by vm_compute in Er].
  destruct (rs_box r) as [box|] eqn:Eb; [|exfalso; vm_compute in Er; injection Er as <-; by vm_compute in Eb].
  assert (E : rate_limiter box = None /\ mb_empty box = false).
  { vm_compute in Er. injection Er as <-. injection Eb as <-. by vm_compute. }
  exists r, box. split; [done|]. split; [done|]. split; [apply E|].
  refine (proj2 (proj2 (no_message_stranded no_order (fun _ => INT64_MAX) plain_receive plain_behaves 1 4
    (list_to_map [(1, hybrid_actor 1 None); (2, hybrid_actor 2 None)])
    [demo_send 1 3; demo_send 2 0; OpLocal 0 (fun _ => 1); demo_send 2 1; OpPause] 1 r box ltac:(lia) ltac:(lia) demo_fresh _ Er Eb)) (proj1 E) (proj2 E)).
  repeat (apply Forall_cons; split; [(apply demo_send_ok; lia) || done|]). by apply Forall_nil.
Defined.

(** A message whose priority is not below the four levels: the worker throws the
    item away, the actor stays ready, and no later message is ever handled. *)
Lemma high_priority_strands_actor :
  let h := demo_history plain_receive (hybrid_demo [(1, None)])
    ([demo_send 1 4] ++ demo_turns 2 1 ++ [demo_send 1 0; demo_send 1 0] ++ demo_turns 2 1) in
  observe h 1 = Some (kReady, false, 0%nat) /\ work_waiting (hs_placement h) = [].
Proof. by vm_compute. Qed.

(** An actor whose limiter has no token is left idle with its messages, and neither
    time nor another message wakes it. *)
Lemma rate_limited_actor_stranded :
  let h := demo_history plain_receive (hybrid_demo [(1, Some (configure limiter_init (double_of_Z 1000) 1))])
    ([demo_send 1 0; demo_send 1 0] ++ demo_turns 2 1 ++ [demo_send 1 0] ++ demo_turns 2 1000000000000) in
  observe h 1 = Some (kIdle, false, 1%nat) /\ work_waiting (hs_placement h) = [].
Proof. by vm_compute. Qed.

(** An actor that always has work is queued again behind the others and popped
    before them: it has handled 320 messages and its neighbour none. *)
Lemma busy_actor_starves_others :
  let h := demo_history looping_receive (hybrid_demo [(1, None); (2, None)]) ([demo_send 2 0; demo_send 1 0] ++ demo_turns 5 1) in
  observe h 1 = Some (kReady, false, 320%nat) /\ observe h 2 = Some (kReady, false, 0%nat).
Proof. by vm_compute. Qed.
