(* ===== verification/StreamActors.v ===== *)
(** * The two ends of a stream

    [actor/stream/stream_sender_actor.cpp], [stream_receiver_actor.cpp],
    [stream_handle.hpp], [stream_registry.cpp] and the wiring of
    [ActorSystem::open_stream_impl]: buffering, the credit window, sequencing,
    closing and errors.  An actor handles one message at a time; what it hands to
    the mailbox of the other end or to the transport is appended to [ss_out], and
    what becomes of it is up to the link.  The readers of the protobuf records are
    arguments.  The theorems: whatever the link loses, repeats or reorders, the
    target gets a prefix of what was written, in order; the sender keeps to the
    window that it was granted; and what closing does. *)

From S2P Require Import Prelude DeliveryTypes TraceText Endpoint FrameProto StreamRuntime.
From Stdlib Require Import String Ascii SpecFloat.
From stdpp Require Import base numbers list gmap.

#[local] Open Scope Z_scope.

Definition StreamChunkTag : Z := 128.
Definition StreamClosedTag : Z := 130.
Definition StreamErrorTag : Z := 131.
Definition InternalCloseTag : Z := 136.
Definition InternalErrorTag : Z := 137.
Definition InternalTimeoutTag : Z := 138.

Record StreamConfig := mkStreamConfig {
  initial_window_bytes : Z; max_chunk_bytes : Z; send_buffer_limit : Z; idle_timeout : Z; max_in_flight_frames : Z
}.
Definition default_stream_config : StreamConfig := mkStreamConfig 65536 65536 262144 30000000000 256.

(** A message of the user: its tag and its bytes. *)
Definition Chunk : Type := Z * list Z.

(** ** The sender *)

Inductive SenderState := ST_Opening | ST_Streaming | ST_Closing | ST_Closed | ST_Error.
#[export] Instance SenderState_eq_dec : EqDecision SenderState.
Proof. solve_decision. Defined.

Inductive SenderOut :=
| OutData (f : StreamDataFrame) | OutClose (f : StreamCloseFrame) | OutError (f : StreamErrorFrame)
| OutTimerSet | OutTimerCancelled.

(** [ss_link]: the receiver is local, or there is a transport. *)
Record StreamSender := mkSender {
  ss_stream_id : Z; ss_config : StreamConfig; ss_link : bool;
  ss_state : SenderState; ss_window : Z; ss_inflight : Z; ss_next_sequence : Z; ss_last_acked : Z;
  ss_buffer : list Chunk; ss_buffer_bytes : Z; ss_timer : bool; ss_out : list SenderOut
}.

Definition sender_new (sid : Z) (c : StreamConfig) (link : bool) : StreamSender := mkSender sid c link ST_Opening 0 0 1 0 [] 0 false [].

Definition set_sender_state (s : StreamSender) (st : SenderState) : StreamSender :=
  mkSender (ss_stream_id s) (ss_config s) (ss_link s) st (ss_window s) (ss_inflight s) (ss_next_sequence s) (ss_last_acked s)
    (ss_buffer s) (ss_buffer_bytes s) (ss_timer s) (ss_out s).
Definition set_sender_buffer (s : StreamSender) (b : list Chunk) (n : Z) : StreamSender :=
  mkSender (ss_stream_id s) (ss_config s) (ss_link s) (ss_state s) (ss_window s) (ss_inflight s) (ss_next_sequence s) (ss_last_acked s)
    b n (ss_timer s) (ss_out s).
Definition sender_emit (s : StreamSender) (o : list SenderOut) : StreamSender :=
  mkSender (ss_stream_id s) (ss_config s) (ss_link s) (ss_state s) (ss_window s) (ss_inflight s) (ss_next_sequence s) (ss_last_acked s)
    (ss_buffer s) (ss_buffer_bytes s) (ss_timer s) (ss_out s ++ o).
Definition send_frame_out (s : StreamSender) (o : SenderOut) : StreamSender := if ss_link s then sender_emit s [o] else s.

Definition schedule_idle_timer (s : StreamSender) : StreamSender :=
  if idle_timeout (ss_config s) =? 0 then s
  else
    let s := sender_emit s [OutTimerSet] in
    mkSender (ss_stream_id s) (ss_config s) (ss_link s) (ss_state s) (ss_window s) (ss_inflight s) (ss_next_sequence s) (ss_last_acked s)
      (ss_buffer s) (ss_buffer_bytes s) true (ss_out s).
Definition reset_idle_timer (s : StreamSender) : StreamSender :=
  schedule_idle_timer (if ss_timer s then sender_emit s [OutTimerCancelled] else s).

(** The constructor, and the timer that [make_behavior] starts. *)
Definition sender_start (sid : Z) (c : StreamConfig) (link : bool) : StreamSender := schedule_idle_timer (sender_new sid c link).

Definition accepts_chunks (st : SenderState) : bool := bool_decide (st ∈ [ST_Streaming; ST_Opening; ST_Closing]).

(** The conditions under which the loop of [send_pending_chunks] goes on. *)
Definition may_send (s : StreamSender) : bool :=
  negb (bool_decide (ss_state s = ST_Error)) && negb ((0 <? ss_window s) && (ss_window s <=? ss_inflight s))
  && negb ((0 <? ss_inflight s) && (ss_window s =? 0)) && accepts_chunks (ss_state s).

Definition data_frame_of (s : StreamSender) (c : Chunk) : StreamDataFrame := mkStreamData (ss_stream_id s) (ss_next_sequence s) c.2 c.1.

Definition send_chunk (c : Chunk) (rest : list Chunk) (s : StreamSender) : StreamSender :=
  let f := data_frame_of s c in
  let s := mkSender (ss_stream_id s) (ss_config s) (ss_link s) (ss_state s) (ss_window s) (ss_inflight s) (u64 (ss_next_sequence s + 1)) (ss_last_acked s)
    rest (u64 (ss_buffer_bytes s - zlen c.2)) (ss_timer s) (ss_out s) in
  let s := send_frame_out s (OutData f) in
  mkSender (ss_stream_id s) (ss_config s) (ss_link s) (ss_state s) (ss_window s) (u64 (ss_inflight s + zlen c.2)) (ss_next_sequence s) (ss_last_acked s)
    (ss_buffer s) (ss_buffer_bytes s) (ss_timer s) (ss_out s).

(** The loop, over the buffer: whether something was sent. *)
Fixpoint send_loop (buf : list Chunk) (s : StreamSender) : bool * StreamSender :=
  match buf with
  | [] => (false, s)
  | c :: rest => if may_send s then (true, (send_loop rest (send_chunk c rest s)).2) else (false, s)
  end.

Definition send_close_to_receiver (s : StreamSender) : StreamSender := send_frame_out s (OutClose (mkStreamClose (ss_stream_id s) 0)).
Definition send_error_to_receiver (code : Z) (description : string) (s : StreamSender) : StreamSender :=
  send_frame_out s (OutError (mkStreamError (ss_stream_id s) code description)).

Definition send_pending_chunks (s : StreamSender) : StreamSender :=
  let '(sent_any, s) := send_loop (ss_buffer s) s in
  if sent_any && bool_decide (ss_state s = ST_Closing) && bool_decide (ss_buffer s = [])
  then set_sender_state (send_close_to_receiver s) ST_Closed
  else s.

Definition chunk_fits (c : Chunk) (s : StreamSender) : bool :=
  accepts_chunks (ss_state s) && negb (send_buffer_limit (ss_config s) <? u64 (ss_buffer_bytes s + zlen c.2)).
Definition enqueue_chunk (c : Chunk) (s : StreamSender) : StreamSender :=
  if negb (chunk_fits c s) then s
  else send_pending_chunks (reset_idle_timer (set_sender_buffer s (ss_buffer s ++ [c]) (u64 (ss_buffer_bytes s + zlen c.2)))).

Definition handle_stream_ack (a : StreamAckFrame) (s : StreamSender) : StreamSender :=
  let s := mkSender (ss_stream_id s) (ss_config s) (ss_link s) (if bool_decide (ss_state s = ST_Opening) then ST_Streaming else ss_state s)
    (sa_window a) (ss_inflight s) (ss_next_sequence s) (if ss_last_acked s <? sa_last_sequence a then sa_last_sequence a else ss_last_acked s)
    (ss_buffer s) (ss_buffer_bytes s) (ss_timer s) (ss_out s) in
  let s := reset_idle_timer s in
  if bool_decide (ss_state s = ST_Streaming) || bool_decide (ss_state s = ST_Closing) then send_pending_chunks s else s.

Definition handle_internal_close (s : StreamSender) : StreamSender :=
  if negb (bool_decide (ss_state s = ST_Streaming)) && negb (bool_decide (ss_state s = ST_Opening)) then s
  else
    let s := send_pending_chunks (set_sender_state s ST_Closing) in
    if bool_decide (ss_buffer s = []) && (ss_inflight s =? 0) then set_sender_state (send_close_to_receiver s) ST_Closed else s.

(** The first four bytes, least significant first, and the rest as text. *)
Definition error_code_of (payload : list Z) : Z := if 4 <=? zlen payload then foldr (fun b acc => b + 256 * acc) 0 (take 4 payload) else 0.
Definition text_of (bytes : list Z) : string := string_of_list_ascii ((fun b => ascii_of_N (Z.to_N b)) <$> bytes).
Definition handle_internal_error (payload : list Z) (s : StreamSender) : StreamSender :=
  if bool_decide (ss_state s = ST_Closed) || bool_decide (ss_state s = ST_Error) then s
  else set_sender_state (send_error_to_receiver (error_code_of payload) (text_of (drop 4 payload)) s) ST_Error.

Definition on_idle_timeout (s : StreamSender) : StreamSender :=
  if bool_decide (ss_state s = ST_Streaming) || bool_decide (ss_state s = ST_Opening)
  then set_sender_state (send_error_to_receiver 1 "Stream idle timeout" s) ST_Error
  else s.

(** ** The receiver *)

Inductive ReceiverOut := ToTarget (c : Chunk) | ToSenderAck (f : StreamAckFrame) | ToSenderError (f : StreamErrorFrame).

Record StreamReceiver := mkReceiver { sr_stream_id : Z; sr_initial_window : Z; sr_last_delivered : Z; sr_total_bytes : Z }.
Definition receiver_new (sid window : Z) : StreamReceiver := mkReceiver sid window 0 0.

(** binary32, the type of the ratio. *)
Definition float_of_Z (z : Z) : spec_float := binary_normalize 24 128 z 0 false.

(** [pressure] is that of the target's mailbox in parts per million, [None] when
    the target is gone. *)
Definition compute_window_bytes (max_window : Z) (pressure : option Z) : Z :=
  match pressure with
  | None => 0
  | Some ppm =>
      if ppm <=? 200000 then max_window
      else if 800000 <=? ppm then 0
      else
        let ratio := SFsub 24 128 (float_of_Z 1) (SFdiv 24 128 (float_of_Z (ppm - 200000)) (float_of_Z 600000)) in
        Z_of_double (SFmul 24 128 (float_of_Z max_window) ratio)
  end.

Definition delivery_tag (f : StreamDataFrame) : Z := if sd_user_tag f =? 0 then StreamChunkTag else sd_user_tag f.

Definition receive_data (pressure : option Z) (f : StreamDataFrame) (r : StreamReceiver) : list ReceiverOut * StreamReceiver :=
  if negb (sd_sequence f =? u64 (sr_last_delivered r + 1))
  then ([ToSenderError (mkStreamError (sr_stream_id r) 2 "Out-of-order stream sequence")], r)
  else
    let r := mkReceiver (sr_stream_id r) (sr_initial_window r) (sd_sequence f) (u64 (sr_total_bytes r + zlen (sd_payload f))) in
    ([ToTarget (delivery_tag f, sd_payload f);
      ToSenderAck (mkStreamAck (sr_stream_id r) (sr_last_delivered r) (compute_window_bytes (sr_initial_window r) pressure))], r).
Definition receive_close (r : StreamReceiver) : list ReceiverOut * StreamReceiver := ([ToTarget (StreamClosedTag, [])], r).
Definition receive_error (r : StreamReceiver) : list ReceiverOut * StreamReceiver := ([ToTarget (StreamErrorTag, [])], r).

(** ** Behaviors *)

Section Behaviors.
Context (parse_data : list Z -> option StreamDataFrame) (parse_ack : list Z -> option StreamAckFrame)
        (parse_close : list Z -> option StreamCloseFrame) (parse_error : list Z -> option StreamErrorFrame).

Definition sender_behavior (m : Chunk) (s : StreamSender) : StreamSender :=
  let '(tag, payload) := m in
  if tag =? StreamAckTag then match parse_ack payload with Some a => handle_stream_ack a s | None => s end
  else if tag =? StreamCloseTag then match parse_close payload with Some _ => set_sender_state s ST_Closed | None => s end
  else if tag =? StreamWireErrorTag then match parse_error payload with Some _ => set_sender_state s ST_Error | None => s end
  else if tag =? InternalCloseTag then handle_internal_close s
  else if tag =? InternalErrorTag then handle_internal_error payload s
  else if tag =? InternalTimeoutTag then on_idle_timeout s
  else if TypeTag_User <=? tag then enqueue_chunk m s
  else s.

Definition receiver_behavior (pressure : option Z) (m : Chunk) (r : StreamReceiver) : list ReceiverOut * StreamReceiver :=
  let '(tag, payload) := m in
  if tag =? StreamDataTag then match parse_data payload with Some f => receive_data pressure f r | None => ([], r) end
  else if tag =? StreamCloseTag then match parse_close payload with Some _ => receive_close r | None => ([], r) end
  else if tag =? StreamWireErrorTag then match parse_error payload with Some _ => receive_error r | None => ([], r) end
  else ([], r).
End Behaviors.

(** ** What the sender has sent *)

Definition data_frames (out : list SenderOut) : list StreamDataFrame := omap (fun o => match o with OutData f => Some f | _ => None end) out.
Definition chunk_of (f : StreamDataFrame) : Chunk := (sd_user_tag f, sd_payload f).
Definition sent_chunks (s : StreamSender) : list Chunk := chunk_of <$> data_frames (ss_out s).
Definition stream_bytes (l : list Chunk) : Z := sum_by (fun c => zlen c.2) l.
Definition wire_frames (out : list SenderOut) : list SenderOut := List.filter (fun o => match o with OutData _ | OutClose _ | OutError _ => true | _ => false end) out.

Lemma data_frames_app l k : data_frames (l ++ k) = data_frames l ++ data_frames k.
Proof. apply omap_app. Qed.
Lemma stream_bytes_app l k : stream_bytes (l ++ k) = stream_bytes l + stream_bytes k.
Proof. apply sum_by_app. Qed.
Lemma stream_bytes_nonneg l : 0 <= stream_bytes l.
Proof. apply sum_by_nonneg. intros. apply zlen_nonneg. Qed.

(** Steps that neither take chunks nor send any. *)
Record quiet (s s' : StreamSender) : Prop := mkQuiet {
  q_link : ss_link s' = ss_link s;
  q_config : ss_config s' = ss_config s;
  q_buffer : ss_buffer s' = ss_buffer s;
  q_bytes : ss_buffer_bytes s' = ss_buffer_bytes s;
  q_inflight : ss_inflight s' = ss_inflight s;
  q_next : ss_next_sequence s' = ss_next_sequence s;
  q_frames : data_frames (ss_out s') = data_frames (ss_out s)
}.
#[local] Hint Constructors quiet : hpa.

Lemma quiet_trans s1 s2 s3 : quiet s1 s2 -> quiet s2 s3 -> quiet s1 s3.
Proof. intros [] []. split; congruence. Qed.
Lemma quiet_state s st : quiet s (set_sender_state s st).
Proof. by split. Qed.
Lemma quiet_emit s o : data_frames o = [] -> quiet s (sender_emit s o).
Proof. intros E. split; try done. simpl. by rewrite data_frames_app, E, app_nil_r. Qed.
Lemma quiet_frame s o : data_frames [o] = [] -> quiet s (send_frame_out s o).
Proof. intros E. unfold send_frame_out. destruct (ss_link s); [by apply quiet_emit|by split]. Qed.
Lemma quiet_close s : quiet s (set_sender_state (send_close_to_receiver s) ST_Closed).
Proof. eapply quiet_trans; [|apply quiet_state]. by apply quiet_frame. Qed.
Lemma quiet_error s code d : quiet s (set_sender_state (send_error_to_receiver code d s) ST_Error).
Proof. eapply quiet_trans; [|apply quiet_state]. by apply quiet_frame. Qed.
Lemma quiet_timer s : quiet s (reset_idle_timer s) /\ ss_window (reset_idle_timer s) = ss_window s /\ ss_state (reset_idle_timer s) = ss_state s.
Proof.
  unfold reset_idle_timer, schedule_idle_timer. destruct (ss_timer s); simpl; destruct (_ =? 0); (split; [|done]); split; try done; simpl;
    rewrite ?data_frames_app; change (data_frames [OutTimerSet]) with (@nil StreamDataFrame);
    change (data_frames [OutTimerCancelled]) with (@nil StreamDataFrame); by rewrite ?app_nil_r.
Qed.

(** *** Sequence numbers *)

Definition numbered (fs : list StreamDataFrame) : Prop := forall i f, fs !! i = Some f -> sd_sequence f = Z.of_nat i + 1.

Record seq_inv (acc : list Chunk) (s : StreamSender) : Prop := mkSeqInv {
  qi_link : ss_link s = true;
  qi_acc : acc = sent_chunks s ++ ss_buffer s;
  qi_numbered : numbered (data_frames (ss_out s));
  qi_next : ss_next_sequence s = zlen (data_frames (ss_out s)) + 1
}.

Lemma seq_inv_quiet acc s s' : quiet s s' -> seq_inv acc s -> seq_inv acc s'.
Proof. intros [E1 _ E2 _ _ E3 E4] [H1 H2 H3 H4]. split; unfold sent_chunks in *; rewrite ?E1, ?E2, ?E3, ?E4; done. Qed.

Lemma seq_inv_send acc c rest s :
  seq_inv acc s -> ss_buffer s = c :: rest -> zlen acc < UINT64_MAX -> seq_inv acc (send_chunk c rest s).
Proof.
  intros [Hl Ha Hn Hs] Hb Hlen. unfold send_chunk, send_frame_out. simpl. rewrite Hl. set (fs := data_frames (ss_out s)) in *.
  assert (E : data_frames (ss_out s ++ [OutData (data_frame_of s c)]) = fs ++ [data_frame_of s c]) by apply data_frames_app.
  assert (Hfs : zlen fs < zlen acc).
  { rewrite Ha, Hb. unfold sent_chunks, zlen. fold fs. rewrite length_app, length_fmap. simpl. lia. }
  split; simpl; rewrite ?E; [done| | |].
  - rewrite Ha, Hb. unfold sent_chunks. simpl. rewrite E. fold fs. rewrite fmap_app, <- app_assoc. simpl. do 2 f_equal. by destruct c.
  - intros i f Hf. apply lookup_app_Some in Hf as [Hf|[Hi Hf]]; [by apply Hn|]. apply list_lookup_singleton_Some in Hf as [Hi0 <-]. simpl. rewrite Hs.
    unfold zlen. lia.
  - rewrite Hs. pose proof (zlen_nonneg fs). unfold UINT64_MAX in *. rewrite u64_small by lia. unfold zlen. rewrite length_app. simpl. lia.
Qed.

Lemma send_chunk_buffer c rest s : ss_buffer (send_chunk c rest s) = rest.
Proof. unfold send_chunk, send_frame_out. simpl. by destruct (ss_link s). Qed.

Lemma seq_inv_loop acc buf : forall s,
  seq_inv acc s -> ss_buffer s = buf -> zlen acc < UINT64_MAX -> seq_inv acc (send_loop buf s).2.
Proof.
  induction buf as [|c rest IH]; intros s Hi Hb Hlen; [done|]. simpl. destruct (may_send s); [|done]. simpl.
  apply IH; [by apply seq_inv_send|apply send_chunk_buffer|done].
Qed.

Lemma seq_inv_pending acc s : seq_inv acc s -> zlen acc < UINT64_MAX -> seq_inv acc (send_pending_chunks s).
Proof.
  intros Hi Hlen. unfold send_pending_chunks. pose proof (seq_inv_loop acc (ss_buffer s) s Hi eq_refl Hlen) as Hl.
  destruct (send_loop _ s) as [any s']. destruct (any && _ && _); [|done]. by eapply seq_inv_quiet; [apply quiet_close|].
Qed.

(** *** Histories *)

Definition taken (m : Chunk) (s : StreamSender) : list Chunk := if (TypeTag_User <=? m.1) && chunk_fits m s then [m] else [].

Section History.
Context (parse_data : list Z -> option StreamDataFrame) (parse_ack : list Z -> option StreamAckFrame)
        (parse_close : list Z -> option StreamCloseFrame) (parse_error : list Z -> option StreamErrorFrame).
Notation behave := (sender_behavior parse_ack parse_close parse_error).

(** The chunks that the sender took into its buffer, and its state. *)
Fixpoint sender_history (ms : list Chunk) (s : StreamSender) : list Chunk * StreamSender :=
  match ms with
  | [] => ([], s)
  | m :: ms => let '(acc, s') := sender_history ms (behave m s) in (taken m s ++ acc, s')
  end.

Lemma seq_inv_behave acc m s : seq_inv acc s -> zlen (acc ++ taken m s) < UINT64_MAX -> seq_inv (acc ++ taken m s) (behave m s).
Proof.
  intros Hi Hlen. destruct m as [tag payload].
  assert (Q : tag < TypeTag_User -> taken (tag, payload) s = []).
  { intros Ht. unfold taken. simpl. by rewrite (proj2 (Z.leb_gt _ _)) by done. }
  unfold sender_behavior. repeat (destruct (tag =? _) eqn:?E; bool_to_prop; [rewrite Q in * by (subst tag; done); rewrite app_nil_r in *|]).
  - destruct (parse_ack payload) as [a|]; [|done]. unfold handle_stream_ack.
    set (s1 := mkSender _ _ _ _ _ _ _ _ _ _ _ _). assert (H1 : seq_inv acc (reset_idle_timer s1)).
    { eapply seq_inv_quiet; [apply quiet_timer|]. by destruct Hi; split. }
    destruct (_ || _); [by apply seq_inv_pending|done].
  - destruct (parse_close payload); [|done]. by eapply seq_inv_quiet; [apply quiet_state|].
  - destruct (parse_error payload); [|done]. by eapply seq_inv_quiet; [apply quiet_state|].
  - unfold handle_internal_close. destruct (_ && _); [done|].
    assert (H1 : seq_inv acc (send_pending_chunks (set_sender_state s ST_Closing))).
    { apply seq_inv_pending; [|done]. by eapply seq_inv_quiet; [apply quiet_state|]. }
    destruct (_ && _); [|done]. by eapply seq_inv_quiet; [apply quiet_close|].
  - unfold handle_internal_error. destruct (_ || _); [done|]. by eapply seq_inv_quiet; [apply quiet_error|].
  - unfold on_idle_timeout. destruct (_ || _); [|done]. by eapply seq_inv_quiet; [apply quiet_error|].
  - destruct (TypeTag_User <=? tag) eqn:Et; [|unfold taken in *; simpl in *; rewrite Et in *; by rewrite app_nil_r in *].
    unfold enqueue_chunk, taken in *. simpl in *. rewrite Et in *. simpl in *. destruct (chunk_fits (tag, payload) s); simpl; [|by rewrite app_nil_r].
    apply seq_inv_pending; [|done]. eapply seq_inv_quiet; [apply quiet_timer|]. destruct Hi as [Hl Ha Hn Hs]. split; try done. simpl.
    unfold sent_chunks in *. simpl. by rewrite Ha, <- app_assoc.
Qed.

Lemma sender_history_seq ms : forall acc s,
  seq_inv acc s -> zlen (acc ++ (sender_history ms s).1) < UINT64_MAX -> seq_inv (acc ++ (sender_history ms s).1) (sender_history ms s).2.
Proof.
  induction ms as [|m ms IH]; intros acc s Hi Hlen; simpl in *; [by rewrite app_nil_r|].
  specialize (IH (acc ++ taken m s) (behave m s)). destruct (sender_history ms (behave m s)) as [acc' s']. simpl in *. rewrite app_assoc in *.
  apply IH; [|done]. apply seq_inv_behave; [done|]. unfold zlen in *. rewrite length_app in Hlen. lia.
Qed.
Lemma sender_history_tags ms : forall s, Forall (fun c => TypeTag_User <= c.1) (sender_history ms s).1.
Proof.
  induction ms as [|m ms IH]; intros s; [by constructor|]. simpl. specialize (IH (behave m s)).
  destruct (sender_history ms (behave m s)) as [acc s']. simpl in *. apply Forall_app. split; [|done]. unfold taken.
  destruct (TypeTag_User <=? m.1) eqn:E; [|by constructor]. simpl. destruct (chunk_fits m s); repeat constructor. by bool_to_prop.
Qed.

Lemma sender_start_seq sid c : seq_inv [] (sender_start sid c true).
Proof.
  unfold sender_start, schedule_idle_timer. simpl. destruct (_ =? 0); (split; [done..| |done]); intros i f Hf; by destruct i.
Qed.

(** ** What the target gets *)

(** The data frames that reach the receiver, with the pressure of the target when
    each is handled. *)
Fixpoint receiver_history (fs : list (StreamDataFrame * option Z)) (r : StreamReceiver) : list ReceiverOut * StreamReceiver :=
  match fs with
  | [] => ([], r)
  | (f, pressure) :: fs => let '(o, r) := receive_data pressure f r in let '(o', r) := receiver_history fs r in (o ++ o', r)
  end.
Definition delivered (out : list ReceiverOut) : list Chunk := omap (fun o => match o with ToTarget c => Some c | _ => None end) out.

Lemma receive_prefix (F : list StreamDataFrame) fs : forall k r,
  numbered F -> Forall (fun f => sd_user_tag f <> 0) F -> zlen F < UINT64_MAX -> Forall (fun x => x.1 ∈ F) fs ->
  sr_last_delivered r = Z.of_nat k -> (k <= length F)%nat ->
  let '(out, r') := receiver_history fs r in
  exists k', (k <= k' <= length F)%nat /\ sr_last_delivered r' = Z.of_nat k' /\ delivered out = take (k' - k) (drop k (chunk_of <$> F)).
Proof.
  intros k r Hnum Htags Hlen. revert k r. induction fs as [|[f pr] fs IH]; intros k r Hfs Hk Hle.
  { exists k. rewrite Nat.sub_diag. done. }
  apply Forall_cons_1 in Hfs as [Hf Hfs]. simpl in Hf |- *. unfold receive_data. unfold zlen, UINT64_MAX in Hlen. rewrite Hk, u64_small by lia.
  destruct (Z.eqb_spec (sd_sequence f) (Z.of_nat k + 1)) as [Es|Es]; simpl.
  - apply list_elem_of_lookup in Hf as [i Hi]. pose proof (Hnum i f Hi) as Ei. assert (i = k) as -> by lia.
    pose proof (lookup_lt_Some _ _ _ Hi). specialize (IH (S k)).
    set (r1 := mkReceiver _ _ _ _). specialize (IH r1 Hfs ltac:(simpl; lia) ltac:(lia)).
    destruct (receiver_history fs r1) as [out r']. destruct IH as (k' & Hk' & Hr' & Hd). exists k'. split; [lia|]. split; [done|].
    change (delivered _) with ((delivery_tag f, sd_payload f) :: delivered out). rewrite Hd.
    assert (Hcf : (chunk_of <$> F) !! k = Some (chunk_of f)) by (by rewrite list_lookup_fmap, Hi). rewrite (drop_S _ _ _ Hcf).
    replace (k' - k)%nat with (S (k' - S k)) by lia. simpl. f_equal.
    unfold chunk_of, delivery_tag. by rewrite (proj2 (Z.eqb_neq _ _)) by exact (Forall_lookup_1 _ _ _ _ Htags Hi).
  - specialize (IH k r Hfs Hk Hle). destruct (receiver_history fs r) as [out r']. exact IH.
Qed.

(** C31. Whatever the messages to the sender are, and whatever the link does to its
    frames (loss, repetition, reordering), the target is handed a prefix of the
    chunks that the sender took, in their order, each once, with their tags. *)
Theorem stream_delivers_prefix (sid : Z) (c : StreamConfig) (window : Z) (ms : list Chunk) (fs : list (StreamDataFrame * option Z)) :
  let '(acc, s) := sender_history ms (sender_start sid c true) in
  zlen acc < UINT64_MAX -> Forall (fun x => OutData x.1 ∈ ss_out s) fs ->
  exists k, delivered (receiver_history fs (receiver_new sid window)).1 = take k acc.
Proof.
  pose proof (sender_history_seq ms [] _ (sender_start_seq sid c)) as Hseq. pose proof (sender_history_tags ms (sender_start sid c true)) as Htags.
  destruct (sender_history ms (sender_start sid c true)) as [acc s]. simpl in *. intros Hlen Hfs. destruct (Hseq Hlen) as [_ Ha Hn _]. clear Hseq.
  set (F := data_frames (ss_out s)) in *.
  assert (HF : length F = length (sent_chunks s)) by (unfold sent_chunks; by rewrite length_fmap).
  assert (HtF : Forall (fun f => sd_user_tag f <> 0) F).
  { apply Forall_lookup. intros i f Hf. rewrite Ha in Htags. apply Forall_app in Htags as [Hts _].
    assert (Hc : sent_chunks s !! i = Some (chunk_of f)) by (unfold sent_chunks; fold F; by rewrite list_lookup_fmap, Hf).
    pose proof (Forall_lookup_1 _ _ _ _ Hts Hc) as Ht. unfold TypeTag_User in Ht. simpl in Ht. lia. }
  assert (Hin : Forall (fun x => x.1 ∈ F) fs).
  { eapply Forall_impl; [exact Hfs|]. intros x Hx. unfold F, data_frames. apply list_elem_of_omap. by exists (OutData x.1). }
  pose proof (receive_prefix F fs 0 (receiver_new sid window) Hn HtF) as Hr.
  assert (HlF : zlen F < UINT64_MAX) by (rewrite Ha in Hlen; unfold zlen in *; rewrite length_app in Hlen; lia).
  specialize (Hr HlF Hin eq_refl ltac:(lia)). destruct (receiver_history fs (receiver_new sid window)) as [out r'].
  destruct Hr as (k' & Hk & _ & Hd). exists k'. simpl. rewrite Hd, Nat.sub_0_r, drop_0, Ha. fold (sent_chunks s).
  rewrite take_app_le; [done|]. lia.
Qed.

(** ** Credit *)

Section Credit.
Context (W C : Z) (cfg : StreamConfig).
Context (HW : 0 <= W < 4294967296) (HC : 0 <= C < 4294967296) (Hlim : 0 <= send_buffer_limit cfg < 4294967296).

(** Chunks of at most [C] bytes, acknowledgements that grant at most [W]. *)
Definition stream_message_ok (m : Chunk) : Prop :=
  zlen m.2 <= C /\ forall a, m.1 = StreamAckTag -> parse_ack m.2 = Some a -> 0 <= sa_window a <= W.

Record byte_inv (s : StreamSender) : Prop := mkByteInv {
  bi_window : 0 <= ss_window s <= W;
  bi_config : ss_config s = cfg;
  bi_link : ss_link s = true;
  bi_chunks : Forall (fun c => zlen c.2 <= C) (ss_buffer s);
  bi_buffer : ss_buffer_bytes s = stream_bytes (ss_buffer s);
  bi_fits : stream_bytes (ss_buffer s) <= send_buffer_limit cfg;
  bi_inflight : 0 <= ss_inflight s <= Z.max 0 (W - 1) + C;
  bi_sent : ss_inflight s = stream_bytes (sent_chunks s)
}.

Lemma byte_inv_quiet s s' : quiet s s' -> ss_window s' = ss_window s -> byte_inv s -> byte_inv s'.
Proof. intros [E1 E2 E3 E4 E5 _ E6] E7 [H1 H2 Hl H3 H4 H5 H6 H7]. split; unfold sent_chunks in *; rewrite ?E1, ?E2, ?E3, ?E4, ?E5, ?E6, ?E7; done. Qed.

Lemma byte_inv_send c rest s : byte_inv s -> ss_buffer s = c :: rest -> may_send s = true -> byte_inv (send_chunk c rest s).
Proof.
  intros [H1 H2 Hl H3 H4 H5 H6 H7] Hb Hm. rewrite Hb in *. apply Forall_cons_1 in H3 as [Hc H3]. simpl in Hc.
  assert (Hroom : ss_inflight s <= Z.max 0 (W - 1)) by (unfold may_send in Hm; bool_to_prop; lia).
  assert (Esplit : stream_bytes (c :: rest) = zlen c.2 + stream_bytes rest) by (unfold stream_bytes; by rewrite sum_by_cons).
  pose proof (zlen_nonneg c.2). pose proof (stream_bytes_nonneg rest).
  unfold send_chunk, send_frame_out. simpl. rewrite Hl. split; simpl; try done; rewrite ?H4, ?u64_small by lia; try lia.
  assert (Eone : stream_bytes (chunk_of <$> data_frames [OutData (data_frame_of s c)]) = zlen c.2)
    by (change (chunk_of <$> _) with [(c.1, c.2)]; unfold stream_bytes; rewrite sum_by_cons, sum_by_nil; simpl; lia).
  rewrite H7. unfold sent_chunks. simpl. rewrite data_frames_app, fmap_app, stream_bytes_app, Eone. done.
Qed.

Lemma byte_inv_loop buf : forall s, byte_inv s -> ss_buffer s = buf -> byte_inv (send_loop buf s).2.
Proof.
  induction buf as [|c rest IH]; intros s Hi Hb; [done|]. simpl. destruct (may_send s) eqn:Em; [|done]. simpl.
  apply IH; [by apply byte_inv_send|apply send_chunk_buffer].
Qed.
Lemma window_closed s : ss_window (set_sender_state (send_close_to_receiver s) ST_Closed) = ss_window s.
Proof. unfold send_close_to_receiver, send_frame_out. simpl. by destruct (ss_link s). Qed.
Lemma window_error s code d : ss_window (set_sender_state (send_error_to_receiver code d s) ST_Error) = ss_window s.
Proof. unfold send_error_to_receiver, send_frame_out. simpl. by destruct (ss_link s). Qed.

Lemma byte_inv_pending s : byte_inv s -> byte_inv (send_pending_chunks s).
Proof.
  intros Hi. unfold send_pending_chunks. pose proof (byte_inv_loop (ss_buffer s) s Hi eq_refl) as Hl.
  destruct (send_loop _ s) as [any s']. destruct (any && _ && _); [|done]. by eapply byte_inv_quiet; [apply quiet_close|apply window_closed|].
Qed.

Lemma byte_inv_enqueue c s : byte_inv s -> zlen c.2 <= C -> byte_inv (enqueue_chunk c s).
Proof.
  intros Hi Hc. unfold enqueue_chunk. destruct (chunk_fits c s) eqn:Ef; simpl; [|done]. apply byte_inv_pending.
  pose proof (quiet_timer (set_sender_buffer s (ss_buffer s ++ [c]) (u64 (ss_buffer_bytes s + zlen c.2)))) as (Hq & Hw & _).
  eapply byte_inv_quiet; [exact Hq|exact Hw|]. destruct Hi as [H1 H2 Hl H3 H4 H5 H6 H7]. pose proof (zlen_nonneg c.2). pose proof (stream_bytes_nonneg (ss_buffer s)).
  unfold chunk_fits in Ef. apply andb_true_iff in Ef as [_ Ef]. apply negb_true_iff, Z.ltb_ge in Ef. rewrite H2, H4, u64_small in Ef by lia.
  assert (Esplit : stream_bytes (ss_buffer s ++ [c]) = stream_bytes (ss_buffer s) + zlen c.2)
    by (rewrite stream_bytes_app; unfold stream_bytes at 2; rewrite sum_by_cons, sum_by_nil; lia).
  split; simpl; try done; rewrite ?H4, ?u64_small, ?Esplit by lia; try lia. apply Forall_app. by split; [|constructor].
Qed.

Lemma byte_inv_behave m s : byte_inv s -> stream_message_ok m -> byte_inv (behave m s).
Proof.
  intros Hi [Hc Hw]. destruct m as [tag payload]. simpl in *. unfold sender_behavior.
  repeat (destruct (tag =? _) eqn:?E; bool_to_prop; [subst tag|]).
  - destruct (parse_ack payload) as [a|] eqn:Ea; [|done]. unfold handle_stream_ack. set (s1 := mkSender _ _ _ _ _ _ _ _ _ _ _ _).
    assert (H1 : byte_inv (reset_idle_timer s1)).
    { pose proof (quiet_timer s1) as (Hq & Hwin & _). eapply byte_inv_quiet; [exact Hq|exact Hwin|]. destruct Hi. split; try done. simpl. by apply Hw. }
    destruct (_ || _); [by apply byte_inv_pending|done].
  - destruct (parse_close payload); [|done]. by eapply byte_inv_quiet; [apply quiet_state| |].
  - destruct (parse_error payload); [|done]. by eapply byte_inv_quiet; [apply quiet_state| |].
  - unfold handle_internal_close. destruct (_ && _); [done|].
    assert (H1 : byte_inv (send_pending_chunks (set_sender_state s ST_Closing))).
    { apply byte_inv_pending. by eapply byte_inv_quiet; [apply quiet_state| |]. }
    destruct (_ && _); [|done]. by eapply byte_inv_quiet; [apply quiet_close|apply window_closed|].
  - unfold handle_internal_error. destruct (_ || _); [done|]. by eapply byte_inv_quiet; [apply quiet_error|apply window_error|].
  - unfold on_idle_timeout. destruct (_ || _); [|done]. by eapply byte_inv_quiet; [apply quiet_error|apply window_error|].
  - destruct (TypeTag_User <=? tag); [by apply byte_inv_enqueue|done].
Qed.

Lemma sender_history_bytes ms : forall s, byte_inv s -> Forall stream_message_ok ms -> byte_inv (sender_history ms s).2.
Proof.
  induction ms as [|m ms IH]; intros s Hi Hms; [done|]. apply Forall_cons_1 in Hms as [Hm Hms]. simpl.
  specialize (IH (behave m s) (byte_inv_behave m s Hi Hm) Hms). by destruct (sender_history ms (behave m s)).
Qed.
End Credit.

(** The bytes that were sent and not acknowledged, as the flow control contract of the
    protocol counts them: acknowledgements are cumulative. *)
Definition unacknowledged (s : StreamSender) : Z :=
  sum_by (fun f => if ss_last_acked s <? sd_sequence f then zlen (sd_payload f) else 0) (data_frames (ss_out s)).
Lemma unacknowledged_sent s : 0 <= unacknowledged s <= stream_bytes (sent_chunks s).
Proof.
  unfold unacknowledged, stream_bytes, sent_chunks. induction (data_frames (ss_out s)) as [|f fs IH]; [done|].
  rewrite fmap_cons, !sum_by_cons. simpl. pose proof (zlen_nonneg (sd_payload f)). destruct (_ <? _); lia.
Qed.
(** A sender that may not send leaves its chunks in the buffer. *)
Lemma enqueue_waits c s : may_send s = false -> sent_chunks (enqueue_chunk c s) = sent_chunks s.
Proof.
  intros Hm. unfold enqueue_chunk. destruct (chunk_fits c s); [|done]. simpl.
  set (s0 := set_sender_buffer s _ _). destruct (quiet_timer s0) as ([_ _ _ _ Ei _ Ef] & Ew & Es). set (s1 := reset_idle_timer s0) in *.
  assert (Hm1 : may_send s1 = false) by (unfold may_send in *; by rewrite Es, Ew, Ei).
  assert (E : send_loop (ss_buffer s1) s1 = (false, s1)) by (destruct (ss_buffer s1); [done|]; simpl; by rewrite Hm1).
  unfold send_pending_chunks. rewrite E. simpl. unfold sent_chunks. by rewrite Ef.
Qed.

(** C32. The flow control contract of the sender.  Whatever messages arrive, the bytes
    that it has sent and that are not acknowledged stay below the largest window
    granted, but for one last chunk; while they fill the window, or the window is
    zero and some are outstanding, a chunk that is written waits in the buffer; the
    buffer keeps to its limit and its size is counted right; and every chunk that was
    taken is either sent or waiting, in order. *)
Theorem stream_within_window (W C sid : Z) (c : StreamConfig) (ms : list Chunk) :
  0 <= W < 4294967296 -> 0 <= C < 4294967296 -> 0 <= send_buffer_limit c < 4294967296 -> Forall (stream_message_ok W C) ms ->
  zlen (sender_history ms (sender_start sid c true)).1 < UINT64_MAX ->
  let '(acc, s) := sender_history ms (sender_start sid c true) in
  unacknowledged s <= Z.max 0 (W - 1) + C /\
  (forall m, ss_window s <= unacknowledged s -> 0 < unacknowledged s -> sent_chunks (enqueue_chunk m s) = sent_chunks s) /\
  ss_buffer_bytes s = stream_bytes (ss_buffer s) /\ stream_bytes (ss_buffer s) <= send_buffer_limit c /\
  acc = sent_chunks s ++ ss_buffer s.
Proof.
  intros HW HC Hlim Hms Hlen.
  assert (H0 : byte_inv W C c (sender_start sid c true)).
  { unfold sender_start, schedule_idle_timer. simpl. destruct (_ =? 0); split; simpl; try done; try lia; unfold stream_bytes; rewrite sum_by_nil; lia. }
  pose proof (sender_history_bytes W C c HW HC Hlim ms _ H0 Hms) as Hi.
  pose proof (sender_history_seq ms [] _ (sender_start_seq sid c) Hlen) as Hseq.
  destruct (sender_history ms (sender_start sid c true)) as [acc s]. simpl in Hi, Hseq.
  destruct Hi as [H1 _ _ _ H4 H5 H6 H7]. pose proof (unacknowledged_sent s) as Hu. rewrite <- H7 in Hu.
  split; [lia|]. split; [|split; [done|split; [lia|exact (qi_acc _ _ Hseq)]]].
  intros m Hfull Hpos. apply enqueue_waits. unfold may_send.
  destruct (decide (ss_window s = 0)) as [Ez|Ez].
  - rewrite Ez. rewrite (proj2 (Z.ltb_lt 0 (ss_inflight s))) by lia. simpl. by rewrite !andb_false_r.
  - rewrite (proj2 (Z.ltb_lt 0 (ss_window s))), (proj2 (Z.leb_le _ (ss_inflight s))) by lia. simpl. by rewrite andb_false_r.
Qed.

(** The bytes that the sender has sent stay within the largest window granted plus one
    chunk altogether: acknowledgements do not lower what it counts as in flight,
    against the contract, which subtracts what is acknowledged, so a stream stops
    for good once it has carried that much. *)
Lemma stream_carries_one_window (W C sid : Z) (c : StreamConfig) (ms : list Chunk) :
  0 <= W < 4294967296 -> 0 <= C < 4294967296 -> 0 <= send_buffer_limit c < 4294967296 -> Forall (stream_message_ok W C) ms ->
  let s := (sender_history ms (sender_start sid c true)).2 in
  stream_bytes (sent_chunks s) <= Z.max 0 (W - 1) + C /\ ss_inflight s = stream_bytes (sent_chunks s) /\
  ss_buffer_bytes s = stream_bytes (ss_buffer s) /\ stream_bytes (ss_buffer s) <= send_buffer_limit c.
Proof.
  intros HW HC Hlim Hms s.
  assert (H0 : byte_inv W C c (sender_start sid c true)).
  { unfold sender_start, schedule_idle_timer. simpl. destruct (_ =? 0); split; simpl; try done; try lia; unfold stream_bytes; rewrite sum_by_nil; lia. }
  destruct (sender_history_bytes W C c HW HC Hlim ms _ H0 Hms) as [_ _ _ _ H4 H5 H6 H7]. fold s in H4, H5, H6, H7.
  rewrite <- H7. lia.
Qed.

(** ** Draining and closing *)

(** A window wider than all that was sent and all that waits empties the buffer. *)
Lemma wide_window_drains W C cfg (HW : 0 <= W < 4294967296) (HC : 0 <= C < 4294967296) (Hlim : 0 <= send_buffer_limit cfg < 4294967296) buf :
  forall s, byte_inv W C cfg s -> ss_buffer s = buf -> ss_state s = ST_Streaming \/ ss_state s = ST_Closing ->
  ss_inflight s + stream_bytes buf < ss_window s -> ss_buffer (send_loop buf s).2 = [].
Proof.
  induction buf as [|c rest IH]; intros s Hi Hb Hst Hroom; [done|].
  assert (Esplit : stream_bytes (c :: rest) = zlen c.2 + stream_bytes rest) by (unfold stream_bytes; by rewrite sum_by_cons).
  pose proof (zlen_nonneg c.2). pose proof (stream_bytes_nonneg rest). pose proof (bi_inflight _ _ _ _ Hi) as Hin.
  assert (Em : may_send s = true).
  { unfold may_send, accepts_chunks. rewrite (proj2 (Z.leb_gt (ss_window s) (ss_inflight s))) by lia. rewrite (proj2 (Z.eqb_neq (ss_window s) 0)) by lia.
    rewrite !andb_false_r. by destruct Hst as [-> | ->]. }
  simpl. rewrite Em. simpl. pose proof (byte_inv_send _ _ _ HW HC Hlim _ _ _ Hi Hb Em) as Hi'.
  assert (E : ss_state (send_chunk c rest s) = ss_state s /\ ss_window (send_chunk c rest s) = ss_window s /\
              ss_inflight (send_chunk c rest s) = u64 (ss_inflight s + zlen c.2)).
  { unfold send_chunk, send_frame_out. simpl. by destruct (ss_link s). }
  destruct E as (E1 & E2 & E3). apply IH; [done|apply send_chunk_buffer|by rewrite E1|]. pose proof (bi_window _ _ _ _ Hi). rewrite E2, E3, u64_small by lia. lia.
Qed.

(** A sender in a state from which it will not send: nothing waits, and it is
    neither open nor opening. *)
Definition spent (s : StreamSender) : Prop := ss_buffer s = [] /\ ss_state s <> ST_Streaming /\ ss_state s <> ST_Opening.
Definition no_new_frames (s s' : StreamSender) : Prop := wire_frames (ss_out s') = wire_frames (ss_out s).

Lemma wire_frames_app l k : wire_frames (l ++ k) = wire_frames l ++ wire_frames k.
Proof. apply List.filter_app. Qed.

Lemma timer_no_frames s : no_new_frames s (reset_idle_timer s).
Proof.
  unfold no_new_frames, reset_idle_timer, schedule_idle_timer. destruct (ss_timer s); simpl; destruct (_ =? 0); simpl; rewrite ?wire_frames_app; simpl;
    by rewrite ?app_nil_r.
Qed.
Lemma pending_empty s : ss_buffer s = [] -> send_pending_chunks s = s.
Proof. intros E. unfold send_pending_chunks. by rewrite E. Qed.

Definition control (m : Chunk) : Prop := m.1 < TypeTag_User /\ m.1 <> InternalErrorTag.

Lemma spent_behave m s : spent s -> control m -> spent (behave m s) /\ no_new_frames s (behave m s).
Proof.
  intros (Hb & H1 & H2) [Ht He]. destruct m as [tag payload]. simpl in *. unfold sender_behavior.
  assert (B : forall st, bool_decide (ss_state s = st) = true -> ss_state s = st) by (intros st E; by apply bool_decide_eq_true_1 in E).
  repeat (destruct (tag =? _) eqn:?E; bool_to_prop).
  - destruct (parse_ack payload) as [a|]; [|done]. unfold handle_stream_ack. rewrite (bool_decide_eq_false_2 (ss_state s = ST_Opening)) by done.
    set (s1 := mkSender _ _ _ _ _ _ _ _ _ _ _ _). destruct (quiet_timer s1) as ([_ _ Eb _ _ _ _] & _ & Es). pose proof (timer_no_frames s1) as Hn.
    assert (Hs : spent (reset_idle_timer s1)) by (split; [by rewrite Eb|by rewrite Es]).
    destruct (_ || _); [rewrite pending_empty by (by rewrite Eb)|]; done.
  - destruct (parse_close payload); [|done]. done.
  - destruct (parse_error payload); [|done]. done.
  - unfold handle_internal_close. rewrite !bool_decide_eq_false_2 by done. done.
  - done.
  - unfold on_idle_timeout. rewrite !bool_decide_eq_false_2 by done. done.
  - rewrite (proj2 (Z.leb_gt _ _)) by done. done.
Qed.

Lemma spent_history ms : forall s, spent s -> Forall control ms ->
  let s' := (sender_history ms s).2 in spent s' /\ no_new_frames s s'.
Proof.
  induction ms as [|m ms IH]; intros s Hs Hms; [done|]. apply Forall_cons_1 in Hms as [Hm Hms]. destruct (spent_behave m s Hs Hm) as [Hs1 Hn1].
  simpl. specialize (IH (behave m s) Hs1 Hms). destruct (sender_history ms (behave m s)) as [acc s']. simpl in *. destruct IH as [? Hn2].
  split; [done|]. unfold no_new_frames in *. congruence.
Qed.

(** When everything written has been sent, closing sends nothing, then or later:
    the receiver is never told that the stream has ended. *)
Lemma drained_stream_never_closes s ms payload :
  ss_state s = ST_Streaming -> ss_buffer s = [] -> ss_inflight s <> 0 -> Forall control ms ->
  no_new_frames s (sender_history ((InternalCloseTag, payload) :: ms) s).2.
Proof.
  intros Hst Hb Hin Hms. cbn [sender_history]. set (s1 := set_sender_state s ST_Closing).
  assert (E : behave (InternalCloseTag, payload) s = s1).
  { unfold sender_behavior. simpl. unfold handle_internal_close. rewrite Hst. simpl. rewrite pending_empty by done. simpl. rewrite (bool_decide_eq_true_2 _ Hb).
    by rewrite (proj2 (Z.eqb_neq _ _)) by done. }
  rewrite E. assert (Hs1 : spent s1) by (by split). pose proof (spent_history ms s1 Hs1 Hms) as Hh.
  destruct (sender_history ms s1) as [acc s']. simpl in *. by destruct Hh as [_ Hn].
Qed.

(** A close that is handled before the chunks written ahead of it (its tag puts it
    in the system lane, theirs in a user lane) ends the stream and loses them. *)
Lemma early_close_loses_chunks sid c payload ms :
  Forall (fun m => TypeTag_User <= m.1) ms ->
  let '(acc, s) := sender_history ((InternalCloseTag, payload) :: ms) (sender_start sid c true) in acc = [] /\ sent_chunks s = [].
Proof.
  intros Hms. cbn [sender_history]. set (s0 := sender_start sid c true).
  assert (H0 : ss_state (behave (InternalCloseTag, payload) s0) = ST_Closed /\ sent_chunks (behave (InternalCloseTag, payload) s0) = []).
  { unfold s0, sender_start, schedule_idle_timer, sender_behavior, handle_internal_close. simpl. by destruct (_ =? 0). }
  assert (Hstay : forall s, ss_state s = ST_Closed -> sent_chunks s = [] ->
            let '(acc, s') := sender_history ms s in acc = [] /\ sent_chunks s' = []).
  { induction Hms as [|m ms Hm Hms IH]; intros s Hst Hsent; [done|]. simpl.
    assert (Hf : chunk_fits m s = false) by (unfold chunk_fits, accepts_chunks; by rewrite Hst).
    assert (E : behave m s = s).
    { destruct m as [tag payload']. simpl in Hm. unfold sender_behavior, StreamAckTag, StreamCloseTag, StreamWireErrorTag, InternalCloseTag, InternalErrorTag,
        InternalTimeoutTag, TypeTag_User in *. rewrite !(proj2 (Z.eqb_neq tag _)) by lia. rewrite (proj2 (Z.leb_le _ _)) by done.
      unfold enqueue_chunk. by rewrite Hf. }
    rewrite E. specialize (IH s Hst Hsent). destruct (sender_history ms s) as [acc s']. unfold taken. rewrite Hf, andb_false_r. exact IH. }
  destruct H0 as [Hst Hsent]. specialize (Hstay _ Hst Hsent). destruct (sender_history ms _) as [acc s']. exact Hstay.
Qed.
End History.

(** ** The handle of the user *)

Record StreamHandle := mkHandle { sh_sender : Z; sh_stream_id : Z; sh_bound : bool; sh_closed : bool }.
Definition handle_of (sender sid : Z) : StreamHandle := mkHandle sender sid true false.

Section Handle.
(** The delivery into the mailbox of the sender actor. *)
Context {World : Type} (deliver : World -> Z -> Chunk -> bool * World).

Definition handle_usable (h : StreamHandle) : bool := negb (sh_closed h) && sh_bound h.
Definition close_handle (h : StreamHandle) : StreamHandle := mkHandle (sh_sender h) (sh_stream_id h) (sh_bound h) true.

Definition handle_write (c : Chunk) (h : StreamHandle) (w : World) : bool * StreamHandle * World :=
  if negb (handle_usable h) then (false, h, w) else let '(ok, w) := deliver w (sh_sender h) c in (ok, h, w).
Definition handle_close (h : StreamHandle) (w : World) : bool * StreamHandle * World :=
  if negb (handle_usable h) then (false, h, w) else (true, close_handle h, (deliver w (sh_sender h) (InternalCloseTag, [])).2).

(** The code, least significant byte first, then the text. *)
Definition error_payload (code : Z) (text : list Z) : list Z :=
  [code mod 256; code / 256 mod 256; code / 65536 mod 256; code / 16777216 mod 256] ++ text.
Definition handle_error (code : Z) (text : list Z) (h : StreamHandle) (w : World) : bool * StreamHandle * World :=
  if negb (handle_usable h) then (false, h, w) else (true, close_handle h, (deliver w (sh_sender h) (InternalErrorTag, error_payload code text)).2).

Definition handle_is_open (h : StreamHandle) : bool := negb (sh_stream_id h =? 0) && negb (sh_closed h).
(** What a handle that was moved from is left as. *)
Definition moved_from (h : StreamHandle) : StreamHandle := mkHandle (sh_sender h) 0 false true.

(** A handle that was closed, aborted or moved from delivers nothing more. *)
Lemma closed_handle_inert h w c code text :
  sh_closed h = true -> handle_write c h w = (false, h, w) /\ handle_close h w = (false, h, w) /\ handle_error code text h w = (false, h, w).
Proof. intros E. unfold handle_write, handle_close, handle_error, handle_usable. by rewrite E. Qed.
End Handle.

(** The code and the text of an abort reach the receiver as they were given. *)
Lemma abort_reaches_receiver code text s :
  0 <= code < 4294967296 -> ss_link s = true -> ss_state s <> ST_Closed -> ss_state s <> ST_Error ->
  ss_out (handle_internal_error (error_payload code text) s) = ss_out s ++ [OutError (mkStreamError (ss_stream_id s) code (text_of text))].
Proof.
  intros Hc Hl H1 H2. unfold handle_internal_error. rewrite !bool_decide_eq_false_2 by done. simpl.
  unfold send_error_to_receiver, send_frame_out. rewrite Hl. simpl. do 4 f_equal. unfold error_code_of.
  assert (E : 4 <=? zlen (error_payload code text) = true) by (apply Z.leb_le; unfold zlen, error_payload; simpl; lia). rewrite E.
  change (take 4 (error_payload code text)) with [code mod 256; code / 256 mod 256; code / 65536 mod 256; code / 16777216 mod 256]. simpl.
  replace (code / 65536) with (code / 256 / 256) by (by rewrite Z.div_div by lia).
  replace (code / 16777216) with (code / 256 / 256 / 256) by (by rewrite !Z.div_div by lia).
  clear -Hc. Z.to_euclidean_division_equations. lia.
Qed.

(** ** The registry of routes *)

Record StreamRegistry := mkStreamRegistry { reg_senders : gmap Z Z; reg_receivers : gmap Z Z }.
Definition registry_register_sender (sid actor : Z) (r : StreamRegistry) : StreamRegistry := mkStreamRegistry (<[sid := actor]> (reg_senders r)) (reg_receivers r).
Definition registry_register_receiver (sid actor : Z) (r : StreamRegistry) : StreamRegistry := mkStreamRegistry (reg_senders r) (<[sid := actor]> (reg_receivers r)).
Definition find_sender (sid : Z) (r : StreamRegistry) : option Z := reg_senders r !! sid.
Definition find_receiver (sid : Z) (r : StreamRegistry) : option Z := reg_receivers r !! sid.
Definition registry_take (sid : Z) (r : StreamRegistry) : option Z * option Z * StreamRegistry :=
  (reg_senders r !! sid, reg_receivers r !! sid, mkStreamRegistry (delete sid (reg_senders r)) (delete sid (reg_receivers r))).
Definition sender_count (r : StreamRegistry) : Z := Z.of_nat (size (reg_senders r)).
Definition receiver_count (r : StreamRegistry) : Z := Z.of_nat (size (reg_receivers r)).

(** Routes are handed out once. *)
Lemma routes_taken_once sid r : let '(a, b, r') := registry_take sid r in
  a = find_sender sid r /\ b = find_receiver sid r /\ find_sender sid r' = None /\ find_receiver sid r' = None /\
  forall other, other <> sid -> find_sender other r' = find_sender other r /\ find_receiver other r' = find_receiver other r.
Proof.
  unfold registry_take, find_sender, find_receiver. simpl. rewrite !lookup_delete_eq. split; [done|]. split; [done|]. split; [done|]. split; [done|].
  intros other Hne. by rewrite !lookup_delete_ne.
Qed.

(** ** Witnesses and behaviours at the edges *)

Definition stream_demo_chunk (n : Z) : Chunk := (4096 + n, [n; n; n]).
Definition stream_demo_ack (payload : list Z) : option StreamAckFrame := match payload with [w] => Some (mkStreamAck 1 0 w) | [n; w] => Some (mkStreamAck 1 n w) | _ => None end.
Definition stream_demo (ms : list Chunk) : list Chunk * StreamSender :=
  sender_history stream_demo_ack (fun _ => None) (fun _ => None) ms (sender_start 1 default_stream_config true).
Definition stream_demo_frame (seq n : Z) : StreamDataFrame := mkStreamData 1 seq [n; n; n] (4096 + n).

(** Frames that arrive twice and out of order. *)
Lemma stream_delivers_prefix_witness :
  let ms := [stream_demo_chunk 1; stream_demo_chunk 2; (StreamAckTag, [100]); stream_demo_chunk 3] in
  let fs := [(stream_demo_frame 2 2, Some 0); (stream_demo_frame 1 1, Some 0); (stream_demo_frame 1 1, Some 500000); (stream_demo_frame 2 2, None)] in
  exists k, delivered (receiver_history fs (receiver_new 1 65536)).1 = take k (stream_demo ms).1 /\
  (stream_demo ms).1 = [stream_demo_chunk 1; stream_demo_chunk 2; stream_demo_chunk 3] /\
  delivered (receiver_history fs (receiver_new 1 65536)).1 = [stream_demo_chunk 1; stream_demo_chunk 2].
Proof.
  intros ms fs. pose proof (stream_delivers_prefix stream_demo_ack (fun _ => None) (fun _ => None) 1 default_stream_config 65536 ms fs) as H.
  change (sender_history _ _ _ ms _) with (stream_demo ms) in H. destruct (stream_demo ms) as [acc s] eqn:E. destruct H as [k Hk].
  - vm_compute in E. injection E as <- _. by vm_compute.
  - vm_compute in E. injection E as _ <-. simpl. repeat (constructor; [set_solver|]). constructor.
  - exists k. split; [exact Hk|]. vm_compute in E. injection E as <- _. split; by vm_compute.
Defined.

Lemma stream_within_window_witness :
  let ms := [stream_demo_chunk 1; (StreamAckTag, [5]); stream_demo_chunk 2; stream_demo_chunk 3] in
  let s := (stream_demo ms).2 in
  unacknowledged s <= 7 /\ (forall m, ss_window s <= unacknowledged s -> 0 < unacknowledged s -> sent_chunks (enqueue_chunk m s) = sent_chunks s) /\
  ss_buffer s = [stream_demo_chunk 3].
Proof.
  intros ms. assert (Hms : Forall (stream_message_ok stream_demo_ack 5 3) ms).
  { repeat (apply Forall_cons; split; [split; [by vm_compute|intros a Ht Ha; vm_compute in Ht, Ha; by simplify_eq]|]). by apply Forall_nil. }
  pose proof (stream_within_window stream_demo_ack (fun _ => None) (fun _ => None) 5 3 1 default_stream_config ms ltac:(lia) ltac:(lia) ltac:(simpl; lia) Hms) as H.
  change (sender_history _ _ _ ms _) with (stream_demo ms) in H. destruct (stream_demo ms) as [acc s] eqn:E. destruct H as (H1 & H2 & _).
  - vm_compute in E. injection E as <- _. by vm_compute.
  - cbn [snd]. split; [exact H1|]. split; [exact H2|]. vm_compute in E. injection E as _ <-. by vm_compute.
Defined.

(** Two chunks of a window are sent and acknowledged, and the stream stands still:
    the third chunk is not sent, whatever acknowledgements follow. *)
Lemma acknowledged_stream_stalls :
  let ms := [stream_demo_chunk 1; (StreamAckTag, [5]); stream_demo_chunk 2; stream_demo_chunk 3; (StreamAckTag, [2; 5]); stream_demo_chunk 4] in
  ss_last_acked (stream_demo ms).2 = 2 /\ unacknowledged (stream_demo ms).2 = 0 /\
  stream_bytes (sent_chunks (stream_demo ms).2) <= 7 /\ sent_chunks (stream_demo ms).2 = [stream_demo_chunk 1; stream_demo_chunk 2] /\
  ss_buffer (stream_demo ms).2 = [stream_demo_chunk 3; stream_demo_chunk 4].
Proof.
  intros ms. split; [by vm_compute|]. split; [by vm_compute|]. split; [|by vm_compute].
  refine (proj1 (stream_carries_one_window stream_demo_ack (fun _ => None) (fun _ => None) 5 3 1 default_stream_config ms ltac:(lia) ltac:(lia) ltac:(simpl; lia) _)).
  repeat (apply Forall_cons; split; [split; [by vm_compute|intros a Ht Ha; vm_compute in Ht, Ha; by simplify_eq]|]). by apply Forall_nil.
Qed.

(** Written, sent, acknowledged and closed: no close frame is sent, however many
    acknowledgements follow. *)
Lemma close_frame_never_sent :
  let s := (stream_demo [stream_demo_chunk 1; (StreamAckTag, [65536]); (InternalCloseTag, []); (StreamAckTag, [65536]); (InternalTimeoutTag, [])]).2 in
  ss_state s = ST_Closing /\ ss_buffer s = [] /\ wire_frames (ss_out s) = [OutData (stream_demo_frame 1 1)].
Proof. by vm_compute. Qed.
