(* ===== verification/AskManager.v ===== *)
(** * Asking an actor

    [msg/request_handle.hpp], [msg/request_timeout.hpp] and
    [actor/request/ask_manager.cpp].  A handle is shared by the asker and the
    manager; [ConcurrentHandle] interleaves the threads that settle, cancel and
    observe it, a step being a critical section or an atomic access.  The manager
    works under its lock; the handles it has given out are in [am_handles], by the
    number of the ask.  The theorems: the completion port of a handle is called at
    most once, and exactly once when the handle is settled; an ask is pending with
    its timer running, or settled. *)

From S2P Require Import Prelude.
From stdpp Require Import base numbers list gmap.

#[local] Open Scope Z_scope.

Definition errors_unknown : Z := 1.
Definition errors_timeout : Z := 5.
Definition errors_cancelled : Z := 7.

(** [result<StreamBuffer>]. *)
Inductive AskResult := AnsweredWith (response : list Z) | FailedWith (code : Z).
#[export] Instance AskResult_eq_dec : EqDecision AskResult.
Proof. solve_decision. Defined.

(** ** Handles *)

(** [rh_completions]: the calls of the completion port. *)
Record RequestHandle := mkRequest {
  rh_inner : option AskResult; rh_ready : bool; rh_cancelled : bool; rh_port : bool; rh_consumed : bool; rh_completions : list AskResult
}.
Definition request_new : RequestHandle := mkRequest None false false false false [].

Definition unsettled (h : RequestHandle) : bool := bool_decide (rh_inner h = None) && negb (rh_cancelled h).

(** The locked part of [resolve]: the port that was taken, when the handle took the value. *)
Definition resolve_locked (v : AskResult) (h : RequestHandle) : option (bool * RequestHandle) :=
  if negb (unsettled h) then None
  else Some (rh_port h, mkRequest (Some v) (rh_ready h) (rh_cancelled h) false (rh_consumed h) (rh_completions h)).
(** The rest of [resolve] and of [cancel], with the port and what it is told. *)
Definition settle_finish (port : bool) (v : AskResult) (h : RequestHandle) : RequestHandle :=
  mkRequest (rh_inner h) true (rh_cancelled h) (rh_port h) (rh_consumed h) (rh_completions h ++ if port then [v] else []).
Definition cancel_locked (h : RequestHandle) : option (bool * RequestHandle) :=
  if rh_cancelled h then None
  else Some (rh_port h, mkRequest (rh_inner h) (rh_ready h) true false (rh_consumed h) (rh_completions h)).

Definition resolve (v : AskResult) (h : RequestHandle) : RequestHandle :=
  match resolve_locked v h with Some (port, h) => settle_finish port v h | None => h end.
Definition resolve_error (code : Z) : RequestHandle -> RequestHandle := resolve (FailedWith code).
Definition request_cancel (h : RequestHandle) : RequestHandle :=
  if rh_ready h then h
  else match cancel_locked h with Some (port, h) => settle_finish port (FailedWith errors_cancelled) h | None => h end.

(** [on_complete]: whether it was taken, and the value for an immediate call; [None]
    for the code that takes the value of a handle that has none. *)
Inductive CompleteAnswer := PortRefused | PortInstalled | PortNow (v : AskResult).
Definition complete_locked (h : RequestHandle) : option (CompleteAnswer * RequestHandle) :=
  if rh_consumed h then Some (PortRefused, h)
  else match rh_inner h, rh_cancelled h with
  | Some v, c => Some (PortNow (if c then FailedWith errors_cancelled else v), mkRequest (Some v) (rh_ready h) c (rh_port h) true (rh_completions h))
  | None, true => None
  | None, false => Some (PortInstalled, mkRequest None (rh_ready h) false true true (rh_completions h))
  end.
Definition port_called (v : AskResult) (h : RequestHandle) : RequestHandle :=
  mkRequest (rh_inner h) (rh_ready h) (rh_cancelled h) (rh_port h) (rh_consumed h) (rh_completions h ++ [v]).

(** What [get] returns; [None] while it waits. *)
Definition request_get (h : RequestHandle) : option AskResult :=
  if rh_cancelled h then Some (FailedWith errors_cancelled) else if rh_ready h then rh_inner h else None.

(** ** Interleaving *)

Module ConcurrentHandle.

Inductive HandleThread :=
| HOut
| HResolving (port : bool) (v : AskResult)   (* between the lock and [ready] *)
| HCancelChecked                             (* has found [ready] unset *)
| HCancelling (port : bool)
| HCompleting (v : AskResult).               (* about to call the port at once *)

Record HState := mkH { hs_handle : RequestHandle; hs_threads : list HandleThread }.

Inductive hstep : HState -> HState -> Prop :=
| h_resolve s i v port h :
    hs_threads s !! i = Some HOut -> resolve_locked v (hs_handle s) = Some (port, h) ->
    hstep s (mkH h (<[i := HResolving port v]> (hs_threads s)))
| h_resolved s i port v :
    hs_threads s !! i = Some (HResolving port v) -> hstep s (mkH (settle_finish port v (hs_handle s)) (<[i := HOut]> (hs_threads s)))
| h_cancel_check s i :
    hs_threads s !! i = Some HOut -> rh_ready (hs_handle s) = false -> hstep s (mkH (hs_handle s) (<[i := HCancelChecked]> (hs_threads s)))
| h_cancel_again s i :
    hs_threads s !! i = Some HCancelChecked -> cancel_locked (hs_handle s) = None -> hstep s (mkH (hs_handle s) (<[i := HOut]> (hs_threads s)))
| h_cancel s i port h :
    hs_threads s !! i = Some HCancelChecked -> cancel_locked (hs_handle s) = Some (port, h) ->
    hstep s (mkH h (<[i := HCancelling port]> (hs_threads s)))
| h_cancelled s i port :
    hs_threads s !! i = Some (HCancelling port) ->
    hstep s (mkH (settle_finish port (FailedWith errors_cancelled) (hs_handle s)) (<[i := HOut]> (hs_threads s)))
| h_install s i h :
    hs_threads s !! i = Some HOut -> complete_locked (hs_handle s) = Some (PortInstalled, h) -> hstep s (mkH h (hs_threads s))
| h_complete s i v h :
    hs_threads s !! i = Some HOut -> complete_locked (hs_handle s) = Some (PortNow v, h) -> hstep s (mkH h (<[i := HCompleting v]> (hs_threads s)))
| h_completed s i v :
    hs_threads s !! i = Some (HCompleting v) -> hstep s (mkH (port_called v (hs_handle s)) (<[i := HOut]> (hs_threads s))).

Definition h_initial (n : nat) : HState := mkH request_new (replicate n HOut).

(** The ports in the hands of a thread, and whether it has yet to set [ready]. *)
Definition port_held (t : HandleThread) : Z :=
  match t with HResolving true _ | HCancelling true | HCompleting _ => 1 | _ => 0 end.
Definition will_ready (t : HandleThread) : Prop := match t with HResolving _ _ | HCancelling _ => True | _ => False end.

Record handle_inv (s : HState) : Prop := mkHandleInv {
  hi_once : (if rh_port (hs_handle s) then 1 else 0) + sum_by port_held (hs_threads s) + zlen (rh_completions (hs_handle s))
            = (if rh_consumed (hs_handle s) then 1 else 0);
  hi_port : rh_port (hs_handle s) = true -> unsettled (hs_handle s) = true;
  hi_ready : unsettled (hs_handle s) = false -> rh_ready (hs_handle s) = true \/ Exists will_ready (hs_threads s)
}.

Lemma will_ready_stays (ts : list HandleThread) i t t' :
  ts !! i = Some t -> ~ will_ready t -> Exists will_ready ts -> Exists will_ready (<[i := t']> ts).
Proof.
  intros Hi Ht He. apply Exists_exists in He as (x & Hx & Hw). apply list_elem_of_lookup in Hx as [j Hj].
  destruct (decide (j = i)) as [->|Hne]; [by simplify_eq|]. apply Exists_exists. exists x. split; [|done].
  apply list_elem_of_lookup. exists j. by rewrite list_lookup_insert_ne.
Qed.
Lemma will_ready_new (ts : list HandleThread) i t t' : ts !! i = Some t -> will_ready t' -> Exists will_ready (<[i := t']> ts).
Proof.
  intros Hi Hw. apply Exists_exists. exists t'. split; [|done]. apply list_elem_of_lookup. exists i.
  apply list_lookup_insert_eq. by eapply lookup_lt_Some.
Qed.

Lemma port_held_nonneg ts : 0 <= sum_by port_held ts.
Proof. apply sum_by_nonneg. by intros [|[]| |[]|]. Qed.

Lemma hstep_inv s s' : handle_inv s -> hstep s s' -> handle_inv s'.
Proof.
  intros [H1 H2 H3] Hs. destruct Hs as [s i v port h Hi E|s i port v Hi|s i Hi Er|s i Hi E|s i port h Hi E|s i port Hi|s i h Hi E|s i v h Hi E|s i v Hi];
    destruct s as [[inner ready cancelled p consumed calls] ts]; simpl in *;
    unfold resolve_locked, cancel_locked, complete_locked, unsettled in *; simpl in *;
    pose proof (port_held_nonneg ts); pose proof (zlen_nonneg calls).
  - destruct inner, cancelled; simpl in E; try done. injection E as <- <-. split; simpl; [|done|].
    + rewrite (sum_by_insert _ _ _ _ _ Hi). simpl. destruct p; simpl; lia.
    + intros _. right. by eapply will_ready_new.
  - split; simpl; [|done|by left]. rewrite (sum_by_insert _ _ _ _ _ Hi), zlen_app. destruct port; unfold zlen in *; simpl in *; lia.
  - split; simpl; [|done|].
    + rewrite (sum_by_insert _ _ _ _ _ Hi). simpl. lia.
    + intros Hu. destruct (H3 Hu); [by left|right]. eapply will_ready_stays; [done| |done]. by intros [].
  - split; simpl; [|done|].
    + rewrite (sum_by_insert _ _ _ _ _ Hi). simpl. lia.
    + intros Hu. destruct (H3 Hu); [by left|right]. eapply will_ready_stays; [done| |done]. by intros [].
  - destruct cancelled; [done|]. injection E as <- <-. split; simpl; [|done|].
    + rewrite (sum_by_insert _ _ _ _ _ Hi). simpl. destruct p; simpl; lia.
    + intros _. right. by eapply will_ready_new.
  - split; simpl; [|done|by left]. rewrite (sum_by_insert _ _ _ _ _ Hi), zlen_app. destruct port; unfold zlen in *; simpl in *; lia.
  - destruct consumed; [done|]. destruct inner as [v|]; [by destruct cancelled|]. destruct cancelled; [done|]. injection E as <-.
    split; simpl; [destruct p; lia|done|done].
  - destruct consumed; [done|]. destruct inner as [w|]; [|by destruct cancelled]. injection E as <- <-. split; simpl.
    + rewrite (sum_by_insert _ _ _ _ _ Hi). simpl. destruct p; lia.
    + done.
    + intros Hu. destruct (H3 Hu); [by left|right]. eapply will_ready_stays; [done| |done]. by intros [].
  - split; simpl; [|done|].
    + rewrite (sum_by_insert _ _ _ _ _ Hi), zlen_app. unfold zlen in *. simpl in *. lia.
    + intros Hu. destruct (H3 Hu); [by left|right]. eapply will_ready_stays; [done| |done]. by intros [].
Qed.

(** In every interleaving of any number of threads that resolve, cancel and watch
    one handle, its completion port is called at most once; when the handle is
    settled and no thread is inside a call, the handle is ready and a port that was
    taken has been called. *)
Theorem completion_once (n : nat) (s : HState) :
  steps hstep (h_initial n) s ->
  zlen (rh_completions (hs_handle s)) <= 1 /\
  (unsettled (hs_handle s) = false -> Forall (fun t => t = HOut) (hs_threads s) ->
   rh_ready (hs_handle s) = true /\ zlen (rh_completions (hs_handle s)) = (if rh_consumed (hs_handle s) then 1 else 0)).
Proof.
  intros Hs. assert (I : handle_inv s).
  { eapply steps_inv; [exact hstep_inv|exact Hs|]. split; simpl; [|done|done]. change (zlen (@nil AskResult)) with 0.
    assert (E : sum_by port_held (replicate n HOut) = 0) by (clear; induction n as [|k IH]; [done|]; simpl; rewrite sum_by_cons, IH; done). lia. }
  destruct I as [H1 H2 H3]. pose proof (port_held_nonneg (hs_threads s)). split.
  - destruct (rh_port _), (rh_consumed _); lia.
  - intros Hu Hout. assert (E : sum_by port_held (hs_threads s) = 0).
    { clear -Hout. induction Hout as [|t ts -> Hts IH]; [done|]. rewrite sum_by_cons, IH. done. }
    split.
    + destruct (H3 Hu) as [|He]; [done|]. apply Exists_exists in He as (t & Ht & Hw). rewrite Forall_forall in Hout. rewrite (Hout t Ht) in Hw. done.
    + destruct (rh_port (hs_handle s)) eqn:Ep; [by rewrite H2 in Hu|]. lia.
Qed.

(** A cancellation that found the handle unresolved may follow the resolution: the
    port is told the answer, and [get] a cancellation. *)
Lemma cancel_overrides_result (v : list Z) :
  exists s, steps hstep (h_initial 2) s /\ Forall (fun t => t = HOut) (hs_threads s) /\
  rh_completions (hs_handle s) = [AnsweredWith v] /\ request_get (hs_handle s) = Some (FailedWith errors_cancelled).
Proof.
  eexists. split.
  - eapply steps_step; [eapply (h_install _ 0); reflexivity|]. eapply steps_step; [eapply (h_cancel_check _ 1); reflexivity|].
    eapply steps_step; [eapply (h_resolve _ 0 (AnsweredWith v)); reflexivity|]. simpl.
    eapply steps_step; [eapply (h_cancel _ 1); reflexivity|]. simpl.
    eapply steps_step; [eapply (h_resolved _ 0); reflexivity|]. simpl. eapply steps_step; [eapply (h_cancelled _ 1); reflexivity|]. simpl. apply steps_refl.
  - split; [by repeat constructor|]. by split.
Qed.
End ConcurrentHandle.

(** Watching a handle that was cancelled takes a value that is not there. *)
Lemma watching_cancelled_undefined : complete_locked (request_cancel request_new) = None.
Proof. reflexivity. Qed.

(** ** Timeouts *)

Inductive TimeoutKind := TK_Duration | TK_Deadline.
Record RequestTimeout := mkTimeout { rt_kind : TimeoutKind; rt_value_ms : Z }.
Definition timeout_from_ms (ms : Z) : RequestTimeout := mkTimeout TK_Duration ms.
Definition timeout_from_deadline (tp_ns : Z) : RequestTimeout := mkTimeout TK_Deadline (Z.quot tp_ns 1000000).
Definition timeout_is_default (t : RequestTimeout) : bool := match rt_kind t with TK_Duration => rt_value_ms t =? 0 | TK_Deadline => false end.
(** [now] is the reading of [deadline] itself. *)
Definition timeout_deadline (t : RequestTimeout) (now : Z) : Z :=
  if timeout_is_default t then INT64_MAX
  else match rt_kind t with TK_Deadline => rt_value_ms t * 1000000 | TK_Duration => now + rt_value_ms t * 1000000 end.

(** ** The manager *)

Record PendingAsk := mkAsk { pa_requester : Z; pa_target : Z; pa_registered_ns : Z }.

(** [am_timers]: the scheduled callbacks, with their delays; [am_handles]: the
    handles given out. *)
Record AskManager := mkManager {
  am_pending : gmap Z PendingAsk; am_handles : gmap Z RequestHandle; am_timers : list (Z * Z); am_next_id : Z;
  total_registered : Z; total_resolved : Z; total_timed_out : Z; total_cancelled : Z
}.
Definition manager_init (next_id : Z) : AskManager := mkManager ∅ ∅ [] next_id 0 0 0 0.

(** The delay of the timer, from two clock readings. *)
Definition ask_delay_ns (t : RequestTimeout) (system_ms now now' : Z) : Z :=
  let deadline := if timeout_is_default t then now + system_ms * 1000000 else timeout_deadline t now' in
  Z.max 0 (Z.quot (deadline - now) 1000000) * 1000000.

Definition register_ask (requester target : Z) (t : RequestTimeout) (system_ms now now' : Z) (m : AskManager) : Z * AskManager :=
  let key := am_next_id m in
  (key, mkManager
     (match am_pending m !! key with Some _ => am_pending m | None => <[key := mkAsk requester target now]> (am_pending m) end)
     (<[key := request_new]> (am_handles m)) (am_timers m ++ [(key, ask_delay_ns t system_ms now now')]) (u64 (key + 1))
     (u64 (total_registered m + 1)) (total_resolved m) (total_timed_out m) (total_cancelled m)).

(** A pending ask is taken out and its handle resolved. *)
Definition settle_ask (key : Z) (v : AskResult) (m : AskManager) : AskManager :=
  mkManager (delete key (am_pending m)) (alter (resolve v) key (am_handles m)) (am_timers m) (am_next_id m)
    (total_registered m) (total_resolved m) (total_timed_out m) (total_cancelled m).
Definition count_ask (f : Z * Z * Z -> Z * Z * Z) (m : AskManager) : AskManager :=
  let '(r, t, c) := f (total_resolved m, total_timed_out m, total_cancelled m) in
  mkManager (am_pending m) (am_handles m) (am_timers m) (am_next_id m) (total_registered m) r t c.

Definition ask_on_response (key : Z) (response : list Z) (m : AskManager) : bool * AskManager :=
  match am_pending m !! key with
  | None => (false, m)
  | Some _ => (true, count_ask (fun '(r, t, c) => (u64 (r + 1), t, c)) (settle_ask key (AnsweredWith response) m))
  end.
Definition ask_on_timeout (key : Z) (m : AskManager) : AskManager :=
  match am_pending m !! key with
  | None => m
  | Some _ => count_ask (fun '(r, t, c) => (r, u64 (t + 1), c)) (settle_ask key (FailedWith errors_timeout) m)
  end.
Definition ask_cancel (key : Z) (m : AskManager) : bool * AskManager :=
  match am_pending m !! key with
  | None => (false, m)
  | Some _ => (true, count_ask (fun '(r, t, c) => (r, t, u64 (c + 1))) (settle_ask key (FailedWith errors_cancelled) m))
  end.

(** [abort] resolves every pending ask, in the order of the map. *)
Definition ask_abort (order : list Z) (m : AskManager) : AskManager :=
  mkManager ∅ (foldr (fun key hs => alter (resolve (FailedWith errors_unknown)) key hs) (am_handles m) order) (am_timers m) (am_next_id m)
    (total_registered m) (total_resolved m) (total_timed_out m) (total_cancelled m).

Record AskSnapshot := mkAskSnapshot { sn_msg_id : Z; sn_requester : Z; sn_elapsed_ms : Z; sn_remaining_ms : Z }.
Definition ask_snapshot (order : list Z) (now : Z) (m : AskManager) : list AskSnapshot :=
  omap (fun key => match am_pending m !! key with
                   | Some a => Some (mkAskSnapshot key (pa_requester a) ((if pa_registered_ns a <? now then now - pa_registered_ns a else 0) / 1000000) 0)
                   | None => None
                   end) order.
Definition pending_count (m : AskManager) : Z := Z.of_nat (size (am_pending m)).

(** ** Runs *)

Inductive AskEvent :=
| ARegister (requester target : Z) (t : RequestTimeout) (system_ms now now' : Z)
| AOtherId                                        (* another user of the counter *)
| AResponse (key : Z) (response : list Z)
| ATimer (k : nat)                                (* the k-th timer fires *)
| ACancel (key : Z)                               (* the operator *)
| ACallerCancel (key : Z)                         (* the asker, through its handle *)
| AAbort (order : list Z).

Definition set_ask_handles (m : AskManager) (hs : gmap Z RequestHandle) (timers : list (Z * Z)) (next : Z) : AskManager :=
  mkManager (am_pending m) hs timers next (total_registered m) (total_resolved m) (total_timed_out m) (total_cancelled m).

Definition ask_step (m : AskManager) (e : AskEvent) : AskManager :=
  match e with
  | ARegister requester target t system_ms now now' => (register_ask requester target t system_ms now now' m).2
  | AOtherId => set_ask_handles m (am_handles m) (am_timers m) (u64 (am_next_id m + 1))
  | AResponse key response => (ask_on_response key response m).2
  | ATimer k =>
      match am_timers m !! k with
      | Some (key, _) => ask_on_timeout key (set_ask_handles m (am_handles m) (delete k (am_timers m)) (am_next_id m))
      | None => m
      end
  | ACancel key => (ask_cancel key m).2
  | ACallerCancel key => set_ask_handles m (alter request_cancel key (am_handles m)) (am_timers m) (am_next_id m)
  | AAbort order => if bool_decide (order ≡ₚ (map_to_list (am_pending m)).*1) then ask_abort order m else m
  end.

Definition is_settled (h : RequestHandle) : Prop := unsettled h = false /\ rh_ready h = true.

Lemma resolve_settles v h : is_settled (resolve v h) \/ ~ unsettled h = true /\ resolve v h = h.
Proof.
  unfold resolve, resolve_locked. destruct (unsettled h) eqn:E; simpl; [left|by right; split; [|done]].
  unfold is_settled, unsettled. by simpl.
Qed.

(** Handles are quiet between events: settled exactly when ready. *)
Definition quiet_handle (h : RequestHandle) : Prop := rh_ready h = negb (unsettled h).

Lemma resolve_quiet v h : quiet_handle h -> is_settled (resolve v h).
Proof.
  unfold quiet_handle, is_settled, resolve, resolve_locked. destruct (unsettled h) eqn:E; simpl; intros Hq; [done|]. by rewrite E, Hq.
Qed.
Lemma settled_quiet h : is_settled h -> quiet_handle h.
Proof. intros [E1 E2]. unfold quiet_handle. by rewrite E1, E2. Qed.
Lemma cancel_quiet h : quiet_handle h -> is_settled (request_cancel h).
Proof.
  unfold quiet_handle, is_settled, request_cancel, cancel_locked, unsettled. destruct h as [inner ready [] p c l]; simpl; destruct ready; simpl; intros E;
    rewrite ?andb_false_r, ?andb_true_r in *; try done; by destruct (bool_decide (inner = None)).
Qed.

(** [x] is an ask whose timer is being handled. *)
Record ask_inv (x : option Z) (m : AskManager) : Prop := mkAskInv {
  ak_handle : forall key, is_Some (am_pending m !! key) -> is_Some (am_handles m !! key);
  ak_timer : forall key, is_Some (am_pending m !! key) -> x <> Some key -> key ∈ (am_timers m).*1;
  ak_quiet : forall key h, am_handles m !! key = Some h -> quiet_handle h;
  ak_settled : forall key h, am_handles m !! key = Some h -> am_pending m !! key = None -> is_settled h;
  ak_fresh : forall key, is_Some (am_handles m !! key) -> key < am_next_id m
}.

Lemma settle_ask_inv x key v f m : ask_inv x m -> x = None \/ x = Some key -> ask_inv None (count_ask f (settle_ask key v m)).
Proof.
  intros [H1 H2 H3 H4 H5] Hx. unfold count_ask. destruct (f _) as [[r t] c].
  split; simpl.
  - intros k [a [Hk Ha]%lookup_delete_Some]. rewrite lookup_alter_ne by done. apply H1. eauto.
  - intros k [a [Hk Ha]%lookup_delete_Some] _. apply H2; [eauto|]. destruct Hx as [-> | ->]; congruence.
  - intros k h Hh. destruct (decide (key = k)) as [<-|Hne].
    + rewrite lookup_alter_eq in Hh. destruct (am_handles m !! key) as [h0|] eqn:E; simplify_eq/=. apply settled_quiet, resolve_quiet. eauto.
    + rewrite lookup_alter_ne in Hh by done. eauto.
  - intros k h Hh Hn. destruct (decide (key = k)) as [<-|Hne].
    + rewrite lookup_alter_eq in Hh. destruct (am_handles m !! key) as [h0|] eqn:E; simplify_eq/=. apply resolve_quiet. eauto.
    + rewrite lookup_alter_ne in Hh by done. rewrite lookup_delete_ne in Hn by done. eauto.
  - intros k Hk. apply H5. destruct (decide (key = k)) as [<-|Hne]; [by rewrite lookup_alter_eq, fmap_is_Some in Hk|]. by rewrite lookup_alter_ne in Hk.
Qed.

Lemma abort_handles v (order : list Z) (hs : gmap Z RequestHandle) key :
  NoDup order -> foldr (fun k hs => alter (resolve v) k hs) hs order !! key = (if bool_decide (key ∈ order) then resolve v <$> hs !! key else hs !! key).
Proof.
  induction order as [|k order IH]; intros Hnd; [done|]. apply NoDup_cons in Hnd as [Hk Hnd]. specialize (IH Hnd). simpl.
  destruct (decide (k = key)) as [->|Hne].
  - rewrite lookup_alter_eq, IH, (bool_decide_eq_false_2 (key ∈ order)), (bool_decide_eq_true_2 (key ∈ key :: order)) by (done || set_solver). done.
  - rewrite lookup_alter_ne, IH by done. destruct (decide (key ∈ order)).
    + rewrite !bool_decide_eq_true_2 by set_solver. done.
    + rewrite !bool_decide_eq_false_2 by set_solver. done.
Qed.

Lemma ask_timer_kept (l : list (Z * Z)) k key d key' : l !! k = Some (key, d) -> key' ∈ l.*1 -> key' <> key -> key' ∈ (delete k l).*1.
Proof.
  intros Hk Hin Hne. rewrite (delete_take_drop l k), fmap_app. rewrite <- (take_drop_middle _ _ _ Hk), fmap_app, fmap_cons in Hin.
  apply elem_of_app in Hin as [Hin|Hin]; apply elem_of_app; [by left|right]. apply elem_of_cons in Hin as [->|Hin]; [done|exact Hin].
Qed.

Lemma ask_step_inv m e : ask_inv None m -> am_next_id m < UINT64_MAX -> 0 <= am_next_id m -> ask_inv None (ask_step m e).
Proof.
  intros I Hid Hpos. pose proof I as [H1 H2 H3 H4 H5]. unfold UINT64_MAX in Hid.
  destruct e as [requester target t sys now now'| |key response|k|key|key|order]; simpl.
  - assert (Hnew : am_pending m !! am_next_id m = None).
    { destruct (am_pending m !! am_next_id m) as [a|] eqn:E; [|done]. specialize (H5 _ (H1 _ (mk_is_Some _ _ E))). lia. }
    rewrite Hnew, u64_small by lia. split; simpl.
    + intros k. rewrite !lookup_insert_is_Some. intros [?|[? ?]]; [by left|right]. auto.
    + intros k Hk _. rewrite fmap_app, elem_of_app. apply lookup_insert_is_Some in Hk as [<-|[_ Hk]]; [right; simpl; set_solver|left; by apply H2].
    + intros k h [[_ <-]|[_ Hh]]%lookup_insert_Some; [done|eauto].
    + intros k h [[<- <-]|[Hne Hh]]%lookup_insert_Some Hn; [by rewrite lookup_insert_eq in Hn|]. rewrite lookup_insert_ne in Hn by done. eauto.
    + intros k [<-|[_ Hk]]%lookup_insert_is_Some; [lia|]. specialize (H5 k Hk). lia.
  - split; simpl; auto. intros k Hk. specialize (H5 k Hk). rewrite u64_small by lia. lia.
  - unfold ask_on_response. destruct (am_pending m !! key); [|done]. eapply settle_ask_inv; eauto.
  - destruct (am_timers m !! k) as [[key d]|] eqn:Ek; [|done]. unfold ask_on_timeout. simpl. set (m1 := set_ask_handles _ _ _ _).
    assert (I1 : ask_inv (Some key) m1).
    { split; simpl; auto. intros k' Hk' Hne. eapply ask_timer_kept; [done|by apply H2|congruence]. }
    destruct (am_pending m !! key) as [a|] eqn:Ep; [eapply settle_ask_inv; eauto|].
    split; simpl; auto. intros k' Hk' _. eapply ask_timer_kept; [done|by apply H2|]. intros ->. rewrite Ep in Hk'. by destruct Hk'.
  - unfold ask_cancel. destruct (am_pending m !! key); [|done]. eapply settle_ask_inv; eauto.
  - split; simpl; auto.
    + intros k Hk. specialize (H1 k Hk). destruct (decide (key = k)) as [<-|]; [by rewrite lookup_alter_eq, fmap_is_Some|by rewrite lookup_alter_ne].
    + intros k h Hh. destruct (decide (key = k)) as [<-|]; [|rewrite lookup_alter_ne in Hh by done; eauto].
      rewrite lookup_alter_eq in Hh. destruct (am_handles m !! key) as [h0|] eqn:E; simplify_eq/=. apply settled_quiet, cancel_quiet. eauto.
    + intros k h Hh Hn. destruct (decide (key = k)) as [<-|]; [|rewrite lookup_alter_ne in Hh by done; eauto].
      rewrite lookup_alter_eq in Hh. destruct (am_handles m !! key) as [h0|] eqn:E; simplify_eq/=. apply cancel_quiet. eauto.
    + intros k Hk. apply H5. destruct (decide (key = k)) as [<-|]; [by rewrite lookup_alter_eq, fmap_is_Some in Hk|by rewrite lookup_alter_ne in Hk].
  - case_bool_decide as Ho; [|done]. assert (Hnd : NoDup order) by (rewrite Ho; apply NoDup_fst_map_to_list).
    assert (Hin : forall k, k ∈ order <-> is_Some (am_pending m !! k)).
    { intros k. rewrite Ho, list_elem_of_fmap. split; [intros ([k' a] & -> & Hk)|intros [a Ha]].
      - apply elem_of_map_to_list in Hk. eauto.
      - exists (k, a). split; [done|]. by apply elem_of_map_to_list. }
    split; simpl.
    + intros k [a Ha]. by rewrite lookup_empty in Ha.
    + intros k [a Ha]. by rewrite lookup_empty in Ha.
    + intros k h Hh. rewrite abort_handles in Hh by done. case_bool_decide; [|eauto].
      destruct (am_handles m !! k) as [h0|] eqn:E; simplify_eq/=. apply settled_quiet, resolve_quiet. eauto.
    + intros k h Hh _. rewrite abort_handles in Hh by done. case_bool_decide as Hk.
      * destruct (am_handles m !! k) as [h0|] eqn:E; simplify_eq/=. apply resolve_quiet. eauto.
      * eapply H4; [exact Hh|]. rewrite Hin in Hk. by apply eq_None_not_Some.
    + intros k Hk. rewrite abort_handles in Hk by done. apply H5. case_bool_decide; [by rewrite fmap_is_Some in Hk|done].
Qed.

(** A settled handle does not change any more. *)
Lemma resolve_settled v h : is_settled h -> resolve v h = h.
Proof. intros [E _]. unfold resolve, resolve_locked. by rewrite E. Qed.
Lemma cancel_settled h : is_settled h -> request_cancel h = h.
Proof. intros [_ E]. unfold request_cancel. by rewrite E. Qed.
Lemma alter_settled f (hs : gmap Z RequestHandle) k key h :
  (forall h, is_settled h -> f h = h) -> hs !! key = Some h -> is_settled h -> alter f k hs !! key = Some h.
Proof.
  intros Hf Hh Hs. destruct (decide (k = key)) as [->|]; [|by rewrite lookup_alter_ne]. rewrite lookup_alter_eq, Hh. simpl. by rewrite Hf.
Qed.

Lemma settle_ask_handles key v f m : am_handles (count_ask f (settle_ask key v m)) = alter (resolve v) key (am_handles m).
Proof. unfold count_ask. by destruct (f _) as [[? ?] ?]. Qed.
Lemma settle_ask_next key v f m : am_next_id (count_ask f (settle_ask key v m)) = am_next_id m.
Proof. unfold count_ask. by destruct (f _) as [[? ?] ?]. Qed.

Lemma ask_step_settled m e key h :
  ask_inv None m -> am_handles m !! key = Some h -> is_settled h -> am_handles (ask_step m e) !! key = Some h.
Proof.
  intros I Hh Hs. pose proof (fun v => resolve_settled v) as Hr.
  destruct e as [requester target t sys now now'| |k response|k|k|k|order]; simpl.
  - rewrite lookup_insert_ne; [done|]. intros <-. pose proof (ak_fresh _ _ I _ (mk_is_Some _ _ Hh)). lia.
  - done.
  - unfold ask_on_response. destruct (am_pending m !! k); [|done]. cbn [snd]. rewrite settle_ask_handles. apply alter_settled; [apply Hr|done..].
  - destruct (am_timers m !! k) as [[k' d]|]; [|done]. unfold ask_on_timeout. simpl. destruct (am_pending m !! k'); [|done].
    rewrite settle_ask_handles. apply alter_settled; [apply Hr|done..].
  - unfold ask_cancel. destruct (am_pending m !! k); [|done]. cbn [snd]. rewrite settle_ask_handles. apply alter_settled; [apply Hr|done..].
  - apply alter_settled; [exact cancel_settled|done..].
  - case_bool_decide as Ho; [|done]. simpl. rewrite abort_handles by (rewrite Ho; apply NoDup_fst_map_to_list).
    case_bool_decide; [|done]. rewrite Hh. simpl. by rewrite Hr.
Qed.

Lemma ask_step_next m e : 0 <= am_next_id m < UINT64_MAX -> am_next_id m <= am_next_id (ask_step m e) <= am_next_id m + 1.
Proof.
  intros Hid. unfold UINT64_MAX in Hid. destruct e as [requester target t sys now now'| |k response|k|k|k|order]; simpl.
  - rewrite u64_small by lia. lia.
  - rewrite u64_small by lia. lia.
  - unfold ask_on_response. destruct (am_pending m !! k); cbn [snd]; rewrite ?settle_ask_next; simpl; lia.
  - destruct (am_timers m !! k) as [[k' d]|]; [|lia]. unfold ask_on_timeout. simpl. destruct (am_pending m !! k'); rewrite ?settle_ask_next; simpl; lia.
  - unfold ask_cancel. destruct (am_pending m !! k); cbn [snd]; rewrite ?settle_ask_next; simpl; lia.
  - lia.
  - case_bool_decide; simpl; lia.
Qed.

Lemma ask_run_inv evs : forall m,
  ask_inv None m -> 0 <= am_next_id m -> am_next_id m + zlen evs <= UINT64_MAX ->
  ask_inv None (foldl ask_step m evs) /\
  forall key h, am_handles m !! key = Some h -> is_settled h -> am_handles (foldl ask_step m evs) !! key = Some h.
Proof.
  induction evs as [|e evs IH]; intros m I Hpos Hlen; [done|]. rewrite zlen_cons in Hlen. pose proof (zlen_nonneg evs). simpl.
  pose proof (ask_step_next m e ltac:(lia)) as Hn. pose proof (ask_step_inv m e I ltac:(lia) Hpos) as I1.
  destruct (IH _ I1 ltac:(lia) ltac:(lia)) as [I2 Hs2]. split; [done|]. intros key h Hh Hs. apply Hs2; [|done]. by apply ask_step_settled.
Qed.

Lemma ask_init_inv next : ask_inv None (manager_init next).
Proof. split; simpl; intros key; rewrite ?lookup_empty; try by intros []; done. Qed.

(** C33. On every run of registrations, answers, timers, cancellations and aborts, a
    handle that was given out is settled, and then stays as it is whatever comes,
    or its ask is pending with a timer that is still to fire and will settle it. *)
Theorem ask_settles (next : Z) (evs later : list AskEvent) (key : Z) (h : RequestHandle) :
  0 <= next -> next + zlen evs + zlen later <= UINT64_MAX ->
  let m := foldl ask_step (manager_init next) evs in
  am_handles m !! key = Some h ->
  if bool_decide (am_pending m !! key = None)
  then is_settled h /\ am_handles (foldl ask_step m later) !! key = Some h
  else exists k d h', am_timers m !! k = Some (key, d) /\ am_handles (ask_step m (ATimer k)) !! key = Some h' /\ is_settled h'.
Proof.
  intros Hpos Hlen m Hh. pose proof (zlen_nonneg evs). pose proof (zlen_nonneg later).
  destruct (ask_run_inv evs _ (ask_init_inv next) Hpos ltac:(simpl; lia)) as [I _]. fold m in I.
  assert (Hn : 0 <= am_next_id m <= next + zlen evs).
  { clear -Hpos Hlen. subst m. assert (G : forall evs m, 0 <= am_next_id m -> am_next_id m + zlen evs <= UINT64_MAX ->
      0 <= am_next_id (foldl ask_step m evs) <= am_next_id m + zlen evs).
    { intros l. induction l as [|e l IH]; intros m Hp Hl; [simpl; unfold zlen; simpl; lia|]. rewrite zlen_cons in *. pose proof (zlen_nonneg l).
      pose proof (ask_step_next m e ltac:(lia)). specialize (IH (ask_step m e) ltac:(lia) ltac:(lia)). simpl. lia. }
    pose proof (zlen_nonneg later). apply (G evs (manager_init next)); simpl; lia. }
  case_bool_decide as Hp.
  - pose proof (ak_settled _ _ I key h Hh Hp) as Hs. split; [done|].
    destruct (ask_run_inv later m I ltac:(lia) ltac:(lia)) as [_ Hk]. by apply Hk.
  - destruct (am_pending m !! key) as [a|] eqn:Ep; [|done]. pose proof (ak_timer _ _ I key (mk_is_Some _ _ Ep) ltac:(discriminate)) as Ht.
    apply list_elem_of_fmap in Ht as ([key' d] & Ek & Ht). simpl in Ek. subst key'. apply list_elem_of_lookup in Ht as [k Hk].
    exists k, d, (resolve (FailedWith errors_timeout) h). split; [done|]. split.
    + cbn [ask_step]. rewrite Hk. unfold ask_on_timeout. simpl. rewrite Ep, settle_ask_handles, lookup_alter_eq. simpl. by rewrite Hh.
    + apply resolve_quiet. by eapply ak_quiet.
Qed.

(** ** Witnesses *)

Lemma completion_once_witness :
  let s := ConcurrentHandle.mkH (mkRequest (Some (AnsweredWith [1])) true false false true [AnsweredWith [1]]) [ConcurrentHandle.HOut] in
  zlen (rh_completions (ConcurrentHandle.hs_handle s)) <= 1 /\ rh_ready (ConcurrentHandle.hs_handle s) = true.
Proof.
  intros s. assert (Hs : steps ConcurrentHandle.hstep (ConcurrentHandle.h_initial 1) s).
  { eapply steps_step; [eapply (ConcurrentHandle.h_install _ 0); reflexivity|].
    eapply steps_step; [eapply (ConcurrentHandle.h_resolve _ 0 (AnsweredWith [1])); reflexivity|]. simpl.
    eapply steps_step; [eapply (ConcurrentHandle.h_resolved _ 0); reflexivity|]. apply steps_refl. }
  destruct (ConcurrentHandle.completion_once 1 s Hs) as [H1 H2]. split; [exact H1|]. apply H2; [reflexivity|by repeat constructor].
Defined.

Lemma ask_settles_witness :
  let evs := [ARegister 3 4 (timeout_from_ms 5) 1000 0 0; ARegister 3 4 (timeout_from_ms 0) 1000 0 0; AResponse 10 [7]; ATimer 0] in
  let m := foldl ask_step (manager_init 10) evs in
  am_handles (foldl ask_step m [ACancel 10; ACallerCancel 10; AAbort [11]]) !! 10 = Some (mkRequest (Some (AnsweredWith [7])) true false false false []).
Proof.
  intros evs m. assert (Hh : am_handles m !! 10 = Some (mkRequest (Some (AnsweredWith [7])) true false false false [])) by reflexivity.
  pose proof (ask_settles 10 evs [ACancel 10; ACallerCancel 10; AAbort [11]] 10 _ ltac:(lia) ltac:(vm_compute; discriminate) Hh) as H.
  exact (proj2 H).
Defined.
