(* ===== verification/Routing.v ===== *)
(** * Routers and stashes

    [actor/routing/routing_logic.cpp], [pool_router.cpp], [group_router.cpp] and
    [mailbox/stash_buffer.hpp].  A router is an actor: it handles one message at a
    time.  Addresses are a parameter, [std::hash] of an actor id another; the
    depths of mailboxes are read when a message is routed.  [std::sort] is a stable
    merge sort; where hashes are equal the source leaves the order open.  The
    theorems: a router with routees forwards every message to exactly one of those
    it has now, whatever was added, removed, resized and replaced before; the
    round robin gives every routee its turn; and what keys that are not hashed do
    to a hash ring. *)

From S2P Require Import Prelude Lifecycle Supervision.
From Stdlib Require Import Sorted.
From stdpp Require Import base numbers list gmap sorting.

#[local] Open Scope Z_scope.

(** ** Strategies *)

Inductive IRoutingLogic :=
| RoundRobinLogic (counter : Z)                                                (* uint64_t *)
| RandomLogic (state : Z)                                                      (* uint64_t *)
| ConsistentHashingLogic (vnodes_per_routee : nat) (ring : list (Z * nat))
| SmallestMailboxLogic.

Definition needs_mailbox_snapshots (l : IRoutingLogic) : bool := match l with SmallestMailboxLogic => true | _ => false end.

(** The seed of [RandomLogic]; [self] is its address. *)
Definition random_seed (seed self : Z) : Z :=
  if seed =? 0 then
    let s := self in
    let s := Z.lxor s (Z.shiftr s 30) in
    let s := u64 (s * 13787848793156543929) in
    let s := Z.lxor s (Z.shiftr s 27) in
    Z.lxor s (u64 (Z.shiftl s 13))
  else seed.

Definition xorshift64 (x : Z) : Z :=
  let x := Z.lxor x (u64 (Z.shiftl x 13)) in
  let x := Z.lxor x (Z.shiftr x 7) in
  Z.lxor x (u64 (Z.shiftl x 17)).

(** The hash of a virtual node. *)
Definition vnode_hash (base : Z) (v : nat) : Z :=
  let h := Z.lxor base (Z.shiftr base 30) in
  let h := u64 (h * 13787848793156543929) in
  let h := Z.lxor h (Z.shiftr h 27) in
  u64 (h + u64 (Z.of_nat v * 10723151780598845931)).

Definition ring_before (a b : Z * nat) : Prop := a.1 <= b.1.
#[local] Instance ring_before_dec a b : Decision (ring_before a b).
Proof. unfold ring_before. apply _. Defined.
#[local] Instance ring_before_total : Total ring_before.
Proof. intros a b. unfold ring_before. lia. Qed.
#[local] Instance ring_before_trans : Transitive ring_before.
Proof. intros a b c. unfold ring_before. lia. Qed.

(** [rebuild_ring], from the hashes of the routees' ids. *)
Definition ring_entries (vnodes : nat) (hashes : list Z) : list (Z * nat) :=
  concat (imap (fun i base => (fun v => (vnode_hash base v, i)) <$> seq 0 vnodes) hashes).
Definition rebuild_ring (vnodes : nat) (hashes : list Z) : list (Z * nat) := merge_sort ring_before (ring_entries vnodes hashes).

Fixpoint ring_lower_bound (key : Z) (ring : list (Z * nat)) : option (Z * nat) :=
  match ring with [] => None | e :: ring => if e.1 <? key then ring_lower_bound key ring else Some e end.

(** The loop of [SmallestMailboxLogic] from index [i]. *)
Fixpoint smallest_loop (depths : list Z) (i best : nat) (min_depth : Z) : nat :=
  match depths with
  | [] => best
  | d :: depths => if d <? min_depth then smallest_loop depths (S i) i d else smallest_loop depths (S i) best min_depth
  end.

(** [n] routees; [states] the depths of the snapshots, 0 where there is none;
    [cas]: the exchange of the random state takes place. *)
Definition select_routee (l : IRoutingLogic) (n : nat) (key : Z) (states : list Z) (cas : bool) : nat * IRoutingLogic :=
  match l with
  | RoundRobinLogic c => if (n =? 0)%nat then (0%nat, l) else (Z.to_nat (c mod Z.of_nat n), RoundRobinLogic (u64 (c + 1)))
  | RandomLogic x => if (n =? 0)%nat then (0%nat, l) else (Z.to_nat (x mod Z.of_nat n), RandomLogic (if cas then xorshift64 x else x))
  | ConsistentHashingLogic _ ring =>
      (match n, ring with
       | O, _ | _, [] => 0%nat
       | _, first :: _ => match ring_lower_bound key ring with Some e => e.2 | None => first.2 end
       end, l)
  | SmallestMailboxLogic =>
      (if (n =? 0)%nat then 0%nat else smallest_loop ((fun i => default 0 (states !! i)) <$> seq 0 n) 0 0 UINT32_MAX, l)
  end.

(** ** Routers *)

Section Routers.
Context {Address Message : Type} `{EqDecision Address}.
Context (address_id : Address -> Z) (hash_id : Z -> Z) (key_of : Message -> Z).

(** What both routers share; [rt_sent] are the messages handed on. *)
Record Router := mkRouter { rt_logic : IRoutingLogic; rt_snapshots : bool; rt_routees : list Address; rt_sent : list (Address * Message) }.

Definition router_new (l : IRoutingLogic) : Router := mkRouter l (needs_mailbox_snapshots l) [] [].

Definition on_routees_changed (l : IRoutingLogic) (routees : list Address) : IRoutingLogic :=
  match l with
  | ConsistentHashingLogic v _ => ConsistentHashingLogic v (rebuild_ring v ((fun a => hash_id (address_id a)) <$> routees))
  | _ => l
  end.
Definition set_routee_list (r : Router) (routees : list Address) : Router :=
  mkRouter (on_routees_changed (rt_logic r) routees) (rt_snapshots r) routees (rt_sent r).

(** The common part of both behaviors. *)
Definition route_message (depth_of : Address -> Z) (cas : bool) (m : Message) (r : Router) : Router :=
  match rt_routees r with
  | [] => r
  | _ =>
      let states := if rt_snapshots r then depth_of <$> rt_routees r else [] in
      let '(i, l) := select_routee (rt_logic r) (length (rt_routees r)) (key_of m) states cas in
      mkRouter l (rt_snapshots r) (rt_routees r) (match rt_routees r !! i with Some a => rt_sent r ++ [(a, m)] | None => rt_sent r end)
  end.

Definition broadcast_to_routees (m : Message) (r : Router) : Router :=
  mkRouter (rt_logic r) (rt_snapshots r) (rt_routees r) (rt_sent r ++ ((fun a => (a, m)) <$> rt_routees r)).
Definition set_routing_logic (l : IRoutingLogic) (r : Router) : Router :=
  mkRouter (on_routees_changed l (rt_routees r)) (needs_mailbox_snapshots l) (rt_routees r) (rt_sent r).

(** [GroupRouter]. *)
Definition group_add_routee (a : Address) (r : Router) : Router := set_routee_list r (rt_routees r ++ [a]).
Definition erase_first (P : Address -> bool) (l : list Address) : option (list Address) :=
  '(i, _) ← list_find (fun a => P a = true) l; Some (delete i l).
Definition group_remove_routee (a : Address) (r : Router) : Router :=
  match erase_first (fun b => bool_decide (b = a)) (rt_routees r) with Some l => set_routee_list r l | None => r end.
Definition group_set_routees (l : list Address) (r : Router) : Router := set_routee_list r l.

(** [PoolRouter]: the router and what it supervises.  [spawned n] is the address of
    the [n]th routee that the factory makes; all routees are local. *)
Context (spawned : nat -> Address).
Record PoolRouter := mkPoolRouter { pr_router : Router; pr_self : SelfSupervisingActor; pr_spawned : nat }.

Definition pool_new (l : IRoutingLogic) (p : SupervisionPolicy) : PoolRouter := mkPoolRouter (router_new l) (self_init p) 0.
Definition spawn_single_routee (p : PoolRouter) : Address * PoolRouter :=
  let a := spawned (pr_spawned p) in (a, mkPoolRouter (pr_router p) (add_child (pr_self p) (address_id a)) (S (pr_spawned p))).
Definition with_router (p : PoolRouter) (r : Router) : PoolRouter := mkPoolRouter r (pr_self p) (pr_spawned p).

(** The loop of [spawn_routees]: the list grows, the strategy is told at the end. *)
Fixpoint spawn_loop (count : nat) (p : PoolRouter) : PoolRouter :=
  match count with
  | O => p
  | S count =>
      let '(a, p) := spawn_single_routee p in let r := pr_router p in
      spawn_loop count (with_router p (mkRouter (rt_logic r) (rt_snapshots r) (rt_routees r ++ [a]) (rt_sent r)))
  end.
Definition spawn_routees (count : nat) (p : PoolRouter) : PoolRouter :=
  let p := spawn_loop count p in with_router p (set_routee_list (pr_router p) (rt_routees (pr_router p))).
Definition pool_activate (size : nat) (p : PoolRouter) : PoolRouter :=
  let p := spawn_routees size p in with_router p (set_routee_list (pr_router p) (rt_routees (pr_router p))).
Definition pool_add_routee (p : PoolRouter) : PoolRouter :=
  let '(a, p) := spawn_single_routee p in with_router p (set_routee_list (pr_router p) (rt_routees (pr_router p) ++ [a])).
Definition pool_remove_routee (p : PoolRouter) : PoolRouter :=
  match last (rt_routees (pr_router p)) with
  | None => p
  | Some a => mkPoolRouter (set_routee_list (pr_router p) (removelast (rt_routees (pr_router p)))) (remove_child (pr_self p) (address_id a)) (pr_spawned p)
  end.
Definition pool_resize (new_size : nat) (p : PoolRouter) : PoolRouter :=
  let n := length (rt_routees (pr_router p)) in
  if (n <? new_size)%nat then spawn_routees (new_size - n) p else Nat.iter (n - new_size) pool_remove_routee p.

Definition pool_on_failure (child code : Z) (p : PoolRouter) : SupervisionDirective * PoolRouter :=
  let directive := on_failure (pr_self p) code in
  let l := rt_routees (pr_router p) in
  match list_find (fun a => address_id a = child) l with
  | None => (directive, p)
  | Some (i, _) =>
      if bool_decide (directive = SD_Restart)
      then let '(a, p) := spawn_single_routee p in (SD_Restart, with_router p (set_routee_list (pr_router p) (<[i := a]> l)))
      else (directive, with_router p (set_routee_list (pr_router p) (delete i l)))
  end.

(** A message: [down] is what a [DownMsg] parses to, [None] for any other tag. *)
Definition pool_behavior (down : option (option (Z * Z))) (now : Z) (depth_of : Address -> Z) (cas : bool) (m : Message) (p : PoolRouter) : PoolRouter :=
  match down with
  | None => with_router p (route_message depth_of cas m (pr_router p))
  | Some None => p
  | Some (Some (child, code)) =>
      let p := mkPoolRouter (pr_router p) (self_handle_child_down (pr_self p) (Some (child, code)) now) (pr_spawned p) in
      (pool_on_failure child code p).2
  end.

(** ** Indices stay in range *)

(** A ring names routees that exist, and has an entry for each if it has virtual nodes. *)
Definition logic_ok (n : nat) (l : IRoutingLogic) : Prop :=
  match l with ConsistentHashingLogic _ ring => Forall (fun e => (e.2 < n)%nat) ring | RoundRobinLogic c => 0 <= c | RandomLogic x => 0 <= x | _ => True end.

Lemma rebuild_ring_ok vnodes hashes : Forall (fun e => (e.2 < length hashes)%nat) (rebuild_ring vnodes hashes).
Proof.
  unfold rebuild_ring. rewrite merge_sort_Permutation. unfold ring_entries. apply Forall_concat, Forall_lookup. intros i l Hl.
  rewrite list_lookup_imap in Hl. destruct (hashes !! i) as [h|] eqn:E; simplify_eq/=. apply Forall_fmap, Forall_true. intros v. simpl. by eapply lookup_lt_Some.
Qed.

Lemma on_routees_changed_ok n l routees : logic_ok n l -> logic_ok (length routees) (on_routees_changed l routees).
Proof.
  destruct l as [c|x|v ring|]; simpl; try done. intros _. pose proof (rebuild_ring_ok v ((fun a => hash_id (address_id a)) <$> routees)) as H.
  by rewrite length_fmap in H.
Qed.

Lemma ring_lower_bound_in key ring e : ring_lower_bound key ring = Some e -> e ∈ ring.
Proof. induction ring as [|x ring IH]; simpl; [done|]. destruct (x.1 <? key); intros E; [right; auto|]. injection E as ->. left. Qed.

Lemma smallest_loop_range depths : forall i best m n, (best < n)%nat -> (i + length depths <= n)%nat -> (smallest_loop depths i best m < n)%nat.
Proof.
  induction depths as [|d depths IH]; intros i best m n Hb Hl; simpl in *; [done|]. destruct (d <? m); apply IH; lia.
Qed.
Lemma xorshift_nonneg x : 0 <= x -> 0 <= xorshift64 x.
Proof.
  intros Hx. unfold xorshift64. pose proof (fun z => u64_range z) as Hu.
  assert (H1 : 0 <= Z.lxor x (u64 (Z.shiftl x 13))) by (apply Z.lxor_nonneg; pose proof (Hu (Z.shiftl x 13)); lia).
  set (y := Z.lxor x _) in *. assert (H2 : 0 <= Z.lxor y (Z.shiftr y 7)) by (apply Z.lxor_nonneg; pose proof (proj2 (Z.shiftr_nonneg y 7) H1); lia).
  apply Z.lxor_nonneg. pose proof (Hu (Z.shiftl (Z.lxor y (Z.shiftr y 7)) 17)). lia.
Qed.

Lemma select_in_range l n key states cas :
  (0 < n)%nat -> logic_ok n l -> ((select_routee l n key states cas).1 < n)%nat /\ logic_ok n (select_routee l n key states cas).2.
Proof.
  intros Hn Hl. assert (Hmod : forall z, (Z.to_nat (z mod Z.of_nat n) < n)%nat) by (intros z; pose proof (Z.mod_pos_bound z (Z.of_nat n)); lia).
  assert (E0 : (n =? 0)%nat = false) by (apply Nat.eqb_neq; lia).
  destruct l as [c|x|v ring|]; simpl in *; rewrite ?E0; simpl.
  - split; [apply Hmod|]. pose proof (u64_range (c + 1)). lia.
  - split; [apply Hmod|]. destruct cas; [by apply xorshift_nonneg|done].
  - destruct n as [|n]; [lia|]. destruct ring as [|first ring]; [split; [lia|done]|]. split; [|done].
    destruct (ring_lower_bound key (first :: ring)) as [e|] eqn:E.
    + apply ring_lower_bound_in in E. rewrite Forall_forall in Hl. by apply Hl.
    + by apply Forall_cons_1 in Hl as [? _].
  - split; [|done]. apply smallest_loop_range; [lia|]. rewrite length_fmap, length_seq. lia.
Qed.

Definition router_ok (r : Router) : Prop := logic_ok (length (rt_routees r)) (rt_logic r).

(** One message, one routee. *)
Lemma route_message_spec depth_of cas m r :
  router_ok r ->
  let r' := route_message depth_of cas m r in
  router_ok r' /\ rt_routees r' = rt_routees r /\
  match rt_routees r with [] => rt_sent r' = rt_sent r | _ => exists a, a ∈ rt_routees r /\ rt_sent r' = rt_sent r ++ [(a, m)] end.
Proof.
  intros Hok. unfold route_message. destruct (rt_routees r) as [|a0 l0] eqn:El; [done|]. rewrite <- El.
  unfold router_ok in *. assert (Hn : (0 < length (rt_routees r))%nat) by (rewrite El; simpl; lia).
  destruct (select_in_range (rt_logic r) (length (rt_routees r)) (key_of m) (if rt_snapshots r then depth_of <$> rt_routees r else []) cas Hn Hok) as [Hi Hl].
  destruct (select_routee _ _ _ _ _) as [i l]. simpl in *. destruct (lookup_lt_is_Some_2 _ _ Hi) as [a Ha]. rewrite Ha.
  split; [done|]. split; [done|]. exists a. split; [|done]. by eapply list_elem_of_lookup_2.
Qed.

(** ** The life of a pool *)

Context `{!Inj (=) (=) spawned}.

(** The routees are distinct actors this pool has spawned. *)
Definition own_routees (k : nat) (l : list Address) : Prop := NoDup l /\ Forall (fun a => exists j, (j < k)%nat /\ a = spawned j) l.
Definition router_pool_ok (p : PoolRouter) : Prop := router_ok (pr_router p) /\ own_routees (pr_spawned p) (rt_routees (pr_router p)).

Lemma own_sublist k l l' : l' `sublist_of` l -> own_routees k l -> own_routees k l'.
Proof.
  intros Hs [Hn Hf]. split; [by eapply sublist_NoDup|]. apply Forall_forall. intros a Ha.
  rewrite Forall_forall in Hf. apply Hf. by eapply elem_of_sublist.
Qed.
Lemma own_spawn k l l' : l' ≡ₚ spawned k :: l -> own_routees k l -> own_routees (S k) l'.
Proof.
  intros Hp [Hn Hf]. unfold own_routees. rewrite Hp. split.
  - constructor; [|done]. intros Hin. rewrite Forall_forall in Hf. destruct (Hf _ Hin) as (j & Hj & E). apply (inj spawned) in E. lia.
  - constructor; [by exists k; split; [lia|]|]. eapply Forall_impl; [done|]. intros a (j & ? & ->). exists j. split; [lia|done].
Qed.

Lemma set_routee_list_ok r l : router_ok r -> router_ok (set_routee_list r l).
Proof. apply on_routees_changed_ok. Qed.
Lemma set_routing_logic_ok l r : logic_ok (length (rt_routees r)) l -> router_ok (set_routing_logic l r).
Proof. apply on_routees_changed_ok. Qed.

Lemma spawn_loop_spec count : forall p,
  let p' := spawn_loop count p in
  rt_logic (pr_router p') = rt_logic (pr_router p) /\ rt_sent (pr_router p') = rt_sent (pr_router p) /\
  rt_routees (pr_router p') = rt_routees (pr_router p) ++ (spawned <$> seq (pr_spawned p) count) /\
  pr_spawned p' = (pr_spawned p + count)%nat /\
  (own_routees (pr_spawned p) (rt_routees (pr_router p)) -> own_routees (pr_spawned p') (rt_routees (pr_router p'))).
Proof.
  induction count as [|count IH]; intros p; simpl; [by rewrite app_nil_r, Nat.add_0_r|].
  match goal with |- context [spawn_loop count ?q] => destruct (IH q) as (El & Es & Er & En & Ho) end. simpl in *.
  rewrite El, Es, En. split; [done|]. split; [done|]. split; [by rewrite Er, <- app_assoc|]. split; [lia|].
  rewrite <- En. intros Hown. apply Ho. eapply own_spawn; [|done]. apply Permutation_sym, Permutation_cons_append.
Qed.

Lemma spawn_routees_ok count p : router_pool_ok p -> router_pool_ok (spawn_routees count p).
Proof.
  intros [Hr Ho]. destruct (spawn_loop_spec count p) as (El & _ & _ & _ & Hown). split; [|by apply Hown].
  unfold router_ok, spawn_routees. simpl. rewrite El. by eapply on_routees_changed_ok.
Qed.
Lemma pool_remove_ok p : router_pool_ok p -> router_pool_ok (pool_remove_routee p).
Proof.
  intros [Hr Ho]. unfold pool_remove_routee. destruct (last _) as [a|] eqn:E; [|done]. split; [by apply set_routee_list_ok|]. simpl.
  apply last_Some in E as [l' E]. rewrite E, removelast_last. eapply own_sublist; [|done]. rewrite E. by apply sublist_inserts_r.
Qed.
Lemma pool_resize_ok n p : router_pool_ok p -> router_pool_ok (pool_resize n p).
Proof.
  intros Hp. unfold pool_resize. destruct (Nat.ltb _ n); [by apply spawn_routees_ok|]. generalize (length (rt_routees (pr_router p)) - n)%nat. intros k.
  induction k as [|k IH]; simpl; [done|]. by apply pool_remove_ok.
Qed.
Lemma pool_on_failure_ok child code p : router_pool_ok p -> router_pool_ok (pool_on_failure child code p).2.
Proof.
  intros [Hr Ho]. unfold pool_on_failure. destruct (list_find _ _) as [[i a]|] eqn:E; [|done]. apply list_find_Some in E as (Hi & _).
  case_bool_decide; simpl; (split; [by apply set_routee_list_ok|]); simpl.
  - eapply own_spawn; [|eapply own_sublist, Ho; apply (sublist_delete _ i)].
    rewrite insert_take_drop by (by eapply lookup_lt_Some). rewrite delete_take_drop. apply Permutation_sym, Permutation_middle.
  - eapply own_sublist, Ho. apply sublist_delete.
Qed.

(** Everything that happens to a pool, one message or call at a time. *)
Inductive PoolEvent :=
| PE_Message (down : option (option (Z * Z))) (now : Z) (depth_of : Address -> Z) (cas : bool) (m : Message)
| PE_Broadcast (m : Message)
| PE_Add
| PE_Remove
| PE_Resize (n : nat)
| PE_Logic (l : IRoutingLogic).

Definition pool_step (p : PoolRouter) (e : PoolEvent) : PoolRouter :=
  match e with
  | PE_Message down now depth_of cas m => pool_behavior down now depth_of cas m p
  | PE_Broadcast m => with_router p (broadcast_to_routees m (pr_router p))
  | PE_Add => pool_add_routee p
  | PE_Remove => pool_remove_routee p
  | PE_Resize n => pool_resize n p
  | PE_Logic l => with_router p (set_routing_logic l (pr_router p))
  end.

(** A strategy as its constructor leaves it. *)
Definition fresh_logic (l : IRoutingLogic) : Prop :=
  match l with RoundRobinLogic c => c = 0 | RandomLogic x => 0 <= x | ConsistentHashingLogic _ ring => ring = [] | SmallestMailboxLogic => True end.
Definition fresh_event (e : PoolEvent) : Prop := match e with PE_Logic l => fresh_logic l | _ => True end.

Lemma fresh_logic_ok n l : fresh_logic l -> logic_ok n l.
Proof. destruct l; simpl; try lia; try done. by intros ->. Qed.

Lemma pool_step_ok p e : fresh_event e -> router_pool_ok p -> router_pool_ok (pool_step p e).
Proof.
  intros He Hp. destruct e as [down now depth_of cas m|m| | |n|l]; simpl in *.
  - destruct down as [[[child code]|]|]; simpl; [by apply pool_on_failure_ok|done|]. destruct Hp as [Hr Ho].
    destruct (route_message_spec depth_of cas m (pr_router p) Hr) as (Hr' & El & _). split; [done|]. simpl. by rewrite El.
  - done.
  - destruct Hp as [Hr Ho]. split; [by apply set_routee_list_ok|]. simpl. eapply own_spawn, Ho. apply Permutation_sym, Permutation_cons_append.
  - by apply pool_remove_ok.
  - by apply pool_resize_ok.
  - destruct Hp as [Hr Ho]. split; [|done]. by apply set_routing_logic_ok, fresh_logic_ok.
Qed.
Lemma pool_history_ok p es : Forall fresh_event es -> router_pool_ok p -> router_pool_ok (foldl pool_step p es).
Proof. intros Hes. revert p. induction Hes as [|e es He _ IH]; intros p Hp; simpl; [done|]. by apply IH, pool_step_ok. Qed.
Lemma pool_start_ok l pol size : fresh_logic l -> router_pool_ok (pool_activate size (pool_new l pol)).
Proof.
  intros Hl. unfold pool_activate. assert (Hp : router_pool_ok (spawn_routees size (pool_new l pol))).
  { apply spawn_routees_ok. split; [by apply (fresh_logic_ok 0)|]. split; constructor. }
  destruct Hp as [Hr Ho]. split; [by apply set_routee_list_ok|done].
Qed.

(** After any history of messages, failures of routees, additions, removals,
    resizes and changes of the strategy the routees of a pool are distinct actors the
    pool has spawned; the next message that is not a failure report is forwarded
    to exactly one of them, unchanged, and is lost only if there are none. *)
Theorem pool_forwards_once l pol size es now depth_of cas m :
  fresh_logic l -> Forall fresh_event es ->
  let p := foldl pool_step (pool_activate size (pool_new l pol)) es in
  let p' := pool_behavior None now depth_of cas m p in
  let routees := rt_routees (pr_router p) in
  own_routees (pr_spawned p) routees /\ rt_routees (pr_router p') = routees /\
  match routees with
  | [] => rt_sent (pr_router p') = rt_sent (pr_router p)
  | _ => exists a, a ∈ routees /\ rt_sent (pr_router p') = rt_sent (pr_router p) ++ [(a, m)]
  end.
Proof.
  intros Hl Hes p p' routees. destruct (pool_history_ok _ es Hes (pool_start_ok l pol size Hl)) as [Hr Ho]. split; [done|].
  destruct (route_message_spec depth_of cas m (pr_router p) Hr) as (_ & E & H). by split.
Qed.

(** A resize leaves exactly as many routees as were asked for. *)
Lemma remove_shrinks k : forall p, length (rt_routees (pr_router (Nat.iter k pool_remove_routee p))) = (length (rt_routees (pr_router p)) - k)%nat.
Proof.
  induction k as [|k IH]; intros p; simpl; [lia|]. specialize (IH p). set (q := Nat.iter k pool_remove_routee p) in *.
  unfold pool_remove_routee. destruct (last _) as [a|] eqn:E.
  - apply last_Some in E as [l' E]. simpl. rewrite E, removelast_last. rewrite E, length_app in IH. simpl in IH. lia.
  - apply last_None in E. rewrite E in *. simpl in *. lia.
Qed.
Lemma resize_exact n p : length (rt_routees (pr_router (pool_resize n p))) = n.
Proof.
  unfold pool_resize. destruct (Nat.ltb_spec (length (rt_routees (pr_router p))) n) as [H|H].
  - destruct (spawn_loop_spec (n - length (rt_routees (pr_router p))) p) as (_ & _ & E & _). unfold spawn_routees. simpl.
    rewrite E, length_app, length_fmap, length_seq. lia.
  - rewrite remove_shrinks. lia.
Qed.

(** ** Every routee has its turn *)

Definition route_all (ms : list Message) (r : Router) : Router := foldl (fun r m => route_message (fun _ => 0) true m r) r ms.

Lemma round_robin_run ms : forall c snaps l sent,
  l <> [] -> 0 <= c -> c + zlen ms < 2 ^ 64 ->
  exists picked, rt_sent (route_all ms (mkRouter (RoundRobinLogic c) snaps l sent)) = sent ++ zip picked ms /\ length picked = length ms /\
    forall j, (j < length ms)%nat -> picked !! j = l !! Z.to_nat ((c + Z.of_nat j) mod zlen l).
Proof.
  induction ms as [|m ms IH]; intros c snaps l sent Hl Hc Hb; [by exists []; rewrite app_nil_r; repeat split; simpl; lia|].
  rewrite zlen_cons in Hb. pose proof (zlen_nonneg ms) as Hz.
  change (route_all (m :: ms) ?r) with (route_all ms (route_message (fun _ => 0) true m r)).
  unfold route_message. simpl. destruct l as [|a0 l0] eqn:El; [done|]. rewrite <- El in *. clear Hl.
  assert (Hn : (0 < length l)%nat) by (rewrite El; simpl; lia).
  replace (length l =? 0)%nat with false by (symmetry; apply Nat.eqb_neq; lia).
  change (Z.of_nat (length l)) with (zlen l). pose proof (Z.mod_pos_bound c (zlen l)) as Hm. unfold zlen in Hm at 1 3 4.
  destruct (lookup_lt_is_Some_2 l (Z.to_nat (c mod zlen l))) as [a Ha]; [unfold zlen in *; lia|]. rewrite Ha.
  rewrite u64_small by lia.
  destruct (IH (c + 1) snaps l (sent ++ [(a, m)])) as (picked & E & Elen & Hp); [by rewrite El|lia|lia|].
  exists (a :: picked). simpl. split; [by rewrite E, <- app_assoc|]. split; [lia|]. intros [|j] Hj; simpl.
  - by rewrite Z.add_0_r.
  - rewrite Hp by (simpl in Hj; lia). do 2 f_equal. f_equal. lia.
Qed.

(** [n] messages through a round robin over [n] routees: one each. *)
Lemma round_robin_lap ms c snaps l sent :
  length ms = length l -> l <> [] -> 0 <= c -> c + zlen ms < 2 ^ 64 ->
  exists picked, rt_sent (route_all ms (mkRouter (RoundRobinLogic c) snaps l sent)) = sent ++ zip picked ms /\ picked ≡ₚ l.
Proof.
  intros El Hl Hc Hb. destruct (round_robin_run ms c snaps l sent Hl Hc Hb) as (picked & E & Elen & Hp). exists picked. split; [done|].
  assert (Hn : (0 < length l)%nat) by (destruct l; [done|simpl; lia]).
  set (r := Z.to_nat (c mod zlen l)). pose proof (Z.mod_pos_bound c (zlen l)) as Hr. unfold zlen in Hr.
  assert (picked = drop r l ++ take r l) as ->; [|rewrite Permutation_app_comm; by rewrite take_drop].
  apply list_eq. intros j. destruct (decide (j < length l)%nat) as [Hj|Hj].
  - rewrite Hp by lia. assert (Hrl : (r < length l)%nat) by (subst r; unfold zlen in *; lia).
    assert (Ec : (c + Z.of_nat j) mod zlen l = (Z.of_nat r + Z.of_nat j) mod zlen l).
    { subst r. rewrite Z2Nat.id by (unfold zlen; lia). by rewrite Zplus_mod_idemp_l. }
    rewrite Ec. destruct (decide (r + j < length l)%nat) as [Hs|Hs].
    + rewrite lookup_app_l by (rewrite length_drop; lia). rewrite lookup_drop. f_equal. rewrite Z.mod_small by (unfold zlen; lia). lia.
    + rewrite lookup_app_r by (rewrite length_drop; lia). rewrite length_drop, lookup_take_lt by lia. f_equal.
      replace (Z.of_nat r + Z.of_nat j) with (Z.of_nat (r + j - length l) + 1 * zlen l) by (unfold zlen; lia).
      rewrite Z_mod_plus_full, Z.mod_small by (unfold zlen; lia). lia.
  - rewrite !lookup_ge_None_2; [done| |lia]. rewrite length_app, length_drop, length_take. lia.
Qed.
End Routers.

(** ** Load and keys *)

Lemma smallest_loop_min depths : forall i best m,
  let k := smallest_loop depths i best m in
  (k = best /\ Forall (fun d => m <= d) depths) \/
  exists j d, k = (i + j)%nat /\ depths !! j = Some d /\ d < m /\ Forall (fun e => d <= e) depths.
Proof.
  induction depths as [|d depths IH]; intros i best m; simpl; [by left|]. destruct (Z.ltb_spec d m) as [Hd|Hd].
  - right. destruct (IH (S i) i d) as [[-> Hf]|(j & e & -> & Hj & He & Hf)].
    + exists 0%nat, d. split; [lia|]. split; [done|]. split; [done|]. by constructor.
    + exists (S j), e. split; [lia|]. split; [done|]. split; [lia|]. constructor; [lia|done].
  - destruct (IH (S i) best m) as [[-> Hf]|(j & e & -> & Hj & He & Hf)]; [left; split; [done|by constructor]|].
    right. exists (S j), e. split; [lia|]. split; [done|]. split; [done|]. constructor; [lia|done].
Qed.

(** The routee the smallest-mailbox strategy picks has no more messages than any other. *)
Lemma smallest_mailbox_minimal n key states cas d :
  let i := (select_routee SmallestMailboxLogic n key states cas).1 in
  Forall (fun d => 0 <= d <= UINT32_MAX) states -> length states = n -> states !! i = Some d -> Forall (fun e => d <= e) states.
Proof.
  intros i Hs Hn Hd. subst i. simpl in Hd. destruct (Nat.eqb_spec n 0) as [->|Hn0].
  { destruct states; [constructor|done]. }
  assert (E : (fun i => default 0 (states !! i)) <$> seq 0 n = states).
  { subst n. clear. apply list_eq. intros i. rewrite list_lookup_fmap. destruct (states !! i) as [d|] eqn:Ei.
    - rewrite lookup_seq_lt by (by eapply lookup_lt_Some). simpl. by rewrite Ei.
    - rewrite lookup_seq_ge; [done|]. by apply lookup_ge_None. }
  rewrite E in Hd. destruct (smallest_loop_min states 0 0 UINT32_MAX) as [[Ek Hf]|(j & e & Ek & Hj & _ & Hf)]; rewrite Ek in Hd; simpl in Hd.
  - assert (d <= UINT32_MAX) by (rewrite Forall_lookup in Hs; by apply (Hs _ _ Hd)).
    eapply Forall_impl; [exact Hf|]. simpl. lia.
  - replace d with e by congruence. done.
Qed.

(** ** Stashes *)

Section Stash.
Context {Message : Type}.

Record StashBuffer := mkStash { sb_buf : list Message; sb_capacity : nat }.
Definition stash_new (capacity : nat) : StashBuffer := mkStash [] capacity.
Definition try_stash (m : Message) (b : StashBuffer) : bool * StashBuffer :=
  if (sb_capacity b <=? length (sb_buf b))%nat then (false, b) else (true, mkStash (sb_buf b ++ [m]) (sb_capacity b)).
Definition unstash_one (b : StashBuffer) : option Message * StashBuffer :=
  match sb_buf b with [] => (None, b) | m :: l => (Some m, mkStash l (sb_capacity b)) end.
(** The loop of [unstash_all], over the messages that are left. *)
Fixpoint unstash_loop (l result : list Message) : list Message :=
  match l with [] => result | m :: l => unstash_loop l (result ++ [m]) end.
Definition unstash_all (b : StashBuffer) : list Message * StashBuffer := (unstash_loop (sb_buf b) [], mkStash [] (sb_capacity b)).
Definition stash_clear (b : StashBuffer) : StashBuffer := mkStash [] (sb_capacity b).
Definition stash_full (b : StashBuffer) : bool := (sb_capacity b <=? length (sb_buf b))%nat.

Inductive StashEvent := StashPut (m : Message) | StashOne | StashAll.
(** What was taken in, what was handed back, and the buffer. *)
Definition stash_step (s : list Message * list Message * StashBuffer) (e : StashEvent) : list Message * list Message * StashBuffer :=
  let '(put, got, b) := s in
  match e with
  | StashPut m => let '(ok, b) := try_stash m b in (if ok then put ++ [m] else put, got, b)
  | StashOne => let '(m, b) := unstash_one b in (put, got ++ option_list m, b)
  | StashAll => let '(l, b) := unstash_all b in (put, got ++ l, b)
  end.

Lemma unstash_loop_all l : forall r, unstash_loop l r = r ++ l.
Proof. induction l as [|m l IH]; intros r; simpl; [by rewrite app_nil_r|]. by rewrite IH, <- app_assoc. Qed.

(** A stash replays what it took, in order, and never holds more than its capacity. *)
Lemma stash_replays (capacity : nat) (es : list StashEvent) :
  let '(put, got, b) := foldl stash_step ([], [], stash_new capacity) es in
  put = got ++ sb_buf b /\ sb_capacity b = capacity /\ (length (sb_buf b) <= capacity)%nat.
Proof.
  induction es as [|e es IH] using rev_ind; [by repeat split; simpl; lia|]. rewrite foldl_app. simpl.
  destruct (foldl stash_step _ es) as [[put got] b]. destruct IH as (E & Ec & Hl). destruct e as [m| |]; simpl.
  - unfold try_stash. destruct (Nat.leb_spec (sb_capacity b) (length (sb_buf b))); [done|]. simpl. rewrite E, <- app_assoc, length_app. simpl. split; [done|]. split; [done|lia].
  - unfold unstash_one. destruct (sb_buf b) as [|m l] eqn:El; simpl; rewrite ?app_nil_r.
    + by rewrite El.
    + simpl in Hl. rewrite <- app_assoc. split; [done|]. split; [done|]. lia.
  - rewrite unstash_loop_all. simpl. rewrite app_nil_r. split; [done|]. split; [done|]. lia.
Qed.
End Stash.

(** ** A pool in action *)

(** Two routees; the first fails, a third is added, the strategy changes. *)
Lemma pool_forwards_once_witness :
  let pol := mkPolicy 3 5000000000 false false ∅ in
  let es := [PE_Message (Some (Some (0, 7))) 10 (fun _ => 0) true 100; PE_Add; PE_Logic (ConsistentHashingLogic 2 []); PE_Message None 20 (fun _ => 0) true 101] in
  let p := foldl (pool_step (Message := Z) Z.of_nat (fun z => z) (fun m => m) (fun n => n)) (pool_activate Z.of_nat (fun z => z) (fun n => n) 2 (pool_new (RoundRobinLogic 0) pol)) es in
  rt_routees (pr_router p) = [2; 1; 3]%nat /\ rt_sent (pr_router p) = [(2%nat, 101)] /\
  exists a, a ∈ rt_routees (pr_router p) /\
    rt_sent (pr_router (pool_behavior Z.of_nat (fun z => z) (fun m => m) (fun n => n) None 30 (fun _ => 0) true 102 p)) = rt_sent (pr_router p) ++ [(a, 102)].
Proof.
  intros pol es p. split; [vm_compute; reflexivity|]. split; [vm_compute; reflexivity|].
  destruct (pool_forwards_once Z.of_nat (fun z => z) (fun m => m) (fun n => n) (RoundRobinLogic 0) pol 2 es 30 (fun _ => 0) true 102) as (_ & _ & H); [done|by repeat constructor|].
  exact H.
Defined.

(** Keys that are not hashed: the default extractor hands the type tag, a 32-bit
    number, to a ring of 64-bit hashes, so that (for routees with these hashes, 128 virtual
    nodes each) every type of message goes to one and the same routee. *)
Lemma default_key_one_routee key :
  0 <= key < 2 ^ 32 ->
  (select_routee (ConsistentHashingLogic 128 (rebuild_ring 128 [1; 2; 3; 4])) 4 key [] true).1 =
  (select_routee (ConsistentHashingLogic 128 (rebuild_ring 128 [1; 2; 3; 4])) 4 0 [] true).1.
Proof.
  intros Hk. assert (E : exists e l, rebuild_ring 128 [1; 2; 3; 4] = e :: l /\ 2 ^ 32 <= e.1) by (eexists _, _; split; [vm_compute; reflexivity|vm_compute; discriminate]).
  destruct E as (e & l & -> & He). simpl. rewrite !(proj2 (Z.ltb_ge e.1 _)) by lia. done.
Qed.
