(* ===== verification/SlabSource.v ===== *)
(** * Where slabs come from

    [adt/size_class.hpp], [mem/size_class.hpp], [mem/segment_provider.cpp] and
    [mem/super_carrier.cpp]: the size classes, the mapped segments that slabs are
    carved from, and the reserved range of the super carrier.  Addresses are
    numbers, 0 the null pointer.  The provider works under its lock.  What [mmap]
    and [mprotect] answer is an argument; that a mapping does not overlap one that
    is still there is a hypothesis.  The theorems: the arithmetic of size classes;
    slabs that are out never overlap and their segment stays mapped; and what
    happens to both when a super carrier is in use. *)

From S2P Require Import Prelude.
From stdpp Require Import base numbers list gmap fin_maps.

#[local] Open Scope Z_scope.

(** ** Size classes *)

Inductive SizeClass := k32B | k64B | k128B | k256B | k512B | k1KB | k2KB | k4KB.
#[export] Instance SizeClass_eq_dec : EqDecision SizeClass.
Proof. solve_decision. Defined.

Definition all_classes : list SizeClass := [k32B; k64B; k128B; k256B; k512B; k1KB; k2KB; k4KB].
Definition class_index (sc : SizeClass) : nat :=
  match sc with k32B => 0 | k64B => 1 | k128B => 2 | k256B => 3 | k512B => 4 | k1KB => 5 | k2KB => 6 | k4KB => 7 end.
Definition kSizeClassTable : list Z := [32; 64; 128; 256; 512; 1024; 2048; 4096].
Definition size_for_class (sc : SizeClass) : Z := default 0 (kSizeClassTable !! class_index sc).

(** The loop of [class_for_size], with the default after it. *)
Fixpoint class_loop (user_bytes : Z) (l : list SizeClass) : SizeClass :=
  match l with [] => k4KB | sc :: l => if user_bytes <=? size_for_class sc then sc else class_loop user_bytes l end.
Definition class_for_size (user_bytes : Z) : SizeClass := class_loop user_bytes all_classes.

Definition kAllocOverhead : Z := 40.
Definition kAllocAlignment : Z := 32.
Definition block_size (sc : SizeClass) : Z :=
  Z.land (size_for_class sc + kAllocOverhead + kAllocAlignment - 1) (UINT64_MAX - (kAllocAlignment - 1)).

Fixpoint user_size_loop (block_sz : Z) (l : list SizeClass) : Z :=
  match l with
  | [] => if kAllocOverhead <? block_sz then block_sz - kAllocOverhead else 0
  | sc :: l => if block_size sc =? block_sz then size_for_class sc else user_size_loop block_sz l
  end.
Definition user_size (block_sz : Z) : Z := user_size_loop block_sz all_classes.

Definition kBaseSlabSize : Z := 65536.
Definition kMultiplier : list Z := [1; 1; 1; 2; 4; 4; 8; 8].
Definition slab_size (sc : SizeClass) : Z := kBaseSlabSize * default 0 (kMultiplier !! class_index sc).

(** A block has room for its header, its user data and its footer, is aligned, and
    wastes less than an alignment unit. *)
Lemma block_size_spec sc :
  block_size sc mod kAllocAlignment = 0 /\ size_for_class sc + kAllocOverhead <= block_size sc < size_for_class sc + kAllocOverhead + kAllocAlignment.
Proof. by destruct sc. Qed.
Lemma user_size_inverse sc : user_size (block_size sc) = size_for_class sc.
Proof. by destruct sc. Qed.
Lemma slab_holds_blocks sc : 0 < block_size sc /\ 15 * block_size sc <= slab_size sc /\ slab_size sc mod kBaseSlabSize = 0 /\ kBaseSlabSize <= slab_size sc <= 524288.
Proof. by destruct sc. Qed.

(** The class of a request is the smallest that holds it. *)
Lemma class_for_size_fits n sc :
  n <= 4096 -> n <= size_for_class (class_for_size n) /\ (n <= size_for_class sc -> size_for_class (class_for_size n) <= size_for_class sc).
Proof.
  intros Hn. unfold class_for_size, class_loop, all_classes.
  repeat (match goal with |- context [?a <=? ?b] => destruct (Z.leb_spec a b) end; [split; [done|]; destruct sc; intros; unfold size_for_class in *; simpl in *; lia|]).
  unfold size_for_class in *. simpl in *. lia.
Qed.
(** A request of more than the largest class is given a block of the largest class. *)
Lemma oversized_request_truncated n : 4096 < n -> size_for_class (class_for_size n) < n.
Proof.
  intros Hn. unfold class_for_size, class_loop, all_classes.
  repeat (match goal with |- context [?a <=? ?b] => destruct (Z.leb_spec a b) as [H|_]; [unfold size_for_class in H; simpl in H; lia|] end).
  unfold size_for_class. simpl. lia.
Qed.

(** ** The super carrier *)

(** [carrier_base] 0: not initialized. *)
Record SuperCarrier := mkCarrier {
  carrier_base : Z; carrier_size : Z; carve_offset : Z; released_bytes : Z; numa_node_count : Z; numa_carve_offsets : list Z; numa_node_size : Z
}.
Definition carrier_none : SuperCarrier := mkCarrier 0 0 0 0 1 (replicate 16 0) 0.
Definition set_carve_offset (c : SuperCarrier) (o : Z) : SuperCarrier :=
  mkCarrier (carrier_base c) (carrier_size c) o (released_bytes c) (numa_node_count c) (numa_carve_offsets c) (numa_node_size c).
Definition set_numa_offset (c : SuperCarrier) (n : nat) (o : Z) : SuperCarrier :=
  mkCarrier (carrier_base c) (carrier_size c) (carve_offset c) (released_bytes c) (numa_node_count c) (<[n := o]> (numa_carve_offsets c)) (numa_node_size c).

(** [mapped]: the address of the reservation, huge pages or not. *)
Definition carrier_init (size_bytes node_count : Z) (mapped : option Z) (c : SuperCarrier) : bool * SuperCarrier :=
  match mapped with
  | None => (false, c)
  | Some base =>
      (true, if 1 <? node_count
             then let node_size := size_bytes / node_count in
                  mkCarrier base size_bytes (node_size * node_count) 0 node_count
                    (replicate (Z.to_nat node_count) 0 ++ drop (Z.to_nat node_count) (numa_carve_offsets c)) node_size
             else mkCarrier base size_bytes 0 0 node_count (numa_carve_offsets c) (numa_node_size c))
  end.
Definition is_initialized (c : SuperCarrier) : bool := negb (carrier_base c =? 0).

(** [carve_from_offset] without interference: the address and the new offset. *)
Definition carve_from_offset (offset base region_base region_end size : Z) (mprotect_ok : bool) : option Z * Z :=
  let off := offset in
  let offset := u64 (offset + size) in
  if region_end <? u64 (region_base + off + size) then (None, u64 (offset - size))
  else if mprotect_ok then (Some (base + region_base + off), offset)
  else (None, u64 (offset - size)).
Definition carve (size : Z) (mprotect_ok : bool) (c : SuperCarrier) : option Z * SuperCarrier :=
  let '(a, o) := carve_from_offset (carve_offset c) (carrier_base c) 0 (carrier_size c) size mprotect_ok in (a, set_carve_offset c o).
Definition carve_numa (size : Z) (node : nat) (mprotect_ok : bool) (c : SuperCarrier) : option Z * SuperCarrier :=
  if carrier_base c =? 0 then (None, c)
  else if (1 <? numa_node_count c) && (Z.of_nat node <? numa_node_count c) then
    let region_start := Z.of_nat node * numa_node_size c in
    let '(a, o) := carve_from_offset (default 0 (numa_carve_offsets c !! node)) (carrier_base c) region_start (region_start + numa_node_size c) size mprotect_ok in
    let c := set_numa_offset c node o in
    match a with Some _ => (a, c) | None => carve size mprotect_ok c end
  else carve size mprotect_ok c.
Definition carrier_release (slab size : Z) (c : SuperCarrier) : SuperCarrier :=
  if carrier_base c =? 0 then c
  else if (slab <? carrier_base c) || (carrier_base c + carrier_size c <=? slab) then c
  else mkCarrier (carrier_base c) (carrier_size c) (carve_offset c) (u64 (released_bytes c + size)) (numa_node_count c) (numa_carve_offsets c) (numa_node_size c).

(** *** Carving from several threads *)

(** A thread between its addition to the offset and its check; [cv_out] are the
    slabs handed out, by offset and size. *)
Inductive CarveThread := CarveOut | CarveAdded (off size : Z).
Record CarveState := mkCarve { cv_offset : Z; cv_threads : list CarveThread; cv_out : list (Z * Z) }.

Inductive carve_step (region_end : Z) : CarveState -> CarveState -> Prop :=
| carve_add s i size :
    cv_threads s !! i = Some CarveOut -> 0 < size ->
    carve_step region_end s (mkCarve (u64 (cv_offset s + size)) (<[i := CarveAdded (cv_offset s) size]> (cv_threads s)) (cv_out s))
| carve_take s i off size :
    cv_threads s !! i = Some (CarveAdded off size) -> off + size <= region_end ->
    carve_step region_end s (mkCarve (cv_offset s) (<[i := CarveOut]> (cv_threads s)) ((off, size) :: cv_out s))
| carve_undo s i off size :
    cv_threads s !! i = Some (CarveAdded off size) -> region_end < off + size ->
    carve_step region_end s (mkCarve (u64 (cv_offset s - size)) (<[i := CarveOut]> (cv_threads s)) (cv_out s))
| carve_refused s i off size :   (* [mprotect] fails *)
    cv_threads s !! i = Some (CarveAdded off size) -> off + size <= region_end ->
    carve_step region_end s (mkCarve (u64 (cv_offset s - size)) (<[i := CarveOut]> (cv_threads s)) (cv_out s)).

Definition overlap (a b : Z * Z) : Prop := a.1 < b.1 + b.2 /\ b.1 < a.1 + a.2.

(** When the carrier is nearly used up, an addition that is undone late gives the
    same bytes to two threads; the sizes are slab sizes, and no [mprotect] fails. *)
Lemma carve_race_overlaps :
  exists s a b, steps (carve_step 655360) (mkCarve 393216 (replicate 4 CarveOut) []) s /\ cv_out s = [a; b] /\ overlap a b /\
    Forall (fun x => exists sc, x.2 = slab_size sc) [a; b].
Proof.
  eexists _, (458752, 131072), (524288, 65536). split.
  - let norm := simpl; repeat match goal with |- context [u64 ?x] => let v := eval vm_compute in (u64 x) in change (u64 x) with v end in
    let add i n := eapply steps_step; [apply (carve_add _ _ i n); [reflexivity|lia]|]; norm in
    let undo i := eapply steps_step; [eapply (carve_undo _ _ i); [reflexivity|lia]|]; norm in
    let take i := eapply steps_step; [eapply (carve_take _ _ i); [reflexivity|lia]|]; norm in
    add 0%nat 524288; add 1%nat 131072; undo 0%nat; add 2%nat 65536; take 2%nat; undo 1%nat; add 3%nat 131072; take 3%nat; apply steps_refl.
  - split; [reflexivity|]. split; [split; simpl; lia|]. constructor; [by exists k256B|]. constructor; [by exists k32B|constructor].
Qed.

(** ** The provider *)

Record Segment := mkSegment { sg_base : Z; sg_size : Z; sg_offset : Z; sg_refs : Z }.
(** [sl_owner] names the cache that owns the slab, [None] for a null pointer. *)
Record SlabRecord := mkSlabRecord { sl_segment : nat; sl_size : Z; sl_owner : option nat; sl_region : Z; sl_class : SizeClass }.
Definition new_record (segment : nat) (size : Z) : SlabRecord := mkSlabRecord segment size None 4 k32B.

(** [sp_unmapped]: the calls of [munmap]; [sp_huge]: explicit and transparent huge
    pages are available; [sp_counts]: segments with huge, transparent huge and
    regular pages. *)
Record SegmentProvider := mkProvider {
  sp_segments : list Segment; sp_records : gmap Z SlabRecord; sp_carrier : option SuperCarrier; sp_huge : bool * bool; sp_counts : Z * Z * Z;
  sp_unmapped : list (Z * Z)
}.
Definition provider_init : SegmentProvider := mkProvider [] ∅ None (false, false) (0, 0, 0) [].
Definition set_super_carrier (c : option SuperCarrier) (s : SegmentProvider) : SegmentProvider :=
  mkProvider (sp_segments s) (sp_records s) c (sp_huge s) (sp_counts s) (sp_unmapped s).
Definition set_records (s : SegmentProvider) (segs : list Segment) (recs : gmap Z SlabRecord) : SegmentProvider :=
  mkProvider segs recs (sp_carrier s) (sp_huge s) (sp_counts s) (sp_unmapped s).

Definition kSegmentSize : Z := 2097152.

Definition carve_from_segment (sc : SizeClass) (s : SegmentProvider) : option (Z * SegmentProvider) :=
  let needed := slab_size sc in
  '(i, g) ← list_find (fun g => needed <= u64 (sg_size g - sg_offset g)) (sp_segments s);
  let slab := sg_base g + sg_offset g in
  Some (slab, set_records s (<[i := mkSegment (sg_base g) (sg_size g) (sg_offset g + needed) (u32 (sg_refs g + 1))]> (sp_segments s))
                (<[slab := new_record i needed]> (sp_records s))).

Definition add_segment (base alloc_size size : Z) (s : SegmentProvider) : SegmentProvider :=
  set_records s (sp_segments s ++ [mkSegment base alloc_size size 1]) (<[base := new_record (length (sp_segments s)) size]> (sp_records s)).
Definition count_pages (f : Z * Z * Z -> Z * Z * Z) (s : SegmentProvider) : SegmentProvider :=
  mkProvider (sp_segments s) (sp_records s) (sp_carrier s) (sp_huge s) (f (sp_counts s)) (sp_unmapped s).

(** [mapped]: what [mmap] answers with and without huge pages. *)
Definition allocate_new_segment (size : Z) (mapped : option Z * option Z) (s : SegmentProvider) : option Z * SegmentProvider :=
  let alloc_size := if kSegmentSize <? size then size else kSegmentSize in
  let regular :=
    match mapped.2 with
    | None => (None, s)
    | Some base =>
        (Some base, add_segment base alloc_size size
           (count_pages (fun '(h, t, r) => if (sp_huge s).2 then (h, u64 (t + 1), r) else (h, t, u64 (r + 1))) s))
    end in
  match mapped.1 with
  | Some base => if (sp_huge s).1 then (Some base, add_segment base alloc_size size (count_pages (fun '(h, t, r) => (u64 (h + 1), t, r)) s)) else regular
  | None => regular
  end.

Definition acquire_slab (sc : SizeClass) (mapped : option Z * option Z) (mprotect_ok : bool) (s : SegmentProvider) : option Z * SegmentProvider :=
  match carve_from_segment sc s with
  | Some (slab, s) => (Some slab, s)
  | None =>
      match sp_carrier s with
      | Some c =>
          if is_initialized c then
            let '(a, c) := carve (slab_size sc) mprotect_ok c in
            let s := set_super_carrier (Some c) s in
            match a with
            | Some slab => (Some slab, set_records s (sp_segments s) (<[slab := mkSlabRecord 0 (slab_size sc) None 4 sc]> (sp_records s)))
            | None => allocate_new_segment (slab_size sc) mapped s
            end
          else allocate_new_segment (slab_size sc) mapped s
      | None => allocate_new_segment (slab_size sc) mapped s
      end
  end.

Definition release_to_carrier (slab size : Z) (s : SegmentProvider) : SegmentProvider :=
  match sp_carrier s with Some c => if is_initialized c then set_super_carrier (Some (carrier_release slab size c)) s else s | None => s end.
Definition shift_record (idx : nat) (r : SlabRecord) : SlabRecord :=
  if (idx <? sl_segment r)%nat then mkSlabRecord (pred (sl_segment r)) (sl_size r) (sl_owner r) (sl_region r) (sl_class r) else r.

Definition release_slab (slab : Z) (sc : SizeClass) (s : SegmentProvider) : SegmentProvider :=
  match sp_records s !! slab with
  | None => release_to_carrier slab (slab_size sc) s
  | Some r =>
      let idx := sl_segment r in
      let s := set_records s (sp_segments s) (delete slab (sp_records s)) in
      match sp_segments s !! idx with
      | None => release_to_carrier slab (slab_size sc) s
      | Some g =>
          let refs := u32 (sg_refs g - 1) in
          if refs =? 0
          then mkProvider (delete idx (sp_segments s)) (shift_record idx <$> sp_records s) (sp_carrier s) (sp_huge s) (sp_counts s)
                 (sp_unmapped s ++ [(sg_base g, sg_size g)])
          else set_records s (<[idx := mkSegment (sg_base g) (sg_size g) (sg_offset g) refs]> (sp_segments s)) (sp_records s)
      end
  end.

Definition register_slab_owner (slab size : Z) (owner : nat) (region : Z) (sc : SizeClass) (s : SegmentProvider) : SegmentProvider :=
  match sp_records s !! slab with
  | Some r => set_records s (sp_segments s) (<[slab := mkSlabRecord (sl_segment r) size (Some owner) region sc]> (sp_records s))
  | None => s
  end.

(** The first record whose slab holds [p], in the order of the table; that of
    [lookup_slab] must have a segment. *)
Definition holds_ptr (p : Z) (x : Z * SlabRecord) : Prop := x.1 <= p < x.1 + sl_size x.2.
#[export] Instance holds_ptr_dec p x : Decision (holds_ptr p x).
Proof. unfold holds_ptr. apply _. Defined.
Definition lookup_slab (p : Z) (s : SegmentProvider) : option (Z * SlabRecord * Segment) :=
  '(_, (a, r)) ← list_find (fun x => holds_ptr p x /\ is_Some (sp_segments s !! sl_segment x.2)) (map_to_list (sp_records s));
  g ← sp_segments s !! sl_segment r;
  Some (a, r, g).
Definition provider_lookup (p : Z) (s : SegmentProvider) : option (Z * Z) :=
  match list_find (holds_ptr p) (map_to_list (sp_records s)) with
  | Some (_, (a, r)) => g ← sp_segments s !! sl_segment r; Some (sg_base g, sg_size g)
  | None => '(_, g) ← list_find (fun g => sg_base g <= p < sg_base g + sg_size g) (sp_segments s); Some (sg_base g, sg_size g)
  end.
Definition provider_stats (s : SegmentProvider) : Z * Z * (Z * Z * Z) :=
  (zlen (sp_segments s), sum_by sg_size (sp_segments s), sp_counts s).

(** *** Slabs never overlap *)

Definition refs_to (i : nat) (recs : gmap Z SlabRecord) : Z := Z.of_nat (size (filter (fun x : Z * SlabRecord => sl_segment x.2 = i) recs)).

Record segment_ok (g : Segment) : Prop := mkSegmentOk {
  so_base : 0 < sg_base g /\ sg_base g mod 4096 = 0 /\ sg_base g + sg_size g <= 140737488355328;
  so_offset : 0 <= sg_offset g <= sg_size g /\ sg_offset g mod 65536 = 0;
  so_refs : 0 < sg_refs g /\ 65536 * sg_refs g <= sg_offset g
}.
Definition apart (a n b m : Z) : Prop := a + n <= b \/ b + m <= a.
Definition slab_in (g : Segment) (a : Z) (r : SlabRecord) : Prop :=
  sg_base g <= a /\ a + sl_size r <= sg_base g + sg_offset g /\ (a - sg_base g) mod 65536 = 0 /\ 65536 <= sl_size r.

Record provider_ok (s : SegmentProvider) : Prop := mkProviderOk {
  po_carrier : sp_carrier s = None;
  po_segments : forall i g, sp_segments s !! i = Some g -> segment_ok g /\ sg_refs g = refs_to i (sp_records s);
  po_apart : forall i j g h, i <> j -> sp_segments s !! i = Some g -> sp_segments s !! j = Some h -> apart (sg_base g) (sg_size g) (sg_base h) (sg_size h);
  po_records : forall a r, sp_records s !! a = Some r -> exists g, sp_segments s !! sl_segment r = Some g /\ slab_in g a r;
  po_slabs_apart : forall a b r q, a <> b -> sp_records s !! a = Some r -> sp_records s !! b = Some q -> apart a (sl_size r) b (sl_size q)
}.

(** [mmap] gives pages of the user half of the address space that are not mapped. *)
Definition mapping_ok (base size : Z) (s : SegmentProvider) : Prop :=
  0 < base /\ base mod 4096 = 0 /\ base + size <= 140737488355328 /\
  Forall (fun g => apart base size (sg_base g) (sg_size g)) (sp_segments s).
Definition answer_ok (mapped : option Z * option Z) (s : SegmentProvider) : Prop :=
  forall base, mapped.1 = Some base \/ mapped.2 = Some base -> mapping_ok base kSegmentSize s.

Lemma refs_to_insert i a r recs : recs !! a = None -> refs_to i (<[a := r]> recs) = refs_to i recs + (if decide (sl_segment r = i) then 1 else 0).
Proof.
  intros Ha. unfold refs_to. destruct (decide (sl_segment r = i)) as [E|E].
  - rewrite map_filter_insert_True by done. rewrite map_size_insert_None; [lia|]. apply map_lookup_filter_None. by left.
  - rewrite map_filter_insert_False by done. rewrite delete_id by done. lia.
Qed.
Lemma refs_to_delete i a r recs : recs !! a = Some r -> refs_to i (delete a recs) = refs_to i recs - (if decide (sl_segment r = i) then 1 else 0).
Proof.
  intros Ha. rewrite <- (insert_delete_id recs a r Ha) at 2. rewrite refs_to_insert by apply lookup_delete_eq. lia.
Qed.
Lemma refs_to_fmap i (f : SlabRecord -> SlabRecord) j recs :
  (forall a r, recs !! a = Some r -> sl_segment (f r) = i <-> sl_segment r = j) -> refs_to i (f <$> recs) = refs_to j recs.
Proof.
  intros H. unfold refs_to. rewrite map_filter_fmap, map_size_fmap. do 2 f_equal. apply map_filter_ext. intros a r Ha. simpl. by eapply H.
Qed.
Lemma refs_to_pos a r recs : recs !! a = Some r -> 0 < refs_to (sl_segment r) recs.
Proof. intros Ha. pose proof (refs_to_delete (sl_segment r) a r recs Ha) as E. rewrite decide_True in E by done. unfold refs_to in *. lia. Qed.
Lemma refs_to_fresh (n : nat) recs : (forall a r, recs !! a = Some r -> sl_segment r <> n) -> refs_to n recs = 0.
Proof.
  intros H. unfold refs_to. assert (filter (fun x : Z * SlabRecord => sl_segment x.2 = n) recs = ∅) as ->; [|by rewrite map_size_empty].
  apply map_empty. intros a. apply map_lookup_filter_None. destruct (recs !! a) as [r|] eqn:E; [|by left]. right. intros r' E'. simplify_eq/=. by eapply H.
Qed.

(** A new slab outside what has been carved so far is apart from every slab. *)
Lemma new_slab_apart s b n :
  provider_ok s -> 0 < n -> (forall j h, sp_segments s !! j = Some h -> apart b n (sg_base h) (sg_offset h)) ->
  sp_records s !! b = None /\ forall a r, sp_records s !! a = Some r -> apart b n a (sl_size r).
Proof.
  intros Hs Hn Hb. assert (H : forall a r, sp_records s !! a = Some r -> apart b n a (sl_size r) /\ 65536 <= sl_size r).
  { intros a r Ha. destruct (po_records s Hs a r Ha) as (g & Hg & H1 & H2 & _ & H3). pose proof (Hb _ _ Hg) as H. unfold apart in *. lia. }
  split; [|intros a r Ha; by apply H]. destruct (sp_records s !! b) as [r|] eqn:E; [|done]. destruct (H b r E) as [H' ?]. unfold apart in H'. lia.
Qed.

Lemma add_slab_ok s segs b i n :
  provider_ok s -> 65536 <= n -> sp_records s !! b = None -> (forall a r, sp_records s !! a = Some r -> apart b n a (sl_size r)) ->
  (forall j g, segs !! j = Some g -> segment_ok g /\ sg_refs g = refs_to j (sp_records s) + (if decide (i = j) then 1 else 0)) ->
  (forall j k g h, j <> k -> segs !! j = Some g -> segs !! k = Some h -> apart (sg_base g) (sg_size g) (sg_base h) (sg_size h)) ->
  (exists g, segs !! i = Some g /\ slab_in g b (new_record i n)) ->
  (forall j g, sp_segments s !! j = Some g -> exists g', segs !! j = Some g' /\ sg_base g' = sg_base g /\ sg_offset g <= sg_offset g') ->
  forall s', sp_carrier s' = None -> sp_segments s' = segs -> sp_records s' = <[b := new_record i n]> (sp_records s) -> provider_ok s'.
Proof.
  intros Hs Hn Hfresh Hb Hsegs Hap Hg Hgrow s' Ec Es Er. split.
  - done.
  - intros j g. rewrite Es, Er. intros Hj. destruct (Hsegs j g Hj) as [H1 H2]. split; [done|]. by rewrite refs_to_insert.
  - rewrite Es. exact Hap.
  - rewrite Es, Er. intros a r Ha. apply lookup_insert_Some in Ha as [[<- <-]|[_ Ha]]; [done|].
    destruct (po_records s Hs a r Ha) as (g & Hj & H1 & H2 & H3 & H4). destruct (Hgrow _ _ Hj) as (g' & Hj' & E1 & E2).
    exists g'. split; [done|]. unfold slab_in. rewrite E1. split_and!; [done|lia|done|done].
  - rewrite Er. intros a c r q Hne Ha Hc. apply lookup_insert_Some in Ha as [[<- <-]|[Hna Ha]]; apply lookup_insert_Some in Hc as [[<- <-]|[Hnc Hc]]; simpl.
    + done.
    + by apply Hb.
    + destruct (Hb a r Ha); [by right|by left].
    + by eapply (po_slabs_apart s Hs).
Qed.

(** What a caller may rely on of a slab. *)
Definition slab_ok (a n : Z) : Prop := 0 < a /\ a mod 32 = 0 /\ a + n <= 140737488355328.

Lemma slab_in_ok g a r : segment_ok g -> slab_in g a r -> slab_ok a (sl_size r).
Proof.
  intros [(H1 & H2 & H3) [H4 _] _] (H5 & H6 & H7 & H8). unfold slab_ok. split; [lia|]. split; [|lia].
  apply Z.mod_divide in H2; [|lia]. apply Z.mod_divide in H7; [|lia]. destruct H2 as [x Hx], H7 as [y Hy].
  apply Z.mod_divide; [lia|]. exists (x * 128 + y * 2048). lia.
Qed.

Lemma carve_from_segment_ok sc s b s' :
  provider_ok s -> carve_from_segment sc s = Some (b, s') ->
  provider_ok s' /\ sp_records s !! b = None /\ (exists i, sp_records s' = <[b := new_record i (slab_size sc)]> (sp_records s)).
Proof.
  intros Hs E. unfold carve_from_segment in E. destruct (list_find _ _) as [[i g]|] eqn:Ef; simplify_eq/=.
  apply list_find_Some in Ef as (Hi & Hfit & _). destruct (po_segments s Hs i g Hi) as [[Hb Ho Hr] Hrefs].
  pose proof (slab_holds_blocks sc) as (_ & _ & Hmod & Hsz). unfold kBaseSlabSize in *. rewrite u64_small in Hfit by lia.
  assert (Hlt : (i < length (sp_segments s))%nat) by (by eapply lookup_lt_Some).
  assert (Hout : forall j h, sp_segments s !! j = Some h -> apart (sg_base g + sg_offset g) (slab_size sc) (sg_base h) (sg_offset h)).
  { intros j h Hj. destruct (decide (j = i)) as [->|Hne]; [simplify_eq; unfold apart; lia|].
    pose proof (po_apart s Hs j i h g Hne Hj Hi). destruct (po_segments s Hs j h Hj) as [[_ [? _] _] _]. unfold apart in *. lia. }
  destruct (new_slab_apart s _ (slab_size sc) Hs ltac:(lia) Hout) as [Hfresh Hap].
  split; [|split; [done|by exists i]]. set (g' := mkSegment _ _ _ _).
  assert (Hg' : segment_ok g').
  { subst g'. split; simpl; [done| |].
    - split; [lia|]. apply Z.mod_divide in Hmod; [|lia]. destruct Ho as [_ Ho]. apply Z.mod_divide in Ho; [|lia].
      destruct Hmod as [x Hx], Ho as [y Hy]. apply Z.mod_divide; [lia|]. exists (x + y). lia.
    - rewrite u32_small by lia. lia. }
  eapply (add_slab_ok s (<[i := g']> (sp_segments s)) (sg_base g + sg_offset g) i (slab_size sc) Hs); simpl; [lia|done|done| | | | | |done|done].
  - intros j h Hj. apply list_lookup_insert_Some in Hj as [(-> & <- & _)|[Hne Hj]].
    + split; [done|]. subst g'. simpl. rewrite decide_True by done. rewrite u32_small by lia. lia.
    + rewrite decide_False by done. rewrite Z.add_0_r. by apply (po_segments s Hs).
  - intros j k g1 g2 Hjk Hj Hk. apply list_lookup_insert_Some in Hj as [(-> & <- & _)|[Hnj Hj]]; apply list_lookup_insert_Some in Hk as [(-> & <- & _)|[Hnk Hk]].
    + done.
    + by apply (po_apart s Hs j k g g2).
    + by apply (po_apart s Hs j k g1 g).
    + by apply (po_apart s Hs j k).
  - exists g'. split; [by apply list_lookup_insert_eq|]. subst g'. unfold slab_in. simpl. split_and!; [lia|lia| |lia].
    replace (sg_base g + sg_offset g - sg_base g) with (sg_offset g) by lia. by destruct Ho.
  - intros j h Hj. destruct (decide (i = j)) as [<-|Hne].
    + exists g'. rewrite list_lookup_insert_eq by done. simplify_eq. subst g'. simpl. split; [done|]. split; [done|]. lia.
    + exists h. rewrite list_lookup_insert_ne by done. split; [done|]. split; [done|]. lia.
  - by apply (po_carrier s Hs).
Qed.

Lemma add_segment_ok base sc s :
  provider_ok s -> mapping_ok base kSegmentSize s ->
  forall f, provider_ok (add_segment base kSegmentSize (slab_size sc) (count_pages f s)) /\ sp_records s !! base = None.
Proof.
  intros Hs (Hb1 & Hb2 & Hb3 & Hb4) f. pose proof (slab_holds_blocks sc) as (_ & _ & Hmod & Hsz). unfold kBaseSlabSize, kSegmentSize in *.
  assert (Hout : forall j h, sp_segments s !! j = Some h -> apart base 2097152 (sg_base h) (sg_size h)) by (intros j h Hj; exact (Forall_lookup_1 _ _ _ _ Hb4 Hj)).
  assert (Hout' : forall j h, sp_segments s !! j = Some h -> apart base (slab_size sc) (sg_base h) (sg_offset h)).
  { intros j h Hj. pose proof (Hout j h Hj). destruct (po_segments s Hs j h Hj) as [[_ [? _] _] _]. unfold apart in *. lia. }
  destruct (new_slab_apart s base (slab_size sc) Hs ltac:(lia) Hout') as [Hfresh Hap]. split; [|done].
  assert (Hz : refs_to (length (sp_segments s)) (sp_records s) = 0).
  { apply refs_to_fresh. intros a r Ha E. destruct (po_records s Hs a r Ha) as (g & Hg & _). rewrite E in Hg. apply lookup_lt_Some in Hg. lia. }
  set (g' := mkSegment base 2097152 (slab_size sc) 1).
  assert (Hnew : forall j g, (sp_segments s ++ [g']) !! j = Some g -> sp_segments s !! j = Some g \/ j = length (sp_segments s) /\ g = g').
  { intros j g Hj. apply lookup_app_Some in Hj as [Hj|[Hle Hj]]; [by left|]. apply list_lookup_singleton_Some in Hj as [Hj <-]. right. split; [lia|done]. }
  eapply (add_slab_ok s (sp_segments s ++ [g']) base (length (sp_segments s)) (slab_size sc) Hs); simpl; [lia|done|done| | | | | |done|done].
  - intros j g Hj. destruct (Hnew j g Hj) as [Hj'|[-> ->]].
    + rewrite decide_False by (apply lookup_lt_Some in Hj'; lia). rewrite Z.add_0_r. by apply (po_segments s Hs).
    + rewrite decide_True by done. rewrite Hz. split; [|done]. split; simpl; [lia| |lia]. split; [lia|done].
  - intros j k g h Hne Hj Hk. destruct (Hnew j g Hj) as [Hj'|[-> ->]], (Hnew k h Hk) as [Hk'|[-> ->]].
    + by apply (po_apart s Hs j k).
    + pose proof (Hout j g Hj'). unfold apart in *. simpl. lia.
    + simpl. by apply (Hout k h).
    + done.
  - exists g'. split; [by rewrite lookup_app_r, Nat.sub_diag|]. unfold slab_in, g'. simpl. rewrite Z.sub_diag. split_and!; [lia|lia|done|lia].
  - intros j g Hj. exists g. split; [by apply lookup_app_l_Some|]. split; [done|]. lia.
  - by apply (po_carrier s Hs).
Qed.

Lemma acquire_slab_ok sc mapped mp s r s' :
  provider_ok s -> answer_ok mapped s -> acquire_slab sc mapped mp s = (r, s') ->
  provider_ok s' /\
  match r with
  | Some b => sp_records s !! b = None /\ exists i, sp_records s' = <[b := new_record i (slab_size sc)]> (sp_records s)
  | None => s' = s
  end.
Proof.
  intros Hs Ha E. unfold acquire_slab in E. destruct (carve_from_segment sc s) as [[b s1]|] eqn:Ec.
  - injection E as <- <-. by destruct (carve_from_segment_ok sc s b s1 Hs Ec) as (? & ? & ?).
  - rewrite (po_carrier s Hs) in E. unfold allocate_new_segment in E.
    assert (Esz : (if kSegmentSize <? slab_size sc then slab_size sc else kSegmentSize) = kSegmentSize) by (by destruct sc). rewrite Esz in E.
    assert (Hreg : forall base f, mapped.1 = Some base \/ mapped.2 = Some base ->
      let s1 := add_segment base kSegmentSize (slab_size sc) (count_pages f s) in
      provider_ok s1 /\ sp_records s !! base = None /\ exists i, sp_records s1 = <[base := new_record i (slab_size sc)]> (sp_records s)).
    { intros base f Hb. destruct (add_segment_ok base sc s Hs (Ha base Hb) f) as [H1 H2]. split; [done|]. split; [done|]. by eexists. }
    destruct mapped as [h m]. simpl in *. destruct h as [hb|]; [destruct (sp_huge s).1|]; [injection E as <- <-; apply Hreg; by left|..];
      (destruct m as [mb|]; injection E as <- <-; [apply Hreg; by right|by split]).
Qed.

Lemma refs_bound s i g : provider_ok s -> sp_segments s !! i = Some g -> 0 < sg_refs g < 4294967296.
Proof. intros Hs Hi. destruct (po_segments s Hs i g Hi) as [[(? & ? & ?) [? _] [? ?]] _]. lia. Qed.

Section Release.
Context (s : SegmentProvider) (slab : Z) (r : SlabRecord) (g : Segment).
Context (Hs : provider_ok s) (Er : sp_records s !! slab = Some r) (Hg : sp_segments s !! sl_segment r = Some g).
Notation idx := (sl_segment r).
Notation recs := (delete slab (sp_records s)).

Lemma left_record a q : recs !! a = Some q -> a <> slab /\ sp_records s !! a = Some q.
Proof. intros Ha. apply lookup_delete_Some in Ha as [? ?]. done. Qed.
Lemma left_apart a b q1 q2 : a <> b -> recs !! a = Some q1 -> recs !! b = Some q2 -> apart a (sl_size q1) b (sl_size q2).
Proof. intros Hne Ha Hb. apply left_record in Ha as [_ Ha], Hb as [_ Hb]. by eapply (po_slabs_apart s Hs). Qed.

(** One of several slabs of the segment. *)
Lemma release_one_ok :
  sg_refs g <> 1 ->
  provider_ok (set_records s (<[idx := mkSegment (sg_base g) (sg_size g) (sg_offset g) (sg_refs g - 1)]> (sp_segments s)) recs).
Proof.
  intros Hone. destruct (po_segments s Hs idx g Hg) as [Hgo Hrefs]. split; simpl.
  - apply (po_carrier s Hs).
  - intros i h Hi. rewrite (refs_to_delete _ slab r) by done. apply list_lookup_insert_Some in Hi as [(<- & <- & _)|[Hne Hi]].
    + rewrite decide_True by done. simpl. split; [|lia]. destruct Hgo as [? ? [? ?]]. split; simpl; [done|done|]. lia.
    + rewrite decide_False by done. rewrite Z.sub_0_r. by apply (po_segments s Hs).
  - intros i j g1 g2 Hij H1 H2. apply list_lookup_insert_Some in H1 as [(<- & <- & _)|[? H1]]; apply list_lookup_insert_Some in H2 as [(<- & <- & _)|[? H2]].
    + done.
    + by apply (po_apart s Hs idx j g g2).
    + by apply (po_apart s Hs i idx g1 g).
    + by apply (po_apart s Hs i j).
  - intros a q Ha. destruct (left_record a q Ha) as [_ Ha']. destruct (po_records s Hs a q Ha') as (h & Hh & Hi).
    destruct (decide (sl_segment q = idx)) as [E|E].
    + rewrite E in *. simplify_eq. eexists. split; [by apply list_lookup_insert_eq, (lookup_lt_Some _ _ _ Hg)|]. exact Hi.
    + exists h. by rewrite list_lookup_insert_ne.
  - apply left_apart.
Qed.

(** The last slab of the segment. *)
Context (Hlast : sg_refs g = 1).

Lemma nothing_left a q : recs !! a = Some q -> sl_segment q <> idx.
Proof.
  intros Ha E. pose proof (refs_to_pos a q _ Ha) as Hp. rewrite E, (refs_to_delete idx slab r) in Hp by done. rewrite decide_True in Hp by done.
  destruct (po_segments s Hs idx g Hg) as [_ Hr]. lia.
Qed.
(** The index that a segment had before the removal. *)
Definition before_removal (i : nat) : nat := if (i <? idx)%nat then i else S i.
Lemma before_removal_iff i q : sl_segment q <> idx -> sl_segment (shift_record idx q) = i <-> sl_segment q = before_removal i.
Proof.
  intros Hq. unfold shift_record, before_removal. destruct (Nat.ltb_spec idx (sl_segment q)), (Nat.ltb_spec i idx); simpl; lia.
Qed.
Lemma shift_size q : sl_size (shift_record idx q) = sl_size q.
Proof. unfold shift_record. by destruct (Nat.ltb _ _). Qed.
Lemma removed_lookup i : delete idx (sp_segments s) !! i = sp_segments s !! before_removal i.
Proof. unfold before_removal. destruct (Nat.ltb_spec i idx); [by rewrite list_lookup_delete_lt|by rewrite list_lookup_delete_ge]. Qed.

Lemma release_last_ok u : provider_ok (mkProvider (delete idx (sp_segments s)) (shift_record idx <$> recs) (sp_carrier s) (sp_huge s) (sp_counts s) u).
Proof.
  split; simpl.
  - apply (po_carrier s Hs).
  - intros i h Hi. rewrite removed_lookup in Hi. destruct (po_segments s Hs _ h Hi) as [Ho Hr]. split; [done|].
    rewrite (refs_to_fmap _ _ (before_removal i)) by (intros a q Ha; by eapply before_removal_iff, nothing_left).
    rewrite Hr, (refs_to_delete _ slab r) by done. rewrite decide_False; [lia|]. unfold before_removal. destruct (Nat.ltb_spec i idx); lia.
  - intros i j g1 g2 Hij H1 H2. rewrite removed_lookup in H1, H2. eapply (po_apart s Hs); [|done|done].
    unfold before_removal. destruct (Nat.ltb_spec i idx), (Nat.ltb_spec j idx); lia.
  - intros a q Ha. apply lookup_fmap_Some in Ha as (q0 & <- & Ha). destruct (left_record a q0 Ha) as [_ Ha'].
    destruct (po_records s Hs a q0 Ha') as (h & Hh & Hi). exists h.
    rewrite removed_lookup. rewrite <- (proj1 (before_removal_iff _ q0 (nothing_left a q0 Ha)) eq_refl). split; [done|]. unfold slab_in. by rewrite shift_size.
  - intros a b q1 q2 Hne Ha Hb. apply lookup_fmap_Some in Ha as (q0 & <- & Ha). apply lookup_fmap_Some in Hb as (q0' & <- & Hb).
    rewrite !shift_size. by apply left_apart.
Qed.
Lemma release_last_apart a q : a <> slab -> sp_records s !! a = Some q -> apart a (sl_size q) (sg_base g) (sg_size g).
Proof.
  intros Hne Ha. destruct (po_records s Hs a q Ha) as (h & Hh & H1 & H2 & _). destruct (po_segments s Hs _ h Hh) as [[_ [? _] _] _].
  assert (Hne' : sl_segment q <> idx) by (eapply (nothing_left a); by rewrite lookup_delete_ne).
  pose proof (po_apart s Hs _ _ h g Hne' Hh Hg). unfold apart in *. lia.
Qed.
End Release.

Lemma release_slab_ok slab sc s : provider_ok s -> provider_ok (release_slab slab sc s) /\
  dom (sp_records (release_slab slab sc s)) = dom (sp_records s) ∖ {[slab]} /\
  (forall u, u ∈ sp_unmapped (release_slab slab sc s) -> u ∈ sp_unmapped s \/ forall a r, a <> slab -> sp_records s !! a = Some r -> apart a (sl_size r) u.1 u.2).
Proof.
  intros Hs. unfold release_slab, release_to_carrier. destruct (sp_records s !! slab) as [r|] eqn:Er.
  2:{ rewrite (po_carrier s Hs). split; [done|]. apply not_elem_of_dom in Er. split; [set_solver|by left]. }
  simpl. destruct (po_records s Hs slab r Er) as (g & Hg & _). rewrite Hg.
  pose proof (refs_bound s _ g Hs Hg) as Hb. rewrite u32_small by lia.
  destruct (Z.eqb_spec (sg_refs g - 1) 0) as [Ez|Ez]; simpl.
  - split; [apply (release_last_ok s slab r g Hs Er Hg); lia|]. split; [by rewrite dom_fmap_L, dom_delete_L|].
    intros u Hu. apply elem_of_app in Hu as [Hu|Hu]; [by left|]. apply list_elem_of_singleton in Hu as ->. right.
    intros a q. apply (release_last_apart s slab r g Hs Er Hg). lia.
  - split; [apply (release_one_ok s slab r g Hs Er Hg); lia|]. split; [by rewrite dom_delete_L|by left].
Qed.

Lemma register_ok slab size owner region sc s :
  provider_ok s -> (forall r, sp_records s !! slab = Some r -> sl_size r = size) ->
  let s' := register_slab_owner slab size owner region sc s in
  provider_ok s' /\ dom (sp_records s') = dom (sp_records s) /\
  (forall r, sp_records s !! slab = Some r -> sp_records s' !! slab = Some (mkSlabRecord (sl_segment r) size (Some owner) region sc)) /\
  (forall a, a <> slab -> sp_records s' !! a = sp_records s !! a).
Proof.
  intros Hs Hsize s'. subst s'. unfold register_slab_owner. destruct (sp_records s !! slab) as [r|] eqn:Er; [|by split_and!].
  set (r' := mkSlabRecord _ _ _ _ _). assert (Hsz : sl_size r = size) by (by apply Hsize).
  assert (Hback : forall a q, <[slab := r']> (sp_records s) !! a = Some q -> exists q0, sp_records s !! a = Some q0 /\ sl_segment q = sl_segment q0 /\ sl_size q = sl_size q0).
  { intros a q Ha. apply lookup_insert_Some in Ha as [[<- <-]|[_ Ha]]; [by exists r|by exists q]. }
  split_and!; simpl.
  - split; simpl.
    + apply (po_carrier s Hs).
    + intros i g Hi. destruct (po_segments s Hs i g Hi) as [H1 H2]. split; [done|]. rewrite H2, <- insert_delete_eq, refs_to_insert by apply lookup_delete_eq.
      rewrite (refs_to_delete i slab r) by done. simpl. lia.
    + apply (po_apart s Hs).
    + intros a q Ha. destruct (Hback a q Ha) as (q0 & H0 & E1 & E2). destruct (po_records s Hs a q0 H0) as (g & Hg & Hi). exists g. rewrite E1.
      split; [done|]. unfold slab_in. by rewrite E2.
    + intros a b q1 q2 Hne Ha Hb. destruct (Hback a q1 Ha) as (q & H1 & _ & ->). destruct (Hback b q2 Hb) as (q' & H2 & _ & ->). by eapply (po_slabs_apart s Hs).
  - rewrite dom_insert_L. apply elem_of_dom_2 in Er. set_solver.
  - intros q Hq. simplify_eq. by rewrite lookup_insert_eq.
  - intros a Hne. by rewrite lookup_insert_ne.
Qed.

(** A pointer into a slab that is out finds its record, whatever the order of the table. *)
Lemma lookup_slab_finds s a r p :
  provider_ok s -> sp_records s !! a = Some r -> holds_ptr p (a, r) -> exists g, lookup_slab p s = Some (a, r, g).
Proof.
  intros Hs Ha Hp. destruct (po_records s Hs a r Ha) as (g & Hg & _). unfold lookup_slab.
  destruct (list_find _ _) as [[i [b q]]|] eqn:E.
  - apply list_find_Some in E as (Hi & [Hq _] & _). assert (Hb : sp_records s !! b = Some q) by (apply elem_of_map_to_list; by eapply list_elem_of_lookup_2).
    destruct (decide (a = b)) as [<-|Hne]; [|destruct (po_slabs_apart s Hs a b r q Hne Ha Hb); unfold holds_ptr in *; simpl in *; lia].
    simplify_eq. exists g. simpl. by rewrite Hg.
  - apply list_find_None in E. rewrite Forall_forall in E. exfalso. apply (E (a, r)); [by apply elem_of_map_to_list|]. split; [done|]. by eexists.
Qed.

(** ** Histories of the provider *)

Inductive ProviderEvent :=
| PAcquire (sc : SizeClass) (mapped : option Z * option Z)
| PRelease (slab : Z) (sc : SizeClass)
| PRegister (slab : Z) (owner : nat) (region : Z) (sc : SizeClass).
Definition provider_step (s : SegmentProvider) (e : ProviderEvent) : SegmentProvider :=
  match e with
  | PAcquire sc mapped => (acquire_slab sc mapped true s).2
  | PRelease slab sc => release_slab slab sc s
  | PRegister slab owner region sc => register_slab_owner slab (slab_size sc) owner region sc s
  end.
(** Mappings are fresh; a slab is registered with the class it was acquired for. *)
Definition provider_event_ok (s : SegmentProvider) (e : ProviderEvent) : Prop :=
  match e with
  | PAcquire _ mapped => answer_ok mapped s
  | PRelease _ _ => True
  | PRegister slab _ _ sc => forall r, sp_records s !! slab = Some r -> sl_size r = slab_size sc
  end.
Fixpoint provider_run (s : SegmentProvider) (es : list ProviderEvent) : Prop :=
  match es with [] => True | e :: es => provider_event_ok s e /\ provider_run (provider_step s e) es end.

Lemma provider_step_ok s e : provider_ok s -> provider_event_ok s e -> provider_ok (provider_step s e).
Proof.
  intros Hs He. destruct e as [sc mapped|slab sc|slab owner region sc]; simpl in *.
  - destruct (acquire_slab sc mapped true s) as [r s'] eqn:E. by destruct (acquire_slab_ok sc mapped true s r s' Hs He E).
  - by apply release_slab_ok.
  - by apply register_ok.
Qed.
Lemma provider_history s es : provider_ok s -> provider_run s es -> provider_ok (foldl provider_step s es).
Proof. revert s. induction es as [|e es IH]; intros s Hs Hr; [done|]. destruct Hr as [He Hr]. apply IH; [by apply provider_step_ok|done]. Qed.
Lemma provider_init_ok : provider_ok provider_init.
Proof. split; simpl; try done; intros; by rewrite ?lookup_empty in *. Qed.

(** After any history of acquisitions, releases and registrations, the slabs that are
    out lie in mapped segments, are aligned and do not overlap; the next one
    overlaps none of them; and a release unmaps no byte of a slab that stays out. *)
Theorem slabs_never_overlap (es : list ProviderEvent) :
  provider_run provider_init es ->
  let s := foldl provider_step provider_init es in
  (forall a r, sp_records s !! a = Some r -> slab_ok a (sl_size r) /\ exists g, g ∈ sp_segments s /\ sg_base g <= a /\ a + sl_size r <= sg_base g + sg_size g) /\
  (forall a b r q, a <> b -> sp_records s !! a = Some r -> sp_records s !! b = Some q -> apart a (sl_size r) b (sl_size q)) /\
  (forall sc mapped b s', answer_ok mapped s -> acquire_slab sc mapped true s = (Some b, s') ->
     forall a r, sp_records s !! a = Some r -> apart b (slab_size sc) a (sl_size r)) /\
  (forall slab sc u, u ∈ sp_unmapped (release_slab slab sc s) -> u ∉ sp_unmapped s ->
     forall a r, a <> slab -> sp_records s !! a = Some r -> apart a (sl_size r) u.1 u.2).
Proof.
  intros Hr s. assert (Hs : provider_ok s) by (by apply provider_history, Hr; apply provider_init_ok). split_and!.
  - intros a r Ha. destruct (po_records s Hs a r Ha) as (g & Hg & Hi). destruct (po_segments s Hs _ g Hg) as [Ho _].
    split; [by eapply slab_in_ok|]. exists g. split; [by eapply list_elem_of_lookup_2|]. destruct Hi as (? & ? & _), Ho as [_ [? _] _]. lia.
  - apply (po_slabs_apart s Hs).
  - intros sc mapped b s' Ha E a r Har. destruct (acquire_slab_ok sc mapped true s _ s' Hs Ha E) as [Hs' [Hf [i Ei]]].
    assert (Hne : b <> a) by (by intros ->; simplify_eq).
    pose proof (po_slabs_apart s' Hs' b a (new_record i (slab_size sc)) r Hne) as H. rewrite Ei, lookup_insert_eq, lookup_insert_ne in H by done. by apply H.
  - intros slab sc u Hu Hn a r Hne Ha. destruct (release_slab_ok slab sc s Hs) as (_ & _ & H). destruct (H u Hu) as [?|H']; [done|]. by eapply H'.
Qed.

Lemma slabs_never_overlap_witness :
  let es := [PAcquire k4KB (None, Some 1048576); PAcquire k32B (None, None); PRegister 1572864 1 0 k32B; PRelease 1048576 k4KB] in
  let s := foldl provider_step provider_init es in
  map_to_list (sp_records s) = [(1572864, mkSlabRecord 0 65536 (Some 1%nat) 0 k32B)] /\ apart 1638400 65536 1572864 65536.
Proof.
  intros es s. split; [vm_compute; reflexivity|].
  assert (Hrun : provider_run provider_init es).
  { split; [|split; [|split; [|split; [done|done]]]].
    - intros base [H|H]; simpl in H; [done|]. injection H as <-. unfold mapping_ok, kSegmentSize. split_and!; [lia|done|lia|constructor].
    - by intros base [H|H].
    - intros r Hr. vm_compute in Hr. injection Hr as <-. reflexivity. }
  destruct (slabs_never_overlap es Hrun) as (_ & _ & Hnext & _).
  refine (Hnext k32B (None, None) 1638400 (acquire_slab k32B (None, None) true s).2 _ _ 1572864 (mkSlabRecord 0 65536 (Some 1%nat) 0 k32B) _);
    [by intros base [H|H]|vm_compute; reflexivity|vm_compute; reflexivity].
Defined.

(** *** With a super carrier *)

(** A slab of the carrier has no segment, and its record names segment 0: releasing
    it counts against whatever that segment is, which is unmapped while one of its
    own slabs is still out. *)
Lemma carrier_release_unmaps_segment :
  let four := [PAcquire k4KB (None, Some 1048576); PAcquire k4KB (None, None); PAcquire k4KB (None, None); PAcquire k4KB (None, None)] in
  let s := set_super_carrier (Some (carrier_init 8388608 1 (Some 1073741824) carrier_none).2) (foldl provider_step provider_init four) in
  let s' := foldl provider_step s [PAcquire k4KB (None, None); PRelease 1048576 k4KB; PRelease 1572864 k4KB; PRelease 2097152 k4KB; PRelease 1073741824 k4KB] in
  is_Some (sp_records s' !! 2621440) /\ sp_unmapped s' = [(1048576, 2097152)] /\ overlap (2621440, slab_size k4KB) (1048576, 2097152).
Proof. vm_compute. split; [by eexists|]. split; [done|]. done. Qed.

(** And while there is no segment the slab cannot be found: a block of it that
    another thread frees is not returned to its cache. *)
Lemma carrier_slab_not_found :
  let s := set_super_carrier (Some (carrier_init 8388608 1 (Some 1073741824) carrier_none).2) provider_init in
  let s := foldl provider_step s [PAcquire k32B (None, None); PRegister 1073741824 1 0 k32B] in
  is_Some (sp_records s !! 1073741824) /\ lookup_slab 1073741824 s = None.
Proof. vm_compute. split; [by eexists|done]. Qed.
