(* ===== verification/SlabCache.v ===== *)
(** * Slab caches

    [mem/slab_cache.cpp], [adt/freelist.hpp], [mem/alloc_header.hpp],
    [mem/thread_local_allocator.cpp] and the global functions of
    [mem/memory_config.cpp], without the checks of the memory debugging option.  A
    cache carves blocks from slabs and keeps those that were freed in lists that
    run through the blocks themselves; the memory is modelled with them, one cell
    per field, at its address.  Memory that was never written reads 0, as [mmap]
    leaves it.  Each cache is used by one thread at a time here; the lists from
    several threads are in [ConcurrentFreeList].  Theorems are in [SlabHeap]. *)

From S2P Require Import Prelude SlabSource.
From stdpp Require Import base numbers list gmap.

#[local] Open Scope Z_scope.

(** ** Memory *)

Notation Mem := (gmap Z Z).
Definition rd (m : Mem) (a : Z) : Z := default 0 (m !! a).
Definition wr (m : Mem) (w : Z * Z) : Mem := <[w.1 := w.2]> m.
Definition wrs (l : list (Z * Z)) (m : Mem) : Mem := foldl wr m l.
#[global] Arguments wr : simpl never.
#[global] Arguments wrs : simpl never.
#[global] Arguments rd : simpl never.

(** ** Headers and footers *)

Definition kAllocMagic : Z := 2893065328.   (* 0xAC70AC70 *)
Definition kFreedMagic : Z := 3735936685.   (* 0xDEADDEAD *)
Definition kAllocRegionMask : Z := 7.
Definition kAllocFallbackFlag : Z := 8.
Definition kBoundaryFlagFree : Z := 1.
Definition flags_for_region (region : Z) : Z := Z.land region kAllocRegionMask.

(** The fields of [AllocHeader], by their offset: [owner_id] or [next] at 0. *)
Definition f_incarnation (h : Z) : Z := h + 8.
Definition f_magic (h : Z) : Z := h + 12.
Definition f_size_class (h : Z) : Z := h + 16.
Definition f_generation (h : Z) : Z := h + 17.
Definition f_flags (h : Z) : Z := h + 18.
Definition f_padding (h : Z) : Z := h + 20.
Definition f_timestamp (h : Z) : Z := h + 24.
Definition user_data (h : Z) : Z := h + 32.
Definition from_user_data (p : Z) : Z := p - 32.
Definition header_region (m : Mem) (h : Z) : Z := Z.land (rd m (f_flags h)) kAllocRegionMask.
Definition is_fallback (m : Mem) (h : Z) : bool := negb (Z.land (rd m (f_flags h)) kAllocFallbackFlag =? 0).

Definition header_stamp (h : Z) (sc : SizeClass) (owner region : Z) (fallback : bool) : list (Z * Z) :=
  [(h, owner); (f_incarnation h, 0); (f_magic h, kAllocMagic); (f_size_class h, Z.of_nat (class_index sc)); (f_generation h, 0);
   (f_flags h, Z.lor (flags_for_region region) (if fallback then kAllocFallbackFlag else 0)); (f_padding h, 0); (f_timestamp h, 0)].

(** The footer is two words: magic and checksum of a live block, size and flags of
    a free one. *)
Definition footer_of (h block_sz : Z) : Z := h + block_sz - 8.
Definition canary_stamp (h block_sz : Z) : list (Z * Z) := [(footer_of h block_sz, kAllocMagic); (footer_of h block_sz + 4, 0)].
Definition stamp_boundary_footer (h block_sz : Z) : list (Z * Z) := [(footer_of h block_sz, u32 block_sz); (footer_of h block_sz + 4, kBoundaryFlagFree)].

(** ** The free list *)

(** [top_] packs a 48-bit pointer with a 16-bit tag. *)
Definition kPtrMask : Z := Z.shiftl 1 48 - 1.
Definition extract_ptr (packed : Z) : Z :=
  let ptr := Z.land packed kPtrMask in
  if negb (Z.land ptr (Z.shiftl 1 47) =? 0) then Z.lor ptr (UINT64_MAX - kPtrMask) else ptr.
Definition next_tag (packed : Z) : Z := (Z.shiftr packed 48 + 1) mod 65536.
Definition pack (ptr tag : Z) : Z := Z.lor (Z.land ptr kPtrMask) (u64 (Z.shiftl tag 48)).

(** [push] and [pop] without interference: the exchange succeeds. *)
Definition freelist_push (node top : Z) (m : Mem) : Z * Mem := (pack node (next_tag top), wr m (node, extract_ptr top)).
Definition freelist_pop (top : Z) (m : Mem) : Z * Z :=
  if extract_ptr top =? 0 then (0, top) else (extract_ptr top, pack (rd m (extract_ptr top)) (next_tag top)).

(** *** Doubly linked bins *)

Definition link_next (block : Z) : Z := user_data block.
Definition link_prev (block : Z) : Z := user_data block + 8.

Definition dll_push (bin block : Z) (m : Mem) : Z * Mem :=
  let '(old_head, bin) := freelist_pop bin m in
  let m := wrs [(link_next block, old_head); (link_prev block, 0)] m in
  let '(bin, m) := if old_head =? 0 then (bin, m) else freelist_push old_head bin (wr m (link_prev old_head, block)) in
  freelist_push block bin m.

Definition dll_pop (bin : Z) (m : Mem) : Z * (Z * Mem) :=
  let '(popped, bin) := freelist_pop bin m in
  (popped, (bin, if (popped =? 0) || (rd m (link_next popped) =? 0) then m else wr m (link_prev (rd m (link_next popped)), 0))).

Definition dll_remove (bin block : Z) (m : Mem) : Z * Mem :=
  let prev := rd m (link_prev block) in
  let next := rd m (link_next block) in
  let m := if prev =? 0 then m else wr m (link_next prev, next) in
  let m := if next =? 0 then m else wr m (link_prev next, prev) in
  let '(head, bin) := freelist_pop bin m in
  let '(bin, m) :=
    if head =? block then (if next =? 0 then (bin, m) else freelist_push next bin m)
    else if head =? 0 then (bin, m) else freelist_push head bin m in
  (bin, wrs [(link_next block, 0); (link_prev block, 0)] m).

(** ** The cache *)

Inductive AllocationStrategy := kCasLifo | kSegregatedFit | kBumpOnly.
#[export] Instance AllocationStrategy_eq_dec : EqDecision AllocationStrategy.
Proof. solve_decision. Defined.

Definition kNumSegregatedBins : Z := 8.
Definition kMinCoalesceBlockSize : Z := 64.

(** [sc_current] 0: no slab. *)
Record SlabCache := mkCache {
  sc_class : SizeClass; sc_region : Z; sc_strategy : AllocationStrategy; sc_coalescing : bool;
  sc_current : Z; sc_slab_size : Z; sc_bump : Z; sc_stride : Z; sc_start_bin : nat; sc_freelist : Z; sc_bins : list Z;
  sc_live_count : Z; sc_stats : Z * Z * Z; sc_idle : list Z; sc_slabs : list Z
}.
Definition cache_new (sc : SizeClass) (region : Z) (strategy : AllocationStrategy) (coalescing : bool) : SlabCache :=
  mkCache sc region strategy coalescing 0 0 0 0 0 0 (replicate 8 0) 0 (0, 0, 0) [] [].

Definition set_slab (c : SlabCache) (current size bump : Z) (idle : list Z) : SlabCache :=
  mkCache (sc_class c) (sc_region c) (sc_strategy c) (sc_coalescing c) current size bump (sc_stride c) (sc_start_bin c) (sc_freelist c) (sc_bins c)
    (sc_live_count c) (sc_stats c) idle (sc_slabs c).
Definition set_free (c : SlabCache) (start : nat) (freelist : Z) (bins : list Z) : SlabCache :=
  mkCache (sc_class c) (sc_region c) (sc_strategy c) (sc_coalescing c) (sc_current c) (sc_slab_size c) (sc_bump c) (sc_stride c) start freelist bins
    (sc_live_count c) (sc_stats c) (sc_idle c) (sc_slabs c).
Definition count_alloc (c : SlabCache) : SlabCache :=
  let '(a, f, s) := sc_stats c in
  mkCache (sc_class c) (sc_region c) (sc_strategy c) (sc_coalescing c) (sc_current c) (sc_slab_size c) (sc_bump c) (sc_stride c) (sc_start_bin c) (sc_freelist c) (sc_bins c)
    (u32 (sc_live_count c + 1)) (u64 (a + 1), f, s) (sc_idle c) (sc_slabs c).
Definition count_free (c : SlabCache) : SlabCache :=
  let '(a, f, s) := sc_stats c in
  mkCache (sc_class c) (sc_region c) (sc_strategy c) (sc_coalescing c) (sc_current c) (sc_slab_size c) (sc_bump c) (sc_stride c) (sc_start_bin c) (sc_freelist c) (sc_bins c)
    (u32 (sc_live_count c - 1)) (a, u64 (f + 1), s) (sc_idle c) (sc_slabs c).

Definition compute_bin_index (h : Z) (c : SlabCache) : nat :=
  if sc_stride c =? 0 then 0%nat else Z.to_nat ((u64 (h - sc_current c) / sc_stride c) mod kNumSegregatedBins).

(** The bump allocation that all strategies share. *)
Definition bump_alloc (owner : Z) (m : Mem) (c : SlabCache) : option (Z * Mem * SlabCache) :=
  let bs := block_size (sc_class c) in
  if negb (sc_current c =? 0) && (sc_bump c + bs <=? sc_slab_size c) then
    let h := sc_current c + sc_bump c in
    Some (user_data h, wrs (header_stamp h (sc_class c) owner (sc_region c) false ++ (f_generation h, 0) :: canary_stamp h bs) m,
          count_alloc (set_slab c (sc_current c) (sc_slab_size c) (sc_bump c + bs) (sc_idle c)))
  else None.

(** [stamp_freelist_block]; the generation of a cache is always 0. *)
Definition stamp_freelist_block (h owner : Z) (m : Mem) (c : SlabCache) : Z * Mem * SlabCache :=
  (user_data h, wrs ([(h, owner); (f_magic h, kAllocMagic); (f_generation h, 0)] ++ canary_stamp h (block_size (sc_class c))) m, count_alloc c).

(** The loop over the bins, [n] of them left. *)
Fixpoint bins_alloc (n i : nat) (owner : Z) (m : Mem) (c : SlabCache) : option (Z * Mem * SlabCache) :=
  match n with
  | O => None
  | S n =>
      let b := ((sc_start_bin c + i) mod 8)%nat in
      let '(block, (bin, m')) := dll_pop (default 0 (sc_bins c !! b)) m in
      if block =? 0 then bins_alloc n (S i) owner m c
      else Some (stamp_freelist_block block owner m' (set_free c ((b + 1) mod 8) (sc_freelist c) (<[b := bin]> (sc_bins c))))
  end.

(** One attempt of [allocate], before it refills. *)
Definition alloc_once (owner : Z) (m : Mem) (c : SlabCache) : option (Z * Mem * SlabCache) :=
  match sc_strategy c with
  | kSegregatedFit => match bump_alloc owner m c with Some r => Some r | None => bins_alloc 8 0 owner m c end
  | kBumpOnly => bump_alloc owner m c
  | kCasLifo =>
      let '(block, top) := freelist_pop (sc_freelist c) m in
      if block =? 0 then bump_alloc owner m c
      else Some (stamp_freelist_block block owner m (set_free c (sc_start_bin c) top (sc_bins c)))
  end.

(** [cache_refill] of the cache number [k]. *)
Definition cache_refill (k : nat) (mapped : option Z * option Z) (s : SegmentProvider) (c : SlabCache) : SegmentProvider * SlabCache :=
  let '(slab, s) := acquire_slab (sc_class c) mapped true s in
  match slab with
  | None => (s, set_slab c 0 (sc_slab_size c) (sc_bump c) (sc_idle c))
  | Some b =>
      let size := slab_size (sc_class c) in
      let '(a, f, n) := sc_stats c in
      (register_slab_owner b size k (sc_region c) (sc_class c) s,
       mkCache (sc_class c) (sc_region c) (sc_strategy c) (sc_coalescing c) b size 0
         (match sc_strategy c with kSegregatedFit => if 0 <? size then u32 size / kNumSegregatedBins else sc_stride c | _ => sc_stride c end)
         (sc_start_bin c) (sc_freelist c) (sc_bins c) (sc_live_count c) (a, f, u64 (n + 1)) (sc_idle c) (sc_slabs c ++ [b]))
  end.

(** [allocate]; [fuel] bounds the calls of itself, [mapped] is what [mmap] answers
    to the provider. *)
Fixpoint allocate (fuel : nat) (k : nat) (owner : Z) (mapped : option Z * option Z) (m : Mem) (s : SegmentProvider) (c : SlabCache)
    : option Z * Mem * SegmentProvider * SlabCache :=
  match fuel with
  | O => (None, m, s, c)
  | S fuel =>
      match alloc_once owner m c with
      | Some (p, m, c) => (Some p, m, s, c)
      | None =>
          match sc_strategy c, last (sc_idle c) with
          | kBumpOnly, Some recycled => allocate fuel k owner mapped m s (set_slab c recycled (sc_slab_size c) 0 (removelast (sc_idle c)))
          | _, _ =>
              let '(s, c) := cache_refill k mapped s c in
              if sc_current c =? 0 then (None, m, s, c) else allocate fuel k owner mapped m s c
          end
      end
  end.

(** *** Coalescing *)

(** The slab of a block, as [try_coalesce] looks for it. *)
Definition slab_of (h : Z) (c : SlabCache) : Z :=
  match list_find (fun b => b <= h < b + sc_slab_size c) (sc_slabs c) with Some (_, b) => b | None => sc_current c end.

Definition bins_remove (block : Z) (m : Mem) (c : SlabCache) : Mem * SlabCache :=
  let b := compute_bin_index block c in
  let '(bin, m) := dll_remove (default 0 (sc_bins c !! b)) block m in
  (m, set_free c (sc_start_bin c) (sc_freelist c) (<[b := bin]> (sc_bins c))).

Definition try_coalesce (h : Z) (m : Mem) (c : SlabCache) : Z * Mem * SlabCache :=
  let bs := block_size (sc_class c) in
  if negb (sc_coalescing c) || (sc_current c =? 0) || (bs <? kMinCoalesceBlockSize) then (h, m, c)
  else
    let m := wrs (stamp_boundary_footer h bs) m in
    let slab := slab_of h c in
    let left_sz := rd m (h - 8) in
    let left := h - left_sz in
    let '(result, size, m, c) :=
      if (slab <? h) && negb (Z.land (rd m (h - 4)) kBoundaryFlagFree =? 0) && (slab <=? left) && (left <? slab + sc_slab_size c)
         && (rd m (f_magic left) =? kFreedMagic)
      then let '(m, c) := bins_remove left m c in (left, bs + left_sz, m, c)
      else (h, bs, m, c) in
    let right := h + bs in
    let '(size, m, c) :=
      if (right + 32 <=? slab + sc_slab_size c) && (rd m (f_magic right) =? kFreedMagic)
      then let '(m, c) := bins_remove right m c in (size + bs, m, c)
      else (size, m, c) in
    (result, if negb (result =? h) || negb (size =? bs) then wrs (stamp_boundary_footer result size) m else m, c).

Definition deallocate (p : Z) (m : Mem) (c : SlabCache) : Mem * SlabCache :=
  let h := from_user_data p in
  let m := wr m (f_magic h, kFreedMagic) in
  let '(h, m, c) := if sc_coalescing c then try_coalesce h m c else (h, m, c) in
  let c := count_free c in
  match sc_strategy c with
  | kBumpOnly =>
      (m, if (sc_live_count c =? 0) && negb (sc_current c =? 0) && (sc_slab_size c <=? sc_bump c)
          then set_slab c 0 0 0 (sc_idle c ++ [sc_current c]) else c)
  | kSegregatedFit =>
      let b := compute_bin_index h c in
      let '(bin, m) := dll_push (default 0 (sc_bins c !! b)) h m in
      (m, set_free c (sc_start_bin c) (sc_freelist c) (<[b := bin]> (sc_bins c)))
  | kCasLifo => let '(top, m) := freelist_push h (sc_freelist c) m in (m, set_free c (sc_start_bin c) top (sc_bins c))
  end.

(** The destructor gives back the idle slabs, then all slabs. *)
Definition cache_destroy (c : SlabCache) (s : SegmentProvider) : SegmentProvider :=
  foldl (fun s b => release_slab b (sc_class c) s) s (sc_idle c ++ sc_slabs c).
