(* ===== verification/SlabHeap.v ===== *)
(** * The heap of slab caches

    What the caches of [SlabCache] promise, over the provider of [SlabSource]: any
    number of caches of any class, region and strategy without coalescing, used in
    any order; blocks may be freed by another thread than the one that allocated
    them, routed through the table of slabs.  The user writes what it likes into
    the user data of its blocks.  Blocks that are live never overlap, and no
    operation of the allocator touches their user data; memory runs out only when
    [mmap] fails.  With coalescing both fail. *)

From S2P Require Import Prelude SlabSource SlabCache.
From stdpp Require Import base numbers list gmap.

#[local] Open Scope Z_scope.

(** ** Reading and writing *)

Lemma rd_wr m a v x : rd (wr m (a, v)) x = if decide (x = a) then v else rd m x.
Proof.
  unfold rd, wr. simpl. destruct (decide (x = a)) as [->|Hne]; [by rewrite lookup_insert_eq|by rewrite lookup_insert_ne].
Qed.
Lemma rd_wr_eq m a v : rd (wr m (a, v)) a = v.
Proof. rewrite rd_wr. by rewrite decide_True. Qed.
Lemma rd_wr_ne m a v x : x <> a -> rd (wr m (a, v)) x = rd m x.
Proof. intros. rewrite rd_wr. by rewrite decide_False. Qed.
Lemma rd_wrs_out l x : forall m, Forall (fun w => w.1 <> x) l -> rd (wrs l m) x = rd m x.
Proof.
  induction l as [|[a v] l IH]; intros m Hl; [done|]. apply Forall_cons_1 in Hl as [Ha Hl]. simpl in *.
  unfold wrs. simpl. fold (wrs l (wr m (a, v))). rewrite IH by done. by apply rd_wr_ne.
Qed.

(** ** Packed pointers *)

Definition ptr_ok (h : Z) : Prop := 0 < h < 140737488355328.

Lemma extract_pack p t : 0 <= p < 140737488355328 -> extract_ptr (pack p t) = p.
Proof.
  intros Hp. unfold extract_ptr, pack. change kPtrMask with (Z.ones 48).
  assert (E : Z.land (Z.lor (Z.land p (Z.ones 48)) (u64 (Z.shiftl t 48))) (Z.ones 48) = p).
  { rewrite Z.land_lor_distr_l, <- Z.land_assoc, Z.land_diag, !Z.land_ones by lia. rewrite (Z.mod_small p) by lia.
    assert (Ez : u64 (Z.shiftl t 48) mod 2 ^ 48 = 0).
    { unfold u64. rewrite Z.shiftl_mul_pow2 by lia. change 18446744073709551616 with (2 ^ 16 * 2 ^ 48).
      rewrite Z.mul_mod_distr_r by lia. apply Z.mod_mul. lia. }
    rewrite Ez. apply Z.lor_0_r. }
  rewrite E. assert (Eb : Z.land p (Z.shiftl 1 47) = 0).
  { apply Z.bits_inj'. intros n Hn. rewrite Z.land_spec, Z.shiftl_1_l, Z.pow2_bits_eqb, Z.bits_0 by lia.
    destruct (Z.eqb_spec 47 n) as [<-|]; [|apply andb_false_r]. rewrite andb_true_r. apply Z.testbit_false; [lia|].
    rewrite Z.div_small by lia. done. }
  by rewrite Eb.
Qed.
Lemma extract_zero : extract_ptr 0 = 0.
Proof. reflexivity. Qed.

(** ** Lists through blocks *)

Fixpoint chain (m : Mem) (top : Z) (l : list Z) : Prop :=
  match l with [] => top = 0 | h :: l => top = h /\ chain m (rd m h) l end.
Fixpoint links (m : Mem) (l : list Z) : Prop :=
  match l with [] => True | h :: l => rd m (link_next h) = default 0 (head l) /\ links m l end.

Lemma chain_head m top l : chain m top l -> top = default 0 (head l).
Proof. destruct l; simpl; [done|]. by intros [-> _]. Qed.
Lemma chain_frame m m' l : forall top, (forall h, h ∈ l -> rd m' h = rd m h) -> chain m top l -> chain m' top l.
Proof.
  induction l as [|h l IH]; intros top Hf Hc; [done|]. destruct Hc as [-> Hc]. split; [done|]. rewrite Hf by left. apply IH; [|done]. intros x Hx. apply Hf. by right.
Qed.
Lemma links_frame m m' l : (forall h, h ∈ l -> rd m' (link_next h) = rd m (link_next h)) -> links m l -> links m' l.
Proof.
  induction l as [|h l IH]; intros Hf Hc; [done|]. destruct Hc as [E Hc]. split; [rewrite Hf by left; done|]. apply IH; [|done]. intros x Hx. apply Hf. by right.
Qed.

Lemma pop_nil top m : chain m (extract_ptr top) [] -> freelist_pop top m = (0, top).
Proof. simpl. intros E. unfold freelist_pop. by rewrite E. Qed.
Lemma pop_chain top m h l :
  chain m (extract_ptr top) (h :: l) -> Forall ptr_ok (h :: l) ->
  exists top', freelist_pop top m = (h, top') /\ extract_ptr top' = rd m h /\ chain m (extract_ptr top') l.
Proof.
  intros [E Hc] Hp. apply Forall_cons_1 in Hp as [Hh Hp]. unfold ptr_ok in Hh. unfold freelist_pop. rewrite E.
  rewrite (proj2 (Z.eqb_neq h 0)) by lia. eexists. split; [done|].
  assert (Hr : 0 <= rd m h < 140737488355328).
  { rewrite (chain_head _ _ _ Hc). destruct l as [|x l]; simpl; [lia|]. apply Forall_cons_1 in Hp as [Hx _]. unfold ptr_ok in Hx. lia. }
  rewrite extract_pack by done. done.
Qed.
Lemma push_chain top m h l :
  chain m (extract_ptr top) l -> ptr_ok h -> h ∉ l ->
  exists top', freelist_push h top m = (top', wr m (h, extract_ptr top)) /\ extract_ptr top' = h /\ chain (wr m (h, extract_ptr top)) (extract_ptr top') (h :: l).
Proof.
  intros Hc Hh Hn. unfold ptr_ok in Hh. eexists. split; [done|]. rewrite extract_pack by lia. split; [done|]. split; [done|].
  rewrite rd_wr_eq. eapply chain_frame; [|exact Hc]. intros x Hx. apply rd_wr_ne. by intros ->.
Qed.

(** Blocks of one size that do not overlap. *)
Definition spread (l : list Z) : Prop := forall x y, x ∈ l -> y ∈ l -> x <> y -> apart x 96 y 96.

Definition bin_rep (m : Mem) (top : Z) (l : list Z) : Prop := chain m (extract_ptr top) l /\ links m l.
Lemma bin_rep_frame m m' top l :
  (forall h, h ∈ l -> rd m' h = rd m h /\ rd m' (link_next h) = rd m (link_next h)) -> bin_rep m top l -> bin_rep m' top l.
Proof. intros Hf [H1 H2]. split; [eapply chain_frame, H1|eapply links_frame, H2]; intros x Hx; by apply Hf. Qed.

Lemma dll_pop_nil top m : bin_rep m top [] -> dll_pop top m = (0, (top, m)).
Proof. intros [Hc _]. unfold dll_pop. by rewrite pop_nil. Qed.
Lemma dll_pop_cons top m h l :
  bin_rep m top (h :: l) -> Forall ptr_ok (h :: l) -> spread (h :: l) -> NoDup (h :: l) ->
  exists top' m', dll_pop top m = (h, (top', m')) /\ bin_rep m' top' l /\ (forall a, (forall x, x ∈ l -> a <> x + 40) -> rd m' a = rd m a).
Proof.
  intros [Hc [Hl Hls]] Hp Hs Hn. destruct (pop_chain top m h l Hc Hp) as (top' & E & _ & Hc'). unfold dll_pop. rewrite E.
  apply Forall_cons_1 in Hp as [Hh Hp]. unfold ptr_ok in Hh. rewrite (proj2 (Z.eqb_neq h 0)) by lia. rewrite Hl. simpl.
  destruct l as [|x l]; simpl; [eexists _, _; split; [done|]; split; [by split|done]|]. apply Forall_cons_1 in Hp as [Hx Hp]. unfold ptr_ok in Hx. rewrite (proj2 (Z.eqb_neq x 0)) by lia.
  eexists _, _. split; [done|]. split.
  - apply (bin_rep_frame m); [|by split]. intros y Hy. unfold link_prev, link_next, user_data.
    destruct (decide (y = x)) as [->|Hyx]; [split; apply rd_wr_ne; lia|].
    destruct (Hs y x) as [H|H]; [by right|by right; left|done|..]; split; apply rd_wr_ne; lia.
  - intros a Ha. apply rd_wr_ne. unfold link_prev, user_data. pose proof (Ha x ltac:(left)). lia.
Qed.

Lemma dll_push_spec top m h l :
  bin_rep m top l -> Forall ptr_ok (h :: l) -> spread (h :: l) -> h ∉ l -> NoDup l ->
  exists top' m', dll_push top h m = (top', m') /\ bin_rep m' top' (h :: l) /\
    (forall a, (forall x, x ∈ l -> a <> x + 40) -> ~ (h <= a < h + 96) -> rd m' a = rd m a).
Proof.
  intros [Hc Hl] Hp Hs Hn Hnd. apply Forall_cons_1 in Hp as [Hh Hp]. unfold dll_push. destruct l as [|x l].
  - rewrite pop_nil by done. rewrite Z.eqb_refl. set (m1 := wrs _ m). assert (Hc1 : chain m1 (extract_ptr top) []) by done.
    destruct (push_chain top m1 h [] Hc1 Hh Hn) as (top' & E & _ & Hc'). exists top', (wr m1 (h, extract_ptr top)). split; [exact E|].
    assert (Eh : rd m1 (link_next h) = 0) by (subst m1; unfold wrs; simpl; rewrite rd_wr_ne by (unfold link_next, link_prev, user_data; lia); apply rd_wr_eq).
    split; [split; [done|]|].
    + split; [|done]. simpl. rewrite rd_wr_ne by (unfold link_next, user_data; lia). done.
    + intros a _ Ha. rewrite rd_wr_ne by lia. apply rd_wrs_out. unfold link_next, link_prev, user_data. repeat constructor; simpl; lia.
  - destruct (pop_chain top m x l Hc Hp) as (t1 & E1 & Et1 & Hc1). rewrite E1. pose proof (Forall_cons_1 _ _ _ Hp) as [Hx Hpl].
    rewrite (proj2 (Z.eqb_neq x 0)) by (unfold ptr_ok in Hx; lia).
    assert (Hxh : apart x 96 h 96) by (apply Hs; [by right; left|by left|by intros ->; apply Hn; left]).
    apply NoDup_cons in Hnd as [Hxl Hnd].
    set (m1 := wr (wrs [(link_next h, x); (link_prev h, 0)] m) (link_prev x, h)).
    assert (Hm1 : forall a, (forall y, y ∈ x :: l -> a <> y + 40) -> ~ (h <= a < h + 96) -> rd m1 a = rd m a).
    { intros a Ha Hah. subst m1. rewrite rd_wr_ne by (unfold link_prev, user_data; pose proof (Ha x ltac:(left)); lia).
      apply rd_wrs_out. unfold link_next, link_prev, user_data. repeat constructor; simpl; lia. }
    assert (Hcell : forall y o, y ∈ x :: l -> o = 0 \/ o = 32 -> rd m1 (y + o) = rd m (y + o)).
    { intros y o Hy Ho. assert (Hyh : apart y 96 h 96) by (apply Hs; [by right|by left|by intros ->]).
      apply Hm1; [|unfold apart in *; lia]. intros z Hz. destruct (decide (y = z)) as [->|Hyz]; [lia|].
      assert (apart y 96 z 96) by (apply Hs; [by right|by right|done]). unfold apart in *. lia. }
    assert (Hc1' : chain m1 (extract_ptr t1) l).
    { eapply chain_frame; [|exact Hc1]. intros y Hy. rewrite <- (Z.add_0_r y). apply Hcell; [by right|by left]. }
    destruct (push_chain t1 m1 x l Hc1' Hx Hxl) as (t2 & E2 & Et2 & Hc2). rewrite E2.
    set (m2 := wr m1 (x, extract_ptr t1)) in *.
    assert (Hm2 : forall a, rd m2 a = rd m1 a).
    { intros a. subst m2. rewrite rd_wr. destruct (decide (a = x)) as [->|]; [|done]. rewrite Et1. symmetry. rewrite <- (Z.add_0_r x) at 1.
      rewrite Hcell; [by rewrite Z.add_0_r|left|by left]. }
    destruct (push_chain t2 m2 h (x :: l) Hc2 Hh Hn) as (t3 & E3 & _ & Hc3). exists t3, (wr m2 (h, extract_ptr t2)). split; [exact E3|]. split; [split; [done|]|].
    + assert (Ho : forall y, y ∈ x :: l -> apart y 96 h 96) by (intros y Hy; apply Hs; [by right|by left|by intros ->]).
      split.
      * simpl. rewrite rd_wr_ne by (unfold link_next, user_data; lia). rewrite Hm2. subst m1.
        rewrite rd_wr_ne by (unfold link_next, link_prev, user_data, apart in *; lia). unfold wrs. simpl.
        rewrite rd_wr_ne by (unfold link_next, link_prev, user_data; lia). apply rd_wr_eq.
      * eapply links_frame; [|exact Hl]. intros y Hy. pose proof (Ho y Hy). unfold link_next, user_data.
        rewrite rd_wr_ne by (unfold apart in *; lia). rewrite Hm2. apply Hcell; [done|by right].
    + intros a Ha Hah. rewrite rd_wr_ne by lia. rewrite Hm2. by apply Hm1.
Qed.

(** ** Blocks *)

(** [h] is a block of class [cls] in a slab that is registered to cache [k]. *)
Definition block_of (s : SegmentProvider) (k : nat) (cls : SizeClass) (h : Z) : Prop :=
  exists b j r, sp_records s !! b = Some r /\ sl_owner r = Some k /\ sl_size r = slab_size cls /\
    0 <= j /\ h = b + j * block_size cls /\ (j + 1) * block_size cls <= slab_size cls.

Lemma block_size_min cls : 96 <= block_size cls /\ size_for_class cls + 40 <= block_size cls.
Proof. by destruct cls. Qed.

Lemma blocks_apart s k k' cls cls' h h' :
  provider_ok s -> block_of s k cls h -> block_of s k' cls' h' -> (k = k' -> cls = cls' /\ h <> h') ->
  apart h (block_size cls) h' (block_size cls').
Proof.
  intros Hs (b & j & r & Hb & Ho & Hsz & Hj & -> & Hjs) (b' & j' & r' & Hb' & Ho' & Hsz' & Hj' & -> & Hjs') Hk.
  pose proof (block_size_min cls). pose proof (block_size_min cls'). destruct (decide (b = b')) as [<-|Hne].
  - simplify_eq. destruct (Hk eq_refl) as [<- Hh]. assert (j <> j') by congruence. unfold apart. nia.
  - pose proof (po_slabs_apart s Hs b b' r r' Hne Hb Hb') as Ha. rewrite Hsz, Hsz' in Ha. unfold apart in *. nia.
Qed.
Lemma block_ptr s k cls h : provider_ok s -> block_of s k cls h -> 0 < h /\ h + block_size cls <= 140737488355328 /\ h mod 32 = 0.
Proof.
  intros Hs (b & j & r & Hb & Ho & Hsz & Hj & -> & Hjs). destruct (po_records s Hs b r Hb) as (g & Hg & Hi).
  destruct (po_segments s Hs _ g Hg) as [Hgo _]. destruct (slab_in_ok g b r Hgo Hi) as (H1 & H2 & H3). rewrite Hsz in H3.
  pose proof (block_size_min cls) as [Hbs _]. assert (0 <= j * block_size cls) by (apply Z.mul_nonneg_nonneg; lia).
  split; [lia|]. split; [lia|]. destruct (block_size_spec cls) as [Hm _]. unfold kAllocAlignment in Hm.
  apply Z.mod_divide in H2; [|lia]. apply Z.mod_divide in Hm; [|lia]. destruct H2 as [x Hx], Hm as [y Hy]. apply Z.mod_divide; [lia|]. exists (x + j * y). nia.
Qed.
Lemma block_ptr_ok s k cls h : provider_ok s -> block_of s k cls h -> ptr_ok h.
Proof. intros Hs Hb. destruct (block_ptr s k cls h Hs Hb) as (? & ? & _). pose proof (block_size_min cls). unfold ptr_ok. lia. Qed.

(** The provider has at least the slabs it had. *)
Definition more_slabs (s s' : SegmentProvider) : Prop := forall b r, sp_records s !! b = Some r -> sp_records s' !! b = Some r.
Lemma more_refl s : more_slabs s s.
Proof. by intros b r. Qed.
Lemma block_of_more s s' k cls h : more_slabs s s' -> block_of s k cls h -> block_of s' k cls h.
Proof. intros Hm (b & j & r & Hb & H). exists b, j, r. split; [by apply Hm|done]. Qed.

(** ** The invariant of a cache *)

Record cache_inv (s : SegmentProvider) (m : Mem) (k : nat) (c : SlabCache) (live f0 : list Z) (fs : list (list Z)) : Prop := mkCacheInv {
  ci_coalescing : sc_coalescing c = false;
  ci_slabs : Forall (fun b => exists r, sp_records s !! b = Some r /\ sl_owner r = Some k /\ sl_size r = slab_size (sc_class c)) (sc_slabs c);
  ci_current : (sc_current c = 0 \/ sc_current c ∈ sc_slabs c) /\ Forall (fun b => b ∈ sc_slabs c) (sc_idle c);
  ci_bump : 0 <= sc_bump c /\ (exists j, sc_bump c = j * block_size (sc_class c)) /\ (sc_slab_size c = 0 \/ sc_slab_size c = slab_size (sc_class c));
  ci_blocks : Forall (block_of s k (sc_class c)) (live ++ f0 ++ concat fs);
  ci_below : sc_slab_size c <> 0 -> sc_current c <> 0 ->
             Forall (fun h => sc_current c <= h < sc_current c + slab_size (sc_class c) -> h + block_size (sc_class c) <= sc_current c + sc_bump c) (live ++ f0 ++ concat fs);
  ci_nodup : NoDup (live ++ f0 ++ concat fs);
  ci_free : chain m (extract_ptr (sc_freelist c)) f0;
  ci_bins : Forall2 (bin_rep m) (sc_bins c) fs;
  ci_len : length fs = 8%nat;
  ci_live : sc_live_count c = u32 (zlen live);
  ci_idle : sc_idle c <> [] -> sc_strategy c = kBumpOnly /\ sc_slab_size c = 0
}.

(** The cells a free list reads. *)
Lemma cache_inv_frame s s' m m' k c live f0 fs :
  more_slabs s s' -> (forall h o, h ∈ f0 ++ concat fs -> 0 <= o < 40 -> rd m' (h + o) = rd m (h + o)) -> cache_inv s m k c live f0 fs -> cache_inv s' m' k c live f0 fs.
Proof.
  intros Hm Hf [H1 H2 H3 H4 H5 H6 H7 H8 H9 H10 H11 H12]. split; try done.
  - eapply Forall_impl; [exact H2|]. intros b (r & Hb & Hr). exists r. split; [by apply Hm|done].
  - eapply Forall_impl; [exact H5|]. intros h. by apply block_of_more.
  - eapply chain_frame; [|exact H8]. intros h Hh. rewrite <- (Z.add_0_r h). apply Hf; [apply elem_of_app; by left|lia].
  - apply Forall2_lookup. intros i. destruct (sc_bins c !! i) as [top|] eqn:E1, (fs !! i) as [l|] eqn:E2.
    + constructor. eapply bin_rep_frame; [|exact (Forall2_lookup_lr _ _ _ _ _ _ H9 E1 E2)]. intros h Hh.
      assert (Hin : h ∈ f0 ++ concat fs). { apply elem_of_app. right. apply list_elem_of_In, in_concat. exists l. split; apply list_elem_of_In; [by eapply list_elem_of_lookup_2|done]. }
      split; [rewrite <- (Z.add_0_r h); apply Hf; [done|lia]|]. unfold link_next, user_data. apply Hf; [done|lia].
    + pose proof (Forall2_length _ _ _ H9). apply lookup_lt_Some in E1. apply lookup_ge_None in E2. lia.
    + pose proof (Forall2_length _ _ _ H9). apply lookup_lt_Some in E2. apply lookup_ge_None in E1. lia.
    + constructor.
Qed.

(** Two memories agree outside the blocks of a list. *)
Definition agree_off (bs : Z) (B : list Z) (m m' : Mem) : Prop := forall a, (forall x, x ∈ B -> ~ (x <= a < x + bs)) -> rd m' a = rd m a.
Lemma agree_wrs bs h B l m : h ∈ B -> Forall (fun w => h <= w.1 < h + bs) l -> agree_off bs B m (wrs l m).
Proof.
  intros Hh Hl a Ha. apply rd_wrs_out. eapply Forall_impl; [exact Hl|]. simpl. intros w Hw E. apply (Ha h Hh). lia.
Qed.
Lemma agree_trans bs B m1 m2 m3 : agree_off bs B m1 m2 -> agree_off bs B m2 m3 -> agree_off bs B m1 m3.
Proof. intros H1 H2 a Ha. by rewrite H2, H1. Qed.

(** Cells of other blocks are not among those of the list. *)
Lemma agree_block s k k' cls cls' B m m' h o :
  provider_ok s -> agree_off (block_size cls) B m m' -> Forall (block_of s k cls) B -> block_of s k' cls' h -> 0 <= o < block_size cls' ->
  (k = k' -> cls = cls' /\ h ∉ B) -> rd m' (h + o) = rd m (h + o).
Proof.
  intros Hs Hag HB Hh Ho Hk. apply Hag. intros x Hx [Hx1 Hx2]. rewrite Forall_forall in HB.
  destruct (blocks_apart s k k' cls cls' x h Hs (HB x Hx) Hh) as [H|H]; [|lia|lia]. intros E. destruct (Hk E) as [-> Hn]. split; [done|]. by intros ->.
Qed.

Section Cache.
Context (s : SegmentProvider) (k : nat) (Hs : provider_ok s).

Lemma used_ptr c l : Forall (block_of s k (sc_class c)) l -> Forall ptr_ok l.
Proof. intros Hl. eapply Forall_impl; [exact Hl|]. intros h. by apply block_ptr_ok. Qed.
Lemma used_spread c l : Forall (block_of s k (sc_class c)) l -> spread l.
Proof.
  intros Hl x y Hx Hy Hne. rewrite Forall_forall in Hl. pose proof (blocks_apart s k k _ _ x y Hs (Hl x Hx) (Hl y Hy) (fun _ => conj eq_refl Hne)) as H.
  pose proof (block_size_min (sc_class c)). unfold apart in *. lia.
Qed.

(** What an allocation leaves: a block that was not live, writes confined to it and
    to free blocks. *)
Definition allocated (m : Mem) (c : SlabCache) (live f0 : list Z) (fs : list (list Z)) (p : Z) (m' : Mem) (c' : SlabCache) : Prop :=
  exists h f0' fs', p = user_data h /\ h ∉ live /\ sc_class c' = sc_class c /\ cache_inv s m' k c' (h :: live) f0' fs' /\
    agree_off (block_size (sc_class c)) (h :: f0 ++ concat fs) m m' /\ block_of s k (sc_class c) h.

(** Writes into a block that is in no free list leave the lists as they are. *)
Lemma inv_new_block m c live f0 fs h l :
  Forall (block_of s k (sc_class c)) (h :: f0 ++ concat fs) -> h ∉ f0 ++ concat fs -> Forall (fun w => h <= w.1 < h + block_size (sc_class c)) l ->
  cache_inv s m k c live f0 fs -> cache_inv s (wrs l m) k c live f0 fs.
Proof.
  intros HB Hn Hl. apply cache_inv_frame; [apply more_refl|]. intros x o Hx Ho.
  pose proof (block_size_min (sc_class c)). apply Forall_cons_1 in HB as [Hh HB]. rewrite Forall_forall in HB.
  apply (agree_block s k k (sc_class c) (sc_class c) [h]); [done|eapply agree_wrs; [left|done]|by constructor|by apply HB|lia|].
  intros _. split; [done|]. intros E. apply list_elem_of_singleton in E as ->. done.
Qed.

Lemma header_writes h cls owner region : Forall (fun w => h <= w.1 < h + block_size cls) (header_stamp h cls owner region false ++ (f_generation h, 0) :: canary_stamp h (block_size cls)).
Proof.
  pose proof (block_size_min cls). unfold header_stamp, canary_stamp, footer_of, f_incarnation, f_magic, f_size_class, f_generation, f_flags, f_padding, f_timestamp.
  repeat constructor; simpl; lia.
Qed.
Lemma recycled_writes h cls owner : Forall (fun w => h <= w.1 < h + block_size cls) ([(h, owner); (f_magic h, kAllocMagic); (f_generation h, 0)] ++ canary_stamp h (block_size cls)).
Proof. pose proof (block_size_min cls). unfold canary_stamp, footer_of, f_magic, f_generation. repeat constructor; simpl; lia. Qed.

Lemma live_count_add (live : list Z) h z : z = u32 (zlen live) -> u32 (z + 1) = u32 (zlen (h :: live)).
Proof. intros ->. rewrite u32_add_mod, zlen_cons. f_equal. lia. Qed.

Lemma bump_alloc_ok owner m c live f0 fs p m' c' :
  cache_inv s m k c live f0 fs -> bump_alloc owner m c = Some (p, m', c') -> allocated m c live f0 fs p m' c'.
Proof.
  intros Hi E. unfold bump_alloc in E. destruct (_ && _) eqn:Eb; [|done]. injection E as <- <- <-.
  apply andb_true_iff in Eb as [Hcur Hfit]. apply negb_true_iff, Z.eqb_neq in Hcur. apply Z.leb_le in Hfit. set (cls := sc_class c) in *.
  pose proof (block_size_min cls) as Hbs. destruct Hi as [H1 H2 [H3 H3'] (H4 & (j & Ej) & Hsz) H5 H6 H7 H8 H9 H10 H11 H12].
  fold cls in H2, H5, H6, Ej, Hsz.   assert (Hsz' : sc_slab_size c = slab_size cls) by (destruct Hsz; [lia|done]). clear Hsz.
  assert (Hne0 : sc_slab_size c <> 0) by lia. specialize (H6 Hne0 Hcur). set (h := sc_current c + sc_bump c).
  assert (Hh : block_of s k cls h).
  { destruct H3 as [?|H3]; [done|]. rewrite Forall_forall in H2. destruct (H2 _ H3) as (r & Hr & Ho & Hz). exists (sc_current c), j, r.
    assert (0 <= j) by (apply (Z.mul_nonneg_cancel_r j (block_size cls)); lia).
    split_and!; [done|done|done|done|unfold h; lia|rewrite Z.mul_add_distr_r; lia]. }
  assert (Hfresh : h ∉ live ++ f0 ++ concat fs).
  { intros Hin. rewrite Forall_forall in H6. pose proof (H6 h Hin). unfold h in *. lia. }
  exists h, f0, fs. split; [done|]. split; [by intros Hin; apply Hfresh, elem_of_app; left|]. split; [unfold count_alloc, set_slab; simpl; by destruct (sc_stats c) as [[? ?] ?]|].
  assert (Hfree : Forall (block_of s k cls) (h :: f0 ++ concat fs)). { constructor; [done|]. by apply Forall_app in H5 as [_ ?]. }
  split; [|split; [eapply agree_wrs; [left|apply header_writes]|done]].
  apply (inv_new_block m _ (h :: live) f0 fs h).
  - unfold count_alloc, set_slab. simpl. by destruct (sc_stats c) as [[? ?] ?].
  - intros Hin. apply Hfresh, elem_of_app. by right.
  - unfold count_alloc, set_slab. simpl. destruct (sc_stats c) as [[? ?] ?]. apply header_writes.
  - unfold count_alloc, set_slab. simpl. destruct (sc_stats c) as [[? ?] ?]. split; simpl; try done; fold cls.
    + split; [lia|]. split; [exists (j + 1); lia|by right].
    + by constructor.
    + intros _ _. constructor; [unfold h; lia|]. eapply Forall_impl; [exact H6|]. simpl. intros x Hx Hr. specialize (Hx Hr). lia.
    + by constructor.
    + by apply live_count_add.
Qed.

(** Two caches with the same slabs. *)
Record same_slabs (c c' : SlabCache) : Prop := mkSameSlabs {
  ss_class : sc_class c' = sc_class c; ss_co : sc_coalescing c' = sc_coalescing c; ss_cur : sc_current c' = sc_current c; ss_size : sc_slab_size c' = sc_slab_size c;
  ss_bump : sc_bump c' = sc_bump c; ss_idle : sc_idle c' = sc_idle c; ss_slabs : sc_slabs c' = sc_slabs c; ss_strategy : sc_strategy c' = sc_strategy c
}.
Lemma same_take c st top bins : same_slabs c (count_alloc (set_free c st top bins)).
Proof. unfold count_alloc. simpl. destruct (sc_stats c) as [[? ?] ?]. by split. Qed.
Lemma same_give c st top bins : same_slabs c (set_free (count_free c) st top bins).
Proof. unfold count_free, set_free. destruct (sc_stats c) as [[? ?] ?]. by split. Qed.

(** Blocks move between the lists, or are forgotten. *)
Lemma inv_change m m' c c' live live' f0 f0' fs fs' :
  cache_inv s m k c live f0 fs -> same_slabs c c' -> live' ++ f0' ++ concat fs' ⊆+ live ++ f0 ++ concat fs ->
  chain m' (extract_ptr (sc_freelist c')) f0' -> Forall2 (bin_rep m') (sc_bins c') fs' -> length fs' = 8%nat -> sc_live_count c' = u32 (zlen live') ->
  cache_inv s m' k c' live' f0' fs'.
Proof.
  intros [H1 H2 H3 H4 H5 H6 H7 H8 H9 H10 H11 H12] [E1 E2 E3 E4 E5 E6 E7 E8] Hsub Hc Hb Hl Hn.
  apply submseteq_Permutation in Hsub as [gone Hp]. split; rewrite ?E1, ?E2, ?E3, ?E4, ?E5, ?E6, ?E7, ?E8; try done.
  - rewrite Hp in H5. by apply Forall_app in H5 as [? _].
  - intros Hz Hcur. specialize (H6 Hz Hcur). rewrite Hp in H6. by apply Forall_app in H6 as [? _].
  - rewrite Hp in H7. by apply NoDup_app in H7 as [? _].
Qed.

(** A block taken from a free list is stamped. *)
Lemma stamped m m1 c c1 live f0 fs h f0' fs' owner :
  cache_inv s m k c live f0 fs -> (h :: live) ++ f0' ++ concat fs' ≡ₚ live ++ f0 ++ concat fs -> agree_off (block_size (sc_class c)) (h :: f0 ++ concat fs) m m1 ->
  cache_inv s m1 k (count_alloc c1) (h :: live) f0' fs' -> sc_class c1 = sc_class c ->
  let '(p, m', c') := stamp_freelist_block h owner m1 c1 in allocated m c live f0 fs p m' c'.
Proof.
  intros Hi Hp Hag Hi1 Ec. simpl. pose proof (ci_blocks _ _ _ _ _ _ _ Hi) as Hb. pose proof (ci_nodup _ _ _ _ _ _ _ Hi) as Hn. rewrite <- Hp in Hb, Hn.
  simpl in Hb, Hn. apply Forall_cons_1 in Hb as [Hh Hb]. apply NoDup_cons in Hn as [Hnin _].
  assert (Ec' : sc_class (count_alloc c1) = sc_class c) by (unfold count_alloc; destruct (sc_stats c1) as [[? ?] ?]; done).
  exists h, f0', fs'. split; [done|]. split; [by intros Hx; apply Hnin, elem_of_app; left|]. split; [done|]. rewrite Ec. split; [|split; [|done]].
  - apply (inv_new_block m1 _ (h :: live) f0' fs' h); [| |rewrite Ec'; apply recycled_writes|done].
    + rewrite Ec'. constructor; [done|]. by apply Forall_app in Hb as [_ ?].
    + intros Hx. apply Hnin, elem_of_app. by right.
  - eapply agree_trans; [exact Hag|]. eapply agree_wrs; [left|apply recycled_writes].
Qed.

Lemma freelist_alloc_ok owner m c live f0 fs block top :
  cache_inv s m k c live f0 fs -> freelist_pop (sc_freelist c) m = (block, top) -> block <> 0 ->
  let '(p, m', c') := stamp_freelist_block block owner m (set_free c (sc_start_bin c) top (sc_bins c)) in allocated m c live f0 fs p m' c'.
Proof.
  intros Hi Epop Hne. pose proof (ci_free _ _ _ _ _ _ _ Hi) as Hc. destruct f0 as [|h l]; [rewrite pop_nil in Epop by done; simplify_eq|].
  pose proof (ci_blocks _ _ _ _ _ _ _ Hi) as Hb. apply Forall_app in Hb as [_ Hb]. apply Forall_app in Hb as [Hb0 _].
  destruct (pop_chain _ m h l Hc (used_ptr c _ Hb0)) as (top' & E & _ & Hc'). rewrite E in Epop. injection Epop as <- <-.
  assert (Hp : (h :: live) ++ l ++ concat fs ≡ₚ live ++ (h :: l) ++ concat fs) by (simpl; by rewrite Permutation_middle).
  eapply (stamped m m c (set_free c (sc_start_bin c) top' (sc_bins c)) live (h :: l) fs h l fs); try done.
  eapply inv_change; [exact Hi|apply same_take|by rewrite Hp| | |exact (ci_len _ _ _ _ _ _ _ Hi)|].
  - unfold count_alloc. simpl. by destruct (sc_stats c) as [[? ?] ?].
  - unfold count_alloc. simpl. destruct (sc_stats c) as [[? ?] ?]. exact (ci_bins _ _ _ _ _ _ _ Hi).
  - unfold count_alloc. simpl. destruct (sc_stats c) as [[? ?] ?]. simpl. apply live_count_add. exact (ci_live _ _ _ _ _ _ _ Hi).
Qed.

(** The lists of the bins when one of them changes. *)
Lemma bins_insert m m' bins fs b top l top' l' :
  Forall2 (bin_rep m) bins fs -> bins !! b = Some top -> fs !! b = Some l -> bin_rep m' top' l' ->
  (forall x, x ∈ concat (delete b fs) -> rd m' x = rd m x /\ rd m' (link_next x) = rd m (link_next x)) ->
  Forall2 (bin_rep m') (<[b := top']> bins) (<[b := l']> fs).
Proof.
  intros Hf Eb El Hr Hx. apply Forall2_lookup. intros i. destruct (decide (i = b)) as [->|Hne].
  - rewrite !list_lookup_insert_eq by (by eapply lookup_lt_Some). by constructor.
  - rewrite !list_lookup_insert_ne by done. destruct (bins !! i) as [t|] eqn:Et, (fs !! i) as [q|] eqn:Eq.
    + constructor. eapply bin_rep_frame; [|exact (Forall2_lookup_lr _ _ _ _ _ _ Hf Et Eq)]. intros y Hy. apply Hx.
      apply list_elem_of_In, in_concat. exists q. split; apply list_elem_of_In; [|done]. apply list_elem_of_lookup.
      destruct (decide (i < b)%nat); [exists i; by rewrite list_lookup_delete_lt|]. exists (pred i). rewrite list_lookup_delete_ge by lia.
      by replace (S (pred i)) with i by lia.
    + pose proof (Forall2_length _ _ _ Hf). apply lookup_lt_Some in Et. apply lookup_ge_None in Eq. lia.
    + pose proof (Forall2_length _ _ _ Hf). apply lookup_lt_Some in Eq. apply lookup_ge_None in Et. lia.
    + constructor.
Qed.
Lemma concat_split (fs : list (list Z)) b l l' : fs !! b = Some l -> concat fs ≡ₚ l ++ concat (delete b fs) /\ concat (<[b := l']> fs) ≡ₚ l' ++ concat (delete b fs).
Proof.
  intros Hb. assert (H : forall (x : list (list Z)) (q : list Z), x !! b = Some q -> concat x ≡ₚ q ++ concat (delete b x)).
  { intros x q Hq. rewrite <- (take_drop_middle _ _ _ Hq) at 1. rewrite concat_app. simpl. rewrite delete_take_drop, concat_app. rewrite Permutation_app_swap_app. done. }
  split; [by apply H|]. rewrite (H (<[b := l']> fs) l') by (apply list_lookup_insert_eq; by eapply lookup_lt_Some).
  by rewrite !delete_take_drop, take_insert_ge, drop_insert_lt by lia.
Qed.

(** What is known of bin [b]. *)
Lemma bin_lookup m c live f0 fs b :
  cache_inv s m k c live f0 fs -> (b < 8)%nat ->
  exists top l, sc_bins c !! b = Some top /\ fs !! b = Some l /\ bin_rep m top l /\ (forall x, x ∈ l -> x ∈ concat fs).
Proof.
  intros Hi Hb. pose proof (Forall2_length _ _ _ (ci_bins _ _ _ _ _ _ _ Hi)) as El. pose proof (ci_len _ _ _ _ _ _ _ Hi) as E8.
  destruct (lookup_lt_is_Some_2 fs b ltac:(lia)) as [l Hl]. destruct (lookup_lt_is_Some_2 (sc_bins c) b ltac:(lia)) as [top Ht].
  exists top, l. split; [done|]. split; [done|]. split; [exact (Forall2_lookup_lr _ _ _ _ _ _ (ci_bins _ _ _ _ _ _ _ Hi) Ht Hl)|].
  intros x Hx. apply list_elem_of_In, in_concat. exists l. split; apply list_elem_of_In; [by eapply list_elem_of_lookup_2|done].
Qed.

(** Cells at offset 40 of some blocks are no cells that other lists read. *)
Lemma other_cells m m' c (l used : list Z) :
  Forall (block_of s k (sc_class c)) used -> (forall x, x ∈ l -> x ∈ used) -> (forall a, (forall x, x ∈ l -> a <> x + 40) -> rd m' a = rd m a) ->
  forall y o, y ∈ used -> 0 <= o < 40 -> rd m' (y + o) = rd m (y + o).
Proof.
  intros Hb Hl Hag y o Hy Ho. apply Hag. intros x Hx E. pose proof (used_spread c used Hb) as Hs'.
  destruct (decide (x = y)) as [->|Hne]; [lia|]. destruct (Hs' x y (Hl x Hx) Hy Hne); lia.
Qed.

Lemma bins_alloc_ok owner m c live f0 fs : forall n i p m' c',
  cache_inv s m k c live f0 fs -> bins_alloc n i owner m c = Some (p, m', c') -> allocated m c live f0 fs p m' c'.
Proof.
  induction n as [|n IH]; intros i p m' c' Hi E; [done|]. cbn [bins_alloc] in E. set (b := ((sc_start_bin c + i) mod 8)%nat) in *.
  assert (Hb : (b < 8)%nat) by (apply Nat.mod_upper_bound; lia). destruct (bin_lookup m c live f0 fs b Hi Hb) as (top & l & Et & El & Hr & Hin).
  rewrite Et in E. simpl in E. destruct l as [|h l].
  { rewrite dll_pop_nil in E by done. simpl in E. by apply (IH (S i)). }
  pose proof (ci_blocks _ _ _ _ _ _ _ Hi) as Hbl. pose proof (ci_nodup _ _ _ _ _ _ _ Hi) as Hnd.
  assert (Hused : forall x, x ∈ f0 ++ concat fs -> x ∈ live ++ f0 ++ concat fs) by (intros x Hx; apply elem_of_app; by right).
  assert (Hl : Forall (block_of s k (sc_class c)) (h :: l)).
  { rewrite Forall_forall in Hbl |- *. intros x Hx. apply Hbl, Hused, elem_of_app. right. by apply Hin. }
  destruct (concat_split fs b (h :: l) l El) as [P1 P2]. assert (Hndl : NoDup (h :: l)).
  { apply NoDup_app in Hnd as (_ & _ & Hnd). apply NoDup_app in Hnd as (_ & _ & Hnd). rewrite P1 in Hnd. by apply NoDup_app in Hnd as [? _]. }
  destruct (dll_pop_cons top m h l Hr (used_ptr c _ Hl) (used_spread c _ Hl) Hndl) as (top' & m1 & Ep & Hr1 & Hag). rewrite Ep in E.
  assert (Hh : h <> 0) by (pose proof (used_ptr c _ Hl) as Hp; apply Forall_cons_1 in Hp as [[? _] _]; lia).
  rewrite (proj2 (Z.eqb_neq h 0)) in E by done. injection E as Ep' Em Ec.
  assert (Hp : (h :: live) ++ f0 ++ concat (<[b := l]> fs) ≡ₚ live ++ f0 ++ concat fs).
  { rewrite P1, P2. simpl. rewrite Permutation_middle. apply Permutation_app_head. apply Permutation_middle. }
  assert (Hcells : forall y o, y ∈ f0 ++ concat fs -> 0 <= o < 40 -> rd m1 (y + o) = rd m (y + o)).
  { apply Forall_app in Hbl as [_ Hbl]. apply (other_cells m m1 c l); [done| |done]. intros x Hx. apply elem_of_app. right. apply Hin. by right. }
  pose proof (stamped m m1 c (set_free c ((b + 1) mod 8) (sc_freelist c) (<[b := top']> (sc_bins c))) live f0 fs h f0 (<[b := l]> fs) owner Hi Hp) as Hst.
  cbn in Hst. rewrite <- Ep', <- Em, <- Ec. apply Hst; [| |done].
  - intros a Ha. apply Hag. intros x Hx E. pose proof (block_size_min (sc_class c)). apply (Ha x); [|lia]. right. apply elem_of_app. right. apply Hin. by right.
  - assert (Hbins : Forall2 (bin_rep m1) (<[b := top']> (sc_bins c)) (<[b := l]> fs)).
    { eapply bins_insert; [exact (ci_bins _ _ _ _ _ _ _ Hi)|done|done|done|]. intros x Hx.
      assert (x ∈ f0 ++ concat fs) by (apply elem_of_app; right; rewrite P1; apply elem_of_app; by right).
      split; [rewrite <- (Z.add_0_r x)|unfold link_next, user_data]; (apply Hcells; [done|lia]). }
    eapply (inv_change m m1 c _ live (h :: live) f0 f0 fs (<[b := l]> fs)); [exact Hi|apply same_take|by rewrite Hp|..]; unfold count_alloc; simpl; destruct (sc_stats c) as [[? ?] ?]; simpl.
    + eapply chain_frame; [|exact (ci_free _ _ _ _ _ _ _ Hi)]. intros x Hx. rewrite <- (Z.add_0_r x). apply Hcells; [apply elem_of_app; by left|lia].
    + done.
    + rewrite length_insert. exact (ci_len _ _ _ _ _ _ _ Hi).
    + apply live_count_add. exact (ci_live _ _ _ _ _ _ _ Hi).
Qed.

Lemma alloc_once_ok owner m c live f0 fs p m' c' :
  cache_inv s m k c live f0 fs -> alloc_once owner m c = Some (p, m', c') -> allocated m c live f0 fs p m' c'.
Proof.
  intros Hi E. unfold alloc_once in E. destruct (sc_strategy c).
  - destruct (freelist_pop (sc_freelist c) m) as [block top] eqn:Ep. destruct (Z.eqb_spec block 0) as [->|Hne]; [by eapply bump_alloc_ok|].
    pose proof (freelist_alloc_ok owner m c live f0 fs block top Hi Ep Hne) as H. by injection E as <- <- <-.
  - destruct (bump_alloc owner m c) as [[[p1 m1] c1]|] eqn:Eb; [|by eapply bins_alloc_ok]. injection E as <- <- <-. by eapply bump_alloc_ok.
  - by eapply bump_alloc_ok.
Qed.
Lemma alloc_once_bump owner m c : bump_alloc owner m c <> None -> alloc_once owner m c <> None.
Proof.
  unfold alloc_once. intros H. destruct (sc_strategy c); [|by destruct (bump_alloc owner m c)|done].
  destruct (freelist_pop (sc_freelist c) m) as [block top]. by destruct (block =? 0).
Qed.
End Cache.

(** ** Refilling *)

Lemma cache_inv_more s s' m k c live f0 fs : more_slabs s s' -> cache_inv s m k c live f0 fs -> cache_inv s' m k c live f0 fs.
Proof. intros Hm. by apply cache_inv_frame. Qed.

Lemma acquire_result sc mapped s r s' : provider_ok s -> acquire_slab sc mapped true s = (r, s') -> r = None -> mapped.2 = None.
Proof.
  intros Hs E ->. unfold acquire_slab in E. destruct (carve_from_segment sc s) as [[? ?]|]; [done|]. rewrite (po_carrier s Hs) in E.
  unfold allocate_new_segment in E. destruct mapped as [[hb|] [mb|]]; simpl in *; try done; by destruct (sp_huge s).1.
Qed.

(** A new slab holds no block of the cache yet. *)
Lemma new_slab_blocks s b i k cls l :
  sp_records s !! b = None -> provider_ok s -> (forall a r, sp_records s !! a = Some r -> apart b (slab_size cls) a (sl_size r)) ->
  Forall (block_of s k cls) l -> Forall (fun h => b <= h < b + slab_size cls -> h + block_size cls <= b + i) l.
Proof.
  intros Hf Hs Ha Hl. eapply Forall_impl; [exact Hl|]. intros h (b' & j & r & Hb & _ & Hsz & Hj & -> & Hjs) Hr. exfalso.
  pose proof (Ha b' r Hb) as Hap. pose proof (block_size_min cls) as [Hbs _]. rewrite Hsz in Hap.
  assert (0 <= j * block_size cls) by (apply Z.mul_nonneg_nonneg; lia). rewrite Z.mul_add_distr_r in Hjs. unfold apart in Hap. lia.
Qed.

Lemma refill_ok k mapped s m c live f0 fs s' c' :
  provider_ok s -> answer_ok mapped s -> cache_inv s m k c live f0 fs -> sc_idle c = [] -> cache_refill k mapped s c = (s', c') ->
  provider_ok s' /\ more_slabs s s' /\ cache_inv s' m k c' live f0 fs /\ sc_class c' = sc_class c /\
  (sc_current c' = 0 -> mapped.2 = None) /\ (sc_current c' <> 0 -> forall owner, bump_alloc owner m c' <> None).
Proof.
  intros Hs Ha Hi Hidle E. unfold cache_refill in E. destruct (acquire_slab (sc_class c) mapped true s) as [r s1] eqn:Eq.
  pose proof (acquire_slab_ok _ _ _ _ _ _ Hs Ha Eq) as [Hs1 Hr]. destruct r as [b|].
  - destruct Hr as [Hf [i Ei]]. destruct (sc_stats c) as [[sa sf] sn]. injection E as <- <-.
    assert (Hrec1 : sp_records s1 !! b = Some (new_record i (slab_size (sc_class c)))) by (by rewrite Ei, lookup_insert_eq).
    destruct (register_ok b (slab_size (sc_class c)) k (sc_region c) (sc_class c) s1 Hs1) as (Hs2 & _ & Hb2 & Ho2); [intros r Hr; by simplify_eq|].
    set (s2 := register_slab_owner _ _ _ _ _ _) in *. specialize (Hb2 _ Hrec1).
    assert (Hm : more_slabs s s2). { intros a r Har. rewrite Ho2 by (by intros ->; simplify_eq). rewrite Ei, lookup_insert_ne; [done|by intros ->; simplify_eq]. }
    assert (Hap : forall a r, sp_records s !! a = Some r -> apart b (slab_size (sc_class c)) a (sl_size r)).
    { intros a r Har. pose proof (po_slabs_apart s2 Hs2 b a _ r ltac:(by intros ->; simplify_eq) Hb2 (Hm a r Har)). done. }
    destruct (slab_holds_blocks (sc_class c)) as (Hbs & H15 & _ & Hmin). unfold kBaseSlabSize in Hmin.
    assert (Hb0 : 0 < b). { destruct (po_records s1 Hs1 b _ Hrec1) as (g & Hg & Hg'). destruct (po_segments s1 Hs1 _ g Hg) as [Hgo _]. by destruct (slab_in_ok g b _ Hgo Hg') as [? _]. }
    split_and!; [done|done| |done|simpl; lia|].
    + pose proof (ci_blocks _ _ _ _ _ _ _ Hi) as Hbl. destruct (cache_inv_more s s2 m k c live f0 fs Hm Hi) as [H1 H2 [H3 H3'] H4 H5 H6 H7 H8 H9 H10 H11 H12]. split; simpl; try done.
      * apply Forall_app. split; [done|]. constructor; [|done]. eexists. by split.
      * split; [right; apply elem_of_app; right; left|]. eapply Forall_impl; [exact H3'|]. simpl. intros x Hx. apply elem_of_app. by left.
      * split; [lia|]. split; [by exists 0|by right].
      * intros _ _. by eapply new_slab_blocks.
    + intros _ owner. unfold bump_alloc. simpl. rewrite (proj2 (Z.eqb_neq b 0)) by lia. rewrite (proj2 (Z.leb_le _ _)) by lia. done.
  - injection E as <- <-. subst s1. split_and!; [done|apply more_refl| |done| |done].
    + destruct Hi as [H1 H2 [H3 H3'] H4 H5 H6 H7 H8 H9 H10 H11 H12]. split; simpl; try done. split; [by left|done].
    + intros _. by eapply acquire_result.
Qed.

(** ** Allocation *)

Lemma allocated_more s s' k m c c1 live f0 fs p m' c' :
  more_slabs s s' -> sc_class c1 = sc_class c -> allocated s' k m c1 live f0 fs p m' c' -> allocated s' k m c live f0 fs p m' c'.
Proof. intros Hm E (h & f0' & fs' & H). exists h, f0', fs'. rewrite E in H. exact H. Qed.

(** The fuel [2 + length (sc_idle c)] is enough, and the answer is a block unless [mmap] fails. *)
Lemma allocate_ok k owner mapped live f0 fs : forall fuel s m c r m' s' c',
  provider_ok s -> answer_ok mapped s -> cache_inv s m k c live f0 fs -> (2 + length (sc_idle c) <= fuel)%nat ->
  allocate fuel k owner mapped m s c = (r, m', s', c') ->
  provider_ok s' /\ more_slabs s s' /\
  match r with
  | Some p => allocated s' k m c live f0 fs p m' c'
  | None => mapped.2 = None /\ m' = m /\ sc_class c' = sc_class c /\ cache_inv s' m' k c' live f0 fs
  end.
Proof.
  induction fuel as [|fuel IH]; intros s m c r m' s' c' Hs Ha Hi Hfuel E; [lia|]. cbn [allocate] in E.
  destruct (alloc_once owner m c) as [[[p m1] c1]|] eqn:Eo.
  { injection E as <- <- <- <-. split; [done|]. split; [apply more_refl|]. by eapply alloc_once_ok. }
  assert (Hrefill : sc_idle c = [] -> (let '(s, c) := cache_refill k mapped s c in if sc_current c =? 0 then (None, m, s, c) else allocate fuel k owner mapped m s c) = (r, m', s', c') ->
    provider_ok s' /\ more_slabs s s' /\
    match r with
    | Some p => allocated s' k m c live f0 fs p m' c'
    | None => mapped.2 = None /\ m' = m /\ sc_class c' = sc_class c /\ cache_inv s' m' k c' live f0 fs
    end).
  { clear E. intros Hidle E. destruct (cache_refill k mapped s c) as [s1 c1] eqn:Er. destruct (refill_ok k mapped s m c live f0 fs s1 c1 Hs Ha Hi Hidle Er) as (Hs1 & Hm & Hi1 & Ec & H0 & Hb).
    destruct (Z.eqb_spec (sc_current c1) 0) as [Ez|Ez].
    - injection E as <- <- <- <-. split; [done|]. split; [done|]. by split; [apply H0|].
    - destruct fuel as [|fuel]; [lia|]. cbn [allocate] in E. pose proof (alloc_once_bump owner m c1 (Hb Ez owner)) as Hne.
      destruct (alloc_once owner m c1) as [[[p m1] c2]|] eqn:Eo1; [|done]. injection E as <- <- <- <-. split; [done|]. split; [done|].
      eapply allocated_more; [done|exact Ec|]. by eapply alloc_once_ok. }
  assert (Hnb : sc_strategy c <> kBumpOnly -> sc_idle c = []).
  { intros Hne. destruct (sc_idle c) eqn:Ei; [done|]. destruct (ci_idle _ _ _ _ _ _ _ Hi) as [? _]; [by rewrite Ei|done]. }
  destruct (sc_strategy c) eqn:Est; [by apply Hrefill, E; apply Hnb|by apply Hrefill, E; apply Hnb|].
  destruct (last (sc_idle c)) as [recycled|] eqn:El; [|by apply Hrefill, E; apply last_None].
  apply last_Some in El as [idle El]. rewrite El, length_app in Hfuel. simpl in Hfuel. rewrite El, removelast_last in E. clear Hrefill.
  assert (Hi' : cache_inv s m k (set_slab c recycled (sc_slab_size c) 0 idle) live f0 fs).
  { destruct Hi as [H1 H2 [H3 H3'] H4 H5 H6 H7 H8 H9 H10 H11 H12]. assert (Hne : sc_idle c <> []) by (rewrite El; by destruct idle).
    destruct (H12 Hne) as [_ Hz]. rewrite El in H3'. apply Forall_app in H3' as [Hid Hrec]. apply Forall_cons_1 in Hrec as [Hrec _].
    split; simpl; try done; [by split; [right|]|split; [lia|]; split; [by exists 0|by left]]. }
  destruct (IH s m _ r m' s' c' Hs Ha Hi' ltac:(simpl; lia) E) as (Hs' & Hm & Hr). split; [done|]. split; [done|].
  destruct r; [|done]. by eapply allocated_more; [|reflexivity|].
Qed.

(** ** Freeing *)

Lemma live_count_sub (live : list Z) h z : z = u32 (zlen (h :: live)) -> u32 (z - 1) = u32 (zlen live).
Proof. intros ->. rewrite u32_sub_mod, zlen_cons. f_equal. lia. Qed.
Lemma bin_index_range h c : (compute_bin_index h c < 8)%nat.
Proof. unfold compute_bin_index, kNumSegregatedBins. destruct (_ =? 0); [lia|]. pose proof (Z.mod_pos_bound (u64 (h - sc_current c) / sc_stride c) 8). lia. Qed.
Lemma count_free_fields c :
  sc_strategy (count_free c) = sc_strategy c /\ sc_current (count_free c) = sc_current c /\ sc_slab_size (count_free c) = sc_slab_size c /\
  sc_bump (count_free c) = sc_bump c /\ sc_stride (count_free c) = sc_stride c /\ sc_start_bin (count_free c) = sc_start_bin c /\
  sc_freelist (count_free c) = sc_freelist c /\ sc_bins (count_free c) = sc_bins c /\ sc_idle (count_free c) = sc_idle c /\ sc_live_count (count_free c) = u32 (sc_live_count c - 1).
Proof. unfold count_free. by destruct (sc_stats c) as [[? ?] ?]. Qed.

Section Free.
Context (s : SegmentProvider) (k : nat) (Hs : provider_ok s).
Context (m : Mem) (c : SlabCache) (h : Z) (live f0 : list Z) (fs : list (list Z)).
Context (Hi : cache_inv s m k c (h :: live) f0 fs).
Notation bs := (block_size (sc_class c)).
Notation m1 := (wr m (f_magic h, kFreedMagic)).

Lemma freed_parts : block_of s k (sc_class c) h /\ Forall (block_of s k (sc_class c)) (f0 ++ concat fs) /\ h ∉ live ++ f0 ++ concat fs.
Proof.
  pose proof (ci_blocks _ _ _ _ _ _ _ Hi) as Hb. pose proof (ci_nodup _ _ _ _ _ _ _ Hi) as Hn. simpl in Hb, Hn.
  apply Forall_cons_1 in Hb as [Hh Hb]. apply NoDup_cons in Hn as [Hn _]. split; [done|]. split; [by apply Forall_app in Hb as [_ ?]|done].
Qed.
Lemma freed_cells : agree_off bs (h :: f0 ++ concat fs) m m1 /\ cache_inv s m1 k c (h :: live) f0 fs.
Proof.
  destruct freed_parts as (Hh & Hb & Hn). pose proof (block_size_min (sc_class c)).
  assert (Hw : Forall (fun w => h <= w.1 < h + bs) [(f_magic h, kFreedMagic)]) by (repeat constructor; unfold f_magic; simpl; lia).
  split; [by apply (agree_wrs bs h _ [(f_magic h, kFreedMagic)]); [left|]|].
  apply (inv_new_block s k Hs m c (h :: live) f0 fs h [(f_magic h, kFreedMagic)]); [by constructor| |done|done].
  intros Hx. apply Hn, elem_of_app. by right.
Qed.

Definition freed (m' : Mem) (c' : SlabCache) : Prop :=
  exists f0' fs', sc_class c' = sc_class c /\ cache_inv s m' k c' live f0' fs' /\ agree_off bs (h :: f0 ++ concat fs) m m'.

Lemma free_forget : freed m1 (count_free c).
Proof.
  destruct freed_cells as [Hag Hi1]. destruct (count_free_fields c) as (_ & _ & _ & _ & _ & _ & E7 & E8 & _ & E10). exists f0, fs.
  split; [unfold count_free; by destruct (sc_stats c) as [[? ?] ?]|]. split; [|done].
  eapply (inv_change s k m1 m1 c); [exact Hi1|unfold count_free; destruct (sc_stats c) as [[? ?] ?]; by split|simpl; by apply submseteq_cons|..].
  - rewrite E7. exact (ci_free _ _ _ _ _ _ _ Hi1).
  - rewrite E8. exact (ci_bins _ _ _ _ _ _ _ Hi1).
  - exact (ci_len _ _ _ _ _ _ _ Hi1).
  - rewrite E10. apply (live_count_sub live h). exact (ci_live _ _ _ _ _ _ _ Hi1).
Qed.
Lemma free_recycle : sc_strategy c = kBumpOnly -> sc_current c <> 0 -> freed m1 (set_slab (count_free c) 0 0 0 (sc_idle (count_free c) ++ [sc_current (count_free c)])).
Proof.
  intros Hst Hcur. destruct free_forget as (f0' & fs' & Ec & Hi' & Hag). exists f0', fs'. split; [done|]. split; [|done].
  destruct (count_free_fields c) as (E1 & E2 & _). destruct Hi' as [H1 H2 [H3 H3'] H4 H5 H6 H7 H8 H9 H10 H11 H12]. split; simpl; try done.
  - split; [by left|]. apply Forall_app. split; [done|]. constructor; [|done]. destruct H3 as [H3|H3]; [congruence|done].
  - split; [lia|]. split; [by exists 0|by left].
  - intros _. by rewrite E1.
Qed.

Lemma free_push : let '(top, m') := freelist_push h (sc_freelist c) m1 in freed m' (set_free (count_free c) (sc_start_bin c) top (sc_bins c)).
Proof.
  destruct freed_parts as (Hh & Hb & Hn). destruct freed_cells as [Hag Hi1]. pose proof (block_size_min (sc_class c)).
  assert (Hn' : h ∉ f0 ++ concat fs) by (intros Hx; apply Hn, elem_of_app; by right).
  destruct (push_chain (sc_freelist c) m1 h f0 (ci_free _ _ _ _ _ _ _ Hi1) (block_ptr_ok s k _ h Hs Hh) ltac:(intros Hx; apply Hn', elem_of_app; by left)) as (top & E & _ & Hc).
  rewrite E. exists (h :: f0), fs. split; [unfold count_free, set_free; by destruct (sc_stats c) as [[? ?] ?]|].
  set (m2 := wr m1 (h, extract_ptr (sc_freelist c))) in *. assert (Hw : Forall (fun w => h <= w.1 < h + bs) [(h, extract_ptr (sc_freelist c))]) by (repeat constructor; simpl; lia).
  split; [|eapply agree_trans; [exact Hag|]; by apply (agree_wrs bs h _ [(h, extract_ptr (sc_freelist c))]); [left|]].
  assert (Hi2 : cache_inv s m2 k c (h :: live) f0 fs) by (by apply (inv_new_block s k Hs m1 c (h :: live) f0 fs h [(h, extract_ptr (sc_freelist c))]); [constructor|..]).
  eapply (inv_change s k m2 m2 c); [exact Hi2|apply same_give|simpl; by rewrite <- Permutation_middle|..].
  - unfold count_free, set_free. destruct (sc_stats c) as [[? ?] ?]. exact Hc.
  - unfold count_free, set_free. destruct (sc_stats c) as [[? ?] ?]. exact (ci_bins _ _ _ _ _ _ _ Hi2).
  - exact (ci_len _ _ _ _ _ _ _ Hi2).
  - unfold count_free, set_free. destruct (sc_stats c) as [[? ?] ?]. simpl. apply (live_count_sub live h). exact (ci_live _ _ _ _ _ _ _ Hi2).
Qed.

Lemma free_bin b : (b < 8)%nat ->
  let '(bin, m') := dll_push (default 0 (sc_bins c !! b)) h m1 in freed m' (set_free (count_free c) (sc_start_bin c) (sc_freelist c) (<[b := bin]> (sc_bins c))).
Proof.
  intros Hb8. destruct freed_parts as (Hh & Hb & Hn). destruct freed_cells as [Hag Hi1]. pose proof (block_size_min (sc_class c)).
  assert (Hn' : h ∉ f0 ++ concat fs) by (intros Hx; apply Hn, elem_of_app; by right).
  destruct (bin_lookup s k m1 c (h :: live) f0 fs b Hi1 Hb8) as (top & l & Et & El & Hr & Hin). rewrite Et. simpl.
  destruct (concat_split fs b l (h :: l) El) as [P1 P2].
  assert (Hl : Forall (block_of s k (sc_class c)) (h :: l)).
  { constructor; [done|]. rewrite Forall_forall in Hb |- *. intros x Hx. apply Hb, elem_of_app. right. by apply Hin. }
  assert (Hndl : NoDup l). { pose proof (ci_nodup _ _ _ _ _ _ _ Hi1) as Hnd. apply NoDup_app in Hnd as (_ & _ & Hnd). apply NoDup_app in Hnd as (_ & _ & Hnd). rewrite P1 in Hnd. by apply NoDup_app in Hnd as [? _]. }
  destruct (dll_push_spec top m1 h l Hr (used_ptr s k Hs c _ Hl) (used_spread s k Hs c _ Hl) ltac:(intros Hx; apply Hn', elem_of_app; right; by apply Hin) Hndl) as (top' & m2 & Ep & Hr2 & Hag2).
  rewrite Ep. exists f0, (<[b := h :: l]> fs). split; [unfold count_free, set_free; by destruct (sc_stats c) as [[? ?] ?]|].
  assert (Hcells : forall y o, y ∈ f0 ++ concat fs -> 0 <= o < 40 -> rd m2 (y + o) = rd m1 (y + o)).
  { intros y o Hy Ho. assert (Hyh : y <> h) by (by intros ->). assert (Hsp := used_spread s k Hs c (h :: f0 ++ concat fs) ltac:(by constructor)).
    apply Hag2; [|destruct (Hsp y h ltac:(by right) ltac:(left) Hyh); lia]. intros x Hx E.
    assert (Hx' : x ∈ f0 ++ concat fs) by (apply elem_of_app; right; by apply Hin).
    destruct (decide (x = y)) as [->|Hne]; [lia|]. destruct (Hsp x y ltac:(by right) ltac:(by right) Hne); lia. }
  split; [|eapply agree_trans; [exact Hag|]; intros a Ha; apply Hag2; [intros x Hx E; apply (Ha x); [right; apply elem_of_app; right; by apply Hin|lia]|intros E; apply (Ha h); [left|lia]]].
  eapply (inv_change s k m1 m2 c); [exact Hi1|apply same_give|..].
  - simpl. rewrite P1, P2. simpl. rewrite (app_assoc live f0 (h :: _)), <- Permutation_middle, <- app_assoc. done.
  - unfold count_free, set_free. destruct (sc_stats c) as [[? ?] ?]. simpl. eapply chain_frame; [|exact (ci_free _ _ _ _ _ _ _ Hi1)].
    intros x Hx. rewrite <- (Z.add_0_r x). apply Hcells; [apply elem_of_app; by left|lia].
  - unfold count_free, set_free. destruct (sc_stats c) as [[? ?] ?]. simpl. eapply (bins_insert m1); [exact (ci_bins _ _ _ _ _ _ _ Hi1)|done|done|done|].
    intros x Hx. assert (x ∈ f0 ++ concat fs) by (apply elem_of_app; right; rewrite P1; apply elem_of_app; by right).
    split; [rewrite <- (Z.add_0_r x)|unfold link_next, user_data]; (apply Hcells; [done|lia]).
  - rewrite length_insert. exact (ci_len _ _ _ _ _ _ _ Hi1).
  - unfold count_free, set_free. destruct (sc_stats c) as [[? ?] ?]. simpl. apply (live_count_sub live h). exact (ci_live _ _ _ _ _ _ _ Hi1).
Qed.

Lemma deallocate_ok : let '(m', c') := deallocate (user_data h) m c in freed m' c'.
Proof.
  unfold deallocate, from_user_data, user_data. replace (h + 32 - 32) with h by lia. rewrite (ci_coalescing _ _ _ _ _ _ _ Hi).
  destruct (count_free_fields c) as (E1 & E2 & _ & _ & _ & E6 & E7 & E8 & _ & _). rewrite E1. destruct (sc_strategy c) eqn:Est.
  - rewrite E7, E6, E8. pose proof free_push as H. by destruct (freelist_push h (sc_freelist c) m1).
  - rewrite E6, E7, E8. pose proof (free_bin _ (bin_index_range h (count_free c))) as H. by destruct (dll_push _ h m1).
  - destruct (_ && _) eqn:Eb; [|apply free_forget]. apply andb_true_iff in Eb as [Eb _]. apply andb_true_iff in Eb as [_ Eb].
    apply negb_true_iff, Z.eqb_neq in Eb. rewrite E2 in Eb. by apply free_recycle.
Qed.
End Free.

(** ** Threads and their caches *)

(** [hp_caches] are the caches of all threads; [hp_live] lists the blocks of each that
    the program holds. *)
Record Heap := mkHeap { hp_mem : Mem; hp_source : SegmentProvider; hp_caches : list SlabCache; hp_live : list (list Z) }.
Definition heap_init : Heap := mkHeap ∅ provider_init [] [].

Inductive HeapEvent :=
| HNewCache (sc : SizeClass) (region : Z) (strategy : AllocationStrategy)
| HAlloc (k : nat) (owner : Z) (mapped : option Z * option Z)
| HFree (p : Z) (own : Z -> Z -> nat)              (* by a thread whose table of caches is [own] *)
| HWrite (a v : Z).                                (* the program, into its own block *)

(** [ThreadLocalAllocator::deallocate]: the cache that a block goes back to. *)
Definition route_free (p : Z) (own : Z -> Z -> nat) (hp : Heap) : nat :=
  let h := from_user_data p in
  match lookup_slab h (hp_source hp) with
  | Some (_, r, _) => match sl_owner r with Some k => k | None => own (header_region (hp_mem hp) h) (rd (hp_mem hp) (f_size_class h)) end
  | None => own (header_region (hp_mem hp) h) (rd (hp_mem hp) (f_size_class h))
  end.

Definition heap_alloc (k : nat) (owner : Z) (mapped : option Z * option Z) (hp : Heap) : option Z * Heap :=
  match hp_caches hp !! k with
  | None => (None, hp)
  | Some c =>
      let '(r, m, s, c) := allocate (2 + length (sc_idle c)) k owner mapped (hp_mem hp) (hp_source hp) c in
      (r, mkHeap m s (<[k := c]> (hp_caches hp)) (match r with Some p => alter (cons (from_user_data p)) k (hp_live hp) | None => hp_live hp end))
  end.
Definition heap_free (p : Z) (own : Z -> Z -> nat) (hp : Heap) : Heap :=
  let k := route_free p own hp in
  match hp_caches hp !! k with
  | None => hp
  | Some c =>
      let '(m, c) := deallocate p (hp_mem hp) c in
      mkHeap m (hp_source hp) (<[k := c]> (hp_caches hp)) (alter (filter (fun x => x <> from_user_data p)) k (hp_live hp))
  end.
Definition heap_step (hp : Heap) (e : HeapEvent) : Heap :=
  match e with
  | HNewCache sc region strategy => mkHeap (hp_mem hp) (hp_source hp) (hp_caches hp ++ [cache_new sc region strategy false]) (hp_live hp ++ [[]])
  | HAlloc k owner mapped => (heap_alloc k owner mapped hp).2
  | HFree p own => heap_free p own hp
  | HWrite a v => mkHeap (wr (hp_mem hp) (a, v)) (hp_source hp) (hp_caches hp) (hp_live hp)
  end.

Definition is_live (hp : Heap) (k : nat) (c : SlabCache) (h : Z) : Prop := hp_caches hp !! k = Some c /\ exists l, hp_live hp !! k = Some l /\ h ∈ l.
Definition in_user_data (c : SlabCache) (h a : Z) : Prop := user_data h <= a < user_data h + size_for_class (sc_class c).
(** The program frees and writes only what it holds. *)
Definition heap_event_ok (hp : Heap) (e : HeapEvent) : Prop :=
  match e with
  | HNewCache _ _ _ => True
  | HAlloc _ _ mapped => answer_ok mapped (hp_source hp)
  | HFree p _ => exists k c, is_live hp k c (from_user_data p)
  | HWrite a _ => exists k c h, is_live hp k c h /\ in_user_data c h a
  end.
Fixpoint heap_run (hp : Heap) (es : list HeapEvent) : Prop :=
  match es with [] => True | e :: es => heap_event_ok hp e /\ heap_run (heap_step hp e) es end.

Record heap_inv (hp : Heap) : Prop := mkHeapInv {
  hi_source : provider_ok (hp_source hp);
  hi_length : length (hp_live hp) = length (hp_caches hp);
  hi_caches : forall k c l, hp_caches hp !! k = Some c -> hp_live hp !! k = Some l -> exists f0 fs, cache_inv (hp_source hp) (hp_mem hp) k c l f0 fs
}.

Lemma cache_inv_perm s m k c live live' f0 fs : live ≡ₚ live' -> cache_inv s m k c live f0 fs -> cache_inv s m k c live' f0 fs.
Proof.
  intros Hp [H1 H2 H3 H4 H5 H6 H7 H8 H9 H10 H11 H12]. split; try done.
  - by rewrite <- Hp.
  - intros A B. rewrite <- Hp. by apply H6.
  - by rewrite <- Hp.
  - rewrite H11. f_equal. unfold zlen. by rewrite Hp.
Qed.

(** A step of cache [k], from its point of view, is one of the heap. *)
Lemma heap_inv_step hp k c l f0 fs m' s' c' l' f0' fs' h :
  heap_inv hp -> hp_caches hp !! k = Some c -> hp_live hp !! k = Some l -> cache_inv (hp_source hp) (hp_mem hp) k c l f0 fs ->
  provider_ok s' -> more_slabs (hp_source hp) s' -> cache_inv s' m' k c' l' f0' fs' -> sc_class c' = sc_class c -> block_of s' k (sc_class c) h ->
  agree_off (block_size (sc_class c)) (h :: f0 ++ concat fs) (hp_mem hp) m' ->
  heap_inv (mkHeap m' s' (<[k := c']> (hp_caches hp)) (<[k := l']> (hp_live hp))).
Proof.
  intros [Hs Hlen Hc] Hk Hl Hi Hs' Hm Hi' Ec Hh Hag. split; simpl; [done|by rewrite !length_insert|]. intros j d q Hj Hq.
  apply list_lookup_insert_Some in Hj as [(<- & <- & _)|[Hne Hj]].
  - rewrite list_lookup_insert_eq in Hq by (by eapply lookup_lt_Some). simplify_eq. eauto.
  - rewrite list_lookup_insert_ne in Hq by done. destruct (Hc j d q Hj Hq) as (g0 & gs & Hd). exists g0, gs.
    eapply cache_inv_frame; [exact Hm| |exact Hd]. intros x o Hx Ho. pose proof (block_size_min (sc_class d)).
    assert (HB : Forall (block_of s' k (sc_class c)) (h :: f0 ++ concat fs)).
    { constructor; [done|]. pose proof (ci_blocks _ _ _ _ _ _ _ Hi) as Hb. apply Forall_app in Hb as [_ Hb]. eapply Forall_impl; [exact Hb|]. intros y. by apply block_of_more. }
    assert (Hxb : block_of s' j (sc_class d) x).
    { pose proof (ci_blocks _ _ _ _ _ _ _ Hd) as Hb. apply Forall_app in Hb as [_ Hb]. rewrite Forall_forall in Hb. by apply (block_of_more (hp_source hp)), Hb. }
    eapply (agree_block s' k j); [done|done|done|done|lia|done].
Qed.

(** Live blocks keep their contents through a step of cache [k] that writes into
    blocks that are not live. *)
Lemma live_kept hp k c l f0 fs s' m' h j d x o :
  heap_inv hp -> hp_caches hp !! k = Some c -> hp_live hp !! k = Some l -> cache_inv (hp_source hp) (hp_mem hp) k c l f0 fs ->
  provider_ok s' -> more_slabs (hp_source hp) s' -> block_of s' k (sc_class c) h -> agree_off (block_size (sc_class c)) (h :: f0 ++ concat fs) (hp_mem hp) m' ->
  is_live hp j d x -> (j = k -> x <> h) -> 0 <= o < block_size (sc_class d) -> rd m' (x + o) = rd (hp_mem hp) (x + o).
Proof.
  intros [Hs Hlen Hc] Hk Hl Hi Hs' Hm Hh Hag [Hj (q & Hq & Hx)] Hne Ho. destruct (Hc j d q Hj Hq) as (g0 & gs & Hd).
  pose proof (ci_blocks _ _ _ _ _ _ _ Hi) as Hb. pose proof (ci_nodup _ _ _ _ _ _ _ Hi) as Hn. apply NoDup_app in Hn as (_ & Hn & _).
  assert (HB : Forall (block_of s' k (sc_class c)) (h :: f0 ++ concat fs)).
  { constructor; [done|]. apply Forall_app in Hb as [_ Hb]. eapply Forall_impl; [exact Hb|]. intros y. by apply block_of_more. }
  assert (Hxb : block_of s' j (sc_class d) x).
  { pose proof (ci_blocks _ _ _ _ _ _ _ Hd) as Hb'. apply Forall_app in Hb' as [Hb' _]. rewrite Forall_forall in Hb'. by apply (block_of_more (hp_source hp)), Hb'. }
  eapply (agree_block s' k j); [done|done|done|done|lia|]. intros <-. simplify_eq. split; [done|].
  intros Hin. apply elem_of_cons in Hin as [->|Hin]; [by apply Hne|]. by eapply Hn.
Qed.

(** What a step promises. *)
Definition step_kept (hp hp' : Heap) (spared : Z -> Prop) : Prop :=
  forall k c h o, is_live hp k c h -> spared h -> 0 <= o < block_size (sc_class c) -> rd (hp_mem hp') (h + o) = rd (hp_mem hp) (h + o).

Lemma heap_alloc_ok k owner mapped hp r hp' :
  heap_inv hp -> answer_ok mapped (hp_source hp) -> heap_alloc k owner mapped hp = (r, hp') ->
  heap_inv hp' /\ step_kept hp hp' (fun _ => True) /\
  match r with
  | Some p => exists c, is_live hp' k c (from_user_data p) /\ ~ exists d, is_live hp k d (from_user_data p)
  | None => hp_caches hp !! k = None \/ mapped.2 = None
  end.
Proof.
  intros Hinv Ha E. unfold heap_alloc in E. destruct (hp_caches hp !! k) as [c|] eqn:Hk.
  2:{ injection E as <- <-. split; [done|]. split; [by intros ? ? ? ? ? ?|by left]. }
  pose proof (hi_length hp Hinv) as Hlen. pose proof (lookup_lt_Some _ _ _ Hk) as Hlt. destruct (lookup_lt_is_Some_2 (hp_live hp) k ltac:(lia)) as [l Hl].
  destruct (hi_caches hp Hinv k c l Hk Hl) as (f0 & fs & Hi). destruct (allocate _ k owner mapped (hp_mem hp) (hp_source hp) c) as [[[r1 m1] s1] c1] eqn:Eal.
  injection E as <- <-. destruct (allocate_ok k owner mapped l f0 fs _ _ _ _ _ _ _ _ (hi_source hp Hinv) Ha Hi (Nat.le_refl _) Eal) as (Hs1 & Hm & Hr).
  destruct r1 as [p|].
  - destruct Hr as (h & f0' & fs' & -> & Hnl & Ec & Hi' & Hag & Hh).
    assert (Hh' : from_user_data (user_data h) = h) by (unfold from_user_data, user_data; lia). rewrite Hh'.
    assert (Elive : alter (cons h) k (hp_live hp) = <[k := h :: l]> (hp_live hp)).
    { apply list_eq. intros i. destruct (decide (i = k)) as [->|Hne]; [rewrite list_lookup_alter_eq, list_lookup_insert_eq by lia; by rewrite Hl|by rewrite list_lookup_alter_ne, list_lookup_insert_ne]. }
    rewrite Elive. split; [by eapply (heap_inv_step hp k c l f0 fs)|]. split.
    + intros j d x o Hx _ Ho. eapply (live_kept hp k c l f0 fs); try done. intros -> ->. destruct Hx as [_ (q & Hq & Hxq)]. by simplify_eq.
    + exists c1. split; [split; simpl; [by rewrite list_lookup_insert_eq by lia|]; exists (h :: l); by split; [rewrite list_lookup_insert_eq by lia|left]|].
      intros (d & _ & q & Hq & Hin). by simplify_eq.
  - destruct Hr as (Hm2 & -> & Ec & Hi'). split; [|split; [by intros ? ? ? ? ? ?|by right]].
    split; simpl; [done|by rewrite length_insert|]. intros j d q Hj Hq. apply list_lookup_insert_Some in Hj as [(<- & <- & _)|[Hne Hj]]; [simplify_eq; eauto|].
    destruct (hi_caches hp Hinv j d q Hj Hq) as (g0 & gs & Hd). exists g0, gs. by eapply cache_inv_more.
Qed.

Lemma route_free_home hp k c h own : heap_inv hp -> is_live hp k c h -> route_free (user_data h) own hp = k.
Proof.
  intros Hinv [Hk (l & Hl & Hh)]. destruct (hi_caches hp Hinv k c l Hk Hl) as (f0 & fs & Hi). pose proof (ci_blocks _ _ _ _ _ _ _ Hi) as Hb.
  apply Forall_app in Hb as [Hb _]. rewrite Forall_forall in Hb. destruct (Hb h Hh) as (b & j & r & Hr & Ho & Hsz & Hj & -> & Hjs).
  pose proof (block_size_min (sc_class c)) as [Hbs _]. assert (0 <= j * block_size (sc_class c)) by (apply Z.mul_nonneg_nonneg; lia).
  unfold route_free, from_user_data, user_data. set (x := b + j * block_size (sc_class c)) in *. replace (x + 32 - 32) with x by lia.
  destruct (lookup_slab_finds (hp_source hp) b r x (hi_source hp Hinv) Hr) as [g Hg]; [unfold holds_ptr; simpl; rewrite Hsz; subst x; rewrite Z.mul_add_distr_r in Hjs; lia|].
  by rewrite Hg, Ho.
Qed.

Lemma filter_live (l : list Z) h : NoDup l -> h ∈ l -> l ≡ₚ h :: filter (fun x => x <> h) l.
Proof.
  intros Hn Hh. apply NoDup_Permutation; [done| |].
  - constructor; [|by apply NoDup_filter]. rewrite list_elem_of_filter. tauto.
  - intros x. rewrite elem_of_cons, list_elem_of_filter. destruct (decide (x = h)) as [->|]; tauto.
Qed.

Lemma heap_free_ok hp k c h own :
  heap_inv hp -> is_live hp k c h -> heap_inv (heap_free (user_data h) own hp) /\ step_kept hp (heap_free (user_data h) own hp) (fun x => x <> h).
Proof.
  intros Hinv Hlive. unfold heap_free. rewrite (route_free_home hp k c h own Hinv Hlive). destruct Hlive as [Hk (l & Hl & Hh)]. rewrite Hk.
  destruct (hi_caches hp Hinv k c l Hk Hl) as (f0 & fs & Hi). pose proof (ci_nodup _ _ _ _ _ _ _ Hi) as Hn. apply NoDup_app in Hn as (Hnl & _ & _).
  pose proof (cache_inv_perm _ _ _ _ _ _ _ _ (filter_live l h Hnl Hh) Hi) as Hi1.
  pose proof (deallocate_ok (hp_source hp) k (hi_source hp Hinv) (hp_mem hp) c h _ f0 fs Hi1) as Hd.
  destruct (deallocate (user_data h) (hp_mem hp) c) as [m1 c1]. destruct Hd as (f0' & fs' & Ec & Hi' & Hag).
  assert (Hb : block_of (hp_source hp) k (sc_class c) h) by (pose proof (ci_blocks _ _ _ _ _ _ _ Hi1) as Hb; by apply Forall_cons_1 in Hb as [? _]).
  assert (Hh' : from_user_data (user_data h) = h) by (unfold from_user_data, user_data; lia). rewrite Hh'.
  pose proof (lookup_lt_Some _ _ _ Hl) as Hlt.
  assert (Elive : alter (filter (fun x => x <> h)) k (hp_live hp) = <[k := filter (fun x => x <> h) l]> (hp_live hp)).
  { apply list_eq. intros i. destruct (decide (i = k)) as [->|Hne]; [rewrite list_lookup_alter_eq, list_lookup_insert_eq by lia; by rewrite Hl|by rewrite list_lookup_alter_ne, list_lookup_insert_ne]. }
  rewrite Elive. split.
  - eapply (heap_inv_step hp k c l f0 fs); try done; [apply (hi_source hp Hinv)|apply more_refl].
  - intros j d x o Hx Hne Ho. eapply (live_kept hp k c l f0 fs); try done; [apply (hi_source hp Hinv)|apply more_refl].
Qed.

Lemma heap_write_ok hp k c h a v :
  heap_inv hp -> is_live hp k c h -> in_user_data c h a -> heap_inv (heap_step hp (HWrite a v)).
Proof.
  intros Hinv [Hk (l & Hl & Hh)] Ha. destruct Hinv as [Hs Hlen Hc]. destruct (Hc k c l Hk Hl) as (f0 & fs & Hi). split; simpl; [done|done|].
  intros j d q Hj Hq. destruct (Hc j d q Hj Hq) as (g0 & gs & Hd). exists g0, gs. eapply cache_inv_frame; [apply more_refl| |exact Hd].
  intros x o Hx Ho. apply rd_wr_ne. intros E. pose proof (ci_blocks _ _ _ _ _ _ _ Hi) as Hb. pose proof (ci_blocks _ _ _ _ _ _ _ Hd) as Hb'.
  apply Forall_app in Hb as [Hb _]. apply Forall_app in Hb' as [_ Hb']. rewrite Forall_forall in Hb, Hb'.
  pose proof (block_size_min (sc_class c)). pose proof (block_size_min (sc_class d)). unfold in_user_data, user_data in Ha.
  destruct (blocks_apart (hp_source hp) k j _ _ h x Hs (Hb h Hh) (Hb' x Hx)) as [H1|H1]; [|lia|lia].
  intros <-. simplify_eq. split; [done|]. intros ->. pose proof (ci_nodup _ _ _ _ _ _ _ Hd) as Hn. apply NoDup_app in Hn as (_ & Hn & _). by eapply Hn.
Qed.
Lemma heap_new_ok hp sc region strategy : heap_inv hp -> heap_inv (heap_step hp (HNewCache sc region strategy)).
Proof.
  intros [Hs Hlen Hc]. split; simpl; [done|rewrite !length_app; simpl; lia|]. intros k c l Hk Hl.
  apply lookup_app_Some in Hk as [Hk|[Hge Hk]].
  - rewrite lookup_app_l in Hl by (apply lookup_lt_Some in Hk; lia). by apply Hc.
  - apply list_lookup_singleton_Some in Hk as [Ek <-]. rewrite lookup_app_r in Hl by lia. apply list_lookup_singleton_Some in Hl as [_ <-].
    exists [], (replicate 8 []). split; simpl; try done.
    + by split; [left|].
    + split; [lia|]. split; [by exists 0|by left].
    + constructor.
    + repeat constructor.
Qed.

Lemma heap_step_ok hp e : heap_inv hp -> heap_event_ok hp e -> heap_inv (heap_step hp e).
Proof.
  intros Hinv He. destruct e as [sc region strategy|k owner mapped|p own|a v]; simpl in He.
  - by apply heap_new_ok.
  - simpl. destruct (heap_alloc k owner mapped hp) as [r hp'] eqn:E. by destruct (heap_alloc_ok k owner mapped hp r hp' Hinv He E).
  - destruct He as (k & c & Hl). pose proof (heap_free_ok hp k c _ own Hinv Hl) as [H _]. simpl.
    replace (user_data (from_user_data p)) with p in H by (unfold user_data, from_user_data; lia). done.
  - destruct He as (k & c & h & Hl & Ha). by eapply heap_write_ok.
Qed.
Lemma heap_history_ok hp es : heap_inv hp -> heap_run hp es -> heap_inv (foldl heap_step hp es).
Proof. revert hp. induction es as [|e es IH]; intros hp Hi Hr; [done|]. destruct Hr as [He Hr]. apply IH; [by apply heap_step_ok|done]. Qed.
Lemma heap_init_ok : heap_inv heap_init.
Proof. split; [apply provider_init_ok|done|done]. Qed.

(** Whether an event leaves the address [a] of the block [h] alone. *)
Definition spares (e : HeapEvent) (h a : Z) : Prop :=
  match e with HFree p _ => h <> from_user_data p | HWrite a' _ => a <> a' | _ => True end.

(** C9. On every history of allocations, frees from any thread and writes of the program
    into its blocks, over any number of caches of every class and strategy without
    coalescing: live blocks are aligned and do not overlap; the next allocation
    answers with a block that is not live, unless [mmap] fails; and no event
    changes a byte of a live block except the program's own writes and frees. *)
Theorem heap_sound (es : list HeapEvent) :
  heap_run heap_init es ->
  let hp := foldl heap_step heap_init es in
  (forall k c h k' c' h', is_live hp k c h -> is_live hp k' c' h' -> (k, h) <> (k', h') ->
     h mod 32 = 0 /\ apart h (block_size (sc_class c)) h' (block_size (sc_class c'))) /\
  (forall k c owner mapped, answer_ok mapped (hp_source hp) -> hp_caches hp !! k = Some c -> mapped.2 <> None ->
     exists p c', (heap_alloc k owner mapped hp).1 = Some p /\ is_live (heap_alloc k owner mapped hp).2 k c' (from_user_data p) /\
       ~ exists d, is_live hp k d (from_user_data p)) /\
  (forall e k c h a, heap_event_ok hp e -> is_live hp k c h -> in_user_data c h a -> spares e h a -> rd (hp_mem (heap_step hp e)) a = rd (hp_mem hp) a).
Proof.
  intros Hr hp. assert (Hinv : heap_inv hp) by (by apply heap_history_ok, Hr; apply heap_init_ok).
  assert (Hblk : forall k c h, is_live hp k c h -> block_of (hp_source hp) k (sc_class c) h).
  { intros k c h [Hk (l & Hl & Hh)]. destruct (hi_caches hp Hinv k c l Hk Hl) as (f0 & fs & Hi). pose proof (ci_blocks _ _ _ _ _ _ _ Hi) as Hb.
    apply Forall_app in Hb as [Hb _]. rewrite Forall_forall in Hb. by apply Hb. }
  split_and!.
  - intros k c h k' c' h' H1 H2 Hne. split; [by destruct (block_ptr _ _ _ _ (hi_source hp Hinv) (Hblk _ _ _ H1)) as (_ & _ & ?)|].
    apply (blocks_apart (hp_source hp) k k'); [apply (hi_source hp Hinv)|by apply Hblk|by apply Hblk|]. intros <-.
    destruct H1 as [E1 _], H2 as [E2 _]. simplify_eq. split; [done|]. by intros ->.
  - intros k c owner mapped Ha Hk Hm. destruct (heap_alloc k owner mapped hp) as [r hp'] eqn:E.
    destruct (heap_alloc_ok k owner mapped hp r hp' Hinv Ha E) as (_ & _ & H). destruct r as [p|]; [|destruct H; congruence].
    destruct H as (c' & H1 & H2). by exists p, c'.
  - intros e k c h a He Hl Ha Hsp. assert (Ho : 0 <= a - h < block_size (sc_class c)) by (pose proof (block_size_min (sc_class c)); unfold in_user_data, user_data in Ha; lia).
    assert (Ea : a = h + (a - h)) by lia. destruct e as [sc region strategy|k' owner mapped|p own|a' v]; simpl in *.
    + done.
    + destruct (heap_alloc k' owner mapped hp) as [r hp'] eqn:E. destruct (heap_alloc_ok k' owner mapped hp r hp' Hinv He E) as (_ & Hk & _).
      rewrite Ea. by apply (Hk k c h).
    + destruct He as (k' & c' & Hl'). destruct (heap_free_ok hp k' c' _ own Hinv Hl') as [_ Hk].
      replace (user_data (from_user_data p)) with p in Hk by (unfold user_data, from_user_data; lia). rewrite Ea. by apply (Hk k c h).
    + by apply rd_wr_ne.
Qed.

(** Three caches of different strategies, a block freed by another thread, and its reuse. *)
Definition heap_demo : list HeapEvent :=
  [HNewCache k64B 0 kSegregatedFit; HNewCache k32B 4 kCasLifo; HAlloc 0 7 (None, Some 1048576); HAlloc 1 8 (None, Some 4194304); HWrite 1048608 42;
   HAlloc 1 8 (None, None); HFree 1114144 (fun _ _ => 0%nat); HAlloc 1 9 (None, None)].
Lemma heap_sound_witness :
  let hp := foldl heap_step heap_init heap_demo in
  hp_live hp = [[1048576]; [1114112; 1114208]] /\ rd (hp_mem hp) 1048608 = 42 /\ apart 1114112 96 1114208 96.
Proof.
  intros hp. assert (Hm : forall base s, base = 1048576 \/ base = 4194304 -> sp_segments s = [] \/ (exists o r, sp_segments s = [mkSegment 1048576 2097152 o r] /\ base = 4194304) -> mapping_ok base kSegmentSize s).
  { intros base s Hb Hs. unfold mapping_ok, kSegmentSize. split_and!; [lia|destruct Hb as [-> | ->]; reflexivity|lia|].
    destruct Hs as [-> |(o & r & -> & ->)]; [constructor|]. constructor; [|constructor]. unfold apart. simpl. lia. }
  assert (Hrun : heap_run heap_init heap_demo).
  { assert (Hnone : forall s, answer_ok (None, None) s) by (intros s b [H|H]; done).
    split; [done|]. split; [done|]. split; [intros b [H|H]; [done|]; injection H as <-; apply Hm; [by left|by left]|].
    split; [intros b [H|H]; [done|]; injection H as <-; apply Hm; [by right|right; eexists _, _; split; [vm_compute; reflexivity|done]]|].
    split; [eexists 0%nat, _, 1048576; split; [split; [vm_compute; reflexivity|eexists; split; [vm_compute; reflexivity|left]]|unfold in_user_data, user_data; vm_compute; split; [discriminate|reflexivity]]|].
    split; [apply Hnone|]. split; [eexists 1%nat, _; split; [vm_compute; reflexivity|eexists; split; [vm_compute; reflexivity|right; left]]|].
    split; [apply Hnone|done]. }
  split; [vm_compute; reflexivity|]. split; [vm_compute; reflexivity|].
  destruct (heap_sound heap_demo Hrun) as (Hap & _ & _).
  assert (Hk : exists c, hp_caches hp !! 1%nat = Some c /\ sc_class c = k32B) by (eexists; split; vm_compute; reflexivity). destruct Hk as (c & Hk & Ec).
  destruct (Hap 1%nat c 1114112 1%nat c 1114208) as [_ H];
    [split; [exact Hk|eexists; split; [vm_compute; reflexivity|left]]|split; [exact Hk|eexists; split; [vm_compute; reflexivity|right; left]]|congruence|].
  rewrite Ec in H. exact H.
Defined.

(** ** What coalescing does *)

(** The blocks of one slab of the largest class, some of them freed, and what the
    next four allocations answer. *)
Fixpoint alloc_many (n : nat) (x : list Z * Mem * SegmentProvider * SlabCache) : list Z * Mem * SegmentProvider * SlabCache :=
  match n with
  | O => x
  | S n => let '(l, m, s, c) := x in
           let '(p, m, s, c) := allocate (2 + length (sc_idle c)) 0 7 (None, Some 1048576) m s c in alloc_many n (l ++ option_list p, m, s, c)
  end.
Definition after_frees (strategy : AllocationStrategy) (coalescing : bool) (frees : list nat) : list Z :=
  let '(l, m, s, c) := alloc_many 126 ([], ∅, provider_init, cache_new k4KB 0 strategy coalescing) in
  let '(m, c) := foldl (fun '(m, c) i => deallocate (default 0 (l !! i)) m c) (m, c) frees in
  let '(l, _, _, _) := alloc_many 4 ([], m, s, c) in l.

(** Freeing a block between two free neighbours leaves a list that runs in a circle:
    the same block is handed out twice, and then the id of its owner is taken for
    a pointer.  Without coalescing the three blocks come back, one each. *)
Lemma coalescing_allocates_twice :
  after_frees kSegregatedFit true [0; 2; 1]%nat = [1048608; 1048608; 39; 1572896] /\
  after_frees kSegregatedFit false [0; 2; 1]%nat = [1052768; 1056928; 1048608; 1572896].
Proof. split; vm_compute; reflexivity. Qed.
(** Of two neighbours that are merged one is lost. *)
Lemma coalescing_loses_block :
  after_frees kSegregatedFit true [0; 1]%nat = [1048608; 1572896; 1577056; 1581216] /\ after_frees kSegregatedFit false [0; 1]%nat = [1052768; 1048608; 1572896; 1577056].
Proof. split; vm_compute; reflexivity. Qed.

(** ** Bump-only caches *)

(** An idle slab is never allocated from again: its size is gone when it comes back. *)
Lemma idle_slab_unusable k owner mapped m s c b fuel :
  sc_strategy c = kBumpOnly -> sc_idle c = [b] -> sc_slab_size c = 0 -> 0 <= sc_bump c ->
  allocate (S (S fuel)) k owner mapped m s c =
  (let '(s, c) := cache_refill k mapped s (set_slab c b 0 0 []) in if sc_current c =? 0 then (None, m, s, c) else allocate fuel k owner mapped m s c).
Proof.
  intros Hst Hid Hz Hb. destruct (block_size_min (sc_class c)) as [Hbs _].
  assert (Hno : forall c1, sc_slab_size c1 = 0 -> 0 <= sc_bump c1 -> sc_class c1 = sc_class c -> sc_strategy c1 = kBumpOnly -> alloc_once owner m c1 = None).
  { intros c1 E1 E2 E3 E4. unfold alloc_once, bump_alloc. rewrite E4, E1, E3. rewrite (proj2 (Z.leb_gt _ 0)) by lia. by rewrite andb_false_r. }
  cbn [allocate]. rewrite (Hno c) by done. rewrite Hst, Hid. simpl. rewrite (Hno (set_slab c b (sc_slab_size c) 0 [])) by done. simpl. by rewrite Hst, Hz.
Qed.
(** And a slab becomes idle only when its blocks fill it exactly, which those of one class do. *)
Lemma exact_slabs sc : slab_size sc mod block_size sc = 0 <-> sc = k64B.
Proof. by destruct sc. Qed.
