(* ===== verification/FreeListSpec.v ===== *)
(** * The free list from several threads

    [adt/freelist.hpp] as the caches use it: any thread returns blocks, only the
    thread that owns the cache takes them.  [fstep] interleaves the accesses of
    [push] and [pop]: the load of the top, the read or write of a node's [next],
    and the exchange, which may also fail for no reason.  Accesses are
    sequentially consistent.  The theorem: every interleaving is a run of an atomic
    stack. *)

From S2P Require Import Prelude SlabSource SlabCache SlabHeap.
From stdpp Require Import base numbers list gmap.

#[local] Open Scope Z_scope.

Module ConcurrentFreeList.

Inductive Pusher := PIdle | PLoaded (node old : Z) | PWritten (node old : Z).
Inductive Popper := TIdle | TLoaded (old : Z) | TRead (old next : Z).
Inductive StackOp := SPush (node : Z) | SPop (node : Z) | SEmpty.

(** [fl_held]: the nodes in the hands of the program; [fl_hist]: what took effect. *)
Record FState := mkF { fl_top : Z; fl_mem : Mem; fl_pushers : list Pusher; fl_popper : Popper; fl_held : list Z; fl_hist : list StackOp }.

Inductive fstep : FState -> FState -> Prop :=
| push_load s i n held :
    fl_pushers s !! i = Some PIdle -> fl_held s ≡ₚ n :: held ->
    fstep s (mkF (fl_top s) (fl_mem s) (<[i := PLoaded n (fl_top s)]> (fl_pushers s)) (fl_popper s) held (fl_hist s))
| push_write s i n old :
    fl_pushers s !! i = Some (PLoaded n old) ->
    fstep s (mkF (fl_top s) (wr (fl_mem s) (n, extract_ptr old)) (<[i := PWritten n old]> (fl_pushers s)) (fl_popper s) (fl_held s) (fl_hist s))
| push_exchange s i n old :
    fl_pushers s !! i = Some (PWritten n old) -> fl_top s = old ->
    fstep s (mkF (pack n (next_tag old)) (fl_mem s) (<[i := PIdle]> (fl_pushers s)) (fl_popper s) (fl_held s) (fl_hist s ++ [SPush n]))
| push_retry s i n old :
    fl_pushers s !! i = Some (PWritten n old) ->
    fstep s (mkF (fl_top s) (fl_mem s) (<[i := PLoaded n (fl_top s)]> (fl_pushers s)) (fl_popper s) (fl_held s) (fl_hist s))
| pop_empty s :
    fl_popper s = TIdle -> extract_ptr (fl_top s) = 0 -> fstep s (mkF (fl_top s) (fl_mem s) (fl_pushers s) TIdle (fl_held s) (fl_hist s ++ [SEmpty]))
| pop_load s :
    fl_popper s = TIdle -> extract_ptr (fl_top s) <> 0 -> fstep s (mkF (fl_top s) (fl_mem s) (fl_pushers s) (TLoaded (fl_top s)) (fl_held s) (fl_hist s))
| pop_read s old :
    fl_popper s = TLoaded old -> fstep s (mkF (fl_top s) (fl_mem s) (fl_pushers s) (TRead old (rd (fl_mem s) (extract_ptr old))) (fl_held s) (fl_hist s))
| pop_exchange s old next :
    fl_popper s = TRead old next -> fl_top s = old ->
    fstep s (mkF (pack next (next_tag old)) (fl_mem s) (fl_pushers s) TIdle (extract_ptr old :: fl_held s) (fl_hist s ++ [SPop (extract_ptr old)]))
| pop_retry s old next :
    fl_popper s = TRead old next -> extract_ptr (fl_top s) <> 0 ->
    fstep s (mkF (fl_top s) (fl_mem s) (fl_pushers s) (TLoaded (fl_top s)) (fl_held s) (fl_hist s))
| program_writes s n v :   (* a node that is held, its [next] included *)
    n ∈ fl_held s -> fstep s (mkF (fl_top s) (wr (fl_mem s) (n, v)) (fl_pushers s) (fl_popper s) (fl_held s) (fl_hist s)).

Definition f_initial (threads : nat) (nodes : list Z) : FState := mkF 0 ∅ (replicate threads PIdle) TIdle nodes [].

(** The atomic stack. *)
Definition stack_op (l : option (list Z)) (o : StackOp) : option (list Z) :=
  match o with
  | SPush n => (fun l => n :: l) <$> l
  | SPop n => match l with Some (n' :: l) => if decide (n' = n) then Some l else None | _ => None end
  | SEmpty => match l with Some [] => Some [] | _ => None end
  end.
Definition stack_run (h : list StackOp) : option (list Z) := foldl stack_op (Some []) h.

Definition pushing (t : Pusher) : list Z := match t with PIdle => [] | PLoaded n _ | PWritten n _ => [n] end.
(** What the popper knows: its node stays in the list, with its [next]. *)
Definition popper_ok (m : Mem) (l : list Z) (t : Popper) : Prop :=
  match t with TIdle => True | TLoaded old => extract_ptr old ∈ l | TRead old next => extract_ptr old ∈ l /\ rd m (extract_ptr old) = next end.
Definition pusher_ok (m : Mem) (t : Pusher) : Prop := match t with PWritten n old => rd m n = extract_ptr old | _ => True end.

Record free_inv (l : list Z) (s : FState) : Prop := mkFreeInv {
  fi_run : stack_run (fl_hist s) = Some l;
  fi_chain : chain (fl_mem s) (extract_ptr (fl_top s)) l;
  fi_nodup : NoDup (l ++ fl_held s ++ concat (pushing <$> fl_pushers s));
  fi_ptr : Forall ptr_ok (l ++ fl_held s ++ concat (pushing <$> fl_pushers s));
  fi_pushers : Forall (pusher_ok (fl_mem s)) (fl_pushers s);
  fi_popper : popper_ok (fl_mem s) l (fl_popper s)
}.

Lemma pushing_split ts i t t' : ts !! i = Some t ->
  concat (pushing <$> ts) ≡ₚ pushing t ++ concat (delete i (pushing <$> ts)) /\ concat (pushing <$> <[i := t']> ts) ≡ₚ pushing t' ++ concat (delete i (pushing <$> ts)).
Proof.
  intros Hi. rewrite list_fmap_insert. apply concat_split. by rewrite list_lookup_fmap, Hi.
Qed.
Lemma stack_run_snoc h o l l' : stack_run h = Some l -> stack_op (Some l) o = Some l' -> stack_run (h ++ [o]) = Some l'.
Proof. unfold stack_run. intros E E'. rewrite foldl_app, E. done. Qed.

(** A write outside the list and outside the nodes being pushed by others. *)
Lemma frame_write m n v l ts popper :
  n ∉ l -> Forall (fun t => match t with PWritten n' _ => n' <> n | _ => True end) ts -> Forall (pusher_ok m) ts -> popper_ok m l popper ->
  Forall (pusher_ok (wr m (n, v))) ts /\ popper_ok (wr m (n, v)) l popper /\ forall top, chain m top l -> chain (wr m (n, v)) top l.
Proof.
  intros Hn Hts Hp Ho. split_and!.
  - rewrite Forall_forall in Hts, Hp |- *. intros t Ht. specialize (Hts t Ht). specialize (Hp t Ht). destruct t; simpl in *; try done. by rewrite rd_wr_ne.
  - destruct popper as [|old|old next]; simpl in *; [done|done|]. destruct Ho as [H1 H2]. split; [done|]. rewrite rd_wr_ne; [done|]. intros E. by rewrite E in H1.
  - intros top. apply chain_frame. intros h Hh. apply rd_wr_ne. by intros ->.
Qed.

(** The nodes of other pushers differ from one that is pushed or held. *)
Lemma others_differ (ts : list Pusher) i n :
  NoDup (concat (pushing <$> ts)) -> n ∉ concat (delete i (pushing <$> ts)) ->
  forall t', (match t' with PWritten n' _ => n' <> n | _ => True end) -> Forall (fun t => match t with PWritten n' _ => n' <> n | _ => True end) (<[i := t']> ts).
Proof.
  intros Hnd Hn t' Ht'. apply Forall_lookup. intros j t Hj. apply list_lookup_insert_Some in Hj as [(<- & <- & _)|[Hne Hj]]; [done|].
  destruct t as [|n' old|n' old]; try done. intros ->. apply Hn. apply list_elem_of_In, in_concat. exists [n]. split; [|by left].
  apply list_elem_of_In, list_elem_of_lookup. destruct (decide (j < i)%nat).
  - exists j. by rewrite list_lookup_delete_lt, list_lookup_fmap, Hj.
  - exists (pred j). rewrite list_lookup_delete_ge by lia. replace (S (pred j)) with j by lia. by rewrite list_lookup_fmap, Hj.
Qed.
Lemma pushers_insert m ts i t : Forall (pusher_ok m) ts -> pusher_ok m t -> Forall (pusher_ok m) (<[i := t]> ts).
Proof. intros Hts Ht. by apply Forall_insert. Qed.
Lemma popper_grow m l n t : popper_ok m l t -> popper_ok m (n :: l) t.
Proof. destruct t; simpl; [done|by right|]. intros [? ?]. by split; [right|]. Qed.

(** Nodes move between the list, the program and the pushers. *)
Lemma inv_move l l' s s' : free_inv l s ->
  l' ++ fl_held s' ++ concat (pushing <$> fl_pushers s') ≡ₚ l ++ fl_held s ++ concat (pushing <$> fl_pushers s) ->
  stack_run (fl_hist s') = Some l' -> chain (fl_mem s') (extract_ptr (fl_top s')) l' -> Forall (pusher_ok (fl_mem s')) (fl_pushers s') -> popper_ok (fl_mem s') l' (fl_popper s') ->
  free_inv l' s'.
Proof. intros [H1 H2 H3 H4 H5 H6] Hp Hr Hc Hpu Hpo. split; try done; by rewrite Hp. Qed.

Lemma top_ptr l s : free_inv l s -> 0 <= extract_ptr (fl_top s) < 140737488355328.
Proof.
  intros [_ Hc _ Hp _ _]. rewrite (chain_head _ _ _ Hc). destruct l as [|h l]; simpl; [lia|]. apply Forall_cons_1 in Hp as [[? ?] _]. lia.
Qed.

Lemma fstep_inv l s s' : free_inv l s -> fstep s s' -> exists l', free_inv l' s'.
Proof.
  intros Hi Hst. pose proof Hi as [H1 H2 H3 H4 H5 H6].
  assert (Hparts : NoDup (concat (pushing <$> fl_pushers s)) /\ (forall x, x ∈ l -> x ∉ fl_held s ++ concat (pushing <$> fl_pushers s)) /\ (forall x, x ∈ fl_held s -> x ∉ concat (pushing <$> fl_pushers s))).
  { apply NoDup_app in H3 as (_ & Ha & H3). apply NoDup_app in H3 as (_ & Hb & Hc). done. }
  destruct Hparts as (Hnp & Hl & Hh). destruct Hst as [s i n held Hp Hheld|s i n old Hp|s i n old Hp Et|s i n old Hp|s Hp Et|s Hp Et|s old Hp|s old next Hp Et|s old next Hp Et|s n v Hin].
  - exists l. destruct (pushing_split _ _ _ (PLoaded n (fl_top s)) Hp) as [P1 P2]. eapply (inv_move l l s); try done; simpl.
    + rewrite P1, P2, Hheld. simpl. by rewrite <- Permutation_middle.
    + by apply pushers_insert.
  - exists l. destruct (pushing_split _ _ _ (PWritten n old) Hp) as [P1 P2]. rewrite P1 in Hnp. simpl in Hnp. apply NoDup_cons in Hnp as [Hn Hnp].
    assert (Hnl : n ∉ l) by (intros Hx; apply (Hl n Hx), elem_of_app; right; rewrite P1; by left).
    destruct (frame_write (fl_mem s) n (extract_ptr old) l (<[i := PIdle]> (fl_pushers s)) (fl_popper s) Hnl) as (Q1 & Q2 & Q3); [|by apply pushers_insert|done|].
    { apply others_differ; [rewrite P1; simpl; by constructor|done|done]. }
    eapply (inv_move l l s); try done; simpl; [by rewrite P1, P2|by apply Q3|].
    replace (<[i := PWritten n old]> (fl_pushers s)) with (<[i := PWritten n old]> (<[i := PIdle]> (fl_pushers s))) by apply list_insert_insert_eq.
    apply pushers_insert; [done|]. simpl. by rewrite rd_wr_eq.
  - exists (n :: l). destruct (pushing_split _ _ _ PIdle Hp) as [P1 P2].
    assert (Hn : ptr_ok n) by (rewrite P1 in H4; apply Forall_app in H4 as [_ H4]; apply Forall_app in H4 as [_ H4]; simpl in H4; by apply Forall_cons_1 in H4 as [? _]).
    pose proof (Forall_lookup_1 _ _ _ _ H5 Hp) as Hw. simpl in Hw. eapply (inv_move l (n :: l) s); try done; simpl.
    + rewrite P1, P2. simpl. rewrite !app_assoc. apply Permutation_middle.
    + by apply (stack_run_snoc _ (SPush n) l).
    + unfold ptr_ok in Hn. rewrite extract_pack by lia. split; [done|]. rewrite Hw, <- Et. done.
    + by apply pushers_insert.
    + by apply popper_grow.
  - exists l. destruct (pushing_split _ _ _ (PLoaded n (fl_top s)) Hp) as [P1 P2]. eapply (inv_move l l s); try done; simpl; [by rewrite P1, P2|by apply pushers_insert].
  - exists l. rewrite Et in H2. destruct l as [|h l]; [|destruct H2 as [<- _]; by apply Forall_cons_1 in H4 as [[? _] _]].
    eapply (inv_move [] [] s); try done; simpl; by apply (stack_run_snoc _ SEmpty []).
  - exists l. eapply (inv_move l l s); try done; simpl. destruct l as [|h l]; [simpl in H2; congruence|]. destruct H2 as [-> _]. left.
  - exists l. rewrite Hp in H6. simpl in H6. by eapply (inv_move l l s).
  - rewrite Hp in H6. destruct H6 as [Hin Hnx]. destruct l as [|h l]; [by apply not_elem_of_nil in Hin|]. destruct H2 as [Eh Hc]. rewrite Et in Eh.
    exists l. pose proof (chain_head _ _ _ Hc) as Ec. rewrite <- Eh in Hc, Ec. rewrite Hnx in Hc, Ec.
    assert (Hr : 0 <= next < 140737488355328) by (rewrite Ec; destruct l as [|x l]; simpl; [lia|]; apply Forall_cons_1 in H4 as [_ H4]; simpl in H4; apply Forall_cons_1 in H4 as [[? ?] _]; lia).
    eapply (inv_move (h :: l) l s); try done; simpl.
    + rewrite <- Eh. rewrite <- Permutation_middle. done.
    + apply (stack_run_snoc _ _ (h :: l)); [done|]. simpl. by rewrite decide_True.
    + by rewrite extract_pack by lia.
  - exists l. eapply (inv_move l l s); try done; simpl. destruct l as [|h l]; [simpl in H2; congruence|]. destruct H2 as [-> _]. left.
  - exists l. assert (Hnl : n ∉ l) by (intros Hx; apply (Hl n Hx), elem_of_app; by left).
    assert (Hnt : n ∉ concat (pushing <$> fl_pushers s)) by (by apply Hh).
    destruct (frame_write (fl_mem s) n v l (fl_pushers s) (fl_popper s) Hnl) as (Q1 & Q2 & Q3); [|done|done|].
    { apply Forall_lookup. intros j t Hj. destruct t as [|n' old|n' old]; try done. intros ->. apply Hnt, list_elem_of_In, in_concat. exists [n].
      split; [|by left]. apply list_elem_of_In, list_elem_of_lookup. exists j. by rewrite list_lookup_fmap, Hj. }
    eapply (inv_move l l s); try done; simpl. by apply Q3.
Qed.

(** C34. Every interleaving of any number of threads that return blocks with the one that
    takes them is a run of an atomic stack: a block is taken only after it was
    returned, once for each return, newest first; the list through the blocks is
    the stack. *)
Theorem freelist_linearizes (threads : nat) (nodes : list Z) (s : FState) :
  NoDup nodes -> Forall ptr_ok nodes -> steps fstep (f_initial threads nodes) s ->
  exists l, stack_run (fl_hist s) = Some l /\ chain (fl_mem s) (extract_ptr (fl_top s)) l /\ NoDup (l ++ fl_held s ++ concat (pushing <$> fl_pushers s)).
Proof.
  intros Hn Hp Hs. assert (I : exists l, free_inv l s).
  { eapply (steps_inv _ (fun s => exists l, free_inv l s)); [|exact Hs|].
    - intros a b [l Hl] Hab. by eapply fstep_inv.
    - exists []. assert (E : concat (pushing <$> replicate threads PIdle) = []) by (clear; induction threads as [|n IH]; [done|]; simpl; exact IH).
      split; simpl; rewrite ?E, ?app_nil_r; try done. by apply Forall_replicate. }
  destruct I as [l [H1 H2 H3 _ _ _]]. by exists l.
Qed.
End ConcurrentFreeList.

Lemma freelist_linearizes_witness :
  exists s, steps ConcurrentFreeList.fstep (ConcurrentFreeList.f_initial 2 [4096; 8192]) s /\
    ConcurrentFreeList.fl_hist s = [ConcurrentFreeList.SPush 8192; ConcurrentFreeList.SPush 4096; ConcurrentFreeList.SPop 4096] /\
    exists l, ConcurrentFreeList.stack_run (ConcurrentFreeList.fl_hist s) = Some l /\ chain (ConcurrentFreeList.fl_mem s) (extract_ptr (ConcurrentFreeList.fl_top s)) l.
Proof.
  eexists. match goal with |- ?A /\ _ => assert (Hs : A) end.
  { eapply steps_step; [apply (ConcurrentFreeList.push_load _ 0 4096 [8192]); reflexivity|]. eapply steps_step; [eapply (ConcurrentFreeList.push_write _ 0); reflexivity|]. simpl.
    eapply steps_step; [apply (ConcurrentFreeList.push_load _ 1 8192 []); reflexivity|]. eapply steps_step; [eapply (ConcurrentFreeList.push_write _ 1); reflexivity|]. simpl.
    eapply steps_step; [eapply (ConcurrentFreeList.push_exchange _ 1); reflexivity|]. simpl. eapply steps_step; [eapply (ConcurrentFreeList.push_retry _ 0); reflexivity|]. simpl.
    eapply steps_step; [eapply (ConcurrentFreeList.push_write _ 0); reflexivity|]. simpl. eapply steps_step; [eapply (ConcurrentFreeList.push_exchange _ 0); reflexivity|]. simpl.
    eapply steps_step; [eapply ConcurrentFreeList.pop_load; [reflexivity|vm_compute; discriminate]|]. simpl.
    eapply steps_step; [eapply ConcurrentFreeList.pop_read; reflexivity|]. simpl. eapply steps_step; [eapply ConcurrentFreeList.pop_exchange; reflexivity|]. simpl. apply steps_refl. }
  split; [exact Hs|]. split; [reflexivity|].
  destruct (ConcurrentFreeList.freelist_linearizes 2 [4096; 8192] _ ltac:(repeat constructor; set_solver) ltac:(repeat constructor; unfold ptr_ok; lia) Hs) as (l & H1 & H2 & _).
  by exists l.
Defined.
