(* ===== verification/Durable.v ===== *)
(** * Durable state

    [actor/durable]: the interface of the state stores ([durable_state_store.hpp]) as
    a class of operations and a class of what the behaviors rely on, its two
    implementations ([in_memory_state_store.cpp], [file_state_store.cpp]) and the two
    behaviors over it ([durable_behavior.hpp], [event_sourced_behavior.hpp]).  The
    clock and the answers of the file system are arguments.  A byte is a number
    below 256.  The directory of an actor is the path that its identity spells, so
    that an identity with slashes lies inside the directories of its prefixes. *)

From S2P Require Import Prelude DeliveryTypes.
From Stdlib Require Import Ascii.
From stdpp Require Import base numbers list list_numbers gmap strings.

#[local] Open Scope Z_scope.

(** [result<T>], with the exception that an allocation may throw. *)
Inductive Result (A : Type) := RVal (a : A) | RErr (reason : FailureReason) | RThrow.
Arguments RVal {A} a.
Arguments RErr {A} reason.
Arguments RThrow {A}.

Record SnapshotRecord := mkSnap { sn_id : string; sn_sequence : Z; sn_schema_version : Z; sn_serializer_id : Z; sn_timestamp : Z; sn_data : list Z; sn_checksum : Z }.
Record EventRecord := mkEvent { ev_id : string; ev_sequence : Z; ev_schema_version : Z; ev_serializer_id : Z; ev_timestamp : Z; ev_data : list Z }.
Definition no_snapshot : SnapshotRecord := mkSnap "" 0 1 0 0 [] 0.

(** ** The interface *)

(** [DurableStateStore]; [Env] is what the clock and the system answer during a call. *)
Class DurableStateStore (S Env : Type) := {
  store_write_snapshot : Env -> string -> Z -> list Z -> S -> Result SnapshotRecord * S;
  store_load_latest_snapshot : Env -> string -> S -> Result SnapshotRecord;
  store_append_event : Env -> string -> Z -> list Z -> S -> Result unit * S;
  store_load_events_after : string -> Z -> S -> Result (list EventRecord);
  store_delete_state : Env -> string -> S -> Result unit * S
}.

(** What the behaviors rely on: which identities a store can name, when a write or a
    deletion for one identity leaves the snapshot of another alone, and what a load
    answers after the other calls. *)
Class SnapshotStore (S Env : Type) `{DurableStateStore S Env} := {
  store_inv : S -> Prop;
  env_reads : Env -> Z -> Prop;   (** a record of so many bytes can be read *)
  store_names : string -> Prop;
  write_apart : string -> string -> Prop;
  delete_apart : string -> string -> Prop;
  law_write_inv env id v data s : store_inv s -> store_inv (store_write_snapshot env id v data s).2;
  law_append_inv env id n data s : store_inv s -> store_inv (store_append_event env id n data s).2;
  law_delete_inv env id s : store_inv s -> store_inv (store_delete_state env id s).2;
  law_write_load env env' id v data s r s' :
    store_inv s -> store_names id -> Forall (fun b => 0 <= b < 256) data -> env_reads env' (zlen data) ->
    store_write_snapshot env id v data s = (RVal r, s') ->
    exists r', store_load_latest_snapshot env' id s' = RVal r' /\ sn_data r' = data /\ sn_sequence r' = sn_sequence r;
  law_write_failed env env' id id' v data s :
    store_names id -> (forall r, (store_write_snapshot env id v data s).1 <> RVal r) ->
    store_load_latest_snapshot env' id' (store_write_snapshot env id v data s).2 = store_load_latest_snapshot env' id' s;
  law_write_other env env' id id' v data s :
    write_apart id id' -> store_load_latest_snapshot env' id' (store_write_snapshot env id v data s).2 = store_load_latest_snapshot env' id' s;
  law_append env env' id id' n data s :
    store_load_latest_snapshot env' id' (store_append_event env id n data s).2 = store_load_latest_snapshot env' id' s;
  law_delete_other env env' id id' s :
    delete_apart id id' -> store_load_latest_snapshot env' id' (store_delete_state env id s).2 = store_load_latest_snapshot env' id' s
}.

(** ** [InMemoryStateStore] *)

Record MemActor := mkMemActor { ma_next_sequence : Z; ma_latest_snapshot : SnapshotRecord; ma_events : list EventRecord }.
Definition mem_actor_new : MemActor := mkMemActor 0 no_snapshot [].
Notation InMemoryStateStore := (gmap string MemActor).
Definition mem_actor (id : string) (s : InMemoryStateStore) : MemActor := default mem_actor_new (s !! id).

Definition mem_write_snapshot (now : Z) (id : string) (schema_version : Z) (data : list Z) (s : InMemoryStateStore) : Result SnapshotRecord * InMemoryStateStore :=
  let a := mem_actor id s in
  let rec := mkSnap id (ma_next_sequence a) schema_version 0 now data 0 in
  (RVal rec, <[id := mkMemActor (u64 (ma_next_sequence a + 1)) rec (ma_events a)]> s).

Definition mem_load_latest_snapshot (now : Z) (id : string) (s : InMemoryStateStore) : Result SnapshotRecord :=
  match s !! id with
  | None => RErr FR_Unknown
  | Some a => if String.eqb (sn_id (ma_latest_snapshot a)) EmptyString then RErr FR_Unknown else RVal (ma_latest_snapshot a)
  end.

Definition mem_append_event (now : Z) (id : string) (sequence : Z) (data : list Z) (s : InMemoryStateStore) : Result unit * InMemoryStateStore :=
  let a := mem_actor id s in
  if sequence <? ma_next_sequence a then (RVal tt, <[id := a]> s)
  else if negb (ma_next_sequence a =? sequence) then (RErr FR_Unknown, <[id := a]> s)
  else (RVal tt, <[id := mkMemActor (u64 (ma_next_sequence a + 1)) (ma_latest_snapshot a) (ma_events a ++ [mkEvent id (ma_next_sequence a) 1 0 now data])]> s).

Definition mem_load_events_after (id : string) (after : Z) (s : InMemoryStateStore) : Result (list EventRecord) :=
  match s !! id with
  | None => RVal []
  | Some a => RVal (filter (fun e => after < ev_sequence e) (ma_events a))
  end.

Definition mem_delete_state (now : Z) (id : string) (s : InMemoryStateStore) : Result unit * InMemoryStateStore := (RVal tt, delete id s).

#[export] Instance mem_store : DurableStateStore InMemoryStateStore Z := {
  store_write_snapshot := mem_write_snapshot;
  store_load_latest_snapshot := mem_load_latest_snapshot;
  store_append_event := mem_append_event;
  store_load_events_after := mem_load_events_after;
  store_delete_state := mem_delete_state
}.

(** ** [FileStateStore] *)

(** [crc32c]: the register starts at 0 and is not inverted at the end. *)
Definition crc_bit (crc : Z) : Z := Z.lxor (Z.shiftr crc 1) (Z.land 2197175160 (u32 (- Z.land crc 1))).
Definition crc_byte (crc b : Z) : Z := Nat.iter 8 crc_bit (Z.lxor crc b).
Definition crc32c (data : list Z) : Z := foldl crc_byte 0 data.
Definition checksum_of (data : list Z) : Z := if 0 <? zlen data then crc32c data else 0.

(** [actor_dir], below the root: the names between the slashes of an identity; empty
    names and the name of a directory itself do not change the path. *)
Fixpoint split_slash (s : string) : list string :=
  match s with
  | EmptyString => [EmptyString]
  | String c r =>
      match split_slash r with
      | w :: ws => if bool_decide (c = "/"%char) then EmptyString :: w :: ws else String c w :: ws
      | [] => []
      end
  end.
Definition actor_dir (id : string) : list string := filter (fun c => c <> EmptyString /\ c <> "."%string) (split_slash id).
(** The identities whose path stays below the root, where no name is that of a
    snapshot file. *)
Definition plain_id (id : string) : bool :=
  negb (String.prefix "/" id) && forallb (fun c => negb (bool_decide (c ∈ [".."; "snapshot.tmp"; "snapshot.bin"]%string))) (actor_dir id).

(** The files of the directories, by path: [snapshot.tmp] and [snapshot.bin].
    Directories that hold neither are not recorded. *)
Record ActorDir := mkDir { ad_tmp : option (list Z); ad_bin : option (list Z) }.
Notation Disk := (gmap (list string) ActorDir).
Record FileStateStore := mkFileStore { fs_disk : Disk; fs_next_sequences : gmap string Z }.

(** Where a write stops, and which of the two files a failing [remove_all] leaves in
    each directory. *)
Inductive WriteFault := WriteOk | MkdirFails | OpenFails | WriteStops (written : nat) (removed : bool) | RenameFails.
Record FileEnv := mkFileEnv { fe_now : Z; fe_write : WriteFault; fe_remove : option (list string -> bool * bool); fe_readable : bool; fe_room : Z }.

Definition write_le (v : Z) : list Z := Z_to_little_endian 8 8 v.
Definition snapshot_file (rec : SnapshotRecord) : list Z :=
  write_le (sn_sequence rec) ++ write_le (sn_schema_version rec) ++ write_le (sn_checksum rec) ++ write_le (zlen (sn_data rec)) ++ sn_data rec.

Definition dir_of (p : list string) (d : Disk) : ActorDir := default (mkDir None None) (d !! p).
Definition put_tmp (p : list string) (bs : option (list Z)) (d : Disk) : Disk := <[p := mkDir bs (ad_bin (dir_of p d))]> d.
Definition rename_tmp (p : list string) (d : Disk) : Disk := <[p := mkDir None (ad_tmp (dir_of p d))]> d.

Definition file_write_snapshot (env : FileEnv) (id : string) (schema_version : Z) (data : list Z) (s : FileStateStore) : Result SnapshotRecord * FileStateStore :=
  let dir := actor_dir id in
  match fe_write env with
  | MkdirFails => (RErr FR_PassivationSnapshotFailed, s)
  | fault =>
      let d := <[dir := dir_of dir (fs_disk s)]> (fs_disk s) in
      let seq := default 0 (fs_next_sequences s !! id) in
      let next := <[id := u64 (seq + 1)]> (fs_next_sequences s) in
      let rec := mkSnap id seq schema_version 0 (fe_now env) data (checksum_of data) in
      match fault with
      | OpenFails => (RErr FR_PassivationSnapshotFailed, mkFileStore d next)
      | WriteStops n removed => (RErr FR_PassivationSnapshotFailed, mkFileStore (put_tmp dir (if removed then None else Some (take n (snapshot_file rec))) d) next)
      | RenameFails => (RErr FR_PassivationSnapshotFailed, mkFileStore (put_tmp dir (Some (snapshot_file rec)) d) next)
      | _ => (RVal rec, mkFileStore (rename_tmp dir (put_tmp dir (Some (snapshot_file rec)) d)) next)
      end
  end.

(** [read_le] on the bytes that are left and whether the stream is good. *)
Definition read_le (st : list Z * bool) : Z * (list Z * bool) :=
  let '(bs, good) := st in
  if negb good then (0, st) else (little_endian_to_Z 8 (take 8 bs), (drop 8 bs, (8 <=? length bs)%nat)).

Definition can_allocate (room n : Z) : bool := n <=? Z.min room INT64_MAX.

Definition load_file (env : FileEnv) (id : string) (bs : list Z) : Result SnapshotRecord :=
  let '(sequence, st) := read_le (bs, true) in
  let '(schema, st) := read_le st in
  let '(checksum, st) := read_le st in
  let '(data_len, (rest, good)) := read_le st in
  if negb (can_allocate (fe_room env) data_len) then RThrow
  else
    let data := take (Z.to_nat data_len) rest in
    let good := good && ((data_len =? 0) || (data_len <=? zlen rest)) in
    if negb good then RErr FR_ReactivationFailed
    else if negb (checksum_of data =? u32 checksum) then RErr FR_SchemaVersionMismatch
    else RVal (mkSnap id sequence (u32 schema) 0 0 data (u32 checksum)).

Definition file_load_latest_snapshot (env : FileEnv) (id : string) (s : FileStateStore) : Result SnapshotRecord :=
  match ad_bin (dir_of (actor_dir id) (fs_disk s)) with
  | None => RErr FR_Unknown
  | Some bs => if negb (fe_readable env) then RErr FR_ReactivationFailed else load_file env id bs
  end.

Definition file_append_event (env : FileEnv) (id : string) (sequence : Z) (data : list Z) (s : FileStateStore) : Result unit * FileStateStore := (RErr FR_Unknown, s).
Definition file_load_events_after (id : string) (after : Z) (s : FileStateStore) : Result (list EventRecord) := RErr FR_Unknown.

(** [remove_all] takes the directory and everything below it. *)
Definition remove_all (dir : list string) (d : Disk) : Disk := filter (fun x => ~ dir `prefix_of` x.1) d.
Definition remove_some (kept : list string -> bool * bool) (dir : list string) (d : Disk) : Disk :=
  map_imap (fun p a => if decide (dir `prefix_of` p) then Some (mkDir (if (kept p).1 then ad_tmp a else None) (if (kept p).2 then ad_bin a else None)) else Some a) d.
Definition file_delete_state (env : FileEnv) (id : string) (s : FileStateStore) : Result unit * FileStateStore :=
  let next := delete id (fs_next_sequences s) in
  match fe_remove env with
  | None => (RVal tt, mkFileStore (remove_all (actor_dir id) (fs_disk s)) next)
  | Some kept => (RErr FR_Unknown, mkFileStore (remove_some kept (actor_dir id) (fs_disk s)) next)
  end.

#[export] Instance file_store : DurableStateStore FileStateStore FileEnv := {
  store_write_snapshot := file_write_snapshot;
  store_load_latest_snapshot := file_load_latest_snapshot;
  store_append_event := file_append_event;
  store_load_events_after := file_load_events_after;
  store_delete_state := file_delete_state
}.

(** The disks that a process may leave that dies during [write_snapshot], and the
    store that the next process opens over one. *)
Definition crash_disks (env : FileEnv) (id : string) (schema_version : Z) (data : list Z) (s : FileStateStore) : list Disk :=
  let dir := actor_dir id in
  let d := <[dir := dir_of dir (fs_disk s)]> (fs_disk s) in
  let rec := mkSnap id (default 0 (fs_next_sequences s !! id)) schema_version 0 (fe_now env) data (checksum_of data) in
  [fs_disk s; d] ++ ((fun n => put_tmp dir (Some (take n (snapshot_file rec))) d) <$> seq 0 (S (length (snapshot_file rec)))) ++ [rename_tmp dir (put_tmp dir (Some (snapshot_file rec)) d)].
Definition reopen (d : Disk) : FileStateStore := mkFileStore d ∅.

(** ** The behaviors *)

Section Behaviors.
Context {S Env : Type} `{DurableStateStore S Env}.
Context {State Event : Type} (serialize_state : State -> list Z) (deserialize_state : list Z -> option State).
Context (serialize_event : Event -> list Z) (deserialize_event : list Z -> option Event) (apply_event_to_state : State -> Event -> State * option FailureReason).

Record Behavior := mkBehavior { bh_id : string; bh_state : State; bh_last_snapshot : Z; bh_last_event : Z; bh_recovered : bool }.
Definition behavior_new (id : string) (initial : State) : Behavior := mkBehavior id initial 0 0 false.
Definition with_state (b : Behavior) (st : State) : Behavior := mkBehavior (bh_id b) st (bh_last_snapshot b) (bh_last_event b) (bh_recovered b).

(** [DurableBehavior::recover], [snapshot]; an exception leaves the call. *)
Definition durable_recover (env : Env) (b : Behavior) (s : S) : Result unit * Behavior :=
  match store_load_latest_snapshot env (bh_id b) s with
  | RVal snap =>
      match deserialize_state (sn_data snap) with
      | None => (RErr FR_ReactivationFailed, b)
      | Some st => (RVal tt, mkBehavior (bh_id b) st (sn_sequence snap) (bh_last_event b) true)
      end
  | RErr _ => (RVal tt, mkBehavior (bh_id b) (bh_state b) (bh_last_snapshot b) (bh_last_event b) true)
  | RThrow => (RThrow, b)
  end.
Definition behavior_snapshot (env : Env) (b : Behavior) (s : S) : Result unit * Behavior * S :=
  let '(r, s) := store_write_snapshot env (bh_id b) 1 (serialize_state (bh_state b)) s in
  match r with
  | RVal rec => (RVal tt, mkBehavior (bh_id b) (bh_state b) (sn_sequence rec) (bh_last_event b) (bh_recovered b), s)
  | RErr _ => (RErr FR_PassivationSnapshotFailed, b, s)
  | RThrow => (RThrow, b, s)
  end.

(** The loop over the events of [EventSourcedBehavior::recover]. *)
Fixpoint replay (evs : list EventRecord) (b : Behavior) : Result unit * Behavior :=
  match evs with
  | [] => (RVal tt, b)
  | e :: evs =>
      match deserialize_event (ev_data e) with
      | None => replay evs b
      | Some ev =>
          match apply_event_to_state (bh_state b) ev with
          | (st, None) => replay evs (mkBehavior (bh_id b) st (bh_last_snapshot b) (ev_sequence e) (bh_recovered b))
          | (st, Some f) => (RErr f, with_state b st)
          end
      end
  end.
Definition set_recovered (b : Behavior) : Behavior := mkBehavior (bh_id b) (bh_state b) (bh_last_snapshot b) (bh_last_event b) true.
Definition sourced_recover (env : Env) (b : Behavior) (s : S) : Result unit * Behavior :=
  match store_load_latest_snapshot env (bh_id b) s with
  | RVal snap =>
      match deserialize_state (sn_data snap) with
      | None => (RErr FR_ReactivationFailed, b)
      | Some st =>
          let b := mkBehavior (bh_id b) st (sn_sequence snap) (bh_last_event b) (bh_recovered b) in
          match store_load_events_after (bh_id b) (bh_last_snapshot b) s with
          | RVal evs => let '(r, b) := replay evs b in match r with RVal _ => (RVal tt, set_recovered b) | _ => (r, b) end
          | RErr _ => (RVal tt, set_recovered b)
          | RThrow => (RThrow, b)
          end
      end
  | RErr _ => (RVal tt, set_recovered b)
  | RThrow => (RThrow, b)
  end.

Definition persist_event (env : Env) (event : Event) (b : Behavior) (s : S) : Result unit * Behavior * S :=
  let next_seq := u64 (bh_last_event b + 1) in
  let '(r, s) := store_append_event env (bh_id b) next_seq (serialize_event event) s in
  match r with
  | RVal _ =>
      let b := mkBehavior (bh_id b) (bh_state b) (bh_last_snapshot b) next_seq (bh_recovered b) in
      let '(st, failed) := apply_event_to_state (bh_state b) event in
      (match failed with None => RVal tt | Some f => RErr f end, with_state b st, s)
  | _ => (r, b, s)
  end.
End Behaviors.
Arguments Behavior : clear implicits.

(** ** The check sum *)

Definition word32 (z : Z) : Prop := 0 <= z < 4294967296.

Lemma crc_poly_odd crc : Z.land 2197175160 (u32 (- Z.land crc 1)) = if Z.odd crc then 2197175160 else 0.
Proof.
  assert (E : Z.land crc 1 = if Z.odd crc then 1 else 0) by (change 1 with (Z.ones 1) at 1; rewrite Z.land_ones by lia; apply Zmod_odd).
  rewrite E. by destruct (Z.odd crc).
Qed.
Lemma word32_bits z : 0 <= z -> word32 z <-> forall i, 32 <= i -> Z.testbit z i = false.
Proof. intros Hz. rewrite <- (Z.bounded_iff_bits_nonneg 32) by lia. unfold word32. change (2 ^ 32) with 4294967296. lia. Qed.
Lemma word32_lxor a b : word32 a -> word32 b -> word32 (Z.lxor a b).
Proof.
  intros Ha Hb. assert (H0 : 0 <= Z.lxor a b) by (apply Z.lxor_nonneg; unfold word32 in *; lia). apply word32_bits; [done|]. intros i Hi.
  rewrite Z.lxor_spec, (proj1 (word32_bits a ltac:(unfold word32 in *; lia)) Ha i Hi), (proj1 (word32_bits b ltac:(unfold word32 in *; lia)) Hb i Hi). done.
Qed.
Lemma word32_half a : word32 a -> word32 (Z.shiftr a 1) /\ Z.shiftr a 1 < 2147483648.
Proof. unfold word32. intros Ha. rewrite Z.shiftr_div_pow2 by lia. change (2 ^ 1) with 2. split; [|apply Z.div_lt_upper_bound; lia]. split; [apply Z.div_pos; lia|apply Z.div_lt_upper_bound; lia]. Qed.
Lemma crc_bit_word a : word32 a -> word32 (crc_bit a).
Proof. intros Ha. unfold crc_bit. rewrite crc_poly_odd. apply word32_lxor; [by apply word32_half|]. by destruct (Z.odd a). Qed.

(** The top bit of the polynomial keeps the bit that is shifted out. *)
Lemma crc_bit_top a : word32 a -> Z.testbit (crc_bit a) 31 = Z.odd a.
Proof.
  intros Ha. unfold crc_bit. rewrite crc_poly_odd, Z.lxor_spec. destruct (word32_half a Ha) as [[H0 _] H1].
  rewrite (proj1 (Z.bounded_iff_bits_nonneg 31 (Z.shiftr a 1) ltac:(lia) H0)) by (change (2 ^ 31) with 2147483648; lia). by destruct (Z.odd a).
Qed.
Lemma crc_bit_inj a b : word32 a -> word32 b -> crc_bit a = crc_bit b -> a = b.
Proof.
  intros Ha Hb E. assert (Eo : Z.odd a = Z.odd b) by (rewrite <- (crc_bit_top a), <- (crc_bit_top b), E; done).
  unfold crc_bit in E. rewrite !crc_poly_odd, Eo in E. apply (f_equal (fun z => Z.lxor z (if Z.odd b then 2197175160 else 0))) in E.
  rewrite !Z.lxor_assoc, !Z.lxor_nilpotent, !Z.lxor_0_r in E. rewrite <- !Z.div2_spec in E.
  rewrite (Z.div2_odd a), (Z.div2_odd b), E, Eo. done.
Qed.
Lemma crc_iter_word n a : word32 a -> word32 (Nat.iter n crc_bit a).
Proof. induction n; intros; [done|]. simpl. apply crc_bit_word. auto. Qed.
Lemma crc_iter_inj n a b : word32 a -> word32 b -> Nat.iter n crc_bit a = Nat.iter n crc_bit b -> a = b.
Proof. induction n; intros Ha Hb E; [done|]. simpl in E. apply crc_bit_inj in E; auto using crc_iter_word. Qed.
Lemma byte_word b : 0 <= b < 256 -> word32 b.
Proof. unfold word32. lia. Qed.
Lemma crc_byte_word crc b : word32 crc -> 0 <= b < 256 -> word32 (crc_byte crc b).
Proof. intros. apply crc_iter_word, word32_lxor; auto using byte_word. Qed.
Lemma lxor_cancel_r a b c : Z.lxor a c = Z.lxor b c -> a = b.
Proof. intros E. apply (f_equal (fun z => Z.lxor z c)) in E. by rewrite !Z.lxor_assoc, Z.lxor_nilpotent, !Z.lxor_0_r in E. Qed.
Lemma crc_byte_inj a b c d : word32 a -> word32 c -> 0 <= b < 256 -> 0 <= d < 256 -> crc_byte a b = crc_byte c d -> Z.lxor a b = Z.lxor c d.
Proof. intros. eapply crc_iter_inj; [..|done]; apply word32_lxor; auto using byte_word. Qed.
Lemma crc_fold_word data : Forall (fun b => 0 <= b < 256) data -> forall crc, word32 crc -> word32 (foldl crc_byte crc data).
Proof. induction 1 as [|b data Hb _ IH]; intros crc Hc; [done|]. simpl. apply IH, crc_byte_word; done. Qed.
Lemma crc_fold_inj data : Forall (fun b => 0 <= b < 256) data -> forall a b, word32 a -> word32 b -> foldl crc_byte a data = foldl crc_byte b data -> a = b.
Proof.
  induction 1 as [|x data Hx _ IH]; intros a b Ha Hb E; [done|]. simpl in E. apply IH in E; [|by apply crc_byte_word..].
  apply crc_byte_inj in E; [|done..]. by apply lxor_cancel_r in E.
Qed.

(** A change of one byte changes the check sum. *)
Lemma crc_detects_byte pre x y post :
  Forall (fun b => 0 <= b < 256) (pre ++ x :: post) -> 0 <= y < 256 -> x <> y -> crc32c (pre ++ x :: post) <> crc32c (pre ++ y :: post).
Proof.
  intros Hf Hy Hne E. apply Forall_app in Hf as [Hpre Hf]. apply Forall_cons_1 in Hf as [Hx Hpost].
  unfold crc32c in E. rewrite !foldl_app in E. simpl in E. assert (Hp : word32 (foldl crc_byte 0 pre)) by (apply crc_fold_word; [done|unfold word32; lia]).
  apply crc_fold_inj in E; [|done|by apply crc_byte_word..]. apply crc_byte_inj in E; [|done..]. rewrite !(Z.lxor_comm (foldl _ _ _)) in E. apply lxor_cancel_r in E. done.
Qed.

(** ** Snapshot files *)

Lemma write_le_length v : length (write_le v) = 8%nat.
Proof. pose proof (length_Z_to_little_endian 8 8 v ltac:(lia)) as E. unfold write_le. lia. Qed.
Lemma read_write_le v bs : read_le (write_le v ++ bs, true) = (u64 v, (bs, true)).
Proof.
  unfold read_le. cbn [negb]. rewrite length_app, write_le_length. rewrite (proj2 (Nat.leb_le 8 (8 + length bs))) by lia.
  rewrite <- (write_le_length v) at 1 2. rewrite take_app_length, drop_app_length. unfold write_le. rewrite little_endian_to_Z_to_little_endian by lia. done.
Qed.
Lemma read_le_short bs : (length bs < 8)%nat -> exists v, read_le (bs, true) = (v, ([], false)).
Proof. intros Hl. unfold read_le. cbn [negb]. rewrite (proj2 (Nat.leb_gt 8 _)) by lia. rewrite (drop_ge bs 8) by lia. by eexists. Qed.

Definition record_ok (r : SnapshotRecord) : Prop :=
  0 <= sn_sequence r < 18446744073709551616 /\ word32 (sn_checksum r) /\ zlen (sn_data r) <= INT64_MAX.

(** Reading the header of a file that may have been cut or changed after it. *)
Lemma load_header env id r tail : record_ok r ->
  load_file env id (write_le (sn_sequence r) ++ write_le (sn_schema_version r) ++ write_le (sn_checksum r) ++ write_le (zlen (sn_data r)) ++ tail) =
  if negb (zlen (sn_data r) <=? fe_room env) then RThrow
  else if negb (zlen (sn_data r) <=? zlen tail) then RErr FR_ReactivationFailed
  else if negb (checksum_of (take (length (sn_data r)) tail) =? sn_checksum r) then RErr FR_SchemaVersionMismatch
  else RVal (mkSnap id (sn_sequence r) (u32 (sn_schema_version r)) 0 0 (take (length (sn_data r)) tail) (sn_checksum r)).
Proof.
  intros (Hs & Hc & Hl). unfold load_file. pose proof (zlen_nonneg (sn_data r)). pose proof (zlen_nonneg tail). unfold word32 in Hc.
  rewrite !read_write_le. unfold can_allocate. rewrite (u64_small (zlen _)) by (unfold INT64_MAX in Hl; lia). rewrite (u64_small (sn_sequence r)) by lia.
  rewrite (u64_small (sn_checksum r)), (u32_small (sn_checksum r)) by lia.
  assert (E : u32 (u64 (sn_schema_version r)) = u32 (sn_schema_version r)).
  { symmetry. apply Znumtheory.Zmod_div_mod; [lia|lia|by exists 4294967296]. }
  rewrite E. replace (Z.to_nat (zlen (sn_data r))) with (length (sn_data r)) by (unfold zlen; lia).
  replace (zlen (sn_data r) <=? Z.min (fe_room env) INT64_MAX) with (zlen (sn_data r) <=? fe_room env) by (apply eq_bool_prop_intro; rewrite !Is_true_true, !Z.leb_le; unfold INT64_MAX in *; lia).
  replace (true && ((zlen (sn_data r) =? 0) || (zlen (sn_data r) <=? zlen tail))) with (zlen (sn_data r) <=? zlen tail) by (apply eq_bool_prop_intro; rewrite !Is_true_true, andb_true_iff, orb_true_iff, !Z.leb_le, Z.eqb_eq; lia).
  done.
Qed.

Lemma checksum_word data : Forall (fun b => 0 <= b < 256) data -> word32 (checksum_of data).
Proof. intros Hd. unfold checksum_of, crc32c. assert (word32 0) by (unfold word32; lia). destruct (0 <? zlen data); [by apply crc_fold_word|done]. Qed.

(** What is written is what is read. *)
Lemma load_snapshot_file env id r :
  record_ok r -> sn_checksum r = checksum_of (sn_data r) -> zlen (sn_data r) <= fe_room env ->
  load_file env id (snapshot_file r) = RVal (mkSnap id (sn_sequence r) (u32 (sn_schema_version r)) 0 0 (sn_data r) (sn_checksum r)).
Proof.
  intros Hr Ec Hm. unfold snapshot_file. rewrite load_header by done. rewrite (proj2 (Z.leb_le (zlen (sn_data r)) (fe_room env)) Hm), Z.leb_refl, take_ge by lia.
  rewrite Ec, Z.eqb_refl. done.
Qed.

(** A file whose data ends early or has a changed byte is refused. *)
Lemma load_truncated env id r n :
  record_ok r -> zlen (sn_data r) <= fe_room env -> (n < length (sn_data r))%nat ->
  load_file env id (take (32 + n) (snapshot_file r)) = RErr FR_ReactivationFailed.
Proof.
  intros Hr Hm Hn. unfold snapshot_file.
  assert (E : take (32 + n) (write_le (sn_sequence r) ++ write_le (sn_schema_version r) ++ write_le (sn_checksum r) ++ write_le (zlen (sn_data r)) ++ sn_data r) =
              write_le (sn_sequence r) ++ write_le (sn_schema_version r) ++ write_le (sn_checksum r) ++ write_le (zlen (sn_data r)) ++ take n (sn_data r)).
  { do 4 (rewrite take_app, write_le_length, take_ge by (rewrite write_le_length; lia)). do 4 f_equal. f_equal. lia. }
  rewrite E, load_header by done. rewrite (proj2 (Z.leb_le (zlen (sn_data r)) (fe_room env)) Hm). rewrite (proj2 (Z.leb_gt _ _)); [done|].
  unfold zlen. rewrite length_take. lia.
Qed.
Lemma load_changed_byte env id r pre x y post :
  record_ok r -> sn_checksum r = checksum_of (sn_data r) -> zlen (sn_data r) <= fe_room env -> Forall (fun b => 0 <= b < 256) (sn_data r) ->
  sn_data r = pre ++ x :: post -> 0 <= y < 256 -> x <> y ->
  load_file env id (write_le (sn_sequence r) ++ write_le (sn_schema_version r) ++ write_le (sn_checksum r) ++ write_le (zlen (sn_data r)) ++ pre ++ y :: post) = RErr FR_SchemaVersionMismatch.
Proof.
  intros Hr Ec Hm Hf Ed Hy Hne. rewrite load_header by done. rewrite (proj2 (Z.leb_le (zlen (sn_data r)) (fe_room env)) Hm).
  assert (El : length (sn_data r) = length (pre ++ y :: post)) by (rewrite Ed, !length_app; done).
  rewrite (proj2 (Z.leb_le _ _)) by (unfold zlen; lia). rewrite take_ge by lia. rewrite (proj2 (Z.eqb_neq _ _)); [done|].
  rewrite Ec, Ed. unfold checksum_of. rewrite !(proj2 (Z.ltb_lt 0 _)) by (rewrite zlen_app, zlen_cons; pose proof (zlen_nonneg pre); pose proof (zlen_nonneg post); lia).
  intros E. symmetry in E. revert E. rewrite Ed in Hf. by apply crc_detects_byte.
Qed.

(** ** The stores keep the promises of the interface *)

#[export] Program Instance mem_snapshot_store : SnapshotStore InMemoryStateStore Z :=
  {| store_inv s := True; env_reads _ _ := True; store_names id := id <> EmptyString; write_apart id id' := id <> id'; delete_apart id id' := id <> id' |}.
Solve Obligations with done.
Next Obligation.
  intros env env' id v data s r s' _ Hid _ _ E. injection E as <- <-. cbn [store_load_latest_snapshot mem_store]. unfold mem_load_latest_snapshot. rewrite lookup_insert_eq. simpl.
  rewrite (proj2 (String.eqb_neq _ _) Hid). by eexists.
Qed.
Next Obligation. intros env env' id id' v data s _ Hf. by specialize (Hf _ eq_refl). Qed.
Next Obligation. intros env env' id id' v data s Hne. simpl. unfold mem_load_latest_snapshot. by rewrite lookup_insert_ne. Qed.
Next Obligation.
  intros env env' id id' n data s. cbn [store_append_event store_load_latest_snapshot mem_store]. unfold mem_append_event.
  set (a := mem_actor id s). assert (Hl : forall a', ma_latest_snapshot a' = ma_latest_snapshot a -> mem_load_latest_snapshot env' id' (<[id := a']> s) = mem_load_latest_snapshot env' id' s).
  { intros a' Ea. unfold mem_load_latest_snapshot. destruct (decide (id = id')) as [<-|Hne]; [|by rewrite lookup_insert_ne].
    rewrite lookup_insert_eq, Ea. unfold a, mem_actor. by destruct (s !! id). }
  destruct (n <? ma_next_sequence a); [by apply Hl|]. destruct (negb (ma_next_sequence a =? n)); by apply Hl.
Qed.
Next Obligation. intros env env' id id' s Hne. simpl. unfold mem_load_latest_snapshot, mem_delete_state. simpl. by rewrite lookup_delete_ne. Qed.

Definition sequences_ok (s : FileStateStore) : Prop := map_Forall (fun _ n => 0 <= n < 18446744073709551616) (fs_next_sequences s).
Lemma sequence_ok s id : sequences_ok s -> 0 <= default 0 (fs_next_sequences s !! id) < 18446744073709551616.
Proof. intros Hs. destruct (fs_next_sequences s !! id) as [n|] eqn:E; simpl; [by apply (Hs id)|lia]. Qed.
Lemma dir_insert_eq (id : list string) (a : ActorDir) (d : Disk) : dir_of id (<[id := a]> d) = a.
Proof. unfold dir_of. by rewrite lookup_insert_eq. Qed.
Lemma dir_insert_ne (id id' : list string) (a : ActorDir) (d : Disk) : id <> id' -> dir_of id' (<[id := a]> d) = dir_of id' d.
Proof. intros. unfold dir_of. by rewrite lookup_insert_ne. Qed.
Lemma bin_put_tmp (id id' : list string) bs d : ad_bin (dir_of id' (put_tmp id bs d)) = ad_bin (dir_of id' d).
Proof. unfold put_tmp. destruct (decide (id = id')) as [<-|]; [by rewrite dir_insert_eq|by rewrite dir_insert_ne]. Qed.
Lemma bin_mkdir (id id' : list string) (d : Disk) : ad_bin (dir_of id' (<[id := dir_of id d]> d)) = ad_bin (dir_of id' d).
Proof. destruct (decide (id = id')) as [<-|]; [by rewrite dir_insert_eq|by rewrite dir_insert_ne]. Qed.
Lemma bin_renamed_ne (id id' : list string) (d : Disk) : id <> id' -> ad_bin (dir_of id' (rename_tmp id d)) = ad_bin (dir_of id' d).
Proof. intros. unfold rename_tmp. by rewrite dir_insert_ne. Qed.
Lemma bin_renamed_eq (id : list string) (bs : option (list Z)) (d : Disk) : ad_bin (dir_of id (rename_tmp id (put_tmp id bs d))) = bs.
Proof. unfold rename_tmp, put_tmp. by rewrite !dir_insert_eq. Qed.
#[local] Hint Rewrite bin_put_tmp bin_mkdir : disk.

(** What the two ways of removing leave. *)
Lemma bin_removed (dir q : list string) (d : Disk) : ad_bin (dir_of q (remove_all dir d)) = if decide (dir `prefix_of` q) then None else ad_bin (dir_of q d).
Proof.
  unfold dir_of, remove_all. destruct (decide (dir `prefix_of` q)) as [Hp|Hp].
  - rewrite map_lookup_filter_None_2; [done|]. right. intros a _ Hn. by apply Hn.
  - destruct (d !! q) as [a|] eqn:E.
    + by rewrite (map_lookup_filter_Some_2 _ _ _ _ E).
    + rewrite map_lookup_filter_None_2; [done|by left].
Qed.
Lemma bin_partly (kept : list string -> bool * bool) (dir q : list string) (d : Disk) :
  ad_bin (dir_of q (remove_some kept dir d)) = if decide (dir `prefix_of` q /\ (kept q).2 = false) then None else ad_bin (dir_of q d).
Proof.
  unfold dir_of, remove_some. rewrite map_lookup_imap. destruct (d !! q) as [a|]; simpl; [|by destruct (decide _)].
  destruct (decide (dir `prefix_of` q)) as [Hp|Hp]; simpl; [|rewrite decide_False; [done|tauto]].
  destruct (kept q) as [lt lb]. simpl. destruct lb; [rewrite decide_False; [done|naive_solver]|by rewrite decide_True].
Qed.

(** A load looks at [snapshot.bin] only. *)
Lemma file_load_bin env id s s' : ad_bin (dir_of (actor_dir id) (fs_disk s)) = ad_bin (dir_of (actor_dir id) (fs_disk s')) -> file_load_latest_snapshot env id s = file_load_latest_snapshot env id s'.
Proof. intros E. unfold file_load_latest_snapshot. by rewrite E. Qed.

#[export] Program Instance file_snapshot_store : SnapshotStore FileStateStore FileEnv :=
  {| store_inv := sequences_ok; env_reads env n := fe_readable env = true /\ n <= fe_room env /\ n <= INT64_MAX;
     store_names id := plain_id id = true;
     write_apart id id' := plain_id id = true /\ actor_dir id <> actor_dir id';
     delete_apart id id' := plain_id id = true /\ ~ actor_dir id `prefix_of` actor_dir id' |}.
Next Obligation.
  intros env id v data s Hs. simpl. unfold file_write_snapshot.
  assert (Hn : map_Forall (fun _ n => 0 <= n < 18446744073709551616) (<[id := u64 (default 0 (fs_next_sequences s !! id) + 1)]> (fs_next_sequences s))) by (apply map_Forall_insert_2; [apply u64_range|exact Hs]).
  destruct (fe_write env); done.
Qed.
Next Obligation. done. Qed.
Next Obligation. intros env id s Hs. simpl. unfold file_delete_state. pose proof (map_Forall_delete _ _ id Hs). destruct (fe_remove env); done. Qed.
Next Obligation.
  intros env env' id v data s r s' Hs Hid Hd (Hr & Hm & Hx) E. simpl in E |- *. unfold file_write_snapshot in E. destruct (fe_write env); try discriminate. injection E as <- <-.
  pose proof (checksum_word data Hd) as Hc. unfold file_load_latest_snapshot. cbn [fs_disk]. rewrite bin_renamed_eq, Hr. cbn [negb].
  rewrite load_snapshot_file; [|split; [by apply sequence_ok|by split]|done|done]. by eexists.
Qed.
Next Obligation.
  intros env env' id id' v data s _ Hf. simpl in *. unfold file_write_snapshot in *. destruct (fe_write env); try done; try (by specialize (Hf _ eq_refl)); apply file_load_bin; cbn [fs_disk snd]; by autorewrite with disk.
Qed.
Next Obligation.
  intros env env' id id' v data s [_ Hne]. simpl in *. unfold file_write_snapshot in *. destruct (fe_write env); try done; apply file_load_bin; cbn [fs_disk snd]; rewrite ?bin_renamed_ne by done; by autorewrite with disk.
Qed.
Next Obligation. done. Qed.
Next Obligation.
  intros env env' id id' s [_ Hne]. simpl. unfold file_delete_state. destruct (fe_remove env) as [kept|]; apply file_load_bin; cbn [fs_disk snd].
  - rewrite bin_partly, decide_False; [done|tauto].
  - by rewrite bin_removed, decide_False.
Qed.

(** ** Behaviors over any store that keeps the promises *)

Inductive StoreOp (Env : Type) := OpWrite (env : Env) (id : string) (v : Z) (data : list Z) | OpAppend (env : Env) (id : string) (n : Z) (data : list Z) | OpDelete (env : Env) (id : string).
Arguments OpWrite {Env} env id v data.
Arguments OpAppend {Env} env id n data.
Arguments OpDelete {Env} env id.

Section Client.
Context {S Env : Type} `{SnapshotStore S Env}.

Definition store_op (s : S) (o : StoreOp Env) : S :=
  match o with
  | OpWrite env id v data => (store_write_snapshot env id v data s).2
  | OpAppend env id n data => (store_append_event env id n data s).2
  | OpDelete env id => (store_delete_state env id s).2
  end.

(** An operation that leaves the snapshot of [id] alone: for an identity that the
    store keeps apart, on events, or a write that is answered with an error. *)
Definition spares_id (id : string) (s : S) (o : StoreOp Env) : Prop :=
  match o with
  | OpWrite env id' v data => write_apart id' id \/ store_names id' /\ forall r, (store_write_snapshot env id' v data s).1 <> RVal r
  | OpAppend _ _ _ _ => True
  | OpDelete env id' => delete_apart id' id
  end.
Fixpoint all_spare (id : string) (s : S) (os : list (StoreOp Env)) : Prop := match os with [] => True | o :: os => spares_id id s o /\ all_spare id (store_op s o) os end.

Lemma spared_load env id os : forall s, all_spare id s os -> store_load_latest_snapshot env id (foldl store_op s os) = store_load_latest_snapshot env id s.
Proof.
  induction os as [|o os IH]; intros s; [done|]. intros [Ho Hos]. simpl. rewrite IH by done. destruct o as [env' id' v data|env' id' n data|env' id']; simpl in *.
  - destruct Ho as [Hne|[Hn Hf]]; [by apply law_write_other|by apply law_write_failed].
  - by apply law_append.
  - by apply law_delete_other.
Qed.

Context {State : Type} (serialize_state : State -> list Z) (deserialize_state : list Z -> option State).
Context (Hround : forall st, deserialize_state (serialize_state st) = Some st) (Hbytes : forall st, Forall (fun b => 0 <= b < 256) (serialize_state st)).

(** C36. A behavior whose snapshot was taken is recovered with the state of that moment,
    over every store that keeps the promises of the interface, whatever is done for
    identities that the store keeps apart and however many later snapshots fail.  The
    store in memory keeps every two identities apart; that in files keeps writes for
    different directories apart, and a deletion from the directories that do not lie
    in the deleted one. *)
Theorem snapshot_recovered (env env' : Env) (b b' : Behavior State) (s s' : S) (os : list (StoreOp Env)) (initial : State) :
  store_inv s -> store_names (bh_id b) -> behavior_snapshot serialize_state env b s = (RVal tt, b', s') ->
  all_spare (bh_id b) s' os -> env_reads env' (zlen (serialize_state (bh_state b))) ->
  exists b2, durable_recover deserialize_state env' (behavior_new (bh_id b) initial) (foldl store_op s' os) = (RVal tt, b2) /\
    bh_state b2 = bh_state b /\ bh_recovered b2 = true /\ bh_last_snapshot b2 = bh_last_snapshot b'.
Proof.
  intros Hs Hid E Hos Hr. unfold behavior_snapshot in E. destruct (store_write_snapshot env (bh_id b) 1 (serialize_state (bh_state b)) s) as [[r|f|] s1] eqn:Ew; try discriminate.
  injection E as <- <-. destruct (law_write_load env env' _ 1 _ s r s1 Hs Hid (Hbytes _) Hr Ew) as (r' & El & Ed & Eq).
  unfold durable_recover. cbn [bh_id behavior_new]. rewrite spared_load by done. rewrite El, Ed, Hround. by eexists.
Qed.
End Client.

(** ** The files survive a crash *)

Module Crash.

Inductive DiskEvent :=
| DWrite (env : FileEnv) (id : string) (v : Z) (data : list Z)
| DCrash (env : FileEnv) (id : string) (v : Z) (data : list Z) (point : nat)   (** the process dies in a write *)
| DRestart
| DDelete (env : FileEnv) (id : string).

Definition answer_of {A} (r : Result A) : Result unit := match r with RVal _ => RVal tt | RErr f => RErr f | RThrow => RThrow end.
Definition disk_step (s : FileStateStore) (e : DiskEvent) : Result unit * FileStateStore :=
  match e with
  | DWrite env id v data => let '(r, s) := file_write_snapshot env id v data s in (answer_of r, s)
  | DCrash env id v data point => (RThrow, reopen (default (fs_disk s) (crash_disks env id v data s !! point)))
  | DRestart => (RThrow, reopen (fs_disk s))
  | DDelete env id => let '(r, s) := file_delete_state env id s in (answer_of r, s)
  end.

(** The atomic map of snapshots, by directory: an answered write took place, a refused
    one did not, one that the process died in did or did not; a deletion takes every
    directory below, a refused one some of them. *)
Notation Register := (gmap (list string) (list Z)).
Inductive register_step : DiskEvent -> Result unit -> Register -> Register -> Prop :=
| reg_write env id v data m : register_step (DWrite env id v data) (RVal tt) m (<[actor_dir id := data]> m)
| reg_write_refused env id v data f m : register_step (DWrite env id v data) (RErr f) m m
| reg_crash_before env id v data p a m : register_step (DCrash env id v data p) a m m
| reg_crash_after env id v data p a m : register_step (DCrash env id v data p) a m (<[actor_dir id := data]> m)
| reg_restart a m : register_step DRestart a m m
| reg_delete env id m : register_step (DDelete env id) (RVal tt) m (filter (fun x => ~ actor_dir id `prefix_of` x.1) m)
| reg_delete_refused env id f (gone : list string -> bool) m :
    register_step (DDelete env id) (RErr f) m (filter (fun x => ~ (actor_dir id `prefix_of` x.1 /\ gone x.1 = true)) m).

Inductive crash_run : FileStateStore -> Register -> list DiskEvent -> FileStateStore -> Register -> Prop :=
| run_nil s m : crash_run s m [] s m
| run_cons s m e es s' m' m1 : register_step e (disk_step s e).1 m m1 -> crash_run (disk_step s e).2 m1 es s' m' -> crash_run s m (e :: es) s' m'.

Definition disk_event_ok (e : DiskEvent) : Prop :=
  match e with
  | DWrite _ id _ data | DCrash _ id _ data _ => plain_id id = true /\ Forall (fun b => 0 <= b < 256) data /\ zlen data <= INT64_MAX
  | DDelete _ id => plain_id id = true
  | DRestart => True
  end.

Definition holds (m : Register) (d : Disk) : Prop :=
  forall id, match m !! id with
             | None => ad_bin (dir_of id d) = None
             | Some data => exists r, ad_bin (dir_of id d) = Some (snapshot_file r) /\ record_ok r /\ sn_checksum r = checksum_of (sn_data r) /\ sn_data r = data
             end.

Lemma holds_bin m d d' : holds m d -> (forall id, ad_bin (dir_of id d') = ad_bin (dir_of id d)) -> holds m d'.
Proof. intros Hm E id. specialize (Hm id). by rewrite E. Qed.
Lemma holds_renamed m d id r : holds m d -> record_ok r -> sn_checksum r = checksum_of (sn_data r) ->
  holds (<[id := sn_data r]> m) (rename_tmp id (put_tmp id (Some (snapshot_file r)) (<[id := dir_of id d]> d))).
Proof.
  intros Hm Hr Hc id'. destruct (decide (id = id')) as [<-|Hne].
  - rewrite lookup_insert_eq, bin_renamed_eq. by exists r.
  - rewrite lookup_insert_ne by done. specialize (Hm id'). rewrite bin_renamed_ne by done. by autorewrite with disk.
Qed.
Lemma holds_filtered m d d' (P : list string -> Prop) `{forall q, Decision (P q)} :
  holds m d -> (forall q, ad_bin (dir_of q d') = if decide (P q) then None else ad_bin (dir_of q d)) -> holds (filter (fun x => ~ P x.1) m) d'.
Proof.
  intros Hm E q. specialize (Hm q). rewrite E. destruct (decide (P q)) as [HP|HP].
  - rewrite map_lookup_filter_None_2; [done|]. right. intros a _ Hn. by apply Hn.
  - destruct (m !! q) as [a|] eqn:Eq; [by rewrite (map_lookup_filter_Some_2 _ _ _ _ Eq)|]. rewrite map_lookup_filter_None_2; [done|by left].
Qed.
Lemma written_ok s id v now data : sequences_ok s -> Forall (fun b => 0 <= b < 256) data -> zlen data <= INT64_MAX ->
  record_ok (mkSnap id (default 0 (fs_next_sequences s !! id)) v 0 now data (checksum_of data)).
Proof. intros Hs Hd Hl. split; [by apply sequence_ok|]. split; [by apply checksum_word|done]. Qed.

(** A disk that is left by a crash holds the old snapshots or those with the new one. *)
Lemma crash_holds m s env id v data d : sequences_ok s -> Forall (fun b => 0 <= b < 256) data -> zlen data <= INT64_MAX ->
  holds m (fs_disk s) -> d ∈ crash_disks env id v data s -> holds m d \/ holds (<[actor_dir id := data]> m) d.
Proof.
  intros Hs Hd Hl Hm Hin. unfold crash_disks in Hin. apply elem_of_app in Hin as [Hin|Hin]; [|apply elem_of_app in Hin as [Hin|Hin]].
  - left. eapply holds_bin; [done|]. intros id'. apply elem_of_cons in Hin as [->|Hin]; [done|]. apply list_elem_of_singleton in Hin as ->. by autorewrite with disk.
  - left. apply list_elem_of_fmap in Hin as (n & -> & _). eapply holds_bin; [done|]. intros id'. by autorewrite with disk.
  - right. apply list_elem_of_singleton in Hin as ->. by apply holds_renamed with (r := mkSnap id _ v 0 (fe_now env) data (checksum_of data)); [|apply written_ok|].
Qed.

Lemma disk_step_ok m s e : sequences_ok s -> holds m (fs_disk s) -> disk_event_ok e ->
  exists m', register_step e (disk_step s e).1 m m' /\ holds m' (fs_disk (disk_step s e).2) /\ sequences_ok (disk_step s e).2.
Proof.
  intros Hs Hm He. destruct e as [env id v data|env id v data p| |env id]; simpl in He.
  - destruct He as (_ & Hd & Hl). pose proof (law_write_inv env id v data s Hs) as Hs'. simpl in Hs' |- *.
    pose proof (written_ok s id v (fe_now env) data Hs Hd Hl) as Hr. unfold file_write_snapshot in *. destruct (fe_write env) eqn:Ef; simpl in *.
    + exists (<[actor_dir id := data]> m). split; [constructor|]. split; [|done]. by apply holds_renamed with (r := mkSnap id _ v 0 (fe_now env) data (checksum_of data)).
    + exists m. by split; [constructor|].
    + exists m. split; [constructor|]. split; [|done]. eapply holds_bin; [done|]. intros id'. by autorewrite with disk.
    + exists m. split; [constructor|]. split; [|done]. eapply holds_bin; [done|]. intros id'. by autorewrite with disk.
    + exists m. split; [constructor|]. split; [|done]. eapply holds_bin; [done|]. intros id'. by autorewrite with disk.
  - destruct He as (_ & Hd & Hl). simpl. assert (Hn : sequences_ok (reopen (default (fs_disk s) (crash_disks env id v data s !! p)))) by done.
    destruct (crash_disks env id v data s !! p) as [d|] eqn:Ed; [|exists m; by split; [constructor|]].
    destruct (crash_holds m s env id v data d Hs Hd Hl Hm (list_elem_of_lookup_2 _ _ _ Ed)) as [Hh|Hh]; [exists m|exists (<[actor_dir id := data]> m)]; by split; [constructor|].
  - exists m. by split; [constructor|].
  - pose proof (law_delete_inv env id s Hs) as Hs'. simpl in Hs' |- *. unfold file_delete_state in *. destruct (fe_remove env) as [kept|]; simpl in *.
    + eexists. split; [apply (reg_delete_refused _ _ _ (fun q => negb (kept q).2))|]. split; [|done].
      pose proof (holds_filtered m (fs_disk s) (remove_some kept (actor_dir id) (fs_disk s)) (fun q => actor_dir id `prefix_of` q /\ negb (kept q).2 = true)) as K.
      apply K; [done|]. intros q. rewrite bin_partly. apply decide_ext. by rewrite negb_true_iff.
    + eexists. split; [apply reg_delete|]. split; [|done]. 
      pose proof (holds_filtered m (fs_disk s) (remove_all (actor_dir id) (fs_disk s)) (fun q => actor_dir id `prefix_of` q)) as K. apply K; [done|]. intros q. apply bin_removed.
Qed.

(** C35. The directory tree of snapshots is an atomic map from paths that crashes do not
    break: on every history of writes with any fault, of crashes at any point of a
    write, of restarts and deletions, for identities whose path stays below the root
    and names no snapshot file, the next load of an actor answers exactly what the
    map holds at its path, where a write that was answered is in the map, one that
    was refused is not, and one that the process died in is or is not; a deletion
    removes the path with every path below it, and one that was refused may have
    removed some of them. *)
Theorem snapshots_atomic (es : list DiskEvent) :
  Forall disk_event_ok es ->
  exists s m, crash_run (reopen ∅) ∅ es s m /\
    forall env id, plain_id id = true -> fe_readable env = true -> INT64_MAX <= fe_room env ->
      match m !! actor_dir id with
      | None => file_load_latest_snapshot env id s = RErr FR_Unknown
      | Some data => exists r, file_load_latest_snapshot env id s = RVal r /\ sn_data r = data /\ sn_id r = id
      end.
Proof.
  intros Hes. assert (R : forall s m, sequences_ok s -> holds m (fs_disk s) -> exists s' m', crash_run s m es s' m' /\ holds m' (fs_disk s')).
  { induction Hes as [|e es He _ IH]; intros s m Hs Hm; [exists s, m; by split; [constructor|]|].
    destruct (disk_step_ok m s e Hs Hm He) as (m1 & Hst & Hm1 & Hs1). destruct (IH _ _ Hs1 Hm1) as (s' & m' & Hr & Hh). exists s', m'. split; [by econstructor|done]. }
  destruct (R (reopen ∅) ∅ ltac:(done)) as (s & m & Hr & Hh); [intros id; by rewrite lookup_empty|]. exists s, m. split; [done|]. intros env id _ Hre Hro. specialize (Hh (actor_dir id)).
  unfold file_load_latest_snapshot. destruct (m !! actor_dir id) as [data|]; [|by rewrite Hh].
  destruct Hh as (r & Eb & Hrec & Ec & Ed). rewrite Eb, Hre. cbn [negb]. rewrite load_snapshot_file; [|done|done|destruct Hrec as (_ & _ & Hx); lia]. by eexists.
Qed.
End Crash.

(** ** Event sourcing over the store in memory *)

Module Sourced.
Section Life.
Context {State Event : Type} (serialize_state : State -> list Z) (deserialize_state : list Z -> option State).
Context (serialize_event : Event -> list Z) (deserialize_event : list Z -> option Event) (apply_event : State -> Event -> State * option FailureReason).
Context (Hstate : forall st, deserialize_state (serialize_state st) = Some st) (Hevent : forall e, deserialize_event (serialize_event e) = Some e).

(** The state after events that all apply. *)
Fixpoint apply_all (st : State) (evs : list Event) : option State :=
  match evs with
  | [] => Some st
  | e :: evs => match apply_event st e with (st, None) => apply_all st evs | (_, Some _) => None end
  end.
Lemma apply_all_app st evs evs' : apply_all st (evs ++ evs') = match apply_all st evs with Some st => apply_all st evs' | None => None end.
Proof. revert st. induction evs as [|e evs IH]; intros st; [done|]. simpl. destruct (apply_event st e) as [st' [f|]]; [done|apply IH]. Qed.

(** What happens after the first snapshot: an event, a restart of the actor, or an
    operation on the store for another one. *)
Inductive LifeEvent := LEvent (now : Z) (e : Event) | LRestart (now : Z) (initial : State) | LOther (o : StoreOp Z).
Definition op_id (o : StoreOp Z) : string := match o with OpWrite _ id _ _ | OpAppend _ id _ _ | OpDelete _ id => id end.

(** The answers are collected with the state. *)
Definition life_step (x : list (Result unit) * Behavior State * InMemoryStateStore) (e : LifeEvent) : list (Result unit) * Behavior State * InMemoryStateStore :=
  let '(answers, b, s) := x in
  match e with
  | LEvent now ev => let '(r, b, s) := persist_event serialize_event apply_event now ev b s in (answers ++ [r], b, s)
  | LRestart now initial => let '(r, b) := sourced_recover deserialize_state deserialize_event apply_event now (behavior_new (bh_id b) initial) s in (answers ++ [r], b, s)
  | LOther o => (answers, b, store_op s o)
  end.
Definition events_of (es : list LifeEvent) : list Event := omap (fun e => match e with LEvent _ ev => Some ev | _ => None end) es.

(** The first life: recover, which finds nothing, and take a snapshot. *)
Definition life_begin (now : Z) (id : string) (initial : State) (s : InMemoryStateStore) : list (Result unit) * Behavior State * InMemoryStateStore :=
  let '(r1, b) := sourced_recover deserialize_state deserialize_event apply_event now (behavior_new id initial) s in
  let '(r2, b, s) := behavior_snapshot serialize_state now b s in ([r1; r2], b, s).

Definition logged (id : string) (e : EventRecord) (n : nat) (ev : Event) : Prop := ev_sequence e = Z.of_nat n + 1 /\ ev_data e = serialize_event ev.
Record life_inv (id : string) (st0 : State) (evs : list Event) (x : list (Result unit) * Behavior State * InMemoryStateStore) : Prop := mkLifeInv {
  li_answers : Forall (fun r => r = RVal tt) x.1.1;
  li_id : bh_id x.1.2 = id;
  li_state : apply_all st0 evs = Some (bh_state x.1.2);
  li_last : bh_last_event x.1.2 = zlen evs;
  li_store : exists log snap, x.2 !! id = Some (mkMemActor (zlen evs + 1) snap log) /\ sn_id snap = id /\ sn_sequence snap = 0 /\ sn_data snap = serialize_state st0 /\
    length log = length evs /\ forall n e ev, log !! n = Some e -> evs !! n = Some ev -> logged id e n ev
}.

Lemma other_actor id o (s : InMemoryStateStore) : op_id o <> id -> store_op s o !! id = s !! id.
Proof.
  intros Hne. destruct o as [now id' v data|now id' n data|now id']; simpl in *.
  - by rewrite lookup_insert_ne.
  - unfold mem_append_event. repeat bcase; simpl; by rewrite lookup_insert_ne.
  - by rewrite lookup_delete_ne.
Qed.

(** Replaying a log of consecutive events. *)
Lemma replay_log id log : forall evs (k : nat) (b : Behavior State) st,
  length log = length evs -> apply_all (bh_state b) evs = Some st -> (forall n e ev, log !! n = Some e -> evs !! n = Some ev -> logged id e (k + n) ev) ->
  replay deserialize_event apply_event log b =
    (RVal tt, mkBehavior (bh_id b) st (bh_last_snapshot b) (if decide (evs = []) then bh_last_event b else Z.of_nat k + zlen evs) (bh_recovered b)).
Proof.
  induction log as [|e log IH]; intros evs k b st Hl Hst Hlog; destruct evs as [|ev evs]; try discriminate; [injection Hst as <-; by destruct b|].
  destruct (Hlog 0%nat e ev eq_refl eq_refl) as [Eq Ed]. simpl in Hst |- *. rewrite Ed, Hevent. destruct (apply_event (bh_state b) ev) as [st' [f|]]; [done|].
  rewrite (IH evs (S k) _ st); [|by injection Hl|done|intros n e' ev' He Hev; replace (S k + n)%nat with (k + S n)%nat by lia; by apply (Hlog (S n))].
  simpl. f_equal. f_equal. rewrite zlen_cons. destruct evs as [|x evs]; [rewrite zlen_nil; rewrite decide_True by done; lia|]. rewrite decide_False by done. lia.
Qed.

Lemma filter_all {A} (P : A -> Prop) `{forall x, Decision (P x)} l : Forall P l -> filter P l = l.
Proof. induction 1 as [|x l Hx _ IH]; [done|]. rewrite filter_cons_True by done. by rewrite IH. Qed.
Lemma log_after id log evs : length log = length evs -> (forall n e ev, log !! n = Some e -> evs !! n = Some ev -> logged id e n ev) -> filter (fun e => 0 < ev_sequence e) log = log.
Proof.
  intros Hl Hlog. apply filter_all, Forall_lookup. intros n e He. destruct (lookup_lt_is_Some_2 evs n) as [ev Hev]; [rewrite <- Hl; by eapply lookup_lt_Some|].
  destruct (Hlog n e ev He Hev) as [-> _]. lia.
Qed.

Lemma life_begin_inv now id st0 s : s !! id = None -> id <> EmptyString -> life_inv id st0 [] (life_begin now id st0 s).
Proof.
  intros Hs Hid. unfold life_begin, sourced_recover. cbn [store_load_latest_snapshot mem_store bh_id behavior_new]. unfold mem_load_latest_snapshot. rewrite Hs.
  unfold behavior_snapshot. simpl. unfold mem_actor. rewrite Hs. split; simpl; try done; [by repeat constructor|]. rewrite lookup_insert_eq. by eexists _, _.
Qed.
Lemma event_inv now id st0 evs e x : life_inv id st0 evs x -> is_Some (apply_all st0 (evs ++ [e])) -> zlen evs + 2 < 18446744073709551616 -> life_inv id st0 (evs ++ [e]) (life_step x (LEvent now e)).
Proof.
  destruct x as [[answers b] s]. intros [Ha Hi Hst Hla (log & snap & Es & E1 & E2 & E3 & Hl & Hlog)] Happ Hb. cbn [fst snd] in *. pose proof (zlen_nonneg evs) as H0.
  assert (Eapp := apply_all_app st0 evs [e]). rewrite Hst in Eapp. simpl in Eapp. destruct (apply_event (bh_state b) e) as [st' [f|]] eqn:Eev; [rewrite Eapp in Happ; by destruct Happ|].
  unfold life_step, persist_event. cbn [store_append_event mem_store]. unfold mem_append_event, mem_actor. rewrite Hi, Es, Hla. simpl. rewrite (u64_small (zlen evs + 1)) by lia.
  rewrite Z.ltb_irrefl, Z.eqb_refl. simpl. rewrite (u64_small (zlen evs + 1 + 1)), Eev by lia. split; simpl.
  - apply Forall_app. by split; [|constructor].
  - done.
  - done.
  - rewrite zlen_app. done.
  - rewrite lookup_insert_eq, zlen_app. eexists _, snap. split_and!; try done; [by rewrite !length_app, Hl|].
    intros n r ev Hr Hev. apply lookup_app_Some in Hr as [Hr|[Hn Hr]].
    + rewrite lookup_app_l in Hev by (rewrite <- Hl; by eapply lookup_lt_Some). by apply Hlog.
    + rewrite lookup_app_r in Hev by lia. rewrite Hl in Hr. destruct (n - length evs)%nat as [|k] eqn:En; [|discriminate]. injection Hr as <-. injection Hev as <-.
      split; [|done]. simpl. unfold zlen. lia.
Qed.
Lemma restart_inv now id st0 evs initial x : id <> EmptyString -> life_inv id st0 evs x -> life_inv id st0 evs (life_step x (LRestart now initial)).
Proof.
  destruct x as [[answers b] s]. intros Hid [Ha Hi Hst Hla (log & snap & Es & E1 & E2 & E3 & Hl & Hlog)]. cbn [fst snd] in *.
  unfold life_step, sourced_recover. cbn [store_load_latest_snapshot store_load_events_after mem_store bh_id behavior_new]. unfold mem_load_latest_snapshot, mem_load_events_after. rewrite Hi, Es. cbn [ma_latest_snapshot ma_events].
  rewrite E1, (proj2 (String.eqb_neq _ _) Hid), E3, Hstate. cbn [bh_last_snapshot bh_last_event bh_state bh_recovered bh_id behavior_new]. rewrite E2, (log_after id log evs Hl Hlog), (replay_log id log evs 0 _ (bh_state b)) by done.
  split; simpl; try done.
  - apply Forall_app. by split; [|constructor].
  - by destruct (decide (evs = [])) as [->|].
  - by exists log, snap.
Qed.

(** C37. The life of an event-sourced actor over the store in memory that takes one
    snapshot, at its beginning, and whose events all apply: every event is stored and
    answered, every restart recovers, and the state is always that of all events in
    order, whatever other actors do to the store.  With a later snapshot, or an event
    that does not apply, this is not so: [second_snapshot_loses_event],
    [restart_loses_events] and [refused_event_blocks_recovery] below. *)
Theorem sourced_state_survives (now : Z) (id : string) (st0 st : State) (s : InMemoryStateStore) (es : list LifeEvent) :
  id <> EmptyString -> s !! id = None -> zlen (events_of es) + 2 < 18446744073709551616 -> Forall (fun e => match e with LOther o => op_id o <> id | _ => True end) es ->
  apply_all st0 (events_of es) = Some st ->
  let '(answers, b, s') := foldl life_step (life_begin now id st0 s) es in
  Forall (fun r => r = RVal tt) answers /\ bh_state b = st /\
  forall now' initial, exists b', sourced_recover deserialize_state deserialize_event apply_event now' (behavior_new id initial) s' = (RVal tt, b') /\ bh_state b' = st /\ bh_last_event b' = bh_last_event b.
Proof.
  intros Hid Hs Hb Ho Hst. pose proof (life_begin_inv now id st0 s Hs Hid) as Hi. revert Hb Hst. change (events_of es) with ([] ++ events_of es).
  revert Hi. generalize (@nil Event). generalize (life_begin now id st0 s). induction Ho as [|e es He Hes IH]; intros x evs Hi Hb Hst.
  - simpl. unfold events_of in Hst. simpl in Hst. rewrite app_nil_r in Hst. destruct x as [[answers b] s'] eqn:Ex. split; [apply (li_answers _ _ _ _ Hi)|].
    pose proof (li_state _ _ _ _ Hi) as E0. simpl in E0. split; [congruence|]. intros now' initial.
    pose proof (restart_inv now' id st0 evs initial _ Hid Hi) as Hr. pose proof (li_id _ _ _ _ Hi) as Eid. simpl in Eid. unfold life_step in Hr. rewrite Eid in Hr.
    destruct (sourced_recover deserialize_state deserialize_event apply_event now' (behavior_new id initial) s') as [r b'] eqn:Er. exists b'.
    pose proof (li_answers _ _ _ _ Hr) as Ha. apply Forall_app in Ha as [_ Ha]. apply Forall_cons_1 in Ha as [-> _].
    pose proof (li_state _ _ _ _ Hr) as E1. pose proof (li_state _ _ _ _ Hi) as E2. pose proof (li_last _ _ _ _ Hr) as E3. pose proof (li_last _ _ _ _ Hi) as E4. simpl in E1, E2, E3, E4. rewrite E3, E4. split; [done|]. split; [congruence|done].
  - cbn [foldl]. destruct e as [nw ev|nw initial|o].
    + change (events_of (LEvent nw ev :: es)) with ([ev] ++ events_of es) in Hb, Hst. rewrite app_assoc in Hb, Hst. pose proof (zlen_nonneg (events_of es)) as H0.
      apply IH with (l := evs ++ [ev]); [|done|done]. apply event_inv; [done| |]; [rewrite apply_all_app in Hst; by destruct (apply_all st0 (evs ++ [ev]))|]. rewrite !zlen_app, zlen_cons, zlen_nil in Hb. lia.
    + apply IH with (l := evs); [by apply restart_inv|done|done].
    + apply IH with (l := evs); [|done|done]. destruct x as [[answers b] s']. destruct Hi as [H1 H2 H3 H4 H5]. split; try done. cbn [life_step fst snd]. by rewrite other_actor.
Qed.
End Life.
End Sourced.

(** ** Witnesses, and what goes wrong *)

(** A counter: its state and its events are one byte each. *)
Definition byte_of (n : Z) : list Z := [n].
Definition of_byte (bs : list Z) : option Z := match bs with [b] => Some b | _ => None end.
Definition calm : FileEnv := mkFileEnv 7 WriteOk None true INT64_MAX.
Definition torn : FileEnv := mkFileEnv 8 (WriteStops 9 false) None true INT64_MAX.

Definition demo_serialize (b : bool) : list Z := byte_of (if b then 1 else 0).
Definition demo_deserialize (bs : list Z) : option bool := (fun z => z =? 1) <$> of_byte bs.
Lemma snapshot_recovered_witness :
  exists b' s', behavior_snapshot demo_serialize calm (behavior_new "a" true) (reopen ∅) = (RVal tt, b', s') /\
  exists b2, durable_recover demo_deserialize calm (behavior_new "a" false) (foldl store_op s' [OpWrite torn "a" 1 [2]; OpWrite calm "a/b" 1 [0]; OpDelete calm "a/b"]) = (RVal tt, b2) /\ bh_state b2 = true.
Proof.
  pose (x := behavior_snapshot demo_serialize calm (behavior_new "a" true) (reopen ∅)). exists x.1.2, x.2. split; [reflexivity|].
  destruct (snapshot_recovered demo_serialize demo_deserialize ltac:(by intros [|]) ltac:(intros [|]; repeat constructor; lia) calm calm (behavior_new "a" true)
    x.1.2 (reopen ∅) x.2 [OpWrite torn "a" 1 [2]; OpWrite calm "a/b" 1 [0]; OpDelete calm "a/b"] false) as (b2 & E & H & _); [done|done|reflexivity| |by split_and!|exists b2; by split].
  split; [right; split; [done|]; intros r; by vm_compute|]. split; [left; by split|]. split; [|done]. split; [done|]. by apply (bool_decide_unpack _).
Defined.

Lemma snapshots_atomic_witness :
  exists s m, Crash.crash_run (reopen ∅) ∅ [Crash.DWrite calm "a" 1 [1; 2]; Crash.DCrash calm "a" 1 [3] 20; Crash.DWrite torn "a" 1 [4]] s m /\
    (forall r, file_load_latest_snapshot calm "a" s = RVal r -> m !! ["a"%string] = Some (sn_data r)).
Proof.
  destruct (Crash.snapshots_atomic [Crash.DWrite calm "a" 1 [1; 2]; Crash.DCrash calm "a" 1 [3] 20; Crash.DWrite torn "a" 1 [4]] ltac:(repeat constructor; simpl; unfold zlen; simpl; unfold INT64_MAX; lia)) as (s & m & Hr & Hl).
  exists s, m. split; [exact Hr|]. intros r E. specialize (Hl calm "a"%string eq_refl eq_refl ltac:(simpl; lia)). rewrite E in Hl. change (actor_dir "a") with ["a"%string] in Hl.
  destruct (m !! ["a"%string]) as [d|]; [|discriminate]. destruct Hl as (r' & Er & Ed & _). injection Er as <-. by rewrite Ed.
Defined.

Definition add_up (st e : Z) : Z * option FailureReason := (st + e, None).
Lemma sourced_state_survives_witness :
  bh_state (foldl (Sourced.life_step of_byte byte_of of_byte add_up) (Sourced.life_begin byte_of of_byte of_byte add_up 1 "a" 5 ∅)
              [Sourced.LEvent 2 10; Sourced.LRestart 3 0; Sourced.LOther (OpDelete 4 "b"); Sourced.LEvent 5 20]).1.2 = 35.
Proof.
  pose proof (Sourced.sourced_state_survives byte_of of_byte byte_of of_byte add_up ltac:(done) ltac:(done) 1 "a" 5 35 ∅
    [Sourced.LEvent 2 10; Sourced.LRestart 3 0; Sourced.LOther (OpDelete 4 "b"); Sourced.LEvent 5 20] ltac:(done) ltac:(done) ltac:(vm_compute; reflexivity) ltac:(by repeat constructor) eq_refl) as Hs.
  destruct (foldl _ _ _) as [[answers b] s]. destruct Hs as (_ & E & _). exact E.
Defined.

(** Deleting the state of an actor erases the snapshots of the actors whose identities
    it is a prefix of, as a path. *)
Lemma delete_erases_nested :
  let s := (file_write_snapshot calm "tenant-42/session-9" 1 [1] (reopen ∅)).2 in
  file_load_latest_snapshot calm "tenant-42/session-9" s = RVal (mkSnap "tenant-42/session-9" 0 1 0 0 [1] (crc32c [1])) /\
  (file_delete_state calm "tenant-42" s).1 = RVal tt /\
  file_load_latest_snapshot calm "tenant-42/session-9" (file_delete_state calm "tenant-42" s).2 = RErr FR_Unknown.
Proof. vm_compute. done. Qed.
(** Two identities may spell one path. *)
Lemma identities_share_directory : actor_dir "a//b" = actor_dir "a/b" /\ actor_dir "a/./b/" = actor_dir "a/b".
Proof. done. Qed.

(** The first event of an actor with no snapshot is refused: the store expects
    number 0, the behavior counts from 1. *)
Lemma first_event_refused {State Event} ser (apply : State -> Event -> State * option FailureReason) now id e st (s : InMemoryStateStore) :
  s !! id = None -> (persist_event ser apply now e (behavior_new id st) s).1.1 = RErr FR_Unknown.
Proof. intros Hs. unfold persist_event. simpl. unfold mem_append_event, mem_actor. rewrite Hs. reflexivity. Qed.

Definition add_total (st e : Z) : Z * option FailureReason := (st + e, None).
Definition sourced_run (es : list (Z + unit)) (b : Behavior Z) (s : InMemoryStateStore) : list (Result unit) * Behavior Z * InMemoryStateStore :=
  foldl (fun '(l, b, s) e =>
    match e with
    | inl ev => let '(r, b, s) := persist_event byte_of add_total 0 ev b s in (l ++ [r], b, s)
    | inr _ => let '(r, b, s) := behavior_snapshot byte_of 0 b s in (l ++ [r], b, s)
    end) ([], b, s) es.
(** An event after a second snapshot is answered and applied, but not stored, since
    the snapshot took its number: it is gone after a restart. *)
Lemma second_snapshot_loses_event :
  let '(answers, b, s) := sourced_run [inr tt; inl 1; inr tt; inl 2] (behavior_new "a" 0) ∅ in
  answers = [RVal tt; RVal tt; RVal tt; RVal tt] /\ bh_state b = 3 /\ bh_state (sourced_recover of_byte of_byte add_total 0 (behavior_new "a" 0) s).2 = 1.
Proof. vm_compute. done. Qed.
(** So are the events of an actor that was recovered from its second snapshot. *)
Lemma restart_loses_events :
  let '(_, b, s) := sourced_run [inr tt; inl 1; inl 1; inr tt] (behavior_new "a" 0) ∅ in
  let b := (sourced_recover of_byte of_byte add_total 0 (behavior_new "a" 0) s).2 in
  let '(answers, b, s) := sourced_run [inl 4; inl 8; inl 16] b s in
  answers = [RVal tt; RVal tt; RVal tt] /\ bh_state b = 30 /\ bh_state (sourced_recover of_byte of_byte add_total 0 (behavior_new "a" 0) s).2 = 2.
Proof. vm_compute. done. Qed.
(** An event that cannot be applied is stored all the same and stops every recovery. *)
Definition add_positive (st e : Z) : Z * option FailureReason := if e =? 0 then (st, Some FR_RejectedByPolicy) else (st + e, None).
Lemma refused_event_blocks_recovery :
  let '(_, b, s) := behavior_snapshot byte_of 0 (behavior_new "a" 0) (∅ : InMemoryStateStore) in
  let '(r, b, s) := persist_event byte_of add_positive 0 0 b s in
  r = RErr FR_RejectedByPolicy /\ (sourced_recover of_byte of_byte add_positive 0 (behavior_new "a" 0) s).1 = RErr FR_RejectedByPolicy.
Proof. vm_compute. done. Qed.

(** The check sum of [123456789] is not the CRC32C of it, [0xE3069283]. *)
Lemma checksum_is_not_crc32c : crc32c [49; 50; 51; 52; 53; 54; 55; 56; 57] <> 3808858755.
Proof. vm_compute. discriminate. Qed.
(** The numbers of a file store start again with the process. *)
Lemma file_sequences_restart :
  let s := (file_write_snapshot calm "a" 1 [1] (file_write_snapshot calm "a" 1 [0] (reopen ∅)).2).2 in
  sn_sequence <$> match (file_write_snapshot calm "a" 1 [2] s).1 with RVal r => Some r | _ => None end = Some 2 /\
  sn_sequence <$> match (file_write_snapshot calm "a" 1 [2] (reopen (fs_disk s))).1 with RVal r => Some r | _ => None end = Some 0.
Proof. vm_compute. done. Qed.
