(* ===== verification/TopologyBinary.v ===== *)
(** * Topologies in binary form

    [config/binary_serializer.cpp] and [config/binary_loader.cpp]: the writer with its
    table of strings, the layout of [binary_format.hpp] with the padding that the
    compiler adds, and the loader over the bytes of the mapped file.  A string is the
    list of its bytes, a [double] its 64 bits, an enumeration its number.  What the
    format leaves out of a system and of an actor is a parameter with a default.  The
    file is mapped in pages of 4096 bytes, the last one filled with zeros; a read
    outside them, which the loader does not check for, has no answer. *)

From S2P Require Import Prelude.
From stdpp Require Import base numbers list list_numbers gmap.

#[local] Open Scope Z_scope.

(** ** The model *)

Record TraceSettings := mkTrace {
  tc_enabled : bool; tc_propagate_unsampled : bool; tc_ring_buffer_capacity : Z; tc_sampler : Z; tc_exporter : Z; tc_sample_ratio : Z;
  tc_export_interval_ms : Z; tc_max_export_batch_size : Z; tc_max_tracestate_len : Z; tc_service_name : list Z; tc_otlp_endpoint : list Z; tc_json_file_path : list Z }.
Record SystemDef := mkSystem {
  sd_version : list Z; sd_scheduler_threads : Z; sd_max_queue_depth : Z; sd_enable_network : bool; sd_tcp_port : Z; sd_spawn_timeout_ms : Z; sd_enable_http_gateway : bool;
  sd_http_port : Z; sd_http_bind_host : list Z; sd_http_max_connections : Z; sd_http_max_request_size : Z; sd_http_reply_timeout_ms : Z; sd_default_mailbox_size : Z;
  sd_use_coroutines : bool; sd_tracing : TraceSettings }.
Record DispatcherDef := mkDispatcher { dd_name : list Z; dd_threads : Z; dd_cpu_affinity : list Z }.

Section Topology.
Context {SystemRest ActorRest : Type} (system_rest : SystemRest) (actor_rest : ActorRest).

(** [ad_args]: the arguments in the order in which the map is walked. *)
Record ActorEntry := mkActor {
  ad_id : list Z; ad_behavior : list Z; ad_supervisor : list Z; ad_dispatcher : list Z; ad_dispatch_policy : Z; ad_mailbox_capacity : Z;
  ad_slab_class_bytes : Z; ad_max_memory_kb : Z; ad_args : list (list Z * list Z); ad_rest : ActorRest }.
Record TopologyModel := mkTopology { tm_system : SystemDef; tm_system_rest : SystemRest; tm_dispatchers : list DispatcherDef; tm_actors : list ActorEntry }.
End Topology.
Arguments ActorEntry : clear implicits.
Arguments TopologyModel : clear implicits.

(** ** Structures in memory: widths and values, in order *)

Definition encode_fields (fs : list (nat * Z)) : list Z := concat ((fun '(w, v) => Z_to_little_endian (Z.of_nat w) 8 v) <$> fs).
Fixpoint decode_fields (ws : list nat) (bs : list Z) : list Z :=
  match ws with [] => [] | w :: ws => little_endian_to_Z 8 (take w bs) :: decode_fields ws (drop w bs) end.
Definition size_of (ws : list nat) : nat := sum_list ws.

Definition slice (f : list Z) (off : Z) (n : nat) : option (list Z) := if (0 <=? off) && (off + Z.of_nat n <=? zlen f) then Some (take n (drop (Z.to_nat off) f)) else None.
Definition read_struct (ws : list nat) (f : list Z) (off : Z) : option (list Z) := decode_fields ws <$> slice f off (size_of ws).

Definition header_layout : list nat := [4; 4; 4; 4; 4; 4; 4; 4; 4]%nat.
(** [BinarySystemDef], with 2 bytes of padding after [http_port], 4 before the [double] and 4 at the end. *)
Definition system_layout : list nat := [4; 4; 4; 4; 2; 2; 4; 4; 2; 2; 4; 4; 4; 4; 4; 4; 4; 4; 4; 4; 4; 4; 8; 4; 4; 2; 2; 4; 4; 4; 4; 4]%nat.
Definition dispatcher_layout : list nat := [4; 2; 2; 4]%nat.
(** [BinaryActorDef], with 3 bytes of padding after [dispatch_policy] and 2 after [args_count]. *)
Definition actor_layout : list nat := [4; 4; 4; 4; 1; 3; 4; 4; 4; 2; 2; 4]%nat.
Definition kv_layout : list nat := [4; 4]%nat.

Definition TOPOLOGY_BINARY_MAGIC : Z := 1213219156.
Definition low16 (z : Z) : Z := z mod 65536.
Definition of_bool (b : bool) : Z := if b then 1 else 0.

(** ** [BinaryWriter] *)

Record BinaryWriter := mkWriter { bw_buf : list Z; bw_string_table : list Z; bw_string_map : gmap (list Z) Z }.
Definition writer_new : BinaryWriter := mkWriter [] [0] ∅.

Definition add_string (s : list Z) (w : BinaryWriter) : Z * BinaryWriter :=
  match s with
  | [] => (0, w)
  | _ =>
      match bw_string_map w !! s with
      | Some off => (off, w)
      | None =>
          let offset := u32 (zlen (bw_string_table w)) in
          (offset, mkWriter (bw_buf w) (bw_string_table w ++ s ++ [0]) (<[s := offset]> (bw_string_map w)))
      end
  end.
Definition current_offset (w : BinaryWriter) : Z := u32 (zlen (bw_buf w)).
Definition write_bytes (data : list Z) (w : BinaryWriter) : Z * BinaryWriter := (current_offset w, mkWriter (bw_buf w ++ data) (bw_string_table w) (bw_string_map w)).
Definition write_struct (ws : list nat) (vs : list Z) (w : BinaryWriter) : Z * BinaryWriter := write_bytes (encode_fields (zip ws vs)) w.

(** [finalize] and the patch of the header. *)
Definition finalize (header : list Z -> list Z) (w : BinaryWriter) : list Z :=
  encode_fields (zip header_layout (header [u32 (zlen (bw_buf w)); u32 (zlen (bw_string_table w))])) ++ drop (size_of header_layout) (bw_buf w ++ bw_string_table w).

(** ** [serialize_topology] *)

Definition write_system (sys : SystemDef) (w : BinaryWriter) : Z * BinaryWriter :=
  let tr := sd_tracing sys in
  let '(version_offset, w) := add_string (sd_version sys) w in
  let '(http_bind_host, w) := add_string (sd_http_bind_host sys) w in
  let '(service, w) := add_string (tc_service_name tr) w in
  let '(otlp, w) := add_string (tc_otlp_endpoint tr) w in
  let '(json, w) := add_string (tc_json_file_path tr) w in
  write_struct system_layout
    [sd_scheduler_threads sys; sd_max_queue_depth sys; sd_default_mailbox_size sys; of_bool (sd_enable_network sys); sd_tcp_port sys; 0; sd_spawn_timeout_ms sys;
     of_bool (sd_enable_http_gateway sys); sd_http_port sys; 0; sd_http_max_connections sys; sd_http_max_request_size sys; sd_http_reply_timeout_ms sys;
     of_bool (sd_use_coroutines sys); version_offset; http_bind_host; of_bool (tc_enabled tr); of_bool (tc_propagate_unsampled tr); tc_ring_buffer_capacity tr;
     tc_sampler tr; tc_exporter tr; 0; tc_sample_ratio tr; u32 (tc_export_interval_ms tr); tc_max_export_batch_size tr; tc_max_tracestate_len tr; 0; 0; service; otlp; json; 0] w.

Definition write_dispatcher (w : BinaryWriter) (d : DispatcherDef) : BinaryWriter :=
  let '(name_offset, w) := add_string (dd_name d) w in
  let '(affinity_offset, w) := match dd_cpu_affinity d with [] => (0, w) | aff => write_bytes aff w end in
  (write_struct dispatcher_layout [name_offset; dd_threads d; low16 (zlen (dd_cpu_affinity d)); affinity_offset] w).2.

Definition write_arg (w : BinaryWriter) (kv : list Z * list Z) : BinaryWriter :=
  let '(key_offset, w) := add_string kv.1 w in
  let '(value_offset, w) := add_string kv.2 w in (write_struct kv_layout [key_offset; value_offset] w).2.

Definition write_actor {R} (w : BinaryWriter) (a : ActorEntry R) : BinaryWriter :=
  let '(id, w) := add_string (ad_id a) w in
  let '(behavior, w) := add_string (ad_behavior a) w in
  let '(supervisor, w) := add_string (ad_supervisor a) w in
  let '(dispatcher, w) := add_string (ad_dispatcher a) w in
  let args_offset := match ad_args a with [] => 0 | _ => u32 (current_offset w + Z.of_nat (size_of actor_layout)) end in
  let w := (write_struct actor_layout [id; behavior; supervisor; dispatcher; ad_dispatch_policy a; 0; ad_mailbox_capacity a; ad_slab_class_bytes a; ad_max_memory_kb a;
                                       low16 (zlen (ad_args a)); 0; args_offset] w).2 in
  foldl write_arg w (ad_args a).

Definition serialize_topology {R Q} (m : TopologyModel R Q) : list Z :=
  let w := (write_struct header_layout [0; 0; 0; 0; 0; 0; 0; 0; 0] writer_new).2 in
  let '(system_offset, w) := write_system (tm_system m) w in
  let dispatchers_offset := current_offset w in
  let w := foldl write_dispatcher w (tm_dispatchers m) in
  let actors_offset := current_offset w in
  let w := foldl write_actor w (tm_actors m) in
  finalize (fun tail => [TOPOLOGY_BINARY_MAGIC; 1; system_offset; u32 (zlen (tm_dispatchers m)); dispatchers_offset; u32 (zlen (tm_actors m)); actors_offset] ++ tail) w.

(** ** [load_binary_topology] *)

Fixpoint c_string (bs : list Z) : option (list Z) := match bs with [] => None | b :: bs => if b =? 0 then Some [] else cons b <$> c_string bs end.
Definition str_at (f : list Z) (table off : Z) : option (list Z) := if off =? 0 then Some [] else c_string (drop (Z.to_nat (table + off)) f).
Definition to_bool (z : Z) : bool := negb (z =? 0).

Definition load_system (f : list Z) (table off : Z) : option SystemDef :=
  match read_struct system_layout f off with
  | Some [threads; depth; mailbox; network; tcp; _; spawn; gateway; port; _; conns; reqsize; reply; coro; version; host; enabled; propagate; ring; sampler; exporter; _; ratio;
          interval; batch; statelen; _; _; service; otlp; json; _] =>
      version ← str_at f table version; host ← str_at f table host; service ← str_at f table service; otlp ← str_at f table otlp; json ← str_at f table json;
      Some (mkSystem version threads depth (to_bool network) tcp spawn (to_bool gateway) port host conns reqsize reply mailbox (to_bool coro)
              (mkTrace (to_bool enabled) (to_bool propagate) ring (u8 sampler) (u8 exporter) ratio interval batch statelen service otlp json))
  | _ => None
  end.

Definition load_dispatcher (f : list Z) (table off : Z) : option DispatcherDef :=
  match read_struct dispatcher_layout f off with
  | Some [name; threads; count; aff] =>
      name ← str_at f table name;
      affinity ← (if (0 <? count) && negb (aff =? 0) then slice f aff (Z.to_nat count) else Some []);
      Some (mkDispatcher name threads affinity)
  | _ => None
  end.

Definition load_arg (f : list Z) (table off : Z) : option (list Z * list Z) :=
  match read_struct kv_layout f off with
  | Some [k; v] => k ← str_at f table k; v ← str_at f table v; Some (k, v)
  | _ => None
  end.

(** An array of records of one size. *)
Fixpoint load_array {A} (load : Z -> option A) (size : Z) (n : nat) (off : Z) : option (list A) :=
  match n with O => Some [] | S n => x ← load off; xs ← load_array load size n (off + size); Some (x :: xs) end.

(** [def.args[key] = value], in the order of the file. *)
Definition set_arg (l : list (list Z * list Z)) (kv : list Z * list Z) : list (list Z * list Z) := filter (fun x => x.1 <> kv.1) l ++ [kv].

Definition load_actor {R} (rest : R) (f : list Z) (table off : Z) : option (ActorEntry R) :=
  match read_struct actor_layout f off with
  | Some [id; behavior; supervisor; dispatcher; policy; _; mailbox; slab; memory; count; _; args] =>
      id ← str_at f table id; behavior ← str_at f table behavior; supervisor ← str_at f table supervisor; dispatcher ← str_at f table dispatcher;
      kvs ← (if (0 <? count) && negb (args =? 0) then load_array (load_arg f table) (Z.of_nat (size_of kv_layout)) (Z.to_nat count) args else Some []);
      Some (mkActor id behavior supervisor dispatcher policy mailbox slab memory (foldl set_arg [] kvs) rest)
  | _ => None
  end.

Inductive LoadResult (M : Type) := Loaded (m : M) | LoadError | ReadsOutside.
Arguments Loaded {M} m.
Arguments LoadError {M}.
Arguments ReadsOutside {M}.

Definition load_tables {R Q} (srest : R) (arest : Q) (f : list Z) (system_offset dispatcher_count dispatchers_offset actor_count actors_offset table : Z) : option (TopologyModel R Q) :=
  sys ← load_system f table system_offset;
  ds ← load_array (load_dispatcher f table) (Z.of_nat (size_of dispatcher_layout)) (Z.to_nat dispatcher_count) dispatchers_offset;
  acts ← load_array (load_actor arest f table) (Z.of_nat (size_of actor_layout)) (Z.to_nat actor_count) actors_offset;
  Some (mkTopology sys srest ds acts).

(** The mapping of the file. *)
Definition map_pages (bs : list Z) : list Z := bs ++ replicate (Z.to_nat ((- zlen bs) mod 4096)) 0.

(** [file]: the bytes, when the file can be opened; an empty one cannot be mapped. *)
Definition load_binary_topology {R Q} (srest : R) (arest : Q) (file : option (list Z)) : LoadResult (TopologyModel R Q) :=
  match file with
  | None | Some [] => LoadError
  | Some bs =>
      let f := map_pages bs in
      match read_struct header_layout f 0 with
      | Some [magic; _; system_offset; dispatcher_count; dispatchers_offset; actor_count; actors_offset; table; _] =>
          if negb (magic =? TOPOLOGY_BINARY_MAGIC) then LoadError
          else match load_tables srest arest f system_offset dispatcher_count dispatchers_offset actor_count actors_offset table with Some m => Loaded m | None => ReadsOutside end
      | _ => ReadsOutside
      end
  end.

(** ** Structures *)

Lemma encode_cons w v fs : encode_fields ((w, v) :: fs) = Z_to_little_endian (Z.of_nat w) 8 v ++ encode_fields fs.
Proof. done. Qed.
Lemma le_length w v : length (Z_to_little_endian (Z.of_nat w) 8 v) = w.
Proof. pose proof (length_Z_to_little_endian (Z.of_nat w) 8 v ltac:(lia)). lia. Qed.
Lemma encode_length ws : forall vs, length ws = length vs -> length (encode_fields (zip ws vs)) = size_of ws.
Proof.
  induction ws as [|w ws IH]; intros [|v vs] Hl; try done. cbn [zip zip_with]. change (zip_with pair ws vs) with (zip ws vs). rewrite encode_cons, length_app, le_length, IH by (by injection Hl). done.
Qed.
Definition field_fits (w : nat) (v : Z) : Prop := 0 <= v < 2 ^ (Z.of_nat w * 8).
Lemma decode_encode ws vs rest : Forall2 field_fits ws vs -> decode_fields ws (encode_fields (zip ws vs) ++ rest) = vs.
Proof.
  induction 1 as [|w v ws vs Hv _ IH]; [done|]. cbn [zip zip_with decode_fields]. change (zip_with pair ws vs) with (zip ws vs). rewrite encode_cons, <- app_assoc.
  rewrite <- (le_length w v) at 1 3. rewrite take_app_length, drop_app_length, IH. rewrite little_endian_to_Z_to_little_endian by lia. unfold field_fits in Hv. by rewrite Z.mod_small.
Qed.
Lemma slice_app pre mid post : slice (pre ++ mid ++ post) (zlen pre) (length mid) = Some mid.
Proof.
  unfold slice. pose proof (zlen_nonneg pre). pose proof (zlen_nonneg post). rewrite !zlen_app. rewrite (proj2 (Z.leb_le 0 _)), (proj2 (Z.leb_le _ _)) by (unfold zlen in *; lia). simpl.
  replace (Z.to_nat (zlen pre)) with (length pre) by (unfold zlen; lia). by rewrite drop_app_length, take_app_length.
Qed.
Lemma read_struct_app ws vs pre post : Forall2 field_fits ws vs -> read_struct ws (pre ++ encode_fields (zip ws vs) ++ post) (zlen pre) = Some vs.
Proof.
  intros Hf. unfold read_struct. rewrite <- (encode_length ws vs) by (by eapply Forall2_length). rewrite slice_app. simpl. f_equal.
  rewrite <- (app_nil_r (encode_fields _)). by apply decode_encode.
Qed.

(** ** The table of strings *)

Definition no_nul (s : list Z) : Prop := Forall (fun b => b <> 0) s.
Lemma c_string_nul s rest : no_nul s -> c_string (s ++ 0 :: rest) = Some s.
Proof. induction 1 as [|b s Hb _ IH]; [done|]. simpl. rewrite (proj2 (Z.eqb_neq b 0) Hb), IH. done. Qed.
Lemma c_string_more bs : forall s rest, c_string bs = Some s -> c_string (bs ++ rest) = Some s.
Proof.
  induction bs as [|b bs IH]; intros s rest E; [done|]. simpl in *. destruct (b =? 0); [done|]. destruct (c_string bs) as [t|] eqn:Et; [|done]. by rewrite (IH t rest).
Qed.

Definition word (z : Z) : Prop := 0 <= z < 4294967296.
(** [off] names [s] in the table. *)
Definition str_ok (tbl s : list Z) (off : Z) : Prop :=
  word off /\ if decide (off = 0) then s = [] else off <= zlen tbl /\ c_string (drop (Z.to_nat off) tbl) = Some s.
Lemma str_ok_app tbl x s off : str_ok tbl s off -> str_ok (tbl ++ x) s off.
Proof.
  intros [Hw Hs]. split; [done|]. destruct (decide (off = 0)); [done|]. destruct Hs as [Hl Hs]. pose proof (zlen_nonneg x). split; [rewrite zlen_app; lia|].
  rewrite drop_app_le by (unfold zlen in Hl; unfold word in Hw; lia). by apply c_string_more.
Qed.

(** The table, at [T] in the file. *)
Definition has_table (f tbl : list Z) (T : Z) : Prop := 0 <= T /\ exists post, drop (Z.to_nat T) f = tbl ++ post.
Lemma str_at_ok f tbl T s off : has_table f tbl T -> str_ok tbl s off -> str_at f T off = Some s.
Proof.
  intros [HT [post Hp]] [Hw Hs]. unfold str_at. destruct (decide (off = 0)) as [->|Hn]; [by rewrite Hs|]. rewrite (proj2 (Z.eqb_neq _ _) Hn).
  unfold word in Hw. destruct Hs as [Hl Hs]. rewrite Z2Nat.inj_add by lia. rewrite <- drop_drop, Hp.
  rewrite drop_app_le by (unfold zlen in Hl; lia). by apply c_string_more.
Qed.

(** ** The writer *)

Record writer_ok (w : BinaryWriter) : Prop := mkWriterOk {
  wo_table : 0 < zlen (bw_string_table w);
  wo_map : map_Forall (fun s off => str_ok (bw_string_table w) s off) (bw_string_map w)
}.
Definition bounded (w : BinaryWriter) : Prop := zlen (bw_buf w) + zlen (bw_string_table w) < 4294967296.
(** [w'] is [w] with [bs] written and a longer table. *)
Definition wrote (w : BinaryWriter) (bs : list Z) (w' : BinaryWriter) : Prop := bw_buf w' = bw_buf w ++ bs /\ exists x, bw_string_table w' = bw_string_table w ++ x.

Lemma wrote_refl w : wrote w [] w.
Proof. split; [by rewrite app_nil_r|]. exists []. by rewrite app_nil_r. Qed.
Lemma wrote_trans w1 w2 w3 a b : wrote w1 a w2 -> wrote w2 b w3 -> wrote w1 (a ++ b) w3.
Proof. intros [Hb [x Hx]] [Hb' [y Hy]]. split; [by rewrite Hb', Hb, app_assoc|]. exists (x ++ y). by rewrite Hy, Hx, app_assoc. Qed.
Lemma wrote_bounded w bs w' : wrote w bs w' -> bounded w' -> bounded w.
Proof. intros [Hb [x Hx]]. unfold bounded. rewrite Hb, Hx, !zlen_app. pose proof (zlen_nonneg bs). pose proof (zlen_nonneg x). lia. Qed.
Lemma wrote_str w bs w' s off : wrote w bs w' -> str_ok (bw_string_table w) s off -> str_ok (bw_string_table w') s off.
Proof. intros [_ [x ->]]. apply str_ok_app. Qed.

Lemma add_string_wrote s w : wrote w [] (add_string s w).2.
Proof.
  unfold add_string. destruct s as [|b s]; [apply wrote_refl|]. destruct (bw_string_map w !! _); [apply wrote_refl|]. split; simpl; [by rewrite app_nil_r|by eexists].
Qed.
Lemma add_string_ok s w : writer_ok w -> no_nul s -> bounded (add_string s w).2 -> writer_ok (add_string s w).2 /\ str_ok (bw_string_table (add_string s w).2) s (add_string s w).1.
Proof.
  intros [H0 Hm] Hs. unfold add_string. destruct s as [|b s]; [intros _; split; [done|]; by split; [unfold word; simpl; lia|]|]. destruct (bw_string_map w !! (b :: s)) as [off|] eqn:E; intros Hb.
  { split; [done|]. by apply Hm. }
  unfold bounded in Hb. simpl in Hb. rewrite zlen_app in Hb. pose proof (zlen_nonneg (bw_buf w)). pose proof (zlen_nonneg (b :: s ++ [0])). cbn [fst snd].
  assert (Hn : str_ok (bw_string_table w ++ (b :: s) ++ [0]) (b :: s) (u32 (zlen (bw_string_table w)))).
  { rewrite u32_small by lia. split; [unfold word; lia|]. rewrite decide_False by lia. split; [rewrite zlen_app; pose proof (zlen_nonneg ((b :: s) ++ [0])); lia|].
    replace (Z.to_nat (zlen (bw_string_table w))) with (length (bw_string_table w)) by (unfold zlen; lia). rewrite drop_app_length. by apply c_string_nul. }
  split; [|exact Hn]. split; simpl; [rewrite zlen_app; lia|]. apply map_Forall_insert_2; [exact Hn|]. eapply map_Forall_impl; [exact Hm|]. intros t off Ht. by apply str_ok_app.
Qed.
Lemma add_string_split s w : exists off w', add_string s w = (off, w') /\ wrote w [] w' /\
  (writer_ok w -> no_nul s -> bounded w' -> writer_ok w' /\ str_ok (bw_string_table w') s off).
Proof.
  pose proof (add_string_wrote s w) as H1. pose proof (add_string_ok s w) as H2. destruct (add_string s w) as [off w']. exists off, w'. split; [done|]. split; [done|]. intros. by apply H2.
Qed.
Lemma write_wrote ws vs w : wrote w (encode_fields (zip ws vs)) (write_struct ws vs w).2.
Proof. split; [done|]. exists []. simpl. by rewrite app_nil_r. Qed.
Lemma write_ok ws vs w : writer_ok w -> writer_ok (write_struct ws vs w).2.
Proof. by intros [H0 Hm]. Qed.
Lemma wrote_nil w1 w2 w3 b : wrote w1 [] w2 -> wrote w2 b w3 -> wrote w1 b w3.
Proof. apply (wrote_trans w1 w2 w3 []). Qed.

(** Take the strings of a record one after the other. *)
Ltac take_string off w Hw Hok := match goal with |- context [add_string ?s ?w0] => let E := fresh "E" in destruct (add_string_split s w0) as (off & w & E & Hw & Hok); rewrite E; clear E end.

(** *** Records, as their bytes and the table say *)

Definition dispatcher_wf (d : DispatcherDef) : Prop := no_nul (dd_name d) /\ 0 <= dd_threads d < 65536 /\ dd_cpu_affinity d = [].
Definition dispatcher_rec (tbl : list Z) (d : DispatcherDef) (r : list Z) : Prop :=
  exists off, str_ok tbl (dd_name d) off /\ r = encode_fields (zip dispatcher_layout [off; dd_threads d; 0; 0]).
Definition arg_wf (kv : list Z * list Z) : Prop := no_nul kv.1 /\ no_nul kv.2.
Definition arg_rec (tbl : list Z) (kv : list Z * list Z) (r : list Z) : Prop :=
  exists k v, str_ok tbl kv.1 k /\ str_ok tbl kv.2 v /\ r = encode_fields (zip kv_layout [k; v]).

(** Writing one record of a kind, and what it takes to be written well. *)
Definition writes_well {A} (step : BinaryWriter -> A -> BinaryWriter) (wf : A -> Prop) (rec : list Z -> A -> list Z -> Prop) : Prop :=
  (forall w a, exists bs, wrote w bs (step w a)) /\
  (forall w a, writer_ok w -> wf a -> bounded (step w a) -> writer_ok (step w a) /\ exists r, wrote w r (step w a) /\ rec (bw_string_table (step w a)) a r) /\
  (forall tbl x a r, rec tbl a r -> rec (tbl ++ x) a r).

Lemma dispatcher_writes : writes_well write_dispatcher dispatcher_wf dispatcher_rec.
Proof.
  split_and!.
  - intros w d. unfold write_dispatcher. take_string off w1 Hw Hok. destruct (dd_cpu_affinity d) as [|b l]; [eexists; eapply wrote_nil; [exact Hw|apply write_wrote]|].
    eexists. eapply wrote_nil; [exact Hw|]. eapply wrote_trans; [|apply write_wrote]. split; [done|]. exists []. simpl. by rewrite app_nil_r.
  - intros w d Hok (Hn & Ht & Ha). unfold write_dispatcher. take_string off w1 Hw Hs. rewrite Ha. intros Hb. destruct (Hs Hok Hn) as [Hok1 Ho]; [eapply wrote_bounded; [apply write_wrote|exact Hb]|].
    split; [by apply write_ok|]. eexists. split; [eapply wrote_nil; [exact Hw|apply write_wrote]|]. by exists off.
  - intros tbl x d r (off & Hs & Hr). exists off. split; [by apply str_ok_app|done].
Qed.
Lemma arg_writes : writes_well write_arg arg_wf arg_rec.
Proof.
  split_and!.
  - intros w [k v]. unfold write_arg. take_string ko w1 Hw Hok. take_string vo w2 Hw2 Hok2. eexists. eapply wrote_nil; [exact Hw|]. eapply wrote_nil; [exact Hw2|apply write_wrote].
  - intros w [k v] Hok [Hk Hv]. unfold write_arg. take_string ko w1 Hw Hs. take_string vo w2 Hw2 Hs2. simpl in Hk, Hv. intros Hb. assert (Hb2 : bounded w2) by (eapply wrote_bounded; [apply write_wrote|exact Hb]).
    destruct (Hs Hok Hk) as [Hok1 Ho]; [by apply (wrote_bounded w1 [] w2)|]. destruct (Hs2 Hok1 Hv Hb2) as [Hok2 Ho2]. split; [by apply write_ok|].
    eexists. split; [eapply wrote_nil; [exact Hw|]; eapply wrote_nil; [exact Hw2|apply write_wrote]|]. exists ko, vo. split; [exact (wrote_str _ _ _ _ _ Hw2 Ho)|done].
  - intros tbl x kv r (k & v & Hk & Hv & Hr). exists k, v. split_and!; [by apply str_ok_app|by apply str_ok_app|done].
Qed.

(** A list of records is written one after the other. *)
Lemma fold_wrote {A} step wf rec (l : list A) : writes_well step wf rec -> forall w, exists bs, wrote w bs (foldl step w l).
Proof.
  intros (H1 & _ & _). induction l as [|a l IH]; intros w; [exists []; apply wrote_refl|]. simpl. destruct (H1 w a) as [bs Hb]. destruct (IH (step w a)) as [cs Hc]. exists (bs ++ cs). by eapply wrote_trans.
Qed.
Lemma fold_writes {A} step wf rec (l : list A) : writes_well step wf rec -> forall w, writer_ok w -> Forall wf l -> bounded (foldl step w l) ->
  writer_ok (foldl step w l) /\ exists rs, wrote w (concat rs) (foldl step w l) /\ Forall2 (rec (bw_string_table (foldl step w l))) l rs.
Proof.
  intros Hw. pose proof Hw as (H1 & H2 & H3). induction l as [|a l IH]; intros w Hok Hf Hb; [split; [done|]; exists []; split; [apply wrote_refl|constructor]|].
  simpl in Hb |- *. apply Forall_cons_1 in Hf as [Ha Hf]. destruct (fold_wrote step wf rec l Hw (step w a)) as [bs Hbs].
  destruct (H2 w a Hok Ha) as [Hok1 (r & Hr & Hrec)]; [eapply wrote_bounded; [exact Hbs|exact Hb]|]. destruct (IH (step w a) Hok1 Hf Hb) as [Hok2 (rs & Hrs & Hrecs)].
  split; [done|]. exists (r :: rs). split; [simpl; by eapply wrote_trans|]. constructor; [|done]. destruct Hrs as [_ [x ->]]. by apply H3.
Qed.

(** ** The loader *)

(** Records that load, of one size, load as an array. *)
Lemma load_array_ok {A B} (load : Z -> option B) (size : nat) (f tail : list Z) (l : list A) (g : A -> B) rs :
  Forall2 (fun a r => length r = size /\ forall pre post, f = pre ++ r ++ post -> load (zlen pre) = Some (g a)) l rs ->
  forall pre, f = pre ++ concat rs ++ tail -> load_array load (Z.of_nat size) (length l) (zlen pre) = Some (g <$> l).
Proof.
  induction 1 as [|a r l rs [Hl Ha] _ IH]; intros pre Ef; [done|]. simpl. simpl in Ef. rewrite <- app_assoc in Ef. rewrite (Ha pre _ Ef). simpl.
  specialize (IH (pre ++ r)). replace (zlen pre + Z.of_nat size) with (zlen (pre ++ r)) by (rewrite zlen_app; unfold zlen; lia).
  rewrite IH; [done|]. by rewrite <- app_assoc.
Qed.
Lemma load_array_snoc {B} (load : Z -> option B) size n l y : forall off, load_array load size n off = Some l -> load (off + Z.of_nat n * size) = Some y -> load_array load size (S n) off = Some (l ++ [y]).
Proof.
  revert l. induction n as [|n IH]; intros l off El Ey; [injection El as <-; simpl; replace off with (off + Z.of_nat 0 * size) by lia; by rewrite Ey|].
  change (load_array load size (S (S n)) off) with (x ← load off; xs ← load_array load size (S n) (off + size); Some (x :: xs)). simpl in El.
  destruct (load off) as [x|]; [|discriminate]. simpl in El |- *. destruct (load_array load size n (off + size)) as [xs|] eqn:Ex; [|discriminate]. injection El as <-.
  assert (E : load_array load size (S n) (off + size) = Some (xs ++ [y])) by (apply IH; [done|]; replace (off + size + Z.of_nat n * size) with (off + Z.of_nat (S n) * size) by lia; done).
  simpl in E. by rewrite E.
Qed.

Lemma fits_4 v : word v -> field_fits 4 v.
Proof. done. Qed.
Lemma fits_2 v : 0 <= v < 65536 -> field_fits 2 v.
Proof. done. Qed.
Lemma fits_1 v : 0 <= v < 256 -> field_fits 1 v.
Proof. done. Qed.
Lemma fits_8 v : 0 <= v < 18446744073709551616 -> field_fits 8 v.
Proof. done. Qed.
Lemma fits_0 w : field_fits w 0.
Proof. split; [lia|]. apply Z.pow_pos_nonneg; lia. Qed.
Lemma str_word tbl s off : str_ok tbl s off -> word off.
Proof. by intros [? _]. Qed.
Lemma of_bool_word b : word (of_bool b).
Proof. destruct b; unfold word; simpl; lia. Qed.
Lemma to_of_bool b : to_bool (of_bool b) = b.
Proof. by destruct b. Qed.
#[local] Hint Resolve fits_4 fits_2 fits_1 fits_8 fits_0 str_word of_bool_word : field_fits.
Ltac layout := repeat (apply List.Forall2_cons; [first [eapply fits_4, str_word; eassumption | eauto with field_fits]|]); try apply List.Forall2_nil.

Lemma dispatcher_loads f tbl T d r : has_table f tbl T -> dispatcher_wf d -> dispatcher_rec tbl d r ->
  length r = size_of dispatcher_layout /\ forall pre post, f = pre ++ r ++ post -> load_dispatcher f T (zlen pre) = Some d.
Proof.
  intros Ht (Hn & Hth & Ha) (off & Ho & ->). split; [by apply encode_length|]. intros pre post Ef. unfold load_dispatcher. rewrite Ef at 1. rewrite read_struct_app by (unfold dispatcher_layout; layout).
  rewrite (str_at_ok f tbl T _ _ Ht Ho). simpl. destruct d; simpl in *. by rewrite Ha.
Qed.
Lemma arg_loads f tbl T kv r : has_table f tbl T -> arg_rec tbl kv r ->
  length r = size_of kv_layout /\ forall pre post, f = pre ++ r ++ post -> load_arg f T (zlen pre) = Some kv.
Proof.
  intros Ht (k & v & Hk & Hv & ->). split; [by apply encode_length|]. intros pre post Ef. unfold load_arg. rewrite Ef at 1. rewrite read_struct_app by (unfold kv_layout; layout).
  rewrite (str_at_ok f tbl T _ _ Ht Hk), (str_at_ok f tbl T _ _ Ht Hv). by destruct kv.
Qed.

(** *** Actors *)

Definition actor_wf {Q} (a : ActorEntry Q) : Prop :=
  (no_nul (ad_id a) /\ no_nul (ad_behavior a) /\ no_nul (ad_supervisor a) /\ no_nul (ad_dispatcher a)) /\
  (0 <= ad_dispatch_policy a < 256 /\ word (ad_mailbox_capacity a) /\ word (ad_slab_class_bytes a) /\ word (ad_max_memory_kb a)) /\
  zlen (ad_args a) < 65536 /\ Forall arg_wf (ad_args a) /\ NoDup (ad_args a).*1.
Definition actor_rec {Q} (args : Z) (tbl : list Z) (a : ActorEntry Q) (r : list Z) : Prop :=
  exists i b s d, str_ok tbl (ad_id a) i /\ str_ok tbl (ad_behavior a) b /\ str_ok tbl (ad_supervisor a) s /\ str_ok tbl (ad_dispatcher a) d /\
    r = encode_fields (zip actor_layout [i; b; s; d; ad_dispatch_policy a; 0; ad_mailbox_capacity a; ad_slab_class_bytes a; ad_max_memory_kb a; zlen (ad_args a); 0; args]).
Lemma actor_rec_app {Q} args tbl x (a : ActorEntry Q) r : actor_rec args tbl a r -> actor_rec args (tbl ++ x) a r.
Proof. intros (i & b & s & d & ? & ? & ? & ? & ->). exists i, b, s, d. split_and!; [by apply str_ok_app..|done]. Qed.
Definition args_at {Q} (w : BinaryWriter) (a : ActorEntry Q) : Z := match ad_args a with [] => 0 | _ => zlen (bw_buf w) + 40 end.

Lemma write_actor_split {Q} w (a : ActorEntry Q) : exists w1 w2 r, write_actor w a = foldl write_arg w2 (ad_args a) /\ wrote w [] w1 /\ wrote w1 r w2 /\
  (writer_ok w -> actor_wf a -> bounded w2 -> writer_ok w2 /\ actor_rec (args_at w a) (bw_string_table w2) a r /\ length r = 40%nat).
Proof.
  unfold write_actor. take_string i w1 Hw1 Hs1. take_string b w2 Hw2 Hs2. take_string s w3 Hw3 Hs3. take_string d w4 Hw4 Hs4.
  set (vs := [i; b; s; d; _; _; _; _; _; _; _; _]). exists w4, (write_struct actor_layout vs w4).2, (encode_fields (zip actor_layout vs)). split; [done|].
  assert (H14 : wrote w [] w4) by (eapply wrote_nil; [exact Hw1|]; eapply wrote_nil; [exact Hw2|]; eapply wrote_nil; [exact Hw3|exact Hw4]).
  split; [exact H14|]. split; [apply write_wrote|]. intros Hok ((N1 & N2 & N3 & N4) & _ & Hl & _) Hb.
  assert (B4 : bounded w4) by (eapply wrote_bounded; [apply write_wrote|exact Hb]). assert (B3 : bounded w3) by (by eapply wrote_bounded; [exact Hw4|]).
  assert (B2 : bounded w2) by (by eapply wrote_bounded; [exact Hw3|]). assert (B1 : bounded w1) by (by eapply wrote_bounded; [exact Hw2|]).
  destruct (Hs1 Hok N1 B1) as [O1 T1]. destruct (Hs2 O1 N2 B2) as [O2 T2]. destruct (Hs3 O2 N3 B3) as [O3 T3]. destruct (Hs4 O3 N4 B4) as [O4 T4].
  split; [by apply write_ok|]. split; [|by apply encode_length]. exists i, b, s, d.
  assert (H24 : wrote w2 [] w4) by (eapply wrote_nil; [exact Hw3|exact Hw4]).
  split; [exact (wrote_str _ _ _ _ _ Hw4 (wrote_str _ _ _ _ _ Hw3 (wrote_str _ _ _ _ _ Hw2 T1)))|]. split; [exact (wrote_str _ _ _ _ _ H24 T2)|]. split; [exact (wrote_str _ _ _ _ _ Hw4 T3)|]. split; [exact T4|].
  unfold vs. f_equal. f_equal. do 9 f_equal. f_equal; [unfold low16; apply Z.mod_small; pose proof (zlen_nonneg (ad_args a)); lia|]. f_equal. f_equal. unfold args_at.
  destruct (ad_args a) as [|x l]; [done|]. unfold current_offset. destruct H14 as [E4 _]. rewrite app_nil_r in E4. rewrite E4.
  pose proof (zlen_nonneg (bw_buf w)). pose proof (zlen_nonneg (bw_string_table (write_struct actor_layout vs w4).2)). unfold bounded in Hb. unfold write_struct, write_bytes in Hb. cbn [snd bw_buf bw_string_table] in Hb.
  rewrite zlen_app, E4 in Hb. unfold zlen at 2 in Hb. rewrite encode_length in Hb by done. change (Z.of_nat (size_of actor_layout)) with 40 in *. pose proof (zlen_nonneg (bw_string_table w4)). rewrite (u32_small (zlen (bw_buf w))) by lia. apply u32_small. lia.
Qed.

Lemma actor_full {Q} w (a : ActorEntry Q) : writer_ok w -> actor_wf a -> bounded (write_actor w a) ->
  writer_ok (write_actor w a) /\ exists r rs, wrote w (r ++ concat rs) (write_actor w a) /\ actor_rec (args_at w a) (bw_string_table (write_actor w a)) a r /\
    Forall2 (arg_rec (bw_string_table (write_actor w a))) (ad_args a) rs /\ length r = 40%nat.
Proof.
  intros Hok Hwf Hb. destruct (write_actor_split w a) as (w1 & w2 & r & E & H1 & H2 & Hr). rewrite E in Hb |- *. destruct (fold_wrote _ _ _ (ad_args a) arg_writes w2) as [bs Hbs].
  destruct (Hr Hok Hwf) as (Hok2 & Hrec & Hl); [by eapply wrote_bounded; [exact Hbs|]|]. pose proof Hwf as (_ & _ & _ & Hargs & _).
  destruct (fold_writes _ _ _ (ad_args a) arg_writes w2 Hok2 Hargs Hb) as [Hok3 (rs & Hrs & Hrecs)]. split; [done|]. exists r, rs.
  split; [eapply wrote_nil; [exact H1|]; by eapply wrote_trans|]. split; [|done]. destruct Hrs as [_ [x ->]]. by apply actor_rec_app.
Qed.
Lemma actor_writes {Q} : writes_well write_actor (fun a : ActorEntry Q => actor_wf a /\ ad_args a = []) (actor_rec 0).
Proof.
  split_and!.
  - intros w a. destruct (write_actor_split w a) as (w1 & w2 & r & -> & H1 & H2 & _). destruct (fold_wrote _ _ _ (ad_args a) arg_writes w2) as [bs Hbs].
    eexists. eapply wrote_nil; [exact H1|]. eapply wrote_trans; [exact H2|exact Hbs].
  - intros w a Hok [Hwf Ha] Hb. destruct (actor_full w a Hok Hwf Hb) as [Hok' (r & rs & Hr & Hrec & Hrs & _)]. split; [done|]. exists r. rewrite Ha in Hrs. apply Forall2_nil_inv_l in Hrs as ->.
    simpl in Hr. rewrite app_nil_r in Hr. split; [done|]. unfold args_at in Hrec. by rewrite Ha in Hrec.
  - intros. by apply actor_rec_app.
Qed.

Definition with_rest {Q} (rest : Q) (a : ActorEntry Q) : ActorEntry Q :=
  mkActor (ad_id a) (ad_behavior a) (ad_supervisor a) (ad_dispatcher a) (ad_dispatch_policy a) (ad_mailbox_capacity a) (ad_slab_class_bytes a) (ad_max_memory_kb a) (ad_args a) rest.

Lemma set_args_nodup l : forall acc, NoDup (acc ++ l).*1 -> foldl set_arg acc l = acc ++ l.
Proof.
  induction l as [|kv l IH]; intros acc Hn; [by rewrite app_nil_r|]. simpl.
  assert (E : set_arg acc kv = acc ++ [kv]).
  { unfold set_arg. f_equal. rewrite fmap_app in Hn. apply NoDup_app in Hn as (_ & Hd & _).
    assert (Hf : Forall (fun x : list Z * list Z => x.1 <> kv.1) acc). { apply Forall_forall. intros x Hx Ex. apply (Hd x.1); [by apply list_elem_of_fmap_2|]. rewrite Ex. simpl. by left. }
    clear -Hf. induction Hf as [|x acc Hx _ IH]; [done|]. rewrite filter_cons_True by done. by rewrite IH. }
  rewrite E, IH; [by rewrite <- app_assoc|]. by rewrite <- app_assoc.
Qed.

Lemma actor_loads {Q} (rest : Q) f tbl T a r args : has_table f tbl T -> actor_wf a -> actor_rec args tbl a r -> word args ->
  (ad_args a = [] \/ args <> 0 /\ load_array (load_arg f T) 8 (length (ad_args a)) args = Some (ad_args a)) ->
  length r = size_of actor_layout /\ forall pre post, f = pre ++ r ++ post -> load_actor rest f T (zlen pre) = Some (with_rest rest a).
Proof.
  intros Ht ((N1 & N2 & N3 & N4) & (P1 & P2 & P3 & P4) & Hl & _ & Hnd) (i & b & s & d & S1 & S2 & S3 & S4 & ->) Hw Hargs. split; [by apply encode_length|]. intros pre post Ef.
  unfold load_actor. rewrite Ef at 1. pose proof (zlen_nonneg (ad_args a)). rewrite read_struct_app by (unfold actor_layout; layout).
  rewrite (str_at_ok f tbl T _ _ Ht S1), (str_at_ok f tbl T _ _ Ht S2), (str_at_ok f tbl T _ _ Ht S3), (str_at_ok f tbl T _ _ Ht S4). cbn [mbind option_bind].
  assert (E : (if (0 <? zlen (ad_args a)) && negb (args =? 0) then load_array (load_arg f T) (Z.of_nat (size_of kv_layout)) (Z.to_nat (zlen (ad_args a))) args else Some []) = Some (ad_args a)).
  { destruct (ad_args a) as [|x l] eqn:Ea; [done|]. destruct Hargs as [Hargs|[Hn Hargs]]; [done|]. rewrite (proj2 (Z.ltb_lt 0 _)), (proj2 (Z.eqb_neq _ _) Hn) by (rewrite zlen_cons; pose proof (zlen_nonneg l); lia).
    cbn [andb negb]. replace (Z.to_nat (zlen (x :: l))) with (length (x :: l)) by (unfold zlen; lia). exact Hargs. }
  rewrite E. cbn [mbind option_bind]. by rewrite set_args_nodup.
Qed.

(** *** The system *)

Definition system_wf (s : SystemDef) : Prop :=
  let t := sd_tracing s in
  (no_nul (sd_version s) /\ no_nul (sd_http_bind_host s) /\ no_nul (tc_service_name t) /\ no_nul (tc_otlp_endpoint t) /\ no_nul (tc_json_file_path t)) /\
  (word (sd_scheduler_threads s) /\ word (sd_max_queue_depth s) /\ 0 <= sd_tcp_port s < 65536 /\ word (sd_spawn_timeout_ms s) /\ 0 <= sd_http_port s < 65536) /\
  (word (sd_http_max_connections s) /\ word (sd_http_max_request_size s) /\ word (sd_http_reply_timeout_ms s) /\ word (sd_default_mailbox_size s)) /\
  (word (tc_ring_buffer_capacity t) /\ 0 <= tc_sampler t < 256 /\ 0 <= tc_exporter t < 256 /\ 0 <= tc_sample_ratio t < 18446744073709551616) /\
  (word (tc_export_interval_ms t) /\ word (tc_max_export_batch_size t) /\ 0 <= tc_max_tracestate_len t < 65536).

Definition system_fields (s : SystemDef) (version host service otlp json : Z) : list Z :=
  let tr := sd_tracing s in
  [sd_scheduler_threads s; sd_max_queue_depth s; sd_default_mailbox_size s; of_bool (sd_enable_network s); sd_tcp_port s; 0; sd_spawn_timeout_ms s;
   of_bool (sd_enable_http_gateway s); sd_http_port s; 0; sd_http_max_connections s; sd_http_max_request_size s; sd_http_reply_timeout_ms s;
   of_bool (sd_use_coroutines s); version; host; of_bool (tc_enabled tr); of_bool (tc_propagate_unsampled tr); tc_ring_buffer_capacity tr;
   tc_sampler tr; tc_exporter tr; 0; tc_sample_ratio tr; u32 (tc_export_interval_ms tr); tc_max_export_batch_size tr; tc_max_tracestate_len tr; 0; 0; service; otlp; json; 0].
Definition system_rec (tbl : list Z) (s : SystemDef) (r : list Z) : Prop :=
  exists v h se o j, (str_ok tbl (sd_version s) v /\ str_ok tbl (sd_http_bind_host s) h /\ str_ok tbl (tc_service_name (sd_tracing s)) se /\
    str_ok tbl (tc_otlp_endpoint (sd_tracing s)) o /\ str_ok tbl (tc_json_file_path (sd_tracing s)) j) /\ r = encode_fields (zip system_layout (system_fields s v h se o j)).

Lemma system_writes s w : exists w' r, write_system s w = (current_offset w, w') /\ wrote w r w' /\
  (writer_ok w -> system_wf s -> bounded w' -> writer_ok w' /\ system_rec (bw_string_table w') s r).
Proof.
  unfold write_system. take_string v w1 Hw1 Hs1. take_string h w2 Hw2 Hs2. take_string se w3 Hw3 Hs3. take_string o w4 Hw4 Hs4. take_string j w5 Hw5 Hs5.
  change [sd_scheduler_threads s; _; _; _; _; _; _; _; _; _; _; _; _; _; _; _; _; _; _; _; _; _; _; _; _; _; _; _; _; _; _; _] with (system_fields s v h se o j).
  assert (H25 : wrote w2 [] w5) by (eapply wrote_nil; [exact Hw3|]; eapply wrote_nil; [exact Hw4|exact Hw5]).
  assert (H15 : wrote w [] w5) by (eapply wrote_nil; [exact Hw1|]; eapply wrote_nil; [exact Hw2|exact H25]).
  eexists _, _. split; [unfold write_struct, write_bytes; f_equal; unfold current_offset; destruct H15 as [-> _]; by rewrite app_nil_r|].
  split; [eapply wrote_nil; [exact H15|apply write_wrote]|]. intros Hok ((N1 & N2 & N3 & N4 & N5) & _) Hb.
  assert (B5 : bounded w5) by (eapply wrote_bounded; [apply (write_wrote system_layout)|exact Hb]). assert (B4 : bounded w4) by (by eapply wrote_bounded; [exact Hw5|]).
  assert (B3 : bounded w3) by (by eapply wrote_bounded; [exact Hw4|]). assert (B2 : bounded w2) by (by eapply wrote_bounded; [exact Hw3|]). assert (B1 : bounded w1) by (by eapply wrote_bounded; [exact Hw2|]).
  destruct (Hs1 Hok N1 B1) as [O1 T1]. destruct (Hs2 O1 N2 B2) as [O2 T2]. destruct (Hs3 O2 N3 B3) as [O3 T3]. destruct (Hs4 O3 N4 B4) as [O4 T4]. destruct (Hs5 O4 N5 B5) as [O5 T5].
  split; [by apply (write_ok system_layout (system_fields s v h se o j))|]. exists v, h, se, o, j. split; [|done]. cbn [bw_string_table].
  split_and!; [exact (wrote_str _ _ _ _ _ H25 (wrote_str _ _ _ _ _ Hw2 T1))|exact (wrote_str _ _ _ _ _ H25 T2)|exact (wrote_str _ _ _ _ _ Hw5 (wrote_str _ _ _ _ _ Hw4 T3))|exact (wrote_str _ _ _ _ _ Hw5 T4)|exact T5].
Qed.

Lemma system_loads f tbl T s r pre post : has_table f tbl T -> system_wf s -> system_rec tbl s r -> f = pre ++ r ++ post -> load_system f T (zlen pre) = Some s.
Proof.
  intros Ht (_ & (P1 & P2 & P3 & P4 & P5) & (P6 & P7 & P8 & P9) & (P10 & P11 & P12 & P13) & (P14 & P15 & P16)) (v & h & se & o & j & (S1 & S2 & S3 & S4 & S5) & ->) Ef.
  assert (Hsa : word (tc_sampler (sd_tracing s)) /\ word (tc_exporter (sd_tracing s))) by (unfold word; lia). destruct Hsa as [Q1 Q2].
  unfold load_system. rewrite Ef at 1. unfold system_fields. rewrite (u32_small (tc_export_interval_ms _)) by done. rewrite read_struct_app by (unfold system_layout; layout).
  rewrite (str_at_ok f tbl T _ _ Ht S1), (str_at_ok f tbl T _ _ Ht S2), (str_at_ok f tbl T _ _ Ht S3), (str_at_ok f tbl T _ _ Ht S4), (str_at_ok f tbl T _ _ Ht S5).
  cbn [mbind option_bind]. rewrite !to_of_bool, !u8_small by done. by destruct s as [? ? ? ? ? ? ? ? ? ? ? ? ? ? []].
Qed.

(** ** The round trip *)

Definition topology_wf {R Q} (m : TopologyModel R Q) : Prop :=
  system_wf (tm_system m) /\ Forall dispatcher_wf (tm_dispatchers m) /\ Forall actor_wf (tm_actors m) /\ Forall (fun a => ad_args a = []) (removelast (tm_actors m)) /\
  zlen (tm_dispatchers m) < 4294967296 /\ zlen (tm_actors m) < 4294967296.

(** All actors but the last are one array of records; the last may have arguments behind it. *)
Lemma actors_fold_wrote {Q} (l : list (ActorEntry Q)) : forall w, exists bs, wrote w bs (foldl write_actor w l).
Proof. exact (fold_wrote _ _ _ l actor_writes). Qed.
Lemma Forall2_with {A B} (P : A -> Prop) (R S : A -> B -> Prop) l k : Forall P l -> Forall2 R l k -> (forall x y, P x -> R x y -> S x y) -> Forall2 S l k.
Proof. intros Hp Hr Hi. induction Hr as [|x y l k Hxy _ IH]; [constructor|]. apply Forall_cons_1 in Hp as [Hx Hp]. constructor; auto. Qed.
Lemma concat_sizes {A} n (ls : list (list A)) : Forall (fun l => length l = n) ls -> length (concat ls) = (length ls * n)%nat.
Proof. induction 1 as [|l ls Hl _ IH]; [done|]. simpl. rewrite length_app. lia. Qed.

(** The arguments of the last actor. *)
Lemma args_load f tbl T (args : list (list Z * list Z)) rs pre post : has_table f tbl T -> Forall2 (arg_rec tbl) args rs -> f = pre ++ concat rs ++ post ->
  load_array (load_arg f T) 8 (length args) (zlen pre) = Some args.
Proof.
  intros Ht Hrs Ef. rewrite <- (list_fmap_id args) at 2. eapply (load_array_ok _ 8 f post args id rs); [|exact Ef].
  eapply Forall2_impl; [exact Hrs|]. intros kv r Hr. by apply (arg_loads f tbl).
Qed.

Lemma actors_load {Q} (rest : Q) (l : list (ActorEntry Q)) w f pre tail T :
  Forall actor_wf l -> Forall (fun a => ad_args a = []) (removelast l) -> writer_ok w -> bounded (foldl write_actor w l) -> zlen pre = zlen (bw_buf w) ->
  writer_ok (foldl write_actor w l) /\ exists bs, wrote w bs (foldl write_actor w l) /\
    (f = pre ++ bs ++ tail -> has_table f (bw_string_table (foldl write_actor w l)) T -> load_array (load_actor rest f T) 40 (length l) (zlen pre) = Some (with_rest rest <$> l)).
Proof.
  intros Hwf Hargs Hok Hb Hpre. destruct l as [|a l _] using rev_ind; [split; [done|]; exists []; split; [apply wrote_refl|done]|].
  rewrite removelast_last in Hargs. apply Forall_app in Hwf as [Hwf Ha]. apply Forall_cons_1 in Ha as [Ha _]. rewrite foldl_app in Hb |- *. cbn [foldl] in *.
  set (w1 := foldl write_actor w l) in *. destruct (actors_fold_wrote [a] w1) as [cs Hcs]. cbn [foldl] in Hcs.
  destruct (fold_writes _ _ _ l actor_writes w Hok) as [Hok1 (rs & Hrs & Hrecs)]; [by apply Forall_and|by eapply wrote_bounded; [exact Hcs|]|]. fold w1 in Hok1, Hrs, Hrecs.
  destruct (actor_full w1 a Hok1 Ha Hb) as [Hok2 (r & ras & Hr & Hrec & Hras & Hlr)]. split; [done|]. exists (concat rs ++ r ++ concat ras). split; [by eapply wrote_trans|]. intros Ef Ht.
  rewrite length_app, fmap_app, Nat.add_1_r. rewrite <- !app_assoc in Ef.
  assert (Hl1 : Forall2 (fun a r => length r = 40%nat /\ forall p q, f = p ++ r ++ q -> load_actor rest f T (zlen p) = Some (with_rest rest a)) l rs).
  { eapply (Forall2_with (fun a => actor_wf a /\ ad_args a = [])); [by apply Forall_and|exact Hrecs|]. intros a' r' [Hw' Ha'] Hr'.
    apply (actor_loads rest f _ T a' r' 0 Ht); [done| |unfold word; lia|by left]. destruct Hr as [_ [x ->]]. by apply actor_rec_app. }
  assert (Hlen : zlen (concat rs) = Z.of_nat (length l) * 40).
  { unfold zlen. rewrite (concat_sizes 40), (Forall2_length _ _ _ Hl1); [lia|]. eapply Forall2_Forall_r; [exact Hl1|]. apply Forall_true. by intros ? ? [? _]. }
  assert (Hbuf : zlen (bw_buf w1) = zlen (pre ++ concat rs)) by (destruct Hrs as [-> _]; rewrite !zlen_app; lia).
  apply load_array_snoc; [eapply (load_array_ok _ 40 f _ l (with_rest rest) rs Hl1 pre Ef)|].
  replace (zlen pre + Z.of_nat (length l) * 40) with (zlen (pre ++ concat rs)) by (rewrite zlen_app; lia).
  destruct (actor_loads rest f _ T a r (args_at w1 a) Ht Ha Hrec) as [_ Hload].
  - unfold word, args_at. destruct (ad_args a); [lia|]. pose proof (zlen_nonneg (bw_buf w1)). destruct Hr as [Hr _]. unfold bounded in Hb. rewrite Hr, !zlen_app in Hb.
    pose proof (zlen_nonneg (concat ras)). pose proof (zlen_nonneg (bw_string_table (write_actor w1 a))). unfold zlen at 2 in Hb. lia.
  - destruct (ad_args a) as [|x args] eqn:Ea; [by left|right]. pose proof (zlen_nonneg (bw_buf w1)). unfold args_at. rewrite Ea, Hbuf. replace (zlen (pre ++ concat rs) + 40) with (zlen (pre ++ concat rs ++ r)) by (rewrite !zlen_app; unfold zlen; lia).
    split; [rewrite !zlen_app in *; unfold zlen in *; lia|]. apply (args_load f _ T (x :: args) ras _ tail Ht Hras). by rewrite <- !app_assoc.
  - apply (Hload _ (concat ras ++ tail)). by rewrite <- !app_assoc.
Qed.

Lemma dispatchers_load ds w f pre tail T :
  Forall dispatcher_wf ds -> writer_ok w -> bounded (foldl write_dispatcher w ds) ->
  writer_ok (foldl write_dispatcher w ds) /\ exists bs, wrote w bs (foldl write_dispatcher w ds) /\
    forall x, f = pre ++ bs ++ tail -> has_table f (bw_string_table (foldl write_dispatcher w ds) ++ x) T -> load_array (load_dispatcher f T) 12 (length ds) (zlen pre) = Some ds.
Proof.
  intros Hwf Hok Hb. destruct (fold_writes _ _ _ ds dispatcher_writes w Hok Hwf Hb) as [Hok1 (rs & Hrs & Hrecs)]. split; [done|]. exists (concat rs). split; [done|].
  intros x Ef Ht. rewrite <- (list_fmap_id ds) at 2. eapply (load_array_ok _ 12 f tail ds id rs); [|exact Ef].
  eapply (Forall2_with _ _ _ _ _ Hwf Hrecs). intros d r Hd Hr. apply (dispatcher_loads f _ T d r Ht Hd). destruct Hr as (off & Ho & Er). exists off. split; [by apply str_ok_app|done].
Qed.

Lemma header_length vs : length vs = 9%nat -> zlen (encode_fields (zip header_layout vs)) = 36.
Proof. intros Hl. unfold zlen. by rewrite encode_length. Qed.

Lemma wrote_bytes w bs cs w' : wrote w bs w' -> wrote w cs w' -> bs = cs.
Proof. intros [E _] [E' _]. rewrite E in E'. by apply app_inv_head in E'. Qed.
Lemma wrote_size w bs w' : wrote w bs w' -> zlen (bw_buf w') = zlen (bw_buf w) + zlen bs.
Proof. intros [-> _]. apply zlen_app. Qed.

(** The tables of a file that was written, behind a header of its size. *)
Lemma tables_load {R Q} (srest : R) (arest : Q) sys ds acts w0 w1 hdr rsys b2 b3 pages :
  let w2 := foldl write_dispatcher w1 ds in
  let w3 := foldl write_actor w2 acts in
  let F := hdr ++ rsys ++ b2 ++ b3 ++ bw_string_table w3 ++ pages in
  system_wf sys -> Forall dispatcher_wf ds -> Forall actor_wf acts -> Forall (fun a => ad_args a = []) (removelast acts) ->
  writer_ok w1 -> bounded w3 -> wrote w0 rsys w1 -> wrote w1 b2 w2 -> wrote w2 b3 w3 -> system_rec (bw_string_table w1) sys rsys -> zlen hdr = zlen (bw_buf w0) ->
  load_tables srest arest F (zlen (bw_buf w0)) (zlen ds) (zlen (bw_buf w1)) (zlen acts) (zlen (bw_buf w2)) (zlen (bw_buf w3)) = Some (mkTopology sys srest ds (with_rest arest <$> acts)).
Proof.
  intros w2 w3 F Hsys Hds Hacts Hargs Ok1 B3 W1 W2 W3 Hrs Hh. assert (B2 : bounded w2) by (by eapply wrote_bounded; [exact W3|]).
  pose proof (wrote_size _ _ _ W1) as Z1. pose proof (wrote_size _ _ _ W2) as Z2. pose proof (wrote_size _ _ _ W3) as Z3.
  assert (Ht : has_table F (bw_string_table w3) (zlen (bw_buf w3))).
  { split; [apply zlen_nonneg|]. exists pages. unfold F. replace (Z.to_nat (zlen (bw_buf w3))) with (length (hdr ++ rsys ++ b2 ++ b3)) by (rewrite !length_app; unfold zlen in *; lia).
    replace (hdr ++ rsys ++ b2 ++ b3 ++ bw_string_table w3 ++ pages) with ((hdr ++ rsys ++ b2 ++ b3) ++ bw_string_table w3 ++ pages) by (by rewrite <- !app_assoc). by rewrite drop_app_length. }
  destruct (dispatchers_load ds w1 F (hdr ++ rsys) (b3 ++ bw_string_table w3 ++ pages) (zlen (bw_buf w3)) Hds Ok1 B2) as [Ok2 (b2' & W2' & Hd)].
  rewrite (wrote_bytes _ _ _ _ W2' W2) in Hd. fold w2 in Ok2, Hd.
  destruct (actors_load arest acts w2 F (hdr ++ rsys ++ b2) (bw_string_table w3 ++ pages) (zlen (bw_buf w3)) Hacts Hargs Ok2 B3) as [Ok3 (b3' & W3' & Ha)]; [rewrite !zlen_app; lia|].
  rewrite (wrote_bytes _ _ _ _ W3' W3) in Ha. fold w3 in Ha. pose proof W3 as [_ [y3 E3]]. pose proof W2 as [_ [y2 E2]]. unfold load_tables. rewrite <- Hh.
  rewrite (system_loads F (bw_string_table w3) (zlen (bw_buf w3)) sys rsys hdr (b2 ++ b3 ++ bw_string_table w3 ++ pages) Ht Hsys); [| |done].
  2: { destruct Hrs as (v & h & se & o & j & (S1 & S2 & S3 & S4 & S5) & Er). exists v, h, se, o, j. split; [|done]. rewrite E3, E2. split_and!; by do 2 apply str_ok_app. }
  cbn [mbind option_bind]. change (Z.of_nat (size_of dispatcher_layout)) with 12. change (Z.of_nat (size_of actor_layout)) with 40.
  replace (Z.to_nat (zlen ds)) with (length ds) by (unfold zlen; lia). replace (Z.to_nat (zlen acts)) with (length acts) by (unfold zlen; lia).
  replace (zlen (bw_buf w1)) with (zlen (hdr ++ rsys)) by (rewrite zlen_app; lia). replace (zlen (bw_buf w2)) with (zlen (hdr ++ rsys ++ b2)) by (rewrite !zlen_app; lia).
  rewrite (Hd y3); [|unfold F; by rewrite <- !app_assoc|by rewrite <- E3]. cbn [mbind option_bind]. rewrite Ha; [done|unfold F; by rewrite <- !app_assoc|done].
Qed.

(** C38. A topology whose dispatchers are not pinned and whose actors, but the last, have no
    arguments is loaded as it was written, as far as the format goes: the system, the
    dispatchers and the actors with the arguments of the last, and defaults for the
    rest. *)
Theorem topology_roundtrip {R Q} (srest : R) (arest : Q) (m : TopologyModel R Q) :
  topology_wf m -> zlen (serialize_topology m) < 4294967296 ->
  load_binary_topology srest arest (Some (serialize_topology m)) = Loaded (mkTopology (tm_system m) srest (tm_dispatchers m) (with_rest arest <$> tm_actors m)).
Proof.
  intros (Hsys & Hds & Hacts & Hargs & Hnd & Hna). unfold serialize_topology. set (w0 := (write_struct header_layout [0; 0; 0; 0; 0; 0; 0; 0; 0] writer_new).2).
  assert (Ok0 : writer_ok w0) by (split; [done|apply map_Forall_empty]). destruct (system_writes (tm_system m) w0) as (w1 & rsys & -> & Hw1 & Hs).
  set (w2 := foldl write_dispatcher w1 (tm_dispatchers m)). set (w3 := foldl write_actor w2 (tm_actors m)).
  destruct (fold_wrote _ _ _ (tm_dispatchers m) dispatcher_writes w1) as [b2 Hb2]. fold w2 in Hb2. destruct (actors_fold_wrote (tm_actors m) w2) as [b3 Hb3]. fold w3 in Hb3.
  unfold finalize. set (hvs := [TOPOLOGY_BINARY_MAGIC; 1; _; _; _; _; _] ++ _). set (hdr := encode_fields (zip header_layout hvs)). intros Hlen.
  assert (Hh : zlen hdr = 36) by (by apply header_length). assert (E0 : zlen (bw_buf w0) = 36) by reflexivity.
  assert (Ebuf : bw_buf w3 = bw_buf w0 ++ rsys ++ b2 ++ b3) by (destruct Hw1 as [E1 _], Hb2 as [E2 _], Hb3 as [E3 _]; by rewrite E3, E2, E1, <- !app_assoc).
  rewrite Ebuf in Hlen |- *. rewrite <- !app_assoc in Hlen |- *. change (size_of header_layout) with (length (bw_buf w0)) in Hlen |- *. rewrite drop_app_length in Hlen |- *.
  assert (B3 : bounded w3) by (rewrite !zlen_app in Hlen; unfold bounded; rewrite Ebuf, !zlen_app; lia).
  assert (B2 : bounded w2) by (by eapply wrote_bounded; [exact Hb3|]). assert (B1 : bounded w1) by (by eapply wrote_bounded; [exact Hb2|]).
  destruct (Hs Ok0 Hsys B1) as [Ok1 Hrs]. unfold load_binary_topology. destruct (hdr ++ rsys ++ b2 ++ b3 ++ bw_string_table w3) as [|x xs] eqn:Efile; [destruct hdr; discriminate|].
  rewrite <- Efile. unfold map_pages. set (pages := replicate _ 0). rewrite <- !app_assoc. clear x xs Efile Hlen.
  assert (Hw : forall w bs, wrote w bs w3 -> 0 <= zlen (bw_buf w) < 4294967296 /\ current_offset w = zlen (bw_buf w)).
  { intros w bs Hwr. pose proof (wrote_size _ _ _ Hwr). pose proof (zlen_nonneg (bw_buf w)). pose proof (zlen_nonneg bs). pose proof (zlen_nonneg (bw_string_table w3)). unfold bounded in B3. split; [lia|]. apply u32_small. lia. }
  pose proof (zlen_nonneg (tm_dispatchers m)). pose proof (zlen_nonneg (tm_actors m)).
  change (zlen []) with 0. replace (read_struct header_layout _ 0) with (Some hvs) by (symmetry; apply (read_struct_app header_layout hvs []); repeat (apply List.Forall2_cons; [apply fits_4; first [apply u32_range|done]|]); apply List.Forall2_nil).
  unfold hvs. cbn [app]. rewrite Z.eqb_refl. cbn [negb]. destruct (Hw w3 [] (wrote_refl w3)) as [_ O3]. unfold current_offset in O3 at 1. rewrite O3.
  rewrite (proj2 (Hw w0 _ (wrote_trans _ _ _ _ _ Hw1 (wrote_trans _ _ _ _ _ Hb2 Hb3)))), (proj2 (Hw w1 _ (wrote_trans _ _ _ _ _ Hb2 Hb3))), (proj2 (Hw w2 _ Hb3)), !u32_small by lia.
  pose proof (tables_load srest arest (tm_system m) (tm_dispatchers m) (tm_actors m) w0 w1 hdr rsys b2 b3 pages) as Hl. cbv zeta in Hl. fold w2 w3 in Hl. by rewrite Hl.
Qed.

(** ** Witnesses, and what goes wrong *)

Definition demo_system : SystemDef :=
  mkSystem [49] 4 1024 false 0 5000 true 8080 [48; 46; 48] 1000 1048576 5000 1024 false (mkTrace false true 65536 3 3 4576918229304087675 500 512 256 [104; 112] [] []).
Definition demo_actor (id : list Z) (args : list (list Z * list Z)) : ActorEntry unit := mkActor id [98] [] [] 0 64 0 0 args tt.
Definition demo_topology (ds : list DispatcherDef) (acts : list (ActorEntry unit)) : TopologyModel unit unit := mkTopology demo_system tt ds acts.
Definition loaded_actors (r : LoadResult (TopologyModel unit unit)) : option (list (list Z * list (list Z * list Z))) :=
  match r with Loaded m => Some ((fun a => (ad_id a, ad_args a)) <$> tm_actors m) | _ => None end.
Definition loaded_dispatchers (r : LoadResult (TopologyModel unit unit)) : option (list DispatcherDef) := match r with Loaded m => Some (tm_dispatchers m) | _ => None end.

Lemma topology_roundtrip_witness :
  let m := demo_topology [mkDispatcher [112] 2 []; mkDispatcher [113] 3 []] [demo_actor [97] []; demo_actor [98] [([107], [118]); ([107; 50], [98])]] in
  load_binary_topology tt tt (Some (serialize_topology m)) = Loaded m.
Proof.
  intros m. assert (Hw : topology_wf m) by (unfold topology_wf, system_wf, no_nul, word; simpl; repeat split; repeat constructor; simpl; unfold word; try lia; set_solver).
  rewrite (topology_roundtrip tt tt m Hw); [reflexivity|vm_compute; reflexivity].
Defined.

(** The arguments of an actor lie where the loader looks for the next actor. *)
Lemma args_shift_next_actor :
  loaded_actors (load_binary_topology tt tt (Some (serialize_topology (demo_topology [] [demo_actor [97] [([107], [118])]; demo_actor [98] []])))) <>
  Some [([97], [([107], [118])]); ([98], [])].
Proof. vm_compute. discriminate. Qed.
(** The affinity of a dispatcher lies before its record, where the loader looks for the record. *)
Lemma affinity_shifts_dispatcher :
  loaded_dispatchers (load_binary_topology tt tt (Some (serialize_topology (demo_topology [mkDispatcher [112] 2 [0; 1]] [])))) <> Some [mkDispatcher [112] 2 [0; 1]].
Proof. vm_compute. discriminate. Qed.
(** Nothing but the magic number is checked: a file that is cut may be read outside. *)
Lemma cut_file_reads_outside :
  load_binary_topology tt tt (Some (encode_fields (zip header_layout [TOPOLOGY_BINARY_MAGIC; 1; 4080; 0; 0; 0; 0; 0; 0]))) = (ReadsOutside : LoadResult (TopologyModel unit unit)).
Proof. vm_compute. reflexivity. Qed.
