(* ===== verification/TimerPlane.v ===== *)
(** * The sharded timer plane

    [timer/timer_plane_shard.cpp] and [timer_plane.cpp].  A [TimerNode*] is named by its
    slot: [slots_[i]] is the node stored at [i], absent meaning null, and a bucket,
    which the code links through its nodes, is the list of their slots in order,
    absent meaning empty.  [free_slots_] is kept with its back first.  The mutex makes
    every operation of a shard atomic; [shard_advance] answers the callbacks that it
    runs after it has released the lock.  The last part is the queue of commands
    between threads ([timer_command_queue.hpp]), access by access. *)

From S2P Require Import Prelude TimingWheel.
From stdpp Require Import base numbers list list_numbers gmap.

#[local] Open Scope Z_scope.

Definition kMaxSlots : Z := 65536.
Definition kNumLevels : nat := 4.
Definition kBucketsPerLevel : Z := 256.

(** ** [TimerHandle] *)

Definition make_encoded (shard_index slot_index generation type_tag : Z) : Z :=
  Z.lor (Z.lor (Z.lor (Z.shiftl type_tag 48) (Z.shiftl shard_index 32)) (Z.shiftl generation 24)) slot_index.
Definition handle_slot (h : Z) : Z := Z.land h 16777215.
Definition handle_generation (h : Z) : Z := Z.land (Z.shiftr h 24) 255.
Definition handle_shard (h : Z) : Z := Z.land (Z.shiftr h 32) 65535.

Fixpoint slots_from (n : nat) (k : Z) : list Z := match n with O => [] | S n => k :: slots_from n (k + 1) end.
#[global] Arguments slots_from : simpl never.

Section Plane.
Context {C : Type}.   (* callbacks *)

Record TimerNode := mkNode {
  tn_expire_ns : Z; tn_slot_index : Z; tn_generation : Z; tn_group_handle : Z; tn_priority : Z; tn_wheel_level : nat; tn_bucket_idx : Z; tn_callback : C }.

(** A [Schedule] command comes with the node that its sender allocated. *)
Inductive TimerCommand := CmdSchedule (expire : Z) (group priority : Z) (cb : C) | CmdCancel (handle : Z) | CmdDrainGroup (group : Z).

Record ShardCounters := mkCounters { sc_pending : Z; sc_scheduled : Z; sc_fired : Z; sc_cancelled : Z; sc_late : Z; sc_dropped : Z }.
Record TimerPlaneShard := mkShard {
  sh_index : Z; sh_tick_ns : Z; sh_time : Z; sh_slots : gmap Z TimerNode; sh_generations : gmap Z Z; sh_free : list Z; sh_buckets : gmap (nat * Z) (list Z);
  sh_commands : list TimerCommand; sh_min_deadline : Z; sh_counters : ShardCounters }.

Definition set_slot_table (s : TimerPlaneShard) (slots : gmap Z TimerNode) (gens : gmap Z Z) (free : list Z) : TimerPlaneShard :=
  mkShard (sh_index s) (sh_tick_ns s) (sh_time s) slots gens free (sh_buckets s) (sh_commands s) (sh_min_deadline s) (sh_counters s).
Definition set_wheel (s : TimerPlaneShard) (b : gmap (nat * Z) (list Z)) : TimerPlaneShard :=
  mkShard (sh_index s) (sh_tick_ns s) (sh_time s) (sh_slots s) (sh_generations s) (sh_free s) b (sh_commands s) (sh_min_deadline s) (sh_counters s).
Definition set_min_deadline (s : TimerPlaneShard) (m : Z) : TimerPlaneShard :=
  mkShard (sh_index s) (sh_tick_ns s) (sh_time s) (sh_slots s) (sh_generations s) (sh_free s) (sh_buckets s) (sh_commands s) m (sh_counters s).
Definition set_now (s : TimerPlaneShard) (t : Z) : TimerPlaneShard :=
  mkShard (sh_index s) (sh_tick_ns s) t (sh_slots s) (sh_generations s) (sh_free s) (sh_buckets s) (sh_commands s) (sh_min_deadline s) (sh_counters s).
Definition set_commands (s : TimerPlaneShard) (cmds : list TimerCommand) : TimerPlaneShard :=
  mkShard (sh_index s) (sh_tick_ns s) (sh_time s) (sh_slots s) (sh_generations s) (sh_free s) (sh_buckets s) cmds (sh_min_deadline s) (sh_counters s).
Definition count_with (f : ShardCounters -> ShardCounters) (s : TimerPlaneShard) : TimerPlaneShard :=
  mkShard (sh_index s) (sh_tick_ns s) (sh_time s) (sh_slots s) (sh_generations s) (sh_free s) (sh_buckets s) (sh_commands s) (sh_min_deadline s) (f (sh_counters s)).
Definition count_scheduled (c : ShardCounters) : ShardCounters := mkCounters (u64 (sc_pending c + 1)) (u64 (sc_scheduled c + 1)) (sc_fired c) (sc_cancelled c) (sc_late c) (sc_dropped c).
Definition count_cancelled (c : ShardCounters) : ShardCounters := mkCounters (u64 (sc_pending c - 1)) (sc_scheduled c) (sc_fired c) (u64 (sc_cancelled c + 1)) (sc_late c) (sc_dropped c).
Definition count_fired (late : bool) (c : ShardCounters) : ShardCounters :=
  mkCounters (u64 (sc_pending c - 1)) (sc_scheduled c) (u64 (sc_fired c + 1)) (sc_cancelled c) (if late then u64 (sc_late c + 1) else sc_late c) (sc_dropped c).
Definition count_lost (c : ShardCounters) : ShardCounters := mkCounters (sc_pending c) (sc_scheduled c) (sc_fired c) (sc_cancelled c) (sc_late c) (u64 (sc_dropped c + 1)).

(** The constructor; the slots are free from 0 up, the time of a shard starts at 0. *)
Definition shard_init (index tick : Z) : TimerPlaneShard := mkShard index tick 0 ∅ ∅ (slots_from (Z.to_nat kMaxSlots) 0) ∅ [] INT64_MAX (mkCounters 0 0 0 0 0 0).

(** [level_ranges_]: level [l] spans [tick_ns * 256^(l+1)], in 64 bits. *)
Definition level_range (tick : Z) (l : nat) : Z := Nat.iter (S l) (fun r => i64 (r * kBucketsPerLevel)) tick.
Definition plane_level (tick diff : Z) : nat := match list_find (fun l => diff < level_range tick l) (seq 0 kNumLevels) with Some (_, l) => l | None => kNumLevels - 1 end.
Definition plane_bucket (tick : Z) (level : nat) (t : Z) : Z := Z.land (u32 (scale_down level (t ÷ tick))) (kBucketsPerLevel - 1).

(** [acquire_slot]: a node without its slot gets one, with the next generation, which is never 0. *)
Definition next_generation (g : Z) : Z := if u8 (g + 1) =? 0 then u8 (u8 (g + 1) + 1) else u8 (g + 1).
Definition acquire_slot (s : TimerPlaneShard) (mk : Z -> Z -> TimerNode) : option (Z * TimerPlaneShard) :=
  match sh_free s with
  | [] => None
  | slot :: free => let gen := next_generation (default 0 (sh_generations s !! slot)) in Some (slot, set_slot_table s (<[slot := mk slot gen]> (sh_slots s)) (<[slot := gen]> (sh_generations s)) free)
  end.
Definition release_timer_slot (s : TimerPlaneShard) (slot expected : Z) : TimerPlaneShard :=
  if kMaxSlots <=? slot then s
  else if negb (default 0 (sh_generations s !! slot) =? expected) then s
  else set_slot_table s (delete slot (sh_slots s)) (sh_generations s) (slot :: sh_free s).

Definition place_node (n : TimerNode) (level : nat) (bucket : Z) : TimerNode :=
  mkNode (tn_expire_ns n) (tn_slot_index n) (tn_generation n) (tn_group_handle n) (tn_priority n) level bucket (tn_callback n).
Definition with_expire (n : TimerNode) (e : Z) : TimerNode :=
  mkNode e (tn_slot_index n) (tn_generation n) (tn_group_handle n) (tn_priority n) (tn_wheel_level n) (tn_bucket_idx n) (tn_callback n).
Definition put_node (s : TimerPlaneShard) (n : TimerNode) : TimerPlaneShard := set_slot_table s (<[tn_slot_index n := n]> (sh_slots s)) (sh_generations s) (sh_free s).

Definition insert_into_wheel (s : TimerPlaneShard) (n : TimerNode) : TimerPlaneShard :=
  let expire := Z.max (tn_expire_ns n) (sh_time s + sh_tick_ns s) in
  let level := plane_level (sh_tick_ns s) (expire - sh_time s) in
  let bucket := plane_bucket (sh_tick_ns s) level expire in
  put_node (set_wheel s (bset (sh_buckets s) level bucket (bget (sh_buckets s) level bucket ++ [tn_slot_index n]))) (place_node n level bucket).
Definition remove_from_wheel (s : TimerPlaneShard) (n : TimerNode) : TimerPlaneShard :=
  set_wheel s (bset (sh_buckets s) (tn_wheel_level n) (tn_bucket_idx n) (erase_ptr (tn_slot_index n) (bget (sh_buckets s) (tn_wheel_level n) (tn_bucket_idx n)))).

(** Every bucket, level by level. *)
Definition all_slots (s : TimerPlaneShard) : list Z := l ← seq 0 kNumLevels; b ← seqZ 0 kBucketsPerLevel; bget (sh_buckets s) l b.
Definition shard_recompute_min (s : TimerPlaneShard) : TimerPlaneShard :=
  set_min_deadline s (foldl (fun m k => match sh_slots s !! k with Some n => Z.min m (tn_expire_ns n) | None => m end) INT64_MAX (all_slots s)).
Definition lower_min (s : TimerPlaneShard) (e : Z) : TimerPlaneShard := if e <? sh_min_deadline s then set_min_deadline s e else s.

(** [schedule]; 0 is the invalid handle. *)
Definition shard_schedule (s : TimerPlaneShard) (delay : Z) (cb : C) (group priority : Z) : Z * TimerPlaneShard :=
  let expire := i64 (sh_time s + delay) in
  match acquire_slot s (fun slot gen => mkNode expire slot gen group priority 0 0 cb) with
  | None => (0, count_with count_lost s)
  | Some (slot, s) =>
      match sh_slots s !! slot with
      | None => (0, s)
      | Some n =>
          let s := insert_into_wheel s n in
          let e := Z.max expire (sh_time s + sh_tick_ns s) in
          let s := match sh_slots s !! slot with Some n => put_node s (with_expire n e) | None => s end in
          (make_encoded (sh_index s) slot (tn_generation n) 0, count_with count_scheduled (lower_min s e))
      end
  end.

(** What [cancel], the [Cancel] command and [DrainGroup] do to a node. *)
Definition drop_timer_node (s : TimerPlaneShard) (n : TimerNode) : TimerPlaneShard := release_timer_slot (remove_from_wheel s n) (tn_slot_index n) (tn_generation n).
Definition shard_cancel (s : TimerPlaneShard) (h : Z) : bool * TimerPlaneShard :=
  if negb (handle_shard h =? sh_index s) then (false, s)
  else
    let slot := handle_slot h in
    if kMaxSlots <=? slot then (false, s)
    else match sh_slots s !! slot with
         | None => (false, s)
         | Some n =>
             if negb (default 0 (sh_generations s !! slot) =? handle_generation h) then (false, s)
             else
               let s := release_timer_slot (remove_from_wheel s n) slot (handle_generation h) in
               let s := if tn_expire_ns n <=? sh_min_deadline s then shard_recompute_min s else s in
               (true, count_with count_cancelled s)
         end.

Definition drain_group_node (group : Z) (s : TimerPlaneShard) (k : Z) : TimerPlaneShard :=
  match sh_slots s !! k with
  | Some n => if tn_group_handle n =? group then count_with count_cancelled (drop_timer_node s n) else s
  | None => s
  end.

(** One command of the queue. *)
Definition run_timer_command (s : TimerPlaneShard) (c : TimerCommand) : TimerPlaneShard :=
  match c with
  | CmdSchedule expire group priority cb =>
      match acquire_slot s (fun slot gen => mkNode expire slot gen group priority 0 0 cb) with
      | None => count_with count_lost s
      | Some (slot, s) => match sh_slots s !! slot with None => s | Some n => count_with count_scheduled (lower_min (insert_into_wheel s n) expire) end
      end
  | CmdCancel h => (shard_cancel s h).2
  | CmdDrainGroup group => shard_recompute_min (foldl (drain_group_node group) s (all_slots s))
  end.
Definition drain_commands (s : TimerPlaneShard) : TimerPlaneShard := foldl run_timer_command (set_commands s []) (sh_commands s).

(** ** [advance] *)

(** One node of the bucket that is scanned: fire it, move it to the level below, or leave it. *)
Definition visit_node (now : Z) (level : nat) (x : TimerPlaneShard * list C) (k : Z) : TimerPlaneShard * list C :=
  let '(s, pending) := x in
  match sh_slots s !! k with
  | None => x
  | Some n =>
      if tn_expire_ns n <=? now then
        (count_with (count_fired (sh_tick_ns s <? now - tn_expire_ns n)) (drop_timer_node s n), pending ++ [tn_callback n])
      else match level with
           | O => x
           | S lower =>
               let b := plane_bucket (sh_tick_ns s) lower (tn_expire_ns n) in
               let s := remove_from_wheel s n in
               (put_node (set_wheel s (bset (sh_buckets s) lower b (bget (sh_buckets s) lower b ++ [k]))) (place_node n lower b), pending)
           end
  end.
Definition scan_slot_list (now : Z) (level : nat) (x : TimerPlaneShard * list C) (bucket : Z) : TimerPlaneShard * list C :=
  foldl (visit_node now level) x (bget (sh_buckets x.1) level bucket).
(** The buckets that are scanned at a level, both ends included. *)
Definition plane_slots (tick old now : Z) (level : nat) : list Z :=
  let start_bucket := plane_bucket tick level old in
  let end_bucket := plane_bucket tick level now in
  let count := u32 (end_bucket - start_bucket + kBucketsPerLevel) mod kBucketsPerLevel + 1 in
  (fun i => (start_bucket + Z.of_nat i) mod kBucketsPerLevel) <$> seq 0 (Z.to_nat count).
Definition scan_plane_level (old now : Z) (x : TimerPlaneShard * list C) (level : nat) : TimerPlaneShard * list C :=
  foldl (scan_slot_list now level) x (plane_slots (sh_tick_ns x.1) old now level).

Definition shard_capped (s : TimerPlaneShard) (now : Z) : Z := if kMaxAdvanceNs <? now - sh_time s then sh_time s + kMaxAdvanceNs else now.
Definition shard_advance (s : TimerPlaneShard) (now_ns : Z) : list C * TimerPlaneShard :=
  let drained := negb (bool_decide (length (sh_commands s) = 0%nat)) in
  let s := drain_commands s in
  if now_ns <=? sh_time s then ([], if drained then shard_recompute_min s else s)
  else
    let now := shard_capped s now_ns in
    let old := sh_time s in
    let '(s, pending) := foldl (scan_plane_level old now) (set_now s now, []) (seq 0 kNumLevels) in
    (pending, if bool_decide (length pending = 0%nat) then s else shard_recompute_min s).

(** [push_command], with the lock-free queue as a list of at most 255 commands: a push
    is one step here, which [CommandQueue.complete_pushes_fifo] below justifies for
    pushes that are over when the shard drains its queue. *)
Definition push_command (s : TimerPlaneShard) (c : TimerCommand) : bool * TimerPlaneShard :=
  if zlen (sh_commands s) <? 255 then (true, set_commands s (sh_commands s ++ [c])) else (false, s).

(** ** [TimerPlane]: the shard of a call is chosen by the hash of its thread *)

Definition plane_init (num_shards tick : Z) : list TimerPlaneShard := (fun i => shard_init i tick) <$> seqZ 0 (if 0 <? num_shards then num_shards else 1).
Definition select_shard (thread_hash : Z) (p : list TimerPlaneShard) : nat := Z.to_nat (thread_hash mod zlen p).
Definition plane_schedule (thread_hash : Z) (p : list TimerPlaneShard) (delay : Z) (cb : C) : Z * list TimerPlaneShard :=
  let i := select_shard thread_hash p in
  match p !! i with None => (0, p) | Some s => let '(h, s) := shard_schedule s delay cb 0 0 in (h, <[i := s]> p) end.
Definition plane_cancel (p : list TimerPlaneShard) (h : Z) : bool * list TimerPlaneShard :=
  match p !! Z.to_nat (handle_shard h) with None => (false, p) | Some s => let '(r, s) := shard_cancel s h in (r, <[Z.to_nat (handle_shard h) := s]> p) end.
Fixpoint plane_advance (p : list TimerPlaneShard) (now : Z) : list C * list TimerPlaneShard :=
  match p with [] => ([], []) | s :: p => let '(f, s) := shard_advance s now in let '(fs, p) := plane_advance p now in (f ++ fs, s :: p) end.
Definition plane_next_deadline (p : list TimerPlaneShard) : Z := foldl (fun m s => if sh_min_deadline s <? m then sh_min_deadline s else m) INT64_MAX p.
Definition plane_size (p : list TimerPlaneShard) : Z := u64 (sum_by (fun s => sc_pending (sh_counters s)) p).
Definition plane_empty (p : list TimerPlaneShard) : bool := forallb (fun s => sc_pending (sh_counters s) <=? 0) p.
End Plane.
Arguments TimerNode : clear implicits.
Arguments TimerCommand : clear implicits.
Arguments TimerPlaneShard : clear implicits.

(** ** [TimerCommandQueue]

    A producer claims the next index with an exchange on the tail and then writes its
    command; [drain_all] reads what lies between head and tail. *)
Module CommandQueue.
Section Queue.
Context {A : Type}.

Definition kCapacity : Z := 256.
(** [cq_claimed]: indices that are claimed and not written yet; [cq_drained]: what the
    consumer read, [None] for an entry as the constructor left it. *)
Record CommandQueueState := mkCQ { cq_buffer : gmap Z A; cq_head : Z; cq_tail : Z; cq_claimed : list (Z * A); cq_drained : list (option A) }.
Definition cq_init : CommandQueueState := mkCQ ∅ 0 0 [] [].
Definition cq_span (q : CommandQueueState) : list Z := (fun i => (cq_head q + i) mod kCapacity) <$> seqZ 0 ((cq_tail q - cq_head q) mod kCapacity).

Definition cq_claim (q : CommandQueueState) (a : A) : CommandQueueState := mkCQ (cq_buffer q) (cq_head q) ((cq_tail q + 1) mod kCapacity) ((cq_tail q, a) :: cq_claimed q) (cq_drained q).
Definition cq_fill (q : CommandQueueState) (i : Z) (a : A) (rest : list (Z * A)) : CommandQueueState := mkCQ (<[i := a]> (cq_buffer q)) (cq_head q) (cq_tail q) rest (cq_drained q).
Definition cq_drain_all (q : CommandQueueState) : CommandQueueState := mkCQ (cq_buffer q) (cq_tail q) (cq_tail q) (cq_claimed q) (cq_drained q ++ ((fun i => cq_buffer q !! i) <$> cq_span q)).
Definition cq_full (q : CommandQueueState) : Prop := (cq_tail q + 1) mod kCapacity = cq_head q.

Inductive command_queue_step : CommandQueueState -> CommandQueueState -> Prop :=
| push_claim q a : ~ cq_full q -> command_queue_step q (cq_claim q a)
| push_fill q i a rest : cq_claimed q ≡ₚ (i, a) :: rest -> command_queue_step q (cq_fill q i a rest)
| drain q : command_queue_step q (cq_drain_all q).

(** The runs in which the queue is drained only when every claimed entry is written,
    with the commands in the order of their claims. *)
Inductive pushed_run : list A -> CommandQueueState -> Prop :=
| cr_init : pushed_run [] cq_init
| cr_claim l q a : pushed_run l q -> ~ cq_full q -> pushed_run (l ++ [a]) (cq_claim q a)
| cr_fill l q i a rest : pushed_run l q -> cq_claimed q ≡ₚ (i, a) :: rest -> pushed_run l (cq_fill q i a rest)
| cr_drain l q : pushed_run l q -> cq_claimed q = [] -> pushed_run l (cq_drain_all q).

(** The commands [p] between head and tail: each one is written, or claimed and still
    to be written. *)
#[local] Notation at_index q i := ((cq_head q + Z.of_nat i) mod kCapacity).
Record queue_holds (d p : list A) (q : CommandQueueState) : Prop := mkHolds {
  qh_drained : cq_drained q = Some <$> d;
  qh_head : 0 <= cq_head q < kCapacity;
  qh_tail : cq_tail q = at_index q (length p);
  qh_room : Z.of_nat (length p) < kCapacity;
  qh_claims : NoDup (cq_claimed q).*1;
  qh_entry : forall i a, p !! i = Some a -> (at_index q i, a) ∈ cq_claimed q \/ (at_index q i ∉ (cq_claimed q).*1 /\ cq_buffer q !! at_index q i = Some a);
  qh_claimed : forall x a, (x, a) ∈ cq_claimed q -> exists i, p !! i = Some a /\ x = at_index q i
}.

Lemma index_inj q i j : (Z.of_nat i < kCapacity) -> (Z.of_nat j < kCapacity) -> at_index q i = at_index q j -> i = j.
Proof. unfold kCapacity. intros Hi Hj E. Z.to_euclidean_division_equations. lia. Qed.

Lemma claim_holds d p q a : queue_holds d p q -> ~ cq_full q -> queue_holds d (p ++ [a]) (cq_claim q a).
Proof.
  intros [H1 H2 H3 H4 H5 H6 H7] Hf. assert (Hlt : Z.of_nat (length p) + 1 < kCapacity).
  { unfold cq_full in Hf. rewrite H3 in Hf. unfold kCapacity in *. Z.to_euclidean_division_equations. lia. }
  assert (Hfresh : at_index q (length p) ∉ (cq_claimed q).*1).
  { intros Hin. apply list_elem_of_fmap in Hin as ([x b] & E & Hin). simpl in E. destruct (H7 x b Hin) as (i & Hi & Ex).
    apply lookup_lt_Some in Hi. rewrite Ex in E. apply index_inj in E; lia. }
  split; simpl; try done.
  - rewrite length_app, H3. simpl. unfold kCapacity. Z.to_euclidean_division_equations. lia.
  - rewrite length_app. simpl. lia.
  - constructor; [by rewrite H3|done].
  - intros i b Hi. apply lookup_app_Some in Hi as [Hi|[Hge Hi]].
    + destruct (H6 i b Hi) as [Hc|[Hc Hb]]; [left; by right|right]. split; [|done]. rewrite not_elem_of_cons. split; [|done].
      rewrite H3. intros E. apply lookup_lt_Some in Hi. apply index_inj in E; lia.
    + apply list_lookup_singleton_Some in Hi as [Hi ->]. left. rewrite H3. replace i with (length p) by lia. by left.
  - intros x b [E|Hin]%elem_of_cons.
    + injection E as -> ->. exists (length p). by rewrite lookup_app_r, Nat.sub_diag, H3.
    + destruct (H7 x b Hin) as (i & Hi & ->). exists i. split; [by apply lookup_app_l_Some|done].
Qed.

Lemma fill_holds d p q x a rest : queue_holds d p q -> cq_claimed q ≡ₚ (x, a) :: rest -> queue_holds d p (cq_fill q x a rest).
Proof.
  intros [H1 H2 H3 H4 H5 H6 H7] Hp. assert (Hnd : NoDup (((x, a) :: rest).*1)) by (by rewrite <- Hp). apply NoDup_cons in Hnd as [Hx Hnd].
  destruct (H7 x a) as (j & Hj & Ej); [rewrite Hp; by left|]. pose proof (lookup_lt_Some _ _ _ Hj).
  split; simpl; try done.
  - intros i b Hi. pose proof (lookup_lt_Some _ _ _ Hi). destruct (decide (i = j)) as [->|Hne].
    + right. rewrite <- Ej, lookup_insert_eq. split; [done|congruence].
    + assert (Hxi : x <> at_index q i) by (rewrite Ej; intros E; apply index_inj in E; lia).
      rewrite lookup_insert_ne by done. destruct (H6 i b Hi) as [Hc|[Hc Hb]]; rewrite Hp in Hc.
      * left. apply elem_of_cons in Hc as [E|Hc]; [congruence|done].
      * right. split; [|done]. intros Hin. apply Hc. by right.
  - intros y b Hin. apply H7. rewrite Hp. by right.
Qed.

Lemma drain_holds d p q : queue_holds d p q -> cq_claimed q = [] -> queue_holds (d ++ p) [] (cq_drain_all q).
Proof.
  intros [H1 H2 H3 H4 H5 H6 H7] Hc. assert (Hspan : cq_span q = (fun i => at_index q i) <$> seq 0 (length p)).
  { unfold cq_span. rewrite H3. assert (E : (at_index q (length p) - cq_head q) mod kCapacity = Z.of_nat (length p))
      by (unfold kCapacity in *; Z.to_euclidean_division_equations; lia).
    rewrite E. unfold seqZ. rewrite Nat2Z.id, <- list_fmap_compose. apply list_fmap_ext. intros i y _. simpl. f_equal. lia. }
  assert (Hread : ((fun i => cq_buffer q !! i) <$> cq_span q) = Some <$> p).
  { rewrite Hspan, <- list_fmap_compose. apply list_eq. intros i. rewrite !list_lookup_fmap. destruct (p !! i) as [a|] eqn:E.
    - rewrite lookup_seq_lt by (by eapply lookup_lt_Some). simpl. destruct (H6 i a E) as [Hin|[_ ->]]; [|done]. rewrite Hc in Hin. by apply not_elem_of_nil in Hin.
    - rewrite lookup_seq_ge by (by apply lookup_ge_None). done. }
  assert (Ht : 0 <= cq_tail q < kCapacity) by (rewrite H3; apply Z.mod_pos_bound; done).
  split; simpl; try done.
  - by rewrite H1, Hread, fmap_app.
  - rewrite Z.add_0_r. by rewrite Z.mod_small.
  - intros x a Hin. rewrite Hc in Hin. by apply not_elem_of_nil in Hin.
Qed.

(** Pushes that are over when the queue is drained are a FIFO of at most 255 commands:
    what was drained is what was pushed, in the order of the claims, less what is
    still in the queue; and a push is refused exactly when it holds 255. *)
Lemma complete_pushes_fifo l q :
  pushed_run l q ->
  exists d p, l = d ++ p /\ cq_drained q = Some <$> d /\ (length p <= 255)%nat /\ (cq_full q <-> length p = 255%nat) /\
    (cq_claimed q = [] -> cq_drained (cq_drain_all q) = Some <$> l).
Proof.
  intros Hrun. assert (H : exists d p, l = d ++ p /\ queue_holds d p q).
  { induction Hrun as [|l q a _ (d & p & -> & Hq) Hf|l q i a rest _ (d & p & -> & Hq) Hp|l q _ (d & p & -> & Hq) Hc].
    - exists [], []. split; [done|]. split; simpl; try done; [apply NoDup_nil_2|intros x a Hin; by apply not_elem_of_nil in Hin].
    - exists d, (p ++ [a]). split; [by rewrite app_assoc|by apply claim_holds].
    - exists d, p. split; [done|by eapply fill_holds].
    - exists (d ++ p), []. split; [by rewrite app_nil_r|by apply drain_holds]. }
  destruct H as (d & p & -> & Hq). exists d, p. split; [done|]. pose proof Hq as [H1 H2 H3 H4 _ _ _]. unfold kCapacity in *.
  split; [done|]. split; [lia|]. split; [|intros Hc; apply (drain_holds d p q Hq Hc)].
  unfold cq_full, kCapacity. rewrite H3. Z.to_euclidean_division_equations. lia.
Qed.

(** An entry that is claimed and not written is drained: the consumer runs the command
    that the constructor left there, whose node is null, and the command that is
    written afterwards is not read. *)
Lemma drain_reads_unwritten (a : A) :
  exists q, steps command_queue_step cq_init q /\ cq_drained q = [None] /\ cq_buffer q !! 0 = Some a /\ cq_claimed q = [] /\ cq_head q = cq_tail q.
Proof.
  eexists. split.
  - eapply steps_step; [apply (push_claim _ a); intros E; by vm_compute in E|]. eapply steps_step; [apply drain|]. eapply steps_step; [apply (push_fill _ 0 a []); reflexivity|]. apply steps_refl.
  - by split_and!.
Qed.
End Queue.
End CommandQueue.
