(* ===== verification/TimerPlaneSpec.v ===== *)
(** * A timer shard implements a set of timers

    The abstract state maps slots to a generation, the time from which a timer may
    fire, the time by which it must have fired, its group and its callback; the two
    times differ only for timers that come through the queue of commands.  Every
    operation of [TimerPlaneShard] is a step of the abstract machine, and a plane
    fires on all its shards. *)

From S2P Require Import Prelude TimingWheel TimingWheelSpec TimerPlane.
From stdpp Require Import base numbers list list_numbers gmap.

#[local] Open Scope Z_scope.

(** ** Handles *)

Lemma handle_sum idx slot gen : 0 <= idx < 65536 -> 0 <= slot < 65536 -> 0 <= gen < 256 -> make_encoded idx slot gen 0 = slot + gen * 16777216 + idx * 4294967296.
Proof.
  intros Hi Hs Hg. unfold make_encoded. rewrite Z.shiftl_0_l, Z.lor_0_l, Z.lor_comm, (Z.lor_comm (Z.shiftl idx 32)), Z.lor_assoc.
  rewrite (lor_shiftl_add slot gen 24) by (change (2 ^ 24) with 16777216; lia). change (2 ^ 24) with 16777216.
  rewrite lor_shiftl_add by (change (2 ^ 32) with 4294967296; lia). done.
Qed.
Lemma handle_decode idx slot gen : 0 <= idx < 65536 -> 0 <= slot < 65536 -> 0 <= gen < 256 ->
  let h := make_encoded idx slot gen 0 in handle_shard h = idx /\ handle_slot h = slot /\ handle_generation h = gen.
Proof.
  intros Hi Hs Hg h. unfold h. rewrite handle_sum by done. unfold handle_shard, handle_slot, handle_generation.
  change 65535 with (Z.ones 16). change 16777215 with (Z.ones 24). change 255 with (Z.ones 8). rewrite !Z.land_ones, !Z.shiftr_div_pow2 by lia.
  change (2 ^ 24) with 16777216. change (2 ^ 32) with 4294967296. change (2 ^ 16) with 65536. change (2 ^ 8) with 256. Z.to_euclidean_division_equations. lia.
Qed.

Lemma slots_from_seqZ n : forall k, slots_from n k = seqZ k (Z.of_nat n).
Proof. induction n as [|n IH]; intros k; [done|]. unfold slots_from; fold slots_from. rewrite IH, (seqZ_cons k) by lia. f_equal. f_equal; lia. Qed.

Section Spec.
Context {C : Type}.
Implicit Types s : TimerPlaneShard C.

(** ** The abstract machine *)

Record ATimer := mkA { at_gen : Z; at_expire : Z; at_due : Z; at_group : Z; at_cb : C }.
Implicit Types A : gmap Z ATimer.

(** Some timers fire, each of which may. *)
Inductive fires (now : Z) : gmap Z ATimer -> list C -> gmap Z ATimer -> Prop :=
| fires_nil A : fires now A [] A
| fires_cons A k a cs A' : A !! k = Some a -> at_expire a <= now -> fires now (delete k A) cs A' -> fires now A (at_cb a :: cs) A'.

(** A handle names a timer of shard [idx] by slot and generation. *)
Definition spec_cancel (idx h : Z) A : bool * gmap Z ATimer :=
  match A !! handle_slot h with
  | Some a => if (handle_shard h =? idx) && (at_gen a =? handle_generation h) then (true, delete (handle_slot h) A) else (false, A)
  | None => (false, A)
  end.
Definition full A : Prop := forall k, 0 <= k < 65536 -> is_Some (A !! k).

Inductive command_step (idx tick time : Z) : TimerCommand C -> gmap Z ATimer -> gmap Z ATimer -> Prop :=
| cmd_schedule e g p cb k gen A : A !! k = None -> 0 <= k < 65536 -> command_step idx tick time (CmdSchedule e g p cb) A (<[k := mkA gen e (Z.max e (time + tick)) g cb]> A)
| cmd_dropped e g p cb A : full A -> command_step idx tick time (CmdSchedule e g p cb) A A
| cmd_cancel h A : command_step idx tick time (CmdCancel h) A (spec_cancel idx h A).2
| cmd_drain g A A' : (forall k, A' !! k = match A !! k with Some a => if at_group a =? g then None else Some a | None => None end) -> command_step idx tick time (CmdDrainGroup g) A A'.
Inductive commands_run (idx tick time : Z) : list (TimerCommand C) -> gmap Z ATimer -> gmap Z ATimer -> Prop :=
| commands_nil A : commands_run idx tick time [] A A
| commands_cons c cs A A1 A' : command_step idx tick time c A A1 -> commands_run idx tick time cs A1 A' -> commands_run idx tick time (c :: cs) A A'.

(** ** What a shard represents *)

(** The bucket of a node is that of a time between the two. *)
Definition node_rep (T tick k : Z) (a : ATimer) (n : TimerNode C) : Prop :=
  (tn_slot_index n = k /\ tn_generation n = at_gen a /\ tn_expire_ns n = at_expire a /\ tn_group_handle n = at_group a /\ tn_callback n = at_cb a) /\ (tn_wheel_level n < 4)%nat /\
  exists d, at_expire a <= d <= at_due a /\ T < d /\ tn_bucket_idx n = plane_bucket tick (tn_wheel_level n) d.

Record shard_rep (T : Z) A s : Prop := mkRep {
  r_index : 0 <= sh_index s < 65536;
  r_tick : 0 < sh_tick_ns s;
  r_nodes : forall k n, sh_slots s !! k = Some n -> exists a, A !! k = Some a /\ node_rep T (sh_tick_ns s) k a n;
  r_dom : forall k, A !! k = None <-> sh_slots s !! k = None;
  r_buckets : forall l b k, k ∈ bget (sh_buckets s) l b <-> exists n, sh_slots s !! k = Some n /\ tn_wheel_level n = l /\ tn_bucket_idx n = b;
  r_nodup : forall l b, NoDup (bget (sh_buckets s) l b);
  r_free : NoDup (sh_free s) /\ forall k, k ∈ sh_free s <-> 0 <= k < 65536 /\ sh_slots s !! k = None;
  r_used : forall k n, sh_slots s !! k = Some n -> 0 <= k < 65536;
  r_gen : forall k n, sh_slots s !! k = Some n -> default 0 (sh_generations s !! k) = tn_generation n /\ 0 <= tn_generation n < 256
}.
(** The cached deadline is not after any timer. *)
Definition min_ok s : Prop := forall k n, sh_slots s !! k = Some n -> sh_min_deadline s <= tn_expire_ns n.

(** What does not touch slots and buckets. *)
Lemma rep_count T A s f : shard_rep T A s -> shard_rep T A (count_with f s).
Proof. by intros []. Qed.
Lemma rep_deadline T A s m : shard_rep T A s -> shard_rep T A (set_min_deadline s m).
Proof. by intros []. Qed.
Lemma rep_now T A s t : shard_rep T A s -> shard_rep T A (set_now s t).
Proof. by intros []. Qed.
Lemma rep_commands T A s l : shard_rep T A s -> shard_rep T A (set_commands s l).
Proof. by intros []. Qed.

(** ** Taking a node out *)

Lemma rep_drop T A s k n : shard_rep T A s -> sh_slots s !! k = Some n -> shard_rep T (delete k A) (drop_timer_node s n) /\ sh_slots (drop_timer_node s n) = delete k (sh_slots s).
Proof.
  intros [Hi Ht Hn Hd Hb Hnd [Hf1 Hf2] Hu Hg] Ek. destruct (Hn k n Ek) as (a & Ea & (Es & _) & _). destruct (Hg k n Ek) as [Eg _]. pose proof (Hu k n Ek) as Hk.
  unfold drop_timer_node, release_timer_slot, remove_from_wheel. rewrite Es. rewrite (proj2 (Z.leb_gt kMaxSlots k)) by (unfold kMaxSlots; lia). simpl. rewrite Eg, Z.eqb_refl. simpl. split; [|done].
  split; simpl; try done.
  - intros k' n' E. apply lookup_delete_Some in E as [Hne E]. destruct (Hn k' n' E) as (a' & Ea' & Hr). exists a'. by rewrite lookup_delete_ne.
  - intros k'. destruct (decide (k = k')) as [<-|Hne]; [by rewrite !lookup_delete_eq|by rewrite !lookup_delete_ne].
  - intros l b k'. rewrite bget_bset. destruct (decide ((l, b) = _)) as [E|E].
    + injection E as -> ->. rewrite elem_of_erase, Hb by done. split.
      * intros [(n' & E' & ? & ?) Hne]. exists n'. by rewrite lookup_delete_ne.
      * intros (n' & E' & ? & ?). apply lookup_delete_Some in E' as [Hne E']. split; [by exists n'|done].
    + rewrite Hb. split; intros (n' & E' & El & Ebk).
      * exists n'. rewrite lookup_delete_ne; [done|]. intros <-. rewrite Ek in E'. injection E' as <-. by rewrite El, Ebk in E.
      * apply lookup_delete_Some in E' as [_ E']. by exists n'.
  - intros l b. rewrite bget_bset. destruct (decide _); [by apply NoDup_erase|done].
  - split.
    + constructor; [|done]. intros Hin. apply Hf2 in Hin as [_ Hin]. by rewrite Ek in Hin.
    + intros k'. rewrite elem_of_cons, Hf2. destruct (decide (k = k')) as [<-|Hne]; [rewrite lookup_delete_eq|rewrite lookup_delete_ne by done]; naive_solver.
  - intros k' n' E. apply lookup_delete_Some in E as [_ E]. by apply (Hu k' n').
  - intros k' n' E. apply lookup_delete_Some in E as [_ E]. by apply Hg.
Qed.

(** ** Putting a node in *)

Lemma rep_add T A s slot free n a gen cmds m ctr t : shard_rep T A s -> sh_free s = slot :: free -> node_rep T (sh_tick_ns s) slot a n -> tn_generation n = gen -> 0 <= gen < 256 ->
  shard_rep T (<[slot := a]> A) (mkShard (sh_index s) (sh_tick_ns s) t (<[slot := n]> (sh_slots s)) (<[slot := gen]> (sh_generations s)) free
    (bset (sh_buckets s) (tn_wheel_level n) (tn_bucket_idx n) (bget (sh_buckets s) (tn_wheel_level n) (tn_bucket_idx n) ++ [slot])) cmds m ctr).
Proof.
  intros [Hi Ht Hn Hd Hb Hnd [Hf1 Hf2] Hu Hg] Ef Hr Eg Hgr. rewrite Ef in Hf1, Hf2. apply NoDup_cons in Hf1 as [Hnf Hf1]. destruct (proj1 (Hf2 slot) ltac:(by left)) as [Hsl Hnone].
  split; simpl; try done.
  - intros k n' E. apply lookup_insert_Some in E as [[<- <-]|[Hne E]]; [exists a; by rewrite lookup_insert_eq|]. destruct (Hn k n' E) as (a' & Ea' & Hr'). exists a'. by rewrite lookup_insert_ne.
  - intros k. destruct (decide (slot = k)) as [<-|Hne]; [by rewrite !lookup_insert_eq|by rewrite !lookup_insert_ne].
  - intros l b k. rewrite bget_bset. destruct (decide ((l, b) = _)) as [E|E].
    + injection E as -> ->. rewrite elem_of_app, list_elem_of_singleton, Hb. split.
      * intros [(n' & E' & ? & ?)| -> ]; [exists n'; rewrite lookup_insert_ne; [done|]; intros <-; by rewrite Hnone in E'|exists n; by rewrite lookup_insert_eq].
      * intros (n' & E' & ? & ?). apply lookup_insert_Some in E' as [[<- <-]|[Hne E']]; [by right|left; by exists n'].
    + rewrite Hb. split; intros (n' & E' & El & Ebk).
      * exists n'. rewrite lookup_insert_ne; [done|]. intros <-. by rewrite Hnone in E'.
      * apply lookup_insert_Some in E' as [[<- <-]|[Hne E']]; [by rewrite El, Ebk in E|by exists n'].
  - intros l b. rewrite bget_bset. destruct (decide _); [|done]. apply NoDup_app. split; [done|]. split; [|apply NoDup_singleton]. intros k Hk Hk'. apply list_elem_of_singleton in Hk' as ->.
    apply Hb in Hk as (n' & E' & _). by rewrite Hnone in E'.
  - split; [done|]. intros k. destruct (decide (slot = k)) as [<-|Hne]; [rewrite lookup_insert_eq; naive_solver|]. rewrite lookup_insert_ne by done.
    specialize (Hf2 k). rewrite elem_of_cons in Hf2. naive_solver.
  - intros k n' E. apply lookup_insert_Some in E as [[<- _]|[_ E]]; [done|by apply (Hu k n')].
  - intros k n' E. apply lookup_insert_Some in E as [[<- <-]|[Hne E]]; [rewrite lookup_insert_eq; simpl; by rewrite Eg|]. rewrite lookup_insert_ne by done. by apply Hg.
Qed.

Lemma next_generation_range g : 0 < next_generation g < 256.
Proof. unfold next_generation. pose proof (u8_range (g + 1)). destruct (Z.eqb_spec (u8 (g + 1)) 0) as [->|]; [vm_compute; done|lia]. Qed.
Lemma plane_level_lt tick d : (plane_level tick d < 4)%nat.
Proof.
  unfold plane_level. destruct (list_find _ _) as [[i l]|] eqn:E; [|unfold kNumLevels; lia]. apply list_find_Some in E as (E & _ & _). apply list_elem_of_lookup_2, elem_of_seq in E. unfold kNumLevels in E. lia.
Qed.

(** The node that [acquire_slot] and [insert_into_wheel] leave. *)
Definition wheeled s (n : TimerNode C) : TimerNode C :=
  let expire := Z.max (tn_expire_ns n) (sh_time s + sh_tick_ns s) in
  let level := plane_level (sh_tick_ns s) (expire - sh_time s) in place_node n level (plane_bucket (sh_tick_ns s) level expire).
Definition added s slot free n gen : TimerPlaneShard C :=
  mkShard (sh_index s) (sh_tick_ns s) (sh_time s) (<[slot := n]> (sh_slots s)) (<[slot := gen]> (sh_generations s)) free
    (bset (sh_buckets s) (tn_wheel_level n) (tn_bucket_idx n) (bget (sh_buckets s) (tn_wheel_level n) (tn_bucket_idx n) ++ [slot])) (sh_commands s) (sh_min_deadline s) (sh_counters s).

Lemma insert_added s mk slot free : sh_free s = slot :: free -> (forall k g, tn_slot_index (mk k g) = k) ->
  let gen := next_generation (default 0 (sh_generations s !! slot)) in
  exists s1, acquire_slot s mk = Some (slot, s1) /\ sh_slots s1 !! slot = Some (mk slot gen) /\ insert_into_wheel s1 (mk slot gen) = added s slot free (wheeled s (mk slot gen)) gen.
Proof.
  intros Ef Hmk gen. unfold acquire_slot. rewrite Ef. eexists. split; [done|]. split; [simpl; by rewrite lookup_insert_eq|].
  unfold insert_into_wheel, put_node, added, wheeled. simpl. rewrite Hmk. by rewrite insert_insert_eq.
Qed.

Definition node_timer (due : Z) (n : TimerNode C) : ATimer := mkA (tn_generation n) (tn_expire_ns n) due (tn_group_handle n) (tn_callback n).
Lemma rep_added A s slot free n gen e : let T := sh_time s in
  shard_rep T A s -> sh_free s = slot :: free -> tn_slot_index n = slot -> tn_generation n = gen -> 0 <= gen < 256 ->
  e = tn_expire_ns n \/ e = Z.max (tn_expire_ns n) (T + sh_tick_ns s) ->
  shard_rep T (<[slot := mkA gen e (Z.max (tn_expire_ns n) (T + sh_tick_ns s)) (tn_group_handle n) (tn_callback n)]> A) (added s slot free (with_expire (wheeled s n) e) gen).
Proof.
  intros T Hr Ef Es Eg Hg He. pose proof (r_tick _ _ _ Hr). unfold added. apply rep_add; try done. split; [done|]. split; [apply plane_level_lt|].
  exists (Z.max (tn_expire_ns n) (T + sh_tick_ns s)). split; [simpl; lia|]. split; [lia|done].
Qed.
Lemma with_same n : with_expire n (tn_expire_ns n) = n :> TimerNode C.
Proof. by destruct n. Qed.
Lemma added_min s slot free n gen e : min_ok s -> tn_expire_ns n = e -> min_ok (count_with count_scheduled (lower_min (added s slot free n gen) e)).
Proof.
  intros Hm En k n' E. unfold lower_min in *. assert (E' : <[slot := n]> (sh_slots s) !! k = Some n') by (by destruct (e <? _)).
  apply lookup_insert_Some in E' as [[<- <-]|[_ E']]; destruct (Z.ltb_spec e (sh_min_deadline (added s slot free n gen))); simpl in *; [lia|lia|specialize (Hm _ _ E'); lia|by apply (Hm k)].
Qed.

Lemma added_again s slot free n gen e : tn_slot_index n = slot -> put_node (added s slot free n gen) (with_expire n e) = added s slot free (with_expire n e) gen.
Proof. intros Es. unfold put_node, set_slot_table, added. simpl. rewrite Es. by rewrite insert_insert_eq. Qed.

Lemma full_no_free T A s : shard_rep T A s -> sh_free s = [] -> full A.
Proof.
  intros Hr Ef k Hk. destruct (A !! k) eqn:Ea; [by eexists|]. apply (r_dom _ _ _ Hr) in Ea. destruct (r_free _ _ _ Hr) as [_ Hf]. rewrite Ef in Hf. by destruct (not_elem_of_nil k (proj2 (Hf k) (conj Hk Ea))).
Qed.
Lemma free_slot T A s slot free : shard_rep T A s -> sh_free s = slot :: free -> A !! slot = None /\ 0 <= slot < 65536.
Proof. intros Hr Ef. destruct (r_free _ _ _ Hr) as [_ Hf]. rewrite Ef in Hf. destruct (proj1 (Hf slot) ltac:(by left)) as [Hs Hn]. split; [by apply (r_dom _ _ _ Hr)|done]. Qed.

Lemma schedule_rep A s delay cb g p : let T := sh_time s in
  shard_rep T A s -> min_ok s ->
  let e := Z.max (i64 (T + delay)) (T + sh_tick_ns s) in
  let '(h, s') := shard_schedule s delay cb g p in
  min_ok s' /\ sh_time s' = T /\ sh_commands s' = sh_commands s /\ sh_index s' = sh_index s /\ sh_tick_ns s' = sh_tick_ns s /\
  (full A /\ h = 0 /\ shard_rep T A s' \/
   exists slot gen, A !! slot = None /\ 0 <= slot < 65536 /\ 0 < gen < 256 /\ h = make_encoded (sh_index s) slot gen 0 /\ shard_rep T (<[slot := mkA gen e e g cb]> A) s').
Proof.
  intros T Hr Hm e. unfold shard_schedule. set (mk := fun slot gen => mkNode (i64 (T + delay)) slot gen g p 0 0 cb). fold T. fold mk.
  destruct (sh_free s) as [|slot free] eqn:Ef.
  { unfold acquire_slot. rewrite Ef. split; [done|]. do 4 (split; [done|]). left. split; [by eapply full_no_free|]. split; [done|by apply rep_count]. }
  set (gen := next_generation (default 0 (sh_generations s !! slot))). destruct (insert_added s mk slot free Ef ltac:(done)) as (s1 & -> & -> & E). fold gen in E |- *. rewrite E.
  set (n := mk slot gen). pose proof (next_generation_range (default 0 (sh_generations s !! slot))) as Hg. fold gen in Hg.
  replace (sh_slots (added s slot free (wheeled s n) gen) !! slot) with (Some (wheeled s n)) by (simpl; by rewrite lookup_insert_eq).
  rewrite added_again by done. change (sh_time (added _ _ _ _ _)) with T. change (sh_tick_ns (added _ _ _ _ _)) with (sh_tick_ns s). fold e. cbn [sh_index added].
  split; [by apply added_min|]. assert (Hl : forall m : TimerPlaneShard C, sh_time (lower_min m e) = sh_time m /\ sh_commands (lower_min m e) = sh_commands m /\ sh_index (lower_min m e) = sh_index m /\ sh_tick_ns (lower_min m e) = sh_tick_ns m) by (intros m; unfold lower_min; by destruct (e <? _)).
  destruct (Hl (added s slot free (with_expire (wheeled s n) e) gen)) as (L1 & L2 & L3 & L4). split; [exact L1|]. split; [exact L2|]. split; [exact L3|]. split; [exact L4|].
  right. exists slot, gen. destruct (free_slot T A s slot free Hr Ef) as [Hn Hsl]. do 3 (split; [done|]). split; [done|]. apply rep_count.
  assert (Hadd : shard_rep T (<[slot := mkA gen e e g cb]> A) (added s slot free (with_expire (wheeled s n) e) gen)) by (apply (rep_added A s slot free n gen e); try done; [lia|by right]).
  unfold lower_min. destruct (e <? _); [by apply rep_deadline|done].
Qed.

(** ** The cached deadline *)

Definition shard_frame s : Z * Z * Z * list (TimerCommand C) := (sh_index s, sh_tick_ns s, sh_time s, sh_commands s).

Lemma plane_bucket_range tick l t : 0 <= plane_bucket tick l t < 256.
Proof. unfold plane_bucket, kBucketsPerLevel. change (256 - 1) with (Z.ones 8). rewrite Z.land_ones by lia. apply Z.mod_pos_bound. done. Qed.
Lemma all_slots_spec T A s k : shard_rep T A s -> k ∈ all_slots s <-> is_Some (sh_slots s !! k).
Proof.
  intros Hr. unfold all_slots. rewrite list_elem_of_bind. setoid_rewrite list_elem_of_bind. split.
  - intros (l & (b & Hk & _) & _). apply (r_buckets _ _ _ Hr) in Hk as (n & -> & _). by eexists.
  - intros [n Ek]. destruct (r_nodes _ _ _ Hr k n Ek) as (a & _ & _ & Hl & (d & _ & _ & Hb)). exists (tn_wheel_level n). split; [|apply elem_of_seq; unfold kNumLevels; lia].
    exists (tn_bucket_idx n). split; [apply (r_buckets _ _ _ Hr); by exists n|]. apply elem_of_seqZ. rewrite Hb. pose proof (plane_bucket_range (sh_tick_ns s) (tn_wheel_level n) d). unfold kBucketsPerLevel. lia.
Qed.
Lemma foldl_min_le (M : gmap Z (TimerNode C)) ks : forall m0,
  let m := foldl (fun m k => match M !! k with Some n => Z.min m (tn_expire_ns n) | None => m end) m0 ks in
  m <= m0 /\ forall k n, k ∈ ks -> M !! k = Some n -> m <= tn_expire_ns n.
Proof.
  induction ks as [|x ks IH]; intros m0; simpl; [split; [lia|]; intros k n Hk; by apply not_elem_of_nil in Hk|].
  destruct (IH (match M !! x with Some n => Z.min m0 (tn_expire_ns n) | None => m0 end)) as [H1 H2]. split; [destruct (M !! x); lia|].
  intros k n Hk Ek. apply elem_of_cons in Hk as [->|Hk]; [rewrite Ek in H1; rewrite Ek; lia|by apply (H2 k)].
Qed.
Lemma recompute_ok T A s : shard_rep T A s -> shard_rep T A (shard_recompute_min s) /\ min_ok (shard_recompute_min s) /\ shard_frame (shard_recompute_min s) = shard_frame s.
Proof.
  intros Hr. split; [by apply rep_deadline|]. split; [|done]. intros k n Ek. simpl in Ek |- *. eapply foldl_min_le; [|exact Ek]. apply (all_slots_spec T A s k Hr). by eexists.
Qed.

(** ** Cancelling *)

Lemma drop_frame s n : shard_frame (drop_timer_node s n) = shard_frame s /\ sh_min_deadline (drop_timer_node s n) = sh_min_deadline s.
Proof. unfold drop_timer_node, release_timer_slot. repeat case_match; done. Qed.

Lemma cancel_rep T A s h : shard_rep T A s -> min_ok s ->
  shard_rep T (spec_cancel (sh_index s) h A).2 (shard_cancel s h).2 /\ (shard_cancel s h).1 = (spec_cancel (sh_index s) h A).1 /\ min_ok (shard_cancel s h).2 /\ shard_frame (shard_cancel s h).2 = shard_frame s.
Proof.
  intros Hr Hm. unfold shard_cancel, spec_cancel. destruct (sh_slots s !! handle_slot h) as [n|] eqn:Ek.
  - destruct (r_nodes _ _ _ Hr _ _ Ek) as (a & Ea & (Es & Eg & _) & _). rewrite Ea. destruct (r_gen _ _ _ Hr _ _ Ek) as [Egen _]. pose proof (r_used _ _ _ Hr _ _ Ek) as Hk.
    rewrite (proj2 (Z.leb_gt _ _)) by (unfold kMaxSlots; lia). rewrite Egen, <- Eg. destruct (handle_shard h =? sh_index s); [|done]. simpl.
    destruct (Z.eqb_spec (tn_generation n) (handle_generation h)) as [E|]; [|done]. simpl.
    replace (release_timer_slot (remove_from_wheel s n) (handle_slot h) (handle_generation h)) with (drop_timer_node s n) by (unfold drop_timer_node; by rewrite Es, E).
    destruct (rep_drop T A s _ n Hr Ek) as [Hd Hsl]. destruct (drop_frame s n) as [Hf Hmin].
    assert (Hmd : min_ok (drop_timer_node s n)). { intros k' n' E'. rewrite Hmin. rewrite Hsl in E'. apply lookup_delete_Some in E' as [_ E']. by apply (Hm k'). }
    destruct (recompute_ok T _ _ Hd) as (R1 & R2 & R3). destruct (tn_expire_ns n <=? sh_min_deadline (drop_timer_node s n)).
    + split; [by apply rep_count|]. split; [done|]. split; [done|]. unfold shard_frame in *. simpl in *. congruence.
    + split; [by apply rep_count|]. split; [done|]. split; [done|]. unfold shard_frame in *. simpl in *. congruence.
  - rewrite (proj2 (r_dom _ _ _ Hr _) Ek). destruct (negb _); [done|]. by destruct (_ <=? _).
Qed.

(** ** Commands *)

Lemma drain_group_rep T g ks : forall A s, shard_rep T A s -> exists A', shard_rep T A' (foldl (drain_group_node g) s ks) /\ shard_frame (foldl (drain_group_node g) s ks) = shard_frame s /\
  forall k, A' !! k = match A !! k with Some a => if (at_group a =? g) && bool_decide (k ∈ ks) then None else Some a | None => None end.
Proof.
  induction ks as [|x ks IH]; intros A s Hr.
  { exists A. split; [done|]. split; [done|]. intros k. destruct (A !! k) as [a|]; [|done]. rewrite bool_decide_false by apply not_elem_of_nil. by rewrite andb_false_r. }
  assert (H1 : exists A1, shard_rep T A1 (drain_group_node g s x) /\ shard_frame (drain_group_node g s x) = shard_frame s /\ A1 = match A !! x with Some a => if at_group a =? g then delete x A else A | None => A end).
  { unfold drain_group_node. destruct (sh_slots s !! x) as [n|] eqn:Ex; [|rewrite (proj2 (r_dom _ _ _ Hr _) Ex); by exists A].
    destruct (r_nodes _ _ _ Hr _ _ Ex) as (a & Ea & (_ & _ & _ & Eg & _) & _). rewrite Ea, <- Eg. destruct (tn_group_handle n =? g); [|by exists A].
    exists (delete x A). destruct (rep_drop T A s x n Hr Ex) as [Hd _]. split; [by apply rep_count|]. split; [|done]. destruct (drop_frame s n) as [Hf _]. exact Hf. }
  destruct H1 as (A1 & Hr1 & Hf1 & E1). simpl. destruct (IH A1 _ Hr1) as (A' & Hr' & Hf' & E'). exists A'. split; [done|]. split; [congruence|].
  intros k. rewrite E', E1. destruct (decide (k = x)) as [->|Hne].
  - destruct (A !! x) as [a|] eqn:Ea; [|by rewrite Ea]. destruct (at_group a =? g) eqn:Eg; [by rewrite lookup_delete_eq, bool_decide_true by (by left)|]. by rewrite Ea, Eg.
  - assert (Ek : (match A !! x with Some a => if at_group a =? g then delete x A else A | None => A end) !! k = A !! k) by (destruct (A !! x) as [a|]; [destruct (at_group a =? g); [by rewrite lookup_delete_ne|done]|done]).
    rewrite Ek. destruct (A !! k) as [a|]; [|done]. replace (bool_decide (k ∈ x :: ks)) with (bool_decide (k ∈ ks)); [done|]. apply bool_decide_ext. rewrite elem_of_cons. naive_solver.
Qed.

Lemma command_rep A s c : let T := sh_time s in shard_rep T A s -> min_ok s ->
  exists A', command_step (sh_index s) (sh_tick_ns s) T c A A' /\ shard_rep T A' (run_timer_command s c) /\ min_ok (run_timer_command s c) /\ shard_frame (run_timer_command s c) = shard_frame s.
Proof.
  intros T Hr Hm. destruct c as [e g p cb|h|g]; cbn [run_timer_command].
  - set (mk := fun slot gen => mkNode e slot gen g p 0 0 cb). destruct (sh_free s) as [|slot free] eqn:Ef.
    { unfold acquire_slot. rewrite Ef. exists A. split; [apply cmd_dropped; by eapply full_no_free|]. split; [by apply rep_count|done]. }
    set (gen := next_generation (default 0 (sh_generations s !! slot))). destruct (insert_added s mk slot free Ef ltac:(done)) as (s1 & -> & -> & E). fold gen in E |- *. rewrite E.
    pose proof (next_generation_range (default 0 (sh_generations s !! slot))) as Hg. fold gen in Hg. destruct (free_slot T A s slot free Hr Ef) as [Hn Hsl].
    exists (<[slot := mkA gen e (Z.max e (T + sh_tick_ns s)) g cb]> A). split; [by constructor|].
    assert (Hadd : shard_rep T (<[slot := mkA gen e (Z.max e (T + sh_tick_ns s)) g cb]> A) (added s slot free (wheeled s (mk slot gen)) gen)).
    { rewrite <- (with_same (wheeled s (mk slot gen))). apply (rep_added A s slot free (mk slot gen) gen e); try done; [lia|by left]. }
    split; [apply rep_count; unfold lower_min; destruct (e <? _); [by apply rep_deadline|done]|]. split; [by apply added_min|]. unfold lower_min. by destruct (e <? _).
  - destruct (cancel_rep T A s h Hr Hm) as (H1 & _ & H3 & H4). exists (spec_cancel (sh_index s) h A).2. by split; [constructor|].
  - destruct (drain_group_rep T g (all_slots s) A s Hr) as (A' & Hr' & Hf & E). exists A'. destruct (recompute_ok T A' _ Hr') as (R1 & R2 & R3). split; [constructor|split; [done|split; [done|congruence]]].
    intros k. rewrite E. destruct (A !! k) as [a|] eqn:Ea; [|done]. rewrite bool_decide_true; [by rewrite andb_true_r|]. apply (all_slots_spec T A s k Hr). destruct (sh_slots s !! k) eqn:Ek; [by eexists|].
    apply (r_dom _ _ _ Hr) in Ek. congruence.
Qed.

Lemma drain_rep A s : let T := sh_time s in shard_rep T A s -> min_ok s ->
  exists A', commands_run (sh_index s) (sh_tick_ns s) T (sh_commands s) A A' /\ shard_rep T A' (drain_commands s) /\ min_ok (drain_commands s) /\ shard_frame (drain_commands s) = (sh_index s, sh_tick_ns s, T, []).
Proof.
  intros T Hr Hm. unfold drain_commands. assert (G : forall cmds A0 s0, shard_rep T A0 s0 -> min_ok s0 -> shard_frame s0 = (sh_index s, sh_tick_ns s, T, []) ->
    exists A', commands_run (sh_index s) (sh_tick_ns s) T cmds A0 A' /\ shard_rep T A' (foldl run_timer_command s0 cmds) /\ min_ok (foldl run_timer_command s0 cmds) /\ shard_frame (foldl run_timer_command s0 cmds) = (sh_index s, sh_tick_ns s, T, [])).
  { induction cmds as [|c cmds IH]; intros A0 s0 H0 Hm0 Hf0; [exists A0; by split; [constructor|]|]. assert (Et : sh_time s0 = T /\ sh_index s0 = sh_index s /\ sh_tick_ns s0 = sh_tick_ns s) by (by injection Hf0). destruct Et as (Et & Ei & Ek).
    destruct (command_rep A0 s0 c) as (A1 & Hc & Hr1 & Hm1 & Hf1); [by rewrite Et|done|]. rewrite Et in Hc, Hr1. rewrite Ei, Ek in Hc. simpl. destruct (IH A1 _ Hr1 Hm1) as (A' & Hrun & Hr' & Hm' & Hf'); [congruence|]. exists A'. split; [by econstructor|done]. }
  apply G; [by apply rep_commands|done|done].
Qed.

(** ** Scanning *)

Lemma fires_app now A cs A1 ds A2 : fires now A cs A1 -> fires now A1 ds A2 -> fires now A (cs ++ ds) A2.
Proof. induction 1; intros; simpl; [done|]. econstructor; eauto. Qed.
Lemma fires_sub now A cs A' k a : fires now A cs A' -> A' !! k = Some a -> A !! k = Some a.
Proof. induction 1 as [|A k' a' cs A' Ek He Hf IH]; [done|]. intros E. apply IH in E. by apply lookup_delete_Some in E as [_ E]. Qed.

(** The timer in slot [k], if any, is in a bucket of a time after [now]. *)
Definition settled (now : Z) A s (k : Z) : Prop := forall n, sh_slots s !! k = Some n -> exists a, A !! k = Some a /\ node_rep now (sh_tick_ns s) k a n.

(** What a part of a scan does. *)
Record scanned (old now : Z) A s (cs : list C) A' s' : Prop := mkScanned {
  sn_fires : fires now A cs A';
  sn_rep : shard_rep old A' s';
  sn_frame : shard_frame s' = shard_frame s;
  sn_min : sh_min_deadline s' = sh_min_deadline s;
  sn_expire : forall k n', sh_slots s' !! k = Some n' -> exists n, sh_slots s !! k = Some n /\ tn_expire_ns n' = tn_expire_ns n;
  sn_keep : forall k n, sh_slots s' !! k = Some n -> sh_slots s !! k = Some n \/ settled now A' s' k
}.
Lemma scanned_refl old now A s : shard_rep old A s -> scanned old now A s [] A s.
Proof. intros Hr. split; try done; [constructor|intros k n E; by exists n|by left]. Qed.
Lemma scanned_settled old now A s cs A' s' k : shard_rep old A s -> scanned old now A s cs A' s' -> settled now A s k -> settled now A' s' k.
Proof.
  intros Hr [Hf Hr' Hfr _ _ Hk] Hs n En. destruct (Hk k n En) as [Eo|Ho]; [|by apply Ho]. destruct (Hs n Eo) as (a & Ea & Hn). destruct (r_nodes _ _ _ Hr' k n En) as (a' & Ea' & _).
  rewrite (fires_sub _ _ _ _ _ _ Hf Ea') in Ea. injection Ea as <-. exists a'. split; [done|]. replace (sh_tick_ns s') with (sh_tick_ns s); [done|]. unfold shard_frame in Hfr. congruence.
Qed.
Lemma scanned_trans old now A s cs A1 s1 ds A2 s2 : shard_rep old A s -> scanned old now A s cs A1 s1 -> scanned old now A1 s1 ds A2 s2 -> scanned old now A s (cs ++ ds) A2 s2.
Proof.
  intros Hr H1 H2. pose proof H1 as [F1 R1 E1 M1 X1 K1]. pose proof H2 as [F2 R2 E2 M2 X2 K2]. split; [by eapply fires_app|done|congruence|congruence| |].
  - intros k n E. destruct (X2 k n E) as (n1 & En1 & Ee1). destruct (X1 k n1 En1) as (n0 & En0 & Ee0). exists n0. split; [done|congruence].
  - intros k n E. destruct (K2 k n E) as [Eo|Ho]; [|by right]. destruct (K1 k n Eo) as [Eo'|Ho']; [by left|]. right. exact (scanned_settled old now A1 s1 ds A2 s2 k R1 H2 Ho').
Qed.

(** Moving a node to another bucket. *)
Lemma rep_move T A s k n l d a : shard_rep T A s -> sh_slots s !! k = Some n -> A !! k = Some a -> (l < 4)%nat -> at_expire a <= d <= at_due a -> T < d ->
  let b := plane_bucket (sh_tick_ns s) l d in
  let s1 := remove_from_wheel s n in
  shard_rep T A (put_node (set_wheel s1 (bset (sh_buckets s1) l b (bget (sh_buckets s1) l b ++ [k]))) (place_node n l b)).
Proof.
  intros [Hi Ht Hn Hd Hb Hnd Hf Hu Hg] Ek Ea Hl Hde HT b s1. destruct (Hn k n Ek) as (a' & Ea' & Hfields & Hlev & _). rewrite Ea in Ea'. injection Ea' as <-. pose proof Hfields as (Es & Hrest).
  unfold put_node, s1, remove_from_wheel. simpl. rewrite Es. set (B := bset (sh_buckets s) (tn_wheel_level n) (tn_bucket_idx n) _).
  assert (HB : forall l' b' k', k' ∈ bget B l' b' <-> k' <> k /\ k' ∈ bget (sh_buckets s) l' b').
  { intros l' b' k'. unfold B. rewrite bget_bset. destruct (decide _) as [E|E]; [injection E as -> ->; rewrite elem_of_erase by done; naive_solver|].
    split; [|naive_solver]. intros Hin. split; [|done]. intros ->. apply Hb in Hin as (n' & E' & <- & <-). rewrite Ek in E'. by injection E' as <-. }
  assert (HBn : forall l' b', NoDup (bget B l' b')) by (intros l' b'; unfold B; rewrite bget_bset; destruct (decide _); [by apply NoDup_erase|done]).
  split; simpl; try done.
  - intros k' n' E. apply lookup_insert_Some in E as [[<- <-]|[Hne E]]; [|by apply Hn]. exists a. split; [done|]. split; [done|]. split; [done|]. by exists d.
  - intros k'. rewrite Hd. destruct (decide (k = k')) as [<-|Hne]; [rewrite lookup_insert_eq, Ek; naive_solver|by rewrite lookup_insert_ne].
  - intros l' b' k'. rewrite bget_bset. destruct (decide _) as [E|E].
    + injection E as -> ->. rewrite elem_of_app, list_elem_of_singleton, HB, Hb. split.
      * intros [[Hne (n' & E' & ? & ?)]| -> ]; [exists n'; by rewrite lookup_insert_ne|]. exists (place_node n l b). by rewrite lookup_insert_eq.
      * intros (n' & E' & ? & ?). apply lookup_insert_Some in E' as [[<- _]|[Hne E']]; [by right|]. left. split; [done|]. by exists n'.
    + rewrite HB, Hb. split.
      * intros [Hne (n' & E' & ? & ?)]. exists n'. by rewrite lookup_insert_ne.
      * intros (n' & E' & El & Eb). apply lookup_insert_Some in E' as [[<- <-]|[Hne E']]; [simpl in El, Eb; by rewrite El, Eb in E|]. split; [done|]. by exists n'.
  - intros l' b'. rewrite bget_bset. destruct (decide _) as [E|E]; [|done]. apply NoDup_app. split; [done|]. split; [|apply NoDup_singleton]. intros x Hx Hx'. apply list_elem_of_singleton in Hx' as ->. apply HB in Hx. naive_solver.
  - destruct Hf as [Hf1 Hf2]. split; [done|]. intros k'. rewrite Hf2. destruct (decide (k = k')) as [<-|Hne]; [rewrite lookup_insert_eq, Ek; naive_solver|by rewrite lookup_insert_ne].
  - intros k' n' E. apply lookup_insert_Some in E as [[<- _]|[_ E]]; [by apply (Hu k n)|by apply (Hu k' n')].
  - intros k' n' E. apply lookup_insert_Some in E as [[<- <-]|[_ E]]; [by apply (Hg k n)|by apply Hg].
Qed.

Lemma visit_scanned old now level A s p k : old <= now -> (level < 4)%nat -> shard_rep old A s ->
  exists cs A' s', visit_node now level (s, p) k = (s', p ++ cs) /\ scanned old now A s cs A' s' /\ settled now A' s' k.
Proof.
  intros Hon Hl Hr. unfold visit_node. destruct (sh_slots s !! k) as [n|] eqn:Ek.
  2: { exists [], A, s. rewrite app_nil_r. split; [done|]. split; [by apply scanned_refl|]. intros n En. congruence. }
  destruct (r_nodes _ _ _ Hr k n Ek) as (a & Ea & Hfields & Hlev & (d & Hd & Hod & Hbk)). pose proof Hfields as (Es & _ & Ee & _ & Ec). destruct (Z.leb_spec (tn_expire_ns n) now) as [Hexp|Hexp].
  - destruct (rep_drop old A s k n Hr Ek) as [Hdr Hsl]. destruct (drop_frame s n) as [Hf Hmin]. exists [tn_callback n], (delete k A), (count_with (count_fired (sh_tick_ns s <? now - tn_expire_ns n)) (drop_timer_node s n)).
    split; [done|]. split; [|intros n' En'; simpl in En'; rewrite Hsl, lookup_delete_eq in En'; discriminate].
    split; [rewrite Ec; apply (fires_cons now A k a); [done|lia|constructor]|by apply rep_count|exact Hf|exact Hmin| |].
    + intros k' n' En'. simpl in En'. rewrite Hsl in En'. apply lookup_delete_Some in En' as [_ En']. by exists n'.
    + intros k' n' En'. simpl in En'. rewrite Hsl in En'. apply lookup_delete_Some in En' as [_ En']. by left.
  - assert (Hset : forall l b s', sh_tick_ns s' = sh_tick_ns s -> (l < 4)%nat -> sh_slots s' !! k = Some (place_node n l b) -> (exists d', at_expire a <= d' <= at_due a /\ now < d' /\ b = plane_bucket (sh_tick_ns s) l d') -> settled now A s' k).
    { intros l b s' Et Hl' Eks Hd' n' En'. rewrite Eks in En'. injection En' as <-. exists a. split; [done|]. rewrite Et. by split. }
    destruct level as [|lower].
    + exists [], A, s. rewrite app_nil_r. split; [done|]. split; [by apply scanned_refl|]. apply (Hset (tn_wheel_level n) (tn_bucket_idx n) s); [done|done|by destruct n|]. exists d. split; [done|]. split; [lia|done].
    + assert (Hm : at_expire a <= tn_expire_ns n <= at_due a) by lia. exists [], A. eexists. rewrite app_nil_r. split; [done|].
      pose proof (rep_move old A s k n lower (tn_expire_ns n) a Hr Ek Ea ltac:(lia) Hm ltac:(lia)) as Hmv. cbv zeta in Hmv.
      match goal with |- scanned _ _ _ _ _ _ ?s' /\ _ => assert (Hs' : settled now A s' k) end.
      { apply (Hset lower (plane_bucket (sh_tick_ns s) lower (tn_expire_ns n))); [done|lia|simpl; rewrite Es; by rewrite lookup_insert_eq|]. exists (tn_expire_ns n). split; [done|]. by split; [lia|]. }
      split; [|exact Hs']. split; [constructor|exact Hmv|done|done| |].
      * intros k' n' En'. simpl in En'. rewrite Es in En'. apply lookup_insert_Some in En' as [[<- <-]|[_ En']]; [by exists n|by exists n'].
      * intros k' n' En'. simpl in En'. rewrite Es in En'. apply lookup_insert_Some in En' as [[<- <-]|[_ En']]; [by right|by left].
Qed.

Lemma visits_scanned old now level ks : old <= now -> (level < 4)%nat -> forall A s p, shard_rep old A s ->
  exists cs A' s', foldl (visit_node now level) (s, p) ks = (s', p ++ cs) /\ scanned old now A s cs A' s' /\ forall k, k ∈ ks -> settled now A' s' k.
Proof.
  intros Hon Hl. induction ks as [|k ks IH]; intros A s p Hr; [exists [], A, s; rewrite app_nil_r; split; [done|]; split; [by apply scanned_refl|]; intros k Hk; by apply not_elem_of_nil in Hk|].
  cbn [foldl]. destruct (visit_scanned old now level A s p k Hon Hl Hr) as (cs & A1 & s1 & -> & H1 & Hs1). destruct (IH A1 s1 (p ++ cs) (sn_rep _ _ _ _ _ _ _ H1)) as (ds & A2 & s2 & -> & H2 & Hs2).
  exists (cs ++ ds), A2, s2. split; [by rewrite app_assoc|]. split; [by eapply scanned_trans|]. intros k' Hk'. apply elem_of_cons in Hk' as [->|Hk']; [|by apply Hs2].
  exact (scanned_settled old now A1 s1 ds A2 s2 k (sn_rep _ _ _ _ _ _ _ H1) H2 Hs1).
Qed.

(** Nothing that is due stays in the bucket [(l, b)]. *)
Definition clear (now : Z) A s (l : nat) (b : Z) : Prop := forall k n, sh_slots s !! k = Some n -> tn_wheel_level n = l -> tn_bucket_idx n = b -> settled now A s k.
Lemma clear_scanned old now A s cs A' s' l b : shard_rep old A s -> scanned old now A s cs A' s' -> clear now A s l b -> clear now A' s' l b.
Proof.
  intros Hr Hs Hc k n En El Eb. destruct (sn_keep _ _ _ _ _ _ _ Hs k n En) as [Eo|Ho]; [|done]. exact (scanned_settled old now A s cs A' s' k Hr Hs (Hc k n Eo El Eb)).
Qed.
Lemma bucket_scanned old now level A s p b : old <= now -> (level < 4)%nat -> shard_rep old A s ->
  exists cs A' s', scan_slot_list now level (s, p) b = (s', p ++ cs) /\ scanned old now A s cs A' s' /\ clear now A' s' level b.
Proof.
  intros Hon Hl Hr. unfold scan_slot_list. cbn [fst]. destruct (visits_scanned old now level (bget (sh_buckets s) level b) Hon Hl A s p Hr) as (cs & A' & s' & -> & Hs & Hset).
  exists cs, A', s'. split; [done|]. split; [done|]. intros k n En El Eb. destruct (sn_keep _ _ _ _ _ _ _ Hs k n En) as [Eo|Ho]; [|done]. apply Hset, (r_buckets _ _ _ Hr). by exists n.
Qed.
Lemma buckets_scanned old now level bs : old <= now -> (level < 4)%nat -> forall A s p, shard_rep old A s ->
  exists cs A' s', foldl (scan_slot_list now level) (s, p) bs = (s', p ++ cs) /\ scanned old now A s cs A' s' /\ forall b, b ∈ bs -> clear now A' s' level b.
Proof.
  intros Hon Hl. induction bs as [|b bs IH]; intros A s p Hr; [exists [], A, s; rewrite app_nil_r; split; [done|]; split; [by apply scanned_refl|]; intros b Hb; by apply not_elem_of_nil in Hb|].
  cbn [foldl]. destruct (bucket_scanned old now level A s p b Hon Hl Hr) as (cs & A1 & s1 & -> & H1 & Hc1). destruct (IH A1 s1 (p ++ cs) (sn_rep _ _ _ _ _ _ _ H1)) as (ds & A2 & s2 & -> & H2 & Hc2).
  exists (cs ++ ds), A2, s2. split; [by rewrite app_assoc|]. split; [by eapply scanned_trans|]. intros b' Hb'. apply elem_of_cons in Hb' as [->|Hb']; [|by apply Hc2].
  exact (clear_scanned old now A1 s1 ds A2 s2 level b (sn_rep _ _ _ _ _ _ _ H1) H2 Hc1).
Qed.
Lemma levels_scanned old now ls : old <= now -> Forall (fun l => (l < 4)%nat) ls -> forall A s p, shard_rep old A s ->
  exists cs A' s', foldl (scan_plane_level old now) (s, p) ls = (s', p ++ cs) /\ scanned old now A s cs A' s' /\ forall l b, l ∈ ls -> b ∈ plane_slots (sh_tick_ns s) old now l -> clear now A' s' l b.
Proof.
  intros Hon. induction 1 as [|l ls Hl _ IH]; intros A s p Hr; [exists [], A, s; rewrite app_nil_r; split; [done|]; split; [by apply scanned_refl|]; intros l b Hb; by apply not_elem_of_nil in Hb|].
  cbn [foldl]. unfold scan_plane_level at 2. cbn [fst]. destruct (buckets_scanned old now l (plane_slots (sh_tick_ns s) old now l) Hon Hl A s p Hr) as (cs & A1 & s1 & -> & H1 & Hc1).
  destruct (IH A1 s1 (p ++ cs) (sn_rep _ _ _ _ _ _ _ H1)) as (ds & A2 & s2 & -> & H2 & Hc2). exists (cs ++ ds), A2, s2. split; [by rewrite app_assoc|]. split; [by eapply scanned_trans|].
  assert (Et : sh_tick_ns s1 = sh_tick_ns s) by (pose proof (sn_frame _ _ _ _ _ _ _ H1) as E; unfold shard_frame in E; congruence).
  intros l' b Hl' Hb. apply elem_of_cons in Hl' as [->|Hl']; [exact (clear_scanned old now A1 s1 ds A2 s2 l b (sn_rep _ _ _ _ _ _ _ H1) H2 (Hc1 b Hb))|]. apply Hc2; [done|]. by rewrite Et.
Qed.

(** The buckets of a level that are scanned hold every time that is passed. *)
Lemma plane_slots_cover tick old now t l : 0 < tick -> 0 <= old <= t -> t <= now -> now - old <= 255 * tick -> plane_bucket tick l t ∈ plane_slots tick old now l.
Proof. exact (level_slots_cover (wheel_init tick 4 0 : TimingWheel C) old now t l). Qed.

(** After a scan of all levels the shard is up to date. *)
Lemma scan_all old now A s p : 0 <= old <= now -> now - old <= 255 * sh_tick_ns s -> shard_rep old A s ->
  exists cs A' s', foldl (scan_plane_level old now) (s, p) (seq 0 kNumLevels) = (s', p ++ cs) /\ scanned old now A s cs A' s' /\ shard_rep now A' s'.
Proof.
  intros Hon Hgap Hr. destruct (levels_scanned old now (seq 0 kNumLevels) ltac:(lia) ltac:(repeat constructor; lia) A s p Hr) as (cs & A' & s' & E & Hs & Hc). exists cs, A', s'. split; [done|]. split; [done|].
  pose proof (sn_rep _ _ _ _ _ _ _ Hs) as Hr'. assert (Et : sh_tick_ns s' = sh_tick_ns s) by (pose proof (sn_frame _ _ _ _ _ _ _ Hs) as E'; unfold shard_frame in E'; congruence).
  pose proof Hr' as [Hi Ht Hn Hd Hb Hnd Hf Hu Hg]. split; try done. intros k n En. destruct (Hn k n En) as (a & Ea & Hfields & Hlev & (d & Hde & Hod & Hbk)).
  destruct (Z.le_gt_cases d now) as [Hdn|Hdn]; [|exists a; split; [done|]; split; [done|]; split; [done|]; by exists d].
  refine (Hc (tn_wheel_level n) (tn_bucket_idx n) _ _ k n En eq_refl eq_refl n En); [apply elem_of_seq; unfold kNumLevels; lia|].
  rewrite Hbk, Et. apply plane_slots_cover; [by rewrite <- Et|lia|lia|lia].
Qed.

(** ** Histories *)

Inductive PlaneOp := OpSchedule (delay : Z) (cb : C) (group priority : Z) | OpCancel (h : Z) | OpPush (c : TimerCommand C) | OpAdvance (now : Z).
Inductive PlaneAnswer := AnsHandle (h : Z) | AnsBool (b : bool) | AnsFired (cs : list C).

Definition shard_op s (o : PlaneOp) : PlaneAnswer * TimerPlaneShard C :=
  match o with
  | OpSchedule delay cb g p => let '(h, s) := shard_schedule s delay cb g p in (AnsHandle h, s)
  | OpCancel h => let '(b, s) := shard_cancel s h in (AnsBool b, s)
  | OpPush c => let '(b, s) := push_command s c in (AnsBool b, s)
  | OpAdvance now => let '(cs, s) := shard_advance s now in (AnsFired cs, s)
  end.

Record Timers := mkTimers { ts_time : Z; ts_timers : gmap Z ATimer; ts_commands : list (TimerCommand C) }.

(** A set of timers: what was scheduled fires at the first advance that reaches its
    time, which moves by at most 100 ms, unless it is cancelled. *)
Inductive timers_step (idx tick : Z) : PlaneOp -> PlaneAnswer -> Timers -> Timers -> Prop :=
| ts_schedule delay cb g p t A cs slot gen : A !! slot = None -> 0 <= slot < 65536 -> 0 < gen < 256 -> let e := Z.max (i64 (t + delay)) (t + tick) in
    timers_step idx tick (OpSchedule delay cb g p) (AnsHandle (make_encoded idx slot gen 0)) (mkTimers t A cs) (mkTimers t (<[slot := mkA gen e e g cb]> A) cs)
| ts_refused delay cb g p t A cs : full A -> timers_step idx tick (OpSchedule delay cb g p) (AnsHandle 0) (mkTimers t A cs) (mkTimers t A cs)
| ts_cancel h t A cs : timers_step idx tick (OpCancel h) (AnsBool (spec_cancel idx h A).1) (mkTimers t A cs) (mkTimers t (spec_cancel idx h A).2 cs)
| ts_push c t A cs : zlen cs < 255 -> timers_step idx tick (OpPush c) (AnsBool true) (mkTimers t A cs) (mkTimers t A (cs ++ [c]))
| ts_push_full c t A cs : 255 <= zlen cs -> timers_step idx tick (OpPush c) (AnsBool false) (mkTimers t A cs) (mkTimers t A cs)
| ts_idle now t A cs A1 : now <= t -> commands_run idx tick t cs A A1 -> timers_step idx tick (OpAdvance now) (AnsFired []) (mkTimers t A cs) (mkTimers t A1 [])
| ts_advance now t A cs A1 fs A2 : t < now -> commands_run idx tick t cs A A1 -> let t' := Z.min now (t + 100000000) in
    fires t' A1 fs A2 -> (forall k a, A2 !! k = Some a -> t' < at_due a) -> timers_step idx tick (OpAdvance now) (AnsFired fs) (mkTimers t A cs) (mkTimers t' A2 []).

Inductive timers_run (idx tick : Z) : Timers -> TimerPlaneShard C -> list PlaneOp -> Timers -> TimerPlaneShard C -> Prop :=
| timers_nil ts s : timers_run idx tick ts s [] ts s
| timers_cons ts s o os ts1 ts' s' : timers_step idx tick o (shard_op s o).1 ts ts1 -> timers_run idx tick ts1 (shard_op s o).2 os ts' s' -> timers_run idx tick ts s (o :: os) ts' s'.

Record plane_inv (idx tick : Z) (ts : Timers) s : Prop := mkPlaneInv {
  pi_rep : shard_rep (sh_time s) (ts_timers ts) s;
  pi_min : min_ok s;
  pi_frame : shard_frame s = (idx, tick, ts_time ts, ts_commands ts);
  pi_time : 0 <= ts_time ts
}.

Lemma advance_rep idx tick t A cs s now : 392157 <= tick -> plane_inv idx tick (mkTimers t A cs) s ->
  exists ts', timers_step idx tick (OpAdvance now) (AnsFired (shard_advance s now).1) (mkTimers t A cs) ts' /\ plane_inv idx tick ts' (shard_advance s now).2.
Proof.
  intros Htick [Hr Hm Hf H0]. simpl in Hr, Hf, H0. injection Hf as E1 E2 E3 E4. destruct (drain_rep A s Hr Hm) as (A1 & Hrun & Hr1 & Hm1 & Hf1). rewrite E1, E2, E3, E4 in Hrun. rewrite E3 in Hr1.
  unfold shard_frame in Hf1. injection Hf1 as F1 F2 F3 F4. rewrite E1 in F1. rewrite E2 in F2. rewrite E3 in F3.
  unfold shard_advance. set (s1 := drain_commands s) in *. destruct (Z.leb_spec now (sh_time s1)) as [Hn|Hn].
  - exists (mkTimers t A1 []). split; [apply ts_idle; [lia|done]|]. destruct (recompute_ok t A1 s1 Hr1) as (R1 & R2 & R3). destruct (negb _).
    + split; [rewrite F3 || simpl; simpl in *; by rewrite F3|done|unfold shard_frame in *; simpl in *; congruence|done].
    + split; simpl; [by rewrite F3|done|unfold shard_frame; congruence|done].
  - set (t' := shard_capped s1 now). assert (Et' : t' = Z.min now (t + 100000000)).
    { unfold t', shard_capped, kMaxAdvanceNs. rewrite F3. destruct (Z.ltb_spec 100000000 (now - t)); lia. }
    destruct (scan_all t t' A1 (set_now s1 t') [] ltac:(lia) ltac:(simpl; lia) (rep_now _ _ _ t' Hr1)) as (fs & A2 & s2 & Es & Hsc & Hr2). rewrite F3, Es. cbn [app fst snd].
    pose proof (sn_frame _ _ _ _ _ _ _ Hsc) as Hfr. unfold shard_frame in Hfr. simpl in Hfr. injection Hfr as G1 G2 G3 G4.
    exists (mkTimers t' A2 []). split.
    + rewrite Et'. apply (ts_advance idx tick now t A cs A1 fs A2); [lia|done|rewrite <- Et'; exact (sn_fires _ _ _ _ _ _ _ Hsc)|]. rewrite <- Et'. intros k a Ea.
      destruct (sh_slots s2 !! k) as [n|] eqn:Ek; [|apply (r_dom _ _ _ Hr2) in Ek; congruence]. destruct (r_nodes _ _ _ Hr2 k n Ek) as (a' & Ea' & _ & _ & (d & Hd & Hdn & _)). rewrite Ea in Ea'. injection Ea' as <-. lia.
    + assert (Hm2 : min_ok s2). { intros k n En. rewrite (sn_min _ _ _ _ _ _ _ Hsc). destruct (sn_expire _ _ _ _ _ _ _ Hsc k n En) as (n0 & En0 & ->). simpl in En0. by apply (Hm1 k). }
      destruct (recompute_ok t' A2 s2 Hr2) as (R1 & R2 & R3). destruct (bool_decide _); (split; [|done| |simpl; lia]).
      * simpl. by rewrite G3.
      * unfold shard_frame. simpl. congruence.
      * simpl. by rewrite G3.
      * unfold shard_frame. simpl. congruence.
Qed.

Lemma op_rep idx tick ts s o : 392157 <= tick -> plane_inv idx tick ts s -> exists ts', timers_step idx tick o (shard_op s o).1 ts ts' /\ plane_inv idx tick ts' (shard_op s o).2.
Proof.
  intros Htick Hi. destruct ts as [t A cs]. destruct o as [delay cb g p|h|c|now].
  - destruct Hi as [Hr Hm Hf H0]. simpl in Hr, Hf, H0. pose proof (schedule_rep A s delay cb g p Hr Hm) as Hs. unfold shard_op. destruct (shard_schedule s delay cb g p) as [h s'].
    destruct Hs as (Hm' & Et & Ec & Ei & Ek & Hs). unfold shard_frame in Hf. injection Hf as E1 E2 E3 E4. destruct Hs as [(Hfull & -> & Hr')|(slot & gen & Hn & Hsl & Hg & -> & Hr')]; cbn [fst snd].
    + exists (mkTimers t A cs). split; [by constructor|]. split; simpl; [by rewrite Et|done|unfold shard_frame; congruence|done].
    + rewrite E2, E3 in Hr'. rewrite E1. eexists. split; [by apply ts_schedule|]. split; simpl; [by rewrite Et, E3|done|unfold shard_frame; congruence|done].
  - destruct Hi as [Hr Hm Hf H0]. simpl in Hr, Hf, H0. destruct (cancel_rep _ A s h Hr Hm) as (H1 & H2 & H3 & H4). unfold shard_op. destruct (shard_cancel s h) as [b s']. simpl in H1, H2, H3, H4 |- *.
    assert (E1 : sh_index s = idx) by (unfold shard_frame in Hf; congruence). assert (E3 : sh_time s' = sh_time s) by (unfold shard_frame in H4; congruence). rewrite E1 in H1, H2. subst b. eexists. split; [constructor|]. split; simpl; [by rewrite E3|done|congruence|done].
  - destruct Hi as [Hr Hm Hf H0]. simpl in Hr, Hf, H0. assert (E4 : sh_commands s = cs) by (unfold shard_frame in Hf; congruence). unfold shard_op, push_command. rewrite E4. destruct (Z.ltb_spec (zlen cs) 255); cbn [fst snd].
    + exists (mkTimers t A (cs ++ [c])). split; [by constructor|]. split; simpl; [by apply rep_commands|done|unfold shard_frame in *; simpl; congruence|done].
    + exists (mkTimers t A cs). split; [by constructor|]. by split.
  - destruct (advance_rep idx tick t A cs s now Htick Hi) as (ts' & H1 & H2). exists ts'. unfold shard_op. by destruct (shard_advance s now).
Qed.
Lemma plane_init_inv idx tick : 0 <= idx < 65536 -> 0 < tick -> plane_inv idx tick (mkTimers 0 ∅ []) (shard_init idx tick).
Proof.
  intros Hi Ht. split; simpl; try done. split; simpl; try done.
  - intros l b k. unfold bget. rewrite lookup_empty. simpl. split; [intros Hk; by apply not_elem_of_nil in Hk|intros (n & E & _); by rewrite lookup_empty in E].
  - intros l b. unfold bget. rewrite lookup_empty. apply NoDup_nil_2.
  - rewrite slots_from_seqZ, Z2Nat.id by (unfold kMaxSlots; lia). split; [apply NoDup_seqZ|]. intros k. rewrite elem_of_seqZ, lookup_empty. unfold kMaxSlots. naive_solver lia.
Qed.

(** C39. Every history of schedules, cancellations, commands and advances of a shard
    is one of a set of timers, when its tick is at least 392157 ns (an advance of
    100 ms passes at most 255 ticks) and below [2^31] ns (the level ranges fit in 64
    bits), and when the push of a command by another thread is over before the shard
    drains its queue.  A timer that was scheduled fires once, at the first advance
    that reaches its time and not before, unless it was cancelled by its handle or
    with its group; one that came as a command fires at most a tick after that; and
    the deadline that the timer thread sleeps to is not after any timer. *)
Theorem shard_refines_timers (idx tick : Z) (os : list PlaneOp) :
  0 <= idx < 65536 -> 392157 <= tick < 2147483648 ->
  exists ts s, timers_run idx tick (mkTimers 0 ∅ []) (shard_init idx tick) os ts s /\ sh_time s = ts_time ts /\
    (forall k a, ts_timers ts !! k = Some a -> exists n, sh_slots s !! k = Some n /\ tn_expire_ns n = at_expire a /\ tn_callback n = at_cb a /\ sh_min_deadline s <= at_expire a).
Proof.
  intros Hi Ht. assert (R : forall ts s, plane_inv idx tick ts s -> exists ts' s', timers_run idx tick ts s os ts' s' /\ plane_inv idx tick ts' s').
  { induction os as [|o os IH]; intros ts s Hinv; [exists ts, s; by split; [constructor|]|]. destruct (op_rep idx tick ts s o (proj1 Ht) Hinv) as (ts1 & Hst & Hinv1).
    destruct (IH ts1 _ Hinv1) as (ts' & s' & Hrun & Hinv'). exists ts', s'. split; [by econstructor|done]. }
  destruct (R _ _ (plane_init_inv idx tick Hi ltac:(lia))) as (ts & s & Hrun & [Hr Hm Hf H0]). exists ts, s. split; [done|]. split; [unfold shard_frame in Hf; congruence|].
  intros k a Ea. destruct (sh_slots s !! k) as [n|] eqn:Ek; [|apply (r_dom _ _ _ Hr) in Ek; congruence]. destruct (r_nodes _ _ _ Hr k n Ek) as (a' & Ea' & (_ & _ & Ee & _ & Ec) & _).
  rewrite Ea in Ea'. injection Ea' as <-. exists n. split; [done|]. split; [done|]. split; [done|]. rewrite <- Ee. by apply (Hm k).
Qed.
End Spec.
Arguments ATimer : clear implicits.
Arguments PlaneOp : clear implicits.

(** ** Witness, and what goes wrong *)

Definition demo_plane : list (PlaneOp nat) := [OpSchedule 2000000 7%nat 1 0; OpPush (CmdSchedule 0 2 0 8%nat); OpAdvance 1000000; OpAdvance 2500000].
Lemma shard_refines_timers_witness :
  exists ts s, timers_run 0 1000000 (mkTimers 0 ∅ []) (shard_init 0 1000000) demo_plane ts s /\ sh_time s = ts_time ts.
Proof. destruct (shard_refines_timers 0 1000000 demo_plane ltac:(lia) ltac:(lia)) as (ts & s & Hr & Ht & _). exists ts, s. split; [exact Hr|exact Ht]. Defined.

Definition advances {C} (s : TimerPlaneShard C) (times : list Z) : list (list C) * TimerPlaneShard C :=
  foldl (fun '(l, s) t => let '(f, s) := shard_advance s t in (l ++ [f], s)) ([], s) times.
(** The time of a shard starts at 0 and moves 100 ms with each call, while the clock
    is far ahead: a timer of 300 ms fires at the third call, 2 ms later. *)
Lemma shard_time_runs_ahead :
  let s := (shard_schedule (shard_init 0 1000000) 300000000 7%nat 0 0).2 in
  (advances s [1000000000000000; 1000000001000000; 1000000002000000]).1 = [[]; []; [7%nat]].
Proof. vm_compute. reflexivity. Qed.
