(* ===== verification/CalendarQueue.v ===== *)
(** * The calendar queue

    [timer/calendar_queue.cpp].  A timer is named by its id; the list of a bucket of
    level [l], which the code links through its timers, is stored at [(l, b)].  The
    loops over a bucket follow the pointers as the code does: the successor is read
    before a timer is unlinked, and a timer that is inserted again may be met again,
    so that they take fuel.  The mutex makes every operation atomic. *)

From S2P Require Import Prelude TimingWheel.
From stdpp Require Import base numbers list gmap.

#[local] Open Scope Z_scope.

Record CalendarConfig := mkCalendarConfig { cf_fine_bucket_ns : Z; cf_fine_buckets : Z; cf_coarse_buckets : Z; cf_remote_buckets : Z; cf_max_advance_buckets : Z }.
Definition default_calendar : CalendarConfig := mkCalendarConfig 1000000 256 256 256 4096.

Section Calendar.
Context {C : Type}.   (* callbacks *)

Record CTimer := mkCTimer { ct_expire_ns : Z; ct_callback : C; ct_bucket : Z; ct_level : nat }.
Record CalendarQueue := mkCalendar {
  cal_cfg : CalendarConfig; cal_buckets : gmap (nat * Z) (list Z); cal_timers : gmap Z CTimer; cal_fine : Z; cal_coarse : Z; cal_remote : Z; cal_last : Z; cal_next_id : Z; cal_size : Z }.

(** The constructor aborts unless the numbers of buckets are powers of two. *)
Definition power_of_two (n : Z) : bool := Z.land n (n - 1) =? 0.
Definition calendar_init (cfg : CalendarConfig) : option CalendarQueue :=
  if negb (power_of_two (cf_fine_buckets cfg) && power_of_two (cf_coarse_buckets cfg) && power_of_two (cf_remote_buckets cfg)) then None
  else Some (mkCalendar cfg ∅ ∅ 0 0 0 0 1 0).

Definition coarse_bucket_ns (q : CalendarQueue) : Z := cf_fine_bucket_ns (cal_cfg q) * cf_fine_buckets (cal_cfg q).
Definition remote_bucket_ns (q : CalendarQueue) : Z := coarse_bucket_ns q * cf_coarse_buckets (cal_cfg q).

Definition set_cal (q : CalendarQueue) (b : gmap (nat * Z) (list Z)) (t : gmap Z CTimer) : CalendarQueue :=
  mkCalendar (cal_cfg q) b t (cal_fine q) (cal_coarse q) (cal_remote q) (cal_last q) (cal_next_id q) (cal_size q).
Definition resize_cal (q : CalendarQueue) (d : Z) : CalendarQueue :=
  mkCalendar (cal_cfg q) (cal_buckets q) (cal_timers q) (cal_fine q) (cal_coarse q) (cal_remote q) (cal_last q) (cal_next_id q) (u64 (cal_size q + d)).
Definition unlink (q : CalendarQueue) (l : nat) (b id : Z) : CalendarQueue := set_cal q (bset (cal_buckets q) l b (erase_ptr id (bget (cal_buckets q) l b))) (cal_timers q).
Definition bucket_push_back (q : CalendarQueue) (id : Z) (t : CTimer) (l : nat) (b : Z) : CalendarQueue :=
  set_cal q (bset (cal_buckets q) l b (bget (cal_buckets q) l b ++ [id])) (<[id := mkCTimer (ct_expire_ns t) (ct_callback t) b l]> (cal_timers q)).

(** [insert_timer] of a timer that is in no bucket. *)
Definition calendar_insert (q : CalendarQueue) (id : Z) (t : CTimer) (now : Z) : CalendarQueue :=
  let fine := cf_fine_bucket_ns (cal_cfg q) in
  let expire := Z.max (ct_expire_ns t) (now + fine) in
  if expire <? now + fine * cf_fine_buckets (cal_cfg q) then bucket_push_back q id t 0 (Z.land (u32 (expire ÷ fine)) (cf_fine_buckets (cal_cfg q) - 1))
  else if expire <? now + coarse_bucket_ns q * cf_coarse_buckets (cal_cfg q) then bucket_push_back q id t 1 (Z.land (u32 (expire ÷ coarse_bucket_ns q)) (cf_coarse_buckets (cal_cfg q) - 1))
  else bucket_push_back q id t 2 (Z.land (u32 (expire ÷ remote_bucket_ns q)) (cf_remote_buckets (cal_cfg q) - 1)).

Definition calendar_schedule_at (q : CalendarQueue) (expire : Z) (cb : C) : Z * CalendarQueue :=
  let id := cal_next_id q in
  let t := mkCTimer expire cb 0 0 in
  let q := mkCalendar (cal_cfg q) (cal_buckets q) (<[id := t]> (cal_timers q)) (cal_fine q) (cal_coarse q) (cal_remote q) (cal_last q) (u64 (id + 1)) (cal_size q) in
  (id, resize_cal (calendar_insert q id t (cal_last q)) 1).
Definition calendar_schedule (q : CalendarQueue) (delay : Z) (cb : C) : Z * CalendarQueue :=
  calendar_schedule_at q (if delay <=? 0 then cal_last q + cf_fine_bucket_ns (cal_cfg q) else i64 (cal_last q + delay)) cb.

Definition calendar_cancel (q : CalendarQueue) (id : Z) : bool * CalendarQueue :=
  match cal_timers q !! id with
  | None => (false, q)
  | Some t => (true, resize_cal (unlink (set_cal q (cal_buckets q) (delete id (cal_timers q))) (ct_level t) (ct_bucket t) id) (-1))
  end.

(** [t->next]. *)
Fixpoint next_of (id : Z) (ids : list Z) : option Z := match ids with [] => None | x :: l => if x =? id then head l else next_of id l end.

(** [cascade_coarse] and [cascade_remote]: the loop over bucket [b] of level [l] from the timer [t]. *)
Fixpoint cascade (fuel : nat) (now : Z) (l : nat) (b : Z) (t : option Z) (q : CalendarQueue) : option CalendarQueue :=
  match t, fuel with
  | None, _ => Some q
  | Some _, O => None
  | Some id, S fuel =>
      let next := next_of id (bget (cal_buckets q) l b) in
      let q := unlink q l b id in
      let q := match cal_timers q !! id with Some t => calendar_insert q id t now | None => q end in
      cascade fuel now l b next q
  end.

(** The loop over the fine bucket [b]. *)
Fixpoint drain_bucket (fuel : nat) (now b : Z) (t : option Z) (q : CalendarQueue) (pending : list C) : option (CalendarQueue * list C) :=
  match t, fuel with
  | None, _ => Some (q, pending)
  | Some _, O => None
  | Some id, S fuel =>
      let next := next_of id (bget (cal_buckets q) 0 b) in
      let q := unlink q 0 b id in
      match cal_timers q !! id with
      | None => drain_bucket fuel now b next q pending
      | Some tm =>
          if ct_expire_ns tm <=? now then drain_bucket fuel now b next (resize_cal (set_cal q (cal_buckets q) (delete id (cal_timers q))) (-1)) (pending ++ [ct_callback tm])
          else drain_bucket fuel now b next (calendar_insert q id tm now) pending
      end
  end.

Definition set_cursors (q : CalendarQueue) (fine coarse remote last : Z) : CalendarQueue :=
  mkCalendar (cal_cfg q) (cal_buckets q) (cal_timers q) fine coarse remote last (cal_next_id q) (cal_size q).
(** The end of a turn of the loop of [advance]: the cursors move, a wheel that is round is refilled. *)
Definition next_bucket (fuel : nat) (now : Z) (q : CalendarQueue) : option CalendarQueue :=
  let cfg := cal_cfg q in
  let fine := Z.land (u32 (cal_fine q + 1)) (cf_fine_buckets cfg - 1) in
  let q := set_cursors q fine (cal_coarse q) (cal_remote q) (cal_last q + cf_fine_bucket_ns cfg) in
  if negb (fine =? 0) then Some q
  else
    q ← cascade fuel now 1 (cal_coarse q) (head (bget (cal_buckets q) 1 (cal_coarse q))) q;
    let coarse := Z.land (u32 (cal_coarse q + 1)) (cf_coarse_buckets cfg - 1) in
    let q := set_cursors q (cal_fine q) coarse (cal_remote q) (cal_last q) in
    if negb (coarse =? 0) then Some q
    else
      q ← cascade fuel now 2 (cal_remote q) (head (bget (cal_buckets q) 2 (cal_remote q))) q;
      Some (set_cursors q (cal_fine q) (cal_coarse q) (Z.land (u32 (cal_remote q + 1)) (cf_remote_buckets cfg - 1)) (cal_last q)).

Fixpoint advance_loop (buckets_left fuel : nat) (now : Z) (q : CalendarQueue) (pending : list C) : option (CalendarQueue * list C) :=
  match buckets_left with
  | O => Some (q, pending)
  | S more =>
      if now <? cal_last q + cf_fine_bucket_ns (cal_cfg q) then Some (q, pending)
      else
        '(q, pending) ← drain_bucket fuel now (cal_fine q) (head (bget (cal_buckets q) 0 (cal_fine q))) q pending;
        q ← next_bucket fuel now q;
        advance_loop more fuel now q pending
  end.

(** [advance]: the callbacks to run, and the queue; [None] when a loop is not done with the fuel. *)
Definition calendar_advance (fuel : nat) (q : CalendarQueue) (now : Z) : option (list C * CalendarQueue) :=
  if now <=? cal_last q then Some ([], q)
  else if cal_last q =? 0 then Some ([], set_cursors q (cal_fine q) (cal_coarse q) (cal_remote q) now)
  else
    let now := if 100000000 <? now - cal_last q then cal_last q + 100000000 else now in
    '(q, pending) ← advance_loop (Z.to_nat (cf_max_advance_buckets (cal_cfg q))) fuel now q [];
    Some (pending, q).
Definition calendar_next_deadline (q : CalendarQueue) : Z := map_fold (fun _ t m => Z.min m (ct_expire_ns t)) INT64_MAX (cal_timers q).
End Calendar.
Arguments CTimer : clear implicits.
Arguments CalendarQueue : clear implicits.

(** ** Timers never fire early *)

Section Early.
Context {C : Type}.
Implicit Types q : CalendarQueue C.

(** Every timer of [q'] is one of [q], with the same deadline. *)
Definition same_timers q q' : Prop := forall id t', cal_timers q' !! id = Some t' -> exists t, cal_timers q !! id = Some t /\ ct_expire_ns t' = ct_expire_ns t /\ ct_callback t' = ct_callback t.
(** What fired was a timer of [q] that is due. *)
Definition due_in q (now : Z) (cb : C) : Prop := exists id t, cal_timers q !! id = Some t /\ ct_callback t = cb /\ ct_expire_ns t <= now.

Lemma same_refl q : same_timers q q.
Proof. intros id t E. by exists t. Qed.
Lemma same_trans q1 q2 q3 : same_timers q1 q2 -> same_timers q2 q3 -> same_timers q1 q3.
Proof. intros H1 H2 id t E. destruct (H2 id t E) as (t2 & E2 & ? & ?). destruct (H1 id t2 E2) as (t1 & E1 & ? & ?). exists t1. split; [done|]. split; congruence. Qed.
Lemma same_insert q id t now : cal_timers q !! id = Some t -> same_timers q (calendar_insert q id t now).
Proof.
  intros Et id' t' E. unfold calendar_insert, bucket_push_back in E. repeat case_match; simpl in E; apply lookup_insert_Some in E as [[<- <-]|[_ E]]; [by exists t|by exists t'|by exists t|by exists t'|by exists t|by exists t'].
Qed.
Lemma due_trans q1 q2 now cb : same_timers q1 q2 -> due_in q2 now cb -> due_in q1 now cb.
Proof. intros Hs (id & t & E & Ec & He). destruct (Hs id t E) as (t1 & E1 & ? & ?). exists id, t1. split; [done|]. split; [congruence|lia]. Qed.

Lemma cascade_same fuel : forall now l b t q q', cascade fuel now l b t q = Some q' -> same_timers q q'.
Proof.
  induction fuel as [|fuel IH]; intros now l b [id|] q q' E; try discriminate; [injection E as <-; apply same_refl| |injection E as <-; apply same_refl]. simpl in E.
  apply IH in E. eapply same_trans; [|exact E]. destruct (cal_timers q !! id) as [t|] eqn:Et; [|by intros id' t' ?; exists t'].
  intros id' t' E'. apply (same_insert (unlink q l b id) id t now Et) in E'. exact E'.
Qed.
Lemma drain_due fuel : forall now b t q p q' p', drain_bucket fuel now b t q p = Some (q', p') -> same_timers q q' /\ exists cs, p' = p ++ cs /\ Forall (due_in q now) cs.
Proof.
  induction fuel as [|fuel IH]; intros now b [id|] q p q' p' E; try discriminate; try (injection E as <- <-; split; [apply same_refl|exists []; by rewrite app_nil_r]). simpl in E.
  destruct (cal_timers q !! id) as [t|] eqn:Et.
  - destruct (Z.leb_spec (ct_expire_ns t) now).
    + apply IH in E as [Hs (cs & -> & Hcs)]. assert (Hsub : same_timers q (resize_cal (set_cal (unlink q 0 b id) (cal_buckets (unlink q 0 b id)) (delete id (cal_timers q))) (-1))).
      { intros id' t' E'. simpl in E'. apply lookup_delete_Some in E' as [_ E']. by exists t'. }
      split; [by eapply same_trans|]. exists (ct_callback t :: cs). split; [by rewrite <- app_assoc|]. constructor; [by exists id, t|]. eapply Forall_impl; [exact Hcs|]. intros cb. by apply due_trans.
    + apply IH in E as [Hs (cs & -> & Hcs)]. assert (Hsub : same_timers q (calendar_insert (unlink q 0 b id) id t now)) by (intros id' t' E'; exact (same_insert (unlink q 0 b id) id t now Et id' t' E')).
      split; [by eapply same_trans|]. exists cs. split; [done|]. eapply Forall_impl; [exact Hcs|]. intros cb. by apply due_trans.
  - by apply IH in E.
Qed.
Lemma next_bucket_same fuel now q q' : next_bucket fuel now q = Some q' -> same_timers q q'.
Proof.
  unfold next_bucket. destruct (negb _); [intros E; injection E as <-; by intros id t ?; exists t|].
  destruct (cascade fuel now 1 _ _ _) as [q1|] eqn:E1; [|discriminate]. simpl. apply cascade_same in E1. assert (H1 : same_timers q q1) by exact E1. destruct (negb _); [intros E; injection E as <-; exact H1|].
  destruct (cascade fuel now 2 _ _ _) as [q2|] eqn:E2; [|discriminate]. simpl. intros E. injection E as <-. apply cascade_same in E2. eapply same_trans; [exact H1|exact E2].
Qed.
Lemma advance_loop_due left : forall fuel now q p q' p', advance_loop left fuel now q p = Some (q', p') -> same_timers q q' /\ exists cs, p' = p ++ cs /\ Forall (due_in q now) cs.
Proof.
  induction left as [|left IH]; intros fuel now q p q' p' E; simpl in E; [injection E as <- <-; split; [apply same_refl|exists []; by rewrite app_nil_r]|].
  destruct (now <? _); [injection E as <- <-; split; [apply same_refl|exists []; by rewrite app_nil_r]|].
  destruct (drain_bucket fuel now (cal_fine q) _ q p) as [[q1 p1]|] eqn:E1; [|discriminate]. simpl in E. destruct (next_bucket fuel now q1) as [q2|] eqn:E2; [|discriminate]. simpl in E.
  apply drain_due in E1 as [H1 (cs & -> & Hcs)]. apply next_bucket_same in E2. apply IH in E as [H3 (ds & -> & Hds)]. assert (H12 : same_timers q q2) by (by eapply same_trans).
  split; [by eapply same_trans|]. exists (cs ++ ds). split; [by rewrite app_assoc|]. apply Forall_app. split; [done|]. eapply Forall_impl; [exact Hds|]. intros cb. by apply due_trans.
Qed.
(** An advance that returns runs callbacks of timers that are due, and no others. *)
Lemma calendar_never_early fuel q now cs q' : calendar_advance fuel q now = Some (cs, q') -> Forall (due_in q now) cs.
Proof.
  unfold calendar_advance. destruct (now <=? cal_last q); [intros E; by injection E as <- <-|]. destruct (cal_last q =? 0); [intros E; by injection E as <- <-|].
  set (t := if 100000000 <? now - cal_last q then _ else now). assert (Ht : t <= now) by (unfold t; destruct (Z.ltb_spec 100000000 (now - cal_last q)); lia).
  destruct (advance_loop _ fuel t q []) as [[q1 p1]|] eqn:E1; [|discriminate]. simpl. intros E. injection E as <- <-. apply advance_loop_due in E1 as [_ (ds & -> & Hds)].
  eapply Forall_impl; [exact Hds|]. intros cb (id & tm & ? & ? & ?). exists id, tm. split; [done|]. split; [done|lia].
Qed.
End Early.

(** ** A bucket with two timers that are not due is walked for ever *)

Section Forever.
Context {C : Type}.
Implicit Types q : CalendarQueue C.

(** The timer comes back to the fine bucket [b] when it is inserted again at [now]. *)
Definition comes_back q (now b id : Z) : Prop :=
  exists t, cal_timers q !! id = Some t /\ now + cf_fine_bucket_ns (cal_cfg q) <= ct_expire_ns t < now + cf_fine_bucket_ns (cal_cfg q) * cf_fine_buckets (cal_cfg q) /\
    Z.land (u32 (ct_expire_ns t ÷ cf_fine_bucket_ns (cal_cfg q))) (cf_fine_buckets (cal_cfg q) - 1) = b.

Lemma comes_back_step q now b x y : 0 < cf_fine_bucket_ns (cal_cfg q) -> x <> y -> bget (cal_buckets q) 0 b = [x; y] -> comes_back q now b x -> comes_back q now b y ->
  exists t q', cal_timers q !! x = Some t /\ now < ct_expire_ns t /\ calendar_insert (unlink q 0 b x) x t now = q' /\ bget (cal_buckets q') 0 b = [y; x] /\
    comes_back q' now b x /\ comes_back q' now b y /\ cal_cfg q' = cal_cfg q.
Proof.
  intros Hf Hne Eb (t & Et & He & Hb) (t' & Et' & He' & Hb'). exists t. unfold calendar_insert. cbn [cal_cfg unlink set_cal]. rewrite Z.max_l by lia. rewrite (proj2 (Z.ltb_lt _ _)) by lia. rewrite Hb.
  eexists. split; [done|]. split; [lia|]. split; [done|]. unfold bucket_push_back, unlink. cbn [cal_buckets cal_timers cal_cfg set_cal]. split.
  - unfold bset, bget. rewrite !lookup_insert_eq. simpl. unfold bget in Eb. rewrite Eb. simpl. by rewrite Z.eqb_refl.
  - split; [eexists; simpl; rewrite lookup_insert_eq; split; [done|by split]|]. split; [|done]. exists t'. simpl. by rewrite lookup_insert_ne.
Qed.
Lemma drain_forever fuel : forall q now b x y p, 0 < cf_fine_bucket_ns (cal_cfg q) -> x <> y -> bget (cal_buckets q) 0 b = [x; y] -> comes_back q now b x -> comes_back q now b y ->
  drain_bucket fuel now b (Some x) q p = None.
Proof.
  induction fuel as [|fuel IH]; intros q now b x y p Hf Hne Eb Hx Hy; [done|].
  destruct (comes_back_step q now b x y Hf Hne Eb Hx Hy) as (t & q' & Et & Hlt & Ei & Eb' & Hx' & Hy' & Ec). cbn [drain_bucket].
  replace (next_of x (bget (cal_buckets q) 0 b)) with (Some y) by (rewrite Eb; simpl; by rewrite Z.eqb_refl).
  change (cal_timers (unlink q 0 b x)) with (cal_timers q). rewrite Et, (proj2 (Z.leb_gt _ _) Hlt), Ei. apply (IH q' now b y x); try done. by rewrite Ec.
Qed.
End Forever.

(** A queue whose clock is at 1 s, two timers of 100 ms, and 76 ms that pass. *)
Definition two_timers : option (CalendarQueue nat) :=
  q ← calendar_init default_calendar;
  '(_, q) ← calendar_advance 10 q 1000000000;
  let '(_, q) := calendar_schedule q 100000000 1%nat in
  let '(_, q) := calendar_schedule q 100000000 2%nat in
  '(_, q) ← calendar_advance 10 q 1076000000; Some q.

(** The next advance never returns, and holds the lock. *)
Lemma calendar_hangs : exists q, two_timers = Some q /\ forall fuel, calendar_advance fuel q 1077000000 = None.
Proof.
  assert (Hq : exists q, two_timers = Some q /\ (cal_last q = 1076000000 /\ cal_fine q = 76 /\ cal_cfg q = default_calendar) /\ bget (cal_buckets q) 0 76 = [1; 2] /\
    (exists t, cal_timers q !! 1 = Some t /\ ct_expire_ns t = 1100000000) /\ exists t, cal_timers q !! 2 = Some t /\ ct_expire_ns t = 1100000000).
  { eexists. split; [vm_compute; reflexivity|]. split; [by split_and!|]. split; [reflexivity|]. split; by eexists. }
  destruct Hq as (q & Eq & (El & Ef & Ec) & Eb & (t1 & Et1 & He1) & (t2 & Et2 & He2)). exists q. split; [exact Eq|]. intros fuel.
  assert (Hback : forall id t, cal_timers q !! id = Some t -> ct_expire_ns t = 1100000000 -> comes_back q 1077000000 76 id).
  { intros id t Et He. exists t. rewrite He, Ec. change (cf_fine_bucket_ns default_calendar) with 1000000. change (cf_fine_buckets default_calendar) with 256. split; [exact Et|]. split; [lia|vm_compute; reflexivity]. }
  pose proof (drain_forever fuel q 1077000000 76 1 2 [] ltac:(by rewrite Ec) ltac:(done) Eb (Hback 1 t1 Et1 He1) (Hback 2 t2 Et2 He2)) as Hd.
  assert (Hl : advance_loop (S 4095) fuel 1077000000 q [] = None).
  { cbn [advance_loop]. rewrite El, Ec, Ef, Eb. change (cf_fine_bucket_ns default_calendar) with 1000000. change (1077000000 <? 1076000000 + 1000000) with false. cbn [head]. by rewrite Hd. }
  unfold calendar_advance. rewrite El, Ec. change (Z.to_nat (cf_max_advance_buckets default_calendar)) with (S 4095).
  change (if 100000000 <? 1077000000 - 1076000000 then _ else 1077000000) with 1077000000. by rewrite Hl.
Qed.
