(* ===== verification/ActorContext.v ===== *)
(** * The context of an actor

    [actor/actor_context.cpp], [actor/system/actor_ref_cache.hpp],
    [ref/actor_ref.cpp] and the links of [actor/abstract_actor.cpp].  A context
    resolves addresses through a bounded cache of references, stamps and sends
    messages, answers the sender of the message that is handled and keeps the
    links and monitors of its actor.  What it asks of the system is a list of
    [SystemCall]s; what it reads of the system is a [SystemView].  No trace manager is
    installed.  The cache is refined to a list in the order of use, and a
    resolution to the lookup that it caches. *)

From S2P Require Import Prelude DeliveryTypes DeadLetters Reliable TraceText Endpoint GossipCodec Pipeline FrameProto AskManager.
From Stdlib Require Import Sorted.
From stdpp Require Import base numbers list gmap.

#[local] Open Scope Z_scope.

#[export] Instance address_eq_dec : EqDecision ActorAddress.
Proof. solve_decision. Defined.

(** ** Messages *)

(** A message with the ask that it belongs to, 0 for none. *)
Record TypedMsg := mkTyped { tm_body : Message (EndPoint := EndPoint); tm_ask_message_id : Z }.
Definition typed_message (tag : Z) (payload : list Z) : TypedMsg :=
  mkTyped (mkMessage tag payload default_address None INT64_MAX 0 0 0 false) 0.
Definition tm_type_id (m : TypedMsg) : Z := m_type_id (tm_body m).
Definition tm_sender (m : TypedMsg) : ActorAddress := m_sender (tm_body m).
Definition tm_payload (m : TypedMsg) : list Z := m_payload (tm_body m).
Definition set_sender_address (m : TypedMsg) (a : ActorAddress) : TypedMsg :=
  let b := tm_body m in
  mkTyped (mkMessage (m_type_id b) (m_payload b) a (m_trace b) (m_deadline_ns b) (m_priority b) (m_flags b) (m_message_id b) (m_ack_requested b)) (tm_ask_message_id m).
Definition set_ask_message_id (m : TypedMsg) (id : Z) : TypedMsg := mkTyped (tm_body m) id.

Definition TypeTag_DownMsg : Z := 1.
Definition TypeTag_LinkMsg : Z := 3.
Definition TypeTag_UnlinkMsg : Z := 4.
Definition TypeTag_MonitorMsg : Z := 10.
Definition TypeTag_DemonitorMsg : Z := 11.
Definition TypeTag_ErrorMsg : Z := 18.

(** ** References and their cache *)

(** A proxy keeps the transport, a pointer, that was found when it was made. *)
Inductive ActorRef := LocalRef (a : ActorAddress) | ProxyRef (a : ActorAddress) (transport : option Z).
Definition ref_address (r : ActorRef) : ActorAddress := match r with LocalRef a | ProxyRef a _ => a end.
Definition ref_is_local (r : ActorRef) : bool := match r with LocalRef _ => true | ProxyRef _ _ => false end.
Definition ref_valid (r : ActorRef) : bool := match r with LocalRef _ => true | ProxyRef a _ => address_valid a end.

Record ActorRefCache := mkRefCache { rc_entries : gmap Z (ActorRef * Z); rc_tick : Z; rc_max : Z }.
Definition DefaultMaxEntries : Z := 256.
Definition ref_cache_new (max : Z) : ActorRefCache := mkRefCache ∅ 0 max.

Definition ref_cache_get (id : Z) (c : ActorRefCache) : option ActorRef * ActorRefCache :=
  match rc_entries c !! id with
  | None => (None, c)
  | Some (r, _) => let t := u64 (rc_tick c + 1) in (Some r, mkRefCache (<[id := (r, t)]> (rc_entries c)) t (rc_max c))
  end.

(** [evict_lru]: the scan keeps the smallest tick; an empty cache erases the id 0. *)
Definition scan_step : Z * Z -> Z * (ActorRef * Z) -> Z * Z := fun '(min, lru) '(id, (_, t)) => if t <? min then (t, id) else (min, lru).
Definition lru_scan (l : list (Z * (ActorRef * Z))) : Z * Z := foldl scan_step (UINT64_MAX, 0) l.
Definition evict_lru (c : ActorRefCache) : ActorRefCache :=
  mkRefCache (delete (lru_scan (map_to_list (rc_entries c))).2 (rc_entries c)) (rc_tick c) (rc_max c).

Definition ref_cache_put (id : Z) (r : ActorRef) (c : ActorRefCache) : ActorRefCache :=
  let c := match rc_entries c !! id with
           | Some _ => c
           | None => if rc_max c <=? Z.of_nat (size (rc_entries c)) then evict_lru c else c
           end in
  let t := u64 (rc_tick c + 1) in
  mkRefCache (<[id := (r, t)]> (rc_entries c)) t (rc_max c).

(** ** The system as a context sees it *)

Record SystemView := mkView {
  sv_endpoint : EndPoint;
  sv_actor : Z -> option ActorAddress;          (* get_actor(id) and its address *)
  sv_transport : EndPoint -> option Z;          (* get_transport_for(endpoint), a pointer *)
  sv_accepts : Z -> bool;                       (* whether a local delivery is accepted *)
  sv_mailbox : Z -> bool;                       (* get_mailbox(id) is not null *)
  sv_ask_id : Z;                                (* the id of the next ask *)
  sv_timer : Z;                                 (* the handle of the next timer *)
  sv_now : Z                                    (* the steady clock, ns *)
}.

(** What an actor asks of the system, in order. *)
Inductive SystemCall :=
| CDeliver (target : Z) (m : TypedMsg) (priority deadline_ns : Z) (o : DeliveryOptions)
| CProxySend (proxy : ActorAddress) (transport : option Z) (m : TypedMsg) (o : DeliveryOptions)
| CTrackLocal (p : RetryPolicy) (deadline : Z)
| CDeliverEdf (target : Z) (m : TypedMsg) (deadline_ns priority : Z)
| CPushBatch (target : Z) (ms : list TypedMsg) (sender : ActorAddress) (bytes : Z)
| CProxyBatch (target : ActorAddress) (transport : option Z) (ms : list TypedMsg) (o : DeliveryOptions)
| CRegisterAsk (requester : Z) (target : ActorAddress) (t : RequestTimeout)
| CAskResponse (id : Z) (payload : list Z)
| CScheduleMsg (delay_ns target : Z) (m : TypedMsg)
| CScheduleTimer (handle delay_ns : Z)
| CCancelTimer (handle : Z)
| CReliableAck (to_ acker : ActorAddress) (message_id : Z)
| CDeadLetter (reason : DeadLetterReason) (m : TypedMsg) (target : ActorAddress)
| CUserCode (m : TypedMsg)
| CTerminated (exit_reason : Z).

Definition default_options : DeliveryOptions := mkOptions false true DM_BestEffort 0 0 false.

Record ActorContext := mkContext {
  cx_owner : ActorAddress;
  cx_children : list ActorAddress;
  cx_remote_children : list ActorRef;
  cx_linked : list ActorAddress;
  cx_monitored : list ActorAddress;
  cx_death_pact : bool;
  cx_cache : ActorRefCache;
  cx_current_sender : ActorAddress;
  cx_current_ask : Z;
  cx_passivation_requested : bool
}.
Definition context_new (owner : ActorAddress) : ActorContext :=
  mkContext owner [] [] [] [] false (ref_cache_new DefaultMaxEntries) default_address 0 false.
Definition set_ref_cache (c : ActorContext) (x : ActorRefCache) : ActorContext :=
  mkContext (cx_owner c) (cx_children c) (cx_remote_children c) (cx_linked c) (cx_monitored c) (cx_death_pact c) x (cx_current_sender c) (cx_current_ask c) (cx_passivation_requested c).
Definition set_children (c : ActorContext) (x : list ActorAddress) (y : list ActorRef) : ActorContext :=
  mkContext (cx_owner c) x y (cx_linked c) (cx_monitored c) (cx_death_pact c) (cx_cache c) (cx_current_sender c) (cx_current_ask c) (cx_passivation_requested c).
Definition set_links (c : ActorContext) (x y : list ActorAddress) : ActorContext :=
  mkContext (cx_owner c) (cx_children c) (cx_remote_children c) x y (cx_death_pact c) (cx_cache c) (cx_current_sender c) (cx_current_ask c) (cx_passivation_requested c).
Definition set_current (c : ActorContext) (sender : ActorAddress) (ask : Z) : ActorContext :=
  mkContext (cx_owner c) (cx_children c) (cx_remote_children c) (cx_linked c) (cx_monitored c) (cx_death_pact c) (cx_cache c) sender ask (cx_passivation_requested c).
Definition set_death_pact (c : ActorContext) (b : bool) : ActorContext :=
  mkContext (cx_owner c) (cx_children c) (cx_remote_children c) (cx_linked c) (cx_monitored c) b (cx_cache c) (cx_current_sender c) (cx_current_ask c) (cx_passivation_requested c).
Definition passivate (c : ActorContext) : ActorContext :=
  mkContext (cx_owner c) (cx_children c) (cx_remote_children c) (cx_linked c) (cx_monitored c) (cx_death_pact c) (cx_cache c) (cx_current_sender c) (cx_current_ask c) true.

(** ** Sending *)

(** [resolve]; [None] is the empty reference. *)
Definition context_resolve (v : SystemView) (target : ActorAddress) (c : ActorContext) : option ActorRef * ActorContext :=
  let '(cached, cache) := ref_cache_get (a_id target) (cx_cache c) in
  let c := set_ref_cache c cache in
  match cached with
  | Some r => (Some r, c)
  | None =>
      if negb (bool_decide (a_endpoint target = sv_endpoint v)) then
        let transport := sv_transport v (a_endpoint target) in
        let r := ProxyRef target transport in
        (Some r, match transport with Some _ => set_ref_cache c (ref_cache_put (a_id target) r (cx_cache c)) | None => c end)
      else
        match sv_actor v (a_id target) with
        | Some a => let r := LocalRef a in (Some r, set_ref_cache c (ref_cache_put (a_id target) r (cx_cache c)))
        | None => (None, c)
        end
  end.

(** [ActorRef::try_send], called with the address of the reference. *)
Definition ref_try_send (r : ActorRef) (m : TypedMsg) (o : DeliveryOptions) : list SystemCall :=
  match r with
  | LocalRef a => [CDeliver (a_id a) m 0 INT64_MAX o]
  | ProxyRef a transport => [CProxySend a transport m o]
  end.

(** [false] is the receipt [NoRoute]. *)
Definition context_try_send (v : SystemView) (target : ActorAddress) (m : TypedMsg) (o : DeliveryOptions) (c : ActorContext) : bool * list SystemCall * ActorContext :=
  let '(r, c) := context_resolve v target c in
  match r with
  | Some r => if ref_valid r then (true, ref_try_send r (set_sender_address m (cx_owner c)) o, c) else (false, [], c)
  | None => (false, [], c)
  end.
Definition context_send (v : SystemView) (target : ActorAddress) (m : TypedMsg) (c : ActorContext) : list SystemCall * ActorContext :=
  let '(_, calls, c) := context_try_send v target m default_options c in (calls, c).
Definition context_send_ref (r : ActorRef) (m : TypedMsg) (c : ActorContext) : list SystemCall :=
  ref_try_send r (set_sender_address m (cx_owner c)) default_options.

Definition context_try_send_with_priority (v : SystemView) (target : ActorAddress) (m : TypedMsg) (priority deadline_ns : Z)
    (o : DeliveryOptions) (retry : option RetryPolicy) (c : ActorContext) : bool * list SystemCall * ActorContext :=
  let '(r, c) := context_resolve v target c in
  match r with
  | Some r =>
      if negb (ref_valid r) then (false, [], c)
      else
        let m := set_sender_address m (cx_owner c) in
        if ref_is_local r then
          let delivered := [CDeliver (a_id target) m priority deadline_ns o] in
          let tracked := match retry with
                         | Some p => if sv_accepts v (a_id target) && is_tracked_delivery (o_mode o) && retry_enabled p
                                     then [CTrackLocal p (if 0 <? deadline_ns then deadline_ns else 0)] else []
                         | None => []
                         end in
          (true, delivered ++ tracked, c)
        else (true, ref_try_send r m o, c)
  | None => (false, [], c)
  end.

Definition context_send_edf (v : SystemView) (target : ActorAddress) (m : TypedMsg) (deadline priority : Z) (c : ActorContext) : list SystemCall :=
  let deadline_ns := i64 (sv_now v + deadline) in
  let deadline_ns := if deadline_ns <? sv_now v then sv_now v + 1 else deadline_ns in
  [CDeliverEdf (a_id target) (set_sender_address m (cx_owner c)) deadline_ns priority].

Definition context_send_batch (v : SystemView) (target : Z) (ms : list TypedMsg) (o : DeliveryOptions) (c : ActorContext) : list SystemCall :=
  if bool_decide (length ms = 0%nat) then []
  else
    let ms := (fun m => set_sender_address m (cx_owner c)) <$> ms in
    if sv_mailbox v target then [CPushBatch target ms (cx_owner c) (sum_by (fun m => Z.of_nat (length (tm_payload m))) ms)]
    else [CProxyBatch (mkAddr (sv_endpoint v) 0 target 0) (sv_transport v (sv_endpoint v)) ms o].

(** ** Answers *)

Definition context_reply (v : SystemView) (m : TypedMsg) (c : ActorContext) : list SystemCall * ActorContext :=
  if negb (cx_current_ask c =? 0) then ([CAskResponse (cx_current_ask c) (tm_payload m)], set_current c (cx_current_sender c) 0)
  else if negb (a_id (cx_current_sender c) =? 0) then context_send v (cx_current_sender c) m c
  else ([], c).
Definition context_try_reply (v : SystemView) (m : TypedMsg) (o : DeliveryOptions) (c : ActorContext) : bool * list SystemCall * ActorContext :=
  if a_id (cx_current_sender c) =? 0 then (false, [], c) else context_try_send v (cx_current_sender c) m o c.
Definition error_reply_payload (code : Z) (text : list Z) : list Z :=
  [Z.land (Z.shiftr code 24) 255; Z.land (Z.shiftr code 16) 255; Z.land (Z.shiftr code 8) 255; Z.land code 255] ++ text.
Definition context_reply_with_error (v : SystemView) (code : Z) (text : list Z) (c : ActorContext) : list SystemCall * ActorContext :=
  if a_id (cx_current_sender c) =? 0 then ([], c)
  else context_send v (cx_current_sender c) (typed_message TypeTag_ErrorMsg (error_reply_payload code text)) c.

(** [ask_raw] with a request type; [None] is a handle that holds an error.  An
    empty reference counts as local. *)
Definition context_ask_raw (v : SystemView) (target : ActorAddress) (tag : Z) (request : list Z) (t : RequestTimeout) (c : ActorContext)
  : option Z * list SystemCall * ActorContext :=
  let '(r, c) := context_resolve v target c in
  if match r with Some r => ref_is_local r | None => true end then
    let m := set_ask_message_id (typed_message tag request) (sv_ask_id v) in
    let '(calls, c) := context_send v target m c in
    (Some (sv_ask_id v), CRegisterAsk (a_id (cx_owner c)) target t :: calls, c)
  else (None, [], c).

(** ** Timers *)

Definition context_schedule_to (target : ActorAddress) (delay_ms : Z) (m : TypedMsg) (c : ActorContext) : list SystemCall :=
  [CScheduleMsg (delay_ms * 1000000) (a_id target) (set_sender_address m (cx_owner c))].
Definition context_schedule (delay_ms : Z) (m : TypedMsg) (c : ActorContext) : list SystemCall := context_schedule_to (cx_owner c) delay_ms m c.
Definition context_cancel_schedule (h : Z) : list SystemCall := if h =? 0 then [] else [CCancelTimer h].

(** ** Children, links, monitors *)

Definition context_add_child (a : ActorAddress) (c : ActorContext) : ActorContext := set_children c (cx_children c ++ [a]) (cx_remote_children c).
Fixpoint erase_address (a : ActorAddress) (l : list ActorAddress) : list ActorAddress :=
  match l with [] => [] | x :: l => if bool_decide (x = a) then l else x :: erase_address a l end.
Definition context_remove_child (a : ActorAddress) (c : ActorContext) : ActorContext := set_children c (erase_address a (cx_children c)) (cx_remote_children c).
Definition context_add_remote_child (r : ActorRef) (c : ActorContext) : ActorContext := set_children c (cx_children c) (cx_remote_children c ++ [r]).
Definition add_linked (a : ActorAddress) (c : ActorContext) : ActorContext := set_links c (cx_linked c ++ [a]) (cx_monitored c).
Definition remove_linked (a : ActorAddress) (c : ActorContext) : ActorContext := set_links c (erase_address a (cx_linked c)) (cx_monitored c).
Definition add_monitored (a : ActorAddress) (c : ActorContext) : ActorContext := set_links c (cx_linked c) (cx_monitored c ++ [a]).
Definition remove_monitored (a : ActorAddress) (c : ActorContext) : ActorContext := set_links c (cx_linked c) (erase_address a (cx_monitored c)).
Definition context_monitor (target : ActorAddress) (c : ActorContext) : ActorContext := add_monitored target c.

Section Links.
(** The protobuf bytes of a [LinkMessage] or [UnlinkMessage]. *)
Context (encode_id : Z -> list Z).

Definition link_to (v : SystemView) (other : ActorAddress) (c : ActorContext) : list SystemCall * ActorContext :=
  if bool_decide (other = cx_owner c) then ([], c)
  else if bool_decide (other ∈ cx_linked c) then ([], c)
  else context_send v other (typed_message TypeTag_LinkMsg (encode_id (a_id (cx_owner c)))) (add_linked other c).
Definition unlink_from (v : SystemView) (other : ActorAddress) (c : ActorContext) : list SystemCall * ActorContext :=
  context_send v other (typed_message TypeTag_UnlinkMsg (encode_id (a_id (cx_owner c)))) (remove_linked other c).
Definition actor_monitor (v : SystemView) (target : ActorAddress) (c : ActorContext) : list SystemCall * ActorContext :=
  context_send v target (typed_message TypeTag_MonitorMsg []) c.
Definition actor_demonitor (v : SystemView) (target : ActorAddress) (c : ActorContext) : list SystemCall * ActorContext :=
  context_send v target (typed_message TypeTag_DemonitorMsg []) c.
End Links.

(** A plain send changes the cache alone and asks for at most one delivery. *)
Definition is_delivery (k : SystemCall) : Prop := match k with CDeliver _ _ _ _ _ | CProxySend _ _ _ _ => True | _ => False end.
Lemma resolve_frame v t c : (context_resolve v t c).2 = set_ref_cache c (cx_cache (context_resolve v t c).2).
Proof. unfold context_resolve. destruct (ref_cache_get _ _) as [[r|] cache]; [done|]. repeat case_match; by destruct c. Qed.
Lemma context_send_frame v t m c : let '(calls, c') := context_send v t m c in c' = set_ref_cache c (cx_cache c') /\ Forall is_delivery calls.
Proof.
  unfold context_send, context_try_send. pose proof (resolve_frame v t c) as E. destruct (context_resolve v t c) as [r c']. simpl in E.
  destruct r as [r|]; [|by split]. destruct (ref_valid r); [|by split]. split; [done|]. destruct r; by repeat constructor.
Qed.

(** ** The cache is a list in the order of use *)

(** The specification: the references in use, the most recent first. *)
Definition without {A} (id : Z) (l : list (Z * A)) : list (Z * A) := filter (fun e => e.1 <> id) l.
Definition lru_get (id : Z) (l : list (Z * ActorRef)) : option ActorRef * list (Z * ActorRef) :=
  match list_to_map (M := gmap Z ActorRef) l !! id with
  | None => (None, l)
  | Some r => (Some r, (id, r) :: without id l)
  end.
Definition lru_put (max : nat) (id : Z) (r : ActorRef) (l : list (Z * ActorRef)) : list (Z * ActorRef) :=
  (id, r) :: if bool_decide (id ∈ l.*1) then without id l else take (max - 1) l.

(** [l] lists the cache with its ticks, the latest first. *)
Definition later (x y : Z * (ActorRef * Z)) : Prop := y.2.2 < x.2.2.
Definition strip (e : Z * (ActorRef * Z)) : Z * ActorRef := (e.1, e.2.1).
Record lru_rep (l : list (Z * (ActorRef * Z))) (c : ActorRefCache) : Prop := mkLru {
  lr_map : rc_entries c = list_to_map l;
  lr_nodup : NoDup l.*1;
  lr_sorted : StronglySorted later l;
  lr_ticks : Forall (fun e => 0 <= e.2.2 <= rc_tick c) l;
  lr_tick : 0 <= rc_tick c;
  lr_bound : Z.of_nat (length l) <= rc_max c
}.

Lemma without_map {A} id (l : list (Z * A)) : NoDup l.*1 -> list_to_map (M := gmap Z A) (without id l) = delete id (list_to_map l).
Proof.
  induction l as [|[k x] l IH]; simpl; [by rewrite delete_empty|]. intros [Hk Hn]%NoDup_cons. unfold without. rewrite filter_cons. case_decide as D; simpl in *.
  - rewrite (delete_insert_ne _ _ _ _ (not_eq_sym D)). f_equal. by apply IH.
  - subst. rewrite delete_insert_eq. by apply IH.
Qed.
Lemma without_nodup {A} id (l : list (Z * A)) : NoDup l.*1 -> NoDup (without id l).*1 /\ id ∉ (without id l).*1.
Proof.
  intros Hn. split; [eapply sublist_NoDup; [exact Hn|]; apply fmap_sublist, sublist_filter|].
  rewrite list_elem_of_fmap. intros ([k x] & -> & [Hk _]%list_elem_of_filter). done.
Qed.
Lemma without_strip id l : without id (strip <$> l) = strip <$> without id l.
Proof. unfold without. induction l as [|e l IH]; [done|]. cbn [fmap list_fmap]. rewrite !filter_cons. simpl. case_decide; [|done]. cbn [fmap list_fmap]. by f_equal. Qed.
Lemma strip_keys l : (strip <$> l).*1 = l.*1.
Proof. rewrite <- list_fmap_compose. done. Qed.
Lemma strip_lookup l id : list_to_map (M := gmap Z ActorRef) (strip <$> l) !! id = fst <$> list_to_map (M := gmap Z (ActorRef * Z)) l !! id.
Proof. induction l as [|[k [r t]] l IH]; [done|]. simpl. destruct (decide (k = id)) as [->|]; [by rewrite !lookup_insert_eq|by rewrite !lookup_insert_ne]. Qed.
Lemma sublist_forall {A} (P : A -> Prop) l' l : l' `sublist_of` l -> Forall P l -> Forall P l'.
Proof. induction 1; intros HP; inversion HP; subst; [constructor|constructor; auto|auto]. Qed.
Lemma sorted_sub l l' : l' `sublist_of` l -> StronglySorted later l -> StronglySorted later l'.
Proof.
  intros Hs. induction Hs as [|x l1 l2 Hs IH|x l1 l2 Hs IH]; intros H; inversion H; subst; [constructor| |by apply IH].
  constructor; [by apply IH|]. eapply sublist_forall; eassumption.
Qed.

(** The use of an id with the next tick. *)
Lemma lru_use l l' c id r : lru_rep l c -> l' `sublist_of` l -> id ∉ l'.*1 -> rc_tick c < UINT64_MAX ->
  Z.of_nat (length l') < rc_max c ->
  lru_rep ((id, (r, rc_tick c + 1)) :: l') (mkRefCache (list_to_map ((id, (r, rc_tick c + 1)) :: l')) (rc_tick c + 1) (rc_max c)).
Proof.
  intros [Hm Hn Hs Ht H0 Hb] Hsub Hid Hlt Hlen.
  assert (Ht' : Forall (fun e : Z * (ActorRef * Z) => 0 <= e.2.2 <= rc_tick c) l') by (eapply sublist_forall; eassumption).
  split; simpl; [done| | | |lia|lia].
  - apply NoDup_cons. split; [done|]. eapply sublist_NoDup; [exact Hn|]. by apply fmap_sublist.
  - constructor; [by eapply sorted_sub|]. eapply Forall_impl; [exact Ht'|]. unfold later. simpl. intros; lia.
  - constructor; [simpl; lia|]. eapply Forall_impl; [exact Ht'|]. simpl. intros; lia.
Qed.

Lemma tick_word c : 0 <= rc_tick c < UINT64_MAX -> u64 (rc_tick c + 1) = rc_tick c + 1.
Proof. intros. apply Z.mod_small. unfold UINT64_MAX in *. lia. Qed.
Lemma without_shorter {A} id x (l : list (Z * A)) : (id, x) ∈ l -> (length (without id l) < length l)%nat.
Proof. intros H. apply (length_filter_lt _ _ (id, x)); [done|]. simpl. naive_solver. Qed.

Lemma cache_get_lru l c id : lru_rep l c -> rc_tick c < UINT64_MAX ->
  exists l', lru_rep l' (ref_cache_get id c).2 /\ ((ref_cache_get id c).1, strip <$> l') = lru_get id (strip <$> l) /\ rc_tick (ref_cache_get id c).2 <= rc_tick c + 1 /\ rc_max (ref_cache_get id c).2 = rc_max c.
Proof.
  intros HR Ht. pose proof HR as [Hm Hn Hs Htk H0 Hb]. unfold ref_cache_get, lru_get. rewrite strip_lookup, <- Hm. destruct (rc_entries c !! id) as [[r t]|] eqn:E; simpl.
  - rewrite tick_word by lia. assert (Hin : (id, (r, t)) ∈ l) by (apply elem_of_list_to_map; [done|by rewrite <- Hm]).
    exists ((id, (r, rc_tick c + 1)) :: without id l). destruct (without_nodup id l Hn) as [Hn' Hid].
    rewrite without_strip. split; [|split; [done|lia]].
    replace (<[id := (r, rc_tick c + 1)]> (rc_entries c)) with (list_to_map (M := gmap Z (ActorRef * Z)) ((id, (r, rc_tick c + 1)) :: without id l)).
    { apply (lru_use l); try done; [apply sublist_filter|]. pose proof (without_shorter _ _ _ Hin). lia. }
    simpl. rewrite (without_map id l Hn), Hm. apply insert_delete_eq.
  - exists l. split; [done|]. split; [done|lia].
Qed.

(** The scan finds a smallest tick. *)
Lemma scan_min L : forall acc, let res := foldl scan_step acc L in
  res.1 <= acc.1 /\ Forall (fun e => res.1 <= e.2.2) L /\ (res = acc \/ exists r, (res.2, (r, res.1)) ∈ L).
Proof.
  induction L as [|[i [r t]] L IH]; intros [m0 k0]; simpl; [split; [lia|]; split; [constructor|by left]|].
  destruct (IH (if t <? m0 then (t, i) else (m0, k0))) as (H1 & H2 & H3). set (res := foldl _ _ L) in *.
  destruct (t <? m0) eqn:E; bool_to_prop; simpl in *; (split; [lia|]); (split; [constructor; [simpl; lia|done]|]).
  - right. destruct H3 as [->|[r' ?]]; [exists r; by left|exists r'; by right].
  - destruct H3 as [->|[r' ?]]; [by left|right; exists r'; by right].
Qed.

Lemma evict_last l k x c : lru_rep (l ++ [(k, x)]) c -> rc_tick c < UINT64_MAX -> evict_lru c = mkRefCache (list_to_map l) (rc_tick c) (rc_max c).
Proof.
  intros [Hm Hn Hs Ht H0 Hb] Hlt. unfold evict_lru. f_equal.
  assert (HP : map_to_list (rc_entries c) ≡ₚ l ++ [(k, x)]) by (rewrite Hm; by apply map_to_list_to_map).
  pose proof (scan_min (map_to_list (rc_entries c)) (UINT64_MAX, 0)) as (_ & Hmin & Hres). fold (lru_scan (map_to_list (rc_entries c))) in *.
  revert Hmin Hres. generalize (lru_scan (map_to_list (rc_entries c))). intros res Hmin Hres. assert (Hk : res.2 = k).
  { rewrite HP in Hmin. rewrite Forall_app in Hmin. destruct Hmin as [_ Hlast%List.Forall_inv].
    rewrite Forall_app in Ht. destruct Ht as [_ Htk%List.Forall_inv]. simpl in *.
    destruct Hres as [->|[r Hin]]; [simpl in *; lia|]. rewrite HP in Hin. apply elem_of_app in Hin as [Hin|Hin%list_elem_of_singleton]; [|by injection Hin].
    exfalso. apply list_elem_of_split in Hin as (l1 & l2 & ->). rewrite <- app_assoc in Hs. simpl in Hs.
    assert (Hs2 : StronglySorted later ((res.2, (r, res.1)) :: l2 ++ [(k, x)])) by (eapply sorted_sub; [|exact Hs]; apply sublist_inserts_l; reflexivity).
    inversion Hs2 as [|? ? _ Hf]. rewrite Forall_app in Hf. destruct Hf as [_ Hf%List.Forall_inv]. unfold later in Hf. simpl in *. lia. }
  rewrite Hk, Hm. rewrite fmap_app in Hn. apply NoDup_app in Hn as (Hn & Hd & _).
  assert (Hkl : k ∉ l.*1) by (intros H; apply (Hd _ H); set_solver).
  rewrite list_to_map_app. simpl. rewrite delete_union, delete_insert_eq, delete_empty. rewrite (right_id_L ∅ (∪)). apply delete_id. by apply not_elem_of_list_to_map_1.
Qed.

Lemma cache_put_lru l c id r : lru_rep l c -> rc_tick c < UINT64_MAX -> 0 < rc_max c ->
  exists l', lru_rep l' (ref_cache_put id r c) /\ strip <$> l' = lru_put (Z.to_nat (rc_max c)) id r (strip <$> l) /\ rc_tick (ref_cache_put id r c) = rc_tick c + 1 /\ rc_max (ref_cache_put id r c) = rc_max c.
Proof.
  intros HR Ht Hmax. pose proof HR as [Hm Hn Hs Htk H0 Hb]. unfold ref_cache_put, lru_put. rewrite strip_keys.
  destruct (rc_entries c !! id) as [[r0 t0]|] eqn:E.
  - assert (Hin : (id, (r0, t0)) ∈ l) by (apply elem_of_list_to_map; [done|by rewrite <- Hm]). rewrite tick_word by lia.
    rewrite bool_decide_eq_true_2 by (rewrite list_elem_of_fmap; by exists (id, (r0, t0))).
    exists ((id, (r, rc_tick c + 1)) :: without id l). destruct (without_nodup id l Hn) as [Hn' Hid]. split; [|by rewrite without_strip].
    replace (<[id := (r, rc_tick c + 1)]> (rc_entries c)) with (list_to_map (M := gmap Z (ActorRef * Z)) ((id, (r, rc_tick c + 1)) :: without id l)).
    { apply (lru_use l); try done; [apply sublist_filter|]. pose proof (without_shorter _ _ _ Hin). lia. }
    simpl. rewrite (without_map id l Hn), Hm. apply insert_delete_eq.
  - assert (Hid : id ∉ l.*1) by (apply not_elem_of_list_to_map; by rewrite <- Hm). rewrite bool_decide_eq_false_2 by done.
    assert (Hsz : size (rc_entries c) = length l) by (rewrite Hm; by apply map_size_list_to_map). rewrite Hsz.
    set (l' := take (Z.to_nat (rc_max c) - 1) l). exists ((id, (r, rc_tick c + 1)) :: l').
    assert (Hl' : (if rc_max c <=? Z.of_nat (length l) then evict_lru c else c) = mkRefCache (list_to_map l') (rc_tick c) (rc_max c)).
    { destruct (rc_max c <=? Z.of_nat (length l)) eqn:Eb; bool_to_prop.
      - destruct l as [|k l0 _] using rev_ind; [simpl in *; lia|]. destruct k as [k x]. rewrite length_app in *. simpl in *.
        rewrite (evict_last l0 k x c HR Ht). unfold l'. rewrite take_app_le by lia. by rewrite take_ge by lia.
      - unfold l'. rewrite take_ge by lia. rewrite <- Hm. by destruct c. }
    rewrite Hl'. simpl. rewrite tick_word by lia. split; [|split; [|done]].
    + apply (lru_use l); try done; [apply sublist_take| |unfold l'; rewrite length_take; lia].
      intros Hx. apply Hid. unfold l' in Hx. rewrite fmap_take in Hx. eapply elem_of_take in Hx as (? & ? & ?). by eapply list_elem_of_lookup_2.
    + unfold l'. by rewrite fmap_take.
Qed.

(** ** A resolution is the lookup that it caches *)

Definition lookup_ref (v : SystemView) (target : ActorAddress) : option ActorRef :=
  if negb (bool_decide (a_endpoint target = sv_endpoint v)) then Some (ProxyRef target (sv_transport v (a_endpoint target)))
  else LocalRef <$> sv_actor v (a_id target).
Definition cacheable (v : SystemView) (target : ActorAddress) : bool :=
  bool_decide (a_endpoint target = sv_endpoint v) || bool_decide (is_Some (sv_transport v (a_endpoint target))).
(** A resolution over the list of references in use: the one in use, or the lookup
    in the system as it is now, which is then in use. *)
Definition lru_resolve (v : SystemView) (target : ActorAddress) (l : list (Z * ActorRef)) : option ActorRef * list (Z * ActorRef) :=
  let '(hit, l) := lru_get (a_id target) l in
  match hit with
  | Some r => (Some r, l)
  | None => (lookup_ref v target,
             match lookup_ref v target with
             | Some r => if cacheable v target then lru_put 256 (a_id target) r l else l
             | None => l
             end)
  end.

(** Resolutions one after the other, each with the system as it is then. *)
Notation Resolution := (SystemView * ActorAddress)%type.
Definition looked_up (x : Resolution) : option ActorRef := lookup_ref x.1 x.2.
Fixpoint context_resolve_all (xs : list Resolution) (c : ActorContext) : list (option ActorRef) * ActorContext :=
  match xs with
  | [] => ([], c)
  | (v, t) :: xs => let '(r, c) := context_resolve v t c in let '(rs, c) := context_resolve_all xs c in (r :: rs, c)
  end.
Fixpoint lru_resolve_all (xs : list Resolution) (l : list (Z * ActorRef)) : list (option ActorRef) * list (Z * ActorRef) :=
  match xs with
  | [] => ([], l)
  | (v, t) :: xs => let '(r, l) := lru_resolve v t l in let '(rs, l) := lru_resolve_all xs l in (r :: rs, l)
  end.

Lemma resolve_lru v t c l : lru_rep l (cx_cache c) -> rc_max (cx_cache c) = 256 -> rc_tick (cx_cache c) + 1 < UINT64_MAX ->
  exists l', lru_rep l' (cx_cache (context_resolve v t c).2) /\ ((context_resolve v t c).1, strip <$> l') = lru_resolve v t (strip <$> l) /\
    rc_max (cx_cache (context_resolve v t c).2) = 256 /\ rc_tick (cx_cache (context_resolve v t c).2) <= rc_tick (cx_cache c) + 2.
Proof.
  intros HR Hm Ht. destruct (cache_get_lru l (cx_cache c) (a_id t) HR) as (l1 & HR1 & E1 & Ht1 & Hm1); [lia|].
  unfold context_resolve, lru_resolve. rewrite <- E1. destruct (ref_cache_get (a_id t) (cx_cache c)) as [[r|] cache]; simpl in *.
  { exists l1. split; [done|]. split; [done|]. split; [congruence|lia]. }
  assert (Hput : forall r, exists l', lru_rep l' (ref_cache_put (a_id t) r cache) /\ strip <$> l' = lru_put 256 (a_id t) r (strip <$> l1) /\
    rc_max (ref_cache_put (a_id t) r cache) = 256 /\ rc_tick (ref_cache_put (a_id t) r cache) <= rc_tick (cx_cache c) + 2).
  { intros r. destruct (cache_put_lru l1 cache (a_id t) r HR1) as (l' & H1 & H2 & H3 & H4); [lia|lia|]. exists l'. rewrite Hm1, Hm in H2. split; [done|]. split; [done|]. split; [congruence|lia]. }
  assert (Hkeep : exists l', lru_rep l' cache /\ strip <$> l' = strip <$> l1 /\ rc_max cache = 256 /\ rc_tick cache <= rc_tick (cx_cache c) + 2)
    by (exists l1; split; [done|]; split; [done|]; split; [congruence|lia]).
  unfold lookup_ref, cacheable. case_bool_decide; simpl.
  - destruct (sv_actor v (a_id t)) as [a|]; simpl; [destruct (Hput (LocalRef a)) as (l' & ? & E & ?)|destruct Hkeep as (l' & ? & E & ?)]; exists l'; by rewrite E.
  - destruct (sv_transport v (a_endpoint t)) as [x|]; simpl; [destruct (Hput (ProxyRef t (Some x))) as (l' & ? & E & ?)|destruct Hkeep as (l' & ? & E & ?)]; exists l'; by rewrite E.
Qed.

Lemma resolve_all_lru xs : forall c l, lru_rep l (cx_cache c) -> rc_max (cx_cache c) = 256 -> rc_tick (cx_cache c) + 2 * Z.of_nat (length xs) < UINT64_MAX - 1 ->
  exists l', lru_rep l' (cx_cache (context_resolve_all xs c).2) /\ ((context_resolve_all xs c).1, strip <$> l') = lru_resolve_all xs (strip <$> l) /\
    rc_max (cx_cache (context_resolve_all xs c).2) = 256.
Proof.
  induction xs as [|[v t] xs IH]; intros c l HR Hm Ht; simpl; [by exists l|]. cbn [length] in Ht.
  destruct (resolve_lru v t c l HR Hm) as (l1 & HR1 & <- & Hm1 & Ht1); [lia|]. destruct (context_resolve v t c) as [r c1]. simpl in *.
  destruct (IH c1 l1 HR1 Hm1) as (l2 & HR2 & <- & Hm2); [lia|]. destruct (context_resolve_all xs c1) as [rs c2]. by exists l2.
Qed.

(** Every reference in use is what one of the [past] resolutions looked up. *)
Definition from_past (past : list Resolution) (l : list (Z * ActorRef)) : Prop :=
  forall id r, (id, r) ∈ l -> exists y, y ∈ past /\ a_id y.2 = id /\ looked_up y = Some r.

Lemma resolve_from_past past v t l : from_past past l ->
  let '(r, l') := lru_resolve v t l in
  from_past (past ++ [(v, t)]) l' /\ exists y, y ∈ past ++ [(v, t)] /\ a_id y.2 = a_id t /\ r = looked_up y.
Proof.
  intros Hl. assert (Hmono : forall k, from_past past k -> from_past (past ++ [(v, t)]) k) by (intros k Hk id r Hin; destruct (Hk id r Hin) as (y & ? & ?); exists y; set_solver).
  assert (Hnow : forall l1, from_past past l1 -> forall r, looked_up (v, t) = Some r -> from_past (past ++ [(v, t)]) ((a_id t, r) :: l1)).
  { intros l1 H1 r Hr id r' [[= -> ->]|Hin]%elem_of_cons; [exists (v, t); set_solver|]. by apply (Hmono l1). }
  unfold lru_resolve, lru_get. destruct (list_to_map l !! a_id t) as [r|] eqn:E.
  - apply elem_of_list_to_map_2 in E. split.
    + intros id r' [[= -> ->]|[_ Hin]%list_elem_of_filter]%elem_of_cons; by apply (Hmono l).
    + destruct (Hl _ _ E) as (y & ? & ? & ?). exists y. set_solver.
  - split; [|exists (v, t); set_solver]. change (lookup_ref v t) with (looked_up (v, t)). destruct (looked_up (v, t)) as [r|] eqn:Er; [|by apply Hmono].
    destruct (cacheable v t); [|by apply Hmono]. unfold lru_put. apply Hnow; [|done].
    case_bool_decide; intros id r' Hin; apply Hl; [by apply list_elem_of_filter in Hin as [_ ?]|by apply elem_of_take in Hin as (? & ?%list_elem_of_lookup_2 & _)].
Qed.

Lemma resolve_all_past xs : forall past l, from_past past l ->
  length (lru_resolve_all xs l).1 = length xs /\
  forall i r, (lru_resolve_all xs l).1 !! i = Some r ->
    exists x y, xs !! i = Some x /\ y ∈ past ++ take (S i) xs /\ a_id y.2 = a_id x.2 /\ r = looked_up y.
Proof.
  induction xs as [|[v t] xs IH]; intros past l Hl; simpl; [done|]. pose proof (resolve_from_past past v t l Hl) as Hr.
  destruct (lru_resolve v t l) as [r l1]. destruct Hr as [Hl1 (y & Hy & Hid & ->)]. destruct (IH _ _ Hl1) as [Hlen Hall].
  destruct (lru_resolve_all xs l1) as [rs l2]. simpl in *. split; [by rewrite Hlen|]. intros [|i] r Hi; simpl in *.
  - injection Hi as <-. by exists (v, t), y.
  - destruct (Hall i r Hi) as (x & z & Hx & Hz & ?). exists x, z. split; [done|]. split; [|done]. by rewrite <- app_assoc in Hz.
Qed.

(** C40. The cache of references over any run of resolutions, each of which sees
    the system as it is at that time.  What is answered and what is kept is that of
    a list of the 256 references used last: a target whose id is in use gets that
    reference, another the lookup in the system of now.  So an answer is always the
    lookup of the same id in the system as it was at this or an earlier resolution;
    and when the resolutions of one id all see the same, it is the lookup of now. *)
Theorem resolutions_cached owner xs : 2 * Z.of_nat (length xs) < UINT64_MAX - 1 ->
  let '(rs, c) := context_resolve_all xs (context_new owner) in
  let '(rs', used) := lru_resolve_all xs [] in
  rs = rs' /\ (exists l, lru_rep l (cx_cache c) /\ strip <$> l = used /\ (length used <= 256)%nat) /\
  (forall i r, rs !! i = Some r -> exists x y, xs !! i = Some x /\ y ∈ take (S i) xs /\ a_id y.2 = a_id x.2 /\ r = looked_up y) /\
  ((forall x y, x ∈ xs -> y ∈ xs -> a_id x.2 = a_id y.2 -> looked_up x = looked_up y) -> rs = looked_up <$> xs).
Proof.
  intros Hlen. destruct (resolve_all_lru xs (context_new owner) []) as (l & HR & E & Hm); [by split; simpl; try done; constructor|done|simpl; lia|].
  destruct (resolve_all_past xs [] []) as [Hl Hp]; [by intros ? ? ?%elem_of_nil|]. simpl in E. rewrite <- E in *.
  destruct (context_resolve_all xs (context_new owner)) as [rs c]. simpl in *. split; [done|]. split; [|split; [exact Hp|]].
  - exists l. split; [done|]. split; [done|]. rewrite length_fmap. pose proof (lr_bound _ _ HR). lia.
  - intros Hsame. apply list_eq. intros i. rewrite list_lookup_fmap. destruct (xs !! i) as [x|] eqn:Ex; simpl.
    + destruct (rs !! i) as [r|] eqn:Er; [|apply lookup_ge_None in Er; apply lookup_lt_Some in Ex; lia].
      destruct (Hp i r Er) as (x' & y & Ex' & Hy & Hid & ->). assert (x' = x) as -> by congruence. f_equal. apply Hsame; [|by eapply list_elem_of_lookup_2|done].
      by apply elem_of_take in Hy as (? & ?%list_elem_of_lookup_2 & _).
    + apply lookup_ge_None. rewrite Hl. by apply lookup_ge_None.
Qed.

(** ** One message to several addresses *)

(** What [context_send] asks for once it has found the reference [r]. *)
Definition send_calls (owner : ActorAddress) (m : TypedMsg) (r : option ActorRef) : list SystemCall :=
  match r with
  | Some r => if ref_valid r then ref_try_send r (set_sender_address m owner) default_options else []
  | None => []
  end.
(** [r] is the lookup of [target], the reference that the cache of [c] has for its
    id, or the lookup of one of [L] with the same id. *)
Definition finds (v : SystemView) (c : ActorContext) (L : list ActorAddress) (target : ActorAddress) (r : option ActorRef) : Prop :=
  r = lookup_ref v target \/ (exists x t, rc_entries (cx_cache c) !! a_id target = Some (x, t) /\ r = Some x) \/
  exists y x, y ∈ L /\ a_id y = a_id target /\ lookup_ref v y = Some x /\ r = Some x.
(** The cache of [c] holds what that of [c0] held and lookups of [L]. *)
Definition cache_from (v : SystemView) (c0 : ActorContext) (L : list ActorAddress) (c : ActorContext) : Prop :=
  cx_owner c = cx_owner c0 /\ forall id r t, rc_entries (cx_cache c) !! id = Some (r, t) ->
    (exists t', rc_entries (cx_cache c0) !! id = Some (r, t')) \/ exists y, y ∈ L /\ a_id y = id /\ lookup_ref v y = Some r.

Lemma put_from v c0 L y r c : cache_from v c0 L c -> y ∈ L -> lookup_ref v y = Some r ->
  cache_from v c0 L (set_ref_cache c (ref_cache_put (a_id y) r (cx_cache c))).
Proof.
  intros [Ho HS] Hy Hr. split; [done|]. intros id r' t'. unfold ref_cache_put. simpl. destruct (decide (id = a_id y)) as [->|Hne].
  - rewrite lookup_insert_eq. intros [= <- <-]. right. by exists y.
  - rewrite lookup_insert_ne by done. destruct (rc_entries (cx_cache c) !! a_id y); [apply HS|]. case_match; [|apply HS]. unfold evict_lru. simpl.
    intros [_ E]%lookup_delete_Some. by apply (HS _ _ _ E).
Qed.

Lemma send_finds v c0 L to_ m c : cache_from v c0 L c -> to_ ∈ L ->
  let '(ks, c') := context_send v to_ m c in
  cache_from v c0 L c' /\ exists r, finds v c0 L to_ r /\ ks = send_calls (cx_owner c0) m r.
Proof.
  intros Hc Hin. assert (Hr : cache_from v c0 L (context_resolve v to_ c).2 /\ finds v c0 L to_ (context_resolve v to_ c).1).
  { pose proof Hc as [Ho HS]. unfold context_resolve, ref_cache_get. destruct (rc_entries (cx_cache c) !! a_id to_) as [[r tk]|] eqn:E; simpl.
    - destruct (HS _ _ _ E) as [[t' E']|(y & Hy & Hi & Hl)].
      + split; [|right; left; by exists r, t']. split; [done|]. intros id r' t''. simpl. destruct (decide (id = a_id to_)) as [->|]; [rewrite lookup_insert_eq; intros [= <- <-]; left; by eexists|rewrite lookup_insert_ne by done; apply HS].
      + split; [|right; right; by exists y, r]. split; [done|]. intros id r' t''. simpl. destruct (decide (id = a_id to_)) as [->|]; [rewrite lookup_insert_eq; intros [= <- <-]; right; by exists y|rewrite lookup_insert_ne by done; apply HS].
    - assert (Hset : forall x, set_ref_cache (set_ref_cache c (cx_cache c)) x = set_ref_cache c x) by (by destruct c). unfold finds, lookup_ref. case_bool_decide as D; simpl.
      + destruct (sv_actor v (a_id to_)) as [a|] eqn:Ea; simpl; [rewrite Hset|]; (split; [|by left]); [|by destruct c].
        apply put_from; [done..|]. unfold lookup_ref. by rewrite bool_decide_eq_true_2, Ea by done.
      + destruct (sv_transport v (a_endpoint to_)) eqn:Et; simpl; [rewrite Hset|]; (split; [|by left]); [|by destruct c].
        apply put_from; [done..|]. unfold lookup_ref. by rewrite bool_decide_eq_false_2, Et by done. }
  unfold context_send, context_try_send. destruct (context_resolve v to_ c) as [r c1]. simpl in Hr. destruct Hr as [Hc1 Hf].
  destruct r as [r|]; [destruct (ref_valid r) eqn:Ev|]; (split; [done|]); (eexists; split; [exact Hf|]); simpl; rewrite ?Ev; [|done..]. by rewrite (proj1 Hc1).
Qed.

(** ** Examples *)

Definition view_demo : SystemView :=
  mkView (Ipv4Endpoint 167772161 8080) (fun id => if id <? 10 then Some (mkAddr (Ipv4Endpoint 167772161 8080) 0 id 0) else None) (fun _ => Some 3) (fun _ => true) (fun _ => true) 7 1 0.
Definition local_demo (id : Z) : ActorAddress := mkAddr (Ipv4Endpoint 167772161 8080) 0 id 0.
Definition remote_demo (id : Z) : ActorAddress := mkAddr (Ipv4Endpoint 167772162 8080) 0 id 0.

(** The same system after actor 5 has left the directory. *)
Definition view_later : SystemView :=
  mkView (Ipv4Endpoint 167772161 8080) (fun _ => None) (fun _ => Some 3) (fun _ => true) (fun _ => true) 7 1 0.

Lemma resolutions_cached_witness :
  let xs := [(view_demo, local_demo 5); (view_demo, remote_demo 20); (view_later, local_demo 5)] in
  (context_resolve_all xs (context_new (local_demo 1))).1 = (lru_resolve_all xs []).1 /\
  (lru_resolve_all xs []).1 = [Some (LocalRef (local_demo 5)); Some (ProxyRef (remote_demo 20) (Some 3)); Some (LocalRef (local_demo 5))].
Proof.
  cbv zeta. split; [|vm_compute; reflexivity].
  pose proof (resolutions_cached (local_demo 1) [(view_demo, local_demo 5); (view_demo, remote_demo 20); (view_later, local_demo 5)]) as Hw.
  destruct (context_resolve_all _ _) as [rs c]. destruct (lru_resolve_all _ _) as [rs' used]. apply Hw. by vm_compute.
Defined.

(** Nothing takes a reference out of the cache: an actor that was resolved once is
    still found after it has left the directory, which another actor no longer does. *)
Lemma cached_reference_outlives_actor :
  let '(_, c) := context_resolve view_demo (local_demo 5) (context_new (local_demo 1)) in
  (context_resolve view_later (local_demo 5) c).1 = Some (LocalRef (local_demo 5)) /\
  (context_resolve view_later (local_demo 5) (context_new (local_demo 2))).1 = None.
Proof. split; reflexivity. Qed.

(** The cache is keyed by the id alone: once the local actor 5 was resolved, a
    message for the actor 5 of another node is delivered to the local one. *)
Lemma cached_id_hides_endpoint m :
  let '(_, c) := context_send view_demo (local_demo 5) m (context_new (local_demo 1)) in
  (context_send view_demo (remote_demo 5) m c).1 = [CDeliver 5 (set_sender_address m (local_demo 1)) 0 INT64_MAX default_options] /\
  (context_send view_demo (remote_demo 5) m (context_new (local_demo 1))).1 = [CProxySend (remote_demo 5) (Some 3) (set_sender_address m (local_demo 1)) default_options].
Proof. split; reflexivity. Qed.

(** An ask of a local actor that does not exist is registered, and nothing is sent. *)
Lemma ask_of_nobody_waits : context_ask_raw view_demo (local_demo 50) 4096 [1] (timeout_from_ms 100) (context_new (local_demo 1)) =
  (Some 7, [CRegisterAsk 1 (local_demo 50) (timeout_from_ms 100)], context_new (local_demo 1)).
Proof. reflexivity. Qed.

(** An error that answers an ask goes to the sender as a message; the ask is not settled. *)
Lemma error_leaves_ask_open v code text c : let '(calls, c') := context_reply_with_error v code text c in
  cx_current_ask c' = cx_current_ask c /\ Forall is_delivery calls.
Proof.
  unfold context_reply_with_error. destruct (a_id (cx_current_sender c) =? 0); [done|]. pose proof (context_send_frame v (cx_current_sender c) (typed_message TypeTag_ErrorMsg (error_reply_payload code text)) c) as H'.
  destruct (context_send _ _ _ _) as [calls c']. destruct H' as [E ?]. split; [by rewrite E|done].
Qed.
