(* ===== verification/EventActor.v ===== *)
(** * Event-based actors

    [actor/event_based_actor.cpp], [ActorContext::stop] and the records of
    [actor/lifecycle/drain_config.hpp] and [cli/cli_types.hpp]: what an actor
    does with a message that was taken from its mailbox (adapters, fast tags, the
    gate of a drain, system messages, the gate of the lifecycle, administration,
    handlers and behavior, acknowledgement, the end of a drain), and how it is
    stopped.  An operation is a computation of the monad [Act], which reads the
    [SystemView], changes the actor and asks [SystemCall]s of the system.

    The code of the user is a parameter: what a handler or a behavior does to the
    actor through its public methods is a list of [UserAction]s.  The bytes of
    protobuf messages are parameters too.  No trace manager, no metrics buffer is
    installed. *)

From S2P Require Import Prelude DeliveryTypes Breakers Lanes Admission Mailbox DeadLetters ActorCircuit Lifecycle ReadyGate Reliable TraceText Endpoint GossipCodec Pipeline FrameProto AskManager ActorContext.
From Stdlib Require Import String.
From stdpp Require Import base numbers list gmap.

#[local] Open Scope Z_scope.

Inductive DrainPolicy := DP_Drain | DP_DropUserMessages | DP_ImmediateStop | DP_SnapshotAndStop | DP_TransferShard.
Record DrainConfig := mkDrain { dc_policy : DrainPolicy; dc_timeout_ms : Z }.

(** C++'s [float]: binary32. *)
Notation single := SpecFloat.spec_float.
Definition single_of_Z (z : Z) : single := SpecFloat.binary_normalize 24 128 z 0 false.
Definition single_div (a b : single) : single := SpecFloat.SFdiv 24 128 a b.

Definition InspectStateRequestTag : Z := 80.
Definition InspectStateResponseTag : Z := 81.
Definition KillRequestTag : Z := 82.
Definition KillResponseTag : Z := 83.
Definition QuarantineRequestTag : Z := 94.
Definition QuarantineResponseTag : Z := 95.

Definition QR_CircuitBreakerTrip : Z := 1.
Definition QR_MailboxPressure : Z := 2.
Definition QR_OperatorAction : Z := 3.

(** ** Administration messages *)

Record InspectStateRequest := mkInspect {
  ir_include_state : bool; ir_include_mailbox : bool; ir_include_circuit_breaker : bool; ir_include_quarantine_info : bool;
  ir_include_rate_limiter : bool; ir_include_admission : bool
}.
Record RateInfo := mkRateInfo { ri_enabled : bool; ri_rate : double; ri_burst : Z; ri_current_tokens : double; ri_blocked_total : Z }.
Record AdmissionInfo := mkAdmissionInfo { ai_policy_count : Z; ai_rejected_total : Z; ai_dlq_routed_total : Z }.
Record MboxSnapshot := mkMbox {
  ms_depth : Z; ms_total_enqueued : Z; ms_total_dequeued : Z; ms_max_depth : Z; ms_high_priority_depth : Z; ms_capacity : Z;
  ms_queued_bytes : Z; ms_byte_capacity : Z; ms_pressure_ratio_ppm : Z; ms_total_rejected : Z; ms_total_dropped : Z;
  ms_total_dead_letters : Z; ms_pressure_state : string; ms_overflow_policy : string;
  ms_rate_limiter : RateInfo; ms_admission : AdmissionInfo;
  ms_accepted_total : Z; ms_rejected_total : Z; ms_failed_total : Z; ms_retryable_total : Z
}.
Definition empty_snapshot : MboxSnapshot :=
  mkMbox 0 0 0 0 0 0 0 0 0 0 0 0 EmptyString EmptyString (mkRateInfo false (double_of_Z 0) 0 (double_of_Z 0) 0) (mkAdmissionInfo 0 0 0) 0 0 0 0.
(** The mailbox of a reply: the snapshot, and which of its two parts are filled in. *)
Record MailboxReply := mkMailboxReply { mr_snapshot : MboxSnapshot; mr_rate_limiter : option RateInfo; mr_admission : option AdmissionInfo }.
Record ActorMeta := mkMeta' { am_actor_id : Z; am_actor_type : string; am_state : string; am_incarnation : Z }.
Record CircuitInfo := mkCircuitInfo { ci_state : CircuitBreakerState; ci_trip_count : Z; ci_failure_ema : double; ci_opened_at_ns : option Z }.
Record InspectStateReply := mkInspectReply {
  rp_metadata : ActorMeta; rp_mailbox : option MailboxReply; rp_circuit_breaker : option CircuitInfo;
  rp_quarantine_enabled : bool; rp_quarantine_reason : option Z; rp_state_blob : list Z
}.
Inductive QuarantineError := QE_None | QE_NotQuarantined | QE_AlreadyQuarantined | QE_NoLifecycle.

(** ** Mailboxes *)

(** What an actor uses of its mailbox beyond [MailboxOps]; [box_list] is the
    order in which its messages come out. *)
Class ActorBox (M : Type) := {
  actor_box_ops :: MailboxOps M TypedMsg;
  box_snapshot : M -> MboxSnapshot;
  box_list : M -> list TypedMsg
}.

(** A mailbox that gives its messages out one by one, and says that it is empty
    when it has none: one without a rate limiter. *)
Class ActorBoxLaws (M : Type) `{ActorBox M} := {
  box_pop_next : forall b now m l, box_list b = m :: l -> exists b', box_try_pop b now = (Some m, b') /\ box_list b' = l;
  box_pop_none : forall b now, box_list b = [] -> exists b', box_try_pop b now = (None, b') /\ box_list b' = [];
  box_empty_spec : forall b, box_empty b = true <-> box_list b = []
}.

Section Event.
Context {U D H B A M : Type} `{ActorBox M}.

(** What user code may do to its actor. *)
Inductive UserAction :=
| ActSend (to_ : ActorAddress) (m : TypedMsg)
| ActReply (m : TypedMsg)
| ActReplyError (code : Z) (text : list Z)
| ActBecome (b : option B)
| ActOn (tag : Z) (h : H)
| ActAdapter (tag : Z) (f : A)
| ActFastTag (tag : Z)
| ActLink (other : ActorAddress)
| ActUnlink (other : ActorAddress)
| ActMonitor (other : ActorAddress)
| ActDemonitor (other : ActorAddress)
| ActContextMonitor (other : ActorAddress)
| ActDeathPact (b : bool)
| ActPassivate
| ActExitReason (code : Z)
| ActRecordTimeout
| ActStopSelf.

Context (deserialize : H -> list Z -> option D)
        (invoke : H -> D -> U -> U * list UserAction * list Z)
        (run_behavior : B -> TypedMsg -> U -> U * list UserAction)
        (run_adapter : A -> TypedMsg -> TypedMsg)
        (register_handlers : gmap Z H)
        (serialize_state : U -> list Z)
        (encode_id : Z -> list Z)
        (encode_down : Z -> Z -> list Z)
        (parse_inspect : list Z -> option InspectStateRequest)
        (encode_inspect : InspectStateReply -> list Z)
        (parse_kill : list Z -> bool)
        (encode_kill : list Z)
        (parse_quarantine : list Z -> option bool)
        (encode_quarantine : bool -> QuarantineError -> list Z).

Record EventBasedActor := mkEventActor {
  ea_address : ActorAddress;
  ea_type_name : string;
  ea_context : option ActorContext;
  ea_lifecycle : option LifecycleActor;
  ea_drain : DrainConfig;
  ea_behavior : option B;
  ea_handlers : gmap Z H;
  ea_handlers_initialized : bool;
  ea_adapters : list (Z * A);
  ea_fast_tag_bitset : list Z;   (* four 64-bit words *)
  ea_policy : QuarantinePolicy;
  ea_pressure_threshold : single;
  ea_circuit : ActorCircuit;
  ea_exit_reason : Z;
  ea_mailbox : option M;
  ea_scheduler : bool;   (* scheduler_ is set *)
  ea_drain_timer : Z;   (* drain_timer_handle_, 0 when invalid *)
  ea_next_handle : Z;   (* what the scheduler gives next *)
  ea_user : U
}.
Definition set_context (a : EventBasedActor) (x : option ActorContext) : EventBasedActor :=
  mkEventActor (ea_address a) (ea_type_name a) x (ea_lifecycle a) (ea_drain a) (ea_behavior a) (ea_handlers a) (ea_handlers_initialized a) (ea_adapters a) (ea_fast_tag_bitset a) (ea_policy a) (ea_pressure_threshold a) (ea_circuit a) (ea_exit_reason a) (ea_mailbox a) (ea_scheduler a) (ea_drain_timer a) (ea_next_handle a) (ea_user a).
Definition set_lifecycle (a : EventBasedActor) (x : option LifecycleActor) : EventBasedActor :=
  mkEventActor (ea_address a) (ea_type_name a) (ea_context a) x (ea_drain a) (ea_behavior a) (ea_handlers a) (ea_handlers_initialized a) (ea_adapters a) (ea_fast_tag_bitset a) (ea_policy a) (ea_pressure_threshold a) (ea_circuit a) (ea_exit_reason a) (ea_mailbox a) (ea_scheduler a) (ea_drain_timer a) (ea_next_handle a) (ea_user a).
Definition set_drain_config (a : EventBasedActor) (x : DrainConfig) : EventBasedActor :=
  mkEventActor (ea_address a) (ea_type_name a) (ea_context a) (ea_lifecycle a) x (ea_behavior a) (ea_handlers a) (ea_handlers_initialized a) (ea_adapters a) (ea_fast_tag_bitset a) (ea_policy a) (ea_pressure_threshold a) (ea_circuit a) (ea_exit_reason a) (ea_mailbox a) (ea_scheduler a) (ea_drain_timer a) (ea_next_handle a) (ea_user a).
Definition set_behavior (a : EventBasedActor) (x : option B) : EventBasedActor :=
  mkEventActor (ea_address a) (ea_type_name a) (ea_context a) (ea_lifecycle a) (ea_drain a) x (ea_handlers a) (ea_handlers_initialized a) (ea_adapters a) (ea_fast_tag_bitset a) (ea_policy a) (ea_pressure_threshold a) (ea_circuit a) (ea_exit_reason a) (ea_mailbox a) (ea_scheduler a) (ea_drain_timer a) (ea_next_handle a) (ea_user a).
Definition set_handlers (a : EventBasedActor) (x : gmap Z H) (y : bool) : EventBasedActor :=
  mkEventActor (ea_address a) (ea_type_name a) (ea_context a) (ea_lifecycle a) (ea_drain a) (ea_behavior a) x y (ea_adapters a) (ea_fast_tag_bitset a) (ea_policy a) (ea_pressure_threshold a) (ea_circuit a) (ea_exit_reason a) (ea_mailbox a) (ea_scheduler a) (ea_drain_timer a) (ea_next_handle a) (ea_user a).
Definition set_adapters (a : EventBasedActor) (x : list (Z * A)) : EventBasedActor :=
  mkEventActor (ea_address a) (ea_type_name a) (ea_context a) (ea_lifecycle a) (ea_drain a) (ea_behavior a) (ea_handlers a) (ea_handlers_initialized a) x (ea_fast_tag_bitset a) (ea_policy a) (ea_pressure_threshold a) (ea_circuit a) (ea_exit_reason a) (ea_mailbox a) (ea_scheduler a) (ea_drain_timer a) (ea_next_handle a) (ea_user a).
Definition set_fast_tags (a : EventBasedActor) (x : list Z) : EventBasedActor :=
  mkEventActor (ea_address a) (ea_type_name a) (ea_context a) (ea_lifecycle a) (ea_drain a) (ea_behavior a) (ea_handlers a) (ea_handlers_initialized a) (ea_adapters a) x (ea_policy a) (ea_pressure_threshold a) (ea_circuit a) (ea_exit_reason a) (ea_mailbox a) (ea_scheduler a) (ea_drain_timer a) (ea_next_handle a) (ea_user a).
Definition set_circuit (a : EventBasedActor) (x : ActorCircuit) : EventBasedActor :=
  mkEventActor (ea_address a) (ea_type_name a) (ea_context a) (ea_lifecycle a) (ea_drain a) (ea_behavior a) (ea_handlers a) (ea_handlers_initialized a) (ea_adapters a) (ea_fast_tag_bitset a) (ea_policy a) (ea_pressure_threshold a) x (ea_exit_reason a) (ea_mailbox a) (ea_scheduler a) (ea_drain_timer a) (ea_next_handle a) (ea_user a).
Definition set_exit_reason (a : EventBasedActor) (x : Z) : EventBasedActor :=
  mkEventActor (ea_address a) (ea_type_name a) (ea_context a) (ea_lifecycle a) (ea_drain a) (ea_behavior a) (ea_handlers a) (ea_handlers_initialized a) (ea_adapters a) (ea_fast_tag_bitset a) (ea_policy a) (ea_pressure_threshold a) (ea_circuit a) x (ea_mailbox a) (ea_scheduler a) (ea_drain_timer a) (ea_next_handle a) (ea_user a).
Definition set_actor_mailbox (a : EventBasedActor) (x : option M) : EventBasedActor :=
  mkEventActor (ea_address a) (ea_type_name a) (ea_context a) (ea_lifecycle a) (ea_drain a) (ea_behavior a) (ea_handlers a) (ea_handlers_initialized a) (ea_adapters a) (ea_fast_tag_bitset a) (ea_policy a) (ea_pressure_threshold a) (ea_circuit a) (ea_exit_reason a) x (ea_scheduler a) (ea_drain_timer a) (ea_next_handle a) (ea_user a).
Definition set_drain_timer (a : EventBasedActor) (x : Z) (y : Z) : EventBasedActor :=
  mkEventActor (ea_address a) (ea_type_name a) (ea_context a) (ea_lifecycle a) (ea_drain a) (ea_behavior a) (ea_handlers a) (ea_handlers_initialized a) (ea_adapters a) (ea_fast_tag_bitset a) (ea_policy a) (ea_pressure_threshold a) (ea_circuit a) (ea_exit_reason a) (ea_mailbox a) (ea_scheduler a) x y (ea_user a).
Definition set_user (a : EventBasedActor) (x : U) : EventBasedActor :=
  mkEventActor (ea_address a) (ea_type_name a) (ea_context a) (ea_lifecycle a) (ea_drain a) (ea_behavior a) (ea_handlers a) (ea_handlers_initialized a) (ea_adapters a) (ea_fast_tag_bitset a) (ea_policy a) (ea_pressure_threshold a) (ea_circuit a) (ea_exit_reason a) (ea_mailbox a) (ea_scheduler a) (ea_drain_timer a) (ea_next_handle a) x.

(** ** Computations of an actor *)

Definition Act (X : Type) : Type := SystemView -> EventBasedActor -> X * EventBasedActor * list SystemCall.
#[global] Instance act_ret : MRet Act := fun X x v a => (x, a, []).
#[global] Instance act_bind : MBind Act := fun X Y f m v a =>
  let '(x, a1, k1) := m v a in let '(y, a2, k2) := f x v a1 in (y, a2, k1 ++ k2).
Definition bind {X Y} (m : Act X) (f : X -> Act Y) : Act Y := m ≫= f.
Definition actor : Act EventBasedActor := fun v a => (a, a, []).
Definition view : Act SystemView := fun v a => (v, a, []).
Definition update_actor (f : EventBasedActor -> EventBasedActor) : Act unit := fun v a => (tt, f a, []).
Definition ask_system (ks : list SystemCall) : Act unit := fun v a => (tt, a, ks).
Definition when (b : bool) (m : Act unit) : Act unit := if b then m else mret tt.
Fixpoint each_of {X} (f : X -> Act unit) (l : list X) : Act unit :=
  match l with [] => mret tt | x :: l => f x;; each_of f l end.

(** An operation of the context, when there is one. *)
Definition in_context (f : SystemView -> ActorContext -> list SystemCall * ActorContext) : Act unit :=
  a ← actor; v ← view;
  match ea_context a with
  | None => mret tt
  | Some c => let '(ks, c) := f v c in update_actor (fun a => set_context a (Some c));; ask_system ks
  end.
Definition change_context (f : ActorContext -> ActorContext) : Act unit := in_context (fun _ c => ([], f c)).

(** [transition] of the lifecycle; without one nothing happens. *)
Definition with_lifecycle (f : LifecycleActor -> Z -> bool * LifecycleActor) : Act bool :=
  a ← actor; v ← view;
  match ea_lifecycle a with
  | None => mret false
  | Some lc => let '(ok, lc) := f lc (sv_now v) in update_actor (fun a => set_lifecycle a (Some lc));; mret ok
  end.
Definition lc_transition (to_ : LifecycleState) : Act bool := with_lifecycle (fun lc now => transition lc to_ now).
Definition lc_quarantine (reason : Z) : Act bool := with_lifecycle (fun lc now => transition_to_quarantined lc reason now).
Definition state_is (a : EventBasedActor) (s : LifecycleState) : bool :=
  match ea_lifecycle a with Some lc => bool_decide (lc_state lc = s) | None => false end.

Definition mailbox_is_empty (a : EventBasedActor) : bool := match ea_mailbox a with Some b => box_empty b | None => true end.

(** ** The end of an actor *)

Definition on_exit : Act unit :=
  a ← actor;
  match ea_context a with
  | None => mret tt
  | Some c =>
      ask_system [CTerminated (ea_exit_reason a)];;
      let down := typed_message TypeTag_DownMsg (encode_down (a_id (ea_address a)) (ea_exit_reason a)) in
      each_of (fun to_ => in_context (fun v c => context_send v to_ down c)) (cx_linked c);;
      each_of (fun to_ => in_context (fun v c => context_send v to_ down c)) (cx_monitored c)
  end.

Definition cancel_drain_timer : Act unit :=
  a ← actor;
  when (negb (ea_drain_timer a =? 0) && ea_scheduler a)
    (ask_system [CCancelTimer (ea_drain_timer a)];; update_actor (fun a => set_drain_timer a 0 (ea_next_handle a))).
Definition start_drain_timer : Act unit :=
  a ← actor;
  when (bool_decide (is_Some (ea_lifecycle a)) && ea_scheduler a)
    (ask_system [CScheduleTimer (ea_next_handle a) (dc_timeout_ms (ea_drain a) * 1000000)];;
     update_actor (fun a => set_drain_timer a (ea_next_handle a) (ea_next_handle a + 1))).

Definition stop_lifecycle : Act unit := lc_transition kStopping;; lc_transition kStopped;; on_exit.

Definition try_drain_completion : Act unit :=
  a ← actor; when (state_is a kDraining && mailbox_is_empty a) (cancel_drain_timer;; stop_lifecycle).

(** The loop of [drain_all_immediate], with as much fuel as the mailbox has messages. *)
Fixpoint drain_mailbox (fuel : nat) : Act unit :=
  match fuel with
  | O => mret tt
  | S fuel =>
      a ← actor; v ← view;
      match ea_mailbox a with
      | None => mret tt
      | Some b =>
          match box_try_pop b (sv_now v) with
          | (None, b) => update_actor (fun a => set_actor_mailbox a (Some b))
          | (Some m, b) =>
              update_actor (fun a => set_actor_mailbox a (Some b));;
              ask_system [CDeadLetter DLR_MailboxClosed m (ea_address a)];; drain_mailbox fuel
          end
      end
  end.
Definition drain_all_immediate : Act unit :=
  a ← actor; drain_mailbox (match ea_mailbox a with Some b => S (length (box_list b)) | None => 0 end).

(** The callback of the drain timer.  It is one step here; in the program it runs on
    the timer thread, and nothing keeps a worker from being inside [receive] of the
    same actor at that moment. *)
Definition drain_timer_fired : Act unit := a ← actor; when (state_is a kDraining) (drain_all_immediate;; stop_lifecycle).

(** [ActorContext::stop] with this actor as its target. *)
Definition stop_actor : Act unit :=
  a ← actor;
  match ea_lifecycle a with
  | None => on_exit
  | Some _ =>
      match dc_policy (ea_drain a) with
      | DP_ImmediateStop => drain_all_immediate;; stop_lifecycle
      | _ => lc_transition kDraining;; start_drain_timer
      end
  end.

(** ** Gates *)

Definition drain_one (m : TypedMsg) : Act bool :=
  a ← actor;
  match ea_lifecycle a with
  | None => mret true
  | Some _ =>
      match dc_policy (ea_drain a) with
      | DP_Drain => mret true
      | DP_DropUserMessages =>
          if TypeTag_User <=? tm_type_id m
          then ask_system [CDeadLetter DLR_DrainPolicyDrop m (ea_address a)];; mret false
          else mret true
      | DP_ImmediateStop => mret false
      | DP_SnapshotAndStop | DP_TransferShard =>
          update_actor (fun a => set_drain_config a (mkDrain DP_Drain (dc_timeout_ms (ea_drain a))));; mret true
      end
  end.
Definition apply_drain_gate (m : TypedMsg) : Act bool :=
  a ← actor;
  if negb (state_is a kDraining) then mret true
  else bind (drain_one m) (fun ok => if ok then mret true else (try_drain_completion;; mret false)).

Definition apply_lifecycle_gate (m : TypedMsg) : Act bool :=
  a ← actor;
  mret ((tm_type_id m <? TypeTag_User) ||
        match ea_lifecycle a with
        | None => true
        | Some lc => accepts_user_msgs (kStateMachine (lc_state lc)) || bool_decide (lc_state lc = kDraining)
        end).

(** ** System messages *)

Definition handle_link_msg (m : TypedMsg) : Act unit :=
  change_context (fun c => if bool_decide (tm_sender m ∈ cx_linked c) then c else add_linked (tm_sender m) c).
Definition handle_unlink_msg (m : TypedMsg) : Act unit := change_context (remove_linked (tm_sender m)).
Definition handle_monitor_msg (m : TypedMsg) : Act unit :=
  change_context (fun c => if bool_decide (tm_sender m ∈ cx_monitored c) then c else add_monitored (tm_sender m) c).
Definition handle_demonitor_msg (m : TypedMsg) : Act unit := change_context (remove_monitored (tm_sender m)).
Definition handle_down_msg (m : TypedMsg) : Act unit :=
  change_context (fun c =>
    let c := remove_monitored (tm_sender m) (remove_linked (tm_sender m) c) in if cx_death_pact c then passivate c else c).

(** [handle_unlink_msg] and [handle_demonitor_msg] answer [true] without a context too. *)
Definition dispatch_system_message (m : TypedMsg) : Act bool :=
  let tag := tm_type_id m in
  if tag =? TypeTag_LinkMsg then handle_link_msg m;; mret true
  else if tag =? TypeTag_UnlinkMsg then handle_unlink_msg m;; mret true
  else if tag =? TypeTag_MonitorMsg then handle_monitor_msg m;; mret true
  else if tag =? TypeTag_DemonitorMsg then handle_demonitor_msg m;; mret true
  else if tag =? TypeTag_DownMsg then handle_down_msg m;; mret false
  else mret false.

(** ** The circuit of the actor *)

Definition record_result (success : bool) : Act unit :=
  a ← actor; v ← view;
  let '(quarantine, c) := record_circuit_breaker_result (ea_policy a) (ea_circuit a) success (sv_now v) in
  update_actor (fun a => set_circuit a c);; when quarantine (lc_quarantine QR_CircuitBreakerTrip;; mret tt).

Definition check_mailbox_pressure : Act unit :=
  a ← actor; v ← view;
  if negb (q_enabled (ea_policy a)) || SpecFloat.SFleb (ea_pressure_threshold a) (single_of_Z 0) then mret tt
  else match ea_mailbox a with
       | None => mret tt
       | Some b =>
           let ratio := single_div (single_of_Z (ms_pressure_ratio_ppm (box_snapshot b))) (single_of_Z 1000000) in
           when (SpecFloat.SFleb (ea_pressure_threshold a) ratio)
             (let c := trip_unless_open (ea_circuit a) (sv_now v) in
              update_actor (fun a => set_circuit a c);;
              when ((0 <? max_circuit_trips (ea_policy a)) && (max_circuit_trips (ea_policy a) <=? trip_count c))
                (lc_quarantine QR_MailboxPressure;; mret tt))
       end.

(** ** Fast tags and adapters *)

Definition fast_bit (tag : Z) : nat * Z := (Z.to_nat (Z.land tag 255 / 64), Z.land tag 255 mod 64).
Definition add_fast_tag (tag : Z) (words : list Z) : list Z :=
  let '(w, b) := fast_bit tag in alter (fun x => Z.lor x (Z.shiftl 1 b)) w words.
Definition is_fast_tag (tag : Z) (words : list Z) : bool :=
  let '(w, b) := fast_bit tag in match words !! w with Some x => negb (Z.land x (Z.shiftl 1 b) =? 0) | None => false end.

Definition set_trace (m : TypedMsg) (t : option WireTrace) : TypedMsg :=
  let b := tm_body m in
  mkTyped (mkMessage (m_type_id b) (m_payload b) (m_sender b) t (m_deadline_ns b) (m_priority b) (m_flags b) (m_message_id b) (m_ack_requested b)) (tm_ask_message_id m).
Definition apply_message_adapters (a : EventBasedActor) (m : TypedMsg) : TypedMsg :=
  match list_find (fun e => e.1 = tm_type_id m) (ea_adapters a) with
  | Some (_, (_, f)) => set_trace (run_adapter f m) (m_trace (tm_body m))
  | None => m
  end.

(** ** User code *)

Definition run_action (x : UserAction) : Act unit :=
  match x with
  | ActSend to_ m => in_context (fun v => context_send v to_ m)
  | ActReply m => in_context (fun v => context_reply v m)
  | ActReplyError code text => in_context (fun v => context_reply_with_error v code text)
  | ActBecome b => update_actor (fun a => set_behavior a b)
  | ActOn tag h => update_actor (fun a => set_handlers a (<[tag := h]> (ea_handlers a)) (ea_handlers_initialized a))
  | ActAdapter tag f => update_actor (fun a => set_adapters a (ea_adapters a ++ [(tag, f)]))
  | ActFastTag tag => update_actor (fun a => set_fast_tags a (add_fast_tag tag (ea_fast_tag_bitset a)))
  | ActLink other => in_context (fun v => link_to encode_id v other)
  | ActUnlink other => in_context (fun v => unlink_from encode_id v other)
  | ActMonitor other => in_context (fun v => actor_monitor v other)
  | ActDemonitor other => in_context (fun v => actor_demonitor v other)
  | ActContextMonitor other => change_context (context_monitor other)
  | ActDeathPact b => change_context (fun c => set_death_pact c b)
  | ActPassivate => change_context passivate
  | ActExitReason code => update_actor (fun a => set_exit_reason a code)
  | ActRecordTimeout => v ← view; update_actor (fun a => set_circuit a (record_circuit_breaker_timeout (ea_policy a) (ea_circuit a) (sv_now v)))
  | ActStopSelf => stop_actor
  end.

Definition initialize_proto_handlers : Act unit :=
  a ← actor; when (negb (ea_handlers_initialized a)) (update_actor (fun a => set_handlers a (register_handlers ∪ ea_handlers a) true)).

(** [dispatch_user_message]; an empty answer of a handler is not sent. *)
Definition dispatch_user_message (m : TypedMsg) : Act unit :=
  a ← actor;
  match ea_handlers a !! tm_type_id m with
  | Some h =>
      match deserialize h (tm_payload m) with
      | Some d =>
          let '(u, actions, response) := invoke h d (ea_user a) in
          ask_system [CUserCode m];; update_actor (fun a => set_user a u);; each_of run_action actions;;
          when (negb (bool_decide (length response = 0%nat))) (in_context (fun v => context_reply v (typed_message (tm_type_id m) response)));;
          when (q_enabled (ea_policy a)) (record_result true)
      | None => when (q_enabled (ea_policy a)) (record_result false)
      end
  | None =>
      match ea_behavior a with
      | Some b =>
          let '(u, actions) := run_behavior b m (ea_user a) in
          ask_system [CUserCode m];; update_actor (fun a => set_user a u);; each_of run_action actions
      | None => mret tt
      end;;
      when (q_enabled (ea_policy a)) (record_result true)
  end.

(** ** Administration *)

Definition to_metadata (a : EventBasedActor) : ActorMeta :=
  match ea_lifecycle a with
  | Some lc => mkMeta' (a_id (ea_address a)) (ea_type_name a) (sd_name (kStateMachine (lc_state lc))) (Lifecycle.incarnation lc)
  | None => mkMeta' (a_id (ea_address a)) (ea_type_name a) "unknown"%string (a_node (ea_address a))
  end.
Definition mailbox_snapshot (a : EventBasedActor) : MboxSnapshot := match ea_mailbox a with Some b => box_snapshot b | None => empty_snapshot end.
Definition inspect_reply (a : EventBasedActor) (req : InspectStateRequest) : InspectStateReply :=
  let ms := mailbox_snapshot a in
  let c := ea_circuit a in
  mkInspectReply (to_metadata a)
    (if ir_include_mailbox req then
       Some (mkMailboxReply ms (if ir_include_rate_limiter req then Some (ms_rate_limiter ms) else None)
               (if ir_include_admission req then Some (ms_admission ms) else None))
     else None)
    (if ir_include_circuit_breaker req && q_enabled (ea_policy a) then
       Some (mkCircuitInfo (cb_state c) (trip_count c) (failure_ema c) (match cb_state c with kOpen => Some (u64 (opened_at c)) | _ => None end))
     else None)
    (ir_include_quarantine_info req && q_enabled (ea_policy a))
    (if ir_include_quarantine_info req && state_is a kQuarantined then quarantine_reason <$> ea_lifecycle a else None)
    (if ir_include_state req then serialize_state (ea_user a) else []).

Definition reply_admin (tag : Z) (payload : list Z) : Act unit := in_context (fun v => context_reply v (typed_message tag payload)).

Definition handle_kill : Act unit :=
  reply_admin KillResponseTag encode_kill;; lc_transition kStopping;; lc_transition kStopped;; update_actor (fun a => set_exit_reason a 0).

Definition close_circuit (c : ActorCircuit) : ActorCircuit := mkCircuit kClosed 0 false (opened_at c) (failure_ema c) (failure_rate_tracker c).
Definition release_quarantine : Act unit :=
  lc_transition kStopped;;
  update_actor (fun a => set_lifecycle a (bump_incarnation <$> ea_lifecycle a));;
  lc_transition kStarting;; lc_transition kActive;; update_actor (fun a => set_circuit a (close_circuit (ea_circuit a))).
Definition handle_quarantine (unquarantine : bool) : Act unit :=
  a ← actor;
  bind match ea_lifecycle a with
    | None => mret (false, QE_NoLifecycle)
    | Some _ =>
        if unquarantine then
          if state_is a kQuarantined then release_quarantine;; mret (true, QE_None) else mret (false, QE_NotQuarantined)
        else
          if negb (state_is a kQuarantined) then lc_quarantine QR_OperatorAction;; mret (true, QE_None) else mret (false, QE_AlreadyQuarantined)
    end (fun '(ok, err) => reply_admin QuarantineResponseTag (encode_quarantine ok err)).

(** [true] when the message was one of the three. *)
Definition dispatch_cli_message (m : TypedMsg) : Act bool :=
  a ← actor;
  match ea_context a with
  | None => mret false
  | Some _ =>
      if tm_type_id m =? InspectStateRequestTag then
        match parse_inspect (tm_payload m) with
        | Some req => reply_admin InspectStateResponseTag (encode_inspect (inspect_reply a req))
        | None => mret tt
        end;; mret true
      else if tm_type_id m =? KillRequestTag then when (parse_kill (tm_payload m)) handle_kill;; mret true
      else if tm_type_id m =? QuarantineRequestTag then
        match parse_quarantine (tm_payload m) with Some un => handle_quarantine un | None => mret tt end;; mret true
      else mret false
  end.

(** ** [receive] *)

Definition auto_ack (m : TypedMsg) : Act unit :=
  a ← actor; when (m_ack_requested (tm_body m)) (ask_system [CReliableAck (tm_sender m) (ea_address a) (m_message_id (tm_body m))]).

(** What follows the gates; the ask is cleared on both ways out. *)
Definition capture_sender (m : TypedMsg) : Act unit := change_context (fun c => set_current c (tm_sender m) (tm_ask_message_id m)).
Definition clear_ask : Act unit := change_context (fun c => set_current c (cx_current_sender c) 0).
Definition process_message (m : TypedMsg) : Act unit :=
  bind (dispatch_cli_message m) (fun admin =>
    when (negb admin) (dispatch_user_message m;; auto_ack m;; try_drain_completion;; check_mailbox_pressure)).
Definition handle_message (m : TypedMsg) : Act unit :=
  initialize_proto_handlers;; capture_sender m;; process_message m;; clear_ask.

Definition receive (m : TypedMsg) : Act unit :=
  a ← actor;
  let m := apply_message_adapters a m in
  if (TypeTag_User <=? tm_type_id m) && is_fast_tag (tm_type_id m) (ea_fast_tag_bitset a) then dispatch_user_message m
  else
    bind (apply_drain_gate m) (fun open => if negb open then mret tt else
    bind (dispatch_system_message m) (fun handled => if handled then mret tt else
    bind (apply_lifecycle_gate m) (fun accepted => if accepted then handle_message m else mret tt))).

(** [on_proto_message]: a handler that is called directly. *)
Definition on_proto_message (tag : Z) (payload : list Z) : Act unit :=
  initialize_proto_handlers;;
  a ← actor;
  match ea_handlers a !! tag with
  | None => mret tt
  | Some h =>
      match deserialize h payload with
      | None => mret tt
      | Some d =>
          let '(u, actions, response) := invoke h d (ea_user a) in
          update_actor (fun a => set_user a u);; each_of run_action actions;;
          when (negb (bool_decide (length response = 0%nat))) (in_context (fun v => context_reply v (typed_message tag response)))
      end
  end.
End Event.
