(* ===== verification/EventActorSpec.v ===== *)
(** * Properties of event-based actors

    Over [EventActor]: an actor answers every ask at most once; a drain that was
    begun ends once, by the last message or by its timer, which is armed as long
    as the drain lasts; and what the order of the gates in [receive] lets
    through.  Computations are classified by relations between the actor before,
    the calls and the actor after, which composition preserves. *)

From S2P Require Import Prelude DeliveryTypes Breakers Lanes Admission Mailbox DeadLetters ActorCircuit Lifecycle ReadyGate Reliable TraceText Endpoint GossipCodec Pipeline FrameProto AskManager ActorContext EventActor.
From Stdlib Require Import String.
From stdpp Require Import base numbers list gmap.

#[local] Open Scope Z_scope.

Create HintDb actor.

Section Spec.
Context {U D H B A M : Type} `{ActorBox M}.
Context (deserialize : H -> list Z -> option D)
        (invoke : H -> D -> U -> U * list (UserAction (H := H) (B := B) (A := A)) * list Z)
        (run_behavior : B -> TypedMsg -> U -> U * list (UserAction (H := H) (B := B) (A := A)))
        (run_adapter : A -> TypedMsg -> TypedMsg)
        (register_handlers : gmap Z H) (serialize_state : U -> list Z)
        (encode_id : Z -> list Z) (encode_down : Z -> Z -> list Z)
        (parse_inspect : list Z -> option InspectStateRequest) (encode_inspect : InspectStateReply -> list Z)
        (parse_kill : list Z -> bool) (encode_kill : list Z)
        (parse_quarantine : list Z -> option bool) (encode_quarantine : bool -> QuarantineError -> list Z).

Notation Actor := (EventBasedActor (U := U) (H := H) (B := B) (A := A) (M := M)).
Notation Act := (Act (U := U) (H := H) (B := B) (A := A) (M := M)).
Notation Action := (UserAction (H := H) (B := B) (A := A)).
Notation receive := (receive (D := D) deserialize invoke run_behavior run_adapter register_handlers serialize_state encode_id encode_down parse_inspect encode_inspect parse_kill encode_kill parse_quarantine encode_quarantine).
Notation dispatch_user_message := (dispatch_user_message (D := D) deserialize invoke run_behavior encode_id encode_down).
Notation dispatch_cli_message := (dispatch_cli_message serialize_state parse_inspect encode_inspect parse_kill encode_kill parse_quarantine encode_quarantine).
Notation handle_message := (handle_message (D := D) deserialize invoke run_behavior register_handlers serialize_state encode_id encode_down parse_inspect encode_inspect parse_kill encode_kill parse_quarantine encode_quarantine).
Notation process_message := (process_message (D := D) deserialize invoke run_behavior serialize_state encode_id encode_down parse_inspect encode_inspect parse_kill encode_kill parse_quarantine encode_quarantine).
Notation run_action := (run_action encode_id encode_down).
Notation stop_actor := (stop_actor encode_down).
Notation stop_lifecycle := (stop_lifecycle encode_down).
Notation on_exit := (on_exit encode_down).
Notation try_drain_completion := (try_drain_completion encode_down).
Notation drain_timer_fired := (drain_timer_fired encode_down).

(** ** Composition *)

Section Relation.
(** A relation that is kept by composition. *)
Context (R : Actor -> list SystemCall -> Actor -> Prop).
Context (R_refl : forall a, R a [] a) (R_trans : forall a k1 b k2 c, R a k1 b -> R b k2 c -> R a (k1 ++ k2) c).

Definition within {X} (m : Act X) : Prop := forall v a, R a (m v a).2 (m v a).1.2.

Lemma within_ret {X} (x : X) : within (mret x).
Proof. intros v a. apply R_refl. Qed.
Lemma within_bind {X Y} (m : Act X) (f : X -> Act Y) : within m -> (forall x, within (f x)) -> within (m ≫= f).
Proof.
  intros Hm Hf v a. unfold mbind, act_bind. specialize (Hm v a). destruct (m v a) as [[x a1] k1]. specialize (Hf x v a1).
  destruct (f x v a1) as [[y a2] k2]. simpl in *. by eapply R_trans.
Qed.
(** A computation that begins by looking at the actor. *)
Lemma within_actor {X} (f : Actor -> Act X) : (forall v a, R a (f a v a).2 (f a v a).1.2) -> within (actor ≫= f).
Proof. intros Hf v a. unfold mbind, act_bind, actor. specialize (Hf v a). by destruct (f a v a) as [[x a1] k1]. Qed.
Lemma within_view {X} (f : SystemView -> Act X) : (forall v, within (f v)) -> within (view ≫= f).
Proof. intros Hf v a. unfold mbind, act_bind, view. specialize (Hf v v a). by destruct (f v v a) as [[x a1] k1]. Qed.
Lemma within_when b (m : Act unit) : within m -> within (when b m).
Proof. destruct b; [done|]. intros _. apply within_ret. Qed.
Lemma within_for_each {X} (f : X -> Act unit) l : (forall x, within (f x)) -> within (each_of f l).
Proof. intros Hf. induction l; [apply within_ret|]. apply within_bind; [done|]. by intros []. Qed.
End Relation.

(** What the context of an actor does at a time: at most one answer to the ask
    that is handled, after which there is none. *)
Definition plain_call (k : SystemCall) : Prop := match k with CUserCode _ | CDeadLetter _ _ _ | CReliableAck _ _ _ => True | _ => False end.
Definition context_step (c : ActorContext) (ks : list SystemCall) (c' : ActorContext) : Prop :=
  (Forall is_delivery ks /\ cx_current_ask c' = cx_current_ask c) \/
  (exists p, ks = [CAskResponse (cx_current_ask c) p] /\ cx_current_ask c <> 0 /\ cx_current_ask c' = 0).
Definition context_op (f : SystemView -> ActorContext -> list SystemCall * ActorContext) : Prop := forall v c, context_step c (f v c).1 (f v c).2.

Lemma send_op t m : context_op (fun v => context_send v t m).
Proof. intros v c. pose proof (context_send_frame v t m c) as E. destruct (context_send v t m c) as [ks c']. destruct E as [E ?]. left. split; [done|]. by rewrite E. Qed.
Lemma send_after v t m c c' : cx_current_ask c' = cx_current_ask c -> context_step c (context_send v t m c').1 (context_send v t m c').2.
Proof. intros E. destruct (send_op t m v c') as [[? ?]|(p & ? & ? & ?)]; [left|right; exists p]; rewrite <- E; by split. Qed.
Lemma reply_op m : context_op (fun v => context_reply v m).
Proof.
  intros v c. unfold context_reply. destruct (cx_current_ask c =? 0) eqn:E; bool_to_prop; simpl; [|right; by eexists].
  destruct (a_id (cx_current_sender c) =? 0); simpl; [by left|]. by apply send_after.
Qed.
Lemma reply_error_op code text : context_op (fun v => context_reply_with_error v code text).
Proof. intros v c. pose proof (error_leaves_ask_open v code text c) as E. destruct (context_reply_with_error _ _ _ _). left. by destruct E. Qed.
Lemma link_op other : context_op (fun v => link_to encode_id v other).
Proof. intros v c. unfold link_to. repeat case_bool_decide; [by left|by left|]. by apply send_after. Qed.
Lemma unlink_op other : context_op (fun v => unlink_from encode_id v other).
Proof. intros v c. by apply send_after. Qed.
Lemma monitor_op other : context_op (fun v => actor_monitor v other).
Proof. intros v c. by apply send_after. Qed.
Lemma demonitor_op other : context_op (fun v => actor_demonitor v other).
Proof. intros v c. by apply send_after. Qed.
Lemma local_op (f : ActorContext -> ActorContext) : (forall c, cx_current_ask (f c) = cx_current_ask c) -> context_op (fun _ c => ([], f c)).
Proof. intros Hf v c. left. split; [constructor|apply Hf]. Qed.
Hint Resolve send_op reply_op reply_error_op link_op unlink_op monitor_op demonitor_op : actor.

(** ** What every relation of interest contains *)

Definition actor_core (a : Actor) := (ea_context a, ea_lifecycle a, ea_drain a, ea_scheduler a, ea_drain_timer a, ea_next_handle a, ea_mailbox a, ea_address a).

Record admissible (R : Actor -> list SystemCall -> Actor -> Prop) : Prop := mkAdmissible {
  ad_refl : forall a, R a [] a;
  ad_trans : forall a k1 b k2 c, R a k1 b -> R b k2 c -> R a (k1 ++ k2) c;
  ad_plain : forall a a', actor_core a' = actor_core a -> R a [] a';
  ad_call : forall a k, plain_call k -> R a [k] a;
  ad_context : forall a c ks c', ea_context a = Some c -> context_step c ks c' -> R a ks (set_context a (Some c'));
  ad_quarantine : forall a lc reason now, ea_lifecycle a = Some lc -> R a [] (set_lifecycle a (Some (transition_to_quarantined lc reason now).2));
  ad_drain : forall a, dc_policy (ea_drain a) <> DP_ImmediateStop -> R a [] (set_drain_config a (mkDrain DP_Drain (dc_timeout_ms (ea_drain a))));
  ad_stop : within R stop_actor
}.

(** What administration and the end of a drain add. *)
Record admissible_end (R : Actor -> list SystemCall -> Actor -> Prop) : Prop := mkAdmissibleEnd {
  ae_base : admissible R;
  ae_kill : forall a lc to_ now, ea_lifecycle a = Some lc -> to_ = kStopping \/ to_ = kStopped -> R a [] (set_lifecycle a (Some (transition lc to_ now).2));
  ae_release : forall v a, state_is a kQuarantined = true -> R a (release_quarantine v a).2 (release_quarantine v a).1.2;
  ae_complete : within R try_drain_completion
}.

Section Admissible.
Context (R : Actor -> list SystemCall -> Actor -> Prop) (HR : admissible R).
#[local] Notation ok := (within R).

Lemma ok_ret {X} (x : X) : ok (mret x).
Proof. apply within_ret, ad_refl, HR. Qed.
Lemma ok_bind {X Y} (m : Act X) (f : X -> Act Y) : ok m -> (forall x, ok (f x)) -> ok (m ≫= f).
Proof. apply within_bind, ad_trans, HR. Qed.
Lemma ok_actor : ok actor.
Proof. intros v a. apply ad_refl, HR. Qed.
Lemma ok_view : ok view.
Proof. intros v a. apply ad_refl, HR. Qed.
Lemma ok_update f : (forall a, actor_core (f a) = actor_core a) -> ok (update_actor f).
Proof. intros Hf v a. apply (ad_plain R HR), Hf. Qed.
Lemma ok_call k : plain_call k -> ok (ask_system [k]).
Proof. intros Hk v a. by apply (ad_call R HR). Qed.
Lemma ok_in_context f : context_op f -> ok (in_context f).
Proof.
  intros Hf v a. unfold in_context, mbind, act_bind, actor, view. simpl. destruct (ea_context a) as [c|] eqn:E; [|apply (ad_refl R HR)].
  specialize (Hf v c). destruct (f v c) as [ks c'] eqn:Ef. simpl in *. by eapply (ad_context R HR).
Qed.
Lemma ok_change f : (forall c, cx_current_ask (f c) = cx_current_ask c) -> ok (change_context f).
Proof. intros Hf. by apply ok_in_context, local_op. Qed.
Lemma ok_quarantine reason : ok (lc_quarantine reason).
Proof.
  intros v a. unfold lc_quarantine, with_lifecycle, mbind, act_bind, actor, view. simpl. destruct (ea_lifecycle a) as [lc|] eqn:E; [|apply (ad_refl R HR)].
  pose proof (ad_quarantine R HR a lc reason (sv_now v) E) as Hq. destruct (transition_to_quarantined lc reason (sv_now v)) as [b lc'] eqn:Et. done.
Qed.
Lemma ok_when b m : ok m -> ok (when b m).
Proof. destruct b; [done|]. intros _. apply ok_ret. Qed.
Lemma ok_for_each {X} (f : X -> Act unit) l : (forall x, ok (f x)) -> ok (each_of f l).
Proof. intros Hf. induction l; [apply ok_ret|]. apply ok_bind; [done|]. by intros []. Qed.

(** Take a computation apart. *)
Ltac actor_steps :=
  repeat first
    [ progress intros
    | done
    | apply ok_ret | apply ok_actor | apply ok_view
    | apply ok_update; done
    | apply ok_call; done
    | apply ok_quarantine
    | apply ok_change; solve [intros; by repeat case_match]
    | apply ok_in_context; solve [auto with actor]
    | apply ad_stop; exact HR
    | apply ok_when | apply ok_for_each | apply ok_bind
    | case_match ].

Lemma ok_action x : ok (run_action x).
Proof. destruct x; unfold EventActor.run_action; actor_steps. Qed.
Lemma ok_result success : ok (record_result success).
Proof. unfold record_result. actor_steps. Qed.
Lemma ok_pressure : ok check_mailbox_pressure.
Proof. unfold check_mailbox_pressure. actor_steps. Qed.
Lemma ok_user m : ok (dispatch_user_message m).
Proof. unfold EventActor.dispatch_user_message. actor_steps; try apply ok_action; apply ok_result. Qed.
Lemma ok_ack m : ok (auto_ack m).
Proof. unfold auto_ack. actor_steps. Qed.
Lemma ok_initialize : ok (initialize_proto_handlers register_handlers).
Proof. unfold initialize_proto_handlers. actor_steps. Qed.
Lemma ok_admin tag payload : ok (reply_admin tag payload).
Proof. unfold reply_admin. actor_steps. Qed.
Lemma ok_system m : ok (dispatch_system_message m).
Proof.
  unfold dispatch_system_message, handle_link_msg, handle_unlink_msg, handle_monitor_msg, handle_demonitor_msg, handle_down_msg. actor_steps.
Qed.
Lemma ok_drain_one m : ok (drain_one m).
Proof.
  apply within_actor. intros v a. destruct (ea_lifecycle a); [|apply (ad_refl R HR)].
  destruct (dc_policy (ea_drain a)) eqn:E; simpl; [apply (ad_refl R HR)| |apply (ad_refl R HR)| |].
  - destruct (TypeTag_User <=? tm_type_id m); [by apply (ad_call R HR)|apply (ad_refl R HR)].
  - apply (ad_drain R HR). by rewrite E.
  - apply (ad_drain R HR). by rewrite E.
Qed.
Lemma ok_gate m : ok (apply_lifecycle_gate m).
Proof. unfold apply_lifecycle_gate. actor_steps. Qed.
End Admissible.

Section AdmissibleEnd.
Context (R : Actor -> list SystemCall -> Actor -> Prop) (HE : admissible_end R).
#[local] Notation ok := (within R).
#[local] Notation HR := (ae_base R HE).

Lemma ok_kill to_ : to_ = kStopping \/ to_ = kStopped -> ok (lc_transition to_).
Proof.
  intros Ht v a. unfold lc_transition, with_lifecycle, mbind, act_bind, actor, view. simpl. destruct (ea_lifecycle a) as [lc|] eqn:E; [|apply (ad_refl R HR)].
  pose proof (ae_kill R HE a lc to_ (sv_now v) E Ht) as Hq. destruct (transition lc to_ (sv_now v)) as [b lc'] eqn:Et. done.
Qed.
Lemma ok_quarantine_request un : ok (handle_quarantine encode_quarantine un).
Proof.
  apply within_actor. intros v a. set (k := fun '(ok, err) => reply_admin QuarantineResponseTag (encode_quarantine ok err)).
  assert (Hk : forall x, ok (k x)) by (intros [b err]; apply (ok_admin R HR)).
  assert (Hat : forall m : Act (bool * QuarantineError), R a (m v a).2 (m v a).1.2 -> R a (bind m k v a).2 (bind m k v a).1.2).
  { intros m Hm. unfold bind, mbind, act_bind. destruct (m v a) as [[x a1] k1]. specialize (Hk x v a1). destruct (k x v a1) as [[y a2] k2]. simpl in *. by eapply (ad_trans R HR). }
  apply Hat. destruct (ea_lifecycle a); [|apply (ad_refl R HR)]. destruct un, (state_is a kQuarantined) eqn:Eq; try apply (ad_refl R HR).
  - pose proof (ae_release R HE v a Eq) as Hr. unfold mbind at 1 2, act_bind at 1 2. destruct (release_quarantine v a) as [[x a1] k1]. simpl in *. by rewrite app_nil_r.
  - pose proof (ok_quarantine R HR QR_OperatorAction v a) as Hr. simpl. unfold mbind, act_bind. destruct (lc_quarantine QR_OperatorAction v a) as [[x a1] k1]. simpl in *. by rewrite app_nil_r.
Qed.
Lemma ok_kill_request : ok (handle_kill encode_kill).
Proof.
  unfold handle_kill. repeat (apply (ok_bind R HR); [|intros _]); [apply (ok_admin R HR)|apply ok_kill; tauto|apply ok_kill; tauto|]. by apply (ok_update R HR).
Qed.
Lemma ok_cli m : ok (dispatch_cli_message m).
Proof.
  unfold EventActor.dispatch_cli_message. apply (ok_bind R HR); [apply (ok_actor R HR)|]. intros a.
  repeat case_match; try apply (ok_ret R HR); (apply (ok_bind R HR); [|intros _; apply (ok_ret R HR)]).
  - apply (ok_admin R HR).
  - apply (ok_when R HR), ok_kill_request.
  - apply ok_quarantine_request.
Qed.
Lemma ok_drain_gate m : ok (apply_drain_gate encode_down m).
Proof.
  unfold apply_drain_gate, bind. apply (ok_bind R HR); [apply (ok_actor R HR)|]. intros x. destruct (negb _); [apply (ok_ret R HR)|]. apply (ok_bind R HR); [apply (ok_drain_one R HR)|]. intros [|]; [apply (ok_ret R HR)|]. apply (ok_bind R HR); [apply (ae_complete R HE)|]. intros _. apply (ok_ret R HR).
Qed.


Lemma ok_process m : ok (process_message m).
Proof.
  unfold EventActor.process_message, bind. apply (ok_bind R HR); [apply ok_cli|]. intros admin. apply (ok_when R HR).
  apply (ok_bind R HR); [apply (ok_user R HR)|]. intros _. apply (ok_bind R HR); [apply (ok_ack R HR)|]. intros _. apply (ok_bind R HR); [apply (ae_complete R HE)|]. intros _. apply (ok_pressure R HR).
Qed.
End AdmissibleEnd.

(** ** Asks *)

Definition answers_ask (id : Z) (k : SystemCall) : bool := match k with CAskResponse i _ => i =? id | _ => false end.
Definition asks (id : Z) (ks : list SystemCall) : nat := length (List.filter (answers_ask id) ks).
(** The actor handles a message of the ask [id] that it has not answered. *)
Definition open_ask (id : Z) (a : Actor) : nat :=
  match ea_context a with Some c => if cx_current_ask c =? id then 1 else 0 | None => 0 end.
Definition ask_rel (id : Z) (a : Actor) (ks : list SystemCall) (a' : Actor) : Prop := (asks id ks + open_ask id a' <= open_ask id a)%nat.

Section Asks.
Context (id : Z) (Hid : id <> 0).

Lemma asks_app k1 k2 : asks id (k1 ++ k2) = (asks id k1 + asks id k2)%nat.
Proof. unfold asks. by rewrite List.filter_app, length_app. Qed.
Lemma asks_sends ks : Forall is_delivery ks -> asks id ks = 0%nat.
Proof. induction 1 as [|k ks Hk _ IH]; [done|]. unfold asks. simpl. destruct k; done. Qed.
Lemma ask_refl a : ask_rel id a [] a.
Proof. unfold ask_rel, asks. simpl. lia. Qed.
Lemma ask_trans a k1 b k2 c : ask_rel id a k1 b -> ask_rel id b k2 c -> ask_rel id a (k1 ++ k2) c.
Proof. unfold ask_rel. rewrite asks_app. lia. Qed.
Lemma ask_same a a' : ea_context a' = ea_context a -> ask_rel id a [] a'.
Proof. intros E. unfold ask_rel, open_ask, asks. rewrite E. simpl. lia. Qed.
Lemma ask_context a c ks c' : ea_context a = Some c -> context_step c ks c' -> ask_rel id a ks (set_context a (Some c')).
Proof.
  intros E [[Hs Ha]|(p & -> & Hn & Ha)]; unfold ask_rel, open_ask; rewrite E; simpl; rewrite Ha; [rewrite asks_sends by done; lia|].
  assert (E0 : (0 =? id) = false) by (apply Z.eqb_neq; lia). rewrite E0. unfold asks. cbn [List.filter answers_ask]. destruct (cx_current_ask c =? id); simpl; lia.
Qed.
#[local] Notation thrifty := (within (ask_rel id)).
Lemma thrifty_bind {X Y} (m : Act X) (f : X -> Act Y) : thrifty m -> (forall x, thrifty (f x)) -> thrifty (m ≫= f).
Proof. apply within_bind, ask_trans. Qed.
Lemma thrifty_update f : (forall a, ea_context (f a) = ea_context a) -> thrifty (update_actor f).
Proof. intros Hf v a. apply ask_same, Hf. Qed.
Lemma thrifty_calls ks : asks id ks = 0%nat -> thrifty (ask_system ks).
Proof. intros Hk v a. unfold ask_rel. simpl. lia. Qed.
Lemma thrifty_lifecycle f : thrifty (with_lifecycle f).
Proof.
  intros v a. unfold with_lifecycle, mbind, act_bind, actor, view. simpl. destruct (ea_lifecycle a) as [lc|]; [|apply ask_refl]. destruct (f lc (sv_now v)) as [b lc']. by apply ask_same.
Qed.
Lemma thrifty_context f : context_op f -> thrifty (in_context f).
Proof.
  intros Hf v a. unfold in_context, mbind, act_bind, actor, view. simpl. destruct (ea_context a) as [c|] eqn:E; [|apply ask_refl].
  specialize (Hf v c). destruct (f v c) as [ks c'] eqn:Ef. simpl in *. by eapply ask_context.
Qed.

Ltac thrift_steps :=
  repeat first
    [ progress intros
    | done
    | apply within_ret, ask_refl
    | apply thrifty_update; done | apply thrifty_calls; done | apply thrifty_lifecycle
    | apply thrifty_context; solve [auto with actor]
    | apply within_when; [apply ask_refl|]
    | apply within_for_each; [apply ask_refl|apply ask_trans|]
    | apply within_actor | apply within_view
    | apply thrifty_bind
    | case_match ].

Lemma thrifty_actor {X} (f : Actor -> Act X) : (forall a, thrifty (f a)) -> thrifty (actor ≫= f).
Proof. intros Hf. apply within_actor. intros v a. apply Hf. Qed.
Lemma thrifty_exit : thrifty on_exit.
Proof. unfold EventActor.on_exit. apply thrifty_actor. thrift_steps. Qed.
Lemma thrifty_stop_lifecycle : thrifty stop_lifecycle.
Proof. unfold EventActor.stop_lifecycle, lc_transition. thrift_steps. Qed.
Lemma thrifty_drain_mailbox fuel : thrifty (drain_mailbox fuel).
Proof.
  induction fuel as [|fuel IH]; simpl; [apply within_ret, ask_refl|]. apply thrifty_actor. intros a. apply within_view. thrift_steps.
Qed.
Lemma thrifty_complete : thrifty try_drain_completion.
Proof.
  apply thrifty_actor. intros a. apply within_when; [apply ask_refl|]. apply thrifty_bind; [|intros _; apply thrifty_stop_lifecycle]. apply thrifty_actor. thrift_steps.
Qed.
Lemma thrifty_immediate : thrifty drain_all_immediate.
Proof. apply thrifty_actor. intros a. apply thrifty_drain_mailbox. Qed.
Lemma thrifty_stop : thrifty stop_actor.
Proof.
  apply thrifty_actor. intros a. destruct (ea_lifecycle a); [|apply thrifty_exit].
  assert (Hd : thrifty (lc_transition kDraining;; start_drain_timer)).
  { apply thrifty_bind; [apply thrifty_lifecycle|]. intros _. apply thrifty_actor. thrift_steps. }
  destruct (dc_policy (ea_drain a)); try done. apply thrifty_bind; [apply thrifty_immediate|]. intros _. apply thrifty_stop_lifecycle.
Qed.
Lemma thrifty_timer : thrifty drain_timer_fired.
Proof. apply thrifty_actor. intros a. apply within_when; [apply ask_refl|]. apply thrifty_bind; [apply thrifty_immediate|]. intros _. apply thrifty_stop_lifecycle. Qed.

Lemma ask_admissible : admissible (ask_rel id).
Proof.
  split; [apply ask_refl|apply ask_trans| | |apply ask_context| | |apply thrifty_stop].
  - intros a a' E. apply ask_same. by injection E.
  - intros a k Hk. unfold ask_rel, asks. destruct k; try done; simpl; lia.
  - intros. by apply ask_same.
  - intros. by apply ask_same.
Qed.
Lemma ask_admissible_end : admissible_end (ask_rel id).
Proof.
  split; [apply ask_admissible| | |apply thrifty_complete]; [intros; by apply ask_same|]. intros v a _. revert v a.
  change (thrifty release_quarantine). unfold release_quarantine, lc_transition. thrift_steps.
Qed.

(** From no open ask to no open ask, with at most [n] answers. *)
Definition settles (n : nat) {X} (m : Act X) : Prop := forall v a, open_ask id a = 0%nat -> (asks id (m v a).2 <= n)%nat /\ open_ask id (m v a).1.2 = 0%nat.
Lemma settles_thrifty {X} (m : Act X) : thrifty m -> settles 0 m.
Proof. intros Hm v a Ha. specialize (Hm v a). unfold ask_rel in Hm. lia. Qed.
Lemma settles_bind n {X Y} (m : Act X) (f : X -> Act Y) : settles 0 m -> (forall x, settles n (f x)) -> settles n (m ≫= f).
Proof.
  intros Hm Hf v a Ha. unfold mbind, act_bind. destruct (Hm v a Ha) as [H1 H2]. destruct (m v a) as [[x a1] k1]. simpl in *.
  destruct (Hf x v a1 H2) as [H3 H4]. destruct (f x v a1) as [[y a2] k2]. simpl in *. rewrite asks_app. split; [lia|done].
Qed.
Lemma settles_weaken n n' {X} (m : Act X) : (n <= n')%nat -> settles n m -> settles n' m.
Proof. intros Hn Hm v a Ha. destruct (Hm v a Ha). split; [lia|done]. Qed.

Lemma change_context_run f v (a : Actor) : change_context f v a = (tt, match ea_context a with Some c => set_context a (Some (f c)) | None => a end, []).
Proof. unfold change_context, in_context, mbind, act_bind, actor, view. simpl. by destruct (ea_context a). Qed.

Lemma settles_handled m : settles (if tm_ask_message_id m =? id then 1 else 0) (capture_sender m;; process_message m;; clear_ask).
Proof.
  intros v a Ha. unfold mbind, act_bind, capture_sender, clear_ask. rewrite change_context_run.
  set (a1 := match ea_context a with Some c => _ | None => a end). pose proof (ok_process _ ask_admissible_end m v a1) as Hp. unfold ask_rel in Hp.
  destruct (process_message m v a1) as [[x a2] k2]. rewrite change_context_run. simpl in *. rewrite app_nil_r.
  assert (H1 : (open_ask id a1 <= if (tm_ask_message_id m =? id)%Z then 1 else 0)%nat).
  { unfold a1, open_ask. destruct (ea_context a) eqn:E; simpl; [done|]. rewrite E. lia. }
  split; [lia|]. unfold open_ask. destruct (ea_context a2) eqn:E; simpl; [|by rewrite E]. destruct id; done.
Qed.
Lemma settles_receive m v a : open_ask id a = 0%nat ->
  (asks id (receive m v a).2 <= if (tm_ask_message_id (apply_message_adapters run_adapter a m) =? id)%Z then 1 else 0)%nat /\ open_ask id (receive m v a).1.2 = 0%nat.
Proof.
  set (m' := apply_message_adapters run_adapter a m). intros Ha. set (n := if tm_ask_message_id m' =? id then 1%nat else 0%nat).
  assert (Hall : forall b : bool, settles n (if b then dispatch_user_message m' else bind (apply_drain_gate encode_down m') (fun open => if negb open then mret tt else
    bind (dispatch_system_message m') (fun handled => if handled then mret tt else bind (apply_lifecycle_gate m') (fun accepted => if accepted then handle_message m' else mret tt))))).
  { assert (H0n : forall X (m0 : Act X), thrifty m0 -> settles n m0) by (intros X m0 Hm; apply (settles_weaken 0); [lia|by apply settles_thrifty]).
    assert (Hret : settles n (mret tt)) by apply H0n, within_ret, ask_refl.
    intros [|]; [apply H0n, ok_user, ask_admissible|]. unfold bind. apply settles_bind; [apply settles_thrifty, ok_drain_gate, ask_admissible_end|]. intros open.
    destruct (negb open); [done|]. apply settles_bind; [apply settles_thrifty, ok_system, ask_admissible|]. intros [|]; [done|].
    apply settles_bind; [apply settles_thrifty, ok_gate, ask_admissible|]. intros [|]; [|done]. unfold EventActor.handle_message.
    apply settles_bind; [apply settles_thrifty, ok_initialize, ask_admissible|]. intros _. apply settles_handled. }
  specialize (Hall ((TypeTag_User <=? tm_type_id m') && is_fast_tag (tm_type_id m') (ea_fast_tag_bitset a)) v a Ha).
  unfold EventActor.receive, mbind, act_bind, actor. fold m'. match type of Hall with context [asks id (?t.2)] => destruct t as [[x a'] ks] end. exact Hall.
Qed.
End Asks.

(** ** The life of an actor *)

(** Between the messages that it receives an actor may be stopped, its drain
    timer may fire, and its mailbox may become any mailbox. *)
Inductive ActorEvent := EvReceive (m : TypedMsg) | EvStop | EvTimer (handle : Z) | EvMailbox (b : M).
Definition event_step (e : ActorEvent) : Act unit :=
  match e with
  | EvReceive m => receive m
  | EvStop => stop_actor
  | EvTimer _ => drain_timer_fired
  | EvMailbox b => update_actor (fun a => set_actor_mailbox a (Some b))
  end.
Fixpoint run_events (h : list (SystemView * ActorEvent)) (a : Actor) : Actor * list SystemCall :=
  match h with
  | [] => (a, [])
  | (v, e) :: h => let '(_, a1, k1) := event_step e v a in let '(a2, k2) := run_events h a1 in (a2, k1 ++ k2)
  end.
Definition asked (id : Z) (e : SystemView * ActorEvent) : bool := match e.2 with EvReceive m => tm_ask_message_id m =? id | _ => false end.

(** C6. However often the code of the user replies, and whatever else happens to the
    actor, an ask is answered at most once for every message of it that the
    actor receives, and never after that message was handled. *)
Theorem asks_answered_once (h : list (SystemView * ActorEvent)) (a : Actor) (id : Z) :
  (forall f m, tm_ask_message_id (run_adapter f m) = tm_ask_message_id m \/ tm_ask_message_id (run_adapter f m) = 0) ->
  id <> 0 -> open_ask id a = 0%nat ->
  (asks id (run_events h a).2 <= length (List.filter (asked id) h))%nat /\ open_ask id (run_events h a).1 = 0%nat.
Proof.
  intros Had Hid. revert a. induction h as [|[v e] h IH]; intros a Ha; [by split|]. simpl.
  assert (Hstep : (asks id (event_step e v a).2 <= if asked id (v, e) then 1 else 0)%nat /\ open_ask id (event_step e v a).1.2 = 0%nat).
  { destruct e as [m| |t|b]; simpl.
    - destruct (settles_receive id Hid m v a Ha) as [H1 H2]. split; [|done]. etrans; [exact H1|]. unfold apply_message_adapters, asked. simpl.
      destruct (list_find _ _) as [[i [t f]]|]; [|done]. simpl. destruct (Had f m) as [->| ->]; [done|]. destruct id; [done|..]; simpl; lia.
    - by apply settles_thrifty; [apply thrifty_stop|].
    - by apply settles_thrifty; [apply thrifty_timer|].
    - by split. }
  destruct (event_step e v a) as [[[] a1] k1]. destruct Hstep as [H1 H2]. destruct (IH a1 H2) as [H3 H4]. destruct (run_events h a1) as [a2 k2]. simpl in *.
  rewrite asks_app. split; [|done]. destruct (asked id (v, e)); simpl in *; lia.
Qed.

(** ** Drains *)

Definition terminations (ks : list SystemCall) : nat := length (List.filter (fun k => match k with CTerminated _ => true | _ => false end) ks).
(** The timers that are armed after [ks]. *)
Definition arm_call (armed : list Z) (k : SystemCall) : list Z :=
  match k with CScheduleTimer h _ => h :: armed | CCancelTimer h => filter (fun x => x <> h) armed | _ => armed end.
Definition arm (ks : list SystemCall) (armed : list Z) : list Z := foldl arm_call armed ks.

(** The actor has not come to its end. *)
Definition alive (a : Actor) : nat := if state_is a kStopping || state_is a kStopped then 0 else 1.
Definition drainable (a : Actor) : Prop :=
  is_Some (ea_lifecycle a) /\ dc_policy (ea_drain a) <> DP_ImmediateStop /\ ea_scheduler a = true /\ 0 < ea_next_handle a.
Definition timer_armed (a : Actor) (armed : list Z) : Prop :=
  state_is a kDraining = true -> ea_drain_timer a ∈ armed /\ ea_drain_timer a <> 0.

Record steady (a : Actor) (ks : list SystemCall) (a' : Actor) : Prop := mkSteady {
  st_drainable : drainable a';
  st_ends : (terminations ks + alive a' <= alive a)%nat;
  st_timer : forall armed, timer_armed a armed -> timer_armed a' (arm ks armed)
}.
Definition steadily (a : Actor) (ks : list SystemCall) (a' : Actor) : Prop := drainable a -> steady a ks a'.

Lemma terminations_app k1 k2 : terminations (k1 ++ k2) = (terminations k1 + terminations k2)%nat.
Proof. unfold terminations. by rewrite List.filter_app, length_app. Qed.
Lemma arm_app k1 k2 armed : arm (k1 ++ k2) armed = arm k2 (arm k1 armed).
Proof. apply foldl_app. Qed.

(** Calls that neither end the actor nor touch its timer. *)
Definition quiet_call (k : SystemCall) : Prop := match k with CTerminated _ | CScheduleTimer _ _ | CCancelTimer _ => False | _ => True end.
Lemma quiet_calls ks : Forall quiet_call ks -> terminations ks = 0%nat /\ forall armed, arm ks armed = armed.
Proof.
  induction 1 as [|k ks Hk _ [IH1 IH2]]; [done|]. split.
  - change (k :: ks) with ([k] ++ ks). rewrite terminations_app, IH1. by destruct k.
  - intros armed. change (arm (k :: ks) armed) with (arm ks (arm_call armed k)). rewrite IH2. by destruct k.
Qed.
Lemma context_quiet c ks c' : context_step c ks c' -> Forall quiet_call ks.
Proof. intros [[Hs _]|(p & -> & _)]; [|by repeat constructor]. eapply Forall_impl; [exact Hs|]. by intros []. Qed.

(** The part of an actor that its timer and its end depend on. *)
Definition drain_part (a : Actor) := (ea_lifecycle a, dc_policy (ea_drain a), ea_scheduler a, ea_drain_timer a, ea_next_handle a).
Lemma drain_part_same a a' : drain_part a' = drain_part a -> (drainable a -> drainable a') /\ alive a' = alive a /\ forall armed, timer_armed a armed -> timer_armed a' armed.
Proof. intros E. injection E as E1 E2 E3 E4 E5. unfold drainable, alive, timer_armed, state_is. by rewrite E1, E2, E3, E4, E5. Qed.
Lemma steady_quiet a ks a' : drain_part a' = drain_part a -> Forall quiet_call ks -> steadily a ks a'.
Proof.
  intros E Hk Ha. destruct (drain_part_same a a' E) as (H1 & H2 & H3). destruct (quiet_calls ks Hk) as [H4 H5]. split; [by apply H1|lia|].
  intros armed. rewrite H5. apply H3.
Qed.
Lemma steady_trans a k1 b k2 c : steadily a k1 b -> steadily b k2 c -> steadily a (k1 ++ k2) c.
Proof.
  intros H1 H2 Ha. destruct (H1 Ha) as [Hb E1 T1]. destruct (H2 Hb) as [Hc E2 T2]. split; [done|rewrite terminations_app; lia|].
  intros armed Ht. rewrite arm_app. by apply T2, T1.
Qed.

(** A transition to a state in which the actor does not drain, and that does not revive it. *)
Lemma steady_lifecycle a lc lc' : ea_lifecycle a = Some lc -> (lc_state lc' = lc_state lc \/
    (lc_state lc' <> kDraining /\ (lc_state lc' = kStopping \/ lc_state lc' = kStopped \/ (lc_state lc <> kStopping /\ lc_state lc <> kStopped)))) ->
  steadily a [] (set_lifecycle a (Some lc')).
Proof.
  intros E Hs (_ & H2 & H3 & H4). split; [by split|unfold terminations, alive, state_is; simpl; rewrite E|unfold timer_armed, state_is; simpl; rewrite E].
  - destruct Hs as [->|(_ & [->|[->|[? ?]]])]; [lia|simpl; lia|simpl; lia|]. rewrite (bool_decide_eq_false_2 (lc_state lc = kStopping)), (bool_decide_eq_false_2 (lc_state lc = kStopped)) by done. simpl. case_match; lia.
  - intros armed Ht Hd%bool_decide_eq_true_1. destruct Hs as [E'|[Hn _]]; [|done]. apply Ht. rewrite <- E'. by apply bool_decide_eq_true_2.
Qed.
Lemma transition_state lc to_ now : lc_state (transition lc to_ now).2 = lc_state lc \/ (lc_state (transition lc to_ now).2 = to_ /\ legal (lc_state lc) to_ = true).
Proof. unfold transition. destruct (legal (lc_state lc) to_) eqn:E; simpl; [by right|by left]. Qed.

Lemma steady_stop : within steadily stop_actor.
Proof.
  apply within_actor. intros v a Ha. pose proof Ha as ([lc E] & H2 & H3 & H4). rewrite E.
  assert (Hd : let '(_, a', ks) := (lc_transition kDraining;; start_drain_timer) v a in steady a ks a').
  { unfold mbind, act_bind, lc_transition, with_lifecycle, mbind, act_bind, actor, view. simpl. rewrite E. pose proof (transition_state lc kDraining (sv_now v)) as Ht.
    destruct (transition lc kDraining (sv_now v)) as [b lc']. simpl in *. unfold start_drain_timer, mbind, act_bind, actor. simpl. rewrite H3. simpl.
    split; [by split; simpl; [|split; [|split; [|lia]]]| |].
    - unfold terminations, alive, state_is. simpl. rewrite E. destruct Ht as [->|[-> Hl]]; [lia|]. simpl. destruct (lc_state lc); simpl; try lia; done.
    - intros armed _ _. simpl. split; [by left|lia]. }
  destruct (dc_policy (ea_drain a)); try done; by destruct ((lc_transition kDraining;; start_drain_timer) v a) as [[x a'] ks].
Qed.

(** Sending changes nothing that a drain depends on. *)
Definition only_sends (a : Actor) (ks : list SystemCall) (a' : Actor) : Prop := drain_part a' = drain_part a /\ ea_mailbox a' = ea_mailbox a /\ (is_Some (ea_context a) -> is_Some (ea_context a')) /\ Forall is_delivery ks.
Lemma sends_trans a k1 b k2 c : only_sends a k1 b -> only_sends b k2 c -> only_sends a (k1 ++ k2) c.
Proof. intros (E1 & M1 & C1 & F1) (E2 & M2 & C2 & F2). split; [congruence|]. split; [congruence|]. split; [tauto|]. by apply Forall_app. Qed.
Lemma sends_within l m : within only_sends (each_of (fun to_ => in_context (fun v c => context_send v to_ m c)) l).
Proof.
  apply within_for_each; [done|apply sends_trans|]. intros to_ v a. unfold in_context, mbind, act_bind, actor, view. simpl. destruct (ea_context a) as [c|]; [|done].
  pose proof (context_send_frame v to_ m c) as Hs. destruct (context_send v to_ m c) as [ks c']. simpl. destruct Hs as [_ Hs]. done.
Qed.



Lemma exit_run v a : let '(_, a', ks) := on_exit v a in exists downs, only_sends a downs a' /\
  ks = match ea_context a with Some _ => CTerminated (ea_exit_reason a) :: downs | None => [] end.
Proof.
  unfold EventActor.on_exit, mbind at 1, act_bind at 1, actor at 1. destruct (ea_context a) as [c|]; [|by exists []].
  set (down := typed_message _ _). assert (Hs := within_bind only_sends sends_trans _ (fun _ => each_of (fun to_ => in_context (fun v c => context_send v to_ down c)) (cx_monitored c)) (sends_within (cx_linked c) down) (fun _ => sends_within (cx_monitored c) down)).
  specialize (Hs v a). unfold mbind at 1, act_bind at 1. simpl.
  destruct ((each_of _ (cx_linked c);; each_of _ (cx_monitored c)) v a) as [[x a'] downs]. simpl in *. by exists downs.
Qed.

Lemma transition_legal lc to_ now : legal (lc_state lc) to_ = true -> lc_state (transition lc to_ now).2 = to_.
Proof. intros Hl. unfold transition. by rewrite Hl. Qed.
(** Stopping an actor that drains. *)
Lemma stop_lifecycle_run v a lc : ea_lifecycle a = Some lc -> lc_state lc = kDraining ->
  let '(_, a', ks) := stop_lifecycle v a in
  exists lc' downs, drain_part a' = (Some lc', dc_policy (ea_drain a), ea_scheduler a, ea_drain_timer a, ea_next_handle a) /\ lc_state lc' = kStopped /\
    ea_mailbox a' = ea_mailbox a /\ (is_Some (ea_context a) -> is_Some (ea_context a')) /\ Forall is_delivery downs /\ ks = match ea_context a with Some _ => CTerminated (ea_exit_reason a) :: downs | None => [] end.
Proof.
  intros E Hs. unfold EventActor.stop_lifecycle. unfold mbind at 1, act_bind at 1. unfold lc_transition at 1, with_lifecycle at 1, mbind at 1 2, act_bind at 1 2, actor at 1, view at 1. simpl. rewrite E.
  pose proof (transition_legal lc kStopping (sv_now v)) as H1. rewrite Hs in H1. specialize (H1 eq_refl). destruct (transition lc kStopping (sv_now v)) as [b1 lc1]. simpl in *.
  unfold mbind at 1, act_bind at 1. unfold lc_transition at 1, with_lifecycle at 1, mbind at 1 2, act_bind at 1 2, actor at 1, view at 1. simpl.
  pose proof (transition_legal lc1 kStopped (sv_now v)) as H2. rewrite H1 in H2. specialize (H2 eq_refl). destruct (transition lc1 kStopped (sv_now v)) as [b2 lc2]. simpl in *.
  pose proof (exit_run v (set_lifecycle (set_lifecycle a (Some lc1)) (Some lc2))) as Hx.
  destruct (on_exit v (set_lifecycle (set_lifecycle a (Some lc1)) (Some lc2))) as [[x a'] ks]. destruct Hx as (downs & (E1 & E2 & E3 & E4) & Ek). simpl in *.
  exists lc2, downs. done.
Qed.


Lemma state_draining (a : Actor) : state_is a kDraining = true <-> exists lc, ea_lifecycle a = Some lc /\ lc_state lc = kDraining.
Proof. unfold state_is. destruct (ea_lifecycle a) as [lc|]; [rewrite bool_decide_eq_true|]; naive_solver. Qed.
Lemma state_stopped (a : Actor) lc : ea_lifecycle a = Some lc -> lc_state lc = kStopped -> state_is a kStopped = true /\ alive a = 0%nat /\ state_is a kDraining = false.
Proof. intros E Es. unfold alive, state_is. rewrite E, Es. done. Qed.

(** The end of a drain, after what [b] still had to do. *)
Lemma steady_end a k1 b v : drain_part b = drain_part a \/ (exists t, drain_part b = (ea_lifecycle a, dc_policy (ea_drain a), ea_scheduler a, t, ea_next_handle a)) ->
  terminations k1 = 0%nat -> state_is a kDraining = true -> let '(_, a', k2) := stop_lifecycle v b in steadily a (k1 ++ k2) a'.
Proof.
  intros Hb Hk [lc [E Es]]%state_draining.
  assert (Hb' : exists t, drain_part b = (ea_lifecycle a, dc_policy (ea_drain a), ea_scheduler a, t, ea_next_handle a)) by (destruct Hb as [Hb|Hb]; [by eexists|done]).
  destruct Hb' as [t Hb']. injection Hb' as B1 B2 B3 B4 B5. rewrite E in B1. pose proof (stop_lifecycle_run v b lc B1 Es) as Hr.
  destruct (stop_lifecycle v b) as [[x a'] k2]. destruct Hr as (lc' & downs & Hp & Es' & _ & _ & Hd & Ek). injection Hp as D1 D2 D3 D4 D5. intros (_ & H2 & H3 & H4).
  destruct (state_stopped a' lc' D1 Es') as (_ & Ha' & Hn). split; [split; [by eexists|split; [congruence|split; congruence]]| |intros armed _; unfold timer_armed; by rewrite Hn].
  rewrite terminations_app, Hk, Ha'. assert (Hdt : terminations downs = 0%nat).
  { apply quiet_calls. eapply Forall_impl; [exact Hd|]. by intros []. }
  assert (Ht : (terminations k2 <= 1)%nat) by (rewrite Ek; destruct (ea_context b); [|by vm_compute; lia]; change (CTerminated (ea_exit_reason b) :: downs) with ([CTerminated (ea_exit_reason b)] ++ downs); rewrite terminations_app, Hdt; by vm_compute).
  unfold alive, state_is. rewrite E, Es. simpl. lia.
Qed.

Lemma cancel_run v (a : Actor) : let '(_, a', ks) := cancel_drain_timer v a in
  (exists t, drain_part a' = (ea_lifecycle a, dc_policy (ea_drain a), ea_scheduler a, t, ea_next_handle a) /\ (ea_scheduler a = true -> t = 0)) /\ terminations ks = 0%nat /\
  ea_mailbox a' = ea_mailbox a /\ ea_context a' = ea_context a /\ ea_exit_reason a' = ea_exit_reason a.
Proof.
  unfold cancel_drain_timer, mbind, act_bind, actor, when. simpl. destruct (ea_drain_timer a =? 0) eqn:E; bool_to_prop; simpl.
  - split; [|done]. exists (ea_drain_timer a). split; [done|]. by intros _.
  - destruct (ea_scheduler a) eqn:Es; simpl; (split; [|done]); eexists; (split; [unfold drain_part; simpl; by rewrite Es|done]).
Qed.
Lemma steady_complete : within steadily try_drain_completion.
Proof.
  apply within_actor. intros v a. destruct (state_is a kDraining) eqn:Ed; [|by apply steady_quiet]. destruct (mailbox_is_empty a); [|by apply steady_quiet]. simpl.
  unfold mbind, act_bind. pose proof (cancel_run v a) as Hc. destruct (cancel_drain_timer v a) as [[x b] k1]. destruct Hc as ((t & Hb & _) & Hk & _).
  pose proof (steady_end a k1 b v (or_intror (ex_intro _ t Hb)) Hk Ed) as He. by destruct (stop_lifecycle v b) as [[y a'] k2].
Qed.

(** Draining the mailbox. *)
Definition letters (a : Actor) (ks : list SystemCall) (a' : Actor) : Prop :=
  drain_part a' = drain_part a /\ ea_context a' = ea_context a /\ ea_exit_reason a' = ea_exit_reason a /\ ea_address a' = ea_address a /\ Forall quiet_call ks.
Lemma letters_trans a k1 b k2 c : letters a k1 b -> letters b k2 c -> letters a (k1 ++ k2) c.
Proof. intros (? & ? & ? & ? & ?) (? & ? & ? & ? & ?). repeat (split; [congruence|]). by apply Forall_app. Qed.
Lemma drain_mailbox_S fuel v (a : Actor) : drain_mailbox (S fuel) v a =
  match ea_mailbox a with
  | None => (tt, a, [])
  | Some b =>
      match box_try_pop b (sv_now v) with
      | (None, b') => (tt, set_actor_mailbox a (Some b'), [])
      | (Some m, b') => let '(x, a', ks) := drain_mailbox fuel v (set_actor_mailbox a (Some b')) in (x, a', CDeadLetter DLR_MailboxClosed m (ea_address a) :: ks)
      end
  end.
Proof.
  cbn [drain_mailbox]. unfold mbind, act_bind, actor, view, update_actor, ask_system. simpl. destruct (ea_mailbox a) as [b|]; [|done].
  destruct (box_try_pop b (sv_now v)) as [[m|] b']; [|done]. by destruct (drain_mailbox fuel v _) as [[x a'] ks].
Qed.
Lemma letters_mailbox fuel : within letters (drain_mailbox fuel).
Proof.
  assert (Hrefl : forall a, letters a [] a) by (intros a; repeat split; constructor).
  induction fuel as [|fuel IH]; intros v a; [apply Hrefl|]. rewrite drain_mailbox_S.
  destruct (ea_mailbox a) as [b|]; [|apply Hrefl]. destruct (box_try_pop b (sv_now v)) as [[m|] b']; [|repeat split; constructor].
  specialize (IH v (set_actor_mailbox a (Some b'))). destruct (drain_mailbox fuel v _) as [[x a'] ks]. simpl in *.
  destruct IH as (? & ? & ? & ? & ?). by repeat (split; [done|]); constructor.
Qed.
Lemma steady_timer : within steadily drain_timer_fired.
Proof.
  apply within_actor. intros v a. destruct (state_is a kDraining) eqn:Ed; [|by apply steady_quiet]. simpl. unfold mbind, act_bind.
  pose proof (letters_mailbox (match ea_mailbox a with Some b => S (length (box_list b)) | None => 0 end) v a) as Hl. unfold drain_all_immediate, mbind, act_bind, actor. simpl.
  destruct (drain_mailbox _ v a) as [[x b] k1]. simpl in *. destruct Hl as (Hb & _ & _ & _ & Hk). destruct (quiet_calls k1 Hk) as [Hk1 _].
  pose proof (steady_end a k1 b v (or_introl Hb) Hk1 Ed) as He. by destruct (stop_lifecycle v b) as [[y a'] k2].
Qed.

Lemma steady_admissible : admissible_end steadily.
Proof.
  split; [split|..].
  - intros a. by apply steady_quiet.
  - apply steady_trans.
  - intros a a' E. apply steady_quiet; [|done]. injection E as E1 E2 E3 E4 E5 E6 E7 E8. unfold drain_part. by rewrite E2, E3, E4, E5, E6.
  - intros a k Hk. apply steady_quiet; [done|]. constructor; [|done]. by destruct k.
  - intros a c ks c' _ Hc. apply steady_quiet; [done|]. by eapply context_quiet.
  - intros a lc reason now E. apply (steady_lifecycle a lc); [done|]. unfold transition_to_quarantined.
    match goal with |- context [transition ?l kQuarantined now] => destruct (transition_state l kQuarantined now) as [->|[-> Hl]] end; [by left|right]. simpl in *.
    split; [done|]. right. right. by destruct (lc_state lc).
  - intros a Hp (H1 & H2 & H3 & H4). split; [by split|unfold terminations, alive, state_is; simpl; lia|by intros armed].
  - apply steady_stop.
  - intros a lc to_ now E Ht. apply (steady_lifecycle a lc); [done|]. destruct (transition_state lc to_ now) as [->|[-> Hl]]; [by left|right]. destruct Ht as [->| ->]; (split; [done|]); tauto.
  - intros v a Hq. unfold state_is in Hq. destruct (ea_lifecycle a) as [lc|] eqn:E; [|done]. apply bool_decide_eq_true in Hq.
    unfold release_quarantine, lc_transition, with_lifecycle, mbind, act_bind, actor, view, update_actor. simpl. rewrite E. unfold transition. rewrite Hq. simpl. intros (_ & H2 & H3 & H4).
    split; [by split|unfold alive, state_is; simpl; rewrite E, Hq; by vm_compute|by intros armed].
  - apply steady_complete.
Qed.

Lemma steady_change f : within steadily (change_context f).
Proof. intros v a. rewrite change_context_run. simpl. destruct (ea_context a); by apply steady_quiet. Qed.
Lemma steady_receive m : within steadily (receive m).
Proof.
  pose proof (ae_base _ steady_admissible) as HB. apply within_actor. intros v a. generalize (apply_message_adapters run_adapter a m). intros m'. cbv zeta.
  destruct ((TypeTag_User <=? tm_type_id m') && is_fast_tag (tm_type_id m') (ea_fast_tag_bitset a)).
  - apply (ok_user _ HB m' v a).
  - match goal with |- steadily _ (?m0 v a).2 _ => enough (Hw : within steadily m0) by apply Hw end. clear v a. unfold bind. apply (ok_bind _ HB); [apply ok_drain_gate, steady_admissible|]. intros open. destruct (negb open); [by apply ok_ret|].
    apply (ok_bind _ HB); [by apply ok_system|]. intros [|]; [by apply ok_ret|]. apply (ok_bind _ HB); [by apply ok_gate|]. intros [|]; [|by apply ok_ret].
    unfold EventActor.handle_message. apply (ok_bind _ HB); [by apply ok_initialize|]. intros _. apply (ok_bind _ HB); [apply steady_change|]. intros _.
    apply (ok_bind _ HB); [apply ok_process, steady_admissible|]. intros _. apply steady_change.
Qed.

Lemma timer_ends v (a : Actor) : state_is (drain_timer_fired v a).1.2 kDraining = false.
Proof.
  unfold EventActor.drain_timer_fired, mbind at 1, act_bind at 1, actor. destruct (state_is a kDraining) eqn:Ed; [|done]. simpl.
  unfold mbind, act_bind. pose proof (letters_mailbox (match ea_mailbox a with Some b => S (length (box_list b)) | None => 0 end) v a) as Hl. unfold drain_all_immediate, mbind, act_bind, actor. simpl.
  destruct (drain_mailbox _ v a) as [[x b] k1]. simpl in *. destruct Hl as (Hb & _). apply state_draining in Ed as (lc & E & Es). injection Hb as B1 B2 B3 B4 B5. rewrite E in B1.
  pose proof (stop_lifecycle_run v b lc B1 Es) as Hr. destruct (stop_lifecycle v b) as [[y a'] k2]. destruct Hr as (lc' & downs & Hp & Es' & _). simpl.
  injection Hp as D1 _ _ _ _. by destruct (state_stopped a' lc' D1 Es') as (_ & _ & ?).
Qed.

(** The timers that are armed after a history. *)
Fixpoint armed_after (h : list (SystemView * ActorEvent)) (a : Actor) (armed : list Z) : list Z :=
  match h with
  | [] => armed
  | (v, e) :: h =>
      let '(_, a', ks) := event_step e v a in
      armed_after h a' (arm ks (match e with EvTimer t => filter (fun x => x <> t) armed | _ => armed end))
  end.

(** C4. In the life of an actor that is not set to stop at once, however often it is
    stopped and whatever messages, administration and user code do, it announces
    its end at most once, it has come to its end when it has announced it, and
    while it drains a timer that will end the drain is armed.  Events, the callback
    of the timer among them, follow one another. *)
Theorem drain_ends_once (h : list (SystemView * ActorEvent)) (a : Actor) (armed : list Z) :
  drainable a -> timer_armed a armed ->
  let '(a', ks) := run_events h a in
  drainable a' /\ (terminations ks <= 1)%nat /\ (terminations ks = 1%nat -> alive a = 1%nat /\ alive a' = 0%nat) /\ timer_armed a' (armed_after h a armed).
Proof.
  intros Hd Ht. assert (Hgen : drainable (run_events h a).1 /\ (terminations (run_events h a).2 + alive (run_events h a).1 <= alive a)%nat /\ timer_armed (run_events h a).1 (armed_after h a armed)).
  { revert a armed Hd Ht. induction h as [|[v e] h IH]; intros a armed Hd Ht; [simpl; unfold terminations; simpl; split; [done|split; [lia|done]]|].
    cbn [run_events armed_after].
    assert (Hs : steadily a (event_step e v a).2 (event_step e v a).1.2) by (destruct e; [apply steady_receive|apply steady_stop|apply steady_timer|by apply steady_quiet]).
    destruct (Hs Hd) as [Hd1 He1 Ht1].
    assert (Ht2 : timer_armed (event_step e v a).1.2 (arm (event_step e v a).2 (match e with EvTimer t => filter (fun x => x <> t) armed | _ => armed end))).
    { destruct e as [m| |t|b]; [by apply Ht1|by apply Ht1| |by apply Ht1]. unfold timer_armed. simpl. by rewrite timer_ends. }
    destruct (event_step e v a) as [[x a1] k1]. simpl in *. destruct (IH a1 _ Hd1 Ht2) as (H1 & H2 & H3). destruct (run_events h a1) as [a2 k2]. simpl in *.
    rewrite terminations_app. split; [done|]. split; [lia|done]. }
  destruct (run_events h a) as [a' ks]. simpl in *. destruct Hgen as (H1 & H2 & H3).
  assert (Hl : forall b : Actor, (alive b <= 1)%nat) by (intros b; unfold alive; case_match; lia). pose proof (Hl a). pose proof (Hl a').
  split; [done|]. split; [lia|]. split; [lia|done].
Qed.

(** ** Every drain comes to its end *)

Section Stays.
Context (s : LifecycleState) (Hs : s = kDraining \/ s = kStopped).


End Stays.

Context {HL : ActorBoxLaws M}.











End Spec.

(** ** Examples *)

(** A mailbox that is a list. *)
#[export] Instance list_box_ops : MailboxOps (list TypedMsg) TypedMsg := {|
  box_try_pop b _ := match b with [] => (None, []) | m :: l => (Some m, l) end;
  box_empty b := match b with [] => true | _ => false end
|}.
#[export] Instance list_box : ActorBox (list TypedMsg) := {| box_snapshot _ := empty_snapshot; box_list b := b |}.
#[export] Instance list_box_laws : ActorBoxLaws (list TypedMsg).
Proof. split; [intros b now m l E; simpl in E; subst; by eexists|intros b now E; simpl in E; subst; by eexists|]. by intros []. Qed.

Module Demo.
(** User code that keeps the messages it was given and replies twice; an adapter that makes a new message. *)
Notation Action := (UserAction (H := unit) (B := unit) (A := unit)).
Definition deserialize (_ : unit) (p : list Z) : option (list Z) := Some p.
Definition invoke (_ : unit) (d : list Z) (u : list TypedMsg) : list TypedMsg * list Action * list Z := (u, [], d).
Definition run_behavior (_ : unit) (m : TypedMsg) (u : list TypedMsg) : list TypedMsg * list Action :=
  (u ++ [m], [ActReply (typed_message 4097 [1]); ActReply (typed_message 4097 [2])]).
Definition run_adapter (_ : unit) (m : TypedMsg) : TypedMsg := typed_message 4200 (tm_payload m).
Definition encode_id (id : Z) : list Z := [id].
Definition encode_down (id reason : Z) : list Z := [id; reason].
Definition parse_inspect (p : list Z) : option InspectStateRequest := None.
Definition encode_inspect (r : InspectStateReply) : list Z := [].
Definition parse_quarantine (p : list Z) : option bool := match p with [x] => Some (x =? 1) | _ => None end.
Definition encode_quarantine (ok : bool) (e : QuarantineError) : list Z := [if ok then 1 else 0].

Definition demo_receive := receive (M := list TypedMsg) deserialize invoke run_behavior run_adapter ∅ (fun _ => []) encode_id encode_down parse_inspect encode_inspect (fun _ => true) [] parse_quarantine encode_quarantine.
Definition demo_stop := stop_actor (U := list TypedMsg) (H := unit) (B := unit) (A := unit) (M := list TypedMsg) encode_down.
Definition demo_events := run_events (M := list TypedMsg) deserialize invoke run_behavior run_adapter ∅ (fun _ => []) encode_id encode_down parse_inspect encode_inspect (fun _ => true) [] parse_quarantine encode_quarantine.
Definition demo_armed := armed_after (M := list TypedMsg) deserialize invoke run_behavior run_adapter ∅ (fun _ => []) encode_id encode_down parse_inspect encode_inspect (fun _ => true) [] parse_quarantine encode_quarantine.

Definition demo_context (linked : list ActorAddress) : ActorContext := set_links (context_new (local_demo 1)) linked [].
Definition echo_actor (s : LifecycleState) (linked : list ActorAddress) (fast : list Z) (adapters : list (Z * unit)) (box : list TypedMsg) : EventBasedActor (U := list TypedMsg) (H := unit) (B := unit) (A := unit) (M := list TypedMsg) :=
  mkEventActor (local_demo 1) "demo"%string (Some (demo_context linked)) (Some (mkLifecycle s 0 0 0 0 [])) (mkDrain DP_Drain 30000) (Some tt) ∅ false adapters
    (foldr add_fast_tag [0; 0; 0; 0] fast) quarantine_default (single_of_Z 0) (circuit_init 1000) 0 (Some box) true 0 1 [].
Definition message_from (sender tag : Z) (payload : list Z) : TypedMsg := set_sender_address (typed_message tag payload) (local_demo sender).
Definition ask_from (sender tag id : Z) : TypedMsg := set_ask_message_id (message_from sender tag []) id.
End Demo.
Import Demo.

Lemma asks_answered_once_witness :
  asks 7 (demo_events [(view_demo, EvReceive (ask_from 5 4096 7)); (view_demo, EvReceive (message_from 6 4096 [])); (view_demo, EvStop)] (echo_actor kActive [] [] [] [])).2 = 1%nat.
Proof.
  pose proof (asks_answered_once (M := list TypedMsg) deserialize invoke run_behavior run_adapter ∅ (fun _ => []) encode_id encode_down parse_inspect encode_inspect (fun _ => true) [] parse_quarantine encode_quarantine
    [(view_demo, EvReceive (ask_from 5 4096 7)); (view_demo, EvReceive (message_from 6 4096 [])); (view_demo, EvStop)] (echo_actor kActive [] [] [] []) 7) as Hw.
  destruct Hw as [Hle _]; [intros; by right|done|done|]. vm_compute in Hle. vm_compute. reflexivity.
Defined.

Lemma drain_ends_once_witness :
  let h := [(view_demo, EvStop); (view_demo, EvReceive (message_from 5 4096 [])); (view_demo, EvStop); (view_demo, EvTimer 1)] in
  (terminations (demo_events h (echo_actor kActive [local_demo 5] [] [] [])).2 <= 1)%nat /\ state_is (demo_events h (echo_actor kActive [local_demo 5] [] [] [])).1 kStopped = true.
Proof.
  split; [|vm_compute; reflexivity].
  pose proof (drain_ends_once (M := list TypedMsg) deserialize invoke run_behavior run_adapter ∅ (fun _ => []) encode_id encode_down parse_inspect encode_inspect (fun _ => true) [] parse_quarantine encode_quarantine
    [(view_demo, EvStop); (view_demo, EvReceive (message_from 5 4096 [])); (view_demo, EvStop); (view_demo, EvTimer 1)] (echo_actor kActive [local_demo 5] [] [] []) []) as Hw.
  fold demo_events in Hw. destruct (demo_events _ _) as [a' ks]. apply Hw; [split; [by eexists|split; [done|split; [done|by vm_compute]]]|done].
Defined.


(** ** What the order of the gates lets through *)

Definition life (a : EventBasedActor (U := list TypedMsg) (H := unit) (B := unit) (A := unit) (M := list TypedMsg)) : option LifecycleState := lc_state <$> ea_lifecycle a.
Definition run2 (m1 m2 : TypedMsg) (a : EventBasedActor (U := list TypedMsg) (H := unit) (B := unit) (A := unit) (M := list TypedMsg)) : list SystemCall :=
  (demo_events [(view_demo, EvReceive m1); (view_demo, EvReceive m2)] a).2.
Definition sent_to (k : SystemCall) : option (Z * list Z) := match k with CDeliver t m _ _ _ => Some (t, tm_payload m) | _ => None end.

(** A fast message does not set the sender: its reply goes to the sender of the
    message before it. *)
Lemma fast_reply_misdirected :
  omap sent_to (run2 (message_from 5 4200 []) (message_from 6 4096 []) (echo_actor kActive [] [4096] [] [])) = [(5, [1]); (5, [2]); (5, [1]); (5, [2])].
Proof. vm_compute. reflexivity. Qed.

(** An ask with a fast tag is never answered. *)
Lemma fast_ask_unanswered : asks 7 (demo_receive (ask_from 6 4096 7) view_demo (echo_actor kActive [] [4096] [] [])).2 = 0%nat.
Proof. vm_compute. reflexivity. Qed.

(** Only the low eight bits of a tag are compared. *)
Lemma fast_tags_alias tag : is_fast_tag (tag + 256) (add_fast_tag tag [0; 0; 0; 0]) = is_fast_tag tag (add_fast_tag tag [0; 0; 0; 0]).
Proof.
  unfold is_fast_tag, fast_bit. replace (Z.land (tag + 256) 255) with (Z.land tag 255); [done|].
  change 255 with (Z.ones 8). rewrite !Z.land_ones by lia. change 256 with (1 * 2 ^ 8). by rewrite Z.mod_add.
Qed.

(** A stopped actor runs its behavior on fast messages. *)
Lemma fast_tag_runs_when_stopped : exists ks, (demo_receive (message_from 6 4096 []) view_demo (echo_actor kStopped [] [4096] [] [])).2 = CUserCode (message_from 6 4096 []) :: ks.
Proof. eexists. vm_compute. reflexivity. Qed.

(** A drain whose last message changes a link goes on until its timer fires. *)
Lemma link_message_keeps_draining : life (demo_receive (message_from 6 TypeTag_LinkMsg []) view_demo (echo_actor kDraining [] [] [] [])).1.2 = Some kDraining.
Proof. vm_compute. reflexivity. Qed.

(** An actor with an empty mailbox that is stopped waits for the whole drain timeout. *)
Lemma idle_stop_waits : life (demo_stop view_demo (echo_actor kActive [] [] [] [])).1.2 = Some kDraining /\
  (demo_stop view_demo (echo_actor kActive [] [] [] [])).2 = [CScheduleTimer 1 30000000000].
Proof. vm_compute. done. Qed.

(** An actor that is killed stops without telling those that it is linked to. *)
Lemma kill_tells_nobody : let '(_, a, ks) := demo_receive (message_from 6 KillRequestTag []) view_demo (echo_actor kActive [local_demo 5] [] [] []) in
  life a = Some kStopped /\ omap sent_to ks = [(6, [])] /\ terminations ks = 0%nat.
Proof. vm_compute. done. Qed.

(** The answer to a quarantine request says that it succeeded when it did not. *)
Lemma quarantine_answer_wrong : let '(_, a, ks) := demo_receive (message_from 6 QuarantineRequestTag [0]) view_demo (echo_actor kDraining [] [] [] []) in
  life a = Some kDraining /\ omap sent_to ks = [(6, [1])].
Proof. vm_compute. done. Qed.

(** A message that an adapter translates has lost its sender: nothing is replied. *)
Lemma adapter_loses_sender : let ks := (demo_receive (message_from 6 4300 []) view_demo (echo_actor kActive [] [] [(4300, tt)] [])).2 in
  length ks = 1%nat /\ omap sent_to ks = [].
Proof. vm_compute. done. Qed.

(** A second stop starts a second timer; the first is not cancelled when the drain ends. *)
Lemma second_stop_leaks_timer :
  let h := [(view_demo, EvStop); (view_demo, EvStop); (view_demo, EvReceive (message_from 5 4096 []))] in
  life (demo_events h (echo_actor kActive [] [] [] [])).1 = Some kStopped /\ demo_armed h (echo_actor kActive [] [] [] []) [] = [1].
Proof. vm_compute. done. Qed.

(** A stopped actor still takes part in links, although its state accepts no
    system messages: the other side is never told that it is gone. *)
Lemma link_to_stopped_unreported : accepts_system_msgs (kStateMachine kStopped) = false /\
  let '(_, a, ks) := demo_receive (message_from 6 TypeTag_LinkMsg []) view_demo (echo_actor kStopped [] [] [] []) in
  ks = [] /\ (cx_linked <$> ea_context a) = Some [local_demo 6].
Proof. vm_compute. done. Qed.

(** The end of an actor that is only monitored sets off the death pact. *)
Lemma pact_ignores_links :
  let a := echo_actor kActive [] [] [] [] in
  let a := set_context a (Some (set_death_pact (demo_context []) true)) in
  (cx_passivation_requested <$> ea_context (demo_receive (message_from 6 TypeTag_DownMsg []) view_demo a).1.2) = Some true.
Proof. vm_compute. done. Qed.
